(* ===== verification/_CoqProject ===== *)
-Q . S2P
Prelude.v
Wire.v
WireProofs.v
Prologue.v
Framing.v
StreamFramer.v
Time.v
Clock.v
Timeline.v
Scheduling.v
Pool.v
MemEnvelope.v
Admission.v
Arena.v
Executor.v
Budget.v
Ticket.v
Fields.v
Scalar.v
Structured.v
Packet.v
ArrayCif.v
ArrayProofs.v
Builder.v
BuilderProofs.v
Encoder.v
EncoderProofs.v
PacketTiles.v
Readers.v
PacketRoundtrip.v
DiagnosticRoundtrip.v
Extensions.v
Counters.v
Routing.v
FixedVector.v
State.v
Cam.v
Sdr.v
Observer.v
Cancellation.v
Backend.v
Plan.v
PlanProofs.v
Engine.v
EngineProofs.v
EngineRuns.v
Retention.v
RetentionProofs.v
RetentionFrames.v
Controller.v
ControllerProofs.v
Manager.v
ManagerProofs.v
ManagerRuns.v
History.v
Receiver.v
Revisions.v
Publisher.v
PublisherProofs.v
ContextWire.v
NumericSamples.v
NumericProofs.v
PackedSamples.v
PackedProofs.v
IeeeSamples.v
IeeeProofs.v
IqSamples.v
SampleDescriptors.v
DescriptorProofs.v
