(* ===== verification/Prelude.v ===== *)
(** * Verification of the vrt_framework (VITA 49.2) C++ sources

    vrt_framework is a header-only C++23 implementation of the ANSI/VITA 49.2 radio
    transport protocol: a codec for packets, a field registry with structured fields, a
    protocol clock and sample timeline, fixed-capacity memory and execution resources, a
    transaction layer for control packets, and a runtime that ties them to a transport.
    All code modelled here is under [src/include/vita].

    ** Conventions

    - A machine integer is a [Z]; wrap-around is written out ([wrap8] .. [wrap64]) wherever
      the C++ expression can wrap.  [std::size_t] has 64 bits.
    - [Result] is [std::expected<T, Error>] with a third outcome [UB] for a run that does
      what the language leaves undefined (an access outside an array or span, an empty
      optional read, an object read where none was stored).  A theorem that a function is
      [safe] says that it never has that outcome.
    - An enumeration whose values the code range-checks is a module of [Z] constants, any
      other one an [Inductive].  A struct is a [Record], a fixed array a list whose length
      is part of the invariant, a pointer into an array an index, a function pointer an
      identity or a parameter.  A callback that can call back is given as the list of calls it
      makes on its capabilities.
    - A mutating operation returns its result and the new state.  Operations that the code
      makes atomic (by a mutex or by running in one serialised domain) are one step; where
      threads interleave between atomic accesses (completion tickets, buffer references) the
      accesses are separate steps of a relation; of a ticket these include every load of the
      scan for a free slot.
    - Loops are structural recursions on the data they traverse, or on the number of
      iterations the code fixes; no definition needs fuel that could run out (the loop over
      the steps of a transaction has one more than its fields).  The stream
      framer's loop is bounded by the length of its input, each iteration consuming at
      least one byte.

    ** Files

    Codec
    - [Wire]: words, envelopes, [encode_envelope] and [decode_envelope]
      ([codec/wire.hpp]); [WireProofs]: round trips and safety.
    - [Prologue]: scatter/gather encoding ([codec/prologue.hpp]).
    - [Fields]: the field registry and value validation ([fields/types.hpp], [cif1-3.hpp]).
    - [Scalar]: scalar field codec ([codec/scalar.hpp]).
    - [Structured]: structured fields on the wire ([codec/structured.hpp],
      [codec/cif1_structured.hpp] and their [fields/] counterparts).
    - [Packet]: [decode_packet], indicator parsing and the layout walk ([codec/packet.hpp],
      [codec/layout.hpp]).  [PacketTiles]: what an accepted packet says, against a description of
      its indicator words.  [Readers]: the accessors of a field view and of the lists, vectors
      and sectors they return.
    - [ArrayCif], [ArrayProofs]: arrays of records with indicator words of their own, nested to
      a depth of four ([codec/array_cif.hpp]); the walk over any visitor.
    - [Builder], [BuilderProofs]: packet snapshots and the builders that edit them
      ([fields/packet.hpp]); their invariant and the transactional edit.
    - [Encoder], [EncoderProofs]: measuring a snapshot and writing it, [encode_packet] and
      [encode_diagnostic] ([codec/packet.hpp], [codec/layout.hpp]); what each part writes.
      [PacketRoundtrip], [DiagnosticRoundtrip]: the encoders against [decode_packet].
    - [Extensions]: the registry of extension classes, whose callbacks are parameters over a
      state of the application and a budget of work ([codec/extensions.hpp]).

    Transport and streams
    - [Framing]: packet boundaries of scattered input ([runtime/transport/framing.hpp]).
    - [StreamFramer]: reassembly of packets from a byte stream
      ([runtime/transport/stream_framer.hpp]).
    - [Counters], [Routing]: packet counters and the route registry ([runtime/stream]).

    Time
    - [Time], [Clock], [Timeline], [Scheduling]: [runtime/timing].

    Memory and execution
    - [Pool], [MemEnvelope]: buffer pools and packet envelopes ([memory]).
    - [Admission], [Arena], [Executor], [Budget]: [runtime/execution].
    - [Ticket]: completion tickets and quiescence guards ([runtime/completion/ticket.hpp]).
    - [FixedVector]: [core/fixed_vector.hpp].

    State and transactions
    - [State]: profiles, snapshots of the controlled state and their validation
      ([runtime/state/contracts.hpp], [profiles/iq/profile.hpp]).
    - [Cam]: command modes and the validators of the profiles
      ([runtime/transaction/cam.hpp]).
    - [Observer]: response records and the controller's view of a transaction
      ([runtime/transaction/outcomes.hpp]).
    - [Cancellation]: [runtime/transaction/cancellation.hpp].
    - [Retention], [RetentionProofs], [RetentionFrames]: the store that detects duplicate
      commands and replays their responses, and what its calls leave alone
      ([runtime/transaction/retention.hpp]).

    - [Sdr]: capability tables of SDR devices ([profiles/iq/sdr.hpp]).
    - [Backend]: the storage shared with a device, its capabilities, the interface of a
      backend (the record [Backend] with the laws of the class [BackendLaws]) and the virtual
      backend, an instance of it ([runtime/transaction/backend.hpp]).
    - [Plan], [PlanProofs]: requests, validation of their fields, the dependency order and
      eligibility of a plan (the planning half of [runtime/transaction/engine.hpp]).
    - [Engine], [EngineProofs], [EngineRuns]: the transaction engine over any backend and
      effect sink: acceptance, progress, cancellation, shutdown, reset; its invariant; the
      theorems on all its runs, where an event is a call of a public function or a use of a
      capability by the device between calls.
    - [Controller], [ControllerProofs]: the registry of a controller, which numbers requests,
      matches responses to them, times them out and keeps what they said
      ([runtime/transaction/controller.hpp]).
    - [Manager], [ManagerProofs], [ManagerRuns]: the manager of a controllee, which composes
      the engine, the retention store and the admission pool they share: duplicates are
      answered from the store, commands opened in the engine, cancellations kept until their
      time, answers moved to the store ([runtime/transaction/manager.hpp]).  Its loop that
      drains the answers of a transaction has one unit of fuel more than the engine can queue.

    Context
    - [History], [Receiver]: the receiver's history of context reports, the state it resolves
      for a time, and the data packets that wait for it ([runtime/context/receiver.hpp]).
    - [Revisions]: the store of state revisions waiting for publication
      ([runtime/context/revisions.hpp]).
    - [Publisher], [PublisherProofs]: publication of context packets and the gate that holds
      data back until its context was sent ([runtime/context/publisher.hpp]).
    - [ContextWire]: [encode_context] of the same file, and the way of a context packet through
      builder, encoder, decoder and history.

    Samples
    - [NumericSamples], [NumericProofs]: fixed-point, non-normalised and VRT floating-point
      formats ([codec/numeric_samples.hpp]).
    - [IeeeSamples], [IeeeProofs]: binary16, binary32 and binary64
      ([codec/ieee_samples.hpp]).
    - [PackedSamples], [PackedProofs]: packed items with tags and their coordinates
      ([codec/general_samples.hpp]).
    - [SampleDescriptors], [DescriptorProofs]: payload formats, padding, contiguous and
      segmented payloads ([codec/sample_descriptors.hpp], [codec/segmented_samples.hpp]).
    - [IqSamples]: IQ pairs ([codec/samples.hpp]).

    ** What the theorems show

    - Codec: encoding then decoding an envelope gives it back, and every accepted wire image
      is the only encoding of what it decodes to; decoding never reads outside its input, nor
      does any reader of an accepted packet, and the one of its field succeeds; the views of
      a packet are exactly those its indicator words select, and with these words they tile
      the body without gaps; scalar values round-trip.
    - Packets: a builder always holds its fields in packet order, announced by its indicator
      words, with exactly the values its mask selects; an edit changes what it says and nothing
      else; a packet or a diagnostic acknowledgement of at most sixteen fields and sixty-four
      views, the capacities of the default decoder, decodes to what was encoded (a noise
      figure of zero reads as unknown, for this is its code on the wire); the encoder is defined and writes nothing when it refuses; what a
      registry encodes for an extension class its own receive path accepts; a validated array
      shows every visitor the same elements, which tile its records.
    - Streams: however a byte stream is cut into chunks, the framer delivers exactly its
      packets; a route lookup finds the only matching route; packet counts are consecutive.
    - Time: arithmetic is exact on picoseconds, the timeline is exact from its origin for any
      sequence of steps, and the scheduler picks the closest admissible boundary.
    - Resources: credits and budgets are conserved, blocks and slots have one owner,
      completions are delivered exactly once, the executor invokes each accepted task once, in
      the order of acceptance, also when tasks submit and run others.
    - Transactions: a snapshot is accepted exactly when it satisfies its profile; accepted
      values keep it valid; the observer's history is the joint evidence of the events; the
      retention store reads back what was stored whatever other records do, detects exactly
      the duplicates, and keeps completed commands for the promised thirty seconds.
    - Engine: no run of the engine is undefined, as long as a cancellation is a packet with a
      command, and its caller keeps the other conditions stated with the theorem; at most one transaction is with the device;
      released handles stay stale; an accepted command opens one new transaction and a refused
      one none; the recorded state is what the device reported, well formed or not; queries and simulations leave
      the device alone; no acknowledgement is lost; a shutdown settles every transaction.  A
      plan orders its fields by their dependencies, exactly when that is possible, and only
      valid values reach the device.
    - Controller: no run of the registry on any received bytes is undefined; a response reaches
      the one request it answers; deadlines end exactly the phases that have passed them; a
      handle stays with its request until the request has ended, its references have all been
      released and its time has come, and is stale for good once the request was dropped.
    - Manager: no run of the manager on its engine and store is undefined; a command that is
      not a duplicate opens one transaction and binds its record to it, anything else opens
      none; progress moves every answer of the engine to the store, in order, and ends exactly
      the transactions that are complete.
    - Context: the history holds the latest reports for their effective times, whatever the order of
      arrival when these differ, and a state is reported as known exactly when it can be trusted; no data is
      sent before its context, context goes out in order of time, a reservation of revisions
      is honoured, and no packet waits longer than the bound; a frame of the publisher reaches
      the receiver's history, through the wire, as the state and time it announces.
    - Samples: decoding is exact and encoding is the correct rounding among all values of the
      format, ties to even in that mode, for the VRT formats with several exponents as well as for the IEEE ones; exact
      encoding succeeds for precisely the representable values; items and coordinates
      round-trip; segments read as the contiguous payload.  The values are compared as integer
      multiples of [2^-40000], a unit that divides every value the types can hold.

    ** Not modelled

    The native forms of structured fields ([fields/arena.hpp], the writers of
    [codec/structured.hpp] and the builders and snapshots with an arena), so that the builders
    and the encoder are those of packets without structured values; the trace hook of the
    transaction layer; the public runtime facade, which owns and wires the modelled parts; the
    socket adapters ([adapters/posix_udp]), which are calls into the operating system, and the
    loopback adapter ([adapters/loopback]), a transport for tests composed of pools, credits,
    routes, counters and tickets; the IQ example profiles beyond [profile.hpp]; examples,
    benchmarks, fuzzers, drafts and tests. *)

From Stdlib Require Export ZArith Lia.
From Stdlib Require Export Strings.Byte.
From stdpp Require Export base numbers list option decidable.

#[global] Open Scope Z_scope.
Declare Scope vrt_scope.
#[global] Open Scope vrt_scope.

(** ** Errors and results ([include/vita/core/error.hpp]) *)

Module ErrorCode.
Inductive t :=
  | invalid_argument | unsupported_layout | unsupported_capability
  | overflow | short_input | short_output | capacity_exhausted | stale_generation
  | invalid_state | would_deadlock | callback_failure | no_cpu_access
  | resource_limit | identity_conflict.
#[global] Instance t_eq_dec : EqDecision t.
Proof. solve_decision. Defined.
End ErrorCode.

Module EffectState.
Inductive t := none | known | unknown.
#[global] Instance t_eq_dec : EqDecision t.
Proof. solve_decision. Defined.
End EffectState.

Module ErrorStage.
Inductive t :=
  | none | validation | encoding | decoding | admission | execution | transport | lifecycle.
#[global] Instance t_eq_dec : EqDecision t.
Proof. solve_decision. Defined.
End ErrorStage.

Record Error := mkError {
  err_code : ErrorCode.t;
  err_offset : Z;
  err_required_capacity : Z;
  err_consumed : Z;
  err_field_id : Z;
  err_retryable : bool;
  err_effect : EffectState.t;
  err_stage : ErrorStage.t;
  err_native_error : Z
}.

#[global] Instance Error_eq_dec : EqDecision Error.
Proof. solve_decision. Defined.

(** [Error{code, offset, required}] with the remaining members at their
    default member initialisers. *)
Definition error3 (c : ErrorCode.t) (offset required : Z) : Error :=
  mkError c offset required 0 0 false EffectState.none ErrorStage.none 0.
Definition error2 (c : ErrorCode.t) (offset : Z) : Error := error3 c offset 0.
Definition error1 (c : ErrorCode.t) : Error := error3 c 0 0.

(** [Result<T>] is [std::expected<T, Error>].  The third constructor [UB] is the
    outcome of a run that performs an operation the language leaves undefined
    (an access outside a span, a dereferenced empty optional): a theorem that a
    function never returns [UB] is a memory-safety theorem. *)
Inductive Result (A : Type) : Type :=
  | Ok (a : A)
  | Err (e : Error)
  | UB.
Arguments Ok {A} a.
Arguments Err {A} e.
Arguments UB {A}.

Definition rbind {A B} (m : Result A) (k : A -> Result B) : Result B :=
  match m with Ok a => k a | Err e => Err e | UB => UB end.

Definition rmap {A B} (f : A -> B) (m : Result A) : Result B :=
  rbind m (fun a => Ok (f a)).

Notation "'let?' x ':=' m 'in' k" := (rbind m (fun x => k))
  (at level 10, x pattern, m at level 200, k at level 200) : vrt_scope.

(** [if(c) return std::unexpected(e); rest] *)
Notation "'fail_if' c 'with' e ';;' k" := (if c then Err e else k)
  (at level 10, c at level 200, e at level 99, k at level 200) : vrt_scope.

(** Reading through a pointer, an optional or a span is [UB] when there is
    nothing there. *)
Definition deref {A} (o : option A) : Result A :=
  match o with Some a => Ok a | None => UB end.

(** A call whose result is discarded keeps only the state. *)
Definition is_ok {A} (r : Result A) : bool := match r with Ok _ => true | _ => false end.
Definition safe {A} (r : Result A) : Prop := r <> UB.

Lemma rbind_Ok {A B} (m : Result A) (k : A -> Result B) b :
  rbind m k = Ok b <-> exists a, m = Ok a /\ k a = Ok b.
Proof.
  destruct m; simpl; split; try done; try (intros (?&?&?); done).
  - eauto.
  - intros (?&[= ->]&?); done.
Qed.

Lemma rbind_safe {A B} (m : Result A) (k : A -> Result B) :
  safe m -> (forall a, m = Ok a -> safe (k a)) -> safe (rbind m k).
Proof. destruct m; simpl; auto; done. Qed.

(** Runs that are defined and whose result satisfies a predicate. *)

Definition returns {A} (m : Result A) (Q : A -> Prop) : Prop := match m with Ok a => Q a | Err _ => True | UB => False end.

Lemma returns_bind {A B} (m : Result A) (k : A -> Result B) P Q :
  returns m P -> (forall a, m = Ok a -> P a -> returns (k a) Q) -> returns (rbind m k) Q.
Proof. destruct m; cbn; auto. Qed.
Lemma returns_guard {A} (c : bool) e (k : Result A) Q : (c = false -> returns k Q) -> returns (if c then Err e else k) Q.
Proof. destruct c; cbn; auto. Qed.
Lemma returns_mono {A} (m : Result A) (P Q : A -> Prop) : returns m P -> (forall a, P a -> Q a) -> returns m Q.
Proof. destruct m; cbn; auto. Qed.
Lemma returns_safe {A} (m : Result A) : safe m -> returns m (fun _ => True).
Proof. by destruct m. Qed.
Lemma returns_Ok {A} (m : Result A) Q a : returns m Q -> m = Ok a -> Q a.
Proof. by intros H ->. Qed.

Lemma rbind_assoc {A B C} (m : Result A) (f : A -> Result B) (g : B -> Result C) :
  rbind (rbind m f) g = rbind m (fun a => rbind (f a) g).
Proof. by destruct m. Qed.

(** ** Machine integers *)

Definition U8_MAX : Z := 255.
Definition U16_MAX : Z := 65535.
Definition U32_MAX : Z := 4294967295.
Definition U64_MAX : Z := 18446744073709551615.
(** [std::size_t] and [std::uintptr_t] are 64 bits on the supported platforms. *)
Definition SIZE_MAX : Z := U64_MAX.

Definition u8 (x : Z) : Prop := 0 <= x <= U8_MAX.
Definition u16 (x : Z) : Prop := 0 <= x <= U16_MAX.
Definition u32 (x : Z) : Prop := 0 <= x <= U32_MAX.
Definition u64 (x : Z) : Prop := 0 <= x <= U64_MAX.

(** Unsigned arithmetic wraps. *)
Definition wrap8 (x : Z) : Z := x mod 256.
Definition wrap16 (x : Z) : Z := x mod 65536.
Definition wrap32 (x : Z) : Z := x mod 4294967296.
Definition wrap64 (x : Z) : Z := x mod 18446744073709551616.

Definition zlen {A} (l : list A) : Z := Z.of_nat (length l).

(** [bool(w & (1u<<k))] *)
Definition bit_set (w k : Z) : bool := negb (Z.land w (Z.shiftl 1 k) =? 0).
(** [c ? 1u<<k : 0] *)
Definition flag (b : bool) (k : Z) : Z := if b then Z.shiftl 1 k else 0.
(** The contextual conversion of an integer to [bool], and back. *)
Definition nonzero (w : Z) : bool := negb (w =? 0).
Definition b2z (b : bool) : Z := if b then 1 else 0.

Create HintDb vrt.
#[export] Hint Unfold u8 u16 u32 u64 : vrt.

Ltac unfold_words :=
  unfold u8, u16, u32, u64, SIZE_MAX, U8_MAX, U16_MAX, U32_MAX, U64_MAX,
    wrap8, wrap16, wrap32, wrap64 in *.

(** [zlia]: linear arithmetic with division by constants and the word bounds unfolded. *)
Ltac zlia := unfold_words; Z.div_mod_to_equations; lia.

(** Case analysis on every boolean test of the goal or of a hypothesis. *)
Ltac bdestruct_step :=
  match goal with
  | |- context [?a <? ?b] => destruct (Z.ltb_spec a b)
  | |- context [?a <=? ?b] => destruct (Z.leb_spec a b)
  | |- context [?a =? ?b] => destruct (Z.eqb_spec a b)
  | H : context [?a <? ?b] |- _ => destruct (Z.ltb_spec a b)
  | H : context [?a <=? ?b] |- _ => destruct (Z.leb_spec a b)
  | H : context [?a =? ?b] |- _ => destruct (Z.eqb_spec a b)
  end.

(** The first test of the goal, with its equation. *)
Tactic Notation "test_goal" ident(E) :=
  match goal with |- context [if ?c then _ else _] => destruct c eqn:E end.

(** Inversion of a chain of monadic steps that ended in [Ok]. *)
Ltac inv_ok :=
  repeat match goal with
  | H : rbind _ _ = Ok _ |- _ => apply rbind_Ok in H as (? & ? & H)
  | H : Ok _ = Ok _ |- _ => injection H; clear H; intros; subst
  | H : ?a = Ok _ |- _ => is_var a; subst a
  | H : match ?p with (_, _) => _ end = Ok _ |- _ => is_var p; destruct p
  | H : Err _ = Ok _ |- _ => discriminate H
  | H : UB = Ok _ |- _ => discriminate H
  | H : deref ?o = Ok _ |- _ =>
      let E := fresh "E" in destruct o eqn:E; simpl in H
  | H : (if ?c then Err _ else _) = Ok _ |- _ =>
      let E := fresh "E" in destruct c eqn:E; [discriminate H|]
  | H : (if ?c then _ else Err _) = Ok _ |- _ =>
      let E := fresh "E" in destruct c eqn:E; [|discriminate H]
  end.

(** ** Bits of words *)

Lemma bit_set_testbit w k : 0 <= k -> bit_set w k = Z.testbit w k.
Proof.
  intros Hk. unfold bit_set. rewrite Z.shiftl_mul_pow2, Z.mul_1_l by lia.
  destruct (Z.testbit w k) eqn:E.
  - destruct (Z.eqb_spec (Z.land w (2 ^ k)) 0) as [H|]; [|done].
    apply (f_equal (fun z => Z.testbit z k)) in H.
    rewrite Z.land_spec, Z.pow2_bits_true, E, Z.bits_0 in H by lia. done.
  - rewrite (proj2 (Z.eqb_eq _ _)); [done|].
    apply Z.bits_inj'. intros n Hn. rewrite Z.land_spec, Z.bits_0, Z.pow2_bits_eqb by lia.
    destruct (Z.eqb_spec k n); [subst; by rewrite E|by rewrite andb_false_r].
Qed.

Lemma bit_set_div w k : 0 <= k -> bit_set w k = nonzero ((w / 2 ^ k) mod 2).
Proof.
  intros Hk. rewrite bit_set_testbit, Z.testbit_odd, Z.shiftr_div_pow2 by lia.
  unfold nonzero. rewrite Zmod_odd. by destruct (Z.odd _).
Qed.

Lemma land_mask w n : 0 <= n -> Z.land w (2 ^ n - 1) = w mod 2 ^ n.
Proof. intros. rewrite <- Z.land_ones, Z.ones_equiv by done. f_equal; lia. Qed.

(** [w & 1] *)
Lemma land1 w : Z.land w 1 = b2z (Z.odd w).
Proof. change 1 with (2 ^ 1 - 1). rewrite land_mask, Zmod_odd by lia. by destruct (Z.odd w). Qed.

Lemma odd_land1 x : nonzero (Z.land x 1) = Z.odd x.
Proof. rewrite land1. by destruct (Z.odd x). Qed.

Lemma flag_b2z b k : flag b k = b2z b * 2 ^ k.
Proof. destruct b; simpl; [by rewrite Z.shiftl_1_l, Z.mul_1_l|done]. Qed.

Lemma b2z_range b : 0 <= b2z b <= 1.
Proof. destruct b; simpl; lia. Qed.

Lemma b2z_nonzero x : 0 <= x <= 1 -> b2z (nonzero x) = x.
Proof. intros. assert (x = 0 \/ x = 1) as [-> | ->] by lia; done. Qed.

Lemma nonzero_b2z b : nonzero (b2z b) = b.
Proof. by destruct b. Qed.

(** Disjoint bit fields: [a|b] is [a+b] when no bit is set in both. *)
Lemma lor_disjoint a b : Z.land a b = 0 -> Z.lor a b = a + b.
Proof. intros. pose proof (Z.add_lor_land a b). lia. Qed.

Lemma testbit_high b n i : 0 <= b < 2 ^ n -> n <= i -> Z.testbit b i = false.
Proof.
  intros Hb Hi. destruct (Z.eq_dec b 0) as [->|]; [apply Z.bits_0|].
  apply Z.bits_above_log2; [lia|].
  assert (Z.log2 b < n); [|lia]. apply Z.log2_lt_pow2; lia.
Qed.

Lemma lor_low a b n : 0 <= n -> 0 <= b < 2 ^ n -> Z.lor (a * 2 ^ n) b = a * 2 ^ n + b.
Proof.
  intros Hn Hb. apply lor_disjoint. apply Z.bits_inj'. intros i Hi.
  rewrite Z.land_spec, Z.bits_0, Z.mul_pow2_bits by lia.
  destruct (Z.lt_ge_cases i n).
  - by rewrite (Z.testbit_neg_r a) by lia.
  - by rewrite (testbit_high b n), andb_false_r by lia.
Qed.

Lemma lor_mid a b f k m :
  0 <= k <= m -> 0 <= b < 2 ^ k -> 0 <= f -> f * 2 ^ k < 2 ^ m ->
  Z.lor (a * 2 ^ m + b) (f * 2 ^ k) = a * 2 ^ m + f * 2 ^ k + b.
Proof.
  intros Hk Hb Hf Hfm.
  assert (2 ^ k <= 2 ^ m) by (apply Z.pow_le_mono_r; lia).
  rewrite <- (lor_low a b m) by lia.
  rewrite <- Z.lor_assoc, (Z.lor_comm b), (lor_low f b k) by lia.
  rewrite lor_low; [lia|lia|].
  assert (Hm : 2 ^ m = 2 ^ (m - k) * 2 ^ k) by (rewrite <- Z.pow_add_r by lia; f_equal; lia).
  assert (f < 2 ^ (m - k)) by nia. nia.
Qed.

(** ** Bytes *)

Definition Z_of_byte (b : byte) : Z := Z.of_N (Byte.to_N b).
Definition byte_of_Z (z : Z) : byte :=
  match Byte.of_N (Z.to_N (z mod 256)) with Some b => b | None => x00 end.

Lemma Z_of_byte_range b : 0 <= Z_of_byte b < 256.
Proof. unfold Z_of_byte. pose proof (Byte.to_N_bounded b). lia. Qed.

Lemma Z_of_byte_of_Z z : Z_of_byte (byte_of_Z z) = z mod 256.
Proof.
  unfold Z_of_byte, byte_of_Z. destruct (Byte.of_N _) eqn:E.
  - apply Byte.to_of_N in E. rewrite E, Z2N.id; [done|]. apply Z.mod_pos_bound. lia.
  - apply Byte.of_N_None_iff in E. pose proof (Z.mod_pos_bound z 256). lia.
Qed.

Lemma byte_of_Z_of_byte b : byte_of_Z (Z_of_byte b) = b.
Proof.
  unfold byte_of_Z. rewrite Z.mod_small by apply Z_of_byte_range.
  unfold Z_of_byte. by rewrite N2Z.id, Byte.of_to_N.
Qed.

#[global] Instance byte_eq_dec : EqDecision byte := Byte.byte_eq_dec.

(** ** Fixed arrays of optional slots

    The registries of the framework are [std::array<std::optional<T>, N>] scanned
    from the first slot.  [first_free] is the index of the first empty slot, the
    loop [for(auto& e : slots) if(!e) ...]. *)
Fixpoint first_index {A} (p : A -> bool) (l : list A) : option nat :=
  match l with
  | [] => None
  | x :: l => if p x then Some 0%nat else S <$> first_index p l
  end.

Definition is_none {A} (o : option A) : bool := match o with None => true | Some _ => false end.
Definition is_some {A} (o : option A) : bool := match o with None => false | Some _ => true end.
Definition first_free {A} (l : list (option A)) : option nat := first_index is_none l.

Lemma first_index_Some {A} (p : A -> bool) l i :
  first_index p l = Some i <->
  (exists x, l !! i = Some x /\ p x = true) /\
  (forall j y, (j < i)%nat -> l !! j = Some y -> p y = false).
Proof.
  revert i. induction l as [|x l IH]; intros i; simpl.
  - split; [done|]. intros [(x & Hx & _) _]. by rewrite lookup_nil in Hx.
  - destruct (p x) eqn:E.
    + split.
      * intros [= <-]. split; [eauto|]. intros; lia.
      * intros [(y & Hy & Hp) Hj]. destruct i; [done|].
        by rewrite (Hj 0%nat x) in E by (lia || done).
    + split.
      * destruct (first_index p l) as [k|] eqn:Ek; [|done]. intros [= <-].
        destruct (proj1 (IH k) eq_refl) as [? Hj]. split; [done|].
        intros [|j] y Hlt Hy; simpl in *; [congruence|]. eapply Hj; [|done]. lia.
      * intros [(y & Hy & Hp) Hj]. destruct i as [|i]; simpl in Hy; [congruence|].
        rewrite (proj2 (IH i)); [done|]. split; [eauto|].
        intros j z Hlt Hz. apply (Hj (S j) z); [lia|done].
Qed.

Lemma first_index_None {A} (p : A -> bool) l :
  first_index p l = None <-> Forall (fun x => p x = false) l.
Proof.
  induction l as [|x l IH]; simpl; [by split|].
  rewrite list.Forall_cons, <- IH. destruct (p x); [by split; [|intros [? _]]|].
  destruct (first_index p l); split; (done || by intros [_ ?]).
Qed.

Lemma first_index_lt {A} (p : A -> bool) l i : first_index p l = Some i -> (i < length l)%nat.
Proof. intros [(x & Hx & _) _]%first_index_Some. by eapply lookup_lt_Some. Qed.

Lemma first_free_Some {A} (l : list (option A)) i :
  first_free l = Some i -> l !! i = Some None.
Proof. intros [([] & Hx & Hp) _]%first_index_Some; done. Qed.

(** The number of slots that satisfy a test ([n += bool(e)] loops). *)
Definition count_if {A} (p : A -> bool) (l : list A) : nat := length (List.filter p l).

Lemma count_if_insert {A} (p : A -> bool) l i x y :
  l !! i = Some x ->
  (count_if p (<[i:=y]> l) + (if p x then 1 else 0) = count_if p l + (if p y then 1 else 0))%nat.
Proof.
  unfold count_if. revert i. induction l as [|z l IH]; intros [|i] Hx; simplify_eq/=.
  - destruct (p x), (p y); simpl; lia.
  - specialize (IH _ Hx). destruct (p z); simpl; lia.
Qed.

Lemma count_if_replicate_none {A} n : count_if is_some (replicate n (@None A)) = 0%nat.
Proof. by induction n. Qed.

(** The occupied slots of a registry, seen through [f]. *)
Definition occupied {A B} (f : A -> B) (l : list (option A)) : list B := omap (fun o => f <$> o) l.

Lemma occupied_insert_free {A B} (f : A -> B) l i x :
  l !! i = Some None -> occupied f (<[i:=Some x]> l) ≡ₚ f x :: occupied f l.
Proof.
  intros Hi. rewrite <- (take_drop_middle l i None Hi) at 2. rewrite insert_take_drop by (by eapply lookup_lt_Some).
  unfold occupied. rewrite !omap_app. cbn. by rewrite Permutation_middle.
Qed.

Lemma elem_of_occupied {A B} (f : A -> B) l b :
  b ∈ occupied f l <-> exists i x, l !! i = Some (Some x) /\ f x = b.
Proof.
  unfold occupied. rewrite list_elem_of_omap. split.
  - intros ([x|] & Hin & E); [|done]. apply list_elem_of_lookup in Hin as [i Hi]. exists i, x. split; [done|]. cbn in E. congruence.
  - intros (i & x & Hi & <-). exists (Some x). split; [by eapply list_elem_of_lookup_2|done].
Qed.

(** Distinct keys: a key occurs in one slot only. *)
Lemma occupied_unique {A B} (f : A -> B) l i j x y :
  NoDup (occupied f l) -> l !! i = Some (Some x) -> l !! j = Some (Some y) -> f x = f y -> i = j.
Proof.
  revert i j. induction l as [|o l IH]; intros i j Hnd Hi Hj E; [done|].
  assert (Htail : NoDup (occupied f l)).
  { destruct o; cbn in Hnd; [by apply list.NoDup_cons in Hnd as [_ ?]|done]. }
  destruct i as [|i], j as [|j]; cbn in Hi, Hj; simplify_eq; [done| | |f_equal; by apply IH].
  - cbn in Hnd. apply list.NoDup_cons in Hnd as [Hn _]. exfalso. apply Hn. rewrite E. apply elem_of_occupied. eauto.
  - cbn in Hnd. apply list.NoDup_cons in Hnd as [Hn _]. exfalso. apply Hn. rewrite <- E. apply elem_of_occupied. eauto.
Qed.

Lemma first_free_None {A} (l : list (option A)) i x : first_free l = None -> l !! i = Some x -> is_some x = true.
Proof. intros H Hi. apply first_index_None in H. pose proof (Forall_lookup_1 _ _ _ _ H Hi). by destruct x. Qed.

(** Updating an occupied slot without changing its key. *)
Lemma occupied_insert_same {A B} (f : A -> B) l i x y :
  l !! i = Some (Some x) -> f y = f x -> occupied f (<[i:=Some y]> l) = occupied f l.
Proof.
  intros Hi E. rewrite <- (take_drop_middle l i _ Hi) at 2. rewrite insert_take_drop by (by eapply lookup_lt_Some).
  unfold occupied. rewrite !omap_app. cbn. by rewrite E.
Qed.

(** An empty registry has no keys. *)
Lemma occupied_empty {A B} (f : A -> B) n : occupied f (replicate n None) = [].
Proof. induction n; done. Qed.

Lemma replicate_none {A} n i (x : A) : replicate n None !! i = Some (Some x) -> False.
Proof. intros Hi. by apply lookup_replicate in Hi as [? _]. Qed.

(** ** Checks

    A check returns [Ok tt] or an error; [decides r P] says that it never has undefined
    behaviour and that it succeeds exactly when [P] holds. *)
Definition decides (r : Result unit) (P : Prop) : Prop := safe r /\ (r = Ok tt <-> P).

Lemma decides_ok : decides (Ok tt) True.
Proof. by split. Qed.

Lemma decides_err e : decides (Err e) False.
Proof. by split. Qed.

#[global] Instance decides_proper : Proper (eq ==> iff ==> iff) decides.
Proof. intros r ? <- P Q HPQ. unfold decides. by rewrite HPQ. Qed.

Lemma decides_iff r P Q : (P <-> Q) -> decides r P -> decides r Q.
Proof. intros H [Hs Hr]. split; [done|]. by rewrite Hr. Qed.

Lemma decides_fail (c : bool) e k P : (c = false -> decides k P) -> decides (if c then Err e else k) (c = false /\ P).
Proof. destruct c; intros H; [by split; [done|]; split; [done|]; intros []|]. eapply decides_iff; [|by apply H]. tauto. Qed.

Lemma decides_seq m k P Q : decides m P -> (P -> decides k Q) -> decides (rbind m (fun _ : unit => k)) (P /\ Q).
Proof.
  intros [Hs Hm] Hk. destruct m as [[]|e|]; cbn [rbind]; [|by split; [done|]; split; [done|]; intros [HP%Hm _]|done].
  assert (HP : P) by (by apply Hm). eapply decides_iff; [|by apply Hk]. tauto.
Qed.

Lemma decides_when (c : bool) m P : (c = true -> decides m P) -> decides (if c then m else Ok tt) (c = true -> P).
Proof.
  destruct c; intros H.
  - eapply decides_iff; [|by apply H]. tauto.
  - split; [done|]. split; [done|]. done.
Qed.

Lemma decides_deref {A} (o : option A) a k P : o = Some a -> decides (k a) P -> decides (rbind (deref o) k) P.
Proof. by intros ->. Qed.
