(* ===== verification/Wire.v ===== *)
(** * The VRT packet envelope: [include/vita/codec/wire.hpp]

    Data, validation, measuring, encoding and decoding of the packet prologue,
    payload extent and trailer.  Enumerations the code range-checks (a C++ enum
    with a fixed underlying type can hold any value of it) are kept as integers
    with named constants; sizes and offsets are [Z]. *)

From S2P Require Import Prelude.

(** ** Big-endian 32-bit loads and stores ([detail::load32], [detail::store32])

    The caller proves the four-byte extent; an access outside it is [None]. *)

Definition be32 (b0 b1 b2 b3 : byte) : Z :=
  ((Z_of_byte b0 * 256 + Z_of_byte b1) * 256 + Z_of_byte b2) * 256 + Z_of_byte b3.

Definition be32_bytes (v : Z) : list byte :=
  [byte_of_Z (v / 16777216); byte_of_Z (v / 65536); byte_of_Z (v / 256); byte_of_Z v].

Definition load32 (data : list byte) (offset : Z) : Result Z :=
  if offset <? 0 then UB else
  match take 4 (drop (Z.to_nat offset) data) with
  | [b0; b1; b2; b3] => Ok (be32 b0 b1 b2 b3)
  | _ => UB
  end.

Definition store32 (data : list byte) (offset value : Z) : Result (list byte) :=
  if (offset <? 0) || (zlen data <? offset + 4) then UB else
  Ok (take (Z.to_nat offset) data ++ be32_bytes value ++ drop (Z.to_nat offset + 4) data).

(** ** Data *)

Module PacketType.
Definition signal_without_sid : Z := 0.
Definition signal : Z := 1.
Definition extension_without_sid : Z := 2.
Definition extension_data : Z := 3.
Definition context : Z := 4.
Definition extension_context : Z := 5.
Definition command : Z := 6.
Definition extension_command : Z := 7.
End PacketType.

Module Tsi.
Definition none : Z := 0.
Definition utc : Z := 1.
Definition gps : Z := 2.
Definition other : Z := 3.
End Tsi.

Module Tsf.
Definition none : Z := 0.
Definition sample_count : Z := 1.
Definition picoseconds : Z := 2.
Definition free_running : Z := 3.
End Tsf.

Record Timestamp := mkTimestamp { tsi : Z; tsf : Z; ts_integer : Z; ts_fractional : Z }.

Record ClassId := mkClassId {
  oui : Z; information_class : Z; packet_class : Z; pad_bits : Z }.

Module IdentifierKind.
Definition absent : Z := 0.
Definition short_id : Z := 1.
Definition uuid : Z := 2.
End IdentifierKind.

(** [std::array<std::uint32_t,4> words] is four members. *)
Record Identifier := mkIdentifier { id_kind : Z; id_w0 : Z; id_w1 : Z; id_w2 : Z; id_w3 : Z }.

Definition Identifier_default : Identifier := mkIdentifier IdentifierKind.absent 0 0 0 0.
Definition Identifier_short_id (value : Z) : Identifier :=
  mkIdentifier IdentifierKind.short_id value 0 0 0.
Definition Identifier_uuid (w0 w1 w2 w3 : Z) : Identifier :=
  mkIdentifier IdentifierKind.uuid w0 w1 w2 w3.

Definition id_words (i : Identifier) : list Z := [id_w0 i; id_w1 i; id_w2 i; id_w3 i].

Definition size_words (i : Identifier) : Z :=
  if id_kind i =? IdentifierKind.absent then 0
  else if id_kind i =? IdentifierKind.short_id then 1 else 4.

Record Command := mkCommand {
  cam : Z; message_id : Z; controllee : Identifier; controller : Identifier }.

Record Envelope := mkEnvelope {
  env_type : Z;
  packet_count : Z;
  stream_id : option Z;
  class_id : option ClassId;
  timestamp : Timestamp;
  env_trailer : bool; nd0 : bool; spectrum : bool; tsm : bool; ack : bool; cancel : bool;
  command : option Command
}.

#[global] Instance Timestamp_eq_dec : EqDecision Timestamp.
Proof. solve_decision. Defined.
#[global] Instance ClassId_eq_dec : EqDecision ClassId.
Proof. solve_decision. Defined.
#[global] Instance Identifier_eq_dec : EqDecision Identifier.
Proof. solve_decision. Defined.
#[global] Instance Command_eq_dec : EqDecision Command.
Proof. solve_decision. Defined.
#[global] Instance Envelope_eq_dec : EqDecision Envelope.
Proof. solve_decision. Defined.

Definition is_data (t : Z) : bool := t <=? 3.
Definition is_command (t : Z) : bool := 6 <=? t.
Definition is_extension (t : Z) : bool :=
  (t =? PacketType.extension_without_sid) || (t =? PacketType.extension_data) ||
  (t =? PacketType.extension_context) || (t =? PacketType.extension_command).

(** [std::popcount] *)
Fixpoint popcount_pos (p : positive) : Z :=
  match p with xH => 1 | xO p => popcount_pos p | xI p => 1 + popcount_pos p end.
Definition popcount (z : Z) : Z := match z with Zpos p => popcount_pos p | _ => 0 end.

(** ** Validation of the control/acknowledge mode word *)

Definition cam_reserved (ack : bool) (type : Z) : Z :=
  Z.lor (Z.lor (Z.lor (Z.shiftl 1 21) (Z.shiftl 1 15)) (if ack then 0x300 else 0xf00))
    (if type =? PacketType.extension_command then 1 else 0xff).

Definition validate_cam (e : Envelope) : Result unit :=
  let? c := deref (command e) in
  let cam := cam c in
  let invalid := error1 ErrorCode.invalid_argument in
  fail_if nonzero (Z.land cam (cam_reserved (ack e) (env_type e))) with invalid ;;
  fail_if Z.land (Z.shiftr cam 23) 3 =? 3 with invalid ;;
  let timing := Z.land (Z.shiftr cam 12) 7 in
  fail_if (4 <? timing) && negb (ack e && (timing =? 7)) with invalid ;;
  fail_if nonzero timing && negb (ack e) &&
          (tsi (timestamp e) =? Tsi.none) && (tsf (timestamp e) =? Tsf.none) with invalid ;;
  fail_if ack e && negb (popcount (Z.land (Z.shiftr cam 18) 7) =? 1) with invalid ;;
  fail_if ack e && bit_set cam 18 &&
          nonzero (Z.land cam (Z.lor (Z.shiftl 1 17) (Z.shiftl 1 16))) with invalid ;;
  fail_if cancel e && negb (ack e) &&
          (negb (Z.land (Z.shiftr cam 23) 3 =? 2) || negb (bit_set cam 27) || bit_set cam 20 ||
           (bit_set cam 18 && negb (bit_set cam 19))) with invalid ;;
  Ok tt.

(** ** Measuring ([checked_add] is [include/vita/codec/layout.hpp]) *)

Definition checked_add (a b : Z) : Result Z :=
  fail_if SIZE_MAX - a <? b with error2 ErrorCode.overflow a ;; Ok (a + b).

Definition checked_multiply (a b : Z) : Result Z :=
  fail_if nonzero a && (SIZE_MAX / a <? b) with error1 ErrorCode.overflow ;; Ok (a * b).

Definition check_id (cam : Z) (id : Identifier) (enable uuid : Z) : bool :=
  if 2 <? id_kind id then false
  else if negb (Bool.eqb (bit_set cam enable) (negb (id_kind id =? IdentifierKind.absent))) then false
  else if negb (id_kind id =? IdentifierKind.absent) &&
          negb (Bool.eqb (bit_set cam uuid) (id_kind id =? IdentifierKind.uuid)) then false
  else negb (id_kind id =? IdentifierKind.uuid) ||
       nonzero (Z.lor (Z.lor (Z.lor (id_w0 id) (id_w1 id)) (id_w2 id)) (id_w3 id)).

Definition has_sid (type : Z) : bool := negb (type =? 0) && negb (type =? 2).

Definition measure_envelope (e : Envelope) (payload_bytes : Z) : Result Z :=
  let type := env_type e in
  let invalid := error1 ErrorCode.invalid_argument in
  fail_if (7 <? type) || (15 <? packet_count e) || (3 <? tsi (timestamp e)) ||
          (3 <? tsf (timestamp e)) with invalid ;;
  let sid := has_sid type in
  fail_if negb (Bool.eqb sid (is_some (stream_id e))) with invalid ;;
  fail_if match class_id e with
          | Some c => (0xffffff <? oui c) || (31 <? pad_bits c)
          | None => false
          end with invalid ;;
  fail_if (if is_data type then ack e || cancel e || tsm e || is_some (command e)
           else if is_command type then
             env_trailer e || nd0 e || spectrum e || tsm e || negb (is_some (command e))
           else env_trailer e || ack e || cancel e || spectrum e || is_some (command e))
    with invalid ;;
  fail_if nonzero (payload_bytes mod 4) with invalid ;;
  fail_if is_data type && (payload_bytes =? 0) with invalid ;;
  let words := 1 + b2z sid + (if is_some (class_id e) then 2 else 0) +
               (if negb (tsi (timestamp e) =? Tsi.none) then 1 else 0) +
               (if negb (tsf (timestamp e) =? Tsf.none) then 2 else 0) + b2z (env_trailer e) in
  let? words :=
    match command e with
    | Some c =>
        let? _ := validate_cam e in
        fail_if negb (check_id (cam c) (controllee c) 31 30) ||
                negb (check_id (cam c) (controller c) 29 28) with invalid ;;
        Ok (words + (2 + size_words (controllee c) + size_words (controller c)))
    | None => Ok words
    end in
  let? total := checked_add words (payload_bytes / 4) in
  fail_if 65535 <? total with error1 ErrorCode.overflow ;;
  Ok (total * 4).

(** ** Encoding *)

(** The header word of a packet of [size] bytes. *)
Definition header_word (e : Envelope) (size : Z) : Z :=
  let header :=
    Z.lor (Z.lor (Z.lor (Z.lor (Z.lor (Z.shiftl (env_type e) 28)
      (flag (is_some (class_id e)) 27)) (Z.shiftl (tsi (timestamp e)) 22))
      (Z.shiftl (tsf (timestamp e)) 20)) (Z.shiftl (packet_count e) 16)) (size / 4) in
  if is_data (env_type e) then
    Z.lor header (Z.lor (Z.lor (flag (env_trailer e) 26) (flag (nd0 e) 25)) (flag (spectrum e) 24))
  else if is_command (env_type e) then
    Z.lor header (Z.lor (flag (ack e) 26) (flag (cancel e) 24))
  else Z.lor header (Z.lor (flag (nd0 e) 25) (flag (tsm e) 24)).

(** The words written for one identifier: its first [size_words()] words. *)
Definition identifier_words (i : Identifier) : list Z :=
  take (Z.to_nat (size_words i)) (id_words i).

(** The values passed to [put], in order, after the header word. *)
Definition stream_words (s : option Z) : list Z := match s with Some v => [v] | None => [] end.
Definition class_words (c : option ClassId) : list Z :=
  match c with
  | Some c => [Z.lor (Z.shiftl (pad_bits c) 27) (oui c);
               Z.lor (Z.shiftl (information_class c) 16) (packet_class c)]
  | None => []
  end.
Definition integer_words (t : Timestamp) : list Z :=
  if negb (tsi t =? Tsi.none) then [ts_integer t] else [].
Definition fractional_words (t : Timestamp) : list Z :=
  if negb (tsf t =? Tsf.none)
  then [wrap32 (Z.shiftr (ts_fractional t) 32); wrap32 (ts_fractional t)] else [].
Definition command_words (c : option Command) : list Z :=
  match c with
  | Some c => [cam c; message_id c] ++ identifier_words (controllee c) ++
              identifier_words (controller c)
  | None => []
  end.
Definition prologue_words (e : Envelope) : list Z :=
  stream_words (stream_id e) ++ class_words (class_id e) ++ integer_words (timestamp e) ++
  fractional_words (timestamp e) ++ command_words (command e).

(** [put]: store at the running offset and advance. *)
Definition put (s : list byte * Z) (value : Z) : Result (list byte * Z) :=
  let? output := store32 (fst s) (snd s) value in Ok (output, snd s + 4).

Fixpoint put_all (s : list byte * Z) (values : list Z) : Result (list byte * Z) :=
  match values with
  | [] => Ok s
  | v :: vs => let? s := put s v in put_all s vs
  end.

(** [std::memmove(output.data()+offset, payload.data(), payload.size())]: the
    source is read as a whole before anything is written, so the payload may be a
    part of the output. *)
Definition memmove (output : list byte) (offset : Z) (payload : list byte) : Result (list byte) :=
  if (offset <? 0) || (zlen output <? offset + zlen payload) then UB else
  Ok (take (Z.to_nat offset) output ++ payload ++
      drop (Z.to_nat offset + length payload) output).

(** The bytes written and the output afterwards; on an error nothing has been
    written. *)
Definition encode_envelope (e : Envelope) (payload : list byte) (trailer : option Z)
    (output : list byte) : Result (Z * list byte) :=
  fail_if negb (Bool.eqb (env_trailer e) (is_some trailer))
    with error1 ErrorCode.invalid_argument ;;
  let? size := measure_envelope e (zlen payload) in
  fail_if zlen output <? size with error3 ErrorCode.short_output 0 size ;;
  let header := header_word e size in
  let payload_offset := size - zlen payload - (if env_trailer e then 4 else 0) in
  let? output := match payload with
                 | [] => Ok output
                 | _ => memmove output payload_offset payload end in
  let? s := put_all (output, 0) (header :: prologue_words e) in
  let offset := snd s + zlen payload in
  let? s := match trailer with
            | Some t => put (fst s, offset) t
            | None => Ok (fst s, offset) end in
  Ok (snd s, fst s).

(** ** Decoding *)

Record EnvelopeView := mkEnvelopeView {
  ev_envelope : Envelope; ev_payload : list byte; ev_trailer : option Z;
  ev_payload_offset : Z; ev_wire : list byte }.

(** [take]: the next word, or the error; the offset moves only on success. *)
Definition take_word (wire : list byte) (size offset : Z) : Result Z * Z :=
  if (size <? offset) || (size - offset <? 4)
  then (Err (error3 ErrorCode.short_input offset (offset + 4)), offset)
  else (load32 wire offset, offset + 4).

Section decode.
Context (wire : list byte) (size : Z).

Definition decode_stream_id (type offset : Z) : Result (option Z * Z) :=
  if has_sid type then
    let '(v, offset) := take_word wire size offset in
    let? v := v in Ok (Some v, offset)
  else Ok (None, offset).

Definition decode_class_id (h offset : Z) : Result (option ClassId * Z) :=
  if bit_set h 27 then
    let '(a, offset) := take_word wire size offset in
    let '(b, offset) := take_word wire size offset in
    let? a := a in let? b := b in
    fail_if nonzero (Z.land a 0x07000000) with error2 ErrorCode.invalid_argument (offset - 8) ;;
    Ok (Some (mkClassId (Z.land a 0xffffff) (wrap16 (Z.shiftr b 16)) (wrap16 b)
                (wrap8 (Z.shiftr a 27))), offset)
  else Ok (None, offset).

Definition decode_integer (tsi offset : Z) : Result (Z * Z) :=
  if negb (tsi =? Tsi.none) then
    let '(v, offset) := take_word wire size offset in
    let? v := v in Ok (v, offset)
  else Ok (0, offset).

Definition decode_fractional (tsf offset : Z) : Result (Z * Z) :=
  if negb (tsf =? Tsf.none) then
    let '(a, offset) := take_word wire size offset in
    let '(b, offset) := take_word wire size offset in
    let? a := a in let? b := b in
    Ok (Z.lor (Z.shiftl a 32) b, offset)
  else Ok (0, offset).

(** The loop over [id.words[i]], [i < id.size_words()]. *)
Fixpoint take_words (n : nat) (offset : Z) : Result (list Z * Z) :=
  match n with
  | O => Ok ([], offset)
  | S n =>
      let '(v, offset) := take_word wire size offset in
      let? v := v in
      let? (vs, offset) := take_words n offset in
      Ok (v :: vs, offset)
  end.

Definition decode_identifier (cam enable uuid offset : Z) : Result (Identifier * Z) :=
  if bit_set cam enable then
    let kind := if bit_set cam uuid then IdentifierKind.uuid else IdentifierKind.short_id in
    let n := Z.to_nat (size_words (mkIdentifier kind 0 0 0 0)) in
    let? (ws, offset) := take_words n offset in
    let w i := nth i ws 0 in
    Ok (mkIdentifier kind (w 0%nat) (w 1%nat) (w 2%nat) (w 3%nat), offset)
  else Ok (Identifier_default, offset).

Definition decode_command (type offset : Z) : Result (option Command * Z) :=
  if is_command type then
    let '(cam, offset) := take_word wire size offset in
    let '(mid, offset) := take_word wire size offset in
    let? cam := cam in let? mid := mid in
    let? (controllee, offset) := decode_identifier cam 31 30 offset in
    let? (controller, offset) := decode_identifier cam 29 28 offset in
    Ok (Some (mkCommand cam mid controllee controller), offset)
  else Ok (None, offset).

End decode.

(** The flags of the header word: [trailer, nd0, spectrum, tsm, ack, cancel]. *)
Definition decode_flags (type h : Z) : Result (bool * bool * bool * bool * bool * bool) :=
  if is_data type then Ok (bit_set h 26, bit_set h 25, bit_set h 24, false, false, false)
  else if is_command type then
    fail_if bit_set h 25 with error1 ErrorCode.invalid_argument ;;
    Ok (false, false, false, false, bit_set h 26, bit_set h 24)
  else
    fail_if bit_set h 26 with error1 ErrorCode.invalid_argument ;;
    Ok (false, bit_set h 25, false, bit_set h 24, false, false).

Definition subspan (l : list byte) (offset count : Z) : Result (list byte) :=
  if (offset <? 0) || (count <? 0) || (zlen l <? offset + count) then UB else
  Ok (take (Z.to_nat count) (drop (Z.to_nat offset) l)).

Definition decode_envelope (wire : list byte) : Result EnvelopeView :=
  fail_if zlen wire <? 4 with error3 ErrorCode.short_input 0 4 ;;
  let? h := load32 wire 0 in
  let type := Z.shiftr h 28 in
  let size := Z.land h 0xffff * 4 in
  fail_if (7 <? type) || (size =? 0) with error1 ErrorCode.invalid_argument ;;
  fail_if zlen wire <? size with error3 ErrorCode.short_input (zlen wire) size ;;
  fail_if negb (size =? zlen wire) with error2 ErrorCode.invalid_argument size ;;
  let packet_count := Z.land (Z.shiftr h 16) 15 in
  let tsi := Z.land (Z.shiftr h 22) 3 in
  let tsf := Z.land (Z.shiftr h 20) 3 in
  let? (trailer, nd0, spectrum, tsm, ack, cancel) := decode_flags type h in
  let? (stream_id, offset) := decode_stream_id wire size type 4 in
  let? (class_id, offset) := decode_class_id wire size h offset in
  let? (integer, offset) := decode_integer wire size tsi offset in
  let? (fractional, offset) := decode_fractional wire size tsf offset in
  let? (command, offset) := decode_command wire size type offset in
  let e := mkEnvelope type packet_count stream_id class_id
             (mkTimestamp tsi tsf integer fractional)
             trailer nd0 spectrum tsm ack cancel command in
  let trailer_size := if trailer then 4 else 0 in
  fail_if (size <? offset) || (size - offset <? trailer_size)
    with error3 ErrorCode.short_input offset (offset + trailer_size) ;;
  let? payload := subspan wire offset (size - offset - trailer_size) in
  let? _ := measure_envelope e (zlen payload) in
  let? t := if trailer then rmap Some (load32 wire (size - 4)) else Ok None in
  Ok (mkEnvelopeView e payload t offset wire).
