(* ===== verification/WireProofs.v ===== *)
(** * Correctness of the packet envelope codec

    Measuring, encoding and decoding of [Wire] agree: a measured envelope encodes
    to exactly its words, payload and trailer, decoding that wire gives the
    envelope back, decoding anything else never reads outside the wire, and every
    wire that decodes is the encoding of what it decodes to. *)

From S2P Require Import Prelude Wire.

(** ** Specification vocabulary *)

Fixpoint words_bytes (ws : list Z) : list byte :=
  match ws with [] => [] | w :: ws => be32_bytes w ++ words_bytes ws end.

(** The words [ws] stand in [wire] at byte [off]. *)
Definition at_words (wire : list byte) (off : Z) (ws : list Z) : Prop :=
  0 <= off /\ take (4 * length ws) (drop (Z.to_nat off) wire) = words_bytes ws.

(** The values of an envelope are values of their C++ types. *)
Definition identifier_typed (i : Identifier) : Prop :=
  0 <= id_kind i /\ Forall u32 (id_words i).
Definition class_typed (c : ClassId) : Prop :=
  u32 (oui c) /\ u16 (information_class c) /\ u16 (packet_class c) /\ u8 (pad_bits c).
Definition command_typed (c : Command) : Prop :=
  u32 (cam c) /\ u32 (message_id c) /\ identifier_typed (controllee c) /\
  identifier_typed (controller c).
Definition timestamp_typed (t : Timestamp) : Prop :=
  u8 (tsi t) /\ u8 (tsf t) /\ u32 (ts_integer t) /\ u64 (ts_fractional t).
Definition envelope_typed (e : Envelope) : Prop :=
  u8 (env_type e) /\ u8 (packet_count e) /\ from_option u32 True (stream_id e) /\
  from_option class_typed True (class_id e) /\ timestamp_typed (timestamp e) /\
  from_option command_typed True (command e).

(** What an envelope looks like on the wire: members that have no word are at
    their defaults. *)
Definition identifier_wire (i : Identifier) : Identifier :=
  if id_kind i =? IdentifierKind.absent then Identifier_default
  else if id_kind i =? IdentifierKind.short_id then Identifier_short_id (id_w0 i) else i.
Definition command_wire (c : Command) : Command :=
  mkCommand (cam c) (message_id c) (identifier_wire (controllee c)) (identifier_wire (controller c)).
Definition timestamp_wire (t : Timestamp) : Timestamp :=
  mkTimestamp (tsi t) (tsf t) (if tsi t =? Tsi.none then 0 else ts_integer t)
    (if tsf t =? Tsf.none then 0 else ts_fractional t).
Definition envelope_wire (e : Envelope) : Envelope :=
  mkEnvelope (env_type e) (packet_count e) (stream_id e) (class_id e)
    (timestamp_wire (timestamp e)) (env_trailer e) (nd0 e) (spectrum e) (tsm e) (ack e)
    (cancel e) (command_wire <$> command e).

(** The packet on the wire. *)
Definition envelope_bytes (e : Envelope) (payload : list byte) (trailer : option Z) : list byte :=
  let size := 4 * (1 + zlen (prologue_words e)) + zlen payload + 4 * b2z (is_some trailer) in
  words_bytes (header_word e size :: prologue_words e) ++ payload ++
  match trailer with Some t => be32_bytes t | None => [] end.

(** ** Words and bytes *)

Lemma be32_bytes_be32 b0 b1 b2 b3 : be32_bytes (be32 b0 b1 b2 b3) = [b0; b1; b2; b3].
Proof.
  unfold be32_bytes, be32.
  pose proof (Z_of_byte_range b0). pose proof (Z_of_byte_range b1).
  pose proof (Z_of_byte_range b2). pose proof (Z_of_byte_range b3).
  assert (forall z b, z mod 256 = Z_of_byte b -> byte_of_Z z = b) as Hb.
  { intros z b E. rewrite <- (byte_of_Z_of_byte b). unfold byte_of_Z.
    rewrite E, (Z.mod_small (Z_of_byte b)) by apply Z_of_byte_range. done. }
  repeat f_equal; apply Hb; zlia.
Qed.

Lemma be32_of_bytes v : u32 v ->
  be32 (byte_of_Z (v / 16777216)) (byte_of_Z (v / 65536)) (byte_of_Z (v / 256)) (byte_of_Z v) = v.
Proof. intros. unfold be32. rewrite !Z_of_byte_of_Z. zlia. Qed.

Lemma be32_u32 b0 b1 b2 b3 : u32 (be32 b0 b1 b2 b3).
Proof.
  unfold be32. pose proof (Z_of_byte_range b0). pose proof (Z_of_byte_range b1).
  pose proof (Z_of_byte_range b2). pose proof (Z_of_byte_range b3). zlia.
Qed.

Lemma words_bytes_length ws : length (words_bytes ws) = (4 * length ws)%nat.
Proof. induction ws; simpl; lia. Qed.

Lemma words_bytes_app ws1 ws2 : words_bytes (ws1 ++ ws2) = words_bytes ws1 ++ words_bytes ws2.
Proof. induction ws1 as [|w ws1 IH]; simpl; [done|]. by rewrite IH. Qed.

Lemma zlen_words_bytes ws : zlen (words_bytes ws) = 4 * zlen ws.
Proof. unfold zlen. rewrite words_bytes_length. lia. Qed.

Lemma zlen_app {A} (l k : list A) : zlen (l ++ k) = zlen l + zlen k.
Proof. unfold zlen. rewrite length_app. lia. Qed.
Lemma zlen_nonneg {A} (l : list A) : 0 <= zlen l.
Proof. unfold zlen. lia. Qed.
#[export] Hint Resolve zlen_nonneg : vrt.

Lemma at_words_bound wire off ws :
  at_words wire off ws -> ws <> [] -> off + 4 * zlen ws <= zlen wire.
Proof.
  intros [Hoff E] Hne. apply (f_equal length) in E.
  rewrite words_bytes_length, length_take, length_drop in E. unfold zlen.
  assert (0 < length ws)%nat by (destruct ws; [done|simpl; lia]). lia.
Qed.

Lemma at_words_nil wire off : 0 <= off -> at_words wire off [].
Proof. done. Qed.

Lemma at_words_app wire off ws1 ws2 :
  at_words wire off (ws1 ++ ws2) <->
  at_words wire off ws1 /\ at_words wire (off + 4 * zlen ws1) ws2.
Proof.
  unfold at_words. rewrite words_bytes_app, length_app.
  replace (4 * (length ws1 + length ws2))%nat with (4 * length ws1 + 4 * length ws2)%nat by lia.
  assert (forall l : list byte, take (4 * length ws1 + 4 * length ws2) l =
    take (4 * length ws1) l ++ take (4 * length ws2) (drop (4 * length ws1) l)) as Hsplit.
  { intros l. rewrite <- (take_drop (4 * length ws1) (take (_ + _) l)) at 1.
    rewrite take_take, Nat.min_l by lia. f_equal. by rewrite skipn_firstn_comm, Nat.add_comm, Nat.add_sub. }
  rewrite Hsplit, drop_drop.
  assert (0 <= off -> Z.to_nat (off + 4 * zlen ws1) = (Z.to_nat off + 4 * length ws1)%nat) as Eoff.
  { unfold zlen. lia. }
  split.
  - intros [Hoff E]. rewrite Eoff by done.
    assert (length (take (4 * length ws1) (drop (Z.to_nat off) wire)) = length (words_bytes ws1)).
    { apply (f_equal length) in E. rewrite !length_app, !words_bytes_length in E.
      rewrite words_bytes_length. rewrite !length_take in *. lia. }
    apply app_inj_1 in E as [? ?]; [|done]. unfold zlen. repeat split; (done || lia).
  - intros [[Hoff E1] [_ E2]]. rewrite Eoff in E2 by done. by rewrite E1, E2.
Qed.

Lemma at_words_one_inv wire off v :
  at_words wire off [v] -> u32 v -> load32 wire off = Ok v.
Proof.
  intros [Hoff E] Hv. unfold load32. change (4 * length [v])%nat with 4%nat in E.
  rewrite E. destruct (Z.ltb_spec off 0); [lia|]. simpl. by rewrite be32_of_bytes.
Qed.

Lemma load32_at_words wire off v :
  load32 wire off = Ok v -> at_words wire off [v] /\ u32 v.
Proof.
  unfold load32. destruct (Z.ltb_spec off 0); [done|].
  destruct (take 4 _) as [|b0 [|b1 [|b2 [|b3 [|]]]]] eqn:E; try done.
  intros [= <-]. split; [|apply be32_u32]. split; [lia|].
  change (4 * length _)%nat with 4%nat. rewrite E. cbn [words_bytes].
  by rewrite be32_bytes_be32.
Qed.

Lemma load32_in_bounds wire off :
  0 <= off -> off + 4 <= zlen wire -> exists v, load32 wire off = Ok v.
Proof.
  intros Hoff Hb. unfold load32, zlen in *. destruct (Z.ltb_spec off 0); [lia|].
  destruct (take 4 _) as [|b0 [|b1 [|b2 [|b3 [|]]]]] eqn:E; eauto;
    apply (f_equal length) in E; rewrite length_take, length_drop in E; cbn [length] in E; lia.
Qed.

(** ** The header word is the sum of its disjoint fields *)

Definition header_flags (e : Envelope) : bool * bool * bool :=
  if is_data (env_type e) then (env_trailer e, nd0 e, spectrum e)
  else if is_command (env_type e) then (ack e, false, cancel e)
  else (false, nd0 e, tsm e).

Definition header_sum (type cls f26 f25 f24 tsi tsf count words : Z) : Z :=
  type * 2 ^ 28 + cls * 2 ^ 27 + f26 * 2 ^ 26 + f25 * 2 ^ 25 + f24 * 2 ^ 24 + tsi * 2 ^ 22 +
  tsf * 2 ^ 20 + count * 2 ^ 16 + words.

Lemma header_fields_sum type cls tsi tsf count words :
  0 <= type <= 7 -> 0 <= tsi <= 3 -> 0 <= tsf <= 3 -> 0 <= count <= 15 -> 0 <= words <= 65535 ->
  Z.lor (Z.lor (Z.lor (Z.lor (Z.lor (Z.shiftl type 28) (flag cls 27)) (Z.shiftl tsi 22))
    (Z.shiftl tsf 20)) (Z.shiftl count 16)) words =
  (type * 2 + b2z cls) * 2 ^ 27 + (tsi * 2 ^ 22 + tsf * 2 ^ 20 + count * 2 ^ 16 + words).
Proof.
  intros. pose proof (b2z_range cls).
  rewrite !Z.shiftl_mul_pow2, flag_b2z by lia.
  rewrite (lor_low type (b2z cls * 2 ^ 27) 28) by lia.
  replace (type * 2 ^ 28 + b2z cls * 2 ^ 27) with ((type * 2 + b2z cls) * 2 ^ 27) by lia.
  rewrite (lor_low _ (tsi * 2 ^ 22) 27) by lia.
  replace ((type * 2 + b2z cls) * 2 ^ 27 + tsi * 2 ^ 22)
    with (((type * 2 + b2z cls) * 2 ^ 5 + tsi) * 2 ^ 22) by lia.
  rewrite (lor_low _ (tsf * 2 ^ 20) 22) by lia.
  replace (((type * 2 + b2z cls) * 2 ^ 5 + tsi) * 2 ^ 22 + tsf * 2 ^ 20)
    with ((((type * 2 + b2z cls) * 2 ^ 5 + tsi) * 2 ^ 2 + tsf) * 2 ^ 20) by lia.
  rewrite (lor_low _ (count * 2 ^ 16) 20) by lia.
  replace ((((type * 2 + b2z cls) * 2 ^ 5 + tsi) * 2 ^ 2 + tsf) * 2 ^ 20 + count * 2 ^ 16)
    with (((((type * 2 + b2z cls) * 2 ^ 5 + tsi) * 2 ^ 2 + tsf) * 2 ^ 4 + count) * 2 ^ 16) by lia.
  rewrite lor_low by lia. lia.
Qed.

Lemma flags_sum a b c :
  Z.lor (Z.lor (flag a 26) (flag b 25)) (flag c 24) =
  (b2z a * 4 + b2z b * 2 + b2z c) * 2 ^ 24.
Proof. by destruct a, b, c. Qed.

Lemma header_word_sum e size :
  0 <= env_type e <= 7 -> 0 <= tsi (timestamp e) <= 3 -> 0 <= tsf (timestamp e) <= 3 ->
  0 <= packet_count e <= 15 -> 0 <= size / 4 <= 65535 ->
  header_word e size =
  header_sum (env_type e) (b2z (is_some (class_id e))) (b2z (header_flags e).1.1)
    (b2z (header_flags e).1.2) (b2z (header_flags e).2) (tsi (timestamp e)) (tsf (timestamp e))
    (packet_count e) (size / 4).
Proof.
  intros. unfold header_word, header_sum, header_flags.
  rewrite header_fields_sum by done.
  set (hi := env_type e * 2 + _). set (lo := tsi _ * _ + _ + _ + _).
  assert (0 <= lo < 2 ^ 24) by (subst lo; lia).
  assert (forall a b c, Z.lor (hi * 2 ^ 27 + lo) ((b2z a * 4 + b2z b * 2 + b2z c) * 2 ^ 24) =
    hi * 2 ^ 27 + (b2z a * 4 + b2z b * 2 + b2z c) * 2 ^ 24 + lo) as Hmid.
  { intros a b c. pose proof (b2z_range a). pose proof (b2z_range b). pose proof (b2z_range c).
    apply lor_mid; lia. }
  destruct (is_data _); [|destruct (is_command _)]; cbn [fst snd].
  - rewrite flags_sum, Hmid. lia.
  - pose proof (flags_sum (ack e) false (cancel e)) as E. simpl flag in E.
    rewrite Z.lor_0_r in E. rewrite E, Hmid. lia.
  - pose proof (flags_sum false (nd0 e) (tsm e)) as E. simpl flag in E.
    rewrite Z.lor_0_l in E. rewrite E, Hmid. lia.
Qed.

(** Extraction of the fields of a header sum. *)
Lemma header_sum_fields type cls f26 f25 f24 tsi tsf count words :
  0 <= type <= 7 -> 0 <= cls <= 1 -> 0 <= f26 <= 1 -> 0 <= f25 <= 1 -> 0 <= f24 <= 1 ->
  0 <= tsi <= 3 -> 0 <= tsf <= 3 -> 0 <= count <= 15 -> 0 <= words <= 65535 ->
  let h := header_sum type cls f26 f25 f24 tsi tsf count words in
  u32 h /\ Z.shiftr h 28 = type /\ Z.land h 0xffff = words /\
  Z.land (Z.shiftr h 16) 15 = count /\ Z.land (Z.shiftr h 22) 3 = tsi /\
  Z.land (Z.shiftr h 20) 3 = tsf /\ bit_set h 27 = nonzero cls /\ bit_set h 26 = nonzero f26 /\
  bit_set h 25 = nonzero f25 /\ bit_set h 24 = nonzero f24.
Proof.
  intros. subst h. unfold header_sum.
  change 0xffff with (2 ^ 16 - 1). change 15 with (2 ^ 4 - 1). change 3 with (2 ^ 2 - 1).
  rewrite !land_mask, !Z.shiftr_div_pow2, !bit_set_div by lia.
  repeat split; try (f_equal; zlia); zlia.
Qed.

(** Every word is the header sum of its fields. *)
Lemma header_sum_complete h :
  u32 h ->
  h = header_sum (Z.shiftr h 28) (b2z (bit_set h 27)) (b2z (bit_set h 26)) (b2z (bit_set h 25))
    (b2z (bit_set h 24)) (Z.land (Z.shiftr h 22) 3) (Z.land (Z.shiftr h 20) 3)
    (Z.land (Z.shiftr h 16) 15) (Z.land h 0xffff).
Proof.
  intros. unfold header_sum.
  change 0xffff with (2 ^ 16 - 1). change 15 with (2 ^ 4 - 1). change 3 with (2 ^ 2 - 1).
  rewrite !land_mask, !Z.shiftr_div_pow2, !bit_set_div by lia.
  rewrite !b2z_nonzero by zlia. zlia.
Qed.

(** ** Measuring *)

Lemma size_words_range i : 0 <= size_words i <= 4.
Proof. unfold size_words. repeat bdestruct_step; lia. Qed.

Lemma identifier_words_length i : zlen (identifier_words i) = size_words i.
Proof.
  unfold identifier_words, zlen. pose proof (size_words_range i).
  rewrite length_take. cbn [id_words length]. lia.
Qed.

Lemma prologue_words_length e :
  has_sid (env_type e) = is_some (stream_id e) ->
  zlen (prologue_words e) =
  b2z (has_sid (env_type e)) + (if is_some (class_id e) then 2 else 0) +
  (if negb (tsi (timestamp e) =? Tsi.none) then 1 else 0) +
  (if negb (tsf (timestamp e) =? Tsf.none) then 2 else 0) +
  from_option (fun c => 2 + size_words (controllee c) + size_words (controller c)) 0 (command e).
Proof.
  intros ->. unfold prologue_words, stream_words, class_words, integer_words, fractional_words, command_words.
  rewrite !zlen_app.
  destruct (stream_id e), (class_id e), (tsi _ =? _), (tsf _ =? _), (command e) as [cmd|];
    rewrite ?zlen_app, ?identifier_words_length; unfold zlen; cbn [length is_some negb b2z from_option]; lia.
Qed.

(** What a successful measurement establishes. *)
Record measured (e : Envelope) (n size : Z) : Prop := mk_measured {
  m_type : env_type e <= 7;
  m_count : packet_count e <= 15;
  m_tsi : tsi (timestamp e) <= 3;
  m_tsf : tsf (timestamp e) <= 3;
  m_sid : has_sid (env_type e) = is_some (stream_id e);
  m_class : forall c, class_id e = Some c -> oui c <= 0xffffff /\ pad_bits c <= 31;
  m_flags : (if is_data (env_type e) then ack e || cancel e || tsm e || is_some (command e)
             else if is_command (env_type e) then
               env_trailer e || nd0 e || spectrum e || tsm e || negb (is_some (command e))
             else env_trailer e || ack e || cancel e || spectrum e || is_some (command e)) = false;
  m_aligned : n mod 4 = 0;
  m_ids : forall c, command e = Some c ->
    check_id (cam c) (controllee c) 31 30 = true /\ check_id (cam c) (controller c) 29 28 = true;
  m_size : size = 4 * (1 + zlen (prologue_words e)) + n + 4 * b2z (env_trailer e);
  m_words : size / 4 <= 65535
}.

Lemma nonzero_false z : nonzero z = false -> z = 0.
Proof. unfold nonzero. rewrite negb_false_iff. apply Z.eqb_eq. Qed.

Lemma measure_measured e n size :
  0 <= n -> measure_envelope e n = Ok size -> measured e n size.
Proof.
  intros Hn. unfold measure_envelope, checked_add. intros H. inv_ok.
  match goal with H : _ || _ || _ || _ = false |- _ =>
    apply orb_false_iff in H as [[[? ?]%orb_false_iff ?]%orb_false_iff ?] end.
  repeat match goal with H : (_ <? _) = false |- _ => apply Z.ltb_ge in H end.
  match goal with H : negb (Bool.eqb _ _) = false |- _ =>
    apply negb_false_iff, Bool.eqb_prop in H; rename H into Hsid end.
  match goal with H : nonzero (n mod 4) = false |- _ => apply nonzero_false in H; rename H into Hal end.
  assert (x = 1 + zlen (prologue_words e) + b2z (env_trailer e) /\
    (forall c, command e = Some c ->
      check_id (cam c) (controllee c) 31 30 = true /\
      check_id (cam c) (controller c) 29 28 = true)) as [Hx Hids].
  { rewrite prologue_words_length by done. destruct (command e) as [c|] eqn:Ec; inv_ok.
    - match goal with H : negb _ || negb _ = false |- _ =>
        apply orb_false_iff in H as [?%negb_false_iff ?%negb_false_iff] end.
      split; [cbn [from_option]; lia|]. intros ? [= <-]. done.
    - split; [cbn [from_option]; lia|done]. }
  subst x. split; try done; try lia; [|zlia|zlia].
  intros c Hc. rewrite Hc in *.
  match goal with H : (16777215 <? _) || _ = false |- _ =>
    apply orb_false_iff in H as [?%Z.ltb_ge ?%Z.ltb_ge] end. done.
Qed.

Lemma measured_aligned e n size : 0 <= n -> measured e n size -> size mod 4 = 0 /\ 4 <= size.
Proof.
  intros Hn []. pose proof (zlen_nonneg (prologue_words e)).
  pose proof (b2z_range (env_trailer e)). split; zlia.
Qed.

Lemma check_id_wire cam i en uu : check_id cam (identifier_wire i) en uu = check_id cam i en uu.
Proof.
  unfold identifier_wire. destruct (Z.eqb_spec (id_kind i) IdentifierKind.absent) as [E|].
  - unfold check_id. by rewrite E.
  - destruct (Z.eqb_spec (id_kind i) IdentifierKind.short_id) as [E|]; [|done].
    unfold check_id. by rewrite E.
Qed.

Lemma size_words_wire i : size_words (identifier_wire i) = size_words i.
Proof.
  unfold identifier_wire, size_words.
  destruct (Z.eqb_spec (id_kind i) IdentifierKind.absent) as [E|]; [done|].
  destruct (Z.eqb_spec (id_kind i) IdentifierKind.short_id) as [E|]; [done|].
  repeat bdestruct_step; done.
Qed.

(** Measuring sees only what is on the wire. *)
Lemma measure_envelope_wire e n :
  measure_envelope (envelope_wire e) n = measure_envelope e n.
Proof.
  unfold measure_envelope, envelope_wire.
  cbn [env_type packet_count stream_id class_id timestamp env_trailer nd0 spectrum tsm ack cancel
       command timestamp_wire tsi tsf].
  destruct (command e) as [c|] eqn:Ec; [|done]. cbn [fmap option_fmap option_map is_some].
  assert (validate_cam (envelope_wire e) = validate_cam e) as Hv.
  { unfold validate_cam, envelope_wire. cbn. by rewrite Ec. }
  unfold envelope_wire in Hv. rewrite Ec in Hv. cbn [fmap option_fmap option_map] in Hv. rewrite Hv.
  cbn [command_wire cam controllee controller]. by rewrite !check_id_wire, !size_words_wire.
Qed.

(** ** Encoding writes exactly the packet *)

Lemma split_length {A} (l : list A) n :
  (n <= length l)%nat -> exists a b, l = a ++ b /\ length a = n.
Proof. intros. exists (take n l), (drop n l). rewrite take_drop, length_take. split; [done|lia]. Qed.

Lemma drop_app3 {A} (pre mid post : list A) n :
  n = (length pre + length mid)%nat -> drop n (pre ++ mid ++ post) = post.
Proof. intros ->. rewrite app_assoc, <- length_app. apply drop_app_length. Qed.

Lemma store32_app pre mid post v :
  length mid = 4%nat ->
  store32 (pre ++ mid ++ post) (zlen pre) v = Ok (pre ++ be32_bytes v ++ post).
Proof.
  intros Hm. unfold store32, zlen. rewrite !length_app.
  rewrite (proj2 (Z.ltb_ge _ _)), (proj2 (Z.ltb_ge _ _)) by lia. simpl orb. cbv iota.
  rewrite Nat2Z.id, take_app_length, drop_app3 by lia. done.
Qed.

Lemma memmove_app pre mid post data :
  length mid = length data ->
  memmove (pre ++ mid ++ post) (zlen pre) data = Ok (pre ++ data ++ post).
Proof.
  intros Hm. unfold memmove, zlen. rewrite !length_app.
  rewrite (proj2 (Z.ltb_ge _ _)), (proj2 (Z.ltb_ge _ _)) by lia. simpl orb. cbv iota.
  rewrite Nat2Z.id, take_app_length, drop_app3 by lia. done.
Qed.

Lemma put_all_app ws pre mid post :
  length mid = (4 * length ws)%nat ->
  put_all (pre ++ mid ++ post, zlen pre) ws =
  Ok (pre ++ words_bytes ws ++ post, zlen pre + 4 * zlen ws).
Proof.
  revert pre mid. induction ws as [|w ws IH]; intros pre mid Hm.
  - destruct mid; [|done]. cbn [put_all words_bytes app]. do 2 f_equal. unfold zlen. simpl. lia.
  - destruct (split_length mid 4) as (m & mid' & -> & Hl); [simpl in Hm; lia|].
    rewrite length_app in Hm. cbn [put_all]. unfold put at 1. cbn [fst snd].
    rewrite <- app_assoc, store32_app by done. cbn [rbind].
    replace (zlen pre + 4) with (zlen (pre ++ be32_bytes w)) by (rewrite zlen_app; done).
    rewrite app_assoc, IH by (simpl in Hm; lia).
    cbn [words_bytes]. rewrite <- !app_assoc. do 2 f_equal.
    rewrite zlen_app. unfold zlen. cbn [be32_bytes length]. lia.
Qed.

Lemma envelope_bytes_length e payload trailer n size :
  measured e n size -> n = zlen payload -> env_trailer e = is_some trailer ->
  zlen (envelope_bytes e payload trailer) = size.
Proof.
  intros [] -> Ht. rewrite m_size0, Ht. unfold envelope_bytes.
  rewrite !zlen_app, zlen_words_bytes. unfold zlen at 2. cbn [length].
  destruct trailer; simpl is_some; simpl b2z; unfold zlen; cbn [length be32_bytes]; lia.
Qed.

Lemma encode_envelope_bytes e payload trailer output size :
  env_trailer e = is_some trailer ->
  measure_envelope e (zlen payload) = Ok size ->
  size <= zlen output ->
  encode_envelope e payload trailer output =
  Ok (size, envelope_bytes e payload trailer ++ drop (Z.to_nat size) output).
Proof.
  intros Ht Hm Hout.
  pose proof (measure_measured e (zlen payload) size (zlen_nonneg _) Hm) as M.
  pose proof (m_size _ _ _ M) as Hsize. rewrite Ht in Hsize.
  unfold encode_envelope. rewrite Ht at 1. rewrite Bool.eqb_reflx. cbn [negb]. rewrite Hm.
  cbn [rbind]. rewrite (proj2 (Z.ltb_ge _ _)) by done.
  set (ws := header_word e size :: prologue_words e).
  assert (Hws : 4 * zlen ws = 4 * (1 + zlen (prologue_words e))) by (unfold ws, zlen; simpl; lia).
  set (tl := match trailer with Some t => be32_bytes t | None => [] end).
  destruct (split_length output (4 * length ws)) as (A & o1 & -> & HA).
  { unfold zlen in *. destruct (is_some trailer); simpl b2z in *; lia. }
  rewrite zlen_app in Hout.
  assert (HA' : zlen A = 4 * zlen ws) by (unfold zlen in *; lia).
  destruct (split_length o1 (length payload)) as (B & o2 & -> & HB).
  { unfold zlen in *. destruct (is_some trailer); simpl b2z in *; lia. }
  rewrite zlen_app in Hout.
  assert (HB' : zlen B = zlen payload) by (unfold zlen in *; lia).
  replace (size - zlen payload - (if env_trailer e then 4 else 0)) with (zlen A)
    by (rewrite Ht; destruct trailer; simpl in Hsize |- *; lia).
  assert (Hmove : match payload with [] => Ok (A ++ B ++ o2)
                  | _ => memmove (A ++ B ++ o2) (zlen A) payload end = Ok (A ++ payload ++ o2)).
  { destruct payload; [destruct B; done|]. by apply memmove_app. }
  rewrite Hmove. cbn [rbind].
  pose proof (put_all_app ws [] A (payload ++ o2) HA) as Hput. cbn [app] in Hput.
  change (zlen []) with 0 in Hput. rewrite Hput. cbn [rbind fst snd].
  unfold envelope_bytes. rewrite <- Hsize. fold ws. fold tl.
  replace (0 + 4 * zlen ws + zlen payload) with (zlen (words_bytes ws ++ payload))
    by (rewrite zlen_app, zlen_words_bytes; lia).
  destruct trailer as [t|].
  - simpl is_some in Hsize. simpl b2z in Hsize.
    destruct (split_length o2 4) as (C & D & -> & HC); [unfold zlen in *; lia|].
    unfold put. cbn [fst snd]. rewrite app_assoc, store32_app by done. cbn [rbind fst snd].
    rewrite <- !app_assoc. do 2 f_equal.
    + rewrite zlen_app, zlen_words_bytes. lia.
    + rewrite (app_assoc B), drop_app3; [done|]. rewrite length_app. unfold zlen in *. lia.
  - simpl is_some in Hsize. simpl b2z in Hsize. cbn [rbind fst snd].
    rewrite <- !app_assoc. do 2 f_equal.
    + rewrite zlen_app, zlen_words_bytes. lia.
    + rewrite drop_app3; [done|]. unfold zlen in *. lia.
Qed.

(** ** Decoding one word *)

Lemma take_word_at wire off v :
  at_words wire off [v] -> u32 v -> take_word wire (zlen wire) off = (Ok v, off + 4).
Proof.
  intros Ha Hv. pose proof (at_words_bound _ _ _ Ha ltac:(done)) as Hb. change (zlen [v]) with 1 in Hb.
  unfold take_word. rewrite (proj2 (Z.ltb_ge _ _)), (proj2 (Z.ltb_ge _ _)) by lia.
  by rewrite (at_words_one_inv _ _ _ Ha Hv).
Qed.

Lemma take_word_Ok wire off off' v :
  0 <= off -> take_word wire (zlen wire) off = (Ok v, off') ->
  at_words wire off [v] /\ u32 v /\ off' = off + 4.
Proof.
  intros Hoff. unfold take_word. destruct (_ || _) eqn:E; [done|]. intros [= Hl <-].
  apply load32_at_words in Hl as [? ?]. done.
Qed.

Lemma take_word_safe wire off :
  0 <= off -> safe (take_word wire (zlen wire) off).1 /\ 0 <= (take_word wire (zlen wire) off).2.
Proof.
  intros Hoff. unfold take_word, safe. destruct (_ || _) eqn:E; cbn [fst snd]; [done|].
  apply orb_false_iff in E as [?%Z.ltb_ge ?%Z.ltb_ge].
  destruct (load32_in_bounds wire off) as [v ->]; [lia|lia|]. split; [done|lia].
Qed.

(** ** Decoding the optional parts: what is read is what stands on the wire *)

Lemma decode_stream_id_at wire type off s :
  has_sid type = is_some s -> at_words wire off (stream_words s) -> from_option u32 True s ->
  decode_stream_id wire (zlen wire) type off = Ok (s, off + 4 * zlen (stream_words s)).
Proof.
  intros Hs Ha Ht. unfold decode_stream_id. rewrite Hs. destruct s as [v|]; cbn [is_some].
  - rewrite (take_word_at _ _ v) by done. done.
  - cbn. do 2 f_equal. unfold zlen; simpl; lia.
Qed.

Lemma decode_stream_id_Ok wire type off s off' :
  0 <= off -> decode_stream_id wire (zlen wire) type off = Ok (s, off') ->
  at_words wire off (stream_words s) /\ off' = off + 4 * zlen (stream_words s) /\
  has_sid type = is_some s /\ from_option u32 True s.
Proof.
  intros Hoff. unfold decode_stream_id. destruct (has_sid type).
  - destruct (take_word _ _ _) as [[v| |] o] eqn:E; try done. intros [= <- <-].
    apply take_word_Ok in E as (?&?&->); done.
  - intros [= <- <-]. repeat split; try done. unfold zlen; simpl; lia.
Qed.

Lemma class_words_fields c :
  class_typed c -> oui c <= 0xffffff -> pad_bits c <= 31 ->
  let a := Z.lor (Z.shiftl (pad_bits c) 27) (oui c) in
  let b := Z.lor (Z.shiftl (information_class c) 16) (packet_class c) in
  u32 a /\ u32 b /\ Z.land a 0x07000000 = 0 /\
  mkClassId (Z.land a 0xffffff) (wrap16 (Z.shiftr b 16)) (wrap16 b) (wrap8 (Z.shiftr a 27)) = c.
Proof.
  destruct c as [o i p d]. intros (Ho & Hi & Hp & Hd) Hob Hdb. simpl in *.
  rewrite !Z.shiftl_mul_pow2, (lor_low _ o), (lor_low _ p) by zlia.
  replace (Z.land (d * 2 ^ 27 + o) 0x07000000) with 0.
  - change 0xffffff with (2 ^ 24 - 1). rewrite land_mask, !Z.shiftr_div_pow2 by lia.
    repeat split; try zlia. f_equal; zlia.
  - symmetry. apply Z.bits_inj'. intros n Hn. rewrite Z.land_spec, Z.bits_0.
    rewrite <- (lor_low _ o 27), Z.lor_spec, Z.mul_pow2_bits by zlia.
    change 0x07000000 with (7 * 2 ^ 24). rewrite Z.mul_pow2_bits by lia.
    destruct (Z.lt_ge_cases n 24); [by rewrite (Z.testbit_neg_r 7), andb_false_r by lia|].
    rewrite (testbit_high o 24) by zlia.
    destruct (Z.lt_ge_cases n 27); [by rewrite (Z.testbit_neg_r d) by lia|].
    by rewrite (testbit_high 7 3), andb_false_r by lia.
Qed.

Lemma decode_class_id_at wire h off c :
  bit_set h 27 = is_some c -> at_words wire off (class_words c) -> from_option class_typed True c ->
  (forall c', c = Some c' -> oui c' <= 0xffffff /\ pad_bits c' <= 31) ->
  decode_class_id wire (zlen wire) h off = Ok (c, off + 4 * zlen (class_words c)).
Proof.
  intros Hb Ha Ht Hc. unfold decode_class_id. rewrite Hb. destruct c as [c|]; cbn [is_some].
  - destruct (Hc c eq_refl) as [? ?].
    destruct (class_words_fields c Ht) as (Hu1 & Hu2 & Hz & Hc'); [done..|].
    cbn [class_words] in Ha |- *. set (a := Z.lor _ (oui c)) in *. set (b := Z.lor _ (packet_class c)) in *.
    apply (at_words_app wire off [a] [b]) in Ha as [Ha1 Ha2]. change (off + 4 * zlen [a]) with (off + 4) in Ha2.
    rewrite (take_word_at _ _ _ Ha1 Hu1), (take_word_at _ _ _ Ha2 Hu2). cbn [rbind].
    rewrite Hz. cbn [nonzero Z.eqb negb]. rewrite Hc'. do 2 f_equal. unfold zlen; simpl; lia.
  - do 2 f_equal. unfold zlen; simpl; lia.
Qed.

Lemma class_fields_words a b :
  u32 a -> u32 b -> Z.land a 0x07000000 = 0 ->
  let c := mkClassId (Z.land a 0xffffff) (wrap16 (Z.shiftr b 16)) (wrap16 b)
             (wrap8 (Z.shiftr a 27)) in
  class_words (Some c) = [a; b] /\ class_typed c /\ oui c <= 0xffffff /\ pad_bits c <= 31.
Proof.
  intros Ha Hb Hz c.
  assert (Hmid : (a / 2 ^ 24) mod 2 ^ 3 = 0).
  { apply (f_equal (fun z => Z.shiftr z 24)) in Hz. rewrite Z.shiftr_land, Z.shiftr_0_l in Hz.
    rewrite <- land_mask by lia. rewrite <- Z.shiftr_div_pow2 by lia. done. }
  subst c. unfold class_words, class_typed. cbn [oui information_class packet_class pad_bits].
  change 0xffffff with (2 ^ 24 - 1).
  rewrite !land_mask, !Z.shiftr_div_pow2, !Z.shiftl_mul_pow2 by lia.
  rewrite (lor_low _ (a mod 2 ^ 24) 27), (lor_low _ (wrap16 b) 16) by zlia.
  repeat split; try zlia. repeat f_equal; zlia.
Qed.

Lemma decode_class_id_Ok wire h off c off' :
  0 <= off -> decode_class_id wire (zlen wire) h off = Ok (c, off') ->
  at_words wire off (class_words c) /\ off' = off + 4 * zlen (class_words c) /\
  bit_set h 27 = is_some c /\ from_option class_typed True c.
Proof.
  intros Hoff. unfold decode_class_id. destruct (bit_set h 27).
  - destruct (take_word _ _ off) as [a o1] eqn:E1.
    destruct (take_word _ _ o1) as [b o2] eqn:E2. intros H. inv_ok.
    apply take_word_Ok in E1 as (A1 & U1 & ->); [|done].
    apply take_word_Ok in E2 as (A2 & U2 & ->); [|lia].
    match goal with H : nonzero _ = false |- _ => apply nonzero_false in H; rename H into Hz end.
    destruct (class_fields_words _ _ U1 U2 Hz) as (Hw & Ht & _). rewrite Hw.
    repeat split; try apply Ht.
    + apply A1.
    + apply (at_words_app wire off [x] [x0]). split; [done|]. change (off + 4 * zlen [x]) with (off + 4). done.
    + unfold zlen; simpl; lia.
  - intros [= <- <-]. repeat split; try done. unfold zlen; simpl; lia.
Qed.

Lemma decode_integer_at wire t off :
  at_words wire off (integer_words t) -> u32 (ts_integer t) ->
  decode_integer wire (zlen wire) (tsi t) off =
  Ok (ts_integer (timestamp_wire t), off + 4 * zlen (integer_words t)).
Proof.
  intros Ha Ht. unfold decode_integer, integer_words, timestamp_wire in *. cbn [ts_integer].
  destruct (tsi t =? Tsi.none); cbn [negb] in *.
  - do 2 f_equal. unfold zlen; simpl; lia.
  - rewrite (take_word_at _ _ (ts_integer t)) by done. done.
Qed.

Lemma decode_integer_Ok wire ts off v off' :
  0 <= off -> decode_integer wire (zlen wire) ts off = Ok (v, off') ->
  forall f fr, let t := mkTimestamp ts f v fr in
  at_words wire off (integer_words t) /\ off' = off + 4 * zlen (integer_words t) /\ u32 v.
Proof.
  intros Hoff H f fr. revert H. unfold decode_integer, integer_words. cbn [tsi ts_integer].
  destruct (ts =? Tsi.none); cbn [negb].
  - intros [= <- <-]. repeat split; try done. unfold zlen; simpl; lia.
  - destruct (take_word _ _ _) as [[w| |] o] eqn:E; try done. intros [= <- <-].
    apply take_word_Ok in E as (?&?&->); done.
Qed.

Lemma fractional_words_value f :
  u64 f ->
  u32 (wrap32 (Z.shiftr f 32)) /\ u32 (wrap32 f) /\
  Z.lor (Z.shiftl (wrap32 (Z.shiftr f 32)) 32) (wrap32 f) = f.
Proof.
  intros. rewrite Z.shiftr_div_pow2, Z.shiftl_mul_pow2, lor_low by zlia.
  repeat split; zlia.
Qed.

Lemma decode_fractional_at wire t off :
  at_words wire off (fractional_words t) -> u64 (ts_fractional t) ->
  decode_fractional wire (zlen wire) (tsf t) off =
  Ok (ts_fractional (timestamp_wire t), off + 4 * zlen (fractional_words t)).
Proof.
  intros Ha Ht. unfold decode_fractional, fractional_words, timestamp_wire in *. cbn [ts_fractional].
  destruct (tsf t =? Tsf.none); cbn [negb] in *.
  - do 2 f_equal. unfold zlen; simpl; lia.
  - destruct (fractional_words_value _ Ht) as (U1 & U2 & Hf).
    set (a := wrap32 (Z.shiftr _ _)) in *. set (b := wrap32 (ts_fractional t)) in *.
    apply (at_words_app wire off [a] [b]) in Ha as [Ha1 Ha2]. change (off + 4 * zlen [a]) with (off + 4) in Ha2.
    rewrite (take_word_at _ _ _ Ha1 U1), (take_word_at _ _ _ Ha2 U2). cbn [rbind].
    rewrite Hf. do 2 f_equal. unfold zlen; simpl; lia.
Qed.

Lemma decode_fractional_Ok wire ts off v off' :
  0 <= off -> decode_fractional wire (zlen wire) ts off = Ok (v, off') ->
  forall i it, let t := mkTimestamp i ts it v in
  at_words wire off (fractional_words t) /\ off' = off + 4 * zlen (fractional_words t) /\ u64 v.
Proof.
  intros Hoff H i it. revert H. unfold decode_fractional, fractional_words. cbn [tsf ts_fractional].
  destruct (ts =? Tsf.none); cbn [negb].
  - intros [= <- <-]. repeat split; try done. unfold zlen; simpl; lia.
  - destruct (take_word _ _ off) as [a o1] eqn:E1.
    destruct (take_word _ _ o1) as [b o2] eqn:E2. intros H. inv_ok.
    apply take_word_Ok in E1 as (A1 & U1 & ->); [|done].
    apply take_word_Ok in E2 as (A2 & U2 & ->); [|lia].
    assert (Hv : Z.lor (Z.shiftl x 32) x0 = x * 2 ^ 32 + x0)
      by (rewrite Z.shiftl_mul_pow2, lor_low by zlia; done).
    rewrite Hv, Z.shiftr_div_pow2 by lia.
    replace (wrap32 ((x * 2 ^ 32 + x0) / 2 ^ 32)) with x by zlia.
    replace (wrap32 (x * 2 ^ 32 + x0)) with x0 by zlia.
    split; [|split; [unfold zlen; simpl; lia|zlia]].
    apply (at_words_app wire off [x] [x0]). split; [done|]. change (off + 4 * zlen [x]) with (off + 4). done.
Qed.

Lemma take_words_at wire ws off :
  at_words wire off ws -> Forall u32 ws ->
  take_words wire (zlen wire) (length ws) off = Ok (ws, off + 4 * zlen ws).
Proof.
  revert off. induction ws as [|w ws IH]; intros off Ha Ht.
  - cbn. do 2 f_equal. unfold zlen; simpl; lia.
  - apply (at_words_app wire off [w] ws) in Ha as [Ha1 Ha2]. change (off + 4 * zlen [w]) with (off + 4) in Ha2.
    inversion Ht; subst. cbn [length take_words].
    rewrite (take_word_at _ _ w) by done. cbn [rbind]. rewrite IH by done. cbn [rbind].
    do 2 f_equal. unfold zlen. cbn [length]. lia.
Qed.

Lemma take_words_Ok wire n off ws off' :
  0 <= off -> take_words wire (zlen wire) n off = Ok (ws, off') ->
  length ws = n /\ at_words wire off ws /\ Forall u32 ws /\ off' = off + 4 * zlen ws.
Proof.
  revert off ws. induction n as [|n IH]; intros off ws Hoff; cbn [take_words].
  - intros [= <- <-]. repeat split; try done. unfold zlen; simpl; lia.
  - destruct (take_word _ _ off) as [a o1] eqn:E1. intros H. inv_ok.
    apply take_word_Ok in E1 as (A1 & U1 & ->); [|done].
    match goal with H : take_words _ _ _ _ = Ok (?l, _) |- _ => rename l into vs; apply IH in H as (? & A2 & ? & ->); [|lia] end.
    repeat split; [simpl; lia|apply A1| |by constructor|unfold zlen; cbn [length]; lia].
    apply (at_words_app wire off [x] vs). split; [done|].
    change (off + 4 * zlen [x]) with (off + 4). done.
Qed.

Lemma check_id_true cam i en uu :
  check_id cam i en uu = true -> 0 <= id_kind i ->
  (id_kind i = 0 /\ bit_set cam en = false) \/
  (id_kind i = 1 /\ bit_set cam en = true /\ bit_set cam uu = false) \/
  (id_kind i = 2 /\ bit_set cam en = true /\ bit_set cam uu = true).
Proof.
  unfold check_id, IdentifierKind.absent, IdentifierKind.uuid. intros H Hk.
  destruct (Z.ltb_spec 2 (id_kind i)); [done|].
  assert (id_kind i = 0 \/ id_kind i = 1 \/ id_kind i = 2) as [E|[E|E]] by lia; rewrite E in H |- *;
    destruct (bit_set cam en), (bit_set cam uu); simpl in H; try done; auto.
Qed.

Lemma decode_identifier_at wire cam i en uu off :
  check_id cam i en uu = true -> identifier_typed i -> at_words wire off (identifier_words i) ->
  decode_identifier wire (zlen wire) cam en uu off =
  Ok (identifier_wire i, off + 4 * zlen (identifier_words i)).
Proof.
  intros Hc [Hk Hu] Ha. unfold decode_identifier, identifier_wire.
  destruct i as [k w0 w1 w2 w3]. cbn [id_kind id_words id_w0] in *.
  inversion Hu as [|??? Hu1]; subst. inversion Hu1; subst.
  destruct (check_id_true _ _ _ _ Hc Hk) as [[E ->]|[(E & -> & ->)|(E & -> & ->)]];
    cbn [id_kind] in E; subst k.
  - cbn. do 2 f_equal. unfold zlen; simpl; lia.
  - change (identifier_words _) with [w0] in Ha |- *. change (Z.to_nat (size_words _)) with (length [w0]).
    rewrite take_words_at by auto. done.
  - change (identifier_words _) with [w0; w1; w2; w3] in Ha |- *.
    change (Z.to_nat (size_words _)) with (length [w0; w1; w2; w3]).
    rewrite take_words_at by auto. done.
Qed.

Lemma decode_identifier_Ok wire cam en uu off i off' :
  0 <= off -> decode_identifier wire (zlen wire) cam en uu off = Ok (i, off') ->
  at_words wire off (identifier_words i) /\ off' = off + 4 * zlen (identifier_words i) /\
  identifier_typed i.
Proof.
  intros Hoff. unfold decode_identifier. destruct (bit_set cam en).
  - set (k := if bit_set cam uu then _ else _). intros H. inv_ok.
    match goal with H : take_words _ _ _ _ = Ok (?l, _) |- _ => rename l into ws;
      apply take_words_Ok in H as (Hl & ? & Hu & ->); [|done] end.
    subst k. destruct (bit_set cam uu).
    + by destruct ws as [|a [|b [|c [|d [|]]]]].
    + destruct ws as [|a [|]]; [done| |done]. split; [done|]. split; [done|].
      split; [done|]. inversion Hu; subst. cbn. repeat (apply List.Forall_cons; [done|]). done.
  - intros [= <- <-]. repeat split; try done; try (unfold zlen; simpl; lia).
    cbn. repeat (apply List.Forall_cons; [done|]). done.
Qed.

Lemma decode_command_at wire type off c :
  is_command type = is_some c -> from_option command_typed True c ->
  (forall c', c = Some c' -> check_id (cam c') (controllee c') 31 30 = true /\
                             check_id (cam c') (controller c') 29 28 = true) ->
  at_words wire off (command_words c) ->
  decode_command wire (zlen wire) type off =
  Ok (command_wire <$> c, off + 4 * zlen (command_words c)).
Proof.
  intros Hc Ht Hids Ha. unfold decode_command. rewrite Hc. destruct c as [c|]; cbn [is_some].
  - destruct Ht as (U1 & U2 & T1 & T2). destruct (Hids c eq_refl) as [C1 C2]. cbn [command_words] in *.
    apply at_words_app in Ha as [Ha Ha2]. apply at_words_app in Ha2 as [Ha2 Ha3].
    apply (at_words_app wire off [cam c] [message_id c]) in Ha as [Ha0 Ha1].
    change (off + 4 * zlen [cam c]) with (off + 4) in Ha1.
    rewrite (take_word_at _ _ _ Ha0 U1), (take_word_at _ _ _ Ha1 U2). cbn [rbind].
    replace (off + 4 + 4) with (off + 4 * zlen [cam c; message_id c]) by (unfold zlen; simpl; lia).
    rewrite (decode_identifier_at _ _ (controllee c)) by done. cbn [rbind].
    rewrite (decode_identifier_at _ _ (controller c)) by done. cbn [rbind].
    rewrite !zlen_app. unfold command_wire. cbn [fmap option_fmap option_map]. do 2 f_equal. lia.
  - do 2 f_equal. unfold zlen; simpl; lia.
Qed.

Lemma decode_command_Ok wire type off c off' :
  0 <= off -> decode_command wire (zlen wire) type off = Ok (c, off') ->
  at_words wire off (command_words c) /\ off' = off + 4 * zlen (command_words c) /\
  is_command type = is_some c /\ from_option command_typed True c.
Proof.
  intros Hoff. unfold decode_command. destruct (is_command type).
  - destruct (take_word _ _ off) as [a o1] eqn:E1.
    destruct (take_word _ _ o1) as [b o2] eqn:E2. intros H. inv_ok.
    apply take_word_Ok in E1 as (A1 & U1 & ->); [|done].
    apply take_word_Ok in E2 as (A2 & U2 & ->); [|lia].
    repeat match goal with H : decode_identifier _ _ _ _ _ _ = _ |- _ =>
      apply decode_identifier_Ok in H as (? & -> & ?); [|lia || (unfold zlen; lia)] end.
    split; [|split; [|done]]; cbn [command_words cam message_id controllee controller].
    + rewrite !at_words_app. rewrite (at_words_app wire off [x] [x0]).
      change (off + 4 * zlen [x]) with (off + 4).
      replace (off + 4 * zlen [x; x0]) with (off + 4 + 4) by (unfold zlen; simpl; lia). done.
    + rewrite !zlen_app. unfold zlen. cbn [length]. lia.
  - intros [= <- <-]. repeat split; try done. unfold zlen; simpl; lia.
Qed.

(** ** Round trip *)

Lemma measured_command e n size : measured e n size -> is_command (env_type e) = is_some (command e).
Proof.
  intros []. unfold is_data, is_command in *. revert m_flags0.
  destruct (Z.leb_spec (env_type e) 3), (Z.leb_spec 6 (env_type e)); try lia;
    destruct (command e); cbn [is_some negb]; rewrite ?orb_true_r; done.
Qed.

(** The fields of the header word of a measured envelope. *)
Lemma measured_header e n size :
  envelope_typed e -> measured e n size -> 0 <= n ->
  let h := header_word e size in
  u32 h /\ Z.shiftr h 28 = env_type e /\ Z.land h 0xffff * 4 = size /\
  Z.land (Z.shiftr h 16) 15 = packet_count e /\
  Z.land (Z.shiftr h 22) 3 = tsi (timestamp e) /\
  Z.land (Z.shiftr h 20) 3 = tsf (timestamp e) /\
  bit_set h 27 = is_some (class_id e) /\
  (bit_set h 26, bit_set h 25, bit_set h 24) = header_flags e.
Proof.
  intros (T1 & T2 & _ & _ & (T3 & T4 & _) & _) M Hn h.
  destruct (measured_aligned _ _ _ Hn M). destruct M.
  assert (0 <= size / 4 <= 65535) by zlia. subst h.
  rewrite header_word_sum by zlia.
  destruct (header_sum_fields (env_type e) (b2z (is_some (class_id e))) (b2z (header_flags e).1.1)
    (b2z (header_flags e).1.2) (b2z (header_flags e).2) (tsi (timestamp e)) (tsf (timestamp e))
    (packet_count e) (size / 4)) as (?&?&Hw&?&?&?&Hc&H26&H25&H24); try apply b2z_range; try zlia.
  rewrite Hw, Hc, H26, H25, H24, !nonzero_b2z. do 7 (split; [done || zlia|]).
  by destruct (header_flags e) as [[??]?].
Qed.

Lemma decode_flags_header e n size h :
  measured e n size -> (bit_set h 26, bit_set h 25, bit_set h 24) = header_flags e ->
  decode_flags (env_type e) h = Ok (env_trailer e, nd0 e, spectrum e, tsm e, ack e, cancel e).
Proof.
  intros [] Hf. unfold decode_flags, header_flags in *.
  destruct (is_data (env_type e)); [|destruct (is_command (env_type e))];
    injection Hf as -> -> ->;
    repeat match goal with H : _ || _ = false |- _ => apply orb_false_iff in H as [? ?] end;
    repeat match goal with H : ?b = false |- _ => is_var b || (rewrite H; clear H) end; done.
Qed.

Lemma subspan_app pre mid post :
  subspan (pre ++ mid ++ post) (zlen pre) (zlen mid) = Ok mid.
Proof.
  unfold subspan. rewrite !zlen_app.
  pose proof (zlen_nonneg pre). pose proof (zlen_nonneg mid). pose proof (zlen_nonneg post).
  rewrite !(proj2 (Z.ltb_ge _ _)) by lia. cbn [orb]. unfold zlen.
  by rewrite !Nat2Z.id, drop_app_length, take_app_length.
Qed.

Lemma at_words_prefix ws post : at_words (words_bytes ws ++ post) 0 ws.
Proof. split; [done|]. rewrite drop_0, <- words_bytes_length, take_app_length. done. Qed.

Lemma at_words_skip pre ws post : at_words (pre ++ words_bytes ws ++ post) (zlen pre) ws.
Proof.
  split; [apply zlen_nonneg|]. unfold zlen. rewrite Nat2Z.id, drop_app_length.
  by rewrite <- words_bytes_length, take_app_length.
Qed.

Lemma decode_envelope_bytes e payload trailer size :
  envelope_typed e -> from_option u32 True trailer -> env_trailer e = is_some trailer ->
  measure_envelope e (zlen payload) = Ok size ->
  decode_envelope (envelope_bytes e payload trailer) =
  Ok (mkEnvelopeView (envelope_wire e) payload trailer (4 * (1 + zlen (prologue_words e)))
        (envelope_bytes e payload trailer)).
Proof.
  intros T Ut Ht Hm.
  pose proof (measure_measured e (zlen payload) size (zlen_nonneg _) Hm) as M.
  pose proof (envelope_bytes_length _ _ trailer _ _ M eq_refl Ht) as Hlen.
  pose proof (m_size _ _ _ M) as Hsize. rewrite Ht in Hsize.
  destruct (measured_aligned _ _ _ (zlen_nonneg _) M) as [_ H4].
  destruct (measured_header e _ _ T M (zlen_nonneg _)) as (Uh&E28&Esz&Epc&Etsi&Etsf&Ecl&Efl).
  pose proof (measured_command _ _ _ M) as Hcmd.
  set (wire := envelope_bytes e payload trailer) in *.
  set (tl := match trailer with Some t => be32_bytes t | None => [] end).
  assert (Hw : wire = words_bytes (header_word e size :: prologue_words e) ++ payload ++ tl)
    by (unfold wire, envelope_bytes; rewrite <- Hsize; done).
  pose proof (at_words_prefix (header_word e size :: prologue_words e) (payload ++ tl)) as Ha.
  rewrite <- Hw in Ha. apply (at_words_app wire 0 [header_word e size]) in Ha as [Ha0 Ha].
  change (0 + 4 * zlen [header_word e size]) with 4 in Ha.
  set (h := header_word e size) in *.
  unfold prologue_words in Ha. repeat rewrite at_words_app in Ha. destruct Ha as (A1&A2&A3&A4&A5).
  destruct T as (_&_&Ts&Tc&(_&_&Ti&Tf)&Tcmd).
  rewrite <- Hlen in Esz, H4, Hsize. unfold decode_envelope. rewrite (proj2 (Z.ltb_ge _ _)) by lia.
  rewrite (at_words_one_inv _ _ _ Ha0 Uh). cbn [rbind]. rewrite E28, Esz, Epc, Etsi, Etsf.
  rewrite (proj2 (Z.ltb_ge _ _)), (proj2 (Z.eqb_neq _ _)) by (lia || apply M). cbn [orb].
  rewrite (proj2 (Z.ltb_ge _ _)), Z.eqb_refl by lia. cbn [negb].
  rewrite (decode_flags_header e _ _ h M Efl). cbn [rbind].
  rewrite (decode_stream_id_at _ _ _ _ (m_sid _ _ _ M) A1 Ts). cbn [rbind].
  rewrite (decode_class_id_at _ _ _ _ Ecl A2 Tc (m_class _ _ _ M)). cbn [rbind].
  rewrite (decode_integer_at _ _ _ A3 Ti). cbn [rbind].
  rewrite (decode_fractional_at _ _ _ A4 Tf). cbn [rbind].
  rewrite (decode_command_at _ _ _ _ Hcmd Tcmd (m_ids _ _ _ M) A5). cbn [rbind].
  replace (4 + _ + _ + _ + _ + _) with (4 * (1 + zlen (prologue_words e)))
    by (unfold prologue_words; rewrite !zlen_app; lia).
  rewrite Ht, (proj2 (Z.ltb_ge _ _)), (proj2 (Z.ltb_ge _ _))
    by (destruct trailer; cbn [is_some b2z] in *; pose proof (zlen_nonneg payload); lia).
  cbn [orb].
  replace (zlen wire - 4 * (1 + zlen (prologue_words e)) - (if is_some trailer then 4 else 0))
    with (zlen payload) by (destruct trailer; cbn [is_some b2z] in *; lia).
  assert (Hsub : subspan wire (4 * (1 + zlen (prologue_words e))) (zlen payload) = Ok payload).
  { rewrite Hw. replace (4 * (1 + zlen (prologue_words e)))
      with (zlen (words_bytes (h :: prologue_words e))); [apply subspan_app|].
    rewrite zlen_words_bytes. unfold zlen. cbn [length]. lia. }
  rewrite Hsub. cbn [rbind].
  match goal with |- context [measure_envelope ?e' _] =>
    replace e' with (envelope_wire e) by (unfold envelope_wire, timestamp_wire; rewrite Ht; done) end.
  rewrite measure_envelope_wire, Hm. cbn [rbind].
  destruct trailer as [t|]; cbn [is_some]; [|done].
  assert (Hl : load32 wire (zlen wire - 4) = Ok t).
  { apply at_words_one_inv; [|done]. rewrite Hsize, Hw.
    pose proof (at_words_skip (words_bytes (h :: prologue_words e) ++ payload) [t] []) as Hs.
    cbn [words_bytes] in Hs. rewrite !app_nil_r, <- app_assoc in Hs.
    match goal with |- at_words _ ?o _ =>
      replace o with (zlen (words_bytes (h :: prologue_words e) ++ payload)); [done|] end.
    rewrite zlen_app, zlen_words_bytes. unfold zlen in *. cbn [length is_some b2z] in *. lia. }
  rewrite Hl. done.
Qed.

(** ** Every wire that decodes is the encoding of what it decodes to *)

Lemma decode_flags_Ok type h fl :
  decode_flags type h = Ok fl ->
  let '(tr, nd, sp, ts, ac, ca) := fl in
  (bit_set h 26, bit_set h 25, bit_set h 24) =
  (if is_data type then (tr, nd, sp) else if is_command type then (ac, false, ca)
   else (false, nd, ts)).
Proof.
  unfold decode_flags. destruct (is_data type); [|destruct (is_command type)]; intros H; inv_ok;
    repeat match goal with H : bit_set _ _ = false |- _ => rewrite H end; done.
Qed.

Lemma land_mask_range z n : 0 <= n -> 0 <= Z.land z (2 ^ n - 1) <= 2 ^ n - 1.
Proof.
  intros Hn. rewrite land_mask by done. pose proof (Z.pow_pos_nonneg 2 n).
  pose proof (Z.mod_pos_bound z (2 ^ n)). lia.
Qed.

Lemma header_word_complete e h size :
  u32 h -> env_type e = Z.shiftr h 28 -> env_type e <= 7 -> packet_count e = Z.land (Z.shiftr h 16) 15 ->
  tsi (timestamp e) = Z.land (Z.shiftr h 22) 3 -> tsf (timestamp e) = Z.land (Z.shiftr h 20) 3 ->
  bit_set h 27 = is_some (class_id e) ->
  (bit_set h 26, bit_set h 25, bit_set h 24) = header_flags e ->
  size = Z.land h 0xffff * 4 -> header_word e size = h.
Proof.
  intros Uh E28 H7 Epc Etsi Etsf Ecl Efl ->.
  assert (0 <= Z.land h 0xffff <= 0xffff) by by apply (land_mask_range h 16).
  assert (0 <= Z.land (Z.shiftr h 16) 15 <= 15) by by apply (land_mask_range _ 4).
  assert (0 <= Z.land (Z.shiftr h 22) 3 <= 3) by by apply (land_mask_range _ 2).
  assert (0 <= Z.land (Z.shiftr h 20) 3 <= 3) by by apply (land_mask_range _ 2).
  assert (0 <= Z.shiftr h 28) by (apply Z.shiftr_nonneg, Uh).
  rewrite header_word_sum; [|rewrite ?E28, ?Epc, ?Etsi, ?Etsf, ?Z.div_mul; lia..].
  rewrite <- Ecl, <- Efl, E28, Epc, Etsi, Etsf, Z.div_mul by lia. cbn [fst snd].
  symmetry. by apply header_sum_complete.
Qed.

Lemma subspan_Ok l off n p :
  subspan l off n = Ok p ->
  0 <= off /\ 0 <= n /\ off + n <= zlen l /\ p = take (Z.to_nat n) (drop (Z.to_nat off) l).
Proof.
  unfold subspan. destruct (_ || _) eqn:E; [done|]. intros [= <-].
  apply orb_false_iff in E as [[?%Z.ltb_ge ?%Z.ltb_ge]%orb_false_iff ?%Z.ltb_ge]. done.
Qed.

Lemma take_zlen {A} (l : list A) n : 0 <= n <= zlen l -> zlen (take (Z.to_nat n) l) = n.
Proof. intros. unfold zlen in *. rewrite length_take. lia. Qed.

Lemma wire_regions wire off n ws t :
  at_words wire 0 ws -> off = 4 * zlen ws -> 0 <= n -> off + n + 4 * zlen t = zlen wire ->
  at_words wire (off + n) t ->
  wire = words_bytes ws ++ take (Z.to_nat n) (drop (Z.to_nat off) wire) ++ words_bytes t.
Proof.
  intros [_ E0] -> Hn Hlen [_ E1]. rewrite drop_0 in E0.
  rewrite <- E0, <- E1. unfold zlen in *.
  replace (Z.to_nat (4 * Z.of_nat (length ws))) with (4 * length ws)%nat by lia.
  replace (Z.to_nat (4 * Z.of_nat (length ws) + n)) with (4 * length ws + Z.to_nat n)%nat by lia.
  rewrite (take_ge (drop (4 * length ws + Z.to_nat n) wire)) by (rewrite length_drop; lia).
  by rewrite <- drop_drop, !take_drop.
Qed.

(** What a decoder run has read. *)
Lemma decode_envelope_inv wire v :
  decode_envelope wire = Ok v ->
  let e := ev_envelope v in
  let tl := if env_trailer e then 4 else 0 in
  at_words wire 0 (header_word e (zlen wire) :: prologue_words e) /\ envelope_typed e /\
  ev_wire v = wire /\ ev_payload_offset v = 4 * (1 + zlen (prologue_words e)) /\
  ev_payload_offset v + tl <= zlen wire /\
  subspan wire (ev_payload_offset v) (zlen wire - ev_payload_offset v - tl) = Ok (ev_payload v) /\
  (exists m, measure_envelope e (zlen (ev_payload v)) = Ok m) /\
  (if env_trailer e then rmap Some (load32 wire (zlen wire - 4)) else Ok None) = Ok (ev_trailer v).
Proof.
  intros H. cbv zeta. unfold decode_envelope in H. inv_ok.
  cbn [ev_wire ev_envelope ev_payload ev_trailer ev_payload_offset].
  match goal with H : load32 wire 0 = Ok ?w |- _ => rename w into h; apply load32_at_words in H as [Ah Uh] end.
  match goal with H : negb (_ =? zlen wire) = false |- _ =>
    apply negb_false_iff, Z.eqb_eq in H; rename H into Esz end.
  remember (Z.land h 65535 * 4) as n eqn:Hsz. rewrite Esz in *. clear n Esz.
  match goal with H : (7 <? _) || _ = false |- _ =>
    apply orb_false_iff in H as [Hty%Z.ltb_ge _] end.
  match goal with H : decode_stream_id _ _ _ _ = _ |- _ =>
    apply decode_stream_id_Ok in H as (A1 & -> & Hs & Ts); [|lia] end.
  match goal with H : decode_class_id _ _ _ _ = _ |- _ =>
    apply decode_class_id_Ok in H as (A2 & -> & Hc & Tc); [|unfold zlen; lia] end.
  match goal with
    H : decode_integer _ _ ?t ?o = Ok (?i, _), H' : decode_fractional _ _ ?f _ = Ok (?fr, _) |- _ =>
    assert (0 <= o) as Ho by (unfold zlen; lia); rename i into ti, fr into tf, H into Hint, H' into Hfr;
    destruct (decode_integer_Ok _ _ _ _ _ Ho Hint f tf) as (A3 & -> & Ti) end.
  match type of Hfr with decode_fractional _ _ _ ?o = _ =>
    assert (0 <= o) as Ho' by (unfold zlen; lia);
    destruct (decode_fractional_Ok _ _ _ _ _ Ho' Hfr (Z.land (Z.shiftr h 22) 3) ti) as (A4 & -> & Tf) end.
  match goal with H : decode_command _ _ _ _ = _ |- _ =>
    apply decode_command_Ok in H as (A5 & -> & Hcm & Tcm); [|unfold zlen; lia] end.
  match goal with H : decode_flags _ _ = _ |- _ => apply decode_flags_Ok in H as Hfl end.
  match goal with H : measure_envelope ?e' _ = _ |- _ => set (env := e') in *; rename H into Hm end.
  match goal with H : (zlen wire <? ?o) || _ = false |- _ =>
    replace o with (4 * (1 + zlen (prologue_words env))) in *
      by (unfold prologue_words, env; rewrite !zlen_app; cbn [stream_id class_id timestamp command]; lia);
    apply orb_false_iff in H as [?%Z.ltb_ge ?%Z.ltb_ge] end.
  assert (Hh : header_word env (zlen wire) = h).
  { apply header_word_complete; try done. }
  assert (0 <= Z.shiftr h 28) by (apply Z.shiftr_nonneg, Uh).
  split; [|split].
  - rewrite Hh. apply (at_words_app wire 0 [h]). split; [done|]. change (0 + 4 * zlen [h]) with 4.
    unfold prologue_words, env. cbn [stream_id class_id timestamp command]. rewrite !at_words_app.
    rewrite <- !Z.add_assoc in *. done.
  - assert (0 <= Z.land (Z.shiftr h 16) 15 <= 15) by by apply (land_mask_range _ 4).
    assert (0 <= Z.land (Z.shiftr h 22) 3 <= 3) by by apply (land_mask_range _ 2).
    assert (0 <= Z.land (Z.shiftr h 20) 3 <= 3) by by apply (land_mask_range _ 2).
    unfold envelope_typed, timestamp_typed, env.
    cbn [env_type packet_count stream_id class_id timestamp command tsi tsf ts_integer ts_fractional].
    split_and!; try done; zlia.
  - split_and!; try done; [|eauto]. unfold env in *. cbn [env_trailer] in *. lia.
Qed.

Lemma decode_envelope_complete wire v :
  decode_envelope wire = Ok v ->
  ev_wire v = wire /\ envelope_typed (ev_envelope v) /\ from_option u32 True (ev_trailer v) /\
  env_trailer (ev_envelope v) = is_some (ev_trailer v) /\
  measure_envelope (ev_envelope v) (zlen (ev_payload v)) = Ok (zlen wire) /\
  ev_payload_offset v = 4 * (1 + zlen (prologue_words (ev_envelope v))) /\
  wire = envelope_bytes (ev_envelope v) (ev_payload v) (ev_trailer v).
Proof.
  intros H. destruct (decode_envelope_inv _ _ H) as (Ha & T & Ew & Eo & Hb & Hp & [m Hm] & Ht).
  set (e := ev_envelope v) in *.
  set (tl := match ev_trailer v with Some t => [t] | None => [] end).
  assert (Htl : env_trailer e = is_some (ev_trailer v) /\ from_option u32 True (ev_trailer v) /\
            at_words wire (zlen wire - 4 * zlen tl) tl /\ (if env_trailer e then 4 else 0) = 4 * zlen tl).
  { subst tl. destruct (env_trailer e); [|injection Ht as <-; pose proof (zlen_nonneg wire)].
    - unfold rmap in Ht. apply rbind_Ok in Ht as (t & Hl & [= <-]).
      apply load32_at_words in Hl as [? ?]. done.
    - split_and!; try done. split; [change (zlen []) with 0; lia|done]. }
  destruct Htl as (Etr & Ut & At & Etl). rewrite Etl in *.
  apply subspan_Ok in Hp as (Ho & Hn & _ & Hp).
  pose proof (measure_measured e _ _ (zlen_nonneg _) Hm) as M. pose proof (m_size _ _ _ M) as Hsz.
  assert (Hlp : zlen (ev_payload v) = zlen wire - ev_payload_offset v - 4 * zlen tl).
  { rewrite Hp. apply take_zlen. unfold zlen in *. rewrite length_drop. lia. }
  assert (Hm' : m = zlen wire).
  { rewrite Hsz, Hlp, Eo, Etr. subst tl. destruct (ev_trailer v); cbn [is_some b2z];
    [change (zlen [z]) with 1|change (zlen []) with 0]; lia. }
  rewrite Hm' in *. clear m Hm'. split_and!; try done.
  unfold envelope_bytes. cbv zeta. rewrite <- Etr, <- Hsz.
  replace (match ev_trailer v with Some t => be32_bytes t | None => [] end) with (words_bytes tl)
    by (subst tl; destruct (ev_trailer v); done).
  rewrite Hp. apply wire_regions; try done.
  - rewrite Eo. unfold zlen. cbn [length]. lia.
  - lia.
  - by replace (ev_payload_offset v + _) with (zlen wire - 4 * zlen tl) by lia.
Qed.

(** ** Memory safety *)

Lemma validate_cam_safe e : is_some (command e) = true -> safe (validate_cam e).
Proof.
  intros H. unfold validate_cam, safe. destruct (command e); [|done]. cbn [deref rbind].
  repeat match goal with |- context [if ?c then _ else _] =>
    match c with context [if _ then _ else _] => fail 1 | _ => destruct c end end; done.
Qed.

Lemma measure_envelope_safe e n : safe (measure_envelope e n).
Proof.
  unfold measure_envelope, checked_add.
  repeat match goal with |- safe (if ?c then Err _ else _) => destruct c; [done|] end.
  apply rbind_safe.
  - destruct (command e) eqn:Ec; [|done]. apply rbind_safe; [apply validate_cam_safe; by rewrite Ec|].
    intros _ _. destruct (_ || _); done.
  - intros w _. apply rbind_safe; [destruct (_ <? _); done|]. intros t _. destruct (65535 <? t); done.
Qed.

(** A cursor step: no access outside the wire, and the cursor stays non-negative. *)
Definition cursor_safe {A} (r : Result (A * Z)) : Prop :=
  safe r /\ (forall x, r = Ok x -> 0 <= x.2).

Ltac cursor_step :=
  match goal with
  | |- context [take_word ?w (zlen ?w) ?o] =>
      let H := fresh in
      pose proof (take_word_safe w o ltac:(done || lia)) as H;
      destruct (take_word w (zlen w) o) as [[?| |] ?]; destruct H as [H ?]; cbn [fst snd rbind] in *;
      try (by destruct H)
  end.

Lemma decode_parts_safe wire type h ts tf off :
  0 <= off ->
  cursor_safe (decode_stream_id wire (zlen wire) type off) /\
  cursor_safe (decode_class_id wire (zlen wire) h off) /\
  cursor_safe (decode_integer wire (zlen wire) ts off) /\
  cursor_safe (decode_fractional wire (zlen wire) tf off).
Proof.
  intros Hoff. unfold decode_stream_id, decode_class_id, decode_integer, decode_fractional.
  split_and!; match goal with |- context [if ?c then _ else _] => destruct c end;
    repeat cursor_step; try (split; [done|intros ? [= <-]; done]); try (split; [done|done]).
  all: destruct (nonzero _); split; try done; intros ? [= <-]; done.
Qed.

Lemma take_words_safe wire n off : 0 <= off -> cursor_safe (take_words wire (zlen wire) n off).
Proof.
  revert off. induction n as [|n IH]; intros off Hoff; cbn [take_words].
  - split; [done|by intros ? [= <-]].
  - cursor_step; [|split; done]. destruct (IH z) as [Hs Ho]; [done|].
    destruct (take_words wire (zlen wire) n z) as [[vs o]| |]; cbn [rbind]; try (split; done).
    split; [done|]. intros ? [= <-]. apply (Ho (vs, o)). done.
Qed.

Lemma decode_command_safe wire type off :
  0 <= off -> cursor_safe (decode_command wire (zlen wire) type off).
Proof.
  intros Hoff. unfold decode_command. destruct (is_command type); [|split; [done|by intros ? [= <-]]].
  assert (forall cam en uu o, 0 <= o -> cursor_safe (decode_identifier wire (zlen wire) cam en uu o)) as Hid.
  { intros cam en uu o Ho. unfold decode_identifier.
    destruct (bit_set cam en); [|split; [done|by intros ? [= <-]]].
    match goal with |- context [take_words wire _ ?n o] => destruct (take_words_safe wire n o Ho) as [Hs Hr] end.
    destruct (take_words _ _ _ _) as [[ws o']| |]; cbn [rbind]; try (split; done).
    split; [done|]. intros ? [= <-]. apply (Hr (ws, o')). done. }
  repeat cursor_step; try (split; done).
  match goal with |- context [decode_identifier _ _ ?c 31 30 ?o] =>
    destruct (Hid c 31 30 o) as [Hs Hr]; [done|];
    destruct (decode_identifier _ _ _ 31 30 o) as [[i o']| |]; cbn [rbind]; try (split; done) end.
  specialize (Hr _ eq_refl). cbn [snd] in Hr.
  match goal with |- context [decode_identifier _ _ ?c 29 28 ?o] =>
    destruct (Hid c 29 28 o) as [Hs' Hr']; [done|];
    destruct (decode_identifier _ _ _ 29 28 o) as [[i' o'']| |]; cbn [rbind]; try (split; done) end.
  split; [done|]. intros ? [= <-]. by apply (Hr' (i', o'')).
Qed.

Lemma cursor_bind {A B} (r : Result (A * Z)) (k : A * Z -> Result B) :
  cursor_safe r -> (forall a o, r = Ok (a, o) -> 0 <= o -> safe (k (a, o))) -> safe (rbind r k).
Proof.
  intros [Hs Ho] Hk. apply rbind_safe; [done|]. intros [a o] E. apply Hk; [done|]. apply (Ho _ E).
Qed.

Lemma decode_envelope_safe_aux wire : safe (decode_envelope wire).
Proof.
  unfold decode_envelope. destruct (zlen wire <? 4) eqn:E4; [done|]. apply Z.ltb_ge in E4.
  destruct (load32_in_bounds wire 0) as [h Hh]; [done|lia|]. rewrite Hh. cbn [rbind].
  destruct ((7 <? _) || _) eqn:E7; [done|]. destruct (zlen wire <? _); [done|].
  destruct (negb _) eqn:Esz; [done|]. apply negb_false_iff, Z.eqb_eq in Esz. rewrite Esz.
  apply rbind_safe.
  { unfold decode_flags. destruct (is_data _); [done|].
    destruct (is_command _), (bit_set h 25), (bit_set h 26); done. }
  intros [[[[[tr nd] sp] ts] ac] ca] _.
  apply cursor_bind; [by apply (decode_parts_safe wire _ 0 0 0)|]. intros sid o1 _ Ho1.
  apply cursor_bind; [by apply (decode_parts_safe wire 0 _ 0 0)|]. intros cls o2 _ Ho2.
  apply cursor_bind; [by apply (decode_parts_safe wire 0 0 _ 0)|]. intros it o3 _ Ho3.
  apply cursor_bind; [by apply (decode_parts_safe wire 0 0 0 _)|]. intros fr o4 _ Ho4.
  apply cursor_bind; [by apply decode_command_safe|]. intros cmd o5 _ Ho5.
  destruct ((zlen wire <? o5) || _) eqn:E5; [done|]. apply orb_false_iff in E5 as [?%Z.ltb_ge ?%Z.ltb_ge].
  apply rbind_safe.
  { unfold subspan. rewrite !(proj2 (Z.ltb_ge _ _)) by (destruct tr; lia). done. }
  intros payload _. apply rbind_safe; [apply measure_envelope_safe|]. intros m _.
  apply rbind_safe; [|done]. destruct tr; [|done].
  destruct (load32_in_bounds wire (zlen wire - 4)) as [t ->]; [lia|lia|done].
Qed.

(** What a successful encoder run establishes. *)
Lemma encode_envelope_Ok e payload trailer output n output' :
  encode_envelope e payload trailer output = Ok (n, output') ->
  env_trailer e = is_some trailer /\ measure_envelope e (zlen payload) = Ok n /\
  zlen (envelope_bytes e payload trailer) = n /\
  output' = envelope_bytes e payload trailer ++ drop (Z.to_nat n) output /\
  take (Z.to_nat n) output' = envelope_bytes e payload trailer.
Proof.
  intros H. pose proof H as Henc. unfold encode_envelope in H.
  destruct (negb _) eqn:Et; [done|]. apply negb_false_iff, Bool.eqb_prop in Et.
  destruct (measure_envelope e (zlen payload)) as [size| |] eqn:Hm; [|done|done]. cbn [rbind] in H.
  destruct (zlen output <? size) eqn:Ho; [done|]. apply Z.ltb_ge in Ho. clear H.
  pose proof (measure_measured e _ _ (zlen_nonneg _) Hm) as M.
  pose proof (envelope_bytes_length _ _ trailer _ _ M eq_refl Et) as Hl.
  rewrite (encode_envelope_bytes _ _ _ _ size) in Henc by done.
  assert (n = size) as -> by congruence.
  assert (output' = envelope_bytes e payload trailer ++ drop (Z.to_nat size) output) as -> by congruence.
  split_and!; try done.
  replace (Z.to_nat size) with (length (envelope_bytes e payload trailer)) by (unfold zlen in Hl; lia).
  by rewrite take_app_length.
Qed.

Lemma envelope_bytes_size e payload trailer n :
  env_trailer e = is_some trailer -> measure_envelope e (zlen payload) = Ok n ->
  envelope_bytes e payload trailer =
  words_bytes (header_word e n :: prologue_words e) ++ payload ++
  match trailer with Some t => be32_bytes t | None => [] end.
Proof.
  intros Ht Hm. pose proof (m_size _ _ _ (measure_measured e _ _ (zlen_nonneg _) Hm)) as Hs.
  unfold envelope_bytes. cbv zeta. by rewrite <- Ht, <- Hs.
Qed.

(** The header of a packet that decodes. *)
Lemma decode_envelope_header wire v :
  decode_envelope wire = Ok v ->
  exists h, load32 wire 0 = Ok h /\ (7 <? Z.shiftr h 28) || (Z.land h 0xffff * 4 =? 0) = false /\
    Z.land h 0xffff * 4 = zlen wire /\ 4 <= zlen wire.
Proof.
  intros H. unfold decode_envelope in H.
  destruct (zlen wire <? 4) eqn:E4; [done|]. apply Z.ltb_ge in E4.
  destruct (load32 wire 0) as [h| |]; [|done|done]. cbn [rbind] in H.
  destruct ((7 <? _) || _) eqn:E7; [done|]. destruct (zlen wire <? _) eqn:El; [done|].
  destruct (negb _) eqn:Esz; [done|]. apply negb_false_iff, Z.eqb_eq in Esz. eauto.
Qed.

Lemma load32_prefix w w' : take 4 w = take 4 w' -> load32 w 0 = load32 w' 0.
Proof.
  intros E. unfold load32. change (Z.to_nat 0) with 0%nat. rewrite !drop_0. by rewrite E.
Qed.

(** ** Properties *)

(** C1.  Round trip: whatever the encoder accepts for an envelope whose members
    are values of their C++ types, decoding exactly the bytes it reports as
    written succeeds and gives back the envelope as it is on the wire, the
    payload, the trailer and the payload offset. *)
Theorem wire_roundtrip e payload trailer output n output' :
  envelope_typed e -> from_option u32 True trailer ->
  encode_envelope e payload trailer output = Ok (n, output') ->
  decode_envelope (take (Z.to_nat n) output') =
  Ok (mkEnvelopeView (envelope_wire e) payload trailer
        (n - zlen payload - 4 * b2z (is_some trailer)) (take (Z.to_nat n) output')).
Proof.
  intros T Ut H. destruct (encode_envelope_Ok _ _ _ _ _ _ H) as (Et & Hm & _ & _ & ->).
  rewrite (decode_envelope_bytes _ _ _ n) by done. do 2 f_equal.
  rewrite (m_size _ _ _ (measure_measured e _ _ (zlen_nonneg _) Hm)), Et. lia.
Qed.

Definition sample_envelope : Envelope :=
  mkEnvelope PacketType.signal 5 (Some 0x12345678) (Some (mkClassId 0x123456 3 4 0))
    (mkTimestamp Tsi.utc Tsf.picoseconds 77 0x1122334455667788) true false true false false false None.

Lemma sample_envelope_typed : envelope_typed sample_envelope.
Proof. repeat split; vm_compute; congruence. Qed.

Definition sample_payload : list byte := [x01; x02; x03; x04].

Lemma wire_roundtrip_witness :
  exists out, encode_envelope sample_envelope sample_payload (Some 99) (replicate 40 x00) = Ok (36, out) /\
  is_ok (decode_envelope (take 36 out)) = true.
Proof.
  eexists. split; [vm_compute; reflexivity|].
  rewrite (wire_roundtrip sample_envelope sample_payload (Some 99) (replicate 40 x00) 36);
    [reflexivity|apply sample_envelope_typed|split; vm_compute; congruence|vm_compute; reflexivity].
Defined.

(**  Canonical wire: a wire that decodes is reproduced byte for byte by
    encoding what it decoded to, into any sufficiently large output; the rest of
    the output is untouched. *)
Theorem wire_canonical wire v output :
  decode_envelope wire = Ok v -> zlen wire <= zlen output ->
  encode_envelope (ev_envelope v) (ev_payload v) (ev_trailer v) output =
  Ok (zlen wire, wire ++ drop (length wire) output).
Proof.
  intros H Ho. destruct (decode_envelope_complete _ _ H) as (_ & _ & _ & Ht & Hm & _ & Hw).
  rewrite (encode_envelope_bytes _ _ _ _ (zlen wire)) by done. rewrite <- Hw.
  unfold zlen at 2. by rewrite Nat2Z.id.
Qed.

Definition sample_wire : list byte :=
  match encode_envelope sample_envelope sample_payload (Some 99) (replicate 36 x00) with
  | Ok (_, o) => o | _ => [] end.

Lemma wire_canonical_witness :
  exists v, decode_envelope sample_wire = Ok v /\
  encode_envelope (ev_envelope v) (ev_payload v) (ev_trailer v) (replicate 38 xff) =
  Ok (36, sample_wire ++ [xff; xff]).
Proof.
  eexists. split; [vm_compute; reflexivity|].
  rewrite (wire_canonical sample_wire); [reflexivity|vm_compute; reflexivity|vm_compute; done].
Defined.

(**  Memory safety of the decoder: on any bytes whatever it returns a view or
    an error and never reads outside the wire, and in a view it returns the
    payload and the prologue lie inside the wire and every member of the envelope
    is a value of its C++ type. *)
Theorem decode_envelope_safe wire :
  decode_envelope wire <> UB /\
  forall v, decode_envelope wire = Ok v ->
    envelope_typed (ev_envelope v) /\ 4 <= ev_payload_offset v /\
    ev_payload_offset v + zlen (ev_payload v) + 4 * b2z (is_some (ev_trailer v)) = zlen wire /\
    ev_payload v = take (length (ev_payload v)) (drop (Z.to_nat (ev_payload_offset v)) wire).
Proof.
  split; [apply decode_envelope_safe_aux|]. intros v H.
  destruct (decode_envelope_complete _ _ H) as (_ & T & _ & Ht & Hm & Ho & Hw).
  pose proof (measure_measured _ _ _ (zlen_nonneg _) Hm) as M.
  pose proof (m_size _ _ _ M) as Hs. rewrite Ht in Hs. pose proof (zlen_nonneg (prologue_words (ev_envelope v))).
  split_and!; [done|lia|lia|]. rewrite Hw at 1. unfold envelope_bytes. cbv zeta.
  rewrite drop_app_length', take_app_length; [done|].
  rewrite words_bytes_length, Ho. unfold zlen. cbn [length]. lia.
Qed.

(**  The encoder on every branch: it reports a trailer mismatch, passes on the
    measuring error, asks for the measured size when the output is too small, and
    otherwise writes exactly the words, the payload and the trailer in front of
    the untouched rest of the output.  It never writes outside the output. *)
Theorem encode_envelope_functional e payload trailer output :
  encode_envelope e payload trailer output =
  (if negb (Bool.eqb (env_trailer e) (is_some trailer)) then Err (error1 ErrorCode.invalid_argument)
  else match measure_envelope e (zlen payload) with
       | Ok size => if zlen output <? size then Err (error3 ErrorCode.short_output 0 size)
                    else Ok (size, envelope_bytes e payload trailer ++ drop (Z.to_nat size) output)
       | Err x => Err x
       | UB => UB
       end) /\
  encode_envelope e payload trailer output <> UB.
Proof.
  assert (Hsafe := measure_envelope_safe e (zlen payload)).
  destruct (negb (Bool.eqb (env_trailer e) (is_some trailer))) eqn:Et.
  - unfold encode_envelope. by rewrite Et.
  - pose proof Et as Et'. apply negb_false_iff, Bool.eqb_prop in Et'.
    destruct (measure_envelope e (zlen payload)) as [size|x|] eqn:Hm; [|unfold encode_envelope; by rewrite Et, Hm|done].
    destruct (zlen output <? size) eqn:Ho; [unfold encode_envelope; rewrite Et, Hm; cbn [rbind]; by rewrite Ho|].
    apply Z.ltb_ge in Ho. by rewrite (encode_envelope_bytes _ _ _ _ size).
Qed.

(**  The header fixes the extent: of a packet that decodes, every proper
    prefix is rejected as short input that names the bytes required, and the
    packet with anything appended is rejected at the end of the packet. *)
Theorem decode_envelope_extent wire v :
  decode_envelope wire = Ok v ->
  (forall n, (n < length wire)%nat ->
     decode_envelope (take n wire) =
     Err (if (n <? 4)%nat then error3 ErrorCode.short_input 0 4
          else error3 ErrorCode.short_input (Z.of_nat n) (zlen wire))) /\
  (forall extra, extra <> [] ->
     decode_envelope (wire ++ extra) = Err (error2 ErrorCode.invalid_argument (zlen wire))).
Proof.
  intros H. destruct (decode_envelope_header _ _ H) as (h & Hh & E7 & Esz & E4).
  assert (Hload : forall w, take 4 w = take 4 wire -> load32 w 0 = Ok h).
  { intros w Hw. rewrite <- Hh. by apply load32_prefix. }
  split.
  - intros n Hn. unfold decode_envelope. unfold zlen in *. rewrite length_take, Nat.min_l by lia.
    destruct (Nat.ltb_spec n 4); [by rewrite (proj2 (Z.ltb_lt _ _)) by lia|].
    rewrite (proj2 (Z.ltb_ge _ _)), (Hload (take n wire)) by (lia || (rewrite take_take; f_equal; lia)).
    cbn [rbind]. rewrite E7, Esz. by rewrite (proj2 (Z.ltb_lt _ _)) by lia.
  - intros extra Hne. unfold decode_envelope.
    assert (0 < zlen extra) by (destruct extra; [done|unfold zlen; cbn [length]; lia]).
    rewrite zlen_app, (proj2 (Z.ltb_ge _ _)), (Hload (wire ++ extra)) by
      (lia || (rewrite take_app_le by (unfold zlen in *; lia); done)).
    cbn [rbind]. rewrite E7, Esz, (proj2 (Z.ltb_ge _ _)) by lia.
    by rewrite (proj2 (Z.eqb_neq _ _)) by lia.
Qed.

Lemma decode_envelope_extent_witness :
  is_ok (decode_envelope sample_wire) = true /\
  decode_envelope (take 20 sample_wire) = Err (error3 ErrorCode.short_input 20 36) /\
  decode_envelope (sample_wire ++ [x00]) = Err (error2 ErrorCode.invalid_argument 36).
Proof.
  split; [vm_compute; reflexivity|].
  assert (exists v, decode_envelope sample_wire = Ok v) as [v E] by (eexists; vm_compute; reflexivity).
  destruct (decode_envelope_extent sample_wire v E) as [H1 H2]. split.
  - rewrite (H1 20%nat); [vm_compute; reflexivity|]. vm_compute. lia.
  - rewrite (H2 [x00]); [vm_compute; reflexivity|done].
Defined.
