(* ===== verification/Prologue.v ===== *)
(** * Prologue-only encoding: [include/vita/codec/prologue.hpp]

    The scatter/gather path writes the prologue and the trailer into buffers of
    their own and leaves the payload where it is.  The theorem of this file is
    that the pieces, put side by side, are the packet [encode_envelope] writes. *)

From S2P Require Import Prelude Wire WireProofs.

Record EnvelopeLayout := mkEnvelopeLayout {
  packet_bytes : Z; prologue_bytes : Z; payload_offset : Z; payload_bytes : Z;
  trailer_offset : option Z }.

Definition measure_prologue (e : Envelope) (payload_bytes : Z) : Result EnvelopeLayout :=
  let? total := measure_envelope e payload_bytes in
  let prefix := total - payload_bytes - (if env_trailer e then 4 else 0) in
  Ok (mkEnvelopeLayout total prefix prefix payload_bytes
        (if env_trailer e then Some (total - 4) else None)).

(** [detail::write_prologue] computes the same header word and puts the same
    values as [encode_envelope]; the offset reached is returned. *)
Definition write_prologue (e : Envelope) (packet_bytes : Z) (output : list byte)
    : Result (Z * list byte) :=
  let? s := put_all (output, 0) (header_word e packet_bytes :: prologue_words e) in
  Ok (snd s, fst s).

Definition encode_prologue (e : Envelope) (payload_bytes : Z) (output : list byte)
    : Result (Z * list byte) :=
  let? layout := measure_prologue e payload_bytes in
  fail_if zlen output <? prologue_bytes layout
    with error3 ErrorCode.short_output 0 (prologue_bytes layout) ;;
  write_prologue e (packet_bytes layout) output.

Definition encode_trailer (trailer : Z) (output : list byte) : Result (Z * list byte) :=
  fail_if zlen output <? 4 with error3 ErrorCode.short_output 0 4 ;;
  let? output := store32 output 0 trailer in Ok (4, output).

Lemma measure_prologue_layout e n total :
  0 <= n -> measure_envelope e n = Ok total ->
  exists l, measure_prologue e n = Ok l /\ packet_bytes l = total /\
    prologue_bytes l = 4 * (1 + zlen (prologue_words e)) /\
    payload_offset l = prologue_bytes l /\
    total = prologue_bytes l + n + 4 * b2z (env_trailer e) /\
    trailer_offset l = (if env_trailer e then Some (prologue_bytes l + n) else None).
Proof.
  intros Hn Hm. pose proof (m_size _ _ _ (measure_measured e n total Hn Hm)) as Hs.
  unfold measure_prologue. rewrite Hm. cbn [rbind]. eexists. split; [done|]. cbn.
  destruct (env_trailer e); cbn [b2z] in *; split_and!; try done; try lia. f_equal. lia.
Qed.

Lemma write_prologue_words e size output :
  4 * (1 + zlen (prologue_words e)) <= zlen output ->
  write_prologue e size output =
  Ok (4 * (1 + zlen (prologue_words e)),
      words_bytes (header_word e size :: prologue_words e) ++
      drop (4 * (1 + length (prologue_words e))) output).
Proof.
  intros Hl. unfold write_prologue, zlen in *.
  destruct (split_length output (4 * (1 + length (prologue_words e)))) as (A & B & -> & HA); [lia|].
  pose proof (put_all_app (header_word e size :: prologue_words e) [] A B) as Hp.
  cbn [app] in Hp. change (zlen []) with 0 in Hp. rewrite Hp by (cbn [length]; lia).
  cbn [rbind fst snd]. rewrite <- HA, drop_app_length. do 2 f_equal.
  unfold zlen. cbn [length]. lia.
Qed.

(**  Scatter/gather equivalence: when the whole-packet encoder accepts an
    envelope, the prologue encoder accepts it for any output that holds the
    prologue, and the prologue it writes followed by the payload and by the
    separately encoded trailer is exactly the packet. *)
Theorem prologue_gathers e payload trailer output n output' head tail :
  encode_envelope e payload trailer output = Ok (n, output') ->
  zlen head = n - zlen payload - 4 * b2z (is_some trailer) -> zlen tail = 4 ->
  exists head' tail',
    encode_prologue e (zlen payload) head = Ok (zlen head, head') /\
    zlen head' = zlen head /\
    (forall t, trailer = Some t -> encode_trailer t tail = Ok (4, tail')) /\
    take (Z.to_nat n) output' = head' ++ payload ++ (if is_some trailer then tail' else []).
Proof.
  intros H Hh Ht. destruct (encode_envelope_Ok _ _ _ _ _ _ H) as (Etr & Hm & _ & _ & Hout).
  destruct (measure_prologue_layout e _ n (zlen_nonneg _) Hm) as (l & Hl & Hpk & Hpr & _ & Hn & _).
  assert (Hhd : zlen head = 4 * (1 + zlen (prologue_words e))) by (rewrite Etr in Hn; lia).
  exists (words_bytes (header_word e n :: prologue_words e)),
    (match trailer with Some t => be32_bytes t | None => [] end).
  split_and!.
  - unfold encode_prologue. rewrite Hl. cbn [rbind]. rewrite Hpr, Hhd, Z.ltb_irrefl, Hpk.
    rewrite write_prologue_words by lia. rewrite drop_ge by (unfold zlen in Hhd; lia).
    by rewrite app_nil_r.
  - rewrite zlen_words_bytes, Hhd. unfold zlen. cbn [length]. lia.
  - intros t ->. unfold encode_trailer. rewrite Ht, Z.ltb_irrefl.
    pose proof (store32_app [] tail [] t ltac:(unfold zlen in Ht; lia)) as Hs. rewrite !app_nil_r in Hs.
    cbn [app] in Hs. change (zlen []) with 0 in Hs. by rewrite Hs.
  - rewrite Hout, (envelope_bytes_size e payload trailer n) by done. by destruct trailer.
Qed.

Lemma prologue_gathers_witness :
  exists head' tail',
    encode_prologue sample_envelope 4 (replicate 28 x00) = Ok (28, head') /\
    zlen head' = 28 /\
    (forall t, Some 99 = Some t -> encode_trailer t [x00; x00; x00; x00] = Ok (4, tail')) /\
    sample_wire = head' ++ sample_payload ++ tail'.
Proof.
  destruct (prologue_gathers sample_envelope sample_payload (Some 99) (replicate 36 x00) 36 sample_wire
    (replicate 28 x00) [x00; x00; x00; x00]) as (h & t & H1 & H2 & H3 & H4);
    [vm_compute; reflexivity..|].
  exists h, t. split; [exact H1|]. split; [exact H2|]. split; [exact H3|exact H4].
Defined.
