(* ===== verification/Framing.v ===== *)
(** * Inspecting a segmented packet: [include/vita/runtime/transport/framing.hpp]

    [inspect] reads the bounded prologue of a packet that lies in several
    segments, copying at most 68 bytes, and never stages the payload.  The storage
    is used through an interface; the memory component discharges it. *)

From S2P Require Import Prelude Wire WireProofs.

(** ** The storage interface *)

Class SegmentedStorage (S : Type) := {
  byte_size : S -> Z;
  segment_count : S -> nat;
  segment : S -> nat -> Result (list byte)
}.

(** [parts] are the segments of [s], every one of them readable. *)
Definition storage_parts {S} `{SegmentedStorage S} (s : S) (parts : list (list byte)) : Prop :=
  segment_count s = length parts /\
  (forall i p, parts !! i = Some p -> segment s i = Ok p) /\
  byte_size s = zlen (concat parts).

Record Framing := mkFraming {
  fr_envelope : Envelope; fr_payload_offset : Z; fr_payload_bytes : Z; fr_packet_bytes : Z }.

(** ** The prefix buffer and its cursor *)

Definition prefix_capacity : Z := 68.

(** The locals of [inspect] that the lambdas capture. *)
Record Cursor := mkCursor { prefix : list byte; copied : Z; cur_offset : Z }.

Section inspect.
Context {S : Type} `{SegmentedStorage S} (storage : S).

(** The loop of [ensure] over the segments [i, i+1, ...]; [n] segments remain. *)
Fixpoint ensure_loop (n i : nat) (start wanted : Z) (c : Cursor) : Result unit * Cursor :=
  match n with
  | O => (Ok tt, c)
  | Datatypes.S n =>
      if negb (copied c <? wanted) then (Ok tt, c) else
      match segment storage i with
      | Err e => (Err e, c)
      | UB => (UB, c)
      | Ok part =>
          if start + zlen part <=? copied c
          then ensure_loop n (Datatypes.S i) (start + zlen part) wanted c
          else
            let offset := copied c - start in
            let k := Z.min (wanted - copied c) (zlen part - offset) in
            match subspan part offset k with
            | Ok data =>
                match memmove (prefix c) (copied c) data with
                | Ok p => ensure_loop n (Datatypes.S i) (start + zlen part) wanted
                            (mkCursor p (copied c + k) (cur_offset c))
                | _ => (UB, c)
                end
            | _ => (UB, c)
            end
      end
  end.

Definition ensure (wanted : Z) (c : Cursor) : Result unit * Cursor :=
  if (prefix_capacity <? wanted) || (byte_size storage <? wanted)
  then (Err (error3 ErrorCode.short_input (copied c) wanted), c)
  else
    let '(r, c) := ensure_loop (segment_count storage) 0 0 wanted c in
    match r with
    | Ok _ => if negb (copied c =? wanted)
              then (Err (error3 ErrorCode.short_input (copied c) wanted), c) else (Ok tt, c)
    | Err e => (Err e, c)
    | UB => (UB, c)
    end.

Definition take_next (c : Cursor) : Result Z * Cursor :=
  let '(ready, c) := ensure (cur_offset c + 4) c in
  match ready with
  | Ok _ => (load32 (prefix c) (cur_offset c), mkCursor (prefix c) (copied c) (cur_offset c + 4))
  | Err e => (Err e, c)
  | UB => (UB, c)
  end.

Definition inspect_stream_id (type : Z) (c : Cursor) : Result (option Z * Cursor) :=
  if has_sid type then
    let '(v, c) := take_next c in let? v := v in Ok (Some v, c)
  else Ok (None, c).

Definition inspect_class_id (h : Z) (c : Cursor) : Result (option ClassId * Cursor) :=
  if bit_set h 27 then
    let '(a, c) := take_next c in
    let '(b, c) := take_next c in
    let? a := a in let? b := b in
    fail_if nonzero (Z.land a 0x07000000)
      with error2 ErrorCode.invalid_argument (cur_offset c - 8) ;;
    Ok (Some (mkClassId (Z.land a 0xffffff) (wrap16 (Z.shiftr b 16)) (wrap16 b)
                (wrap8 (Z.shiftr a 27))), c)
  else Ok (None, c).

Definition inspect_integer (tsi : Z) (c : Cursor) : Result (Z * Cursor) :=
  if negb (tsi =? Tsi.none) then
    let '(v, c) := take_next c in let? v := v in Ok (v, c)
  else Ok (0, c).

Definition inspect_fractional (tsf : Z) (c : Cursor) : Result (Z * Cursor) :=
  if negb (tsf =? Tsf.none) then
    let '(a, c) := take_next c in
    let '(b, c) := take_next c in
    let? a := a in let? b := b in
    Ok (Z.lor (Z.shiftl a 32) b, c)
  else Ok (0, c).

Fixpoint take_nexts (n : nat) (c : Cursor) : Result (list Z * Cursor) :=
  match n with
  | O => Ok ([], c)
  | Datatypes.S n =>
      let '(v, c) := take_next c in
      let? v := v in
      let? (vs, c) := take_nexts n c in
      Ok (v :: vs, c)
  end.

Definition inspect_identifier (cam enable uuid : Z) (c : Cursor) : Result (Identifier * Cursor) :=
  if bit_set cam enable then
    let kind := if bit_set cam uuid then IdentifierKind.uuid else IdentifierKind.short_id in
    let n := Z.to_nat (size_words (mkIdentifier kind 0 0 0 0)) in
    let? (ws, c) := take_nexts n c in
    let w i := nth i ws 0 in
    Ok (mkIdentifier kind (w 0%nat) (w 1%nat) (w 2%nat) (w 3%nat), c)
  else Ok (Identifier_default, c).

Definition inspect_command (type : Z) (c : Cursor) : Result (option Command * Cursor) :=
  if is_command type then
    let '(cam, c) := take_next c in
    let '(mid, c) := take_next c in
    let? cam := cam in let? mid := mid in
    let? (controllee, c) := inspect_identifier cam 31 30 c in
    let? (controller, c) := inspect_identifier cam 29 28 c in
    Ok (Some (mkCommand cam mid controllee controller), c)
  else Ok (None, c).

(** The test [wire.size() < 4] of the source is on the 68-byte prefix array and
    never holds; the flags are those of [decode_flags]. *)
Definition inspect : Result Framing :=
  let c := mkCursor (replicate 68 x00) 0 0 in
  let '(header, c) := ensure 4 c in
  let? _ := header in
  let total := byte_size storage in
  fail_if zlen (prefix c) <? 4 with error3 ErrorCode.short_input 0 4 ;;
  let? h := load32 (prefix c) 0 in
  let type := Z.shiftr h 28 in
  let size := Z.land h 0xffff * 4 in
  fail_if (7 <? type) || (size =? 0) with error1 ErrorCode.invalid_argument ;;
  fail_if total <? size with error3 ErrorCode.short_input total size ;;
  fail_if negb (size =? total) with error2 ErrorCode.invalid_argument size ;;
  let packet_count := Z.land (Z.shiftr h 16) 15 in
  let tsi := Z.land (Z.shiftr h 22) 3 in
  let tsf := Z.land (Z.shiftr h 20) 3 in
  let? (trailer, nd0, spectrum, tsm, ack, cancel) := decode_flags type h in
  let c := mkCursor (prefix c) (copied c) 4 in
  let? (stream_id, c) := inspect_stream_id type c in
  let? (class_id, c) := inspect_class_id h c in
  let? (integer, c) := inspect_integer tsi c in
  let? (fractional, c) := inspect_fractional tsf c in
  let? (command, c) := inspect_command type c in
  let e := mkEnvelope type packet_count stream_id class_id
             (mkTimestamp tsi tsf integer fractional)
             trailer nd0 spectrum tsm ack cancel command in
  let offset := cur_offset c in
  let trailer_size := if trailer then 4 else 0 in
  fail_if (size <? offset) || (size - offset <? trailer_size)
    with error3 ErrorCode.short_input offset (offset + trailer_size) ;;
  let payload_bytes := size - offset - trailer_size in
  let? _ := measure_envelope e payload_bytes in
  Ok (mkFraming e offset payload_bytes size).

End inspect.

(** ** The prefix always agrees with the packet *)

(** The first [n] bytes of the buffer are those of the packet. *)
Definition agrees (buf flat : list byte) (n : Z) : Prop :=
  take (Z.to_nat n) buf = take (Z.to_nat n) flat.

Lemma memmove_agrees buf flat data n :
  agrees buf flat n -> 0 <= n -> n + zlen data <= zlen buf ->
  data = take (length data) (drop (Z.to_nat n) flat) ->
  exists buf', memmove buf n data = Ok buf' /\ length buf' = length buf /\
    agrees buf' flat (n + zlen data).
Proof.
  intros Ha Hn Hb Hd. unfold memmove, agrees, zlen in *.
  rewrite !(proj2 (Z.ltb_ge _ _)) by lia. cbn [orb]. eexists. split; [done|].
  assert (length (take (Z.to_nat n) buf) = Z.to_nat n) by (rewrite length_take; lia).
  split; [rewrite !length_app, length_take, length_drop; lia|].
  replace (Z.to_nat (n + Z.of_nat (length data))) with (Z.to_nat n + length data)%nat by lia.
  rewrite app_assoc, take_app_le by (rewrite length_app; lia).
  rewrite take_ge by (rewrite length_app; lia).
  rewrite Ha, Hd at 1. rewrite <- (take_drop (Z.to_nat n) flat) at 3.
  assert (length (take (Z.to_nat n) flat) = Z.to_nat n) as Hl by (rewrite <- Ha; done).
  rewrite take_app_ge by lia. rewrite Hl. do 2 f_equal. lia.
Qed.

Section refinement.
Context {S : Type} `{SegmentedStorage S} (storage : S) (parts : list (list byte)).
Hypothesis Hparts : storage_parts storage parts.
Let flat := concat parts.

Lemma ensure_loop_complete rest pre c wanted :
  parts = pre ++ rest -> copied c <= wanted -> 0 <= copied c -> wanted <= 68 ->
  wanted <= zlen flat -> length (prefix c) = 68%nat -> agrees (prefix c) flat (copied c) ->
  (zlen (concat pre) <= copied c \/ copied c = wanted) ->
  exists p, ensure_loop storage (length rest) (length pre) (zlen (concat pre)) wanted c =
    (Ok tt, mkCursor p wanted (cur_offset c)) /\ length p = 68%nat /\ agrees p flat wanted.
Proof.
  revert pre c. induction rest as [|part rest IH]; intros pre c Hp Hw H0 H68 Hf Hl Ha Hs.
  - rewrite app_nil_r in Hp. assert (copied c = wanted) as Hc.
    { unfold flat in Hf. rewrite Hp in Hf. destruct Hs; lia. }
    exists (prefix c). cbn. rewrite <- Hc. split; [by destruct c|done].
  - cbn [ensure_loop length]. destruct (Z.ltb_spec (copied c) wanted) as [Hlt|]; cbn [negb].
    2:{ assert (copied c = wanted) as <- by lia. exists (prefix c). split; [by destruct c|done]. }
    destruct Hs as [Hs|]; [|lia].
    assert (segment storage (length pre) = Ok part) as ->.
    { apply Hparts. rewrite Hp. by apply list_lookup_middle. }
    assert (Hpre : zlen (concat (pre ++ [part])) = zlen (concat pre) + zlen part).
    { rewrite concat_app, zlen_app. cbn. by rewrite app_nil_r. }
    assert (Hi : length (pre ++ [part]) = Datatypes.S (length pre)) by (rewrite length_app; simpl; lia).
    assert (Hp' : parts = (pre ++ [part]) ++ rest) by by rewrite <- app_assoc.
    destruct (Z.leb_spec (zlen (concat pre) + zlen part) (copied c)).
    { rewrite <- Hi, <- Hpre. apply IH; try done. left. lia. }
    set (off := copied c - zlen (concat pre)). set (k := Z.min _ _).
    assert (0 <= off /\ 0 < k /\ off + k <= zlen part /\ copied c + k <= wanted) as (Ho & Hk & Hok & Hkw)
      by (subst off k; lia).
    assert (subspan part off k = Ok (take (Z.to_nat k) (drop (Z.to_nat off) part))) as ->.
    { unfold subspan. by rewrite !(proj2 (Z.ltb_ge _ _)) by lia. }
    set (data := take _ _).
    assert (Hd : zlen data = k) by (subst data; apply take_zlen; unfold zlen in *; rewrite length_drop; lia).
    destruct (memmove_agrees (prefix c) flat data (copied c)) as (p' & -> & Hl' & Ha'); try done.
    { unfold zlen in *. lia. }
    { replace (length data) with (Z.to_nat k) by (unfold zlen in *; lia).
      unfold flat. rewrite Hp, concat_app. cbn [concat].
      assert (Z.to_nat (copied c) = (length (concat pre) + Z.to_nat off)%nat) as ->
        by (subst off; unfold zlen in *; lia).
      rewrite drop_app_add, drop_app_le by (unfold zlen in *; lia).
      rewrite take_app_le by (rewrite length_drop; unfold zlen in *; lia). done. }
    rewrite Hd in Ha'. rewrite <- Hi, <- Hpre.
    apply (IH _ (mkCursor p' (copied c + k) (cur_offset c))); cbn; try done; try lia.
Qed.

(** The cursor stands at [off] and everything before it has been copied. *)
Definition at_cursor (c : Cursor) (off : Z) : Prop :=
  copied c = off /\ cur_offset c = off /\ 0 <= off <= zlen flat /\
  length (prefix c) = 68%nat /\ agrees (prefix c) flat off.

Lemma ensure_spec c wanted :
  copied c <= wanted -> 0 <= copied c -> wanted <= 68 -> length (prefix c) = 68%nat ->
  agrees (prefix c) flat (copied c) ->
  if zlen flat <? wanted
  then ensure storage wanted c = (Err (error3 ErrorCode.short_input (copied c) wanted), c)
  else exists p, ensure storage wanted c = (Ok tt, mkCursor p wanted (cur_offset c)) /\
         length p = 68%nat /\ agrees p flat wanted.
Proof.
  intros. unfold ensure, prefix_capacity. rewrite (proj2 (proj2 Hparts)). fold flat.
  rewrite (proj2 (Z.ltb_ge 68 wanted)) by lia. cbn [orb].
  destruct (Z.ltb_spec (zlen flat) wanted); [done|].
  destruct (ensure_loop_complete parts [] c wanted) as (p & E & ? & ?); try done; [by left|].
  cbn [length concat] in E. change (zlen []) with 0 in E. rewrite (proj1 Hparts), E.
  exists p. cbn. by rewrite Z.eqb_refl.
Qed.

Lemma agrees_load32 buf off n :
  agrees buf flat n -> 0 <= off -> off + 4 <= n -> load32 buf off = load32 flat off.
Proof.
  intros Ha Ho Hn. unfold load32. destruct (off <? 0); [done|].
  assert (forall l : list byte, take 4 (drop (Z.to_nat off) l) =
    take 4 (drop (Z.to_nat off) (take (Z.to_nat n) l))) as E.
  { intros l. rewrite skipn_firstn_comm, take_take. f_equal. lia. }
  by rewrite (E buf), (E flat), Ha.
Qed.

Lemma take_next_spec c off :
  at_cursor c off -> off + 4 <= 68 ->
  (take_next storage c).1 = (take_word flat (zlen flat) off).1 /\
  at_cursor (take_next storage c).2 (take_word flat (zlen flat) off).2.
Proof.
  intros (Hc & Ho & Hr & Hl & Ha) Hb.
  pose proof (ensure_spec c (off + 4)) as He. rewrite Hc in He.
  specialize (He ltac:(lia) ltac:(lia) ltac:(lia) Hl Ha).
  unfold take_next, take_word. rewrite Ho, (proj2 (Z.ltb_ge (zlen flat) off)) by lia. cbn [orb].
  destruct (Z.ltb_spec (zlen flat) (off + 4)).
  - rewrite He, (proj2 (Z.ltb_lt _ _)) by lia. cbn. done.
  - destruct He as (p & -> & ? & ?). rewrite (proj2 (Z.ltb_ge _ _)) by lia. cbn [fst snd prefix cur_offset copied].
    rewrite Ho, (agrees_load32 p off (off + 4)) by (done || lia).
    split; [done|]. unfold at_cursor. cbn. split_and!; (done || lia).
Qed.

(** ** Each part of the prologue is read as [decode_envelope] reads it *)

(** The results agree, errors included, and the cursors stay together. *)
Definition sim {A} (r : Result (A * Cursor)) (r' : Result (A * Z)) : Prop :=
  match r, r' with
  | Ok (a, c), Ok (a', off) => a = a' /\ at_cursor c off
  | Err e, Err e' => e = e'
  | UB, UB => True
  | _, _ => False
  end.

(** The offset never passes [lim]. *)
Definition bounded {A} (r : Result (A * Z)) (lim : Z) : Prop :=
  forall a off, r = Ok (a, off) -> off <= lim.

Ltac sim_take :=
  match goal with
  | H : at_cursor ?c ?o |- context [take_next storage ?c] =>
      let E := fresh "E" in let N := fresh "N" in
      destruct (take_next_spec c o H ltac:(cbn [snd] in *; lia)) as [E N];
      assert ((take_word flat (zlen flat) o).2 <= o + 4)
        by (unfold take_word; destruct (_ || _); cbn [snd]; lia);
      destruct (take_next storage c) as [? ?], (take_word flat (zlen flat) o) as [? ?];
      cbn [fst snd] in *; subst; clear H
  end.

Lemma inspect_parts_sim type h ts tf c off :
  at_cursor c off ->
  (off + 4 <= 68 -> sim (inspect_stream_id storage type c) (decode_stream_id flat (zlen flat) type off)
     /\ bounded (decode_stream_id flat (zlen flat) type off) (off + 4)) /\
  (off + 8 <= 68 -> sim (inspect_class_id storage h c) (decode_class_id flat (zlen flat) h off)
     /\ bounded (decode_class_id flat (zlen flat) h off) (off + 8)) /\
  (off + 4 <= 68 -> sim (inspect_integer storage ts c) (decode_integer flat (zlen flat) ts off)
     /\ bounded (decode_integer flat (zlen flat) ts off) (off + 4)) /\
  (off + 8 <= 68 -> sim (inspect_fractional storage tf c) (decode_fractional flat (zlen flat) tf off)
     /\ bounded (decode_fractional flat (zlen flat) tf off) (off + 8)).
Proof.
  intros Hc.
  unfold inspect_stream_id, inspect_class_id, inspect_integer, inspect_fractional,
    decode_stream_id, decode_class_id, decode_integer, decode_fractional, bounded.
  split_and!; intros Hb;
    match goal with |- context [if ?g then _ else _] => destruct g end;
    try (split; [done|intros ?? [= <- <-]; lia]);
    repeat sim_take;
    repeat match goal with |- context [rbind ?r _] => is_var r; destruct r; cbn [rbind] end;
    try (split; [done|done]); try (split; [done|intros ?? [= <- <-]; lia]).
  match goal with N : at_cursor ?c ?o |- context [cur_offset ?c - 8] =>
    rewrite (proj1 (proj2 N)) end.
  destruct (nonzero _); split; try done; intros ?? [= <- <-]; lia.
Qed.

Lemma take_nexts_sim n c off :
  at_cursor c off -> off + 4 * Z.of_nat n <= 68 ->
  sim (take_nexts storage n c) (take_words flat (zlen flat) n off) /\
  bounded (take_words flat (zlen flat) n off) (off + 4 * Z.of_nat n).
Proof.
  revert c off. induction n as [|n IH]; intros c off Hc Hb; cbn [take_nexts take_words].
  - split; [done|]. intros ?? [= <- <-]. lia.
  - sim_take. destruct r0; cbn [rbind]; try (split; done).
    destruct (IH c0 z ltac:(done) ltac:(lia)) as [Hs Hbd].
    destruct (take_nexts storage n c0) as [[? ?]| |], (take_words flat (zlen flat) n z) as [[? ?]| |];
      cbn [rbind]; try (by destruct Hs).
    destruct Hs as [-> ?]. split; [done|]. intros ?? [= <- <-]. specialize (Hbd _ _ eq_refl). lia.
Qed.

Lemma inspect_identifier_sim cam en uu c off :
  at_cursor c off -> off + 16 <= 68 ->
  sim (inspect_identifier storage cam en uu c) (decode_identifier flat (zlen flat) cam en uu off) /\
  bounded (decode_identifier flat (zlen flat) cam en uu off) (off + 16).
Proof.
  intros Hc Hb. unfold inspect_identifier, decode_identifier.
  destruct (bit_set cam en); [|split; [done|intros ?? [= <- <-]; lia]].
  set (k := if bit_set cam uu then _ else _).
  pose proof (size_words_range (mkIdentifier k 0 0 0 0)) as Hsz.
  set (n := Z.to_nat _).
  destruct (take_nexts_sim n c off Hc ltac:(lia)) as [Hs Hbd].
  destruct (take_nexts storage n c) as [[? ?]| |], (take_words flat (zlen flat) n off) as [[? ?]| |];
    cbn [rbind]; try (by destruct Hs).
  destruct Hs as [-> ?]. split; [done|]. intros ?? [= <- <-]. specialize (Hbd _ _ eq_refl). lia.
Qed.

Lemma inspect_command_sim type c off :
  at_cursor c off -> off + 40 <= 68 ->
  sim (inspect_command storage type c) (decode_command flat (zlen flat) type off).
Proof.
  intros Hc Hb. unfold inspect_command, decode_command. destruct (is_command type); [|done].
  repeat sim_take. repeat match goal with |- context [rbind ?r _] => is_var r; destruct r; cbn [rbind] end;
    try done.
  match goal with Hc : at_cursor ?c ?o |- context [inspect_identifier _ ?cam 31 30 ?c] =>
    destruct (inspect_identifier_sim cam 31 30 c o Hc ltac:(lia)) as [Hs Hbd];
    destruct (inspect_identifier _ cam 31 30 c) as [[? ?]| |],
      (decode_identifier _ _ cam 31 30 o) as [[? ?]| |]; cbn [rbind]; try (by destruct Hs) end.
  destruct Hs as [-> Hc']. specialize (Hbd _ _ eq_refl).
  match type of Hc' with at_cursor ?c ?o =>
    match goal with |- context [inspect_identifier _ ?cam 29 28 c] =>
      destruct (inspect_identifier_sim cam 29 28 c o Hc' ltac:(lia)) as [Hs _];
      destruct (inspect_identifier _ cam 29 28 c) as [[? ?]| |],
        (decode_identifier _ _ cam 29 28 o) as [[? ?]| |]; cbn [rbind]; try (by destruct Hs) end end.
  by destruct Hs as [-> ?].
Qed.

Definition framing_of (v : EnvelopeView) : Framing :=
  mkFraming (ev_envelope v) (ev_payload_offset v) (zlen (ev_payload v)) (zlen (ev_wire v)).

(** One simulated step of the two programs. *)
Lemma sim_bind {A B} (r : Result (A * Cursor)) (r' : Result (A * Z)) lim k (k' : A * Z -> Result EnvelopeView)
    (f : EnvelopeView -> B) :
  sim r r' -> bounded r' lim ->
  (forall a c off, at_cursor c off -> off <= lim -> k (a, c) = rmap f (k' (a, off))) ->
  rbind r k = rmap f (rbind r' k').
Proof.
  intros Hs Hb Hk. destruct r as [[a c]|e|], r' as [[a' off]|e'|]; cbn in Hs; try done.
  - destruct Hs as [-> Hc]. cbn [rbind]. apply Hk; [done|]. by eapply Hb.
  - by subst.
Qed.

Lemma inspect_decode_aux : inspect storage = rmap framing_of (decode_envelope flat).
Proof.
  unfold inspect, decode_envelope.
  pose proof (ensure_spec (mkCursor (replicate 68 x00) 0 0) 4) as He. cbn [copied prefix cur_offset] in He.
  specialize (He ltac:(lia) ltac:(lia) ltac:(lia) eq_refl eq_refl).
  destruct (zlen flat <? 4) eqn:E4; [by rewrite He|]. apply Z.ltb_ge in E4.
  destruct He as (p & -> & Hl & Ha). cbn [rbind prefix copied]. unfold zlen at 1. rewrite Hl.
  rewrite (proj2 (Z.ltb_ge (Z.of_nat 68) 4)) by lia.
  rewrite (agrees_load32 p 0 4) by (done || lia).
  destruct (load32 flat 0) as [h| |]; cbn [rbind]; try done.
  rewrite (proj2 (proj2 Hparts)). fold flat.
  destruct ((7 <? _) || _); [done|]. destruct (zlen flat <? _); [done|].
  destruct (negb _) eqn:Esz; [done|]. apply negb_false_iff, Z.eqb_eq in Esz. rewrite Esz.
  destruct (decode_flags _ h) as [[[[[[tr nd] sp] ts] ac] ca]| |]; cbn [rbind]; try done.
  assert (H0 : at_cursor (mkCursor p 4 4) 4) by (unfold at_cursor; cbn; split_and!; done || lia).
  eapply sim_bind; [apply (inspect_parts_sim _ 0 0 0 _ _ H0); lia..|]. intros sid c1 o1 H1 B1.
  eapply sim_bind; [apply (inspect_parts_sim 0 _ 0 0 _ _ H1); lia..|]. intros cls c2 o2 H2 B2.
  eapply sim_bind; [apply (inspect_parts_sim 0 0 _ 0 _ _ H2); lia..|]. intros it c3 o3 H3 B3.
  eapply sim_bind; [apply (inspect_parts_sim 0 0 0 _ _ _ H3); lia..|]. intros fr c4 o4 H4 B4.
  pose proof (inspect_command_sim (Z.shiftr h 28) c4 o4 H4 ltac:(lia)) as Hs.
  destruct (inspect_command storage (Z.shiftr h 28) c4) as [[cmd c5]| |],
    (decode_command flat (zlen flat) (Z.shiftr h 28) o4) as [[cmd' o5]| |]; try (by destruct Hs).
  destruct Hs as [-> H5]. cbn [rbind]. destruct H5 as (_ & -> & [Hr5 _] & _).
  destruct ((zlen flat <? o5) || _) eqn:E5; [done|]. apply orb_false_iff in E5 as [?%Z.ltb_ge ?%Z.ltb_ge].
  set (n := zlen flat - o5 - _).
  assert (0 <= n /\ o5 + n <= zlen flat) as [? ?] by (subst n; destruct tr; lia).
  unfold subspan. rewrite !(proj2 (Z.ltb_ge _ _)) by lia. cbn [orb rbind].
  rewrite take_zlen by (unfold zlen in *; rewrite length_drop; lia).
  destruct (measure_envelope _ _) as [m| |]; cbn [rbind]; try done.
  assert (exists t, (if tr then rmap Some (load32 flat (zlen flat - 4)) else Ok None) = Ok t) as [t ->].
  { destruct tr; [|eauto]. destruct (load32_in_bounds flat (zlen flat - 4)) as [t ->]; [lia|lia|eauto]. }
  cbn [rbind rmap]. unfold framing_of. cbn [ev_envelope ev_payload ev_payload_offset ev_wire].
  by rewrite take_zlen by (unfold zlen in *; rewrite length_drop; lia).
Qed.
End refinement.

(**  Refinement: on a storage whose segments are readable, inspecting the
    segments gives the envelope, payload offset, payload size and packet size that
    decoding the concatenated packet gives, and fails with the same error when
    decoding fails; the 68-byte prefix is always large enough, and a packet is
    never read outside its segments. *)
Theorem inspect_refines_decode {S} `{SegmentedStorage S} (storage : S) parts :
  storage_parts storage parts ->
  inspect storage = rmap framing_of (decode_envelope (concat parts)) /\ inspect storage <> UB.
Proof.
  intros Hp. pose proof (inspect_decode_aux storage parts Hp) as E. split; [done|].
  rewrite E. pose proof (decode_envelope_safe_aux (concat parts)) as Hs. unfold rmap.
  destruct (decode_envelope (concat parts)); done.
Qed.

(** A storage that is just its list of segments. *)
#[export] Instance list_storage : SegmentedStorage (list (list byte)) := {
  byte_size parts := zlen (concat parts);
  segment_count parts := length parts;
  segment parts i := match parts !! i with Some p => Ok p
                     | None => Err (error1 ErrorCode.invalid_argument) end
}.

Lemma inspect_refines_decode_witness :
  let parts := [take 10 sample_wire; take 20 (drop 10 sample_wire); drop 30 sample_wire] in
  storage_parts parts parts /\ is_ok (inspect parts) = true.
Proof.
  cbv zeta. set (parts := [_; _; _]).
  assert (Hp : storage_parts parts parts).
  { split; [done|]. split; [|done]. intros i p Hi. cbn. by rewrite Hi. }
  split; [exact Hp|]. rewrite (proj1 (inspect_refines_decode parts parts Hp)).
  vm_compute. reflexivity.
Defined.
