(* ===== verification/StreamFramer.v ===== *)
(** * Framing of a byte stream: [include/vita/runtime/transport/stream_framer.hpp]

    [StreamFramer] collects stream bytes until the packet announced by a header is
    complete, validates its envelope and hands it to a sink.  The sink and its
    [void*] context are a function on a context value: it may change the context
    and accept the packet ([None]) or refuse it with an error, and it does not
    call back into the framer. *)

From S2P Require Import Prelude Wire WireProofs.

Record StreamFramer := mkFramer {
  storage : list byte;
  maximum_packet_bytes : Z;
  buffered : Z;
  expected : Z;
  closed : bool
}.

Section framer.
(** The template argument. *)
Context (Capacity : Z).

Definition framer_create (maximum : Z) : StreamFramer :=
  mkFramer (replicate (Z.to_nat Capacity) x00) maximum 0 0 false.

Definition reset (f : StreamFramer) : StreamFramer :=
  mkFramer (storage f) (maximum_packet_bytes f) 0 0 (closed f).
Definition shutdown (f : StreamFramer) : StreamFramer :=
  reset (mkFramer (storage f) (maximum_packet_bytes f) (buffered f) (expected f) true).
Definition reconnect (f : StreamFramer) : StreamFramer :=
  reset (mkFramer (storage f) (maximum_packet_bytes f) (buffered f) (expected f) false).

Definition disconnect (f : StreamFramer) : Result unit * StreamFramer :=
  let f := mkFramer (storage f) (maximum_packet_bytes f) (buffered f) (expected f) true in
  if nonzero (buffered f) then
    let expected := if nonzero (expected f) then expected f else 4 in
    let received := buffered f in
    (Err (error3 ErrorCode.short_input received expected), reset f)
  else (Ok tt, f).

Definition buffered_bytes (f : StreamFramer) : Z := buffered f.
Definition awaiting_bytes (f : StreamFramer) : Z :=
  (if nonzero (expected f) then expected f else 4) - buffered f.
Definition stalled (f : StreamFramer) : bool := nonzero (buffered f).

Definition inspect_header (f : StreamFramer) : Result unit * StreamFramer :=
  if (buffered f <? 4) || nonzero (expected f) then (Ok tt, f) else
  match load32 (take 4 (storage f)) 0 with
  | Ok header =>
      let packet_bytes := Z.land header 0xffff * 4 in
      if (7 <? Z.shiftr header 28) || (packet_bytes <? 4) ||
         (maximum_packet_bytes f <? packet_bytes) || (Capacity <? packet_bytes)
      then (Err (error1 ErrorCode.invalid_argument), f)
      else (Ok tt, mkFramer (storage f) (maximum_packet_bytes f) (buffered f) packet_bytes (closed f))
  | Err e => (Err e, f)
  | UB => (UB, f)
  end.

Section feed.
Context {C : Type} (sink : C -> list byte -> option Error * C).

(** One iteration of the loop of [feed]: [inl] is an early return, [inr] goes on
    with the rest of the input and whether a packet was delivered. *)
Definition feed_step (f : StreamFramer) (c : C) (input : list byte)
    : (Result Z * StreamFramer * C) + (StreamFramer * C * list byte * bool) :=
  let target := if nonzero (expected f) then expected f else 4 in
  let count := Z.min (zlen input) (target - buffered f) in
  match memmove (storage f) (buffered f) (take (Z.to_nat count) input) with
  | Ok st =>
      let f := mkFramer st (maximum_packet_bytes f) (buffered f + count) (expected f) (closed f) in
      let input := drop (Z.to_nat count) input in
      let '(header, f) := inspect_header f in
      match header with
      | Err e => inl (Err e, shutdown f, c)
      | UB => inl (UB, f, c)
      | Ok _ =>
          if negb (nonzero (expected f)) || negb (buffered f =? expected f)
          then inr (f, c, input, false)
          else
            let packet := take (Z.to_nat (expected f)) (storage f) in
            match decode_envelope packet with
            | Err e => inl (Err e, shutdown f, c)
            | UB => inl (UB, f, c)
            | Ok _ =>
                let f := reset f in
                let '(accepted, c) := sink c packet in
                match accepted with
                | Some e => inl (Err e, shutdown f, c)
                | None => inr (f, c, input, true)
                end
            end
      end
  | _ => inl (UB, f, c)
  end.

(** [while(!input.empty())]; one unit of fuel per iteration. *)
Fixpoint feed_loop (fuel : nat) (f : StreamFramer) (c : C) (input : list byte) (delivered : Z)
    : Result Z * StreamFramer * C :=
  match input with
  | [] => (Ok delivered, f, c)
  | _ =>
      match fuel with
      | O => (UB, f, c)
      | S fuel =>
          match feed_step f c input with
          | inl r => r
          | inr (f, c, input, d) => feed_loop fuel f c input (delivered + b2z d)
          end
      end
  end.

Definition feed_guard (f : StreamFramer) : bool :=
  closed f || (maximum_packet_bytes f <? 4) || (Capacity <? maximum_packet_bytes f) ||
  nonzero (maximum_packet_bytes f mod 4).

End feed.

(** The sink is a function pointer and may be null. *)
Definition feed {C} (sink : option (C -> list byte -> option Error * C))
    (f : StreamFramer) (c : C) (input : list byte) : Result Z * StreamFramer * C :=
  match sink with
  | None => (Err (error1 ErrorCode.invalid_state), f, c)
  | Some sink =>
      if feed_guard f then (Err (error1 ErrorCode.invalid_state), f, c)
      else feed_loop sink (length input) f c input 0
  end.

(** A sequence of reads from the stream, as far as they succeed. *)
Fixpoint feed_chunks {C} (sink : option (C -> list byte -> option Error * C))
    (f : StreamFramer) (c : C) (chunks : list (list byte)) (delivered : Z)
    : Result Z * StreamFramer * C :=
  match chunks with
  | [] => (Ok delivered, f, c)
  | chunk :: chunks =>
      match feed sink f c chunk with
      | (Ok n, f, c) => feed_chunks sink f c chunks (delivered + n)
      | (Err e, f, c) => (Err e, f, c)
      | (UB, f, c) => (UB, f, c)
      end
  end.
End framer.

(** ** Invariant *)

(** Between calls: nothing buffered, a partial header, or a partial packet whose
    header has been checked. *)
Record framer_wf (Capacity : Z) (f : StreamFramer) : Prop := mk_framer_wf {
  wf_capacity : 4 <= Capacity;
  wf_storage : zlen (storage f) = Capacity;
  wf_fill :
    (expected f = 0 /\ 0 <= buffered f < 4) \/
    (4 <= expected f <= Capacity /\ 4 <= buffered f < expected f)
}.

Lemma framer_create_wf Capacity maximum : 4 <= Capacity -> framer_wf Capacity (framer_create Capacity maximum).
Proof. intros. split; cbn; [done|unfold zlen; rewrite length_replicate; lia|lia]. Qed.

Lemma reset_wf Capacity f : framer_wf Capacity f -> framer_wf Capacity (reset f).
Proof. intros []. split; cbn; (done || lia). Qed.

Lemma shutdown_wf Capacity f : framer_wf Capacity f -> framer_wf Capacity (shutdown f).
Proof. intros []. split; cbn; (done || lia). Qed.

(** ** One iteration *)

Lemma memmove_Ok st off data :
  0 <= off -> off + zlen data <= zlen st ->
  exists st', memmove st off data = Ok st' /\ zlen st' = zlen st.
Proof.
  intros Ho Hb. unfold memmove, zlen in *. rewrite !(proj2 (Z.ltb_ge _ _)) by lia. cbn [orb].
  eexists. split; [done|]. rewrite !length_app, length_take, length_drop. lia.
Qed.

Lemma memmove_memmove st off x y st' :
  memmove st off x = Ok st' -> memmove st' (off + zlen x) y = memmove st off (x ++ y).
Proof.
  unfold memmove. rewrite zlen_app. destruct (_ || _) eqn:E; [done|].
  apply orb_false_iff in E as [?%Z.ltb_ge ?%Z.ltb_ge]. intros [= <-].
  rewrite (proj2 (Z.ltb_ge off 0)), (proj2 (Z.ltb_ge (off + zlen x) 0)) by (pose proof (zlen_nonneg x); lia).
  assert (Hl : length (take (Z.to_nat off) st) = Z.to_nat off) by (unfold zlen in *; rewrite length_take; lia).
  rewrite !zlen_app. unfold zlen at 1 2 3. rewrite Hl, length_drop. cbn [orb].
  replace (Z.of_nat (Z.to_nat off) + (Z.of_nat (length x) + Z.of_nat (length st - (Z.to_nat off + length x))))
    with (zlen st) by (unfold zlen in *; lia).
  rewrite Z.add_assoc. destruct (zlen st <? off + zlen x + zlen y); [done|]. f_equal.
  replace (Z.to_nat (off + zlen x)) with (Z.to_nat off + length x)%nat by (unfold zlen; lia).
  assert (Hp : length (take (Z.to_nat off) st ++ x) = (Z.to_nat off + length x)%nat)
    by (rewrite length_app; lia).
  rewrite (app_assoc (take _ st) x (drop _ st)), take_app_length' by done.
  rewrite drop_app_ge, drop_drop by lia. rewrite <- !app_assoc. do 3 f_equal.
  rewrite Hp, length_app. f_equal. lia.
Qed.

Section proofs.
Context (Capacity : Z) {C : Type} (sink : C -> list byte -> option Error * C).
Abbreviation feed_step := (feed_step Capacity sink).
Abbreviation feed_loop := (feed_loop Capacity sink).
Abbreviation inspect_header := (inspect_header Capacity).
Abbreviation framer_wf := (framer_wf Capacity).

(** The bytes still missing for the header or for the packet. *)
Definition room (f : StreamFramer) : Z := (if nonzero (expected f) then expected f else 4) - buffered f.

Lemma room_pos f : framer_wf f -> 0 < room f /\ buffered f + room f <= Capacity /\ 0 <= buffered f.
Proof.
  intros [Hc _ [[E ?]|[? ?]]]; unfold room.
  - rewrite E. cbn. lia.
  - unfold nonzero. rewrite (proj2 (Z.eqb_neq _ _)) by lia. cbn. lia.
Qed.

Lemma inspect_header_spec f :
  4 <= Capacity -> zlen (storage f) = Capacity ->
  (expected f = 0 /\ 0 <= buffered f <= 4) \/ (4 <= expected f <= Capacity /\ 4 <= buffered f <= expected f) ->
  match inspect_header f with
  | (Ok _, f') => storage f' = storage f /\ maximum_packet_bytes f' = maximum_packet_bytes f /\
      buffered f' = buffered f /\ closed f' = closed f /\
      ((expected f' = 0 /\ 0 <= buffered f' < 4) \/
       (4 <= expected f' <= Capacity /\ 4 <= buffered f' <= expected f'))
  | (Err _, f') => f' = f
  | (UB, _) => False
  end.
Proof.
  intros Hc Hs Hf. unfold StreamFramer.inspect_header.
  destruct ((buffered f <? 4) || nonzero (expected f)) eqn:E.
  - split_and!; try done. destruct Hf as [[Ee Hb]|]; [|by right]. left. rewrite Ee in *. cbn in E.
    rewrite orb_false_r in E. apply Z.ltb_lt in E. lia.
  - apply orb_false_iff in E as [?%Z.ltb_ge ?%nonzero_false].
    destruct (load32_in_bounds (take 4 (storage f)) 0) as [h ->]; [done| |].
    { unfold zlen in *. rewrite length_take. lia. }
    destruct (_ || _) eqn:E; [done|]. cbn. split_and!; try done. right.
    repeat match goal with H : _ || _ = false |- _ => apply orb_false_iff in H as [H ?%Z.ltb_ge] end. lia.
Qed.

(** What one iteration does to the state. *)
Lemma feed_step_spec f c input :
  framer_wf f -> input <> [] ->
  match feed_step f c input with
  | inl (r, f', c') => (exists e, r = Err e) /\ framer_wf f' /\ closed f' = true /\
      buffered f' = 0 /\ expected f' = 0 /\ maximum_packet_bytes f' = maximum_packet_bytes f
  | inr (f', c', input', d) => framer_wf f' /\ closed f' = closed f /\
      maximum_packet_bytes f' = maximum_packet_bytes f /\
      input' = drop (Z.to_nat (Z.min (zlen input) (room f))) input
  end.
Proof.
  intros Hwf Hne. destruct (room_pos f Hwf) as (Hr & Hcap & Hb). destruct Hwf as [Hc Hst Hf].
  unfold StreamFramer.feed_step. fold (room f). set (n := Z.min (zlen input) (room f)).
  assert (0 < zlen input) by (destruct input; [done|unfold zlen; cbn [length]; lia]).
  assert (Hd : zlen (take (Z.to_nat n) input) = n) by (apply take_zlen; lia).
  destruct (memmove_Ok (storage f) (buffered f) (take (Z.to_nat n) input)) as (st & -> & Hl); [done|lia|].
  set (f0 := mkFramer st (maximum_packet_bytes f) (buffered f + n) (expected f) (closed f)).
  assert (Hf0 : (expected f0 = 0 /\ 0 <= buffered f0 <= 4) \/
    (4 <= expected f0 <= Capacity /\ 4 <= buffered f0 <= expected f0)).
  { assert (0 < n <= room f) as Hn by lia. clearbody n.
    cbn [f0 expected buffered]. destruct Hf as [[Ee ?]|[? ?]]; unfold room, nonzero in Hn.
    - rewrite Ee in *. cbn [Z.eqb negb] in Hn. lia.
    - rewrite (proj2 (Z.eqb_neq _ _)) in Hn by lia. cbn [negb] in Hn. lia. }
  pose proof (inspect_header_spec f0 Hc ltac:(cbn; lia) Hf0) as Hi.
  destruct (inspect_header f0) as [[|e|] f1]; [|subst f1|done].
  - destruct Hi as (E1 & E2 & E3 & E4 & Hf1).
    assert (Hwf1 : zlen (storage f1) = Capacity) by (rewrite E1; cbn; lia).
    destruct (negb (nonzero (expected f1)) || negb (buffered f1 =? expected f1)) eqn:E.
    + split_and!; try done. split; try done.
      destruct Hf1 as [?|[? ?]]; [by left|]. right. split; [done|].
      unfold nonzero in E. rewrite (proj2 (Z.eqb_neq (expected f1) 0)) in E by lia. cbn in E.
      apply negb_true_iff, Z.eqb_neq in E. lia.
    + assert (forall x, framer_wf (mkFramer (storage f1) (maximum_packet_bytes f1) 0 0 x)) as Hr1
        by (intros x; split; cbn; (done || lia)).
      destruct (decode_envelope _) as [v|e|] eqn:Hdec.
      * destruct (sink c _) as [[e|] c']; cbn; split_and!; eauto; apply Hr1.
      * cbn. split_and!; eauto; apply Hr1.
      * by apply decode_envelope_safe_aux in Hdec.
  - cbn -[zlen]. split_and!; eauto. split; cbn -[zlen]; lia.
Qed.

Lemma feed_step_shorter f c input f' c' input' d :
  framer_wf f -> input <> [] -> feed_step f c input = inr (f', c', input', d) ->
  (length input' < length input)%nat.
Proof.
  intros Hwf Hne E. pose proof (feed_step_spec f c input Hwf Hne) as H. rewrite E in H.
  destruct H as (_ & _ & _ & ->). destruct (room_pos f Hwf) as (Hr & _).
  assert (0 < length input)%nat by (destruct input; [done|simpl; lia]).
  rewrite length_drop. unfold zlen. lia.
Qed.

(** ** The loop: enough fuel, additive count, and splitting of the input *)

Lemma feed_loop_fuel n f c input d :
  framer_wf f -> (length input <= n)%nat ->
  feed_loop n f c input d = feed_loop (length input) f c input d.
Proof.
  revert f c input d. induction n as [n IH] using lt_wf_ind. intros f c input d Hwf Hn.
  destruct input as [|b input]; [by destruct n|]. destruct n as [|n]; [simpl in Hn; lia|].
  cbn [StreamFramer.feed_loop length].
  destruct (feed_step f c (b :: input)) as [r|[[[f' c'] input'] d']] eqn:E; [done|].
  pose proof (feed_step_shorter _ _ (b :: input) _ _ _ _ Hwf ltac:(done) E) as Hs.
  pose proof (feed_step_spec f c (b :: input) Hwf ltac:(done)) as Hw. rewrite E in Hw.
  destruct Hw as (Hwf' & _). cbn [length] in *.
  rewrite (IH n) by (done || lia). symmetry. apply IH; (done || lia).
Qed.

Definition add_delivered (d : Z) (r : Result Z * StreamFramer * C) : Result Z * StreamFramer * C :=
  (rmap (fun n => d + n) r.1.1, r.1.2, r.2).

Lemma add_delivered_add a b r : add_delivered a (add_delivered b r) = add_delivered (a + b) r.
Proof. destruct r as [[[n| |] f] c]; cbn; unfold add_delivered; cbn; by rewrite ?Z.add_assoc. Qed.

Lemma feed_loop_delivered n f c input d :
  framer_wf f -> feed_loop n f c input d = add_delivered d (feed_loop n f c input 0).
Proof.
  revert f c input d. induction n as [|n IH]; intros f c input d Hwf;
    (destruct input as [|b input]; [unfold add_delivered; cbn; by rewrite Z.add_0_r|]); [done|].
  cbn [StreamFramer.feed_loop].
  pose proof (feed_step_spec f c (b :: input) Hwf ltac:(done)) as Hs.
  destruct (feed_step f c (b :: input)) as [[[r f'] c']|[[[f' c'] input'] d']].
  - destruct Hs as ((e & ->) & _). done.
  - destruct Hs as (Hwf' & _). rewrite (IH f' c' input' (d + b2z d')), (IH f' c' input' (0 + b2z d')) by done.
    by rewrite add_delivered_add.
Qed.

(** When the input does not reach the end of the header or packet, it is only
    stored, and the next bytes continue exactly where it stopped. *)
Lemma feed_step_short f c a b :
  framer_wf f -> a <> [] -> b <> [] -> zlen a < room f ->
  exists f1, feed_step f c a = inr (f1, c, [], false) /\ framer_wf f1 /\
    feed_step f c (a ++ b) = feed_step f1 c b.
Proof.
  intros Hwf Ha Hb Hr. destruct (room_pos f Hwf) as (Hr0 & Hcap & Hb0).
  assert (0 < zlen a) by (destruct a; [done|unfold zlen; cbn [length]; lia]).
  assert (0 < zlen b) by (destruct b; [done|unfold zlen; cbn [length]; lia]).
  destruct (memmove_Ok (storage f) (buffered f) a) as (st & Hst & Hl); [done|destruct Hwf; lia|].
  set (f1 := mkFramer st (maximum_packet_bytes f) (buffered f + zlen a) (expected f) (closed f)).
  assert (Hroom : room f1 = room f - zlen a) by (unfold room; cbn; lia).
  assert (Hwf1 : framer_wf f1).
  { destruct Hwf as [Hc Hs Hf]. split; [done|cbn -[zlen]; lia|]. cbn [f1 expected buffered].
    destruct Hf as [[Ee ?]|[? ?]]; unfold room, nonzero in Hr.
    - rewrite Ee in *. cbn [Z.eqb negb] in Hr. lia.
    - rewrite (proj2 (Z.eqb_neq _ _)) in Hr by lia. cbn [negb] in Hr. lia. }
  assert (Hhead : inspect_header f1 = (Ok tt, f1)).
  { unfold StreamFramer.inspect_header. destruct Hwf1 as [_ _ [[-> ?]|[? ?]]].
    - by rewrite (proj2 (Z.ltb_lt _ _)) by lia.
    - unfold nonzero. rewrite (proj2 (Z.eqb_neq (expected f1) 0)) by lia. cbn [negb]. by rewrite orb_true_r. }
  exists f1. split; [|split; [done|]].
  - unfold StreamFramer.feed_step. fold (room f). rewrite Z.min_l by lia.
    replace (Z.to_nat (zlen a)) with (length a) by (unfold zlen; lia). rewrite firstn_all, drop_all, Hst.
    fold f1. rewrite Hhead.
    assert (negb (nonzero (expected f1)) || negb (buffered f1 =? expected f1) = true) as ->; [|done].
    destruct Hwf1 as [_ _ [[-> ?]|[? ?]]]; [done|].
    rewrite (proj2 (Z.eqb_neq (buffered f1) _)) by lia. by rewrite orb_true_r.
  - unfold StreamFramer.feed_step. fold (room f). fold (room f1).
    rewrite Hroom, zlen_app. set (n := Z.min (zlen b) (room f - zlen a)).
    assert (0 < n <= zlen b) by (subst n; lia).
    replace (Z.min (zlen a + zlen b) (room f)) with (zlen a + n) by (subst n; lia).
    replace (Z.to_nat (zlen a + n)) with (length a + Z.to_nat n)%nat by (unfold zlen; lia).
    rewrite take_app_add, drop_app_add, <- (memmove_memmove _ _ a _ st) by done.
    cbn [f1 storage buffered maximum_packet_bytes expected closed]. rewrite Z.add_assoc.
    destruct (memmove_Ok st (buffered f + zlen a) (take (Z.to_nat n) b)) as (st2 & -> & _); [lia| |done].
    rewrite take_zlen by lia. destruct Hwf. subst n. lia.
Qed.

(** When it does, the bytes after it are left for the next iteration. *)
Lemma feed_step_long f c a b :
  framer_wf f -> room f <= zlen a ->
  feed_step f c (a ++ b) =
  match feed_step f c a with
  | inl r => inl r
  | inr (f', c', a', d) => inr (f', c', a' ++ b, d)
  end.
Proof.
  intros Hwf Hr. destruct (room_pos f Hwf) as (Hr0 & _).
  unfold StreamFramer.feed_step. fold (room f). rewrite zlen_app.
  pose proof (zlen_nonneg b). rewrite !Z.min_r by lia.
  rewrite take_app_le, drop_app_le by (unfold zlen in *; lia).
  destruct (memmove _ _ _) as [st| |]; [|done|done].
  destruct (inspect_header _) as [[|e|] f']; [|done|done].
  destruct (_ || _); [done|]. destruct (decode_envelope _); [|done|done].
  destruct (sink _ _) as [[e|] c']; done.
Qed.

Lemma feed_loop_app a b f c d :
  framer_wf f ->
  feed_loop (length (a ++ b)) f c (a ++ b) d =
  match feed_loop (length a) f c a d with
  | (Ok n, f', c') => feed_loop (length b) f' c' b n
  | r => r
  end.
Proof.
  remember (length a) as n eqn:Hn. revert a Hn f c d.
  induction n as [n IH] using lt_wf_ind. intros a -> f c d Hwf.
  destruct a as [|x a]; [done|]. destruct b as [|y b].
  { rewrite app_nil_r. destruct (feed_loop _ f c (x :: a) d) as [[[m| |] f'] c']; done. }
  destruct (Z.lt_ge_cases (zlen (x :: a)) (room f)) as [Hr|Hr].
  - destruct (feed_step_short f c (x :: a) (y :: b)) as (f1 & E1 & Hwf1 & E2); try done.
    cbn [length StreamFramer.feed_loop app]. cbn [app] in E2. rewrite E1, E2.
    cbn [b2z]. rewrite Z.add_0_r. destruct (length a) eqn:?; cbn [StreamFramer.feed_loop];
    destruct (feed_step f1 c (y :: b)) as [[[r f'] c']|[[[f' c'] b'] d']] eqn:E; try done.
    all: pose proof (feed_step_shorter _ _ (y :: b) _ _ _ _ Hwf1 ltac:(done) E) as Hs.
    all: pose proof (feed_step_spec f1 c (y :: b) Hwf1 ltac:(done)) as Hw; rewrite E in Hw; destruct Hw as (Hwf' & _).
    all: cbn [length] in Hs; rewrite (feed_loop_fuel (length (a ++ y :: b))), (feed_loop_fuel (length b));
      rewrite ?length_app; cbn [length]; (done || lia).
  - cbn [app length StreamFramer.feed_loop].
    pose proof (feed_step_long f c (x :: a) (y :: b) Hwf Hr) as E2. cbn [app] in E2. rewrite E2.
    pose proof (feed_step_spec f c (x :: a) Hwf ltac:(done)) as Hw.
    destruct (feed_step f c (x :: a)) as [[[r f'] c']|[[[f' c'] a'] d']] eqn:E.
    { destruct Hw as ((e & ->) & _). done. }
    destruct Hw as (Hwf' & _). pose proof (feed_step_shorter _ _ (x :: a) _ _ _ _ Hwf ltac:(done) E) as Hs.
    cbn [length] in Hs. rewrite (feed_loop_fuel (length a)) by (done || lia).
    rewrite <- (IH (length a')) by (done || (cbn [length]; lia)).
    apply feed_loop_fuel; [done|]. rewrite !length_app. cbn [length]. lia.
Qed.

(** ** The loop as a whole *)

(** Everything a run of the loop preserves; [P] is any property of the context
    that the sink keeps for packets whose envelope decodes. *)
Lemma feed_loop_spec (P : C -> Prop) n f c input d :
  (forall c p v, P c -> decode_envelope p = Ok v -> P (sink c p).2) ->
  framer_wf f -> (length input <= n)%nat -> P c ->
  let '(r, f', c') := feed_loop n f c input d in
  framer_wf f' /\ P c' /\ maximum_packet_bytes f' = maximum_packet_bytes f /\
  match r with
  | Ok _ => closed f' = closed f
  | Err _ => closed f' = true /\ buffered f' = 0 /\ expected f' = 0
  | UB => False
  end.
Proof.
  intros HP. revert f c input d. induction n as [n IH] using lt_wf_ind. intros f c input d Hwf Hn Pc.
  destruct input as [|b input]; [by destruct n|]. destruct n as [|n]; [simpl in Hn; lia|].
  cbn [StreamFramer.feed_loop].
  pose proof (feed_step_spec f c (b :: input) Hwf ltac:(done)) as Hs.
  assert (Hctx : match feed_step f c (b :: input) with inl (_, _, c') => P c' | inr (_, c', _, _) => P c' end).
  { unfold StreamFramer.feed_step. destruct (memmove _ _ _); [|done|done].
    destruct (inspect_header _) as [[|e|] f']; [|done|done]. destruct (_ || _); [done|].
    destruct (decode_envelope _) as [v| |] eqn:Hd; [|done|done].
    pose proof (HP c _ v Pc Hd) as Pc'. destruct (sink c _) as [[e|] c']; done. }
  destruct (feed_step f c (b :: input)) as [[[r f'] c']|[[[f' c'] input'] d']] eqn:E.
  - destruct Hs as ((e & ->) & ? & ? & ? & ? & ?). done.
  - pose proof (feed_step_shorter _ _ (b :: input) _ _ _ _ Hwf ltac:(done) E) as Hl.
    destruct Hs as (Hwf' & Hc & Hm & _). cbn [length] in *.
    specialize (IH n ltac:(lia) f' c' input' (d + b2z d') Hwf' ltac:(lia) Hctx).
    destruct (feed_loop n f' c' input' _) as [[r f''] c'']. destruct IH as (? & ? & ? & Hr).
    split_and!; try done; try congruence. destruct r; try done. congruence.
Qed.

Lemma feed_guard_same f f' :
  closed f' = closed f -> maximum_packet_bytes f' = maximum_packet_bytes f ->
  feed_guard Capacity f' = feed_guard Capacity f.
Proof. intros E1 E2. unfold feed_guard. by rewrite E1, E2. Qed.

Lemma feed_chunks_concat chunks f c d :
  framer_wf f -> feed_guard Capacity f = false ->
  feed_chunks Capacity (Some sink) f c chunks d =
  add_delivered d (feed Capacity (Some sink) f c (concat chunks)).
Proof.
  revert f c d. induction chunks as [|a chunks IH]; intros f c d Hwf Hg; cbn [feed_chunks concat].
  - unfold feed. rewrite Hg. cbn. unfold add_delivered. cbn. by rewrite Z.add_0_r.
  - unfold feed at 1 2. rewrite Hg, feed_loop_app by done.
    pose proof (feed_loop_spec (fun _ => True) (length a) f c a 0) as Hs.
    specialize (Hs ltac:(done) Hwf ltac:(done) I).
    destruct (feed_loop (length a) f c a 0) as [[[n|e|] f'] c']; [|done|done].
    destruct Hs as (Hwf' & _ & Hm & Hc). rewrite IH by (done || (rewrite <- Hg; by apply feed_guard_same)).
    unfold feed. rewrite (feed_guard_same f f'), Hg by done.
    by rewrite (feed_loop_delivered _ f' c' _ n), add_delivered_add.
Qed.

(** ** One whole packet, from a clean state *)

Definition clean (f : StreamFramer) : Prop := expected f = 0 /\ buffered f = 0.

Lemma memmove_onto st a rest b :
  st = a ++ rest -> zlen b <= zlen rest ->
  memmove st (zlen a) b = Ok (a ++ b ++ drop (length b) rest).
Proof.
  intros -> Hb. unfold memmove. rewrite zlen_app.
  rewrite (proj2 (Z.ltb_ge (zlen a) 0)), (proj2 (Z.ltb_ge (_ + _) _)) by (unfold zlen in *; lia).
  cbn [orb]. unfold zlen. rewrite Nat2Z.id, take_app_length. do 3 f_equal.
  apply drop_app_add.
Qed.

Lemma memmove_start st a : zlen a <= zlen st -> memmove st 0 a = Ok (a ++ drop (length a) st).
Proof. exact (memmove_onto st [] st a eq_refl). Qed.

Lemma feed_step_header f c a b h n :
  framer_wf f -> clean f -> length a = 4%nat -> load32 a 0 = Ok h ->
  n = Z.land h 0xffff * 4 -> (7 <? Z.shiftr h 28) || (n =? 0) = false ->
  4 < n <= maximum_packet_bytes f -> maximum_packet_bytes f <= Capacity ->
  feed_step f c (a ++ b) =
  inr (mkFramer (a ++ drop 4 (storage f)) (maximum_packet_bytes f) 4 n (closed f), c, b, false).
Proof.
  intros [Hc Hst _] [He Hb] Ha Hh Hn E7 Hr Hm. unfold StreamFramer.feed_step.
  rewrite He, Hb, zlen_app. pose proof (zlen_nonneg b).
  assert (zlen a = 4) by (unfold zlen; lia). change (nonzero 0) with false. cbv iota. rewrite Z.min_r by lia.
  change (Z.to_nat (4 - 0)) with 4%nat. rewrite <- Ha, take_app_length, drop_app_length.
  rewrite memmove_start by lia.
  unfold StreamFramer.inspect_header. cbn [buffered expected storage maximum_packet_bytes closed].
  change (0 + (4 - 0) <? 4) with false. cbn [orb].
  change (nonzero 0) with false. cbv iota.
  rewrite (load32_prefix (take 4 (a ++ drop (length a) (storage f))) a).
  2:{ rewrite take_take, take_app_le by lia. done. }
  apply orb_false_iff in E7 as [E7 _]. rewrite Hh, <- Hn, E7.
  rewrite !(proj2 (Z.ltb_ge _ _)) by lia. cbn [orb buffered expected storage].
  unfold nonzero. rewrite (proj2 (Z.eqb_neq n 0)), (proj2 (Z.eqb_neq _ n)) by lia. done.
Qed.

Lemma feed_step_deliver st m cl a b rest c v :
  st = a ++ rest -> zlen b <= zlen rest -> 4 <= zlen a -> b <> [] ->
  decode_envelope (a ++ b) = Ok v -> (sink c (a ++ b)).1 = None ->
  feed_step (mkFramer st m (zlen a) (zlen (a ++ b)) cl) c b =
  inr (mkFramer (a ++ b ++ drop (length b) rest) m 0 0 cl, (sink c (a ++ b)).2, [], true).
Proof.
  intros -> Hb Ha Hne Hd Hs. unfold StreamFramer.feed_step.
  cbn [buffered expected storage maximum_packet_bytes closed]. rewrite zlen_app.
  pose proof (zlen_nonneg b).
  assert (Hnz : nonzero (zlen a + zlen b) = true)
    by (unfold nonzero; by rewrite (proj2 (Z.eqb_neq _ 0)) by lia).
  rewrite Hnz, Z.min_l by lia. replace (Z.to_nat (zlen b)) with (length b) by (unfold zlen; lia).
  rewrite firstn_all, (memmove_onto _ a rest b), drop_all by done.
  unfold StreamFramer.inspect_header. cbn [buffered expected storage maximum_packet_bytes closed].
  rewrite Hnz, orb_true_r. cbn [buffered expected storage maximum_packet_bytes closed].
  rewrite Hnz, Z.eqb_refl. cbn [negb orb].
  replace (Z.to_nat (zlen a + zlen b)) with (length (a ++ b)) by (rewrite length_app; unfold zlen; lia).
  rewrite (app_assoc a b), take_app_length, Hd. destruct (sink c (a ++ b)) as [[e|] c']; done.
Qed.

(** A packet of a header alone is complete as soon as its header is. *)
Lemma feed_step_single f c a v :
  framer_wf f -> clean f -> length a = 4%nat -> decode_envelope a = Ok v ->
  4 <= maximum_packet_bytes f <= Capacity -> (sink c a).1 = None ->
  feed_step f c a =
  inr (mkFramer (a ++ drop 4 (storage f)) (maximum_packet_bytes f) 0 0 (closed f), (sink c a).2, [], true).
Proof.
  intros [Hc Hst _] [He Hb] Ha Hd Hm Hs.
  destruct (decode_envelope_header _ _ Hd) as (h & Hh & E7 & Esz & _).
  assert (Hza : zlen a = 4) by (unfold zlen; lia). unfold StreamFramer.feed_step.
  rewrite He, Hb, Hza. change (nonzero 0) with false. cbv iota.
  change (Z.to_nat (Z.min 4 (4 - 0))) with 4%nat. rewrite <- Ha, firstn_all, drop_all.
  rewrite memmove_start by lia.
  unfold StreamFramer.inspect_header. cbn [buffered expected storage maximum_packet_bytes closed].
  change (0 + Z.min 4 (4 - 0) <? 4) with false. cbn [orb]. change (nonzero 0) with false. cbv iota.
  rewrite (load32_prefix (take 4 (a ++ drop (length a) (storage f))) a).
  2:{ rewrite take_take, take_app_le by lia. done. }
  apply orb_false_iff in E7 as [E7 _]. rewrite Hh, Esz, E7, Hza.
  rewrite !(proj2 (Z.ltb_ge _ _)) by lia. cbn [orb buffered expected storage].
  change (negb (nonzero 4) || negb (0 + Z.min 4 (4 - 0) =? 4)) with false. cbv iota.
  replace (Z.to_nat 4) with (length a) by done. rewrite take_app_length, Hd. destruct (sink c a) as [[e|] c']; done.
Qed.

Lemma feed_loop_packet p v f c :
  framer_wf f -> clean f -> decode_envelope p = Ok v ->
  zlen p <= maximum_packet_bytes f -> maximum_packet_bytes f <= Capacity -> (sink c p).1 = None ->
  exists f', feed_loop (length p) f c p 0 = (Ok 1, f', (sink c p).2) /\ framer_wf f' /\
    clean f' /\ closed f' = closed f /\ maximum_packet_bytes f' = maximum_packet_bytes f.
Proof.
  intros Hwf Hcl Hd Hmax Hcap Hsink. pose proof Hwf as [Hc Hst _].
  destruct (decode_envelope_header _ _ Hd) as (h & Hh & E7 & Esz & E4).
  destruct (split_length p 4) as (a & b & -> & Ha); [unfold zlen in E4; lia|].
  pose proof (length_drop (storage f) 4) as Hdr. rewrite zlen_app in *.
  assert (Hza : zlen a = 4) by (unfold zlen; lia).
  destruct (decide (b = [])) as [->|Hne].
  - rewrite app_nil_r in *. eexists. split; [|split].
    + rewrite Ha. destruct a as [|x a]; [done|]. cbn [StreamFramer.feed_loop].
      by rewrite (feed_step_single _ _ _ v) by (done || lia).
    + split; cbn; [done|rewrite zlen_app; unfold zlen in *; lia|lia].
    + done.
  - assert (0 < zlen b) by (destruct b; [done|unfold zlen; cbn [length]; lia]).
    assert (Hla : load32 a 0 = Ok h).
    { rewrite <- Hh. apply load32_prefix. rewrite take_app_le by lia. done. }
    pose proof (feed_step_header f c a b h (zlen (a ++ b)) Hwf Hcl Ha Hla) as E1.
    rewrite zlen_app, <- Esz in E1. specialize (E1 eq_refl E7 ltac:(lia) Hcap). rewrite Esz in E1.
    pose proof (feed_step_deliver (a ++ drop 4 (storage f)) (maximum_packet_bytes f) (closed f) a b
      (drop 4 (storage f)) c v eq_refl ltac:(unfold zlen in *; lia) ltac:(lia) Hne Hd Hsink) as E2.
    rewrite zlen_app, Hza in E2. eexists. split; [|split].
    + assert (length (a ++ b) = S (S (length (a ++ b) - 2))) as -> by (rewrite length_app; lia).
      destruct (a ++ b) as [|x l] eqn:Eab; [by destruct a|]. cbn [StreamFramer.feed_loop]. rewrite E1.
      destruct b as [|y b]; [done|]. cbn [StreamFramer.feed_loop]. rewrite Hza, E2.
      by destruct (length (x :: l) - 2)%nat.
    + split; cbn [storage]; [done| |cbn; lia]. rewrite !zlen_app. unfold zlen in *.
      rewrite length_drop. lia.
    + done.
Qed.
End proofs.

Lemma add_delivered_0 {C} (r : Result Z * StreamFramer * C) : add_delivered 0 r = r.
Proof. by destruct r as [[[n| |] f] c]. Qed.

Lemma feed_guard_bounds Capacity f :
  feed_guard Capacity f = false -> 4 <= maximum_packet_bytes f <= Capacity /\ closed f = false.
Proof.
  unfold feed_guard. rewrite !orb_false_iff. intros (((? & ?%Z.ltb_ge) & ?%Z.ltb_ge) & _). split; [lia|done].
Qed.

(** What an accepting sink makes of a list of packets. *)
Definition deliver_all {C} (sink : C -> list byte -> option Error * C) (c : C) (packets : list (list byte)) : C :=
  fold_left (fun c p => (sink c p).2) packets c.

Lemma feed_loop_packets Capacity {C} (sink : C -> list byte -> option Error * C) packets f c :
  framer_wf Capacity f -> clean f -> feed_guard Capacity f = false ->
  Forall (fun p => is_ok (decode_envelope p) = true /\ zlen p <= maximum_packet_bytes f) packets ->
  (forall c p, (sink c p).1 = None) ->
  exists f', feed_loop Capacity sink (length (concat packets)) f c (concat packets) 0 =
      (Ok (zlen packets), f', deliver_all sink c packets) /\
    framer_wf Capacity f' /\ clean f' /\ closed f' = closed f /\
    maximum_packet_bytes f' = maximum_packet_bytes f.
Proof.
  revert f c. induction packets as [|p packets IH]; intros f c Hwf Hcl Hg HF Hs; [by exists f|].
  apply list.Forall_cons in HF as [[Hd Hm] HF].
  destruct (feed_guard_bounds _ _ Hg) as [Hmax _].
  destruct (decode_envelope p) as [v| |] eqn:Ed; [|done|done].
  destruct (feed_loop_packet Capacity sink p v f c) as (f1 & E1 & Hwf1 & Hcl1 & Hc1 & Hm1);
    [done|done|done|done|lia|done|].
  destruct (IH f1 (sink c p).2 Hwf1 Hcl1) as (f' & E2 & Hwf' & Hcl' & Hc' & Hm');
    [rewrite <- Hg; by apply feed_guard_same|by rewrite Hm1|done|].
  exists f'. split; [|split_and!; (done || congruence)].
  cbn [concat]. rewrite feed_loop_app, E1, feed_loop_delivered, E2 by done.
  unfold add_delivered. cbn. do 3 f_equal. unfold zlen. cbn [length]. lia.
Qed.

(** ** Properties *)

(** How the transport cuts the stream into reads does not matter: feeding the
    chunks one after another has the same result, leaves the framer and the sink's
    context in the same state and stops at the same error as one feed of their
    concatenation. *)
Theorem feed_chunk_independent Capacity {C} (sink : C -> list byte -> option Error * C) f c chunks :
  framer_wf Capacity f -> feed_guard Capacity f = false ->
  feed_chunks Capacity (Some sink) f c chunks 0 = feed Capacity (Some sink) f c (concat chunks).
Proof. intros. by rewrite feed_chunks_concat, add_delivered_0. Qed.

(** C19. A stream that is the concatenation of packets whose envelopes decode and fit
    the configured maximum is delivered as exactly those packets, in order, under any
    chunking of the reads, and leaves nothing buffered. *)
Theorem feed_delivers_packets Capacity {C} (sink : C -> list byte -> option Error * C) f c packets chunks :
  framer_wf Capacity f -> buffered f = 0 -> expected f = 0 -> feed_guard Capacity f = false ->
  Forall (fun p => is_ok (decode_envelope p) = true /\ zlen p <= maximum_packet_bytes f) packets ->
  (forall c p, (sink c p).1 = None) ->
  concat chunks = concat packets ->
  exists f', feed_chunks Capacity (Some sink) f c chunks 0 =
      (Ok (zlen packets), f', fold_left (fun c p => (sink c p).2) packets c) /\
    framer_wf Capacity f' /\ stalled f' = false /\ disconnect f' = (Ok tt, shutdown f').
Proof.
  intros Hwf Hb He Hg HF Hs E. rewrite feed_chunks_concat, add_delivered_0, E by done.
  unfold feed. rewrite Hg.
  destruct (feed_loop_packets Capacity sink packets f c) as (f' & -> & Hwf' & [He' Hb'] & _); try done.
  exists f'. split_and!; try done.
  - unfold stalled. by rewrite Hb'.
  - unfold disconnect, shutdown, reset. cbn. by rewrite Hb', He'.
Qed.

(** For every input and every sink a feed stays within its buffer (no undefined
    behaviour) and ends; only packets whose envelope decodes reach the sink, so any
    property of the context the sink keeps for them holds afterwards; an error closes
    the framer with nothing buffered, and from then on every feed is refused until
    [reconnect]. *)
Theorem feed_safe Capacity {C} (sink : C -> list byte -> option Error * C) (P : C -> Prop) f c input :
  framer_wf Capacity f ->
  (forall c p v, P c -> decode_envelope p = Ok v -> P (sink c p).2) -> P c ->
  let '(r, f', c') := feed Capacity (Some sink) f c input in
  framer_wf Capacity f' /\ P c' /\ r <> UB /\
  (feed_guard Capacity f = false -> forall e, r = Err e ->
     closed f' = true /\ buffered f' = 0 /\
     (forall more, feed Capacity (Some sink) f' c' more = (Err (error1 ErrorCode.invalid_state), f', c')) /\
     feed_guard Capacity (reconnect f') = false).
Proof.
  intros Hwf HP Hc. unfold feed at 1. destruct (feed_guard Capacity f) eqn:Hg; [by split_and!|].
  pose proof (feed_loop_spec Capacity sink P (length input) f c input 0 HP Hwf ltac:(done) Hc) as H.
  destruct (feed_loop _ _ _ f c input 0) as [[r f'] c']. destruct H as (Hwf' & Hc' & Hm & Hr).
  split_and!; [done|done|by destruct r|]. intros _ e ->. destruct Hr as (Hcl & Hb & _).
  split_and!; [done|done| |].
  - intros more. unfold feed, feed_guard. by rewrite Hcl.
  - destruct (feed_guard_bounds _ _ Hg) as [_ Hcf]. rewrite <- Hg. by apply feed_guard_same.
Qed.

(** ** Witnesses *)

Definition collect (c : list (list byte)) (p : list byte) : option Error * list (list byte) := (None, c ++ [p]).

Lemma feed_chunk_independent_witness :
  feed_chunks 64 (Some collect) (framer_create 64 64) [] [take 3 sample_wire; drop 3 sample_wire] 0 =
  feed 64 (Some collect) (framer_create 64 64) [] sample_wire.
Proof.
  rewrite (feed_chunk_independent 64 collect (framer_create 64 64) []
    [take 3 sample_wire; drop 3 sample_wire]); [vm_compute; reflexivity| |vm_compute; reflexivity].
  apply framer_create_wf. lia.
Defined.

Lemma feed_delivers_packets_witness :
  exists f', feed_chunks 64 (Some collect) (framer_create 64 64) []
    [take 7 sample_wire; drop 7 sample_wire ++ take 50 sample_wire] 0 =
    (Ok 2, f', [sample_wire; sample_wire]) /\ stalled f' = false.
Proof.
  destruct (feed_delivers_packets 64 collect (framer_create 64 64) [] [sample_wire; sample_wire]
    [take 7 sample_wire; drop 7 sample_wire ++ take 50 sample_wire]) as (f' & E & _ & Hs & _).
  - apply framer_create_wf. lia.
  - reflexivity.
  - reflexivity.
  - reflexivity.
  - apply List.Forall_cons; [|apply List.Forall_cons; [|apply List.Forall_nil]]; (split; [vm_compute; reflexivity|vm_compute; congruence]).
  - reflexivity.
  - vm_compute. reflexivity.
  - exists f'. split; [exact E|exact Hs].
Defined.

Lemma feed_safe_witness :
  let '(r, f', c') := feed 64 (Some collect) (framer_create 64 64) [] (sample_wire ++ [xff; xff; xff; xff]) in
  r = Err (error1 ErrorCode.invalid_argument) /\ c' = [sample_wire] /\ closed f' = true.
Proof.
  pose proof (feed_safe 64 collect (fun _ => True) (framer_create 64 64) []
    (sample_wire ++ [xff; xff; xff; xff]) (framer_create_wf 64 64 ltac:(lia)) ltac:(done) I) as H.
  destruct (feed 64 (Some collect) (framer_create 64 64) [] (sample_wire ++ [xff; xff; xff; xff]))
    as [[r f'] c'] eqn:E. vm_compute in E. injection E as <- <- <-.
  destruct H as (_ & _ & _ & H). specialize (H ltac:(reflexivity) _ eq_refl) as (H & _).
  split; [reflexivity|]. split; [vm_compute; reflexivity|exact H].
Defined.
