(* ===== verification/Time.v ===== *)
(** * Protocol time: [include/vita/runtime/timing/time.hpp]

    Times and durations are pairs of 64-bit seconds and picoseconds.  The
    specification reads a pair as a number of picoseconds ([ps_of]) and states
    every operation as exact integer arithmetic with its range check. *)

From S2P Require Import Prelude.

Definition picoseconds_per_second : Z := 1000000000000.

Record ProtocolTime := mkTime { seconds : Z; picoseconds : Z }.
Record Duration := mkDuration { d_seconds : Z; d_picoseconds : Z }.
Record MonoTime := mkMono { ns : Z }.

#[global] Instance ProtocolTime_eq_dec : EqDecision ProtocolTime.
Proof. solve_decision. Defined.
#[global] Instance Duration_eq_dec : EqDecision Duration.
Proof. solve_decision. Defined.

(** The defaulted [operator<=>] compares the members in order. *)
Definition time_ltb (a b : ProtocolTime) : bool :=
  (seconds a <? seconds b) || ((seconds a =? seconds b) && (picoseconds a <? picoseconds b)).
Definition time_geb (a b : ProtocolTime) : bool := negb (time_ltb a b).
Definition duration_ltb (a b : Duration) : bool :=
  (d_seconds a <? d_seconds b) || ((d_seconds a =? d_seconds b) && (d_picoseconds a <? d_picoseconds b)).
Definition duration_eqb (a b : Duration) : bool :=
  (d_seconds a =? d_seconds b) && (d_picoseconds a =? d_picoseconds b).

Definition valid (t : ProtocolTime) : bool := picoseconds t <? picoseconds_per_second.
Definition valid_duration (d : Duration) : bool := d_picoseconds d <? picoseconds_per_second.

Definition from_picoseconds (ps : Z) : Duration :=
  mkDuration (ps / picoseconds_per_second) (ps mod picoseconds_per_second).
Definition from_nanoseconds (ns : Z) : Duration :=
  mkDuration (ns / 1000000000) (wrap64 (ns mod 1000000000 * 1000)).

Definition add (t : ProtocolTime) (d : Duration) : Result ProtocolTime :=
  fail_if negb (valid t) || negb (valid_duration d) with error1 ErrorCode.invalid_argument ;;
  let fraction := wrap64 (picoseconds t + d_picoseconds d) in
  let carry := fraction / picoseconds_per_second in
  fail_if (U64_MAX - seconds t <? d_seconds d) || (wrap64 (U64_MAX - seconds t - d_seconds d) <? carry)
    with error1 ErrorCode.overflow ;;
  Ok (mkTime (wrap64 (seconds t + d_seconds d + carry)) (fraction mod picoseconds_per_second)).

Definition subtract (t : ProtocolTime) (d : Duration) : Result ProtocolTime :=
  fail_if negb (valid t) || negb (valid_duration d) with error1 ErrorCode.invalid_argument ;;
  fail_if time_ltb t (mkTime (d_seconds d) (d_picoseconds d)) with error1 ErrorCode.overflow ;;
  if picoseconds t <? d_picoseconds d then
    Ok (mkTime (wrap64 (seconds t - d_seconds d - 1))
               (wrap64 (picoseconds_per_second + picoseconds t - d_picoseconds d)))
  else Ok (mkTime (wrap64 (seconds t - d_seconds d)) (wrap64 (picoseconds t - d_picoseconds d))).

Definition difference (later earlier : ProtocolTime) : Result Duration :=
  let? t := subtract later (mkDuration (seconds earlier) (picoseconds earlier)) in
  Ok (mkDuration (seconds t) (picoseconds t)).

Definition as_picoseconds (d : Duration) : Result Z :=
  fail_if negb (valid_duration d) with error1 ErrorCode.invalid_argument ;;
  fail_if (U64_MAX - d_picoseconds d) / picoseconds_per_second <? d_seconds d with error1 ErrorCode.overflow ;;
  Ok (wrap64 (wrap64 (d_seconds d * picoseconds_per_second) + d_picoseconds d)).

Definition deadline (now : MonoTime) (delay_ns : Z) : Result MonoTime :=
  fail_if U64_MAX - ns now <? delay_ns with error1 ErrorCode.overflow ;;
  Ok (mkMono (wrap64 (ns now + delay_ns))).

(** [MonotonicClock]: a function pointer, possibly null, on a context. *)
Record MonotonicClock (C : Type) := mkMonoClock { mc_read : option (C -> MonoTime); mc_context : C }.
Arguments mc_read {C}. Arguments mc_context {C}.
Definition mono_now {C} (c : MonotonicClock C) : Result MonoTime :=
  match mc_read c with
  | None => Err (error1 ErrorCode.invalid_state)
  | Some read => Ok (read (mc_context c))
  end.

(** ** Specification: whole picoseconds *)

Definition ps_of (t : ProtocolTime) : Z := seconds t * picoseconds_per_second + picoseconds t.
Definition ps_of_duration (d : Duration) : Z := d_seconds d * picoseconds_per_second + d_picoseconds d.

(** The first instant that does not fit. *)
Definition TIME_END : Z := 18446744073709551616 * picoseconds_per_second.

Record time_ok (t : ProtocolTime) : Prop := mk_time_ok {
  ok_seconds : u64 (seconds t);
  ok_picoseconds : 0 <= picoseconds t < picoseconds_per_second
}.
Record duration_ok (d : Duration) : Prop := mk_duration_ok {
  ok_d_seconds : u64 (d_seconds d);
  ok_d_picoseconds : 0 <= d_picoseconds d < picoseconds_per_second
}.
Definition time_typed (t : ProtocolTime) : Prop := u64 (seconds t) /\ u64 (picoseconds t).

Ltac unfold_time := unfold ps_of, ps_of_duration, TIME_END, valid, valid_duration, picoseconds_per_second in *.
Ltac tlia := unfold_time; cbn [seconds picoseconds d_seconds d_picoseconds] in *; zlia.

Lemma wrap64_small x : 0 <= x <= U64_MAX -> wrap64 x = x.
Proof. intros. unfold wrap64. apply Z.mod_small. zlia. Qed.

Lemma time_ok_range t : time_ok t -> 0 <= ps_of t < TIME_END.
Proof. intros []. tlia. Qed.

Lemma ps_of_inj a b : time_ok a -> time_ok b -> ps_of a = ps_of b -> a = b.
Proof. intros [? ?] [? ?] E. destruct a, b; simpl in *. f_equal; tlia. Qed.

Lemma ps_of_duration_inj a b : duration_ok a -> duration_ok b -> ps_of_duration a = ps_of_duration b -> a = b.
Proof. intros [? ?] [? ?] E. destruct a, b; simpl in *. f_equal; tlia. Qed.

Lemma valid_ok t : time_ok t -> valid t = true.
Proof. intros []. apply Z.ltb_lt. tlia. Qed.

Lemma valid_duration_ok d : duration_ok d -> valid_duration d = true.
Proof. intros []. apply Z.ltb_lt. tlia. Qed.

Lemma valid_time_ok t : time_typed t -> valid t = true -> time_ok t.
Proof. intros [? ?] ?%Z.ltb_lt. split; [done|tlia]. Qed.

#[export] Hint Resolve valid_ok valid_duration_ok time_ok_range : vrt.

(** The order of the members is the order of the instants. *)
Lemma time_ltb_spec a b : time_ok a -> time_ok b -> time_ltb a b = (ps_of a <? ps_of b).
Proof.
  intros [? ?] [? ?]. unfold time_ltb.
  destruct (Z.ltb_spec (seconds a) (seconds b)), (Z.eqb_spec (seconds a) (seconds b)),
    (Z.ltb_spec (picoseconds a) (picoseconds b)), (Z.ltb_spec (ps_of a) (ps_of b)); (done || (exfalso; tlia)).
Qed.

Lemma duration_ltb_spec a b :
  duration_ok a -> duration_ok b -> duration_ltb a b = (ps_of_duration a <? ps_of_duration b).
Proof.
  intros [? ?] [? ?]. exact (time_ltb_spec (mkTime (d_seconds a) (d_picoseconds a))
    (mkTime (d_seconds b) (d_picoseconds b)) ltac:(by split) ltac:(by split)).
Qed.

Lemma duration_eqb_spec a b :
  duration_ok a -> duration_ok b -> duration_eqb a b = (ps_of_duration a =? ps_of_duration b).
Proof.
  intros Ha Hb. unfold duration_eqb. destruct (Z.eqb_spec (ps_of_duration a) (ps_of_duration b)) as [E|E].
  - apply ps_of_duration_inj in E as ->; [|done..]. by rewrite !Z.eqb_refl.
  - apply andb_false_iff. rewrite !Z.eqb_neq.
    destruct (Z.eq_dec (d_seconds a) (d_seconds b)) as [E1|]; [right|by left].
    intros E2. apply E. unfold ps_of_duration. congruence.
Qed.

Lemma from_picoseconds_ok ps : u64 ps ->
  duration_ok (from_picoseconds ps) /\ ps_of_duration (from_picoseconds ps) = ps.
Proof.
  intros. unfold from_picoseconds. split; [split|]; simpl; tlia.
Qed.

Lemma from_nanoseconds_ok n : u64 n ->
  duration_ok (from_nanoseconds n) /\ ps_of_duration (from_nanoseconds n) = n * 1000.
Proof.
  intros. unfold from_nanoseconds. rewrite wrap64_small by zlia. split; [split|]; simpl; tlia.
Qed.

(** ** The operations are exact *)

Lemma add_spec t d : time_ok t -> duration_ok d ->
  if ps_of t + ps_of_duration d <? TIME_END
  then exists t', add t d = Ok t' /\ time_ok t' /\ ps_of t' = ps_of t + ps_of_duration d
  else add t d = Err (error1 ErrorCode.overflow).
Proof.
  intros Ht Hd. unfold add. rewrite (valid_ok t Ht), (valid_duration_ok d Hd). cbn [negb orb].
  destruct Ht as [Hs Hp], Hd as [Hds Hdp].
  rewrite (wrap64_small (picoseconds t + d_picoseconds d)) by tlia.
  set (p := picoseconds t + d_picoseconds d).
  assert (Hc : p / picoseconds_per_second = 0 \/ p / picoseconds_per_second = 1) by (subst p; tlia).
  assert (Hm : p = picoseconds_per_second * (p / picoseconds_per_second) + p mod picoseconds_per_second)
    by (apply Z.div_mod; done).
  pose proof (Z.mod_pos_bound p picoseconds_per_second ltac:(done)) as Hb.
  destruct (Z.ltb_spec (U64_MAX - seconds t) (d_seconds d)).
  - cbn [orb]. rewrite (proj2 (Z.ltb_ge _ _)); [done|subst p; tlia].
  - rewrite (wrap64_small (U64_MAX - seconds t - d_seconds d)) by zlia. cbn [orb].
    destruct (Z.ltb_spec (U64_MAX - seconds t - d_seconds d) (p / picoseconds_per_second)).
    + rewrite (proj2 (Z.ltb_ge _ _)); [done|]. tlia.
    + rewrite (proj2 (Z.ltb_lt _ _)) by tlia.
      rewrite wrap64_small by zlia. eexists. split; [done|].
      split; [split; simpl; [zlia|done]|]. unfold ps_of, ps_of_duration. simpl. tlia.
Qed.

Lemma subtract_spec t d : time_ok t -> duration_ok d ->
  if ps_of_duration d <=? ps_of t
  then exists t', subtract t d = Ok t' /\ time_ok t' /\ ps_of t' = ps_of t - ps_of_duration d
  else subtract t d = Err (error1 ErrorCode.overflow).
Proof.
  intros Ht Hd. unfold subtract. rewrite (valid_ok t Ht), (valid_duration_ok d Hd). cbn [negb orb].
  rewrite time_ltb_spec; [|done|destruct Hd; by split].
  change (ps_of (mkTime (d_seconds d) (d_picoseconds d))) with (ps_of_duration d).
  rewrite Z.leb_antisym. destruct (Z.ltb_spec (ps_of t) (ps_of_duration d)) as [|Hle]; [done|]. cbn [negb].
  destruct Ht as [Hs Hp], Hd as [Hds Hdp].
  destruct (Z.ltb_spec (picoseconds t) (d_picoseconds d)).
  - rewrite !wrap64_small by tlia. eexists. split; [done|]. split; [split|]; tlia.
  - rewrite !wrap64_small by tlia. eexists. split; [done|]. split; [split|]; tlia.
Qed.

(** The forms the clients use: what follows from a successful call. *)
Lemma add_Ok t d t' : time_ok t -> duration_ok d -> add t d = Ok t' ->
  time_ok t' /\ ps_of t' = ps_of t + ps_of_duration d.
Proof.
  intros Ht Hd E. pose proof (add_spec t d Ht Hd) as H. destruct (_ <? _).
  - destruct H as (u & E' & ? & ?). by assert (t' = u) as -> by congruence.
  - congruence.
Qed.

Lemma subtract_Ok t d t' : time_ok t -> duration_ok d -> subtract t d = Ok t' ->
  time_ok t' /\ ps_of t' = ps_of t - ps_of_duration d.
Proof.
  intros Ht Hd E. pose proof (subtract_spec t d Ht Hd) as H. destruct (_ <=? _).
  - destruct H as (u & E' & ? & ?). by assert (t' = u) as -> by congruence.
  - congruence.
Qed.

Lemma add_complete t d t' : time_ok t -> duration_ok d -> time_ok t' ->
  ps_of t' = ps_of t + ps_of_duration d -> add t d = Ok t'.
Proof.
  intros Ht Hd Ht' E. pose proof (add_spec t d Ht Hd) as H.
  rewrite (proj2 (Z.ltb_lt _ _)) in H by (pose proof (time_ok_range t' Ht'); lia).
  destruct H as (u & -> & Hu & Eu). f_equal. apply ps_of_inj; (done || lia).
Qed.

Lemma subtract_complete t d t' : time_ok t -> duration_ok d -> time_ok t' ->
  ps_of t' = ps_of t - ps_of_duration d -> subtract t d = Ok t'.
Proof.
  intros Ht Hd Ht' E. pose proof (subtract_spec t d Ht Hd) as H.
  rewrite (proj2 (Z.leb_le _ _)) in H by (pose proof (time_ok_range t' Ht'); lia).
  destruct H as (u & -> & Hu & Eu). f_equal. apply ps_of_inj; (done || lia).
Qed.

Lemma add_cases t d : time_ok t -> duration_ok d ->
  match add t d with
  | Ok t' => time_ok t' /\ ps_of t' = ps_of t + ps_of_duration d
  | Err e => e = error1 ErrorCode.overflow
  | UB => False
  end.
Proof.
  intros Ht Hd. pose proof (add_spec t d Ht Hd) as H.
  destruct (_ <? _); [destruct H as (t' & -> & ?)|rewrite H]; done.
Qed.

Lemma difference_spec a b : time_ok a -> time_ok b ->
  if ps_of b <=? ps_of a
  then exists d, difference a b = Ok d /\ duration_ok d /\ ps_of_duration d = ps_of a - ps_of b
  else difference a b = Err (error1 ErrorCode.overflow).
Proof.
  intros Ha [Hb1 Hb2]. unfold difference.
  pose proof (subtract_spec a (mkDuration (seconds b) (picoseconds b)) Ha ltac:(by split)) as H.
  change (ps_of_duration _) with (ps_of b) in H. destruct (_ <=? _); [|by rewrite H].
  destruct H as (t & -> & [? ?] & E). simpl. eexists. split; [done|]. split; [by split|exact E].
Qed.

(** [difference] is called with the later time first. *)
Lemma distance_Ok a b :
  time_ok a -> time_ok b ->
  exists d, (if time_geb a b then difference a b else difference b a) = Ok d /\
    duration_ok d /\ ps_of_duration d = Z.abs (ps_of a - ps_of b).
Proof.
  intros Ha Hb. unfold time_geb. rewrite time_ltb_spec by done.
  destruct (Z.ltb_spec (ps_of a) (ps_of b)); cbn [negb].
  - pose proof (difference_spec b a Hb Ha) as Hd. rewrite (proj2 (Z.leb_le _ _)) in Hd by lia.
    destruct Hd as (d & ? & ? & ?). exists d. split_and!; (done || lia).
  - pose proof (difference_spec a b Ha Hb) as Hd. rewrite (proj2 (Z.leb_le _ _)) in Hd by lia.
    destruct Hd as (d & ? & ? & ?). exists d. split_and!; (done || lia).
Qed.

(** ** Properties *)

(** Time arithmetic is exact: read as whole picoseconds, [add] and [subtract]
    return the sum and the difference, normalised, whenever it can be represented and
    the overflow error exactly when it cannot; subtracting what was added, or adding
    what was subtracted, gives the first time back; and a duration converts to 64-bit
    picoseconds exactly when it fits. *)
Theorem time_arithmetic_exact t d :
  time_ok t -> duration_ok d ->
  (forall t', add t d = Ok t' <->
     time_ok t' /\ ps_of t' = ps_of t + ps_of_duration d) /\
  (forall t', subtract t d = Ok t' <->
     time_ok t' /\ ps_of t' = ps_of t - ps_of_duration d) /\
  (forall e, add t d = Err e -> e = error1 ErrorCode.overflow /\ TIME_END <= ps_of t + ps_of_duration d) /\
  (forall e, subtract t d = Err e -> e = error1 ErrorCode.overflow /\ ps_of t < ps_of_duration d) /\
  (forall t', add t d = Ok t' -> subtract t' d = Ok t) /\
  (forall t', subtract t d = Ok t' -> add t' d = Ok t) /\
  as_picoseconds d = (if ps_of_duration d <=? U64_MAX then Ok (ps_of_duration d)
                      else Err (error1 ErrorCode.overflow)).
Proof.
  intros Ht Hd. split_and!.
  - intros t'. split; [by apply add_Ok|]. intros [? ?]. by apply add_complete.
  - intros t'. split; [by apply subtract_Ok|]. intros [? ?]. by apply subtract_complete.
  - intros e E. pose proof (add_spec t d Ht Hd) as H. destruct (Z.ltb_spec (ps_of t + ps_of_duration d) TIME_END).
    + destruct H as (? & ? & _). congruence.
    + split; [congruence|done].
  - intros e E. pose proof (subtract_spec t d Ht Hd) as H. destruct (Z.leb_spec (ps_of_duration d) (ps_of t)).
    + destruct H as (? & ? & _). congruence.
    + split; [congruence|done].
  - intros t' [Ht' E]%add_Ok; [|done..]. apply subtract_complete; (done || lia).
  - intros t' [Ht' E]%subtract_Ok; [|done..]. apply add_complete; (done || lia).
  - unfold as_picoseconds. rewrite (valid_duration_ok d Hd). cbn [negb]. destruct Hd as [? ?].
    destruct (Z.ltb_spec ((U64_MAX - d_picoseconds d) / picoseconds_per_second) (d_seconds d)) as [Hlt|Hge];
      destruct (Z.leb_spec (ps_of_duration d) U64_MAX); try done; try (exfalso; tlia).
    by rewrite !wrap64_small by tlia.
Qed.

Lemma time_arithmetic_exact_witness :
  add (mkTime 7 999999999999) (mkDuration 1 2) = Ok (mkTime 9 1) /\
  subtract (mkTime 9 1) (mkDuration 1 2) = Ok (mkTime 7 999999999999).
Proof.
  assert (time_ok (mkTime 7 999999999999)) by (split; simpl; tlia).
  assert (duration_ok (mkDuration 1 2)) by (split; simpl; tlia).
  destruct (time_arithmetic_exact (mkTime 7 999999999999) (mkDuration 1 2)) as (Ha & _ & _ & _ & Hi & _); [done..|].
  assert (E : add (mkTime 7 999999999999) (mkDuration 1 2) = Ok (mkTime 9 1)) by reflexivity.
  split; [exact E|exact (Hi _ E)].
Defined.
