(* ===== verification/Clock.v ===== *)
(** * The protocol clock: [include/vita/runtime/timing/clock.hpp]

    [ProtocolClock] maps the monotonic clock to protocol time from PPS captures.
    Its operations return a result and the clock afterwards; [clock_step] is the
    relation of all of them, over which the invariants are proved. *)

From stdpp Require Import relations.
From S2P Require Import Prelude Time.

Module Epoch.
Definition utc : Z := 0.
Definition gps : Z := 1.
Definition other : Z := 2.
End Epoch.

Module ClockState.
Inductive t := unbound | acquiring | locked | holdover | faulted.
#[global] Instance t_eq_dec : EqDecision t.
Proof. solve_decision. Defined.
End ClockState.

Record ClockBinding := mkBinding {
  epoch : Z;
  epoch_configured : bool; qualified : bool; injected : bool;
  calibration_uncertainty_ps : Z; holdover_drift_ppb : Z; holdover_limit_ns : Z
}.

Record ClockSnapshot := mkSnapshot {
  snap_state : ClockState.t;
  snap_time : ProtocolTime;
  snap_uncertainty_ps : Z; snap_mapping_generation : Z;
  snap_calibrated : bool; snap_injected : bool;
  snap_epoch : Z
}.

Record ProtocolClock := mkClock {
  binding : ClockBinding;
  state : ClockState.t;
  capture : MonoTime;
  origin : ProtocolTime;
  generation : Z; pulse_uncertainty : Z;
  mapped : bool
}.

Definition clock_initial : ProtocolClock :=
  mkClock (mkBinding Epoch.other false false false 0 0 2000000000) ClockState.unbound
    (mkMono 0) (mkTime 0 0) 0 0 false.

Definition set_state (c : ProtocolClock) (s : ClockState.t) : ProtocolClock :=
  mkClock (binding c) s (capture c) (origin c) (generation c) (pulse_uncertainty c) (mapped c).

Definition bind (c : ProtocolClock) (b : ClockBinding) : Result unit * ProtocolClock :=
  if negb (epoch_configured b) || (negb (qualified b) && negb (injected b)) ||
     negb (nonzero (holdover_limit_ns b)) || (Epoch.other <? epoch b)
  then (Err (error1 ErrorCode.invalid_argument), c) else
  if generation c =? U64_MAX then (Err (error1 ErrorCode.overflow), c) else
  (Ok tt, mkClock b ClockState.acquiring (capture c) (origin c) (wrap64 (generation c + 1))
            (pulse_uncertainty c) false).

Definition observe_pps (c : ProtocolClock) (cap : MonoTime) (time_of_day : option ProtocolTime)
    (uncertainty_ps : Z) : Result unit * ProtocolClock :=
  if decide (state c = ClockState.unbound) then (Err (error1 ErrorCode.invalid_state), c) else
  match time_of_day with
  | None =>
      (Err (error1 ErrorCode.invalid_argument),
       if negb (mapped c) then set_state c ClockState.acquiring else c)
  | Some tod =>
      if negb (valid tod) || (mapped c && (ns cap <? ns (capture c)))
      then (Err (error1 ErrorCode.invalid_argument), c) else
      if (generation c =? U64_MAX) ||
         (wrap64 (U64_MAX - calibration_uncertainty_ps (binding c)) <? uncertainty_ps)
      then (Err (error1 ErrorCode.overflow), c) else
      (Ok tt, mkClock (binding c) ClockState.locked cap tod (wrap64 (generation c + 1)) uncertainty_ps true)
  end.

Definition pps_lost (c : ProtocolClock) (now : MonoTime) : Result unit * ProtocolClock :=
  if negb (mapped c) || (ns now <? ns (capture c)) then (Err (error1 ErrorCode.invalid_state), c) else
  (Ok tt, set_state c (if holdover_limit_ns (binding c) <=? wrap64 (ns now - ns (capture c))
                       then ClockState.faulted else ClockState.holdover)).

(** The state [snapshot] leaves behind, also when it then fails. *)
Definition aged_state (c : ProtocolClock) (elapsed : Z) : ClockState.t :=
  if holdover_limit_ns (binding c) <=? elapsed then ClockState.faulted
  else if (1000000000 <? elapsed) && bool_decide (state c = ClockState.locked)
  then ClockState.holdover else state c.

Definition snapshot (c : ProtocolClock) (now : MonoTime) : Result ClockSnapshot * ProtocolClock :=
  if negb (mapped c) || (ns now <? ns (capture c)) then (Err (error1 ErrorCode.invalid_state), c) else
  let elapsed := wrap64 (ns now - ns (capture c)) in
  let c := set_state c (aged_state c elapsed) in
  (let? time := add (origin c) (from_nanoseconds elapsed) in
   let whole := elapsed / 1000000 in
   let remainder := elapsed mod 1000000 in
   let drift := holdover_drift_ppb (binding c) in
   fail_if (nonzero whole && (U64_MAX / whole <? drift)) ||
           (nonzero remainder && (U64_MAX / remainder <? drift)) with error1 ErrorCode.overflow ;;
   let product := wrap64 (remainder * drift) in
   let extra := wrap64 (product / 1000000 + b2z (nonzero (product mod 1000000))) in
   let base := wrap64 (calibration_uncertainty_ps (binding c) + pulse_uncertainty c) in
   let wd := wrap64 (whole * drift) in
   fail_if (wrap64 (U64_MAX - base) <? wd) || (wrap64 (U64_MAX - base - wd) <? extra)
     with error1 ErrorCode.overflow ;;
   Ok (mkSnapshot (state c) time (wrap64 (wrap64 (base + wd) + extra)) (generation c)
        (bool_decide (state c = ClockState.locked)) (injected (binding c)) (epoch (binding c))), c).

Definition data_start_allowed_at (c : ProtocolClock) (now : MonoTime) : Result bool * ProtocolClock :=
  let '(current, c) := snapshot c now in
  (let? s := current in Ok (bool_decide (snap_state s = ClockState.locked)), c).

Definition data_continue_allowed_at (c : ProtocolClock) (now : MonoTime) : Result bool * ProtocolClock :=
  let '(current, c) := snapshot c now in
  (let? s := current in
   Ok (bool_decide (snap_state s = ClockState.locked) || bool_decide (snap_state s = ClockState.holdover)), c).

Definition data_start_allowed (c : ProtocolClock) : bool :=
  mapped c && bool_decide (state c = ClockState.locked).
Definition data_continue_allowed (c : ProtocolClock) : bool :=
  mapped c && (bool_decide (state c = ClockState.locked) || bool_decide (state c = ClockState.holdover)).
Definition mapping_current (c : ProtocolClock) (g : Z) : bool := mapped c && (g =? generation c).

(** ** Steps and invariant *)

Definition binding_typed (b : ClockBinding) : Prop :=
  u64 (calibration_uncertainty_ps b) /\ u64 (holdover_drift_ppb b) /\ u64 (holdover_limit_ns b).

(** Every call of the class on arguments of their types. *)
Inductive clock_step : relation ProtocolClock :=
  | step_bind c b : binding_typed b -> clock_step c (bind c b).2
  | step_pps c cap tod u : u64 (ns cap) -> from_option time_typed True tod -> u64 u ->
      clock_step c (observe_pps c cap tod u).2
  | step_lost c now : u64 (ns now) -> clock_step c (pps_lost c now).2
  | step_snapshot c now : u64 (ns now) -> clock_step c (snapshot c now).2
  | step_start c now : u64 (ns now) -> clock_step c (data_start_allowed_at c now).2
  | step_continue c now : u64 (ns now) -> clock_step c (data_continue_allowed_at c now).2.

Record clock_wf (c : ProtocolClock) : Prop := mk_clock_wf {
  wf_generation : u64 (generation c);
  wf_binding : binding_typed (binding c);
  wf_capture : u64 (ns (capture c));
  wf_origin : mapped c = true -> time_ok (origin c);
  wf_uncertainty : mapped c = true ->
    0 <= pulse_uncertainty c /\ calibration_uncertainty_ps (binding c) + pulse_uncertainty c <= U64_MAX;
  wf_mapped_state : mapped c = true -> state c <> ClockState.unbound;
  wf_unmapped_state : mapped c = false -> state c = ClockState.unbound \/ state c = ClockState.acquiring
}.

(** The part of the state a mapping consists of. *)
Definition mapping (c : ProtocolClock) := (binding c, capture c, origin c, pulse_uncertainty c).

Lemma clock_initial_wf : clock_wf clock_initial.
Proof. split; try (by left); try done; unfold binding_typed; simpl; zlia. Qed.

Lemma snapshot_state c now :
  (snapshot c now).2 = c \/
  (mapped c = true /\ ns (capture c) <= ns now /\
   (snapshot c now).2 = set_state c (aged_state c (wrap64 (ns now - ns (capture c))))).
Proof.
  unfold snapshot. destruct (negb _ || _) eqn:E; [by left|]. right.
  apply orb_false_iff in E as [E1%negb_false_iff E2%Z.ltb_ge]. done.
Qed.

Lemma data_start_allowed_at_state c now : (data_start_allowed_at c now).2 = (snapshot c now).2.
Proof. unfold data_start_allowed_at. by destruct (snapshot c now). Qed.
Lemma data_continue_allowed_at_state c now : (data_continue_allowed_at c now).2 = (snapshot c now).2.
Proof. unfold data_continue_allowed_at. by destruct (snapshot c now). Qed.

(** Every step either keeps the mapping and the generation, and only ages the state,
    or moves to a fresh generation. *)
Lemma clock_step_cases c c' :
  clock_wf c -> clock_step c c' ->
  clock_wf c' /\
  ((mapping c' = mapping c /\ generation c' = generation c /\ mapped c' = mapped c) \/
   generation c' = generation c + 1).
Proof.
  assert (Haged : forall c s, clock_wf c -> mapped c = true -> s <> ClockState.unbound -> clock_wf (set_state c s)).
  { intros d s [] Hm Hs. split; simpl; try done. congruence. }
  assert (Hsnap : forall c now, clock_wf c -> clock_wf (snapshot c now).2 /\
     (mapping (snapshot c now).2 = mapping c /\ generation (snapshot c now).2 = generation c /\
      mapped (snapshot c now).2 = mapped c)).
  { intros d now Hwf. destruct (snapshot_state d now) as [->|(Hm & _ & ->)]; [done|].
    split; [|done]. apply Haged; [done|done|]. unfold aged_state.
    destruct (_ <=? _); [done|]. destruct (_ && _); [done|]. by apply (wf_mapped_state d Hwf). }
  intros Hwf Hs. destruct Hs as [c b Hb|c cap tod u Hcap Htod Hu|c now Hn|c now Hn|c now Hn|c now Hn].
  - unfold bind. destruct (_ || _); [split; [done|by left]|]. destruct (Z.eqb_spec (generation c) U64_MAX).
    { split; [done|by left]. }
    destruct Hwf. simpl. rewrite wrap64_small by zlia. split; [|by right].
    split; simpl; (done || zlia || by right).
  - unfold observe_pps. destruct (decide _) as [|Hst]; [split; [done|by left]|]. destruct tod as [tod|].
    + test_goal E1; [split; [done|by left]|]. test_goal E2; [split; [done|by left]|].
      apply orb_false_iff in E1 as [Hv%negb_false_iff _]. apply orb_false_iff in E2 as [?%Z.eqb_neq E2%Z.ltb_ge].
      destruct Hwf as [? [? ?] ? ? ? ? ?]. rewrite wrap64_small in E2 by zlia. simpl.
      rewrite wrap64_small by zlia. split; [|by right]. split; simpl; try done; try zlia.
      intros _. by apply valid_time_ok.
    + destruct (mapped c) eqn:Hm; simpl; [split; [done|by left]|].
      split; [|left; simpl; done]. destruct Hwf. split; simpl; try done; try congruence. by right.
  - unfold pps_lost. destruct (_ || _) eqn:E; [split; [done|by left]|].
    apply orb_false_iff in E as [Hm%negb_false_iff _]. simpl. split; [|by left].
    apply Haged; [done|done|]. by destruct (_ <=? _).
  - destruct (Hsnap c now Hwf) as [? ?]. split; [done|by left].
  - rewrite data_start_allowed_at_state. destruct (Hsnap c now Hwf) as [? ?]. split; [done|by left].
  - rewrite data_continue_allowed_at_state. destruct (Hsnap c now Hwf) as [? ?]. split; [done|by left].
Qed.

Lemma clock_steps_wf c c' : clock_wf c -> rtc clock_step c c' -> clock_wf c'.
Proof. intros Hwf H. induction H; [done|]. apply IHrtc. by eapply clock_step_cases. Qed.

Lemma clock_steps_generation c c' : clock_wf c -> rtc clock_step c c' ->
  generation c <= generation c' /\
  (generation c' = generation c -> mapping c' = mapping c /\ mapped c' = mapped c).
Proof.
  intros Hwf H. induction H as [|c c1 c' Hs Hr IH]; [done|].
  destruct (clock_step_cases c c1 Hwf Hs) as [Hwf1 [(E1 & E2 & E3)|E]]; destruct (IH Hwf1) as [Hle Hm].
  - split; [lia|]. intros E. destruct Hm as [? ?]; [lia|]. split; congruence.
  - split; [lia|]. intros; lia.
Qed.

(** ** Snapshots *)

Definition ceil_div (a b : Z) : Z := - (- a / b).

Lemma checked_product_fits a b :
  0 <= a -> 0 <= b -> nonzero a && (U64_MAX / a <? b) = false -> 0 <= a * b <= U64_MAX.
Proof.
  intros Ha Hb H. split; [nia|]. unfold nonzero in H. destruct (Z.eqb_spec a 0) as [->|Hne]; [done|].
  cbn [negb andb] in H. apply Z.ltb_ge in H.
  pose proof (Z.mul_div_le U64_MAX a ltac:(lia)). nia.
Qed.

Lemma drift_ceil elapsed drift :
  0 <= elapsed -> 0 <= drift ->
  elapsed / 1000000 * drift +
    (elapsed mod 1000000 * drift / 1000000 + b2z (nonzero (elapsed mod 1000000 * drift mod 1000000))) =
  ceil_div (elapsed * drift) 1000000.
Proof.
  intros He Hd. unfold ceil_div.
  set (w := elapsed / 1000000). set (r := elapsed mod 1000000).
  assert (Ee : elapsed * drift = w * drift * 1000000 + r * drift).
  { rewrite (Z.div_mod elapsed 1000000) at 1 by done. subst w r. ring. }
  rewrite Ee. generalize (w * drift) (r * drift). intros x p.
  unfold nonzero. destruct (Z.eqb_spec (p mod 1000000) 0); cbn [negb b2z]; zlia.
Qed.

Lemma elapsed_range c now : clock_wf c -> u64 (ns now) -> ns (capture c) <= ns now ->
  wrap64 (ns now - ns (capture c)) = ns now - ns (capture c) /\ u64 (ns now - ns (capture c)).
Proof. intros [] ? ?. rewrite wrap64_small; zlia. Qed.

Lemma snapshot_Ok c now s c' :
  clock_wf c -> u64 (ns now) -> snapshot c now = (Ok s, c') ->
  mapped c = true /\ ns (capture c) <= ns now /\
  c' = set_state c (aged_state c (ns now - ns (capture c))) /\
  snap_state s = state c' /\ time_ok (snap_time s) /\
  ps_of (snap_time s) = ps_of (origin c) + 1000 * (ns now - ns (capture c)) /\
  snap_uncertainty_ps s = calibration_uncertainty_ps (binding c) + pulse_uncertainty c +
    ceil_div ((ns now - ns (capture c)) * holdover_drift_ppb (binding c)) 1000000 /\
  u64 (snap_uncertainty_ps s) /\ snap_mapping_generation s = generation c.
Proof.
  intros Hwf Hn. unfold snapshot. test_goal E0; [done|].
  apply orb_false_iff in E0 as [Hm%negb_false_iff Hc%Z.ltb_ge].
  destruct (elapsed_range c now Hwf Hn Hc) as [-> He]. set (el := ns now - ns (capture c)) in *.
  cbn [binding origin generation pulse_uncertainty set_state state].
  destruct Hwf as [Hg (Hb1 & Hb2 & Hb3) _ Ho Hu _ _]. specialize (Ho Hm). specialize (Hu Hm).
  destruct (from_nanoseconds_ok el He) as [Hdo Hdv]. intros [= H <-].
  destruct (add (origin c) (from_nanoseconds el)) as [t| |] eqn:Ea; [|done|done].
  cbn [rbind] in H. apply add_Ok in Ea as [Ht Et]; [|done..].
  destruct (_ || _) eqn:E1 in H; [done|]. apply orb_false_iff in E1 as [Ew Er].
  apply checked_product_fits in Ew; [|zlia..]. apply checked_product_fits in Er; [|zlia..].
  pose proof (drift_ceil el (holdover_drift_ppb (binding c)) ltac:(zlia) ltac:(zlia)) as Hdrift.
  rewrite (wrap64_small (el mod 1000000 * _)), (wrap64_small (el / 1000000 * _)) in H by done.
  rewrite (wrap64_small (calibration_uncertainty_ps _ + _)) in H by zlia.
  set (r := el mod 1000000 * holdover_drift_ppb (binding c)) in *.
  set (w := el / 1000000 * holdover_drift_ppb (binding c)) in *.
  set (base := calibration_uncertainty_ps (binding c) + pulse_uncertainty c) in *.
  pose proof (b2z_range (nonzero (r mod 1000000))).
  set (x := r / 1000000 + b2z (nonzero (r mod 1000000))) in *.
  assert (0 <= x <= U64_MAX) by (subst x; zlia).
  assert (0 <= base <= U64_MAX) by (subst base; zlia).
  rewrite (wrap64_small x) in H by done. rewrite (wrap64_small (U64_MAX - base)) in H by lia.
  destruct (U64_MAX - base <? w) eqn:E2; [done|]. apply Z.ltb_ge in E2.
  rewrite (wrap64_small (U64_MAX - base - w)) in H by lia. cbn [orb] in H.
  destruct (U64_MAX - base - w <? x) eqn:E3; [done|]. apply Z.ltb_ge in E3.
  rewrite (wrap64_small (base + w)), (wrap64_small (base + w + x)) in H by lia.
  injection H as <-. split_and!; try done; cbn [snap_time snap_uncertainty_ps]; unfold u64; lia.
Qed.

(** ** Properties *)

(** A mapping generation identifies one mapping: if a generation is current for a
    clock and still current after any sequence of operations, then the binding, the
    capture point, the origin and the pulse uncertainty are the ones it was issued
    for, so scheduled work that revalidates its generation runs against the mapping it
    was planned with. *)
Theorem mapping_generation_identifies c c' g :
  clock_wf c -> rtc clock_step c c' ->
  mapping_current c g = true -> mapping_current c' g = true ->
  mapping c' = mapping c.
Proof.
  intros Hwf Hr. unfold mapping_current. intros [_ E1%Z.eqb_eq]%andb_true_iff [_ E2%Z.eqb_eq]%andb_true_iff.
  apply (clock_steps_generation c c' Hwf Hr). congruence.
Qed.

(** A snapshot is exact: its time is the origin plus the elapsed nanoseconds, its
    uncertainty is the calibration and pulse uncertainty plus the ceiling of the drift
    over the elapsed time, both without wrap-around, and its generation is the one of
    the mapping in force. *)
Theorem snapshot_exact c now s :
  clock_wf c -> u64 (ns now) -> (snapshot c now).1 = Ok s ->
  ps_of (snap_time s) = ps_of (origin c) + 1000 * (ns now - ns (capture c)) /\
  snap_uncertainty_ps s = calibration_uncertainty_ps (binding c) + pulse_uncertainty c +
    ceil_div ((ns now - ns (capture c)) * holdover_drift_ppb (binding c)) 1000000 /\
  snap_uncertainty_ps s <= U64_MAX /\
  mapping_current c (snap_mapping_generation s) = true.
Proof.
  intros Hwf Hn H. destruct (snapshot c now) as [r c'] eqn:E. simpl in H. subst r.
  destruct (snapshot_Ok c now s c' Hwf Hn E) as (Hm & _ & _ & _ & _ & Ht & Hu & [_ Hu2] & Hg).
  split_and!; try done. unfold mapping_current. by rewrite Hm, Hg, Z.eqb_refl.
Qed.

(** The lock is only ever obtained with a new mapping. *)
Lemma locked_from_pps c c' : clock_wf c -> rtc clock_step c c' ->
  generation c' = generation c -> state c' = ClockState.locked -> state c = ClockState.locked.
Proof.
  intros Hwf H. induction H as [|c c1 c' Hs Hr IH]; [done|]. intros Hg Hl.
  destruct (clock_step_cases c c1 Hwf Hs) as [Hwf1 Hc].
  destruct (clock_steps_generation c1 c' Hwf1 Hr) as [Hle _].
  assert (generation c1 = generation c) as Hg1 by (destruct Hc as [(_ & ? & _)|?]; lia).
  specialize (IH Hwf1 ltac:(lia) Hl). clear Hc Hle Hr Hl.
  assert (Haged : forall now, state (snapshot c now).2 = ClockState.locked -> state c = ClockState.locked).
  { intros now. destruct (snapshot_state c now) as [->|(_ & _ & ->)]; [done|]. simpl. unfold aged_state.
    destruct (_ <=? _); [done|]. destruct (_ && _); done. }
  destruct Hs as [c b Hb|c cap tod u Hcap Htod Hu|c now Hn|c now Hn|c now Hn|c now Hn].
  - revert IH. unfold bind. test_goal E; [done|]. test_goal E'; done.
  - revert IH Hg1. unfold observe_pps. destruct (decide _); [done|]. destruct tod as [tod|]; [|by destruct (mapped c)].
    test_goal E1; [done|]. test_goal E2; [done|]. simpl. intros _ Hg1.
    destruct Hwf. apply orb_false_iff in E2 as [?%Z.eqb_neq _]. rewrite wrap64_small in Hg1 by zlia. lia.
  - revert IH. unfold pps_lost. test_goal E; [done|]. simpl. by destruct (_ <=? _).
  - eauto.
  - rewrite data_start_allowed_at_state in IH. eauto.
  - rewrite data_continue_allowed_at_state in IH. eauto.
Qed.

(** Data may start only while locked, at most one second and less than the
    holdover limit after the last PPS mapping, and may continue only locked or in
    holdover within the limit; the cached accessors agree with the last snapshot; and
    a clock is locked only if it was locked when its mapping generation was issued. *)
Theorem data_gates c now c0 :
  clock_wf c0 -> rtc clock_step c0 c -> u64 (ns now) ->
  let elapsed := ns now - ns (capture c) in
  (forall b c', data_start_allowed_at c now = (Ok b, c') ->
     data_start_allowed c' = b /\
     (b = true <-> state c = ClockState.locked /\ elapsed <= 1000000000 /\
                   elapsed < holdover_limit_ns (binding c))) /\
  (forall b c', data_continue_allowed_at c now = (Ok b, c') ->
     data_continue_allowed c' = b /\
     (b = true <-> (state c = ClockState.locked \/ state c = ClockState.holdover) /\
                   elapsed < holdover_limit_ns (binding c))) /\
  (generation c = generation c0 -> state c = ClockState.locked -> state c0 = ClockState.locked).
Proof.
  intros Hwf0 Hr Hn elapsed. assert (Hwf : clock_wf c) by (by eapply clock_steps_wf).
  split_and!; [| |by apply locked_from_pps].
  - intros b c'. unfold data_start_allowed_at. destruct (snapshot c now) as [[s| |] c1] eqn:E; [|done|done].
    destruct (snapshot_Ok c now s c1 Hwf Hn E) as (Hm & _ & -> & Hs & _). simpl. rewrite Hs. intros [= <- <-].
    simpl. unfold data_start_allowed. simpl. rewrite Hm. split; [done|]. rewrite bool_decide_eq_true.
    subst elapsed. unfold aged_state. destruct (Z.leb_spec (holdover_limit_ns (binding c)) (ns now - ns (capture c))).
    { split; [done|]. intros (_ & _ & ?). lia. }
    destruct (Z.ltb_spec 1000000000 (ns now - ns (capture c))); destruct (state c); simpl;
      (split; [intros ?; try done; split_and!; (done || lia)|intros (? & ? & ?); (done || lia)]).
  - intros b c'. unfold data_continue_allowed_at. destruct (snapshot c now) as [[s| |] c1] eqn:E; [|done|done].
    destruct (snapshot_Ok c now s c1 Hwf Hn E) as (Hm & _ & -> & Hs & _). simpl. rewrite Hs. intros [= <- <-].
    simpl. unfold data_continue_allowed. simpl. rewrite Hm. split; [done|].
    subst elapsed. unfold aged_state. destruct (Z.leb_spec (holdover_limit_ns (binding c)) (ns now - ns (capture c))).
    { split; [done|]. intros (_ & ?). lia. }
    destruct (Z.ltb_spec 1000000000 (ns now - ns (capture c))); destruct (state c); simpl;
      (split; [intros ?; try done; (split; [by (left + right)|lia])|intros ([?|?] & ?); done]).
Qed.

(** ** Witnesses *)

Definition sample_binding : ClockBinding := mkBinding Epoch.gps true true false 500 1000 2000000000.
Definition sample_clock : ProtocolClock :=
  (observe_pps (bind clock_initial sample_binding).2 (mkMono 100) (Some (mkTime 10 0)) 30).2.

Lemma sample_clock_reachable : rtc clock_step clock_initial sample_clock.
Proof.
  eapply rtc_l; [apply (step_bind _ sample_binding); unfold binding_typed; simpl; zlia|].
  eapply rtc_l; [apply (step_pps _ (mkMono 100) (Some (mkTime 10 0)) 30); unfold time_typed; simpl; zlia|].
  apply rtc_refl.
Qed.

Lemma sample_clock_wf : clock_wf sample_clock.
Proof. eapply clock_steps_wf; [apply clock_initial_wf|apply sample_clock_reachable]. Qed.

Lemma mapping_generation_identifies_witness :
  mapping (snapshot sample_clock (mkMono 1500)).2 = mapping sample_clock.
Proof.
  apply (mapping_generation_identifies sample_clock (snapshot sample_clock (mkMono 1500)).2 2);
    [apply sample_clock_wf|apply rtc_once, step_snapshot; simpl; zlia|vm_compute; reflexivity|vm_compute; reflexivity].
Defined.

Lemma snapshot_exact_witness :
  exists s, (snapshot sample_clock (mkMono 1000101)).1 = Ok s /\ ps_of (snap_time s) = 10001000001000 /\
    snap_uncertainty_ps s = 1531.
Proof.
  destruct (snapshot sample_clock (mkMono 1000101)).1 as [s| |] eqn:E; try (vm_compute in E; discriminate E).
  destruct (snapshot_exact sample_clock (mkMono 1000101) s sample_clock_wf ltac:(simpl; zlia) E) as (H1 & H2 & _).
  exists s. split; [reflexivity|]. split; [rewrite H1|rewrite H2]; vm_compute; reflexivity.
Defined.

Lemma data_gates_witness :
  (data_start_allowed_at sample_clock (mkMono 500)).1 = Ok true /\ state sample_clock = ClockState.locked.
Proof.
  destruct (data_gates sample_clock (mkMono 500) clock_initial clock_initial_wf sample_clock_reachable
    ltac:(simpl; zlia)) as (H & _).
  destruct (data_start_allowed_at sample_clock (mkMono 500)) as [r c'] eqn:E.
  assert (r = Ok true) as -> by (vm_compute in E; injection E; congruence).
  split; [reflexivity|]. destruct (H true c' eq_refl) as [_ H2]. apply H2. reflexivity.
Defined.
