(* ===== verification/Timeline.v ===== *)
(** * Sample timelines: [include/vita/runtime/timing/sample_timeline.hpp]

    A [SampleTimeline] keeps the protocol time of the next sample as whole
    picoseconds plus a reduced fraction of one picosecond, so that rates that do
    not divide a second accumulate no error.  The specification is the exact
    rational [exact_ps]. *)

From Stdlib Require Import QArith Znumtheory.
From S2P Require Import Prelude Time.
#[local] Open Scope Z_scope.

Record ExactSampleTime := mkExact { exact_protocol_time : ProtocolTime; numerator : Z; denominator : Z }.
Record SampleTimeline := mkTimeline { current : ExactSampleTime; rate : Z; ordinal : Z; revision : Z }.

(** Division by zero is undefined. *)
Definition common_denominator (a b : Z) : Result Z :=
  if (b =? 0) || (Z.gcd a b =? 0) then UB else
  let factor := a / Z.gcd a b in
  fail_if U64_MAX / b <? factor with error1 ErrorCode.resource_limit ;;
  Ok (wrap64 (factor * b)).

Definition timeline_create (origin : ProtocolTime) (r : Z) : Result SampleTimeline :=
  fail_if negb (valid origin) || negb (nonzero r) || (100000000 <? r) with error1 ErrorCode.invalid_argument ;;
  Ok (mkTimeline (mkExact origin 0 1) r 0 0).

Definition reanchor_mapping (t : SampleTimeline) (old_now new_now : ProtocolTime) : Result SampleTimeline :=
  let? delta := if time_geb new_now old_now then difference new_now old_now else difference old_now new_now in
  let now := exact_protocol_time (current t) in
  let? shifted := if time_geb new_now old_now then add now delta else subtract now delta in
  Ok (mkTimeline (mkExact shifted (numerator (current t)) (denominator (current t)))
        (rate t) (ordinal t) (revision t)).

Definition exact_time (t : SampleTimeline) : ExactSampleTime := current t.
Definition time (t : SampleTimeline) : ProtocolTime := exact_protocol_time (current t).

Definition change_rate (t : SampleTimeline) (r : Z) : Result SampleTimeline :=
  fail_if negb (nonzero r) || (100000000 <? r) with error1 ErrorCode.invalid_argument ;;
  fail_if revision t =? U64_MAX with error1 ErrorCode.overflow ;;
  let? _ := common_denominator (denominator (current t)) (r / Z.gcd picoseconds_per_second r) in
  Ok (mkTimeline (current t) r (ordinal t) (wrap64 (revision t + 1))).

Definition advance (t : SampleTimeline) (samples : Z) : Result SampleTimeline :=
  fail_if U64_MAX - ordinal t <? samples with error1 ErrorCode.overflow ;;
  if rate t =? 0 then UB else
  let seconds := samples / rate t in
  let remaining := samples mod rate t in
  let quotient := picoseconds_per_second / rate t in
  let step_remainder := picoseconds_per_second mod rate t in
  let remainder_product := wrap64 (remaining * step_remainder) in
  let fraction := wrap64 (wrap64 (remaining * quotient) + remainder_product / rate t) in
  let residue := remainder_product mod rate t in
  let divisor := Z.gcd picoseconds_per_second (rate t) in
  let step_denominator := rate t / divisor in
  let cur := current t in
  let? den := common_denominator (denominator cur) step_denominator in
  let a := wrap64 (numerator cur * (den / denominator cur)) in
  let b := wrap64 (residue / divisor * (den / step_denominator)) in
  let carry := wrap64 (den - b) <=? a in
  let num := if carry then wrap64 (a - wrap64 (den - b)) else wrap64 (a + b) in
  let? next := add (exact_protocol_time cur) (mkDuration seconds fraction) in
  let? next := if carry then add next (mkDuration 0 1) else Ok next in
  let gcd := Z.gcd num den in
  if gcd =? 0 then UB else
  Ok (mkTimeline (mkExact next (num / gcd) (den / gcd)) (rate t) (wrap64 (ordinal t + samples)) (revision t)).

(** ** Specification *)

Record exact_ok (e : ExactSampleTime) : Prop := mk_exact_ok {
  exact_time_ok : time_ok (exact_protocol_time e);
  exact_fraction : 0 <= numerator e < denominator e;
  exact_width : denominator e <= U64_MAX;
  exact_reduced : Z.gcd (numerator e) (denominator e) = 1
}.

Record timeline_wf (t : SampleTimeline) : Prop := mk_timeline_wf {
  wf_current : exact_ok (current t);
  wf_rate : 1 <= rate t <= 100000000;
  wf_ordinal : u64 (ordinal t);
  wf_revision : u64 (revision t)
}.

(** The instant in units of [1/denominator] picoseconds, and as a rational. *)
Definition ticks (e : ExactSampleTime) : Z := ps_of (exact_protocol_time e) * denominator e + numerator e.
Definition exact_ps (t : SampleTimeline) : Q := ticks (current t) # Z.to_pos (denominator (current t)).

(** ** The fraction arithmetic *)

Lemma common_denominator_lcm a b :
  0 < a -> 0 < b ->
  if Z.lcm a b <=? U64_MAX then common_denominator a b = Ok (Z.lcm a b)
  else common_denominator a b = Err (error1 ErrorCode.resource_limit).
Proof.
  intros Ha Hb. unfold common_denominator.
  assert (Hg : 0 < Z.gcd a b).
  { pose proof (Z.gcd_nonneg a b). assert (Z.gcd a b <> 0) by (intros E%Z.gcd_eq_0_l; lia). lia. }
  rewrite (proj2 (Z.eqb_neq b 0)), (proj2 (Z.eqb_neq (Z.gcd a b) 0)) by lia. cbn [orb].
  destruct (Z.gcd_divide_l a b) as [k Hk], (Z.gcd_divide_r a b) as [l Hl].
  assert (Hf : a / Z.gcd a b = k) by (rewrite Hk at 1; apply Z.div_mul; lia).
  assert (0 < k) by nia.
  assert (Hlcm : Z.lcm a b = k * b).
  { assert (Hq : b / Z.gcd a b = l) by (rewrite Hl at 1; apply Z.div_mul; lia).
    unfold Z.lcm. rewrite Hq, Z.abs_eq by nia. nia. }
  rewrite Hf, Hlcm.
  pose proof (Z.div_le_lower_bound U64_MAX b k Hb) as Hd.
  pose proof (Z.mul_div_le U64_MAX b Hb).
  destruct (Z.ltb_spec (U64_MAX / b) k), (Z.leb_spec (k * b) U64_MAX); try done; try nia.
  rewrite wrap64_small; [done|nia].
Qed.

Lemma common_denominator_Ok a b d :
  0 < a -> 0 < b -> common_denominator a b = Ok d ->
  d = Z.lcm a b /\ 0 < d <= U64_MAX /\ (a | d) /\ (b | d).
Proof.
  intros Ha Hb E. pose proof (common_denominator_lcm a b Ha Hb) as H.
  destruct (Z.leb_spec (Z.lcm a b) U64_MAX); [|congruence].
  assert (d = Z.lcm a b) as -> by congruence. split_and!; try done.
  - pose proof (Z.lcm_nonneg a b). assert (Z.lcm a b <> 0) by (rewrite Z.lcm_eq_0; lia). lia.
  - apply Z.divide_lcm_l.
  - apply Z.divide_lcm_r.
Qed.

(** The remainder of the step is a multiple of the divisor by which the denominator
    was reduced. *)
Lemma step_split samples r :
  0 <= samples -> 1 <= r <= 100000000 ->
  let g := Z.gcd picoseconds_per_second r in
  let residue := (samples mod r * (picoseconds_per_second mod r)) mod r in
  let fraction := samples mod r * (picoseconds_per_second / r) +
                  (samples mod r * (picoseconds_per_second mod r)) / r in
  0 < g /\ 0 < r / g /\ r = r / g * g /\
  residue = residue / g * g /\ 0 <= residue / g < r / g /\
  0 <= samples mod r * (picoseconds_per_second mod r) <= U64_MAX /\
  0 <= fraction < picoseconds_per_second /\
  samples * picoseconds_per_second = r * (samples / r * picoseconds_per_second + fraction) + residue.
Proof.
  intros Hs Hr g residue fraction.
  assert (Hg : 0 < g).
  { pose proof (Z.gcd_nonneg picoseconds_per_second r).
    assert (g <> 0) by (intros E%Z.gcd_eq_0_r; lia). subst g. lia. }
  destruct (Z.gcd_divide_l picoseconds_per_second r) as [k Hk], (Z.gcd_divide_r picoseconds_per_second r) as [l Hl].
  fold g in Hk, Hl.
  assert (Hl' : r / g = l) by (rewrite Hl at 1; apply Z.div_mul; lia).
  pose proof (Z.mod_pos_bound samples r ltac:(lia)) as Hm.
  pose proof (Z.mod_pos_bound picoseconds_per_second r ltac:(lia)) as Hp.
  pose proof (Z.div_mod samples r ltac:(lia)) as Es.
  pose proof (Z.div_mod picoseconds_per_second r ltac:(lia)) as Ep.
  set (m := samples mod r) in *. set (p := picoseconds_per_second mod r) in *.
  set (q := picoseconds_per_second / r) in *. set (s := samples / r) in *.
  pose proof (Z.div_mod (m * p) r ltac:(lia)) as Emp. fold residue in Emp.
  pose proof (Z.mod_pos_bound (m * p) r ltac:(lia)) as Hres. fold residue in Hres.
  assert (Hdr : (g | residue)).
  { exists (m * (k - l * q) - l * (m * p / r)).
    assert (p = k * g - r * q) by lia. nia. }
  destruct Hdr as [c Hc]. assert (Hc' : residue / g = c) by (rewrite Hc; apply Z.div_mul; lia).
  rewrite Hl', Hc'. split_and!; try done; try nia.
  - assert (m * p < 100000000 * 100000000) by nia. zlia.
  - subst fraction. assert (0 <= m * p / r) by (apply Z.div_pos; nia). assert (0 <= q) by (apply Z.div_pos; unfold picoseconds_per_second; lia). nia.
  - subst fraction. fold q p. assert (r * (m * q + m * p / r) <= m * picoseconds_per_second) by nia.
    assert (m * picoseconds_per_second < r * picoseconds_per_second) by (apply Z.mul_lt_mono_pos_r; [done|lia]). nia.
Qed.

(** Sum of two fractions over a common denominator, with the carry. *)
Lemma fraction_sum num den c sd D :
  0 <= num < den -> 0 <= c < sd -> 0 < D <= U64_MAX -> (den | D) -> (sd | D) ->
  let a := wrap64 (num * (D / den)) in
  let b := wrap64 (c * (D / sd)) in
  let carry := wrap64 (D - b) <=? a in
  let n := if carry then wrap64 (a - wrap64 (D - b)) else wrap64 (a + b) in
  0 <= n < D /\ (n + b2z carry * D) * den * sd = num * D * sd + c * D * den.
Proof.
  intros Hn Hc HD [k Hk] [l Hl]. cbv zeta.
  assert (Hdk : D / den = k) by (rewrite Hk; apply Z.div_mul; lia).
  assert (Hdl : D / sd = l) by (rewrite Hl; apply Z.div_mul; lia).
  assert (0 < k) by nia. assert (0 < l) by nia.
  rewrite Hdk, Hdl. assert (0 <= num * k < D) by nia. assert (0 <= c * l < D) by nia.
  rewrite !(wrap64_small (num * k)), !(wrap64_small (c * l)) by lia.
  rewrite !(wrap64_small (D - _)) by lia.
  destruct (Z.leb_spec (D - c * l) (num * k)); rewrite wrap64_small by lia; cbn [b2z]; (split; [lia|]).
  - transitivity (num * (k * den) * sd + c * (l * sd) * den); [ring|by rewrite <- Hk, <- Hl].
  - transitivity (num * (k * den) * sd + c * (l * sd) * den); [ring|by rewrite <- Hk, <- Hl].
Qed.

Definition step_denominator (r : Z) : Z := r / Z.gcd picoseconds_per_second r.

(** Whether the instant [n] samples on is past the last representable one. *)
Definition past_end (t : SampleTimeline) (n : Z) : Prop :=
  TIME_END * (denominator (current t) * rate t) <=
  ticks (current t) * rate t + n * picoseconds_per_second * denominator (current t).

Lemma reduce_fraction num D :
  0 <= num < D ->
  let g := Z.gcd num D in
  0 < g /\ num = num / g * g /\ D = D / g * g /\ 0 <= num / g < D / g /\ Z.gcd (num / g) (D / g) = 1.
Proof.
  intros Hn g. assert (Hg : 0 < g).
  { pose proof (Z.gcd_nonneg num D). assert (g <> 0) by (intros E%Z.gcd_eq_0_r; lia). subst g. lia. }
  destruct (Z.gcd_divide_l num D) as [k Hk], (Z.gcd_divide_r num D) as [l Hl]. fold g in Hk, Hl.
  assert (Hdk : num / g = k) by (rewrite Hk at 1; apply Z.div_mul; lia).
  assert (Hdl : D / g = l) by (rewrite Hl at 1; apply Z.div_mul; lia).
  pose proof (Z.gcd_div_gcd num D g ltac:(lia) eq_refl) as H1.
  rewrite Hdk, Hdl in *. split_and!; (done || nia).
Qed.

(** A duration, then one more picosecond if the fractions carried. *)
Lemma add_carry (T : ProtocolTime) (d : Duration) (carry : bool) :
  time_ok T -> duration_ok d ->
  (exists T2, rbind (add T d) (fun T1 => if carry then add T1 (mkDuration 0 1) else Ok T1) = Ok T2 /\
     time_ok T2 /\ ps_of T2 = ps_of T + ps_of_duration d + b2z carry) \/
  (rbind (add T d) (fun T1 => if carry then add T1 (mkDuration 0 1) else Ok T1) = Err (error1 ErrorCode.overflow) /\
   exists k, 0 <= k <= b2z carry /\ TIME_END <= ps_of T + ps_of_duration d + k).
Proof.
  intros HT Hd. pose proof (add_spec T d HT Hd) as Hadd.
  destruct (Z.ltb_spec (ps_of T + ps_of_duration d) TIME_END).
  2:{ right. rewrite Hadd. split; [done|]. exists 0. pose proof (b2z_range carry). lia. }
  destruct Hadd as (T1 & -> & HT1 & ET1). cbn [rbind].
  destruct carry; [|left; exists T1; split_and!; (done || simpl; lia)].
  assert (Hd01 : duration_ok (mkDuration 0 1)) by (split; simpl; tlia).
  pose proof (add_spec T1 (mkDuration 0 1) HT1 Hd01) as Hadd. change (ps_of_duration (mkDuration 0 1)) with 1 in Hadd.
  destruct (Z.ltb_spec (ps_of T1 + 1) TIME_END).
  - destruct Hadd as (T2 & ? & ? & ?). left. exists T2. split_and!; (done || simpl; lia).
  - right. split; [done|]. exists 1. simpl. lia.
Qed.

(** The new instant over the common denominator. *)
Lemma instant_total T X carry num num' den sd g c D r nP :
  r = sd * g -> nP = r * X + c * g -> (num' + carry * D) * den * sd = num * D * sd + c * D * den -> 0 < sd ->
  ((T + X + carry) * D + num') * den * r = D * ((T * den + num) * r + nP * den).
Proof.
  intros -> -> Esum Hsd. apply (Z.mul_reg_l _ _ sd ltac:(lia)).
  transitivity (((T + X) * D * den * sd + (num' + carry * D) * den * sd) * (sd * g)); [ring|].
  rewrite Esum. ring.
Qed.

Lemma advance_spec t n :
  timeline_wf t -> u64 n ->
  match advance t n with
  | Ok t' => timeline_wf t' /\
      ticks (current t') * denominator (current t) * rate t =
        denominator (current t') * (ticks (current t) * rate t + n * picoseconds_per_second * denominator (current t)) /\
      ordinal t' = ordinal t + n /\ rate t' = rate t /\ revision t' = revision t /\
      (denominator (current t') | Z.lcm (denominator (current t)) (step_denominator (rate t))) /\
      Z.lcm (denominator (current t)) (step_denominator (rate t)) <= U64_MAX
  | Err e => (e = error1 ErrorCode.overflow /\ (U64_MAX < ordinal t + n \/ past_end t n)) \/
      (e = error1 ErrorCode.resource_limit /\
       U64_MAX < Z.lcm (denominator (current t)) (step_denominator (rate t)))
  | UB => False
  end.
Proof.
  intros [[Ht Hf Hw Hred] Hr Ho Hv] Hn. unfold advance.
  destruct (Z.ltb_spec (U64_MAX - ordinal t) n); [left; split; [done|left; lia]|].
  rewrite (proj2 (Z.eqb_neq (rate t) 0)) by lia. cbv zeta. fold (step_denominator (rate t)).
  destruct (step_split n (rate t) ltac:(zlia) Hr) as (Hg & Hsd & Er & Eres & Hc & Hprod & Hfr & Es).
  fold (step_denominator (rate t)) in Hsd, Er, Hc.
  rewrite (wrap64_small (n mod rate t * (picoseconds_per_second mod rate t))) by done.
  set (den := denominator (current t)) in *. set (num := numerator (current t)) in *.
  set (sd := step_denominator (rate t)) in *. set (g := Z.gcd picoseconds_per_second (rate t)) in *.
  set (c := (n mod rate t * (picoseconds_per_second mod rate t)) mod rate t / g) in *.
  set (x := n mod rate t * (picoseconds_per_second mod rate t) / rate t) in *.
  assert (0 <= x) by (apply Z.div_pos; lia).
  assert (0 <= n mod rate t * (picoseconds_per_second / rate t)).
  { apply Z.mul_nonneg_nonneg; [apply Z.mod_pos_bound; lia|apply Z.div_pos; unfold picoseconds_per_second; lia]. }
  rewrite (wrap64_small (n mod rate t * (_ / _))) by tlia. rewrite (wrap64_small (_ + x)) by tlia.
  set (fr := n mod rate t * (picoseconds_per_second / rate t) + x) in *.
  pose proof (common_denominator_lcm den sd ltac:(lia) Hsd) as Hlcm.
  destruct (Z.leb_spec (Z.lcm den sd) U64_MAX) as [HL|HL]; [|rewrite Hlcm; right; done].
  destruct (common_denominator_Ok den sd _ ltac:(lia) Hsd Hlcm) as (_ & HD & Hd1 & Hd2).
  rewrite Hlcm. cbn [rbind]. set (D := Z.lcm den sd) in *.
  destruct (fraction_sum num den c sd D Hf Hc HD Hd1 Hd2) as [Hnum Esum].
  set (carry := wrap64 (D - wrap64 (c * (D / sd))) <=? wrap64 (num * (D / den))) in *.
  set (num' := if carry then _ else _) in *.
  assert (Hdur : duration_ok (mkDuration (n / rate t) fr)).
  { split; simpl; [|done]. split; [apply Z.div_pos; zlia|]. apply Z.le_trans with n; [|zlia].
    apply Z.div_le_upper_bound; [lia|unfold u64 in Hn; nia]. }
  set (T := ps_of (exact_protocol_time (current t))) in *.
  set (X := n / rate t * picoseconds_per_second + fr) in *.
  assert (EnP : n * picoseconds_per_second = rate t * X + c * g) by lia.
  pose proof (instant_total T X (b2z carry) num num' den sd g c D (rate t) _ Er EnP Esum Hsd) as Etot.
  rewrite <- rbind_assoc.
  destruct (add_carry _ _ carry Ht Hdur) as [(T2 & -> & HT2 & ET2)|[-> (k & Hk & Hle)]]; cycle 1.
  { left. split; [done|]. right. unfold past_end, ticks. fold den num T. change (TIME_END <= T + X + k) in Hle.
    apply (Z.mul_le_mono_pos_l _ _ D); [lia|]. rewrite <- Etot.
    assert (0 <= (T + X + b2z carry - TIME_END) * D + num') by nia. assert (0 < den * rate t) by nia. nia. }
  change (ps_of T2 = T + X + b2z carry) in ET2. cbn [rbind].
  destruct (reduce_fraction num' D Hnum) as (Hgp & En & ED & Hlt2 & Hred2). set (g2 := Z.gcd num' D) in *.
  rewrite (proj2 (Z.eqb_neq g2 0)), wrap64_small by (unfold u64 in *; lia).
  cbn [current rate ordinal revision denominator numerator exact_protocol_time]. split_and!; try done.
  - split; cbn; [split; cbn; (done || nia)|done|unfold u64 in *; lia|done].
  - unfold ticks. cbn [current denominator numerator exact_protocol_time]. fold den num T.
    rewrite <- ET2 in Etot. apply (Z.mul_reg_l _ _ g2 ltac:(lia)).
    transitivity ((ps_of T2 * (D / g2 * g2) + num' / g2 * g2) * den * rate t); [ring|].
    rewrite <- ED, <- En, Etot. rewrite ED at 1. ring.
  - exists g2. lia.
Qed.

(** ** Reduced fractions are canonical *)

Lemma exact_unique a b :
  exact_ok a -> exact_ok b -> ticks a * denominator b = ticks b * denominator a -> a = b.
Proof.
  intros [Ha Hfa Hwa Hga] [Hb Hfb Hwb Hgb] E.
  assert (Hg : forall e, Z.gcd (numerator e) (denominator e) = 1 -> Z.gcd (ticks e) (denominator e) = 1).
  { intros e He. unfold ticks. by rewrite Z.add_comm, Z.gcd_comm, Z.gcd_add_mult_diag_r, Z.gcd_comm. }
  assert (Hden : denominator a = denominator b).
  { apply Z.divide_antisym_nonneg; [lia|lia| |].
    - apply (Z.gauss _ (ticks a)); [exists (ticks b); lia|]. rewrite Z.gcd_comm. by apply Hg.
    - apply (Z.gauss _ (ticks b)); [exists (ticks a); lia|]. rewrite Z.gcd_comm. by apply Hg. }
  rewrite Hden in E. apply Z.mul_reg_r in E; [|lia]. unfold ticks in E. rewrite <- Hden in E, Hfb.
  assert (Et : ps_of (exact_protocol_time a) = ps_of (exact_protocol_time b)) by nia.
  destruct a as [ta na da], b as [tb nb db]; cbn in *. subst db.
  apply ps_of_inj in Et as ->; [|done..]. f_equal. lia.
Qed.

Lemma timeline_ext (a b : SampleTimeline) :
  current a = current b -> rate a = rate b -> ordinal a = ordinal b -> revision a = revision b -> a = b.
Proof. destruct a, b; cbn. by intros -> -> -> ->. Qed.

Lemma lcm_divide_mono a a' b : (a' | a) -> 0 < a -> 0 < b -> Z.lcm a' b <= Z.lcm a b.
Proof.
  intros Hd Ha Hb. apply Z.divide_pos_le.
  - pose proof (Z.lcm_nonneg a b). assert (Z.lcm a b <> 0) by (rewrite Z.lcm_eq_0; lia). lia.
  - apply Z.lcm_least; [|apply Z.divide_lcm_r]. etrans; [done|apply Z.divide_lcm_l].
Qed.

Lemma step_denominator_pos r : 1 <= r <= 100000000 -> 0 < step_denominator r <= r.
Proof.
  intros Hr. destruct (step_split 0 r ltac:(lia) Hr) as (Hg & Hsd & Er & _).
  unfold step_denominator in *. nia.
Qed.

Lemma advance_Ok t n t' :
  timeline_wf t -> u64 n -> advance t n = Ok t' ->
  timeline_wf t' /\
  ticks (current t') * denominator (current t) * rate t =
    denominator (current t') * (ticks (current t) * rate t + n * picoseconds_per_second * denominator (current t)) /\
  ordinal t' = ordinal t + n /\ rate t' = rate t /\ revision t' = revision t /\
  (denominator (current t') | Z.lcm (denominator (current t)) (step_denominator (rate t))) /\
  Z.lcm (denominator (current t)) (step_denominator (rate t)) <= U64_MAX.
Proof. intros Hwf Hn E. pose proof (advance_spec t n Hwf Hn) as H. by rewrite E in H. Qed.

(** An advance to an instant that exists succeeds. *)
Lemma advance_complete t n t' :
  timeline_wf t -> u64 n -> timeline_wf t' -> ordinal t' = ordinal t + n ->
  rate t' = rate t -> revision t' = revision t ->
  Z.lcm (denominator (current t)) (step_denominator (rate t)) <= U64_MAX ->
  ticks (current t') * denominator (current t) * rate t =
    denominator (current t') * (ticks (current t) * rate t + n * picoseconds_per_second * denominator (current t)) ->
  advance t n = Ok t'.
Proof.
  intros Hwf Hn Hwf' Ho Hr Hv HL E. pose proof (advance_spec t n Hwf Hn) as H.
  pose proof Hwf as [[_ Hf _ _] Hrate _ _].
  destruct (advance t n) as [u|e|].
  - destruct H as (Hwfu & Eu & Hou & Hru & Hvu & _). f_equal. apply timeline_ext; try congruence.
    apply exact_unique; [by destruct Hwfu|by destruct Hwf'|].
    apply (Z.mul_reg_r _ _ (denominator (current t) * rate t)); [nia|].
    transitivity (denominator (current t') * (ticks (current u) * denominator (current t) * rate t)); [ring|].
    rewrite Eu. transitivity (denominator (current u) * (ticks (current t') * denominator (current t) * rate t)); [|ring].
    rewrite E. ring.
  - exfalso. destruct H as [(_ & [H|H])|(_ & H)]; [destruct Hwf'; zlia| |lia].
    destruct Hwf' as [[Ht' Hf' _ _] _ _ _]. pose proof (time_ok_range _ Ht') as Hrange.
    unfold past_end in H. set (V := ticks (current t) * rate t + _) in *.
    assert (ticks (current t') < TIME_END * denominator (current t')) by (unfold ticks; nia).
    assert (0 < denominator (current t) * rate t) by nia.
    assert (ticks (current t') * (denominator (current t) * rate t) <
            TIME_END * denominator (current t') * (denominator (current t) * rate t)) by nia. nia.
  - done.
Qed.

Lemma timeline_create_wf origin r t :
  time_typed origin -> 0 <= r -> timeline_create origin r = Ok t ->
  timeline_wf t /\ denominator (current t) = 1 /\ exact_protocol_time (current t) = origin /\ rate t = r.
Proof.
  intros Ho Hr. unfold timeline_create. test_goal E; [done|]. intros [= <-].
  apply orb_false_iff in E as [[Hv%negb_false_iff Hnz%negb_false_iff]%orb_false_iff Hle%Z.ltb_ge].
  unfold nonzero in Hnz. apply negb_true_iff, Z.eqb_neq in Hnz.
  split_and!; try done. split; cbn; [split; cbn; try done; try zlia; by apply valid_time_ok|lia|zlia|zlia].
Qed.

Lemma change_rate_Ok t r t' :
  timeline_wf t -> 0 <= r -> change_rate t r = Ok t' ->
  timeline_wf t' /\ current t' = current t /\ rate t' = r /\ ordinal t' = ordinal t /\
  revision t' = revision t + 1 /\ Z.lcm (denominator (current t)) (step_denominator r) <= U64_MAX.
Proof.
  intros [Hc Hr Ho Hv] Hr0. unfold change_rate. test_goal E1; [done|]. test_goal E2; [done|].
  apply orb_false_iff in E1 as [Hnz%negb_false_iff Hle%Z.ltb_ge]. apply Z.eqb_neq in E2.
  unfold nonzero in Hnz. apply negb_true_iff, Z.eqb_neq in Hnz. fold (step_denominator r).
  pose proof (step_denominator_pos r ltac:(lia)) as Hsd. destruct Hc as [? Hf ? ?].
  pose proof (common_denominator_lcm (denominator (current t)) (step_denominator r) ltac:(lia) ltac:(lia)) as HL.
  destruct (Z.leb_spec (Z.lcm (denominator (current t)) (step_denominator r)) U64_MAX); rewrite HL; [|done].
  cbn [rbind]. intros [= <-]. cbn. rewrite wrap64_small by zlia. split_and!; try done.
  split; cbn [current rate ordinal revision]; [done|lia|done|zlia].
Qed.

Lemma reanchor_mapping_Ok t old_now new_now t' :
  timeline_wf t -> time_ok old_now -> time_ok new_now -> reanchor_mapping t old_now new_now = Ok t' ->
  timeline_wf t' /\ numerator (current t') = numerator (current t) /\
  denominator (current t') = denominator (current t) /\ rate t' = rate t /\ ordinal t' = ordinal t /\
  ps_of (time t') = ps_of (time t) + (ps_of new_now - ps_of old_now).
Proof.
  intros [[Ht Hf Hw Hg] Hr Ho Hv] Hold Hnew. unfold reanchor_mapping.
  destruct (distance_Ok new_now old_now Hnew Hold) as (d & -> & Hd & Ed). cbn [rbind].
  unfold time_geb. rewrite time_ltb_spec by done.
  destruct (Z.ltb_spec (ps_of new_now) (ps_of old_now)); cbn [negb].
  - destruct (subtract _ d) as [s| |] eqn:E; [|done|done]. apply subtract_Ok in E as [? ?]; [|done..].
    intros [= <-]. cbn [current rate ordinal time numerator denominator exact_protocol_time]. split_and!; try done.
    unfold time. cbn [current exact_protocol_time]. lia.
  - destruct (add _ d) as [s| |] eqn:E; [|done|done]. apply add_Ok in E as [? ?]; [|done..].
    intros [= <-]. cbn [current rate ordinal time numerator denominator exact_protocol_time]. split_and!; try done.
    unfold time. cbn [current exact_protocol_time]. lia.
Qed.

(** Several advances in a row, as far as they succeed. *)
Fixpoint advance_all (t : SampleTimeline) (l : list Z) : Result SampleTimeline :=
  match l with
  | [] => Ok t
  | n :: l => let? t := advance t n in advance_all t l
  end.

Definition zsum (l : list Z) : Z := foldr Z.add 0 l.

Lemma zsum_nonneg l : Forall u64 l -> 0 <= zsum l.
Proof. induction 1; simpl; zlia. Qed.

Lemma advance_compose_aux t m n t1 t2 :
  timeline_wf t -> u64 m -> u64 n -> advance t m = Ok t1 -> advance t1 n = Ok t2 ->
  advance t (m + n) = Ok t2.
Proof.
  intros Hwf Hm Hn E1 E2.
  destruct (advance_Ok t m t1 Hwf Hm E1) as (Hwf1 & Ev1 & Ho1 & Hr1 & Hv1 & Hd1 & HL1).
  destruct (advance_Ok t1 n t2 Hwf1 Hn E2) as (Hwf2 & Ev2 & Ho2 & Hr2 & Hv2 & Hd2 & HL2).
  apply advance_complete; try congruence; try done; try lia.
  - destruct Hwf, Hwf1, Hwf2. zlia.
  - rewrite Hr1 in Ev2. destruct Hwf1 as [[_ Hf1 _ _] _ _ _]. destruct Hwf as [[_ Hf _ _] Hr _ _].
    apply (Z.mul_reg_l _ _ (denominator (current t1))); [lia|].
    transitivity ((ticks (current t2) * denominator (current t1) * rate t) * denominator (current t)); [ring|].
    rewrite Ev2. transitivity (denominator (current t2) *
      ((ticks (current t1) * denominator (current t) * rate t) +
       n * picoseconds_per_second * denominator (current t1) * denominator (current t))); [ring|].
    rewrite Ev1. ring.
Qed.

(** Without a rate change the denominator divides the one of the step, so it never
    has to grow. *)
Lemma advance_same_rate t n :
  timeline_wf t -> (denominator (current t) | step_denominator (rate t)) -> u64 n ->
  match advance t n with
  | Ok t' => timeline_wf t' /\ rate t' = rate t /\ ordinal t' = ordinal t + n /\
             (denominator (current t') | step_denominator (rate t'))
  | Err e => e = error1 ErrorCode.overflow /\ (U64_MAX < ordinal t + n \/ past_end t n)
  | UB => False
  end.
Proof.
  intros Hwf Hd Hn. pose proof (advance_spec t n Hwf Hn) as H. destruct Hwf as [[_ Hf _ _] Hr _ _].
  pose proof (step_denominator_pos (rate t) Hr) as Hsd.
  assert (HL : Z.lcm (denominator (current t)) (step_denominator (rate t)) = step_denominator (rate t)).
  { apply Z.divide_lcm_eq_r; [lia|done]. }
  rewrite HL in H. destruct (advance t n) as [t'|e|]; [|destruct H as [?|[_ ?]]; [done|zlia]|done].
  destruct H as (? & _ & ? & -> & _ & ? & _). done.
Qed.

(** The duration of [n] samples at rate [r], in picoseconds. *)
Definition samples_ps (n r : Z) : Q := (n * picoseconds_per_second) # Z.to_pos r.

Lemma exact_ps_step t t' n :
  timeline_wf t -> 0 < denominator (current t') ->
  ticks (current t') * denominator (current t) * rate t =
    denominator (current t') * (ticks (current t) * rate t + n * picoseconds_per_second * denominator (current t)) ->
  (exact_ps t' == exact_ps t + samples_ps n (rate t))%Q.
Proof.
  intros [[_ Hf _ _] Hr _ _] Hd E. unfold exact_ps, samples_ps, Qeq, Qplus. cbn [Qnum Qden].
  rewrite Pos2Z.inj_mul, !Z2Pos.id by lia. lia.
Qed.

Lemma advance_ordinal t n t' : advance t n = Ok t' -> n <= U64_MAX - ordinal t.
Proof. unfold advance. destruct (Z.ltb_spec (U64_MAX - ordinal t) n); done. Qed.

Lemma advance_all_spec t l :
  timeline_wf t -> (denominator (current t) | step_denominator (rate t)) -> Forall u64 l ->
  match advance_all t l with
  | Ok t' => timeline_wf t' /\ rate t' = rate t /\
      (advance t (zsum l) = Ok t' \/ l = [] /\ t' = t)
  | Err e => e = error1 ErrorCode.overflow /\ (U64_MAX < ordinal t + zsum l \/ past_end t (zsum l))
  | UB => False
  end.
Proof.
  intros Hwf Hd HF. revert t Hwf Hd. induction HF as [|n l Hn HF IH]; intros t Hwf Hd; [by split_and!; try right|].
  cbn [advance_all zsum foldr]. fold (zsum l).
  pose proof (advance_same_rate t n Hwf Hd Hn) as Hs. pose proof (zsum_nonneg l HF) as Hl.
  destruct (advance t n) as [t1|e|] eqn:E; [|cbn|done].
  - destruct Hs as (Hwf1 & Hr1 & Ho1 & Hd1). cbn [rbind]. specialize (IH t1 Hwf1 Hd1).
    destruct (advance_Ok t n t1 Hwf Hn E) as (_ & Ev1 & _).
    destruct (advance_all t1 l) as [t2|e|]; [|destruct IH as [-> IH]|done].
    + destruct IH as (Hwf2 & Hr2 & [E2|[-> ->]]); split_and!; try done; try congruence; left.
      * apply (advance_compose_aux t n (zsum l) t1); try done.
        apply advance_ordinal in E2. destruct Hwf1. zlia.
      * by rewrite Z.add_0_r.
    + split; [done|]. destruct IH as [?|Hp]; [left; lia|]. right. unfold past_end in *. rewrite Hr1 in Hp.
      pose proof Hwf1 as [[_ Hf1 _ _] _ _ _]. pose proof Hwf as [[_ Hf _ _] Hr _ _].
      apply (Z.mul_le_mono_pos_r _ _ (denominator (current t))) in Hp; [|lia].
      apply (Z.mul_le_mono_pos_l _ _ (denominator (current t1))); [lia|].
      generalize dependent TIME_END. generalize dependent picoseconds_per_second. intros. lia.
  - destruct Hs as (-> & Hs). split; [done|]. destruct Hs as [?|Hp]; [left; lia|]. right. unfold past_end in *.
    pose proof Hwf as [[_ Hf _ _] Hr _ _]. assert (0 <= zsum l * picoseconds_per_second * denominator (current t)).
    { apply Z.mul_nonneg_nonneg; [|lia]. unfold picoseconds_per_second. lia. } lia.
Qed.

(** ** Properties *)

(** Advancing is exact: whenever [advance] succeeds, the new instant is the old one
    plus [samples * 10^12 / rate] picoseconds as rational numbers, the ordinal counts
    the samples, and the fraction stays reduced and below one picosecond. *)
Theorem advance_exact t n t' :
  timeline_wf t -> u64 n -> advance t n = Ok t' ->
  (exact_ps t' == exact_ps t + samples_ps n (rate t))%Q /\
  ordinal t' = ordinal t + n /\ timeline_wf t'.
Proof.
  intros Hwf Hn E. destruct (advance_Ok t n t' Hwf Hn E) as (Hwf' & Ev & Ho & _).
  split_and!; try done. apply exact_ps_step; [done| |done]. destruct Hwf' as [[_ Hf _ _] _ _ _]. lia.
Qed.

(** How a run of samples is split into blocks does not matter: advancing by [m] and
    then by [n] reaches the very state that advancing by [m + n] reaches, so rounding
    never accumulates. *)
Theorem advance_compose t m n t1 t2 :
  timeline_wf t -> u64 m -> u64 n -> advance t m = Ok t1 -> advance t1 n = Ok t2 ->
  advance t (m + n) = Ok t2.
Proof. apply advance_compose_aux. Qed.

(** C31. A timeline from [create], advanced any number of times, shows exactly the origin
    plus all samples at its rate; the only possible failure is the overflow of the
    sample ordinal or of protocol time itself. *)
Theorem timeline_from_origin origin r t l :
  time_typed origin -> u64 r -> timeline_create origin r = Ok t -> Forall u64 l ->
  match advance_all t l with
  | Ok t' => (exact_ps t' == inject_Z (ps_of origin) + samples_ps (zsum l) r)%Q
  | Err e => e = error1 ErrorCode.overflow /\
      (U64_MAX < zsum l \/ (inject_Z TIME_END <= inject_Z (ps_of origin) + samples_ps (zsum l) r)%Q)
  | UB => False
  end.
Proof.
  intros Ho Hr E HF. destruct (timeline_create_wf origin r t Ho (proj1 Hr) E) as (Hwf & Hd & Ht & Hrate).
  assert (Hn0 : numerator (current t) = 0) by (destruct Hwf as [[_ Hf _ _] _ _ _]; lia).
  assert (Hord : ordinal t = 0) by (unfold timeline_create in E; destruct (_ || _); [done|by injection E as <-]).
  pose proof (advance_all_spec t l Hwf ltac:(rewrite Hd; apply Z.divide_1_l) HF) as H.
  assert (E0 : (exact_ps t == inject_Z (ps_of origin))%Q).
  { unfold exact_ps, ticks, inject_Z, Qeq. rewrite Hd, Hn0, Ht. cbn [Qnum Qden Z.to_pos]. lia. }
  assert (Hr1 : 0 < r) by (destruct Hwf; lia).
  destruct (advance_all t l) as [t'|e|]; [|destruct H as [-> H]|done].
  - rewrite <- E0, <- Hrate. destruct H as (Hwf' & _ & [Ea|[-> ->]]).
    + destruct (advance_Ok t (zsum l) t' Hwf) as (_ & Ev & _); [|done|].
      { pose proof (zsum_nonneg l HF). apply advance_ordinal in Ea. zlia. }
      apply exact_ps_step; [done| |done]. destruct Hwf' as [[_ Hf _ _] _ _ _]. lia.
    + unfold samples_ps. cbn [zsum foldr]. unfold Qeq, Qplus. cbn [Qnum Qden]. rewrite Pos2Z.inj_mul. ring.
  - split; [done|]. destruct H as [H|H]; [left; lia|right]. unfold past_end, ticks in H.
    rewrite Hd, Hn0, Hrate, Ht in H. unfold samples_ps, inject_Z, Qle, Qplus. cbn [Qnum Qden].
    rewrite Pos.mul_1_l, Z2Pos.id by done. lia.
Qed.

(** Changing the rate or re-anchoring the clock mapping keeps the timeline exact: a
    rate change does not move the current instant and leaves room for the new step's
    fraction, so the next advance cannot run out of denominator; re-anchoring moves the
    instant by the difference of the two clock readings and keeps the fraction. *)
Theorem timeline_segments t :
  timeline_wf t ->
  (forall r t', u64 r -> change_rate t r = Ok t' ->
     timeline_wf t' /\ current t' = current t /\ ordinal t' = ordinal t /\ rate t' = r /\
     revision t' = revision t + 1 /\
     (forall n, u64 n -> advance t' n <> Err (error1 ErrorCode.resource_limit))) /\
  (forall old_now new_now t', time_ok old_now -> time_ok new_now ->
     reanchor_mapping t old_now new_now = Ok t' ->
     timeline_wf t' /\ ordinal t' = ordinal t /\ rate t' = rate t /\
     (exact_ps t' == exact_ps t + inject_Z (ps_of new_now - ps_of old_now))%Q).
Proof.
  intros Hwf. split.
  - intros r t' Hr E. destruct (change_rate_Ok t r t' Hwf (proj1 Hr) E) as (Hwf' & Hc & Hr' & Ho & Hv & HL).
    split_and!; try done. intros n Hn Ea. pose proof (advance_spec t' n Hwf' Hn) as H. rewrite Ea, Hc, Hr' in H.
    destruct H as [[? _]|[_ ?]]; [done|lia].
  - intros o n t' Ho Hn E.
    destruct (reanchor_mapping_Ok t o n t' Hwf Ho Hn E) as (Hwf' & Hnum & Hden & Hr & Hord & Ht).
    split_and!; try done. unfold exact_ps, ticks. rewrite Hnum, Hden. unfold time in Ht. rewrite Ht.
    destruct Hwf as [[_ Hf _ _] _ _ _].
    unfold inject_Z, Qeq, Qplus. cbn [Qnum Qden]. rewrite Pos.mul_1_r, !Z2Pos.id by lia. ring.
Qed.

(** ** Witnesses *)

(** Three samples a second: a third of a second is not a whole number of picoseconds. *)
Definition sample_timeline : SampleTimeline := mkTimeline (mkExact (mkTime 5 0) 0 1) 3 0 0.
Lemma sample_timeline_wf : timeline_wf sample_timeline.
Proof. split; cbn; [split; cbn; try done; try zlia; split; cbn; tlia|lia|zlia|zlia]. Qed.

Lemma advance_exact_witness :
  exists t', advance sample_timeline 4 = Ok t' /\ time t' = mkTime 6 333333333333 /\
    numerator (current t') = 1 /\ denominator (current t') = 3 /\
    (exact_ps t' == exact_ps sample_timeline + samples_ps 4 3)%Q.
Proof.
  assert (E : advance sample_timeline 4 = Ok (mkTimeline (mkExact (mkTime 6 333333333333) 1 3) 3 4 0)) by (vm_compute; reflexivity).
  eexists. split; [exact E|]. split; [reflexivity|]. split; [reflexivity|]. split; [reflexivity|].
  exact (proj1 (advance_exact sample_timeline 4 _ sample_timeline_wf ltac:(zlia) E)).
Defined.

Lemma advance_compose_witness : advance sample_timeline (1 + 2) = Ok (mkTimeline (mkExact (mkTime 6 0) 0 1) 3 3 0).
Proof.
  apply (advance_compose sample_timeline 1 2 (mkTimeline (mkExact (mkTime 5 333333333333) 1 3) 3 1 0));
    [apply sample_timeline_wf|zlia|zlia|vm_compute; reflexivity|vm_compute; reflexivity].
Defined.

Lemma timeline_from_origin_witness :
  exists t', advance_all sample_timeline [1; 1; 2] = Ok t' /\
    (exact_ps t' == inject_Z (ps_of (mkTime 5 0)) + samples_ps (zsum [1%Z; 1%Z; 2%Z]) 3)%Q.
Proof.
  pose proof (timeline_from_origin (mkTime 5 0) 3 sample_timeline [1; 1; 2]) as H.
  specialize (H ltac:(unfold time_typed; cbn; zlia) ltac:(zlia) eq_refl).
  specialize (H ltac:(repeat (apply List.Forall_cons; [zlia|]); apply List.Forall_nil)).
  destruct (advance_all sample_timeline [1; 1; 2]) as [t'| |] eqn:E; try (vm_compute in E; discriminate E).
  exists t'. split; [reflexivity|exact H].
Defined.

Lemma timeline_segments_witness :
  exists t', change_rate sample_timeline 7 = Ok t' /\ current t' = current sample_timeline.
Proof.
  eexists. split; [vm_compute; reflexivity|].
  destruct (timeline_segments sample_timeline sample_timeline_wf) as [H _].
  exact (proj1 (proj2 (H 7 (mkTimeline (mkExact (mkTime 5 0) 0 1) 7 0 1) ltac:(zlia) ltac:(vm_compute; reflexivity)))).
Defined.
