(* ===== verification/Scheduling.v ===== *)
(** * Choosing execution boundaries: [include/vita/runtime/timing/scheduling.hpp]

    [choose_boundary] picks, among the boundaries a backend offers, the one closest
    to the requested time that the timing window of the request's mode admits.  The
    specification ([eligible], [preferred]) is stated on whole picoseconds. *)

From S2P Require Import Prelude Time Clock Timeline.

Record TimingCapabilities := mkCapabilities {
  device_early_ps : Z; device_late_ps : Z; application_early_ps : Z; application_late_ps : Z;
  preparation_lead_ns : Z; horizon_ns : Z;
  caps_qualified : bool; caps_injected : bool
}.
Definition deterministic : TimingCapabilities :=
  mkCapabilities 1000000 1000000 1000000000 1000000000 1000000 10000000000 false true.

Record ExecutionWindow := mkWindow { earliest : ProtocolTime; latest : ProtocolTime }.
Record Boundary := mkBoundary {
  b_time : ProtocolTime; b_sample_ordinal : Z; b_mapping_generation : Z;
  b_committed : bool; b_backend_ready : bool; b_quantization_uncertainty_ps : Z
}.

Definition make_boundary (timeline : SampleTimeline) (mapping_generation : Z) (backend_ready : bool) : Boundary :=
  let exact := exact_time timeline in
  mkBoundary (exact_protocol_time exact) (ordinal timeline) mapping_generation false backend_ready
    (if nonzero (numerator exact) then 1 else 0).

Definition execution_window (mode : Z) (requested : ProtocolTime) (caps : TimingCapabilities) : Result ExecutionWindow :=
  fail_if (mode <? 1) || (4 <? mode) || negb (valid requested) with error1 ErrorCode.invalid_argument ;;
  let early := device_early_ps caps in
  let late := device_late_ps caps in
  let? (early, late) :=
    if mode =? 2 then
      fail_if U64_MAX - late <? application_late_ps caps with error1 ErrorCode.overflow ;;
      Ok (early, wrap64 (late + application_late_ps caps))
    else if mode =? 3 then
      fail_if U64_MAX - early <? application_early_ps caps with error1 ErrorCode.overflow ;;
      Ok (wrap64 (early + application_early_ps caps), late)
    else if mode =? 4 then Ok (application_early_ps caps, application_late_ps caps)
    else Ok (early, late) in
  let? first := subtract requested (from_picoseconds early) in
  let? last := add requested (from_picoseconds late) in
  Ok (mkWindow first last).

Definition effect_interval_allowed (mode : Z) (requested first last : ProtocolTime)
    (caps : TimingCapabilities) : Result bool :=
  fail_if (4 <? mode) || negb (valid first) || negb (valid last) || time_ltb last first
    with error1 ErrorCode.invalid_argument ;;
  if mode =? 0 then Ok true else
  let? window := execution_window mode requested caps in
  Ok (time_geb first (earliest window) && negb (time_ltb (latest window) last)).

Section choose.
Context (mode : Z) (requested : ProtocolTime) (clock : ClockSnapshot).
Context (ready horizon : ProtocolTime) (window : option ExecutionWindow).

(** The [continue] conditions at the top of the loop. *)
Definition skip_boundary (b : Boundary) : bool :=
  negb (valid (b_time b)) || b_committed b || negb (b_backend_ready b) ||
  negb (b_mapping_generation b =? snap_mapping_generation clock) ||
  time_ltb (b_time b) ready || (nonzero mode && time_ltb horizon (b_time b)).

(** [if(!first || !last || *first<window->earliest || *last>window->latest) continue] *)
Definition fits_window (b : Boundary) (uncertainty : Z) : Result bool :=
  let first := subtract (b_time b) (from_picoseconds uncertainty) in
  let last := add (b_time b) (from_picoseconds uncertainty) in
  match first, last with
  | Ok first, Ok last =>
      let? w := deref window in
      Ok (negb (time_ltb first (earliest w) || time_ltb (latest w) last))
  | _, _ => Ok false
  end.

Fixpoint choose_loop (bs : list Boundary) (selected : option Boundary) (distance : Duration)
    : Result (option Boundary) :=
  match bs with
  | [] => Ok selected
  | b :: bs =>
      if skip_boundary b then choose_loop bs selected distance else
      if nonzero mode then
        fail_if U64_MAX - snap_uncertainty_ps clock <? b_quantization_uncertainty_ps b
          with error1 ErrorCode.overflow ;;
        let uncertainty := wrap64 (snap_uncertainty_ps clock + b_quantization_uncertainty_ps b) in
        let? fits := fits_window b uncertainty in
        if negb fits then choose_loop bs selected distance else
        let? d := if time_geb (b_time b) requested then difference (b_time b) requested
                  else difference requested (b_time b) in
        let better :=
          match selected with
          | None => true
          | Some s => duration_ltb d distance || (duration_eqb d distance && time_ltb (b_time b) (b_time s))
          end in
        if better then choose_loop bs (Some b) d else choose_loop bs selected distance
      else
        let better := match selected with None => true | Some s => time_ltb (b_time b) (b_time s) end in
        if better then choose_loop bs (Some b) distance else choose_loop bs selected distance
  end.
End choose.

Definition choose_boundary (mode : Z) (requested : ProtocolTime) (clock : ClockSnapshot)
    (boundaries : list Boundary) (caps : TimingCapabilities) : Result Boundary :=
  fail_if (4 <? mode) || negb (valid (snap_time clock)) with error1 ErrorCode.invalid_argument ;;
  fail_if 128 <? zlen boundaries with error1 ErrorCode.resource_limit ;;
  fail_if nonzero mode && ((negb (caps_qualified caps) && negb (caps_injected caps)) ||
      (negb (bool_decide (snap_state clock = ClockState.locked)) &&
       negb (bool_decide (snap_state clock = ClockState.holdover))))
    with error1 ErrorCode.invalid_state ;;
  let? ready := add (snap_time clock) (from_nanoseconds (if nonzero mode then preparation_lead_ns caps else 0)) in
  let? horizon := if nonzero mode then add (snap_time clock) (from_nanoseconds (horizon_ns caps))
                  else Ok (snap_time clock) in
  fail_if nonzero mode && (negb (valid requested) || time_ltb horizon requested)
    with error1 ErrorCode.invalid_argument ;;
  let? window := if nonzero mode then let? w := execution_window mode requested caps in Ok (Some w) else Ok None in
  let? selected := choose_loop mode requested clock ready horizon window boundaries None (mkDuration 0 0) in
  match selected with
  | None => Err (error1 ErrorCode.invalid_state)
  | Some b => Ok b
  end.

(** ** Specification *)

Definition early_margin (mode : Z) (caps : TimingCapabilities) : Z :=
  if mode =? 3 then device_early_ps caps + application_early_ps caps
  else if mode =? 4 then application_early_ps caps else device_early_ps caps.
Definition late_margin (mode : Z) (caps : TimingCapabilities) : Z :=
  if mode =? 2 then device_late_ps caps + application_late_ps caps
  else if mode =? 4 then application_late_ps caps else device_late_ps caps.

Record caps_typed (caps : TimingCapabilities) : Prop := mk_caps_typed {
  ct_de : u64 (device_early_ps caps); ct_dl : u64 (device_late_ps caps);
  ct_ae : u64 (application_early_ps caps); ct_al : u64 (application_late_ps caps);
  ct_lead : u64 (preparation_lead_ns caps); ct_horizon : u64 (horizon_ns caps)
}.

Definition boundary_typed (b : Boundary) : Prop :=
  time_typed (b_time b) /\ u64 (b_quantization_uncertainty_ps b).

(** A boundary the request may be executed at: not yet used, of the mapping in force,
    not before the backend can be ready and, for a timed request, within the horizon
    and with its whole uncertainty inside the request's window. *)
Record eligible (mode : Z) (requested : ProtocolTime) (clock : ClockSnapshot) (caps : TimingCapabilities)
    (b : Boundary) : Prop := mk_eligible {
  el_valid : valid (b_time b) = true;
  el_free : b_committed b = false;
  el_backend : b_backend_ready b = true;
  el_mapping : b_mapping_generation b = snap_mapping_generation clock;
  el_ready : ps_of (snap_time clock) + (if nonzero mode then preparation_lead_ns caps else 0) * 1000 <= ps_of (b_time b);
  el_timed : mode <> 0 ->
    let u := snap_uncertainty_ps clock + b_quantization_uncertainty_ps b in
    ps_of (b_time b) <= ps_of (snap_time clock) + horizon_ns caps * 1000 /\
    ps_of requested - early_margin mode caps <= ps_of (b_time b) - u /\
    ps_of (b_time b) + u <= ps_of requested + late_margin mode caps
}.

(** The order of preference: closest to the requested time, then earliest; without a
    requested time, earliest. *)
Definition preferred (mode : Z) (requested : ProtocolTime) (b b' : Boundary) : Prop :=
  if mode =? 0 then ps_of (b_time b) <= ps_of (b_time b') else
  Z.abs (ps_of (b_time b) - ps_of requested) < Z.abs (ps_of (b_time b') - ps_of requested) \/
  (Z.abs (ps_of (b_time b) - ps_of requested) = Z.abs (ps_of (b_time b') - ps_of requested) /\
   ps_of (b_time b) <= ps_of (b_time b')).

Lemma preferred_refl mode requested b : preferred mode requested b b.
Proof. unfold preferred. destruct (mode =? 0); [done|by right]. Qed.
Lemma preferred_trans mode requested a b c :
  preferred mode requested a b -> preferred mode requested b c -> preferred mode requested a c.
Proof. unfold preferred. destruct (mode =? 0); lia. Qed.

(** ** The window *)

Lemma execution_window_Ok mode requested caps w :
  caps_typed caps -> time_typed requested -> execution_window mode requested caps = Ok w ->
  time_ok requested /\ time_ok (earliest w) /\ time_ok (latest w) /\
  ps_of (earliest w) = ps_of requested - early_margin mode caps /\
  ps_of (latest w) = ps_of requested + late_margin mode caps.
Proof.
  intros [] Ht. unfold execution_window. destruct (_ || negb (valid requested)) eqn:E; [done|].
  apply orb_false_iff in E as [_ Hv%negb_false_iff]. pose proof (valid_time_ok _ Ht Hv) as Hok.
  intros H. apply rbind_Ok in H as ([early late] & Hm & H).
  assert (u64 early /\ u64 late /\ early = early_margin mode caps /\ late = late_margin mode caps) as (He & Hl & -> & ->).
  { revert Hm. unfold early_margin, late_margin.
    destruct (Z.eqb_spec mode 2) as [->|]; [|destruct (Z.eqb_spec mode 3) as [->|];
      [|destruct (Z.eqb_spec mode 4) as [->|]]]; cbn [Z.eqb Pos.eqb].
    - destruct (Z.ltb_spec (U64_MAX - device_late_ps caps) (application_late_ps caps)); [done|].
      rewrite wrap64_small by zlia. intros [= <- <-]. split_and!; (done || zlia).
    - destruct (Z.ltb_spec (U64_MAX - device_early_ps caps) (application_early_ps caps)); [done|].
      rewrite wrap64_small by zlia. intros [= <- <-]. split_and!; (done || zlia).
    - by intros [= <- <-].
    - by intros [= <- <-]. }
  destruct (from_picoseconds_ok _ He) as [Hd1 E1], (from_picoseconds_ok _ Hl) as [Hd2 E2].
  inv_ok. apply subtract_Ok in H0 as [? Es]; [|done..]. apply add_Ok in H1 as [? Ea]; [|done..].
  cbn [earliest latest]. split_and!; try done; lia.
Qed.

Lemma execution_window_error mode requested caps :
  caps_typed caps -> time_typed requested ->
  match execution_window mode requested caps with
  | Ok _ => True
  | Err e => e <> error1 ErrorCode.invalid_state
  | UB => False
  end.
Proof.
  intros [] Ht. unfold execution_window. destruct (_ || negb (valid requested)) eqn:E; [done|].
  apply orb_false_iff in E as [_ Hv%negb_false_iff]. pose proof (valid_time_ok _ Ht Hv) as Hok.
  assert (Hin : forall early late, u64 early -> u64 late ->
    match (let? first := subtract requested (from_picoseconds early) in
           let? last := add requested (from_picoseconds late) in Ok (mkWindow first last)) with
    | Ok _ => True | Err e => e <> error1 ErrorCode.invalid_state | UB => False end).
  { intros early late He Hl.
    destruct (from_picoseconds_ok _ He) as [Hd1 _], (from_picoseconds_ok _ Hl) as [Hd2 _].
    pose proof (subtract_spec _ _ Hok Hd1) as Hs. destruct (_ <=? _); [destruct Hs as (? & -> & _)|by rewrite Hs].
    pose proof (add_spec _ _ Hok Hd2) as Ha. cbn [rbind]. destruct (_ <? _); [by destruct Ha as (? & -> & _)|by rewrite Ha]. }
  destruct (mode =? 2); [destruct (_ <? _) eqn:El; [done|apply Z.ltb_ge in El; rewrite wrap64_small by zlia; apply Hin; zlia]|].
  destruct (mode =? 3); [destruct (_ <? _) eqn:El; [done|apply Z.ltb_ge in El; rewrite wrap64_small by zlia; apply Hin; zlia]|].
  destruct (mode =? 4); by apply Hin.
Qed.

(** ** The loop *)

Section loop.
Context (mode : Z) (requested : ProtocolTime) (clock : ClockSnapshot) (caps : TimingCapabilities).
Context (ready horizon : ProtocolTime) (window : option ExecutionWindow).
Context (Hunc : u64 (snap_uncertainty_ps clock)).
Context (Hready : time_ok ready /\
  ps_of ready = ps_of (snap_time clock) + (if nonzero mode then preparation_lead_ns caps else 0) * 1000).
Context (Hhorizon : mode <> 0 ->
  time_ok horizon /\ ps_of horizon = ps_of (snap_time clock) + horizon_ns caps * 1000).
Context (Hwindow : mode <> 0 -> exists w, window = Some w /\
  time_ok requested /\ time_ok (earliest w) /\ time_ok (latest w) /\
  ps_of (earliest w) = ps_of requested - early_margin mode caps /\
  ps_of (latest w) = ps_of requested + late_margin mode caps).

Abbreviation eligible := (eligible mode requested clock caps).
Abbreviation preferred := (preferred mode requested).

Lemma nonzero_spec x : nonzero x = true <-> x <> 0.
Proof. unfold nonzero. by rewrite negb_true_iff, Z.eqb_neq. Qed.

Lemma skip_boundary_spec b : boundary_typed b ->
  if skip_boundary mode clock ready horizon b then ~ eligible b
  else time_ok (b_time b) /\
       (mode = 0 -> eligible b) /\
       (mode <> 0 ->
          let u := snap_uncertainty_ps clock + b_quantization_uncertainty_ps b in
          ps_of requested - early_margin mode caps <= ps_of (b_time b) - u /\
          ps_of (b_time b) + u <= ps_of requested + late_margin mode caps -> eligible b).
Proof.
  intros [Ht Hq]. unfold skip_boundary.
  destruct (valid (b_time b)) eqn:Hv; [|intros []; congruence].
  pose proof (valid_time_ok _ Ht Hv) as Hok. destruct Hready as [Hrok Er].
  destruct (b_committed b) eqn:Hc; [intros []; congruence|].
  destruct (b_backend_ready b) eqn:Hb; [|intros []; congruence].
  destruct (Z.eqb_spec (b_mapping_generation b) (snap_mapping_generation clock)); [|by intros []].
  cbn [negb orb]. rewrite time_ltb_spec by done.
  destruct (Z.ltb_spec (ps_of (b_time b)) (ps_of ready)); cbn [orb].
  { intros [_ _ _ _ He _]. lia. }
  destruct (nonzero mode) eqn:Hm; cbn [andb].
  - apply nonzero_spec in Hm. destruct (Hhorizon Hm) as [Hhok Eh]. rewrite time_ltb_spec by done.
    destruct (Z.ltb_spec (ps_of horizon) (ps_of (b_time b))).
    { intros [_ _ _ _ _ He]. specialize (He Hm). cbn zeta in He. lia. }
    split_and!; try done. intros _ [? ?]. split; try done; [|intros _; cbn zeta; lia].
    rewrite (proj2 (nonzero_spec mode) Hm). lia.
  - assert (mode = 0) by (destruct (Z.eq_dec mode 0) as [|Hn]; [done|apply nonzero_spec in Hn; congruence]).
    split_and!; try done. intros _. split; try done. by rewrite Hm, <- Er.
Qed.

(** What [selected] and [distance] stand for after the boundaries [seen]. *)
Definition best_of (seen : list Boundary) (selected : option Boundary) (distance : Duration) : Prop :=
  match selected with
  | None => forall b, b ∈ seen -> ~ eligible b
  | Some s => s ∈ seen /\ eligible s /\ time_ok (b_time s) /\ (forall b, b ∈ seen -> eligible b -> preferred s b) /\
      (mode <> 0 -> duration_ok distance /\ ps_of_duration distance = Z.abs (ps_of (b_time s) - ps_of requested))
  end.

Lemma best_of_skip seen b selected distance :
  best_of seen selected distance -> ~ eligible b -> best_of (seen ++ [b]) selected distance.
Proof.
  unfold best_of. destruct selected as [s|].
  - intros (? & ? & ? & Hb & ?) Hn. split_and!; try done; [apply elem_of_app; by left|].
    intros b' [?|E]%elem_of_app; [by apply Hb|]. apply list_elem_of_singleton in E. by subst.
  - intros Hb Hn b' [?|E]%elem_of_app; [by apply Hb|]. apply list_elem_of_singleton in E. by subst.
Qed.

Lemma best_of_take seen b selected distance d :
  best_of seen selected distance -> eligible b -> time_ok (b_time b) ->
  (mode <> 0 -> duration_ok d /\ ps_of_duration d = Z.abs (ps_of (b_time b) - ps_of requested)) ->
  (forall s, selected = Some s -> preferred b s) ->
  best_of (seen ++ [b]) (Some b) d.
Proof.
  intros Hbest He Hok Hd Hp. unfold best_of in *. split_and!; try done; [apply elem_of_app; right; by apply list_elem_of_singleton|].
  intros b' [Hin|E]%elem_of_app He'; [|apply list_elem_of_singleton in E; subst; apply preferred_refl].
  destruct selected as [s|]; [|by destruct (Hbest b' Hin)].
  destruct Hbest as (_ & _ & _ & Hb & _). eapply preferred_trans; [by apply Hp|by apply Hb].
Qed.

Lemma best_of_keep seen b s distance :
  best_of seen (Some s) distance -> preferred s b -> best_of (seen ++ [b]) (Some s) distance.
Proof.
  intros (? & ? & ? & Hb & ?) Hp. unfold best_of. split_and!; try done; [apply elem_of_app; by left|].
  intros b' [?|E]%elem_of_app ?; [by apply Hb|]. apply list_elem_of_singleton in E. by subst.
Qed.

Lemma preferred_timed x y : mode <> 0 ->
  Z.abs (ps_of (b_time x) - ps_of requested) < Z.abs (ps_of (b_time y) - ps_of requested) \/
  (Z.abs (ps_of (b_time x) - ps_of requested) = Z.abs (ps_of (b_time y) - ps_of requested) /\
   ps_of (b_time x) <= ps_of (b_time y)) -> preferred x y.
Proof. intros Hm. unfold Scheduling.preferred. by rewrite (proj2 (Z.eqb_neq mode 0)). Qed.

Lemma preferred_untimed x y : mode = 0 -> ps_of (b_time x) <= ps_of (b_time y) -> preferred x y.
Proof. intros H. unfold Scheduling.preferred. by rewrite H. Qed.

Lemma fits_window_spec b :
  mode <> 0 -> time_ok (b_time b) ->
  let u := snap_uncertainty_ps clock + b_quantization_uncertainty_ps b in
  0 <= u <= U64_MAX ->
  exists fits, fits_window window b u = Ok fits /\
    (fits = true <->
     ps_of requested - early_margin mode caps <= ps_of (b_time b) - u /\
     ps_of (b_time b) + u <= ps_of requested + late_margin mode caps).
Proof.
  intros Hm Hok u Hu. destruct (Hwindow Hm) as (w & -> & Hreq & Hwe & Hwl & Ee & El).
  destruct (from_picoseconds_ok u Hu) as [Hdu Edu].
  pose proof (time_ok_range _ Hwe) as Hre. pose proof (time_ok_range _ Hwl) as Hrl.
  unfold fits_window. pose proof (subtract_spec _ _ Hok Hdu) as Hs. rewrite Edu in Hs.
  pose proof (add_spec _ _ Hok Hdu) as Ha. rewrite Edu in Ha.
  destruct (Z.leb_spec u (ps_of (b_time b))); [|rewrite Hs; exists false; split; [done|split; [done|lia]]].
  destruct Hs as (f & -> & Hf & Ef).
  destruct (Z.ltb_spec (ps_of (b_time b) + u) TIME_END); [|rewrite Ha; exists false; split; [done|split; [done|lia]]].
  destruct Ha as (l & -> & Hl & Ea). cbn [deref rbind]. rewrite !time_ltb_spec by done. eexists. split; [done|].
  rewrite negb_true_iff, orb_false_iff, !Z.ltb_ge. lia.
Qed.

Lemma choose_loop_spec bs seen selected distance :
  Forall boundary_typed bs -> best_of seen selected distance ->
  match choose_loop mode requested clock ready horizon window bs selected distance with
  | Ok r => exists d, best_of (seen ++ bs) r d
  | Err e => e = error1 ErrorCode.overflow /\
      exists b, b ∈ bs /\ U64_MAX < snap_uncertainty_ps clock + b_quantization_uncertainty_ps b
  | UB => False
  end.
Proof.
  intros HF. revert seen selected distance.
  induction HF as [|b bs Hb HF IH]; intros seen selected distance Hbest; [rewrite app_nil_r; by eexists|].
  (* Every path through the body either stops with the overflow or goes on with an
     invariant that covers [b]. *)
  assert (Hgo : forall sel d, best_of (seen ++ [b]) sel d ->
    match choose_loop mode requested clock ready horizon window bs sel d with
    | Ok r => exists d, best_of (seen ++ b :: bs) r d
    | Err e => e = error1 ErrorCode.overflow /\
        exists b', b' ∈ b :: bs /\ U64_MAX < snap_uncertainty_ps clock + b_quantization_uncertainty_ps b'
    | UB => False
    end).
  { intros sel d Hs. specialize (IH _ _ _ Hs). destruct (choose_loop _ _ _ _ _ _ bs sel d); [|destruct IH as (-> & b' & ? & ?)|done].
    - by rewrite <- app_assoc in IH.
    - split; [done|]. exists b'. split; [by right|done]. }
  cbn [choose_loop]. pose proof (skip_boundary_spec b Hb) as Hskip.
  destruct (skip_boundary mode clock ready horizon b); [by apply Hgo, best_of_skip|].
  destruct Hskip as (Hok & He0 & He). destruct (nonzero mode) eqn:Hm.
  - apply nonzero_spec in Hm. clear He0. specialize (He Hm).
    destruct (Z.ltb_spec (U64_MAX - snap_uncertainty_ps clock) (b_quantization_uncertainty_ps b)) as [Hov|Hfit].
    { split; [done|]. exists b. split; [by left|lia]. }
    destruct Hb as [_ Hq]. rewrite wrap64_small by zlia.
    destruct (fits_window_spec b Hm Hok ltac:(zlia)) as (fits & -> & Hfits). cbn [rbind].
    destruct fits; cbn [negb]; [|apply Hgo, best_of_skip; [done|]].
    2:{ intros [_ _ _ _ _ Ht]. specialize (Ht Hm) as [_ Ht]. by apply Hfits in Ht. }
    specialize (He ltac:(by apply Hfits)). destruct (Hwindow Hm) as (w & _ & Hreq & _).
    destruct (distance_Ok (b_time b) requested Hok Hreq) as (d & -> & Hd & Ed).
    cbn [rbind]. destruct selected as [s|]; [|by apply Hgo, (best_of_take _ _ None distance)].
    pose proof Hbest as (_ & _ & Hsok & _ & Hsd). destruct (Hsd Hm) as [Hdist Edist].
    rewrite duration_ltb_spec, duration_eqb_spec, time_ltb_spec by done. destruct (_ || _) eqn:E.
    + apply Hgo, (best_of_take _ _ (Some s) distance); try done. intros s' [= <-]. apply preferred_timed; [done|].
      apply orb_true_iff in E as [E%Z.ltb_lt|[E1%Z.eqb_eq E2%Z.ltb_lt]%andb_true_iff]; lia.
    + apply Hgo, best_of_keep; [done|]. apply preferred_timed; [done|].
      apply orb_false_iff in E as [E1%Z.ltb_ge E2]. apply andb_false_iff in E2 as [E2%Z.eqb_neq|E2%Z.ltb_ge]; lia.
  - assert (Hm0 : mode = 0) by (destruct (Z.eq_dec mode 0) as [|Hn]; [done|apply nonzero_spec in Hn; congruence]).
    specialize (He0 Hm0). destruct selected as [s|]; [|by apply Hgo, (best_of_take _ _ None distance)].
    pose proof Hbest as (_ & _ & Hsok & _). rewrite time_ltb_spec by done.
    destruct (Z.ltb_spec (ps_of (b_time b)) (ps_of (b_time s))).
    + apply Hgo, (best_of_take _ _ (Some s) distance); try done. intros s' [= <-]. apply preferred_untimed; [done|lia].
    + apply Hgo, best_of_keep; [done|]. apply preferred_untimed; [done|lia].
Qed.
End loop.

Record snapshot_typed (clock : ClockSnapshot) : Prop := mk_snapshot_typed {
  st_time : time_typed (snap_time clock);
  st_uncertainty : u64 (snap_uncertainty_ps clock)
}.

(** The requests [choose_boundary] refuses before looking at any boundary. *)
Definition unscheduled (mode : Z) (clock : ClockSnapshot) (caps : TimingCapabilities) : Prop :=
  mode <> 0 /\ ((caps_qualified caps = false /\ caps_injected caps = false) \/
    (snap_state clock <> ClockState.locked /\ snap_state clock <> ClockState.holdover)).

(** ** Properties *)

(** [choose_boundary] is optimal and complete: a boundary it returns is one of those
    offered, is eligible (free, of the current mapping, after the preparation lead and,
    for a timed request, within the horizon and with its whole uncertainty inside the
    mode's window) and no eligible boundary is preferred to it; and it reports an
    invalid state only when the clock or the capabilities do not allow timed execution
    or when no boundary is eligible. *)
Theorem choose_boundary_optimal mode requested clock boundaries caps :
  caps_typed caps -> time_typed requested -> snapshot_typed clock -> Forall boundary_typed boundaries ->
  match choose_boundary mode requested clock boundaries caps with
  | Ok b => b ∈ boundaries /\ eligible mode requested clock caps b /\
      (forall b', b' ∈ boundaries -> eligible mode requested clock caps b' -> preferred mode requested b b')
  | Err e => e = error1 ErrorCode.invalid_state ->
      unscheduled mode clock caps \/
      (forall b, b ∈ boundaries -> ~ eligible mode requested clock caps b)
  | UB => False
  end.
Proof.
  intros Hcaps Hreq [Hct Hcu] HF. unfold choose_boundary.
  test_goal E1; [done|]. test_goal E2; [done|]. test_goal E3.
  { intros _. left. apply andb_true_iff in E3 as [Hm E3]. split; [by apply nonzero_spec|].
    apply orb_true_iff in E3 as [[?%negb_true_iff ?%negb_true_iff]%andb_true_iff|[H1 H2]%andb_true_iff]; [by left|right].
    by rewrite negb_true_iff, bool_decide_eq_false in H1, H2. }
  apply orb_false_iff in E1 as [_ Hv%negb_false_iff]. pose proof (valid_time_ok _ Hct Hv) as Hcok.
  assert (Hlead : u64 (if nonzero mode then preparation_lead_ns caps else 0)) by (destruct (nonzero mode), Hcaps; (done || zlia)).
  destruct (from_nanoseconds_ok _ Hlead) as [Hd1 Ed1].
  pose proof (add_cases _ _ Hcok Hd1) as Hr. rewrite Ed1 in Hr.
  destruct (add (snap_time clock) _) as [ready|e|]; cbn [rbind]; [destruct Hr as [Hrok Er]|by subst e|done].
  assert (Hhor : match (if nonzero mode then add (snap_time clock) (from_nanoseconds (horizon_ns caps)) else Ok (snap_time clock)) with
    | Ok h => mode <> 0 -> time_ok h /\ ps_of h = ps_of (snap_time clock) + horizon_ns caps * 1000
    | Err e => e = error1 ErrorCode.overflow | UB => False end).
  { destruct (nonzero mode) eqn:Hm; [|intros Hn%nonzero_spec; congruence].
    destruct (from_nanoseconds_ok (horizon_ns caps)) as [Hd2 Ed2]; [by destruct Hcaps|].
    pose proof (add_cases _ _ Hcok Hd2) as Ha. rewrite Ed2 in Ha. by destruct (add _ _). }
  destruct (if nonzero mode then add _ _ else _) as [horizon|e|]; cbn [rbind]; [|by subst e|done].
  test_goal E4; [done|].
  assert (Hwin : match (if nonzero mode then let? w := execution_window mode requested caps in Ok (Some w) else Ok None) with
    | Ok window => mode <> 0 -> exists w, window = Some w /\
        time_ok requested /\ time_ok (earliest w) /\ time_ok (latest w) /\
        ps_of (earliest w) = ps_of requested - early_margin mode caps /\
        ps_of (latest w) = ps_of requested + late_margin mode caps
    | Err e => e <> error1 ErrorCode.invalid_state | UB => False end).
  { destruct (nonzero mode) eqn:Hm; [|intros Hn%nonzero_spec; congruence].
    pose proof (execution_window_error mode requested caps Hcaps Hreq) as He.
    destruct (execution_window mode requested caps) as [w|e|] eqn:Ew; cbn [rbind]; [|done|done].
    intros _. exists w. split; [done|]. by apply execution_window_Ok. }
  destruct (if nonzero mode then rbind _ _ else _) as [window|e|]; cbn [rbind]; [|done|done].
  pose proof (choose_loop_spec mode requested clock caps ready horizon window Hcu (conj Hrok Er) Hhor Hwin
    boundaries [] None (mkDuration 0 0) HF) as H.
  specialize (H ltac:(intros b Hb; by apply not_elem_of_nil in Hb)).
  destruct (choose_loop _ _ _ _ _ _ _ _ _) as [[b|]|e|]; cbn [rbind]; [| |by destruct H as [-> _]|done].
  - destruct H as (d & ? & ? & _ & ? & _). done.
  - destruct H as [d ?]. intros _. by right.
Qed.

(** The window of a timed request is exactly the requested time widened by the
    margins its mode selects, and an effect interval is allowed exactly when it lies
    inside that window (always for an untimed request). *)
Theorem effect_interval_exact mode requested first last caps b :
  caps_typed caps -> time_typed requested -> time_typed first -> time_typed last ->
  effect_interval_allowed mode requested first last caps = Ok b ->
  (b = true <-> mode = 0 \/
     (ps_of requested - early_margin mode caps <= ps_of first /\
      ps_of last <= ps_of requested + late_margin mode caps)).
Proof.
  intros Hcaps Hreq Hf Hl. unfold effect_interval_allowed. test_goal E; [done|].
  apply orb_false_iff in E as [[[_ Hvf%negb_false_iff]%orb_false_iff Hvl%negb_false_iff]%orb_false_iff _].
  pose proof (valid_time_ok _ Hf Hvf) as Hfo. pose proof (valid_time_ok _ Hl Hvl) as Hlo.
  destruct (Z.eqb_spec mode 0) as [->|Hm]; [intros [= <-]; split; [by left|done]|].
  destruct (execution_window mode requested caps) as [w| |] eqn:Ew; [|done|done]. cbn [rbind]. intros [= <-].
  destruct (execution_window_Ok _ _ _ _ Hcaps Hreq Ew) as (_ & Hwe & Hwl & Ee & El).
  unfold time_geb. rewrite !time_ltb_spec, andb_true_iff, !negb_true_iff, !Z.ltb_ge by done. lia.
Qed.

(** ** Witnesses *)

Definition sample_snapshot : ClockSnapshot :=
  mkSnapshot ClockState.locked (mkTime 100 0) 1000 4 true false Epoch.gps.
Definition sample_boundaries : list Boundary :=
  [mkBoundary (mkTime 100 500000000000) 10 4 false true 0;
   mkBoundary (mkTime 100 500000400000) 11 4 false true 1;
   mkBoundary (mkTime 100 500000300000) 12 3 false true 0].

Lemma sample_boundaries_typed : Forall boundary_typed sample_boundaries.
Proof. repeat (apply List.Forall_cons; [split; [split|]; cbn; zlia|]). apply List.Forall_nil. Qed.
Lemma deterministic_typed : caps_typed deterministic.
Proof. split; cbn; zlia. Qed.

Lemma choose_boundary_optimal_witness :
  exists b, choose_boundary 1 (mkTime 100 500000300000) sample_snapshot sample_boundaries deterministic = Ok b /\
    b_sample_ordinal b = 11 /\ eligible 1 (mkTime 100 500000300000) sample_snapshot deterministic b.
Proof.
  pose proof (choose_boundary_optimal 1 (mkTime 100 500000300000) sample_snapshot sample_boundaries deterministic
    deterministic_typed ltac:(split; cbn; zlia) ltac:(split; [split|]; cbn; zlia) sample_boundaries_typed) as H.
  destruct (choose_boundary 1 (mkTime 100 500000300000) sample_snapshot sample_boundaries deterministic)
    as [b| |] eqn:E; try (vm_compute in E; discriminate E).
  exists b. split; [reflexivity|]. split; [vm_compute in E; injection E as <-; reflexivity|exact (proj1 (proj2 H))].
Defined.

Lemma effect_interval_exact_witness :
  effect_interval_allowed 1 (mkTime 100 0) (mkTime 99 999999500000) (mkTime 100 400000) deterministic = Ok true /\
  ps_of (mkTime 100 0) - early_margin 1 deterministic <= ps_of (mkTime 99 999999500000).
Proof.
  assert (E : effect_interval_allowed 1 (mkTime 100 0) (mkTime 99 999999500000) (mkTime 100 400000) deterministic = Ok true)
    by (vm_compute; reflexivity).
  split; [exact E|].
  destruct (effect_interval_exact 1 (mkTime 100 0) (mkTime 99 999999500000) (mkTime 100 400000) deterministic true
    deterministic_typed ltac:(split; cbn; zlia) ltac:(split; cbn; zlia) ltac:(split; cbn; zlia) E) as [H _].
  destruct (H eq_refl) as [H'|[H' _]]; [discriminate H'|exact H'].
Defined.
