(* ===== verification/Pool.v ===== *)
(** * Buffer pools: [include/vita/memory/pool.hpp]

    An [ExternalPool] is a fixed array of reference-counted blocks over memory the
    application supplies; a [BufferLease] is one counted reference.  Pointers are
    addresses, 0 the null pointer; a span is an address and a length.  Each critical
    section of the pool's mutex is one atomic operation here: [reset] is
    [release_begin], the unlocked reclamation hook and [release_finish], so that
    steps of other threads can come in between ([pool_step]). *)

From stdpp Require Import relations.
From S2P Require Import Prelude Time.

Module MemoryDomain.
Inductive t := cpu | device.
#[global] Instance t_eq_dec : EqDecision t.
Proof. solve_decision. Defined.
End MemoryDomain.

(** [lifetime] is the owner the shared pointer refers to, if any; [on_return] the
    function pointer of the hook. *)
Record BufferSpec := mkSpec {
  s_lifetime : option Z; s_cpu_address : Z;
  s_block_size : Z; s_block_count : Z; s_alignment : Z;
  s_domain : MemoryDomain.t; s_device_address : Z;
  s_on_return : option Z; s_callback_context : Z
}.
Record BufferRequest := mkRequest {
  rq_capacity : Z; rq_alignment : Z; rq_domain : MemoryDomain.t; rq_cpu_access : bool
}.
Record Block := mkBlock {
  lifetime : option Z; address : Z; capacity : Z; alignment : Z; references : Z;
  domain : MemoryDomain.t; device_address : Z; on_return : option Z; context : Z
}.
(** [hooks] lists the calls of reclamation hooks (function, context, index) so far. *)
Record PoolState := mkPool { blocks : list Block; returns : Z; hooks : list (Z * Z * nat) }.

Record Span := mkSpan { sp_address : Z; sp_length : Z }.

Definition power_of_two (v : Z) : bool := nonzero v && negb (nonzero (Z.land v (v - 1))).

Definition set_references (b : Block) (r : Z) : Block :=
  mkBlock (lifetime b) (address b) (capacity b) (alignment b) r (domain b) (device_address b)
    (on_return b) (context b).
Definition set_block (p : PoolState) (i : nat) (b : Block) : PoolState :=
  mkPool (<[i:=b]> (blocks p)) (returns p) (hooks p).

(** ** Creation *)

Section create.
(** [sizeof(detail::Block)], a positive constant of the platform. *)
Context (sizeof_Block : Z).

Definition check_spec (s : BufferSpec) (count : Z) : Result Z :=
  fail_if is_none (s_lifetime s) || negb (nonzero (s_block_size s)) || negb (nonzero (s_block_count s)) ||
      negb (power_of_two (s_alignment s)) || nonzero (s_block_size s mod s_alignment s) ||
      (bool_decide (s_domain s = MemoryDomain.cpu) && negb (nonzero (s_cpu_address s))) ||
      (nonzero (s_cpu_address s) && nonzero (s_cpu_address s mod s_alignment s))
    with error1 ErrorCode.invalid_argument ;;
  fail_if (SIZE_MAX / s_block_size s <? s_block_count s) || (SIZE_MAX - count <? s_block_count s)
    with error1 ErrorCode.overflow ;;
  let extent := wrap64 (s_block_count s * s_block_size s) in
  fail_if nonzero (s_device_address s) && (U64_MAX - s_device_address s <? extent)
    with error1 ErrorCode.overflow ;;
  Ok (wrap64 (count + s_block_count s)).

Fixpoint check_specs (specs : list BufferSpec) (count : Z) : Result Z :=
  match specs with
  | [] => Ok count
  | s :: specs => let? count := check_spec s count in check_specs specs count
  end.

Definition spec_block (s : BufferSpec) (i : nat) : Block :=
  mkBlock (s_lifetime s)
    (if nonzero (s_cpu_address s) then s_cpu_address s + Z.of_nat i * s_block_size s else 0)
    (s_block_size s) (s_alignment s) 0 (s_domain s)
    (if nonzero (s_device_address s) then wrap64 (s_device_address s + wrap64 (Z.of_nat i * s_block_size s)) else 0)
    (s_on_return s) (s_callback_context s).

Definition spec_blocks (s : BufferSpec) : list Block :=
  spec_block s <$> seq 0 (Z.to_nat (s_block_count s)).

Definition pool_create (specs : list BufferSpec) : Result PoolState :=
  let? count := check_specs specs 0 in
  fail_if negb (nonzero count) || (SIZE_MAX / sizeof_Block <? count) with error1 ErrorCode.invalid_argument ;;
  Ok (mkPool (concat (spec_blocks <$> specs)) 0 []).
End create.

(** ** Acquisition *)

Definition fits (r : BufferRequest) (b : Block) : bool :=
  (rq_capacity r <=? capacity b) && (rq_alignment r <=? alignment b) &&
  bool_decide (domain b = rq_domain r) && (negb (rq_cpu_access r) || nonzero (address b)).

(** The loop over the blocks from index [i]; [selected] is the count when nothing has
    been found. *)
Fixpoint select_loop (all rest : list Block) (r : BufferRequest) (i selected : nat) : nat :=
  match rest with
  | [] => selected
  | b :: rest =>
      let better := negb (nonzero (references b)) && fits r b &&
        ((selected =? length all)%nat ||
         match all !! selected with Some s => capacity b <? capacity s | None => false end) in
      select_loop all rest r (S i) (if better then i else selected)
  end.

(** The index of the block a lease now refers to, and the pool afterwards. *)
Definition pool_acquire (p : PoolState) (r : BufferRequest) : Result nat * PoolState :=
  if negb (nonzero (rq_capacity r)) || negb (power_of_two (rq_alignment r))
  then (Err (error1 ErrorCode.invalid_argument), p) else
  let selected := select_loop (blocks p) (blocks p) r 0 (length (blocks p)) in
  if (selected =? length (blocks p))%nat then (Err (error1 ErrorCode.capacity_exhausted), p) else
  match blocks p !! selected with
  | Some b => (Ok selected, set_block p selected (set_references b 1))
  | None => (UB, p)
  end.

Definition supports (p : PoolState) (r : BufferRequest) : bool :=
  if negb (nonzero (rq_capacity r)) || negb (power_of_two (rq_alignment r)) then false else
  existsb (fits r) (blocks p).

Fixpoint raw_bytes_loop (bs : list Block) (total : Z) : Result Z :=
  match bs with
  | [] => Ok total
  | b :: bs => fail_if SIZE_MAX - total <? capacity b with error1 ErrorCode.overflow ;;
               raw_bytes_loop bs (wrap64 (total + capacity b))
  end.
Definition raw_bytes (p : PoolState) : Result Z := raw_bytes_loop (blocks p) 0.

(** ** References *)

(** [share]: one more reference. *)
Definition pool_share (p : PoolState) (i : nat) : Result PoolState :=
  let? b := deref (blocks p !! i) in
  Ok (set_block p i (set_references b (wrap64 (references b + 1)))).

(** First critical section of [reset]: whether this was the last reference. *)
Definition release_begin (p : PoolState) (i : nat) : Result (bool * PoolState) :=
  let? b := deref (blocks p !! i) in
  let r := wrap64 (references b - 1) in
  if r =? 0 then Ok (true, set_block p i (set_references b SIZE_MAX))
  else Ok (false, set_block p i (set_references b r)).

(** The unlocked hook and the second critical section. *)
Definition release_finish (p : PoolState) (i : nat) : Result PoolState :=
  let? b := deref (blocks p !! i) in
  let called := match on_return b with Some f => [(f, context b, i)] | None => [] end in
  Ok (mkPool (<[i:=set_references b 0]> (blocks p)) (wrap64 (returns p + 1)) (hooks p ++ called)).

(** [reset] on one thread. *)
Definition pool_release (p : PoolState) (i : nat) : Result PoolState :=
  let? (last, p) := release_begin p i in
  if last then release_finish p i else Ok p.

(** ** Best fit *)

Definition available (r : BufferRequest) (b : Block) : Prop := references b = 0 /\ fits r b = true.

(** After the blocks below [i]: nothing available, or the smallest and first of them. *)
Definition best_below (all : list Block) (r : BufferRequest) (i selected : nat) : Prop :=
  (selected = length all /\ forall j c, (j < i)%nat -> all !! j = Some c -> ~ available r c) \/
  (exists b, all !! selected = Some b /\ available r b /\
     forall j c, (j < i)%nat -> all !! j = Some c -> available r c ->
       capacity b < capacity c \/ (capacity b = capacity c /\ (selected <= j)%nat)).

Lemma available_bool r b : negb (nonzero (references b)) && fits r b = true <-> available r b.
Proof. unfold available, nonzero. rewrite negb_involutive, andb_true_iff, Z.eqb_eq. done. Qed.

Lemma select_loop_best all r rest i selected :
  drop i all = rest -> (i <= length all)%nat -> best_below all r i selected ->
  (selected < i)%nat \/ selected = length all ->
  best_below all r (length all) (select_loop all rest r i selected).
Proof.
  revert i selected. induction rest as [|b rest IH]; intros i selected Hd Hi Hb Hs; cbn [select_loop].
  - apply (f_equal length) in Hd. rewrite length_drop in Hd. cbn [length] in Hd.
    assert (i = length all) as <- by lia. done.
  - assert (Hl : all !! i = Some b) by (rewrite <- (Nat.add_0_r i), <- lookup_drop, Hd; done).
    assert (Hi' : (i < length all)%nat) by (by eapply lookup_lt_Some).
    apply IH; [|lia| |].
    { rewrite <- Nat.add_1_r, <- drop_drop, Hd. done. }
    2:{ destruct (_ && _); lia. }
    destruct (negb (nonzero (references b)) && fits r b) eqn:Ha; cbn [andb].
    + apply available_bool in Ha. destruct Hb as [[-> Hb]|(s & Es & Has & Hb)].
      * rewrite Nat.eqb_refl. cbn [orb]. right. exists b. split_and!; [done|done|]. intros j c Hj Hc Hav.
        destruct (decide (j = i)) as [->|]; [right; split; [congruence|lia]|]. exfalso. apply (Hb j c); (done || lia).
      * assert (selected <> length all) as Hne%Nat.eqb_neq by (apply lookup_lt_Some in Es; lia).
        rewrite Hne, Es. cbn [orb]. destruct (Z.ltb_spec (capacity b) (capacity s)).
        -- right. exists b. split_and!; [done|done|]. intros j c Hj Hc Hav.
           destruct (decide (j = i)) as [->|]; [right; split; [congruence|lia]|].
           destruct (Hb j c); (done || lia).
        -- right. exists s. split_and!; [done|done|]. intros j c Hj Hc Hav.
           destruct (decide (j = i)) as [->|]; [|apply (Hb j c); (done || lia)].
           replace c with b in * by congruence. apply lookup_lt_Some in Es. lia.
    + destruct Hb as [[-> Hb]|(s & Es & Has & Hb)].
      * left. split; [done|]. intros j c Hj Hc Hav. destruct (decide (j = i)) as [->|].
        -- replace c with b in * by congruence. apply available_bool in Hav. congruence.
        -- apply (Hb j c); (done || lia).
      * right. exists s. split_and!; [done|done|]. intros j c Hj Hc Hav. destruct (decide (j = i)) as [->|].
        -- replace c with b in * by congruence. apply available_bool in Hav. congruence.
        -- apply (Hb j c); (done || lia).
Qed.

Lemma pool_acquire_cases p r :
  match pool_acquire p r with
  | (Ok i, p') => exists b, blocks p !! i = Some b /\ available r b /\
      p' = set_block p i (set_references b 1) /\
      (forall j c, blocks p !! j = Some c -> available r c ->
         capacity b < capacity c \/ (capacity b = capacity c /\ (i <= j)%nat))
  | (Err e, p') => p' = p /\
      (e = error1 ErrorCode.capacity_exhausted -> forall j c, blocks p !! j = Some c -> ~ available r c)
  | (UB, _) => False
  end.
Proof.
  unfold pool_acquire. test_goal E; [done|].
  pose proof (select_loop_best (blocks p) r (blocks p) 0 (length (blocks p)) eq_refl ltac:(lia)) as H.
  specialize (H ltac:(left; split; [done|intros; lia]) ltac:(by right)).
  destruct H as [[-> H]|(b & Eb & Hav & H)].
  - rewrite Nat.eqb_refl. split; [done|]. intros _ j c Hc. apply (H j c); [by eapply lookup_lt_Some|done].
  - assert (select_loop (blocks p) (blocks p) r 0 (length (blocks p)) <> length (blocks p)) as Hne%Nat.eqb_neq
      by (apply lookup_lt_Some in Eb; lia).
    rewrite Hne, Eb. exists b. split_and!; try done. intros j c Hc. apply (H j c); [by eapply lookup_lt_Some|done].
Qed.

(** ** Ownership *)

(** The pool with the leases that exist and the blocks whose reclamation hook is
    running; both lists hold block indices. *)
Record PoolSystem := mkSystem { pool : PoolState; leases : list nat; reclaiming : list nat }.

Definition occurrences (i : nat) (l : list nat) : nat := count_if (Nat.eqb i) l.

(** One critical section of some thread.  A lease is used only by its holder, and the
    leases that exist fit in memory. *)
Inductive pool_step : relation PoolSystem :=
  | step_acquire p ls rc r i p' :
      pool_acquire p r = (Ok i, p') -> zlen (i :: ls) < SIZE_MAX ->
      pool_step (mkSystem p ls rc) (mkSystem p' (i :: ls) rc)
  | step_share p ls rc k i p' :
      ls !! k = Some i -> pool_share p i = Ok p' -> zlen (i :: ls) < SIZE_MAX ->
      pool_step (mkSystem p ls rc) (mkSystem p' (i :: ls) rc)
  | step_release p ls rc k i last p' :
      ls !! k = Some i -> release_begin p i = Ok (last, p') ->
      pool_step (mkSystem p ls rc) (mkSystem p' (delete k ls) (if last then i :: rc else rc))
  | step_finish p ls rc k i p' :
      rc !! k = Some i -> release_finish p i = Ok p' ->
      pool_step (mkSystem p ls rc) (mkSystem p' ls (delete k rc)).

(** The reference count of a block is the number of its leases, or the reserved value
    while its hook runs, and then it has no lease. *)
Definition block_accounted (s : PoolSystem) (i : nat) (b : Block) : Prop :=
  (occurrences i (reclaiming s) = 0%nat /\ references b = Z.of_nat (occurrences i (leases s))) \/
  (occurrences i (reclaiming s) = 1%nat /\ occurrences i (leases s) = 0%nat /\ references b = SIZE_MAX).

Record system_wf (s : PoolSystem) : Prop := mk_system_wf {
  wf_accounted : forall i b, blocks (pool s) !! i = Some b -> block_accounted s i b;
  wf_leases : Forall (fun i => (i < length (blocks (pool s)))%nat) (leases s);
  wf_reclaiming : Forall (fun i => (i < length (blocks (pool s)))%nat) (reclaiming s);
  wf_count : zlen (leases s) < SIZE_MAX
}.

Lemma occurrences_cons i j l : occurrences i (j :: l) = ((if (i =? j)%nat then 1 else 0) + occurrences i l)%nat.
Proof. unfold occurrences, count_if. simpl. by destruct (i =? j)%nat. Qed.

Lemma occurrences_delete i j k l :
  l !! k = Some j -> (occurrences i (delete k l) + (if (i =? j)%nat then 1 else 0))%nat = occurrences i l.
Proof.
  revert k. induction l as [|x l IH]; intros [|k] Hk; simplify_eq/=.
  - rewrite occurrences_cons. lia.
  - rewrite !occurrences_cons, <- (IH k Hk). lia.
Qed.

Lemma occurrences_le i l : (occurrences i l <= length l)%nat.
Proof. apply List.filter_length_le. Qed.

Lemma occurrences_pos i l k : l !! k = Some i -> (1 <= occurrences i l)%nat.
Proof. intros Hk. pose proof (occurrences_delete i i k l Hk) as H. rewrite Nat.eqb_refl in H. lia. Qed.

Lemma Forall_delete_list {A} (P : A -> Prop) l k : Forall P l -> Forall P (delete k l).
Proof. revert k. induction l as [|x l IH]; intros [|k] H; inversion H; subst; simpl; auto. Qed.

(** Changing one block keeps the others accounted if their counts do not change. *)
Lemma block_update_wf p ls rc i b b' ls' rc' rt hk :
  system_wf (mkSystem p ls rc) -> blocks p !! i = Some b ->
  (forall j, j <> i -> occurrences j ls' = occurrences j ls /\ occurrences j rc' = occurrences j rc) ->
  block_accounted (mkSystem p ls' rc') i b' ->
  Forall (fun j => (j < length (blocks p))%nat) ls' -> Forall (fun j => (j < length (blocks p))%nat) rc' ->
  zlen ls' < SIZE_MAX ->
  system_wf (mkSystem (mkPool (<[i:=b']> (blocks p)) rt hk) ls' rc').
Proof.
  intros [Ha _ _ _] Hb Hsame Hi Hl Hr Hc. split; cbn [pool blocks leases reclaiming]; [|by rewrite length_insert..|done].
  intros j c Hj. destruct (decide (j = i)) as [->|Hne].
  - rewrite list_lookup_insert_eq in Hj by (by eapply lookup_lt_Some). injection Hj as <-. exact Hi.
  - rewrite list_lookup_insert_ne in Hj by done. destruct (Hsame j Hne) as [E1 E2].
    specialize (Ha j c Hj). unfold block_accounted in *. cbn [leases reclaiming] in *. by rewrite E1, E2.
Qed.

Lemma pool_step_wf s s' : system_wf s -> pool_step s s' -> system_wf s'.
Proof.
  intros Hwf Hs. pose proof Hwf as [Ha Hl Hr Hc].
  destruct Hs as [p ls rc r i p' E Hb|p ls rc k i p' Hk E Hb|p ls rc k i last p' Hk E|p ls rc k i p' Hk E];
    cbn [pool leases reclaiming] in *.
  - pose proof (pool_acquire_cases p r) as H. rewrite E in H. destruct H as (b & Eb & [Hz _] & -> & _).
    assert (Hi : (i < length (blocks p))%nat) by (by eapply lookup_lt_Some).
    eapply block_update_wf; try done.
    + intros j Hj. rewrite occurrences_cons. by rewrite (proj2 (Nat.eqb_neq j i)).
    + specialize (Ha i b Eb). unfold block_accounted in *. cbn [leases reclaiming references set_references] in *.
      rewrite occurrences_cons, Nat.eqb_refl. left. destruct Ha as [[? ?]|(_ & _ & ?)]; [split; [done|lia]|].
      rewrite Hz in *. done.
    + by apply List.Forall_cons.
  - unfold pool_share in E. destruct (blocks p !! i) as [b|] eqn:Eb; [|done]. injection E as <-.
    eapply block_update_wf; try done.
    + intros j Hj. rewrite occurrences_cons. by rewrite (proj2 (Nat.eqb_neq j i)).
    + specialize (Ha i b Eb). unfold block_accounted in *. cbn [leases reclaiming references set_references] in *.
      rewrite occurrences_cons, Nat.eqb_refl. pose proof (occurrences_pos _ _ _ Hk). pose proof (occurrences_le i ls).
      left. destruct Ha as [[? ->]|(_ & ? & _)]; [|lia]. split; [done|].
      unfold zlen in Hb. cbn [length] in Hb. rewrite wrap64_small by (unfold SIZE_MAX in *; lia). lia.
    + apply List.Forall_cons; [|done]. by eapply lookup_lt_Some.
  - unfold release_begin in E. destruct (blocks p !! i) as [b|] eqn:Eb; [|done]. cbn [deref rbind] in E.
    pose proof (Ha i b Eb) as Hacc. unfold block_accounted in Hacc. cbn [leases reclaiming] in Hacc.
    pose proof (occurrences_pos _ _ _ Hk) as Hpos. pose proof (occurrences_le i ls) as Hle.
    destruct Hacc as [[Hrc Href]|(_ & ? & _)]; [|lia]. rewrite Href, wrap64_small in E by (unfold zlen, SIZE_MAX in *; lia).
    pose proof (occurrences_delete i i k ls Hk) as Hd. rewrite Nat.eqb_refl in Hd.
    assert (Hother : forall j, j <> i -> occurrences j (delete k ls) = occurrences j ls).
    { intros j Hj. pose proof (occurrences_delete j i k ls Hk) as H. rewrite (proj2 (Nat.eqb_neq j i)) in H by done. lia. }
    assert (zlen (delete k ls) < SIZE_MAX) by (unfold zlen in *; rewrite length_delete by eauto; lia).
    assert (Forall (fun j => (j < length (blocks p))%nat) (delete k ls)) by (by apply Forall_delete_list).
    destruct (Z.eqb_spec (Z.of_nat (occurrences i ls) - 1) 0); injection E as <- <-; eapply block_update_wf; try done.
    + intros j Hj. rewrite occurrences_cons, (proj2 (Nat.eqb_neq j i)) by done. auto.
    + right. cbn [leases reclaiming references set_references]. rewrite occurrences_cons, Nat.eqb_refl, Hrc. lia.
    + apply List.Forall_cons; [|done]. by eapply lookup_lt_Some.
    + auto.
    + left. cbn [leases reclaiming references set_references]. rewrite Hrc. lia.
  - unfold release_finish in E. destruct (blocks p !! i) as [b|] eqn:Eb; [|done]. injection E as <-.
    pose proof (Ha i b Eb) as Hacc. unfold block_accounted in Hacc. cbn [leases reclaiming] in Hacc.
    pose proof (occurrences_pos _ _ _ Hk) as Hpos. destruct Hacc as [[? _]|(Hrc & Hls & _)]; [lia|].
    pose proof (occurrences_delete i i k rc Hk) as Hd. rewrite Nat.eqb_refl in Hd.
    eapply block_update_wf; try done.
    + intros j Hj. pose proof (occurrences_delete j i k rc Hk) as H. rewrite (proj2 (Nat.eqb_neq j i)) in H by done. lia.
    + left. cbn [leases reclaiming references set_references]. lia.
    + by apply Forall_delete_list.
Qed.

Lemma system_initial_wf p : Forall (fun b => references b = 0) (blocks p) -> system_wf (mkSystem p [] []).
Proof.
  intros HF. split; cbn; [|done|done|done]. intros i b Hb. left. cbn. split; [done|].
  by apply (Forall_lookup_1 _ _ _ _ HF Hb).
Qed.

Lemma pool_steps_wf s s' : system_wf s -> rtc pool_step s s' -> system_wf s'.
Proof. intros Hwf H. induction H; [done|]. eauto using pool_step_wf. Qed.

Lemma occurrences_zero i l : occurrences i l = 0%nat -> i ∉ l.
Proof. intros Hz [k Hk]%list_elem_of_lookup. pose proof (occurrences_pos _ _ _ Hk). lia. Qed.

(** ** Layout of a new pool *)

Lemma check_spec_Ok s n m : 0 <= n <= SIZE_MAX -> 0 <= s_block_count s -> 0 <= s_block_size s -> check_spec s n = Ok m ->
  m = n + s_block_count s /\ 0 <= m <= SIZE_MAX /\
  (s_alignment s | s_block_size s) /\ (s_cpu_address s <> 0 -> (s_alignment s | s_cpu_address s)) /\
  s_alignment s <> 0 /\
  (s_device_address s <> 0 -> s_device_address s + s_block_count s * s_block_size s <= U64_MAX).
Proof.
  intros Hn Hc Hs. unfold check_spec. test_goal E1; [done|]. test_goal E2; [done|]. test_goal E3; [done|].
  rewrite !orb_false_iff in E1. destruct E1 as ((((((_ & Ez) & _) & Hp) & Em) & _) & Ea).
  apply orb_false_iff in E2 as [E2%Z.ltb_ge E4%Z.ltb_ge].
  unfold power_of_two, nonzero in *. rewrite !negb_false_iff in *. apply andb_true_iff in Hp as [Hp _].
  apply negb_true_iff, Z.eqb_neq in Hp, Ez. apply Z.eqb_eq in Em. intros [= <-].
  assert (Hext : 0 <= s_block_count s * s_block_size s <= U64_MAX).
  { split; [nia|]. pose proof (Z.mul_div_le SIZE_MAX (s_block_size s)). unfold SIZE_MAX in *. nia. }
  rewrite wrap64_small in E3 by done. rewrite wrap64_small by (unfold SIZE_MAX in *; lia).
  split_and!; try lia.
  - by apply Z.mod_divide.
  - intros Hcpu. apply Z.mod_divide; [done|]. apply Z.eqb_neq in Hcpu. rewrite Hcpu in Ea. cbn in Ea.
    by apply negb_false_iff, Z.eqb_eq in Ea.
Qed.

(** What every block of a specification looks like. *)
Lemma spec_block_layout s n m i : 0 <= n <= SIZE_MAX -> 0 <= s_block_count s -> 0 <= s_block_size s ->
  0 <= s_device_address s -> check_spec s n = Ok m -> Z.of_nat i < s_block_count s ->
  (address (spec_block s i) <> 0 -> (alignment (spec_block s i) | address (spec_block s i))) /\
  (device_address (spec_block s i) = 0 \/
   device_address (spec_block s i) = s_device_address s + Z.of_nat i * s_block_size s /\
   device_address (spec_block s i) + capacity (spec_block s i) <= U64_MAX).
Proof.
  intros Hn Hc Hs Hd E Hi. destruct (check_spec_Ok s n m Hn Hc Hs E) as (_ & _ & Hsz & Hcpu & Ha & Hdev).
  cbn. split.
  - unfold nonzero. destruct (Z.eqb_spec (s_cpu_address s) 0); cbn [negb]; [done|]. intros _.
    apply Z.divide_add_r; [by apply Hcpu|]. by apply Z.divide_mul_r.
  - unfold nonzero. destruct (Z.eqb_spec (s_device_address s) 0); cbn [negb]; [by left|right].
    specialize (Hdev ltac:(done)).
    assert (0 <= Z.of_nat i * s_block_size s <= U64_MAX) by nia.
    rewrite (wrap64_small (Z.of_nat i * s_block_size s)) by lia. rewrite wrap64_small by nia. split; [done|nia].
Qed.

Definition spec_typed (s : BufferSpec) : Prop :=
  0 <= s_block_count s /\ 0 <= s_block_size s /\ 0 <= s_device_address s.

Lemma check_specs_layout specs n m : 0 <= n <= SIZE_MAX -> Forall spec_typed specs -> check_specs specs n = Ok m ->
  zlen (concat (spec_blocks <$> specs)) = m - n /\
  Forall (fun b => references b = 0 /\
    (address b <> 0 -> (alignment b | address b)) /\
    (device_address b <> 0 -> device_address b + capacity b <= U64_MAX)) (concat (spec_blocks <$> specs)).
Proof.
  revert n. induction specs as [|s specs IH]; intros n Hn HF E; cbn in E; simplify_eq/=.
  { split; [unfold zlen; cbn; lia|done]. }
  apply list.Forall_cons in HF as [(Hc & Hs & Hd) HF]. apply rbind_Ok in E as (k & E1 & E2).
  destruct (check_spec_Ok s n k Hn Hc Hs E1) as (Ek & Hk & _). destruct (IH k Hk HF E2) as [Hlen HB].
  split.
  - unfold zlen in *. rewrite length_app, Nat2Z.inj_add, Hlen. unfold spec_blocks. rewrite length_fmap, length_seq. lia.
  - apply Forall_app. split; [|done]. unfold spec_blocks. apply Forall_fmap, list.Forall_forall. intros i Hi%elem_of_seq.
    cbn [compose]. destruct (spec_block_layout s n k i Hn Hc Hs Hd E1 ltac:(lia)) as [H1 H2].
    split_and!; [done|done|]. intros Hnz. destruct H2 as [?|[_ ?]]; done.
Qed.

(** ** Properties *)

(** C33. Ownership of pool memory, for any interleaving of the critical sections of any
    number of threads: the reference count of a block is always the number of its
    leases (or the reserved value while its reclamation hook runs, when it has none);
    hence a block handed out by [acquire] has no other lease and no running hook, and
    no operation on a held lease touches a block that does not exist. *)
Theorem pool_ownership p0 s :
  Forall (fun b => references b = 0) (blocks p0) -> rtc pool_step (mkSystem p0 [] []) s ->
  (forall i b, blocks (pool s) !! i = Some b -> block_accounted s i b) /\
  (forall r i p', pool_acquire (pool s) r = (Ok i, p') -> (i ∉ leases s) /\ (i ∉ reclaiming s)) /\
  (forall i, i ∈ leases s -> safe (pool_share (pool s) i) /\ safe (release_begin (pool s) i)) /\
  (forall i, i ∈ reclaiming s -> safe (release_finish (pool s) i)).
Proof.
  intros H0 Hr. pose proof (pool_steps_wf _ _ (system_initial_wf p0 H0) Hr) as [Ha Hl Hrc Hc]. split_and!; try done.
  - intros r i p' E. pose proof (pool_acquire_cases (pool s) r) as H. rewrite E in H.
    destruct H as (b & Eb & [Hz _] & _). destruct (Ha i b Eb) as [[Hrc0 Hls]|(_ & _ & Hbad)]; [|by rewrite Hz in Hbad].
    split; apply occurrences_zero; lia.
  - intros i Hi. rewrite list.Forall_forall in Hl. specialize (Hl i Hi). destruct (lookup_lt_is_Some_2 _ _ Hl) as [b Eb].
    unfold pool_share, release_begin. rewrite Eb. cbn. split; [done|]. by destruct (_ =? _).
  - intros i Hi. rewrite list.Forall_forall in Hrc. specialize (Hrc i Hi). destruct (lookup_lt_is_Some_2 _ _ Hrc) as [b Eb].
    unfold release_finish. by rewrite Eb.
Qed.

(** [acquire] is a best fit: it takes, among the free blocks that satisfy the
    request, one of the smallest capacity and of those the first, changes nothing else,
    and reports exhaustion only when no free block satisfies the request. *)
Theorem acquire_best_fit p r :
  match pool_acquire p r with
  | (Ok i, p') => exists b, blocks p !! i = Some b /\ references b = 0 /\ fits r b = true /\
      p' = set_block p i (set_references b 1) /\
      (forall j c, blocks p !! j = Some c -> references c = 0 -> fits r c = true ->
         capacity b < capacity c \/ (capacity b = capacity c /\ (i <= j)%nat))
  | (Err e, p') => p' = p /\
      (e = error1 ErrorCode.capacity_exhausted ->
       forall j c, blocks p !! j = Some c -> references c = 0 -> fits r c = false)
  | (UB, _) => False
  end.
Proof.
  pose proof (pool_acquire_cases p r) as H. destruct (pool_acquire p r) as [[i|e|] p']; [| |done].
  - destruct H as (b & Eb & [Hz Hf] & -> & H). exists b. split_and!; try done.
    intros j c Hc Hz' Hf'. by apply (H j c).
  - destruct H as [-> H]. split; [done|]. intros He j c Hc Hz. apply not_true_is_false. intros Hf. by apply (H He j c).
Qed.

(** A new pool has as many blocks as its specifications announce, all free; every
    block with a CPU address is aligned as specified, and no device block reaches past
    the end of the address space. *)
Theorem pool_create_layout sizeof_Block specs p :
  Forall spec_typed specs -> pool_create sizeof_Block specs = Ok p ->
  check_specs specs 0 = Ok (zlen (blocks p)) /\
  Forall (fun b => references b = 0 /\
    (address b <> 0 -> (alignment b | address b)) /\
    (device_address b <> 0 -> device_address b + capacity b <= U64_MAX)) (blocks p).
Proof.
  intros HF E. unfold pool_create in E. apply rbind_Ok in E as (m & E1 & E2). destruct (_ || _); [done|].
  injection E2 as <-. destruct (check_specs_layout specs 0 m ltac:(unfold SIZE_MAX, U64_MAX; lia) HF E1) as [Hl HB].
  cbn [blocks]. split; [rewrite Hl, E1; f_equal; lia|done].
Qed.

(** ** Witnesses *)

Definition sample_specs : list BufferSpec :=
  [mkSpec (Some 1) 4096 64 2 8 MemoryDomain.cpu 0 (Some 7) 9;
   mkSpec (Some 1) 8192 32 2 8 MemoryDomain.cpu 0 None 0].
Definition sample_pool : PoolState :=
  match pool_create 96 sample_specs with Ok p => p | _ => mkPool [] 0 [] end.
Definition sample_request : BufferRequest := mkRequest 20 8 MemoryDomain.cpu true.

Lemma pool_ownership_witness :
  exists s, rtc pool_step (mkSystem sample_pool [] []) s /\ leases s = [2%nat] /\
    (forall r i p', pool_acquire (pool s) r = (Ok i, p') -> i ∉ leases s).
Proof.
  eexists. split.
  { apply rtc_once. apply (step_acquire sample_pool [] [] sample_request 2 (pool_acquire sample_pool sample_request).2);
      [vm_compute; reflexivity|vm_compute; reflexivity]. }
  split; [reflexivity|]. intros r i p' E.
  refine (proj1 (proj1 (proj2 (pool_ownership sample_pool _ _ _)) r i p' E)).
  - repeat (apply List.Forall_cons; [vm_compute; reflexivity|]). apply List.Forall_nil.
  - apply rtc_once. apply (step_acquire sample_pool [] [] sample_request 2 (pool_acquire sample_pool sample_request).2);
      [vm_compute; reflexivity|vm_compute; reflexivity].
Defined.

Lemma pool_create_layout_witness :
  exists p, pool_create 96 sample_specs = Ok p /\ zlen (blocks p) = 4 /\ check_specs sample_specs 0 = Ok 4.
Proof.
  assert (E : pool_create 96 sample_specs = Ok sample_pool) by (vm_compute; reflexivity).
  exists sample_pool. split; [exact E|]. split; [vm_compute; reflexivity|].
  refine (proj1 (pool_create_layout 96 sample_specs sample_pool _ E)).
  repeat (apply List.Forall_cons; [vm_compute; split_and!; congruence|]). apply List.Forall_nil.
Defined.
