(* ===== verification/MemEnvelope.v ===== *)
(** * Received and outgoing packets in pool memory: [include/vita/memory/envelope.hpp]

    A [RxEnvelope] holds the leases of a received packet and where its prologue,
    payload fragments and trailer lie in them; [retain] shares the leases of the
    payload under two quotas; a [TxStorage] holds up to three outgoing segments.
    The pools and quotas live in a [World], leases and quotas refer to them by
    index, as the shared pointers of the code do.  The fixed arrays with their
    counts are lists of that length. *)

From S2P Require Import Prelude Wire WireProofs Framing Time Pool.

Record BufferLease := mkLease { l_state : option nat; l_index : nat; l_used : Z }.
Definition empty_lease : BufferLease := mkLease None 0 0.

Record QuotaState := mkQuota { q_active : Z; q_limit : Z; q_enabled : bool }.
Record World := mkWorld { pools : list PoolState; quotas : list QuotaState }.

Definition set_pool (w : World) (s : nat) (p : PoolState) : World := mkWorld (<[s:=p]> (pools w)) (quotas w).
Definition set_quota (w : World) (q : nat) (st : QuotaState) : World := mkWorld (pools w) (<[q:=st]> (quotas w)).

(** ** Leases *)

Definition lease_block (w : World) (l : BufferLease) : Result (option Block) :=
  match l_state l with
  | None => Ok None
  | Some s => let? p := deref (pools w !! s) in let? b := deref (blocks p !! l_index l) in Ok (Some b)
  end.

Definition lease_capacity (w : World) (l : BufferLease) : Result Z :=
  let? b := lease_block w l in Ok (match b with Some b => capacity b | None => 0 end).

Definition lease_set_size (w : World) (l : BufferLease) (n : Z) : Result BufferLease :=
  if is_none (l_state l) then Err (error1 ErrorCode.invalid_argument) else
  let? c := lease_capacity w l in
  fail_if c <? n with error1 ErrorCode.invalid_argument ;;
  Ok (mkLease (l_state l) (l_index l) n).

Definition lease_writable_bytes (w : World) (l : BufferLease) : Result Span :=
  let? b := lease_block w l in
  match b with
  | None => Err (error1 ErrorCode.invalid_state)
  | Some b => fail_if negb (nonzero (address b)) with error1 ErrorCode.no_cpu_access ;;
              Ok (mkSpan (address b) (capacity b))
  end.

Definition lease_bytes (w : World) (l : BufferLease) : Result Span :=
  let? b := lease_block w l in
  match b with
  | None => Err (error1 ErrorCode.invalid_state)
  | Some b => fail_if negb (nonzero (address b)) with error1 ErrorCode.no_cpu_access ;;
              Ok (mkSpan (address b) (l_used l))
  end.

Definition lease_share (w : World) (l : BufferLease) : Result (World * BufferLease) :=
  let? s := deref (l_state l) in
  let? p := deref (pools w !! s) in
  let? p := pool_share p (l_index l) in
  Ok (set_pool w s p, l).

Definition lease_reset (w : World) (l : BufferLease) : Result World :=
  match l_state l with
  | None => Ok w
  | Some s =>
      let? p := deref (pools w !! s) in
      let? p := pool_release p (l_index l) in
      Ok (set_pool w s p)
  end.

Fixpoint reset_all (w : World) (ls : list BufferLease) : Result World :=
  match ls with
  | [] => Ok w
  | l :: ls => let? w := lease_reset w l in reset_all w ls
  end.

Definition lease_acquire (w : World) (s : nat) (r : BufferRequest) : Result BufferLease * World :=
  match pools w !! s with
  | None => (Err (error1 ErrorCode.invalid_argument), w)
  | Some p =>
      let '(i, p) := pool_acquire p r in
      (rmap (fun i => mkLease (Some s) i 0) i, set_pool w s p)
  end.

(** ** Quotas *)

(** The compare-and-swap loop takes one unit as a single atomic step. *)
Definition take_quota (w : World) (q : nat) : Result (bool * World) :=
  let? st := deref (quotas w !! q) in
  if negb (q_enabled st) then Ok (false, w) else
  if q_active st <? q_limit st
  then Ok (true, set_quota w q (mkQuota (q_active st + 1) (q_limit st) (q_enabled st)))
  else Ok (false, w).

Definition give_quota (w : World) (q : nat) : Result World :=
  let? st := deref (quotas w !! q) in
  Ok (set_quota w q (mkQuota (wrap64 (q_active st - 1)) (q_limit st) (q_enabled st))).

Definition quota_enable (w : World) (q : nat) (value : bool) : Result World :=
  let? st := deref (quotas w !! q) in
  Ok (set_quota w q (mkQuota (q_active st) (q_limit st) value)).

(** The two units a retained packet holds; one if both quotas are the same. *)
Definition take_quotas (w : World) (consumer global : nat) : Result (World * bool) :=
  let? (ok, w) := take_quota w consumer in
  if negb ok then Ok (w, false) else
  if (consumer =? global)%nat then Ok (w, true) else
  let? (ok, w) := take_quota w global in
  if ok then Ok (w, true) else let? w := give_quota w consumer in Ok (w, false).

Definition release_quotas (w : World) (consumer global : option nat) : Result World :=
  let? w := match consumer with Some c => give_quota w c | None => Ok w end in
  match global with
  | Some g => if bool_decide (global = consumer) then Ok w else give_quota w g
  | None => Ok w
  end.

(** ** Received packets *)

Record SegmentRef := mkSeg { sg_lease : nat; sg_offset : Z; sg_length : Z }.

Record RetainedRx := mkRetained {
  rt_leases : list BufferLease; rt_fragments : list SegmentRef;
  rt_consumer : option nat; rt_global : option nat
}.

Record RxEnvelope := mkRx {
  rx_leases : list BufferLease; rx_payload : list SegmentRef;
  rx_prologue : option SegmentRef; rx_trailer : option SegmentRef
}.
Definition rx_empty : RxEnvelope := mkRx [] [] None None.

Definition MAX_LEASES : nat := 18.
Definition MAX_FRAGMENTS : nat := 16.

Definition sub_span (s : Span) (offset count : Z) : Result Span :=
  if (offset <? 0) || (count <? 0) || (sp_length s <? offset + count) then UB else
  Ok (mkSpan (sp_address s + offset) count).

(** The bytes of a segment of one of the leases. *)
Definition segment_span (w : World) (ls : list BufferLease) (s : SegmentRef) : Result Span :=
  let? l := deref (ls !! sg_lease s) in
  let? b := lease_bytes w l in
  sub_span b (sg_offset s) (sg_length s).

Definition rx_valid (rx : RxEnvelope) (s : SegmentRef) : bool :=
  match rx_leases rx !! sg_lease s with
  | None => false
  | Some l => (sg_offset s <=? l_used l) && (sg_length s <=? wrap64 (l_used l - sg_offset s))
  end.

Definition add_buffer (rx : RxEnvelope) (l : BufferLease) : Result (nat * RxEnvelope) :=
  fail_if is_none (l_state l) with error1 ErrorCode.invalid_argument ;;
  fail_if (length (rx_leases rx) =? MAX_LEASES)%nat with error1 ErrorCode.capacity_exhausted ;;
  Ok (length (rx_leases rx), mkRx (rx_leases rx ++ [l]) (rx_payload rx) (rx_prologue rx) (rx_trailer rx)).

Definition append_payload (rx : RxEnvelope) (s : SegmentRef) : Result RxEnvelope :=
  fail_if negb (rx_valid rx s) || negb (nonzero (sg_length s)) with error1 ErrorCode.invalid_argument ;;
  fail_if (length (rx_payload rx) =? MAX_FRAGMENTS)%nat with error1 ErrorCode.capacity_exhausted ;;
  Ok (mkRx (rx_leases rx) (rx_payload rx ++ [s]) (rx_prologue rx) (rx_trailer rx)).

Definition set_prologue (w : World) (rx : RxEnvelope) (s : SegmentRef) : Result RxEnvelope :=
  fail_if negb (rx_valid rx s) with error1 ErrorCode.invalid_argument ;;
  let? l := deref (rx_leases rx !! sg_lease s) in
  let? _ := lease_bytes w l in
  Ok (mkRx (rx_leases rx) (rx_payload rx) (Some s) (rx_trailer rx)).

Definition set_trailer (rx : RxEnvelope) (s : SegmentRef) : Result RxEnvelope :=
  fail_if negb (rx_valid rx s) with error1 ErrorCode.invalid_argument ;;
  Ok (mkRx (rx_leases rx) (rx_payload rx) (rx_prologue rx) (Some s)).

Definition rx_prologue_bytes (w : World) (rx : RxEnvelope) : Result Span :=
  match rx_prologue rx with
  | None => Err (error1 ErrorCode.invalid_state)
  | Some s => segment_span w (rx_leases rx) s
  end.
Definition rx_trailer_bytes (w : World) (rx : RxEnvelope) : Result Span :=
  match rx_trailer rx with
  | None => Err (error1 ErrorCode.invalid_state)
  | Some s => segment_span w (rx_leases rx) s
  end.
Definition rx_fragment (w : World) (rx : RxEnvelope) (i : nat) : Result Span :=
  match rx_payload rx !! i with
  | None => Err (error1 ErrorCode.invalid_argument)
  | Some s => segment_span w (rx_leases rx) s
  end.

(** The loop of [retain]: [remap] gives for each lease of the envelope its index in
    the retained packet, 18 if it has none yet. *)
Fixpoint retain_loop (src : list BufferLease) (frags : list SegmentRef) (w : World) (remap : list nat)
    (out : list BufferLease) (outf : list SegmentRef) : Result (World * list BufferLease * list SegmentRef) :=
  match frags with
  | [] => Ok (w, out, outf)
  | s :: frags =>
      let? m := deref (remap !! sg_lease s) in
      let? (w, remap, out, m) :=
        if (m =? MAX_LEASES)%nat then
          let? l := deref (src !! sg_lease s) in
          let? (w, l) := lease_share w l in
          if (MAX_FRAGMENTS <=? length out)%nat then UB else
          Ok (w, <[sg_lease s := length out]> remap, out ++ [l], length out)
        else Ok (w, remap, out, m) in
      if (MAX_FRAGMENTS <=? length outf)%nat then UB else
      retain_loop src frags w remap out (outf ++ [mkSeg m (sg_offset s) (sg_length s)])
  end.

Definition rx_retain (w : World) (rx : RxEnvelope) (consumer global : nat) : Result (Result RetainedRx * World) :=
  match rx_payload rx with
  | [] => Ok (Err (error1 ErrorCode.invalid_state), w)
  | _ =>
      let? (w, ok) := take_quotas w consumer global in
      if negb ok then Ok (Err (error1 ErrorCode.capacity_exhausted), w) else
      let? (w, out, outf) := retain_loop (rx_leases rx) (rx_payload rx) w (replicate MAX_LEASES MAX_LEASES) [] [] in
      Ok (Ok (mkRetained out outf (Some consumer) (Some global)), w)
  end.

(** ** Retained packets *)

Fixpoint share_all (w : World) (ls : list BufferLease) : Result (World * list BufferLease) :=
  match ls with
  | [] => Ok (w, [])
  | l :: ls =>
      let? (w, l) := lease_share w l in
      let? (w, ls) := share_all w ls in
      Ok (w, l :: ls)
  end.

Definition retained_retain (w : World) (rt : RetainedRx) (consumer global : nat) : Result (Result RetainedRx * World) :=
  match rt_fragments rt with
  | [] => Ok (Err (error1 ErrorCode.invalid_state), w)
  | _ =>
      let? (w, ok) := take_quotas w consumer global in
      if negb ok then Ok (Err (error1 ErrorCode.capacity_exhausted), w) else
      let? (w, ls) := share_all w (rt_leases rt) in
      Ok (Ok (mkRetained ls (rt_fragments rt) (Some consumer) (Some global)), w)
  end.

Definition retained_reset (w : World) (rt : RetainedRx) : Result World :=
  let? w := reset_all w (rt_leases rt) in
  release_quotas w (rt_consumer rt) (rt_global rt).

Definition retained_fragment (w : World) (rt : RetainedRx) (i : nat) : Result Span :=
  match rt_fragments rt !! i with
  | None => Err (error1 ErrorCode.invalid_argument)
  | Some s => segment_span w (rt_leases rt) s
  end.

(** ** Outgoing storage *)

Record TxStorage := mkTx { tx_leases : list BufferLease; tx_segments : list SegmentRef }.
Definition tx_empty : TxStorage := mkTx [] [].
Definition MAX_TX : nat := 3.

Definition tx_byte_size (t : TxStorage) : Z := wrap64 (foldr (fun s n => sg_length s + n) 0 (tx_segments t)).

Definition tx_append (t : TxStorage) (l : BufferLease) (offset length_ : Z) : Result TxStorage :=
  fail_if is_none (l_state l) || (l_used l <? offset) || (wrap64 (l_used l - offset) <? length_) ||
      negb (nonzero length_) with error1 ErrorCode.invalid_argument ;;
  fail_if (length (tx_segments t) =? MAX_TX)%nat with error1 ErrorCode.capacity_exhausted ;;
  fail_if SIZE_MAX - tx_byte_size t <? length_ with error1 ErrorCode.overflow ;;
  Ok (mkTx (tx_leases t ++ [l]) (tx_segments t ++ [mkSeg (length (tx_segments t)) offset length_])).

Definition tx_segment (w : World) (t : TxStorage) (i : nat) : Result Span :=
  match tx_segments t !! i with
  | None => Err (error1 ErrorCode.invalid_argument)
  | Some s =>
      let? l := deref (tx_leases t !! i) in
      let? b := lease_bytes w l in
      sub_span b (sg_offset s) (sg_length s)
  end.

(** On an error the leases taken so far, and the one in hand, are destroyed. *)
Definition tx_fail (w : World) (t : TxStorage) (extra : list BufferLease) (e : Error) : Result (Result TxStorage * World) :=
  let? w := reset_all w extra in
  let? w := reset_all w (tx_leases t) in
  Ok (Err e, w).

Fixpoint tx_acquire_loop (w : World) (pool : nat) (rs : list BufferRequest) (t : TxStorage) : Result (Result TxStorage * World) :=
  match rs with
  | [] => Ok (Ok t, w)
  | r :: rs =>
      let '(l, w) := lease_acquire w pool r in
      match l with
      | UB => UB
      | Err e => tx_fail w t [] e
      | Ok l =>
          match lease_set_size w l (rq_capacity r) with
          | UB => UB
          | Err e => tx_fail w t [l] e
          | Ok l =>
              match tx_append t l 0 (rq_capacity r) with
              | UB => UB
              | Err e => tx_fail w t [l] e
              | Ok t => tx_acquire_loop w pool rs t
              end
          end
      end
  end.

Definition tx_acquire (w : World) (pool : nat) (rs : list BufferRequest) : Result (Result TxStorage * World) :=
  if (MAX_TX <? length rs)%nat then Ok (Err (error1 ErrorCode.capacity_exhausted), w) else
  tx_acquire_loop w pool rs tx_empty.

(** ** Changes of reference counts *)

Abbreviation key := (nat * nat)%type.
Definition block_of (w : World) (k : key) : option Block := p ← pools w !! k.1; blocks p !! k.2.
Definition lease_key (l : BufferLease) : option key := s ← l_state l; Some (s, l_index l).

(** [w'] is [w] with [f k] references more on every block [k]. *)
Definition refs_changed (w w' : World) (f : key -> Z) : Prop :=
  quotas w' = quotas w /\
  forall k, block_of w' k = (fun b => set_references b (references b + f k)) <$> block_of w k.

Definition holds (k : key) (ls : list BufferLease) : Z :=
  zlen (List.filter (fun l => bool_decide (lease_key l = Some k)) ls).

Lemma holds_cons k l ls : holds k (l :: ls) = b2z (bool_decide (lease_key l = Some k)) + holds k ls.
Proof. unfold holds, zlen. simpl. destruct (bool_decide _); cbn [length b2z]; lia. Qed.
Lemma holds_app k a b : holds k (a ++ b) = holds k a + holds k b.
Proof. unfold holds, zlen. rewrite List.filter_app, length_app. lia. Qed.
Lemma holds_nonneg k ls : 0 <= holds k ls.
Proof. unfold holds, zlen. lia. Qed.

Lemma set_references_same b : set_references b (references b) = b.
Proof. by destruct b. Qed.

Lemma refs_changed_refl w : refs_changed w w (fun _ => 0).
Proof.
  split; [done|]. intros k. destruct (block_of w k) as [b|]; [|done]. cbn. by rewrite Z.add_0_r, set_references_same.
Qed.

Lemma refs_changed_trans w w1 w2 f g h :
  refs_changed w w1 f -> refs_changed w1 w2 g -> (forall k, h k = f k + g k) -> refs_changed w w2 h.
Proof.
  intros [Q1 B1] [Q2 B2] H. split; [congruence|]. intros k. rewrite B2, B1, H.
  destruct (block_of w k) as [b|]; [|done]. cbn. f_equal. unfold set_references. cbn. f_equal. lia.
Qed.

Lemma refs_changed_lease_bytes w w' f l : refs_changed w w' f -> lease_bytes w' l = lease_bytes w l.
Proof.
  intros [_ B]. unfold lease_bytes, lease_block. destruct (l_state l) as [s|]; [|done].
  specialize (B (s, l_index l)). unfold block_of in B. cbn in B.
  destruct (pools w !! s) as [p|], (pools w' !! s) as [p'|]; cbn in *; try done.
  - destruct (blocks p !! l_index l), (blocks p' !! l_index l); cbn in *; simplify_eq; done.
  - by destruct (blocks p !! l_index l).
  - by rewrite B.
Qed.

Lemma refs_changed_segment w w' f ls s : refs_changed w w' f -> segment_span w' ls s = segment_span w ls s.
Proof.
  intros H. unfold segment_span. destruct (ls !! sg_lease s) as [l|]; [|done]. cbn.
  by rewrite (refs_changed_lease_bytes w w' f l H).
Qed.

Definition bump (l : BufferLease) (k : key) : Z := b2z (bool_decide (lease_key l = Some k)).

(** Replacing one block of one pool. *)
Lemma block_of_insert w s p i b b' rt hk k :
  pools w !! s = Some p -> blocks p !! i = Some b ->
  block_of (set_pool w s (mkPool (<[i:=b']> (blocks p)) rt hk)) k =
  if decide (k = (s, i)) then Some b' else block_of w k.
Proof.
  intros Hp Hb. unfold block_of, set_pool. cbn. destruct k as [s' i']. cbn.
  assert (Hs : (s < length (pools w))%nat) by (by eapply lookup_lt_Some).
  assert (Hi : (i < length (blocks p))%nat) by (by eapply lookup_lt_Some).
  destruct (decide (s' = s)) as [->|Hne].
  - rewrite list_lookup_insert_eq, Hp by done. cbn. destruct (decide (i' = i)) as [->|Hni].
    + rewrite list_lookup_insert_eq by done. by rewrite decide_True.
    + rewrite list_lookup_insert_ne by done. rewrite decide_False by congruence. done.
  - rewrite list_lookup_insert_ne by done. rewrite decide_False by congruence. done.
Qed.

Lemma lease_share_spec w l s b :
  l_state l = Some s -> block_of w (s, l_index l) = Some b -> 0 <= references b < SIZE_MAX ->
  exists w', lease_share w l = Ok (w', l) /\ refs_changed w w' (bump l).
Proof.
  intros Hs Hb Hr. unfold lease_share. rewrite Hs. cbn [deref rbind].
  unfold block_of in Hb. cbn in Hb. destruct (pools w !! s) as [p|] eqn:Hp; [|done]. cbn in *.
  unfold pool_share. rewrite Hb. cbn [deref rbind]. rewrite wrap64_small by (unfold SIZE_MAX in *; lia).
  eexists. split; [done|]. split; [done|]. intros k. unfold set_block.
  rewrite (block_of_insert w s p (l_index l) b) by done. unfold bump, lease_key. rewrite Hs. cbn.
  destruct (decide (k = (s, l_index l))) as [->|Hne].
  - rewrite bool_decide_true by done. unfold block_of. cbn. rewrite Hp. cbn. by rewrite Hb.
  - rewrite bool_decide_false by congruence. destruct (block_of w k) as [c|]; [|done]. cbn.
    by rewrite Z.add_0_r, set_references_same.
Qed.

Lemma lease_reset_spec w l s b :
  l_state l = Some s -> block_of w (s, l_index l) = Some b -> 1 <= references b < SIZE_MAX ->
  exists w', lease_reset w l = Ok w' /\ refs_changed w w' (fun k => - bump l k).
Proof.
  intros Hs Hb Hr. unfold lease_reset. rewrite Hs.
  unfold block_of in Hb. cbn in Hb. destruct (pools w !! s) as [p|] eqn:Hp; [|done]. cbn in *.
  unfold pool_release, release_begin. rewrite Hb. cbn [deref rbind]. rewrite wrap64_small by (unfold SIZE_MAX in *; lia).
  assert (Hi : (l_index l < length (blocks p))%nat) by (by eapply lookup_lt_Some).
  assert (Hupd : forall rt hk, refs_changed w (set_pool w s (mkPool (<[l_index l := set_references b (references b - 1)]> (blocks p)) rt hk))
            (fun k => - bump l k)).
  { intros rt hk. split; [done|]. intros k. rewrite (block_of_insert w s p (l_index l) b) by done.
    unfold bump, lease_key. rewrite Hs. cbn. destruct (decide (k = (s, l_index l))) as [->|Hne].
    - rewrite bool_decide_true by done. unfold block_of. cbn. rewrite Hp. cbn. by rewrite Hb.
    - rewrite bool_decide_false by congruence. destruct (block_of w k) as [c|]; [|done]. cbn.
      by rewrite Z.add_0_r, set_references_same. }
  destruct (Z.eqb_spec (references b - 1) 0) as [E|E]; cbn [rbind].
  - unfold release_finish, set_block. cbn [blocks]. rewrite list_lookup_insert_eq by done. cbn [deref rbind].
    rewrite list_insert_insert_eq. unfold set_references. cbn. eexists. split; [done|].
    rewrite E in Hupd. apply Hupd.
  - eexists. split; [done|]. apply Hupd.
Qed.

(** Every lease of [ls] refers to a block in use whose count leaves [room] more. *)
Definition live (w : World) (ls : list BufferLease) (room : Z) : Prop :=
  forall l, l ∈ ls -> exists s b, l_state l = Some s /\ block_of w (s, l_index l) = Some b /\
    1 <= references b /\ references b + room < SIZE_MAX.

Lemma reset_all_spec ls w :
  (forall l, l ∈ ls -> exists s b, l_state l = Some s /\ block_of w (s, l_index l) = Some b /\
     holds (s, l_index l) ls <= references b < SIZE_MAX) ->
  exists w', reset_all w ls = Ok w' /\ refs_changed w w' (fun k => - holds k ls).
Proof.
  revert w. induction ls as [|l ls IH]; intros w H.
  { exists w. split; [done|]. eapply refs_changed_trans; [apply refs_changed_refl..|]. done. }
  destruct (H l ltac:(by left)) as (s & b & Hs & Hb & Hr).
  assert (Hk : lease_key l = Some (s, l_index l)) by (unfold lease_key; by rewrite Hs).
  rewrite holds_cons, bool_decide_true in Hr by done. pose proof (holds_nonneg (s, l_index l) ls). cbn [b2z] in Hr.
  destruct (lease_reset_spec w l s b Hs Hb ltac:(lia)) as (w1 & E1 & H1). cbn [reset_all]. rewrite E1. cbn [rbind].
  destruct (IH w1) as (w2 & E2 & H2).
  - intros l' Hl'. destruct (H l' ltac:(by right)) as (s' & b' & Hs' & Hb' & Hr').
    destruct H1 as [_ B1]. specialize (B1 (s', l_index l')). rewrite Hb' in B1. cbn in B1.
    eexists s', _. split_and!; [done|exact B1|..]; cbn [references set_references];
      rewrite holds_cons in Hr'; unfold bump; pose proof (b2z_range (bool_decide (lease_key l = Some (s', l_index l')))); lia.
  - exists w2. split; [done|]. eapply refs_changed_trans; [exact H1|exact H2|].
    intros k. rewrite holds_cons. unfold bump. lia.
Qed.

Lemma holds_le k ls : holds k ls <= zlen ls.
Proof. unfold holds, zlen. pose proof (List.filter_length_le (fun l => bool_decide (lease_key l = Some k)) ls). lia. Qed.

(** Sharing a lease of [src] when [out] has already been shared. *)
Lemma share_more w0 w src out l :
  live w0 src 17 -> refs_changed w0 w (fun k => holds k out) -> zlen out <= 16 -> l ∈ src ->
  exists w', lease_share w l = Ok (w', l) /\ refs_changed w0 w' (fun k => holds k (out ++ [l])).
Proof.
  intros Hlive Hch Hlen Hin. destruct (Hlive l Hin) as (s & b & Hs & Hb & H1 & H2).
  pose proof (holds_nonneg (s, l_index l) out). pose proof (holds_le (s, l_index l) out).
  pose proof Hch as [_ B]. specialize (B (s, l_index l)). rewrite Hb in B. cbn in B.
  destruct (lease_share_spec w l s _ Hs B) as (w' & E & H'); [cbn [references set_references]; lia|].
  exists w'. split; [done|]. eapply refs_changed_trans; [exact Hch|exact H'|].
  intros k. rewrite holds_app, holds_cons. change (holds k []) with 0. unfold bump. lia.
Qed.

Definition same_segment (src out : list BufferLease) (s s' : SegmentRef) : Prop :=
  out !! sg_lease s' = src !! sg_lease s /\ sg_offset s' = sg_offset s /\ sg_length s' = sg_length s.

Lemma retain_loop_spec src w0 frags w remap out outf :
  live w0 src 17 -> refs_changed w0 w (fun k => holds k out) ->
  length remap = MAX_LEASES -> (length src <= MAX_LEASES)%nat ->
  (forall j m, remap !! j = Some m -> m = MAX_LEASES \/ ((m < length out)%nat /\ out !! m = src !! j)) ->
  Forall (fun s => (sg_lease s < length src)%nat) frags ->
  (length out <= length outf)%nat -> (length outf + length frags <= MAX_FRAGMENTS)%nat ->
  exists w' out' new, retain_loop src frags w remap out outf = Ok (w', out ++ out', outf ++ new) /\
    refs_changed w0 w' (fun k => holds k (out ++ out')) /\
    Forall2 (same_segment src (out ++ out')) frags new /\
    (forall l, l ∈ out' -> l ∈ src) /\ (length out' <= length frags)%nat.
Proof.
  intros Hlive. revert w remap out outf.
  induction frags as [|s frags IH]; intros w remap out outf Hch Hrl Hsl Hmap HF Hlen Hcap.
  { exists w, [], []. rewrite !app_nil_r. split_and!; try done. intros l Hl. by apply not_elem_of_nil in Hl. }
  apply list.Forall_cons in HF as [Hs HF]. cbn [length] in Hcap. unfold MAX_LEASES, MAX_FRAGMENTS in *.
  assert (exists m, remap !! sg_lease s = Some m) as [m Hm] by (apply lookup_lt_is_Some_2; lia).
  cbn [retain_loop]. rewrite Hm. cbn [deref rbind]. unfold MAX_LEASES, MAX_FRAGMENTS.
  assert (Hfull : (16 <=? length outf)%nat = false) by (apply Nat.leb_gt; lia).
  destruct (Nat.eqb_spec m 18) as [->|Hne].
  - assert (exists l, src !! sg_lease s = Some l) as [l Hl] by (by apply lookup_lt_is_Some_2).
    rewrite Hl. cbn [deref rbind].
    destruct (share_more w0 w src out l Hlive Hch ltac:(unfold zlen; lia) ltac:(by eapply list_elem_of_lookup_2))
      as (w1 & -> & Hch1). cbn [rbind].
    assert (Hfo : (16 <=? length out)%nat = false) by (apply Nat.leb_gt; lia). rewrite Hfo. cbn [rbind]. rewrite Hfull.
    destruct (IH w1 (<[sg_lease s:=length out]> remap) (out ++ [l]) (outf ++ [mkSeg (length out) (sg_offset s) (sg_length s)]))
      as (w' & out' & new & E & Hch' & HF2 & Hin & Hlo); try done.
    + by rewrite length_insert.
    + intros j m' Hj. destruct (decide (j = sg_lease s)) as [->|Hjs].
      * rewrite list_lookup_insert_eq in Hj by lia. injection Hj as <-. right. rewrite length_app. cbn [length].
        split; [lia|]. rewrite Hl. by apply list_lookup_middle.
      * rewrite list_lookup_insert_ne in Hj by done. destruct (Hmap j m' Hj) as [?|[? ?]]; [by left|right].
        rewrite length_app, lookup_app_l by done. split; [lia|done].
    + rewrite !length_app. cbn [length]. lia.
    + rewrite length_app. cbn [length]. lia.
    + exists w', (l :: out'), (mkSeg (length out) (sg_offset s) (sg_length s) :: new).
      rewrite <- (app_assoc outf) in E. rewrite <- (app_assoc out) in E, Hch', HF2. cbn [app] in *. split_and!; try done.
      * constructor; [|done]. split; [|done]. cbn [sg_lease]. rewrite Hl. by apply list_lookup_middle.
      * intros l' [->|?]%elem_of_cons; [by eapply list_elem_of_lookup_2|by apply Hin].
      * cbn [length]. lia.
  - cbn [rbind]. rewrite Hfull. destruct (Hmap _ _ Hm) as [?|[Hlt Heq]]; [done|].
    destruct (IH w remap out (outf ++ [mkSeg m (sg_offset s) (sg_length s)]))
      as (w' & out' & new & E & Hch' & HF2 & Hin & Hlo); try done; try (rewrite length_app; cbn [length]; lia).
    exists w', out', (mkSeg m (sg_offset s) (sg_length s) :: new). rewrite <- (app_assoc outf) in E. split_and!; try done.
    + constructor; [|done]. split; [|done]. cbn [sg_lease]. by rewrite lookup_app_l.
    + cbn [length]. lia.
Qed.

(** ** Quotas *)

Definition quota_ok (q : QuotaState) : Prop := 0 <= q_active q <= q_limit q /\ q_limit q <= U64_MAX.

Definition add_active (n : Z) (q : QuotaState) : QuotaState := mkQuota (q_active q + n) (q_limit q) (q_enabled q).

Lemma take_quota_spec w q st :
  quotas w !! q = Some st -> quota_ok st ->
  exists ok : bool, take_quota w q = Ok (ok, if ok then set_quota w q (add_active 1 st) else w) /\
    (ok = true <-> q_enabled st = true /\ q_active st < q_limit st).
Proof.
  intros Hq [Ha Hl]. unfold take_quota. rewrite Hq. cbn [deref rbind].
  destruct (q_enabled st) eqn:He; cbn [negb]; [|exists false; split; [done|split; [done|by intros [? _]]]].
  destruct (Z.ltb_spec (q_active st) (q_limit st)).
  - exists true. unfold add_active. rewrite He. done.
  - exists false. split; [done|]. split; [done|]. intros [_ ?]. lia.
Qed.

Lemma give_quota_spec w q st :
  quotas w !! q = Some (add_active 1 st) -> quota_ok st ->
  give_quota w q = Ok (set_quota w q st).
Proof.
  intros Hq [Ha Hl]. unfold give_quota. rewrite Hq. cbn [deref rbind add_active q_active q_limit q_enabled].
  rewrite wrap64_small by lia. do 3 f_equal. destruct st. cbn. f_equal. lia.
Qed.

Lemma take_quotas_spec w c g :
  (c < length (quotas w))%nat -> (g < length (quotas w))%nat -> Forall quota_ok (quotas w) ->
  exists (w' : World) (ok : bool), take_quotas w c g = Ok (w', ok) /\ pools w' = pools w /\ Forall quota_ok (quotas w') /\
    if ok then
      forall w2, quotas w2 = quotas w' ->
        release_quotas w2 (Some c) (Some g) = Ok (mkWorld (pools w2) (quotas w))
    else quotas w' = quotas w.
Proof.
  intros Hc Hg HF. destruct (lookup_lt_is_Some_2 _ _ Hc) as [sc Ec]. destruct (lookup_lt_is_Some_2 _ _ Hg) as [sg Eg].
  pose proof (Forall_lookup_1 _ _ _ _ HF Ec) as Hoc. pose proof (Forall_lookup_1 _ _ _ _ HF Eg) as Hog.
  unfold take_quotas. destruct (take_quota_spec w c sc Ec Hoc) as (ok & -> & Hok). cbn [rbind].
  destruct ok; cbn [negb]; [|exists w, false; done].
  assert (Hsc : quota_ok (add_active 1 sc)) by (destruct Hok as [Hok _], (Hok eq_refl), Hoc; split; cbn; lia).
  destruct (Nat.eqb_spec c g) as [->|Hne].
  - eexists _, true. split; [done|]. split; [done|]. split; [by apply Forall_insert|].
    intros w2 Hw2. unfold release_quotas. rewrite (give_quota_spec w2 g sc), bool_decide_true; try done.
    + cbn [rbind]. unfold set_quota. rewrite Hw2. cbn [quotas]. do 2 f_equal.
      cbn [set_quota quotas]. by rewrite list_insert_insert_eq, list_insert_id.
    + rewrite Hw2. cbn. by rewrite list_lookup_insert_eq.
  - assert (Eg' : quotas (set_quota w c (add_active 1 sc)) !! g = Some sg) by (cbn; by rewrite list_lookup_insert_ne).
    destruct (take_quota_spec _ g sg Eg' Hog) as (ok2 & -> & Hok2). cbn [rbind]. destruct ok2.
    + eexists _, true. split; [done|]. split; [done|]. split.
      { cbn. apply Forall_insert; [by apply Forall_insert|]. destruct Hok2 as [Hok2 _], (Hok2 eq_refl), Hog. split; cbn; lia. }
      intros w2 Hw2. unfold release_quotas. rewrite (give_quota_spec w2 c sc); [|rewrite Hw2; cbn|done].
      2:{ rewrite list_lookup_insert_ne by done. by rewrite list_lookup_insert_eq. }
      cbn [rbind]. rewrite bool_decide_false by congruence.
      rewrite (give_quota_spec _ g sg); [|cbn; rewrite Hw2; cbn|done].
      2:{ rewrite list_lookup_insert_ne, list_lookup_insert_eq by (done || by rewrite ?length_insert). done. }
      unfold set_quota. cbn. rewrite Hw2. cbn. do 2 f_equal.
      rewrite (list_insert_insert_ne _ c g) by done. rewrite list_insert_insert_eq.
      rewrite list_insert_insert_eq.
      rewrite (list_insert_id _ c) by done. by rewrite list_insert_id.
    + rewrite (give_quota_spec _ c sc); [|cbn; by rewrite list_lookup_insert_eq|done]. cbn [rbind].
      eexists _, false. split; [done|]. cbn. rewrite list_insert_insert_eq, list_insert_id by done. done.
Qed.

(** ** Well-formed envelopes *)

Definition seg_ok (ls : list BufferLease) (s : SegmentRef) : Prop :=
  exists l, ls !! sg_lease s = Some l /\ 0 <= sg_offset s /\ 0 <= sg_length s /\
    sg_offset s + sg_length s <= l_used l.

Record rx_wf (rx : RxEnvelope) : Prop := mk_rx_wf {
  rx_wf_leases : (length (rx_leases rx) <= MAX_LEASES)%nat;
  rx_wf_used : Forall (fun l => u64 (l_used l)) (rx_leases rx);
  rx_wf_count : (length (rx_payload rx) <= MAX_FRAGMENTS)%nat;
  rx_wf_payload : Forall (seg_ok (rx_leases rx)) (rx_payload rx);
  rx_wf_prologue : from_option (seg_ok (rx_leases rx)) True (rx_prologue rx);
  rx_wf_trailer : from_option (seg_ok (rx_leases rx)) True (rx_trailer rx)
}.

Definition seg_typed (s : SegmentRef) : Prop := u64 (sg_offset s) /\ u64 (sg_length s).

Lemma rx_valid_ok rx s : rx_wf rx -> seg_typed s -> rx_valid rx s = true -> seg_ok (rx_leases rx) s.
Proof.
  intros [_ Hu _ _ _ _] [Ho Hl]. unfold rx_valid. destruct (rx_leases rx !! sg_lease s) as [l|] eqn:E; [|done].
  pose proof (Forall_lookup_1 _ _ _ _ Hu E) as Hul. cbn in Hul.
  intros [H1%Z.leb_le H2%Z.leb_le]%andb_true_iff. rewrite wrap64_small in H2 by zlia. exists l. split_and!; (done || zlia).
Qed.

Lemma seg_ok_app ls ls' s : seg_ok ls s -> seg_ok (ls ++ ls') s.
Proof. intros (l & Hl & H). exists l. split; [by apply lookup_app_l_Some|done]. Qed.

Lemma add_buffer_wf rx l i rx' : rx_wf rx -> u64 (l_used l) -> add_buffer rx l = Ok (i, rx') ->
  rx_wf rx' /\ rx_leases rx' !! i = Some l.
Proof.
  intros [Hl Hu Hc Hp Hpr Ht] Hul. unfold add_buffer. test_goal E1; [done|]. test_goal E2; [done|].
  apply Nat.eqb_neq in E2. intros [= <- <-]. split; [|cbn; by apply list_lookup_middle].
  split; cbn; try done.
  - rewrite length_app. cbn [length]. lia.
  - apply Forall_app. split; [done|]. by apply List.Forall_cons.
  - eapply List.Forall_impl; [|exact Hp]. intros s. apply seg_ok_app.
  - destruct (rx_prologue rx); [by apply seg_ok_app|done].
  - destruct (rx_trailer rx); [by apply seg_ok_app|done].
Qed.

Lemma append_payload_wf rx s rx' : rx_wf rx -> seg_typed s -> append_payload rx s = Ok rx' -> rx_wf rx'.
Proof.
  intros Hwf Hs. unfold append_payload. test_goal E1; [done|]. test_goal E2; [done|].
  apply orb_false_iff in E1 as [Hv%negb_false_iff _]. apply Nat.eqb_neq in E2. intros [= <-].
  pose proof (rx_valid_ok rx s Hwf Hs Hv). destruct Hwf. split; cbn; try done.
  - rewrite length_app. cbn [length]. lia.
  - apply Forall_app. split; [done|]. by apply List.Forall_cons.
Qed.

Lemma set_prologue_wf w rx s rx' : rx_wf rx -> seg_typed s -> set_prologue w rx s = Ok rx' -> rx_wf rx'.
Proof.
  intros Hwf Hs. unfold set_prologue. test_goal E1; [done|]. apply negb_false_iff in E1.
  pose proof (rx_valid_ok rx s Hwf Hs E1). destruct (deref _); [|done|done]. cbn [rbind].
  destruct (lease_bytes w a); [|done|done]. intros [= <-]. destruct Hwf. split; done.
Qed.

Lemma set_trailer_wf rx s rx' : rx_wf rx -> seg_typed s -> set_trailer rx s = Ok rx' -> rx_wf rx'.
Proof.
  intros Hwf Hs. unfold set_trailer. test_goal E1; [done|]. apply negb_false_iff in E1.
  pose proof (rx_valid_ok rx s Hwf Hs E1). intros [= <-]. destruct Hwf. split; done.
Qed.

(** A segment of a held lease is inside the bytes of the lease. *)
Lemma segment_span_spec w ls s room : live w ls room -> seg_ok ls s ->
  match segment_span w ls s with
  | Ok sp => exists l b, ls !! sg_lease s = Some l /\ lease_bytes w l = Ok b /\
      sp = mkSpan (sp_address b + sg_offset s) (sg_length s) /\
      sp_address b <= sp_address sp /\ sp_address sp + sp_length sp <= sp_address b + sp_length b
  | Err e => e = error1 ErrorCode.no_cpu_access
  | UB => False
  end.
Proof.
  intros Hlive (l & Hl & Ho & Hn & Hu). unfold segment_span. rewrite Hl. cbn [deref rbind].
  destruct (Hlive l ltac:(by eapply list_elem_of_lookup_2)) as (st & b & Hs & Hb & _).
  unfold lease_bytes, lease_block. rewrite Hs. unfold block_of in Hb. cbn in Hb.
  destruct (pools w !! st) as [p|] eqn:Hp; [|done]. cbn in Hb. cbn [deref rbind]. rewrite Hb. cbn [deref rbind].
  destruct (nonzero (address b)) eqn:Hz; cbn [negb rbind]; [|done].
  unfold sub_span. cbn [sp_length sp_address]. rewrite !(proj2 (Z.ltb_ge _ _)) by lia. cbn [orb].
  exists l, (mkSpan (address b) (l_used l)). rewrite Hs. cbn [deref rbind]. rewrite Hp. cbn [deref rbind]. rewrite Hb.
  cbn [deref rbind]. rewrite Hz. cbn [negb sp_address sp_length]. split_and!; (done || lia).
Qed.

Lemma Forall2_same_fragment src out fs fs' i w : Forall2 (same_segment src out) fs fs' ->
  match fs' !! i with Some s => segment_span w out s | None => Err (error1 ErrorCode.invalid_argument) end =
  match fs !! i with Some s => segment_span w src s | None => Err (error1 ErrorCode.invalid_argument) end.
Proof.
  intros H. revert i. induction H as [|s s' fs fs' (E1 & E2 & E3) HF IH]; intros [|i]; [done|done| |apply IH].
  cbn. unfold segment_span. by rewrite E1, E2, E3.
Qed.

(** Dropping leases shared from live ones returns every count to what it was. *)
Lemma reset_shared w0 w src out :
  live w0 src 17 -> refs_changed w0 w (fun k => holds k out) -> (forall l, l ∈ out -> l ∈ src) -> zlen out <= 16 ->
  exists w', reset_all w out = Ok w' /\ quotas w' = quotas w /\ forall k, block_of w' k = block_of w0 k.
Proof.
  intros Hlive Hch Hin Hlen. destruct (reset_all_spec out w) as (w' & E & H').
  { intros l Hl. destruct (Hlive l (Hin l Hl)) as (s & b & Hs & Hb & H1 & H2). pose proof Hch as [_ B].
    specialize (B (s, l_index l)). rewrite Hb in B. cbn in B. eexists s, _. split_and!; [done|exact B|..];
      cbn [references set_references]; pose proof (holds_le (s, l_index l) out); lia. }
  exists w'. split; [done|]. split; [apply H'|]. intros k.
  assert (H0 : refs_changed w0 w' (fun _ => 0)) by (eapply refs_changed_trans; [exact Hch|exact H'|intros; cbn; lia]).
  destruct H0 as [_ B]. rewrite B. destruct (block_of w0 k) as [b|]; [|done]. cbn. by rewrite Z.add_0_r, set_references_same.
Qed.

(** ** Acquiring outgoing storage *)

Lemma lease_acquire_spec w s r : (forall k b, block_of w k = Some b -> 0 <= references b) ->
  match lease_acquire w s r with
  | (Ok l, w') => refs_changed w w' (bump l) /\ l_state l = Some s /\ l_used l = 0 /\
      exists b, block_of w (s, l_index l) = Some b /\ references b = 0 /\ fits r b = true
  | (Err _, w') => refs_changed w w' (fun _ => 0)
  | (UB, _) => False
  end.
Proof.
  intros Hw. unfold lease_acquire. destruct (pools w !! s) as [p|] eqn:Hp; [|apply refs_changed_refl].
  pose proof (pool_acquire_cases p r) as H. destruct (pool_acquire p r) as [[i|e|] p']; cbn; [| |done].
  - destruct H as (b & Hb & [Hz Hf] & -> & _).
    split_and!; try done; [|exists b; split_and!; try done; unfold block_of; cbn; by rewrite Hp].
    split; [done|]. intros k. unfold set_block. rewrite (block_of_insert w s p i b) by done.
    unfold bump, lease_key. cbn. destruct (decide (k = (s, i))) as [->|Hne].
    + rewrite bool_decide_true by done. unfold block_of. cbn. rewrite Hp. cbn. rewrite Hb. cbn. by rewrite Hz.
    + rewrite bool_decide_false by congruence. destruct (block_of w k) as [c|]; [|done]. cbn.
      by rewrite Z.add_0_r, set_references_same.
  - destruct H as [-> _]. split; [done|]. intros k. unfold block_of, set_pool. cbn.
    destruct (decide (k.1 = s)) as [E|Hne].
    + rewrite E, list_lookup_insert_eq, Hp by (by eapply lookup_lt_Some). cbn.
      destruct (blocks p !! k.2) as [c|]; [|done]. cbn. by rewrite Z.add_0_r, set_references_same.
    + rewrite list_lookup_insert_ne by done. destruct (pools w !! k.1) as [q|]; [|done]. cbn.
      destruct (blocks q !! k.2) as [c|]; [|done]. cbn. by rewrite Z.add_0_r, set_references_same.
Qed.

(** The leases a storage has taken from blocks that were free in [w0]. *)
Record tx_taken (w0 w : World) (ls : list BufferLease) : Prop := mk_tx_taken {
  taken_changed : refs_changed w0 w (fun k => holds k ls);
  taken_free : forall l, l ∈ ls -> exists s b, l_state l = Some s /\ block_of w0 (s, l_index l) = Some b /\ references b = 0
}.

Lemma holds_key k l l' ls : lease_key l = lease_key l' -> holds k (l :: ls) = holds k (l' :: ls).
Proof. intros E. by rewrite !holds_cons, E. Qed.

Lemma tx_release w0 w ls : tx_taken w0 w ls -> zlen ls < SIZE_MAX ->
  exists w', reset_all w ls = Ok w' /\ quotas w' = quotas w0 /\ forall k, block_of w' k = block_of w0 k.
Proof.
  intros [Hch Hfree] Hlen. destruct (reset_all_spec ls w) as (w' & E & H').
  { intros l Hl. destruct (Hfree l Hl) as (s & b & Hs & Hb & Hz). pose proof Hch as [_ B].
    specialize (B (s, l_index l)). rewrite Hb in B. cbn in B. eexists s, _. split_and!; [done|exact B|..];
      cbn [references set_references]; pose proof (holds_le (s, l_index l) ls); lia. }
  assert (H0 : refs_changed w0 w' (fun _ => 0)) by (eapply refs_changed_trans; [exact Hch|exact H'|intros; cbn; lia]).
  destruct H0 as [Q B]. exists w'. split; [done|]. split; [done|]. intros k. rewrite B.
  destruct (block_of w0 k) as [b|]; [|done]. cbn. by rewrite Z.add_0_r, set_references_same.
Qed.

Lemma reset_all_app w a b : reset_all w (a ++ b) = let? w := reset_all w a in reset_all w b.
Proof. revert w. induction a as [|l a IH]; intros w; [done|]. cbn. destruct (lease_reset w l); cbn; auto. Qed.

Lemma tx_fail_spec w0 w t extra e : tx_taken w0 w (extra ++ tx_leases t) -> zlen (extra ++ tx_leases t) < SIZE_MAX ->
  exists w', tx_fail w t extra e = Ok (Err e, w') /\ quotas w' = quotas w0 /\ forall k, block_of w' k = block_of w0 k.
Proof.
  intros H Hl. destruct (tx_release w0 w _ H Hl) as (w' & E & Hw'). rewrite reset_all_app in E.
  unfold tx_fail. destruct (reset_all w extra) as [w1| |]; [|done|done]. cbn [rbind] in *. rewrite E. by exists w'.
Qed.

(** What the segments of a storage satisfy. *)
Record tx_wf (t : TxStorage) : Prop := mk_tx_wf {
  tx_wf_length : length (tx_leases t) = length (tx_segments t);
  tx_wf_max : (length (tx_segments t) <= MAX_TX)%nat;
  tx_wf_size : foldr (fun s n => sg_length s + n) 0 (tx_segments t) <= U64_MAX;
  tx_wf_segments : forall i s l, tx_segments t !! i = Some s -> tx_leases t !! i = Some l ->
    is_some (l_state l) = true /\ 0 <= sg_offset s /\ 0 < sg_length s /\ sg_offset s + sg_length s <= l_used l
}.

Lemma tx_total_app ss s : foldr (fun s n => sg_length s + n) 0 (ss ++ [s]) = foldr (fun s n => sg_length s + n) 0 ss + sg_length s.
Proof. induction ss; cbn; lia. Qed.

Lemma tx_total_nonneg t : tx_wf t -> 0 <= foldr (fun s n => sg_length s + n) 0 (tx_segments t).
Proof.
  intros [Hl _ _ Hs]. destruct t as [ls ss]. cbn in *. revert ls Hl Hs.
  induction ss as [|s ss IH]; intros [|l ls] Hl Hs; try done. cbn. cbn in Hl.
  assert (0 <= foldr (fun s n => sg_length s + n) 0 ss).
  { apply (IH ls); [lia|]. intros i s' l' E1 E2. by apply (Hs (S i)). }
  destruct (Hs 0%nat s l eq_refl eq_refl) as (_ & _ & ? & _). lia.
Qed.

Lemma tx_append_wf t l offset n t' : tx_wf t -> u64 (l_used l) -> u64 offset -> u64 n ->
  tx_append t l offset n = Ok t' ->
  tx_wf t' /\ tx_leases t' = tx_leases t ++ [l] /\ tx_segments t' = tx_segments t ++ [mkSeg (length (tx_segments t)) offset n].
Proof.
  intros Hwf Hu Ho Hn. pose proof (tx_total_nonneg t Hwf) as Hnn. destruct Hwf as [Hl Hm Hs Hseg]. unfold tx_append.
  test_goal E1; [done|]. test_goal E2; [done|]. test_goal E3; [done|]. intros [= <-].
  rewrite !orb_false_iff in E1. destruct E1 as (((Hst & Hou%Z.ltb_ge) & Hln%Z.ltb_ge) & Hz).
  apply Nat.eqb_neq in E2. apply Z.ltb_ge in E3. unfold tx_byte_size in E3. rewrite wrap64_small in E3 by lia.
  rewrite wrap64_small in Hln by zlia. unfold nonzero in Hz. rewrite negb_involutive in Hz. apply Z.eqb_neq in Hz.
  split; [|done]. split; cbn [tx_leases tx_segments].
  - rewrite !length_app. cbn [length]. lia.
  - rewrite length_app. cbn [length]. lia.
  - rewrite tx_total_app. cbn [sg_length]. unfold SIZE_MAX in E3. lia.
  - intros i s l'. rewrite !lookup_snoc_Some, Hl. intros [[? E]|[-> <-]] [[? E']|[? <-]]; try lia.
    + by apply (Hseg i).
    + cbn. split; [by destruct (l_state l)|]. zlia.
Qed.

Lemma tx_taken_cons w0 w w' ls l l' s b :
  tx_taken w0 w ls -> refs_changed w w' (bump l) -> l_state l = Some s -> lease_key l' = lease_key l ->
  l_index l' = l_index l -> l_state l' = l_state l ->
  block_of w (s, l_index l) = Some b -> references b = 0 ->
  (forall k b, block_of w0 k = Some b -> 0 <= references b) ->
  tx_taken w0 w' (l' :: ls).
Proof.
  intros [Hch Hfree] H1 Hs Hk Hi Hst Hb Hz H0. split.
  - eapply refs_changed_trans; [exact Hch|exact H1|]. intros k. rewrite holds_cons, Hk. unfold bump. lia.
  - intros x [->|Hx]%elem_of_cons; [|by apply Hfree]. destruct Hch as [_ B]. specialize (B (s, l_index l)).
    rewrite Hb in B. destruct (block_of w0 (s, l_index l)) as [b0|] eqn:E0; [|done]. cbn in B. injection B as B.
    exists s, b0. rewrite Hst, Hi, Hs, E0. split_and!; try done.
    apply (f_equal references) in B. cbn in B. specialize (H0 _ _ E0). pose proof (holds_nonneg (s, l_index l) ls). lia.
Qed.

Lemma holds_perm k a l : holds k (a ++ [l]) = holds k (l :: a).
Proof. rewrite holds_app, !holds_cons. change (holds k []) with 0. lia. Qed.

Lemma tx_taken_snoc w0 w ls l : tx_taken w0 w (l :: ls) -> tx_taken w0 w (ls ++ [l]).
Proof.
  intros [Hch Hf]. split.
  - eapply refs_changed_trans; [exact Hch|apply refs_changed_refl|]. intros k. rewrite holds_perm. lia.
  - intros x [?|E]%elem_of_app; apply Hf; [by right|]. apply list_elem_of_singleton in E as ->. by left.
Qed.

Definition request_typed (r : BufferRequest) : Prop := u64 (rq_capacity r) /\ u64 (rq_alignment r).

Lemma refs_changed_nonneg w w' f : refs_changed w w' f -> (forall k, 0 <= f k) ->
  (forall k b, block_of w k = Some b -> 0 <= references b) ->
  (forall k b, block_of w' k = Some b -> 0 <= references b).
Proof.
  intros [_ B] Hf H k b Hb. rewrite B in Hb. destruct (block_of w k) as [b0|] eqn:E; [|done]. cbn in Hb.
  injection Hb as <-. cbn. specialize (H _ _ E). specialize (Hf k). lia.
Qed.

Lemma tx_acquire_loop_spec w0 pool rs w t :
  (forall k b, block_of w0 k = Some b -> 0 <= references b) -> Forall request_typed rs ->
  tx_wf t -> tx_taken w0 w (tx_leases t) -> (length (tx_segments t) + length rs <= MAX_TX)%nat ->
  exists r w', tx_acquire_loop w pool rs t = Ok (r, w') /\
    match r with
    | Ok t' => tx_wf t' /\ tx_taken w0 w' (tx_leases t') /\
        (sg_length <$> tx_segments t') = (sg_length <$> tx_segments t) ++ (rq_capacity <$> rs)
    | Err _ => quotas w' = quotas w0 /\ forall k, block_of w' k = block_of w0 k
    | UB => False
    end.
Proof.
  intros H0. revert w t. induction rs as [|r rs IH]; intros w t HF Hwf Ht Hlen.
  { exists (Ok t), w. rewrite app_nil_r. done. }
  apply list.Forall_cons in HF as [[Hrc Hra] HF]. cbn [length] in Hlen.
  assert (Hw : forall k b, block_of w k = Some b -> 0 <= references b).
  { eapply refs_changed_nonneg; [apply (taken_changed _ _ _ Ht)|intros; apply holds_nonneg|done]. }
  assert (Hsmall : forall l, zlen ([l] ++ tx_leases t) < SIZE_MAX).
  { intros l. unfold zlen. rewrite length_app, (tx_wf_length t Hwf). unfold MAX_TX in Hlen. cbn [length]. zlia. }
  cbn [tx_acquire_loop]. pose proof (lease_acquire_spec w pool r Hw) as Ha.
  destruct (lease_acquire w pool r) as [[l|e|] w1]; [| |done].
  - destruct Ha as (Hch & Hs & Hu & b & Hb & Hz & Hf). cbn.
    assert (Hset : lease_set_size w1 l (rq_capacity r) = Ok (mkLease (l_state l) (l_index l) (rq_capacity r))).
    { unfold lease_set_size, lease_capacity, lease_block. rewrite Hs. cbn [is_none].
      destruct Hch as [_ B]. specialize (B (pool, l_index l)). rewrite Hb in B. cbn in B. unfold block_of in B. cbn in B.
      destruct (pools w1 !! pool) as [p1|]; [|done]. cbn in B. cbn [deref rbind]. rewrite B. cbn [deref rbind capacity set_references].
      unfold fits in Hf. rewrite !andb_true_iff in Hf. destruct Hf as (((?%Z.leb_le & _) & _) & _).
      by rewrite (proj2 (Z.ltb_ge _ _)) by done. }
    rewrite Hset. set (l' := mkLease (l_state l) (l_index l) (rq_capacity r)).
    assert (Ht' : tx_taken w0 w1 (l' :: tx_leases t)).
    { by apply (tx_taken_cons w0 w w1 (tx_leases t) l l' pool b). }
    destruct (tx_append t l' 0 (rq_capacity r)) as [t'|e|] eqn:Eap.
    + destruct (tx_append_wf t l' 0 (rq_capacity r) t' Hwf Hrc ltac:(zlia) Hrc Eap) as (Hwf' & El & Es).
      destruct (IH w1 t' HF Hwf') as (res & w' & E & Hres).
      * rewrite El. by apply tx_taken_snoc.
      * rewrite Es, length_app. cbn [length]. lia.
      * exists res, w'. split; [done|]. destruct res as [t2| |]; [|done|done].
        destruct Hres as (? & ? & Hseg). split_and!; try done. rewrite Hseg, Es, fmap_app, <- app_assoc. done.
    + destruct (tx_fail_spec w0 w1 t [l'] e Ht' (Hsmall l')) as (w' & E & ?). by exists (Err e), w'.
    + unfold tx_append in Eap. destruct (_ || _); [done|]. destruct (_ =? _)%nat; [done|]. destruct (_ <? _); done.
  - destruct (tx_fail_spec w0 w1 t [] e) as (w' & E & ?).
    + destruct Ht as [Hch' Hf']. split; [|done]. eapply refs_changed_trans; [exact Hch'|exact Ha|]. intros; cbn; lia.
    + specialize (Hsmall empty_lease). unfold zlen in *. rewrite length_app in Hsmall. cbn [app]. cbn [length] in Hsmall. lia.
    + by exists (Err e), w'.
Qed.

(** ** Outgoing storage as segmented storage *)

(** What lies at an address is not part of the pool; a storage is read against the
    pools and the memory. *)
Record TxReader := mkReader { rd_world : World; rd_memory : Z -> byte; rd_tx : TxStorage }.

Definition read_span (m : Z -> byte) (s : Span) : list byte :=
  (fun i => m (sp_address s + Z.of_nat i)) <$> seq 0 (Z.to_nat (sp_length s)).

#[export] Instance tx_storage : SegmentedStorage TxReader := {
  byte_size r := tx_byte_size (rd_tx r);
  segment_count r := length (tx_segments (rd_tx r));
  segment r i := rmap (read_span (rd_memory r)) (tx_segment (rd_world r) (rd_tx r) i)
}.

(** The leases refer to blocks the CPU can read. *)
Definition readable (w : World) (t : TxStorage) : Prop :=
  forall l, l ∈ tx_leases t -> exists s b, l_state l = Some s /\ block_of w (s, l_index l) = Some b /\ address b <> 0.

Lemma tx_segment_readable w t i s : tx_wf t -> readable w t -> tx_segments t !! i = Some s ->
  exists a, tx_segment w t i = Ok (mkSpan a (sg_length s)).
Proof.
  intros [Hl _ _ Hseg] Hr Hi. unfold tx_segment. rewrite Hi.
  assert (exists l, tx_leases t !! i = Some l) as [l El] by (apply lookup_lt_is_Some_2; rewrite Hl; by eapply lookup_lt_Some).
  destruct (Hseg i s l Hi El) as (_ & Ho & Hn & Hu). rewrite El. cbn [deref rbind].
  destruct (Hr l ltac:(by eapply list_elem_of_lookup_2)) as (st & b & Hs & Hb & Ha).
  unfold lease_bytes, lease_block. rewrite Hs. unfold block_of in Hb. cbn in Hb.
  destruct (pools w !! st) as [p|]; [|done]. cbn in Hb. cbn [deref rbind]. rewrite Hb. cbn [deref rbind].
  unfold nonzero. rewrite (proj2 (Z.eqb_neq _ _)) by done. cbn [negb rbind].
  unfold sub_span. cbn [sp_length sp_address]. rewrite !(proj2 (Z.ltb_ge _ _)) by lia. cbn [orb]. eauto.
Qed.

(** The memory component discharges the interface [inspect] is proved against. *)
Lemma tx_storage_parts r : tx_wf (rd_tx r) -> readable (rd_world r) (rd_tx r) ->
  exists parts, storage_parts r parts.
Proof.
  intros Hwf Hr. set (t := rd_tx r) in *.
  assert (Hspan : forall i s, tx_segments t !! i = Some s -> exists a, tx_segment (rd_world r) t i = Ok (mkSpan a (sg_length s)))
    by (intros; by apply tx_segment_readable).
  pose proof (tx_wf_size t Hwf) as Hsz. pose proof (tx_total_nonneg t Hwf) as Hnn.
  assert (Hparts : exists parts, length parts = length (tx_segments t) /\
    (forall i p, parts !! i = Some p -> rmap (read_span (rd_memory r)) (tx_segment (rd_world r) t i) = Ok p) /\
    zlen (concat parts) = foldr (fun s n => sg_length s + n) 0 (tx_segments t)).
  { destruct Hwf as [Hl _ _ Hseg].
    assert (Hpos : forall i s, tx_segments t !! i = Some s -> 0 < sg_length s).
    { intros i s Hi. assert (exists l, tx_leases t !! i = Some l) as [l El]
        by (apply lookup_lt_is_Some_2; rewrite Hl; by eapply lookup_lt_Some). by destruct (Hseg i s l Hi El) as (_ & _ & ? & _). }
    clear Hl Hseg Hsz Hnn. revert Hspan Hpos. generalize (tx_segment (rd_world r) t). generalize (tx_segments t).
    induction l as [|s l IH]; intros f Hspan Hpos; [by exists []|].
    destruct (IH (fun i => f (S i))) as (parts & E1 & E2 & E3); [intros i; apply (Hspan (S i))|intros i; apply (Hpos (S i))|].
    destruct (Hspan 0%nat s eq_refl) as [a Ea]. pose proof (Hpos 0%nat s eq_refl).
    exists (read_span (rd_memory r) (mkSpan a (sg_length s)) :: parts). split_and!; [cbn; lia| |].
    - intros [|i] p Hp; cbn in Hp; [|by apply E2]. injection Hp as <-. by rewrite Ea.
    - cbn. rewrite zlen_app, E3. unfold read_span. cbn [sp_length]. unfold zlen. rewrite length_fmap, length_seq. lia. }
  destruct Hparts as (parts & E1 & E2 & E3). exists parts. split; [done|]. split; [done|].
  cbn. unfold tx_byte_size. fold t. rewrite wrap64_small by lia. done.
Qed.

(** ** Properties *)

(** Retaining a received packet gives access to exactly its payload: every fragment
    of the retained packet is the same bytes as the fragment of the envelope, inside a
    buffer it holds; a refused retain leaves quotas and buffers as they were; and
    dropping the retained packet returns every reference count and both quotas to their
    values before. *)
Theorem retain_faithful w rx consumer global :
  rx_wf rx -> live w (rx_leases rx) 17 ->
  (consumer < length (quotas w))%nat -> (global < length (quotas w))%nat -> Forall quota_ok (quotas w) ->
  exists r w', rx_retain w rx consumer global = Ok (r, w') /\ Forall quota_ok (quotas w') /\
    match r with
    | Ok rt =>
        (forall i, retained_fragment w' rt i = rx_fragment w rx i /\ safe (retained_fragment w' rt i)) /\
        exists w2, retained_reset w' rt = Ok w2 /\ quotas w2 = quotas w /\ forall k, block_of w2 k = block_of w k
    | Err e => quotas w' = quotas w /\ pools w' = pools w
    | UB => False
    end.
Proof.
  intros Hwf Hlive Hc Hg HQ. unfold rx_retain. destruct (rx_payload rx) as [|f fs] eqn:Epay; [by exists (Err (error1 ErrorCode.invalid_state)), w|].
  destruct (take_quotas_spec w consumer global Hc Hg HQ) as (w1 & ok & -> & Hp1 & HQ1 & Hok). cbn [rbind].
  destruct ok; cbn [negb]; [|by exists (Err (error1 ErrorCode.capacity_exhausted)), w1].
  assert (Hb1 : forall k, block_of w1 k = block_of w k) by (intros k; unfold block_of; by rewrite Hp1).
  assert (Hlive1 : live w1 (rx_leases rx) 17).
  { intros l Hl. destruct (Hlive l Hl) as (s & b & ? & ? & ?). exists s, b. by rewrite Hb1. }
  destruct Hwf as [Hln Hu Hcnt Hpay _ _]. rewrite Epay in *.
  destruct (retain_loop_spec (rx_leases rx) w1 (f :: fs) w1 (replicate MAX_LEASES MAX_LEASES) [] [])
    as (w2 & out & new & E & Hch & HF2 & Hin & Hlo); try done.
  - eapply refs_changed_trans; [apply refs_changed_refl..|done].
  - intros j m Hj. apply lookup_replicate in Hj as [-> _]. by left.
  - eapply List.Forall_impl; [|exact Hpay]. intros s (l & Hl & _). by eapply lookup_lt_Some.
  - cbn [app] in *. rewrite E. cbn [rbind]. eexists _, w2. split; [done|]. pose proof Hch as [Hq2 _].
    split; [by rewrite Hq2|]. split.
    + intros i. assert (Hsame : retained_fragment w2 (mkRetained out new (Some consumer) (Some global)) i = rx_fragment w rx i).
      { unfold retained_fragment, rx_fragment. cbn [rt_fragments rt_leases]. rewrite Epay.
        rewrite (Forall2_same_fragment _ _ _ _ i w2 HF2). destruct ((f :: fs) !! i) as [s|]; [|done].
        rewrite (refs_changed_segment w1 w2 _ _ _ Hch). unfold segment_span.
        destruct (rx_leases rx !! sg_lease s); [|done]. cbn [deref rbind]. unfold lease_bytes, lease_block. by rewrite Hp1. }
      split; [done|]. rewrite Hsame. unfold rx_fragment. rewrite Epay. destruct ((f :: fs) !! i) as [s|] eqn:Ei; [|done].
      pose proof (segment_span_spec w (rx_leases rx) s 17 Hlive (Forall_lookup_1 _ _ _ _ Hpay Ei)) as Hsp.
      by destruct (segment_span w (rx_leases rx) s).
    + destruct (reset_shared w1 w2 (rx_leases rx) out Hlive1 Hch Hin) as (w3 & E3 & Hq3 & Hb3).
      { unfold zlen, MAX_FRAGMENTS in *. lia. }
      unfold retained_reset. cbn [rt_leases rt_consumer rt_global]. rewrite E3. cbn [rbind].
      rewrite (Hok w3) by congruence. eexists. split; [done|]. split; [done|]. intros k. rewrite <- Hb1, <- Hb3. done.
Qed.

(** Acquiring outgoing storage is all or nothing: on success the storage has one
    segment of the requested length per request, each inside its buffer; on failure
    every reference count and quota is as it was before the call. *)
Theorem tx_acquire_atomic w pool rs :
  (forall k b, block_of w k = Some b -> 0 <= references b) -> Forall request_typed rs ->
  exists r w', tx_acquire w pool rs = Ok (r, w') /\
    match r with
    | Ok t => tx_wf t /\ (sg_length <$> tx_segments t) = (rq_capacity <$> rs) /\
        refs_changed w w' (fun k => holds k (tx_leases t))
    | Err _ => quotas w' = quotas w /\ forall k, block_of w' k = block_of w k
    | UB => False
    end.
Proof.
  intros H0 HF. unfold tx_acquire. destruct (Nat.ltb_spec MAX_TX (length rs)); [by exists (Err (error1 ErrorCode.capacity_exhausted)), w|].
  destruct (tx_acquire_loop_spec w pool rs w tx_empty H0 HF) as (r & w' & E & Hr); [..|exists r, w'; split; [done|]].
  - split; cbn; try done; unfold MAX_TX; try lia; zlia.
  - split; [|intros l Hl; by apply not_elem_of_nil in Hl].
    eapply refs_changed_trans; [apply refs_changed_refl..|done].
  - cbn. lia.
  - destruct r as [t| |]; [|done|done]. destruct Hr as (? & [? _] & ?). done.
Qed.

(** Inspecting outgoing storage in place is decoding its concatenated bytes: a
    well-formed storage whose buffers the CPU can read satisfies the interface of
    [inspect], which therefore accepts it exactly when [decode_envelope] accepts the
    bytes of its segments in order. *)
Theorem tx_inspect_decodes r :
  tx_wf (rd_tx r) -> readable (rd_world r) (rd_tx r) ->
  exists parts, (forall i p, parts !! i = Some p -> segment r i = Ok p) /\
    length parts = length (tx_segments (rd_tx r)) /\
    inspect r = rmap framing_of (decode_envelope (concat parts)).
Proof.
  intros Hwf Hr. destruct (tx_storage_parts r Hwf Hr) as [parts Hp]. exists parts.
  pose proof Hp as (E1 & E2 & _). split_and!; [done|by rewrite <- E1|by apply inspect_decode_aux].
Qed.

(** ** Witnesses *)

Definition sample_world : World :=
  mkWorld [mkPool [mkBlock (Some 1) 4096 64 8 1 MemoryDomain.cpu 0 None 0;
                   mkBlock (Some 1) 8192 64 8 0 MemoryDomain.cpu 0 (Some 7) 9] 0 []]
          [mkQuota 0 2 true; mkQuota 1 2 true].
Definition sample_rx : RxEnvelope :=
  mkRx [mkLease (Some 0%nat) 0 40] [mkSeg 0 8 16; mkSeg 0 24 12] (Some (mkSeg 0 0 8)) None.

Lemma sample_rx_wf : rx_wf sample_rx.
Proof.
  split; cbn; try (unfold MAX_LEASES, MAX_FRAGMENTS; lia); try done.
  - apply List.Forall_cons; [cbn; zlia|apply List.Forall_nil].
  - repeat (apply List.Forall_cons; [eexists; split; [reflexivity|cbn; lia]|]). apply List.Forall_nil.
  - eexists. split; [reflexivity|cbn; lia].
Qed.
Lemma sample_rx_live : live sample_world (rx_leases sample_rx) 17.
Proof.
  intros l Hl. apply list_elem_of_singleton in Hl as ->. eexists _, _. split; [reflexivity|]. split; [reflexivity|].
  cbn. zlia.
Qed.

Lemma retain_faithful_witness :
  exists rt w', rx_retain sample_world sample_rx 0 1 = Ok (Ok rt, w') /\
    retained_fragment w' rt 1 = Ok (mkSpan 4120 12).
Proof.
  destruct (retain_faithful sample_world sample_rx 0 1 sample_rx_wf sample_rx_live) as (r & w' & E & _ & H);
    [cbn; lia|cbn; lia| |].
  { repeat (apply List.Forall_cons; [split; cbn; zlia|]). apply List.Forall_nil. }
  destruct r as [rt|e|]; [|vm_compute in E; discriminate E|destruct H].
  exists rt, w'. split; [exact E|]. destruct H as [H _]. rewrite (proj1 (H 1%nat)). vm_compute. reflexivity.
Defined.

Lemma tx_acquire_atomic_witness :
  exists e w', tx_acquire sample_world 0 [mkRequest 32 8 MemoryDomain.cpu true; mkRequest 32 8 MemoryDomain.cpu true] = Ok (Err e, w') /\
    block_of w' (0%nat, 1%nat) = block_of sample_world (0%nat, 1%nat).
Proof.
  destruct (tx_acquire_atomic sample_world 0 [mkRequest 32 8 MemoryDomain.cpu true; mkRequest 32 8 MemoryDomain.cpu true])
    as (r & w' & E & H).
  { intros [[|[|s]] [|[|[|i]]]] b Hb; vm_compute in Hb; try discriminate Hb; injection Hb as <-; cbn; lia. }
  { repeat (apply List.Forall_cons; [split; cbn; zlia|]). apply List.Forall_nil. }
  destruct r as [t|e|]; [vm_compute in E; discriminate E| |destruct H].
  exists e, w'. split; [exact E|apply H].
Defined.

Lemma tx_inspect_decodes_witness :
  let r := mkReader sample_world (fun a => if a =? 4099 then x02 else x00)
             (mkTx [mkLease (Some 0%nat) 0 8] [mkSeg 0 0 8]) in
  exists parts, inspect r = rmap framing_of (decode_envelope (concat parts)) /\ is_ok (inspect r) = true.
Proof.
  intros r. destruct (tx_inspect_decodes r) as (parts & _ & _ & E).
  - split; cbn; try (unfold MAX_TX; lia); try zlia. intros [|i] s l; [|done]. cbn. intros [= <-] [= <-]. cbn. lia.
  - intros l Hl. apply list_elem_of_singleton in Hl as ->. eexists _, _. split; [reflexivity|]. split; [reflexivity|]. done.
  - exists parts. split; [exact E|]. vm_compute. reflexivity.
Defined.
