(* ===== verification/Admission.v ===== *)
(** * Admission credits: [include/vita/runtime/execution/admission.hpp]

    An [AdmissionPool] counts how much of each of fourteen resources is in use; an
    [AdmissionBundle] holds credits and gives them back when it is reset.  The
    mutex sections are the atomic steps of [admission_step]. *)

From stdpp Require Import relations.
From S2P Require Import Prelude Time.

(** The enumerators of [Resource], as indices of the count arrays. *)
Module Resource.
Definition transaction := 0%nat.
Definition plan_bytes := 1%nat.
Definition schedule := 2%nat.
Definition revision := 3%nat.
Definition completion := 4%nat.
Definition response := 5%nat.
Definition duplicate_entry := 6%nat.
Definition duplicate_bytes := 7%nat.
Definition context_publication := 8%nat.
Definition ordinary_queue := 9%nat.
Definition cancellation_queue := 10%nat.
Definition cancellation_response := 11%nat.
Definition emergency_response := 12%nat.
Definition data_queue := 13%nat.
Definition count := 14%nat.
End Resource.
Definition resource_count : nat := Resource.count.

Record AdmissionRequest := mkAdmission { counts : list Z; valid_request : bool }.
Definition request_empty : AdmissionRequest := mkAdmission (replicate resource_count 0) true.

Definition need (q : AdmissionRequest) (r : nat) (n : Z) : AdmissionRequest :=
  if (resource_count <=? r)%nat then mkAdmission (counts q) false
  else mkAdmission (<[r:=n]> (counts q)) (valid_request q).

Record AdmissionState := mkAdmState { capacities : AdmissionRequest; used : AdmissionRequest; open : bool }.

(** A bundle without a state has given its credits back, or never had any. *)
Record AdmissionBundle := mkBundle { attached : bool; held : AdmissionRequest }.
Definition bundle_empty : AdmissionBundle := mkBundle false request_empty.

Definition pool_new (caps : AdmissionRequest) : AdmissionState := mkAdmState caps request_empty true.

Definition admission_acquire (s : AdmissionState) (q : AdmissionRequest) : Result AdmissionBundle * AdmissionState :=
  if negb (valid_request q) || negb (valid_request (capacities s))
  then (Err (error1 ErrorCode.invalid_argument), s) else
  if negb (open s) then (Err (error1 ErrorCode.invalid_state), s) else
  if existsb id (zip_with (fun r f => f <? r) (counts q)
       (zip_with (fun c u => wrap64 (c - u)) (counts (capacities s)) (counts (used s))))
  then (Err (error1 ErrorCode.capacity_exhausted), s) else
  (Ok (mkBundle true q),
   mkAdmState (capacities s)
     (mkAdmission (zip_with (fun u r => wrap64 (u + r)) (counts (used s)) (counts q)) (valid_request (used s)))
     (open s)).

Definition bundle_reset (s : AdmissionState) (b : AdmissionBundle) : AdmissionBundle * AdmissionState :=
  if negb (attached b) then (b, s) else
  (bundle_empty,
   mkAdmState (capacities s)
     (mkAdmission (zip_with (fun u h => wrap64 (u - h)) (counts (used s)) (counts (held b))) (valid_request (used s)))
     (open s)).

(** The credits split off, and what stays. *)
Definition transfer (b : AdmissionBundle) (q : AdmissionRequest) : Result AdmissionBundle * AdmissionBundle :=
  if negb (attached b) then (Err (error1 ErrorCode.invalid_state), b) else
  if negb (valid_request q) then (Err (error1 ErrorCode.invalid_argument), b) else
  if existsb id (zip_with (fun r h => h <? r) (counts q) (counts (held b)))
  then (Err (error1 ErrorCode.invalid_argument), b) else
  (Ok (mkBundle true q),
   mkBundle true (mkAdmission (zip_with (fun h r => wrap64 (h - r)) (counts (held b)) (counts q)) (valid_request (held b)))).

Definition adm_count (l : list Z) (r : nat) : Z := nth r l 0.
Definition bundle_held (b : AdmissionBundle) (r : nat) : Z :=
  if (r <? resource_count)%nat then adm_count (counts (held b)) r else 0.
Definition adm_capacity (s : AdmissionState) (r : nat) : Z :=
  if (r <? resource_count)%nat then adm_count (counts (capacities s)) r else 0.
Definition adm_used (s : AdmissionState) (r : nat) : Z :=
  if (r <? resource_count)%nat then adm_count (counts (used s)) r else 0.
Definition admission_close (s : AdmissionState) : AdmissionState := mkAdmState (capacities s) (used s) false.

Definition reference_capacities : AdmissionRequest :=
  let c := request_empty in
  let c := need c Resource.transaction 256 in
  let c := need c Resource.plan_bytes 2097152 in
  let c := need c Resource.schedule 128 in
  let c := need c Resource.revision 2048 in
  let c := need c Resource.completion 1024 in
  let c := need c Resource.response 768 in
  let c := need c Resource.duplicate_entry 4096 in
  let c := need c Resource.duplicate_bytes 8388608 in
  let c := need c Resource.context_publication 2048 in
  let c := need c Resource.ordinary_queue 256 in
  let c := need c Resource.data_queue 4096 in
  let c := need c Resource.cancellation_queue 64 in
  let c := need c Resource.cancellation_response 64 in
  need c Resource.emergency_response 256.

(** ** Steps *)

(** The pool and all bundles drawn from it. *)
Record AdmissionSystem := mkAdmSystem { adm : AdmissionState; bundles : list AdmissionBundle }.

Definition request_typed (q : AdmissionRequest) : Prop := length (counts q) = resource_count /\ Forall u64 (counts q).

Inductive admission_step : relation AdmissionSystem :=
  | astep_acquire s bs q b s' : request_typed q -> admission_acquire s q = (Ok b, s') ->
      admission_step (mkAdmSystem s bs) (mkAdmSystem s' (b :: bs))
  | astep_reset s bs k b b' s' : bs !! k = Some b -> bundle_reset s b = (b', s') ->
      admission_step (mkAdmSystem s bs) (mkAdmSystem s' (<[k:=b']> bs))
  | astep_transfer s bs k b q n b' : bs !! k = Some b -> request_typed q -> transfer b q = (Ok n, b') ->
      admission_step (mkAdmSystem s bs) (mkAdmSystem s (n :: <[k:=b']> bs))
  | astep_close s bs : admission_step (mkAdmSystem s bs) (mkAdmSystem (admission_close s) bs).

(** The credits of resource [r] that the attached bundles hold together. *)
Definition credits (bs : list AdmissionBundle) (r : nat) : Z :=
  foldr (fun b n => (if attached b then adm_count (counts (held b)) r else 0) + n) 0 bs.

Record adm_wf (s : AdmissionSystem) : Prop := mk_adm_wf {
  awf_caps : request_typed (capacities (adm s));
  awf_used : length (counts (used (adm s))) = resource_count;
  awf_bundles : Forall (fun b => request_typed (held b)) (bundles s);
  awf_conserved : forall r, (r < resource_count)%nat ->
    adm_count (counts (used (adm s))) r = credits (bundles s) r;
  awf_bounded : forall r, (r < resource_count)%nat ->
    adm_count (counts (used (adm s))) r <= adm_count (counts (capacities (adm s))) r
}.

Lemma adm_count_zip_with f a b r :
  (r < length a)%nat -> (r < length b)%nat -> adm_count (zip_with f a b) r = f (adm_count a r) (adm_count b r).
Proof.
  unfold adm_count. intros Ha Hb. rewrite !nth_lookup, lookup_zip_with.
  destruct (lookup_lt_is_Some_2 a r Ha) as [x ->]. destruct (lookup_lt_is_Some_2 b r Hb) as [y ->]. done.
Qed.

Lemma adm_count_u64 q r : request_typed q -> (r < resource_count)%nat -> u64 (adm_count (counts q) r).
Proof.
  intros [Hl Hu] Hr. unfold adm_count. rewrite nth_lookup. rewrite <- Hl in Hr.
  destruct (lookup_lt_is_Some_2 _ _ Hr) as [x Hx]. rewrite Hx. by apply (Forall_lookup_1 _ _ _ _ Hu Hx).
Qed.

Lemma existsb_zip_with_false (p : Z -> Z -> bool) a b :
  length a = length b ->
  (existsb id (zip_with p a b) = false <->
   forall r, (r < length a)%nat -> p (adm_count a r) (adm_count b r) = false).
Proof.
  revert b. induction a as [|x a IH]; intros [|y b] Hl; try done; cbn in *.
  { split; [intros _ r Hr; lia|done]. }
  rewrite orb_false_iff, (IH b) by lia. unfold adm_count. split.
  - intros [Hx Ha] [|r] Hr; [done|]. apply Ha; lia.
  - intros H. split; [apply (H 0%nat); lia|]. intros r Hr. apply (H (S r)). lia.
Qed.

Lemma credits_cons b bs r : credits (b :: bs) r = (if attached b then adm_count (counts (held b)) r else 0) + credits bs r.
Proof. done. Qed.

Lemma credits_insert bs k b b' r : bs !! k = Some b ->
  credits (<[k:=b']> bs) r = credits bs r - (if attached b then adm_count (counts (held b)) r else 0)
                             + (if attached b' then adm_count (counts (held b')) r else 0).
Proof.
  revert k. induction bs as [|c bs IH]; intros [|k] Hk; cbn in Hk; simplify_eq.
  - change (<[0%nat:=b']> (b :: bs)) with (b' :: bs). rewrite !credits_cons. lia.
  - change (<[S k:=b']> (c :: bs)) with (c :: <[k:=b']> bs). rewrite !credits_cons, (IH k Hk). lia.
Qed.

Lemma credits_nonneg bs r : Forall (fun b => request_typed (held b)) bs -> (r < resource_count)%nat -> 0 <= credits bs r.
Proof.
  intros HF Hr. induction HF as [|b bs Hb HF IH]; [done|].
  rewrite credits_cons. pose proof (adm_count_u64 _ r Hb Hr). destruct (attached b); zlia.
Qed.

Lemma credits_member bs k b r : Forall (fun b => request_typed (held b)) bs -> (r < resource_count)%nat ->
  bs !! k = Some b -> attached b = true -> adm_count (counts (held b)) r <= credits bs r.
Proof.
  intros HF Hr. revert k. induction HF as [|c bs Hc HF IH]; intros [|k] Hk Ha; cbn in Hk; simplify_eq; rewrite credits_cons.
  - rewrite Ha. pose proof (credits_nonneg bs r HF Hr). lia.
  - specialize (IH k Hk Ha). pose proof (adm_count_u64 _ r Hc Hr). destruct (attached c); zlia.
Qed.

Lemma zip_with_typed f a b : length a = resource_count -> length b = resource_count ->
  (forall r, (r < resource_count)%nat -> u64 (f (adm_count a r) (adm_count b r))) ->
  length (zip_with f a b) = resource_count /\ Forall u64 (zip_with f a b).
Proof.
  intros Ha Hb H. assert (Hl : length (zip_with f a b) = resource_count) by (rewrite length_zip_with; lia). split; [done|].
  apply Forall_lookup_2. intros r x Hx. assert (Hr : (r < resource_count)%nat) by (rewrite <- Hl; by eapply lookup_lt_Some).
  specialize (H r Hr). rewrite <- adm_count_zip_with in H by lia. unfold adm_count in H. by rewrite nth_lookup, Hx in H.
Qed.

(** What [acquire] checks and does, resource by resource. *)
Lemma admission_acquire_spec s q :
  request_typed q -> request_typed (capacities s) -> length (counts (used s)) = resource_count ->
  (forall r, (r < resource_count)%nat -> 0 <= adm_count (counts (used s)) r <= adm_count (counts (capacities s)) r) ->
  let fits := forall r, (r < resource_count)%nat ->
    adm_count (counts (used s)) r + adm_count (counts q) r <= adm_count (counts (capacities s)) r in
  match admission_acquire s q with
  | (Ok b, s') => b = mkBundle true q /\ fits /\ capacities s' = capacities s /\ open s = true /\
      length (counts (used s')) = resource_count /\
      (forall r, (r < resource_count)%nat ->
         adm_count (counts (used s')) r = adm_count (counts (used s)) r + adm_count (counts q) r)
  | (Err e, s') => s' = s /\ (e = error1 ErrorCode.capacity_exhausted -> ~ fits)
  | (UB, _) => False
  end.
Proof.
  intros Hq Hc Hu Hb fits. unfold admission_acquire. test_goal E1; [done|]. test_goal E2; [done|].
  apply negb_false_iff in E2. pose proof Hq as [Hql _]. pose proof Hc as [Hcl _].
  set (free := zip_with _ (counts (capacities s)) (counts (used s))).
  assert (Hfl : length free = resource_count) by (unfold free; rewrite length_zip_with; lia).
  assert (Hfree : forall r, (r < resource_count)%nat ->
    adm_count free r = adm_count (counts (capacities s)) r - adm_count (counts (used s)) r).
  { intros r Hr. unfold free. rewrite adm_count_zip_with by lia. specialize (Hb r Hr).
    pose proof (adm_count_u64 _ r Hc Hr). rewrite wrap64_small; [done|zlia]. }
  test_goal E3.
  - split; [done|]. intros _ Hfits.
    rewrite (proj2 (existsb_zip_with_false _ (counts q) free ltac:(lia))) in E3; [done|].
    intros r Hr. rewrite Hql in Hr. rewrite Hfree by done. specialize (Hfits r Hr). apply Z.ltb_ge. lia.
  - assert (Hfits : fits).
    { intros r Hr. pose proof (proj1 (existsb_zip_with_false _ (counts q) free ltac:(lia)) E3 r ltac:(lia)) as H.
      apply Z.ltb_ge in H. rewrite Hfree in H by done. lia. }
    cbn [capacities used counts open]. split_and!; try done; [rewrite length_zip_with; lia|].
    intros r Hr. rewrite adm_count_zip_with by lia. specialize (Hfits r Hr). specialize (Hb r Hr).
    pose proof (adm_count_u64 _ r Hc Hr). pose proof (adm_count_u64 _ r Hq Hr). rewrite wrap64_small; [done|zlia].
Qed.

Lemma adm_step_wf s s' : adm_wf s -> admission_step s s' -> adm_wf s'.
Proof.
  intros [Hc Hu HB Hcons Hbnd] Hs.
  assert (Hub : forall r, (r < resource_count)%nat ->
    0 <= adm_count (counts (used (adm s))) r <= adm_count (counts (capacities (adm s))) r).
  { intros r Hr. split; [rewrite Hcons by done; by apply credits_nonneg|by apply Hbnd]. }
  destruct Hs as [s bs q b s' Hq E|s bs k b b' s' Hk E|s bs k b q n b' Hk Hq E|s bs]; cbn [adm bundles] in *.
  - pose proof (admission_acquire_spec s q Hq Hc Hu Hub) as H. rewrite E in H.
    destruct H as (-> & Hfits & Hcap & _ & Hl & Hnew). split; cbn [adm bundles]; rewrite ?Hcap; try done.
    + by apply List.Forall_cons.
    + intros r Hr. rewrite Hnew, credits_cons, Hcons by done. cbn. lia.
    + intros r Hr. rewrite Hnew by done. by apply Hfits.
  - unfold bundle_reset in E. destruct (attached b) eqn:Ha; cbn [negb] in E; injection E as <- <-.
    2:{ rewrite list_insert_id by done. by split. }
    pose proof (Forall_lookup_1 _ _ _ _ HB Hk) as Hb. cbn in Hb. pose proof Hb as [Hbl _].
    assert (Hval : forall r, (r < resource_count)%nat ->
      adm_count (zip_with (fun u h => wrap64 (u - h)) (counts (used s)) (counts (held b))) r =
      adm_count (counts (used s)) r - adm_count (counts (held b)) r).
    { intros r Hr. rewrite adm_count_zip_with by lia. specialize (Hub r Hr).
      pose proof (credits_member bs k b r HB Hr Hk Ha) as Hm. rewrite <- Hcons in Hm by done.
      pose proof (adm_count_u64 _ r Hb Hr). pose proof (adm_count_u64 _ r Hc Hr). rewrite wrap64_small; [done|zlia]. }
    split; cbn [adm bundles used capacities counts]; try done.
    + rewrite length_zip_with. lia.
    + apply Forall_insert; [done|]. split; [done|]. apply Forall_replicate. zlia.
    + intros r Hr. rewrite Hval, Hcons, (credits_insert bs k b) by done. rewrite Ha. cbn [attached bundle_empty]. lia.
    + intros r Hr. rewrite Hval by done. specialize (Hub r Hr). pose proof (adm_count_u64 _ r Hb Hr). zlia.
  - unfold transfer in E. destruct (attached b) eqn:Ha; cbn [negb] in E; [|done].
    destruct (valid_request q); cbn [negb] in E; [|done]. destruct (existsb _ _) eqn:Ex; [done|]. injection E as <- <-.
    pose proof (Forall_lookup_1 _ _ _ _ HB Hk) as Hb. cbn in Hb. pose proof Hb as [Hbl _]. pose proof Hq as [Hql _].
    assert (Hval : forall r, (r < resource_count)%nat ->
      0 <= adm_count (counts (held b)) r - adm_count (counts q) r <= U64_MAX /\
      wrap64 (adm_count (counts (held b)) r - adm_count (counts q) r) = adm_count (counts (held b)) r - adm_count (counts q) r).
    { intros r Hr. pose proof (proj1 (existsb_zip_with_false _ (counts q) (counts (held b)) ltac:(lia)) Ex r ltac:(lia)) as H.
      apply Z.ltb_ge in H. pose proof (adm_count_u64 _ r Hb Hr). pose proof (adm_count_u64 _ r Hq Hr). rewrite wrap64_small; zlia. }
    split; cbn [adm bundles]; try done.
    + apply List.Forall_cons; [done|]. apply Forall_insert; [done|]. apply zip_with_typed; [done|done|].
      intros r Hr. destruct (Hval r Hr) as [? ->]. zlia.
    + intros r Hr. rewrite credits_cons, (credits_insert bs k b), Hcons by done. cbn [attached held counts].
      rewrite Ha, adm_count_zip_with by lia. destruct (Hval r Hr) as [_ ->]. lia.
  - split; done.
Qed.

Lemma adm_initial_wf caps : request_typed caps -> adm_wf (mkAdmSystem (pool_new caps) []).
Proof.
  intros Hc. split; cbn [adm bundles pool_new used capacities]; try done.
  - intros r Hr. unfold adm_count, request_empty. cbn [counts]. rewrite nth_lookup, lookup_replicate_2 by done. done.
  - intros r Hr. unfold adm_count at 1, request_empty. cbn [counts]. rewrite nth_lookup, lookup_replicate_2 by done.
    cbn. by apply adm_count_u64.
Qed.

Lemma adm_steps_wf s s' : adm_wf s -> rtc admission_step s s' -> adm_wf s'.
Proof. intros Hwf H. induction H; [done|]. eauto using adm_step_wf. Qed.

(** ** Properties *)

(** Admission credits are conserved: in every reachable state, for every resource,
    the amount in use is the sum of what the live bundles hold and never exceeds the
    capacity, without wrap-around; and a request is refused for lack of capacity only
    when some resource really does not have that much left. *)
Theorem admission_conserved caps s :
  request_typed caps -> rtc admission_step (mkAdmSystem (pool_new caps) []) s ->
  (forall r, adm_used (adm s) r = (if (r <? resource_count)%nat then credits (bundles s) r else 0) /\
             adm_used (adm s) r <= adm_capacity (adm s) r) /\
  (forall q s', request_typed q ->
     admission_acquire (adm s) q = (Err (error1 ErrorCode.capacity_exhausted), s') ->
     s' = adm s /\ ~ (forall r, adm_used (adm s) r + bundle_held (mkBundle true q) r <= adm_capacity (adm s) r)).
Proof.
  intros Hc Hr. destruct (adm_steps_wf _ _ (adm_initial_wf caps Hc) Hr) as [Hcap Hu HB Hcons Hbnd].
  unfold adm_used, adm_capacity, bundle_held. split.
  - intros r. destruct (Nat.ltb_spec r resource_count); [|done]. auto.
  - intros q s' Hq E. pose proof (admission_acquire_spec (adm s) q Hq Hcap Hu) as H. rewrite E in H.
    destruct H as [-> Hno].
    { intros r Hlt. split; [rewrite Hcons by done; by apply credits_nonneg|by apply Hbnd]. }
    split; [done|]. intros Hall. apply Hno; [done|]. intros r Hlt. specialize (Hall r).
    by rewrite (proj2 (Nat.ltb_lt _ _) Hlt) in Hall.
Qed.

Lemma admission_conserved_witness :
  exists s, rtc admission_step (mkAdmSystem (pool_new reference_capacities) []) s /\
    adm_used (adm s) Resource.transaction = 3 /\ credits (bundles s) Resource.transaction = 3.
Proof.
  set (q := need request_empty Resource.transaction 3).
  assert (Hq : request_typed q).
  { split; [reflexivity|]. repeat (apply List.Forall_cons; [vm_compute; split; congruence|]). apply List.Forall_nil. }
  assert (Hc : request_typed reference_capacities).
  { split; [reflexivity|]. repeat (apply List.Forall_cons; [vm_compute; split; congruence|]). apply List.Forall_nil. }
  set (s := mkAdmSystem (admission_acquire (pool_new reference_capacities) q).2 [mkBundle true q]).
  assert (Hs : rtc admission_step (mkAdmSystem (pool_new reference_capacities) []) s).
  { apply rtc_once, (astep_acquire _ [] q); [exact Hq|vm_compute; reflexivity]. }
  exists s. split; [exact Hs|]. destruct (admission_conserved reference_capacities s Hc Hs) as [H _].
  split; [|vm_compute; reflexivity]. rewrite (proj1 (H Resource.transaction)). vm_compute. reflexivity.
Defined.
