(* ===== verification/Arena.v ===== *)
(** * Plan storage slots: [include/vita/runtime/execution/arena.hpp]

    A [SlotArena] hands out fixed-size slots; [AdmittedStorage] combines a slot with
    the admission credits that pay for it.  The bytes of a slot are written only by
    the holder of its lease and are not modelled; who holds which slot is. *)

From stdpp Require Import relations.
From S2P Require Import Prelude Time Admission.

Section arena.
(** The template arguments. *)
Context (Count : nat) (BytesPerSlot : Z).

(** [State::busy]. *)
Abbreviation ArenaState := (list bool).
Definition arena_new : ArenaState := replicate Count false.

(** The slot of the new lease. *)
Definition arena_acquire (s : ArenaState) (required : Z) : Result nat * ArenaState :=
  if BytesPerSlot <? required then (Err (error1 ErrorCode.capacity_exhausted), s) else
  match first_index negb s with
  | Some i => (Ok i, <[i:=true]> s)
  | None => (Err (error1 ErrorCode.capacity_exhausted), s)
  end.

Definition arena_reset (s : ArenaState) (slot : nat) : ArenaState := <[slot:=false]> s.

(** A live lease's bytes: the whole slot. *)
Definition slot_bytes (lease : option nat) : Z := match lease with Some _ => BytesPerSlot | None => 0 end.

(** [AdmittedStorage::acquire]; if the arena has no slot, the destructor of the
    reserved bundle gives the credits back. *)
Definition admitted_acquire (p : AdmissionState) (s : ArenaState) (q : AdmissionRequest) (required : Z)
    : Result (AdmissionBundle * nat) * (AdmissionState * ArenaState) :=
  if (adm_count (counts q) Resource.plan_bytes <? required) ||
     (wrap64 (Z.of_nat Count * BytesPerSlot) <? adm_capacity p Resource.plan_bytes)
  then (Err (error1 ErrorCode.invalid_argument), (p, s)) else
  match admission_acquire p q with
  | (Ok b, p) =>
      match arena_acquire s required with
      | (Ok slot, s) => (Ok (b, slot), (p, s))
      | (Err e, s) => (Err e, ((bundle_reset p b).2, s))
      | (UB, s) => (UB, (p, s))
      end
  | (Err e, p) => (Err e, (p, s))
  | (UB, p) => (UB, (p, s))
  end.

(** ** Leases *)

(** The arena and the slots of the leases that exist. *)
Inductive arena_step : relation (ArenaState * list nat) :=
  | arstep_acquire s ls n i s' : arena_acquire s n = (Ok i, s') -> arena_step (s, ls) (s', i :: ls)
  | arstep_reset s ls k i : ls !! k = Some i -> arena_step (s, ls) (arena_reset s i, delete k ls).

Definition arena_wf (x : ArenaState * list nat) : Prop :=
  length x.1 = Count /\ NoDup x.2 /\ forall i, (i < Count)%nat -> (x.1 !! i = Some true <-> i ∈ x.2).

Lemma NoDup_delete_lookup {A} (l : list A) k x y : NoDup l -> l !! k = Some x -> (y ∈ delete k l <-> y ∈ l /\ y <> x).
Proof.
  intros Hnd Hk. rewrite delete_take_drop. pose proof (take_drop_middle l k x Hk) as E. rewrite <- E in Hnd.
  assert (y ∈ l <-> y ∈ take k l \/ y = x \/ y ∈ drop (S k) l) as -> by (by rewrite <- E at 1; rewrite elem_of_app, elem_of_cons).
  apply list.NoDup_app in Hnd as (H1 & H2 & H3). apply list.NoDup_cons in H3 as [H3 H4].
  rewrite elem_of_app. split.
  - intros [Hy|Hy]; (split; [tauto|intros ->]); [|done]. by apply (H2 x Hy), elem_of_cons; left.
  - intros [[?|[?|?]] ?]; tauto.
Qed.

Lemma arena_step_wf x y : arena_wf x -> arena_step x y -> arena_wf y.
Proof.
  intros (Hl & Hnd & Hb) Hs. destruct Hs as [s ls n i s' E|s ls k i Hk]; cbn in *.
  - unfold arena_acquire in E. destruct (_ <? _); [done|]. destruct (first_index negb s) as [j|] eqn:Ej; [|done].
    injection E as -> <-. apply first_index_Some in Ej as [(b & Hbi & Hneg) _]. destruct b; [done|].
    assert (Hi : (i < Count)%nat) by (rewrite <- Hl; by eapply lookup_lt_Some).
    assert (Hnot : ~ i ∈ ls) by (intros Hin; apply Hb in Hin; [congruence|done]).
    split_and!; cbn; [by rewrite length_insert|by apply list.NoDup_cons|]. intros j Hj. rewrite elem_of_cons.
    destruct (decide (j = i)) as [->|Hne].
    + rewrite list_lookup_insert_eq by lia. split; [by left|done].
    + rewrite list_lookup_insert_ne by done. rewrite Hb by done. split; [by right|by intros [?|?]].
  - assert (Hdel : forall j, j ∈ delete k ls <-> j ∈ ls /\ j <> i) by (intros; by apply NoDup_delete_lookup).
    split_and!; cbn [fst snd]; [unfold arena_reset; by rewrite length_insert| |].
    + rewrite delete_take_drop. rewrite <- (take_drop_middle ls k i Hk) in Hnd.
      apply list.NoDup_app in Hnd as (H1 & H2 & H3). apply list.NoDup_cons in H3 as [H3 H4]. apply list.NoDup_app.
      split_and!; try done. intros z Hz Hz'. apply (H2 z Hz). by right.
    + intros j Hj. rewrite Hdel. unfold arena_reset. destruct (decide (j = i)) as [->|Hne].
      * rewrite list_lookup_insert_eq by lia. split; [done|by intros [_ ?]].
      * rewrite list_lookup_insert_ne by done. rewrite Hb by done. tauto.
Qed.

Lemma arena_steps_wf x y : arena_wf x -> rtc arena_step x y -> arena_wf y.
Proof. intros Hwf H. induction H; [done|]. eauto using arena_step_wf. Qed.

Lemma arena_new_wf : arena_wf (arena_new, []).
Proof.
  split_and!; cbn [fst snd]; [unfold arena_new; by rewrite length_replicate|by apply list.NoDup_nil|]. intros i Hi. unfold arena_new.
  rewrite lookup_replicate_2 by done. split; [done|intros H; by apply not_elem_of_nil in H].
Qed.
End arena.

(** ** Properties *)

(** Slots are exclusive: whatever sequence of acquisitions and releases, no two live
    leases have the same slot, a slot is marked busy exactly when a live lease has it,
    and acquisition fails for a size that fits only when every slot is leased. *)
Theorem arena_exclusive Count BytesPerSlot s ls n :
  rtc (arena_step BytesPerSlot) (arena_new Count, []) (s, ls) ->
  NoDup ls /\ (forall i, (i < Count)%nat -> (s !! i = Some true <-> i ∈ ls)) /\
  match arena_acquire BytesPerSlot s n with
  | (Ok i, s') => (i < Count)%nat /\ ~ (i ∈ ls)
  | (Err _, s') => s' = s /\ (n <= BytesPerSlot -> forall i, (i < Count)%nat -> i ∈ ls)
  | (UB, _) => False
  end.
Proof.
  intros Hr. destruct (arena_steps_wf Count BytesPerSlot _ _ (arena_new_wf Count) Hr) as (Hl & Hnd & Hb). cbn in *.
  split; [done|]. split; [done|]. unfold arena_acquire. destruct (Z.ltb_spec BytesPerSlot n); [split; [done|lia]|].
  destruct (first_index negb s) as [i|] eqn:Ei.
  - apply first_index_Some in Ei as [(b & Hbi & Hneg) _]. destruct b; [done|].
    assert (Hi : (i < Count)%nat) by (rewrite <- Hl; by eapply lookup_lt_Some). split; [done|]. intros Hin. apply Hb in Hin; [congruence|done].
  - split; [done|]. intros _ i Hi. apply Hb; [done|]. rewrite <- Hl in Hi. destruct (lookup_lt_is_Some_2 _ _ Hi) as [b Eb].
    apply first_index_None in Ei. pose proof (Forall_lookup_1 _ _ _ _ Ei Eb) as H'. by destruct b.
Qed.

Lemma arena_exclusive_witness :
  exists s, rtc (arena_step 64) (arena_new 2, []) (s, [1%nat; 0%nat]) /\ NoDup [1%nat; 0%nat] /\
    arena_acquire 64 s 10 = (Err (error1 ErrorCode.capacity_exhausted), s).
Proof.
  assert (H : rtc (arena_step 64) (arena_new 2, []) ([true; true], [1%nat; 0%nat])).
  { eapply rtc_l; [apply (arstep_acquire 64 (arena_new 2) [] 10 0 [true; false]); reflexivity|].
    eapply rtc_l; [apply (arstep_acquire 64 [true; false] [0%nat] 10 1 [true; true]); reflexivity|]. apply rtc_refl. }
  exists [true; true]. split; [exact H|]. split; [|reflexivity].
  exact (proj1 (arena_exclusive 2 64 [true; true] [1%nat; 0%nat] 10 H)).
Defined.

(** Admission of a plan is all or nothing: if the credits or the slot cannot be
    had, the credits in use and the slots are exactly what they were. *)
Theorem admitted_acquire_atomic Count BytesPerSlot p s q required :
  request_typed q -> request_typed (capacities p) -> length (counts (used p)) = resource_count ->
  (forall r, (r < resource_count)%nat -> 0 <= adm_count (counts (used p)) r <= adm_count (counts (capacities p)) r) ->
  match admitted_acquire Count BytesPerSlot p s q required with
  | (Ok (b, slot), (p', s')) => s !! slot = Some false /\ s' = <[slot:=true]> s /\ required <= BytesPerSlot /\
      forall r, adm_used p' r = adm_used p r + bundle_held b r
  | (Err _, (p', s')) => s' = s /\ forall r, adm_used p' r = adm_used p r
  | (UB, _) => False
  end.
Proof.
  intros Hq Hc Hu Hb. unfold admitted_acquire. test_goal E; [done|].
  pose proof (admission_acquire_spec p q Hq Hc Hu Hb) as H.
  destruct (admission_acquire p q) as [[b|e|] p']; [|destruct H as [-> _]; done|done].
  destruct H as (-> & Hfits & Hcap & _ & Hl & Hnew). unfold arena_acquire.
  assert (Hback : forall r, adm_used (bundle_reset p' (mkBundle true q)).2 r = adm_used p r).
  { intros r. unfold adm_used, bundle_reset. cbn [attached negb snd used counts held].
    destruct (Nat.ltb_spec r resource_count); [|done]. pose proof Hq as [Hql _].
    rewrite adm_count_zip_with, Hnew by lia. specialize (Hb r H). pose proof (adm_count_u64 _ r Hc H).
    rewrite wrap64_small; [lia|zlia]. }
  destruct (Z.ltb_spec BytesPerSlot required); [done|].
  destruct (first_index negb s) as [i|] eqn:Ei; [|done].
  apply first_index_Some in Ei as [(b & Hbi & Hneg) _]. destruct b; [done|]. split_and!; try done.
  intros r. unfold adm_used, bundle_held. destruct (Nat.ltb_spec r resource_count); [|done]. by apply Hnew.
Qed.

Lemma admitted_acquire_atomic_witness :
  let q := need request_empty Resource.plan_bytes 100 in
  exists b p', admitted_acquire 256 8192 (pool_new reference_capacities) (arena_new 256) q 100 =
      (Ok (b, 0%nat), (p', <[0%nat:=true]> (arena_new 256))) /\
    adm_used p' Resource.plan_bytes = adm_used (pool_new reference_capacities) Resource.plan_bytes + bundle_held b Resource.plan_bytes.
Proof.
  intros q. pose proof (admitted_acquire_atomic 256 8192 (pool_new reference_capacities) (arena_new 256) q 100) as H.
  assert (Hq : forall x, x ∈ [q; reference_capacities] -> request_typed x).
  { intros x [->|Hx%list_elem_of_singleton]%elem_of_cons; [|subst x]; (split; [reflexivity|]);
      repeat (apply List.Forall_cons; [vm_compute; split; congruence|]); apply List.Forall_nil. }
  specialize (H (Hq q ltac:(by left)) (Hq reference_capacities ltac:(by right; left)) eq_refl).
  assert (Hb : forall r, (r < resource_count)%nat -> 0 <= adm_count (counts (used (pool_new reference_capacities))) r
             <= adm_count (counts (capacities (pool_new reference_capacities))) r).
  { intros r Hr. do 14 (destruct r as [|r]; [vm_compute; split; congruence|]). unfold resource_count, Resource.count in Hr. lia. }
  specialize (H Hb).
  destruct (admitted_acquire 256 8192 (pool_new reference_capacities) (arena_new 256) q 100)
    as [[[b slot]| |] [p' s']] eqn:E; try (vm_compute in E; discriminate E).
  assert (slot = 0%nat) as -> by (vm_compute in E; congruence).
  destruct H as (_ & -> & _ & H). exists b, p'. split; [reflexivity|apply H].
Defined.
