(* ===== verification/Executor.v ===== *)
(** * Bounded executors: [include/vita/runtime/execution/executor.hpp]

    [BoundedExecutor] is a ring buffer of tasks run one at a time.  The ring refines
    a list (its [contents]); [exec_step] lets posts of other threads and of the
    running task come between the two critical sections of [run_one]. *)

From stdpp Require Import relations.
From S2P Require Import Prelude.

(** A function pointer, possibly null, and its context. *)
Record Task := mkTask { t_invoke : option Z; t_context : Z }.
Definition task_empty : Task := mkTask None 0.

(** The chain of frames of the calling thread, innermost first: the domains whose
    tasks are running on it. *)
Definition check_blocking_wait (frames : list Z) (target : Z) : Result unit :=
  if nonzero target && existsb (Z.eqb target) frames then Err (error1 ErrorCode.would_deadlock) else Ok tt.

Section executor.
Context (N : nat).

Record BoundedExecutor := mkExec { queue : list Task; head : nat; size : nat; running : bool; is_open : bool }.
Definition exec_new : BoundedExecutor := mkExec (replicate N task_empty) 0 0 false true.

Definition post (e : BoundedExecutor) (t : Task) : Result unit * BoundedExecutor :=
  if is_none (t_invoke t) then (Err (error1 ErrorCode.invalid_argument), e) else
  if negb (is_open e) then (Err (error1 ErrorCode.invalid_state), e) else
  if (size e =? N)%nat then (Err (error1 ErrorCode.capacity_exhausted), e) else
  (Ok tt, mkExec (<[((head e + size e) mod N)%nat := t]> (queue e)) (head e) (size e + 1) (running e) (is_open e)).

(** The first critical section of [run_one]: the task to invoke. *)
Definition run_begin (e : BoundedExecutor) : Result (option Task * BoundedExecutor) :=
  if running e || (size e =? 0)%nat then Ok (None, e) else
  let? t := deref (queue e !! head e) in
  Ok (Some t, mkExec (queue e) ((head e + 1) mod N) (size e - 1) true (is_open e)).

(** The last one. *)
Definition run_finish (e : BoundedExecutor) : BoundedExecutor :=
  mkExec (queue e) (head e) (size e) false (is_open e).

Definition exec_close (e : BoundedExecutor) : BoundedExecutor :=
  mkExec (queue e) (head e) (size e) (running e) false.
Definition pending (e : BoundedExecutor) : nat := size e.

(** The executor itself, as it appears in the chain of frames. *)
Context (this : Z).

(** The effect of invoking a task, with the frames of its thread, on the rest of the program
    and on the executor it runs in. *)
Context {W : Type} (invoke : list Z -> Task -> W * BoundedExecutor -> W * BoundedExecutor).

Definition run_one (frames : list Z) (s : W * BoundedExecutor) : Result (bool * (W * BoundedExecutor)) :=
  let '(w, e) := s in
  let? (t, e) := run_begin e in
  match t with
  | None => Ok (false, (w, e))
  | Some t => let '(w, e) := invoke (this :: frames) t (w, e) in Ok (true, (w, run_finish e))
  end.

(** [while(count<budget && run_one()) ++count]; [n] is what is left of the budget. *)
Fixpoint run (n : nat) (frames : list Z) (s : W * BoundedExecutor) (count : nat)
    : Result (nat * (W * BoundedExecutor)) :=
  match n with
  | O => Ok (count, s)
  | S n => let? (ran, s) := run_one frames s in if ran then run n frames s (S count) else Ok (count, s)
  end.

(** ** The queue as a list *)

Definition ring_at (e : BoundedExecutor) (i : nat) : Task :=
  default task_empty (queue e !! ((head e + i) mod N)%nat).
Definition contents (e : BoundedExecutor) : list Task := ring_at e <$> seq 0 (size e).

Record exec_wf (e : BoundedExecutor) : Prop := mk_exec_wf {
  ewf_N : (0 < N)%nat;
  ewf_queue : length (queue e) = N;
  ewf_head : (head e < N)%nat;
  ewf_size : (size e <= N)%nat
}.

Lemma exec_new_wf : (0 < N)%nat -> exec_wf exec_new.
Proof. intros. split; cbn; [done|apply length_replicate|done|lia]. Qed.

Lemma ring_index_inj h i j : (i < N)%nat -> (j < N)%nat -> ((h + i) mod N = (h + j) mod N)%nat -> i = j.
Proof.
  intros Hi Hj E.
  assert (H : forall a b, (a <= b)%nat -> (b < N)%nat -> ((h + a) mod N = (h + b) mod N)%nat -> a = b).
  { clear. intros a b Hab Hb E. destruct (Nat.eq_dec a b) as [|Hne]; [done|].
    rewrite (Nat.Div0.mod_eq (h + a)), (Nat.Div0.mod_eq (h + b)) in E.
    pose proof (Nat.Div0.mul_div_le (h + a) N). pose proof (Nat.Div0.mul_div_le (h + b) N).
    assert (E' : (b - a = N * ((h + b) / N - (h + a) / N))%nat) by nia.
    destruct ((h + b) / N - (h + a) / N)%nat; nia. }
  destruct (Nat.le_ge_cases i j); [by apply H|symmetry; by apply H].
Qed.

Lemma post_contents e t e' : exec_wf e -> post e t = (Ok tt, e') ->
  exec_wf e' /\ contents e' = contents e ++ [t] /\ running e' = running e.
Proof.
  intros [HN Hq Hh Hs]. unfold post. test_goal E1; [done|]. test_goal E2; [done|]. test_goal E3; [done|].
  apply Nat.eqb_neq in E3. intros [= <-]. split; [split; cbn; try done; [by rewrite length_insert|lia]|]. split; [|done].
  unfold contents. cbn [size]. rewrite seq_app, fmap_app. f_equal.
  - apply list_fmap_ext. intros _ i Hi%list_elem_of_lookup_2%elem_of_seq. unfold ring_at. cbn.
    rewrite list_lookup_insert_ne; [done|]. intros E. apply ring_index_inj in E; lia.
  - cbn. unfold ring_at. cbn. rewrite list_lookup_insert_eq; [done|]. rewrite Hq. apply Nat.mod_upper_bound. lia.
Qed.

Lemma run_begin_contents e : exec_wf e ->
  match run_begin e with
  | Ok (Some t, e') => exec_wf e' /\ contents e = t :: contents e' /\ running e = false /\ running e' = true /\ is_open e' = is_open e
  | Ok (None, e') => e' = e /\ (running e = true \/ contents e = [])
  | _ => False
  end.
Proof.
  intros [HN Hq Hh Hs]. unfold run_begin. destruct (running e) eqn:Hr; cbn [orb]; [split; [done|by left]|].
  destruct (Nat.eqb_spec (size e) 0) as [E|E].
  { split; [done|]. right. unfold contents. by rewrite E. }
  assert (exists t, queue e !! head e = Some t) as [t Ht] by (apply lookup_lt_is_Some_2; lia). rewrite Ht. cbn [deref rbind].
  split; [split; cbn; try done; [apply Nat.mod_upper_bound; lia|lia]|]. split; [|done].
  unfold contents. cbn [size]. assert (Hsz : size e = S (size e - 1)) by lia. rewrite Hsz at 1. cbn [seq fmap list_fmap]. f_equal.
  - unfold ring_at. rewrite Nat.add_0_r, Nat.mod_small by done. by rewrite Ht.
  - rewrite <- (fmap_S_seq 0), <- list_fmap_compose. apply list_fmap_ext. intros _ i _. unfold ring_at. cbn [compose head queue].
    do 2 f_equal. rewrite Nat.Div0.add_mod_idemp_l. f_equal. lia.
Qed.

(** Observers of a program that records which tasks were invoked and which posts to the
    executor were accepted. *)
Context (invoked accepted : W -> list Task).

(** What a task may do to its own executor: post, and close; it cannot run another
    task, because [running] is set.  An invocation is recorded once. *)
Definition invoke_ok (frames : list Z) : Prop := forall t w e, exec_wf e -> running e = true ->
  let '(w', e') := invoke (this :: frames) t (w, e) in
  exec_wf e' /\ running e' = true /\ invoked w' = invoked w ++ [t] /\
  exists new, accepted w' = accepted w ++ new /\ contents e' = contents e ++ new.

Lemma run_finish_wf e : exec_wf e -> exec_wf (run_finish e) /\ contents (run_finish e) = contents e.
Proof. intros []. split; [by split|done]. Qed.

Lemma run_one_spec frames w e : invoke_ok frames -> exec_wf e -> running e = false ->
  exists w' e', exec_wf e' /\ running e' = false /\
    match contents e with
    | [] => run_one frames (w, e) = Ok (false, (w, e)) /\ w' = w /\ e' = e
    | t :: rest => run_one frames (w, e) = Ok (true, (w', e')) /\ invoked w' = invoked w ++ [t] /\
        exists new, accepted w' = accepted w ++ new /\ contents e' = rest ++ new
    end.
Proof.
  intros Hinv Hwf Hr. pose proof (run_begin_contents e Hwf) as H. unfold run_one.
  destruct (run_begin e) as [[[t|] e1]| |]; [| |done|done]; cbn [rbind].
  - destruct H as (Hwf1 & Hc & _ & Hr1 & _). rewrite Hc. specialize (Hinv t w e1 Hwf1 Hr1).
    destruct (invoke (this :: frames) t (w, e1)) as [w2 e2]. destruct Hinv as (Hwf2 & Hr2 & Hi & new & Ha & Hn).
    destruct (run_finish_wf _ Hwf2) as [Hwf3 Hc3]. exists w2, (run_finish e2). split_and!; try done.
    exists new. by rewrite Hc3.
  - destruct H as (-> & [?|Hc]); [congruence|]. rewrite Hc. by exists w, e.
Qed.

Lemma run_spec n frames w e count : invoke_ok frames -> exec_wf e -> running e = false ->
  exists ts new w' e', run n frames (w, e) count = Ok ((count + length ts)%nat, (w', e')) /\
    exec_wf e' /\ running e' = false /\
    invoked w' = invoked w ++ ts /\ accepted w' = accepted w ++ new /\
    ts ++ contents e' = contents e ++ new /\
    (length ts <= n)%nat /\ ((length ts < n)%nat -> contents e' = []).
Proof.
  intros Hinv. revert w e count. induction n as [|n IH]; intros w e count Hwf Hr.
  { exists [], [], w, e. rewrite !app_nil_r, Nat.add_0_r. split_and!; (done || cbn; lia). }
  destruct (run_one_spec frames w e Hinv Hwf Hr) as (w1 & e1 & Hwf1 & Hr1 & H). cbn [run].
  destruct (contents e) as [|t rest] eqn:Hc.
  - destruct H as (-> & -> & ->). cbn [rbind]. exists [], [], w, e. rewrite !app_nil_r, Nat.add_0_r.
    split_and!; (done || cbn; lia).
  - destruct H as (-> & Hi1 & new1 & Ha1 & Hn1). cbn [rbind].
    destruct (IH w1 e1 (S count) Hwf1 Hr1) as (ts & new & w' & e' & E & Hwf' & Hr' & Hi & Ha & Ht & Hk & Hd).
    exists (t :: ts), (new1 ++ new), w', e'. split; [rewrite E; cbn [length]; do 2 f_equal; lia|].
    rewrite Hi, Hi1, Ha, Ha1, <- !app_assoc. split_and!; try done; [|cbn [length]; lia|cbn [length]; intros; apply Hd; lia].
    cbn [app]. f_equal. by rewrite Ht, Hn1, <- app_assoc.
Qed.
End executor.

(** ** Steps *)

(** The executor with the tasks accepted and started so far, and how many have ended. *)
Record ExecSystem := mkExecSystem { ex : BoundedExecutor; posted : list Task; started : list Task; ended : nat }.

Inductive exec_step (N : nat) : relation ExecSystem :=
  | estep_post e ps ss n t e' : post N e t = (Ok tt, e') ->
      exec_step N (mkExecSystem e ps ss n) (mkExecSystem e' (ps ++ [t]) ss n)
  | estep_refuse e ps ss n t err e' : post N e t = (Err err, e') ->
      exec_step N (mkExecSystem e ps ss n) (mkExecSystem e' ps ss n)
  | estep_begin e ps ss n t e' : run_begin N e = Ok (Some t, e') ->
      exec_step N (mkExecSystem e ps ss n) (mkExecSystem e' ps (ss ++ [t]) n)
  | estep_finish e ps ss n : running e = true ->
      exec_step N (mkExecSystem e ps ss n) (mkExecSystem (run_finish e) ps ss (S n))
  | estep_close e ps ss n : exec_step N (mkExecSystem e ps ss n) (mkExecSystem (exec_close e) ps ss n).

Record exec_sys_wf (N : nat) (s : ExecSystem) : Prop := mk_exec_sys_wf {
  esw_exec : exec_wf N (ex s);
  esw_fifo : posted s = started s ++ contents N (ex s);
  esw_serial : length (started s) = (ended s + (if running (ex s) then 1 else 0))%nat
}.

Lemma post_refused N e t err e' : post N e t = (Err err, e') -> e' = e.
Proof. unfold post. repeat case_match; congruence. Qed.

Lemma exec_step_wf N s s' : exec_sys_wf N s -> exec_step N s s' -> exec_sys_wf N s'.
Proof.
  intros [Hwf Hf Hs] Hstep. destruct Hstep as [e ps ss n t e' E|e ps ss n t err e' E|e ps ss n t e' E|e ps ss n E|e ps ss n];
    cbn [ex posted started ended] in *.
  - destruct (post_contents N e t e' Hwf E) as (Hwf' & Hc & Hr). split; cbn; [done| |by rewrite Hr].
    by rewrite Hc, Hf, app_assoc.
  - apply post_refused in E as ->. by split.
  - pose proof (run_begin_contents N e Hwf) as H. rewrite E in H. destruct H as (Hwf' & Hc & Hr & Hr' & _).
    split; cbn; [done| |].
    + by rewrite Hf, Hc, <- app_assoc.
    + rewrite length_app, Hr'. rewrite Hr in Hs. cbn. lia.
  - destruct (run_finish_wf N e Hwf) as [Hwf' Hc]. split; cbn [ex posted started ended]; [done|by rewrite Hc|].
    rewrite E in Hs. cbn. lia.
  - split; [by destruct Hwf|done|done].
Qed.

(** ** Properties *)

(** The executor is a bounded FIFO and serialises its tasks: in every interleaving
    of posts, runs and closes, the tasks started are exactly the first ones accepted, in
    order, the rest are still in the ring, never more than [N], and at most one started
    task has not ended. *)
Theorem executor_fifo N s :
  (0 < N)%nat -> rtc (exec_step N) (mkExecSystem (exec_new N) [] [] 0) s ->
  posted s = started s ++ contents N (ex s) /\ (length (contents N (ex s)) <= N)%nat /\
  (ended s <= length (started s) <= ended s + 1)%nat /\
  (length (started s) = ended s + 1 <-> running (ex s) = true)%nat.
Proof.
  intros HN Hr. assert (Hwf : exec_sys_wf N s).
  { assert (H0 : exec_sys_wf N (mkExecSystem (exec_new N) [] [] 0)) by (split; [by apply exec_new_wf|done|done]).
    clear HN. induction Hr; [done|]. eauto using exec_step_wf. }
  destruct Hwf as [[_ _ _ Hsz] Hf Hs]. split_and!; try done.
  - unfold contents. by rewrite length_fmap, length_seq.
  - destruct (running (ex s)); lia.
  - destruct (running (ex s)); lia.
  - destruct (running (ex s)); split; (done || lia).
Qed.

(** C39. When no task is running ([running e = false]: a call from inside a task, or while
    another thread runs one, returns at once), [run] invokes the waiting tasks each once and
    in order, those that the tasks themselves post after them: the tasks recorded as invoked
    are the first [k] of the tasks waiting and accepted meanwhile, [k] is the count it
    returns, and the others are still waiting.  It ends within its budget, and short of the
    budget only with an empty queue. *)
Theorem executor_run_progress N this {W : Type} invoke invoked accepted budget frames (w : W) e :
  invoke_ok N this invoke invoked accepted frames -> exec_wf N e -> running e = false ->
  exists k ts new w' e', run N this invoke budget frames (w, e) 0 = Ok (k, (w', e')) /\
    invoked w' = invoked w ++ ts /\ length ts = k /\ accepted w' = accepted w ++ new /\
    ts ++ contents N e' = contents N e ++ new /\ running e' = false /\
    (k <= budget)%nat /\ ((k < budget)%nat -> contents N e' = []).
Proof.
  intros Hi Hwf Hr.
  destruct (run_spec N this invoke invoked accepted budget frames w e 0 Hi Hwf Hr)
    as (ts & new & w' & e' & E & _ & ? & ? & ? & ? & ? & ?).
  by exists (length ts), ts, new, w', e'.
Qed.

Definition sample_task (c : Z) : Task := mkTask (Some 1) c.

Lemma executor_fifo_witness :
  exists s, rtc (exec_step 2) (mkExecSystem (exec_new 2) [] [] 0) s /\ posted s = [sample_task 1; sample_task 2] /\
    started s = [sample_task 1] /\ contents 2 (ex s) = [sample_task 2].
Proof.
  set (e1 := (post 2 (exec_new 2) (sample_task 1)).2). set (e2 := (post 2 e1 (sample_task 2)).2).
  set (e3 := mkExec (queue e2) 1 1 true true).
  assert (H : rtc (exec_step 2) (mkExecSystem (exec_new 2) [] [] 0)
                (mkExecSystem e3 [sample_task 1; sample_task 2] [sample_task 1] 0)).
  { eapply rtc_l; [apply (estep_post 2 (exec_new 2) [] [] 0 (sample_task 1) e1); reflexivity|].
    eapply rtc_l; [apply (estep_post 2 e1 [sample_task 1] [] 0 (sample_task 2) e2); reflexivity|].
    eapply rtc_l; [apply (estep_begin 2 e2 [sample_task 1; sample_task 2] [] 0 (sample_task 1) e3); reflexivity|]. apply rtc_refl. }
  eexists. split; [exact H|]. split; [reflexivity|]. split; [reflexivity|].
  pose proof (proj1 (executor_fifo 2 _ ltac:(lia) H)) as E. apply (f_equal (drop 1)) in E. symmetry. exact E.
Defined.

(** A program that records its invocations and accepted posts; task 1 posts task 3. *)
Definition sample_world : Type := list Task * list Task.
Definition sample_invoke (_ : list Z) (t : Task) (s : sample_world * BoundedExecutor) : sample_world * BoundedExecutor :=
  let '((ran, acc), e) := s in
  if t_context t =? 1 then
    match post 2 e (sample_task 3) with
    | (Ok _, e') => ((ran ++ [t], acc ++ [sample_task 3]), e')
    | (_, _) => ((ran ++ [t], acc), e)
    end
  else ((ran ++ [t], acc), e).

Lemma sample_invoke_ok : invoke_ok 2 7 sample_invoke fst snd [].
Proof.
  intros t [ran acc] e Hwf Hr. unfold sample_invoke. destruct (t_context t =? 1).
  - destruct (post 2 e (sample_task 3)) as [[[]| |] e'] eqn:E; cbn [fst snd].
    + destruct (post_contents 2 e _ e' Hwf E) as (Hwf' & Hc & Hr'). split_and!; [done|congruence|done|by exists [sample_task 3]].
    + split_and!; [done|done|done|exists []; by rewrite !app_nil_r].
    + split_and!; [done|done|done|exists []; by rewrite !app_nil_r].
  - split_and!; [done|done|done|exists []; by rewrite !app_nil_r].
Qed.

(** Two tasks wait, the first posts a third: all three are invoked. *)
Lemma executor_run_progress_witness :
  let e := (post 2 (post 2 (exec_new 2) (sample_task 1)).2 (sample_task 2)).2 in
  exists k ts new w' e', run 2 7 sample_invoke 5 [] (([], []), e) 0 = Ok (k, (w', e')) /\
    fst w' = ts /\ length ts = k /\ snd w' = new /\ ts = [sample_task 1; sample_task 2] ++ new /\ k = 3%nat.
Proof.
  intros e. destruct (executor_run_progress 2 7 sample_invoke fst snd 5 [] ([], []) e)
    as (k & ts & new & w' & e' & E & Hi & Hk & Ha & Hc & _ & _ & Hd).
  - apply sample_invoke_ok.
  - split; cbn; lia.
  - reflexivity.
  - exists k, ts, new, w', e'.
    assert (Hk3 : k = 3%nat) by (vm_compute in E; by injection E).
    rewrite Hd, app_nil_r in Hc by lia. split_and!; try done.
Defined.
