(* ===== verification/Budget.v ===== *)
(** * The memory budget ledger: [include/vita/runtime/execution/budget.hpp] *)

From stdpp Require Import relations.
From S2P Require Import Prelude Time.

(** The enumerators of [BudgetCategory] the code names, as row indices. *)
Module BudgetCategory.
Definition raw_blocks := 0%nat.
Definition providers := 1%nat.
Definition plans := 4%nat.
Definition queues := 8%nat.
Definition completion := 9%nat.
Definition scheduling := 10%nat.
Definition retention := 11%nat.
Definition headroom := 14%nat.
Definition count := 15%nat.
End BudgetCategory.
Definition budget_category_count : nat := BudgetCategory.count.
Definition framework_budget : Z := 67108864.
Definition retention_headroom_transfer : Z := 704512.
Definition sdr_state_headroom_transfer : Z := 99712.

Record BudgetRow := mkRow { reserved : Z; charged : Z }.
Abbreviation BudgetLedger := (list BudgetRow).

Definition reserve : list Z :=
  [30998528; 2621440; 8388608; 524288; 2097152; 1048576; 1114112 + sdr_state_headroom_transfer; 1048576;
   3145728; 524288; 1048576; 262144 + retention_headroom_transfer; 1048576; 4194304;
   9043968 - retention_headroom_transfer - sdr_state_headroom_transfer].
Definition ledger_new : BudgetLedger := (fun r => mkRow r 0) <$> reserve.

Definition charge (l : BudgetLedger) (category : nat) (bytes : Z) : Result BudgetLedger :=
  fail_if (length l <=? category)%nat with error1 ErrorCode.invalid_argument ;;
  let? row := deref (l !! category) in
  fail_if wrap64 (reserved row - charged row) <? bytes with error1 ErrorCode.capacity_exhausted ;;
  Ok (<[category := mkRow (reserved row) (wrap64 (charged row + bytes))]> l).

(** [sizeof_T] is positive. *)
Definition charge_objects (sizeof_T : Z) (l : BudgetLedger) (category : nat) (count : Z) : Result BudgetLedger :=
  fail_if SIZE_MAX / sizeof_T <? count with error1 ErrorCode.overflow ;;
  charge l category (wrap64 (count * sizeof_T)).

Definition transfer_headroom (l : BudgetLedger) (target : nat) (bytes : Z) : Result BudgetLedger :=
  fail_if (length l - 1 <=? target)%nat with error1 ErrorCode.invalid_argument ;;
  let? head := deref (l !! BudgetCategory.headroom) in
  fail_if wrap64 (reserved head - charged head) <? bytes with error1 ErrorCode.capacity_exhausted ;;
  let l := <[BudgetCategory.headroom := mkRow (wrap64 (reserved head - bytes)) (charged head)]> l in
  let? row := deref (l !! target) in
  Ok (<[target := mkRow (wrap64 (reserved row + bytes)) (charged row)]> l).

Definition transfer_unused (l : BudgetLedger) (source target : nat) (bytes : Z) : Result BudgetLedger :=
  fail_if (length l <=? source)%nat || (length l <=? target)%nat || (source =? target)%nat
    with error1 ErrorCode.invalid_argument ;;
  let? from := deref (l !! source) in
  fail_if wrap64 (reserved from - charged from) <? bytes with error1 ErrorCode.capacity_exhausted ;;
  let? to := deref (l !! target) in
  fail_if SIZE_MAX - reserved to <? bytes with error1 ErrorCode.overflow ;;
  let l := <[source := mkRow (wrap64 (reserved from - bytes)) (charged from)]> l in
  let? to := deref (l !! target) in
  Ok (<[target := mkRow (wrap64 (reserved to + bytes)) (charged to)]> l).

Definition row (l : BudgetLedger) (category : nat) : BudgetRow := default (mkRow 0 0) (l !! category).
Definition charged_bytes (l : BudgetLedger) : Z := wrap64 (foldr (fun r n => charged r + n) 0 l).
Definition reserved_bytes (l : BudgetLedger) : Z := wrap64 (foldr (fun r n => reserved r + n) 0 l).

(** [reference_budget]: every item gets its row enlarged from the headroom if needed
    and is charged; the sizes come from the object layout of the platform. *)
Definition ensure_row (l : BudgetLedger) (category : nat) (n : Z) : Result BudgetLedger :=
  if n <=? reserved (row l category) then Ok l
  else transfer_headroom l category (wrap64 (n - reserved (row l category))).
Fixpoint charge_items (l : BudgetLedger) (items : list (nat * Z)) : Result BudgetLedger :=
  match items with
  | [] => Ok l
  | (c, n) :: items => let? l := ensure_row l c n in let? l := charge l c n in charge_items l items
  end.
Definition reference_budget (providers retained completion plans queues scheduling : Z) : Result BudgetLedger :=
  charge_items ledger_new
    [(BudgetCategory.raw_blocks, 30998528); (BudgetCategory.providers, providers); (BudgetCategory.retention, retained);
     (BudgetCategory.completion, completion); (BudgetCategory.plans, plans); (BudgetCategory.queues, queues);
     (BudgetCategory.scheduling, scheduling)].

(** ** Conservation *)

Inductive budget_step : relation BudgetLedger :=
  | bstep_charge l c n l' : u64 n -> charge l c n = Ok l' -> budget_step l l'
  | bstep_headroom l c n l' : u64 n -> transfer_headroom l c n = Ok l' -> budget_step l l'
  | bstep_unused l a b n l' : u64 n -> transfer_unused l a b n = Ok l' -> budget_step l l'.

Definition total_reserved (l : BudgetLedger) : Z := foldr (fun r n => reserved r + n) 0 l.
Definition total_charged (l : BudgetLedger) : Z := foldr (fun r n => charged r + n) 0 l.
Definition row_ok (r : BudgetRow) : Prop := 0 <= charged r <= reserved r.

Record ledger_wf (l : BudgetLedger) : Prop := mk_ledger_wf {
  lwf_rows : length l = budget_category_count;
  lwf_ok : Forall row_ok l;
  lwf_total : total_reserved l = framework_budget
}.

Lemma total_reserved_cons r l : total_reserved (r :: l) = reserved r + total_reserved l.
Proof. done. Qed.

Lemma total_reserved_insert l i x y : l !! i = Some x -> total_reserved (<[i:=y]> l) = total_reserved l - reserved x + reserved y.
Proof.
  revert i. induction l as [|r l IH]; intros [|i] H; cbn in H; simplify_eq.
  - change (<[0%nat:=y]> (x :: l)) with (y :: l). rewrite !total_reserved_cons. lia.
  - change (<[S i:=y]> (r :: l)) with (r :: <[i:=y]> l). rewrite !total_reserved_cons, (IH i H). lia.
Qed.

Lemma total_bounds l : Forall row_ok l -> 0 <= total_charged l <= total_reserved l.
Proof.
  induction 1 as [|r l [? ?] HF IH]; [done|]. rewrite total_reserved_cons.
  change (total_charged (r :: l)) with (charged r + total_charged l). lia.
Qed.

Lemma total_reserved_member l i x : Forall row_ok l -> l !! i = Some x -> reserved x <= total_reserved l.
Proof.
  intros HF. revert i. induction HF as [|r l [? ?] HF IH]; intros i Hi; [done|]. rewrite total_reserved_cons.
  pose proof (total_bounds l HF). destruct i; cbn in Hi; simplify_eq; [lia|specialize (IH _ Hi); lia].
Qed.

(** Moving an amount that is not charged from one row to another. *)
Lemma move_wf l i j x y n : ledger_wf l -> i <> j -> l !! i = Some x -> l !! j = Some y -> 0 <= n <= reserved x - charged x ->
  ledger_wf (<[j := mkRow (reserved y + n) (charged y)]> (<[i := mkRow (reserved x - n) (charged x)]> l)).
Proof.
  intros [Hl HF Ht] Hij Hx Hy Hn.
  pose proof (Forall_lookup_1 _ _ _ _ HF Hx) as [? ?]. pose proof (Forall_lookup_1 _ _ _ _ HF Hy) as [? ?]. split.
  - by rewrite !length_insert.
  - apply Forall_insert; [apply Forall_insert; [done|]|]; split; cbn; lia.
  - rewrite (total_reserved_insert _ j y), (total_reserved_insert _ i x) by (done || by rewrite list_lookup_insert_ne).
    cbn. lia.
Qed.

Lemma budget_step_wf l l' : ledger_wf l -> budget_step l l' -> ledger_wf l'.
Proof.
  intros Hwf Hs. pose proof Hwf as [Hl HF Ht].
  assert (Hrow : forall i x, l !! i = Some x -> 0 <= charged x <= reserved x /\ reserved x <= framework_budget).
  { intros i x Hx. split; [by apply (Forall_lookup_1 _ _ _ _ HF Hx)|]. rewrite <- Ht. by eapply total_reserved_member. }
  unfold framework_budget in Hrow.
  destruct Hs as [l c n l' Hn E|l c n l' Hn E|l a b n l' Hn E].
  - unfold charge in E. destruct (_ <=? _)%nat; [done|]. destruct (l !! c) as [x|] eqn:Hx; [|done]. cbn [deref rbind] in E.
    destruct (Hrow c x Hx) as [? ?]. rewrite wrap64_small in E by zlia.
    destruct (Z.ltb_spec (reserved x - charged x) n); [done|]. rewrite wrap64_small in E by zlia. injection E as <-. split.
    + by rewrite length_insert.
    + apply Forall_insert; [done|]. split; cbn; zlia.
    + rewrite (total_reserved_insert l c x) by done. cbn. lia.
  - unfold transfer_headroom in E. destruct (Nat.leb_spec (length l - 1) c); [done|].
    destruct (l !! BudgetCategory.headroom) as [x|] eqn:Hx; [|done]. cbn [deref rbind] in E.
    destruct (Hrow _ x Hx) as [? ?]. rewrite wrap64_small in E by zlia.
    destruct (Z.ltb_spec (reserved x - charged x) n); [done|].
    assert (c <> BudgetCategory.headroom) by (unfold budget_category_count, BudgetCategory.count, BudgetCategory.headroom in *; lia).
    rewrite list_lookup_insert_ne in E by done. destruct (l !! c) as [y|] eqn:Hy; [|done]. cbn [deref rbind] in E.
    destruct (Hrow _ y Hy) as [? ?]. rewrite !wrap64_small in E by zlia. injection E as <-. apply move_wf; (done || zlia).
  - unfold transfer_unused in E. destruct (_ || _) eqn:Eg in E; [done|].
    apply orb_false_iff in Eg as [_ Hne%Nat.eqb_neq].
    destruct (l !! a) as [x|] eqn:Hx; [|done]. cbn [deref rbind] in E.
    destruct (Hrow _ x Hx) as [? ?]. rewrite wrap64_small in E by zlia.
    destruct (Z.ltb_spec (reserved x - charged x) n); [done|]. destruct (l !! b) as [y|] eqn:Hy; [|done].
    cbn [deref rbind] in E. destruct (Z.ltb_spec (SIZE_MAX - reserved y) n); [done|].
    rewrite list_lookup_insert_ne, Hy in E by done. cbn [deref rbind] in E.
    destruct (Hrow _ y Hy) as [? ?]. rewrite !wrap64_small in E by zlia. injection E as <-. apply move_wf; (done || zlia).
Qed.

Lemma ledger_new_wf : ledger_wf ledger_new.
Proof. split; [done| |done]. repeat (apply List.Forall_cons; [split; vm_compute; congruence|]). apply List.Forall_nil. Qed.

(** ** Properties *)

(** C40. The budget is never overdrawn: whatever charges and transfers are made, the
    reservations of all categories together stay the framework's 64 MiB, no category is
    charged more than it has reserved, and so the bytes charged never exceed the budget. *)
Theorem budget_conserved l :
  rtc budget_step ledger_new l ->
  reserved_bytes l = framework_budget /\ charged_bytes l <= framework_budget /\
  (forall c, 0 <= charged (row l c) <= reserved (row l c)).
Proof.
  intros Hr. assert (Hwf : ledger_wf l).
  { pose proof ledger_new_wf as H0. induction Hr; [done|]. eauto using budget_step_wf. }
  destruct Hwf as [Hl HF Ht]. pose proof (total_bounds l HF) as Hb. unfold reserved_bytes, charged_bytes.
  fold (total_reserved l) (total_charged l). unfold framework_budget in *. rewrite !wrap64_small by zlia. split_and!; [done|lia|].
  intros c. unfold row. destruct (l !! c) as [x|] eqn:Hx; [|done]. by apply (Forall_lookup_1 _ _ _ _ HF Hx).
Qed.

Lemma budget_conserved_witness :
  exists l, rtc budget_step ledger_new l /\ reserved (row l BudgetCategory.queues) = 3145828 /\
    reserved_bytes l = framework_budget.
Proof.
  destruct (transfer_headroom ledger_new BudgetCategory.queues 100) as [l| |] eqn:E; try (vm_compute in E; discriminate E).
  assert (H : rtc budget_step ledger_new l) by (apply rtc_once, (bstep_headroom _ BudgetCategory.queues 100); [zlia|exact E]).
  exists l. split; [exact H|]. split; [vm_compute in E; injection E as <-; reflexivity|exact (proj1 (budget_conserved l H))].
Defined.
