(* ===== verification/Ticket.v ===== *)
(** * Completion tickets: [include/vita/runtime/completion/ticket.hpp]

    Each slot of a [CompletionArena] has one 64-bit word that holds a generation and
    a state; publishers, writers and the consumer synchronise on it without a lock.
    Every access to the word (load, store, compare-and-swap) is an atomic step, the
    other fields of a slot are accessed by separate steps in program order, and
    [ticket_step] interleaves the steps of all threads. *)

From stdpp Require Import relations.
From S2P Require Import Prelude Time.

Module CompletionStatus.
Inductive t := succeeded | failed | cancelled | abandoned.
End CompletionStatus.

Record CompletionResult := mkCompletion {
  c_status : CompletionStatus.t; c_error : Error; c_value : Z; c_effective_monotonic_ns : Z }.
Definition result_default : CompletionResult :=
  mkCompletion CompletionStatus.succeeded (error1 ErrorCode.invalid_state) 0 0.
Record CompletionRecord := mkRecord { r_operation : Z; r_result : CompletionResult }.

(** The enumerators of [TicketState], as the byte stored in the word. *)
Module TicketState.
Definition free : Z := 0.
Definition reserved : Z := 1.
Definition writing : Z := 2.
Definition ready : Z := 3.
Definition reading : Z := 4.
Definition retired : Z := 5.
End TicketState.

Definition max_ticket_generation : Z := 2 ^ 56 - 1.
Definition tag (g st : Z) : Z := wrap64 (Z.lor (wrap64 (Z.shiftl g 8)) st).
Definition tag_state (w : Z) : Z := Z.land w 255.
Definition tag_generation (w : Z) : Z := Z.shiftr w 8.

Record CompletionSlot := mkSlot { tagged : Z; operation : Z; payload : CompletionResult }.
Record CompletionState := mkState { slots : list CompletionSlot; rejected_publications : Z }.

Definition arena_create (N : nat) (initial_generation : Z) : CompletionState :=
  let g := if initial_generation <=? max_ticket_generation then initial_generation else max_ticket_generation in
  mkState (replicate N (mkSlot (tag g TicketState.free) 0 result_default)) 0.

Definition set_slot (s : CompletionState) (i : nat) (sl : CompletionSlot) : CompletionState :=
  mkState (<[i:=sl]> (slots s)) (rejected_publications s).
Definition set_tag (sl : CompletionSlot) (w : Z) : CompletionSlot := mkSlot w (operation sl) (payload sl).

(** The accesses of [reserve] to a slot: the load of its word, which finds it free or not, and
    the stores of the operation and of the reserved word. *)
Definition is_free (sl : CompletionSlot) : bool := tag_state (tagged sl) =? TicketState.free.
Definition reserve_look (s : CompletionState) (i : nat) : Result (option Z) :=
  let? sl := deref (slots s !! i) in
  Ok (if negb (is_free sl) then None else Some (tag_generation (tagged sl))).
Definition reserve_operation (s : CompletionState) (i : nat) (op : Z) : Result CompletionState :=
  let? sl := deref (slots s !! i) in
  Ok (set_slot s i (mkSlot (tagged sl) op (payload sl))).
Definition reserve_tag (s : CompletionState) (i : nat) (generation : Z) : Result CompletionState :=
  let? sl := deref (slots s !! i) in
  Ok (set_slot s i (set_tag sl (tag generation TicketState.reserved))).

(** [reserve] on one thread: the loop over the slots, from slot [i], and the slot and
    generation of the publisher of the new token. *)
Fixpoint reserve_from (n i : nat) (s : CompletionState) (op : Z) : Result (nat * Z) * CompletionState :=
  match n with
  | O => (Err (error1 ErrorCode.capacity_exhausted), s)
  | S n =>
      match reserve_look s i with
      | Ok None => reserve_from n (S i) s op
      | Ok (Some generation) =>
          match (let? s := reserve_operation s i op in reserve_tag s i generation) with
          | Ok s => (Ok (i, generation), s)
          | _ => (UB, s)
          end
      | _ => (UB, s)
      end
  end.
Definition reserve (s : CompletionState) (op : Z) : Result (nat * Z) * CompletionState := reserve_from (length (slots s)) 0 s op.

(** The compare-and-swap of [try_claim]. *)
Definition try_claim (s : CompletionState) (i : nat) (generation : Z) : Result (bool * CompletionState) :=
  let? sl := deref (slots s !! i) in
  if tagged sl =? tag generation TicketState.reserved
  then Ok (true, set_slot s i (set_tag sl (tag generation TicketState.writing)))
  else Ok (false, mkState (slots s) (wrap64 (rejected_publications s + 1))).

(** The two stores of [finish]. *)
Definition finish_payload (s : CompletionState) (i : nat) (r : CompletionResult) : Result CompletionState :=
  let? sl := deref (slots s !! i) in
  Ok (set_slot s i (mkSlot (tagged sl) (operation sl) r)).
Definition finish_tag (s : CompletionState) (i : nat) (generation : Z) : Result CompletionState :=
  let? sl := deref (slots s !! i) in
  Ok (set_slot s i (set_tag sl (tag generation TicketState.ready))).

(** [publish] on one thread. *)
Definition publish (s : CompletionState) (i : nat) (generation : Z) (r : CompletionResult) : Result (bool * CompletionState) :=
  let? (claimed, s) := try_claim s i generation in
  if negb claimed then Ok (false, s) else
  let? s := finish_payload s i r in
  let? s := finish_tag s i generation in
  Ok (true, s).

(** A token publishes once, or as abandoned when it is dropped. *)
Record CompletionToken := mkToken { tk_slot : nat; tk_generation : Z; tk_active : bool }.
Definition token_publish (s : CompletionState) (t : CompletionToken) (r : CompletionResult)
    : Result (bool * CompletionState * CompletionToken) :=
  if negb (tk_active t) then Ok (false, s, t) else
  let? (b, s) := publish s (tk_slot t) (tk_generation t) r in
  Ok (b, s, mkToken (tk_slot t) (tk_generation t) false).
Definition token_abandon (s : CompletionState) (t : CompletionToken) : Result (CompletionState * CompletionToken) :=
  if negb (tk_active t) then Ok (s, t) else
  let r := mkCompletion CompletionStatus.abandoned (error1 ErrorCode.callback_failure) 0 0 in
  let? (_, s) := publish s (tk_slot t) (tk_generation t) r in
  Ok (s, mkToken (tk_slot t) (tk_generation t) false).

(** [consume]: the load and compare-and-swap, then the reads, the reset of the payload
    and the final store. *)
Definition consume_begin (s : CompletionState) (i : nat) : option Z * CompletionState :=
  match slots s !! i with
  | None => (None, s)
  | Some sl =>
      if negb (tag_state (tagged sl) =? TicketState.ready) then (None, s) else
      let generation := tag_generation (tagged sl) in
      (Some generation, set_slot s i (set_tag sl (tag generation TicketState.reading)))
  end.
Definition consume_read (s : CompletionState) (i : nat) : Result (CompletionRecord * CompletionState) :=
  let? sl := deref (slots s !! i) in
  Ok (mkRecord (operation sl) (payload sl), set_slot s i (mkSlot (tagged sl) (operation sl) result_default)).
Definition consume_finish (s : CompletionState) (i : nat) (generation : Z) : Result CompletionState :=
  let? sl := deref (slots s !! i) in
  Ok (set_slot s i (set_tag sl
    (if generation =? max_ticket_generation then tag generation TicketState.retired
     else tag (wrap64 (generation + 1)) TicketState.free))).

Definition consume (s : CompletionState) (i : nat) : Result (option CompletionRecord * CompletionState) :=
  let '(g, s) := consume_begin s i in
  match g with
  | None => Ok (None, s)
  | Some g =>
      let? (r, s) := consume_read s i in
      let? s := consume_finish s i g in
      Ok (Some r, s)
  end.

(** [scan] hands the records to a function in slot order. *)
Fixpoint scan (n i : nat) (s : CompletionState) (out : list CompletionRecord) : Result (list CompletionRecord * CompletionState) :=
  match n with
  | O => Ok (out, s)
  | S n =>
      let? (r, s) := consume s i in
      scan n (S i) s (match r with Some r => out ++ [r] | None => out end)
  end.

Definition ticket_state (s : CompletionState) (i : nat) : Z :=
  match slots s !! i with Some sl => tag_state (tagged sl) | None => TicketState.retired end.

(** ** The tag word *)

Lemma tag_value g st : 0 <= g <= max_ticket_generation -> 0 <= st < 256 -> tag g st = g * 256 + st.
Proof.
  intros Hg Hs. unfold tag, max_ticket_generation in *. rewrite Z.shiftl_mul_pow2 by lia. change (2 ^ 8) with 256.
  rewrite (wrap64_small (g * 256)) by zlia. change 256 with (2 ^ 8) at 1. rewrite lor_low by lia.
  rewrite wrap64_small by zlia. done.
Qed.

Lemma tag_state_tag g st : 0 <= g <= max_ticket_generation -> 0 <= st < 256 -> tag_state (tag g st) = st.
Proof.
  intros Hg Hs. rewrite tag_value by done. unfold tag_state. change 255 with (2 ^ 8 - 1).
  rewrite land_mask by lia. change (2 ^ 8) with 256. zlia.
Qed.

Lemma tag_generation_tag g st : 0 <= g <= max_ticket_generation -> 0 <= st < 256 -> tag_generation (tag g st) = g.
Proof.
  intros Hg Hs. rewrite tag_value by done. unfold tag_generation. rewrite Z.shiftr_div_pow2 by lia.
  change (2 ^ 8) with 256. zlia.
Qed.

Lemma tag_inj g st g' st' :
  0 <= g <= max_ticket_generation -> 0 <= st < 256 -> 0 <= g' <= max_ticket_generation -> 0 <= st' < 256 ->
  tag g st = tag g' st' -> g = g' /\ st = st'.
Proof. intros. rewrite !tag_value in * by done. lia. Qed.

(** ** Threads *)

(** A slot, a generation and something about them. *)
Abbreviation entry A := (nat * Z * A)%type.

(** The thread in [reserve], which holds the allocation mutex: its operation, the slot its scan
    has come to, and once that slot was found free its generation and whether the operation
    has been stored. *)
Record Allocation := mkAllocation { al_operation : Z; al_slot : nat; al_found : option (Z * bool) }.

(** The arena with the thread that allocates, the writers that have claimed a slot (with the
    payload once it is written), the consumers that are reading one (with the record once it
    is read) and the history of reservations, publications and consumptions. *)
Record TicketSystem := mkTickets {
  allocator : option Allocation;
  arena : CompletionState;
  writers : list (entry (option CompletionResult));
  readers : list (entry (option CompletionRecord));
  reservations : list (entry Z);
  publications : list (entry CompletionResult);
  consumptions : list (entry CompletionRecord)
}.

(** One thread at a time scans the slots for a free one, each load and store being a step, while
    the others go on.  A publisher may be copied and used late, so a claim can be tried for any
    slot and generation; a writer or reader acts on what it claimed. *)
Inductive ticket_step : relation TicketSystem :=
  | tstep_lock s ws rs os ps cs op :
      ticket_step (mkTickets None s ws rs os ps cs) (mkTickets (Some (mkAllocation op 0 None)) s ws rs os ps cs)
  | tstep_skip s ws rs os ps cs op i : reserve_look s i = Ok None ->
      ticket_step (mkTickets (Some (mkAllocation op i None)) s ws rs os ps cs) (mkTickets (Some (mkAllocation op (S i) None)) s ws rs os ps cs)
  | tstep_find s ws rs os ps cs op i g : reserve_look s i = Ok (Some g) ->
      ticket_step (mkTickets (Some (mkAllocation op i None)) s ws rs os ps cs)
        (mkTickets (Some (mkAllocation op i (Some (g, false)))) s ws rs os ps cs)
  | tstep_operation s ws rs os ps cs op i g s' : reserve_operation s i op = Ok s' ->
      ticket_step (mkTickets (Some (mkAllocation op i (Some (g, false)))) s ws rs os ps cs)
        (mkTickets (Some (mkAllocation op i (Some (g, true)))) s' ws rs os ps cs)
  | tstep_reserve s ws rs os ps cs op i g s' : reserve_tag s i g = Ok s' ->
      ticket_step (mkTickets (Some (mkAllocation op i (Some (g, true)))) s ws rs os ps cs)
        (mkTickets None s' ws rs ((i, g, op) :: os) ps cs)
  | tstep_exhausted s ws rs os ps cs op i : i = length (slots s) ->
      ticket_step (mkTickets (Some (mkAllocation op i None)) s ws rs os ps cs) (mkTickets None s ws rs os ps cs)
  | tstep_claim al s ws rs os ps cs i g b s' : 0 <= g <= max_ticket_generation -> try_claim s i g = Ok (b, s') ->
      ticket_step (mkTickets al s ws rs os ps cs) (mkTickets al s' (if b then (i, g, None) :: ws else ws) rs os ps cs)
  | tstep_write al s w1 w2 rs os ps cs i g r s' : finish_payload s i r = Ok s' ->
      ticket_step (mkTickets al s (w1 ++ (i, g, None) :: w2) rs os ps cs) (mkTickets al s' (w1 ++ (i, g, Some r) :: w2) rs os ps cs)
  | tstep_publish al s w1 w2 rs os ps cs i g r s' : finish_tag s i g = Ok s' ->
      ticket_step (mkTickets al s (w1 ++ (i, g, Some r) :: w2) rs os ps cs) (mkTickets al s' (w1 ++ w2) rs os ((i, g, r) :: ps) cs)
  | tstep_begin al s ws rs os ps cs i g s' : consume_begin s i = (Some g, s') ->
      ticket_step (mkTickets al s ws rs os ps cs) (mkTickets al s' ws ((i, g, None) :: rs) os ps cs)
  | tstep_read al s ws r1 r2 os ps cs i g rec s' : consume_read s i = Ok (rec, s') ->
      ticket_step (mkTickets al s ws (r1 ++ (i, g, None) :: r2) os ps cs) (mkTickets al s' ws (r1 ++ (i, g, Some rec) :: r2) os ps cs)
  | tstep_end al s ws r1 r2 os ps cs i g rec s' : consume_finish s i g = Ok s' ->
      ticket_step (mkTickets al s ws (r1 ++ (i, g, Some rec) :: r2) os ps cs) (mkTickets al s' ws (r1 ++ r2) os ps ((i, g, rec) :: cs)).

Definition at_slot {A} (i : nat) (l : list (entry A)) : list (entry A) := filter (fun e => e.1.1 = i) l.
#[global] Arguments at_slot : simpl never.
Definition below {A} (l : list (entry A)) (g : Z) : Prop := forall e, e ∈ l -> e.1.2 < g.
Definition unique {A} (l : list (entry A)) : Prop := NoDup ((fun e => e.1.2) <$> l).

(** What the word of a slot says about the threads at it and about its history. *)
Inductive slot_inv (i : nat) (sl : CompletionSlot) (W : list (entry (option CompletionResult)))
    (R : list (entry (option CompletionRecord))) (O : list (entry Z)) (P : list (entry CompletionResult))
    (C : list (entry CompletionRecord)) : Prop :=
  | inv_free g : tagged sl = tag g TicketState.free -> 0 <= g <= max_ticket_generation ->
      W = [] -> R = [] -> below O g -> below P g -> below C g -> slot_inv i sl W R O P C
  | inv_reserved g : tagged sl = tag g TicketState.reserved -> 0 <= g <= max_ticket_generation ->
      W = [] -> R = [] -> (i, g, operation sl) ∈ O -> below O (g + 1) -> below P g -> below C g -> slot_inv i sl W R O P C
  | inv_writing g ph : tagged sl = tag g TicketState.writing -> 0 <= g <= max_ticket_generation ->
      W = [(i, g, ph)] -> R = [] -> (i, g, operation sl) ∈ O -> below O (g + 1) -> below P g -> below C g ->
      (forall r, ph = Some r -> payload sl = r) -> slot_inv i sl W R O P C
  | inv_ready g : tagged sl = tag g TicketState.ready -> 0 <= g <= max_ticket_generation ->
      W = [] -> R = [] -> (i, g, operation sl) ∈ O -> (i, g, payload sl) ∈ P ->
      below O (g + 1) -> below P (g + 1) -> below C g -> slot_inv i sl W R O P C
  | inv_reading g ph : tagged sl = tag g TicketState.reading -> 0 <= g <= max_ticket_generation ->
      W = [] -> R = [(i, g, ph)] -> (i, g, operation sl) ∈ O -> below O (g + 1) -> below P (g + 1) -> below C g ->
      (ph = None -> (i, g, payload sl) ∈ P) ->
      (forall rec, ph = Some rec -> r_operation rec = operation sl /\ (i, g, r_result rec) ∈ P) -> slot_inv i sl W R O P C
  | inv_retired g : tagged sl = tag g TicketState.retired -> 0 <= g <= max_ticket_generation ->
      W = [] -> R = [] -> below O (g + 1) -> below P (g + 1) -> below C (g + 1) -> slot_inv i sl W R O P C.

Record history_ok (i : nat) (O : list (entry Z)) (P : list (entry CompletionResult)) (C : list (entry CompletionRecord)) : Prop :=
  mk_history_ok {
    ho_O : unique O; ho_P : unique P; ho_C : unique C;
    ho_consumed : forall g rec, (i, g, rec) ∈ C -> (i, g, r_operation rec) ∈ O /\ (i, g, r_result rec) ∈ P
  }.

Definition ticket_wf (s : TicketSystem) : Prop :=
  (forall i sl, slots (arena s) !! i = Some sl ->
     slot_inv i sl (at_slot i (writers s)) (at_slot i (readers s)) (at_slot i (reservations s))
       (at_slot i (publications s)) (at_slot i (consumptions s))) /\
  (forall i, history_ok i (at_slot i (reservations s)) (at_slot i (publications s)) (at_slot i (consumptions s))).

Lemma at_slot_cons {A} i j g (x : A) l :
  at_slot i ((j, g, x) :: l) = if decide (j = i) then (j, g, x) :: at_slot i l else at_slot i l.
Proof. unfold at_slot. rewrite filter_cons. done. Qed.
Lemma at_slot_app {A} i (a b : list (entry A)) : at_slot i (a ++ b) = at_slot i a ++ at_slot i b.
Proof. apply list.filter_app. Qed.

Lemma below_cons {A} i g (x : A) l b : below l b -> g < b -> below ((i, g, x) :: l) b.
Proof. intros Hl Hg e [->|He]%elem_of_cons; [done|by apply Hl]. Qed.
Lemma below_mono {A} (l : list (entry A)) a b : below l a -> a <= b -> below l b.
Proof. intros Hl Hab e He. specialize (Hl e He). lia. Qed.
Lemma unique_cons {A} i g (x : A) l : unique l -> below l g -> unique ((i, g, x) :: l).
Proof.
  intros Hu Hb. unfold unique. cbn. apply list.NoDup_cons. split; [|done].
  intros (e & Hg & He)%list_elem_of_fmap. specialize (Hb e He). lia.
Qed.
Lemma unique_eq {A} (l : list (entry A)) i g (x y : A) : unique l -> (i, g, x) ∈ l -> (i, g, y) ∈ l -> x = y.
Proof.
  induction l as [|[[j h] z] l IH]; [by intros _ ?%not_elem_of_nil|]. unfold unique. cbn.
  intros [Hn Hu]%list.NoDup_cons Hx Hy.
  assert (Hno : forall w : A, (i, h, w) ∈ l -> False).
  { intros w Hw. apply Hn. apply list_elem_of_fmap. by exists (i, h, w). }
  apply elem_of_cons in Hx as [Ex|Hx]; apply elem_of_cons in Hy as [Ey|Hy]; simplify_eq; try done.
  - by destruct (Hno y).
  - by destruct (Hno x).
  - by apply IH.
Qed.

(** ** Every step keeps the invariant *)

Section frame.
Context (s : CompletionState) (ws : list (entry (option CompletionResult))) (rs : list (entry (option CompletionRecord))).
Context (os : list (entry Z)) (ps : list (entry CompletionResult)) (cs : list (entry CompletionRecord)).
Context (al : option Allocation) (Hwf : ticket_wf (mkTickets al s ws rs os ps cs)).

(** A step that changes only slot [i] and lists only at slot [i]. *)
Lemma slot_update al' i sl sl' ws' rs' os' ps' cs' rej :
  slots s !! i = Some sl ->
  (forall j, j <> i -> at_slot j ws' = at_slot j ws /\ at_slot j rs' = at_slot j rs /\ at_slot j os' = at_slot j os /\
     at_slot j ps' = at_slot j ps /\ at_slot j cs' = at_slot j cs) ->
  slot_inv i sl' (at_slot i ws') (at_slot i rs') (at_slot i os') (at_slot i ps') (at_slot i cs') ->
  history_ok i (at_slot i os') (at_slot i ps') (at_slot i cs') ->
  ticket_wf (mkTickets al' (mkState (<[i:=sl']> (slots s)) rej) ws' rs' os' ps' cs').
Proof.
  intros Hi Hsame Hinv Hhist. destruct Hwf as [Hslots Hh]. split; cbn in *.
  - intros j x Hj. destruct (decide (j = i)) as [->|Hne].
    + rewrite list_lookup_insert_eq in Hj by (by eapply lookup_lt_Some). by injection Hj as <-.
    + rewrite list_lookup_insert_ne in Hj by done. destruct (Hsame j Hne) as (-> & -> & -> & -> & ->). by apply Hslots.
  - intros j. destruct (decide (j = i)) as [->|Hne]; [done|].
    destruct (Hsame j Hne) as (_ & _ & -> & -> & ->). apply Hh.
Qed.
End frame.

(** Which case of the invariant a slot is in follows from its word. *)
Ltac tag_cases H :=
  match type of H with
  | tag ?g ?a = tag ?h ?b =>
      let E1 := fresh in let E2 := fresh in
      apply tag_inj in H as [E1 E2]; [|done|done|done|done]; try (vm_compute in E2; discriminate E2); try subst h; try subst g
  end.

Lemma state_bound : 0 <= TicketState.free < 256 /\ 0 <= TicketState.reserved < 256 /\ 0 <= TicketState.writing < 256 /\
  0 <= TicketState.ready < 256 /\ 0 <= TicketState.reading < 256 /\ 0 <= TicketState.retired < 256.
Proof. done. Qed.

Ltac other_slot := intros j Hj; rewrite ?at_slot_app, ?at_slot_cons; rewrite ?decide_False by done; done.

(** A slot found free stays as it was found, whatever the other threads do. *)
Definition alloc_ok (al : option Allocation) (s : CompletionState) : Prop :=
  forall op i g stored, al = Some (mkAllocation op i (Some (g, stored))) ->
    exists sl, slots s !! i = Some sl /\ tagged sl = tag g TicketState.free /\ 0 <= g <= max_ticket_generation /\
      (stored = true -> operation sl = op).

Lemma alloc_ok_none s : alloc_ok None s.
Proof. intros op i g stored [=]. Qed.
Lemma alloc_ok_scan op i s : alloc_ok (Some (mkAllocation op i None)) s.
Proof. intros op' i' g stored [=]. Qed.

Lemma free_case i sl W R O P C : slot_inv i sl W R O P C -> is_free sl = true ->
  exists g, tagged sl = tag g TicketState.free /\ 0 <= g <= max_ticket_generation /\ W = [] /\ R = [] /\ below O g /\ below P g /\ below C g.
Proof.
  unfold is_free. intros H Hfree. apply Z.eqb_eq in Hfree.
  destruct H as [g Et Hg HW HR HO HP HC|g Et Hg|g ph Et Hg|g Et Hg|g ph Et Hg|g Et Hg];
    rewrite Et, tag_state_tag in Hfree by done; try discriminate Hfree. by exists g.
Qed.

Lemma find_ok al s ws rs os ps cs op i g : ticket_wf (mkTickets al s ws rs os ps cs) -> reserve_look s i = Ok (Some g) ->
  alloc_ok (Some (mkAllocation op i (Some (g, false)))) s.
Proof.
  intros [Hslots _] E op' i' g' stored [= <- <- <- <-]. unfold reserve_look in E. destruct (slots s !! i) as [sl|] eqn:Esl; [|done].
  cbn [deref rbind] in E. destruct (is_free sl) eqn:Ef; [|done]. injection E as <-. exists sl. split; [done|].
  destruct (free_case _ _ _ _ _ _ _ (Hslots i sl Esl) Ef) as (g & Et & Hg & _). rewrite Et, tag_generation_tag by done. done.
Qed.

Lemma operation_wf al al' s ws rs os ps cs op i g s' : ticket_wf (mkTickets al s ws rs os ps cs) ->
  alloc_ok (Some (mkAllocation op i (Some (g, false)))) s -> reserve_operation s i op = Ok s' ->
  ticket_wf (mkTickets al' s' ws rs os ps cs) /\ alloc_ok (Some (mkAllocation op i (Some (g, true)))) s'.
Proof.
  intros Hwf Hal E. destruct (Hal op i g false eq_refl) as (sl & Esl & Et & Hg & _). unfold reserve_operation in E. rewrite Esl in E.
  injection E as <-. pose proof Hwf as [Hslots Hh]. specialize (Hslots i sl Esl). specialize (Hh i). cbn in Hslots, Hh.
  destruct (free_case _ _ _ _ _ _ _ Hslots) as (h & Eh & Hh' & HW & HR & HO & HP & HC).
  { unfold is_free. by rewrite Et, tag_state_tag. }
  split.
  - eapply slot_update; try done. by apply (inv_free _ _ _ _ _ _ _ h).
  - intros op' i' g' stored [= <- <- <- <-]. exists (mkSlot (tagged sl) op (payload sl)). split; [|done].
    apply list_lookup_insert_eq. by eapply lookup_lt_Some.
Qed.

Lemma reserve_wf al al' s ws rs os ps cs op i g s' : ticket_wf (mkTickets al s ws rs os ps cs) ->
  alloc_ok (Some (mkAllocation op i (Some (g, true)))) s -> reserve_tag s i g = Ok s' ->
  ticket_wf (mkTickets al' s' ws rs ((i, g, op) :: os) ps cs).
Proof.
  intros Hwf Hal E. destruct (Hal op i g true eq_refl) as (sl & Esl & Et & Hg & Hop). specialize (Hop eq_refl).
  unfold reserve_tag in E. rewrite Esl in E. injection E as <-.
  pose proof Hwf as [Hslots Hh]. specialize (Hslots i sl Esl). specialize (Hh i). cbn in Hslots, Hh.
  destruct (free_case _ _ _ _ _ _ _ Hslots) as (h & Eh & Hh' & HW & HR & HO & HP & HC).
  { unfold is_free. by rewrite Et, tag_state_tag. }
  rewrite Et in Eh. tag_cases Eh.
  eapply slot_update; try done; [other_slot| |]; rewrite at_slot_cons, decide_True by done.
  - apply (inv_reserved _ _ _ _ _ _ _ g); try done; cbn; [rewrite Hop; by left|]. apply below_cons; [|lia]. eapply below_mono; [exact HO|lia].
  - destruct Hh. split; try done; [by apply unique_cons|]. intros k rec Hrec. destruct (ho_consumed0 k rec Hrec). split; [by right|done].
Qed.

Lemma claim_wf al al' s ws rs os ps cs i g b s' : ticket_wf (mkTickets al s ws rs os ps cs) -> 0 <= g <= max_ticket_generation ->
  try_claim s i g = Ok (b, s') -> ticket_wf (mkTickets al' s' (if b then (i, g, None) :: ws else ws) rs os ps cs).
Proof.
  intros Hwf Hg E. unfold try_claim in E. destruct (slots s !! i) as [sl|] eqn:Esl; [|done]. cbn [deref rbind] in E.
  destruct (Z.eqb_spec (tagged sl) (tag g TicketState.reserved)) as [Et|]; injection E as <- <-; [|exact Hwf].
  pose proof Hwf as [Hslots Hh]. specialize (Hslots i sl Esl). specialize (Hh i). cbn in Hslots, Hh.
  destruct Hslots as [h Eh Hb|h Eh Hb HW HR HO HO' HP HC|h ph Eh Hb|h Eh Hb|h ph Eh Hb|h Eh Hb];
    rewrite Et in Eh; tag_cases Eh.
  eapply slot_update; try done; [other_slot|]. rewrite at_slot_cons, decide_True, HW by done.
  by apply (inv_writing _ _ _ _ _ _ _ g None).
Qed.

Lemma single_entry {A} (a b : list A) x y : a ++ x :: b = [y] -> a = [] /\ b = [] /\ x = y.
Proof. destruct a as [|z [|]]; intros [=]; simplify_eq/=; done. Qed.
Lemma no_entry {A} (a b : list A) x : a ++ x :: b = [] -> False.
Proof. by destruct a. Qed.

(** The case of the invariant for a slot with a writer, or with a reader. *)
Lemma writer_case i sl w1 w2 g ph R O P C :
  slot_inv i sl (at_slot i (w1 ++ (i, g, ph) :: w2)) R O P C ->
  at_slot i w1 = [] /\ at_slot i w2 = [] /\ tagged sl = tag g TicketState.writing /\ 0 <= g <= max_ticket_generation /\
  R = [] /\ (i, g, operation sl) ∈ O /\ below O (g + 1) /\ below P g /\ below C g /\ (forall r, ph = Some r -> payload sl = r).
Proof.
  intros H. rewrite at_slot_app, at_slot_cons, decide_True in H by done.
  destruct H as [h Et Hg HW|h Et Hg HW|h ph' Et Hg HW|h Et Hg HW|h ph' Et Hg HW|h Et Hg HW]; try (by apply no_entry in HW).
  apply single_entry in HW as (? & ? & [= -> ->]). split_and!; (done || lia).
Qed.

Lemma reader_case i sl r1 r2 g ph W O P C :
  slot_inv i sl W (at_slot i (r1 ++ (i, g, ph) :: r2)) O P C ->
  at_slot i r1 = [] /\ at_slot i r2 = [] /\ tagged sl = tag g TicketState.reading /\ 0 <= g <= max_ticket_generation /\
  W = [] /\ (i, g, operation sl) ∈ O /\ below O (g + 1) /\ below P (g + 1) /\ below C g /\
  (ph = None -> (i, g, payload sl) ∈ P) /\
  (forall rec, ph = Some rec -> r_operation rec = operation sl /\ (i, g, r_result rec) ∈ P).
Proof.
  intros H. rewrite at_slot_app, at_slot_cons, decide_True in H by done.
  destruct H as [h Et Hg HW HR|h Et Hg HW HR|h ph' Et Hg HW HR|h Et Hg HW HR|h ph' Et Hg HW HR|h Et Hg HW HR];
    try (by apply no_entry in HR).
  apply single_entry in HR as (? & ? & [= -> ->]). split_and!; (done || lia).
Qed.

Lemma write_wf al al' s w1 w2 rs os ps cs i g r s' : ticket_wf (mkTickets al s (w1 ++ (i, g, None) :: w2) rs os ps cs) ->
  finish_payload s i r = Ok s' -> ticket_wf (mkTickets al' s' (w1 ++ (i, g, Some r) :: w2) rs os ps cs).
Proof.
  intros Hwf E. unfold finish_payload in E. destruct (slots s !! i) as [sl|] eqn:Esl; [|done]. injection E as <-.
  pose proof Hwf as [Hslots Hh]. specialize (Hslots i sl Esl). specialize (Hh i). cbn in Hslots, Hh.
  destruct (writer_case _ _ _ _ _ _ _ _ _ _ Hslots) as (Hw1 & Hw2 & Et & Hg & HR & HO & HO' & HP & HC & _).
  eapply slot_update; try done; [other_slot|]. rewrite at_slot_app, at_slot_cons, decide_True, Hw1, Hw2 by done.
  apply (inv_writing _ _ _ _ _ _ _ g (Some r)); try done. intros r' [= <-]. done.
Qed.

Lemma publish_wf al al' s w1 w2 rs os ps cs i g r s' : ticket_wf (mkTickets al s (w1 ++ (i, g, Some r) :: w2) rs os ps cs) ->
  finish_tag s i g = Ok s' -> ticket_wf (mkTickets al' s' (w1 ++ w2) rs os ((i, g, r) :: ps) cs).
Proof.
  intros Hwf E. unfold finish_tag in E. destruct (slots s !! i) as [sl|] eqn:Esl; [|done]. injection E as <-.
  pose proof Hwf as [Hslots Hh]. specialize (Hslots i sl Esl). specialize (Hh i). cbn in Hslots, Hh.
  destruct (writer_case _ _ _ _ _ _ _ _ _ _ Hslots) as (Hw1 & Hw2 & Et & Hg & HR & HO & HO' & HP & HC & Hpay).
  specialize (Hpay r eq_refl). eapply slot_update; try done; [other_slot| |]; rewrite at_slot_cons, decide_True by done.
  - rewrite at_slot_app, Hw1, Hw2. apply (inv_ready _ _ _ _ _ _ _ g); try done; cbn; [rewrite Hpay; by left|].
    apply below_cons; [|lia]. eapply below_mono; [exact HP|lia].
  - destruct Hh as [? ? ? Hcon]. split; try done; [by apply unique_cons|].
    intros h rec Hrec. destruct (Hcon h rec Hrec). split; [done|by right].
Qed.

Lemma begin_wf al al' s ws rs os ps cs i g s' : ticket_wf (mkTickets al s ws rs os ps cs) -> consume_begin s i = (Some g, s') ->
  ticket_wf (mkTickets al' s' ws ((i, g, None) :: rs) os ps cs).
Proof.
  intros Hwf E. unfold consume_begin in E. destruct (slots s !! i) as [sl|] eqn:Esl; [|done].
  destruct (Z.eqb_spec (tag_state (tagged sl)) TicketState.ready) as [Er|]; [|done]. injection E as <- <-.
  pose proof Hwf as [Hslots Hh]. specialize (Hslots i sl Esl). specialize (Hh i). cbn in Hslots, Hh.
  destruct Hslots as [g Et Hg|g Et Hg|g ph Et Hg|g Et Hg HW HR HO HPin HO' HP HC|g ph Et Hg|g Et Hg];
    rewrite Et, tag_state_tag in Er by done; try discriminate Er.
  rewrite Et, tag_generation_tag by done. eapply slot_update; try done; [other_slot|].
  rewrite at_slot_cons, decide_True, HR by done. by apply (inv_reading _ _ _ _ _ _ _ g None).
Qed.

Lemma read_wf al al' s ws r1 r2 os ps cs i g rec s' : ticket_wf (mkTickets al s ws (r1 ++ (i, g, None) :: r2) os ps cs) ->
  consume_read s i = Ok (rec, s') -> ticket_wf (mkTickets al' s' ws (r1 ++ (i, g, Some rec) :: r2) os ps cs).
Proof.
  intros Hwf E. unfold consume_read in E. destruct (slots s !! i) as [sl|] eqn:Esl; [|done]. injection E as <- <-.
  pose proof Hwf as [Hslots Hh]. specialize (Hslots i sl Esl). specialize (Hh i). cbn in Hslots, Hh.
  destruct (reader_case _ _ _ _ _ _ _ _ _ _ Hslots) as (Hr1 & Hr2 & Et & Hg & HW & HO & HO' & HP & HC & Hpay & _).
  specialize (Hpay eq_refl). eapply slot_update; try done; [other_slot|].
  rewrite at_slot_app, at_slot_cons, decide_True, Hr1, Hr2 by done. cbn [app].
  apply (inv_reading _ _ _ _ _ _ _ g (Some (mkRecord (operation sl) (payload sl)))); try done. by intros r [= <-].
Qed.

Lemma end_wf al al' s ws r1 r2 os ps cs i g rec s' : ticket_wf (mkTickets al s ws (r1 ++ (i, g, Some rec) :: r2) os ps cs) ->
  consume_finish s i g = Ok s' -> ticket_wf (mkTickets al' s' ws (r1 ++ r2) os ps ((i, g, rec) :: cs)).
Proof.
  intros Hwf E. unfold consume_finish in E. destruct (slots s !! i) as [sl|] eqn:Esl; [|done]. injection E as <-.
  pose proof Hwf as [Hslots Hh]. specialize (Hslots i sl Esl). specialize (Hh i). cbn in Hslots, Hh.
  destruct (reader_case _ _ _ _ _ _ _ _ _ _ Hslots) as (Hr1 & Hr2 & Et & Hg & HW & HO & HO' & HP & HC & _ & Hrec).
  destruct (Hrec rec eq_refl) as [Hop Hres]. eapply slot_update; try done; [other_slot| |]; rewrite at_slot_cons, decide_True by done.
  - rewrite at_slot_app, Hr1, Hr2, HW. assert (HC' : below ((i, g, rec) :: at_slot i cs) (g + 1)).
    { apply below_cons; [|lia]. eapply below_mono; [exact HC|lia]. }
    destruct (Z.eqb_spec g max_ticket_generation) as [Hmax|Hmax].
    + by apply (inv_retired _ _ _ _ _ _ _ g).
    + apply (inv_free _ _ _ _ _ _ _ (g + 1)); try done; [|lia]. cbn. rewrite wrap64_small; [done|].
      unfold max_ticket_generation in *. zlia.
  - destruct Hh as [? ? ? Hcon]. split; try done; [by apply unique_cons|].
    intros h rec' [[= -> ->]|Hin]%elem_of_cons; [by rewrite Hop|by apply Hcon].
Qed.

(** The other threads change only slots that are not free. *)
Lemma alloc_ok_other al s i sl sl' rej : alloc_ok al s -> slots s !! i = Some sl -> is_free sl = false ->
  alloc_ok al (mkState (<[i:=sl']> (slots s)) rej).
Proof.
  intros Hal Esl Hf op j g stored ->. destruct (Hal op j g stored eq_refl) as (x & Ex & Et & Hg & Hop). exists x. cbn.
  rewrite list_lookup_insert_ne; [done|]. intros ->. assert (x = sl) as -> by congruence.
  unfold is_free in Hf. by rewrite Et, tag_state_tag in Hf.
Qed.

Lemma not_free sl g st : tagged sl = tag g st -> 0 <= g <= max_ticket_generation -> 0 < st < 256 -> is_free sl = false.
Proof. intros Et Hg Hst. unfold is_free. rewrite Et, tag_state_tag by (done || lia). apply Z.eqb_neq. unfold TicketState.free. lia. Qed.

(** The slot of a thread that claims, writes or reads is not free. *)
Lemma claim_alloc al s i g b s' : alloc_ok al s -> 0 <= g <= max_ticket_generation -> try_claim s i g = Ok (b, s') -> alloc_ok al s'.
Proof.
  intros Hal Hg E. unfold try_claim in E. destruct (slots s !! i) as [sl|] eqn:Esl; [|done]. cbn [deref rbind] in E.
  destruct (Z.eqb_spec (tagged sl) (tag g TicketState.reserved)) as [Et|]; injection E as _ <-; [|exact Hal].
  eapply alloc_ok_other; [done|exact Esl|]. by eapply not_free.
Qed.

Lemma writer_alloc al s w1 w2 rs os ps cs i g ph (f : CompletionSlot -> CompletionSlot) s' :
  ticket_wf (mkTickets al s (w1 ++ (i, g, ph) :: w2) rs os ps cs) -> alloc_ok al s ->
  (let? sl := deref (slots s !! i) in Ok (set_slot s i (f sl))) = Ok s' -> alloc_ok al s'.
Proof.
  intros [Hslots _] Hal E. destruct (slots s !! i) as [sl|] eqn:Esl; [|done]. injection E as <-.
  destruct (writer_case _ _ _ _ _ _ _ _ _ _ (Hslots i sl Esl)) as (_ & _ & Et & Hg & _).
  eapply alloc_ok_other; [done|exact Esl|]. by eapply not_free.
Qed.

Lemma begin_alloc al s i g s' : alloc_ok al s -> consume_begin s i = (Some g, s') -> alloc_ok al s'.
Proof.
  intros Hal E. unfold consume_begin in E. destruct (slots s !! i) as [sl|] eqn:Esl; [|done].
  destruct (Z.eqb_spec (tag_state (tagged sl)) TicketState.ready) as [Er|]; [|done]. injection E as _ <-.
  eapply alloc_ok_other; [done|exact Esl|]. unfold is_free. by rewrite Er.
Qed.

Lemma reader_alloc al s ws r1 r2 os ps cs i g ph (f : CompletionSlot -> CompletionSlot) s' :
  ticket_wf (mkTickets al s ws (r1 ++ (i, g, ph) :: r2) os ps cs) -> alloc_ok al s ->
  (let? sl := deref (slots s !! i) in Ok (set_slot s i (f sl))) = Ok s' -> alloc_ok al s'.
Proof.
  intros [Hslots _] Hal E. destruct (slots s !! i) as [sl|] eqn:Esl; [|done]. injection E as <-.
  destruct (reader_case _ _ _ _ _ _ _ _ _ _ (Hslots i sl Esl)) as (_ & _ & Et & Hg & _).
  eapply alloc_ok_other; [done|exact Esl|]. by eapply not_free.
Qed.

Definition tickets_ok (s : TicketSystem) : Prop := ticket_wf s /\ alloc_ok (allocator s) (arena s).

Lemma ticket_step_wf s s' : tickets_ok s -> ticket_step s s' -> tickets_ok s'.
Proof.
  intros [Hwf Hal] Hs. destruct Hs; cbn [allocator arena] in *.
  - split; [exact Hwf|]. apply alloc_ok_scan.
  - split; [exact Hwf|]. apply alloc_ok_scan.
  - split; [exact Hwf|]. by eapply find_ok.
  - by eapply operation_wf.
  - split; [by eapply reserve_wf|]. apply alloc_ok_none.
  - split; [exact Hwf|]. apply alloc_ok_none.
  - split; [by eapply claim_wf|by eapply claim_alloc].
  - split; [by eapply write_wf|]. by eapply (writer_alloc _ _ _ _ _ _ _ _ _ _ _ (fun sl => mkSlot (tagged sl) (operation sl) r)).
  - split; [by eapply publish_wf|]. by eapply (writer_alloc _ _ _ _ _ _ _ _ _ _ _ (fun sl => set_tag sl (tag g TicketState.ready))).
  - split; [by eapply begin_wf|by eapply begin_alloc].
  - split; [by eapply read_wf|]. eapply (reader_alloc _ _ _ _ _ _ _ _ _ _ _ (fun sl => mkSlot (tagged sl) (operation sl) result_default)); [done|done|].
    unfold consume_read in *. by destruct (slots s !! i); cbn in *; simplify_eq.
  - split; [by eapply end_wf|]. by eapply (reader_alloc _ _ _ _ _ _ _ _ _ _ _ (fun sl => set_tag sl (if g =? max_ticket_generation then
      tag g TicketState.retired else tag (wrap64 (g + 1)) TicketState.free))).
Qed.

Lemma ticket_steps_ok s s' : tickets_ok s -> rtc ticket_step s s' -> tickets_ok s'.
Proof. intros Hok H. induction H; [done|]. eauto using ticket_step_wf. Qed.

Definition tickets_new (N : nat) (g : Z) : TicketSystem := mkTickets None (arena_create N g) [] [] [] [] [].

Lemma tickets_new_wf N g : 0 <= g -> ticket_wf (tickets_new N g).
Proof.
  intros Hg. assert (Hnil : forall A b, below (@nil (entry A)) b) by (intros A b e He; by apply not_elem_of_nil in He). split.
  - cbn. intros i sl Hsl. apply lookup_replicate in Hsl as [-> _].
    apply (inv_free _ _ _ _ _ _ _ (if g <=? max_ticket_generation then g else max_ticket_generation)); try done; try apply Hnil.
    destruct (Z.leb_spec g max_ticket_generation); [lia|]. unfold max_ticket_generation. lia.
  - intros i. split; try apply list.NoDup_nil; [done..|]. intros h rec Hin. by apply not_elem_of_nil in Hin.
Qed.

Lemma ticket_steps_wf N g s : 0 <= g -> rtc ticket_step (tickets_new N g) s -> ticket_wf s.
Proof. intros Hg H. eapply (ticket_steps_ok (tickets_new N g)); [|done]. split; [by apply tickets_new_wf|apply alloc_ok_none]. Qed.

Lemma elem_of_at_slot {A} i g (x : A) l : (i, g, x) ∈ at_slot i l <-> (i, g, x) ∈ l.
Proof. unfold at_slot. rewrite list_elem_of_filter. cbn. tauto. Qed.

Lemma set_slot_lookup s i sl : (i < length (slots s))%nat -> slots (set_slot s i sl) !! i = Some sl.
Proof. intros. by apply list_lookup_insert_eq. Qed.
Lemma set_slot_twice s i a b : set_slot (set_slot s i a) i b = set_slot s i b.
Proof. unfold set_slot. cbn. by rewrite list_insert_insert_eq. Qed.

(** Evaluation of the operations on a slot that was just written. *)
Ltac slot_steps Hi :=
  cbn [rbind negb set_tag tagged operation payload]; rewrite ?set_slot_twice;
  repeat (rewrite set_slot_lookup by exact Hi; cbn [deref rbind negb set_tag tagged operation payload]; rewrite ?set_slot_twice).

(** ** Quiescence guards *)

(** [QuiescenceGuard]: the shared state and the generation each copy of a guard was
    armed with; [A] is the storage it keeps alive. *)
Section quiescence.
Context {A : Type}.
Record GuardState := mkGuard { g_storage : option A; g_quarantine : bool; g_generation : Z }.
Definition guard_new : GuardState := mkGuard None false 0.

Definition arm (s : GuardState) (storage : A) : Result Z * GuardState :=
  match g_storage s with
  | Some _ => (Err (error1 ErrorCode.invalid_state), s)
  | None =>
      if g_generation s =? U64_MAX then (Err (error1 ErrorCode.overflow), s) else
      let g := wrap64 (g_generation s + 1) in
      (Ok g, mkGuard (Some storage) true g)
  end.
Definition retained (s : GuardState) : bool := is_some (g_storage s).

(** What is released, if anything. *)
Definition prove_quiescent (s : GuardState) (generation : Z) : option A * GuardState :=
  if negb (generation =? g_generation s) then (None, s) else
  match g_storage s with
  | None => (None, s)
  | Some storage => (Some storage, mkGuard None false (g_generation s))
  end.

(** The state with the storages armed so far by generation, and those released. *)
Inductive guard_step : relation (GuardState * list (Z * A) * list (Z * A)) :=
  | gstep_arm s armed rel x g s' : arm s x = (Ok g, s') -> guard_step (s, armed, rel) (s', (g, x) :: armed, rel)
  | gstep_prove s armed rel g x s' : prove_quiescent s g = (Some x, s') ->
      guard_step (s, armed, rel) (s', armed, (g, x) :: rel).

Definition guard_wf (t : GuardState * list (Z * A) * list (Z * A)) : Prop :=
  let '(s, armed, rel) := t in
  u64 (g_generation s) /\ (forall e, e ∈ armed -> e.1 <= g_generation s) /\ (forall e, e ∈ rel -> e ∈ armed) /\
  NoDup (fst <$> armed) /\ NoDup (fst <$> rel) /\
  match g_storage s with
  | Some x => (g_generation s, x) ∈ armed /\ (forall e, e ∈ rel -> e.1 < g_generation s)
  | None => True
  end.

Lemma guard_step_wf t t' : guard_wf t -> guard_step t t' -> guard_wf t'.
Proof.
  intros Hwf Hs. destruct Hs as [s armed rel x g s' E|s armed rel g x s' E]; destruct Hwf as (Hu & Ha & Hr & Hna & Hnr & Hst).
  - unfold arm in E. destruct (g_storage s) eqn:Es; [done|]. destruct (Z.eqb_spec (g_generation s) U64_MAX); [done|].
    rewrite wrap64_small in E by zlia. injection E as <- <-. cbn. split_and!; [zlia| | | |done|by left|].
    + intros e [->|He]%elem_of_cons; cbn; [lia|]. specialize (Ha e He). lia.
    + intros e He. right. by apply Hr.
    + apply list.NoDup_cons. split; [|done]. intros (e & Eg & He)%list_elem_of_fmap. specialize (Ha e He). lia.
    + intros e He. specialize (Ha e (Hr e He)). lia.
  - unfold prove_quiescent in E. destruct (Z.eqb_spec g (g_generation s)) as [->|]; [|done]. cbn [negb] in E.
    destruct (g_storage s) as [y|] eqn:Es; [|done]. injection E as -> <-. destruct Hst as [Hin Hlt]. cbn. split_and!; try done; try apply Hu.
    + intros e [->|He]%elem_of_cons; [done|by apply Hr].
    + apply list.NoDup_cons. split; [|done]. intros (e & Eg & He)%list_elem_of_fmap. specialize (Hlt e He). lia.
Qed.
End quiescence.
Arguments GuardState : clear implicits.

(** ** Properties *)

(** C32. Completions are delivered exactly once, for every interleaving of any number of
    reserving, publishing and consuming threads, including publishers that are copied
    and used late: every record consumed pairs the operation a slot was reserved for
    with the result published for that same reservation; each reservation is published
    at most once and consumed at most once; and a claim for a reservation that has been
    published fails. *)
Theorem completion_exactly_once N g0 s :
  0 <= g0 -> rtc ticket_step (tickets_new N g0) s ->
  (forall i g rec, (i, g, rec) ∈ consumptions s ->
     (i, g, r_operation rec) ∈ reservations s /\ (i, g, r_result rec) ∈ publications s) /\
  (forall i, NoDup ((fun e => e.1.2) <$> at_slot i (reservations s)) /\
             NoDup ((fun e => e.1.2) <$> at_slot i (publications s)) /\
             NoDup ((fun e => e.1.2) <$> at_slot i (consumptions s))) /\
  (forall i g r s', 0 <= g <= max_ticket_generation -> (i, g, r) ∈ publications s ->
     try_claim (arena s) i g <> Ok (true, s')).
Proof.
  intros Hg0 Hr. destruct (ticket_steps_wf N g0 s Hg0 Hr) as [Hslots Hh]. split_and!.
  - intros i g rec Hin. destruct (Hh i) as [_ _ _ Hcon]. rewrite <- (elem_of_at_slot i) in Hin.
    specialize (Hcon g rec Hin). by rewrite !elem_of_at_slot in Hcon.
  - intros i. by destruct (Hh i).
  - intros i g r s' Hg Hin E. rewrite <- (elem_of_at_slot i) in Hin. unfold try_claim in E.
    destruct (slots (arena s) !! i) as [sl|] eqn:Esl; [|done]. cbn [deref rbind] in E.
    destruct (Z.eqb_spec (tagged sl) (tag g TicketState.reserved)) as [Et|]; [|done]. specialize (Hslots i sl Esl).
    destruct Hslots as [h Eh Hb|h Eh Hb HW HR HO HO' HP HC|h ph Eh Hb|h Eh Hb|h ph Eh Hb|h Eh Hb]; rewrite Et in Eh; tag_cases Eh.
    specialize (HP _ Hin). cbn in HP. lia.
Qed.

(** The slot that [reserve] takes. *)
Lemma reserve_from_Ok n op : forall i s j g s', reserve_from n i s op = (Ok (j, g), s') ->
  exists sl, slots s !! j = Some sl /\ is_free sl = true /\ g = tag_generation (tagged sl) /\
    s' = set_slot s j (mkSlot (tag g TicketState.reserved) op (payload sl)).
Proof.
  induction n as [|n IH]; intros i s j g s' H; cbn [reserve_from] in H; [done|]. unfold reserve_look in H.
  destruct (slots s !! i) as [sl|] eqn:Esl; [|done]. cbn [deref rbind] in H. destruct (is_free sl) eqn:Ef; cbn [negb] in H; [|by eapply IH].
  unfold reserve_operation in H. rewrite Esl in H. cbn [deref rbind] in H. unfold reserve_tag in H.
  assert (Hi : (i < length (slots s))%nat) by (by eapply lookup_lt_Some).
  rewrite set_slot_lookup in H by done. cbn [deref rbind set_tag operation payload] in H. rewrite set_slot_twice in H.
  injection H as <- <- <-. by exists sl.
Qed.

(** [reserve] takes a slot or leaves everything as it was. *)
Lemma reserve_cases s op :
  (exists j g sl, slots s !! j = Some sl /\ reserve s op = (Ok (j, g), set_slot s j (mkSlot (tag g TicketState.reserved) op (payload sl)))) \/
  reserve s op = (Err (error1 ErrorCode.capacity_exhausted), s).
Proof.
  unfold reserve. assert (Hgen : forall n i, (i + n <= length (slots s))%nat ->
    (exists j g s', reserve_from n i s op = (Ok (j, g), s')) \/ reserve_from n i s op = (Err (error1 ErrorCode.capacity_exhausted), s)).
  { induction n as [|n IH]; intros i Hi; cbn [reserve_from]; [by right|]. assert (Hlt : (i < length (slots s))%nat) by lia.
    destruct (lookup_lt_is_Some_2 _ _ Hlt) as [sl Hsl]. unfold reserve_look. rewrite Hsl. cbn [deref rbind].
    destruct (is_free sl); cbn [negb]; [|apply IH; lia]. unfold reserve_operation. rewrite Hsl. cbn [deref rbind]. unfold reserve_tag.
    rewrite set_slot_lookup by done. cbn [deref rbind]. left. by do 3 eexists. }
  destruct (Hgen (length (slots s)) 0%nat) as [(j & g & s' & E)|E]; [lia| |by right].
  destruct (reserve_from_Ok _ _ _ _ _ _ _ E) as (sl & Hsl & _ & _ & ->). left. by exists j, g, sl.
Qed.

(** A reservation always leads to its completion: in every reachable state, after a
    successful [reserve] the first [publish] for it succeeds, [consume] then returns
    exactly the operation and that result, and any further publish for it is refused. *)
Theorem completion_roundtrip N g0 s op i g s1 r r' :
  0 <= g0 -> rtc ticket_step (tickets_new N g0) s -> reserve (arena s) op = (Ok (i, g), s1) ->
  exists s2, publish s1 i g r = Ok (true, s2) /\
    (exists s3, consume s2 i = Ok (Some (mkRecord op r), s3)) /\
    (exists s3, publish s2 i g r' = Ok (false, s3)).
Proof.
  intros Hg0 Hr E. destruct (ticket_steps_wf N g0 s Hg0 Hr) as [Hslots _].
  apply reserve_from_Ok in E as (sl & Esl & _ & -> & ->). specialize (Hslots i sl Esl).
  assert (exists h st, tagged sl = tag h st /\ 0 <= h <= max_ticket_generation /\ 0 <= st < 256) as (h & st & Et & Hh & Hst).
  { destruct Hslots; eexists _, _; (split; [eassumption|]); (split; [assumption|done]). }
  rewrite Et, tag_generation_tag by done. assert (Hi : (i < length (slots (arena s)))%nat) by (by eapply lookup_lt_Some).
  unfold publish, try_claim, finish_payload, finish_tag. slot_steps Hi. rewrite Z.eqb_refl. slot_steps Hi.
  eexists. split; [done|]. split.
  - unfold consume, consume_begin, consume_read, consume_finish. slot_steps Hi.
    rewrite tag_state_tag, tag_generation_tag by done. rewrite Z.eqb_refl. slot_steps Hi. eauto.
  - slot_steps Hi. destruct (Z.eqb_spec (tag h TicketState.ready) (tag h TicketState.reserved)) as [Ebad|]; [|cbn; eauto].
    apply tag_inj in Ebad as [_ Ebad]; done.
Qed.

(** Evidence of quiescence releases exactly the storage it is about: over any
    sequence of arms and proofs, every release is of a storage armed under that very
    generation, and no generation is released twice; so a late proof for an earlier
    operation never releases the storage of a later one. *)
Theorem quiescence_matches {A} s (armed released : list (Z * A)) :
  rtc guard_step (guard_new, [], []) (s, armed, released) ->
  (forall e, e ∈ released -> e ∈ armed) /\ NoDup (fst <$> armed) /\ NoDup (fst <$> released) /\
  (forall g x s', prove_quiescent s g = (Some x, s') -> (g, x) ∈ armed /\ ~ (g ∈ (fst <$> released))).
Proof.
  intros Hr. assert (Hwf : guard_wf (s, armed, released)).
  { assert (H0 : guard_wf (@guard_new A, [], [])).
    { cbn. split_and!; try zlia; try done; try apply list.NoDup_nil; try done; intros e He; by apply not_elem_of_nil in He. }
    induction Hr; [done|]. eauto using guard_step_wf. }
  destruct Hwf as (Hu & Ha & Hre & Hna & Hnr & Hst). split_and!; try done. intros g x s' E.
  unfold prove_quiescent in E. destruct (Z.eqb_spec g (g_generation s)) as [->|]; [|done]. cbn [negb] in E.
  destruct (g_storage s) as [y|]; [|done]. injection E as -> <-. destruct Hst as [Hin Hlt]. split; [done|].
  intros (e & Eg & He)%list_elem_of_fmap. specialize (Hlt e He). lia.
Qed.

(** ** Witnesses *)

Definition sample_result : CompletionResult := mkCompletion CompletionStatus.succeeded (error1 ErrorCode.invalid_state) 5 6.

Lemma completion_exactly_once_witness :
  exists s, rtc ticket_step (tickets_new 1 1) s /\ (0%nat, 1, mkRecord 42 sample_result) ∈ consumptions s /\
    (0%nat, 1, 42) ∈ reservations s.
Proof.
  set (s0 := arena_create 1 1).
  set (sop := set_slot s0 0 (mkSlot (tag 1 TicketState.free) 42 result_default)).
  set (s1 := set_slot sop 0 (mkSlot (tag 1 TicketState.reserved) 42 result_default)).
  set (s2 := set_slot s1 0 (mkSlot (tag 1 TicketState.writing) 42 result_default)).
  set (s3 := set_slot s2 0 (mkSlot (tag 1 TicketState.writing) 42 sample_result)).
  set (s4 := set_slot s3 0 (mkSlot (tag 1 TicketState.ready) 42 sample_result)).
  set (s5 := set_slot s4 0 (mkSlot (tag 1 TicketState.reading) 42 sample_result)).
  set (s6 := set_slot s5 0 (mkSlot (tag 1 TicketState.reading) 42 result_default)).
  set (s7 := set_slot s6 0 (mkSlot (tag 2 TicketState.free) 42 result_default)).
  set (o := (0%nat, 1, 42)). set (p := (0%nat, 1, sample_result)). set (c := (0%nat, 1, mkRecord 42 sample_result)).
  assert (H : rtc ticket_step (tickets_new 1 1) (mkTickets None s7 [] [] [o] [p] [c])).
  { eapply rtc_l; [apply (tstep_lock s0 [] [] [] [] [] 42)|].
    eapply rtc_l; [apply (tstep_find s0 [] [] [] [] [] 42 0 1); vm_compute; reflexivity|].
    eapply rtc_l; [apply (tstep_operation s0 [] [] [] [] [] 42 0 1 sop); vm_compute; reflexivity|].
    eapply rtc_l; [apply (tstep_reserve sop [] [] [] [] [] 42 0 1 s1); vm_compute; reflexivity|].
    eapply rtc_l; [apply (tstep_claim None s1 [] [] [o] [] [] 0 1 true s2); [vm_compute; split; congruence|vm_compute; reflexivity]|].
    eapply rtc_l; [apply (tstep_write None s2 [] [] [] [o] [] [] 0 1 sample_result s3); vm_compute; reflexivity|].
    eapply rtc_l; [apply (tstep_publish None s3 [] [] [] [o] [] [] 0 1 sample_result s4); vm_compute; reflexivity|].
    eapply rtc_l; [apply (tstep_begin None s4 [] [] [o] [p] [] 0 1 s5); vm_compute; reflexivity|].
    eapply rtc_l; [apply (tstep_read None s5 [] [] [] [o] [p] [] 0 1 (mkRecord 42 sample_result) s6); vm_compute; reflexivity|].
    eapply rtc_l; [apply (tstep_end None s6 [] [] [] [o] [p] [] 0 1 (mkRecord 42 sample_result) s7); vm_compute; reflexivity|].
    apply rtc_refl. }
  eexists. split; [exact H|]. split; [by left|].
  destruct (completion_exactly_once 1 1 _ ltac:(lia) H) as [H1 _].
  exact (proj1 (H1 0%nat 1 (mkRecord 42 sample_result) ltac:(by left))).
Defined.

Lemma completion_roundtrip_witness :
  exists s2, publish (reserve (arena_create 2 1) 42).2 0 1 sample_result = Ok (true, s2) /\
    exists s3, consume s2 0 = Ok (Some (mkRecord 42 sample_result), s3).
Proof.
  destruct (completion_roundtrip 2 1 (tickets_new 2 1) 42 0 1 (reserve (arena_create 2 1) 42).2 sample_result result_default
    ltac:(lia) (rtc_refl _ _) ltac:(vm_compute; reflexivity)) as (s2 & E & H & _).
  exists s2. split; [exact E|exact H].
Defined.

Lemma quiescence_matches_witness :
  exists s, rtc guard_step (guard_new, [], []) (s, [(1, 7)], []) /\ (prove_quiescent s 1).1 = Some 7 /\ (1, 7) ∈ [(1, 7)].
Proof.
  set (s := mkGuard (Some 7) true 1).
  assert (H : rtc guard_step (guard_new, [], []) (s, [(1, 7)], [])).
  { eapply rtc_l; [apply (gstep_arm guard_new [] [] 7 1 s); vm_compute; reflexivity|apply rtc_refl]. }
  exists s. split; [exact H|]. split; [reflexivity|].
  destruct (quiescence_matches s [(1, 7)] [] H) as (_ & _ & _ & H1).
  exact (proj1 (H1 1 7 (mkGuard None false 1) ltac:(vm_compute; reflexivity))).
Defined.
