(* ===== verification/Fields.v ===== *)
(** * The field registry: [include/vita/fields/types.hpp], [cif1.hpp], [cif2.hpp], [cif3.hpp]

    Field identifiers, the semantic values a scalar field can hold, the descriptor
    tables that give each field its extent and alternative, and the validation of a
    value against them. *)

From S2P Require Import Prelude.

(** ** Signed machine integers *)

Definition i16 (x : Z) : Prop := -32768 <= x <= 32767.
Definition i64 (x : Z) : Prop := -9223372036854775808 <= x <= 9223372036854775807.
Definition INT16_MAX : Z := 32767.
Definition INT16_MIN : Z := -32768.
Definition INT64_MAX : Z := 9223372036854775807.

(** [std::bit_cast] between an unsigned word of [n] bits and the signed type of its size. *)
Definition to_signed (n w : Z) : Z := if w <? 2 ^ (n - 1) then w else w - 2 ^ n.
Definition to_unsigned (n v : Z) : Z := v mod 2 ^ n.

(** ** Semantic values *)

Record FieldId := mkField { cif : Z; fbit : Z }.
#[global] Instance FieldId_eq_dec : EqDecision FieldId.
Proof. solve_decision. Defined.

(** [OptionalQ7] compares its value only when known: it is an option. *)
Abbreviation OptionalQ7 := (option Z).

(** The alternatives of [SemanticValue] in the order of the variant. *)
Inductive SemanticValue :=
  | v_uint32 (v : Z)
  | v_hertz (q20 : Z)
  | v_payload_format (bits : Z)
  | v_decibels (q7 : Z)
  | v_gain (stage1_q7 stage2_q7 : Z)
  | v_femtoseconds (count : Z)
  | v_celsius (q6 : Z)
  | v_device (device_oui device_code : Z)
  | v_slice (offset bytes : Z)
  | v_radians (q7 : Z)
  | v_polarization (tilt_q7 ellipticity_q7 : Z)
  | v_pointing (azimuth_q7 elevation_q7 : Z)
  | v_spatial (user_id reference beam : Z)
  | v_beam_width (horizontal_code vertical_code : Z)
  | v_metres (q6 : Z)
  | v_ebno_ber (ebno_q7 ber_q7 : OptionalQ7)
  | v_threshold (stage1_q7 stage2_q7 : Z)
  | v_intercept (second_q7 third_q7 : OptionalQ7)
  | v_snr_noise (snr_q7 noise_figure_q7 : OptionalQ7)
  | v_unsigned64 (bits : Z)
  | v_version (year_since2000 day revision user : Z)
  | v_buffer_size (capacity_bytes level status : Z)
  | v_country (code : Z) (iso3166 : bool)
  | v_ems (class_code organization : Z) (exciter receiver : bool)
  | v_humidity (raw : Z)
  | v_pressure (raw17 : Z)
  | v_sea_swell (sea swell user : Z)
  | v_timestamp_details (flags epoch : Z)
  | v_probability (value function : Z)
  | v_belief (value : Z).
#[global] Instance SemanticValue_eq_dec : EqDecision SemanticValue.
Proof. solve_decision. Defined.

(** [std::variant::index] *)
Definition value_index (v : SemanticValue) : Z :=
  match v with
  | v_uint32 _ => 0 | v_hertz _ => 1 | v_payload_format _ => 2 | v_decibels _ => 3 | v_gain _ _ => 4
  | v_femtoseconds _ => 5 | v_celsius _ => 6 | v_device _ _ => 7 | v_slice _ _ => 8 | v_radians _ => 9
  | v_polarization _ _ => 10 | v_pointing _ _ => 11 | v_spatial _ _ _ => 12 | v_beam_width _ _ => 13
  | v_metres _ => 14 | v_ebno_ber _ _ => 15 | v_threshold _ _ => 16 | v_intercept _ _ => 17
  | v_snr_noise _ _ => 18 | v_unsigned64 _ => 19 | v_version _ _ _ _ => 20 | v_buffer_size _ _ _ => 21
  | v_country _ _ => 22 | v_ems _ _ _ _ => 23 | v_humidity _ => 24 | v_pressure _ => 25
  | v_sea_swell _ _ _ => 26 | v_timestamp_details _ _ => 27 | v_probability _ _ => 28 | v_belief _ => 29
  end.

Definition opt_i16 (o : OptionalQ7) : Prop := match o with Some v => i16 v | None => True end.

(** The members are within the ranges of their C++ types. *)
Definition value_typed (v : SemanticValue) : Prop :=
  match v with
  | v_uint32 x | v_metres x | v_pressure x => u32 x
  | v_hertz x | v_femtoseconds x => i64 x
  | v_payload_format x | v_unsigned64 x => u64 x
  | v_decibels x | v_celsius x | v_radians x => i16 x
  | v_gain a b | v_polarization a b | v_threshold a b => i16 a /\ i16 b
  | v_device o c => u32 o /\ u16 c
  | v_slice o b => u32 o /\ u32 b
  | v_pointing a e => u16 a /\ i16 e
  | v_spatial u r b => u16 u /\ u8 r /\ u8 b
  | v_beam_width h w => u16 h /\ u16 w
  | v_ebno_ber a b | v_intercept a b | v_snr_noise a b => opt_i16 a /\ opt_i16 b
  | v_version y d r u => u8 y /\ u16 d /\ u8 r /\ u16 u
  | v_buffer_size c l s => u32 c /\ u8 l /\ u8 s
  | v_country c _ => u16 c
  | v_ems c o _ _ => u16 c /\ u8 o
  | v_humidity r => u16 r
  | v_sea_swell a b c => u8 a /\ u8 b /\ u8 c
  | v_timestamp_details f e => u32 f /\ u32 e
  | v_probability a b => u8 a /\ u8 b
  | v_belief a => u8 a
  end.

(** ** Field identifiers *)

Module Field.
Definition FormattedGPS := mkField 0 14.
Definition FormattedINS := mkField 0 13.
Definition ECEFEphemeris := mkField 0 12.
Definition RelativeEphemeris := mkField 0 11.
Definition GPSASCII := mkField 0 9.
Definition ContextAssociationLists := mkField 0 8.
Definition ReferencePoint := mkField 0 30.
Definition SampleRate := mkField 0 21.
Definition StateEvent := mkField 0 16.
Definition DataPayloadFormat := mkField 0 15.
Definition Bandwidth := mkField 0 29.
Definition IFReferenceFrequency := mkField 0 28.
Definition RFReferenceFrequency := mkField 0 27.
Definition RFReferenceFrequencyOffset := mkField 0 26.
Definition IFBandOffset := mkField 0 25.
Definition ReferenceLevel := mkField 0 24.
Definition Gain := mkField 0 23.
Definition OverRangeCount := mkField 0 22.
Definition TimestampAdjustment := mkField 0 20.
Definition TimestampCalibrationTime := mkField 0 19.
Definition Temperature := mkField 0 18.
Definition DeviceIdentifier := mkField 0 17.
Definition EphemerisReferenceId := mkField 0 10.
Definition PhaseOffset := mkField 1 31.
Definition Polarization := mkField 1 30.
Definition PointingVector3D := mkField 1 29.
Definition SpatialScanType := mkField 1 27.
Definition SpatialReferenceType := mkField 1 26.
Definition BeamWidth := mkField 1 25.
Definition Range := mkField 1 24.
Definition EbNoBer := mkField 1 20.
Definition Threshold := mkField 1 19.
Definition CompressionPoint := mkField 1 18.
Definition InterceptPoints := mkField 1 17.
Definition SnrNoiseFigure := mkField 1 16.
Definition AuxiliaryFrequency := mkField 1 15.
Definition AuxiliaryGain := mkField 1 14.
Definition AuxiliaryBandwidth := mkField 1 13.
Definition DiscreteIO32 := mkField 1 6.
Definition DiscreteIO64 := mkField 1 5.
Definition HealthStatus := mkField 1 4.
Definition V49SpecCompliance := mkField 1 3.
Definition VersionBuild := mkField 1 2.
Definition BufferSize := mkField 1 1.
Definition PointingVectorStructure := mkField 1 28.
Definition IndexList := mkField 1 7.
Definition Spectrum := mkField 1 10.
Definition SectorStepScan := mkField 1 9.
Definition Bind := mkField 2 31.
Definition CitedSID := mkField 2 30.
Definition SiblingSID := mkField 2 29.
Definition ParentSID := mkField 2 28.
Definition ChildSID := mkField 2 27.
Definition CitedMessageId := mkField 2 26.
Definition ControlleeId := mkField 2 25.
Definition ControlleeUUID := mkField 2 24.
Definition ControllerId := mkField 2 23.
Definition ControllerUUID := mkField 2 22.
Definition InformationSource := mkField 2 21.
Definition TrackId := mkField 2 20.
Definition CountryCode := mkField 2 19.
Definition OperatorId := mkField 2 18.
Definition PlatformClass := mkField 2 17.
Definition PlatformInstance := mkField 2 16.
Definition PlatformDisplay := mkField 2 15.
Definition EmsDeviceClass := mkField 2 14.
Definition EmsDeviceType := mkField 2 13.
Definition EmsDeviceInstance := mkField 2 12.
Definition ModulationClass := mkField 2 11.
Definition ModulationType := mkField 2 10.
Definition FunctionId := mkField 2 9.
Definition ModeId := mkField 2 8.
Definition EventId := mkField 2 7.
Definition FunctionPriority := mkField 2 6.
Definition CommunicationPriority := mkField 2 5.
Definition RFFootprint := mkField 2 4.
Definition RFFootprintRange := mkField 2 3.
Definition TimestampDetails := mkField 3 31.
Definition TimestampSkew := mkField 3 30.
Definition RiseTime := mkField 3 27.
Definition FallTime := mkField 3 26.
Definition OffsetTime := mkField 3 25.
Definition PulseWidth := mkField 3 24.
Definition Period := mkField 3 23.
Definition Duration := mkField 3 22.
Definition Dwell := mkField 3 21.
Definition Jitter := mkField 3 20.
Definition Age := mkField 3 17.
Definition ShelfLife := mkField 3 16.
Definition AirTemperature := mkField 3 7.
Definition SeaGroundTemperature := mkField 3 6.
Definition Humidity := mkField 3 5.
Definition BarometricPressure := mkField 3 4.
Definition SeaSwellState := mkField 3 3.
Definition TroposphericState := mkField 3 2.
Definition NetworkId := mkField 3 1.
End Field.

(** [operator==] on field identifiers. *)
Definition fid_eqb (a b : FieldId) : bool := (cif a =? cif b) && (fbit a =? fbit b).

Definition structured_field (id : FieldId) : bool :=
  ((cif id =? 0) && (((11 <=? fbit id) && (fbit id <=? 14)) || (fbit id =? 9) || (fbit id =? 8))) ||
  ((cif id =? 2) && ((fbit id =? 24) || (fbit id =? 22))) ||
  ((cif id =? 3) && ((fbit id =? 17) || (fbit id =? 16))) ||
  ((cif id =? 1) && ((fbit id =? 28) || (fbit id =? 10) || (fbit id =? 9) || (fbit id =? 7))).

Definition temporal_duration_field (id : FieldId) : bool := (cif id =? 3) && ((fbit id =? 17) || (fbit id =? 16)).
Definition cif2_generic16_field (id : FieldId) : bool :=
  (cif id =? 2) && ((fbit id =? 18) || ((6 <=? fbit id) && (fbit id <=? 11))).

(** ** Attributes *)

Module Attribute.
Definition current : Z := 0.
Definition average : Z := 1.
Definition median : Z := 2.
Definition standard_deviation : Z := 3.
Definition maximum : Z := 4.
Definition minimum : Z := 5.
Definition precision : Z := 6.
Definition accuracy : Z := 7.
Definition first_derivative : Z := 8.
Definition second_derivative : Z := 9.
Definition third_derivative : Z := 10.
Definition probability : Z := 11.
Definition belief : Z := 12.
End Attribute.

Definition attribute_bit (a : Z) : Z := if a <? 13 then Z.shiftl 1 (31 - a) else 0.
Definition supported_scalar_attributes : Z :=
  Z.lor (Z.lor (attribute_bit Attribute.current) (attribute_bit Attribute.minimum)) (attribute_bit Attribute.maximum).
Definition all_attributes : Z := 0xfff80000.
Definition base_attribute (a : Z) : bool := a <? 11.

(** ** Descriptors *)

Record FieldDescriptor := mkDescriptor { d_id : FieldId; d_words : Z; d_variant : Z; d_attributes : Z }.

Definition baseline_descriptors : list FieldDescriptor :=
  [mkDescriptor Field.ReferencePoint 1 0 all_attributes;
   mkDescriptor Field.SampleRate 2 1 all_attributes;
   mkDescriptor Field.StateEvent 1 0 all_attributes;
   mkDescriptor Field.DataPayloadFormat 2 2 all_attributes].

Definition scalar_descriptors : list FieldDescriptor :=
  [mkDescriptor Field.Bandwidth 2 1 all_attributes;
   mkDescriptor Field.IFReferenceFrequency 2 1 all_attributes;
   mkDescriptor Field.RFReferenceFrequency 2 1 all_attributes;
   mkDescriptor Field.RFReferenceFrequencyOffset 2 1 all_attributes;
   mkDescriptor Field.IFBandOffset 2 1 all_attributes;
   mkDescriptor Field.ReferenceLevel 1 3 all_attributes;
   mkDescriptor Field.Gain 1 4 all_attributes;
   mkDescriptor Field.OverRangeCount 1 0 all_attributes;
   mkDescriptor Field.TimestampAdjustment 2 5 all_attributes;
   mkDescriptor Field.TimestampCalibrationTime 1 0 all_attributes;
   mkDescriptor Field.Temperature 1 6 all_attributes;
   mkDescriptor Field.DeviceIdentifier 2 7 all_attributes;
   mkDescriptor Field.EphemerisReferenceId 1 0 all_attributes].

Definition structured_descriptors : list FieldDescriptor :=
  [mkDescriptor Field.FormattedGPS 11 8 all_attributes;
   mkDescriptor Field.FormattedINS 11 8 all_attributes;
   mkDescriptor Field.ECEFEphemeris 13 8 all_attributes;
   mkDescriptor Field.RelativeEphemeris 13 8 all_attributes;
   mkDescriptor Field.GPSASCII 0 8 all_attributes;
   mkDescriptor Field.ContextAssociationLists 0 8 all_attributes].

Definition cif1_fixed_descriptors : list FieldDescriptor :=
  [mkDescriptor Field.PhaseOffset 1 9 all_attributes;
   mkDescriptor Field.Polarization 1 10 all_attributes;
   mkDescriptor Field.PointingVector3D 1 11 all_attributes;
   mkDescriptor Field.SpatialScanType 1 0 all_attributes;
   mkDescriptor Field.SpatialReferenceType 1 12 all_attributes;
   mkDescriptor Field.BeamWidth 1 13 all_attributes;
   mkDescriptor Field.Range 1 14 all_attributes;
   mkDescriptor Field.EbNoBer 1 15 all_attributes;
   mkDescriptor Field.Threshold 1 16 all_attributes;
   mkDescriptor Field.CompressionPoint 1 3 all_attributes;
   mkDescriptor Field.InterceptPoints 1 17 all_attributes;
   mkDescriptor Field.SnrNoiseFigure 1 18 all_attributes;
   mkDescriptor Field.AuxiliaryFrequency 2 1 all_attributes;
   mkDescriptor Field.AuxiliaryGain 1 4 all_attributes;
   mkDescriptor Field.AuxiliaryBandwidth 2 1 all_attributes;
   mkDescriptor Field.DiscreteIO32 1 0 all_attributes;
   mkDescriptor Field.DiscreteIO64 2 19 all_attributes;
   mkDescriptor Field.HealthStatus 1 0 all_attributes;
   mkDescriptor Field.V49SpecCompliance 1 0 all_attributes;
   mkDescriptor Field.VersionBuild 1 20 all_attributes;
   mkDescriptor Field.BufferSize 2 21 all_attributes].

Definition cif1_structure_descriptors : list FieldDescriptor :=
  [mkDescriptor Field.PointingVectorStructure 0 8 all_attributes;
   mkDescriptor Field.IndexList 0 8 all_attributes;
   mkDescriptor Field.Spectrum 13 8 all_attributes;
   mkDescriptor Field.SectorStepScan 0 8 all_attributes].

Definition cif2_descriptors : list FieldDescriptor :=
  [mkDescriptor Field.Bind 1 0 all_attributes;
   mkDescriptor Field.CitedSID 1 0 all_attributes;
   mkDescriptor Field.SiblingSID 1 0 all_attributes;
   mkDescriptor Field.ParentSID 1 0 all_attributes;
   mkDescriptor Field.ChildSID 1 0 all_attributes;
   mkDescriptor Field.CitedMessageId 1 0 all_attributes;
   mkDescriptor Field.ControlleeId 1 0 all_attributes;
   mkDescriptor Field.ControlleeUUID 4 8 all_attributes;
   mkDescriptor Field.ControllerId 1 0 all_attributes;
   mkDescriptor Field.ControllerUUID 4 8 all_attributes;
   mkDescriptor Field.InformationSource 1 0 all_attributes;
   mkDescriptor Field.TrackId 1 0 all_attributes;
   mkDescriptor Field.CountryCode 1 22 all_attributes;
   mkDescriptor Field.OperatorId 1 0 all_attributes;
   mkDescriptor Field.PlatformClass 1 0 all_attributes;
   mkDescriptor Field.PlatformInstance 1 0 all_attributes;
   mkDescriptor Field.PlatformDisplay 1 0 all_attributes;
   mkDescriptor Field.EmsDeviceClass 1 23 all_attributes;
   mkDescriptor Field.EmsDeviceType 1 0 all_attributes;
   mkDescriptor Field.EmsDeviceInstance 1 0 all_attributes;
   mkDescriptor Field.ModulationClass 1 0 all_attributes;
   mkDescriptor Field.ModulationType 1 0 all_attributes;
   mkDescriptor Field.FunctionId 1 0 all_attributes;
   mkDescriptor Field.ModeId 1 0 all_attributes;
   mkDescriptor Field.EventId 1 0 all_attributes;
   mkDescriptor Field.FunctionPriority 1 0 all_attributes;
   mkDescriptor Field.CommunicationPriority 1 0 all_attributes;
   mkDescriptor Field.RFFootprint 1 0 all_attributes;
   mkDescriptor Field.RFFootprintRange 1 0 all_attributes].

Definition cif3_descriptors : list FieldDescriptor :=
  [mkDescriptor Field.TimestampDetails 2 27 all_attributes;
   mkDescriptor Field.TimestampSkew 2 5 all_attributes;
   mkDescriptor Field.RiseTime 2 5 all_attributes;
   mkDescriptor Field.FallTime 2 5 all_attributes;
   mkDescriptor Field.OffsetTime 2 5 all_attributes;
   mkDescriptor Field.PulseWidth 2 5 all_attributes;
   mkDescriptor Field.Period 2 5 all_attributes;
   mkDescriptor Field.Duration 2 5 all_attributes;
   mkDescriptor Field.Dwell 2 5 all_attributes;
   mkDescriptor Field.Jitter 2 5 all_attributes;
   mkDescriptor Field.Age 0 8 all_attributes;
   mkDescriptor Field.ShelfLife 0 8 all_attributes;
   mkDescriptor Field.AirTemperature 1 6 all_attributes;
   mkDescriptor Field.SeaGroundTemperature 1 6 all_attributes;
   mkDescriptor Field.Humidity 1 24 all_attributes;
   mkDescriptor Field.BarometricPressure 1 25 all_attributes;
   mkDescriptor Field.SeaSwellState 1 26 all_attributes;
   mkDescriptor Field.TroposphericState 1 0 all_attributes;
   mkDescriptor Field.NetworkId 1 0 all_attributes].


(** The tables are searched in this order; the pointer returned is the descriptor found. *)
Definition descriptors : list FieldDescriptor :=
  baseline_descriptors ++ scalar_descriptors ++ structured_descriptors ++ cif1_fixed_descriptors ++
  cif1_structure_descriptors ++ cif2_descriptors ++ cif3_descriptors.

Definition descriptor (id : FieldId) : option FieldDescriptor :=
  i ← first_index (fun d => fid_eqb (d_id d) id) descriptors; descriptors !! i.

Definition valid_field_selector (id : FieldId) : bool :=
  if (3 <? cif id) || (31 <? fbit id) then false
  else if cif id =? 0 then (8 <=? fbit id) && (fbit id <=? 30)
  else true.

Definition field_before (a b : FieldId) : bool :=
  (cif a <? cif b) || ((cif a =? cif b) && (fbit b <? fbit a)).

(** ** Timestamp details ([fields/cif3.hpp]) *)

Definition epoch_code (flags : Z) : Z := Z.land (Z.shiftr flags 16) 3.
Definition leap_handling (flags : Z) : Z := Z.land (Z.shiftr flags 14) 3.
Definition leap_prediction (flags : Z) : Z := Z.land (Z.shiftr flags 12) 3.
Definition details_source (flags : Z) : Z := Z.land (Z.shiftr flags 9) 7.

Definition validate_timestamp_details_intrinsic (flags : Z) : Result unit :=
  fail_if nonzero (Z.land flags 0x00f80000) ||
          ((leap_handling flags =? 0) && negb (leap_prediction flags =? 0) && negb (leap_prediction flags =? 2))
    with error1 ErrorCode.invalid_argument ;;
  Ok tt.

Definition make_timestamp_details (flags epoch : Z) : Result SemanticValue :=
  let? _ := validate_timestamp_details_intrinsic flags in Ok (v_timestamp_details flags epoch).

Record TimestampDetailsScope := mkScope {
  observed_tsi_mask : Z; scope_complete : bool; documented_user_bits : Z;
  user_source_documented : bool; observed_tsf_mask : Z }.

Inductive TimestampScopeStatus := scope_status_complete | scope_status_incomplete | scope_status_not_applicable.

Definition validate_timestamp_details (flags epoch : Z) (scope : TimestampDetailsScope) : Result TimestampScopeStatus :=
  let? _ := validate_timestamp_details_intrinsic flags in
  fail_if nonzero (Z.land (Z.lor (observed_tsi_mask scope) (observed_tsf_mask scope)) 0xf0)
    with error1 ErrorCode.invalid_argument ;;
  let utc := nonzero (Z.land (observed_tsi_mask scope) 2) in
  let gps := nonzero (Z.land (observed_tsi_mask scope) 4) in
  let code := epoch_code flags in
  let epoch_ok :=
    if utc && gps then code =? 0
    else if utc then (code =? 0) || (((code =? 1) || (code =? 3)) && (epoch =? 0))
    else if gps then (code =? 0) || ((code =? 1) && (epoch =? 315964811)) ||
                     ((code =? 2) && (epoch =? 0)) || ((code =? 3) && (epoch =? 315964800))
    else true in
  fail_if negb epoch_ok with error1 ErrorCode.invalid_argument ;;
  let undocumented :=
    nonzero (Z.land (Z.shiftr flags 24) (Z.lnot (documented_user_bits scope))) ||
    ((6 <=? details_source flags) && negb (user_source_documented scope)) in
  if negb (scope_complete scope) || undocumented then Ok scope_status_incomplete
  else if negb (nonzero (Z.land (Z.lor (observed_tsi_mask scope) (observed_tsf_mask scope)) 14))
  then Ok scope_status_not_applicable
  else Ok scope_status_complete.

(** ** Thresholds ([fields/cif1.hpp]) *)

Inductive ThresholdMode := single_db | single_dbm | window_db | window_dbm.

Definition validate_threshold (stage1 stage2 : Z) (mode : ThresholdMode) : Result unit :=
  let ok := match mode with
            | single_db => stage2 =? 0
            | single_dbm => stage2 =? INT16_MIN
            | window_db | window_dbm => stage1 <? stage2
            end in
  if ok then Ok tt else Err (error1 ErrorCode.invalid_argument).

(** ** Validation of a value

    [std::get] of an alternative the value does not hold throws out of a [noexcept]
    function: the accessors are [UB] there. *)

Definition get_uint32 (v : SemanticValue) : Result Z := match v with v_uint32 x => Ok x | _ => UB end.
Definition get_hertz (v : SemanticValue) : Result Z := match v with v_hertz x => Ok x | _ => UB end.
Definition get_celsius (v : SemanticValue) : Result Z := match v with v_celsius x => Ok x | _ => UB end.
Definition get_femtoseconds (v : SemanticValue) : Result Z := match v with v_femtoseconds x => Ok x | _ => UB end.

Definition nonsentinel (o : OptionalQ7) : bool := match o with Some v => negb (v =? INT16_MAX) | None => true end.
Definition opt_test (p : Z -> bool) (o : OptionalQ7) : bool := match o with Some v => p v | None => false end.

(** The checks of [validate_value] after the alternative is known to be the field's. *)
Definition check_value (id : FieldId) (v : SemanticValue) (current : bool) : Result unit :=
  let invalid := error1 ErrorCode.invalid_argument in
  let? _ := (if current && (fid_eqb id Field.SampleRate || fid_eqb id Field.Bandwidth || fid_eqb id Field.AuxiliaryBandwidth)
             then let? q := get_hertz v in fail_if q <? 0 with invalid ;; Ok tt else Ok tt) in
  let? _ := (if current && (fid_eqb id Field.Temperature || fid_eqb id Field.AirTemperature || fid_eqb id Field.SeaGroundTemperature)
             then let? q := get_celsius v in fail_if q <? -17481 with invalid ;; Ok tt else Ok tt) in
  let? _ := (if fid_eqb id Field.DeviceIdentifier
             then match v with v_device o _ => fail_if 0xffffff <? o with invalid ;; Ok tt | _ => UB end else Ok tt) in
  let? _ := (if fid_eqb id Field.SpatialScanType || fid_eqb id Field.HealthStatus || fid_eqb id Field.TroposphericState || cif2_generic16_field id
             then let? x := get_uint32 v in fail_if 0xffff <? x with invalid ;; Ok tt else Ok tt) in
  let? _ := (if current && fid_eqb id Field.V49SpecCompliance
             then let? code := get_uint32 v in fail_if (code <? 1) || (4 <? code) with invalid ;; Ok tt else Ok tt) in
  let? _ := (if current && fid_eqb id Field.PointingVector3D
             then match v with
                  | v_pointing _ e => fail_if (e <? -90 * 128) || (90 * 128 <? e) with invalid ;; Ok tt
                  | _ => UB end else Ok tt) in
  let? _ := (if fid_eqb id Field.SpatialReferenceType
             then match v with
                  | v_spatial _ r b => fail_if (3 <? r) || (2 <? b) with invalid ;; Ok tt
                  | _ => UB end else Ok tt) in
  let? _ := (if fid_eqb id Field.EbNoBer
             then match v with
                  | v_ebno_ber e b => fail_if negb (nonsentinel e) || negb (nonsentinel b) || (current && opt_test (fun x => 0 <? x) b) with invalid ;; Ok tt
                  | _ => UB end else Ok tt) in
  let? _ := (if fid_eqb id Field.InterceptPoints
             then match v with
                  | v_intercept a b => fail_if negb (nonsentinel a) || negb (nonsentinel b) with invalid ;; Ok tt
                  | _ => UB end else Ok tt) in
  let? _ := (if fid_eqb id Field.SnrNoiseFigure
             then match v with
                  | v_snr_noise s n => fail_if negb (nonsentinel s) || (current && opt_test (fun x => x <=? 0) n) with invalid ;; Ok tt
                  | _ => UB end else Ok tt) in
  let? _ := (if fid_eqb id Field.VersionBuild
             then match v with
                  | v_version y d r u =>
                      fail_if (127 <? y) || (if current then (d <? 1) || (366 <? d) else 511 <? d) || (63 <? r) || (1023 <? u) with invalid ;; Ok tt
                  | _ => UB end else Ok tt) in
  let? _ := (if current && fid_eqb id Field.Bind
             then let? x := get_uint32 v in fail_if 1 <? x with invalid ;; Ok tt else Ok tt) in
  let? _ := (if fid_eqb id Field.CountryCode
             then match v with v_country c _ => fail_if 0x7ff <? c with invalid ;; Ok tt | _ => UB end else Ok tt) in
  let? _ := (if fid_eqb id Field.EmsDeviceClass
             then match v with
                  | v_ems c o _ _ => fail_if (0xfff <? c) || (2 <? o) with invalid ;; Ok tt
                  | _ => UB end else Ok tt) in
  let? _ := (if current && (cif id =? 3) && ((fbit id =? 27) || (fbit id =? 26) || ((20 <=? fbit id) && (fbit id <=? 24)))
             then let? c := get_femtoseconds v in fail_if c <? 0 with invalid ;; Ok tt else Ok tt) in
  let? _ := (if fid_eqb id Field.BarometricPressure
             then match v with v_pressure r => fail_if 0x1ffff <? r with invalid ;; Ok tt | _ => UB end else Ok tt) in
  let? _ := (if fid_eqb id Field.SeaSwellState
             then match v with
                  | v_sea_swell a b c =>
                      let top := if current then 9 else 31 in
                      fail_if (top <? a) || (top <? b) || (63 <? c) with invalid ;; Ok tt
                  | _ => UB end else Ok tt) in
  if current && fid_eqb id Field.TimestampDetails
  then match v with v_timestamp_details f _ => validate_timestamp_details_intrinsic f | _ => UB end
  else Ok tt.

Definition validate_value (id : FieldId) (v : SemanticValue) (current : bool) : Result unit :=
  fail_if value_index v =? 8 with error1 ErrorCode.invalid_argument ;;
  match descriptor id with
  | None => Err (error1 ErrorCode.unsupported_layout)
  | Some d =>
      fail_if negb (value_index v =? d_variant d) with error1 ErrorCode.invalid_argument ;;
      check_value id v current
  end.

Definition validate_attribute_value (id : FieldId) (attribute : Z) (v : SemanticValue) : Result unit :=
  fail_if is_none (descriptor id) with error1 ErrorCode.unsupported_layout ;;
  fail_if (13 <=? attribute) || (value_index v =? 8) with error1 ErrorCode.invalid_argument ;;
  if attribute =? Attribute.probability then
    (if value_index v =? 28 then Ok tt else Err (error1 ErrorCode.invalid_argument))
  else if attribute =? Attribute.belief then
    (if value_index v =? 29 then Ok tt else Err (error1 ErrorCode.invalid_argument))
  else validate_value id v
    ((attribute =? Attribute.current) ||
     (fid_eqb id Field.SampleRate && ((attribute =? Attribute.minimum) || (attribute =? Attribute.maximum)))).

Definition hertz_from_integer (hz : Z) : Result SemanticValue :=
  fail_if INT64_MAX / 1048576 <? hz with error1 ErrorCode.overflow ;;
  Ok (v_hertz (Z.shiftl hz 20)).

(** ** Properties of the registry *)

(** A table entry agrees with the predicates of the registry: its selector is valid,
    structured fields are those of the [NativeSlice] alternative, and a scalar field has
    one word, or two for the 64-bit alternatives. *)
Definition variant_words (variant : Z) : Z :=
  if existsb (Z.eqb variant) [1; 2; 5; 7; 19; 21; 27] then 2 else 1.

Definition descriptor_consistent (d : FieldDescriptor) : bool :=
  valid_field_selector (d_id d) && Bool.eqb (structured_field (d_id d)) (d_variant d =? 8) &&
  (0 <=? d_variant d) && (d_variant d <=? 27) && (d_attributes d =? all_attributes) &&
  ((d_variant d =? 8) || (d_words d =? variant_words (d_variant d))).

Lemma fid_eqb_eq a b : fid_eqb a b = true <-> a = b.
Proof.
  unfold fid_eqb. rewrite andb_true_iff, !Z.eqb_eq. destruct a, b; cbn. split; [intros [-> ->]; done|intros [= -> ->]; done].
Qed.

Lemma descriptor_Some id d : descriptor id = Some d -> d ∈ descriptors /\ d_id d = id.
Proof.
  unfold descriptor. destruct (first_index _ descriptors) as [i|] eqn:Ei; cbn [mbind option_bind]; [|done]. intros Hd.
  apply first_index_Some in Ei as [(d' & Hd' & Hid) _]. rewrite Hd in Hd'. injection Hd' as <-. split; [by eapply list_elem_of_lookup_2|].
  by apply fid_eqb_eq.
Qed.

Lemma descriptors_unique : NoDup (d_id <$> descriptors).
Proof. apply (bool_decide_unpack _). vm_compute. exact I. Qed.

Lemma descriptors_consistent : forallb descriptor_consistent descriptors = true.
Proof. vm_compute. reflexivity. Qed.

Lemma descriptor_of d : d ∈ descriptors -> descriptor (d_id d) = Some d.
Proof.
  intros Hd. unfold descriptor. destruct (first_index _ descriptors) as [i|] eqn:Ei; cbn [mbind option_bind].
  - apply first_index_Some in Ei as [(d' & Hd' & Hid) _]. apply fid_eqb_eq in Hid. rewrite Hd'. f_equal.
    apply list_elem_of_lookup in Hd as [j Hj].
    assert (i = j) as ->; [|congruence]. eapply NoDup_lookup; [apply descriptors_unique| |];
      rewrite list_lookup_fmap; [by rewrite Hd'|rewrite Hj; cbn; congruence].
  - exfalso. apply first_index_None in Ei. rewrite list.Forall_forall in Ei. specialize (Ei d Hd).
    apply not_true_iff_false in Ei. apply Ei. by apply fid_eqb_eq.
Qed.

(** A property that is checked for every entry of the table. *)
Lemma registry_cases (P : FieldDescriptor -> Prop) id d : Forall P descriptors -> descriptor id = Some d -> P d /\ d_id d = id.
Proof. rewrite list.Forall_forall. intros H [Hin E]%descriptor_Some. auto. Qed.

Definition check_safe (d : FieldDescriptor) : Prop :=
  forall v current, value_index v = d_variant d -> safe (check_value (d_id d) v current).

Lemma details_intrinsic_safe flags : safe (validate_timestamp_details_intrinsic flags).
Proof. unfold validate_timestamp_details_intrinsic. by destruct (_ || _). Qed.

Lemma descriptors_check_safe : Forall check_safe descriptors.
Proof.
  unfold descriptors, baseline_descriptors, scalar_descriptors, structured_descriptors, cif1_fixed_descriptors,
    cif1_structure_descriptors, cif2_descriptors, cif3_descriptors. cbn [app].
  repeat (apply List.Forall_cons; [intros v current Hv; destruct v; try discriminate Hv; unfold check_value; destruct current;
    cbn -[validate_timestamp_details_intrinsic]; first [apply details_intrinsic_safe | repeat case_match; done]|]).
  apply List.Forall_nil.
Qed.

(** Packet order: CIF words ascending, bits of a word descending. *)
#[global] Instance field_before_order : StrictOrder (fun a b => field_before a b = true).
Proof.
  unfold field_before. split.
  - intros a. red. rewrite orb_true_iff, andb_true_iff, Z.ltb_lt, Z.eqb_eq, Z.ltb_lt. lia.
  - intros a b c. rewrite !orb_true_iff, !andb_true_iff, !Z.ltb_lt, !Z.eqb_eq. lia.
Qed.

(** The registry is coherent: identifiers are unique, so that a lookup returns the one
    entry of a field, every entry agrees with the field predicates, and any two distinct
    fields are ordered one way by [field_before]. *)
Theorem registry_coherent :
  (forall id d, descriptor id = Some d <-> d ∈ descriptors /\ d_id d = id) /\
  (forall id d, descriptor id = Some d -> descriptor_consistent d = true) /\
  (forall a b, a <> b <-> xorb (field_before a b) (field_before b a) = true).
Proof.
  split_and!.
  - intros id d. split; [apply descriptor_Some|]. intros [Hd <-]. by apply descriptor_of.
  - intros id d [Hd _]%descriptor_Some. pose proof descriptors_consistent as H. rewrite forallb_forall in H.
    by apply H, list_elem_of_In.
  - intros a b. unfold field_before. destruct a as [c1 b1], b as [c2 b2]. cbn.
    split.
    + intros Hne. assert (c1 <> c2 \/ b1 <> b2) by (destruct (Z.eq_dec c1 c2), (Z.eq_dec b1 b2); [congruence|lia..]).
      repeat bdestruct_step; cbn; (done || lia).
    + intros Hx [= -> ->]. rewrite !Z.ltb_irrefl, Z.eqb_refl in Hx. done.
Qed.

(** Validating a value never reads an alternative the value does not hold: the check of
    the variant index against the registry is enough for every [std::get] that follows. *)
Theorem validate_value_safe id v current : safe (validate_value id v current).
Proof.
  unfold validate_value. test_goal E; [done|]. destruct (descriptor id) as [d|] eqn:Ed; [|done].
  test_goal E2; [done|]. apply negb_false_iff, Z.eqb_eq in E2.
  destruct (registry_cases check_safe id d descriptors_check_safe Ed) as [H <-]. by apply H.
Qed.
