(* ===== verification/Scalar.v ===== *)
(** * Scalar field codec: [include/vita/codec/scalar.hpp]

    Reading and writing the one- and two-word scalar representations of the field
    registry. *)

From S2P Require Import Prelude Wire WireProofs Fields.

Definition signed16 (word : Z) : Z := to_signed 16 (wrap16 word).
Definition unsigned16 (v : Z) : Z := to_unsigned 16 v.

Definition read_optional16 (word sentinel : Z) : OptionalQ7 :=
  if wrap16 word =? sentinel then None else Some (signed16 word).
Definition write_optional16 (o : OptionalQ7) (sentinel : Z) : Z :=
  match o with Some v => unsigned16 v | None => sentinel end.
Definition pair16 (high low : Z) : Z := Z.lor (Z.shiftl high 16) low.

(** The [switch] of [read_scalar] on the variant index. *)
Definition scalar_value (variant low bits : Z) : Result SemanticValue :=
  match variant with
  | 0 => Ok (v_uint32 low)
  | 1 => Ok (v_hertz (to_signed 64 bits))
  | 2 => Ok (v_payload_format bits)
  | 3 => Ok (v_decibels (signed16 low))
  | 4 => Ok (v_gain (signed16 low) (signed16 (Z.shiftr low 16)))
  | 5 => Ok (v_femtoseconds (to_signed 64 bits))
  | 6 => Ok (v_celsius (signed16 low))
  | 7 => Ok (v_device (Z.land low 0xffffff) (wrap16 bits))
  | 9 => Ok (v_radians (signed16 low))
  | 10 => Ok (v_polarization (signed16 (Z.shiftr low 16)) (signed16 low))
  | 11 => Ok (v_pointing (wrap16 low) (signed16 (Z.shiftr low 16)))
  | 12 => Ok (v_spatial (wrap16 (Z.shiftr low 16)) (wrap8 (Z.land (Z.shiftr low 2) 3)) (wrap8 (Z.land low 3)))
  | 13 => Ok (v_beam_width (wrap16 (Z.shiftr low 16)) (wrap16 low))
  | 14 => Ok (v_metres low)
  | 15 => Ok (v_ebno_ber (read_optional16 (Z.shiftr low 16) 0x7fff) (read_optional16 low 0x7fff))
  | 16 => Ok (v_threshold (signed16 low) (signed16 (Z.shiftr low 16)))
  | 17 => Ok (v_intercept (read_optional16 (Z.shiftr low 16) 0x7fff) (read_optional16 low 0x7fff))
  | 18 => Ok (v_snr_noise (read_optional16 (Z.shiftr low 16) 0x7fff) (read_optional16 low 0))
  | 19 => Ok (v_unsigned64 bits)
  | 20 => Ok (v_version (wrap8 (Z.shiftr low 25)) (wrap16 (Z.land (Z.shiftr low 16) 511))
                (wrap8 (Z.land (Z.shiftr low 10) 63)) (wrap16 (Z.land low 1023)))
  | 21 => Ok (v_buffer_size low (wrap8 (Z.land (Z.shiftr bits 8) 255)) (wrap8 (Z.land bits 255)))
  | 22 => Ok (v_country (wrap16 (Z.land low 0x7ff)) (nonzero (Z.land low 0x8000)))
  | 23 => Ok (v_ems (wrap16 (Z.land low 0xfff)) (wrap8 (Z.land (Z.shiftr low 14) 3))
                (nonzero (Z.land low 0x2000)) (nonzero (Z.land low 0x1000)))
  | 24 => Ok (v_humidity (wrap16 low))
  | 25 => Ok (v_pressure (Z.land low 0x1ffff))
  | 26 => Ok (v_sea_swell (wrap8 (Z.land low 31)) (wrap8 (Z.land (Z.shiftr low 5) 31)) (wrap8 (Z.land (Z.shiftr low 10) 63)))
  | 27 => Ok (v_timestamp_details low (wrap32 bits))
  | _ => Err (error1 ErrorCode.unsupported_layout)
  end.

Definition read_scalar (d : FieldDescriptor) (bytes : list byte) : Result SemanticValue :=
  fail_if negb (zlen bytes =? d_words d * 4) with error1 ErrorCode.short_input ;;
  let? low := load32 bytes 0 in
  let? bits := (if d_words d =? 2 then let? next := load32 bytes 4 in Ok (Z.lor (Z.shiftl low 32) next) else Ok low) in
  scalar_value (d_variant d) low bits.

Definition scalar_bits (v : SemanticValue) : Z :=
  match v with
  | v_uint32 x => x
  | v_hertz q => to_unsigned 64 q
  | v_payload_format b => b
  | v_decibels q => unsigned16 q
  | v_gain s1 s2 => Z.lor (Z.shiftl (unsigned16 s2) 16) (unsigned16 s1)
  | v_femtoseconds c => to_unsigned 64 c
  | v_celsius q => unsigned16 q
  | v_device o c => Z.lor (wrap64 (Z.shiftl o 32)) c
  | v_radians q => unsigned16 q
  | v_polarization t e => pair16 (unsigned16 t) (unsigned16 e)
  | v_pointing a e => pair16 (unsigned16 e) a
  | v_spatial u r b => Z.lor (Z.lor (Z.shiftl u 16) (Z.shiftl r 2)) b
  | v_beam_width h w => pair16 h w
  | v_metres q => q
  | v_ebno_ber e b => pair16 (write_optional16 e 0x7fff) (write_optional16 b 0x7fff)
  | v_threshold s1 s2 => pair16 (unsigned16 s2) (unsigned16 s1)
  | v_intercept a b => pair16 (write_optional16 a 0x7fff) (write_optional16 b 0x7fff)
  | v_snr_noise s n => pair16 (write_optional16 s 0x7fff) (write_optional16 n 0)
  | v_unsigned64 b => b
  | v_version y d r u => Z.lor (Z.lor (Z.lor (wrap32 (Z.shiftl y 25)) (wrap32 (Z.shiftl d 16))) (Z.shiftl r 10)) u
  | v_buffer_size c l s => Z.lor (Z.lor (wrap64 (Z.shiftl c 32)) (Z.shiftl l 8)) s
  | v_country c iso => Z.lor (if iso then 0x8000 else 0) c
  | v_ems c o e r => Z.lor (Z.lor (Z.lor (Z.shiftl o 14) (if e then 0x2000 else 0)) (if r then 0x1000 else 0)) c
  | v_humidity r => r
  | v_pressure r => r
  | v_sea_swell a b c => Z.lor (Z.lor (Z.shiftl c 10) (Z.shiftl b 5)) a
  | v_timestamp_details f e => Z.lor (wrap64 (Z.shiftl f 32)) e
  | v_probability x f => Z.lor (Z.shiftl f 8) x
  | v_belief x => x
  | v_slice _ _ => 0
  end.

Definition read_attribute_scalar (d : FieldDescriptor) (attribute : Z) (bytes : list byte) : Result SemanticValue :=
  if (attribute =? Attribute.probability) || (attribute =? Attribute.belief) then
    fail_if negb (zlen bytes =? 4) with error1 ErrorCode.short_input ;;
    let? bits := load32 bytes 0 in
    if attribute =? Attribute.probability then
      fail_if nonzero (Z.land bits 0xffff0000) with error1 ErrorCode.invalid_argument ;;
      Ok (v_probability (wrap8 bits) (wrap8 (Z.shiftr bits 8)))
    else
      fail_if nonzero (Z.land bits 0xffffff00) with error1 ErrorCode.invalid_argument ;;
      Ok (v_belief (wrap8 bits))
  else read_scalar d bytes.

Definition write_scalar (d : FieldDescriptor) (v : SemanticValue) (output : list byte) (offset : Z) : Result (list byte) :=
  let bits := scalar_bits v in
  if d_words d =? 2 then
    let? output := store32 output offset (wrap32 (Z.shiftr bits 32)) in
    store32 output (offset + 4) (wrap32 bits)
  else store32 output offset (wrap32 bits).

Definition write_attribute_scalar (d : FieldDescriptor) (attribute : Z) (v : SemanticValue) (output : list byte) (offset : Z)
  : Result (list byte) :=
  if (attribute =? Attribute.probability) || (attribute =? Attribute.belief)
  then store32 output offset (wrap32 (scalar_bits v))
  else write_scalar d v output offset.

(** ** Bit fields *)

Lemma to_signed_unsigned16 v : i16 v -> signed16 (unsigned16 v) = v.
Proof. unfold i16, signed16, unsigned16, to_signed, to_unsigned. intros. destruct (Z.ltb_spec (wrap16 (v mod 2 ^ 16)) (2 ^ (16 - 1))); zlia. Qed.

Lemma to_signed_unsigned64 v : i64 v -> to_signed 64 (to_unsigned 64 v) = v.
Proof. unfold i64, to_signed, to_unsigned. intros. destruct (Z.ltb_spec (v mod 2 ^ 64) (2 ^ (64 - 1))); zlia. Qed.

Lemma unsigned16_range v : 0 <= unsigned16 v < 65536.
Proof. unfold unsigned16, to_unsigned. zlia. Qed.

Lemma lor_shiftl a b n : 0 <= n -> 0 <= b < 2 ^ n -> Z.lor (Z.shiftl a n) b = a * 2 ^ n + b.
Proof. intros. rewrite Z.shiftl_mul_pow2 by lia. by apply lor_low. Qed.

Lemma pair16_value h l : u16 h -> u16 l -> pair16 h l = h * 65536 + l.
Proof. intros Hh Hl. unfold pair16. rewrite lor_shiftl; [done|lia|zlia]. Qed.

Lemma pair16_high h l : u16 h -> u16 l -> Z.shiftr (pair16 h l) 16 = h.
Proof. intros Hh Hl. rewrite pair16_value, Z.shiftr_div_pow2 by (done || lia). zlia. Qed.

Lemma pair16_low h l : u16 h -> u16 l -> wrap16 (pair16 h l) = l.
Proof. intros Hh Hl. rewrite pair16_value by done. zlia. Qed.

Lemma signed16_wrap w : signed16 (wrap16 w) = signed16 w.
Proof. unfold signed16. f_equal. zlia. Qed.

Lemma signed16_pair h l : u16 h -> u16 l -> signed16 (pair16 h l) = signed16 l.
Proof. intros. by rewrite <- signed16_wrap, pair16_low. Qed.

Lemma unsigned16_u16 v : u16 (unsigned16 v).
Proof. pose proof (unsigned16_range v). zlia. Qed.

Lemma write_optional16_u16 o s : u16 s -> u16 (write_optional16 o s).
Proof. destruct o; [intros _; apply unsigned16_u16|done]. Qed.

(** A nullable value round trips unless it is known and equal to the sentinel. *)
Lemma optional16_roundtrip o s w :
  opt_i16 o -> u16 s -> o <> Some (signed16 s) -> wrap16 w = write_optional16 o s -> read_optional16 w s = o.
Proof.
  intros Ho Hs Hne E. unfold read_optional16. rewrite <- signed16_wrap, E. destruct o as [v|]; cbn.
  - rewrite to_signed_unsigned16 by done. destruct (Z.eqb_spec (unsigned16 v) s) as [<-|]; [|done].
    exfalso. apply Hne. by rewrite to_signed_unsigned16.
  - by rewrite Z.eqb_refl.
Qed.

(** The low bits of a word above a field, by division. *)
Lemma land_ones_mod w k m : 0 <= k -> m = 2 ^ k - 1 -> Z.land w m = w mod 2 ^ k.
Proof. intros Hk ->. by apply land_mask. Qed.

Lemma nonzero_land_bit w k m : 0 <= k -> m = 2 ^ k -> nonzero (Z.land w m) = nonzero ((w / 2 ^ k) mod 2).
Proof. intros Hk ->. rewrite <- bit_set_div by done. unfold bit_set, nonzero. by rewrite Z.shiftl_1_l. Qed.

(** What an accepted value has to satisfy for its bit fields to hold it. *)
Definition fits_fields (v : SemanticValue) : Prop :=
  value_typed v /\
  match v with
  | v_device o _ => o <= 0xffffff
  | v_spatial _ r b => r <= 3 /\ b <= 3
  | v_ebno_ber a b | v_intercept a b => a <> Some INT16_MAX /\ b <> Some INT16_MAX
  | v_snr_noise a b => a <> Some INT16_MAX /\ b <> Some 0
  | v_version y d r u => y <= 127 /\ d <= 511 /\ r <= 63 /\ u <= 1023
  | v_country c _ => c <= 0x7ff
  | v_ems c o _ _ => c <= 0xfff /\ o <= 3
  | v_pressure r => r <= 0x1ffff
  | v_sea_swell a b c => a <= 31 /\ b <= 31 /\ c <= 63
  | _ => True
  end.

Definition wide (v : SemanticValue) : bool := variant_words (value_index v) =? 2.

Ltac bitfields := rewrite ?(land_ones_mod _ 24 0xffffff), ?(land_ones_mod _ 2 3), ?(land_ones_mod _ 9 511),
  ?(land_ones_mod _ 6 63), ?(land_ones_mod _ 10 1023), ?(land_ones_mod _ 8 255), ?(land_ones_mod _ 11 0x7ff),
  ?(land_ones_mod _ 12 0xfff), ?(land_ones_mod _ 17 0x1ffff), ?(land_ones_mod _ 5 31), ?Z.shiftr_div_pow2,
  ?(nonzero_land_bit _ 15 0x8000), ?(nonzero_land_bit _ 13 0x2000), ?(nonzero_land_bit _ 12 0x1000) by (done || lia).

(** The bit fields as a sum. *)
Definition scalar_sum (v : SemanticValue) : Z :=
  match v with
  | v_gain s1 s2 => unsigned16 s2 * 65536 + unsigned16 s1
  | v_device o c => o * 4294967296 + c
  | v_polarization t e => unsigned16 t * 65536 + unsigned16 e
  | v_pointing a e => unsigned16 e * 65536 + a
  | v_spatial u r b => u * 65536 + (r * 4 + b)
  | v_beam_width h w => h * 65536 + w
  | v_ebno_ber a b | v_intercept a b => write_optional16 a 0x7fff * 65536 + write_optional16 b 0x7fff
  | v_threshold s1 s2 => unsigned16 s2 * 65536 + unsigned16 s1
  | v_snr_noise s n => write_optional16 s 0x7fff * 65536 + write_optional16 n 0
  | v_version y d r u => y * 33554432 + (d * 65536 + (r * 1024 + u))
  | v_buffer_size c l s => c * 4294967296 + (l * 256 + s)
  | v_country c iso => b2z iso * 32768 + c
  | v_ems c o e r => o * 16384 + (b2z e * 8192 + (b2z r * 4096 + c))
  | v_sea_swell a b c => c * 1024 + (b * 32 + a)
  | v_timestamp_details f e => f * 4294967296 + e
  | v_probability x f => f * 256 + x
  | v => scalar_bits v
  end.

Lemma lor_step a b n x : 0 <= n -> Z.lor a b = x -> 0 <= x < 2 ^ n -> forall h, Z.lor (Z.lor (Z.shiftl h n) a) b = h * 2 ^ n + x.
Proof. intros Hn <- Hx h. rewrite <- Z.lor_assoc. by apply lor_shiftl. Qed.

Lemma flag_shift (b : bool) k m : 0 <= k -> m = 2 ^ k -> (if b then m else 0) = Z.shiftl (b2z b) k.
Proof. intros Hk ->. destruct b; cbn; [by rewrite Z.shiftl_1_l|by rewrite Z.shiftl_0_l]. Qed.

Lemma wrap_shiftl64 a : u32 a -> wrap64 (Z.shiftl a 32) = Z.shiftl a 32.
Proof. intros. rewrite Z.shiftl_mul_pow2 by lia. zlia. Qed.

Lemma wrap_shiftl32 a n : 0 <= n <= 32 -> 0 <= a < 2 ^ (32 - n) -> wrap32 (Z.shiftl a n) = Z.shiftl a n.
Proof.
  intros Hn Ha. rewrite Z.shiftl_mul_pow2 by lia. apply Z.mod_small.
  replace 4294967296 with (2 ^ (32 - n) * 2 ^ n); [nia|]. rewrite <- Z.pow_add_r by lia. by replace (32 - n + n) with 32 by lia.
Qed.

Lemma scalar_bits_sum v : fits_fields v -> scalar_bits v = scalar_sum v.
Proof.
  intros [Ht Hf]. destruct v; cbn [scalar_bits scalar_sum value_typed] in *; try done;
    try (destruct Ht; apply pair16_value; (done || apply unsigned16_u16 || by apply write_optional16_u16)).
  - rewrite wrap_shiftl64, lor_shiftl by (lia || tauto || zlia). done.
  - rewrite (lor_step (Z.shiftl reference 2) beam 16 (reference * 4 + beam)); [done|lia| |zlia]. rewrite lor_shiftl by zlia. done.
  - rewrite !wrap_shiftl32 by zlia. rewrite <- !Z.lor_assoc. rewrite (lor_shiftl revision user 10) by zlia.
    rewrite (lor_shiftl day _ 16) by zlia. rewrite lor_shiftl by zlia. done.
  - rewrite wrap_shiftl64 by tauto. rewrite (lor_step (Z.shiftl level 8) status 32 (level * 256 + status)); [done|lia| |zlia].
    rewrite lor_shiftl by zlia. done.
  - rewrite (flag_shift iso3166 15) by done. rewrite lor_shiftl by zlia. done.
  - rewrite (flag_shift exciter 13), (flag_shift receiver 12) by done. rewrite <- !Z.lor_assoc.
    pose proof (b2z_range receiver). pose proof (b2z_range exciter).
    rewrite (lor_shiftl (b2z receiver) class_code 12) by zlia. rewrite (lor_shiftl (b2z exciter) _ 13) by zlia.
    rewrite lor_shiftl by zlia. done.
  - rewrite (lor_step (Z.shiftl swell 5) sea 10 (swell * 32 + sea)); [done|lia| |zlia]. rewrite lor_shiftl by zlia. done.
  - rewrite wrap_shiftl64, lor_shiftl by (lia || tauto || zlia). done.
  - rewrite lor_shiftl by zlia. done.
Qed.

Lemma scalar_bits_range v : fits_fields v -> value_index v <> 8 -> 0 <= scalar_bits v < (if wide v then 2 ^ 64 else 2 ^ 32).
Proof.
  intros Hf Hi. rewrite scalar_bits_sum by done. destruct Hf as [Ht Hf].
  destruct v; cbn [wide value_index scalar_sum scalar_bits value_typed] in *; try done;
    unfold wide, variant_words; cbn [value_index existsb Z.eqb Pos.eqb orb];
    rewrite ?(eq_refl : 2 ^ 64 = 18446744073709551616), ?(eq_refl : 2 ^ 32 = 4294967296);
    repeat match goal with |- context [unsigned16 ?x] => pose proof (unsigned16_range x); generalize dependent (unsigned16 x); intros end;
    repeat match goal with |- context [write_optional16 ?o ?s] =>
      pose proof (write_optional16_u16 o s ltac:(zlia)); generalize dependent (write_optional16 o s); intros end;
    repeat match goal with |- context [b2z ?b] => pose proof (b2z_range b); generalize dependent (b2z b); intros end;
    unfold to_unsigned; unfold i16, i64 in *; zlia.
Qed.

Lemma high16 h l : u16 l -> Z.shiftr (h * 65536 + l) 16 = h.
Proof. intros. rewrite Z.shiftr_div_pow2 by lia. zlia. Qed.
Lemma low16 h l : u16 l -> wrap16 (h * 65536 + l) = l.
Proof. intros. zlia. Qed.
Lemma signed16_low h l : u16 l -> signed16 (h * 65536 + l) = signed16 l.
Proof. intros. by rewrite <- signed16_wrap, low16. Qed.
Lemma optional16_pair a b sa sb :
  opt_i16 a -> opt_i16 b -> u16 sa -> u16 sb -> a <> Some (signed16 sa) -> b <> Some (signed16 sb) ->
  let w := write_optional16 a sa * 65536 + write_optional16 b sb in
  read_optional16 (Z.shiftr w 16) sa = a /\ read_optional16 w sb = b.
Proof.
  intros Ha Hb Hsa Hsb Hna Hnb w. pose proof (write_optional16_u16 a sa Hsa). pose proof (write_optional16_u16 b sb Hsb).
  split; apply optional16_roundtrip; try done; unfold w; [rewrite high16 by done; zlia|by rewrite low16].
Qed.
Lemma nonzero_is w (b : bool) : w = b2z b -> nonzero w = b.
Proof. intros ->. apply nonzero_b2z. Qed.

#[local] Hint Resolve unsigned16_u16 write_optional16_u16 : core.

(** Reading the bits of a value gives the value back. *)
Lemma scalar_value_bits v low bits :
  fits_fields v -> value_index v <= 27 -> value_index v <> 8 ->
  bits = scalar_bits v -> low = (if wide v then bits / 2 ^ 32 else bits) ->
  scalar_value (value_index v) low bits = Ok v.
Proof.
  intros Hf Hi Hn -> ->. rewrite scalar_bits_sum by done. destruct Hf as [Ht Hf].
  destruct v; cbn [wide value_index value_typed] in *; try done; unfold wide, variant_words;
    cbn [value_index existsb Z.eqb Pos.eqb orb scalar_value scalar_sum scalar_bits]; try lia;
    try (by rewrite to_signed_unsigned64); try (by rewrite to_signed_unsigned16);
    try (destruct Ht; rewrite ?high16, ?signed16_low, ?low16 by auto; by rewrite ?to_signed_unsigned16);
    try (destruct Ht, Hf; match goal with |- context [read_optional16 (write_optional16 ?a ?sa * _ + write_optional16 ?b ?sb)] =>
      destruct (optional16_pair a b sa sb) as [-> ->]; done end);
    bitfields; f_equal; f_equal; try apply nonzero_is;
      repeat match goal with |- context [b2z ?b] => pose proof (b2z_range b); generalize dependent (b2z b); intros end; zlia.
Qed.

(** What validation gives: the value fits its bit fields.  Outside [SnrNoiseFigure] this
    holds for every attribute; a noise figure of zero, which is the code of an unknown
    one, is only refused for the current value. *)
Definition check_fits (d : FieldDescriptor) : Prop :=
  forall v current, value_index v = d_variant d -> value_typed v -> check_value (d_id d) v current = Ok tt ->
    (forall s, v <> v_snr_noise s (Some 0)) -> fits_fields v.

Ltac check_tests :=
  repeat match goal with
  | H : (_ || _) = false |- _ => apply orb_false_iff in H as [? ?]
  | H : negb _ = false |- _ => apply negb_false_iff in H
  | H : (_ <? _) = false |- _ => apply Z.ltb_ge in H
  end.

Lemma descriptors_check_fits : Forall check_fits descriptors.
Proof.
  unfold descriptors, baseline_descriptors, scalar_descriptors, structured_descriptors, cif1_fixed_descriptors,
    cif1_structure_descriptors, cif2_descriptors, cif3_descriptors. cbn [app].
  repeat (apply List.Forall_cons; [intros v current Hv Ht Hc Hz; destruct v; try discriminate Hv; split; try done; revert Hc; clear Hv;
    unfold check_value; destruct current; cbn -[validate_timestamp_details_intrinsic Z.ltb nonsentinel opt_test];
    match goal with |- context [if ?c then _ else _] => destruct c eqn:?; [done|]; intros _; check_tests; 
     split_and?; try lia; intros ->; try done; by apply (Hz snr_q7) end|]).
  apply List.Forall_nil.
Qed.

Lemma validate_fits id d v current :
  descriptor id = Some d -> value_typed v -> validate_value id v current = Ok tt ->
  (forall s, v <> v_snr_noise s (Some 0)) ->
  fits_fields v /\ value_index v = d_variant d /\ value_index v <> 8.
Proof.
  intros Hd Ht Hv Hz. unfold validate_value in Hv. rewrite Hd in Hv. inv_ok.
  apply negb_false_iff, Z.eqb_eq in E0. apply Z.eqb_neq in E.
  destruct (registry_cases check_fits id d descriptors_check_fits Hd) as [H <-]. split; [by eapply H|done].
Qed.

(** ** Round trip *)

(** The extent of an attribute of a field, in words. *)
Definition attribute_words (d : FieldDescriptor) (attribute : Z) : Z :=
  if (attribute =? Attribute.probability) || (attribute =? Attribute.belief) then 1 else d_words d.

Lemma load32_be32 w rest : u32 w -> load32 (be32_bytes w ++ rest) 0 = Ok w.
Proof. intros Hw. rewrite <- (be32_of_bytes w Hw) at 2. reflexivity. Qed.

Lemma load32_second v w : u32 w -> load32 (be32_bytes v ++ be32_bytes w) 4 = Ok w.
Proof. intros Hw. rewrite <- (be32_of_bytes w Hw) at 2. reflexivity. Qed.

Lemma wrap32_u32 z : u32 (wrap32 z).
Proof. zlia. Qed.

Lemma words_of_variant id d v :
  descriptor id = Some d -> value_index v = d_variant d -> value_index v <> 8 -> d_words d = if wide v then 2 else 1.
Proof.
  intros Hd Hv Hn. destruct registry_coherent as (_ & Hc & _). specialize (Hc _ _ Hd). unfold descriptor_consistent in Hc.
  rewrite !andb_true_iff, orb_true_iff, !Z.eqb_eq, <- Hv in Hc. destruct Hc as (_ & [Hc|Hc]); [done|].
  rewrite Hc. unfold wide, variant_words. by destruct (existsb _ _).
Qed.

Lemma scalar_roundtrip_core id d v pre mid post :
  descriptor id = Some d -> fits_fields v -> value_index v = d_variant d -> value_index v <> 8 ->
  zlen mid = d_words d * 4 ->
  exists mid', write_scalar d v (pre ++ mid ++ post) (zlen pre) = Ok (pre ++ mid' ++ post) /\ read_scalar d mid' = Ok v.
Proof.
  intros Hd Hf Hv Hn Hm. pose proof (words_of_variant _ _ _ Hd Hv Hn) as Hw. pose proof (scalar_bits_range v Hf Hn) as Hr.
  assert (Hi : value_index v <= 27).
  { destruct registry_coherent as (_ & Hc & _). specialize (Hc _ _ Hd). unfold descriptor_consistent in Hc.
    rewrite !andb_true_iff, !Z.leb_le in Hc. lia. }
  pose proof (scalar_value_bits v) as Hval. unfold write_scalar, read_scalar. rewrite <- Hv. rewrite Hw in *.
  destruct (wide v) eqn:Ew; cbn [Z.eqb Pos.eqb].
  - rewrite <- (take_drop 4 mid), <- app_assoc. unfold zlen in Hm.
    rewrite store32_app by (rewrite length_take; lia). cbn [rbind].
    rewrite app_assoc. replace (zlen pre + 4) with (zlen (pre ++ be32_bytes (wrap32 (Z.shiftr (scalar_bits v) 32))))
      by (unfold zlen; rewrite length_app; cbn; lia).
    rewrite store32_app by (rewrite length_drop; lia).
    exists (be32_bytes (wrap32 (Z.shiftr (scalar_bits v) 32)) ++ be32_bytes (wrap32 (scalar_bits v))).
    split; [by rewrite <- !app_assoc|].
    rewrite load32_be32, load32_second by apply wrap32_u32. cbn [rbind zlen length be32_bytes app negb].
    rewrite Z.shiftr_div_pow2, lor_shiftl by (lia || apply Z.mod_pos_bound; lia).
    apply Hval; try done; rewrite ?Ew; rewrite ?(eq_refl : 2 ^ 64 = 18446744073709551616) in *;
      rewrite ?(eq_refl : 2 ^ 32 = 4294967296) in *; zlia.
  - rewrite store32_app by (unfold zlen in Hm; lia). exists (be32_bytes (wrap32 (scalar_bits v))). split; [done|].
    rewrite <- (app_nil_r (be32_bytes _)), load32_be32 by apply wrap32_u32. cbn [rbind zlen length be32_bytes app negb].
    apply Hval; try done; rewrite ?Ew; rewrite (eq_refl : 2 ^ 32 = 4294967296) in *; zlia.
Qed.

(** Writing and reading an attribute. *)
Lemma attribute_roundtrip id d attribute v pre mid post :
  descriptor id = Some d -> value_typed v -> validate_attribute_value id attribute v = Ok tt ->
  (forall s, v <> v_snr_noise s (Some 0)) ->
  zlen mid = attribute_words d attribute * 4 ->
  exists mid', write_attribute_scalar d attribute v (pre ++ mid ++ post) (zlen pre) = Ok (pre ++ mid' ++ post) /\
    read_attribute_scalar d attribute mid' = Ok v.
Proof.
  intros Hd Ht Hv Hz. unfold validate_attribute_value in Hv. inv_ok.
  unfold attribute_words, write_attribute_scalar, read_attribute_scalar. intros Hm.
  destruct (attribute =? Attribute.probability) eqn:Ep; cbn [orb] in *.
  { rewrite store32_app by (unfold zlen in Hm; lia). exists (be32_bytes (wrap32 (scalar_bits v))). split; [done|].
    rewrite <- (app_nil_r (be32_bytes _)), load32_be32 by apply wrap32_u32. cbn [rbind zlen length be32_bytes app negb].
    destruct v; try discriminate Hv. cbn in Ht. cbn [scalar_bits]. rewrite lor_shiftl by zlia.
    replace (Z.land _ _) with 0; [cbn; do 2 f_equal; rewrite ?Z.shiftr_div_pow2 by lia; zlia|]. symmetry.
    change 0xffff0000 with (Z.shiftl 0xffff 16).
    apply Z.bits_inj'. intros k Hk. rewrite Z.land_spec, Z.bits_0, Z.shiftl_spec by done.
    destruct (Z.lt_ge_cases k 16); [by rewrite (Z.testbit_neg_r 0xffff), andb_false_r by lia|].
    by rewrite (testbit_high _ 16) by zlia. }
  destruct (attribute =? Attribute.belief) eqn:Eb.
  { rewrite store32_app by (unfold zlen in Hm; lia). exists (be32_bytes (wrap32 (scalar_bits v))). split; [done|].
    rewrite <- (app_nil_r (be32_bytes _)), load32_be32 by apply wrap32_u32. cbn [rbind zlen length be32_bytes app negb].
    destruct v; try discriminate Hv. cbn in Ht. cbn [scalar_bits].
    replace (Z.land _ _) with 0; [cbn; do 2 f_equal; zlia|]. symmetry.
    change 0xffffff00 with (Z.shiftl 0xffffff 8).
    apply Z.bits_inj'. intros k Hk. rewrite Z.land_spec, Z.bits_0, Z.shiftl_spec by done.
    destruct (Z.lt_ge_cases k 8); [by rewrite (Z.testbit_neg_r 0xffffff), andb_false_r by lia|].
    by rewrite (testbit_high _ 8) by zlia. }
  destruct (validate_fits id d v _ Hd Ht Hv Hz) as (Hf & Hi & Hn). by apply (scalar_roundtrip_core id).
Qed.

(** Every value the registry accepts for an attribute of a field survives the wire:
    written into its extent it leaves the rest of the buffer alone, and reading the
    extent returns the same value.  The one exception is a known noise figure of zero,
    which shares the code of an unknown one. *)
Theorem scalar_roundtrip id d attribute v pre mid post :
  descriptor id = Some d -> value_typed v -> validate_attribute_value id attribute v = Ok tt ->
  (forall s, v <> v_snr_noise s (Some 0)) ->
  zlen mid = attribute_words d attribute * 4 ->
  exists mid', write_attribute_scalar d attribute v (pre ++ mid ++ post) (zlen pre) = Ok (pre ++ mid' ++ post) /\
    read_attribute_scalar d attribute mid' = Ok v.
Proof. apply attribute_roundtrip. Qed.

(** The exception is real: validation accepts a known noise figure of zero for an
    attribute other than the current value, and it reads back as unknown. *)
Theorem snr_zero_noise_lost :
  let v := v_snr_noise (Some 256) (Some 0) in
  let d := mkDescriptor Field.SnrNoiseFigure 1 18 all_attributes in
  descriptor Field.SnrNoiseFigure = Some d /\
  validate_attribute_value Field.SnrNoiseFigure Attribute.minimum v = Ok tt /\
  exists wire, write_attribute_scalar d Attribute.minimum v [x00; x00; x00; x00] 0 = Ok wire /\
    read_attribute_scalar d Attribute.minimum wire = Ok (v_snr_noise (Some 256) None).
Proof.
  cbv zeta. split_and!; [reflexivity|vm_compute; reflexivity|].
  exists [x01; x00; x00; x00]. split; vm_compute; reflexivity.
Qed.

(** ** Witnesses *)

Lemma scalar_roundtrip_witness : exists mid',
  write_attribute_scalar (mkDescriptor Field.Gain 1 4 all_attributes) Attribute.current (v_gain (-60) 128) [x01; x02; x03; x04; x05] 0
    = Ok (mid' ++ [x05]) /\
  read_attribute_scalar (mkDescriptor Field.Gain 1 4 all_attributes) Attribute.current mid' = Ok (v_gain (-60) 128).
Proof.
  apply (scalar_roundtrip Field.Gain (mkDescriptor Field.Gain 1 4 all_attributes) Attribute.current (v_gain (-60) 128)
    [] [x01; x02; x03; x04] [x05]); [reflexivity|unfold value_typed, i16; lia|reflexivity|discriminate|reflexivity].
Defined.
