(* ===== verification/Structured.v ===== *)
(** * Structured fields on the wire: [include/vita/codec/structured.hpp],
      [codec/cif1_structured.hpp], and the shapes of [fields/cif1_structured.hpp]

    The decoding side: how many bytes a structured field takes, given the bytes that
    follow, and the validation of its bytes. *)

From S2P Require Import Prelude Wire WireProofs Fields.

Record TimestampFormatBinding := mkBinding { b_tsi : Z; b_tsf : Z; b_bound : bool }.
Definition binding_default : TimestampFormatBinding := mkBinding 0 0 false.

Record FieldExtent := mkExtent { x_bytes : Z; x_units : Z; x_index_entries : Z; x_records : Z }.
Definition extent_default : FieldExtent := mkExtent 0 1 0 0.
Definition extent2 (bytes units : Z) : FieldExtent := mkExtent bytes units 0 0.

(** [bytes.subspan(offset)]; outside the span it is undefined. *)
Definition subspan_from (bytes : list byte) (offset : Z) : Result (list byte) :=
  if (offset <? 0) || (zlen bytes <? offset) then UB else Ok (drop (Z.to_nat offset) bytes).

(** ** Shapes of the record structures *)

Record RecordShape := mkShape {
  header_words : Z; record_words : Z; records : Z; total_words : Z; work : Z; header_code : Z }.

Definition pointing_shape (global reference : bool) (count : Z) : Result RecordShape :=
  fail_if 4095 <? count with error1 ErrorCode.invalid_argument ;;
  let h := if global then 4 else 3 in
  let r := if reference then 2 else 1 in
  Ok (mkShape h r count (h + r * count) (h + r * count) h).

Definition sector_widths : list Z := [2; 2; 2; 1; 1; 1; 2; 0; 2; 2].

(** The loop over the ten optional members, from member [i]. *)
Fixpoint sector_words (selectors : Z) (binding : TimestampFormatBinding) (widths : list Z) (i words : Z) : Result Z :=
  match widths with
  | [] => Ok words
  | w :: widths =>
      if bit_set selectors (29 - i) then
        if i =? 7 then
          fail_if (3 <? b_tsi binding) || (3 <? b_tsf binding) with error1 ErrorCode.invalid_argument ;;
          fail_if negb (b_bound binding) || ((b_tsi binding =? 0) && (b_tsf binding =? 0))
            with error1 ErrorCode.unsupported_capability ;;
          sector_words selectors binding widths (i + 1)
            (words + (if nonzero (b_tsi binding) then 1 else 0) + (if nonzero (b_tsf binding) then 2 else 0))
        else sector_words selectors binding widths (i + 1) (words + w)
      else sector_words selectors binding widths (i + 1) words
  end.

Definition sector_shape (selectors count : Z) (binding : TimestampFormatBinding) : Result RecordShape :=
  fail_if negb (Z.land selectors 0xc0000000 =? 0xc0000000) || nonzero (Z.land selectors 0x000fffff) || (4095 <? count)
    with error1 ErrorCode.invalid_argument ;;
  let? words := sector_words selectors binding sector_widths 0 3 in
  Ok (mkShape 3 words count (3 + words * count) (3 + words * count) 0).

Definition validate_reference (index reference beam : Z) (global : bool) : Result unit :=
  fail_if (3 <? reference) || (2 <? beam) || (global && nonzero index) with error1 ErrorCode.invalid_argument ;; Ok tt.

(** ** CIF1 structures *)

Definition cif1_structure (id : FieldId) : bool :=
  fid_eqb id Field.IndexList || fid_eqb id Field.PointingVectorStructure || fid_eqb id Field.Spectrum ||
  fid_eqb id Field.SectorStepScan.

Definition wire_record_shape (id : FieldId) (bytes : list byte) (binding : TimestampFormatBinding) : Result RecordShape :=
  let invalid := error1 ErrorCode.invalid_argument in
  fail_if zlen bytes <? 12 with error3 ErrorCode.short_input 0 12 ;;
  let? total := load32 bytes 0 in
  let? description := load32 bytes 4 in
  let? selectors := load32 bytes 8 in
  let? declared := checked_multiply total 4 in
  fail_if zlen bytes <? declared with error3 ErrorCode.short_input 0 declared ;;
  fail_if total <? 3 with invalid ;;
  let h := Z.shiftr description 24 in
  let r := Z.land (Z.shiftr description 12) 4095 in
  let n := Z.land description 4095 in
  let? shape :=
    (if fid_eqb id Field.PointingVectorStructure then
       fail_if (negb (h =? 3) && negb (h =? 4)) || nonzero (Z.land selectors 0x3fffffff) || negb (bit_set selectors 30) with invalid ;;
       pointing_shape (h =? 4) (bit_set selectors 31) n
     else if fid_eqb id Field.SectorStepScan then
       fail_if negb (h =? 0) with invalid ;;
       sector_shape selectors n binding
     else Err invalid) in
  fail_if negb (header_code shape =? h) || negb (record_words shape =? r) || negb (total_words shape =? total) with invalid ;;
  Ok shape.

Definition cif1_wire_extent (id : FieldId) (bytes : list byte) (binding : TimestampFormatBinding) : Result FieldExtent :=
  if fid_eqb id Field.Spectrum then
    fail_if zlen bytes <? 52 with error3 ErrorCode.short_input 0 52 ;; Ok (extent2 52 13)
  else if fid_eqb id Field.IndexList then
    fail_if zlen bytes <? 8 with error3 ErrorCode.short_input 0 8 ;;
    let? total := load32 bytes 0 in
    let? header := load32 bytes 4 in
    let width := Z.shiftr header 28 in
    let count := Z.land header 0xfffff in
    let? declared := checked_multiply total 4 in
    fail_if zlen bytes <? declared with error3 ErrorCode.short_input 0 declared ;;
    fail_if nonzero (Z.land header 0x0ff00000) || (negb (width =? 1) && negb (width =? 2) && negb (width =? 4)) ||
            negb (total =? 2 + (count * width + 3) / 4) with error1 ErrorCode.invalid_argument ;;
    Ok (mkExtent declared (2 + count) count 0)
  else
    let? shape := wire_record_shape id bytes binding in
    Ok (mkExtent (total_words shape * 4) (work shape) 0 (records shape)).

Record PointingReference := mkReference { ref_index : Z; ref_reference : Z; ref_beam : Z }.

Definition read_reference (bytes : list byte) (offset : Z) (global : bool) : Result PointingReference :=
  fail_if (zlen bytes <? offset) || (zlen bytes - offset <? 4) with error1 ErrorCode.short_input ;;
  let? raw := load32 bytes offset in
  fail_if nonzero (Z.land raw 0xfff0) with error1 ErrorCode.invalid_argument ;;
  let v := mkReference (wrap16 (Z.shiftr raw 16)) (wrap8 (Z.land (Z.shiftr raw 2) 3)) (wrap8 (Z.land raw 3)) in
  let? _ := validate_reference (ref_index v) (ref_reference v) (ref_beam v) global in
  Ok v.

Definition read_signed64 (bytes : list byte) (offset : Z) : Result Z :=
  let? high := load32 bytes offset in
  let? low := load32 bytes (offset + 4) in
  Ok (to_signed 64 (Z.lor (Z.shiftl high 32) low)).

Record SpectrumValue := mkSpectrum {
  spectrum_type : Z; averaging : Z; delta_kind : Z; window_type : Z; transform_points : Z; window_points : Z;
  resolution_q20 : Z; span_q20 : Z; averages : Z; weighting_raw : Z; f1_index : Z; f2_index : Z; delta_raw : Z }.

Definition validate_spectrum (v : SpectrumValue) (current : bool) : Result unit :=
  let invalid := error1 ErrorCode.invalid_argument in
  fail_if ((4 <? spectrum_type v) && (spectrum_type v <? 128)) || nonzero (Z.land (averaging v) 0xc0) || (3 <? delta_kind v) ||
          ((44 <=? window_type v) && (window_type v <? 100)) with invalid ;;
  fail_if current && ((averaging v =? 32) || (resolution_q20 v <? 0) || (span_q20 v <? 0) ||
          ((delta_kind v =? 1) && (100 * 4096 <? to_signed 32 (delta_raw v)))) with invalid ;;
  Ok tt.

Definition read_spectrum (bytes : list byte) : Result SpectrumValue :=
  fail_if negb (zlen bytes =? 52) with error1 ErrorCode.short_input ;;
  let? first := load32 bytes 0 in
  fail_if nonzero (Z.land first 0xfff00000) with error1 ErrorCode.invalid_argument ;;
  let? window_type := load32 bytes 4 in
  let? transform_points := load32 bytes 8 in
  let? window_points := load32 bytes 12 in
  let? resolution := read_signed64 bytes 16 in
  let? span := read_signed64 bytes 24 in
  let? averages := load32 bytes 32 in
  let? weighting := load32 bytes 36 in
  let? f1 := load32 bytes 40 in
  let? f2 := load32 bytes 44 in
  let? delta := load32 bytes 48 in
  let v := mkSpectrum (Z.land first 255) (Z.land (Z.shiftr first 8) 255) (Z.land (Z.shiftr first 16) 15)
             window_type transform_points window_points resolution span averages weighting
             (to_signed 32 f1) (to_signed 32 f2) delta in
  let? _ := validate_spectrum v false in
  Ok v.

(** [PointingVectorWireView] *)

Definition pointing_size (bytes : list byte) : Result Z :=
  let? shape := wire_record_shape Field.PointingVectorStructure bytes binding_default in
  fail_if negb (total_words shape * 4 =? zlen bytes) with error1 ErrorCode.invalid_argument ;;
  Ok (records shape).

Definition pointing_global (bytes : list byte) : Result (option PointingReference) :=
  let? _ := pointing_size bytes in
  let? description := load32 bytes 4 in
  if Z.shiftr description 24 =? 4 then let? ref := read_reference bytes 12 true in Ok (Some ref)
  else Ok None.

Record PointingVectorRecord := mkPointing { p_azimuth : Z; p_elevation : Z; p_reference : option PointingReference }.

Definition pointing_at (bytes : list byte) (index : Z) : Result PointingVectorRecord :=
  let? shape := wire_record_shape Field.PointingVectorStructure bytes binding_default in
  fail_if negb (total_words shape * 4 =? zlen bytes) || (records shape <=? index) with error1 ErrorCode.invalid_argument ;;
  let offset := (header_words shape + index * record_words shape) * 4 in
  let? (reference, offset) :=
    (if record_words shape =? 2
     then let? ref := read_reference bytes offset false in Ok (Some ref, offset + 4)
     else Ok (None, offset)) in
  let? angles := load32 bytes offset in
  Ok (mkPointing (wrap16 angles) (to_signed 16 (wrap16 (Z.shiftr angles 16))) reference).

(** The loop of [validate_cif1_wire] over the records. *)
Fixpoint pointing_all (bytes : list byte) (index : Z) (n : nat) : Result unit :=
  match n with
  | O => Ok tt
  | S n => let? _ := pointing_at bytes index in pointing_all bytes (index + 1) n
  end.

Definition byte_nonzero (b : byte) : bool := nonzero (Z_of_byte b).

Definition validate_cif1_wire (id : FieldId) (bytes : list byte) (binding : TimestampFormatBinding) : Result unit :=
  let? extent := cif1_wire_extent id bytes binding in
  fail_if negb (x_bytes extent =? zlen bytes) with error1 ErrorCode.invalid_argument ;;
  if fid_eqb id Field.IndexList then
    let? h := load32 bytes 4 in
    let used := wrap32 (8 + wrap32 (Z.land h 0xfffff * Z.shiftr h 28)) in
    fail_if existsb byte_nonzero (drop (Z.to_nat used) bytes) with error1 ErrorCode.invalid_argument ;;
    Ok tt
  else if fid_eqb id Field.PointingVectorStructure then
    let? _ := pointing_global bytes in
    pointing_all bytes 0 (Z.to_nat (x_records extent))
  else if fid_eqb id Field.Spectrum then
    let? _ := read_spectrum bytes in Ok tt
  else Ok tt.

(** ** The other structures *)

Definition duration_extent (binding : TimestampFormatBinding) : Result FieldExtent :=
  fail_if (3 <? b_tsi binding) || (3 <? b_tsf binding) with error1 ErrorCode.invalid_argument ;;
  fail_if negb (b_bound binding) || ((b_tsi binding =? 0) && (b_tsf binding =? 0))
    with error1 ErrorCode.unsupported_capability ;;
  let words := (if nonzero (b_tsi binding) then 1 else 0) + (if nonzero (b_tsf binding) then 2 else 0) in
  Ok (extent2 (words * 4) words).

Definition wire_structure_extent (id : FieldId) (bytes : list byte) (binding : TimestampFormatBinding) : Result FieldExtent :=
  if cif1_structure id then cif1_wire_extent id bytes binding else
  let? (size, units) :=
    (if temporal_duration_field id then
       let? extent := duration_extent binding in Ok (x_bytes extent, x_units extent)
     else if fid_eqb id Field.ControlleeUUID || fid_eqb id Field.ControllerUUID then Ok (16, 4)
     else if fid_eqb id Field.FormattedGPS || fid_eqb id Field.FormattedINS then Ok (44, 11)
     else if fid_eqb id Field.ECEFEphemeris || fid_eqb id Field.RelativeEphemeris then Ok (52, 13)
     else
       fail_if zlen bytes <? 8 with error3 ErrorCode.short_input 0 8 ;;
       let? first := load32 bytes 0 in
       let? second := load32 bytes 4 in
       if fid_eqb id Field.GPSASCII then
         fail_if nonzero (Z.land first 0xff000000) with error1 ErrorCode.invalid_argument ;;
         let? data := checked_multiply second 4 in
         let? total := checked_add data 8 in
         Ok (total, data + 2)
       else if fid_eqb id Field.ContextAssociationLists then
         fail_if nonzero (Z.land first 0xfe00fe00) with error1 ErrorCode.invalid_argument ;;
         let count := Z.land (Z.shiftr first 16) 511 + Z.land first 511 + Z.shiftr second 16 + Z.land second 32767 +
                      (if nonzero (Z.land second 0x8000) then Z.land second 32767 else 0) in
         Ok (8 + 4 * count, 2 + count)
       else Err (error1 ErrorCode.unsupported_layout)) in
  fail_if zlen bytes <? size with error3 ErrorCode.short_input 0 size ;;
  Ok (extent2 size units).

Record EmbeddedFixTime := mkFix { fix_tsi : Z; fix_tsf : Z; fix_seconds : Z; fix_fractional : Z }.

Definition read_fix (bytes : list byte) : Result EmbeddedFixTime :=
  let? header := load32 bytes 0 in
  let? seconds := load32 bytes 4 in
  let? high := load32 bytes 8 in
  let? low := load32 bytes 12 in
  Ok (mkFix (wrap8 (Z.land (Z.shiftr header 26) 3)) (wrap8 (Z.land (Z.shiftr header 24) 3)) seconds
        (Z.lor (Z.shiftl high 32) low)).

Definition validate_fix (oui_ : Z) (fix_ : EmbeddedFixTime) : Result unit :=
  fail_if (0xffffff <? oui_) || (3 <? fix_tsi fix_) || (3 <? fix_tsf fix_) ||
          ((fix_tsi fix_ =? 0) && negb (fix_seconds fix_ =? U32_MAX)) ||
          ((fix_tsf fix_ =? 0) && negb (fix_fractional fix_ =? U64_MAX)) ||
          ((fix_tsf fix_ =? 2) && (1000000000000 <=? fix_fractional fix_)) with error1 ErrorCode.invalid_argument ;;
  Ok tt.

(** The loop over the characters of a sentence and its padding. *)
Fixpoint ascii_scan (bytes : list byte) (padding : bool) (pad : Z) : Result Z :=
  match bytes with
  | [] => Ok pad
  | b :: bytes =>
      let c := Z_of_byte b in
      if c =? 0 then ascii_scan bytes true (pad + 1)
      else if padding || (127 <? c) then Err (error1 ErrorCode.invalid_argument)
      else ascii_scan bytes padding pad
  end.

Definition validate_structure_wire (id : FieldId) (bytes : list byte) (binding : TimestampFormatBinding) : Result unit :=
  if cif1_structure id then validate_cif1_wire id bytes binding else
  let? extent := wire_structure_extent id bytes binding in
  fail_if negb (x_bytes extent =? zlen bytes) with error1 ErrorCode.invalid_argument ;;
  if (cif id =? 0) && (11 <=? fbit id) && (fbit id <=? 14) then
    let? first := load32 bytes 0 in
    fail_if nonzero (Z.land first 0xf0000000) with error1 ErrorCode.invalid_argument ;;
    let? fix_ := read_fix bytes in
    validate_fix (Z.land first 0xffffff) fix_
  else if fid_eqb id Field.GPSASCII then
    let? text := subspan_from bytes 8 in
    let? pad := ascii_scan text false 0 in
    fail_if 3 <? pad with error1 ErrorCode.invalid_argument ;;
    Ok tt
  else Ok tt.

(** ** Safety *)

Lemma load32_ok bytes offset : 0 <= offset -> offset + 4 <= zlen bytes -> exists w, load32 bytes offset = Ok w /\ u32 w.
Proof. intros H1 H2. destruct (load32_in_bounds bytes offset H1 H2) as [w E]. exists w. split; [done|]. by apply load32_at_words in E as [_ ?]. Qed.

Lemma load32_safe bytes offset : 0 <= offset -> offset + 4 <= zlen bytes -> safe (load32 bytes offset).
Proof. intros H1 H2. destruct (load32_ok bytes offset H1 H2) as (w & -> & _). done. Qed.

(** [safe_steps]: safety of a chain of monadic steps, down to the leaves. *)
Ltac safe_steps :=
  repeat first
    [ progress cbn [rbind]
    | done
    | match goal with
      | |- safe (if ?c then _ else _) => let E := fresh "E" in destruct c eqn:E
      | |- safe (rbind (load32 ?b ?o) _) =>
          let w := fresh "w" in let Hw := fresh "Hw" in let E := fresh "Eload" in
          destruct (load32_ok b o) as (w & E & Hw); [lia|lia|rewrite E]
      | |- safe (rbind _ _) => apply rbind_safe; [|intros ? ?]
      | |- safe (match ?p with (_, _) => _ end) => destruct p
      end ].

Lemma checked_multiply_safe a b : safe (checked_multiply a b).
Proof. unfold checked_multiply. by destruct (_ && _). Qed.
Lemma checked_add_safe a b : safe (checked_add a b).
Proof. unfold checked_add. by destruct (_ <? _). Qed.
#[export] Hint Resolve checked_multiply_safe checked_add_safe : vrt.

Lemma sector_words_spec selectors binding widths i words w :
  Forall (Z.le 0) widths -> sector_words selectors binding widths i words = Ok w -> words <= w.
Proof.
  revert i words. induction widths as [|x widths IH]; intros i words Hf H; cbn [sector_words] in H; [injection H as <-; lia|].
  apply list.Forall_cons in Hf as [Hx Hf]. destruct (bit_set selectors (29 - i)); [|by apply IH in H].
  destruct (i =? 7); [|apply IH in H; (done || lia)]. inv_ok. apply IH in H; [|done].
  destruct (nonzero (b_tsi binding)), (nonzero (b_tsf binding)); lia.
Qed.

Lemma sector_words_safe selectors binding widths i words : safe (sector_words selectors binding widths i words).
Proof.
  revert i words. induction widths as [|x widths IH]; intros i words; cbn [sector_words]; [done|].
  destruct (bit_set selectors (29 - i)); [|apply IH]. destruct (i =? 7); [|apply IH].
  destruct (_ || _); [done|]. destruct (_ || _); [done|]. apply IH.
Qed.

(** The arithmetic of an accepted shape. *)
Record shape_ok (s : RecordShape) (n : Z) : Prop := mk_shape_ok {
  shape_header : 3 <= header_words s <= 4;
  shape_record : 1 <= record_words s;
  shape_records : records s = n;
  shape_total : total_words s = header_words s + record_words s * records s;
  shape_work : work s = total_words s
}.

Lemma pointing_shape_ok g r n s : pointing_shape g r n = Ok s -> shape_ok s n /\ (header_words s = 4 <-> g = true) /\ header_code s = header_words s.
Proof. unfold pointing_shape. intros H. inv_ok. split; [|by destruct g]. split; cbn; destruct g, r; lia. Qed.

Lemma sector_shape_ok sel n b s : sector_shape sel n b = Ok s -> shape_ok s n.
Proof.
  unfold sector_shape. intros H. inv_ok.
  match goal with H : sector_words _ _ _ _ _ = Ok _ |- _ => apply sector_words_spec in H; [|repeat constructor; lia] end.
  split; cbn; lia.
Qed.

Lemma shape_safe g r n : safe (pointing_shape g r n).
Proof. unfold pointing_shape. by destruct (_ <? _). Qed.
Lemma sector_safe sel n b : safe (sector_shape sel n b).
Proof.
  unfold sector_shape. destruct (_ || _); [done|]. apply rbind_safe; [apply sector_words_safe|done].
Qed.

Lemma wire_record_shape_safe id bytes b : safe (wire_record_shape id bytes b).
Proof.
  unfold wire_record_shape. cbv zeta. destruct (Z.ltb_spec (zlen bytes) 12); [done|]. safe_steps; auto using checked_multiply_safe, shape_safe, sector_safe.
Qed.

Lemma wire_record_shape_ok id bytes b s : wire_record_shape id bytes b = Ok s ->
  shape_ok s (records s) /\ 0 <= records s /\ 12 <= zlen bytes /\ total_words s * 4 <= zlen bytes /\
  (fid_eqb id Field.PointingVectorStructure = true ->
    exists d, load32 bytes 4 = Ok d /\ header_words s = Z.shiftr d 24).
Proof.
  unfold wire_record_shape. cbv zeta. intros H. inv_ok. apply Z.ltb_ge in E, E0.
  apply orb_false_iff in E2 as [[E2 _]%orb_false_iff E3]. apply negb_false_iff, Z.eqb_eq in E2, E3.
  match goal with H : checked_multiply _ _ = Ok _ |- _ => unfold checked_multiply in H; inv_ok end.
  match goal with H : load32 bytes 4 = Ok ?d |- _ => rename d into description; rename H into Hd end.
  assert (0 <= Z.land description 4095) by (apply Z.land_nonneg; right; lia).
  destruct (fid_eqb id Field.PointingVectorStructure).
  - inv_ok. match goal with H : pointing_shape _ _ _ = Ok _ |- _ => destruct (pointing_shape_ok _ _ _ _ H) as (Hs & _ & Hc) end.
    destruct Hs as [? ? Hr ? ?]. split_and!; [by split|lia|done|lia|]. intros _. exists description. split; [done|]. lia.
  - destruct (fid_eqb id Field.SectorStepScan); [|done]. inv_ok.
    match goal with H : sector_shape _ _ _ = Ok _ |- _ => destruct (sector_shape_ok _ _ _ _ H) as [? ? Hr ? ?] end.
    split_and!; [by split|lia|done|lia|done].
Qed.

Lemma load32_u32 bytes offset w : load32 bytes offset = Ok w -> u32 w.
Proof. by intros [_ ?]%load32_at_words. Qed.

Lemma cif1_wire_extent_safe id bytes b : safe (cif1_wire_extent id bytes b).
Proof.
  unfold cif1_wire_extent. destruct (fid_eqb id Field.Spectrum); [by destruct (_ <? _)|].
  destruct (fid_eqb id Field.IndexList).
  - destruct (Z.ltb_spec (zlen bytes) 8); [done|]. safe_steps; auto with vrt.
  - apply rbind_safe; [apply wire_record_shape_safe|done].
Qed.

(** An extent never leaves the bytes it was measured on. *)
Lemma cif1_wire_extent_ok id bytes b x : cif1_wire_extent id bytes b = Ok x ->
  0 <= x_bytes x <= zlen bytes /\ 0 <= x_units x /\ 0 <= x_records x.
Proof.
  unfold cif1_wire_extent. destruct (fid_eqb id Field.Spectrum).
  { intros H. inv_ok. apply Z.ltb_ge in E. cbn. lia. }
  destruct (fid_eqb id Field.IndexList); intros H; inv_ok.
  - apply Z.ltb_ge in E, E0.
    match goal with H : checked_multiply _ _ = Ok _ |- _ => unfold checked_multiply in H; inv_ok end.
    match goal with H : load32 bytes 0 = Ok _ |- _ => apply load32_u32 in H end.
    match goal with H : load32 bytes 4 = Ok ?h |- _ => assert (0 <= Z.land h 0xfffff) by (apply Z.land_nonneg; right; lia) end.
    cbn. zlia.
  - match goal with H : wire_record_shape _ _ _ = Ok _ |- _ => destruct (wire_record_shape_ok _ _ _ _ H) as ([] & ? & ? & ? & _) end.
    cbn. nia.
Qed.

Lemma duration_extent_safe b : safe (duration_extent b).
Proof. unfold duration_extent. safe_steps. Qed.

Lemma wire_structure_extent_safe id bytes b : safe (wire_structure_extent id bytes b).
Proof.
  unfold wire_structure_extent. destruct (cif1_structure id); [apply cif1_wire_extent_safe|].
  apply rbind_safe; [|intros [size units] _; by destruct (_ <? _)].
  destruct (temporal_duration_field id); [apply rbind_safe; [apply duration_extent_safe|done]|].
  destruct (_ || _); [done|]. destruct (_ || _); [done|]. destruct (_ || _); [done|].
  destruct (Z.ltb_spec (zlen bytes) 8); [done|]. safe_steps; auto with vrt.
Qed.

Lemma wire_structure_extent_ok id bytes b x : wire_structure_extent id bytes b = Ok x ->
  0 <= x_bytes x <= zlen bytes /\ 0 <= x_units x /\ 0 <= x_records x.
Proof.
  unfold wire_structure_extent. destruct (cif1_structure id); [apply cif1_wire_extent_ok|]. intros H. inv_ok.
  apply Z.ltb_ge in E. cbn [extent2 x_bytes x_units x_records].
  assert (0 <= z /\ 0 <= z0); [|lia]. clear E.
  destruct (temporal_duration_field id).
  { unfold duration_extent in *. inv_ok. cbn. destruct (nonzero (b_tsi b)), (nonzero (b_tsf b)); lia. }
  destruct (_ || _); [inv_ok; lia|]. destruct (_ || _); [inv_ok; lia|]. destruct (_ || _); [inv_ok; lia|].
  inv_ok. repeat match goal with H : load32 bytes _ = Ok _ |- _ => apply load32_u32 in H end.
  destruct (fid_eqb id Field.GPSASCII).
  - inv_ok. unfold checked_multiply, checked_add in *. inv_ok. zlia.
  - destruct (fid_eqb id Field.ContextAssociationLists); [|done]. inv_ok.
    assert (Hl : forall w m, 0 <= m -> 0 <= Z.land w m) by (intros; apply Z.land_nonneg; by right).
    assert (Hs : forall w, u32 w -> 0 <= Z.shiftr w 16) by (intros; apply Z.shiftr_nonneg; zlia).
    match goal with |- context [Z.land (Z.shiftr ?f 16) 511 + Z.land ?f 511 + Z.shiftr ?s 16 + _ + _] =>
      pose proof (Hl (Z.shiftr f 16) 511 ltac:(lia)); pose proof (Hl f 511 ltac:(lia));
      pose proof (Hl s 32767 ltac:(lia)); pose proof (Hs s ltac:(done)) end.
    test_goal En; lia.
Qed.

Lemma validate_reference_safe i r b g : safe (validate_reference i r b g).
Proof. unfold validate_reference. by destruct (_ || _). Qed.

Lemma read_reference_safe bytes offset g : 0 <= offset -> safe (read_reference bytes offset g).
Proof.
  intros Ho. unfold read_reference. destruct (Z.ltb_spec (zlen bytes) offset); [done|]. cbn [orb].
  destruct (Z.ltb_spec (zlen bytes - offset) 4); [done|]. cbv zeta. safe_steps. apply validate_reference_safe.
Qed.

Lemma read_reference_bounds bytes offset g r : 0 <= offset -> read_reference bytes offset g = Ok r -> offset + 4 <= zlen bytes.
Proof. intros Ho H. unfold read_reference in H. cbv zeta in H. inv_ok. apply orb_false_iff in E as [? E]. apply Z.ltb_ge in E. lia. Qed.

Lemma read_signed64_safe bytes offset : 0 <= offset -> offset + 8 <= zlen bytes -> safe (read_signed64 bytes offset).
Proof. intros. unfold read_signed64. safe_steps. Qed.

Lemma validate_spectrum_safe v c : safe (validate_spectrum v c).
Proof. unfold validate_spectrum. cbv zeta. safe_steps. Qed.

Lemma read_spectrum_safe bytes : safe (read_spectrum bytes).
Proof.
  unfold read_spectrum. destruct (Z.eqb_spec (zlen bytes) 52); [|done]. cbv zeta. cbn [negb].
  safe_steps; first [apply read_signed64_safe; lia|apply validate_spectrum_safe].
Qed.

Lemma pointing_size_safe bytes : safe (pointing_size bytes).
Proof. unfold pointing_size. apply rbind_safe; [apply wire_record_shape_safe|]. intros. by destruct (negb _). Qed.

Lemma pointing_global_safe bytes : safe (pointing_global bytes).
Proof.
  unfold pointing_global. apply rbind_safe; [apply pointing_size_safe|]. intros n Hn. unfold pointing_size in Hn. inv_ok.
  match goal with H : wire_record_shape _ _ _ = Ok _ |- _ => destruct (wire_record_shape_ok _ _ _ _ H) as (_ & _ & ? & _ & _) end.
  safe_steps. apply read_reference_safe. lia.
Qed.

Lemma pointing_at_safe bytes index : 0 <= index -> safe (pointing_at bytes index).
Proof.
  intros Hi. unfold pointing_at. apply rbind_safe; [apply wire_record_shape_safe|]. intros s Hs.
  destruct (wire_record_shape_ok _ _ _ _ Hs) as ([Hh Hr _ Ht _] & _ & _ & Hz & _).
  destruct (Z.eqb_spec (total_words s * 4) (zlen bytes)) as [Hb|]; [|done]. cbn [negb orb].
  destruct (Z.leb_spec (records s) index); [done|]. cbv zeta.
  assert (Hlast : (header_words s + index * record_words s + record_words s) * 4 <= zlen bytes) by nia.
  destruct (Z.eqb_spec (record_words s) 2) as [E2|]; cbn [rbind].
  - apply rbind_safe.
    + apply rbind_safe; [apply read_reference_safe; nia|done].
    + intros [ref offset] Hro. inv_ok. safe_steps.
  - safe_steps.
Qed.

Lemma pointing_all_safe bytes index n : 0 <= index -> safe (pointing_all bytes index n).
Proof.
  revert index. induction n as [|n IH]; intros index Hi; cbn [pointing_all]; [done|].
  apply rbind_safe; [by apply pointing_at_safe|]. intros. apply IH. lia.
Qed.

Lemma validate_cif1_wire_safe id bytes b : safe (validate_cif1_wire id bytes b).
Proof.
  unfold validate_cif1_wire. apply rbind_safe; [apply cif1_wire_extent_safe|]. intros x Hx.
  test_goal Eb; [done|]. destruct (fid_eqb id Field.IndexList) eqn:Ei.
  - assert (8 <= zlen bytes).
    { unfold cif1_wire_extent in Hx. rewrite Ei in Hx. destruct (fid_eqb id Field.Spectrum); inv_ok; apply Z.ltb_ge in E; lia. }
    safe_steps.
  - destruct (fid_eqb id Field.PointingVectorStructure); [apply rbind_safe; [apply pointing_global_safe|intros; by apply pointing_all_safe]|].
    destruct (fid_eqb id Field.Spectrum); [|done]. apply rbind_safe; [apply read_spectrum_safe|done].
Qed.

Lemma ascii_scan_safe bytes padding pad : safe (ascii_scan bytes padding pad).
Proof.
  revert padding pad. induction bytes as [|b bytes IH]; intros padding pad; cbn [ascii_scan]; [done|]. cbv zeta.
  destruct (_ =? 0); [apply IH|]. destruct (_ || _); [done|apply IH].
Qed.

(** Validating a structured field reads only the field's own bytes, whatever they are. *)
Lemma validate_structure_wire_safe id bytes b : safe (validate_structure_wire id bytes b).
Proof.
  unfold validate_structure_wire. destruct (cif1_structure id) eqn:Ec; [apply validate_cif1_wire_safe|].
  apply rbind_safe; [apply wire_structure_extent_safe|]. intros x Hx.
  destruct (Z.eqb_spec (x_bytes x) (zlen bytes)) as [Eb|]; [|done]. cbn [negb].
  test_goal Egeo.
  - assert (44 <= zlen bytes).
    { rewrite <- Eb. unfold wire_structure_extent in Hx. rewrite Ec in Hx. inv_ok. cbn [extent2 x_bytes].
      apply andb_true_iff in Egeo as [[Hc Hlo]%andb_true_iff Hhi]. apply Z.eqb_eq in Hc. apply Z.leb_le in Hlo, Hhi.
      assert (fbit id = 11 \/ fbit id = 12 \/ fbit id = 13 \/ fbit id = 14) as Hb by lia.
      destruct id as [c f]. cbn in Hc, Hb. subst c. destruct Hb as [->|[->|[->| ->]]]; cbn in *; inv_ok; lia. }
    safe_steps. 
    + unfold read_fix. safe_steps.
    + unfold validate_fix. by destruct (_ || _).
  - destruct (fid_eqb id Field.GPSASCII) eqn:Eg; [|done]. apply fid_eqb_eq in Eg. subst id.
    assert (8 <= zlen bytes).
    { unfold wire_structure_extent in Hx. cbn -[zlen load32] in Hx. inv_ok. apply Z.ltb_ge in E0. lia. }
    unfold subspan_from. rewrite (proj2 (Z.ltb_ge (zlen bytes) 8)) by lia. change (8 <? 0) with false. cbn [orb rbind].
    apply rbind_safe; [apply ascii_scan_safe|]. intros. by destruct (_ <? _).
Qed.
