(* ===== verification/Packet.v ===== *)
(** * Packet decoding: [include/vita/codec/packet.hpp] and the layout walk of
      [include/vita/codec/layout.hpp]

    From the bytes of a packet to the views of its fields: the indicator words, the walk
    over the selected fields and attributes, the validation of each field, and the
    packet kinds. *)

From S2P Require Import Prelude Wire WireProofs Fields Scalar Structured.

Module BodyKind.
Inductive t := values | selectors | diagnostics.
#[global] Instance t_eq_dec : EqDecision t.
Proof. solve_decision. Defined.
End BodyKind.

Module DiagnosticGroup.
Inductive t := none | warning | error.
#[global] Instance t_eq_dec : EqDecision t.
Proof. solve_decision. Defined.
End DiagnosticGroup.

Record TraversalLimits := mkLimits { association_entries : Z; work_units : Z; index_entries : Z; limit_records : Z }.
Definition limits_default : TraversalLimits := mkLimits 1024 4096 1024 256.

Record DecodeOptions := mkOptions { opt_request : option Z; opt_expected_class : option ClassId; opt_limits : TraversalLimits }.
Definition options_default : DecodeOptions := mkOptions None None limits_default.

(** ** Wire validation of a scalar *)

(** [load32(bytes,offset)&mask] as a condition. *)
Definition masked (bytes : list byte) (offset mask : Z) : Result bool :=
  let? w := load32 bytes offset in Ok (nonzero (Z.land w mask)).

Definition reject_if (c : bool) (test : Result bool) : Result unit :=
  if c then let? b := test in (if b then Err (error1 ErrorCode.invalid_argument) else Ok tt) else Ok tt.

Definition payload_format_invalid (word : Z) : bool :=
  let code := Z.land (Z.shiftr word 24) 31 in
  let kind := Z.land (Z.shiftr word 29) 3 in
  let fraction := Z.land (Z.shiftr word 12) 15 in
  let packing := Z.land (Z.shiftr word 6) 63 + 1 in
  let bits := Z.land word 63 + 1 in
  (kind =? 3) || ((8 <=? code) && (code <=? 12)) || (24 <=? code) || (packing <? bits) ||
  ((negb (code =? 7) && negb (code =? 23)) && nonzero fraction) || (bits <=? fraction) ||
  ((code =? 13) && negb (bits =? 16)) || ((code =? 14) && negb (bits =? 32)) || ((code =? 15) && negb (bits =? 64)).

Definition validate_wire_value (id : FieldId) (bytes : list byte) : Result unit :=
  let is_ f := fid_eqb id f in
  let? _ := reject_if (is_ Field.AirTemperature || is_ Field.SeaGroundTemperature || is_ Field.Humidity ||
                       is_ Field.SeaSwellState || is_ Field.TroposphericState) (masked bytes 0 0xffff0000) in
  let? _ := reject_if (is_ Field.BarometricPressure) (masked bytes 0 0xfffe0000) in
  let? _ := reject_if (is_ Field.TimestampDetails) (masked bytes 0 0x00f80000) in
  let? _ := reject_if (cif2_generic16_field id) (masked bytes 0 0xffff0000) in
  let? _ := reject_if (is_ Field.Bind) (masked bytes 0 0xfffffffe) in
  let? _ := reject_if (is_ Field.CountryCode) (masked bytes 0 0xffff7800) in
  let? _ := reject_if (is_ Field.EmsDeviceClass)
    (let? w := load32 bytes 0 in Ok (nonzero (Z.land w 0xffff0000) || (Z.land w 0xc000 =? 0xc000))) in
  let? _ := reject_if (is_ Field.PhaseOffset || is_ Field.CompressionPoint || is_ Field.SpatialScanType || is_ Field.HealthStatus)
    (masked bytes 0 0xffff0000) in
  let? _ := reject_if (is_ Field.SpatialReferenceType)
    (let? w := load32 bytes 0 in Ok (nonzero (Z.land w 0x0000fff0) || (Z.land w 3 =? 3))) in
  let? _ := reject_if (is_ Field.BufferSize) (masked bytes 4 0xffff0000) in
  let? _ := reject_if (is_ Field.ReferenceLevel || is_ Field.Temperature) (masked bytes 0 0xffff0000) in
  let? _ := reject_if (is_ Field.DeviceIdentifier)
    (let? w := load32 bytes 0 in
     if nonzero (Z.land w 0xff000000) then Ok true else masked bytes 4 0xffff0000) in
  let? _ := reject_if (is_ Field.StateEvent) (masked bytes 0 0x00f00f00) in
  reject_if (is_ Field.DataPayloadFormat) (let? word := load32 bytes 0 in Ok (payload_format_invalid word)).

Definition validate_wire_attribute (id : FieldId) (attribute : Z) (bytes : list byte) (binding : TimestampFormatBinding) : Result unit :=
  if negb (base_attribute attribute) then
    let? d := deref (descriptor id) in
    let? _ := read_attribute_scalar d attribute bytes in Ok tt
  else if structured_field id then validate_structure_wire id bytes binding
  else validate_wire_value id bytes.

(** ** Field and packet views *)

Record FieldView := mkView {
  fv_id : FieldId; fv_attribute : Z; fv_kind : BodyKind.t; fv_group : DiagnosticGroup.t;
  fv_bytes : list byte; fv_binding : TimestampFormatBinding }.

Definition view_value (v : FieldView) : Result SemanticValue :=
  fail_if negb (bool_decide (fv_kind v = BodyKind.values)) || (13 <=? fv_attribute v) with error1 ErrorCode.invalid_state ;;
  match descriptor (fv_id v) with
  | None => Err (error1 ErrorCode.unsupported_layout)
  | Some d =>
      fail_if base_attribute (fv_attribute v) && structured_field (fv_id v) with error1 ErrorCode.unsupported_capability ;;
      read_attribute_scalar d (fv_attribute v) (fv_bytes v)
  end.

Definition view_diagnostic (v : FieldView) : Result Z :=
  fail_if negb (bool_decide (fv_kind v = BodyKind.diagnostics)) || negb (zlen (fv_bytes v) =? 4) with error1 ErrorCode.invalid_state ;;
  load32 (fv_bytes v) 0.

Record PacketView := mkPacketView {
  pv_envelope : EnvelopeView; pv_fields : list FieldView; pv_body_kind : BodyKind.t;
  pv_opaque : bool; pv_change : bool; pv_requires_request_context : bool }.

Definition placeholder (id : FieldId) : Result SemanticValue :=
  match descriptor id with
  | None => Ok (v_uint32 0)
  | Some d =>
      if structured_field id then Ok (v_uint32 0)
      else let? bytes := subspan (replicate 8 x00) 0 (d_words d * 4) in
           match read_scalar d bytes with Ok v => Ok v | _ => UB end
  end.

(** ** Indicator words *)

Record IndicatorPlan := mkPlan { plan_cif : list Z; plan_attributes : Z; plan_fields : list FieldId; plan_bytes : Z; plan_change : bool }.

(** The words [1..7] present in the first: the loop of [take] calls. *)
Fixpoint take_cifs (data : list byte) (first : Z) (indices : list Z) (offset : Z) : Result (list Z * Z) :=
  match indices with
  | [] => Ok ([], offset)
  | i :: indices =>
      if bit_set first i then
        let (w, offset) := take_word data (zlen data) offset in
        let? w := w in
        let? (rest, offset) := take_cifs data first indices offset in
        Ok (w :: rest, offset)
      else
        let? (rest, offset) := take_cifs data first indices offset in
        Ok (0 :: rest, offset)
  end.

Definition bits_down : list Z := [31;30;29;28;27;26;25;24;23;22;21;20;19;18;17;16;15;14;13;12;11;10;9;8;7;6;5;4;3;2;1;0].

(** The fields of one indicator word, from bit 31 down. *)
Definition word_fields (i bits : Z) : list FieldId :=
  (fun bit => mkField i bit) <$> filter (fun bit => bit_set bits bit = true) bits_down.

(** The checks of the selection loop. *)
Fixpoint select_fields (Capacity : nat) (start : Z) (ids selected : list FieldId) : Result (list FieldId) :=
  match ids with
  | [] => Ok selected
  | id :: ids =>
      fail_if is_none (descriptor id) with error2 ErrorCode.unsupported_layout start ;;
      fail_if (length selected =? Capacity)%nat with error2 ErrorCode.resource_limit start ;;
      select_fields Capacity start ids (selected ++ [id])
  end.

(** [aggregate] counts the fields selected by the packet so far. *)
Definition parse_indicators (Capacity : nat) (data : list byte) (offset : Z) (allow_change : bool) (aggregate : Z)
  : Result (IndicatorPlan * Z) :=
  let start := offset in
  let (first, offset) := take_word data (zlen data) offset in
  let? first := first in
  fail_if nonzero (Z.land first 0x71) || (negb allow_change && bit_set first 31) with error2 ErrorCode.invalid_argument start ;;
  let? (words, offset) := take_cifs data first [1; 2; 3; 4; 5; 6; 7] offset in
  let cif := first :: words in
  let bytes := offset - start in
  let? attributes :=
    (if bit_set first 7 then
       let? w := deref (cif !! 7%nat) in
       fail_if (w =? 0) || nonzero (Z.land w (Z.lnot all_attributes)) with error2 ErrorCode.invalid_argument start ;;
       Ok w
     else Ok 0) in
  let word i := default 0 (cif !! i) in
  let? selected := select_fields Capacity start
    (word_fields 0 (Z.land first 0x7fffff00) ++ word_fields 1 (word 1%nat) ++ word_fields 2 (word 2%nat) ++ word_fields 3 (word 3%nat)) [] in
  fail_if (bit_set first 1 && (word 1%nat =? 0)) || (bit_set first 2 && (word 2%nat =? 0)) || (bit_set first 3 && (word 3%nat =? 0))
    with error2 ErrorCode.unsupported_layout start ;;
  fail_if (Z.of_nat Capacity <? aggregate) || (Z.of_nat Capacity - aggregate <? zlen selected)
    with error2 ErrorCode.resource_limit start ;;
  Ok (mkPlan cif attributes selected bytes (bit_set first 31), aggregate + zlen selected).

Definition validate_diagnostic_bits (bits : Z) (cancel : bool) : Result unit :=
  fail_if nonzero (Z.land bits 0x0007e001) with error1 ErrorCode.invalid_argument ;;
  fail_if cancel && nonzero (Z.land bits 0x1ff80000) with error1 ErrorCode.invalid_argument ;;
  Ok tt.

(** ** The layout walk *)

Record LayoutElement := mkElement { el_field : FieldId; el_attribute : Z; el_offset : Z; el_bytes : Z }.

Section walk.
(** The fields of a packet are elements that have an identifier: plain identifiers when the
    packet is on the wire, entries with their values when it is a snapshot. *)
Context (Body : BodyKind.t) (visit_selectors : bool) {F S : Type} (fid : F -> FieldId).
Context (provider : F -> Z -> Z -> Result FieldExtent) (visitor : LayoutElement -> S -> Result S).
Context (limits : TraversalLimits).

(** One attribute of one field: the extent, the limits, the visit, the next offset and work. *)
Definition walk_attribute (field : F) (attribute offset work : Z) (s : S) : Result (Z * Z * S) :=
  let? extent :=
    match Body with
    | BodyKind.values => provider field attribute offset
    | BodyKind.selectors => Ok (extent2 0 1)
    | BodyKind.diagnostics => Ok (extent2 4 1)
    end in
  let? next := checked_add offset (x_bytes extent) in
  let limit := error2 ErrorCode.resource_limit offset in
  fail_if fid_eqb (fid field) Field.ContextAssociationLists && bool_decide (Body = BodyKind.values) && base_attribute attribute &&
          (association_entries limits <? wrap64 (x_units extent - 2)) with limit ;;
  fail_if (index_entries limits <? x_index_entries extent) || (limit_records limits <? x_records extent) with limit ;;
  fail_if (work_units limits <? work) || (work_units limits - work <? x_units extent) with limit ;;
  let? s := (if negb (bool_decide (Body = BodyKind.selectors)) || visit_selectors
             then visitor (mkElement (fid field) attribute offset (x_bytes extent)) s else Ok s) in
  Ok (next, work + x_units extent, s).

Fixpoint walk_attributes (field : F) (attributes : list Z) (offset work : Z) (s : S) : Result (Z * Z * S) :=
  match attributes with
  | [] => Ok (offset, work, s)
  | a :: attributes =>
      let? (ow, s) := walk_attribute field a offset work s in
      walk_attributes field attributes ow.1 ow.2 s
  end.

Definition attribute_list (attributes : Z) : list Z :=
  filter (fun i => nonzero (Z.land attributes (attribute_bit i)) = true) [0;1;2;3;4;5;6;7;8;9;10;11;12].

Fixpoint walk_fields (attributes : Z) (fields : list F) (offset work : Z) (s : S) : Result (Z * Z * S) :=
  match fields with
  | [] => Ok (offset, work, s)
  | field :: fields =>
      match descriptor (fid field) with
      | None => Err (error2 ErrorCode.unsupported_layout offset)
      | Some d =>
          let attributes' := if nonzero attributes then attributes else attribute_bit Attribute.current in
          fail_if nonzero (Z.land attributes' (Z.lnot (d_attributes d))) with error2 ErrorCode.unsupported_layout offset ;;
          let? (ow, s) := walk_attributes field (attribute_list attributes') offset work s in
          walk_fields attributes fields ow.1 ow.2 s
      end
  end.

(** The number of indicator words of a layout. *)
Definition layout_words (cif0 : Z) : Z :=
  1 + zlen (filter (fun i => bit_set cif0 i = true) [1; 2; 3; 4; 5; 6; 7]).

Definition walk_field_layout (cif0 attributes : Z) (fields : list F) (start_offset shared_work : Z) (s : S)
  : Result (Z * Z * S) :=
  let? head := checked_add start_offset (layout_words cif0 * 4) in
  let? (ow, s) := walk_fields attributes fields head shared_work s in
  Ok (ow.1 - start_offset, ow.2, s).
End walk.

(** ** Appending the fields of a body to a packet *)

Definition VIEW_CAPACITY : nat := 64.

Definition push_view (v : FieldView) (fields : list FieldView) : Result (list FieldView) :=
  fail_if (length fields =? VIEW_CAPACITY)%nat with error1 ErrorCode.resource_limit ;;
  Ok (fields ++ [v]).

Section append.
Context (K : BodyKind.t) (payload : list byte) (binding : TimestampFormatBinding) (cancelled : bool).
Context (group : DiagnosticGroup.t) (values_offset own_header : Z).

Definition wire_offset (offset : Z) : Result Z := checked_add values_offset (wrap64 (offset - own_header)).

Definition wire_provider (field : FieldId) (attribute offset : Z) : Result FieldExtent :=
  let? at_ := wire_offset offset in
  fail_if zlen payload <? at_ with error2 ErrorCode.short_input at_ ;;
  if base_attribute attribute && structured_field field then
    let? rest := subspan_from payload at_ in wire_structure_extent field rest binding
  else
    let? size := (if base_attribute attribute then let? d := deref (descriptor field) in Ok (d_words d * 4) else Ok 4) in
    fail_if zlen payload - at_ <? size with error3 ErrorCode.short_input at_ (wrap64 (at_ + size)) ;;
    Ok (extent2 size 1).

Definition append_visitor (e : LayoutElement) (fields : list FieldView) : Result (list FieldView) :=
  let? offset := wire_offset (el_offset e) in
  fail_if (zlen payload <? offset) || (zlen payload - offset <? el_bytes e)
    with error3 ErrorCode.short_input offset (wrap64 (offset + el_bytes e)) ;;
  let? _ := match K with
            | BodyKind.diagnostics => let? bits := load32 payload offset in validate_diagnostic_bits bits cancelled
            | BodyKind.values =>
                let? bytes := subspan payload offset (el_bytes e) in
                validate_wire_attribute (el_field e) (el_attribute e) bytes binding
            | BodyKind.selectors => Ok tt
            end in
  let? bytes := subspan payload offset (el_bytes e) in
  push_view (mkView (el_field e) (el_attribute e) K group bytes binding) fields.
End append.

Definition append_fields (K : BodyKind.t) (packet : PacketView) (plan : IndicatorPlan) (values_offset : Z)
    (group : DiagnosticGroup.t) (limits : TraversalLimits) (work : Z) : Result (PacketView * Z * Z) :=
  let payload := ev_payload (pv_envelope packet) in
  let env := ev_envelope (pv_envelope packet) in
  let binding := mkBinding (wrap8 (tsi (timestamp env))) (wrap8 (tsf (timestamp env))) true in
  let own_header := plan_bytes plan in
  let? cif0 := deref (plan_cif plan !! 0%nat) in
  let? (bw, fields) := walk_field_layout K false (fun f => f)
    (wire_provider payload binding values_offset own_header)
    (append_visitor K payload binding (cancel env) group values_offset own_header)
    limits cif0 (plan_attributes plan) (plan_fields plan) 0 work (pv_fields packet) in
  Ok (mkPacketView (pv_envelope packet) fields (pv_body_kind packet) (pv_opaque packet) (pv_change packet)
        (pv_requires_request_context packet),
      wrap64 (bw.1 - own_header), bw.2).

(** ** Decoding a packet *)

Definition set_body (p : PacketView) (k : BodyKind.t) (change : bool) : PacketView :=
  mkPacketView (pv_envelope p) (pv_fields p) k (pv_opaque p) change (pv_requires_request_context p).
Definition set_opaque (p : PacketView) (requires : bool) : PacketView :=
  mkPacketView (pv_envelope p) (pv_fields p) (pv_body_kind p) true (pv_change p) requires.

Definition FIELD_CAPACITY : nat := 16.

Definition decode_context (packet : PacketView) (limits : TraversalLimits) : Result PacketView :=
  let payload := ev_payload (pv_envelope packet) in
  let? (plan, _) := parse_indicators FIELD_CAPACITY payload 0 true 0 in
  let packet := set_body packet BodyKind.values (plan_change plan) in
  let? (ps, _) := append_fields BodyKind.values packet plan (plan_bytes plan) DiagnosticGroup.none limits 0 in
  let total := wrap64 (plan_bytes plan + ps.2) in
  fail_if negb (total =? zlen payload) with error2 ErrorCode.invalid_argument total ;;
  Ok ps.1.

Definition selector_visitor (e : LayoutElement) (fields : list FieldView) : Result (list FieldView) :=
  push_view (mkView (el_field e) (el_attribute e) BodyKind.selectors DiagnosticGroup.none [] binding_default) fields.

(** A control, query, cancellation or state acknowledgement. *)
Definition decode_body (packet : PacketView) (cam_ : Z) (limits : TraversalLimits) : Result PacketView :=
  let e := ev_envelope (pv_envelope packet) in
  let payload := ev_payload (pv_envelope packet) in
  let is_selectors := negb (ack e) && (cancel e || (Z.land (Z.shiftr cam_ 23) 3 =? 0)) in
  let allow_change := negb (ack e) && negb (cancel e) in
  let? (plan, _) := parse_indicators FIELD_CAPACITY payload 0 allow_change 0 in
  let? (packet, body) :=
    (if is_selectors then
       let packet := set_body packet BodyKind.selectors (plan_change plan) in
       let? cif0 := deref (plan_cif plan !! 0%nat) in
       let? (_, fields) := walk_field_layout BodyKind.selectors true (fun f => f) (fun _ _ _ => Ok extent_default) selector_visitor
         limits cif0 (plan_attributes plan) (plan_fields plan) 0 0 (pv_fields packet) in
       Ok (mkPacketView (pv_envelope packet) fields (pv_body_kind packet) (pv_opaque packet) (pv_change packet)
             (pv_requires_request_context packet), 0)
     else
       let packet := set_body packet (pv_body_kind packet) (plan_change plan) in
       let? (ps, _) := append_fields BodyKind.values packet plan (plan_bytes plan) DiagnosticGroup.none limits 0 in
       Ok (ps.1, ps.2)) in
  let total := wrap64 (plan_bytes plan + body) in
  fail_if negb (total =? zlen payload) with error2 ErrorCode.invalid_argument total ;;
  Ok packet.

(** A validation or execution acknowledgement: warning and error groups. *)
Definition decode_diagnostics (packet : PacketView) (cam_ : Z) (options : DecodeOptions) : Result PacketView :=
  let payload := ev_payload (pv_envelope packet) in
  let packet := set_body packet BodyKind.diagnostics (pv_change packet) in
  let warning := bit_set cam_ 17 in
  let error := bit_set cam_ 16 in
  if (warning || error) && is_none (opt_request options) then Ok (set_opaque packet true) else
  let requested k := match opt_request options with Some r => bit_set r k | None => false end in
  let? (warnings, ao) :=
    (if warning && requested 17 then
       let? (v, aggregate) := parse_indicators FIELD_CAPACITY payload 0 false 0 in Ok (Some v, (aggregate, plan_bytes v))
     else Ok (None, (0, 0))) in
  let? (errors, offset) :=
    (if error && requested 16 then
       let? (v, _) := parse_indicators FIELD_CAPACITY payload ao.2 false ao.1 in Ok (Some v, wrap64 (ao.2 + plan_bytes v))
     else Ok (None, ao.2)) in
  let? (packet, ow) :=
    match warnings with
    | Some plan =>
        let? (ps, work) := append_fields BodyKind.diagnostics packet plan offset DiagnosticGroup.warning (opt_limits options) 0 in
        Ok (ps.1, (wrap64 (offset + ps.2), work))
    | None => Ok (packet, (offset, 0))
    end in
  let? (packet, offset) :=
    match errors with
    | Some plan =>
        let? (ps, _) := append_fields BodyKind.diagnostics packet plan ow.1 DiagnosticGroup.error (opt_limits options) ow.2 in
        Ok (ps.1, wrap64 (ow.1 + ps.2))
    | None => Ok (packet, ow.1)
    end in
  fail_if negb (offset =? zlen payload) with error2 ErrorCode.invalid_argument offset ;;
  Ok packet.

Definition decode_packet (wire : list byte) (options : DecodeOptions) : Result PacketView :=
  let? envelope := decode_envelope wire in
  let e := ev_envelope envelope in
  fail_if (match opt_expected_class options with
           | Some c => negb (bool_decide (class_id e = Some c)) | None => false end)
    with error1 ErrorCode.unsupported_capability ;;
  let packet := mkPacketView envelope [] BodyKind.values false false false in
  if is_data (env_type e) || is_extension (env_type e) then Ok (set_opaque packet false) else
  if env_type e =? PacketType.context then decode_context packet (opt_limits options) else
  let? c := deref (command e) in
  if negb (ack e) || bit_set (cam c) 18 then decode_body packet (cam c) (opt_limits options)
  else decode_diagnostics packet (cam c) options.

(** ** Safety of the leaves *)

Lemma masked_safe bytes o m : 0 <= o -> o + 4 <= zlen bytes -> safe (masked bytes o m).
Proof. intros. unfold masked. safe_steps. Qed.

Lemma reject_if_safe c t : (c = true -> safe t) -> safe (reject_if c t).
Proof. intros H. unfold reject_if. destruct c; [|done]. apply rbind_safe; [by apply H|]. intros [] _; done. Qed.

(** A scalar field has one or two words. *)
Lemma scalar_words id d : descriptor id = Some d -> structured_field id = false ->
  d_words d = 1 \/ d_words d = 2.
Proof.
  intros Hd Hs. destruct registry_coherent as (_ & Hc & _). pose proof (Hc _ _ Hd) as H. apply descriptor_Some in Hd as [_ <-].
  unfold descriptor_consistent in H. rewrite !andb_true_iff, orb_true_iff, Hs, !Z.eqb_eq in H.
  destruct H as (((((_ & Hv) & _) & _) & _) & [H8|Hw]); [rewrite H8 in Hv; done|].
  rewrite Hw. unfold variant_words. destruct (existsb _ _); lia.
Qed.

Lemma scalar_value_safe variant low bits : safe (scalar_value variant low bits).
Proof.
  unfold scalar_value. destruct variant as [|p|p]; [done| |done].
  do 5 (destruct p as [p|p|]; try done).
Qed.

Lemma read_scalar_safe d bytes : 1 <= d_words d -> safe (read_scalar d bytes).
Proof.
  intros Hw. unfold read_scalar. destruct (Z.eqb_spec (zlen bytes) (d_words d * 4)); [|done]. cbn [negb].
  destruct (load32_ok bytes 0) as (low & -> & _); [lia..|]. cbn [rbind]. apply rbind_safe.
  - destruct (Z.eqb_spec (d_words d) 2); [|done]. safe_steps.
  - intros bits _. apply scalar_value_safe.
Qed.

Lemma read_attribute_scalar_safe d a bytes :
  (base_attribute a = true -> 1 <= d_words d) -> a <= 12 -> safe (read_attribute_scalar d a bytes).
Proof.
  intros Hw Ha. unfold read_attribute_scalar. destruct (_ || _) eqn:Ea.
  - destruct (Z.eqb_spec (zlen bytes) 4); [|done]. cbn [negb]. safe_steps.
  - apply read_scalar_safe, Hw. unfold base_attribute. apply Z.ltb_lt. apply orb_false_iff in Ea as [E1 E2].
    apply Z.eqb_neq in E1, E2. unfold Attribute.probability, Attribute.belief in *. lia.
Qed.

Lemma validate_wire_value_safe id d bytes :
  descriptor id = Some d -> structured_field id = false -> zlen bytes = d_words d * 4 -> safe (validate_wire_value id bytes).
Proof.
  intros Hd Hs Hl. assert (Hw : d_words d = 1 \/ d_words d = 2) by by eapply scalar_words.
  assert (H2 : forall f, fid_eqb id f = true -> (exists d', descriptor f = Some d' /\ d_words d' = 2) -> 8 <= zlen bytes).
  { intros f ->%fid_eqb_eq (d' & E & ?). rewrite Hd in E. injection E as ->. lia. }
  unfold validate_wire_value. cbv zeta.
  do 9 (apply rbind_safe; [apply reject_if_safe; intros Ec; first [apply masked_safe; lia|by safe_steps]|intros _ _]).
  apply rbind_safe; [apply reject_if_safe; intros Ec|intros _ _].
  { apply masked_safe; [lia|]. apply (H2 _ Ec). eexists. split; reflexivity. }
  apply rbind_safe; [apply reject_if_safe; intros Ec; apply masked_safe; lia|intros _ _].
  apply rbind_safe; [apply reject_if_safe; intros Ec|intros _ _].
  { assert (8 <= zlen bytes) by (apply (H2 _ Ec); eexists; split; reflexivity). safe_steps. apply masked_safe; lia. }
  apply rbind_safe; [apply reject_if_safe; intros Ec; apply masked_safe; lia|intros _ _].
  apply reject_if_safe; intros Ec. safe_steps.
Qed.

Lemma validate_wire_attribute_safe id d a bytes b :
  descriptor id = Some d -> a <= 12 ->
  (base_attribute a = true -> structured_field id = false -> zlen bytes = d_words d * 4) ->
  safe (validate_wire_attribute id a bytes b).
Proof.
  intros Hd Ha Hl. unfold validate_wire_attribute. destruct (base_attribute a) eqn:Eb; cbn [negb].
  - destruct (structured_field id) eqn:Es; [apply validate_structure_wire_safe|]. eapply validate_wire_value_safe; eauto.
  - rewrite Hd. cbn [deref rbind]. apply rbind_safe; [|done]. apply read_attribute_scalar_safe; [congruence|done].
Qed.

Lemma validate_diagnostic_bits_safe bits c : safe (validate_diagnostic_bits bits c).
Proof. unfold validate_diagnostic_bits. safe_steps. Qed.

(** ** Indicator words *)

Lemma take_word_ok data offset :
  0 <= offset ->
  safe (take_word data (zlen data) offset).1 /\
  (forall w, (take_word data (zlen data) offset).1 = Ok w ->
    u32 w /\ offset + 4 <= zlen data /\ (take_word data (zlen data) offset).2 = offset + 4).
Proof.
  intros Ho. unfold take_word. destruct (Z.ltb_spec (zlen data) offset); [done|]. cbn [orb].
  destruct (Z.ltb_spec (zlen data - offset) 4); [done|]. cbn [fst snd].
  destruct (load32_ok data offset) as (w & -> & Hw); [lia..|]. split; [done|]. intros ? [= <-]. split_and!; (done || lia).
Qed.

Lemma take_cifs_ok data first indices offset :
  0 <= offset ->
  safe (take_cifs data first indices offset) /\
  (forall ws off', take_cifs data first indices offset = Ok (ws, off') ->
    length ws = length indices /\ Forall u32 ws /\
    off' = offset + 4 * zlen (filter (fun i => bit_set first i = true) indices) /\ (offset <= zlen data -> off' <= zlen data)).
Proof.
  revert offset. induction indices as [|i indices IH]; intros offset Ho; cbn [take_cifs].
  { split; [done|]. intros ws off' [= <- <-]. split_and!; try done. change (filter _ []) with (@nil Z). unfold zlen. cbn [length]. lia. }
  rewrite filter_cons. destruct (bit_set first i) eqn:Ei.
  - rewrite decide_True by done. pose proof (take_word_ok data offset Ho) as [Hs Hok].
    destruct (take_word data (zlen data) offset) as [[w|e|] off]; cbn [fst snd rbind] in *; [|done|done].
    destruct (Hok w eq_refl) as (Hu & Hb & ->). destruct (IH (offset + 4)) as [Hs' Hok']; [lia|]. split.
    + apply rbind_safe; [done|]. by intros [ws off'] _.
    + intros ws off' H. inv_ok. destruct (Hok' _ _ H0) as (Hl & Hf & Ho' & Hz). unfold zlen in *. cbn [length].
      split_and!; [cbn; lia|by constructor|lia|lia].
  - rewrite decide_False by done. destruct (IH offset Ho) as [Hs' Hok']. split.
    + apply rbind_safe; [done|]. by intros [ws off'] _.
    + intros ws off' H. inv_ok. destruct (Hok' _ _ H0) as (Hl & Hf & Ho' & Hz). split_and!; [cbn; lia| |done|done].
      constructor; [zlia|done].
Qed.

Definition known_field (id : FieldId) : Prop := is_some (descriptor id) = true.

Lemma select_fields_ok C start ids selected :
  safe (select_fields C start ids selected) /\
  (forall out, Forall known_field selected -> select_fields C start ids selected = Ok out -> Forall known_field out /\ out = selected ++ ids).
Proof.
  revert selected. induction ids as [|id ids IH]; intros selected; cbn [select_fields].
  { split; [done|]. intros out Hs [= <-]. by rewrite app_nil_r. }
  destruct (is_none (descriptor id)) eqn:E; [done|]. destruct (_ =? _)%nat; [done|]. destruct (IH (selected ++ [id])) as [Hs Hok].
  split; [done|]. intros out Hf H. assert (Hf' : Forall known_field (selected ++ [id])).
  { apply Forall_app. split; [done|]. constructor; [|constructor]. unfold known_field. revert E. by destruct (descriptor id). }
  destruct (Hok out Hf' H) as [Hk ->]. split; [done|]. by rewrite <- app_assoc.
Qed.

(** What a parsed group of indicator words says about the data. *)
Record plan_ok (data : list byte) (offset : Z) (p : IndicatorPlan) : Prop := mk_plan_ok {
  plan_cif0 : exists cif0, plan_cif p !! 0%nat = Some cif0 /\ plan_bytes p = layout_words cif0 * 4;
  plan_inside : 4 <= plan_bytes p /\ offset + plan_bytes p <= zlen data;
  plan_known : Forall known_field (plan_fields p)
}.

Lemma layout_words_pos c : 1 <= layout_words c <= 8.
Proof.
  unfold layout_words, zlen. pose proof (length_filter (fun i => bit_set c i = true) [1; 2; 3; 4; 5; 6; 7]). cbn [length] in *. lia.
Qed.

Lemma parse_indicators_ok C data offset allow aggregate :
  0 <= offset ->
  safe (parse_indicators C data offset allow aggregate) /\
  (forall p a, parse_indicators C data offset allow aggregate = Ok (p, a) -> plan_ok data offset p).
Proof.
  intros Ho. unfold parse_indicators. cbv zeta. pose proof (take_word_ok data offset Ho) as [Hs Hok].
  destruct (take_word data (zlen data) offset) as [[first|e|] off]; cbn [fst snd rbind] in *; [|done|done].
  destruct (Hok first eq_refl) as (Hu & Hb & ->). test_goal E1; [done|].
  destruct (take_cifs_ok data first [1; 2; 3; 4; 5; 6; 7] (offset + 4)) as [Hs2 Hok2]; [lia|].
  destruct (take_cifs data first [1; 2; 3; 4; 5; 6; 7] (offset + 4)) as [[ws off']|e|]; cbn [rbind]; [|done|done].
  destruct (Hok2 _ _ eq_refl) as (Hl & Hf & Ho' & Hz). set (cif_ := first :: ws).
  assert (exists w7, cif_ !! 7%nat = Some w7) as [w7 E7].
  { apply lookup_lt_is_Some. unfold cif_. cbn [length]. cbn in Hl. lia. }
  assert (Hattr : safe (if bit_set first 7 then let? w := deref (cif_ !! 7%nat) in
      fail_if (w =? 0) || nonzero (Z.land w (Z.lnot all_attributes)) with error2 ErrorCode.invalid_argument offset ;; Ok w else Ok 0)).
  { rewrite E7. cbn [deref rbind]. destruct (bit_set first 7); [|done]. by test_goal Ew. }
  split.
  - apply rbind_safe; [exact Hattr|]. intros attributes _. apply rbind_safe; [apply select_fields_ok|]. intros selected _.
    test_goal E2; [done|]. by test_goal E3.
  - intros p a H. inv_ok.
    match goal with H : select_fields _ _ _ _ = Ok _ |- _ => apply select_fields_ok in H as [Hk _]; [|constructor] end.
    split; cbn [plan_cif plan_bytes plan_fields].
    + exists first. split; [done|]. unfold layout_words. lia.
    + specialize (Hz ltac:(lia)). unfold zlen in *. lia.
    + done.
Qed.

(** ** Views of a decoded packet *)

(** What the walk establishes for a view, enough for its accessors. *)
Definition view_ok (v : FieldView) : Prop :=
  match fv_kind v with
  | BodyKind.values => fv_attribute v <= 12 /\ exists d, descriptor (fv_id v) = Some d /\
      (base_attribute (fv_attribute v) = true -> structured_field (fv_id v) = false -> zlen (fv_bytes v) = d_words d * 4)
  | BodyKind.diagnostics => zlen (fv_bytes v) = 4
  | BodyKind.selectors => True
  end.

Lemma view_accessors_safe v : view_ok v -> safe (view_value v) /\ safe (view_diagnostic v).
Proof.
  unfold view_ok, view_value, view_diagnostic. destruct (fv_kind v); cbn [negb orb].
  - intros (Ha & d & Hd & Hl). split; [|done]. test_goal E1; [done|]. rewrite Hd. test_goal E2; [done|].
    apply read_attribute_scalar_safe; [|lia]. intros Hb. rewrite Hb in E2. destruct (scalar_words _ _ Hd E2); lia.
  - done.
  - intros Hl. split; [done|]. test_goal E; [done|]. apply load32_safe; lia.
Qed.

Lemma subspan_ok bytes o n : 0 <= o -> 0 <= n -> o + n <= zlen bytes ->
  subspan bytes o n = Ok (take (Z.to_nat n) (drop (Z.to_nat o) bytes)) /\ zlen (take (Z.to_nat n) (drop (Z.to_nat o) bytes)) = n.
Proof.
  intros. unfold subspan. rewrite (proj2 (Z.ltb_ge o 0)), (proj2 (Z.ltb_ge n 0)), (proj2 (Z.ltb_ge (zlen bytes) (o + n))) by lia.
  split; [done|]. unfold zlen in *. rewrite length_take, length_drop. lia.
Qed.

Lemma checked_add_small a b : 0 <= b -> a + b <= U64_MAX -> checked_add a b = Ok (a + b).
Proof. intros. unfold checked_add, SIZE_MAX. by rewrite (proj2 (Z.ltb_ge _ _)) by lia. Qed.

Section append_proofs.
Context (K : BodyKind.t) (payload : list byte) (binding : TimestampFormatBinding) (cancelled : bool).
Context (group : DiagnosticGroup.t) (vo own : Z) (limits : TraversalLimits).
Context (HK : K <> BodyKind.selectors) (Hvo : 0 <= vo) (Hown : 0 <= own) (Hpayload : zlen payload <= U32_MAX).

(** The walk position [offset] is the byte [position offset] of the payload. *)
Definition position (offset : Z) : Z := vo + (offset - own).
Definition inside (offset : Z) : Prop := own <= offset /\ position offset <= zlen payload.

(** The views appended so far tile the payload from [vo] to the position. *)
Record tiled (before : list FieldView) (offset : Z) (fields : list FieldView) : Prop := mk_tiled {
  tiled_inside : inside offset;
  tiled_views : exists views, fields = before ++ views /\ Forall view_ok views /\
    Forall (fun v => fv_kind v = K /\ fv_group v = group) views /\
    concat (fv_bytes <$> views) = take (Z.to_nat (offset - own)) (drop (Z.to_nat vo) payload)
}.

Lemma wire_offset_ok offset : inside offset -> wire_offset vo own offset = Ok (position offset).
Proof.
  intros [H1 H2]. unfold wire_offset, position in *. rewrite <- checked_add_small by (unfold U64_MAX, U32_MAX in *; lia).
  f_equal. zlia.
Qed.

Lemma wire_provider_ok field a offset :
  known_field field -> inside offset ->
  safe (wire_provider payload binding vo own field a offset) /\
  (forall x, wire_provider payload binding vo own field a offset = Ok x ->
    0 <= x_bytes x <= zlen payload - position offset /\ 0 <= x_units x /\
    (forall d, descriptor field = Some d -> base_attribute a = true -> structured_field field = false -> x_bytes x = d_words d * 4)).
Proof.
  intros Hk Hi. unfold wire_provider. rewrite wire_offset_ok by done. cbn [rbind].
  destruct Hi as [Ho Hp]. rewrite (proj2 (Z.ltb_ge _ _)) by lia.
  destruct (descriptor field) as [d|] eqn:Ed; [|unfold known_field in Hk; by rewrite Ed in Hk].
  destruct (base_attribute a) eqn:Eb, (structured_field field) eqn:Es; cbn [andb deref rbind].
  1: { unfold subspan_from. unfold position in *.
    rewrite (proj2 (Z.ltb_ge (vo + (offset - own)) 0)), (proj2 (Z.ltb_ge (zlen payload) (vo + (offset - own)))) by lia. cbn [orb rbind].
    split; [apply wire_structure_extent_safe|]. intros x Hx. apply wire_structure_extent_ok in Hx.
    unfold zlen in *. rewrite length_drop in Hx. split_and!; try lia; intros; congruence. }
  1: destruct (scalar_words _ _ Ed Es).
  all: split; [by test_goal E|]; intros x Hx; inv_ok; apply Z.ltb_ge in E; cbn [extent2 x_bytes x_units];
    split_and!; try lia; try (intros d' [= <-]; done); intros; congruence.
Qed.

Lemma walk_attribute_append field a before offset work fields :
  known_field field -> 0 <= a <= 12 -> tiled before offset fields ->
  let step := walk_attribute K false (fun f => f) (wire_provider payload binding vo own)
    (append_visitor K payload binding cancelled group vo own) limits field a offset work fields in
  safe step /\ (forall next work' fields', step = Ok (next, work', fields') -> tiled before next fields').
Proof.
  intros Hk Ha [Hin (views & Hv & Hok & Hkg & Hcat)] step.
  destruct (descriptor field) as [d|] eqn:Ed; [|unfold known_field in Hk; by rewrite Ed in Hk].
  assert (Hx : forall ext, (match K with BodyKind.values => wire_provider payload binding vo own field a offset
      | BodyKind.selectors => Ok (extent2 0 1) | BodyKind.diagnostics => Ok (extent2 4 1) end) = Ok ext ->
      0 <= x_bytes ext /\ (K = BodyKind.values -> x_bytes ext <= zlen payload - position offset /\
        (base_attribute a = true -> structured_field field = false -> x_bytes ext = d_words d * 4)) /\
      (K = BodyKind.diagnostics -> x_bytes ext = 4)).
  { intros ext. destruct K; [|done|by intros [= <-]]. intros Hp. destruct (wire_provider_ok field a offset Hk Hin) as [_ H].
    destruct (H _ Hp) as (? & _ & Hw). split_and!; [lia|intros _; split; [lia|by apply Hw]|done]. }
  assert (Hvis : forall ext, 0 <= x_bytes ext ->
      (K = BodyKind.values -> x_bytes ext <= zlen payload - position offset /\
        (base_attribute a = true -> structured_field field = false -> x_bytes ext = d_words d * 4)) ->
      (K = BodyKind.diagnostics -> x_bytes ext = 4) ->
      let vis := append_visitor K payload binding cancelled group vo own (mkElement field a offset (x_bytes ext)) fields in
      safe vis /\ (forall fields', vis = Ok fields' -> tiled before (offset + x_bytes ext) fields')).
  { intros ext Hb Hval Hdiag vis. unfold vis, append_visitor. cbn [el_offset el_bytes el_field el_attribute].
    rewrite wire_offset_ok by done. cbn [rbind]. destruct Hin as [Ho Hp].
    destruct (Z.ltb_spec (zlen payload) (position offset)); [lia|]. cbn [orb].
    destruct (Z.ltb_spec (zlen payload - position offset) (x_bytes ext)) as [|Hfit]; [done|].
    destruct (subspan_ok payload (position offset) (x_bytes ext)) as [-> Hlen]; [unfold position in *; lia..|]. cbn [rbind].
    set (bytes := take (Z.to_nat (x_bytes ext)) (drop (Z.to_nat (position offset)) payload)) in *.
    split.
    - apply rbind_safe; [|intros _ _; unfold push_view; by test_goal E]. destruct K; [|done|].
      + eapply validate_wire_attribute_safe; [done|lia|]. intros Hba Hsf. rewrite Hlen. by apply Hval.
      + specialize (Hdiag eq_refl). assert (0 <= position offset) by (unfold position; lia). safe_steps. apply validate_diagnostic_bits_safe.
    - intros fields' Hf'. inv_ok. unfold push_view in *. inv_ok. split; [unfold inside, position in *; lia|].
      exists (views ++ [mkView field a K group bytes binding]). rewrite <- app_assoc. split_and!; [done| | |].
      + apply Forall_app. split; [done|]. constructor; [|constructor]. unfold view_ok. cbn. destruct K; [|done|].
        * split; [lia|]. exists d. split; [done|]. intros. rewrite Hlen. by apply Hval.
        * rewrite Hlen. by apply Hdiag.
      + apply Forall_app. split; [done|]. by constructor.
      + rewrite fmap_app, concat_app, Hcat. cbn. rewrite app_nil_r. unfold bytes, position.
        replace (Z.to_nat (vo + (offset - own))) with (Z.to_nat vo + Z.to_nat (offset - own))%nat by lia.
        rewrite <- drop_drop, take_take_drop. f_equal. lia. }
  unfold step, walk_attribute. split.
  - apply rbind_safe; [destruct K; [apply wire_provider_ok; done|done|done]|]. intros ext Hext.
    destruct (Hx _ Hext) as (Hb & Hval & Hdiag). apply rbind_safe; [apply checked_add_safe|]. intros next _. cbv zeta.
    do 3 (test_goal E'; [done|]; clear E'). rewrite bool_decide_eq_false_2 by done. cbn [negb orb].
    apply rbind_safe; [by apply Hvis|done].
  - intros next work' fields' H. cbv zeta in H. inv_ok.
    match goal with H : (match K with _ => _ end) = Ok _ |- _ => destruct (Hx _ H) as (Hb & Hval & Hdiag) end.
    match goal with H : (if _ then append_visitor _ _ _ _ _ _ _ _ _ else _) = Ok _ |- _ =>
      rewrite bool_decide_eq_false_2 in H by done; cbn [negb orb] in H; eapply Hvis in H; [|done..] end.
    unfold checked_add in *. inv_ok. done.
Qed.

Lemma walk_attributes_append field attributes before offset work fields :
  known_field field -> Forall (fun a => 0 <= a <= 12) attributes -> tiled before offset fields ->
  let walk := walk_attributes K false (fun f => f) (wire_provider payload binding vo own)
    (append_visitor K payload binding cancelled group vo own) limits field attributes offset work fields in
  safe walk /\ (forall next work' fields', walk = Ok (next, work', fields') -> tiled before next fields').
Proof.
  intros Hk. revert offset work fields. induction attributes as [|a attributes IH]; intros offset work fields Hf Ht; cbn [walk_attributes].
  { split; [done|]. by intros next work' fields' [= <- _ <-]. }
  apply list.Forall_cons in Hf as [Ha Hf]. destruct (walk_attribute_append field a before offset work fields Hk Ha Ht) as [Hs Hok].
  split.
  - apply rbind_safe; [done|]. intros [[next work'] fields'] H. by apply IH; [|eapply Hok].
  - intros next work' fields' H. inv_ok. destruct p as [n w]. eapply IH; [done| |done]. by eapply Hok.
Qed.

Lemma attribute_list_range m : Forall (fun a => 0 <= a <= 12) (attribute_list m).
Proof.
  unfold attribute_list. apply list.Forall_forall. intros a [_ Ha]%list_elem_of_filter.
  repeat (apply elem_of_cons in Ha as [->|Ha]; [lia|]). by apply elem_of_nil in Ha.
Qed.

Lemma walk_fields_append attributes ids before offset work fields :
  Forall known_field ids -> tiled before offset fields ->
  let walk := walk_fields K false (fun f => f) (wire_provider payload binding vo own)
    (append_visitor K payload binding cancelled group vo own) limits attributes ids offset work fields in
  safe walk /\ (forall next work' fields', walk = Ok (next, work', fields') -> tiled before next fields').
Proof.
  revert offset work fields. induction ids as [|id ids IH]; intros offset work fields Hf Ht; cbn [walk_fields].
  { split; [done|]. by intros next work' fields' [= <- _ <-]. }
  apply list.Forall_cons in Hf as [Hk Hf]. destruct (descriptor id) as [d|] eqn:Ed; [|done]. cbv zeta.
  set (attrs := if nonzero attributes then attributes else attribute_bit Attribute.current).
  test_goal E; [done|].
  destruct (walk_attributes_append id (attribute_list attrs) before offset work fields Hk (attribute_list_range _) Ht) as [Hs Hok].
  split.
  - apply rbind_safe; [done|]. intros [[next work'] fields'] H. by apply IH; [|eapply Hok].
  - intros next work' fields' H. inv_ok. destruct p as [n w]. eapply IH; [done| |done]. by eapply Hok.
Qed.
End append_proofs.

(** Appending the fields of a plan: the new views tile the payload from [vo], and the
    size returned is the number of bytes they cover. *)
Lemma append_fields_ok K packet plan vo group limits work data off :
  K <> BodyKind.selectors -> zlen (ev_payload (pv_envelope packet)) <= U32_MAX ->
  plan_ok data off plan -> 0 <= vo <= zlen (ev_payload (pv_envelope packet)) ->
  let call := append_fields K packet plan vo group limits work in
  safe call /\
  (forall packet' size work', call = Ok (packet', size, work') ->
    pv_envelope packet' = pv_envelope packet /\ 0 <= size /\ vo + size <= zlen (ev_payload (pv_envelope packet)) /\
    exists views, pv_fields packet' = pv_fields packet ++ views /\ Forall view_ok views /\
      Forall (fun v => fv_kind v = K /\ fv_group v = group) views /\
      concat (fv_bytes <$> views) = take (Z.to_nat size) (drop (Z.to_nat vo) (ev_payload (pv_envelope packet)))).
Proof.
  intros HK Hp [(cif0 & Hc0 & Hb) [Hb4 _] Hkn] Hvo call. unfold call, append_fields. cbv zeta. rewrite Hc0. cbn [deref rbind].
  set (payload := ev_payload (pv_envelope packet)) in *. set (env := ev_envelope (pv_envelope packet)).
  set (binding := mkBinding _ _ _). unfold walk_field_layout. pose proof (layout_words_pos cif0).
  rewrite checked_add_small, Z.add_0_l, <- Hb by (unfold U64_MAX; lia). cbn [rbind].
  assert (Ht : tiled K payload group vo (plan_bytes plan) (pv_fields packet) (plan_bytes plan) (pv_fields packet)).
  { split; [unfold inside, position; lia|]. exists []. rewrite app_nil_r, Z.sub_diag. done. }
  destruct (walk_fields_append K payload binding (cancel env) group vo (plan_bytes plan) limits HK ltac:(lia) Hp
    (plan_attributes plan) (plan_fields plan) _ _ work _ Hkn Ht) as [Hs Hok].
  split.
  - apply rbind_safe; [|by intros [[] ] _]. apply rbind_safe; [done|]. by intros [[] ] _.
  - intros packet' size work' H0. inv_ok. destruct p0 as [next w]. cbn [fst snd] in *.
    destruct (Hok _ _ _ ltac:(eassumption)) as [[Hi1 Hi2] (views & -> & Hv & Hg & Hcat)]. unfold position in *.
    assert (Hw : wrap64 (next - 0 - plan_bytes plan) = next - plan_bytes plan) by zlia. rewrite Hw.
    cbn [pv_envelope pv_fields]. split_and!; [done|lia|lia|]. exists views. done.
Qed.

(** ** Decoding a packet *)

(** The bytes of the indicator words, then those of the fields in order. *)
Definition body_tiled (pv : PacketView) : Prop :=
  exists header, ev_payload (pv_envelope pv) = header ++ concat (fv_bytes <$> pv_fields pv).

Definition packet_ok (pv : PacketView) : Prop := Forall view_ok (pv_fields pv) /\ (pv_opaque pv = false -> body_tiled pv).

Lemma tile_all (l : list byte) n vo size :
  0 <= vo -> 0 <= size -> vo + size = zlen l -> n = Z.to_nat size ->
  l = take (Z.to_nat vo) l ++ take n (drop (Z.to_nat vo) l).
Proof.
  intros Hv Hs Hl ->. unfold zlen in Hl. rewrite (take_ge (drop _ _)) by (rewrite length_drop; lia). by rewrite take_drop.
Qed.

Lemma decode_context_ok packet limits :
  zlen (ev_payload (pv_envelope packet)) <= U32_MAX -> pv_fields packet = [] ->
  safe (decode_context packet limits) /\ (forall pv, decode_context packet limits = Ok pv -> packet_ok pv).
Proof.
  intros Hp Hf. unfold decode_context. cbv zeta. set (payload := ev_payload (pv_envelope packet)) in *.
  destruct (parse_indicators_ok FIELD_CAPACITY payload 0 true 0) as [Hs Hok]; [done|].
  destruct (parse_indicators FIELD_CAPACITY payload 0 true 0) as [[plan a]|e|]; cbn [rbind]; [|done|done].
  pose proof (Hok _ _ eq_refl) as Hplan. pose proof Hplan as [_ [Hb1 Hb2] _].
  destruct (append_fields_ok BodyKind.values (set_body packet BodyKind.values (plan_change plan)) plan (plan_bytes plan)
    DiagnosticGroup.none limits 0 payload 0 ltac:(done) Hp Hplan ltac:(cbn [pv_envelope set_body]; fold payload; lia)) as [Hs2 Hok2].
  split.
  - apply rbind_safe; [done|]. intros [[p s] w] _. by test_goal E.
  - intros pv H. inv_ok. destruct p as [p size]. cbn [fst snd] in *.
    destruct (Hok2 _ _ _ ltac:(eassumption)) as (He & Hsz & Hfit & views & Hv & Hok3 & _ & Hcat).
    cbn [pv_fields set_body pv_envelope] in *. rewrite Hf in Hv. cbn [app] in Hv. split; [by rewrite Hv|].
    intros _. exists (take (Z.to_nat (plan_bytes plan)) payload). rewrite Hv, Hcat, He. fold payload.
    apply negb_false_iff, Z.eqb_eq in E. fold payload in Hfit. unfold U32_MAX in Hp.
    unfold wrap64 in E. rewrite Z.mod_small in E by lia. apply (tile_all _ _ _ size); (done || lia).
Qed.

Lemma push_view_ok v fields : view_ok v -> Forall view_ok fields -> fv_bytes v = [] ->
  concat (fv_bytes <$> fields) = [] ->
  safe (push_view v fields) /\ (forall out, push_view v fields = Ok out -> Forall view_ok out /\ concat (fv_bytes <$> out) = []).
Proof.
  intros Hv Hf Hb Hc. unfold push_view. test_goal E; [done|]. split; [done|]. intros out [= <-]. split.
  - apply Forall_app. split; [done|]. by constructor.
  - rewrite fmap_app, concat_app, Hc. cbn. by rewrite Hb.
Qed.

Lemma walk_selectors_ok limits attributes ids offset work fields :
  Forall view_ok fields -> concat (fv_bytes <$> fields) = [] ->
  let walk := walk_fields BodyKind.selectors true (fun f => f) (fun _ _ _ => Ok extent_default) selector_visitor limits attributes ids offset work fields in
  safe walk /\ (forall ow out, walk = Ok (ow, out) -> Forall view_ok out /\ concat (fv_bytes <$> out) = []).
Proof.
  assert (Hone : forall id a offset work fields, Forall view_ok fields -> concat (fv_bytes <$> fields) = [] ->
    let w := walk_attribute BodyKind.selectors true (fun f => f) (fun _ _ _ => Ok extent_default) selector_visitor limits id a offset work fields in
    safe w /\ (forall ow out, w = Ok (ow, out) -> Forall view_ok out /\ concat (fv_bytes <$> out) = [])).
  { intros id a o w fs Hf Hc. unfold walk_attribute. cbn [rbind]. destruct (push_view_ok
      (mkView id a BodyKind.selectors DiagnosticGroup.none [] binding_default) fs I Hf eq_refl Hc) as [Hs Hok].
    rewrite (bool_decide_eq_true_2 (BodyKind.selectors = BodyKind.selectors)) by done. cbn [negb orb]. split.
    - apply rbind_safe; [apply checked_add_safe|]. intros n _. cbv zeta. do 3 (test_goal E'; [done|]; clear E').
      apply rbind_safe; [done|]. by intros.
    - intros ow out H. cbv zeta in H. inv_ok. by eapply Hok. }
  assert (Hlist : forall id l offset work fields, Forall view_ok fields -> concat (fv_bytes <$> fields) = [] ->
    let w := walk_attributes BodyKind.selectors true (fun f => f) (fun _ _ _ => Ok extent_default) selector_visitor limits id l offset work fields in
    safe w /\ (forall ow out, w = Ok (ow, out) -> Forall view_ok out /\ concat (fv_bytes <$> out) = [])).
  { intros id l. induction l as [|a l IH]; intros o w fs Hf Hc; cbn [walk_attributes]; [split; [done|]; by intros ow out [= _ <-]|].
    destruct (Hone id a o w fs Hf Hc) as [Hs Hok]. split.
    - apply rbind_safe; [done|]. intros [ow fs'] H. by apply IH; eapply Hok.
    - intros ow out H. inv_ok. eapply IH; [..|done]; by eapply Hok. }
  revert offset work fields. induction ids as [|id ids IH]; intros offset work fields Hf Hc; cbn [walk_fields];
    [split; [done|]; by intros ow out [= _ <-]|].
  destruct (descriptor id); [|done]. cbv zeta. test_goal E; [done|]. edestruct Hlist as [Hs Hok]; [exact Hf|exact Hc|]. split.
  - apply rbind_safe; [done|]. intros [ow fs'] H. by apply IH; eapply Hok.
  - intros ow out H. inv_ok. eapply IH; [..|done]; by eapply Hok.
Qed.

Lemma decode_body_ok packet c limits :
  zlen (ev_payload (pv_envelope packet)) <= U32_MAX -> pv_fields packet = [] ->
  safe (decode_body packet c limits) /\ (forall pv, decode_body packet c limits = Ok pv -> packet_ok pv).
Proof.
  intros Hp Hf. unfold decode_body. cbv zeta. set (payload := ev_payload (pv_envelope packet)) in *.
  match goal with |- context [parse_indicators _ _ _ ?ac _] => destruct (parse_indicators_ok FIELD_CAPACITY payload 0 ac 0) as [Hs Hok]; [done|];
    destruct (parse_indicators FIELD_CAPACITY payload 0 ac 0) as [[plan a]|e|]; cbn [rbind]; [|done|done] end.
  pose proof (Hok _ _ eq_refl) as Hplan. pose proof Hplan as [(cif0 & Hc0 & _) [Hb1 Hb2] _].
  test_goal Esel.
  - rewrite Hc0. cbn [deref rbind]. cbn [pv_fields set_body]. rewrite Hf. unfold walk_field_layout.
    pose proof (layout_words_pos cif0). rewrite checked_add_small by (unfold U64_MAX; lia). cbn [rbind].
    edestruct (walk_selectors_ok limits (plan_attributes plan) (plan_fields plan)) as [Hs2 Hok2]; [apply List.Forall_nil|done|]. split.
    + apply rbind_safe; [|intros [? ?] _; by test_goal E]. apply rbind_safe; [|by intros [[] ] _].
      apply rbind_safe; [exact Hs2|]. by intros [[] ] _.
    + intros pv H0. inv_ok. apply negb_false_iff, Z.eqb_eq in E.
      match goal with H : walk_fields _ _ _ _ _ _ _ _ _ _ _ = Ok _ |- _ => destruct (Hok2 _ _ H) as [Hv Hc] end.
      split; [done|]. intros _. cbn. exists payload. unfold body_tiled. cbn [pv_fields] in *. by rewrite Hc, app_nil_r.
  - destruct (append_fields_ok BodyKind.values (set_body packet (pv_body_kind packet) (plan_change plan)) plan (plan_bytes plan)
      DiagnosticGroup.none limits 0 payload 0 ltac:(done) Hp Hplan ltac:(cbn [pv_envelope set_body]; fold payload; lia)) as [Hs2 Hok2].
    split.
    + apply rbind_safe; [|intros [? ?] _; by test_goal E]. apply rbind_safe; [done|]. by intros [[] ] _.
    + intros pv H. inv_ok. match goal with p : PacketView * Z |- _ => destruct p as [p size] end. cbn [fst snd] in *.
      destruct (Hok2 _ _ _ ltac:(eassumption)) as (He & Hsz & Hfit & views & Hv & Hok3 & _ & Hcat).
      cbn [pv_fields set_body pv_envelope] in *. rewrite Hf in Hv. cbn [app] in Hv. split; [by rewrite Hv|].
      intros _. exists (take (Z.to_nat (plan_bytes plan)) payload). rewrite Hv, Hcat, He. fold payload.
      apply negb_false_iff, Z.eqb_eq in E. fold payload in Hfit. unfold U32_MAX in Hp.
    unfold wrap64 in E. rewrite Z.mod_small in E by lia. apply (tile_all _ _ _ size); (done || lia).
Qed.

(** One group of diagnostics, or none: views, the offset after them, and the tiling. *)
Definition append_group (packet : PacketView) (plan : option IndicatorPlan) (offset work : Z) (group : DiagnosticGroup.t)
    (limits : TraversalLimits) : Result (PacketView * (Z * Z)) :=
  match plan with
  | Some plan =>
      let? (ps, work) := append_fields BodyKind.diagnostics packet plan offset group limits work in
      Ok (ps.1, (wrap64 (offset + ps.2), work))
  | None => Ok (packet, (offset, work))
  end.

Lemma append_group_ok packet plan offset work group limits :
  zlen (ev_payload (pv_envelope packet)) <= U32_MAX -> 0 <= offset <= zlen (ev_payload (pv_envelope packet)) ->
  (forall p, plan = Some p -> exists data off, plan_ok data off p) ->
  safe (append_group packet plan offset work group limits) /\
  (forall packet' o w, append_group packet plan offset work group limits = Ok (packet', (o, w)) ->
    pv_envelope packet' = pv_envelope packet /\ offset <= o <= zlen (ev_payload (pv_envelope packet)) /\
    exists views, pv_fields packet' = pv_fields packet ++ views /\ Forall view_ok views /\
      concat (fv_bytes <$> views) = take (Z.to_nat (o - offset)) (drop (Z.to_nat offset) (ev_payload (pv_envelope packet)))).
Proof.
  intros Hp Ho Hplan. unfold append_group. destruct plan as [plan|].
  - destruct (Hplan plan eq_refl) as (data & off & Hpl).
    destruct (append_fields_ok BodyKind.diagnostics packet plan offset group limits work data off ltac:(done) Hp Hpl Ho) as [Hs Hok].
    split; [apply rbind_safe; [done|by intros [[] ] _]|]. intros packet' o w H. inv_ok. destruct p as [p size]. cbn [fst snd].
    destruct (Hok _ _ _ ltac:(eassumption)) as (He & Hsz & Hfit & views & Hv & Hvok & _ & Hcat).
    unfold wrap64, U32_MAX in *. rewrite Z.mod_small by lia. split_and!; [done|lia|lia|]. exists views.
    split_and!; try done. by replace (offset + size - offset) with size by lia.
  - split; [done|]. intros packet' o w [= <- <- <-]. split_and!; [done|lia|lia|]. exists []. rewrite app_nil_r, Z.sub_diag.
    split_and!; try done.
Qed.

(** An optional group of indicator words. *)
Lemma optional_plan_ok (present : bool) payload offset aggregate :
  0 <= offset <= zlen payload -> zlen payload <= U32_MAX ->
  let call := (if present then
      let? (v, a) := parse_indicators FIELD_CAPACITY payload offset false aggregate in Ok (Some v, (a, wrap64 (offset + plan_bytes v)))
    else Ok (None, (aggregate, offset))) in
  safe call /\
  (forall plan a o, call = Ok (plan, (a, o)) -> offset <= o <= zlen payload /\ (forall p, plan = Some p -> exists data off, plan_ok data off p)).
Proof.
  intros Ho Hp call. unfold call. destruct present.
  - destruct (parse_indicators_ok FIELD_CAPACITY payload offset false aggregate) as [Hs Hok]; [lia|]. split.
    + apply rbind_safe; [done|]. by intros [] _.
    + intros plan a o H. inv_ok. pose proof (Hok _ _ ltac:(eassumption)) as Hpl. pose proof Hpl as [_ [? ?] _].
      unfold wrap64, U32_MAX in *. rewrite Z.mod_small by lia. split; [lia|]. intros p [= <-]. eauto.
  - split; [done|]. intros plan a o [= <- <- <-]. split; [lia|]. by intros.
Qed.

(** [decode_diagnostics] in terms of its groups. *)
Lemma decode_diagnostics_groups packet c options :
  decode_diagnostics packet c options =
  let payload := ev_payload (pv_envelope packet) in
  let packet := set_body packet BodyKind.diagnostics (pv_change packet) in
  if (bit_set c 17 || bit_set c 16) && is_none (opt_request options) then Ok (set_opaque packet true) else
  let requested k := match opt_request options with Some r => bit_set r k | None => false end in
  let? (warnings, ao) := (if bit_set c 17 && requested 17 then
      let? (v, a) := parse_indicators FIELD_CAPACITY payload 0 false 0 in Ok (Some v, (a, plan_bytes v)) else Ok (None, (0, 0))) in
  let? (errors, ao) := (if bit_set c 16 && requested 16 then
      let? (v, a) := parse_indicators FIELD_CAPACITY payload ao.2 false ao.1 in Ok (Some v, (a, wrap64 (ao.2 + plan_bytes v)))
      else Ok (None, ao)) in
  let? (packet, ow) := append_group packet warnings ao.2 0 DiagnosticGroup.warning (opt_limits options) in
  let? (packet, ow) := append_group packet errors ow.1 ow.2 DiagnosticGroup.error (opt_limits options) in
  fail_if negb (ow.1 =? zlen payload) with error2 ErrorCode.invalid_argument ow.1 ;; Ok packet.
Proof.
  unfold decode_diagnostics. cbv zeta. destruct (_ && is_none _); [done|].
  match goal with |- rbind ?a _ = rbind ?b _ => change b with a; destruct a as [[warnings [a0 o0]]|e|]; cbn [rbind fst snd]; [|done|done] end.
  match goal with |- rbind ?a _ = _ => destruct (bit_set c 16 && _) end;
    [destruct (parse_indicators _ _ _ _ _) as [[v a]|e|]; cbn [rbind fst snd]; [|done|done]|cbn [rbind fst snd]];
    (unfold append_group; destruct warnings as [w|]; [destruct (append_fields _ _ _ _ _ _ _) as [[[p s] wk]|e|]|]; cbn [rbind fst snd]; try done).
  all: destruct (append_fields _ _ _ _ _ _ _) as [[[p2 s2] wk2]|e2|]; done.
Qed.

Lemma decode_diagnostics_ok packet c options :
  zlen (ev_payload (pv_envelope packet)) <= U32_MAX -> pv_fields packet = [] ->
  safe (decode_diagnostics packet c options) /\ (forall pv, decode_diagnostics packet c options = Ok pv -> packet_ok pv).
Proof.
  intros Hp Hf. rewrite decode_diagnostics_groups. cbv zeta. set (payload := ev_payload (pv_envelope packet)) in *.
  test_goal E0. { split; [done|]. intros pv [= <-]. split; [cbn; by rewrite Hf|]. done. }
  clear E0. set (req := fun k => match opt_request options with Some r => bit_set r k | None => false end).
  assert (Hlen : 0 <= zlen payload) by (unfold zlen; lia).
  destruct (optional_plan_ok (bit_set c 17 && req 17) payload 0 0 ltac:(lia) Hp) as [Hs1 Hok1].
  assert (E1 : (if bit_set c 17 && req 17 then let? (v, a) := parse_indicators FIELD_CAPACITY payload 0 false 0 in Ok (Some v, (a, plan_bytes v)) else Ok (None, (0, 0)))
    = (if bit_set c 17 && req 17 then let? (v, a) := parse_indicators FIELD_CAPACITY payload 0 false 0 in Ok (Some v, (a, wrap64 (0 + plan_bytes v))) else Ok (None, (0, 0)))).
  { destruct (bit_set c 17 && req 17); [|done]. destruct (parse_indicators_ok FIELD_CAPACITY payload 0 false 0) as [_ Hpk]; [done|].
    destruct (parse_indicators FIELD_CAPACITY payload 0 false 0) as [[v a]|e|]; cbn [rbind]; [|done|done].
    destruct (Hpk _ _ eq_refl) as [_ [? ?] _]. unfold wrap64, U32_MAX in *. rewrite Z.mod_small by lia. done. }
  change (req 17) with (match opt_request options with Some r => bit_set r 17 | None => false end) in *.
  rewrite E1. clear E1. match goal with H : safe ?a |- _ => destruct a as [[warnings [a0 o0]]|e|] end; cbn [rbind fst snd]; [|done|done].
  destruct (Hok1 _ _ _ eq_refl) as [Ho1 Hpl1].
  destruct (optional_plan_ok (bit_set c 16 && req 16) payload o0 a0 ltac:(lia) Hp) as [Hs2 Hok2].
  change (req 16) with (match opt_request options with Some r => bit_set r 16 | None => false end) in *.
  match goal with H : safe (if _ then _ else _) |- _ => revert H Hok2 end.
  match goal with |- safe ?a -> _ => destruct a as [[errors [a1 o1]]|e|] end; intros Hs2 Hok2; cbn [rbind fst snd]; [|done|done].
  destruct (Hok2 _ _ _ eq_refl) as [Ho2 Hpl2]. clear Hok1 Hok2.
  set (packet0 := set_body packet BodyKind.diagnostics (pv_change packet)).
  destruct (append_group_ok packet0 warnings o1 0 DiagnosticGroup.warning (opt_limits options) Hp ltac:(cbn [packet0 set_body pv_envelope]; fold payload; lia) Hpl1) as [Hs3 Hok3].
  destruct (append_group packet0 warnings o1 0 DiagnosticGroup.warning (opt_limits options)) as [[packet1 [o2 w2]]|e|]; cbn [rbind fst snd]; [|done|done].
  destruct (Hok3 _ _ _ eq_refl) as (He1 & Hb1 & views1 & Hv1 & Hvok1 & Hcat1). cbn [packet0 set_body pv_envelope pv_fields] in He1, Hb1, Hv1, Hcat1.
  fold payload in Hb1, Hcat1. rewrite Hf in Hv1.
  destruct (append_group_ok packet1 errors o2 w2 DiagnosticGroup.error (opt_limits options)) as [Hs4 Hok4];
    [rewrite He1; fold payload; lia|rewrite He1; fold payload; lia|done|].
  destruct (append_group packet1 errors o2 w2 DiagnosticGroup.error (opt_limits options)) as [[packet2 [o3 w3]]|e|]; cbn [rbind fst snd]; [|done|done].
  destruct (Hok4 _ _ _ eq_refl) as (He2 & Hb2 & views2 & Hv2 & Hvok2 & Hcat2). rewrite He1 in He2, Hb2, Hcat2. fold payload in Hb2, Hcat2.
  destruct (Z.eqb_spec o3 (zlen payload)) as [Eo|]; cbn [negb]; [|done]. split; [done|]. intros pv [= <-].
  rewrite Hv1 in Hv2. cbn [app] in Hv2. split; [rewrite Hv2; by apply Forall_app|]. intros _.
  exists (take (Z.to_nat o1) payload). rewrite He2, Hv2. fold payload. rewrite fmap_app, concat_app, Hcat1, Hcat2.
  replace (Z.to_nat o2) with (Z.to_nat o1 + Z.to_nat (o2 - o1))%nat by lia. rewrite <- drop_drop, take_take_drop.
  apply (tile_all _ _ _ (o3 - o1)); lia.
Qed.

Lemma decode_envelope_facts wire v : decode_envelope wire = Ok v ->
  zlen (ev_payload v) <= U32_MAX /\ (is_command (env_type (ev_envelope v)) = true -> is_some (command (ev_envelope v)) = true).
Proof.
  intros H. destruct (decode_envelope_inv wire v H) as (_ & _ & _ & _ & _ & _ & (m & Hm) & _).
  apply measure_measured in Hm as []; [|unfold zlen; lia]. split.
  - subst m. pose proof (b2z_range (env_trailer (ev_envelope v))). unfold zlen in *. zlia.
  - intros Hc. rewrite Hc in m_flags. unfold is_command, is_data in *. apply Z.leb_le in Hc.
    rewrite (proj2 (Z.leb_gt _ 3)) in m_flags by lia. apply orb_false_iff in m_flags as [_ Hcmd]. by apply negb_false_iff.
Qed.

Lemma append_fields_envelope K packet plan offset group limits work ps work' :
  append_fields K packet plan offset group limits work = Ok (ps, work') -> pv_envelope ps.1 = pv_envelope packet.
Proof. unfold append_fields. intros H. inv_ok. by repeat match goal with p : _ * _ |- _ => destruct p end; inv_ok. Qed.

Lemma decode_packet_envelope wire options pv : decode_packet wire options = Ok pv -> decode_envelope wire = Ok (pv_envelope pv).
Proof.
  unfold decode_packet. intros H. apply rbind_Ok in H as (v & -> & H). f_equal.
  set (packet := mkPacketView v [] BodyKind.values false false false) in *. change v with (pv_envelope packet).
  inv_ok. case_match; [by injection H as <-|]. case_match.
  - unfold decode_context in H. apply rbind_Ok in H as ([plan ?] & _ & H). apply rbind_Ok in H as ([ps ?] & Hx1 & H).
    apply append_fields_envelope in Hx1. inv_ok. done.
  - apply rbind_Ok in H as (c & _ & H). case_match.
    + unfold decode_body in H. apply rbind_Ok in H as ([plan ?] & _ & H). apply rbind_Ok in H as ([p' ?] & Hx1 & H). inv_ok.
      case_match.
      * apply rbind_Ok in Hx1 as (cif0 & _ & Hx1). apply rbind_Ok in Hx1 as ([? ?] & _ & Hx1). by injection Hx1 as <-.
      * apply rbind_Ok in Hx1 as ([ps ?] & Hx1 & Hx2). apply append_fields_envelope in Hx1. inv_ok. done.
    + unfold decode_diagnostics in H. case_match; [by injection H as <-|].
      apply rbind_Ok in H as ([warnings ao] & _ & H). apply rbind_Ok in H as ([errors offset] & _ & H).
      apply rbind_Ok in H as ([p1 ow] & Hx1 & H). apply rbind_Ok in H as ([p2 o2] & Hx2 & H). inv_ok.
      assert (Hp1 : pv_envelope p1 = pv_envelope packet).
      { destruct warnings; [|by injection Hx1 as <-]. apply rbind_Ok in Hx1 as ([ps ?] & Hx1 & Hx3). apply append_fields_envelope in Hx1. inv_ok. done. }
      destruct errors; [|by injection Hx2 as <-]. apply rbind_Ok in Hx2 as ([ps ?] & Hx2 & Hx3). apply append_fields_envelope in Hx2. inv_ok. congruence.
Qed.

Lemma decode_packet_ok wire options :
  safe (decode_packet wire options) /\ (forall pv, decode_packet wire options = Ok pv -> packet_ok pv).
Proof.
  unfold decode_packet. pose proof (decode_envelope_safe_aux wire) as Hsafe.
  destruct (decode_envelope wire) as [v|e|] eqn:Ev; cbn [rbind]; [|done|done].
  destruct (decode_envelope_facts wire v Ev) as [Hp Hcmd]. cbv zeta. test_goal E1; [done|].
  set (packet := mkPacketView v [] BodyKind.values false false false).
  test_goal E2. { split; [done|]. intros pv [= <-]. split; [by constructor|done]. }
  test_goal E3; [by apply decode_context_ok|].
  assert (is_some (command (ev_envelope v)) = true) as Hc.
  { apply Hcmd. apply orb_false_iff in E2 as [Hd Hx]. unfold is_data, is_extension, is_command in *. apply Z.leb_gt in Hd. apply Z.eqb_neq in E3.
    rewrite !orb_false_iff, !Z.eqb_neq in Hx. unfold PacketType.extension_without_sid, PacketType.extension_data,
      PacketType.extension_context, PacketType.extension_command, PacketType.context in *. apply Z.leb_le. lia. }
  destruct (command (ev_envelope v)) as [c|]; [|done]. cbn [deref rbind].
  test_goal E4; [by apply decode_body_ok|by apply decode_diagnostics_ok].
Qed.
