(* ===== verification/ArrayCif.v ===== *)
(** * Arrays of indicator words: [include/vita/codec/array_cif.hpp]

    An array field holds records, each of which is laid out by the indicator words of the
    array; a field of a record can be an array itself, to a depth of four.  [validate] walks
    an array once without showing it to anybody, [visit] walks a validated array and hands
    its elements to a visitor.  The walk is written for any visitor: [nested] is the walk of
    the arrays one level down, and the recursion over the levels is bounded by the length of
    the path, which the code limits to four. *)

From S2P Require Import Prelude Wire WireProofs Fields Scalar Structured Packet.

Definition array_id : FieldId := mkField 1 11.

Module Dialect.
Definition i9_five_cifs_header7 : Z := 0.
End Dialect.

Record Options := mkArrayOptions { o_dialect : Z; o_timestamps : TimestampFormatBinding }.

(** The counters of a packet and their limits. *)
Record Budget := mkBudget {
  bg_fields : Z; bg_views : Z; bg_work : Z; bg_max_fields : Z; bg_max_views : Z; bg_max_work : Z;
  bg_max_depth : Z; bg_max_records : Z; bg_field_limits : TraversalLimits }.
Definition Budget_default : Budget := mkBudget 0 0 0 128 1664 4096 4 256 limits_default.

(** Where an element lies: for each level the ordinal of the record and its index word.  The
    depth of the path is its length. *)
Record PathStep := mkStep { ps_ordinal : Z; ps_index : Z }.
#[global] Instance PathStep_eq_dec : EqDecision PathStep.
Proof. solve_decision. Defined.
Definition Path := list PathStep.
Record Element := mkArrayElement { ae_field : FieldView; ae_path : Path }.

Definition array_descriptor : FieldDescriptor := mkDescriptor array_id 0 0 all_attributes.
(** [Resolver] *)
Definition resolve (id : FieldId) : option FieldDescriptor := if fid_eqb id array_id then Some array_descriptor else descriptor id.

Definition charge (used limit amount : Z) : Result Z :=
  fail_if (limit <? used) || (limit - used <? amount) with error1 ErrorCode.resource_limit ;; Ok (used + amount).

(** The counter of the budget that is charged. *)
Definition charge_fields (b : Budget) (amount : Z) : Result Budget :=
  let? used := charge (bg_fields b) (bg_max_fields b) amount in
  Ok (mkBudget used (bg_views b) (bg_work b) (bg_max_fields b) (bg_max_views b) (bg_max_work b) (bg_max_depth b) (bg_max_records b) (bg_field_limits b)).
Definition charge_views (b : Budget) (amount : Z) : Result Budget :=
  let? used := charge (bg_views b) (bg_max_views b) amount in
  Ok (mkBudget (bg_fields b) used (bg_work b) (bg_max_fields b) (bg_max_views b) (bg_max_work b) (bg_max_depth b) (bg_max_records b) (bg_field_limits b)).
Definition charge_work (b : Budget) (amount : Z) : Result Budget :=
  let? used := charge (bg_work b) (bg_max_work b) amount in
  Ok (mkBudget (bg_fields b) (bg_views b) used (bg_max_fields b) (bg_max_views b) (bg_max_work b) (bg_max_depth b) (bg_max_records b) (bg_field_limits b)).

(** ** The header of an array *)

Record Header := mkHeader { h_bytes : Z; h_words : Z; h_records : Z; h_plan : IndicatorPlan }.
Definition PLAN_CAPACITY : nat := 128.

(** The loop that collects the fields of the four words. *)
Fixpoint select_array_fields (ids selected : list FieldId) : Result (list FieldId) :=
  match ids with
  | [] => Ok selected
  | id :: ids =>
      fail_if is_none (resolve id) with error1 ErrorCode.unsupported_layout ;;
      fail_if (length selected =? PLAN_CAPACITY)%nat with error1 ErrorCode.resource_limit ;;
      select_array_fields ids (selected ++ [id])
  end.

Definition header (bytes : list byte) (options : Options) : Result Header :=
  fail_if negb (o_dialect options =? Dialect.i9_five_cifs_header7) with error1 ErrorCode.unsupported_capability ;;
  fail_if (3 <? b_tsi (o_timestamps options)) || (3 <? b_tsf (o_timestamps options)) with error1 ErrorCode.invalid_argument ;;
  fail_if zlen bytes <? 12 with error3 ErrorCode.short_input 0 12 ;;
  let? total := load32 bytes 0 in
  let? header1 := load32 bytes 4 in
  let width := Z.land (Z.shiftr header1 12) 4095 in
  let records := Z.land header1 4095 in
  let? third := (if negb (Z.shiftr header1 24 =? 7) then Ok 1 else load32 bytes 8) in
  fail_if nonzero third with error1 ErrorCode.unsupported_layout ;;
  let? product := checked_multiply width records in
  let? words := checked_add 8 product in
  fail_if negb (total =? words) || (nonzero records && (width <? 1)) with error1 ErrorCode.invalid_argument ;;
  let? extent := checked_multiply total 4 in
  fail_if zlen bytes <? extent with error3 ErrorCode.short_input 0 extent ;;
  let? c0 := load32 bytes 12 in
  let? c1 := load32 bytes 16 in
  let? c2 := load32 bytes 20 in
  let? c3 := load32 bytes 24 in
  let? c7 := load32 bytes 28 in
  let cif := [c0; c1; c2; c3; 0; 0; 0; c7] in
  fail_if nonzero (Z.land c0 0x71) || nonzero (Z.land c7 (Z.lnot all_attributes)) with error1 ErrorCode.invalid_argument ;;
  let enabled := nonzero (Z.land c0 0x80) in
  fail_if negb (Bool.eqb enabled (nonzero c7)) with error1 ErrorCode.unsupported_capability ;;
  let? selected := select_array_fields
    (word_fields 0 (Z.land c0 0x7fffff00) ++ word_fields 1 c1 ++ word_fields 2 c2 ++ word_fields 3 c3) [] in
  Ok (mkHeader extent width records
        (mkPlan cif c7 selected (layout_words c0 * 4) (nonzero (Z.land c0 0x80000000)))).

(** ** The layout walk with a provider that has effects

    [walk_field_layout] for a body of values, with a resolver of its own and a provider that
    changes the state of the traversal. *)
Section layout.
Context {S : Type} (resolver : FieldId -> option FieldDescriptor).
Context (provider : FieldId -> Z -> Z -> S -> Result (FieldExtent * S)) (visitor : LayoutElement -> S -> Result S).
Context (limits : TraversalLimits).

Definition values_attribute (field : FieldId) (attribute offset work : Z) (s : S) : Result (Z * Z * S) :=
  let? (extent, s) := provider field attribute offset s in
  let? next := checked_add offset (x_bytes extent) in
  let limit := error2 ErrorCode.resource_limit offset in
  fail_if fid_eqb field Field.ContextAssociationLists && base_attribute attribute &&
          (association_entries limits <? wrap64 (x_units extent - 2)) with limit ;;
  fail_if (index_entries limits <? x_index_entries extent) || (limit_records limits <? x_records extent) with limit ;;
  fail_if (work_units limits <? work) || (work_units limits - work <? x_units extent) with limit ;;
  let? s := visitor (mkElement field attribute offset (x_bytes extent)) s in
  Ok (next, work + x_units extent, s).

Fixpoint values_attributes (field : FieldId) (attributes : list Z) (offset work : Z) (s : S) : Result (Z * Z * S) :=
  match attributes with
  | [] => Ok (offset, work, s)
  | a :: attributes =>
      let? (ow, s) := values_attribute field a offset work s in
      values_attributes field attributes ow.1 ow.2 s
  end.

Fixpoint values_fields (attributes : Z) (fields : list FieldId) (offset work : Z) (s : S) : Result (Z * Z * S) :=
  match fields with
  | [] => Ok (offset, work, s)
  | field :: fields =>
      match resolver field with
      | None => Err (error2 ErrorCode.unsupported_layout offset)
      | Some d =>
          let attributes' := if nonzero attributes then attributes else attribute_bit Attribute.current in
          fail_if nonzero (Z.land attributes' (Z.lnot (d_attributes d))) with error2 ErrorCode.unsupported_layout offset ;;
          let? (ow, s) := values_attributes field (attribute_list attributes') offset work s in
          values_fields attributes fields ow.1 ow.2 s
      end
  end.

Definition values_layout (cif0 attributes : Z) (fields : list FieldId) (start_offset shared_work : Z) (s : S) : Result (Z * Z * S) :=
  let? head := checked_add start_offset (layout_words cif0 * 4) in
  let? (ow, s) := values_fields attributes fields head shared_work s in
  Ok (ow.1 - start_offset, ow.2, s).
End layout.

(** ** Walking an array *)

Section walk_array.
Context {V : Type} (visitor : Element -> V -> Result V) (options : Options).
Context (nested : list byte -> Path -> Budget * V -> Result (Z * (Budget * V))).

(** The place of a walk position in a record: the synthetic indicator words stand for its
    index word. *)
Definition record_offset (h : Header) (offset : Z) : Z := wrap64 (offset - plan_bytes (h_plan h) + 4).

Definition array_provider (h : Header) (body : list byte) (path : Path) (field : FieldId) (attribute offset : Z) (s : Budget * V)
  : Result (FieldExtent * (Budget * V)) :=
  let at_ := record_offset h offset in
  fail_if zlen body <? at_ with error2 ErrorCode.short_input at_ ;;
  let? (extent, s) :=
    (if fid_eqb field array_id && base_attribute attribute then
       let? rest := subspan_from body at_ in
       let? (n, s) := nested rest path s in
       Ok (extent2 n 0, s)
     else if base_attribute attribute && structured_field field then
       let? rest := subspan_from body at_ in
       let? x := wire_structure_extent field rest (o_timestamps options) in
       Ok (x, s)
     else
       let? size := (if base_attribute attribute then let? d := deref (resolve field) in Ok (d_words d * 4) else Ok 4) in
       Ok (extent2 size 1, s)) in
  fail_if zlen body - at_ <? x_bytes extent with error3 ErrorCode.short_input at_ (wrap64 (at_ + x_bytes extent)) ;;
  let? _ :=
    (if negb (fid_eqb field array_id) || negb (base_attribute attribute) then
       let? bytes := subspan body at_ (x_bytes extent) in
       if fid_eqb field array_id then let? _ := read_attribute_scalar array_descriptor attribute bytes in Ok tt
       else validate_wire_attribute field attribute bytes (o_timestamps options)
     else Ok tt) in
  let? b := charge_work s.1 (x_units extent) in
  Ok (extent, (b, s.2)).

Definition array_visitor (h : Header) (body : list byte) (path : Path) (e : LayoutElement) (s : Budget * V) : Result (Budget * V) :=
  let at_ := record_offset h (el_offset e) in
  let? b := charge_views s.1 1 in
  let? bytes := subspan body at_ (el_bytes e) in
  let? v := visitor (mkArrayElement (mkView (el_field e) (el_attribute e) BodyKind.values DiagnosticGroup.none bytes (o_timestamps options)) path) s.2 in
  Ok (b, v).

(** [record_path.steps[record_path.depth++]=...] in an array of four steps. *)
Definition push_step (path : Path) (step : PathStep) : Result Path :=
  if (4 <=? length path)%nat then UB else Ok (path ++ [step]).

Definition with_work (l : TraversalLimits) (work : Z) : TraversalLimits :=
  mkLimits (association_entries l) work (index_entries l) (limit_records l).

Definition walk_record (bytes : list byte) (h : Header) (path : Path) (record : Z) (s : Budget * V) : Result (Budget * V) :=
  let? body := subspan bytes (32 + record * h_words h * 4) (h_words h * 4) in
  let? index := load32 body 0 in
  let? path := push_step path (mkStep record index) in
  let? b := charge_work s.1 1 in
  let? b := charge_fields b (zlen (plan_fields (h_plan h))) in
  let? cif0 := deref (plan_cif (h_plan h) !! 0%nat) in
  let? (bw, s) := values_layout resolve (array_provider h body path) (array_visitor h body path)
    (with_work (bg_field_limits b) (bg_max_work b)) cif0 (plan_attributes (h_plan h)) (plan_fields (h_plan h)) 0 0 (b, s.2) in
  fail_if negb (wrap64 (bw.1 - plan_bytes (h_plan h) + 4) =? zlen body) with error1 ErrorCode.invalid_argument ;;
  Ok s.

Fixpoint walk_records (bytes : list byte) (h : Header) (path : Path) (records : list Z) (s : Budget * V) : Result (Budget * V) :=
  match records with
  | [] => Ok s
  | record :: records => let? s := walk_record bytes h path record s in walk_records bytes h path records s
  end.

Definition ordinals (n : Z) : list Z := Z.of_nat <$> seq 0 (Z.to_nat n).

Definition walk_array (bytes : list byte) (checked_header : option Header) (path : Path) (s : Budget * V) : Result (Z * (Budget * V)) :=
  let? h := match checked_header with Some h => Ok h | None => header bytes options end in
  fail_if (4 <=? zlen path) || (bg_max_depth s.1 <=? zlen path) || (bg_max_records s.1 <? h_records h)
    with error1 ErrorCode.resource_limit ;;
  let? b := charge_work s.1 1 in
  let? s := walk_records bytes h path (ordinals (h_records h)) (b, s.2) in
  Ok (h_bytes h, s).
End walk_array.

(** The levels below an array; a path of four steps has none. *)
Fixpoint walk (levels : nat) {V : Type} (visitor : Element -> V -> Result V) (options : Options)
    (bytes : list byte) (checked_header : option Header) (path : Path) (s : Budget * V) : Result (Z * (Budget * V)) :=
  match levels with
  | O => UB
  | S levels => walk_array visitor options (fun rest path s => walk levels visitor options rest None path s) bytes checked_header path s
  end.
Definition LEVELS : nat := 5.

(** ** Validated arrays *)

Record View := mkArrayView { vw_bytes : list byte; vw_options : Options; vw_initial : Budget }.

Definition record_count (v : View) : Result Z := let? w := load32 (vw_bytes v) 4 in Ok (Z.land w 4095).

Definition record (v : View) (index : Z) : Result (list byte) :=
  let? n := record_count v in
  fail_if n <=? index with error1 ErrorCode.invalid_argument ;;
  let? w := load32 (vw_bytes v) 4 in
  let width := Z.land (Z.shiftr w 12) 4095 in
  subspan (vw_bytes v) (32 + index * width * 4) (width * 4).

Definition visit {V : Type} (v : View) (visitor : Element -> V -> Result V) (s : V) : Result V :=
  let? (_, s) := walk LEVELS visitor (vw_options v) (vw_bytes v) None [] (vw_initial v, s) in
  Ok s.2.

(** [validate] returns the view and the shared budget, which changes only on success. *)
Definition validate (exact_field : list byte) (options : Options) (shared : Budget) : Result (View * Budget) :=
  let? parsed := header exact_field options in
  fail_if negb (h_bytes parsed =? zlen exact_field) with error1 ErrorCode.invalid_argument ;;
  let? candidate := charge_fields shared 1 in
  let initial := candidate in
  let? (walked, s) := walk LEVELS (fun _ s => Ok s) options exact_field (Some parsed) [] (candidate, tt) in
  fail_if negb (walked =? zlen exact_field) with error1 ErrorCode.invalid_argument ;;
  Ok (mkArrayView exact_field options initial, s.1).
