(* ===== verification/ArrayProofs.v ===== *)
(** * Arrays of indicator words: what a validated array shows

    Two arguments meet here.  The walk is uniform in its visitor, so that what it visits does
    not depend on who visits it; and the walk with a visitor that collects the elements
    returns elements that are readable and that tile the records of the array. *)

From S2P Require Import Prelude Wire WireProofs Fields Scalar Structured Packet ArrayCif.

(** ** The walk is uniform in its visitor *)

Fixpoint fold_visit {V : Type} (f : Element -> V -> Result V) (elements : list Element) (s : V) : Result V :=
  match elements with
  | [] => Ok s
  | e :: elements => let? s := f e s in fold_visit f elements s
  end.

Lemma fold_visit_app {V} (f : Element -> V -> Result V) l1 l2 s :
  fold_visit f (l1 ++ l2) s = (let? s := fold_visit f l1 s in fold_visit f l2 s).
Proof. revert s. induction l1 as [|e l1 IH]; intros s; cbn; [done|]. destruct (f e s); cbn; auto. Qed.

(** A traversal, for any visitor and from a budget and a state of the visitor. *)
Definition Traversal (A : Type) : Type := forall V : Type, (Element -> V -> Result V) -> Budget * V -> Result (A * (Budget * V)).

(** Its result, which depends on the budget alone, with the state of the visitor. *)
Definition finish {A V} (r : Result (A * Budget)) (s : V) : Result (A * (Budget * V)) := let? (a, b) := r in Ok (a, (b, s)).

(** Whatever the visitor, it is shown a prefix of the same elements, and the traversal ends in
    the same way unless the visitor ends it before. *)
Definition traced {A} (m : Traversal A) : Prop := forall b, exists elements r, forall V (f : Element -> V -> Result V) s,
  m V f (b, s) = (let? s := fold_visit f elements s in finish r s).

Lemma traced_result {A} (r : Budget -> Result (A * Budget)) (m : Traversal A) :
  (forall V f b (s : V), m V f (b, s) = finish (r b) s) -> traced m.
Proof. intros H b. exists [], (r b). intros V f s. apply H. Qed.

Lemma traced_bind {A B} (m : Traversal A) (k : A -> Traversal B) :
  traced m -> (forall a, traced (k a)) -> traced (fun V f s => let? (a, s) := m V f s in k a V f s).
Proof.
  intros Hm Hk b. destruct (Hm b) as (l1 & [[a b1]|e|] & H1).
  - destruct (Hk a b1) as (l2 & r2 & H2). exists (l1 ++ l2), r2. intros V f s. rewrite H1, fold_visit_app.
    destruct (fold_visit f l1 s) as [s1| |]; cbn; [apply H2|done|done].
  - exists l1, (Err e). intros V f s. rewrite H1. by destruct (fold_visit f l1 s).
  - exists l1, UB. intros V f s. rewrite H1. by destruct (fold_visit f l1 s).
Qed.

Lemma traced_ext {A} (m m' : Traversal A) : (forall V f s, m V f s = m' V f s) -> traced m' -> traced m.
Proof. intros H Hm b. destruct (Hm b) as (l & r & Hr). exists l, r. intros V f s. by rewrite H. Qed.

(** A step that depends on neither the budget nor the visitor. *)
Lemma traced_pure {A B} (r : Result A) (k : A -> Traversal B) :
  (forall a, traced (k a)) -> traced (fun V f s => let? a := r in k a V f s).
Proof.
  intros Hk. destruct r as [a|e|]; cbn; [apply Hk| |].
  - by apply (traced_result (fun _ => Err e)).
  - by apply (traced_result (fun _ => UB)).
Qed.
Lemma traced_guard {A} (c : bool) e (k : Traversal A) : traced k -> traced (fun V f s => if c then Err e else k V f s).
Proof. destruct c; [|done]. intros _. by apply (traced_result (fun _ => Err e)). Qed.
Lemma traced_ret {A} (a : A) : traced (fun V f s => Ok (a, s)).
Proof. apply (traced_result (fun b => Ok (a, b))). done. Qed.

(** A step that reads or charges the budget. *)
Lemma traced_budget {A} (g : Budget -> Result Budget) (k : Traversal A) :
  traced k -> traced (fun V f s => let? b := g s.1 in k V f (b, s.2)).
Proof.
  intros Hk b. cbn [fst snd]. destruct (g b) as [b1|e|]; [apply (Hk b1)| |].
  - by exists [], (Err e).
  - by exists [], UB.
Qed.
Lemma traced_read {A} (c : Budget -> bool) e (k : Traversal A) : traced k -> traced (fun V f s => if c s.1 then Err e else k V f s).
Proof. intros Hk b. cbn [fst]. destruct (c b); [by exists [], (Err e)|apply Hk]. Qed.

(** The same for a traversal without a result. *)
Definition traced_unit (m : forall V : Type, (Element -> V -> Result V) -> Budget * V -> Result (Budget * V)) : Prop :=
  traced (fun V f s => let? s := m V f s in Ok (tt, s)).

Lemma traced_then {A} (m : forall V, (Element -> V -> Result V) -> Budget * V -> Result (Budget * V)) (k : Traversal A) :
  traced_unit m -> traced k -> traced (fun V f s => let? s := m V f s in k V f s).
Proof.
  intros Hm Hk. eapply traced_ext; [|apply (traced_bind _ (fun _ => k) Hm); intros _; exact Hk].
  intros V f s. cbn. by destruct (m V f s).
Qed.

Section layout.
Context (resolver : FieldId -> option FieldDescriptor) (limits : TraversalLimits).
Context (provider : FieldId -> Z -> Z -> Traversal FieldExtent).
Context (visitor : LayoutElement -> forall V : Type, (Element -> V -> Result V) -> Budget * V -> Result (Budget * V)).
Context (Hp : forall field a o, traced (provider field a o)) (Hv : forall e, traced_unit (visitor e)).

Lemma values_attribute_traced field a o w :
  traced (fun V f s => values_attribute (fun field a o s => provider field a o V f s) (fun e s => visitor e V f s) limits field a o w s).
Proof.
  unfold values_attribute. apply (traced_bind (provider field a o) (fun extent V f s => _)); [apply Hp|]. intros x.
  apply traced_pure. intros next. cbv zeta. do 3 apply traced_guard. apply (traced_then (visitor _)); [apply Hv|apply traced_ret].
Qed.

Lemma values_attributes_traced field l o w :
  traced (fun V f s => values_attributes (fun field a o s => provider field a o V f s) (fun e s => visitor e V f s) limits field l o w s).
Proof.
  revert o w. induction l as [|a l IH]; intros o w; cbn [values_attributes]; [apply traced_ret|].
  apply (traced_bind (fun V f s => values_attribute _ _ _ _ _ _ _ s) (fun ow V f s => _)); [apply values_attribute_traced|]. intros ow. apply IH.
Qed.

Lemma values_fields_traced attributes fields o w :
  traced (fun V f s => values_fields resolver (fun field a o s => provider field a o V f s) (fun e s => visitor e V f s) limits attributes fields o w s).
Proof.
  revert o w. induction fields as [|field fields IH]; intros o w; cbn [values_fields]; [apply traced_ret|].
  destruct (resolver field) as [d|]; [|by apply (traced_result (fun _ => Err (error2 ErrorCode.unsupported_layout o)))]. cbv zeta. apply traced_guard.
  apply (traced_bind (fun V f s => values_attributes _ _ _ _ _ _ _ s) (fun ow V f s => _)); [apply values_attributes_traced|]. intros ow. apply IH.
Qed.
End layout.

Section array.
Context (options : Options) (nested : forall V : Type, (Element -> V -> Result V) -> list byte -> Path -> Budget * V -> Result (Z * (Budget * V))).
Context (Hn : forall rest path, traced (fun V f s => nested V f rest path s)).

Lemma array_provider_traced h body path field a o : traced (fun V f s => array_provider options (nested V f) h body path field a o s).
Proof.
  unfold array_provider. cbv zeta. apply traced_guard.
  apply (traced_bind (fun V f s => if fid_eqb field array_id && base_attribute a then _ else if base_attribute a && structured_field field then _ else _)
    (fun x V f s => _)).
  - destruct (_ && _); [|destruct (_ && _)].
    + apply traced_pure. intros rest. apply (traced_bind (fun V f s => nested V f rest path s) (fun n V f s => Ok (extent2 n 0, s))); [apply Hn|].
      intros n. apply traced_ret.
    + apply traced_pure. intros rest. apply traced_pure. intros x. apply traced_ret.
    + apply traced_pure. intros size. apply traced_ret.
  - intros x. apply traced_guard. apply traced_pure. intros _.
    apply (traced_budget (fun b => charge_work b (x_units x)) (fun V f s => Ok (x, s))), traced_ret.
Qed.

Lemma array_visitor_traced h body path e : traced_unit (fun V f s => array_visitor f options h body path e s).
Proof.
  intros b. unfold array_visitor. cbn [fst snd]. destruct (charge_views b 1) as [b1|x|]; [|by exists [], (Err x)|by exists [], UB].
  cbn [rbind]. destruct (subspan _ _ _) as [bytes|x|]; [|by exists [], (Err x)|by exists [], UB]. cbn [rbind].
  exists [mkArrayElement (mkView (el_field e) (el_attribute e) BodyKind.values DiagnosticGroup.none bytes (o_timestamps options)) path], (Ok (tt, b1)).
  intros V f s. cbn [fold_visit]. by destruct (f _ s).
Qed.

(** The steps before the layout walk, from a fixed budget. *)
Tactic Notation "fixed_step" ident(v) := match goal with
  | |- exists _ _, forall V f s, (let? s1 := (let? _ := ?r in _) in _) = _ => destruct r as [v|x|]; [cbn [rbind]|by exists [], (Err x)|by exists [], UB]
  end.

Lemma walk_record_traced bytes h path i : traced_unit (fun V f s => walk_record f options (nested V f) bytes h path i s).
Proof.
  intros b. unfold walk_record. cbn [fst snd]. fixed_step body. fixed_step index. fixed_step rpath. fixed_step b1. fixed_step b2. fixed_step cif0.
  set (limits := with_work _ _).
  assert (Hl : traced (fun V f s => values_layout resolve (array_provider options (nested V f) h body rpath) (array_visitor f options h body rpath) limits cif0
      (plan_attributes (h_plan h)) (plan_fields (h_plan h)) 0 0 s)).
  { unfold values_layout. apply traced_pure. intros head.
    apply (traced_bind (fun V f s => values_fields _ _ _ _ _ _ _ _ s) (fun ow V f s => Ok (ow.1 - 0, ow.2, s))); [|intros ow; apply traced_ret].
    apply (values_fields_traced resolve limits (fun field a' o V f s => array_provider options (nested V f) h body rpath field a' o s)
      (fun e V f s => array_visitor f options h body rpath e s)); [intros; apply array_provider_traced|intros; apply array_visitor_traced]. }
  assert (H : traced (fun V f s => let? (bw, s) := values_layout resolve (array_provider options (nested V f) h body rpath) (array_visitor f options h body rpath) limits cif0
      (plan_attributes (h_plan h)) (plan_fields (h_plan h)) 0 0 s in
      if negb (wrap64 (bw.1 - plan_bytes (h_plan h) + 4) =? zlen body) then Err (error1 ErrorCode.invalid_argument) else Ok (tt, s))).
  { apply (traced_bind _ (fun bw V f s => _) Hl). intros bw. apply traced_guard, traced_ret. }
  destruct (H b2) as (els & r & Hr). exists els, r. intros V f s. rewrite <- Hr.
  destruct (values_layout _ _ _ _ _ _ _ _ _ _) as [[bw s']| |]; cbn; [by destruct (negb _)|done|done].
Qed.

Lemma walk_records_traced bytes h path l : traced_unit (fun V f s => walk_records f options (nested V f) bytes h path l s).
Proof.
  induction l as [|i l IH]; unfold traced_unit; cbn [walk_records]; [apply traced_ret|].
  eapply traced_ext; [intros V f s; rewrite rbind_assoc; reflexivity|].
  apply (traced_then (fun V f s => walk_record f options (nested V f) bytes h path i s) (fun V f s => let? s := walk_records f options (nested V f) bytes h path l s in Ok (tt, s)));
    [apply walk_record_traced|apply IH].
Qed.

Lemma walk_array_traced bytes checked path : traced (fun V f s => walk_array f options (nested V f) bytes checked path s).
Proof.
  unfold walk_array. apply traced_pure. intros h.
  apply (traced_read (fun b => (4 <=? zlen path) || (bg_max_depth b <=? zlen path) || (bg_max_records b <? h_records h)) _
    (fun V f s => let? b := charge_work s.1 1 in let? s := walk_records f options (nested V f) bytes h path (ordinals (h_records h)) (b, s.2) in Ok (h_bytes h, s))).
  apply (traced_budget (fun b => charge_work b 1) (fun V f s => let? s := walk_records f options (nested V f) bytes h path (ordinals (h_records h)) s in Ok (h_bytes h, s))).
  apply (traced_then (fun V f s => walk_records f options (nested V f) bytes h path (ordinals (h_records h)) s) (fun V f s => Ok (h_bytes h, s)));
    [apply walk_records_traced|apply traced_ret].
Qed.
End array.

Lemma walk_traced levels options bytes checked path : traced (fun V f s => walk levels f options bytes checked path s).
Proof.
  revert bytes checked path. induction levels as [|levels IH]; intros bytes checked path; cbn [walk].
  - by apply (traced_result (fun _ => UB)).
  - apply (walk_array_traced options (fun V f rest path s => walk levels f options rest None path s)). intros. apply IH.
Qed.

(** With a visitor that collects, the elements themselves come out. *)
Definition collect (e : Element) (elements : list Element) : Result (list Element) := Ok (elements ++ [e]).

Lemma fold_collect els acc : fold_visit collect els acc = Ok (acc ++ els).
Proof. revert acc. induction els as [|e els IH]; intros acc; cbn; [by rewrite app_nil_r|]. by rewrite IH, <- app_assoc. Qed.

(** ** The header *)

Lemma select_array_fields_safe ids selected : safe (select_array_fields ids selected).
Proof.
  revert selected. induction ids as [|id ids IH]; intros selected; cbn [select_array_fields]; [done|].
  destruct (is_none _); [done|]. destruct (_ =? _)%nat; [done|]. apply IH.
Qed.

Lemma land_4095 w : 0 <= Z.land w 4095 <= 4095.
Proof. change (Z.land w 4095) with (Z.land w (Z.ones 12)). rewrite Z.land_ones by lia. pose proof (Z.mod_pos_bound w (2 ^ 12) eq_refl) as Hm. change (2 ^ 12) with 4096 in *. lia. Qed.

Lemma header_safe bytes options : safe (header bytes options).
Proof.
  unfold header. cbv zeta. test_goal E1; [done|]. test_goal E2; [done|]. destruct (Z.ltb_spec (zlen bytes) 12); [done|].
  destruct (load32_ok bytes 0) as (total & -> & Ht); [lia..|]. destruct (load32_ok bytes 4) as (header1 & -> & _); [lia..|]. cbn [rbind].
  apply rbind_safe; [test_goal E; [done|apply load32_safe; lia]|]. intros third _. test_goal E3; [done|].
  apply rbind_safe; [apply checked_multiply_safe|]. intros product Hp. apply rbind_safe; [apply checked_add_safe|]. intros words Hw.
  destruct (Z.eqb_spec total words) as [->|]; [|done]. cbn [negb orb]. test_goal E4; [done|].
  apply rbind_safe; [apply checked_multiply_safe|]. intros extent He. destruct (Z.ltb_spec (zlen bytes) extent); [done|].
  assert (32 <= zlen bytes).
  { unfold checked_add, checked_multiply in *. inv_ok. pose proof (land_4095 header1).
    pose proof (land_4095 (Z.shiftr header1 12)). nia. }
  safe_steps. apply select_array_fields_safe.
Qed.

(** What a header says about the bytes it was read from. *)
Record header_ok (bytes : list byte) (h : Header) : Prop := mkHeaderOk {
  ho_words : 0 <= h_words h <= 4095;
  ho_records : 0 <= h_records h <= 4095;
  ho_width : 0 < h_records h -> 1 <= h_words h;
  ho_bytes : h_bytes h = (8 + h_words h * h_records h) * 4;
  ho_inside : h_bytes h <= zlen bytes;
  ho_cif : exists cif0, plan_cif (h_plan h) !! 0%nat = Some cif0 /\ plan_bytes (h_plan h) = layout_words cif0 * 4;
  ho_word : exists w, load32 bytes 4 = Ok w /\ h_records h = Z.land w 4095 /\ h_words h = Z.land (Z.shiftr w 12) 4095
}.

Lemma header_spec bytes options h : header bytes options = Ok h -> header_ok bytes h.
Proof.
  unfold header. cbv zeta. intros H. inv_ok. rename x0 into header1.
  pose proof (land_4095 header1). pose proof (land_4095 (Z.shiftr header1 12)).
  repeat match goal with H : _ || _ = false |- _ => apply orb_false_iff in H as [? ?] end. unfold checked_add, checked_multiply in *. inv_ok.
  match goal with H : negb (_ =? _) = false |- _ => apply negb_false_iff, Z.eqb_eq in H; subst end.
  split; cbn [h_bytes h_words h_records h_plan plan_cif plan_bytes]; [done|done| | | | |].
  - intros Hr. match goal with H : nonzero _ && (_ <? 1) = false |- _ => apply andb_false_iff in H as [Hz|Hz] end; [|apply Z.ltb_ge in Hz; lia].
    apply negb_false_iff, Z.eqb_eq in Hz. lia.
  - lia.
  - match goal with H : (zlen bytes <? _ * 4) = false |- _ => apply Z.ltb_ge in H; exact H end.
  - eexists. split; reflexivity.
  - exists header1. done.
Qed.

Lemma load32_take bytes n o : 0 <= o -> o + 4 <= Z.of_nat n -> load32 (take n bytes) o = load32 bytes o.
Proof.
  intros Ho Hn. unfold load32. destruct (o <? 0); [done|]. rewrite (take_drop_commute (take n bytes)), take_take, Nat.min_l, <- take_drop_commute by lia. done.
Qed.

(** A header is read from its own extent alone. *)
Lemma header_take bytes options h : header bytes options = Ok h -> header (take (Z.to_nat (h_bytes h)) bytes) options = Ok h.
Proof.
  intros H. destruct (header_spec _ _ _ H) as [Hw Hr _ Hb Hi _ _]. assert (32 <= h_bytes h) by nia.
  assert (Hl : zlen (take (Z.to_nat (h_bytes h)) bytes) = h_bytes h) by (unfold zlen in *; rewrite length_take; lia).
  revert H. unfold header. rewrite Hl. cbv zeta. intros H. rewrite !load32_take by lia. inv_ok. cbn [h_bytes] in *.
  repeat match goal with H : _ = false |- _ => rewrite H; clear H | H : _ = Ok _ |- _ => rewrite H; clear H; cbn [rbind] end.
  rewrite !(proj2 (Z.ltb_ge _ _)) by lia. 
  done.
Qed.

(** ** The layout walk

    Without effects in its provider and with the registry's descriptors, the walk is the one
    of [Packet]: both are the same template. *)
Lemma values_layout_pure {S} (p : FieldId -> Z -> Z -> Result FieldExtent) (visitor : LayoutElement -> S -> Result S) limits cif0 attributes fields o w s :
  values_layout descriptor (fun field a o s => let? x := p field a o in Ok (x, s)) visitor limits cif0 attributes fields o w s =
  walk_field_layout BodyKind.values false (fun f => f) p visitor limits cif0 attributes fields o w s.
Proof.
  assert (Ha : forall field a o w s, values_attribute (fun field a o s => let? x := p field a o in Ok (x, s)) visitor limits field a o w s =
    walk_attribute BodyKind.values false (fun f => f) p visitor limits field a o w s).
  { intros. unfold values_attribute, walk_attribute. rewrite rbind_assoc. destruct (p _ _ _) as [x| |]; [|done|done]. cbn [rbind]. cbv zeta.
    change (bool_decide (BodyKind.values = BodyKind.values)) with true. change (bool_decide (BodyKind.values = BodyKind.selectors)) with false.
    by rewrite andb_true_r. }
  unfold values_layout, walk_field_layout. destruct (checked_add o _) as [head| |]; [|done|done]. cbn [rbind]. f_equal. clear o. revert head w s.
  induction fields as [|field fields IH]; intros head w s; cbn [values_fields walk_fields]; [done|]. destruct (descriptor field) as [d|]; [|done]. cbv zeta.
  destruct (nonzero _); [done|]. set (l := attribute_list _). clearbody l. revert head w s. induction l as [|a l IHl]; intros head w s; cbn [values_attributes walk_attributes];
    [apply IH|]. rewrite Ha. destruct (walk_attribute _ _ _ _ _ _ _ _ _ _ _) as [[ow s1]| |]; [|done|done]. cbn [rbind]. apply IHl.
Qed.

(** It keeps an invariant of its provider and its visitor. *)
Section layout_invariant.
Context {S : Type} (resolver : FieldId -> option FieldDescriptor).
Context (provider : FieldId -> Z -> Z -> S -> Result (FieldExtent * S)) (visitor : LayoutElement -> S -> Result S).
Context (limits : TraversalLimits) (I : Z -> S -> Prop) (X : FieldId -> Z -> Z -> FieldExtent -> Prop).
Context (Hp : forall field a o s, is_some (resolver field) = true -> 0 <= a <= 12 -> I o s ->
  returns (provider field a o s) (fun xs => X field a o xs.1 /\ I o xs.2)).
Context (Hv : forall field a o x s, X field a o x -> I o s -> returns (visitor (mkElement field a o (x_bytes x)) s) (I (o + x_bytes x))).

Lemma values_attribute_inv field a o w s : is_some (resolver field) = true -> 0 <= a <= 12 -> I o s ->
  returns (values_attribute provider visitor limits field a o w s) (fun r => I r.1.1 r.2).
Proof.
  intros Hf Ha Hi. unfold values_attribute. eapply returns_bind; [by apply Hp|]. intros [x s1] _ [Hx Hi1]. cbn [fst snd] in *.
  eapply returns_bind; [apply returns_safe, checked_add_safe|]. intros next Hn _. cbv zeta. do 3 (apply returns_guard; intros _).
  eapply returns_bind; [by apply Hv|]. cbn beta. intros s2 _ Hi2. cbn. unfold checked_add in Hn. by inv_ok.
Qed.

Lemma values_attributes_inv field l o w s : is_some (resolver field) = true -> Forall (fun a => 0 <= a <= 12) l -> I o s ->
  returns (values_attributes provider visitor limits field l o w s) (fun r => I r.1.1 r.2).
Proof.
  intros Hf Hl. revert o w s. induction Hl as [|a l Ha Hl IH]; intros o w s Hi; cbn [values_attributes]; [done|].
  eapply returns_bind; [by apply values_attribute_inv|]. intros [[o1 w1] s1] _ Hi1. by apply IH.
Qed.

Lemma values_fields_inv attributes fields o w s : I o s ->
  returns (values_fields resolver provider visitor limits attributes fields o w s) (fun r => I r.1.1 r.2).
Proof.
  revert o w s. induction fields as [|field fields IH]; intros o w s Hi; cbn [values_fields]; [done|].
  destruct (resolver field) as [d|] eqn:Ed; [|done]. cbv zeta. apply returns_guard. intros _.
  eapply returns_bind; [apply values_attributes_inv; [by rewrite Ed|apply attribute_list_range|done]|]. intros [[o1 w1] s1] _ Hi1. by apply IH.
Qed.
End layout_invariant.

(** ** The elements of a record *)

(** A readable element: an array inside a record has a header that covers its bytes, any other
    value has passed the validation of its field, and the accessors of its view are defined. *)
Definition element_ok (options : Options) (e : Element) : Prop :=
  let v := ae_field e in
  0 <= fv_attribute v <= 12 /\ fv_kind v = BodyKind.values /\
  if fid_eqb (fv_id v) array_id then
    if base_attribute (fv_attribute v) then exists h, header (fv_bytes v) options = Ok h /\ h_bytes h = zlen (fv_bytes v)
    else exists value, read_attribute_scalar array_descriptor (fv_attribute v) (fv_bytes v) = Ok value
  else validate_wire_attribute (fv_id v) (fv_attribute v) (fv_bytes v) (o_timestamps options) = Ok tt /\ view_ok v.

(** The bytes of the elements at one place, in order. *)
Definition bytes_at (path : Path) (elements : list Element) : list byte :=
  concat ((fun e => fv_bytes (ae_field e)) <$> filter (fun e => ae_path e = path) elements).

Definition below (path : Path) (e : Element) : Prop := exists rest, ae_path e = path ++ rest.
Definition beyond (path : Path) (e : Element) : Prop := exists step rest, ae_path e = path ++ step :: rest.

Lemma bytes_at_app path l1 l2 : bytes_at path (l1 ++ l2) = bytes_at path l1 ++ bytes_at path l2.
Proof. unfold bytes_at. by rewrite list.filter_app, fmap_app, concat_app. Qed.

Lemma bytes_at_none path l : Forall (fun e => ae_path e <> path) l -> bytes_at path l = [].
Proof. intros Hl. unfold bytes_at. induction Hl as [|e l He Hl IH]; [done|]. rewrite filter_cons, decide_False by done. done. Qed.

Lemma beyond_apart path l : Forall (beyond path) l -> Forall (fun e => ae_path e <> path) l.
Proof.
  apply Forall_impl. intros e (step & rest & Hp) E. rewrite Hp in E. apply (f_equal length) in E. rewrite length_app in E. cbn in E. lia.
Qed.
Lemma beyond_below path e : beyond path e -> below path e.
Proof. intros (step & rest & E). by exists (step :: rest). Qed.

(** The elements that a part of the walk adds. *)
Record adds (options : Options) (where_ : Element -> Prop) (b b' : Budget) (acc acc' els : list Element) : Prop := mkAdds {
  ad_list : acc' = acc ++ els;
  ad_ok : Forall (element_ok options) els;
  ad_where : Forall where_ els;
  ad_views : bg_views b' = bg_views b + zlen els
}.

Lemma adds_nil options P b acc : adds options P b b acc acc [].
Proof. split; [by rewrite app_nil_r|done|done|]. unfold zlen. cbn. lia. Qed.
Lemma adds_app options P b b1 b2 acc acc1 acc2 l1 l2 :
  adds options P b b1 acc acc1 l1 -> adds options P b1 b2 acc1 acc2 l2 -> adds options P b b2 acc acc2 (l1 ++ l2).
Proof.
  intros [-> H1 H2 H3] [-> H4 H5 H6]. split; [by rewrite app_assoc|by apply Forall_app|by apply Forall_app|]. rewrite zlen_app. lia.
Qed.
Lemma adds_impl options (P Q : Element -> Prop) b b1 acc acc1 l : (forall e, P e -> Q e) -> adds options P b b1 acc acc1 l -> adds options Q b b1 acc acc1 l.
Proof. intros HPQ [H1 H2 H3 H4]. split; try done. by eapply Forall_impl. Qed.
Lemma adds_charged options P b b0 b1 acc acc1 l : bg_views b0 = bg_views b -> adds options P b0 b1 acc acc1 l -> adds options P b b1 acc acc1 l.
Proof. intros E [H1 H2 H3 H4]. split; try done. lia. Qed.

Lemma charge_safe used limit n : safe (charge used limit n).
Proof. unfold charge. by case_match. Qed.
Lemma charge_work_ok b n : returns (charge_work b n) (fun b' => bg_views b' = bg_views b).
Proof. unfold charge_work. eapply returns_bind; [apply returns_safe, charge_safe|]. by intros. Qed.
Lemma charge_fields_ok b n : returns (charge_fields b n) (fun b' => bg_views b' = bg_views b).
Proof. unfold charge_fields. eapply returns_bind; [apply returns_safe, charge_safe|]. by intros. Qed.
Lemma charge_views_ok b n : returns (charge_views b n) (fun b' => bg_views b' = bg_views b + n).
Proof. unfold charge_views. eapply returns_bind; [apply returns_safe, charge_safe|]. intros used Hu _. cbn. unfold charge in Hu. by inv_ok. Qed.

(** What the walk of an array below a path does. *)
Definition walks (options : Options) (path : Path) (rest : list byte) (s : Budget * list Element) (r : Z * (Budget * list Element)) : Prop :=
  (exists els, adds options (beyond path) s.1 r.2.1 s.2 r.2.2 els) /\ exists h, header rest options = Ok h /\ h_bytes h = r.1.

Section record.
Context (options : Options) (nested : list byte -> Path -> Budget * list Element -> Result (Z * (Budget * list Element))).
Context (depth : nat) (Hn : forall rest path s, (depth <= length path <= 4)%nat -> returns (nested rest path s) (walks options path rest s)).
Context (h : Header) (body : list byte) (path : Path) (Hpath : (depth <= length path <= 4)%nat) (Hbody : zlen body <= U32_MAX) (Hplan : 0 <= plan_bytes (h_plan h)).

Definition place (offset : Z) : Z := offset - plan_bytes (h_plan h) + 4.

(** The elements at the path itself tile the record up to the offset of the walk. *)
Record filled (s : Budget * list Element) (offset : Z) (s' : Budget * list Element) : Prop := mkFilled {
  fi_inside : 4 <= place offset <= zlen body;
  fi_elements : exists els, adds options (below path) s.1 s'.1 s.2 s'.2 els /\
    bytes_at path els = take (Z.to_nat (place offset - 4)) (drop 4 body)
}.

Definition found (field : FieldId) (a offset : Z) (x : FieldExtent) : Prop :=
  0 <= x_bytes x <= zlen body - place offset /\
  element_ok options (mkArrayElement (mkView field a BodyKind.values DiagnosticGroup.none
    (take (Z.to_nat (x_bytes x)) (drop (Z.to_nat (place offset)) body)) (o_timestamps options)) path).

Lemma record_offset_place offset : 4 <= place offset <= zlen body -> record_offset h offset = place offset.
Proof. clear Hpath. intros H. unfold record_offset. fold (place offset). zlia. Qed.

(** The extent of an attribute, before it is compared with the rest of the record. *)
Definition extent_found (field : FieldId) (a : Z) (rest : list byte) (x : FieldExtent) : Prop :=
  0 <= x_bytes x /\
  (fid_eqb field array_id = true -> base_attribute a = true -> exists h', header rest options = Ok h' /\ h_bytes h' = x_bytes x) /\
  (base_attribute a = false -> x_bytes x = 4) /\
  (forall d, descriptor field = Some d -> fid_eqb field array_id = false -> base_attribute a = true -> structured_field field = false ->
     x_bytes x = d_words d * 4).

Lemma filled_nested s offset s1 s2 rest n :
  filled s offset s1 -> walks options path rest s1 (n, s2) -> filled s offset s2.
Proof.
  intros [Hin (els & Hadds & Hb)] [(els' & Hadds') _]. cbn [fst snd] in *. split; [done|]. exists (els ++ els'). split.
  - eapply adds_app; [done|]. eapply adds_impl; [|done]. apply beyond_below.
  - rewrite bytes_at_app, (bytes_at_none path els'), app_nil_r; [done|]. apply beyond_apart, Hadds'.
Qed.

Lemma extent_ok s field a offset s1 rest : is_some (resolve field) = true -> filled s offset s1 -> subspan_from body (place offset) = Ok rest ->
  returns (if fid_eqb field array_id && base_attribute a then
       let? rest := subspan_from body (place offset) in
       let? (n, s) := nested rest path s1 in
       Ok (extent2 n 0, s)
     else if base_attribute a && structured_field field then
       let? rest := subspan_from body (place offset) in
       let? x := wire_structure_extent field rest (o_timestamps options) in
       Ok (x, s1)
     else
       let? size := (if base_attribute a then let? d := deref (resolve field) in Ok (d_words d * 4) else Ok 4) in
       Ok (extent2 size 1, s1)) (fun xs => extent_found field a rest xs.1 /\ filled s offset xs.2).
Proof.
  intros Hf Hfill ->. unfold extent_found. destruct (fid_eqb field array_id) eqn:Ef, (base_attribute a) eqn:Eb; cbn [andb rbind].
  - eapply returns_bind; [by apply Hn|]. intros [n s2] _ Hw. pose proof (filled_nested _ _ _ _ _ _ Hfill Hw) as Hfill'.
    destruct Hw as [_ (h' & Hh & Hb)]. cbn [fst snd returns extent2 x_bytes] in *. destruct (header_spec _ _ _ Hh) as [H1 H2 _ H3 _ _ _].
    split_and!; [nia|by eauto|done|done|done].
  - cbn. by split_and!.
  - destruct (structured_field field) eqn:Es.
    + eapply returns_bind; [apply returns_safe, wire_structure_extent_safe|]. intros x Hx _. apply wire_structure_extent_ok in Hx. cbn.
      split_and!; [lia|done|done|done|done].
    + unfold resolve in *. rewrite Ef in *. destruct (descriptor field) as [d|] eqn:Ed; [|done]. cbn.
      destruct (scalar_words _ _ Ed Es); (split_and!; [lia|done|done|by intros d' [= <-]|done]).
  - destruct (structured_field field); cbn; by split_and!.
Qed.

Lemma charge_filled s offset s1 b : filled s offset s1 -> bg_views b = bg_views s1.1 -> filled s offset (b, s1.2).
Proof. intros [Hin (els & [H1 H2 H3 H4] & Hb)] E. split; [done|]. exists els. split; [|done]. split; cbn; [done|done|done|lia]. Qed.

(** A field that is no array, once its bytes have been cut out. *)
Lemma validated_found field a bytes : is_some (resolve field) = true -> fid_eqb field array_id = false -> 0 <= a <= 12 ->
  (forall d, descriptor field = Some d -> base_attribute a = true -> structured_field field = false -> zlen bytes = d_words d * 4) ->
  returns (validate_wire_attribute field a bytes (o_timestamps options)) (fun _ =>
    validate_wire_attribute field a bytes (o_timestamps options) = Ok tt /\
    view_ok (mkView field a BodyKind.values DiagnosticGroup.none bytes (o_timestamps options))).
Proof.
  intros Hf Ef Ha Hl. unfold resolve in Hf. rewrite Ef in Hf. destruct (descriptor field) as [d|] eqn:Ed; [|done].
  pose proof (validate_wire_attribute_safe field d a bytes (o_timestamps options) Ed ltac:(lia) (Hl d eq_refl)) as Hs.
  destruct (validate_wire_attribute _ _ _ _) as [[]| |]; [|done|done]. cbn. split; [done|]. split; [lia|]. exists d. split; [done|]. by apply Hl.
Qed.

Lemma array_provider_ok s field a offset s1 :
  is_some (resolve field) = true -> 0 <= a <= 12 -> filled s offset s1 ->
  returns (array_provider options nested h body path field a offset s1) (fun xs => found field a offset xs.1 /\ filled s offset xs.2).
Proof.
  intros Hf Ha Hfill. pose proof (fi_inside _ _ _ Hfill) as Hin. unfold array_provider. rewrite record_offset_place by done. cbv zeta.
  apply returns_guard. intros _. set (rest := drop (Z.to_nat (place offset)) body).
  assert (Hrest : subspan_from body (place offset) = Ok rest).
  { unfold subspan_from. rewrite (proj2 (Z.ltb_ge (place offset) 0)), (proj2 (Z.ltb_ge (zlen body) (place offset))) by lia. done. }
  eapply returns_bind; [by apply extent_ok|]. intros [x s2] _ [(Hx & Harr & H4 & Hd) Hfill2]. cbn [fst snd] in *. apply returns_guard. intros Hfit%Z.ltb_ge.
  destruct (subspan_ok body (place offset) (x_bytes x)) as [Hsub Hlen]; [lia..|]. rewrite Hsub. cbn [rbind]. fold rest in Hlen |- *.
  eapply (returns_bind _ _ (fun _ => found field a offset x)).
  - unfold found, element_ok. cbn [ae_field fv_attribute fv_kind fv_id fv_bytes]. fold rest. set (bytes := take _ rest) in *.
    destruct (fid_eqb field array_id) eqn:Ef, (base_attribute a) eqn:Eb; cbn [negb orb].
    + cbn. destruct (Harr eq_refl eq_refl) as (h' & Hh & Hb). split_and!; try done; try lia. exists h'. rewrite Hlen. split; [|done].
      unfold bytes. rewrite <- Hb. by apply header_take.
    + eapply returns_bind; [apply returns_safe, read_attribute_scalar_safe; [by rewrite Eb|lia]|]. intros value Hv _. cbn. split_and!; try done; try lia. by eexists.
    + eapply returns_mono; [apply validated_found; [done..|]; intros d Hd' _ Hs; rewrite Hlen; by apply Hd|]. intros _ [??]. split_and!; (done || lia).
    + eapply returns_mono; [apply validated_found; [done..|]; congruence|]. intros _ [??]. split_and!; (done || lia).
  - intros _ _ Hfound. eapply returns_bind; [apply charge_work_ok|]. cbn beta. intros b _ Hb. cbn. split; [done|]. by apply charge_filled.
Qed.

Lemma array_visitor_ok s field a offset x s1 : found field a offset x -> filled s offset s1 ->
  returns (array_visitor collect options h body path (mkElement field a offset (x_bytes x)) s1) (filled s (offset + x_bytes x)).
Proof.
  clear Hpath. intros [Hx Hok] [Hin (els & Hadds & Hb)]. unfold array_visitor. cbn [el_offset el_bytes el_field el_attribute]. rewrite record_offset_place by done. cbv zeta.
  eapply returns_bind; [apply charge_views_ok|]. cbn beta. intros b _ Hv. destruct (subspan_ok body (place offset) (x_bytes x)) as [-> Hlen]; [lia..|].
  cbn [rbind collect returns]. assert (Hp : place (offset + x_bytes x) = place offset + x_bytes x) by (unfold place; lia).
  split; [lia|]. set (bytes := take _ _) in *. eexists (els ++ [_]). split.
  - eapply adds_app; [done|]. split; [done|by constructor|constructor; [|done]|unfold zlen; cbn; lia]. exists []. by rewrite app_nil_r.
  - rewrite bytes_at_app, Hb, Hp. unfold bytes_at. rewrite filter_cons, decide_True by done. cbn. rewrite app_nil_r. unfold bytes.
    replace (Z.to_nat (place offset)) with (4 + Z.to_nat (place offset - 4))%nat by lia. rewrite <- drop_drop, take_take_drop. f_equal. lia.
Qed.
End record.

(** ** The records of an array *)

(** What the walk of one record establishes. *)
Definition record_walked (options : Options) (bytes : list byte) (h : Header) (path : Path) (i : Z) (els : list Element) : Prop :=
  exists body index, subspan bytes (32 + i * h_words h * 4) (h_words h * 4) = Ok body /\ load32 body 0 = Ok index /\
    bytes_at (path ++ [mkStep i index]) els = drop 4 body.

Section records.
Context (options : Options) (nested : list byte -> Path -> Budget * list Element -> Result (Z * (Budget * list Element))).
Context (bytes : list byte) (h : Header) (Hh : header_ok bytes h) (path : Path) (Hpath : (length path < 4)%nat).
Context (Hn : forall rest path' s, (S (length path) <= length path' <= 4)%nat -> returns (nested rest path' s) (walks options path' rest s)).

Definition inside_record (l : list Z) (e : Element) : Prop := exists i index, i ∈ l /\ below (path ++ [mkStep i index]) e.

Lemma walk_record_ok i s : 0 <= i < h_records h ->
  returns (walk_record collect options nested bytes h path i s) (fun s' => exists els,
    adds options (inside_record [i]) s.1 s'.1 s.2 s'.2 els /\ record_walked options bytes h path i els).
Proof.
  intros Hi. destruct Hh as [Hw Hr Hwr Hb Hin (cif0 & Hc & Hpb) _]. specialize (Hwr ltac:(lia)). unfold walk_record.
  pose proof (layout_words_pos cif0).
  destruct (subspan_ok bytes (32 + i * h_words h * 4) (h_words h * 4)) as [Hsub Hlen]; [nia..|]. rewrite Hsub. cbn [rbind].
  set (body := take _ _) in *. destruct (load32_ok body 0) as (index & Hi0 & _); [lia..|]. rewrite Hi0. cbn [rbind]. unfold push_step.
  rewrite (proj2 (Nat.leb_gt 4 (length path))) by lia. cbn [rbind]. eapply returns_bind; [apply charge_work_ok|]. cbn beta. intros b1 _ Hb1.
  eapply returns_bind; [apply charge_fields_ok|]. cbn beta. intros b2 _ Hb2. rewrite Hc. cbn [deref rbind]. set (rp := path ++ [mkStep i index]).
  assert (Hrp : (S (length path) <= length rp <= 4)%nat) by (unfold rp; rewrite length_app; cbn; lia). assert (zlen body <= U32_MAX) by (unfold U32_MAX; lia).
  assert (Hstart : filled options h body rp (b2, s.2) (plan_bytes (h_plan h)) (b2, s.2)).
  { split; [unfold place; lia|]. exists []. split; [apply adds_nil|]. unfold place. by replace (_ - _ + 4 - 4) with 0 by lia. }
  eapply (returns_bind _ _ (fun r => filled options h body rp (b2, s.2) r.1.1 r.2)).
  - unfold values_layout. rewrite checked_add_small by (unfold U64_MAX; lia). cbn [rbind]. rewrite Z.add_0_l, <- Hpb.
    eapply returns_bind; [apply (values_fields_inv _ _ _ _ (fun o s' => filled options h body rp (b2, s.2) o s') (found options h body rp))|].
    + intros field a o s1 Hf Ha Hfill. by eapply array_provider_ok.
    + intros field a o x s1 Hx Hfill. by apply array_visitor_ok.
    + exact Hstart.
    + intros [[o w] s1] _ Hfill. cbn in *. by rewrite Z.sub_0_r.
  - intros [[o w] s1] _ [Hp (els & Hadds & Hbytes)]. cbn [fst snd] in *. unfold place in *. apply returns_guard. intros He%negb_false_iff%Z.eqb_eq.
    unfold wrap64 in He. rewrite Z.mod_small in He by lia.
    cbn. exists els. split.
    + eapply adds_charged; [|eapply adds_impl; [|exact Hadds]]; [cbn; lia|]. intros e He1. exists i, index. split; [apply list_elem_of_singleton; done|done].
    + exists body, index. split_and!; [done|done|]. fold rp. rewrite Hbytes. apply take_ge. unfold zlen in *. rewrite length_drop. lia.
Qed.
Lemma inside_record_apart l i index els : i ∉ l -> Forall (inside_record l) els -> bytes_at (path ++ [mkStep i index]) els = [].
Proof.
  intros Hi Hf. apply bytes_at_none. eapply Forall_impl; [|exact Hf]. intros e (j & index' & Hj & rest & Hp) E. rewrite E, <- app_assoc in Hp.
  apply app_inv_head in Hp. by injection Hp as [= -> _ _].
Qed.

Lemma walk_records_ok l s : NoDup l -> Forall (fun i => 0 <= i < h_records h) l ->
  returns (walk_records collect options nested bytes h path l s) (fun s' => exists els,
    adds options (inside_record l) s.1 s'.1 s.2 s'.2 els /\ forall i, i ∈ l -> record_walked options bytes h path i els).
Proof.
  intros Hnd. revert s. induction Hnd as [|i l Hi Hnd IH]; intros s Hf; cbn [walk_records].
  - exists []. split; [apply adds_nil|]. by intros i ?%elem_of_nil.
  - apply list.Forall_cons in Hf as [Hi' Hf]. eapply returns_bind; [by apply walk_record_ok|]. cbn beta. intros s1 _ (els1 & Ha1 & body & index & Hs & Hl & Hb).
    eapply returns_mono; [by apply IH|]. cbn beta. intros s2 (els2 & Ha2 & Hw). exists (els1 ++ els2). split.
    + eapply adds_app; (eapply adds_impl; [|eassumption]); intros e (j & index' & Hj & He); exists j, index'; (split; [|done]).
      * apply list_elem_of_singleton in Hj as ->. by left.
      * by right.
    + intros j [->|Hj]%elem_of_cons.
      * exists body, index. split_and!; [done|done|]. by rewrite bytes_at_app, Hb, (inside_record_apart l), app_nil_r by (done || apply Ha2).
      * destruct (Hw j Hj) as (body' & index' & H1 & H2 & H3). exists body', index'. split_and!; [done|done|].
        rewrite bytes_at_app, (inside_record_apart [i]), H3; [done| |apply Ha1]. intros ->%list_elem_of_singleton. done.
Qed.
End records.

Lemma ordinals_spec n : NoDup (ordinals n) /\ forall i, i ∈ ordinals n <-> 0 <= i < n.
Proof.
  unfold ordinals. split; [apply NoDup_fmap; [apply _|apply NoDup_seq]|]. intros i. rewrite list_elem_of_fmap. split.
  - intros (k & -> & Hk%elem_of_seq). lia.
  - intros Hi. exists (Z.to_nat i). split; [lia|]. apply elem_of_seq. lia.
Qed.

(** The records of an array and the elements below its path. *)
Definition array_walked (options : Options) (bytes : list byte) (h : Header) (path : Path) (s s' : Budget * list Element) : Prop :=
  exists els, adds options (inside_record path (ordinals (h_records h))) s.1 s'.1 s.2 s'.2 els /\
    forall i, 0 <= i < h_records h -> record_walked options bytes h path i els.

Lemma walk_array_ok options nested bytes checked path s :
  (forall rest path' s, (S (length path) <= length path' <= 4)%nat -> returns (nested rest path' s) (walks options path' rest s)) ->
  (forall h, checked = Some h -> header bytes options = Ok h) ->
  returns (walk_array collect options nested bytes checked path s) (fun r => exists h, header bytes options = Ok h /\ h_bytes h = r.1 /\
    array_walked options bytes h path s r.2).
Proof.
  intros Hn Hc. unfold walk_array. eapply (returns_bind _ _ (fun h => header bytes options = Ok h)).
  { destruct checked as [h|]; [by apply Hc|]. pose proof (header_safe bytes options). by destruct (header bytes options). }
  cbn beta. intros h _ Hh. apply returns_guard. intros Hg. apply orb_false_iff in Hg as [[Hd%Z.leb_gt _]%orb_false_iff _].
  eapply returns_bind; [apply charge_work_ok|]. cbn beta. intros b _ Hb. destruct (ordinals_spec (h_records h)) as [Hnd Hin].
  eapply returns_bind; [apply (walk_records_ok options nested bytes h); [by eapply header_spec|unfold zlen in Hd; lia|done|done|]|].
  - apply list.Forall_forall. intros i. by rewrite Hin.
  - cbn beta. intros s2 _ (els & Ha & Hw). cbn. exists h. split_and!; [done|done|]. exists els. split.
    + by eapply adds_charged; [|exact Ha].
    + intros i Hi. apply Hw. by apply Hin.
Qed.

Lemma walk_ok levels options bytes checked path s :
  (length path <= 4)%nat -> (5 <= length path + levels)%nat -> (forall h, checked = Some h -> header bytes options = Ok h) ->
  returns (walk levels collect options bytes checked path s) (fun r => exists h, header bytes options = Ok h /\ h_bytes h = r.1 /\
    array_walked options bytes h path s r.2).
Proof.
  revert bytes checked path s. induction levels as [|levels IH]; intros bytes checked path s Hp Hl Hc; [lia|]. cbn [walk].
  apply walk_array_ok; [|done]. intros rest path' s' Hp'. eapply returns_mono; [apply IH; [lia|lia|done]|]. cbn beta.
  intros [n s2] (h & Hh & Hb & els & Ha & _). split; [|by exists h]. exists els. eapply adds_impl; [|exact Ha].
  intros e (i & index & _ & rest' & Hr). exists (mkStep i index), rest'. by rewrite Hr, <- app_assoc.
Qed.

(** ** Properties *)

Lemma validate_spec bytes options shared :
  returns (validate bytes options shared) (fun vs => exists h els b, header bytes options = Ok h /\ h_bytes h = zlen bytes /\
    vs.1 = mkArrayView bytes options b /\
    (forall V (f : Element -> V -> Result V) s, visit vs.1 f s = fold_visit f els s) /\
    adds options (inside_record [] (ordinals (h_records h))) shared vs.2 [] els els /\
    forall i, 0 <= i < h_records h -> record_walked options bytes h [] i els).
Proof.
  unfold validate. eapply returns_bind; [apply returns_safe, header_safe|]. intros h Hh _. apply returns_guard. intros Hlen%negb_false_iff%Z.eqb_eq.
  eapply returns_bind; [apply charge_fields_ok|]. cbn beta. intros b _ Hb. cbv zeta.
  destruct (walk_traced LEVELS options bytes (Some h) [] b) as (els & r & Hr). rewrite Hr.
  assert (Hw : returns (walk LEVELS collect options bytes (Some h) [] (b, [])) (fun r => exists h', header bytes options = Ok h' /\ h_bytes h' = r.1 /\
    array_walked options bytes h' [] (b, []) r.2)) by (apply walk_ok; [cbn; lia|cbn; unfold LEVELS; lia|congruence]).
  rewrite Hr, fold_collect in Hw.
  assert (Hf : fold_visit (fun _ (s : unit) => Ok s) els tt = Ok tt) by (clear; by induction els). rewrite Hf. cbn [rbind] in *.
  destruct r as [[n b']|x|]; cbn [finish rbind] in *; [|done|done]. cbn [returns fst snd] in Hw. destruct Hw as (h' & Hh' & Hn & els' & Ha & Hw).
  assert (h' = h) as -> by congruence. cbn [fst snd] in *. apply returns_guard. intros _. cbn [returns fst snd].
  pose proof (ad_list _ _ _ _ _ _ _ Ha) as El. cbn in El. subst els'. exists h, els, b. split_and!; [done|done|done| | |done].
  - intros V f s. unfold visit. cbn [vw_options vw_bytes vw_initial].
    assert (Hnone : walk LEVELS f options bytes None [] (b, s) = walk LEVELS f options bytes (Some h) [] (b, s)).
    { unfold LEVELS. cbn [walk]. unfold walk_array. by rewrite Hh. }
    rewrite Hnone, Hr. cbn. destruct (fold_visit f els s); done.
  - by eapply adds_charged; [|exact Ha].
Qed.

(** C24. Validation of any bytes as an array is defined.  What a validated array shows is fixed:
    whoever visits it sees the same elements in the same order and fails only when the visitor
    does.  Every element can be read, lies in a record of the array and has been counted as a
    view, and the elements of each record, arrays in it among them, are exactly the bytes after
    its index word, without gaps or overlaps. *)
Theorem array_visit_faithful bytes options shared :
  safe (validate bytes options shared) /\
  forall view shared', validate bytes options shared = Ok (view, shared') -> exists n elements,
    (forall V (f : Element -> V -> Result V) s, visit view f s = fold_visit f elements s) /\
    record_count view = Ok n /\ bg_views shared' = bg_views shared + zlen elements /\
    Forall (fun e => element_ok options e /\ exists i index rest, 0 <= i < n /\ ae_path e = mkStep i index :: rest) elements /\
    forall i, 0 <= i < n -> exists body index, record view i = Ok body /\ load32 body 0 = Ok index /\
      bytes_at [mkStep i index] elements = drop 4 body.
Proof.
  pose proof (validate_spec bytes options shared) as H. split; [by destruct (validate bytes options shared)|].
  intros view shared' E. rewrite E in H. cbn [returns fst snd] in H. destruct H as (h & els & b & Hh & Hlen & -> & Hv & [_ Hok Hwhere Hviews] & Hw).
  destruct (header_spec _ _ _ Hh) as [H1 H2 H3 H4 H5 _ (w & Hl & Hr & Hwd)]. destruct (ordinals_spec (h_records h)) as [_ Hin].
  assert (Hc : record_count (mkArrayView bytes options b) = Ok (h_records h)) by (unfold record_count; cbn [vw_bytes]; by rewrite Hl, Hr).
  exists (h_records h), els. split_and!; [done|done|done| |].
  - rewrite list.Forall_forall in *. intros e He. split; [by apply Hok|]. destruct (Hwhere e He) as (i & index & Hi & rest & Hp).
    exists i, index, rest. split; [by apply Hin|done].
  - intros i Hi. destruct (Hw i Hi) as (body & index & Hs & Hl0 & Hb). exists body, index. split_and!; [|done|done].
    unfold record. rewrite Hc. cbn [rbind vw_bytes]. rewrite (proj2 (Z.leb_gt (h_records h) i)) by lia. rewrite Hl. cbn [rbind]. by rewrite <- Hwd.
Qed.

(** ** Witness *)

(** An array whose only record holds an array of two records with a gain each. *)
Definition demo_words (l : list Z) : list byte := concat (be32_bytes <$> l).
Definition demo_dimensions (width records : Z) : Z := Z.lor (Z.shiftl 7 24) (Z.lor (Z.shiftl width 12) records).
Definition demo_inner : list byte := demo_words [12; demo_dimensions 2 2; 0; Z.shiftl 1 23; 0; 0; 0; 0; 5; 64; 6; 128].
Definition demo_outer : list byte := demo_words [21; demo_dimensions 13 1; 0; Z.shiftl 1 1; Z.shiftl 1 11; 0; 0; 0; 9] ++ demo_inner.
Definition demo_array_options : Options := mkArrayOptions Dialect.i9_five_cifs_header7 binding_default.

Lemma array_visit_faithful_witness : exists view shared elements,
  validate demo_outer demo_array_options Budget_default = Ok (view, shared) /\ bg_views shared = 3 /\
  visit view collect [] = Ok elements /\ ae_path <$> elements = [[mkStep 0 9; mkStep 0 5]; [mkStep 0 9; mkStep 1 6]; [mkStep 0 9]] /\
  bytes_at [mkStep 0 9] elements = demo_inner.
Proof.
  destruct (array_visit_faithful demo_outer demo_array_options Budget_default) as [_ H].
  destruct (validate demo_outer demo_array_options Budget_default) as [[view shared]|x|] eqn:E; [|vm_compute in E; discriminate E..].
  destruct (H view shared eq_refl) as (n & elements & Hv & Hn & Hviews & _ & Hr). exists view, shared, elements.
  specialize (Hv _ collect []). rewrite fold_collect in Hv. vm_compute in E. injection E as <- <-. split; [reflexivity|]. split; [reflexivity|]. split; [exact Hv|].
  assert (Ok ([] ++ elements) = visit _ collect []) as He by (symmetry; exact Hv). vm_compute in He. injection He as ->. split; [reflexivity|].
  assert (Ok n = record_count _) as Hc by (symmetry; exact Hn). vm_compute in Hc. injection Hc as ->. destruct (Hr 0) as (body & index & Hb & Hi & Hat); [lia|].
  assert (Ok body = record _ 0) as Hb' by (symmetry; exact Hb). vm_compute in Hb'. injection Hb' as ->.
  vm_compute in Hi. injection Hi as <-. rewrite Hat. reflexivity.
Defined.
