(* ===== verification/Builder.v ===== *)
(** * Packet builders and snapshots: [include/vita/fields/packet.hpp]

    The editable description of a packet body: its layout context, its field entries with
    the values of their attributes, and the transactional edits.  The model is of the
    instances without a native arena ([NativeBytes = 0], the default of every alias), which
    hold scalar values; the body kind and the capacity are parameters.  An edit works on a
    copy and assigns it at the end, so a failed edit has changed nothing: an operation is a
    [Result] of the new builder. *)

From S2P Require Import Prelude Wire WireProofs Fields Scalar Structured Packet.
From Stdlib Require Import Sorting.Sorted.

Module PacketFamily.
Inductive t := signal_data | context | command | extension_data | extension_context | extension_command.
End PacketFamily.

Module PacketSubtype.
Inductive t := signal | context | control | query | cancel | diagnostic_ack | state_ack.
#[global] Instance t_eq_dec : EqDecision t.
Proof. solve_decision. Defined.
(** The underlying value, which the layout signature mixes in. *)
Definition code (s : t) : Z :=
  match s with signal => 0 | context => 1 | control => 2 | query => 3 | cancel => 4 | diagnostic_ack => 5 | state_ack => 6 end.
End PacketSubtype.

Record LayoutContext := mkLayout {
  l_family : PacketFamily.t; l_timestamp_format : TimestampFormatBinding; l_subtype : PacketSubtype.t;
  l_action : Z; l_packet_class : Z; l_cif : list Z; l_attributes : Z }.

(** [std::array<std::optional<SemanticValue>,13>] *)
Record FieldEntry := mkEntry { e_id : FieldId; e_values : list (option SemanticValue); e_diagnostic : Z }.
Definition no_values : list (option SemanticValue) := replicate 13 None.

Record AttributeValue := mkAttributeValue { av_field : FieldId; av_attribute : Z; av_value : SemanticValue }.

(** [s_entries] is the used part of the array of entries. *)
Record PacketSnapshot := mkSnapshot { s_layout : LayoutContext; s_entries : list FieldEntry; s_generation : Z }.

Definition s_ids (s : PacketSnapshot) : list FieldId := e_id <$> s_entries s.

(** [values[a]] of an entry. *)
Definition value_of (e : FieldEntry) (a : Z) : option SemanticValue := default None (e_values e !! Z.to_nat a).

(** The attributes a layout selects: without a mask, the current value. *)
Definition selection (attributes : Z) : Z := if nonzero attributes then attributes else attribute_bit Attribute.current.

(** ** Reading a snapshot *)

(** [native_value] of a snapshot without an arena: the ownership test, the alternative and
    the empty arena all answer with the same error. *)
Definition native_value (value : SemanticValue) : Result (list byte) := Err (error1 ErrorCode.invalid_argument).

Fixpoint find_value (entries : list FieldEntry) (id : FieldId) (a : Z) (p : SemanticValue -> bool) : Result SemanticValue :=
  match entries with
  | [] => Err (error1 ErrorCode.invalid_argument)
  | e :: entries =>
      match value_of e a with
      | Some v => if fid_eqb (e_id e) id && p v then Ok v else find_value entries id a p
      | None => find_value entries id a p
      end
  end.

(** [PacketSnapshot::probability], [PacketSnapshot::belief] *)
Definition probability (s : PacketSnapshot) (id : FieldId) : Result SemanticValue :=
  find_value (s_entries s) id 11 (fun v => value_index v =? 28).
Definition belief (s : PacketSnapshot) (id : FieldId) : Result SemanticValue :=
  find_value (s_entries s) id 12 (fun v => value_index v =? 29).

(** ** Editing *)

Section Builder.
Context (Kind : BodyKind.t) (N : nat).

Definition set_layout (s : PacketSnapshot) (l : LayoutContext) : PacketSnapshot := mkSnapshot l (s_entries s) (s_generation s).
Definition set_cif (l : LayoutContext) (cif : list Z) : LayoutContext :=
  mkLayout (l_family l) (l_timestamp_format l) (l_subtype l) (l_action l) (l_packet_class l) cif (l_attributes l).
Definition set_attributes (l : LayoutContext) (mask : Z) : LayoutContext :=
  mkLayout (l_family l) (l_timestamp_format l) (l_subtype l) (l_action l) (l_packet_class l) (l_cif l) mask.

Definition bump (s : PacketSnapshot) : Result PacketSnapshot :=
  fail_if s_generation s =? U64_MAX with error1 ErrorCode.overflow ;;
  Ok (mkSnapshot (s_layout s) (s_entries s) (s_generation s + 1)).

(** [cif[i] |= std::uint32_t{1}<<bit]: outside the array, or a shift by 32 and more, undefined. *)
Definition or_bit (cif : list Z) (i bit : Z) : Result (list Z) :=
  if (i <? 0) || (bit <? 0) || (32 <=? bit) then UB else
  let? w := deref (cif !! Z.to_nat i) in Ok (<[Z.to_nat i := Z.lor w (Z.shiftl 1 bit)]> cif).

Fixpoint mark_fields (cif : list Z) (ids : list FieldId) : Result (list Z) :=
  match ids with
  | [] => Ok cif
  | id :: ids =>
      let? cif := or_bit cif (Fields.cif id) (fbit id) in
      let? cif := (if nonzero (Fields.cif id) then or_bit cif 0 (Fields.cif id) else Ok cif) in
      mark_fields cif ids
  end.

(** The indicator words of a list of fields and a mask of attributes. *)
Definition indicator_words (ids : list FieldId) (attributes : Z) : Result (list Z) :=
  let? cif := mark_fields (replicate 8 0) ids in
  if nonzero attributes then let? cif := or_bit cif 0 7 in Ok (<[7%nat := attributes]> cif) else Ok cif.

Definition indicators (s : PacketSnapshot) : Result PacketSnapshot :=
  let? cif := indicator_words (s_ids s) (l_attributes (s_layout s)) in
  Ok (set_layout s (set_cif (s_layout s) cif)).

(** [while(index<size && field_before(entries[index].id,id)) ++index] *)
Fixpoint position (entries : list FieldEntry) (id : FieldId) : nat :=
  match entries with
  | [] => 0
  | e :: entries => if field_before (e_id e) id then S (position entries id) else 0
  end.
Definition at_position (entries : list FieldEntry) (index : nat) (id : FieldId) : bool :=
  match entries !! index with Some e => fid_eqb (e_id e) id | None => false end.

(** [PacketBuilder::insert] *)
Definition insert_entry (s : PacketSnapshot) (entry : FieldEntry) (replace : bool) : Result PacketSnapshot :=
  fail_if negb (valid_field_selector (e_id entry)) with error1 ErrorCode.invalid_argument ;;
  let entries := s_entries s in
  let index := position entries (e_id entry) in
  let found := at_position entries index (e_id entry) in
  fail_if replace && negb found with error1 ErrorCode.invalid_argument ;;
  fail_if negb found && (length entries =? N)%nat with error1 ErrorCode.capacity_exhausted ;;
  let entries := take index entries ++ entry :: drop (if found then S index else index) entries in
  let? s := bump (mkSnapshot (s_layout s) entries (s_generation s)) in
  indicators s.

(** The constructor of a [TypedPacket]. *)
Definition builder_new (subtype : PacketSubtype.t) : PacketSnapshot :=
  let action := match subtype with PacketSubtype.control | PacketSubtype.cancel => 2 | _ => 0 end in
  let family := match subtype with
                | PacketSubtype.context => PacketFamily.context
                | PacketSubtype.signal => PacketFamily.signal_data
                | _ => PacketFamily.command end in
  mkSnapshot (mkLayout family binding_default subtype action 0 (replicate 8 0) 0) [] 0.

(** The default constructor. *)
Definition builder_default : PacketSnapshot :=
  builder_new (match Kind with
               | BodyKind.values => PacketSubtype.context
               | BodyKind.selectors => PacketSubtype.query
               | BodyKind.diagnostics => PacketSubtype.diagnostic_ack end).

Definition compatible_body (subtype : PacketSubtype.t) : bool :=
  match subtype with
  | PacketSubtype.query | PacketSubtype.cancel => bool_decide (Kind = BodyKind.selectors)
  | PacketSubtype.diagnostic_ack => bool_decide (Kind = BodyKind.diagnostics)
  | _ => bool_decide (Kind = BodyKind.values)
  end.

Definition configure (s : PacketSnapshot) (packet_class action : Z) : Result PacketSnapshot :=
  let l := s_layout s in
  let is_ k := bool_decide (l_subtype l = k) in
  fail_if (2 <? action) || (is_ PacketSubtype.query && nonzero action) || (is_ PacketSubtype.cancel && negb (action =? 2)) ||
          (is_ PacketSubtype.control && (action =? 0)) ||
          ((is_ PacketSubtype.context || is_ PacketSubtype.signal) && nonzero action) with error1 ErrorCode.invalid_argument ;;
  let? s := bump s in
  let l := s_layout s in
  Ok (set_layout s (mkLayout (l_family l) (l_timestamp_format l) (l_subtype l) action packet_class (l_cif l) (l_attributes l))).

(** The values that carry a timestamp format: those of a duration or a sector scan. *)
Definition format_values (e : FieldEntry) : list SemanticValue :=
  if temporal_duration_field (e_id e) || fid_eqb (e_id e) Field.SectorStepScan
  then omap (value_of e) [0; 1; 2; 3; 4; 5; 6; 7; 8; 9; 10] else [].

(** The loop that compares each of them.  It asks for the native bytes first, and a snapshot
    without an arena has none: the comparison is never reached, and stands here as [UB] so
    that the safety of the operation shows it. *)
Fixpoint check_formats (values : list SemanticValue) : Result unit :=
  match values with
  | [] => Ok tt
  | v :: _ => let? _ := native_value v in UB
  end.

Definition bind_timestamp_format (s : PacketSnapshot) (tsi tsf : Z) : Result PacketSnapshot :=
  fail_if (3 <? tsi) || (3 <? tsf) with error1 ErrorCode.invalid_argument ;;
  let? _ := (if bool_decide (Kind = BodyKind.values) then check_formats (flat_map format_values (s_entries s)) else Ok tt) in
  let? s := bump s in
  let l := s_layout s in
  Ok (set_layout s (mkLayout (l_family l) (mkBinding tsi tsf true) (l_subtype l) (l_action l) (l_packet_class l) (l_cif l) (l_attributes l))).

Definition has_attribute (s : PacketSnapshot) (id : FieldId) (a : Z) : bool :=
  if 13 <=? a then false else existsb (fun e => fid_eqb (e_id e) id && is_some (value_of e a)) (s_entries s).

(** [set_value], for [BodyKind::values]; [set<Field>] and [replace<Field>] of a scalar field
    are this with and without [replace]. *)
Definition set_value (s : PacketSnapshot) (id : FieldId) (value : SemanticValue) (replace : bool) : Result PacketSnapshot :=
  let? _ := validate_value id value true in
  let attributes := l_attributes (s_layout s) in
  fail_if nonzero attributes && negb (attributes =? attribute_bit Attribute.current) with error1 ErrorCode.invalid_argument ;;
  insert_entry s (mkEntry id (<[0%nat := Some value]> no_values) 0) replace.

(** [select], for [BodyKind::selectors], and [diagnostic], for [BodyKind::diagnostics]. *)
Definition select (s : PacketSnapshot) (id : FieldId) : Result PacketSnapshot := insert_entry s (mkEntry id no_values 0) false.
Definition diagnostic (s : PacketSnapshot) (id : FieldId) (bits : Z) : Result PacketSnapshot := insert_entry s (mkEntry id no_values bits) false.

Definition remove (s : PacketSnapshot) (id : FieldId) : Result PacketSnapshot :=
  match first_index (fun e => fid_eqb (e_id e) id) (s_entries s) with
  | None => Err (error1 ErrorCode.invalid_argument)
  | Some i =>
      let? s := bump (mkSnapshot (s_layout s) (delete i (s_entries s)) (s_generation s)) in
      indicators s
  end.

(** *** The transactional edit *)

(** The entries of the candidate: the fields and diagnostics without values, and the added
    field in its place. *)
Definition candidate_entries (s : PacketSnapshot) (added : option FieldId) : Result (list FieldEntry) :=
  let entries := (fun e => mkEntry (e_id e) no_values (e_diagnostic e)) <$> s_entries s in
  match added with
  | None => Ok entries
  | Some id =>
      fail_if is_none (descriptor id) with error1 ErrorCode.unsupported_layout ;;
      let at_ := position entries id in
      if at_position entries at_ id then Ok entries else
      fail_if (length entries =? N)%nat with error1 ErrorCode.capacity_exhausted ;;
      Ok (take at_ entries ++ mkEntry id no_values 0 :: drop at_ entries)
  end.

(** Each supplied value is of a selected attribute of a field of the candidate, and none is
    supplied twice: [seen] has a bit per attribute for each field. *)
Fixpoint check_supplied (selected : Z) (entries : list FieldEntry) (seen : list Z) (supplied : list AttributeValue) : Result unit :=
  match supplied with
  | [] => Ok tt
  | input :: supplied =>
      let a := av_attribute input in
      fail_if (13 <=? a) || negb (nonzero (Z.land selected (attribute_bit a))) with error1 ErrorCode.invalid_argument ;;
      match first_index (fun e => fid_eqb (e_id e) (av_field input)) entries with
      | None => Err (error1 ErrorCode.invalid_argument)
      | Some i =>
          let? w := deref (seen !! i) in
          fail_if bit_set w a with error1 ErrorCode.invalid_argument ;;
          check_supplied selected entries (<[i := wrap16 (Z.lor w (Z.shiftl 1 a))]> seen) supplied
      end
  end.

(** The last element of a list that satisfies a test: the loops that keep a pointer. *)
Definition last_match {A} (p : A -> bool) (l : list A) : option A := foldl (fun found x => if p x then Some x else found) None l.

(** The value of one attribute: supplied, or the old one. *)
Definition edit_value (s : PacketSnapshot) (supplied : list AttributeValue) (id : FieldId) (a : Z) : Result SemanticValue :=
  match last_match (fun i => fid_eqb (av_field i) id && (av_attribute i =? a)) supplied with
  | Some input => let? _ := validate_attribute_value id a (av_value input) in Ok (av_value input)
  | None =>
      match last_match (fun e => fid_eqb (e_id e) id) (s_entries s) ≫= (fun old => value_of old a) with
      | None => Err (error1 ErrorCode.invalid_argument)
      | Some v =>
          if value_index v =? 8 then let? _ := native_value v in UB
          else let? _ := validate_attribute_value id a v in Ok v
      end
  end.

Fixpoint edit_values (s : PacketSnapshot) (supplied : list AttributeValue) (id : FieldId) (attributes : list Z)
    (values : list (option SemanticValue)) : Result (list (option SemanticValue)) :=
  match attributes with
  | [] => Ok values
  | a :: attributes =>
      let? v := edit_value s supplied id a in
      edit_values s supplied id attributes (<[Z.to_nat a := Some v]> values)
  end.

Fixpoint edit_entries (s : PacketSnapshot) (supplied : list AttributeValue) (selected : Z) (entries : list FieldEntry) : Result (list FieldEntry) :=
  match entries with
  | [] => Ok []
  | e :: entries =>
      fail_if is_none (descriptor (e_id e)) with error1 ErrorCode.unsupported_layout ;;
      let? values := match Kind with
                     | BodyKind.values => edit_values s supplied (e_id e) (attribute_list selected) (e_values e)
                     | _ => Ok (e_values e) end in
      let? entries := edit_entries s supplied selected entries in
      Ok (mkEntry (e_id e) values (e_diagnostic e) :: entries)
  end.

Definition edit (s : PacketSnapshot) (mask : Z) (supplied : list AttributeValue) (added : option FieldId) : Result PacketSnapshot :=
  fail_if nonzero (Z.land mask (Z.lnot all_attributes)) || (Z.of_nat N * 13 <? zlen supplied) with error1 ErrorCode.invalid_argument ;;
  fail_if s_generation s =? U64_MAX with error1 ErrorCode.overflow ;;
  let selected := selection mask in
  fail_if negb (bool_decide (Kind = BodyKind.values)) && (0 <? zlen supplied) with error1 ErrorCode.invalid_argument ;;
  let? entries := candidate_entries s added in
  let? _ := check_supplied selected entries (replicate N 0) supplied in
  let? entries := edit_entries s supplied selected entries in
  let? cif := indicator_words (e_id <$> entries) mask in
  Ok (mkSnapshot (set_cif (set_attributes (s_layout s) mask) cif) entries (s_generation s + 1)).

Definition with_attributes (s : PacketSnapshot) (mask : Z) (supplied : list AttributeValue) : Result PacketSnapshot :=
  edit s mask supplied None.

(** [set_field_attributes<Field>], with scalar inputs. *)
Definition set_field_attributes (s : PacketSnapshot) (id : FieldId) (supplied : list AttributeValue) : Result PacketSnapshot :=
  let mask := selection (l_attributes (s_layout s)) in
  fail_if negb (zlen supplied =? popcount mask) with error1 ErrorCode.invalid_argument ;;
  fail_if existsb (fun i => negb (fid_eqb (av_field i) id)) supplied with error1 ErrorCode.invalid_argument ;;
  edit s (l_attributes (s_layout s)) supplied (Some id).

(** [set_attribute_input] with a scalar; [set_attribute<Field>] and [replace_attribute<Field>]
    of a scalar field are this. *)
Definition set_attribute_input (s : PacketSnapshot) (input : AttributeValue) : Result PacketSnapshot :=
  fail_if 13 <=? av_attribute input with error1 ErrorCode.invalid_argument ;;
  fail_if negb (existsb (fun e => fid_eqb (e_id e) (av_field input) && is_some (value_of e (av_attribute input))) (s_entries s))
    with error1 ErrorCode.invalid_argument ;;
  with_attributes s (l_attributes (s_layout s)) [input].

Definition set_probability (s : PacketSnapshot) (id : FieldId) (value function : Z) : Result PacketSnapshot :=
  set_attribute_input s (mkAttributeValue id Attribute.probability (v_probability value function)).
Definition set_belief (s : PacketSnapshot) (id : FieldId) (value : Z) : Result PacketSnapshot :=
  set_attribute_input s (mkAttributeValue id Attribute.belief (v_belief value)).

End Builder.
