(* ===== verification/BuilderProofs.v ===== *)
(** * Packet builders: the invariant

    The indicator words of a builder say exactly which fields it holds, the fields stand in
    packet order, and the values are those the registry accepts; every edit keeps it so. *)

From stdpp Require Import sorting.
From S2P Require Import Prelude Wire WireProofs Fields Scalar Structured Packet Builder.

(** ** Indicator words *)

(** A selector whose members are small enough for the array of words. *)
Definition selector_ok (id : FieldId) : Prop := 0 <= cif id /\ 0 <= fbit id /\ valid_field_selector id = true.

Lemma selector_range id : selector_ok id -> 0 <= cif id <= 3 /\ 0 <= fbit id <= 31 /\ (cif id = 0 -> 8 <= fbit id <= 30).
Proof.
  unfold selector_ok, valid_field_selector. intros (H1 & H2 & H3). destruct (_ || _) eqn:E; [done|].
  apply orb_false_iff in E as [?%Z.ltb_ge ?%Z.ltb_ge]. split_and!; try lia. intros Hz. rewrite Hz in H3. cbn in H3.
  apply andb_true_iff in H3 as [?%Z.leb_le ?%Z.leb_le]. lia.
Qed.

(** The bits a list of fields sets in the word [i]. *)
Definition field_bit (ids : list FieldId) (i b : Z) : bool :=
  existsb (fun id => (cif id =? i) && (fbit id =? b)) ids ||
  ((i =? 0) && existsb (fun id => nonzero (cif id) && (cif id =? b)) ids).

Definition word_at (words : list Z) (i : Z) : Z := default 0 (words !! Z.to_nat i).

Lemma or_bit_spec words i b : length words = 8%nat -> 0 <= i < 8 -> 0 <= b < 32 ->
  exists words', or_bit words i b = Ok words' /\ length words' = 8%nat /\
    forall j k, 0 <= j < 8 -> 0 <= k -> Z.testbit (word_at words' j) k = Z.testbit (word_at words j) k || ((i =? j) && (b =? k)).
Proof.
  intros Hl Hi Hb. unfold or_bit. rewrite (proj2 (Z.ltb_ge i 0)), (proj2 (Z.ltb_ge b 0)), (proj2 (Z.leb_gt 32 b)) by lia. cbn [orb].
  destruct (lookup_lt_is_Some_2 words (Z.to_nat i)) as [w Hw]; [lia|]. rewrite Hw. cbn [deref rbind]. eexists. split; [done|].
  rewrite length_insert. split; [done|]. intros j k Hj Hk. unfold word_at. destruct (Z.eqb_spec i j) as [<-|Hne].
  - rewrite list_lookup_insert_eq by lia. rewrite Hw. cbn [from_option andb id]. rewrite Z.lor_spec, Z.shiftl_1_l, Z.pow2_bits_eqb by lia. done.
  - rewrite list_lookup_insert_ne by lia. cbn [andb]. by rewrite orb_false_r.
Qed.

Lemma mark_fields_spec ids words : length words = 8%nat -> Forall selector_ok ids ->
  exists words', mark_fields words ids = Ok words' /\ length words' = 8%nat /\
    forall j k, 0 <= j < 8 -> 0 <= k -> Z.testbit (word_at words' j) k = Z.testbit (word_at words j) k || field_bit ids j k.
Proof.
  intros Hl Hf. revert words Hl. induction Hf as [|id ids Hid Hf IH]; intros words Hl; cbn [mark_fields].
  - exists words. split_and!; [done|done|]. intros. unfold field_bit. cbn. by rewrite andb_false_r, orb_false_r.
  - pose proof (selector_range _ Hid) as (Hc & Hb & _). destruct (or_bit_spec words (cif id) (fbit id) Hl) as (w1 & -> & Hl1 & H1); [lia..|].
    cbn [rbind]. assert (exists w2, (if nonzero (cif id) then or_bit w1 0 (cif id) else Ok w1) = Ok w2 /\ length w2 = 8%nat /\
      forall j k, 0 <= j < 8 -> 0 <= k -> Z.testbit (word_at w2 j) k = Z.testbit (word_at w1 j) k || ((j =? 0) && (nonzero (cif id) && (cif id =? k))))
      as (w2 & -> & Hl2 & H2).
    { destruct (nonzero (cif id)) eqn:En.
      - destruct (or_bit_spec w1 0 (cif id) Hl1) as (w2 & -> & Hl2 & H2); [lia..|]. exists w2. split_and!; [done|done|].
        intros j k Hj Hk. rewrite H2 by done. by rewrite (Z.eqb_sym 0).
      - exists w1. split_and!; [done|done|]. intros. by rewrite !andb_false_r, orb_false_r. }
    cbn [rbind]. destruct (IH w2 Hl2) as (w3 & -> & Hl3 & H3). exists w3. split_and!; [done|done|]. intros j k Hj Hk.
    rewrite H3, H2, H1 by done. unfold field_bit. cbn [existsb]. rewrite andb_orb_distrib_r.
    rewrite <- !orb_assoc. f_equal. rewrite !orb_assoc. f_equal. rewrite <- !orb_assoc. f_equal. apply orb_comm.
Qed.

(** The words of a list of fields with a mask: where each bit comes from. *)
Record words_of (ids : list FieldId) (attributes : Z) (words : list Z) : Prop := mkWordsOf {
  wo_length : length words = 8%nat;
  wo_bits : forall i b, 0 <= i < 7 -> 0 <= b ->
    Z.testbit (word_at words i) b = field_bit ids i b || ((i =? 0) && (b =? 7) && nonzero attributes);
  wo_seven : word_at words 7 = attributes }.

Lemma indicator_words_spec ids attributes : Forall selector_ok ids ->
  exists words, indicator_words ids attributes = Ok words /\ words_of ids attributes words.
Proof.
  intros Hf. unfold indicator_words. destruct (mark_fields_spec ids (replicate 8 0) eq_refl Hf) as (w1 & -> & Hl & H1).
  cbn [rbind]. assert (H0 : forall j k, Z.testbit (word_at (replicate 8 0) j) k = false).
  { intros j k. unfold word_at. destruct (replicate 8 0 !! Z.to_nat j) as [x|] eqn:Ex; cbn; [|by rewrite Z.bits_0].
    apply lookup_replicate in Ex as [-> _]. apply Z.bits_0. }
  assert (H7 : word_at w1 7 = 0).
  { apply Z.bits_inj'. intros k Hk. rewrite H1, H0, Z.bits_0 by lia. unfold field_bit. cbn [orb]. rewrite orb_false_iff. split; [|done].
    apply not_true_iff_false. rewrite existsb_exists. intros (id & Hin & Hb). apply andb_true_iff in Hb as [Hc%Z.eqb_eq _].
    rewrite list.Forall_forall in Hf. apply list_elem_of_In in Hin. destruct (selector_range id (Hf _ Hin)). lia. }
  destruct (nonzero attributes) eqn:En.
  - destruct (or_bit_spec w1 0 7 Hl) as (w2 & -> & Hl2 & H2); [lia..|]. cbn [rbind]. eexists. split; [done|]. split.
    + by rewrite length_insert.
    + intros i b Hi Hb. unfold word_at at 1. rewrite list_lookup_insert_ne by lia. fold (word_at w2 i).
      rewrite H2, H1, H0 by lia. cbn [orb]. rewrite En, andb_true_r. f_equal. by rewrite (Z.eqb_sym 0), (Z.eqb_sym 7).
    + unfold word_at. change (Z.to_nat 7) with 7%nat. rewrite list_lookup_insert_eq by lia. done.
  - exists w1. split; [done|]. split; [done| |].
    + intros i b Hi Hb. rewrite H1, H0 by lia. by rewrite En, andb_false_r, orb_false_r.
    + rewrite H7. unfold nonzero in En. apply negb_false_iff, Z.eqb_eq in En. done.
Qed.

Lemma mkField_eq id i : cif id = i -> mkField i (fbit id) = id.
Proof. intros <-. by destruct id. Qed.

(** ** Packet order *)

Abbreviation packet_order := (fun a b : FieldId => field_before a b = true).
Abbreviation in_order := (StronglySorted packet_order).

Lemma in_order_nodup ids : in_order ids -> NoDup ids.
Proof.
  induction 1 as [|id ids _ IH Hf]; constructor; [|done]. intros Hin. rewrite list.Forall_forall in Hf.
  specialize (Hf _ Hin). by apply (irreflexivity packet_order id).
Qed.

(** Two lists in packet order with the same fields are the same list. *)
Lemma in_order_unique ids ids' : in_order ids -> in_order ids' -> (forall id, id ∈ ids <-> id ∈ ids') -> ids = ids'.
Proof.
  intros H H' Hin. apply (StronglySorted_unique_strong packet_order); [|done|done|].
  - intros a b _ _ Hab Hba. exfalso. apply (irreflexivity packet_order a). by apply (transitivity (R:=packet_order) (y:=b)).
  - apply NoDup_Permutation; [by apply in_order_nodup..|done].
Qed.

Lemma word_fields_elem i bits id : id ∈ word_fields i bits <-> cif id = i /\ 0 <= fbit id <= 31 /\ bit_set bits (fbit id) = true.
Proof.
  unfold word_fields. rewrite list_elem_of_fmap. split.
  - intros (b & -> & Hb). cbn [cif fbit]. apply list_elem_of_filter in Hb as [Hb Hin]. split_and!; try done;
      (assert (Hall : Forall (fun b => 0 <= b <= 31) bits_down) by (unfold bits_down; repeat constructor; lia));
      rewrite list.Forall_forall in Hall; destruct (Hall _ Hin); done.
  - intros (Hc & Hb & Hs). exists (fbit id). split; [destruct id; cbn in *; by subst|]. apply list_elem_of_filter. split; [done|].
    assert (Hall : forallb (fun n => bool_decide (Z.of_nat n ∈ bits_down)) (seq 0 32) = true) by (vm_compute; reflexivity).
    rewrite forallb_forall in Hall. specialize (Hall (Z.to_nat (fbit id))). rewrite in_seq in Hall.
    replace (fbit id) with (Z.of_nat (Z.to_nat (fbit id))) by lia. eapply bool_decide_eq_true_1, Hall. lia.
Qed.

Lemma word_fields_order i bits : in_order (word_fields i bits).
Proof.
  unfold word_fields. assert (Hd : StronglySorted (fun a b => b < a) bits_down).
  { unfold bits_down. repeat (apply SSorted_cons; [|repeat constructor]). apply SSorted_nil. }
  induction Hd as [|b l _ IH Hf]; cbn; [constructor|]. destruct (decide _); [|done]. cbn. constructor; [done|].
  apply Forall_fmap, list.Forall_forall. intros b' [_ Hb']%list_elem_of_filter. rewrite list.Forall_forall in Hf. specialize (Hf _ Hb').
  unfold field_before. cbn. rewrite Z.eqb_refl, (proj2 (Z.ltb_lt b' b)) by done. by rewrite orb_true_r.
Qed.

Lemma in_order_app ids ids' : in_order ids -> in_order ids' -> (forall a b, a ∈ ids -> b ∈ ids' -> cif a < cif b) -> in_order (ids ++ ids').
Proof.
  intros H H' Hlt. apply StronglySorted_app. split_and!; [|done|done]. intros a b Ha Hb. unfold field_before.
  by rewrite (proj2 (Z.ltb_lt _ _)) by (by apply Hlt).
Qed.

(** The fields that the words of a parser name, in its order. *)
Definition named_fields (first w1 w2 w3 : Z) : list FieldId :=
  word_fields 0 (Z.land first 0x7fffff00) ++ word_fields 1 w1 ++ word_fields 2 w2 ++ word_fields 3 w3.

Lemma named_fields_order first w1 w2 w3 : in_order (named_fields first w1 w2 w3).
Proof.
  unfold named_fields.
  repeat (apply in_order_app; [apply word_fields_order| |intros a b; rewrite ?elem_of_app, !word_fields_elem; lia]).
  apply word_fields_order.
Qed.

Lemma field_bit_true ids i b : field_bit ids i b = true <->
  mkField i b ∈ ids \/ (i = 0 /\ exists id, id ∈ ids /\ cif id = b /\ b <> 0).
Proof.
  unfold field_bit. rewrite orb_true_iff, andb_true_iff, !existsb_exists, Z.eqb_eq. split.
  - intros [(id & Hin%list_elem_of_In & Hb)|[-> (id & Hin%list_elem_of_In & Hb)]].
    + apply andb_true_iff in Hb as [?%Z.eqb_eq ?%Z.eqb_eq]. left. destruct id; cbn in *. by subst.
    + apply andb_true_iff in Hb as [Hn%negb_true_iff%Z.eqb_neq ?%Z.eqb_eq]. right. split; [done|]. exists id. split_and!; [done|done|lia].
  - intros [Hin|[-> (id & Hin & Hc & Hb)]].
    + left. exists (mkField i b). split; [by apply list_elem_of_In|]. cbn. by rewrite !Z.eqb_refl.
    + right. split; [done|]. exists id. split; [by apply list_elem_of_In|]. subst b. rewrite Z.eqb_refl, andb_true_r.
      by apply negb_true_iff, Z.eqb_neq.
Qed.

(** The first word on the wire: the change bit is added to it. *)
Definition first_word (words : list Z) (change : bool) : Z := Z.lor (word_at words 0) (if change then Z.shiftl 1 31 else 0).

Lemma first_word_bit words change b : 0 <= b ->
  Z.testbit (first_word words change) b = Z.testbit (word_at words 0) b || (change && (b =? 31)).
Proof.
  intros Hb. unfold first_word. rewrite Z.lor_spec. f_equal. destruct change; cbn [andb].
  - rewrite Z.shiftl_1_l, Z.pow2_bits_eqb by lia. apply Z.eqb_sym.
  - apply Z.bits_0.
Qed.

(** The parser names exactly the fields of the builder, in their order. *)
Lemma named_fields_words ids attributes words change : in_order ids -> Forall selector_ok ids -> words_of ids attributes words ->
  named_fields (first_word words change) (word_at words 1) (word_at words 2) (word_at words 3) = ids.
Proof.
  intros Ho Hf [_ Hb _]. apply in_order_unique; [apply named_fields_order|done|].
  assert (Hword : forall i id, 1 <= i <= 3 -> (id ∈ word_fields i (word_at words i) <-> id ∈ ids /\ cif id = i)).
  { intros i id Hi. rewrite word_fields_elem. rewrite list.Forall_forall in Hf. split.
    - intros (Hc & Hr & Hs). rewrite bit_set_testbit, Hb, (proj2 (Z.eqb_neq i 0)), orb_false_r in Hs by lia. split; [|done].
      apply field_bit_true in Hs as [Hs|[? _]]; [|lia]. by rewrite (mkField_eq id) in Hs.
    - intros [Hin Hc]. destruct (selector_range _ (Hf _ Hin)) as (_ & Hr & _). split_and!; try lia.
      rewrite bit_set_testbit, Hb by lia. apply orb_true_iff. left. apply field_bit_true. left. by rewrite (mkField_eq id). }
  intros id. unfold named_fields. rewrite !elem_of_app, !Hword by lia. rewrite word_fields_elem.
  rewrite list.Forall_forall in Hf. split.
  - intros [(Hc & Hr & Hs)|[[? _]|[[? _]|[? _]]]]; [|done|done|done].
    unfold bit_set in Hs. change (bit_set (Z.land (first_word words change) 0x7fffff00) (fbit id) = true) in Hs.
    rewrite bit_set_testbit, Z.land_spec, first_word_bit, Hb in Hs by lia. apply andb_true_iff in Hs as [Hs Hm].
    assert (8 <= fbit id <= 30).
    { change 0x7fffff00 with (Z.shiftl (Z.ones 23) 8) in Hm. rewrite Z.shiftl_spec in Hm by lia.
      destruct (Z.lt_ge_cases (fbit id) 8); [by rewrite Z.testbit_neg_r in Hm by lia|].
      destruct (Z.lt_ge_cases (fbit id - 8) 23); [lia|]. by rewrite Z.ones_spec_high in Hm by lia. }
    rewrite (proj2 (Z.eqb_neq (fbit id) 31)), (proj2 (Z.eqb_neq (fbit id) 7)), !andb_false_r, !orb_false_r in Hs by lia.
    apply field_bit_true in Hs as [Hs|(_ & id' & Hin & Hc' & _)].
    + by rewrite (mkField_eq id) in Hs.
    + destruct (selector_range _ (Hf _ Hin)) as (? & _). lia.
  - intros Hin. destruct (selector_range _ (Hf _ Hin)) as (Hc & Hr & H0). assert (cif id = 0 \/ cif id = 1 \/ cif id = 2 \/ cif id = 3) as Hcase by lia.
    destruct Hcase as [Hz|[Hz|[Hz|Hz]]]; [|tauto..]. left. split_and!; try lia.
    rewrite bit_set_testbit, Z.land_spec, first_word_bit, Hb by lia. apply andb_true_iff. specialize (H0 Hz). split.
    + rewrite !orb_true_iff. left. left. apply field_bit_true. left. by rewrite (mkField_eq id).
    + change 0x7fffff00 with (Z.shiftl (Z.ones 23) 8). rewrite Z.shiftl_spec, Z.ones_spec_low by lia. done.
Qed.

(** ** Positions *)

Lemma position_spec entries id :
  (position entries id <= length entries)%nat /\
  Forall (fun e => field_before (e_id e) id = true) (take (position entries id) entries) /\
  (forall e, entries !! position entries id = Some e -> field_before (e_id e) id = false).
Proof.
  induction entries as [|e entries (IH1 & IH2 & IH3)]; cbn; [by split_and!|]. destruct (field_before (e_id e) id) eqn:Eb.
  - split_and!; [lia|by constructor|done].
  - split_and!; [lia|constructor|]. by intros e' [= <-].
Qed.

Lemma field_before_total a b : field_before a b = false -> a <> b -> field_before b a = true.
Proof.
  destruct registry_coherent as (_ & _ & H). intros Hab Hne. apply H in Hne. rewrite Hab in Hne. by destruct (field_before b a).
Qed.

(** Putting an entry at its position keeps the order, in place of one with the same field or
    before the first that follows it. *)
Lemma insert_order entries entry :
  in_order (e_id <$> entries) ->
  let index := position entries (e_id entry) in
  let found := at_position entries index (e_id entry) in
  in_order (e_id <$> (take index entries ++ entry :: drop (if found then S index else index) entries)).
Proof.
  intros Ho index found. destruct (position_spec entries (e_id entry)) as (Hl & Hbefore & Hat). fold index in Hl, Hbefore, Hat.
  assert (Hsplit : entries = take index entries ++ drop index entries) by (by rewrite take_drop).
  rewrite Hsplit, fmap_app in Ho. apply StronglySorted_app in Ho as (Hcross & Ho1 & Ho2).
  assert (Hrest : in_order (e_id entry :: (e_id <$> drop (if found then S index else index) entries))).
  { unfold found, at_position. destruct (entries !! index) as [e|] eqn:Ee.
    - specialize (Hat e eq_refl). rewrite (drop_S _ _ _ Ee) in Ho2. cbn [fmap list_fmap] in Ho2.
      destruct (fid_eqb (e_id e) (e_id entry)) eqn:Eq.
      + apply fid_eqb_eq in Eq. by rewrite <- Eq.
      + rewrite (drop_S _ _ _ Ee). assert (Hne : e_id e <> e_id entry) by (by intros Heq%fid_eqb_eq; congruence).
        pose proof (field_before_total _ _ Hat Hne) as Hlt. cbn [fmap list_fmap]. constructor; [done|]. constructor; [done|].
        inversion Ho2 as [|? ? ? Hf]; subst. eapply list.Forall_impl; [exact Hf|]. intros x Hx. cbn beta in Hx |- *.
        by apply (transitivity (R:=packet_order) (y:=e_id e)).
    - apply lookup_ge_None in Ee. rewrite drop_ge by lia. repeat constructor. }
  rewrite fmap_app. apply StronglySorted_app. split_and!; [|done|done].
  intros x y Hx Hy. apply list_elem_of_fmap in Hx as (e & -> & Hx). rewrite list.Forall_forall in Hbefore.
  specialize (Hbefore _ Hx). cbn [fmap list_fmap] in Hy. apply elem_of_cons in Hy as [->|Hy]; [done|].
  inversion Hrest as [|? ? ? Hf]; subst. rewrite list.Forall_forall in Hf.
  by apply (transitivity (R:=packet_order) (y:=e_id entry)), Hf.
Qed.

Lemma delete_order (entries : list FieldEntry) i : in_order (e_id <$> entries) -> in_order (e_id <$> delete i entries).
Proof.
  intros Ho. rewrite delete_take_drop, fmap_app. rewrite <- (take_drop i entries), fmap_app in Ho.
  apply StronglySorted_app in Ho as (Hc & H1 & H2).
  assert (Hsub : forall y, y ∈ e_id <$> drop (S i) entries -> y ∈ e_id <$> drop i entries).
  { intros y Hy. replace (S i) with (i + 1)%nat in Hy by lia. rewrite <- drop_drop, fmap_drop in Hy. apply list_elem_of_lookup in Hy as [k Hk].
    rewrite lookup_drop in Hk. by eapply list_elem_of_lookup_2. }
  apply StronglySorted_app. split_and!; [intros; by apply Hc; auto|done|].
  destruct (drop i entries) as [|e l] eqn:Ed.
  - replace (S i) with (i + 1)%nat by lia. rewrite <- drop_drop, Ed. done.
  - replace (S i) with (i + 1)%nat by lia. rewrite <- drop_drop, Ed. cbn. by inversion H2.
Qed.

(** ** The invariant *)

Definition selects (attributes a : Z) : bool := nonzero (Z.land (selection attributes) (attribute_bit a)).

Lemma attribute_list_elem selected a : a ∈ attribute_list selected <-> 0 <= a <= 12 /\ nonzero (Z.land selected (attribute_bit a)) = true.
Proof.
  unfold attribute_list. rewrite list_elem_of_filter. split; intros [H1 H2]; split; try done.
  - assert (Hall : Forall (fun b => 0 <= b <= 12) [0; 1; 2; 3; 4; 5; 6; 7; 8; 9; 10; 11; 12]) by (repeat constructor; lia).
    rewrite list.Forall_forall in Hall. by apply Hall.
  - assert (Hall : forallb (fun n => bool_decide (Z.of_nat n ∈ [0; 1; 2; 3; 4; 5; 6; 7; 8; 9; 10; 11; 12])) (seq 0 13) = true) by (vm_compute; reflexivity).
    rewrite forallb_forall in Hall. specialize (Hall (Z.to_nat a)). rewrite in_seq in Hall.
    replace a with (Z.of_nat (Z.to_nat a)) by lia. eapply bool_decide_eq_true_1, Hall. lia.
Qed.

Lemma attribute_list_nodup selected : NoDup (attribute_list selected).
Proof. unfold attribute_list. apply list.NoDup_filter. apply (bool_decide_unpack _). vm_compute. exact I. Qed.

Lemma value_of_no_values id d a : value_of (mkEntry id no_values d) a = None.
Proof.
  unfold value_of, no_values. cbn [e_values]. destruct (replicate 13 None !! Z.to_nat a) as [x|] eqn:E; [|done].
  by apply lookup_replicate in E as [-> _].
Qed.

Section Invariant.
Context (Kind : BodyKind.t) (N : nat).

(** The value of an attribute is there exactly when the layout selects it, and then it is
    one that the registry accepts. *)
Definition values_ok (attributes : Z) (id : FieldId) (values : list (option SemanticValue)) : Prop :=
  forall a, 0 <= a <= 12 ->
    match default None (values !! Z.to_nat a) with
    | Some v => selects attributes a = true /\ value_typed v /\ validate_attribute_value id a v = Ok tt
    | None => selects attributes a = false
    end.

Record entry_ok (attributes : Z) (e : FieldEntry) : Prop := mkEntryOk {
  eo_selector : selector_ok (e_id e);
  eo_diagnostic : u32 (e_diagnostic e);
  eo_length : length (e_values e) = 13%nat;
  eo_values : if bool_decide (Kind = BodyKind.values) then values_ok attributes (e_id e) (e_values e) else e_values e = no_values }.

Record snapshot_ok (s : PacketSnapshot) : Prop := mkSnapshotOk {
  so_order : in_order (s_ids s);
  so_size : (length (s_entries s) <= N)%nat;
  so_entries : Forall (entry_ok (l_attributes (s_layout s))) (s_entries s);
  so_words : indicator_words (s_ids s) (l_attributes (s_layout s)) = Ok (l_cif (s_layout s));
  so_attributes : 0 <= l_attributes (s_layout s) /\ nonzero (Z.land (l_attributes (s_layout s)) (Z.lnot all_attributes)) = false;
  so_generation : 0 <= s_generation s <= U64_MAX }.

Lemma entries_selectors attributes entries : Forall (entry_ok attributes) entries -> Forall selector_ok (e_id <$> entries).
Proof. intros Hf. apply Forall_fmap. eapply list.Forall_impl; [exact Hf|]. by intros e []. Qed.

Lemma snapshot_words s : snapshot_ok s -> words_of (s_ids s) (l_attributes (s_layout s)) (l_cif (s_layout s)).
Proof.
  intros [_ _ He Hw _ _]. destruct (indicator_words_spec (s_ids s) (l_attributes (s_layout s))) as (words & Hw' & H); [by eapply entries_selectors|].
  rewrite Hw in Hw'. by injection Hw' as ->.
Qed.

Lemma builder_new_ok subtype : snapshot_ok (builder_new subtype).
Proof. split; cbn; [constructor|lia|constructor|done|done|done]. Qed.

(** The common end of the edits of one entry: a new generation and new indicator words. *)
Lemma finish_edit s entries : snapshot_ok s -> in_order (e_id <$> entries) -> (length entries <= N)%nat ->
  Forall (entry_ok (l_attributes (s_layout s))) entries ->
  returns (let? s := bump (mkSnapshot (s_layout s) entries (s_generation s)) in indicators s) (fun s' =>
    snapshot_ok s' /\ s_entries s' = entries /\ s_generation s' = s_generation s + 1 /\
    l_attributes (s_layout s') = l_attributes (s_layout s)).
Proof.
  intros Hs Ho Hl He. unfold bump. cbn [s_generation]. pose proof (so_generation _ Hs).
  destruct (Z.eqb_spec (s_generation s) U64_MAX); cbn [rbind]; [done|]. unfold indicators, s_ids. cbn [s_entries s_layout].
  destruct (indicator_words_spec (e_id <$> entries) (l_attributes (s_layout s))) as (words & Hw & _); [by eapply entries_selectors|].
  rewrite Hw. cbn [rbind returns set_layout s_entries s_generation s_layout set_cif l_attributes]. split_and!; try done.
  split; cbn [s_ids s_entries s_layout l_attributes l_cif s_generation]; try done; [by apply Hs|cbn; lia].
Qed.

Lemma insert_entry_ok s entry replace : snapshot_ok s ->
  (valid_field_selector (e_id entry) = true -> entry_ok (l_attributes (s_layout s)) entry) ->
  returns (insert_entry N s entry replace) (fun s' =>
    snapshot_ok s' /\ entry ∈ s_entries s' /\ s_generation s' = s_generation s + 1 /\
    l_attributes (s_layout s') = l_attributes (s_layout s) /\
    (forall e, e_id e <> e_id entry -> e ∈ s_entries s' <-> e ∈ s_entries s)).
Proof.
  intros Hs He. unfold insert_entry. apply returns_guard. intros Hv%negb_false_iff. specialize (He Hv). cbv zeta.
  set (index := position (s_entries s) (e_id entry)). set (found := at_position (s_entries s) index (e_id entry)).
  apply returns_guard. intros _. apply returns_guard. intros Hcap.
  set (entries := take index (s_entries s) ++ entry :: drop (if found then S index else index) (s_entries s)).
  destruct (position_spec (s_entries s) (e_id entry)) as (Hl & _ & _). fold index in Hl.
  assert (Hrest : forall e, e_id e <> e_id entry -> e ∈ entries <-> e ∈ s_entries s).
  { intros e Hne. unfold entries. rewrite <- (take_drop index (s_entries s)) at 3. rewrite !elem_of_app, elem_of_cons.
    enough (e ∈ drop (if found then S index else index) (s_entries s) <-> e ∈ drop index (s_entries s)) by (split; intros; destruct_or!; subst; tauto).
    unfold found, at_position. destruct (s_entries s !! index) as [e'|] eqn:Ee; [|done].
    destruct (fid_eqb (e_id e') (e_id entry)) eqn:Eq; [|done]. apply fid_eqb_eq in Eq. rewrite (drop_S _ _ _ Ee), elem_of_cons.
    split; [tauto|]. intros [->|?]; done. }
  eapply returns_mono; [apply (finish_edit s entries Hs)|].
  - apply insert_order, Hs.
  - unfold entries. rewrite length_app. cbn [length]. rewrite length_take, length_drop. pose proof (so_size _ Hs).
    apply andb_false_iff in Hcap. unfold found, at_position in *. destruct (s_entries s !! index) as [e'|] eqn:Ee.
    + apply lookup_lt_Some in Ee. destruct (fid_eqb _ _); [lia|]. destruct Hcap as [|Hc%Nat.eqb_neq]; [done|]. lia.
    + destruct Hcap as [|Hc%Nat.eqb_neq]; [done|]. apply lookup_ge_None in Ee. lia.
  - pose proof (so_entries _ Hs) as Hall. unfold entries. apply Forall_app. split; [by apply Forall_take|]. constructor; [done|by apply Forall_drop].
  - intros s' (H1 & H2 & H3 & H4). rewrite H2. split_and!; try done. unfold entries. apply elem_of_app. right. apply elem_of_cons. by left.
Qed.

(** ** The edits *)

Lemma descriptor_selector id d : descriptor id = Some d -> selector_ok id.
Proof.
  intros Hd. destruct (registry_cases (fun d => (0 <=? cif (d_id d)) && (0 <=? fbit (d_id d)) && valid_field_selector (d_id d) = true) id d) as [H <-].
  - apply list.Forall_forall. intros x Hx. assert (Hall : forallb (fun d => (0 <=? cif (d_id d)) && (0 <=? fbit (d_id d)) && valid_field_selector (d_id d)) descriptors = true)
      by (vm_compute; reflexivity). rewrite forallb_forall in Hall. by apply Hall, list_elem_of_In.
  - done.
  - rewrite !andb_true_iff, !Z.leb_le in H. destruct H as [[? ?] ?]. done.
Qed.

(** Without a mask, or with the mask of the current value, only the current value is selected. *)
Lemma selects_current attributes a : nonzero attributes && negb (attributes =? attribute_bit Attribute.current) = false -> 0 <= a <= 12 ->
  selects attributes a = (a =? 0).
Proof.
  intros Hm Ha. assert (Hsel : selection attributes = attribute_bit 0).
  { unfold selection. destruct (nonzero attributes); [|done]. cbn in Hm. by apply negb_false_iff, Z.eqb_eq in Hm. }
  unfold selects. rewrite Hsel.
  assert (Hall : forallb (fun n => Bool.eqb (nonzero (Z.land (attribute_bit 0) (attribute_bit (Z.of_nat n)))) (Z.of_nat n =? 0)) (seq 0 13) = true)
    by (vm_compute; reflexivity).
  rewrite forallb_forall in Hall. specialize (Hall (Z.to_nat a)). rewrite in_seq in Hall.
  rewrite Z2Nat.id in Hall by lia. apply Bool.eqb_prop, Hall. lia.
Qed.

Lemma set_value_ok s id v replace : Kind = BodyKind.values -> snapshot_ok s -> value_typed v ->
  returns (set_value N s id v replace) (fun s' => snapshot_ok s' /\
    exists e, e ∈ s_entries s' /\ e_id e = id /\ value_of e 0 = Some v /\
    forall e', e_id e' <> id -> e' ∈ s_entries s' <-> e' ∈ s_entries s).
Proof.
  intros HK Hs Hv. unfold set_value. eapply returns_bind; [apply returns_safe, validate_value_safe|]. intros [] Hval _. cbv zeta.
  apply returns_guard. intros Hmask. set (entry := mkEntry id _ 0).
  assert (Hd : exists d, descriptor id = Some d).
  { unfold validate_value in Hval. destruct (value_index v =? 8); [done|]. destruct (descriptor id); [eauto|done]. }
  destruct Hd as [d Hd]. eapply returns_mono; [apply (insert_entry_ok s entry replace Hs)|].
  - intros _. split; cbn [e_id e_diagnostic e_values entry].
    + by eapply descriptor_selector.
    + done.
    + done.
    + rewrite HK, bool_decide_true by done. intros a Ha. rewrite (selects_current _ _ Hmask Ha).
      destruct (Z.eqb_spec a 0) as [->|Hne].
      * split_and!; [done|done|]. unfold validate_attribute_value. rewrite Hd. cbn [is_none].
        assert (value_index v =? 8 = false) as ->; [|done]. unfold validate_value in Hval. by destruct (value_index v =? 8).
      * rewrite list_lookup_insert_ne by lia. unfold no_values. destruct (replicate 13 None !! Z.to_nat a) as [x|] eqn:E; [|done].
        by apply lookup_replicate in E as [-> _].
  - intros s' (H1 & H2 & _ & _ & H3). split; [done|]. by exists entry.
Qed.

Lemma plain_entry_ok attributes id bits : Kind <> BodyKind.values -> 0 <= cif id -> 0 <= fbit id -> u32 bits ->
  valid_field_selector id = true -> entry_ok attributes (mkEntry id no_values bits).
Proof. intros HK H1 H2 H3 H4. split; cbn; [done|done|done|]. by rewrite bool_decide_false. Qed.

Lemma remove_ok s id : snapshot_ok s -> returns (remove s id) (fun s' => snapshot_ok s' /\ id ∉ s_ids s' /\
  forall e, e_id e <> id -> e ∈ s_entries s' <-> e ∈ s_entries s).
Proof.
  intros Hs. unfold remove. destruct (first_index _ _) as [i|] eqn:Ei; [|done]. apply first_index_Some in Ei as [(e & He & Hid) _].
  apply fid_eqb_eq in Hid. pose proof (lookup_lt_Some _ _ _ He) as Hi. pose proof (so_size _ Hs).
  assert (Hsplit := take_drop_middle _ _ _ He).
  eapply returns_mono; [apply (finish_edit s (delete i (s_entries s)) Hs)|].
  - apply delete_order, Hs.
  - rewrite length_delete by eauto. lia.
  - pose proof (so_entries _ Hs) as Hall. rewrite delete_take_drop. apply Forall_app. split; [by apply Forall_take|by apply Forall_drop].
  - intros s' (H1 & H2 & _). split; [done|]. unfold s_ids. rewrite H2, delete_take_drop. split.
    + intros Hin. pose proof (in_order_nodup _ (so_order _ Hs)) as Hnd. unfold s_ids in Hnd. rewrite <- Hsplit, fmap_app in Hnd.
      cbn [fmap list_fmap] in Hnd. rewrite Hid in Hnd. apply list.NoDup_app in Hnd as (_ & Hx & Hn). apply list.NoDup_cons in Hn as [Hn _].
      rewrite fmap_app in Hin. apply elem_of_app in Hin as [Hin|Hin]; [|done]. apply (Hx _ Hin). apply elem_of_cons. by left.
    + intros e' Hne. rewrite <- Hsplit at 3. rewrite !elem_of_app, elem_of_cons. split; [tauto|]. intros [?|[->|?]]; [tauto|done|tauto].
Qed.

(** Edits of the layout context that leave the fields alone. *)
Lemma relayout_ok s s' : snapshot_ok s -> bump s = Ok s' -> snapshot_ok s' /\ s_entries s' = s_entries s /\ s_layout s' = s_layout s.
Proof.
  intros Hs. unfold bump. pose proof (so_generation _ Hs). destruct (Z.eqb_spec (s_generation s) U64_MAX); [done|]. intros [= <-].
  destruct Hs. split; [|done]. split; try done. cbn. lia.
Qed.

Lemma configure_ok s packet_class action : snapshot_ok s -> returns (configure s packet_class action) (fun s' =>
  snapshot_ok s' /\ s_entries s' = s_entries s /\ l_action (s_layout s') = action /\ l_packet_class (s_layout s') = packet_class).
Proof.
  intros Hs. unfold configure. apply returns_guard. intros _. apply (returns_bind _ _ (fun _ => True)); [apply returns_safe; unfold bump; by case_match|].
  intros s1 Hb _. destruct (relayout_ok s s1 Hs Hb) as (H1 & H2 & H3). cbn [returns]. split_and!; [|done|done|done].
  destruct H1. by split.
Qed.

(** A structured field has no base values in a builder without an arena. *)
Lemma structured_no_base attributes e a v : Kind = BodyKind.values -> entry_ok attributes e -> structured_field (e_id e) = true ->
  0 <= a <= 10 -> value_of e a = Some v -> False.
Proof.
  intros HK He Hst Ha Hv. pose proof (eo_values _ _ He) as Hvals. rewrite HK, bool_decide_true in Hvals by done.
  specialize (Hvals a ltac:(lia)). fold (value_of e a) in Hvals. rewrite Hv in Hvals. destruct Hvals as (_ & _ & Hval).
  unfold validate_attribute_value in Hval. destruct (descriptor (e_id e)) as [d|] eqn:Ed; [|done]. cbn [is_none] in Hval.
  destruct (13 <=? a) eqn:E13; [done|]. cbn [orb] in Hval. destruct (value_index v =? 8) eqn:E8; [done|].
  rewrite (proj2 (Z.eqb_neq a Attribute.probability)), (proj2 (Z.eqb_neq a Attribute.belief)) in Hval
    by (unfold Attribute.probability, Attribute.belief; lia).
  unfold validate_value in Hval. rewrite E8, Ed in Hval. destruct registry_coherent as (_ & Hc & _). specialize (Hc _ _ Ed).
  apply descriptor_Some in Ed as [_ Hid]. unfold descriptor_consistent in Hc. rewrite Hid, Hst, !andb_true_iff in Hc.
  destruct Hc as (((((_ & Hd8) & _) & _) & _) & _). apply Bool.eqb_prop in Hd8. symmetry in Hd8. apply Z.eqb_eq in Hd8.
  rewrite Hd8, E8 in Hval. done.
Qed.

Lemma format_values_none attributes e : Kind = BodyKind.values -> entry_ok attributes e -> format_values e = [].
Proof.
  intros HK He. unfold format_values. destruct (_ || _) eqn:Ef; [|done].
  assert (Hst : structured_field (e_id e) = true).
  { apply orb_true_iff in Ef as [Ht|Hx%fid_eqb_eq]; [|by rewrite Hx]. unfold temporal_duration_field in Ht.
    destruct (e_id e) as [c b]. cbn in Ht. apply andb_true_iff in Ht as [Hc%Z.eqb_eq Hb%orb_true_iff].
    destruct Hb as [Hb%Z.eqb_eq|Hb%Z.eqb_eq]; rewrite Hc, Hb; reflexivity. }
  assert (Hnone : forall a, 0 <= a <= 10 -> value_of e a = None).
  { intros a Ha. destruct (value_of e a) as [v|] eqn:Ev; [|done]. exfalso. by eapply structured_no_base. }
  cbn [omap list_omap]. by rewrite !Hnone by lia.
Qed.

Lemma bind_format_ok s tsi tsf : snapshot_ok s -> returns (bind_timestamp_format Kind s tsi tsf) (fun s' =>
  snapshot_ok s' /\ s_entries s' = s_entries s /\ l_timestamp_format (s_layout s') = mkBinding tsi tsf true).
Proof.
  intros Hs. unfold bind_timestamp_format. apply returns_guard. intros _. apply (returns_bind _ _ (fun _ => True)).
  { case_bool_decide as HK; [|done]. assert (flat_map format_values (s_entries s) = []) as ->; [|done].
    pose proof (so_entries _ Hs) as Hall. induction Hall as [|e es He _ IH]; [done|]. cbn. by rewrite (format_values_none _ _ HK He). }
  intros _ _ _. apply (returns_bind _ _ (fun _ => True)); [apply returns_safe; unfold bump; by case_match|].
  intros s1 Hb _. destruct (relayout_ok s s1 Hs Hb) as (H1 & H2 & H3). cbn [returns]. split_and!; [|done|done]. destruct H1. by split.
Qed.

(** ** The transactional edit *)

Lemma last_match_Some {A} (p : A -> bool) l x : last_match p l = Some x -> x ∈ l /\ p x = true.
Proof.
  unfold last_match. enough (H : forall acc, foldl (fun found x => if p x then Some x else found) acc l = Some x ->
    acc = Some x \/ (x ∈ l /\ p x = true)) by (intros Hx; destruct (H _ Hx); [done|done]).
  induction l as [|y l IH]; intros acc; cbn [foldl]; [by left|]. intros Hx. destruct (IH _ Hx) as [Hy|[Hin Hp]].
  - destruct (p y) eqn:Ep; [|by left]. injection Hy as ->. right. split; [apply elem_of_cons; by left|done].
  - right. split; [apply elem_of_cons; by right|done].
Qed.

(** What an edit may use for the value of an attribute: the one supplied, else the old one. *)
Definition edited_value (s : PacketSnapshot) (supplied : list AttributeValue) (id : FieldId) (a : Z) : option SemanticValue :=
  match last_match (fun i => fid_eqb (av_field i) id && (av_attribute i =? a)) supplied with
  | Some input => Some (av_value input)
  | None => last_match (fun e => fid_eqb (e_id e) id) (s_entries s) ≫= (fun old => value_of old a)
  end.

Lemma edit_value_ok s supplied id a : Kind = BodyKind.values -> snapshot_ok s -> Forall (fun i => value_typed (av_value i)) supplied -> 0 <= a <= 12 ->
  returns (edit_value s supplied id a) (fun v => edited_value s supplied id a = Some v /\ value_typed v /\ validate_attribute_value id a v = Ok tt).
Proof.
  intros HK Hs Ht Ha. assert (Hsafe : forall v, safe (validate_attribute_value id a v)).
  { intros v. unfold validate_attribute_value. test_goal E1; [done|]. test_goal E2; [done|]. test_goal E3; [by case_match|].
    test_goal E4; [by case_match|]. apply validate_value_safe. }
  unfold edit_value, edited_value. destruct (last_match _ supplied) as [input|] eqn:Ei.
  - apply last_match_Some in Ei as [Hin _]. rewrite list.Forall_forall in Ht. eapply returns_bind; [apply returns_safe, Hsafe|].
    intros [] Hv _. cbn. split_and!; [done|by apply Ht|done].
  - destruct (_ ≫= _) as [v|] eqn:Eo; [|done]. destruct (last_match _ (s_entries s)) as [old|] eqn:El; [|done]. cbn in Eo.
    apply last_match_Some in El as [Hin Hid]. pose proof (so_entries _ Hs) as Hall. rewrite list.Forall_forall in Hall.
    pose proof (eo_values _ _ (Hall _ Hin)) as Hvals. rewrite HK, bool_decide_true in Hvals by done.
    specialize (Hvals a Ha). fold (value_of old a) in Hvals. rewrite Eo in Hvals. destruct Hvals as (_ & Hty & Hval).
    assert (value_index v =? 8 = false) as ->.
    { unfold validate_attribute_value in Hval. destruct (is_none _); [done|]. destruct (13 <=? a); [done|]. cbn in Hval. by destruct (value_index v =? 8). }
    eapply returns_bind; [apply returns_safe, Hsafe|]. intros [] Hv _. cbn. done.
Qed.

Lemma edit_values_ok s supplied id l values : Kind = BodyKind.values -> snapshot_ok s -> Forall (fun i => value_typed (av_value i)) supplied ->
  NoDup l -> Forall (fun a => 0 <= a <= 12) l -> length values = 13%nat ->
  returns (edit_values s supplied id l values) (fun values' => length values' = 13%nat /\
    forall a, 0 <= a <= 12 ->
      if bool_decide (a ∈ l) then exists v, default None (values' !! Z.to_nat a) = Some v /\ edited_value s supplied id a = Some v /\
                                     value_typed v /\ validate_attribute_value id a v = Ok tt
      else default None (values' !! Z.to_nat a) = default None (values !! Z.to_nat a)).
Proof.
  intros HK Hs Ht Hnd. revert values. induction Hnd as [|a l Hna Hnd IH]; intros values Hf Hlen; cbn [edit_values].
  { cbn. split; [done|]. intros a _. by rewrite bool_decide_false by (apply not_elem_of_nil). }
  apply list.Forall_cons in Hf as [Ha Hf]. eapply returns_bind; [by apply edit_value_ok|]. cbn beta. intros v _ (Hv1 & Hv2 & Hv3).
  eapply returns_mono; [apply IH; [done|by rewrite length_insert]|]. cbn beta. intros values' [Hl' H']. split; [done|].
  intros b Hb. specialize (H' b Hb). case_bool_decide as Hbl.
  - rewrite bool_decide_true by (apply elem_of_cons; by right). done.
  - destruct (Z.eq_dec b a) as [->|Hne].
    + rewrite bool_decide_true by (apply elem_of_cons; by left). rewrite list_lookup_insert_eq in H' by lia. exists v. done.
    + rewrite bool_decide_false by (rewrite elem_of_cons; tauto). rewrite H', list_lookup_insert_ne by lia. done.
Qed.

(** An entry of the candidate before its values are set. *)
Definition blank (e : FieldEntry) : Prop := selector_ok (e_id e) /\ u32 (e_diagnostic e) /\ e_values e = no_values.

Lemma edit_entries_ok s supplied mask entries : snapshot_ok s -> Forall (fun i => value_typed (av_value i)) supplied ->
  Forall blank entries ->
  returns (edit_entries Kind s supplied (selection mask) entries) (fun entries' =>
    e_id <$> entries' = e_id <$> entries /\ e_diagnostic <$> entries' = e_diagnostic <$> entries /\ Forall (entry_ok mask) entries' /\
    (Kind = BodyKind.values -> Forall (fun e => forall a, 0 <= a <= 12 ->
       value_of e a = if selects mask a then edited_value s supplied (e_id e) a else None) entries')).
Proof.
  intros Hs Ht Hb. induction Hb as [|e entries (Hsel & Hdiag & Hno) Hb IH]; cbn [edit_entries]; [by split_and!|].
  apply returns_guard. intros _.
  apply (returns_bind _ _ (fun values => entry_ok mask (mkEntry (e_id e) values (e_diagnostic e)) /\
    (Kind = BodyKind.values -> forall a, 0 <= a <= 12 ->
      default None (values !! Z.to_nat a) = if selects mask a then edited_value s supplied (e_id e) a else None))).
  - destruct (decide (Kind = BodyKind.values)) as [HK|HK].
    + rewrite HK at 1. rewrite Hno. eapply returns_mono; [apply edit_values_ok; [done|done|done|apply attribute_list_nodup|apply attribute_list_range|done]|].
      cbn beta. intros values [Hl H]. assert (Hspec : forall a, 0 <= a <= 12 ->
        if selects mask a then exists v, default None (values !! Z.to_nat a) = Some v /\ edited_value s supplied (e_id e) a = Some v /\
          value_typed v /\ validate_attribute_value (e_id e) a v = Ok tt else default None (values !! Z.to_nat a) = None).
      { intros a Ha. specialize (H a Ha). destruct (selects mask a) eqn:Es.
        - rewrite bool_decide_true in H; [done|]. by apply attribute_list_elem.
        - rewrite bool_decide_false in H; [|by intros [_ Hx]%attribute_list_elem; unfold selects in Es; congruence]. rewrite H.
          unfold no_values. destruct (replicate 13 None !! Z.to_nat a) as [x|] eqn:E; [|done]. by apply lookup_replicate in E as [-> _]. }
      split.
      * split; cbn [e_id e_diagnostic e_values]; [done|done|done|]. rewrite HK, bool_decide_true by done. intros a Ha.
        specialize (Hspec a Ha). destruct (selects mask a); [|by rewrite Hspec]. destruct Hspec as (v & -> & _ & H1 & H2). done.
      * intros _ a Ha. specialize (Hspec a Ha). destruct (selects mask a); [|done]. destruct Hspec as (v & -> & -> & _). done.
    + assert (Hbr : match Kind with BodyKind.values => edit_values s supplied (e_id e) (attribute_list (selection mask)) (e_values e) | _ => Ok (e_values e) end
        = Ok (e_values e)) by (by destruct Kind). rewrite Hbr. cbn [returns]. split; [|done].
      split; cbn; [done|done|by rewrite Hno|]. by rewrite bool_decide_false.
  - intros values _ (Hv1 & Hv2). eapply returns_bind; [exact IH|]. cbn beta. intros entries' _ (H1 & H2 & H3 & H4). cbn [returns fmap list_fmap].
    rewrite <- H1, <- H2. split_and!; [done|done|by constructor|]. intros HK. constructor; [by apply Hv2|by apply H4].
Qed.

(** The entries of the candidate: the fields of the builder, and the added one. *)
Lemma candidate_entries_ok s added : snapshot_ok s ->
  returns (candidate_entries N s added) (fun entries => in_order (e_id <$> entries) /\ (length entries <= N)%nat /\ Forall blank entries /\
    (forall id, id ∈ e_id <$> entries <-> id ∈ s_ids s \/ added = Some id)).
Proof.
  intros Hs. unfold candidate_entries. set (entries := _ <$> s_entries s).
  assert (Hids : e_id <$> entries = s_ids s) by (unfold entries, s_ids; by rewrite <- list_fmap_compose).
  assert (Hlen : length entries = length (s_entries s)) by (unfold entries; apply length_fmap).
  assert (Hblank : Forall blank entries).
  { apply Forall_fmap. eapply list.Forall_impl; [apply (so_entries _ Hs)|]. intros e [H1 H2 _ _]. by split. }
  pose proof (so_size _ Hs) as Hsize. pose proof (so_order _ Hs) as Ho. rewrite <- Hids in Ho.
  destruct added as [id|].
  2:{ cbn [returns]. split_and!; [done|lia|done|]. intros id. rewrite Hids. split; [tauto|]. by intros [?|?]. }
  apply returns_guard. intros Hd. cbv zeta. set (index := position entries id).
  destruct (at_position entries index id) eqn:Ea.
  - cbn [returns]. split_and!; [done|lia|done|]. intros id'. rewrite Hids. split; [tauto|]. intros [?|[= <-]]; [done|].
    rewrite <- Hids. unfold at_position in Ea. destruct (entries !! index) as [e|] eqn:Ee; [|done]. apply fid_eqb_eq in Ea as <-.
    apply list_elem_of_fmap. exists e. split; [done|]. by eapply list_elem_of_lookup_2.
  - apply returns_guard. intros Hn%Nat.eqb_neq. cbn [returns]. pose proof (insert_order entries (mkEntry id no_values 0) Ho) as Hins.
    cbn [e_id] in Hins. cbv zeta in Hins. fold index in Hins. rewrite Ea in Hins. split_and!; [done| | |].
    + rewrite length_app. cbn [length]. rewrite length_take, length_drop. lia.
    + apply Forall_app. split; [by apply Forall_take|]. constructor; [|by apply Forall_drop].
      destruct (descriptor id) as [d|] eqn:Ed; [|done]. split_and!; [by eapply descriptor_selector|done|done].
    + intros id'. rewrite fmap_app, elem_of_app. cbn [fmap list_fmap e_id]. rewrite elem_of_cons, <- Hids.
      rewrite <- (take_drop index entries) at 3. rewrite fmap_app, elem_of_app.
      split; [intros [?|[->|?]]; tauto|]. intros [[?|?]|[= ->]]; tauto.
Qed.

Lemma check_supplied_safe selected entries seen supplied : (length entries <= length seen)%nat -> safe (check_supplied selected entries seen supplied).
Proof.
  revert seen. induction supplied as [|input supplied IH]; intros seen Hl; cbn [check_supplied]; [done|]. test_goal E1; [done|].
  destruct (first_index _ entries) as [i|] eqn:Ei; [|done]. apply first_index_lt in Ei.
  destruct (lookup_lt_is_Some_2 seen i) as [w Hw]; [lia|]. rewrite Hw. cbn [deref rbind]. test_goal E2; [done|].
  apply IH. by rewrite length_insert.
Qed.

Lemma edit_ok s mask supplied added : snapshot_ok s -> 0 <= mask -> Forall (fun i => value_typed (av_value i)) supplied ->
  returns (edit Kind N s mask supplied added) (fun s' => snapshot_ok s' /\ l_attributes (s_layout s') = mask /\
    s_generation s' = s_generation s + 1 /\ (forall id, id ∈ s_ids s' <-> id ∈ s_ids s \/ added = Some id) /\
    (Kind = BodyKind.values -> Forall (fun e => forall a, 0 <= a <= 12 ->
       value_of e a = if selects mask a then edited_value s supplied (e_id e) a else None) (s_entries s'))).
Proof.
  intros Hs Hm Ht. unfold edit. apply returns_guard. intros [Hmask _]%orb_false_iff. apply returns_guard. intros Hg%Z.eqb_neq. cbv zeta.
  apply returns_guard. intros _. eapply returns_bind; [by apply candidate_entries_ok|]. cbn beta. intros entries _ (Ho & Hl & Hb & Hin).
  apply (returns_bind _ _ (fun _ => True)); [apply returns_safe, check_supplied_safe; rewrite length_replicate; lia|]. intros _ _ _.
  eapply returns_bind; [by apply edit_entries_ok|]. cbn beta. intros entries' _ (H1 & H2 & H3 & H4).
  destruct (indicator_words_spec (e_id <$> entries') mask) as (words & Hw & _); [by eapply entries_selectors|].
  rewrite Hw. cbn [rbind returns]. pose proof (so_generation _ Hs). split_and!; [|done|done| |done].
  - split; unfold s_ids; cbn [s_entries s_layout set_cif set_attributes l_attributes l_cif s_generation]; [by rewrite H1| |done|done|done|lia].
    rewrite <- (length_fmap e_id), H1, length_fmap. done.
  - intros id. unfold s_ids. cbn [s_entries]. rewrite H1. apply Hin.
Qed.
End Invariant.

(** ** The builders a program can reach *)

Section Reachable.
Context (Kind : BodyKind.t) (N : nat).

Inductive builder_reachable : PacketSnapshot -> Prop :=
  | reach_new subtype : compatible_body Kind subtype = true -> builder_reachable (builder_new subtype)
  | reach_configure s s' packet_class action : builder_reachable s -> 0 <= action -> u16 packet_class ->
      configure s packet_class action = Ok s' -> builder_reachable s'
  | reach_bind s s' tsi tsf : builder_reachable s -> bind_timestamp_format Kind s tsi tsf = Ok s' -> builder_reachable s'
  | reach_set s s' id v replace : Kind = BodyKind.values -> builder_reachable s -> value_typed v ->
      set_value N s id v replace = Ok s' -> builder_reachable s'
  | reach_select s s' id : Kind = BodyKind.selectors -> builder_reachable s -> 0 <= cif id -> 0 <= fbit id ->
      select N s id = Ok s' -> builder_reachable s'
  | reach_diagnostic s s' id bits : Kind = BodyKind.diagnostics -> builder_reachable s -> 0 <= cif id -> 0 <= fbit id -> u32 bits ->
      diagnostic N s id bits = Ok s' -> builder_reachable s'
  | reach_remove s s' id : builder_reachable s -> remove s id = Ok s' -> builder_reachable s'
  | reach_edit s s' mask supplied added : builder_reachable s -> 0 <= mask -> Forall (fun i => value_typed (av_value i)) supplied ->
      edit Kind N s mask supplied added = Ok s' -> builder_reachable s'.

Lemma builder_reachable_ok s : builder_reachable s -> snapshot_ok Kind N s.
Proof.
  induction 1.
  - apply builder_new_ok.
  - eapply returns_Ok in H2; [|by apply configure_ok]. by destruct H2.
  - eapply returns_Ok in H0; [|by apply bind_format_ok]. by destruct H0.
  - eapply returns_Ok in H2; [|by apply set_value_ok]. by destruct H2.
  - eapply returns_Ok in H3; [|apply (insert_entry_ok Kind N s (mkEntry id no_values 0) false); [done|]]; [by destruct H3|].
    intros. by apply plain_entry_ok; [congruence|done..].
  - eapply returns_Ok in H4; [|apply (insert_entry_ok Kind N s (mkEntry id no_values bits) false); [done|]]; [by destruct H4|].
    intros. by apply plain_entry_ok; [congruence|done..].
  - eapply returns_Ok in H0; [|by apply remove_ok]. by destruct H0.
  - eapply returns_Ok in H2; [|by apply edit_ok]. by destruct H2.
Qed.
End Reachable.

(** ** Properties *)

(** C8. In every state a builder can reach, whatever edits were made, refused or not: its
    fields stand in packet order without repetition and within its capacity, a bit of its
    indicator words is set exactly when it holds the field, and, when it holds values, an
    entry has the value of an attribute exactly when the layout selects it, a value that
    the registry accepts for that attribute. *)
Theorem builder_faithful Kind N s : builder_reachable Kind N s ->
  in_order (s_ids s) /\ NoDup (s_ids s) /\ (length (s_entries s) <= N)%nat /\
  (forall id, selector_ok id -> bit_set (word_at (l_cif (s_layout s)) (cif id)) (fbit id) = true <-> id ∈ s_ids s) /\
  (Kind = BodyKind.values -> forall e a, e ∈ s_entries s -> 0 <= a <= 12 ->
     if selects (l_attributes (s_layout s)) a then exists v, value_of e a = Some v /\ validate_attribute_value (e_id e) a v = Ok tt
     else value_of e a = None).
Proof.
  intros Hreach. pose proof (builder_reachable_ok _ _ _ Hreach) as Hs. pose proof (so_order _ _ _ Hs) as Ho.
  split; [done|]. split; [by apply in_order_nodup|]. split; [by apply Hs|]. split.
  - intros id Hid. destruct (selector_range _ Hid) as (Hc & Hb & H0). pose proof (snapshot_words _ _ _ Hs) as Hw.
    rewrite bit_set_testbit, (wo_bits _ _ _ Hw) by lia.
    assert ((cif id =? 0) && (fbit id =? 7) = false) as -> by (destruct (Z.eqb_spec (cif id) 0), (Z.eqb_spec (fbit id) 7); try done; lia).
    cbn [andb]. rewrite orb_false_r, field_bit_true, (mkField_eq id) by done. split; [|by left]. intros [?|(Hz & id' & Hin & Hc' & _)]; [done|].
    pose proof (entries_selectors _ _ _ (so_entries _ _ _ Hs)) as Hall. rewrite list.Forall_forall in Hall.
    destruct (selector_range _ (Hall _ Hin)) as (? & _). specialize (H0 Hz). lia.
  - intros HK e a He Ha. pose proof (so_entries _ _ _ Hs) as Hall. rewrite list.Forall_forall in Hall.
    pose proof (eo_values _ _ _ (Hall _ He)) as Hv. rewrite bool_decide_true in Hv by done. specialize (Hv a Ha). fold (value_of e a) in Hv.
    destruct (value_of e a) as [v|] eqn:Ev; [destruct Hv as (-> & _ & Hval); eauto|by rewrite Hv].
Qed.

(** C25. The transactional edit is defined and does what it says: when it is accepted the
    builder holds its old fields and the added one, the layout has the new mask, and every
    entry has, for each attribute of the mask, the value supplied for it or else the value it
    had before, and no value for any other attribute. *)
Theorem edit_transaction Kind N s mask supplied added :
  builder_reachable Kind N s -> 0 <= mask -> Forall (fun i => value_typed (av_value i)) supplied ->
  safe (edit Kind N s mask supplied added) /\
  forall s', edit Kind N s mask supplied added = Ok s' ->
    (forall id, id ∈ s_ids s' <-> id ∈ s_ids s \/ added = Some id) /\
    l_attributes (s_layout s') = mask /\ s_generation s' = s_generation s + 1 /\
    (Kind = BodyKind.values -> forall e a, e ∈ s_entries s' -> 0 <= a <= 12 ->
       value_of e a = if selects mask a then edited_value s supplied (e_id e) a else None).
Proof.
  intros Hreach Hm Ht. pose proof (edit_ok Kind N s mask supplied added (builder_reachable_ok _ _ _ Hreach) Hm Ht) as H.
  destruct (edit Kind N s mask supplied added) as [s'|x|]; cbn [returns] in H; [|done|done]. split; [done|]. intros s1 [= <-].
  destruct H as (_ & H1 & H2 & H3 & H4). split_and!; [done|done|done|]. intros HK e a He Ha. specialize (H4 HK). rewrite list.Forall_forall in H4. by apply H4.
Qed.

(** ** Witnesses *)

(** A context packet with a bandwidth and a gain, set in the other order. *)
Definition demo_builder : PacketSnapshot :=
  match (let? s := set_value 16 (builder_new PacketSubtype.context) Field.Gain (v_gain 64 128) false in
         set_value 16 s Field.Bandwidth (v_hertz 4294967296) false) with Ok s => s | _ => builder_new PacketSubtype.context end.

Lemma demo_builder_reachable : builder_reachable BodyKind.values 16 demo_builder.
Proof.
  apply (reach_set _ _ (match set_value 16 (builder_new PacketSubtype.context) Field.Gain (v_gain 64 128) false with Ok s => s | _ => builder_new PacketSubtype.context end)
    _ Field.Bandwidth (v_hertz 4294967296) false eq_refl); [|vm_compute; split; discriminate|vm_compute; reflexivity].
  apply (reach_set _ _ (builder_new PacketSubtype.context) _ Field.Gain (v_gain 64 128) false eq_refl); [by apply reach_new| |vm_compute; reflexivity].
  vm_compute. repeat split; discriminate.
Qed.

Lemma builder_faithful_witness : s_ids demo_builder = [Field.Bandwidth; Field.Gain] /\
  bit_set (word_at (l_cif (s_layout demo_builder)) 0) 23 = true /\ in_order (s_ids demo_builder).
Proof.
  split; [vm_compute; reflexivity|]. split; [vm_compute; reflexivity|].
  exact (proj1 (builder_faithful BodyKind.values 16 demo_builder demo_builder_reachable)).
Defined.

(** Adding the minimum of both fields while keeping the current values. *)
Definition demo_mask : Z := Z.lor (attribute_bit Attribute.current) (attribute_bit Attribute.minimum).
Definition demo_supplied : list AttributeValue :=
  [mkAttributeValue Field.Gain Attribute.minimum (v_gain 0 0); mkAttributeValue Field.Bandwidth Attribute.minimum (v_hertz 1048576)].

Lemma edit_transaction_witness : exists s', edit BodyKind.values 16 demo_builder demo_mask demo_supplied None = Ok s' /\
  forall e a, e ∈ s_entries s' -> 0 <= a <= 12 ->
    value_of e a = if selects demo_mask a then edited_value demo_builder demo_supplied (e_id e) a else None.
Proof.
  destruct (edit BodyKind.values 16 demo_builder demo_mask demo_supplied None) as [s'|x|] eqn:E; [|vm_compute in E; discriminate E..].
  exists s'. split; [reflexivity|]. intros e a.
  apply (proj2 (edit_transaction BodyKind.values 16 demo_builder demo_mask demo_supplied None demo_builder_reachable ltac:(vm_compute; discriminate)
    ltac:(repeat constructor; vm_compute; discriminate)) s' E). reflexivity.
Defined.
