(* ===== verification/Encoder.v ===== *)
(** * Packet encoding: the writing half of [include/vita/codec/packet.hpp] and the snapshot
      walk of [include/vita/codec/layout.hpp]

    From a frozen builder to the bytes of a packet: measuring, the checks that come before
    anything is written, the indicator words, the values, and the envelope around them.
    The snapshots are those without a native arena (see [Builder]). *)

From S2P Require Import Prelude Wire WireProofs Fields Scalar Structured Packet Builder.

(** ** Measuring a snapshot *)

Module AttributeShape.
Inductive t := selector | diagnostic_word | probability_word | belief_word | base_field.
#[global] Instance t_eq_dec : EqDecision t.
Proof. solve_decision. Defined.
End AttributeShape.

Definition attribute_shape (a : Z) (body : BodyKind.t) : AttributeShape.t :=
  match body with
  | BodyKind.selectors => AttributeShape.selector
  | BodyKind.diagnostics => AttributeShape.diagnostic_word
  | BodyKind.values =>
      if a =? Attribute.probability then AttributeShape.probability_word
      else if a =? Attribute.belief then AttributeShape.belief_word else AttributeShape.base_field
  end.

Record LayoutMeasure := mkMeasure { lm_bytes : Z; lm_generation : Z; lm_signature : Z }.

(** [layout_signature]: an FNV-1a style hash in 64-bit arithmetic. *)
Definition mix (hash value : Z) : Z := wrap64 (Z.lxor hash value * 1099511628211).
Definition body_code (K : BodyKind.t) : Z :=
  match K with BodyKind.values => 0 | BodyKind.selectors => 1 | BodyKind.diagnostics => 2 end.
Definition layout_signature (K : BodyKind.t) (s : PacketSnapshot) : Z :=
  let l := s_layout s in
  let hash := foldl mix 14695981039346656037
    [body_code K; l_attributes l; PacketSubtype.code (l_subtype l); l_packet_class l; l_action l;
     b2z (b_bound (l_timestamp_format l)); b_tsi (l_timestamp_format l); b_tsf (l_timestamp_format l)] in
  foldl (fun hash e => mix (mix hash (Fields.cif (e_id e))) (fbit (e_id e))) hash (s_entries s).

Section Encoder.
Context (K : BodyKind.t).

(** The extents of a snapshot's values.  What follows a successful [native_value] needs the
    bytes of an arena: it is never reached here, and stands as [UB]. *)
Definition snapshot_provider (field : FieldEntry) (attribute offset : Z) : Result FieldExtent :=
  match value_of field attribute with
  | None => Err (error2 ErrorCode.invalid_argument offset)
  | Some value =>
      let shape := attribute_shape attribute K in
      if bool_decide (shape = AttributeShape.probability_word) || bool_decide (shape = AttributeShape.belief_word) then
        let? _ := validate_attribute_value (e_id field) attribute value in Ok (extent2 4 1)
      else if structured_field (e_id field) then let? _ := native_value value in UB
      else
        let? _ := validate_attribute_value (e_id field) attribute value in
        let? d := deref (descriptor (e_id field)) in
        Ok (extent2 (d_words d * 4) 1)
  end.

(** [walk_layout]: the bytes walked over and the state of the visitor. *)
Definition walk_layout {S : Type} (packet : PacketSnapshot) (visitor : LayoutElement -> S -> Result S) (start_offset : Z) (s : S)
  : Result (LayoutMeasure * S) :=
  let? cif0 := deref (l_cif (s_layout packet) !! 0%nat) in
  let? (bw, s) := walk_field_layout K false e_id snapshot_provider visitor limits_default cif0
    (l_attributes (s_layout packet)) (s_entries packet) start_offset 0 s in
  Ok (mkMeasure bw.1 (s_generation packet) (layout_signature K packet), s).

Definition measure (packet : PacketSnapshot) : Result LayoutMeasure :=
  let? (m, _) := walk_layout packet (fun _ (_ : unit) => Ok tt) 0 tt in Ok m.

Definition validate_measure (packet : PacketSnapshot) (cached : LayoutMeasure) : Result unit :=
  fail_if negb (lm_generation cached =? s_generation packet) || negb (lm_signature cached =? layout_signature K packet)
    with error1 ErrorCode.stale_generation ;;
  let? actual := measure packet in
  fail_if negb (lm_bytes actual =? lm_bytes cached) with error1 ErrorCode.invalid_argument ;;
  Ok tt.

(** [index_layout] collects the elements; the vector refuses one more than [Capacity]. *)
Definition index_layout (Capacity : nat) (packet : PacketSnapshot) : Result (list LayoutElement) :=
  let? (_, index) := walk_layout packet (fun e index =>
    fail_if (length index =? Capacity)%nat with error3 ErrorCode.capacity_exhausted 0 (zlen index + 1) ;; Ok (index ++ [e])) 0 [] in
  Ok index.

(** ** Writing *)

(** The words [1..7] that the first announces. *)
Fixpoint write_words (cif : list Z) (cif0 : Z) (indices : list Z) (s : list byte * Z) : Result (list byte * Z) :=
  match indices with
  | [] => Ok s
  | i :: indices =>
      if bit_set cif0 i then
        let? w := deref (cif !! Z.to_nat i) in
        let? output := store32 s.1 s.2 w in
        write_words cif cif0 indices (output, s.2 + 4)
      else write_words cif cif0 indices s
  end.

Definition write_indicators (packet : PacketSnapshot) (output : list byte) (change : bool) : Result (list byte) :=
  let cif := l_cif (s_layout packet) in
  let? cif0 := deref (cif !! 0%nat) in
  let? output := store32 output 0 (Z.lor cif0 (if change then Z.shiftl 1 31 else 0)) in
  let? (output, _) := write_words cif cif0 [1; 2; 3; 4; 5; 6; 7] (output, 4) in
  Ok output.

Definition value_visitor (packet : PacketSnapshot) (values_start own_header : Z) (e : LayoutElement) (output : list byte) : Result (list byte) :=
  let offset := wrap64 (values_start + el_offset e - own_header) in
  match first_index (fun f => fid_eqb (e_id f) (el_field e)) (s_entries packet) ≫= (fun i => s_entries packet !! i) with
  | None => Err (error1 ErrorCode.invalid_state)
  | Some entry =>
      match K with
      | BodyKind.diagnostics => store32 output offset (e_diagnostic entry)
      | BodyKind.values =>
          let? value := deref (value_of entry (el_attribute e)) in
          if base_attribute (el_attribute e) && structured_field (el_field e) then let? _ := native_value value in UB
          else
            let? d := deref (descriptor (el_field e)) in
            write_attribute_scalar d (el_attribute e) value output offset
      | BodyKind.selectors => Ok output
      end
  end.

Definition write_values (packet : PacketSnapshot) (output : list byte) (values_start own_header : Z) : Result (list byte) :=
  let? (_, output) := walk_layout packet (value_visitor packet values_start own_header) 0 output in Ok output.

(** ** Encoding *)

(** The envelope asks for the body the snapshot has. *)
Definition body_matches (e : Envelope) (packet : PacketSnapshot) (change : bool) : Result unit :=
  let invalid := error1 ErrorCode.invalid_argument in
  let l := s_layout packet in
  fail_if is_data (env_type e) || is_extension (env_type e) || env_trailer e with invalid ;;
  fail_if change && negb (env_type e =? PacketType.context) &&
          negb ((env_type e =? PacketType.command) && negb (ack e) && negb (cancel e)) with invalid ;;
  let? _ :=
    (if env_type e =? PacketType.context then
       fail_if negb (bool_decide (K = BodyKind.values)) with invalid ;;
       fail_if negb (bool_decide (l_subtype l = PacketSubtype.context)) with invalid ;; Ok tt
     else
       match command e with
       | None => Err invalid
       | Some c =>
           let cam := cam c in
           let selectors := negb (ack e) && (cancel e || (Z.land (Z.shiftr cam 23) 3 =? 0)) in
           let required := if selectors then BodyKind.selectors else BodyKind.values in
           fail_if negb (bool_decide (required = K)) || (ack e && negb (bit_set cam 18)) with invalid ;;
           fail_if negb (l_action l =? Z.land (Z.shiftr cam 23) 3) with invalid ;;
           let expected := if ack e then PacketSubtype.state_ack else if cancel e then PacketSubtype.cancel
                           else if selectors then PacketSubtype.query else PacketSubtype.control in
           fail_if negb (bool_decide (l_subtype l = expected)) with invalid ;; Ok tt
       end) in
  fail_if nonzero (l_packet_class l) && negb (match class_id e with Some c => l_packet_class l =? packet_class c | None => false end)
    with invalid ;;
  Ok tt.

(** Every value is written into a scratch buffer and checked as it will stand on the wire. *)
Fixpoint check_scratch (id : FieldId) (values : list (Z * SemanticValue)) (scratch : list byte) : Result (list byte) :=
  match values with
  | [] => Ok scratch
  | (a, v) :: values =>
      if base_attribute a && structured_field id then check_scratch id values scratch else
      let? d := deref (descriptor id) in
      let? scratch := write_attribute_scalar d a v scratch 0 in
      let? bytes := subspan scratch 0 (if base_attribute a then d_words d * 4 else 4) in
      let? _ := validate_wire_attribute id a bytes binding_default in
      check_scratch id values scratch
  end.

(** The values an entry holds, by attribute. *)
Definition held_values (e : FieldEntry) : list (Z * SemanticValue) :=
  omap (fun a => (fun v => (a, v)) <$> value_of e a) [0; 1; 2; 3; 4; 5; 6; 7; 8; 9; 10; 11; 12].

Fixpoint check_entries (entries : list FieldEntry) (scratch : list byte) : Result unit :=
  match entries with
  | [] => Ok tt
  | e :: entries => let? scratch := check_scratch (e_id e) (held_values e) scratch in check_entries entries scratch
  end.

(** Everything [encode_packet] checks before it writes: the sizes of the body and of the packet. *)
Definition encode_preflight (e : Envelope) (packet : PacketSnapshot) (output : list byte) (change : bool) : Result (Z * Z) :=
  let? _ := body_matches e packet change in
  let? _ := (if bool_decide (K = BodyKind.values) then check_formats (flat_map format_values (s_entries packet)) else Ok tt) in
  let? body := measure packet in
  let? _ := (if bool_decide (K = BodyKind.values) then check_entries (s_entries packet) (replicate 8 x00) else Ok tt) in
  let? total := measure_envelope e (lm_bytes body) in
  fail_if zlen output <? total with error3 ErrorCode.short_output 0 total ;;
  Ok (lm_bytes body, total).

(** A step that the preflight has made sure of: an error after the output has been written to
    would leave it half written.  It is [UB] here, so that safety shows it cannot happen. *)
Definition assured {A} (r : Result A) : Result A := match r with Ok a => Ok a | _ => UB end.

(** The payload is a part of the output, which is written in place. *)
Definition encode_packet (e : Envelope) (packet : PacketSnapshot) (output : list byte) (change : bool) : Result (Z * list byte) :=
  let? (body, total) := encode_preflight e packet output change in
  let? payload := subspan output (total - body) body in
  let? payload := write_indicators packet payload change in
  let? payload := assured (write_values packet payload 0 0) in
  let? output := memmove output (total - body) payload in
  assured (encode_envelope e payload None output).
End Encoder.

(** ** Diagnostics *)

Definition indicator_size (packet : PacketSnapshot) : Result Z :=
  let? cif0 := deref (l_cif (s_layout packet) !! 0%nat) in Ok (layout_words cif0 * 4).

Fixpoint check_diagnostics (entries : list FieldEntry) (cancelled : bool) : Result unit :=
  match entries with
  | [] => Ok tt
  | e :: entries => let? _ := validate_diagnostic_bits (e_diagnostic e) cancelled in check_diagnostics entries cancelled
  end.

(** The parts of the payload: one group after the other, the indicator words of both before
    the words of either. *)
Definition write_group_indicators (present : bool) (packet : PacketSnapshot) (payload : list byte) (offset size : Z) : Result (list byte * Z) :=
  if present then
    let? rest := subspan_from payload offset in
    let? rest := write_indicators packet rest false in
    let? payload := memmove payload offset rest in
    Ok (payload, offset + size)
  else Ok (payload, offset).

Definition write_group_values (present : bool) (packet : PacketSnapshot) (payload : list byte) (offset own bytes : Z) : Result (list byte * Z) :=
  if present then
    let? payload := assured (write_values BodyKind.diagnostics packet payload offset own) in
    Ok (payload, offset + bytes - own)
  else Ok (payload, offset).

(** The sizes of a diagnostic acknowledgement: whether each group is sent, the sizes of the
    groups and of their indicator words, and the sizes of the body and of the packet. *)
Record DiagnosticPlan := mkDiagnosticPlan {
  dp_warning : bool; dp_error : bool; dp_warning_bytes : Z; dp_error_bytes : Z; dp_warning_header : Z; dp_error_header : Z;
  dp_body : Z; dp_total : Z }.

Definition diagnostic_preflight (e : Envelope) (warnings errors : PacketSnapshot) (original : Z) (output : list byte) : Result DiagnosticPlan :=
  let invalid := error1 ErrorCode.invalid_argument in
  fail_if negb (env_type e =? PacketType.command) || negb (ack e) ||
          match command e with
          | None => true
          | Some c => negb (nonzero (Z.land (cam c) (Z.lor (Z.shiftl 1 20) (Z.shiftl 1 19)))) end with invalid ;;
  let? c := deref (command e) in
  let w := bit_set (cam c) 17 && bit_set original 17 in
  let r := bit_set (cam c) 16 && bit_set original 16 in
  fail_if (negb w && (0 <? zlen (s_entries warnings))) || (negb r && (0 <? zlen (s_entries errors))) with invalid ;;
  let? wm := measure BodyKind.diagnostics warnings in
  let? em := measure BodyKind.diagnostics errors in
  let? wh := indicator_size warnings in
  let? eh := indicator_size errors in
  let body := (if w then lm_bytes wm else 0) + (if r then lm_bytes em else 0) in
  let? _ := check_diagnostics (s_entries warnings) (cancel e) in
  let? _ := check_diagnostics (s_entries errors) (cancel e) in
  let? total := measure_envelope e body in
  fail_if zlen output <? total with error3 ErrorCode.short_output 0 total ;;
  Ok (mkDiagnosticPlan w r (lm_bytes wm) (lm_bytes em) wh eh body total).

Definition encode_diagnostic (e : Envelope) (warnings errors : PacketSnapshot) (original : Z) (output : list byte) : Result (Z * list byte) :=
  let? p := diagnostic_preflight e warnings errors original output in
  let? payload := subspan output (dp_total p - dp_body p) (dp_body p) in
  let? (payload, offset) := write_group_indicators (dp_warning p) warnings payload 0 (dp_warning_header p) in
  let? (payload, offset) := write_group_indicators (dp_error p) errors payload offset (dp_error_header p) in
  let? (payload, offset) := write_group_values (dp_warning p) warnings payload offset (dp_warning_header p) (dp_warning_bytes p) in
  let? (payload, _) := write_group_values (dp_error p) errors payload offset (dp_error_header p) (dp_error_bytes p) in
  let? output := memmove output (dp_total p - dp_body p) payload in
  assured (encode_envelope e payload None output).
