(* ===== verification/EncoderProofs.v ===== *)
(** * Packet encoding: round trip

    What the encoder writes for a snapshot of a reachable builder is what the decoder of
    [Packet] reads back: the same envelope, fields, attributes, values and diagnostics. *)

From stdpp Require Import sorting.
From S2P Require Import Prelude Wire WireProofs Fields Scalar Structured Packet Builder BuilderProofs Encoder.

Lemma zlen_cons {A} (x : A) l : zlen (x :: l) = 1 + zlen l.
Proof. unfold zlen. cbn [length]. lia. Qed.

(** ** The bytes of a value *)

Definition scalar_bytes (d : FieldDescriptor) (a : Z) (v : SemanticValue) : list byte :=
  let bits := scalar_bits v in
  if (a =? Attribute.probability) || (a =? Attribute.belief) then be32_bytes (wrap32 bits)
  else if d_words d =? 2 then be32_bytes (wrap32 (Z.shiftr bits 32)) ++ be32_bytes (wrap32 bits)
  else be32_bytes (wrap32 bits).

Lemma base_attribute_words d a : 0 <= a <= 12 -> attribute_words d a = if base_attribute a then d_words d else 1.
Proof.
  intros Ha. unfold attribute_words, base_attribute, Attribute.probability, Attribute.belief.
  destruct (Z.ltb_spec a 11); [by rewrite (proj2 (Z.eqb_neq a 11)), (proj2 (Z.eqb_neq a 12)) by lia|].
  assert (a = 11 \/ a = 12) as [-> | ->] by lia; done.
Qed.

(** An attribute that is not a base value is one word; a base value is one or two. *)
Definition extent_known (d : FieldDescriptor) (a : Z) : Prop :=
  (a =? Attribute.probability) || (a =? Attribute.belief) = false -> d_words d = 1 \/ d_words d = 2.

Lemma scalar_bytes_length d a v : extent_known d a -> zlen (scalar_bytes d a v) = attribute_words d a * 4.
Proof.
  intros Hw. unfold scalar_bytes, attribute_words, extent_known in *. destruct (_ || _); [done|]. destruct (Hw eq_refl) as [-> | ->]; done.
Qed.

Lemma write_attribute_bytes d a v pre mid post : extent_known d a -> zlen mid = attribute_words d a * 4 ->
  write_attribute_scalar d a v (pre ++ mid ++ post) (zlen pre) = Ok (pre ++ scalar_bytes d a v ++ post).
Proof.
  intros Hw Hm. unfold write_attribute_scalar, scalar_bytes, attribute_words, extent_known in *. destruct (_ || _).
  { apply store32_app. unfold zlen in Hm. lia. }
  specialize (Hw eq_refl).
  unfold write_scalar. destruct (Z.eqb_spec (d_words d) 2) as [E|].
  - rewrite E in Hm. rewrite <- (take_drop 4 mid), <- app_assoc. unfold zlen in Hm.
    rewrite store32_app by (rewrite length_take; lia). cbn [rbind].
    rewrite app_assoc. replace (zlen pre + 4) with (zlen (pre ++ be32_bytes (wrap32 (Z.shiftr (scalar_bits v) 32))))
      by (unfold zlen; rewrite length_app; cbn; lia).
    rewrite store32_app by (rewrite length_drop; lia). by rewrite <- !app_assoc.
  - apply store32_app. unfold zlen in Hm. destruct Hw as [Hw|]; [|done]. lia.
Qed.

(** Reading the bytes of an accepted value gives it back. *)
Lemma read_attribute_bytes id d a v : descriptor id = Some d -> extent_known d a -> value_typed v ->
  validate_attribute_value id a v = Ok tt -> (forall s, v <> v_snr_noise s (Some 0)) ->
  read_attribute_scalar d a (scalar_bytes d a v) = Ok v.
Proof.
  intros Hd Hw Ht Hv Hz. set (mid := replicate (Z.to_nat (attribute_words d a * 4)) x00).
  assert (Hm : zlen mid = attribute_words d a * 4).
  { unfold mid, zlen. rewrite length_replicate. unfold attribute_words, extent_known in *. destruct (_ || _); [lia|]. destruct (Hw eq_refl); lia. }
  destruct (attribute_roundtrip id d a v [] mid [] Hd Ht Hv Hz Hm) as (mid' & Hwr & Hr).
  rewrite write_attribute_bytes in Hwr by done. injection Hwr as Hwr. rewrite !app_nil_r in Hwr. by rewrite Hwr.
Qed.

(** What a receiver reads: a noise figure of zero has no code of its own, it is the code of an
    unknown one. *)
Definition wire_reading (v : SemanticValue) : SemanticValue :=
  match v with v_snr_noise snr (Some 0) => v_snr_noise snr None | _ => v end.

Lemma wire_reading_other v : (forall snr, v <> v_snr_noise snr (Some 0)) -> wire_reading v = v.
Proof. intros H. destruct v; try done. destruct noise_figure_q7 as [[]|]; try done. by destruct (H snr_q7). Qed.
Lemma wire_reading_not_zero v snr : wire_reading v <> v_snr_noise snr (Some 0).
Proof. destruct v; try done. by destruct noise_figure_q7 as [[]|]. Qed.
Lemma wire_reading_typed v : value_typed v -> value_typed (wire_reading v).
Proof. destruct v; try done. destruct noise_figure_q7 as [[]|]; try done. by intros [? _]. Qed.
Lemma wire_reading_bits d a v : scalar_bytes d a (wire_reading v) = scalar_bytes d a v.
Proof. unfold scalar_bytes. assert (scalar_bits (wire_reading v) = scalar_bits v) as ->; [|done]. destruct v; try done. by destruct noise_figure_q7 as [[]|]. Qed.

Lemma snr_noise_field id d : descriptor id = Some d -> d_variant d = 18 -> id = Field.SnrNoiseFigure.
Proof.
  intros Hd Hv. destruct (registry_cases (fun d => d_variant d = 18 -> d_id d = Field.SnrNoiseFigure) id d) as [H <-]; [|done|by apply H].
  apply (bool_decide_unpack _). vm_compute. exact I.
Qed.

Lemma wire_reading_valid id a v : validate_attribute_value id a v = Ok tt -> validate_attribute_value id a (wire_reading v) = Ok tt.
Proof.
  destruct v; try done. destruct noise_figure_q7 as [[]|]; try done. cbn [wire_reading]. unfold validate_attribute_value, validate_value.
  destruct (descriptor id) as [d|] eqn:Hd; [|done]. cbn [is_none value_index]. change (18 =? 8) with false. cbn [orb].
  destruct (_ || _); [done|]. destruct (a =? Attribute.probability); [done|]. destruct (a =? Attribute.belief); [done|].
  destruct (Z.eqb_spec 18 (d_variant d)) as [E|]; [|done]. rewrite (snr_noise_field id d Hd (eq_sym E)). cbn [negb].
  generalize ((a =? Attribute.current) || (fid_eqb Field.SnrNoiseFigure Field.SampleRate && ((a =? Attribute.minimum) || (a =? Attribute.maximum)))).
  intros current. unfold check_value. cbn -[nonsentinel]. destruct (nonsentinel snr_q7), current; done.
Qed.

(** Reading the bytes of any accepted value. *)
Lemma read_accepted_bytes id d a v : descriptor id = Some d -> extent_known d a -> value_typed v ->
  validate_attribute_value id a v = Ok tt -> read_attribute_scalar d a (scalar_bytes d a v) = Ok (wire_reading v).
Proof.
  intros Hd Hw Ht Hv. rewrite <- wire_reading_bits. eapply read_attribute_bytes; [done|done|by apply wire_reading_typed|by apply wire_reading_valid|].
  intros snr. apply wire_reading_not_zero.
Qed.

(** ** A walk over fields and attributes is a walk over their pairs *)

Section Pairs.
Context (Body : BodyKind.t) (visit : bool) {F S : Type} (fid : F -> FieldId).
Context (provider : F -> Z -> Z -> Result FieldExtent) (visitor : LayoutElement -> S -> Result S) (limits : TraversalLimits).

Fixpoint walk_pairs (pairs : list (F * Z)) (offset work : Z) (s : S) : Result (Z * Z * S) :=
  match pairs with
  | [] => Ok (offset, work, s)
  | p :: pairs =>
      let? (ow, s) := walk_attribute Body visit fid provider visitor limits p.1 p.2 offset work s in
      walk_pairs pairs ow.1 ow.2 s
  end.

Definition pairs_of (attributes : Z) (fields : list F) : list (F * Z) :=
  flat_map (fun f => (fun a => (f, a)) <$> attribute_list (selection attributes)) fields.

Lemma walk_pairs_app ps qs offset work s :
  walk_pairs (ps ++ qs) offset work s = let? (ow, s) := walk_pairs ps offset work s in walk_pairs qs ow.1 ow.2 s.
Proof.
  revert offset work s. induction ps as [|p ps IH]; intros offset work s; cbn [walk_pairs app]; [done|].
  rewrite rbind_assoc. destruct (walk_attribute _ _ _ _ _ _ _ _ _ _ _) as [[[o w] s']|e|]; cbn [rbind]; [|done|done]. apply IH.
Qed.

Lemma walk_attributes_pairs f l offset work s :
  walk_attributes Body visit fid provider visitor limits f l offset work s = walk_pairs ((fun a => (f, a)) <$> l) offset work s.
Proof.
  revert offset work s. induction l as [|a l IH]; intros offset work s; cbn [walk_attributes fmap list_fmap walk_pairs]; [done|].
  destruct (walk_attribute _ _ _ _ _ _ _ _ _ _ _) as [[[o w] s']|e|]; cbn [rbind fst snd]; [|done|done]. apply IH.
Qed.

(** The registry knows a field and supports the attributes. *)
Definition supported (attributes : Z) (id : FieldId) : Prop :=
  exists d, descriptor id = Some d /\ nonzero (Z.land (selection attributes) (Z.lnot (d_attributes d))) = false.

Lemma walk_fields_pairs attributes fields offset work s : Forall (fun f => supported attributes (fid f)) fields ->
  walk_fields Body visit fid provider visitor limits attributes fields offset work s = walk_pairs (pairs_of attributes fields) offset work s.
Proof.
  intros Hf. revert offset work s. induction Hf as [|f fields (d & Hd & Ha) Hf IH]; intros offset work s; cbn [walk_fields pairs_of flat_map]; [done|].
  rewrite Hd. fold (selection attributes). rewrite Ha, walk_pairs_app, walk_attributes_pairs.
  destruct (walk_pairs _ _ _ _) as [[[o w] s']|e|]; cbn [rbind fst snd]; [|done|done]. apply IH.
Qed.

Lemma walk_fields_supported attributes fields offset work s r :
  walk_fields Body visit fid provider visitor limits attributes fields offset work s = Ok r ->
  Forall (fun f => supported attributes (fid f)) fields.
Proof.
  revert offset work s. induction fields as [|f fields IH]; intros offset work s; cbn [walk_fields]; [constructor|].
  destruct (descriptor (fid f)) as [d|] eqn:Ed; [|done]. fold (selection attributes). intros H.
  destruct (nonzero _) eqn:En; [done|]. apply rbind_Ok in H as ([[o w] s'] & _ & H). constructor; [by exists d|]. by eapply IH.
Qed.

(** A walk whose steps all succeed: each pair has an extent of one unit of work, and the
    visitor moves a relation [P] between the pairs that are left, the offset and the state. *)
Definition step_ok (P : list (F * Z) -> Z -> S -> Prop) (p : F * Z) (rest : list (F * Z)) (offset : Z) (s : S) : Prop :=
  exists n s',
    match Body with
    | BodyKind.values => provider p.1 p.2 offset = Ok (extent2 n 1)
    | BodyKind.selectors => n = 0
    | BodyKind.diagnostics => n = 4
    end /\ 0 <= n /\ offset + n <= SIZE_MAX /\
    (Body = BodyKind.values -> fid_eqb (fid p.1) Field.ContextAssociationLists && base_attribute p.2 = false) /\
    (if negb (bool_decide (Body = BodyKind.selectors)) || visit then visitor (mkElement (fid p.1) p.2 offset n) s = Ok s' else s' = s) /\
    P rest (offset + n) s'.

Lemma walk_attribute_step f a offset work s n s' :
  match Body with
  | BodyKind.values => provider f a offset = Ok (extent2 n 1)
  | BodyKind.selectors => n = 0
  | BodyKind.diagnostics => n = 4
  end -> 0 <= n -> offset + n <= SIZE_MAX ->
  (Body = BodyKind.values -> fid_eqb (fid f) Field.ContextAssociationLists && base_attribute a = false) ->
  (if negb (bool_decide (Body = BodyKind.selectors)) || visit then visitor (mkElement (fid f) a offset n) s = Ok s' else s' = s) ->
  work + 1 <= work_units limits -> 0 <= index_entries limits -> 0 <= limit_records limits ->
  walk_attribute Body visit fid provider visitor limits f a offset work s = Ok (offset + n, work + 1, s').
Proof.
  intros Hx Hn Ho Hcal Hv Hw Hi Hr. unfold walk_attribute, checked_add.
  assert (Hext : match Body with BodyKind.values => provider f a offset | BodyKind.selectors => Ok (extent2 0 1) | BodyKind.diagnostics => Ok (extent2 4 1) end
    = Ok (extent2 n 1)) by (destruct Body; by subst).
  rewrite Hext. cbn [rbind x_bytes extent2 x_units x_index_entries x_records].
  rewrite (proj2 (Z.ltb_ge (SIZE_MAX - offset) n)) by lia. cbn [rbind].
  assert (fid_eqb (fid f) Field.ContextAssociationLists && bool_decide (Body = BodyKind.values) && base_attribute a = false) as ->.
  { destruct (bool_decide (Body = BodyKind.values)) eqn:HB; [|by rewrite andb_false_r]. rewrite andb_true_r. by apply Hcal, (bool_decide_eq_true_1 _ HB). }
  cbn [andb]. rewrite (proj2 (Z.ltb_ge (index_entries limits) 0)), (proj2 (Z.ltb_ge (limit_records limits) 0)) by lia. cbn [orb].
  rewrite (proj2 (Z.ltb_ge (work_units limits) work)), (proj2 (Z.ltb_ge (work_units limits - work) 1)) by lia. cbn [orb].
  destruct (negb _ || visit); [rewrite Hv|subst s']; done.
Qed.

Lemma walk_pairs_run P pairs offset work s : 0 <= index_entries limits -> 0 <= limit_records limits ->
  (forall p rest o s, P (p :: rest) o s -> step_ok P p rest o s) ->
  P pairs offset s -> work + zlen pairs <= work_units limits ->
  exists offset' s', walk_pairs pairs offset work s = Ok (offset', work + zlen pairs, s') /\ P [] offset' s'.
Proof.
  intros Hi Hr Hstep. revert offset work s. induction pairs as [|p pairs IH]; intros offset work s HP Hw; cbn [walk_pairs].
  { exists offset, s. unfold zlen. cbn. by rewrite Z.add_0_r. }
  destruct (Hstep _ _ _ _ HP) as (n & s' & Hx & Hn & Ho & Hcal & Hv & HP'). unfold zlen in Hw. cbn [length] in Hw.
  rewrite (walk_attribute_step _ _ _ _ _ n s' Hx Hn Ho Hcal Hv) by (done || lia). cbn [rbind fst snd].
  destruct (IH (offset + n) (work + 1) s' HP') as (o' & s'' & Hrun & Hend); [unfold zlen; lia|].
  exists o', s''. split; [|done]. rewrite Hrun. unfold zlen. cbn [length].
  by replace (work + Z.of_nat (Datatypes.S (length pairs))) with (work + 1 + Z.of_nat (length pairs)) by lia.
Qed.
End Pairs.

(** ** What a snapshot puts on the wire *)

Section Snapshot.
Context (K : BodyKind.t) (N : nat).

Definition element_bytes (p : FieldEntry * Z) : list byte :=
  match K with
  | BodyKind.values =>
      match value_of p.1 p.2, descriptor (e_id p.1) with Some v, Some d => scalar_bytes d p.2 v | _, _ => [] end
  | BodyKind.selectors => []
  | BodyKind.diagnostics => be32_bytes (e_diagnostic p.1)
  end.

Definition body_bytes (pairs : list (FieldEntry * Z)) : list byte := concat (element_bytes <$> pairs).

Definition snapshot_pairs (s : PacketSnapshot) : list (FieldEntry * Z) := pairs_of (l_attributes (s_layout s)) (s_entries s).

(** A pair that can be written: its value is there and has a scalar extent. *)
Definition writable (p : FieldEntry * Z) : Prop :=
  0 <= p.2 <= 12 /\
  (K = BodyKind.values -> exists v d, value_of p.1 p.2 = Some v /\ descriptor (e_id p.1) = Some d /\ extent_known d p.2 /\
     validate_attribute_value (e_id p.1) p.2 v = Ok tt /\ base_attribute p.2 && structured_field (e_id p.1) = false).

Lemma attribute_cases a : 0 <= a <= 12 -> (a =? Attribute.probability) || (a =? Attribute.belief) = negb (base_attribute a).
Proof.
  intros Ha. unfold base_attribute, Attribute.probability, Attribute.belief.
  destruct (Z.eqb_spec a 11), (Z.eqb_spec a 12), (Z.ltb_spec a 11); try done; lia.
Qed.

Lemma snapshot_provider_ok f a o x : K = BodyKind.values -> 0 <= a <= 12 -> snapshot_provider K f a o = Ok x ->
  writable (f, a) /\ x = extent2 (zlen (element_bytes (f, a))) 1.
Proof.
  intros HK Ha. unfold snapshot_provider, writable, element_bytes, attribute_shape. cbn [fst snd]. rewrite HK.
  destruct (value_of f a) as [v|]; [|done].
  assert (Hshape : bool_decide ((if a =? Attribute.probability then AttributeShape.probability_word else
      if a =? Attribute.belief then AttributeShape.belief_word else AttributeShape.base_field) = AttributeShape.probability_word) ||
    bool_decide ((if a =? Attribute.probability then AttributeShape.probability_word else
      if a =? Attribute.belief then AttributeShape.belief_word else AttributeShape.base_field) = AttributeShape.belief_word) =
    negb (base_attribute a)).
  { rewrite <- (attribute_cases a Ha). by destruct (a =? Attribute.probability), (a =? Attribute.belief). }
  rewrite Hshape. clear Hshape. pose proof (attribute_cases a Ha) as Hcase. destruct (base_attribute a) eqn:Eb; cbn [negb] in *.
  - destruct (structured_field (e_id f)) eqn:Es; [done|]. intros H. inv_ok.
    destruct (descriptor (e_id f)) as [d|] eqn:Ed; [|done].
    match goal with H : Some d = Some _ |- _ => injection H as <- end.
    match goal with u : unit |- _ => destruct u end.
    pose proof (scalar_words _ _ Ed Es) as Hw. assert (extent_known d a) as Hx by (by intros _).
    split; [split; [done|]; intros _; by exists v, d|]. rewrite (scalar_bytes_length _ _ _ Hx). unfold attribute_words. by rewrite Hcase.
  - intros H. inv_ok. match goal with u : unit |- _ => destruct u end.
    match goal with H : validate_attribute_value _ _ _ = Ok _ |- _ => rename H into Hv end. pose proof Hv as Hv'.
    unfold validate_attribute_value in Hv. destruct (descriptor (e_id f)) as [d|] eqn:Ed; [|done].
    assert (extent_known d a) as Hx by (intros Hc; congruence).
    split; [split; [done|]; intros _; by exists v, d|]. rewrite (scalar_bytes_length _ _ _ Hx). unfold attribute_words. by rewrite Hcase.
Qed.

(** Converse: a writable pair has its extent at any offset. *)
Lemma writable_extent f a o : K = BodyKind.values -> writable (f, a) -> snapshot_provider K f a o = Ok (extent2 (zlen (element_bytes (f, a))) 1).
Proof.
  intros HK Hwr. pose proof Hwr as (Ha & Hv). destruct (Hv HK) as (v & d & Hval & Hd & Hx & Hvalid & Hst). cbn [fst snd] in *.
  assert (exists x, snapshot_provider K f a o = Ok x) as [x E].
  { unfold snapshot_provider. rewrite Hval. destruct (_ || _) eqn:Esh; [rewrite Hvalid; by eexists|].
    unfold attribute_shape in Esh. rewrite HK in Esh.
    assert (base_attribute a = true) as Hb.
    { pose proof (attribute_cases a Ha) as Hc. destruct (base_attribute a); [done|]. cbn [negb] in Hc.
      destruct (a =? Attribute.probability); [done|]. destruct (a =? Attribute.belief); done. }
    rewrite Hb in Hst. cbn [andb] in Hst. rewrite Hst, Hvalid, Hd. by eexists. }
  rewrite E. f_equal. by eapply snapshot_provider_ok.
Qed.

Lemma element_bytes_length p : writable p -> K <> BodyKind.values ->
  zlen (element_bytes p) = match K with BodyKind.diagnostics => 4 | _ => 0 end.
Proof. intros _ HK. unfold element_bytes. by destruct K. Qed.

Lemma body_bytes_cons p ps : body_bytes (p :: ps) = element_bytes p ++ body_bytes ps.
Proof. done. Qed.

(** What a measurement has established. *)
Lemma measure_walk pairs o w r : Forall (fun p : FieldEntry * Z => 0 <= p.2 <= 12) pairs -> 0 <= o -> 0 <= w -> o <= SIZE_MAX -> w <= 4096 ->
  walk_pairs K false e_id (snapshot_provider K) (fun _ (_ : unit) => Ok tt) limits_default pairs o w tt = Ok r ->
  Forall writable pairs /\ r = (o + zlen (body_bytes pairs), w + zlen pairs, tt) /\ o + zlen (body_bytes pairs) <= SIZE_MAX /\ w + zlen pairs <= 4096.
Proof.
  revert o w. induction pairs as [|[f a] pairs IH]; intros o w Hf Ho Hw Hom Hwm; cbn [walk_pairs].
  { intros [= <-]. unfold body_bytes, zlen. cbn. split_and!; [constructor| |lia|lia]. by rewrite !Z.add_0_r. }
  apply list.Forall_cons in Hf as [Ha Hf]. cbn [fst snd] in *. intros H. apply rbind_Ok in H as ([[o1 w1] []] & Hstep & H).
  assert (Hs : writable (f, a) /\ o1 = o + zlen (element_bytes (f, a)) /\ w1 = w + 1 /\ o1 <= SIZE_MAX /\ w1 <= 4096).
  { unfold walk_attribute, checked_add in Hstep. apply rbind_Ok in Hstep as (x & Hx & Hstep).
    assert (writable (f, a) /\ x = extent2 (zlen (element_bytes (f, a))) 1) as [Hwr ->].
    { destruct (decide (K = BodyKind.values)) as [HK|HK].
      - rewrite HK in Hx at 1. by apply snapshot_provider_ok in Hx.
      - split; [by split|]. unfold element_bytes. destruct K; [done|by injection Hx as <-..]. }
    split; [done|]. apply rbind_Ok in Hstep as (nx & Hnx & Hstep). cbn [extent2 x_bytes x_units x_index_entries x_records limits_default
      index_entries limit_records work_units association_entries] in *.
    destruct (Z.ltb_spec (SIZE_MAX - o) (zlen (element_bytes (f, a)))) as [|Hfit]; [done|]. injection Hnx as <-.
    destruct (_ && _ && _ && _) in Hstep; [done|]. cbn [Z.ltb Z.compare orb] in Hstep.
    destruct (Z.ltb_spec 4096 w); [lia|]. destruct (Z.ltb_spec (4096 - w) 1) as [|Hwk]; [done|]. cbn [orb] in Hstep.
    apply rbind_Ok in Hstep as ([] & _ & Hstep). injection Hstep as <- <-. split_and!; (done || lia). }
  destruct Hs as (Hwr & -> & -> & Hb1 & Hb2). cbn [fst snd] in H. pose proof (zlen_nonneg (element_bytes (f, a))).
  destruct (IH (o + zlen (element_bytes (f, a))) (w + 1) Hf ltac:(lia) ltac:(lia) Hb1 Hb2 H) as (H1 & H2 & H3 & H4). rewrite body_bytes_cons, zlen_app, zlen_cons.
  split_and!; [by constructor| |lia|lia]. rewrite H2. do 2 f_equal; lia.
Qed.

Lemma pairs_of_elem {F} attributes (fields : list F) p : p ∈ pairs_of attributes fields <-> p.1 ∈ fields /\ p.2 ∈ attribute_list (selection attributes).
Proof.
  unfold pairs_of. rewrite list_elem_of_In, in_flat_map. split.
  - intros (f & Hf%list_elem_of_In & Hp%list_elem_of_In). apply list_elem_of_fmap in Hp as (a & -> & Ha). done.
  - intros [Hf Ha]. exists p.1. split; [by apply list_elem_of_In|]. apply list_elem_of_In, list_elem_of_fmap. exists p.2. by destruct p.
Qed.

Lemma pairs_of_range {F} attributes (fields : list F) : Forall (fun p : F * Z => 0 <= p.2 <= 12) (pairs_of attributes fields).
Proof. apply list.Forall_forall. intros p [_ Ha]%pairs_of_elem. by apply attribute_list_elem in Ha as [? _]. Qed.

(** The first indicator word, and the size of the indicator words. *)
Definition cif0_of (s : PacketSnapshot) : Z := word_at (l_cif (s_layout s)) 0.
Definition header_size (s : PacketSnapshot) : Z := layout_words (cif0_of s) * 4.

Lemma cif0_lookup s : snapshot_ok K N s -> l_cif (s_layout s) !! 0%nat = Some (cif0_of s).
Proof.
  intros Hs. pose proof (wo_length _ _ _ (snapshot_words _ _ _ Hs)) as Hl. unfold cif0_of, word_at.
  destruct (l_cif (s_layout s)) as [|x l]; done.
Qed.

Lemma layout_words_range c : 1 <= layout_words c <= 8.
Proof.
  unfold layout_words. assert (H := length_filter (fun i => bit_set c i = true) [1; 2; 3; 4; 5; 6; 7]).
  cbn [length] in H. unfold zlen. lia.
Qed.

Record measured_body (s : PacketSnapshot) (bytes : Z) : Prop := mkMeasuredBody {
  mb_supported : Forall (fun f => supported (l_attributes (s_layout s)) (e_id f)) (s_entries s);
  mb_writable : Forall writable (snapshot_pairs s);
  mb_bytes : bytes = header_size s + zlen (body_bytes (snapshot_pairs s));
  mb_size : bytes <= SIZE_MAX;
  mb_work : zlen (snapshot_pairs s) <= 4096 }.

Lemma measure_ok s m : snapshot_ok K N s -> measure K s = Ok m -> measured_body s (lm_bytes m).
Proof.
  intros Hs. unfold measure, walk_layout. rewrite (cif0_lookup s Hs). cbn [deref rbind]. unfold walk_field_layout, checked_add.
  fold (header_size s). pose proof (layout_words_range (cif0_of s)) as Hw.
  rewrite (proj2 (Z.ltb_ge _ _)) by (unfold header_size, SIZE_MAX, U64_MAX; lia). cbn [rbind]. intros H.
  apply rbind_Ok in H as ([m' []] & H & [= <-]). apply rbind_Ok in H as ([bw []] & H & [= <-]).
  apply rbind_Ok in H as ([ow []] & H & [= <-]). cbn [lm_bytes fst]. pose proof (walk_fields_supported _ _ _ _ _ _ _ _ _ _ _ _ H) as Hsup.
  rewrite walk_fields_pairs in H by done. apply measure_walk in H as (H1 & H2 & H3 & H4); [|apply pairs_of_range|unfold header_size, SIZE_MAX, U64_MAX in *; lia..].
  injection H2 as ->. unfold snapshot_pairs. split; cbn [fst]; [done|done|unfold snapshot_pairs; lia|lia|unfold snapshot_pairs; lia].
Qed.

(** The entry a visitor finds by its identifier. *)
Lemma find_entry s f : snapshot_ok K N s -> f ∈ s_entries s ->
  first_index (fun g => fid_eqb (e_id g) (e_id f)) (s_entries s) ≫= (fun i => s_entries s !! i) = Some f.
Proof.
  intros Hs Hf. pose proof (in_order_nodup _ (so_order _ _ _ Hs)) as Hnd. apply list_elem_of_lookup in Hf as [i Hi].
  assert (first_index (fun g => fid_eqb (e_id g) (e_id f)) (s_entries s) = Some i) as ->; [|done].
  apply first_index_Some. split; [exists f; split; [done|by apply fid_eqb_eq]|]. intros j g Hlt Hg. apply not_true_iff_false.
  intros Heq%fid_eqb_eq. assert (j = i); [|lia]. unfold s_ids in Hnd. apply (NoDup_lookup _ _ _ (e_id f) Hnd); rewrite list_lookup_fmap.
  - by rewrite Hg; cbn; rewrite Heq.
  - by rewrite Hi.
Qed.

Lemma structured_lists id : fid_eqb id Field.ContextAssociationLists = true -> structured_field id = true.
Proof. intros ->%fid_eqb_eq. reflexivity. Qed.

(** One value written where the walk stands. *)
Lemma value_visitor_ok s vs own p pre mid post offset : snapshot_ok K N s -> p ∈ snapshot_pairs s -> writable p ->
  vs + offset - own = zlen pre -> length mid = length (element_bytes p) -> zlen (pre ++ mid ++ post) <= SIZE_MAX ->
  K <> BodyKind.selectors ->
  value_visitor K s vs own (mkElement (e_id p.1) p.2 offset (zlen (element_bytes p))) (pre ++ mid ++ post) =
  Ok (pre ++ element_bytes p ++ post).
Proof.
  intros Hs Hp [Ha Hwr] Hpos Hm Hsz HK. unfold value_visitor. cbn [el_offset el_field el_attribute]. rewrite Hpos.
  apply pairs_of_elem in Hp as [Hf _]. rewrite (find_entry s _ Hs Hf).
  assert (wrap64 (zlen pre) = zlen pre) as ->.
  { rewrite !zlen_app in Hsz. pose proof (zlen_nonneg pre). pose proof (zlen_nonneg mid). pose proof (zlen_nonneg post). zlia. }
  destruct K eqn:EK; [|done|].
  - destruct (Hwr eq_refl) as (v & d & Hv & Hd & Hx & _ & Hst). rewrite Hv. cbn [deref rbind]. rewrite Hst, Hd. cbn [deref rbind].
    unfold element_bytes in Hm |- *. rewrite EK in Hm |- *. rewrite Hv, Hd in Hm |- *. apply write_attribute_bytes; [done|].
    rewrite <- (scalar_bytes_length d p.2 v Hx). unfold zlen. by rewrite Hm.
  - unfold element_bytes in Hm |- *. rewrite EK in Hm |- *. by apply store32_app.
Qed.

(** The state of the writing walk: what is left to write has its room. *)
Definition writing (s : PacketSnapshot) (vs own : Z) (post target : list byte) (rest : list (FieldEntry * Z)) (offset : Z) (out : list byte) : Prop :=
  exists pre mid, out = pre ++ mid ++ post /\ pre ++ body_bytes rest ++ post = target /\ length mid = length (body_bytes rest) /\
    vs + offset - own = zlen pre /\ offset + zlen (body_bytes rest) <= SIZE_MAX /\ zlen target <= SIZE_MAX /\
    Forall (fun p => p ∈ snapshot_pairs s /\ writable p) rest.

(** The extent of a writable pair, in any body. *)
Lemma writable_step_extent (p : FieldEntry * Z) offset : writable p ->
  match K with
  | BodyKind.values => snapshot_provider K p.1 p.2 offset = Ok (extent2 (zlen (element_bytes p)) 1)
  | BodyKind.selectors => zlen (element_bytes p) = 0
  | BodyKind.diagnostics => zlen (element_bytes p) = 4
  end.
Proof.
  intros Hwr. destruct p as [f a]. destruct K eqn:EK; [|by unfold element_bytes; rewrite EK..].
  rewrite <- EK. by apply writable_extent.
Qed.

Lemma writable_no_lists p : writable p -> K = BodyKind.values -> fid_eqb (e_id p.1) Field.ContextAssociationLists && base_attribute p.2 = false.
Proof.
  intros [_ Hwr] HK. destruct (Hwr HK) as (v & d & _ & _ & _ & _ & Hst). destruct (fid_eqb _ _) eqn:E; [|done].
  rewrite (structured_lists _ E), andb_true_r in Hst. by rewrite Hst.
Qed.

Lemma writing_step s vs own post target p rest offset out : snapshot_ok K N s -> writing s vs own post target (p :: rest) offset out ->
  step_ok K false e_id (snapshot_provider K) (value_visitor K s vs own) (writing s vs own post target) p rest offset out.
Proof.
  intros Hs (pre & mid & -> & Htarget & Hm & Hpos & Hfit & Hsz & Hall). apply list.Forall_cons in Hall as [[Hp Hwr] Hall].
  rewrite body_bytes_cons in *. rewrite zlen_app in Hfit. rewrite length_app in Hm.
  destruct (split_length mid (length (element_bytes p))) as (m1 & m2 & -> & Hm1); [lia|]. rewrite length_app in Hm.
  exists (zlen (element_bytes p)), (pre ++ element_bytes p ++ m2 ++ post).
  pose proof (zlen_nonneg (element_bytes p)). pose proof (zlen_nonneg (body_bytes rest)).
  split; [by apply writable_step_extent|]. split; [lia|]. split; [lia|]. split; [intros HK; by apply writable_no_lists|]. split.
  - rewrite orb_false_r. case_bool_decide as HK; cbn [negb].
    + assert (element_bytes p = []) as -> by (unfold element_bytes; by rewrite HK).
      destruct m1; [|unfold element_bytes in Hm1; rewrite HK in Hm1; done]. by rewrite <- !app_assoc.
    + rewrite <- (app_assoc m1). apply (value_visitor_ok s vs own p pre m1 (m2 ++ post) offset Hs Hp Hwr Hpos Hm1); [|done].
      rewrite <- Htarget in Hsz. unfold zlen in *. rewrite !length_app in *. lia.
  - exists (pre ++ element_bytes p), m2. split_and!; try done.
    + by rewrite <- !app_assoc.
    + rewrite <- Htarget. by rewrite <- !app_assoc.
    + lia.
    + rewrite zlen_app. lia.
    + lia.
Qed.

Lemma write_values_ok s bytes pre mid post vs own : snapshot_ok K N s -> measured_body s bytes ->
  vs + header_size s - own = zlen pre -> length mid = length (body_bytes (snapshot_pairs s)) -> zlen (pre ++ mid ++ post) <= SIZE_MAX ->
  write_values K s (pre ++ mid ++ post) vs own = Ok (pre ++ body_bytes (snapshot_pairs s) ++ post).
Proof.
  intros Hs [Hsup Hwr Hb Hsz Hwork] Hpos Hm Hlen. unfold write_values, walk_layout. rewrite (cif0_lookup s Hs). cbn [deref rbind].
  unfold walk_field_layout, checked_add. fold (header_size s). pose proof (layout_words_range (cif0_of s)) as Hw.
  rewrite (proj2 (Z.ltb_ge _ _)) by (unfold header_size, SIZE_MAX, U64_MAX; lia). cbn [rbind]. rewrite walk_fields_pairs by done.
  fold (snapshot_pairs s). set (target := pre ++ body_bytes (snapshot_pairs s) ++ post).
  destruct (walk_pairs_run K false e_id (snapshot_provider K) (value_visitor K s vs own) limits_default
    (writing s vs own post target) (snapshot_pairs s) (0 + header_size s) 0 (pre ++ mid ++ post)) as (o' & out & Hrun & Hend).
  - done.
  - done.
  - intros p rest o out HP. by apply writing_step.
  - exists pre, mid. rewrite Z.add_0_l. split_and!; try done.
    + lia.
    + unfold target. unfold zlen in *. rewrite !length_app in *. lia.
    + apply list.Forall_forall. intros p Hp. split; [done|]. rewrite list.Forall_forall in Hwr. by apply Hwr.
  - cbn [limits_default work_units]. lia.
  - change (layout_words (cif0_of s) * 4) with (header_size s). rewrite Hrun. cbn [rbind fst snd].
    destruct Hend as (pre' & mid' & -> & Ht & Hm' & _). cbn in Hm'. destruct mid'; [|done]. by rewrite <- Ht.
Qed.
End Snapshot.

(** ** Indicator words on the wire *)

Section Indicators.
Context (ids : list FieldId) (attributes : Z) (words : list Z).
Hypothesis Hwords : words_of ids attributes words.
Hypothesis Hsel : Forall selector_ok ids.
Hypothesis Horder : in_order ids.
Hypothesis Hattr : 0 <= attributes /\ nonzero (Z.land attributes (Z.lnot all_attributes)) = false.

Definition word_indices : list Z := [1; 2; 3; 4; 5; 6; 7].
Definition announced (first : Z) (indices : list Z) : list Z := word_at words <$> filter (fun i => bit_set first i = true) indices.
Definition header_words (change : bool) : list Z := first_word words change :: announced (word_at words 0) word_indices.

Lemma bits_u32 w : (forall b, 32 <= b -> Z.testbit w b = false) -> u32 w.
Proof.
  intros H. assert (Hw : Z.land w (2 ^ 32 - 1) = w).
  { apply Z.bits_inj'. intros b Hb. rewrite Z.land_spec. change (2 ^ 32 - 1) with (Z.ones 32).
    destruct (Z.lt_ge_cases b 32); [by rewrite Z.ones_spec_low, andb_true_r by lia|].
    by rewrite H by lia. }
  rewrite <- Hw. apply land_mask_range. lia.
Qed.

Lemma attributes_u32 : u32 attributes.
Proof.
  destruct Hattr as [_ Hn]. apply nonzero_false in Hn. apply bits_u32. intros b Hb.
  apply (f_equal (fun z => Z.testbit z b)) in Hn. rewrite Z.land_spec, Z.bits_0, Z.lnot_spec in Hn by lia.
  rewrite (testbit_high all_attributes 32) in Hn by (done || lia). by destruct (Z.testbit attributes b).
Qed.

Lemma field_bit_range i b : field_bit ids i b = true ->
  0 <= b <= 31 /\ 0 <= i <= 3 /\ (i = 0 -> 8 <= b <= 30 \/ 1 <= b <= 3) /\ (i = 0 -> 1 <= b <= 3 -> exists id, id ∈ ids /\ cif id = b).
Proof.
  intros H. apply field_bit_true in H as [H|(-> & id & Hin & Hc & Hb)].
  - pose proof Hsel as Hs. rewrite list.Forall_forall in Hs. specialize (Hs _ H). destruct (selector_range _ Hs) as (H1 & H2 & H3). cbn in H1, H2, H3.
    split_and!; lia.
  - pose proof Hsel as Hs. rewrite list.Forall_forall in Hs. specialize (Hs _ Hin). destruct (selector_range _ Hs) as (H1 & _).
    split_and!; try lia. intros _ _. by exists id.
Qed.

Lemma word_u32 i : 0 <= i < 8 -> u32 (word_at words i).
Proof.
  intros Hi. destruct (Z.eq_dec i 7) as [->|Hne]; [rewrite (wo_seven _ _ _ Hwords); apply attributes_u32|].
  apply bits_u32. intros b Hb. rewrite (wo_bits _ _ _ Hwords) by lia. rewrite (proj2 (Z.eqb_neq b 7)), andb_false_r, orb_false_r by lia.
  destruct (field_bit ids i b) eqn:E; [|done]. apply field_bit_range in E. lia.
Qed.

Lemma first_word_low change b : 0 <= b < 8 -> Z.testbit (first_word words change) b = Z.testbit (word_at words 0) b.
Proof. intros Hb. rewrite first_word_bit by lia. by rewrite (proj2 (Z.eqb_neq b 31)), andb_false_r, orb_false_r by lia. Qed.

Lemma first_word_u32 change : u32 (first_word words change).
Proof.
  apply bits_u32. intros b Hb. rewrite first_word_bit by lia. rewrite (proj2 (Z.eqb_neq b 31)), andb_false_r, orb_false_r by lia.
  pose proof (word_u32 0 ltac:(lia)). apply (testbit_high _ 32); [zlia|lia].
Qed.

(** Which bits of the first word are set. *)
Lemma first_bit change b : 0 <= b <= 31 -> bit_set (first_word words change) b =
  field_bit ids 0 b || ((b =? 7) && nonzero attributes) || (change && (b =? 31)).
Proof. intros Hb. rewrite bit_set_testbit, first_word_bit, (wo_bits _ _ _ Hwords) by lia. done. Qed.

Lemma first_bit_none b : b = 0 \/ b = 4 \/ b = 5 \/ b = 6 -> field_bit ids 0 b = false.
Proof. intros Hb. destruct (field_bit ids 0 b) eqn:E; [|done]. apply field_bit_range in E as (_ & _ & H & _). specialize (H eq_refl). lia. Qed.

Lemma first_reserved change : nonzero (Z.land (first_word words change) 0x71) = false.
Proof.
  apply negb_false_iff, Z.eqb_eq, Z.bits_inj'. intros b Hb. rewrite Z.land_spec, Z.bits_0.
  destruct (Z.lt_ge_cases b 7) as [Hlt|Hge]; [|by rewrite (testbit_high 0x71 7), andb_false_r by lia].
  assert (b = 0 \/ b = 1 \/ b = 2 \/ b = 3 \/ b = 4 \/ b = 5 \/ b = 6) as Hcase by lia.
  destruct Hcase as [->|[->|[->|[->|[->|[->| ->]]]]]]; try (by rewrite andb_false_r);
    rewrite first_word_low, (wo_bits _ _ _ Hwords), first_bit_none by lia; done.
Qed.

(** A word that is not announced is zero, and one that announces fields is not. *)
Lemma unannounced i : 1 <= i <= 7 -> bit_set (word_at words 0) i = false -> word_at words i = 0.
Proof.
  intros Hi. rewrite bit_set_testbit, (wo_bits _ _ _ Hwords) by lia. cbn [Z.eqb andb]. intros [Hf Ha]%orb_false_iff.
  destruct (Z.eq_dec i 7) as [->|Hne]; [rewrite (wo_seven _ _ _ Hwords); by apply nonzero_false|].
  apply Z.bits_inj'. intros b Hb. rewrite (wo_bits _ _ _ Hwords), Z.bits_0 by lia. rewrite (proj2 (Z.eqb_neq i 0)), orb_false_r by lia.
  destruct (field_bit ids i b) eqn:E; [|done]. apply field_bit_true in E as [Hin|[? _]]; [|lia]. exfalso.
  apply not_true_iff_false in Hf. apply Hf. apply field_bit_true. right. split; [done|]. exists (mkField i b). cbn. split_and!; [done|done|lia].
Qed.

Lemma announced_nonzero i : 1 <= i <= 3 -> bit_set (word_at words 0) i = true -> word_at words i <> 0.
Proof.
  intros Hi. rewrite bit_set_testbit, (wo_bits _ _ _ Hwords) by lia. rewrite (proj2 (Z.eqb_neq i 7)), andb_false_r, orb_false_r by lia. intros Hf Hz.
  apply field_bit_range in Hf as (_ & _ & _ & Hex). destruct (Hex eq_refl Hi) as (id & Hin & Hc).
  pose proof Hsel as Hs. rewrite list.Forall_forall in Hs. destruct (selector_range _ (Hs _ Hin)) as (_ & Hb & _).
  assert (Z.testbit (word_at words i) (fbit id) = true) as Ht; [|by rewrite Hz, Z.bits_0 in Ht].
  rewrite (wo_bits _ _ _ Hwords) by lia. apply orb_true_iff. left. apply field_bit_true. left. by rewrite (mkField_eq id).
Qed.

Lemma announced_change change indices : Forall (fun i => 0 <= i < 8) indices ->
  announced (first_word words change) indices = announced (word_at words 0) indices.
Proof.
  intros Hf. unfold announced. f_equal. induction Hf as [|i l Hi Hf IH]; [done|].
  assert (bit_set (first_word words change) i = bit_set (word_at words 0) i) as E by (rewrite !bit_set_testbit by lia; by apply first_word_low).
  rewrite !filter_cons. rewrite E, IH. done.
Qed.

Lemma indices_range : Forall (fun i => 1 <= i <= 7) word_indices.
Proof. unfold word_indices. repeat constructor; lia. Qed.

Lemma layout_words_header change : layout_words (word_at words 0) = zlen (header_words change).
Proof. unfold header_words. rewrite zlen_cons. unfold announced, zlen. by rewrite length_fmap. Qed.

Lemma layout_words_change change : layout_words (first_word words change) = layout_words (word_at words 0).
Proof.
  pose proof (announced_change change word_indices) as H. unfold announced in H.
  unfold layout_words, zlen. change [1; 2; 3; 4; 5; 6; 7] with word_indices.
  rewrite <- (length_fmap (word_at words) (filter _ word_indices)), H, length_fmap; [done|].
  eapply list.Forall_impl; [apply indices_range|]. cbn. lia.
Qed.

Lemma word_lookup i : 0 <= i < 8 -> words !! Z.to_nat i = Some (word_at words i).
Proof.
  intros Hi. unfold word_at. destruct (lookup_lt_is_Some_2 words (Z.to_nat i)) as [w Hw]; [rewrite (wo_length _ _ _ Hwords); lia|].
  by rewrite Hw.
Qed.

Lemma write_words_put indices first st : Forall (fun i => 1 <= i <= 7) indices ->
  write_words words first indices st = put_all st (announced first indices).
Proof.
  intros Hf. revert st. induction Hf as [|i l Hi Hf IH]; intros st; [done|]. cbn [write_words]. unfold announced. rewrite filter_cons.
  destruct (bit_set first i) eqn:Eb.
  - rewrite decide_True by done. cbn [fmap list_fmap put_all]. rewrite word_lookup by lia. cbn [deref rbind]. unfold put.
    destruct (store32 st.1 st.2 (word_at words i)) as [out|e|]; cbn [rbind]; [|done|done]. apply IH.
  - rewrite decide_False by congruence. apply IH.
Qed.

(** Writing the indicator words in front of the rest of a payload. *)
Lemma write_indicators_ok s mid post change : l_cif (s_layout s) = words -> length mid = (4 * length (header_words change))%nat ->
  write_indicators s (mid ++ post) change = Ok (words_bytes (header_words change) ++ post).
Proof.
  intros Hc Hm. unfold write_indicators. rewrite Hc. change 0%nat with (Z.to_nat 0). rewrite word_lookup by lia. cbn [deref rbind].
  fold (first_word words change). unfold header_words in Hm. cbn [length] in Hm.
  destruct (split_length mid 4) as (m1 & m2 & -> & Hm1); [lia|]. rewrite length_app in Hm. rewrite <- app_assoc.
  pose proof (store32_app [] m1 (m2 ++ post) (first_word words change) Hm1) as Hst. cbn [app] in Hst. change (zlen []) with 0 in Hst. rewrite Hst.
  cbn [rbind]. change [1; 2; 3; 4; 5; 6; 7] with word_indices. rewrite write_words_put by apply indices_range.
  change 4 with (zlen (be32_bytes (first_word words change))). rewrite put_all_app by lia. cbn [rbind]. unfold header_words. cbn [words_bytes]. by rewrite <- app_assoc.
Qed.

(** The words that follow the first one are read back. *)
Lemma take_cifs_at data first indices offset : Forall (fun i => 1 <= i <= 7) indices -> 0 <= offset ->
  at_words data offset (announced first indices) -> (forall i, 1 <= i <= 7 -> bit_set first i = false -> word_at words i = 0) ->
  take_cifs data first indices offset = Ok (word_at words <$> indices, offset + 4 * zlen (announced first indices)).
Proof.
  intros Hf. revert offset. induction Hf as [|i l Hi Hf IH]; intros offset Ho Hat Hz; cbn [take_cifs].
  { cbn. by rewrite Z.add_0_r. }
  unfold announced in Hat |- *. rewrite filter_cons in Hat |- *. destruct (bit_set first i) eqn:Eb.
  - rewrite decide_True in Hat |- * by done. cbn [fmap list_fmap] in Hat |- *.
    apply (at_words_app data offset [word_at words i]) in Hat as [H1 H2]. change (zlen [word_at words i]) with 1 in H2.
    rewrite (take_word_at _ _ _ H1) by (apply word_u32; lia). cbn [rbind]. replace (offset + 4 * 1) with (offset + 4) in H2 by lia.
    rewrite (IH (offset + 4)) by (done || lia). cbn [rbind]. rewrite zlen_cons. unfold announced. do 2 f_equal. lia.
  - rewrite decide_False in Hat |- * by congruence. rewrite (IH offset) by done. cbn [rbind]. cbn [fmap list_fmap]. by rewrite (Hz i).
Qed.

Lemma select_fields_all Capacity start l sel : Forall (fun id => is_some (descriptor id) = true) l -> (length sel + length l <= Capacity)%nat ->
  select_fields Capacity start l sel = Ok (sel ++ l).
Proof.
  intros Hf. revert sel. induction Hf as [|id l Hid Hf IH]; intros sel Hl; cbn [select_fields]; [by rewrite app_nil_r|].
  destruct (descriptor id); [|done]. cbn [is_none]. cbn [length] in Hl.
  rewrite (proj2 (Nat.eqb_neq (length sel) Capacity)) by lia. rewrite IH by (rewrite length_app; cbn; lia). by rewrite <- app_assoc.
Qed.

(** Parsing the indicator words of a snapshot gives its fields in order. *)
Lemma parse_indicators_at Capacity data offset allow change aggregate :
  at_words data offset (header_words change) -> (change = true -> allow = true) -> 0 <= aggregate ->
  Forall (fun id => is_some (descriptor id) = true) ids -> aggregate + zlen ids <= Z.of_nat Capacity ->
  parse_indicators Capacity data offset allow aggregate =
  Ok (mkPlan (first_word words change :: (word_at words <$> word_indices)) attributes ids (layout_words (word_at words 0) * 4) change,
      aggregate + zlen ids).
Proof.
  intros Hat Hallow Hagg Hdesc Hcap. pose proof Hat as [Hoff _]. unfold parse_indicators. unfold header_words in Hat.
  apply (at_words_app data offset [first_word words change]) in Hat as [H1 H2]. change (zlen [first_word words change]) with 1 in H2.
  replace (offset + 4 * 1) with (offset + 4) in H2 by lia.
  rewrite (take_word_at _ _ _ H1) by apply first_word_u32. cbn [rbind]. rewrite first_reserved. cbn [orb].
  assert (Hlow : forall i, 0 <= i < 8 -> bit_set (first_word words change) i = bit_set (word_at words 0) i)
    by (intros; rewrite !bit_set_testbit by lia; by apply first_word_low).
  assert (H31 : bit_set (first_word words change) 31 = change).
  { rewrite first_bit by lia. rewrite andb_true_r. destruct (field_bit ids 0 31) eqn:E; [|done]. apply field_bit_range in E. lia. }
  rewrite H31. assert (negb allow && change = false) as -> by (destruct change; [rewrite Hallow by done; done|by rewrite andb_false_r]).
  rewrite <- (announced_change change) in H2 by (eapply list.Forall_impl; [apply indices_range|cbn; lia]).
  rewrite (take_cifs_at data _ [1; 2; 3; 4; 5; 6; 7] _ indices_range) by (done || lia || (intros i Hi; rewrite Hlow by lia; by apply unannounced)).
  cbn [rbind]. fold word_indices.
  assert (Hbytes : offset + 4 + 4 * zlen (announced (first_word words change) word_indices) - offset = layout_words (word_at words 0) * 4).
  { rewrite announced_change by (eapply list.Forall_impl; [apply indices_range|cbn; lia]). rewrite (layout_words_header change).
    unfold header_words. rewrite zlen_cons. lia. }
  rewrite Hbytes. clear Hbytes. set (cifs := first_word words change :: _).
  assert (H7 : (if bit_set (first_word words change) 7 then
      let? w := deref (cifs !! 7%nat) in
      fail_if (w =? 0) || nonzero (Z.land w (Z.lnot all_attributes)) with error2 ErrorCode.invalid_argument offset ;; Ok w
    else Ok 0) = Ok attributes).
  { rewrite first_bit by lia. cbn [Z.eqb Pos.eqb andb]. rewrite andb_false_r, orb_false_r.
    assert (field_bit ids 0 7 = false) as ->.
    { destruct (field_bit ids 0 7) eqn:E; [|done]. apply field_bit_range in E as (_ & _ & H & _). specialize (H eq_refl). lia. }
    cbn [orb]. change (cifs !! 7%nat) with (Some (word_at words 7)). cbn [deref rbind]. rewrite (wo_seven _ _ _ Hwords).
    destruct Hattr as [_ ->]. unfold nonzero. destruct (Z.eqb_spec attributes 0) as [E|]; cbn [negb orb]; [by rewrite E|done]. }
  rewrite H7. cbn [rbind]. change (default 0 (cifs !! 1%nat)) with (word_at words 1). change (default 0 (cifs !! 2%nat)) with (word_at words 2).
  change (default 0 (cifs !! 3%nat)) with (word_at words 3). fold (named_fields (first_word words change) (word_at words 1) (word_at words 2) (word_at words 3)).
  rewrite (named_fields_words ids attributes) by done. rewrite select_fields_all by (done || (cbn [length]; unfold zlen in Hcap; lia)). cbn [rbind app].
  assert (Hnz : forall i, 1 <= i <= 3 -> bit_set (first_word words change) i && (word_at words i =? 0) = false).
  { intros i Hi. rewrite Hlow by lia. destruct (bit_set (word_at words 0) i) eqn:E; [|done]. apply Z.eqb_neq. by apply announced_nonzero. }
  rewrite !Hnz by lia. cbn [orb]. rewrite (proj2 (Z.ltb_ge _ aggregate)), (proj2 (Z.ltb_ge _ (zlen ids))) by (pose proof (zlen_nonneg ids); lia).
  cbn [orb]. done.
Qed.
End Indicators.

(** ** Reading back *)

Section Reading.
Context (K : BodyKind.t) (payload : list byte) (binding : TimestampFormatBinding) (cancelled : bool).
Context (group : DiagnosticGroup.t) (vo own : Z).

Definition view_of (p : FieldEntry * Z) : FieldView := mkView (e_id p.1) p.2 K group (element_bytes K p) binding.

(** What the decoder checks of a pair. *)
Definition readable_pair (p : FieldEntry * Z) : Prop :=
  writable K p /\
  match K with
  | BodyKind.values => validate_wire_attribute (e_id p.1) p.2 (element_bytes K p) binding = Ok tt
  | BodyKind.selectors => True
  | BodyKind.diagnostics => u32 (e_diagnostic p.1) /\ validate_diagnostic_bits (e_diagnostic p.1) cancelled = Ok tt
  end.

Definition id_pair (p : FieldEntry * Z) : FieldId * Z := (e_id p.1, p.2).

Definition reading (after : list byte) (target : list FieldView) (rest : list (FieldId * Z)) (offset : Z) (views : list FieldView) : Prop :=
  exists pairs before, rest = id_pair <$> pairs /\ payload = before ++ body_bytes K pairs ++ after /\ own <= offset /\
    zlen before = vo + (offset - own) /\ views ++ (view_of <$> pairs) = target /\ Forall readable_pair pairs.

Hypothesis Hpayload : zlen payload <= U32_MAX.
Hypothesis Hown : 0 <= own <= 32.
Hypothesis Hvo : 0 <= vo.

Lemma wire_offset_at offset before after : payload = before ++ after -> own <= offset -> zlen before = vo + (offset - own) ->
  wire_offset vo own offset = Ok (zlen before).
Proof.
  intros -> Ho Hb. unfold wire_offset, checked_add. rewrite zlen_app in Hpayload. pose proof (zlen_nonneg after).
  unfold U32_MAX in Hpayload. assert (wrap64 (offset - own) = offset - own) as -> by zlia.
  rewrite (proj2 (Z.ltb_ge _ _)) by (unfold SIZE_MAX, U64_MAX; lia). f_equal. lia.
Qed.

Lemma wire_provider_at p before after offset : K = BodyKind.values -> payload = before ++ element_bytes K p ++ after -> own <= offset ->
  zlen before = vo + (offset - own) -> readable_pair p ->
  wire_provider payload binding vo own (e_id p.1) p.2 offset = Ok (extent2 (zlen (element_bytes K p)) 1).
Proof.
  intros HK Hp Ho Hb [[Ha Hwr] _]. destruct (Hwr HK) as (v & d & Hv & Hd & Hx & _ & Hst).
  unfold wire_provider. rewrite (wire_offset_at offset before (element_bytes K p ++ after)) by done. cbn [rbind].
  pose proof (f_equal zlen Hp) as Hl. rewrite !zlen_app in Hl. pose proof (zlen_nonneg after). pose proof (zlen_nonneg (element_bytes K p)).
  rewrite (proj2 (Z.ltb_ge (zlen payload) (zlen before))) by lia. rewrite Hst.
  assert (Hsize : zlen (element_bytes K p) = if base_attribute p.2 then d_words d * 4 else 4).
  { unfold element_bytes. rewrite HK, Hv, Hd, (scalar_bytes_length _ _ _ Hx), (base_attribute_words _ _ Ha). by destruct (base_attribute p.2). }
  rewrite Hd. cbn [deref rbind]. destruct (base_attribute p.2); cbn [rbind]; rewrite <- Hsize;
    rewrite (proj2 (Z.ltb_ge _ (zlen (element_bytes K p)))) by lia; done.
Qed.

Lemma append_visitor_at p before after offset views : K <> BodyKind.selectors -> payload = before ++ element_bytes K p ++ after -> own <= offset ->
  zlen before = vo + (offset - own) -> readable_pair p -> (length views < VIEW_CAPACITY)%nat ->
  append_visitor K payload binding cancelled group vo own (mkElement (e_id p.1) p.2 offset (zlen (element_bytes K p))) views =
  Ok (views ++ [view_of p]).
Proof.
  intros HK Hp Ho Hb [_ Hok] Hcap. unfold append_visitor. cbn [el_offset el_bytes el_field el_attribute].
  rewrite (wire_offset_at offset before (element_bytes K p ++ after)) by done. cbn [rbind].
  pose proof (f_equal zlen Hp) as Hl. rewrite !zlen_app in Hl. pose proof (zlen_nonneg after). pose proof (zlen_nonneg (element_bytes K p)).
  rewrite (proj2 (Z.ltb_ge (zlen payload) (zlen before))), (proj2 (Z.ltb_ge _ (zlen (element_bytes K p)))) by lia. cbn [orb].
  assert (Hsub : subspan payload (zlen before) (zlen (element_bytes K p)) = Ok (element_bytes K p)) by (rewrite Hp; apply subspan_app).
  unfold push_view. rewrite (proj2 (Nat.eqb_neq (length views) VIEW_CAPACITY)) by lia. rewrite !Hsub. cbn [rbind].
  assert (Hcheck : match K with
    | BodyKind.diagnostics => let? bits := load32 payload (zlen before) in validate_diagnostic_bits bits cancelled
    | BodyKind.values => validate_wire_attribute (e_id p.1) p.2 (element_bytes K p) binding
    | BodyKind.selectors => Ok tt end = Ok tt).
  { destruct K eqn:EK; [done|done|]. destruct Hok as [Hu Hbits].
    assert (load32 payload (zlen before) = Ok (e_diagnostic p.1)) as ->; [|done].
    apply at_words_one_inv; [|done]. split; [apply zlen_nonneg|]. rewrite Hp. unfold zlen. rewrite Nat2Z.id, drop_app_length.
    unfold element_bytes. rewrite take_app_length' by done. done. }
  rewrite Hcheck. done.
Qed.

Lemma reading_step after target rest p offset views : (length target <= VIEW_CAPACITY)%nat -> K <> BodyKind.selectors ->
  reading after target (p :: rest) offset views ->
  step_ok K false (fun f => f) (wire_provider payload binding vo own) (append_visitor K payload binding cancelled group vo own)
    (reading after target) p rest offset views.
Proof.
  intros Hcap HK (pairs & before & Hrest & Hp & Ho & Hb & Ht & Hall). destruct pairs as [|q pairs]; [done|]. injection Hrest as -> ->.
  apply list.Forall_cons in Hall as [Hq Hall]. rewrite body_bytes_cons, <- app_assoc in Hp.
  pose proof (f_equal zlen Hp) as Hl. rewrite !zlen_app in Hl. pose proof (zlen_nonneg after). pose proof (zlen_nonneg (element_bytes K q)).
  pose proof (zlen_nonneg (body_bytes K pairs)). pose proof (zlen_nonneg before).
  assert (Hviews : (length views < VIEW_CAPACITY)%nat).
  { rewrite <- Ht, length_app in Hcap. cbn [fmap list_fmap length] in Hcap. lia. }
  exists (zlen (element_bytes K q)), (views ++ [view_of q]). cbn [id_pair fst snd]. split.
  { assert (HP : K = BodyKind.values -> wire_provider payload binding vo own (e_id q.1) q.2 offset = Ok (extent2 (zlen (element_bytes K q)) 1))
      by (intros HKv; by eapply wire_provider_at).
    clear -HP. unfold element_bytes in *. by destruct K; [apply HP|..]. }
  split; [lia|]. split; [unfold U32_MAX, SIZE_MAX, U64_MAX in *; lia|].
  split; [intros HKv; by apply (writable_no_lists K q (proj1 Hq))|]. split.
  - rewrite orb_false_r, bool_decide_false by done. cbn [negb]. by eapply append_visitor_at.
  - exists pairs, (before ++ element_bytes K q). split_and!; try done.
    + by rewrite <- app_assoc.
    + lia.
    + rewrite zlen_app. lia.
    + rewrite <- Ht. by rewrite <- app_assoc.
Qed.
End Reading.

(** ** The checks before writing *)

Lemma validate_wire_binding id a bytes b b' : base_attribute a && structured_field id = false ->
  validate_wire_attribute id a bytes b = validate_wire_attribute id a bytes b'.
Proof. intros H. unfold validate_wire_attribute. destruct (base_attribute a); [|done]. cbn in H |- *. by rewrite H. Qed.

Lemma validate_attribute_safe id a v : safe (validate_attribute_value id a v).
Proof.
  unfold validate_attribute_value. test_goal E1; [done|]. test_goal E2; [done|]. test_goal E3; [by case_match|].
  test_goal E4; [by case_match|]. apply validate_value_safe.
Qed.

(** A value checked in the scratch buffer is checked as its bytes. *)
Definition scratch_checked (id : FieldId) (av : Z * SemanticValue) : Prop :=
  base_attribute av.1 && structured_field id = false ->
  exists d, descriptor id = Some d /\ validate_wire_attribute id av.1 (scalar_bytes d av.1 av.2) binding_default = Ok tt.

Lemma scratch_write d a v scratch : 0 <= a <= 12 -> extent_known d a -> length scratch = 8%nat ->
  exists scratch', write_attribute_scalar d a v scratch 0 = Ok scratch' /\ length scratch' = 8%nat /\
    subspan scratch' 0 (if base_attribute a then d_words d * 4 else 4) = Ok (scalar_bytes d a v).
Proof.
  intros Ha Hx Hl. pose proof (scalar_bytes_length d a v Hx) as Hb. pose proof (base_attribute_words d a Ha) as Hwd.
  assert (Hn : attribute_words d a * 4 <= 8).
  { unfold attribute_words, extent_known in *. destruct (_ || _); [lia|]. destruct (Hx eq_refl) as [-> | ->]; lia. }
  destruct (split_length scratch (length (scalar_bytes d a v))) as (mid & post & -> & Hm); [unfold zlen in Hb; lia|].
  exists (scalar_bytes d a v ++ post).
  pose proof (write_attribute_bytes d a v [] mid post Hx) as Hw. cbn [app] in Hw. change (zlen []) with 0 in Hw.
  rewrite Hw by (unfold zlen in *; lia). split_and!; [done|rewrite length_app in *; lia|].
  replace (if base_attribute a then d_words d * 4 else 4) with (zlen (scalar_bytes d a v)) by (rewrite Hb, Hwd; by destruct (base_attribute a)).
  apply (subspan_app [] (scalar_bytes d a v) post).
Qed.

Lemma check_scratch_ok id values scratch : length scratch = 8%nat -> Forall (fun av => 0 <= av.1 <= 12) values ->
  (values <> [] -> exists d, descriptor id = Some d) ->
  returns (check_scratch id values scratch) (fun scratch' => length scratch' = 8%nat /\ Forall (scratch_checked id) values).
Proof.
  revert scratch. induction values as [|[a v] values IH]; intros scratch Hl Hf Hd; cbn [check_scratch]; [by split|].
  apply list.Forall_cons in Hf as [Ha Hf]. cbn [fst] in Ha. destruct (Hd ltac:(done)) as [d Ed].
  destruct (base_attribute a && structured_field id) eqn:Est.
  - eapply returns_mono; [apply (IH scratch); [done|done|by exists d]|]. cbn beta. intros sc [H1 H2]. split; [done|]. constructor; [|done].
    unfold scratch_checked. cbn [fst]. by rewrite Est.
  - rewrite Ed. cbn [deref rbind]. assert (Hx : extent_known d a).
    { intros Hc. rewrite (attribute_cases a Ha) in Hc. apply negb_false_iff in Hc. rewrite Hc in Est. cbn in Est. by eapply scalar_words. }
    destruct (scratch_write d a v scratch Ha Hx Hl) as (sc & -> & Hl' & Hsub). cbn [rbind]. rewrite Hsub. cbn [rbind].
    eapply returns_bind.
    { apply returns_safe. unfold validate_wire_attribute. destruct (base_attribute a) eqn:Eb; cbn [negb].
      - cbn in Est. rewrite Est. pose proof (scalar_words _ _ Ed Est). eapply validate_wire_value_safe; [done|done|].
        rewrite (scalar_bytes_length _ _ _ Hx), (base_attribute_words _ _ Ha), Eb. done.
      - rewrite Ed. cbn [deref rbind]. apply rbind_safe; [|done]. apply read_attribute_scalar_safe; [by rewrite Eb|lia]. }
    intros [] Hv _. eapply returns_mono; [apply (IH sc); [done|done|by exists d]|]. cbn beta. intros sc' [H1 H2]. split; [done|].
    constructor; [|done]. intros _. exists d. done.
Qed.

Lemma held_values_elem e a v : 0 <= a <= 12 -> value_of e a = Some v -> (a, v) ∈ held_values e.
Proof.
  intros Ha Hv. unfold held_values. apply list_elem_of_omap. exists a. split; [|by rewrite Hv].
  assert (Hall : forallb (fun n => bool_decide (Z.of_nat n ∈ [0; 1; 2; 3; 4; 5; 6; 7; 8; 9; 10; 11; 12])) (seq 0 13) = true) by (vm_compute; reflexivity).
  rewrite forallb_forall in Hall. specialize (Hall (Z.to_nat a)). rewrite in_seq in Hall.
  replace a with (Z.of_nat (Z.to_nat a)) by lia. eapply bool_decide_eq_true_1, Hall. lia.
Qed.

Lemma held_values_inv e a v : (a, v) ∈ held_values e -> 0 <= a <= 12 /\ value_of e a = Some v.
Proof.
  unfold held_values. intros (b & Hb & Hv)%list_elem_of_omap. destruct (value_of e b) as [w|] eqn:E; [|done]. injection Hv as -> ->.
  split; [|done]. assert (Hall : Forall (fun b => 0 <= b <= 12) [0; 1; 2; 3; 4; 5; 6; 7; 8; 9; 10; 11; 12]) by (repeat constructor; lia).
  rewrite list.Forall_forall in Hall. by apply Hall.
Qed.

Lemma check_entries_ok N s entries scratch : snapshot_ok BodyKind.values N s -> (forall e, e ∈ entries -> e ∈ s_entries s) -> length scratch = 8%nat ->
  returns (check_entries entries scratch) (fun _ => Forall (fun e => Forall (scratch_checked (e_id e)) (held_values e)) entries).
Proof.
  intros Hs. revert scratch. induction entries as [|e entries IH]; intros scratch Hin Hl; cbn [check_entries]; [by constructor|].
  pose proof (so_entries _ _ _ Hs) as Hall. rewrite list.Forall_forall in Hall.
  assert (He : e ∈ s_entries s) by (apply Hin, elem_of_cons; by left). specialize (Hall _ He).
  eapply returns_bind.
  { apply check_scratch_ok; [done| |].
    - apply list.Forall_forall. intros [a v] [Ha _]%held_values_inv. done.
    - intros Hne. destruct (held_values e) as [|[a v] l] eqn:Eh; [done|].
      assert (Hav : (a, v) ∈ held_values e) by (rewrite Eh; apply elem_of_cons; by left). apply held_values_inv in Hav as [Ha Hv].
      pose proof (eo_values _ _ _ Hall) as Hvals. rewrite bool_decide_true in Hvals by done. specialize (Hvals a Ha). fold (value_of e a) in Hvals.
      rewrite Hv in Hvals. destruct Hvals as (_ & _ & Hvalid). unfold validate_attribute_value in Hvalid.
      destruct (descriptor (e_id e)) as [d|]; [eauto|done]. }
  cbn beta. intros sc _ [H1 H2]. eapply returns_mono; [apply (IH sc); [|done]|].
  - intros x Hx. apply Hin, elem_of_cons. by right.
  - cbn beta. intros u Hu. by constructor.
Qed.

Section Encode.
Context (K : BodyKind.t) (N : nat).

Lemma body_matches_safe e s change : safe (body_matches K e s change).
Proof.
  assert (Hif : forall A (c : bool) x (k : Result A), safe k -> safe (if c then Err x else k)) by (by intros A []).
  unfold body_matches. cbv zeta. apply Hif, Hif. apply rbind_safe; [|intros [] _; by apply Hif].
  destruct (env_type e =? PacketType.context); [by apply Hif, Hif|]. destruct (command e); [|done]. by apply Hif, Hif, Hif.
Qed.

Lemma formats_ok s : snapshot_ok K N s ->
  (if bool_decide (K = BodyKind.values) then check_formats (flat_map format_values (s_entries s)) else Ok tt) = Ok tt.
Proof.
  intros Hs. case_bool_decide as HK; [|done]. assert (flat_map format_values (s_entries s) = []) as ->; [|done].
  pose proof (so_entries _ _ _ Hs) as Hall. induction Hall as [|e es He _ IH]; [done|]. cbn. by rewrite (format_values_none _ _ _ HK He).
Qed.

Lemma snapshot_measure_safe s : snapshot_ok K N s -> safe (measure K s).
Proof.
  intros Hs. unfold measure, walk_layout. rewrite (cif0_lookup K N s Hs). cbn [deref rbind]. unfold walk_field_layout, checked_add.
  apply rbind_safe; [|by intros [] _]. apply rbind_safe; [|by intros [] _]. apply rbind_safe; [by case_match|]. intros head _.
  apply rbind_safe; [|by intros [] _]. generalize (l_attributes (s_layout s)) as attributes, (s_entries s) as fields, 0 as work. intros attributes fields.
  assert (Hprov : forall f a o, safe (snapshot_provider K f a o)).
  { intros f a o. unfold snapshot_provider. destruct (value_of f a); [|done]. case_match.
    - apply rbind_safe; [apply validate_attribute_safe|done].
    - case_match; [done|]. apply rbind_safe; [apply validate_attribute_safe|]. intros [] Hv. unfold validate_attribute_value in Hv.
      by destruct (descriptor (e_id f)). }
  assert (Hattr : forall f a o w, safe (walk_attribute K false e_id (snapshot_provider K) (fun _ (_ : unit) => Ok tt) limits_default f a o w tt)).
  { intros f a o w. unfold walk_attribute, checked_add. apply rbind_safe; [destruct K; [apply Hprov|done|done]|]. intros x _.
    apply rbind_safe; [by case_match|]. intros nx _. by repeat (case_match; try done). }
  revert head. induction fields as [|f fields IH]; intros head work; cbn [walk_fields]; [done|]. destruct (descriptor (e_id f)); [|done].
  case_match; [done|]. apply rbind_safe.
  - generalize (attribute_list (if nonzero attributes then attributes else attribute_bit Attribute.current)) as l. intros l. clear IH.
    revert head work. induction l as [|a l IHl]; intros head work; cbn [walk_attributes]; [done|]. apply rbind_safe; [apply Hattr|].
    intros [ow []] _. apply IHl.
  - intros [ow []] _. apply IH.
Qed.
End Encode.
