(* ===== verification/PacketTiles.v ===== *)
(** * What a decoded packet says: [decode_packet] of [include/vita/codec/packet.hpp] against
      its indicator words

    [Packet] proves that the decoder stays inside its packet.  Here the views of an accepted
    packet are tied to the indicator words: [Indicators] describes a group of indicator words
    by what its bits mean, independently of the loops of the parser, and
    [decode_packet_tiles] says that the payload is these words and the bytes of the views and
    nothing else, and that the views are those the words select, in order. *)

From stdpp Require Import sorting.
From S2P Require Import Prelude Wire WireProofs Fields Scalar Structured Packet Builder BuilderProofs.

(** ** Groups of indicator words *)

(** The eight words of a group, an absent one being zero, with the fields and the attributes
    they select. *)
Record Indicators := mkIndicators {
  in_group : DiagnosticGroup.t; in_words : list Z; in_fields : list FieldId; in_attributes : list Z }.

(** The first word says which of the seven others follow it. *)
Definition announces (words : list Z) (i : Z) : bool := Z.testbit (word_at words 0) i.
Definition sent_words (words : list Z) : list Z :=
  word_at words 0 :: (word_at words <$> filter (fun i => announces words i = true) [1; 2; 3; 4; 5; 6; 7]).
Definition indicator_bytes (n : Indicators) : list byte := words_bytes (sent_words (in_words n)).

(** The fields are bits 30 to 8 of the first word and all bits of words 1, 2 and 3. *)
Definition names_field (words : list Z) (id : FieldId) : Prop :=
  (cif id = 0 /\ 8 <= fbit id <= 30 \/ 1 <= cif id <= 3 /\ 0 <= fbit id <= 31) /\
  Z.testbit (word_at words (cif id)) (fbit id) = true.

(** Word 7 selects the attributes, from bit 31 down; without it the current value is meant. *)
Definition names_attribute (words : list Z) (a : Z) : Prop :=
  if announces words 7 then 0 <= a <= 12 /\ Z.testbit (word_at words 7) (31 - a) = true else a = Attribute.current.

(** Earlier words first, and in a word the higher bit first. *)
Definition field_order (a b : FieldId) : Prop := cif a < cif b \/ (cif a = cif b /\ fbit b < fbit a).

Record indicators_ok (n : Indicators) : Prop := mk_indicators_ok {
  io_length : length (in_words n) = 8%nat;
  io_words : Forall u32 (in_words n);
  io_absent : forall i, 1 <= i <= 7 -> announces (in_words n) i = false -> word_at (in_words n) i = 0;
  io_field_order : StronglySorted field_order (in_fields n);
  io_fields : forall id, id ∈ in_fields n <-> names_field (in_words n) id;
  io_attribute_order : StronglySorted Z.lt (in_attributes n);
  io_attributes : forall a, a ∈ in_attributes n <-> names_attribute (in_words n) a }.

(** The selected attributes of each selected field, in order. *)
Definition selected_rows (n : Indicators) : list (DiagnosticGroup.t * FieldId * Z) :=
  flat_map (fun id => (fun a => (in_group n, id, a)) <$> in_attributes n) (in_fields n).
Definition view_row (v : FieldView) : DiagnosticGroup.t * FieldId * Z := (fv_group v, fv_id v, fv_attribute v).

(** ** Parsing a group *)

Lemma take_word_words data offset w off :
  take_word data (zlen data) offset = (Ok w, off) -> at_words data offset [w] /\ u32 w /\ off = offset + 4.
Proof.
  unfold take_word. destruct (_ || _); [done|]. intros [= H <-]. by apply load32_at_words in H as [? ?].
Qed.

(** The words taken, in a list with zeros for the absent ones. *)
Lemma take_cifs_words data first indices : forall offset ws off,
  0 <= offset -> take_cifs data first indices offset = Ok (ws, off) ->
  at_words data offset (snd <$> filter (fun p => bit_set first p.1 = true) (zip indices ws)) /\
  Forall2 (fun i w => bit_set first i = false -> w = 0) indices ws.
Proof.
  induction indices as [|i indices IH]; intros offset ws off Ho; cbn [take_cifs].
  { intros [= <- <-]. split; [by apply at_words_nil|constructor]. }
  destruct (bit_set first i) eqn:Ei.
  - destruct (take_word data (zlen data) offset) as [[w|e|] off1] eqn:Ew; cbn [rbind]; [|done|done].
    apply take_word_words in Ew as (Hw & _ & ->). intros H. inv_ok.
    destruct (IH (offset + 4) _ _ ltac:(lia) ltac:(eassumption)) as [Hat Hz]. split; [|constructor; [congruence|done]].
    cbn [zip zip_with]. rewrite filter_cons_True by done. cbn [fmap list_fmap snd].
    apply (at_words_app data offset [w]). split; [done|]. change (zlen [w]) with 1. by replace (offset + 4 * 1) with (offset + 4) by lia.
  - intros H. inv_ok. destruct (IH offset _ _ Ho ltac:(eassumption)) as [Hat Hz]. split; [|by constructor].
    cbn [zip zip_with]. rewrite filter_cons_False; [done|]. cbn. congruence.
Qed.

Lemma land_testbit w a : 0 <= a <= 12 -> nonzero (Z.land w (attribute_bit a)) = Z.testbit w (31 - a).
Proof. intros Ha. unfold attribute_bit. rewrite (proj2 (Z.ltb_lt a 13)) by lia. apply bit_set_testbit. lia. Qed.

Lemma attribute_list_sorted m : StronglySorted Z.lt (attribute_list m).
Proof.
  unfold attribute_list. assert (Hs : StronglySorted Z.lt [0; 1; 2; 3; 4; 5; 6; 7; 8; 9; 10; 11; 12]).
  { repeat (apply SSorted_cons; [|repeat constructor]). apply SSorted_nil. }
  induction Hs as [|a l _ IH Ha]; [constructor|]. rewrite filter_cons. destruct (decide _); [|done]. constructor; [done|].
  apply list.Forall_forall. intros b [_ Hb]%list_elem_of_filter. rewrite list.Forall_forall in Ha. by apply Ha.
Qed.

Lemma named_fields_sorted first w1 w2 w3 : StronglySorted field_order (named_fields first w1 w2 w3).
Proof.
  pose proof (named_fields_order first w1 w2 w3) as H. induction H as [|a l _ IH Ha]; constructor; [done|].
  eapply list.Forall_impl; [exact Ha|]. intros b Hb. cbn in Hb. unfold field_before in Hb. unfold field_order.
  apply orb_true_iff in Hb as [?%Z.ltb_lt|[?%Z.eqb_eq ?%Z.ltb_lt]%andb_true_iff]; [by left|by right].
Qed.

(** The mask of the first word leaves bits 30 to 8. *)
Lemma first_mask w b : 0 <= b -> Z.testbit (Z.land w 0x7fffff00) b = Z.testbit w b && ((8 <=? b) && (b <=? 30)).
Proof.
  intros Hb. rewrite Z.land_spec. f_equal. change 0x7fffff00 with (Z.shiftl (Z.ones 23) 8). rewrite Z.shiftl_spec by done.
  destruct (Z.leb_spec 8 b); [|by rewrite Z.testbit_neg_r by lia]. destruct (Z.leb_spec b 30); cbn [andb].
  - apply Z.ones_spec_low. lia.
  - apply Z.ones_spec_high. lia.
Qed.

Lemma named_fields_names words id :
  id ∈ named_fields (word_at words 0) (word_at words 1) (word_at words 2) (word_at words 3) <-> names_field words id.
Proof.
  unfold named_fields, names_field. rewrite !elem_of_app, !word_fields_elem. split.
  - intros [(Hc & Hr & Hs)|[(Hc & Hr & Hs)|[(Hc & Hr & Hs)|(Hc & Hr & Hs)]]]; rewrite bit_set_testbit in Hs by lia; rewrite Hc.
    2-4: split; [lia|done].
    rewrite first_mask, !andb_true_iff, !Z.leb_le in Hs by lia. split; [lia|tauto].
  - intros [Hc Hs]. assert (cif id = 0 \/ cif id = 1 \/ cif id = 2 \/ cif id = 3) as [Hz|[Hz|[Hz|Hz]]] by lia; rewrite Hz in Hs.
    + left. split_and!; [done|lia|lia|]. rewrite bit_set_testbit, first_mask, Hs by lia. cbn [andb]. apply andb_true_iff. rewrite !Z.leb_le. lia.
    + right; left. split_and!; [done|lia|lia|]. by rewrite bit_set_testbit by lia.
    + right; right; left. split_and!; [done|lia|lia|]. by rewrite bit_set_testbit by lia.
    + right; right; right. split_and!; [done|lia|lia|]. by rewrite bit_set_testbit by lia.
Qed.

Lemma filter_zip (first : Z) (f : Z -> Z) indices ws : Forall2 (fun i w => f i = w) indices ws ->
  snd <$> filter (fun p => bit_set first p.1 = true) (zip indices ws) = f <$> filter (fun i => bit_set first i = true) indices.
Proof.
  induction 1 as [|i w indices ws Hf _ IH]; [done|]. cbn [zip zip_with]. rewrite !filter_cons. cbn [fst].
  destruct (decide (bit_set first i = true)); [|done]. cbn [fmap list_fmap snd]. by rewrite IH, Hf.
Qed.

Lemma announces_bits words indices : Forall (fun i => 0 <= i) indices ->
  filter (fun i => bit_set (word_at words 0) i = true) indices = filter (fun i => announces words i = true) indices.
Proof.
  induction 1 as [|i l Hi _ IH]; [done|]. rewrite !filter_cons, IH. unfold announces. by rewrite bit_set_testbit.
Qed.

(** What a parsed group says: its words are those of the payload, and the plan is what they
    select. *)
Definition plan_indicators (group : DiagnosticGroup.t) (p : IndicatorPlan) : Indicators :=
  mkIndicators group (plan_cif p) (plan_fields p) (attribute_list (selection (plan_attributes p))).

Lemma parse_indicators_words C data offset allow aggregate p a group :
  0 <= offset -> parse_indicators C data offset allow aggregate = Ok (p, a) ->
  indicators_ok (plan_indicators group p) /\
  take (Z.to_nat (plan_bytes p)) (drop (Z.to_nat offset) data) = indicator_bytes (plan_indicators group p) /\
  plan_change p = Z.testbit (word_at (plan_cif p) 0) 31 /\ (plan_change p = true -> allow = true).
Proof.
  intros Ho H. pose proof (proj2 (parse_indicators_ok C data offset allow aggregate Ho) _ _ H) as Hplan.
  unfold parse_indicators in H. cbv zeta in H.
  destruct (take_word data (zlen data) offset) as [[first|e|] off1] eqn:Ew; cbn [rbind] in H; [|done|done].
  apply take_word_words in Ew as (Hat & Hu & ->). match type of H with (if ?c then _ else _) = _ => destruct c eqn:Eallow; [done|] end.
  apply rbind_Ok in H as ([ws off2] & Hcifs & H).
  destruct (take_cifs_ok data first [1; 2; 3; 4; 5; 6; 7] (offset + 4)) as [_ Hok]; [lia|].
  destruct (Hok _ _ Hcifs) as (Hlen & Hws & Hoff & _). clear Hok.
  apply take_cifs_words in Hcifs as [Hrest Hzero]; [|lia].
  set (words := first :: ws) in *.
  assert (Hws2 : Forall2 (fun i w => word_at words i = w) [1; 2; 3; 4; 5; 6; 7] ws).
  { destruct ws as [|w1 [|w2 [|w3 [|w4 [|w5 [|w6 [|w7 [|]]]]]]]]; try discriminate Hlen. repeat constructor. }
  rewrite (filter_zip first (word_at words)) in Hrest by done. change first with (word_at words 0) in Hrest at 1.
  rewrite announces_bits in Hrest by (repeat constructor; lia).
  assert (Hsent : at_words data offset (sent_words words)) by (by apply (at_words_app data offset [first])).
  assert (Hbit : forall i, 0 <= i -> bit_set first i = announces words i) by (intros; by apply bit_set_testbit).
  apply rbind_Ok in H as (attributes & Hattr & H). apply rbind_Ok in H as (selected & Hsel & H).
  apply select_fields_ok in Hsel as [_ Hsel]; [|constructor]. cbn [app] in Hsel.
  do 2 match type of H with (if ?c then _ else _) = _ => destruct c; [done|] end.
  injection H as <- _. unfold plan_indicators. cbn [plan_cif plan_fields plan_attributes plan_bytes plan_change] in *.
  split; [|split; [|split; [by apply bit_set_testbit|]]].
  3: { intros Hc. apply orb_false_iff in Eallow as [_ Ea]. rewrite Hc, andb_true_r in Ea. by destruct allow. }
  - split; cbn [in_words in_fields in_attributes].
    + cbn [words length]. by rewrite Hlen.
    + by constructor.
    + intros i Hi Ha. rewrite <- Hbit in Ha by lia. clear -Hzero Hws2 Hi Ha. pose proof (list.Forall2_length _ _ _ Hzero) as Hl.
      assert (Hin : [1; 2; 3; 4; 5; 6; 7] !! Z.to_nat (i - 1) = Some i).
      { assert (i = 1 \/ i = 2 \/ i = 3 \/ i = 4 \/ i = 5 \/ i = 6 \/ i = 7) as Hi' by lia. by repeat destruct Hi' as [->|Hi']; subst. }
      destruct (Forall2_lookup_l _ _ _ _ _ Hzero Hin) as (w & Hw & Hz). destruct (Forall2_lookup_l _ _ _ _ _ Hws2 Hin) as (w' & Hw' & E).
      assert (w' = w) as -> by congruence. rewrite E. by apply Hz.
    + rewrite Hsel. apply (named_fields_sorted first (word_at words 1) (word_at words 2) (word_at words 3)).
    + intros id. rewrite Hsel. apply (named_fields_names words).
    + apply attribute_list_sorted.
    + intros x. rewrite attribute_list_elem. unfold names_attribute. rewrite <- Hbit by lia. destruct (bit_set first 7).
      * change (words !! 7%nat) with (words !! Z.to_nat 7) in Hattr. destruct (words !! Z.to_nat 7) as [w7|] eqn:E7; cbn [deref rbind] in Hattr; [|done].
        match type of Hattr with (if ?c then _ else _) = _ => destruct c eqn:Ec; [done|] end. injection Hattr as <-.
        apply orb_false_iff in Ec as [Ez _]. assert (selection w7 = w7) as -> by (unfold selection, nonzero; by rewrite Ez).
        assert (word_at words 7 = w7) as -> by (unfold word_at; by rewrite E7).
        split; (intros [Hx Hb]; split; [done|]); by rewrite land_testbit in * by done.
      * injection Hattr as <-. change (selection 0) with (attribute_bit Attribute.current). split.
        -- intros [Hx Hb]. rewrite land_testbit in Hb by done. change (attribute_bit Attribute.current) with (2 ^ 31) in Hb.
           destruct (decide (x = 0)) as [|Hne]; [done|]. by rewrite Z.pow2_bits_false in Hb by lia.
        -- intros ->. split; [unfold Attribute.current; lia|done].
  - destruct Hsent as [_ Hsent]. unfold indicator_bytes. cbn [in_words]. rewrite <- Hsent. f_equal.
    unfold sent_words. cbn [length]. rewrite length_fmap, <- announces_bits by (repeat constructor; lia).
    change (word_at words 0) with first. unfold zlen in Hoff. lia.
Qed.

(** ** Walking over the selected fields *)

Section rows.
Context (K : BodyKind.t) (visit : bool) (provider : FieldId -> Z -> Z -> Result FieldExtent).
Context (visitor : LayoutElement -> list FieldView -> Result (list FieldView)) (limits : TraversalLimits).
Context (group : DiagnosticGroup.t) (shape : FieldView -> Prop).

(** A visit appends the view of its element. *)
Definition visit_appends : Prop := forall e s s', visitor e s = Ok s' ->
  exists v, s' = s ++ [v] /\ view_row v = (group, el_field e, el_attribute e) /\ shape v.
Context (Hvisitor : visit_appends) (Hvisit : negb (bool_decide (K = BodyKind.selectors)) || visit = true).

Definition appended (rows : list (DiagnosticGroup.t * FieldId * Z)) (s s' : list FieldView) : Prop :=
  exists views, s' = s ++ views /\ view_row <$> views = rows /\ Forall shape views.

Lemma appended_nil s : appended [] s s.
Proof. exists []. by rewrite app_nil_r. Qed.
Lemma appended_app r1 r2 s1 s2 s3 : appended r1 s1 s2 -> appended r2 s2 s3 -> appended (r1 ++ r2) s1 s3.
Proof.
  intros (v1 & -> & <- & H1) (v2 & -> & <- & H2). exists (v1 ++ v2). rewrite fmap_app, app_assoc. split_and!; [done|done|by apply Forall_app].
Qed.

Lemma walk_attribute_rows id a offset work s ow s' :
  walk_attribute K visit (fun f => f) provider visitor limits id a offset work s = Ok (ow, s') -> appended [(group, id, a)] s s'.
Proof.
  unfold walk_attribute. cbv zeta. rewrite Hvisit. intros H. inv_ok.
  destruct (Hvisitor _ _ _ ltac:(eassumption)) as (v & -> & Hv & Hsh). exists [v]. split_and!; [done|cbn; by rewrite Hv|by constructor].
Qed.

Lemma walk_attributes_rows id attributes : forall offset work s ow s',
  walk_attributes K visit (fun f => f) provider visitor limits id attributes offset work s = Ok (ow, s') ->
  appended ((fun a => (group, id, a)) <$> attributes) s s'.
Proof.
  induction attributes as [|a l IH]; intros offset work s ow s'; cbn [walk_attributes].
  { intros [= _ <-]. apply appended_nil. }
  intros H. apply rbind_Ok in H as ([ow1 s1] & H1 & H). eapply (appended_app [_]); [by eapply walk_attribute_rows|by eapply IH].
Qed.

Lemma walk_fields_rows attributes ids : forall offset work s ow s',
  walk_fields K visit (fun f => f) provider visitor limits attributes ids offset work s = Ok (ow, s') ->
  appended (flat_map (fun id => (fun a => (group, id, a)) <$> attribute_list (selection attributes)) ids) s s'.
Proof.
  induction ids as [|id ids IH]; intros offset work s ow s'; cbn [walk_fields flat_map].
  { intros [= _ <-]. apply appended_nil. }
  destruct (descriptor id); [|done]. cbv zeta. fold (selection attributes). destruct (nonzero (Z.land (selection attributes) _)); [done|].
  intros H. apply rbind_Ok in H as ([ow1 s1] & H1 & H). eapply appended_app; [by eapply walk_attributes_rows|by eapply IH].
Qed.

Lemma walk_layout_rows cif0 attributes ids work s bw s' :
  walk_field_layout K visit (fun f => f) provider visitor limits cif0 attributes ids 0 work s = Ok (bw, s') ->
  appended (flat_map (fun id => (fun a => (group, id, a)) <$> attribute_list (selection attributes)) ids) s s'.
Proof.
  unfold walk_field_layout. intros H. apply rbind_Ok in H as (head & _ & H). apply rbind_Ok in H as ([ow s1] & Hw & H).
  injection H as _ <-. by eapply walk_fields_rows.
Qed.
End rows.

Lemma push_view_appends v fields out : push_view v fields = Ok out -> out = fields ++ [v].
Proof. unfold push_view. intros H. inv_ok. done. Qed.

(** What the decoder checks of a view of values: its bytes are a value of the attribute. *)
Definition validated (v : FieldView) : Prop :=
  fv_kind v = BodyKind.values -> validate_wire_attribute (fv_id v) (fv_attribute v) (fv_bytes v) (fv_binding v) = Ok tt.

(** The views of a body of values or diagnostics, and of a body of selectors. *)
Lemma append_appends K payload binding cancelled group vo own :
  visit_appends (append_visitor K payload binding cancelled group vo own) group (fun v => fv_kind v = K /\ validated v).
Proof.
  intros e s s' H. unfold append_visitor in H. inv_ok. match goal with H : push_view _ _ = _ |- _ => apply push_view_appends in H as -> end.
  eexists. split; [done|]. split; [done|]. split; [done|]. unfold validated. cbn. intros ->. inv_ok.
  match goal with H1 : subspan _ _ _ = Ok ?a, H2 : subspan _ _ _ = Ok ?b |- _ => rewrite H1 in H2; injection H2 as -> end.
  by match goal with u : unit |- _ => destruct u end.
Qed.
Lemma selector_appends : visit_appends selector_visitor DiagnosticGroup.none (fun v => fv_kind v = BodyKind.selectors /\ fv_bytes v = []).
Proof. intros e s s' ->%push_view_appends. by eexists. Qed.

(** The views that a plan adds to a packet, and the bytes they cover. *)
Lemma append_fields_rows K packet plan vo group limits work data off packet' size work' :
  K <> BodyKind.selectors -> zlen (ev_payload (pv_envelope packet)) <= U32_MAX ->
  plan_ok data off plan -> 0 <= vo <= zlen (ev_payload (pv_envelope packet)) ->
  append_fields K packet plan vo group limits work = Ok (packet', size, work') ->
  0 <= size /\ vo + size <= zlen (ev_payload (pv_envelope packet)) /\
  (pv_envelope packet', pv_body_kind packet', pv_opaque packet', pv_change packet') =
    (pv_envelope packet, pv_body_kind packet, pv_opaque packet, pv_change packet) /\
  exists views, pv_fields packet' = pv_fields packet ++ views /\
    view_row <$> views = selected_rows (plan_indicators group plan) /\ Forall (fun v => fv_kind v = K /\ validated v) views /\
    concat (fv_bytes <$> views) = take (Z.to_nat size) (drop (Z.to_nat vo) (ev_payload (pv_envelope packet))).
Proof.
  intros HK Hp Hplan Hvo H. destruct (append_fields_ok K packet plan vo group limits work data off HK Hp Hplan Hvo) as [_ Hok].
  destruct (Hok _ _ _ H) as (_ & Hs1 & Hs2 & views & Hv & _ & _ & Hcat). split_and!; [done|done| |].
  - unfold append_fields in H. cbv zeta in H. inv_ok. repeat match goal with p : _ * _ |- _ => destruct p end. by inv_ok.
  - exists views. split; [done|]. unfold append_fields in H. cbv zeta in H. apply rbind_Ok in H as (cif0 & _ & H).
    apply rbind_Ok in H as ([bw s'] & Hw & H). injection H as <- _ _. cbn [pv_fields] in Hv.
    apply (walk_layout_rows K false _ _ limits group (fun v => fv_kind v = K /\ validated v)) in Hw as (views' & -> & Hrows & Hk);
      [|apply append_appends|by rewrite bool_decide_eq_false_2].
    apply app_inv_head in Hv as ->. done.
Qed.

(** ** The body of a packet *)

(** The kind of body that an envelope announces. *)
Definition body_kind_of (e : Envelope) : BodyKind.t :=
  if env_type e =? PacketType.context then BodyKind.values else
  match command e with
  | Some c =>
      if ack e then (if Z.testbit (cam c) 18 then BodyKind.values else BodyKind.diagnostics)
      else if cancel e || (Z.land (Z.shiftr (cam c) 23) 3 =? 0) then BodyKind.selectors else BodyKind.values
  | None => BodyKind.values
  end.

(** The groups of indicator words of the body: one, or for diagnostics those that both the
    acknowledgement and the request it answers ask for, warnings before errors. *)
Definition groups_of (e : Envelope) (options : DecodeOptions) : list DiagnosticGroup.t :=
  match body_kind_of e with
  | BodyKind.diagnostics =>
      let asked k := match command e, opt_request options with Some c, Some r => Z.testbit (cam c) k && Z.testbit r k | _, _ => false end in
      (if asked 17 then [DiagnosticGroup.warning] else []) ++ (if asked 16 then [DiagnosticGroup.error] else [])
  | _ => [DiagnosticGroup.none]
  end.

(** The views belong to a body of kind [K]: a selector has no bytes, the bytes of a value are
    valid. *)
Definition of_kind (K : BodyKind.t) (v : FieldView) : Prop :=
  fv_kind v = K /\ (K = BodyKind.selectors -> fv_bytes v = []) /\ validated v.

(** The payload is the given groups of indicator words followed by the bytes of the views,
    and the views are what the words select. *)
Record body_says (K : BodyKind.t) (groups : list DiagnosticGroup.t) (payload : list byte) (change : bool) (views : list FieldView) (blocks : list Indicators) : Prop := mk_body_says {
  bs_ok : Forall indicators_ok blocks;
  bs_groups : in_group <$> blocks = groups;
  bs_payload : payload = concat (indicator_bytes <$> blocks) ++ concat (fv_bytes <$> views);
  bs_rows : view_row <$> views = concat (selected_rows <$> blocks);
  bs_kind : Forall (of_kind K) views;
  bs_change : change = existsb (fun n => Z.testbit (word_at (in_words n) 0) 31) blocks }.

Lemma of_kind_other K views : K <> BodyKind.selectors -> Forall (fun v => fv_kind v = K /\ validated v) views -> Forall (of_kind K) views.
Proof. intros HK H. eapply list.Forall_impl; [exact H|]. intros v [Hv Hw]. split_and!; [done|done|exact Hw]. Qed.

(** What a decoder of a body establishes: everything it did not read stays. *)
Definition decodes_to (K : BodyKind.t) (groups : list DiagnosticGroup.t) (packet pv : PacketView) : Prop :=
  pv_envelope pv = pv_envelope packet /\ pv_body_kind pv = K /\
  exists blocks, body_says K groups (ev_payload (pv_envelope packet)) (pv_change pv) (pv_fields pv) blocks.

(** One group of words, then the views of their fields. *)
Lemma one_group K packet pv p payload size views :
  ev_payload (pv_envelope packet) = payload ->
  indicators_ok (plan_indicators DiagnosticGroup.none p) ->
  take (Z.to_nat (plan_bytes p)) payload = indicator_bytes (plan_indicators DiagnosticGroup.none p) ->
  plan_change p = Z.testbit (word_at (plan_cif p) 0) 31 ->
  0 <= plan_bytes p -> 0 <= size -> plan_bytes p + size = zlen payload ->
  view_row <$> views = selected_rows (plan_indicators DiagnosticGroup.none p) -> Forall (of_kind K) views ->
  concat (fv_bytes <$> views) = take (Z.to_nat size) (drop (Z.to_nat (plan_bytes p)) payload) ->
  pv_envelope pv = pv_envelope packet -> pv_body_kind pv = K -> pv_change pv = plan_change p -> pv_fields pv = views ->
  decodes_to K [DiagnosticGroup.none] packet pv.
Proof.
  intros Hp Hok Hbytes Hch Hb Hs Htotal Hrows Hk Hcat He HK Hc Hf. split; [done|]. split; [done|].
  exists [plan_indicators DiagnosticGroup.none p]. rewrite Hf, Hp. split; cbn [fmap list_fmap concat existsb in_words plan_indicators].
  - by constructor.
  - done.
  - rewrite Hcat, !app_nil_r, <- Hbytes. by apply (tile_all payload _ _ size).
  - by rewrite app_nil_r.
  - done.
  - by rewrite Hc, orb_false_r.
Qed.

Lemma parsed_bounds C data offset allow aggregate p a : 0 <= offset -> parse_indicators C data offset allow aggregate = Ok (p, a) ->
  plan_ok data offset p /\ 4 <= plan_bytes p /\ offset + plan_bytes p <= zlen data.
Proof.
  intros Ho H. pose proof (proj2 (parse_indicators_ok C data offset allow aggregate Ho) _ _ H) as Hplan.
  split; [done|]. by destruct Hplan as [_ [? ?] _].
Qed.

Lemma decode_context_says packet limits pv :
  zlen (ev_payload (pv_envelope packet)) <= U32_MAX -> pv_fields packet = [] -> decode_context packet limits = Ok pv ->
  decodes_to BodyKind.values [DiagnosticGroup.none] packet pv.
Proof.
  intros Hp Hf H. unfold decode_context in H. cbv zeta in H. apply rbind_Ok in H as ([plan a] & Hplan & H).
  destruct (parse_indicators_words _ _ _ _ _ _ _ DiagnosticGroup.none (Z.le_refl 0) Hplan) as (Hok & Hbytes & Hch & _).
  destruct (parsed_bounds _ _ _ _ _ _ _ (Z.le_refl 0) Hplan) as (Hpl & Hb1 & Hb2). rewrite drop_0 in Hbytes.
  apply rbind_Ok in H as ([[packet' size] w] & Happ & H). cbn [fst snd] in H. inv_ok.
  eapply append_fields_rows in Happ as (Hs1 & Hs2 & Hsame & views & Hv & Hrows & Hk & Hcat); [|done|exact Hp|exact Hpl|cbn [pv_envelope set_body]; lia].
  cbn [pv_envelope pv_body_kind pv_opaque pv_change pv_fields set_body] in *. injection Hsame as He HK _ Hc. rewrite Hf in Hv. cbn [app] in Hv.
  apply negb_false_iff, Z.eqb_eq in E. unfold U32_MAX in Hp. unfold wrap64 in E. rewrite Z.mod_small in E by lia.
  eapply (one_group BodyKind.values packet pv plan _ size views); (done || lia || by apply of_kind_other).
Qed.

Lemma decode_body_says packet c limits pv :
  zlen (ev_payload (pv_envelope packet)) <= U32_MAX -> pv_fields packet = [] -> pv_body_kind packet = BodyKind.values ->
  let e := ev_envelope (pv_envelope packet) in
  decode_body packet c limits = Ok pv ->
  decodes_to (if negb (ack e) && (cancel e || (Z.land (Z.shiftr c 23) 3 =? 0)) then BodyKind.selectors else BodyKind.values)
    [DiagnosticGroup.none] packet pv.
Proof.
  intros Hp Hf Hkind e H. unfold decode_body in H. cbv zeta in H. fold e in H. apply rbind_Ok in H as ([plan a] & Hplan & H).
  destruct (parse_indicators_words _ _ _ _ _ _ _ DiagnosticGroup.none (Z.le_refl 0) Hplan) as (Hok & Hbytes & Hch & _).
  destruct (parsed_bounds _ _ _ _ _ _ _ (Z.le_refl 0) Hplan) as (Hpl & Hb1 & Hb2). rewrite drop_0 in Hbytes.
  apply rbind_Ok in H as ([packet' size] & Hbody & H). inv_ok.
  apply negb_false_iff, Z.eqb_eq in E. destruct (negb (ack e) && (cancel e || _)).
  - apply rbind_Ok in Hbody as (cif0 & _ & Hbody). apply rbind_Ok in Hbody as ([ow fields] & Hw & Hbody). injection Hbody as <- <-.
    eapply walk_layout_rows in Hw as (views & Hv & Hrows & Hk); [|apply selector_appends|done].
    cbn [pv_fields set_body] in Hv. rewrite Hf in Hv. cbn [app] in Hv. subst fields.
    unfold U32_MAX in Hp. unfold wrap64 in E. rewrite Z.mod_small in E by lia.
    eapply (one_group BodyKind.selectors packet _ plan _ 0 views); try done; try lia.
    + eapply list.Forall_impl; [exact Hk|]. intros v [Hv ?]. split_and!; [done|done|]. unfold validated. by rewrite Hv.
    + change (Z.to_nat 0) with 0%nat. rewrite take_0. clear -Hk. induction Hk as [|v l [_ Hv] _ IH]; [done|]. cbn. by rewrite Hv, IH.
  - apply rbind_Ok in Hbody as ([[p s] w] & Happ & Hbody). cbn [fst snd] in Hbody. injection Hbody as <- <-.
    eapply append_fields_rows in Happ as (Hs1 & Hs2 & Hsame & views & Hv & Hrows & Hk & Hcat); [|done|exact Hp|exact Hpl|cbn [pv_envelope set_body]; lia].
    cbn [pv_envelope pv_body_kind pv_opaque pv_change pv_fields set_body] in *. injection Hsame as He HK _ Hc. rewrite Hf in Hv. cbn [app] in Hv.
    unfold U32_MAX in Hp. unfold wrap64 in E. rewrite Z.mod_small in E by lia.
    eapply (one_group BodyKind.values packet p plan _ s views); (done || lia || congruence || by apply of_kind_other).
Qed.

(** ** Diagnostics *)

Definition blocks_of (group : DiagnosticGroup.t) (plan : option IndicatorPlan) : list Indicators :=
  match plan with Some p => [plan_indicators group p] | None => [] end.

Lemma optional_words (present : bool) payload offset aggregate group plan a o :
  0 <= offset <= zlen payload -> zlen payload <= U32_MAX ->
  (if present then
     let? (v, a) := parse_indicators FIELD_CAPACITY payload offset false aggregate in Ok (Some v, (a, wrap64 (offset + plan_bytes v)))
   else Ok (None, (aggregate, offset))) = Ok (plan, (a, o)) ->
  offset <= o <= zlen payload /\ (forall p, plan = Some p -> exists data off, plan_ok data off p) /\
  Forall indicators_ok (blocks_of group plan) /\ in_group <$> blocks_of group plan = (if present then [group] else []) /\
  take (Z.to_nat (o - offset)) (drop (Z.to_nat offset) payload) = concat (indicator_bytes <$> blocks_of group plan) /\
  existsb (fun n => Z.testbit (word_at (in_words n) 0) 31) (blocks_of group plan) = false.
Proof.
  intros Ho Hp. destruct present.
  - intros H. apply rbind_Ok in H as ([v a1] & Hplan & H). injection H as <- _ <-.
    destruct (parse_indicators_words _ _ _ _ _ _ _ group (proj1 Ho) Hplan) as (Hok & Hbytes & Hch & Hno).
    destruct (parsed_bounds _ _ _ _ _ _ _ (proj1 Ho) Hplan) as (Hpl & Hb1 & Hb2).
    unfold wrap64, U32_MAX in *. rewrite Z.mod_small by lia. replace (offset + plan_bytes v - offset) with (plan_bytes v) by lia.
    cbn [blocks_of fmap list_fmap concat existsb in_words plan_indicators in_group]. rewrite app_nil_r, orb_false_r, <- Hch.
    split_and!; try done; try lia; [intros p [= <-]; eauto|by constructor|]. destruct (plan_change v); [by specialize (Hno eq_refl)|done].
  - intros [= <- _ <-]. rewrite Z.sub_diag. split_and!; try done; lia.
Qed.

Lemma append_group_rows packet plan offset work group limits packet' o w :
  zlen (ev_payload (pv_envelope packet)) <= U32_MAX -> 0 <= offset <= zlen (ev_payload (pv_envelope packet)) ->
  (forall p, plan = Some p -> exists data off, plan_ok data off p) ->
  append_group packet plan offset work group limits = Ok (packet', (o, w)) ->
  offset <= o <= zlen (ev_payload (pv_envelope packet)) /\
  (pv_envelope packet', pv_body_kind packet', pv_opaque packet', pv_change packet') =
    (pv_envelope packet, pv_body_kind packet, pv_opaque packet, pv_change packet) /\
  exists views, pv_fields packet' = pv_fields packet ++ views /\
    view_row <$> views = concat (selected_rows <$> blocks_of group plan) /\ Forall (of_kind BodyKind.diagnostics) views /\
    concat (fv_bytes <$> views) = take (Z.to_nat (o - offset)) (drop (Z.to_nat offset) (ev_payload (pv_envelope packet))).
Proof.
  intros Hp Ho Hplan. unfold append_group. destruct plan as [plan|].
  - destruct (Hplan plan eq_refl) as (data & off & Hpl). intros H. apply rbind_Ok in H as ([[p size] w'] & Happ & H). cbn [fst snd] in H.
    injection H as <- <- _. eapply append_fields_rows in Happ as (Hs1 & Hs2 & Hsame & views & Hv & Hrows & Hk & Hcat); [|done|exact Hp|exact Hpl|done].
    unfold wrap64, U32_MAX in *. rewrite Z.mod_small by lia. replace (offset + size - offset) with size by lia.
    split_and!; [lia|lia|done|]. exists views. cbn [blocks_of fmap list_fmap concat]. rewrite app_nil_r. split_and!; try done. by apply of_kind_other.
  - intros [= <- <- _]. rewrite Z.sub_diag. split_and!; [lia|lia|done|]. exists []. by rewrite app_nil_r.
Qed.

(** Four consecutive pieces of a list. *)
Lemma four_pieces (l : list byte) o1 o2 o3 : 0 <= o1 -> o1 <= o2 -> o2 <= o3 -> o3 <= zlen l ->
  l = take (Z.to_nat o1) l ++ take (Z.to_nat (o2 - o1)) (drop (Z.to_nat o1) l) ++
      take (Z.to_nat (o3 - o2)) (drop (Z.to_nat o2) l) ++ take (Z.to_nat (zlen l - o3)) (drop (Z.to_nat o3) l).
Proof.
  intros H1 H2 H3 H4. assert (Hsplit : forall a b, 0 <= a -> a <= b -> b <= zlen l -> forall r,
    r = drop (Z.to_nat b) l -> drop (Z.to_nat a) l = take (Z.to_nat (b - a)) (drop (Z.to_nat a) l) ++ r).
  { intros a b Ha Hb Hl r ->. replace (Z.to_nat b) with (Z.to_nat a + Z.to_nat (b - a))%nat by lia. by rewrite <- drop_drop, take_drop. }
  rewrite <- (take_drop (Z.to_nat o1) l) at 1. f_equal. apply (Hsplit o1 o2); [lia..|]. symmetry.
  rewrite <- (Hsplit o2 o3); [done|lia..|]. rewrite take_ge; [done|]. rewrite length_drop. unfold zlen. lia.
Qed.

Lemma decode_diagnostics_says packet c options pv :
  zlen (ev_payload (pv_envelope packet)) <= U32_MAX -> pv_fields packet = [] -> pv_change packet = false ->
  decode_diagnostics packet c options = Ok pv ->
  let asked k := match opt_request options with Some r => bit_set c k && bit_set r k | None => false end in
  (pv_opaque pv = true /\ pv_fields pv = []) \/ decodes_to BodyKind.diagnostics
    ((if asked 17 then [DiagnosticGroup.warning] else []) ++ (if asked 16 then [DiagnosticGroup.error] else [])) packet pv.
Proof.
  intros Hp Hf Hc0. rewrite decode_diagnostics_groups. cbv zeta. set (payload := ev_payload (pv_envelope packet)) in *.
  destruct (_ && is_none _); [intros H; injection H as <-; by left|].
  assert (Easked : forall k, bit_set c k && match opt_request options with Some r => bit_set r k | None => false end
    = match opt_request options with Some r => bit_set c k && bit_set r k | None => false end)
    by (intros k; destruct (opt_request options); [done|apply andb_false_r]).
  rewrite !Easked. generalize (match opt_request options with Some r => bit_set c 17 && bit_set r 17 | None => false end) as asked1.
  generalize (match opt_request options with Some r => bit_set c 16 && bit_set r 16 | None => false end) as asked2.
  intros asked2 asked1 H. right. pose proof (zlen_nonneg payload) as Hz.
  apply rbind_Ok in H as ([warnings [a1 o1]] & H1 & H). apply rbind_Ok in H as ([errors [a2 o2]] & H2 & H). cbn [fst snd] in *.
  apply rbind_Ok in H as ([p1 [o3 w3]] & H3 & H). apply rbind_Ok in H as ([p2 [o4 w4]] & H4 & H). cbn [fst snd] in *. inv_ok.
  apply negb_false_iff, Z.eqb_eq in E.
  assert (H1' : (if asked1 then let? (v, a) := parse_indicators FIELD_CAPACITY payload 0 false 0 in Ok (Some v, (a, wrap64 (0 + plan_bytes v)))
    else Ok (None, (0, 0))) = Ok (warnings, (a1, o1))).
  { destruct asked1; [|done]. destruct (parse_indicators FIELD_CAPACITY payload 0 false 0) as [[v a]|e|] eqn:Ep; cbn [rbind] in *; [|done|done].
    destruct (parsed_bounds _ _ _ _ _ _ _ (Z.le_refl 0) Ep) as (_ & Hb1 & Hb2). unfold wrap64, U32_MAX in *. by rewrite Z.mod_small by lia. }
  apply (optional_words _ _ _ _ DiagnosticGroup.warning) in H1' as (Ho1 & Hpl1 & Hok1 & Hg1 & Hb1 & Hx1); [|lia|done].
  apply (optional_words _ _ _ _ DiagnosticGroup.error) in H2 as (Ho2 & Hpl2 & Hok2 & Hg2 & Hb2 & Hx2); [|lia|done].
  apply append_group_rows in H3 as (Ho3 & Hsame3 & v3 & Hv3 & Hr3 & Hk3 & Hc3); [|done|cbn [set_body pv_envelope]; fold payload; lia|done].
  cbn [set_body pv_envelope pv_fields pv_body_kind pv_opaque pv_change] in *. injection Hsame3 as He3 HK3 Hop3 Hch3.
  fold payload in Hc3, Ho3. apply append_group_rows in H4 as (Ho4 & Hsame4 & v4 & Hv4 & Hr4 & Hk4 & Hc4); [|by rewrite He3|rewrite He3; fold payload; lia|done].
  injection Hsame4 as He4 HK4 Hop4 Hch4. rewrite He3 in *. fold payload in Hc4, Ho4. rewrite Hf in Hv3. cbn [app] in Hv3. rewrite Hv3 in Hv4.
  split; [congruence|]. split; [congruence|].
  exists (blocks_of DiagnosticGroup.warning warnings ++ blocks_of DiagnosticGroup.error errors). rewrite Hv4, Hch4, Hch3, Hc0. fold payload. split.
  - by apply Forall_app.
  - by rewrite fmap_app, Hg1, Hg2.
  - rewrite !fmap_app, !concat_app, <- Hb1, <- Hb2, Hc3, Hc4, Z.sub_0_r, drop_0, <- app_assoc. subst o4.
    apply four_pieces; lia.
  - by rewrite !fmap_app, !concat_app, Hr3, Hr4.
  - by apply Forall_app.
  - by rewrite existsb_app, Hx1, Hx2.
Qed.

(** Either the body was left opaque, or it says what its indicator words say. *)
Lemma decode_packet_says wire options pv : decode_packet wire options = Ok pv ->
  let e := ev_envelope (pv_envelope pv) in
  (pv_opaque pv = true /\ pv_fields pv = []) \/ decodes_to (body_kind_of e) (groups_of e options) pv pv.
Proof.
  intros H. pose proof (decode_packet_envelope wire options pv H) as Henv. cbv zeta.
  unfold decode_packet in H. rewrite Henv in H. cbn [rbind] in H. cbv zeta in H.
  destruct (decode_envelope_facts wire _ Henv) as [Hp _]. match type of H with (if ?c then Err _ else _) = _ => destruct c; [done|] end.
  destruct (_ || _); [injection H as <-; by left|]. unfold body_kind_of, groups_of, body_kind_of.
  set (packet := mkPacketView (pv_envelope pv) [] BodyKind.values false false false) in *.
  assert (Hsame : forall K groups, decodes_to K groups packet pv -> decodes_to K groups pv pv) by (intros K groups (_ & ? & ?); by split_and!).
  destruct (_ =? PacketType.context).
  { right. apply Hsame. by eapply decode_context_says. }
  destruct (command _) as [c|]; cbn [deref rbind] in H; [|done]. rewrite bit_set_testbit in H by lia.
  destruct (ack _) eqn:Ea, (Z.testbit (cam c) 18); cbn [negb orb] in H.
  2: { apply decode_diagnostics_says in H; [|done..]. destruct H as [H|H]; [by left|]. right. apply Hsame. cbv zeta in H.
    destruct (opt_request options) as [r|]; [|done]. by rewrite !bit_set_testbit in H by lia. }
  all: right; apply decode_body_says in H; [|done|done|done]; cbn [pv_envelope packet] in H; rewrite Ea in H; cbn [negb andb] in H; apply Hsame.
  1: done.
  all: destruct (cancel _ || _); done.
Qed.

Lemma decode_packet_validated wire options pv : decode_packet wire options = Ok pv -> Forall validated (pv_fields pv).
Proof.
  intros H. destruct (decode_packet_says wire options pv H) as [[_ ->]|(_ & _ & blocks & [_ _ _ _ Hk _])]; [constructor|].
  eapply list.Forall_impl; [exact Hk|]. by intros v (_ & _ & Hv).
Qed.

(** ** Property *)

(** C4. An accepted packet says what its indicator words say, and nothing else.  Unless the body
    is left opaque, the payload is, without gap, overlap or trailing byte, the indicator words
    of one group (of the warnings and errors asked for, in a body of diagnostics) followed by
    the bytes of the views; the views are exactly the attributes that the words select of
    exactly the fields that they select, in the order of the words, under their group; the
    envelope announces the kind of the body, a selector has no bytes, a value has passed the
    validation of its field, and the change mark is that of the first word. *)
Theorem decode_packet_tiles wire options pv :
  decode_packet wire options = Ok pv -> pv_opaque pv = false ->
  let e := ev_envelope (pv_envelope pv) in
  pv_body_kind pv = body_kind_of e /\
  exists blocks, Forall indicators_ok blocks /\ in_group <$> blocks = groups_of e options /\
    ev_payload (pv_envelope pv) = concat (indicator_bytes <$> blocks) ++ concat (fv_bytes <$> pv_fields pv) /\
    view_row <$> pv_fields pv = concat (selected_rows <$> blocks) /\
    Forall (of_kind (body_kind_of e)) (pv_fields pv) /\
    pv_change pv = existsb (fun n => Z.testbit (word_at (in_words n) 0) 31) blocks.
Proof.
  intros H Hop. destruct (decode_packet_says wire options pv H) as [[Ho _]|(_ & HK & blocks & [])]; [congruence|].
  split; [done|]. by exists blocks.
Qed.

(** A context packet with a bandwidth and a gain: its only indicator word. *)
Definition sample_context : list byte :=
  [x40; x00; x00; x06; x00; x00; x00; x07; x20; x80; x00; x00; x00; x00; x00; x01; x00; x00; x00; x00; x00; x80; x00; x40].

Lemma decode_packet_tiles_witness : exists pv blocks, decode_packet sample_context options_default = Ok pv /\
  (view_value <$> pv_fields pv) = [Ok (v_hertz 4294967296); Ok (v_gain 64 128)] /\
  Forall indicators_ok blocks /\ in_group <$> blocks = [DiagnosticGroup.none] /\
  concat (indicator_bytes <$> blocks) = [x20; x80; x00; x00] /\
  concat (selected_rows <$> blocks) = [(DiagnosticGroup.none, Field.Bandwidth, 0); (DiagnosticGroup.none, Field.Gain, 0)].
Proof.
  destruct (decode_packet sample_context options_default) as [pv|e|] eqn:E; [|vm_compute in E; discriminate E..].
  assert (Hop : pv_opaque pv = false) by (vm_compute in E; injection E as <-; reflexivity).
  destruct (decode_packet_tiles sample_context options_default pv E Hop) as (_ & blocks & Hok & Hg & Hp & Hr & _).
  exists pv, blocks. rewrite <- Hr. vm_compute in E. injection E as <-. split_and!; [reflexivity|vm_compute; reflexivity|exact Hok|exact Hg| |reflexivity].
  cbn in Hp. change [x20; x80; x00; x00; x00; x00; x00; x01; x00; x00; x00; x00; x00; x80; x00; x40]
    with ([x20; x80; x00; x00] ++ [x00; x00; x00; x01; x00; x00; x00; x00; x00; x80; x00; x40]) in Hp.
  apply app_inv_tail in Hp. symmetry. exact Hp.
Defined.
