(* ===== verification/Readers.v ===== *)
(** * Reading the fields of a packet: the accessors of [FieldView] in
      [include/vita/codec/packet.hpp] and the views they return

    A view of a structured field is decoded on demand: [indices], [pointing_vectors],
    [spectrum], [sectors], [duration], [uuid], [geolocation], [ephemeris], [gps_ascii] and
    [associations] validate the bytes of the view and then read them, some of them into a
    view with accessors of its own.  [decode_packet_safe] says that no accessor of a view of
    an accepted packet reads outside its bytes, and that the one of its field succeeds. *)

From S2P Require Import Prelude Wire WireProofs Fields Scalar Structured Packet Builder BuilderProofs PacketTiles.

(** ** Lists of integers *)

(** [value=(value<<8)|bytes[position]], [n] times. *)
Fixpoint read_bytes (bytes : list byte) (position : Z) (n : nat) (value : Z) : Result Z :=
  match n with
  | O => Ok value
  | S n =>
      if position <? 0 then UB else
      let? b := deref (bytes !! Z.to_nat position) in
      read_bytes bytes (position + 1) n (wrap32 (Z.lor (Z.shiftl value 8) (Z_of_byte b)))
  end.

Section native.
(** The value of the object representation of a [uint32_t], which the platform defines: the
    views of an arena copy it, those of a packet never do. *)
Context (object_u32 : list byte -> Z).

(** [std::memcpy(&value,bytes.data()+offset,4)] *)
Definition copy_u32 (bytes : list byte) (offset : Z) : Result Z :=
  let? object := subspan bytes offset 4 in Ok (object_u32 object).

(** [IntegerListView] *)
Record IntegerListView := mkIntegerList { il_bytes : list byte; il_wire : bool }.
Definition integer_size (l : IntegerListView) : Z := zlen (il_bytes l) / 4.
Definition integer_at (l : IntegerListView) (index : Z) : Result Z :=
  fail_if integer_size l <=? index with error1 ErrorCode.invalid_argument ;;
  if il_wire l then read_bytes (il_bytes l) (index * 4) 4 0 else copy_u32 (il_bytes l) (index * 4).

(** [IndexListView] *)
Record IndexListView := mkIndexList { ix_entry_bytes : Z; ix_count : Z; ix_bytes : list byte; ix_wire : bool }.
Definition index_at (l : IndexListView) (index : Z) : Result Z :=
  fail_if (negb (ix_entry_bytes l =? 1) && negb (ix_entry_bytes l =? 2) && negb (ix_entry_bytes l =? 4)) || (ix_count l <=? index)
    with error1 ErrorCode.invalid_argument ;;
  let width := if ix_wire l then ix_entry_bytes l else 4 in
  fail_if (SIZE_MAX / width <? index) || (zlen (ix_bytes l) <? index * width) || (zlen (ix_bytes l) - index * width <? width)
    with error1 ErrorCode.short_input ;;
  if ix_wire l then read_bytes (ix_bytes l) (index * width) (Z.to_nat width) 0 else copy_u32 (ix_bytes l) (index * width).
End native.

(** ** Values of fixed size *)

Definition read_known (bytes : list byte) (offset : Z) : Result (option Z) :=
  let? raw := load32 bytes offset in
  if raw =? 0x7fffffff then Ok None else Ok (Some (to_signed 32 raw)).

(** [read(first+step*i)] for the [n] elements of an array. *)
Fixpoint read_array {A} (read : Z -> Result A) (first step : Z) (n : nat) : Result (list A) :=
  match n with
  | O => Ok []
  | S n => let? v := read first in let? l := read_array read (first + step) step n in Ok (v :: l)
  end.

Record StateDurationValue := mkDurationValue { sd_fractional : Z; sd_seconds : Z; sd_tsi : Z; sd_tsf : Z }.
Definition wire_duration (bytes : list byte) (binding : TimestampFormatBinding) : Result StateDurationValue :=
  let? _ := validate_structure_wire Field.Age bytes binding in
  let? (seconds, offset) :=
    (if nonzero (b_tsi binding) then let? w := load32 bytes 0 in Ok (w, 4) else Ok (0, 0)) in
  let? fractional :=
    (if nonzero (b_tsf binding) then
       let? high := load32 bytes offset in
       let? low := load32 bytes (offset + 4) in Ok (Z.lor (Z.shiftl high 32) low)
     else Ok 0) in
  Ok (mkDurationValue fractional seconds (b_tsi binding) (b_tsf binding)).

(** The four words of a UUID. *)
Definition wire_uuid (bytes : list byte) : Result (list Z) :=
  let? _ := validate_structure_wire Field.ControlleeUUID bytes binding_default in
  read_array (load32 bytes) 0 4 4.

Record GeolocationValue := mkGeolocation {
  ge_oui : Z; ge_fix : EmbeddedFixTime; ge_latitude_q22 : option Z; ge_longitude_q22 : option Z; ge_altitude_q5 : option Z;
  ge_speed_q16 : option Z; ge_heading_q22 : option Z; ge_track_q22 : option Z; ge_magnetic_variation_q22 : option Z }.
Definition wire_geolocation (bytes : list byte) : Result GeolocationValue :=
  let? _ := validate_structure_wire Field.FormattedGPS bytes binding_default in
  let? first := load32 bytes 0 in
  let? fix_ := read_fix bytes in
  let? latitude := read_known bytes 16 in
  let? longitude := read_known bytes 20 in
  let? altitude := read_known bytes 24 in
  let? speed := read_known bytes 28 in
  let? heading := read_known bytes 32 in
  let? track := read_known bytes 36 in
  let? variation := read_known bytes 40 in
  Ok (mkGeolocation (Z.land first 0xffffff) fix_ latitude longitude altitude speed heading track variation).

Record EphemerisValue := mkEphemeris {
  ep_oui : Z; ep_fix : EmbeddedFixTime; ep_position_q5 : list (option Z); ep_attitude_q22 : list (option Z); ep_velocity_q16 : list (option Z) }.
Definition wire_ephemeris (bytes : list byte) : Result EphemerisValue :=
  let? _ := validate_structure_wire Field.ECEFEphemeris bytes binding_default in
  let? first := load32 bytes 0 in
  let? fix_ := read_fix bytes in
  let? position := read_array (read_known bytes) 16 4 3 in
  let? attitude := read_array (read_known bytes) 28 4 3 in
  let? velocity := read_array (read_known bytes) 40 4 3 in
  Ok (mkEphemeris (Z.land first 0xffffff) fix_ position attitude velocity).

(** ** Sentences and associations *)

(** [while(count && bytes[8+count-1]==0) --count] *)
Fixpoint trim_zeros (bytes : list byte) (count : nat) : Result nat :=
  match count with
  | O => Ok O
  | S n => let? b := deref (bytes !! (8 + n)%nat) in if Z_of_byte b =? 0 then trim_zeros bytes n else Ok count
  end.

Record GpsAsciiView := mkGpsAscii { ga_oui : Z; ga_text : list byte }.
Definition wire_ascii (bytes : list byte) : Result GpsAsciiView :=
  let? _ := validate_structure_wire Field.GPSASCII bytes binding_default in
  let? count := trim_zeros bytes (Z.to_nat (zlen bytes - 8)) in
  let? first := load32 bytes 0 in
  let? text := subspan bytes 8 (Z.of_nat count) in
  Ok (mkGpsAscii (Z.land first 0xffffff) text).

Record AssociationListsView := mkAssociations { as_lists : list IntegerListView; as_tags_present : bool }.

(** The five lists, one after the other: source, system, vector, asynchronous and tags. *)
Fixpoint split_lists (bytes : list byte) (counts : list Z) (offset : Z) : Result (list IntegerListView) :=
  match counts with
  | [] => Ok []
  | c :: counts =>
      let? part := subspan bytes offset (c * 4) in
      let? rest := split_lists bytes counts (offset + c * 4) in
      Ok (mkIntegerList part true :: rest)
  end.

Definition wire_associations (bytes : list byte) : Result AssociationListsView :=
  let? _ := validate_structure_wire Field.ContextAssociationLists bytes binding_default in
  let? a := load32 bytes 0 in
  let? b := load32 bytes 4 in
  let tags := nonzero (Z.land b 0x8000) in
  let counts := [Z.land (Z.shiftr a 16) 511; Z.land a 511; Z.shiftr b 16; Z.land b 32767; if tags then Z.land b 32767 else 0] in
  let? lists := split_lists bytes counts 8 in
  Ok (mkAssociations lists tags).

(** ** Sector records *)

Record SectorStartTime := mkSectorStart { ss_fractional : Z; ss_seconds : Z; ss_tsi : Z; ss_tsf : Z }.
Record SectorRecord := mkSector {
  se_sector : Z; se_f1_q20 : Z; se_f2_q20 : option Z; se_bandwidth_q20 : option Z; se_step_q20 : option Z; se_points : option Z;
  se_gain_q7 : option (Z * Z); se_threshold_q7 : option (Z * Z); se_dwell_fs : option Z; se_start : option SectorStartTime;
  se_time3_fs : option Z; se_time4_fs : option Z }.

(** The readers that advance an offset: [word], [signed64] and [pair]. *)
Definition next_word (bytes : list byte) (offset : Z) : Result (Z * Z) :=
  let? w := load32 bytes offset in Ok (w, offset + 4).
Definition next_signed64 (bytes : list byte) (offset : Z) : Result (Z * Z) :=
  let? v := read_signed64 bytes offset in Ok (v, offset + 8).
Definition next_pair (bytes : list byte) (offset : Z) : Result ((Z * Z) * Z) :=
  let? (v, offset) := next_word bytes offset in
  Ok ((to_signed 16 (wrap16 v), to_signed 16 (wrap16 (Z.shiftr v 16))), offset).
Definition next_start (binding : TimestampFormatBinding) (bytes : list byte) (offset : Z) : Result (SectorStartTime * Z) :=
  let? (seconds, offset) := (if nonzero (b_tsi binding) then next_word bytes offset else Ok (0, offset)) in
  let? (fractional, offset) :=
    (if nonzero (b_tsf binding) then
       let? (high, offset) := next_word bytes offset in
       let? (low, offset) := next_word bytes offset in
       Ok (Z.lor (Z.shiftl high 32) low, offset)
     else Ok (0, offset)) in
  Ok (mkSectorStart fractional seconds (b_tsi binding) (b_tsf binding), offset).

(** [if(mask&bit) member=read();] *)
Definition optional {A} (present : bool) (read : Z -> Result (A * Z)) (offset : Z) : Result (option A * Z) :=
  if present then let? (v, offset) := read offset in Ok (Some v, offset) else Ok (None, offset).

Definition read_sector (bytes : list byte) (binding : TimestampFormatBinding) (mask offset : Z) : Result SectorRecord :=
  let? (sector, offset) := next_word bytes offset in
  let? (f1, offset) := next_signed64 bytes offset in
  let? (f2, offset) := optional (bit_set mask 29) (next_signed64 bytes) offset in
  let? (bandwidth, offset) := optional (bit_set mask 28) (next_signed64 bytes) offset in
  let? (step, offset) := optional (bit_set mask 27) (next_signed64 bytes) offset in
  let? (points, offset) := optional (bit_set mask 26) (next_word bytes) offset in
  let? (gain, offset) := optional (bit_set mask 25) (next_pair bytes) offset in
  let? (threshold, offset) := optional (bit_set mask 24) (next_pair bytes) offset in
  let? (dwell, offset) := optional (bit_set mask 23) (next_signed64 bytes) offset in
  let? (start, offset) := optional (bit_set mask 22) (next_start binding bytes) offset in
  let? (time3, offset) := optional (bit_set mask 21) (next_signed64 bytes) offset in
  let? (time4, _) := optional (bit_set mask 20) (next_signed64 bytes) offset in
  Ok (mkSector sector f1 f2 bandwidth step points gain threshold dwell start time3 time4).

(** [SectorStepScanWireView] *)
Record SectorView := mkSectorView { sv_bytes : list byte; sv_start_format : TimestampFormatBinding }.
Definition sector_size (s : SectorView) : Result Z :=
  let? shape := wire_record_shape Field.SectorStepScan (sv_bytes s) (sv_start_format s) in
  fail_if negb (total_words shape * 4 =? zlen (sv_bytes s)) with error1 ErrorCode.invalid_argument ;;
  Ok (records shape).
Definition sector_selectors (s : SectorView) : Result Z :=
  let? _ := sector_size s in load32 (sv_bytes s) 8.
Definition sector_at (s : SectorView) (index : Z) : Result SectorRecord :=
  let? shape := wire_record_shape Field.SectorStepScan (sv_bytes s) (sv_start_format s) in
  fail_if negb (total_words shape * 4 =? zlen (sv_bytes s)) || (records shape <=? index) with error1 ErrorCode.invalid_argument ;;
  let? mask := load32 (sv_bytes s) 8 in
  read_sector (sv_bytes s) (sv_start_format s) mask ((header_words shape + index * record_words shape) * 4).

(** ** The accessors of [FieldView] *)

(** The test that each of them starts with. *)
Definition is_base (v : FieldView) : bool := bool_decide (fv_kind v = BodyKind.values) && base_attribute (fv_attribute v).
Definition structured_reader {A} (v : FieldView) (applies : bool) (read : Result A) : Result A :=
  fail_if negb (is_base v) || negb applies with error1 ErrorCode.invalid_argument ;; read.

Definition view_indices (v : FieldView) : Result IndexListView :=
  structured_reader v (fid_eqb (fv_id v) Field.IndexList)
    (let? _ := validate_cif1_wire (fv_id v) (fv_bytes v) (fv_binding v) in
     let? header := load32 (fv_bytes v) 4 in
     let? rest := subspan_from (fv_bytes v) 8 in
     Ok (mkIndexList (wrap8 (Z.shiftr header 28)) (Z.land header 0xfffff) rest true)).
(** A [PointingVectorWireView] is its bytes. *)
Definition view_pointing_vectors (v : FieldView) : Result (list byte) :=
  structured_reader v (fid_eqb (fv_id v) Field.PointingVectorStructure)
    (let? _ := validate_cif1_wire (fv_id v) (fv_bytes v) (fv_binding v) in Ok (fv_bytes v)).
Definition view_spectrum (v : FieldView) : Result SpectrumValue :=
  structured_reader v (fid_eqb (fv_id v) Field.Spectrum) (read_spectrum (fv_bytes v)).
Definition view_sectors (v : FieldView) : Result SectorView :=
  structured_reader v (fid_eqb (fv_id v) Field.SectorStepScan)
    (let? _ := validate_cif1_wire (fv_id v) (fv_bytes v) (fv_binding v) in Ok (mkSectorView (fv_bytes v) (fv_binding v))).
Definition view_duration (v : FieldView) : Result StateDurationValue :=
  structured_reader v (temporal_duration_field (fv_id v)) (wire_duration (fv_bytes v) (fv_binding v)).
Definition view_uuid (v : FieldView) : Result (list Z) :=
  structured_reader v (fid_eqb (fv_id v) Field.ControlleeUUID || fid_eqb (fv_id v) Field.ControllerUUID) (wire_uuid (fv_bytes v)).
Definition view_geolocation (v : FieldView) : Result GeolocationValue :=
  structured_reader v (fid_eqb (fv_id v) Field.FormattedGPS || fid_eqb (fv_id v) Field.FormattedINS) (wire_geolocation (fv_bytes v)).
Definition view_ephemeris (v : FieldView) : Result EphemerisValue :=
  structured_reader v (fid_eqb (fv_id v) Field.ECEFEphemeris || fid_eqb (fv_id v) Field.RelativeEphemeris) (wire_ephemeris (fv_bytes v)).
Definition view_gps_ascii (v : FieldView) : Result GpsAsciiView :=
  structured_reader v (fid_eqb (fv_id v) Field.GPSASCII) (wire_ascii (fv_bytes v)).
Definition view_associations (v : FieldView) : Result AssociationListsView :=
  structured_reader v (fid_eqb (fv_id v) Field.ContextAssociationLists) (wire_associations (fv_bytes v)).

(** ** Reading inside the bytes *)

(** [readable m]: the read is defined and returns a value. *)
Definition readable {A} (m : Result A) : Prop := exists a, m = Ok a.

Lemma readable_ok {A} (a : A) : readable (Ok a).
Proof. by exists a. Qed.
Lemma readable_bind {A B} (m : Result A) (k : A -> Result B) : readable m -> (forall a, m = Ok a -> readable (k a)) -> readable (rbind m k).
Proof. intros [a ->] H. by apply H. Qed.
Lemma readable_load32 bytes offset : 0 <= offset -> offset + 4 <= zlen bytes -> readable (load32 bytes offset).
Proof. intros H1 H2. destruct (load32_ok bytes offset H1 H2) as (w & E & _). by exists w. Qed.
Lemma readable_safe {A} (m : Result A) : readable m -> safe m.
Proof. by intros [a ->]. Qed.

Lemma readable_byte (bytes : list byte) i : (i < length bytes)%nat -> readable (deref (bytes !! i)).
Proof. intros H. destruct (lookup_lt_is_Some_2 bytes i H) as [b E]. exists b. by rewrite E. Qed.

Lemma read_bytes_ok bytes n : forall position value,
  0 <= position -> position + Z.of_nat n <= zlen bytes -> readable (read_bytes bytes position n value).
Proof.
  induction n as [|n IH]; intros position value Hp Hb; cbn [read_bytes]; [apply readable_ok|].
  rewrite (proj2 (Z.ltb_ge _ _)) by lia. apply readable_bind; [apply readable_byte; unfold zlen in Hb; lia|].
  intros b _. apply IH; lia.
Qed.

Lemma subspan_readable bytes o n : 0 <= o -> 0 <= n -> o + n <= zlen bytes -> readable (subspan bytes o n).
Proof. intros. destruct (subspan_ok bytes o n) as [-> _]; [done..|apply readable_ok]. Qed.

Lemma read_array_ok {A} (read : Z -> Result A) first step n :
  (forall i, 0 <= i < Z.of_nat n -> readable (read (first + step * i))) -> readable (read_array read first step n).
Proof.
  revert first. induction n as [|n IH]; intros first H; cbn [read_array]; [apply readable_ok|].
  apply readable_bind; [rewrite <- (Z.add_0_r first), <- (Z.mul_0_r step); apply H; lia|]. intros a _.
  apply readable_bind; [|intros l _; apply readable_ok]. apply IH. intros i Hi.
  replace (first + step + step * i) with (first + step * (i + 1)) by lia. apply H. lia.
Qed.

(** Reads of one value after another. *)
Ltac read_steps :=
  repeat first
    [ apply readable_ok
    | apply readable_load32; lia
    | apply readable_bind; [|intros ? ?] ].

(** A structure that was validated has the size of its extent. *)
Lemma validated_extent id bytes b : cif1_structure id = false -> validate_structure_wire id bytes b = Ok tt ->
  exists x, wire_structure_extent id bytes b = Ok x /\ x_bytes x = zlen bytes.
Proof.
  intros Hc H. unfold validate_structure_wire in H. rewrite Hc in H. apply rbind_Ok in H as (x & Hx & H).
  exists x. split; [done|]. destruct (Z.eqb_spec (x_bytes x) (zlen bytes)); [done|]. by cbn [negb] in H.
Qed.

Lemma read_known_ok bytes offset : 0 <= offset -> offset + 4 <= zlen bytes -> readable (read_known bytes offset).
Proof. intros. unfold read_known. apply readable_bind; [by apply readable_load32|]. intros raw _. destruct (raw =? _); apply readable_ok. Qed.

Lemma read_fix_ok bytes : 16 <= zlen bytes -> readable (read_fix bytes).
Proof. intros. unfold read_fix. read_steps. Qed.

Lemma wire_duration_ok bytes b : validate_structure_wire Field.Age bytes b = Ok tt -> readable (wire_duration bytes b).
Proof.
  intros H. unfold wire_duration. rewrite H. cbn [rbind]. apply validated_extent in H as (x & Hx & Hb); [|done].
  unfold wire_structure_extent in Hx. change (cif1_structure Field.Age) with false in Hx. change (temporal_duration_field Field.Age) with true in Hx.
  cbv iota in Hx. unfold duration_extent in Hx. inv_ok. cbn [extent2 x_bytes] in Hb.
  destruct (nonzero (b_tsi b)), (nonzero (b_tsf b)); cbn in Hb; read_steps; inv_ok; read_steps.
Qed.

Lemma wire_uuid_ok bytes : validate_structure_wire Field.ControlleeUUID bytes binding_default = Ok tt -> readable (wire_uuid bytes).
Proof.
  intros H. unfold wire_uuid. rewrite H. cbn [rbind]. apply validated_extent in H as (x & Hx & Hb); [|done].
  cbn in Hx. destruct (Z.ltb_spec (zlen bytes) 16); [done|]. injection Hx as <-.
  apply read_array_ok. intros i Hi. apply readable_load32; lia.
Qed.

Lemma wire_geolocation_ok bytes : validate_structure_wire Field.FormattedGPS bytes binding_default = Ok tt -> readable (wire_geolocation bytes).
Proof.
  intros H. unfold wire_geolocation. rewrite H. cbn [rbind]. apply validated_extent in H as (x & Hx & Hb); [|done].
  cbn in Hx. destruct (Z.ltb_spec (zlen bytes) 44); [done|]. injection Hx as <-.
  repeat (apply readable_bind; [first [apply readable_load32; lia|apply read_fix_ok; lia|apply read_known_ok; lia]|intros ? _]). apply readable_ok.
Qed.

Lemma wire_ephemeris_ok bytes : validate_structure_wire Field.ECEFEphemeris bytes binding_default = Ok tt -> readable (wire_ephemeris bytes).
Proof.
  intros H. unfold wire_ephemeris. rewrite H. cbn [rbind]. apply validated_extent in H as (x & Hx & Hb); [|done].
  cbn in Hx. destruct (Z.ltb_spec (zlen bytes) 52); [done|]. injection Hx as <-.
  repeat (apply readable_bind; [first [apply readable_load32; lia|apply read_fix_ok; lia|
    apply read_array_ok; intros i Hi; apply read_known_ok; lia]|intros ? _]). apply readable_ok.
Qed.

Lemma trim_zeros_ok bytes count : (8 + count <= length bytes)%nat -> exists n, trim_zeros bytes count = Ok n /\ (n <= count)%nat.
Proof.
  induction count as [|n IH]; intros Hc; cbn [trim_zeros]; [by exists O|].
  destruct (readable_byte bytes (8 + n)) as [b Eb]; [lia|]. rewrite Eb. cbn [rbind]. destruct (_ =? 0).
  - destruct IH as (m & -> & ?); [lia|]. exists m. split; [done|lia].
  - by exists (S n).
Qed.

Lemma wire_ascii_ok bytes : validate_structure_wire Field.GPSASCII bytes binding_default = Ok tt -> readable (wire_ascii bytes).
Proof.
  intros H. unfold wire_ascii. rewrite H. cbn [rbind]. apply validated_extent in H as (x & Hx & Hb); [|done].
  cbn -[load32] in Hx. destruct (Z.ltb_spec (zlen bytes) 8); [done|].
  destruct (trim_zeros_ok bytes (Z.to_nat (zlen bytes - 8))) as (n & -> & Hn); [unfold zlen in *; lia|]. cbn [rbind].
  apply readable_bind; [apply readable_load32; lia|]. intros first _.
  apply readable_bind; [apply subspan_readable; lia|]. intros. apply readable_ok.
Qed.

Lemma integer_at_ok object l index : 0 <= index < integer_size l -> readable (integer_at object l index).
Proof.
  intros Hi. unfold integer_at. rewrite (proj2 (Z.leb_gt _ _)) by lia. unfold integer_size in Hi.
  assert (index * 4 + 4 <= zlen (il_bytes l)) by zlia.
  destruct (il_wire l); [apply read_bytes_ok; lia|]. unfold copy_u32. apply readable_bind; [apply subspan_readable; lia|]. intros. apply readable_ok.
Qed.

Lemma split_lists_ok bytes counts : forall offset, 0 <= offset -> Forall (fun c => 0 <= c) counts ->
  offset + 4 * fold_right Z.add 0 counts <= zlen bytes -> readable (split_lists bytes counts offset).
Proof.
  induction counts as [|c counts IH]; intros offset Ho Hc Hb; cbn [split_lists fold_right] in *; [apply readable_ok|].
  apply list.Forall_cons in Hc as [Hc0 Hc]. assert (0 <= fold_right Z.add 0 counts).
  { clear -Hc. induction Hc; cbn; lia. }
  apply readable_bind; [apply subspan_readable; lia|]. intros part _.
  apply readable_bind; [apply IH; (done || lia)|]. intros. apply readable_ok.
Qed.

Lemma wire_associations_ok bytes : validate_structure_wire Field.ContextAssociationLists bytes binding_default = Ok tt -> readable (wire_associations bytes).
Proof.
  intros H. unfold wire_associations. rewrite H. cbn [rbind]. apply validated_extent in H as (x & Hx & Hb); [|done].
  cbn -[load32 Z.add Z.mul Z.land Z.shiftr] in Hx. destruct (Z.ltb_spec (zlen bytes) 8); [done|].
  destruct (load32_ok bytes 0) as (a & Ea & Ha); [lia..|]. destruct (load32_ok bytes 4) as (b & Eb & Hbu); [lia..|].
  rewrite Ea, Eb in Hx |- *. cbn [rbind] in Hx |- *. destruct (nonzero (Z.land a _)); [done|]. cbn [rbind] in Hx.
  match type of Hx with (if ?c then _ else _) = _ => destruct c; [done|] end. injection Hx as <-. cbn [extent2 x_bytes] in Hb.
  apply readable_bind; [|intros; apply readable_ok].
  assert (Hl : forall w m, 0 <= m -> 0 <= Z.land w m) by (intros; apply Z.land_nonneg; by right).
  assert (0 <= Z.shiftr b 16) by (apply Z.shiftr_nonneg; zlia).
  apply split_lists_ok; [lia| |].
  - repeat constructor; try (apply Hl; lia); try done. destruct (nonzero _); [apply Hl; lia|lia].
  - cbn [fold_right]. lia.
Qed.

(** ** Index lists *)

Lemma view_indices_ok v object : is_base v = true -> fv_id v = Field.IndexList ->
  validate_cif1_wire (fv_id v) (fv_bytes v) (fv_binding v) = Ok tt ->
  exists l, view_indices v = Ok l /\ forall i, 0 <= i < ix_count l -> readable (index_at object l i).
Proof.
  intros Hb Hid H. unfold view_indices, structured_reader. rewrite Hb, Hid in *. cbn [negb orb].
  rewrite (proj2 (fid_eqb_eq _ _) eq_refl), H. cbn [negb rbind]. set (bytes := fv_bytes v) in *.
  unfold validate_cif1_wire in H. apply rbind_Ok in H as (x & Hx & H). cbn -[zlen load32] in Hx.
  destruct (Z.ltb_spec (zlen bytes) 8); [done|]. apply rbind_Ok in Hx as (total & Ht & Hx). apply rbind_Ok in Hx as (header & Hh & Hx).
  apply rbind_Ok in Hx as (declared & Hd & Hx). unfold checked_multiply in Hd. inv_ok. cbn [x_bytes] in *.
  apply negb_false_iff, Z.eqb_eq in E. apply orb_false_iff in E1 as [[_ Hw]%orb_false_iff Htot]. apply negb_false_iff, Z.eqb_eq in Htot.
  set (width := Z.shiftr header 28) in *. set (count := Z.land header 0xfffff) in *.
  assert (Hwidth : width = 1 \/ width = 2 \/ width = 4).
  { rewrite !andb_false_iff, !negb_false_iff, !Z.eqb_eq in Hw. tauto. }
  assert (0 <= count) by (apply Z.land_nonneg; right; lia).
  rewrite Hh. cbn [rbind]. unfold subspan_from. rewrite (proj2 (Z.ltb_ge (zlen bytes) 8)) by lia. change (8 <? 0) with false. cbn [orb rbind].
  assert (Hrest : zlen (drop (Z.to_nat 8) bytes) = zlen bytes - 8) by (unfold zlen in *; rewrite length_drop; lia).
  eexists. split; [reflexivity|]. intros i Hi. unfold index_at. cbn [ix_entry_bytes ix_count ix_bytes ix_wire] in *. fold count in Hi. fold width count.
  assert (wrap8 width = width) as -> by zlia. rewrite Hw. rewrite (proj2 (Z.leb_gt count i)) by lia. cbn [orb]. cbv zeta.
  rewrite Hrest. assert (count * width <= zlen bytes - 8) by zlia.
  assert (Hcw : i * width + width <= count * width) by nia. assert (0 <= i * width) by nia.
  assert (i <= SIZE_MAX / width).
  { pose proof (load32_u32 _ _ _ Hh). assert (count <= 0xfffff).
    { unfold count. change 0xfffff with (Z.ones 20). rewrite Z.land_ones by lia. pose proof (Z.mod_pos_bound header (2 ^ 20)). change (Z.ones 20) with 1048575. change (2 ^ 20) with 1048576 in *. lia. }
    destruct Hwidth as [->|[->| ->]]; unfold SIZE_MAX in *; zlia. }
  rewrite (proj2 (Z.ltb_ge (SIZE_MAX / width) i)), (proj2 (Z.ltb_ge _ (i * width))), (proj2 (Z.ltb_ge _ width)) by lia. cbn [orb].
  apply read_bytes_ok; lia.
Qed.

(** Any index at all is safe in an index list that was read. *)
Lemma index_beyond object l i : ix_count l <= i -> safe (index_at object l i).
Proof. intros Hi. unfold index_at. rewrite (proj2 (Z.leb_le _ _)) by done. by rewrite orb_true_r. Qed.
Lemma integer_beyond object l i : integer_size l <= i -> safe (integer_at object l i).
Proof. intros Hi. unfold integer_at. by rewrite (proj2 (Z.leb_le _ _)). Qed.

(** ** Sectors *)

(** A reader takes [n] bytes if they are there. *)
Definition advances {A} (bytes : list byte) (n : Z) (read : Z -> Result (A * Z)) : Prop :=
  forall offset, 0 <= offset -> offset + n <= zlen bytes -> exists a, read offset = Ok (a, offset + n).

Lemma next_word_advances bytes : advances bytes 4 (next_word bytes).
Proof. intros o H1 H2. unfold next_word. destruct (readable_load32 bytes o) as [w ->]; [lia..|]. by exists w. Qed.
Lemma next_signed64_advances bytes : advances bytes 8 (next_signed64 bytes).
Proof.
  intros o H1 H2. unfold next_signed64, read_signed64. destruct (readable_load32 bytes o) as [w ->]; [lia..|].
  destruct (readable_load32 bytes (o + 4)) as [w' ->]; [lia..|]. by eexists.
Qed.
Lemma next_pair_advances bytes : advances bytes 4 (next_pair bytes).
Proof. intros o H1 H2. unfold next_pair. destruct (next_word_advances bytes o) as [w ->]; [lia..|]. by eexists. Qed.

Definition start_bytes (binding : TimestampFormatBinding) : Z :=
  (if nonzero (b_tsi binding) then 4 else 0) + (if nonzero (b_tsf binding) then 8 else 0).
Lemma next_start_advances bytes b : advances bytes (start_bytes b) (next_start b bytes).
Proof.
  intros o H1 H2. unfold next_start, start_bytes in *. destruct (nonzero (b_tsi b)), (nonzero (b_tsf b));
    cbn [rbind]; repeat match goal with |- context [next_word bytes ?p] => destruct (next_word_advances bytes p) as [? ->]; [lia..|]; cbn [rbind] end;
    cbn [rbind]; eexists; (apply f_equal, f_equal2; [reflexivity|lia]).
Qed.

Lemma optional_advances {A} bytes n (present : bool) (read : Z -> Result (A * Z)) : advances bytes n read ->
  advances bytes (if present then n else 0) (optional present read).
Proof.
  intros Hr o H1 H2. unfold optional. destruct present; [destruct (Hr o H1 H2) as [a ->]; by eexists|].
  exists (@None A). by rewrite Z.add_0_r.
Qed.

(** The bytes of a record: those of the members that the selectors announce. *)
Definition sector_bytes (mask : Z) (b : TimestampFormatBinding) : Z :=
  let n k size := if bit_set mask k then size else 0 in
  12 + n 29 8 + n 28 8 + n 27 8 + n 26 4 + n 25 4 + n 24 4 + n 23 8 + n 22 (start_bytes b) + n 21 8 + n 20 8.

(** One member of the loop: its words are added when its selector is set. *)
Lemma sector_words_step mask b m ws i words w : sector_words mask b (m :: ws) i words = Ok w ->
  exists words', sector_words mask b ws (i + 1) words' = Ok w /\
    words' * 4 = words * 4 + if bit_set mask (29 - i) then (if i =? 7 then start_bytes b else m * 4) else 0.
Proof.
  cbn [sector_words]. unfold start_bytes. intros H. destruct (bit_set mask (29 - i)); [|exists words; split; [done|lia]].
  destruct (i =? 7); [|exists (words + m); split; [done|lia]]. inv_ok. eexists. split; [eassumption|].
  destruct (nonzero (b_tsi b)), (nonzero (b_tsf b)); lia.
Qed.

Lemma sector_words_bytes mask b w : sector_words mask b sector_widths 0 3 = Ok w -> w * 4 = sector_bytes mask b.
Proof.
  unfold sector_widths, sector_bytes. cbv zeta. intros H. do 10 (apply sector_words_step in H as (? & H & ?)).
  injection H as <-. generalize dependent (start_bytes b). generalize dependent (bit_set mask). intros set start **.
  repeat match goal with H : context [set (29 - ?i)] |- _ =>
    let k := eval vm_compute in (29 - i) in let c := eval vm_compute in (i =? 7) in change (29 - i) with k in H; change (i =? 7) with c in H
  end. change (2 * 4) with 8 in *. change (1 * 4) with 4 in *. cbv iota in *. lia.
Qed.

(** Reading one more member. *)
Local Ltac member H := edestruct H as [? ->]; [lia..|]; cbn [rbind].

Lemma read_sector_ok bytes b mask offset : 0 <= offset -> offset + sector_bytes mask b <= zlen bytes -> readable (read_sector bytes b mask offset).
Proof.
  intros Ho Hb. unfold read_sector, sector_bytes in *. cbv zeta in Hb.
  assert (Hn : forall (c : bool) n, 0 <= n -> 0 <= if c then n else 0) by (intros []; lia).
  assert (0 <= start_bytes b) by (unfold start_bytes; destruct (nonzero (b_tsi b)), (nonzero (b_tsf b)); lia).
  pose proof (Hn (bit_set mask 29) 8 ltac:(lia)). pose proof (Hn (bit_set mask 28) 8 ltac:(lia)). pose proof (Hn (bit_set mask 27) 8 ltac:(lia)).
  pose proof (Hn (bit_set mask 26) 4 ltac:(lia)). pose proof (Hn (bit_set mask 25) 4 ltac:(lia)). pose proof (Hn (bit_set mask 24) 4 ltac:(lia)).
  pose proof (Hn (bit_set mask 23) 8 ltac:(lia)). pose proof (Hn (bit_set mask 22) (start_bytes b) ltac:(lia)).
  pose proof (Hn (bit_set mask 21) 8 ltac:(lia)). pose proof (Hn (bit_set mask 20) 8 ltac:(lia)).
  destruct (next_word_advances bytes offset) as [? ->]; [lia..|]. cbn [rbind].
  destruct (next_signed64_advances bytes (offset + 4)) as [? ->]; [lia..|]. cbn [rbind].
  member (optional_advances bytes 8 (bit_set mask 29) _ (next_signed64_advances bytes)).
  member (optional_advances bytes 8 (bit_set mask 28) _ (next_signed64_advances bytes)).
  member (optional_advances bytes 8 (bit_set mask 27) _ (next_signed64_advances bytes)).
  member (optional_advances bytes 4 (bit_set mask 26) _ (next_word_advances bytes)).
  member (optional_advances bytes 4 (bit_set mask 25) _ (next_pair_advances bytes)).
  member (optional_advances bytes 4 (bit_set mask 24) _ (next_pair_advances bytes)).
  member (optional_advances bytes 8 (bit_set mask 23) _ (next_signed64_advances bytes)).
  member (optional_advances bytes (start_bytes b) (bit_set mask 22) _ (next_start_advances bytes b)).
  member (optional_advances bytes 8 (bit_set mask 21) _ (next_signed64_advances bytes)).
  member (optional_advances bytes 8 (bit_set mask 20) _ (next_signed64_advances bytes)).
  apply readable_ok.
Qed.

Lemma wire_record_sectors bytes b s : wire_record_shape Field.SectorStepScan bytes b = Ok s ->
  exists mask, load32 bytes 8 = Ok mask /\ header_words s = 3 /\ record_words s * 4 = sector_bytes mask b.
Proof.
  unfold wire_record_shape. cbv zeta. change (fid_eqb Field.SectorStepScan Field.PointingVectorStructure) with false.
  change (fid_eqb Field.SectorStepScan Field.SectorStepScan) with true. cbv iota. intros H. inv_ok.
  match goal with H : load32 bytes 8 = Ok ?m |- _ => exists m; split; [done|] end.
  match goal with H : sector_shape _ _ _ = Ok _ |- _ => unfold sector_shape in H end. inv_ok. cbn [header_words record_words].
  split; [done|]. by apply sector_words_bytes.
Qed.

(** A record of a scan whose size is known lies inside its bytes. *)
Lemma sector_at_ok s n i : sector_size s = Ok n -> 0 <= i < n -> readable (sector_at s i).
Proof.
  unfold sector_size, sector_at. intros H Hi. apply rbind_Ok in H as (shape & Hs & H). rewrite Hs. cbn [rbind].
  destruct (negb (total_words shape * 4 =? _)) eqn:E; [done|]. injection H as <-. cbn [orb]. rewrite (proj2 (Z.leb_gt _ _)) by lia.
  destruct (wire_record_sectors _ _ _ Hs) as (mask & -> & Hh & Hr). cbn [rbind].
  destruct (wire_record_shape_ok _ _ _ _ Hs) as ([] & ? & ? & ? & _). apply negb_false_iff, Z.eqb_eq in E.
  apply read_sector_ok; [nia|]. rewrite <- Hr. nia.
Qed.

Lemma sector_selectors_ok s n : sector_size s = Ok n -> readable (sector_selectors s).
Proof.
  intros H. unfold sector_selectors. rewrite H. cbn [rbind]. unfold sector_size in H. apply rbind_Ok in H as (shape & Hs & _).
  destruct (wire_record_shape_ok _ _ _ _ Hs) as (_ & _ & ? & _). apply readable_load32; lia.
Qed.

Lemma sector_size_safe s : safe (sector_size s).
Proof. unfold sector_size. apply rbind_safe; [apply wire_record_shape_safe|]. intros shape _. by test_goal E. Qed.

(** The three readers of a scan, whatever its bytes. *)
Lemma sectors_safe s i : 0 <= i -> safe (sector_size s) /\ safe (sector_selectors s) /\ safe (sector_at s i).
Proof.
  intros Hi. pose proof (sector_size_safe s) as Hs. split_and!; [done| |].
  - destruct (sector_size s) as [n|e|] eqn:E; [by eapply readable_safe, sector_selectors_ok| |done]. unfold sector_selectors. by rewrite E.
  - destruct (sector_size s) as [n|e|] eqn:E; [| |done].
    + destruct (Z.ltb_spec i n); [apply readable_safe; by eapply sector_at_ok|]. unfold sector_size, sector_at in *.
      apply rbind_Ok in E as (shape & -> & E). cbn [rbind]. destruct (negb _); [done|]. injection E as <-. by rewrite (proj2 (Z.leb_le _ _)).
    + unfold sector_size, sector_at in *. destruct (wire_record_shape _ _ _) as [shape|e'|]; cbn [rbind] in *; [|done|done].
      by destruct (negb _).
Qed.

(** ** Pointing vectors *)

Lemma wire_record_pointing bytes b b' : wire_record_shape Field.PointingVectorStructure bytes b = wire_record_shape Field.PointingVectorStructure bytes b'.
Proof. reflexivity. Qed.

Lemma pointing_all_at bytes n : forall i, pointing_all bytes i n = Ok tt -> forall j, i <= j < i + Z.of_nat n -> readable (pointing_at bytes j).
Proof.
  induction n as [|n IH]; intros i H j Hj; cbn [pointing_all] in H; [lia|]. apply rbind_Ok in H as (r & Hr & H).
  destruct (Z.eq_dec j i) as [->|]; [by exists r|]. eapply IH; [exact H|lia].
Qed.

Lemma pointing_readable bytes b : validate_cif1_wire Field.PointingVectorStructure bytes b = Ok tt ->
  exists n, pointing_size bytes = Ok n /\ readable (pointing_global bytes) /\ forall i, 0 <= i < n -> readable (pointing_at bytes i).
Proof.
  intros H. unfold validate_cif1_wire in H. apply rbind_Ok in H as (x & Hx & H). unfold cif1_wire_extent in Hx.
  change (fid_eqb Field.PointingVectorStructure Field.Spectrum) with false in *. change (fid_eqb Field.PointingVectorStructure Field.IndexList) with false in *.
  change (fid_eqb Field.PointingVectorStructure Field.PointingVectorStructure) with true in *. cbv iota in *.
  apply rbind_Ok in Hx as (shape & Hs & Hx). injection Hx as <-. cbn [x_bytes x_records] in H. destruct (negb _) eqn:E; [done|].
  apply rbind_Ok in H as (g & Hg & H). exists (records shape). unfold pointing_size at 1. rewrite <- (wire_record_pointing bytes b), Hs. cbn [rbind].
  rewrite E. split_and!; [done|by exists g|]. intros i Hi. eapply pointing_all_at; [exact H|lia].
Qed.

Lemma spectrum_readable bytes b : validate_cif1_wire Field.Spectrum bytes b = Ok tt -> readable (read_spectrum bytes).
Proof.
  intros H. unfold validate_cif1_wire in H. apply rbind_Ok in H as (x & _ & H). destruct (negb _); [done|].
  change (fid_eqb Field.Spectrum Field.IndexList) with false in *. change (fid_eqb Field.Spectrum Field.PointingVectorStructure) with false in *.
  change (fid_eqb Field.Spectrum Field.Spectrum) with true in *. cbv iota in *. apply rbind_Ok in H as (v & Hv & _). by exists v.
Qed.

Lemma sectors_readable bytes b : validate_cif1_wire Field.SectorStepScan bytes b = Ok tt -> readable (sector_size (mkSectorView bytes b)).
Proof.
  intros H. unfold validate_cif1_wire in H. apply rbind_Ok in H as (x & Hx & H). unfold cif1_wire_extent in Hx.
  change (fid_eqb Field.SectorStepScan Field.Spectrum) with false in *. change (fid_eqb Field.SectorStepScan Field.IndexList) with false in *. cbv iota in *.
  apply rbind_Ok in Hx as (shape & Hs & Hx). injection Hx as <-. cbn [x_bytes] in H. destruct (negb _) eqn:E; [done|].
  unfold sector_size. cbn [sv_bytes sv_start_format]. rewrite Hs. cbn [rbind]. rewrite E. apply readable_ok.
Qed.

(** ** Every reader is safe on every view *)

Lemma after_validation {A} (valid : Result unit) (k : unit -> Result A) :
  safe valid -> (valid = Ok tt -> readable (rbind valid k)) -> safe (rbind valid k).
Proof. destruct valid as [[]|e|]; intros H1 H2; [|done|done]. by apply readable_safe, H2. Qed.

Lemma wire_duration_safe bytes b : safe (wire_duration bytes b).
Proof. apply after_validation; [apply validate_structure_wire_safe|]. apply wire_duration_ok. Qed.
Lemma wire_uuid_safe bytes : safe (wire_uuid bytes).
Proof. apply after_validation; [apply validate_structure_wire_safe|]. apply wire_uuid_ok. Qed.
Lemma wire_geolocation_safe bytes : safe (wire_geolocation bytes).
Proof. apply after_validation; [apply validate_structure_wire_safe|]. apply wire_geolocation_ok. Qed.
Lemma wire_ephemeris_safe bytes : safe (wire_ephemeris bytes).
Proof. apply after_validation; [apply validate_structure_wire_safe|]. apply wire_ephemeris_ok. Qed.
Lemma wire_ascii_safe bytes : safe (wire_ascii bytes).
Proof. apply after_validation; [apply validate_structure_wire_safe|]. apply wire_ascii_ok. Qed.
Lemma wire_associations_safe bytes : safe (wire_associations bytes).
Proof. apply after_validation; [apply validate_structure_wire_safe|]. apply wire_associations_ok. Qed.
#[export] Hint Resolve wire_duration_safe wire_uuid_safe wire_geolocation_safe wire_ephemeris_safe wire_ascii_safe wire_associations_safe read_spectrum_safe : vrt.

Lemma structured_reader_safe {A} v applies (read : Result A) : safe read -> safe (structured_reader v applies read).
Proof. intros H. unfold structured_reader. by test_goal E. Qed.

(** A structured reader that returned was asked for a view of its kind. *)
Lemma structured_reader_Ok {A} v applies (read : Result A) a :
  structured_reader v applies read = Ok a -> is_base v = true /\ applies = true /\ read = Ok a.
Proof. unfold structured_reader. by destruct (is_base v), applies. Qed.

Lemma integer_at_safe object l i : 0 <= i -> safe (integer_at object l i).
Proof. intros Hi. destruct (Z.ltb_spec i (integer_size l)); [by apply readable_safe, integer_at_ok|by apply integer_beyond]. Qed.

Lemma view_indices_safe v : safe (view_indices v).
Proof.
  destruct (is_base v) eqn:Eb, (fid_eqb (fv_id v) Field.IndexList) eqn:Ei;
    [|unfold view_indices, structured_reader; by rewrite Eb, ?Ei..]. apply fid_eqb_eq in Ei.
  destruct (validate_cif1_wire (fv_id v) (fv_bytes v) (fv_binding v)) as [[]|e|] eqn:E.
  - destruct (view_indices_ok v (fun _ => 0) Eb Ei E) as (l & -> & _). done.
  - apply structured_reader_safe. by rewrite E.
  - pose proof (validate_cif1_wire_safe (fv_id v) (fv_bytes v) (fv_binding v)) as Hs. by rewrite E in Hs.
Qed.

Lemma index_at_safe object v l i : view_indices v = Ok l -> 0 <= i -> safe (index_at object l i).
Proof.
  intros H Hi. destruct (Z.ltb_spec i (ix_count l)); [|by apply index_beyond].
  pose proof (structured_reader_Ok _ _ _ _ H) as (Hb & Hid%fid_eqb_eq & Hr). apply rbind_Ok in Hr as ([] & Hv & _).
  destruct (view_indices_ok v object Hb Hid Hv) as (l' & Hl & Hat). rewrite H in Hl. injection Hl as <-. by apply readable_safe, Hat.
Qed.

(** What it means to read a view without harm: every accessor is defined on it, also one
    that does not fit its field, and so is every accessor of the views that these return,
    at any index. *)
Record reads_safely (object : list byte -> Z) (v : FieldView) : Prop := mk_reads_safely {
  rs_value : safe (view_value v);
  rs_diagnostic : safe (view_diagnostic v);
  rs_duration : safe (view_duration v);
  rs_uuid : safe (view_uuid v);
  rs_geolocation : safe (view_geolocation v);
  rs_ephemeris : safe (view_ephemeris v);
  rs_gps_ascii : safe (view_gps_ascii v);
  rs_spectrum : safe (view_spectrum v);
  rs_indices : safe (view_indices v) /\ forall l i, view_indices v = Ok l -> 0 <= i -> safe (index_at object l i);
  rs_pointing : safe (view_pointing_vectors v) /\ forall p i, view_pointing_vectors v = Ok p -> 0 <= i -> safe (pointing_size p) /\ safe (pointing_global p) /\ safe (pointing_at p i);
  rs_sectors : safe (view_sectors v) /\ forall s i, view_sectors v = Ok s -> 0 <= i -> safe (sector_size s) /\ safe (sector_selectors s) /\ safe (sector_at s i);
  rs_associations : safe (view_associations v) /\ forall a l i, view_associations v = Ok a -> l ∈ as_lists a -> 0 <= i -> safe (integer_at object l i) }.

Lemma view_reads_safely object v : view_ok v -> reads_safely object v.
Proof.
  intros H. destruct (view_accessors_safe v H) as [Hv Hd].
  split; [done|done|apply structured_reader_safe; auto with vrt..| | | |].
  - split; [apply view_indices_safe|]. by apply index_at_safe.
  - split; [|intros; split_and!; [apply pointing_size_safe|apply pointing_global_safe|by apply pointing_at_safe]].
    apply structured_reader_safe, rbind_safe; [apply validate_cif1_wire_safe|done].
  - split; [|intros; by apply sectors_safe]. apply structured_reader_safe, rbind_safe; [apply validate_cif1_wire_safe|done].
  - split; [apply structured_reader_safe; auto with vrt|]. intros. by apply integer_at_safe.
Qed.

(** ** The reader of the field of a view *)

(** Reading the structured field of a view: the accessor of its field returns, and so do
    the accessors of what it returns, at every index they have. *)
Definition reads_structure (object : list byte -> Z) (v : FieldView) : Prop :=
  let is_ f := fid_eqb (fv_id v) f in
  if temporal_duration_field (fv_id v) then readable (view_duration v)
  else if is_ Field.ControlleeUUID || is_ Field.ControllerUUID then readable (view_uuid v)
  else if is_ Field.FormattedGPS || is_ Field.FormattedINS then readable (view_geolocation v)
  else if is_ Field.ECEFEphemeris || is_ Field.RelativeEphemeris then readable (view_ephemeris v)
  else if is_ Field.GPSASCII then readable (view_gps_ascii v)
  else if is_ Field.Spectrum then readable (view_spectrum v)
  else if is_ Field.IndexList then
    exists l, view_indices v = Ok l /\ forall i, 0 <= i < ix_count l -> readable (index_at object l i)
  else if is_ Field.PointingVectorStructure then
    exists p n, view_pointing_vectors v = Ok p /\ pointing_size p = Ok n /\ readable (pointing_global p) /\ forall i, 0 <= i < n -> readable (pointing_at p i)
  else if is_ Field.SectorStepScan then
    exists s n, view_sectors v = Ok s /\ sector_size s = Ok n /\ readable (sector_selectors s) /\ forall i, 0 <= i < n -> readable (sector_at s i)
  else if is_ Field.ContextAssociationLists then
    exists a, view_associations v = Ok a /\ forall l i, l ∈ as_lists a -> 0 <= i < integer_size l -> readable (integer_at object l i)
  else False.

(** The accessor of the kind, field and attribute of the view. *)
Definition reads_field (object : list byte -> Z) (v : FieldView) : Prop :=
  match fv_kind v with
  | BodyKind.selectors => True
  | BodyKind.diagnostics => readable (view_diagnostic v)
  | BodyKind.values =>
      if base_attribute (fv_attribute v) && structured_field (fv_id v) then reads_structure object v else readable (view_value v)
  end.

Lemma structured_reader_readable {A} v applies (read : Result A) :
  is_base v = true -> applies = true -> readable read -> readable (structured_reader v applies read).
Proof. intros Hb -> H. unfold structured_reader. by rewrite Hb. Qed.

(** The fields that share a layout share its validation. *)
Lemma duration_validated id bytes b : temporal_duration_field id = true ->
  validate_structure_wire id bytes b = validate_structure_wire Field.Age bytes b.
Proof.
  destruct id as [c k]. unfold temporal_duration_field. cbn [cif fbit]. rewrite andb_true_iff, orb_true_iff, !Z.eqb_eq.
  by intros [-> [->| ->]].
Qed.

(** A validated structure is one of the fields that have an accessor. *)
Lemma validated_known id bytes b : validate_structure_wire id bytes b = Ok tt ->
  cif1_structure id = true \/ temporal_duration_field id = true \/
  fid_eqb id Field.ControlleeUUID || fid_eqb id Field.ControllerUUID = true \/ fid_eqb id Field.FormattedGPS || fid_eqb id Field.FormattedINS = true \/
  fid_eqb id Field.ECEFEphemeris || fid_eqb id Field.RelativeEphemeris = true \/ fid_eqb id Field.GPSASCII = true \/
  fid_eqb id Field.ContextAssociationLists = true.
Proof.
  intros H. destruct (cif1_structure id) eqn:Hc; [by left|]. apply validated_extent in H as (x & Hx & _); [|done].
  unfold wire_structure_extent in Hx. rewrite Hc in Hx. right. apply rbind_Ok in Hx as (su & Hx & _).
  destruct (temporal_duration_field id); [by left|right]. destruct (_ || _); [by left|right]. destruct (_ || _); [by left|right].
  destruct (_ || _); [by left|right]. inv_ok. destruct (fid_eqb id Field.GPSASCII); [by left|right]. by destruct (fid_eqb id Field.ContextAssociationLists).
Qed.

Local Ltac field_is H := first [apply fid_eqb_eq in H as ->|apply orb_true_iff in H as [->%fid_eqb_eq| ->%fid_eqb_eq]]; intros Hv.

Lemma structure_readable object v : is_base v = true ->
  validate_structure_wire (fv_id v) (fv_bytes v) (fv_binding v) = Ok tt -> reads_structure object v.
Proof.
  intros Hb. unfold reads_structure. cbv zeta. destruct v as [id a K g bytes b]. cbn [fv_id fv_bytes fv_binding].
  destruct (temporal_duration_field id) eqn:Et.
  { rewrite duration_validated by done. intros H. apply structured_reader_readable; [done|done|]. by apply wire_duration_ok. }
  destruct (fid_eqb id Field.ControlleeUUID || _) eqn:E1.
  { field_is E1; (apply structured_reader_readable; [done|done|]; apply wire_uuid_ok; exact Hv). }
  destruct (fid_eqb id Field.FormattedGPS || _) eqn:E2.
  { field_is E2; (apply structured_reader_readable; [done|done|]; apply wire_geolocation_ok; exact Hv). }
  destruct (fid_eqb id Field.ECEFEphemeris || _) eqn:E3.
  { field_is E3; (apply structured_reader_readable; [done|done|]; apply wire_ephemeris_ok; exact Hv). }
  destruct (fid_eqb id Field.GPSASCII) eqn:E4.
  { field_is E4. apply structured_reader_readable; [done|done|]. apply wire_ascii_ok. exact Hv. }
  destruct (fid_eqb id Field.Spectrum) eqn:E5.
  { field_is E5. apply structured_reader_readable; [done|done|]. eapply spectrum_readable. exact Hv. }
  destruct (fid_eqb id Field.IndexList) eqn:E6.
  { field_is E6. by apply view_indices_ok. }
  destruct (fid_eqb id Field.PointingVectorStructure) eqn:E7.
  { field_is E7. destruct (pointing_readable bytes b Hv) as (n & Hn & Hg & Hat). exists bytes, n. split; [|done].
    unfold view_pointing_vectors, structured_reader. rewrite Hb. cbn [negb orb]. cbn [fv_id fv_bytes fv_binding].
    change (validate_cif1_wire Field.PointingVectorStructure bytes b = Ok tt) in Hv. by rewrite Hv. }
  destruct (fid_eqb id Field.SectorStepScan) eqn:E8.
  { field_is E8. destruct (sectors_readable bytes b Hv) as [n Hn]. exists (mkSectorView bytes b), n. split.
    - unfold view_sectors, structured_reader. rewrite Hb. cbn [negb orb]. cbn [fv_id fv_bytes fv_binding].
      change (validate_cif1_wire Field.SectorStepScan bytes b = Ok tt) in Hv. by rewrite Hv.
    - split; [done|]. split; [by eapply sector_selectors_ok|]. intros i Hi. by eapply sector_at_ok. }
  destruct (fid_eqb id Field.ContextAssociationLists) eqn:E9.
  { field_is E9. destruct (structured_reader_readable (mkView Field.ContextAssociationLists a K g bytes b) true (wire_associations bytes) Hb eq_refl) as [lists Hl];
      [apply wire_associations_ok; exact Hv|]. exists lists. split; [exact Hl|]. intros l i _ Hi. by apply integer_at_ok. }
  intros H. apply validated_known in H. unfold cif1_structure in H. rewrite Et, E1, E2, E3, E4, E5, E6, E7, E8, E9 in H. cbn [orb] in H.
  by repeat destruct H as [H|H].
Qed.

(** A scalar of the size of its field can be read. *)
Lemma scalar_value_ok v low bits : 0 <= v <= 27 -> v <> 8 -> readable (scalar_value v low bits).
Proof.
  intros Hv H8. assert (Hall : forallb (fun v => (v =? 8) || match scalar_value v low bits with Ok _ => true | _ => false end)
    [0;1;2;3;4;5;6;7;8;9;10;11;12;13;14;15;16;17;18;19;20;21;22;23;24;25;26;27] = true) by reflexivity.
  rewrite forallb_forall in Hall. assert (Hin : v ∈ [0;1;2;3;4;5;6;7;8;9;10;11;12;13;14;15;16;17;18;19;20;21;22;23;24;25;26;27]).
  { rewrite !elem_of_cons. lia. }
  apply list_elem_of_In, Hall in Hin. rewrite (proj2 (Z.eqb_neq _ _)) in Hin by done. cbn [orb] in Hin.
  destruct (scalar_value v low bits) as [w|e|]; [by exists w|done|done].
Qed.

Lemma read_scalar_ok id d bytes : descriptor id = Some d -> structured_field id = false -> zlen bytes = d_words d * 4 -> readable (read_scalar d bytes).
Proof.
  intros Hd Hs Hl. pose proof (scalar_words _ _ Hd Hs) as Hw. unfold read_scalar. rewrite Hl, Z.eqb_refl. cbn [negb].
  apply readable_bind; [apply readable_load32; lia|]. intros low _. apply readable_bind.
  { destruct (Z.eqb_spec (d_words d) 2); [|apply readable_ok]. apply readable_bind; [apply readable_load32; lia|]. intros. apply readable_ok. }
  intros bits _. assert (Hall : forallb (fun d => Bool.eqb (structured_field (d_id d)) (d_variant d =? 8) && (0 <=? d_variant d) && (d_variant d <=? 27)) descriptors = true) by (vm_compute; reflexivity).
  apply descriptor_Some in Hd as [Hin <-]. rewrite forallb_forall in Hall. apply list_elem_of_In, Hall in Hin.
  rewrite !andb_true_iff, Bool.eqb_true_iff, !Z.leb_le, Hs in Hin. destruct Hin as [[H8 ?] ?]. symmetry in H8. apply Z.eqb_neq in H8.
  apply scalar_value_ok; [lia|done].
Qed.

Lemma view_reads_field object v : view_ok v -> validated v -> reads_field object v.
Proof.
  intros Hok Hval. unfold reads_field, view_ok in *. destruct (fv_kind v) eqn:EK.
  - specialize (Hval EK). destruct Hok as (Ha & d & Hd & Hl). unfold validate_wire_attribute in Hval.
    destruct (base_attribute (fv_attribute v)) eqn:Eb; cbn [negb andb] in *.
    + destruct (structured_field (fv_id v)) eqn:Es.
      * apply structure_readable; [|done]. unfold is_base. by rewrite EK, Eb.
      * unfold view_value. rewrite EK, Hd, Eb, Es, bool_decide_eq_true_2 by done. rewrite (proj2 (Z.leb_gt _ _)) by lia. cbn [negb orb andb].
        unfold read_attribute_scalar. destruct (_ || _) eqn:Ea; [|eapply read_scalar_ok; eauto].
        unfold base_attribute in Eb. apply Z.ltb_lt in Eb. rewrite orb_true_iff, !Z.eqb_eq in Ea. unfold Attribute.probability, Attribute.belief in Ea. lia.
    + unfold view_value. rewrite EK, Hd, Eb, bool_decide_eq_true_2 by done. rewrite (proj2 (Z.leb_gt _ _)) by lia. cbn [negb orb andb].
      rewrite Hd in Hval. cbn [deref rbind] in Hval. apply rbind_Ok in Hval as (x & -> & _). apply readable_ok.
  - done.
  - unfold view_diagnostic. rewrite EK, Hok, bool_decide_eq_true_2 by done. cbn [negb orb]. apply readable_load32; [done|]. by rewrite Hok.
Qed.

(** ** Property *)

(** C2. The packet decoder is memory safe: on any bytes whatever, with any options, it
    performs no access outside the packet and no dereference of an absent value.  The views
    of a packet it accepts can be read safely in the same sense: none of the twelve accessors
    of a view, and none of the accessors of the views of lists, vectors and sectors that they
    return, at any index, reads outside the bytes of the view; and the accessor of the kind,
    field and attribute of the view succeeds, with every element that it announces.  How a
    platform represents a [uint32_t] plays no role. *)
Theorem decode_packet_safe object wire options :
  safe (decode_packet wire options) /\
  (forall pv v, decode_packet wire options = Ok pv -> v ∈ pv_fields pv -> reads_safely object v /\ reads_field object v).
Proof.
  destruct (decode_packet_ok wire options) as [Hs Hok]. split; [done|]. intros pv v Hpv Hv.
  destruct (Hok _ Hpv) as [Hall _]. rewrite list.Forall_forall in Hall. specialize (Hall v Hv).
  pose proof (decode_packet_validated _ _ _ Hpv) as Hval. rewrite list.Forall_forall in Hval.
  split; [by apply view_reads_safely|]. by apply view_reads_field, Hval.
Qed.

(** ** Witness *)

(** A context packet with association lists (one source, one system) and an index list of
    three entries of two bytes. *)
Definition sample_lists : list byte :=
  [x40; x00; x00; x0c; x00; x00; x00; x07; x00; x00; x01; x02; x00; x00; x00; x80;
   x00; x01; x00; x01; x00; x00; x00; x00; x00; x00; x00; x0a; x00; x00; x00; x0b;
   x00; x00; x00; x04; x20; x00; x00; x03; x00; x05; x00; x06; x00; x07; x00; x00].

(** Its two views. *)
Definition sample_associations : FieldView :=
  mkView Field.ContextAssociationLists Attribute.current BodyKind.values DiagnosticGroup.none
    [x00; x01; x00; x01; x00; x00; x00; x00; x00; x00; x00; x0a; x00; x00; x00; x0b] (mkBinding 0 0 true).
Definition sample_indices : FieldView :=
  mkView Field.IndexList Attribute.current BodyKind.values DiagnosticGroup.none
    [x00; x00; x00; x04; x20; x00; x00; x03; x00; x05; x00; x06; x00; x07; x00; x00] (mkBinding 0 0 true).

Lemma decode_packet_safe_witness : exists pv,
  decode_packet sample_lists options_default = Ok pv /\ pv_fields pv = [sample_associations; sample_indices] /\
  reads_field (fun _ => 0) sample_associations /\ reads_field (fun _ => 0) sample_indices /\ safe (view_geolocation sample_indices) /\
  (let? a := view_associations sample_associations in Ok ((fun l => (integer_size l, integer_at (fun _ => 0) l 0)) <$> as_lists a)) =
    (let none := Err (error1 ErrorCode.invalid_argument) in Ok [(1, Ok 10); (1, Ok 11); (0, none); (0, none); (0, none)]) /\
  (let? l := view_indices sample_indices in Ok (index_at (fun _ => 0) l <$> [0; 1; 2; 3])) =
    Ok [Ok 5; Ok 6; Ok 7; Err (error1 ErrorCode.invalid_argument)].
Proof.
  destruct (decode_packet_safe (fun _ => 0) sample_lists options_default) as [_ H].
  destruct (decode_packet sample_lists options_default) as [pv|e|] eqn:E; [|vm_compute in E; discriminate E..].
  assert (Ef : pv_fields pv = [sample_associations; sample_indices]) by (vm_compute in E; injection E as <-; reflexivity). clear E.
  destruct (H pv sample_associations eq_refl) as [_ Hf1]; [rewrite Ef; apply elem_of_cons; by left|].
  destruct (H pv sample_indices eq_refl) as [Hs2 Hf2]; [rewrite Ef; apply elem_of_cons; right; apply elem_of_cons; by left|].
  exists pv. split; [reflexivity|]. split; [exact Ef|]. split; [exact Hf1|]. split; [exact Hf2|]. split; [exact (rs_geolocation _ _ Hs2)|].
  split; vm_compute; reflexivity.
Defined.
