(* ===== verification/PacketRoundtrip.v ===== *)
(** * Packets survive the wire

    The encoder is defined on every snapshot a builder can reach, writes nothing when it
    refuses, and what it writes decodes to the snapshot it was given. *)

From stdpp Require Import sorting.
From S2P Require Import Prelude Wire WireProofs Fields Scalar Structured Packet Builder BuilderProofs Encoder EncoderProofs.

(** ** Writing in place *)

Section Commit.
Context (K : BodyKind.t) (N : nat).

(** The payload of a snapshot: the indicator words and the bodies of its pairs. *)
Definition payload_of (s : PacketSnapshot) (change : bool) : list byte :=
  words_bytes (header_words (l_cif (s_layout s)) change) ++ body_bytes K (snapshot_pairs s).

Lemma header_size_words s change : header_size s = 4 * zlen (header_words (l_cif (s_layout s)) change).
Proof. unfold header_size, cif0_of. rewrite (layout_words_header _ change). lia. Qed.

Lemma payload_of_size s change bytes : measured_body K s bytes -> zlen (payload_of s change) = bytes.
Proof.
  intros [_ _ -> _ _]. unfold payload_of. rewrite zlen_app, zlen_words_bytes, (header_size_words s change). lia.
Qed.

Lemma snapshot_attributes s : snapshot_ok K N s ->
  0 <= l_attributes (s_layout s) /\ nonzero (Z.land (l_attributes (s_layout s)) (Z.lnot all_attributes)) = false.
Proof. by intros []. Qed.

(** The indicator words and the values of a snapshot fill a buffer of the measured size. *)
Lemma write_payload_ok s bytes buffer change : snapshot_ok K N s -> measured_body K s bytes -> zlen buffer = bytes ->
  (let? payload := write_indicators s buffer change in assured (write_values K s payload 0 0)) = Ok (payload_of s change).
Proof.
  intros Hs Hb Hl. pose proof (payload_of_size s change bytes Hb) as Hsize. unfold payload_of in Hsize. rewrite zlen_app, zlen_words_bytes in Hsize.
  pose proof (snapshot_words _ _ _ Hs) as Hw. set (hw := header_words (l_cif (s_layout s)) change) in *.
  pose proof (zlen_nonneg (body_bytes K (snapshot_pairs s))).
  destruct (split_length buffer (4 * length hw)) as (mid & post & -> & Hm); [unfold zlen in *; lia|].
  rewrite (write_indicators_ok (s_ids s) (l_attributes (s_layout s)) (l_cif (s_layout s)) Hw s) by done. cbn [rbind]. fold hw.
  pose proof (write_values_ok K N s bytes (words_bytes hw) post [] 0 0 Hs Hb) as Hv. rewrite !app_nil_r in Hv. rewrite Hv; [done| | |].
  - rewrite zlen_words_bytes, (header_size_words s change). fold hw. lia.
  - unfold zlen in *. rewrite length_app in Hl. lia.
  - destruct Hb as [_ _ _ Hmax _]. rewrite zlen_app, zlen_words_bytes. rewrite zlen_app in Hl. unfold zlen in *. lia.
Qed.

(** What has been established when the preflight of a packet returns. *)
Record admitted (e : Envelope) (s : PacketSnapshot) (output : list byte) (change : bool) (body total : Z) : Prop := mkAdmitted {
  ad_matches : body_matches K e s change = Ok tt;
  ad_body : measured_body K s body;
  ad_checked : K = BodyKind.values -> Forall (fun f => Forall (scratch_checked (e_id f)) (held_values f)) (s_entries s);
  ad_measure : measure_envelope e body = Ok total;
  ad_room : total <= zlen output }.

Lemma encode_preflight_ok e s output change : snapshot_ok K N s ->
  returns (encode_preflight K e s output change) (fun bt => admitted e s output change bt.1 bt.2).
Proof.
  intros Hs. unfold encode_preflight. eapply returns_bind; [apply returns_safe, body_matches_safe|]. intros [] Hm _.
  rewrite (formats_ok K N s Hs). cbn [rbind]. eapply returns_bind; [apply returns_safe, (snapshot_measure_safe K N s Hs)|]. intros body Hbody _.
  pose proof (measure_ok K N s body Hs Hbody) as Hb.
  apply (returns_bind _ _ (fun _ => K = BodyKind.values -> Forall (fun f => Forall (scratch_checked (e_id f)) (held_values f)) (s_entries s))).
  { case_bool_decide as HK; [|by cbn]. rewrite HK in Hs. eapply returns_mono; [by apply (check_entries_ok N s)|]. by intros u Hu _. }
  intros _ _ Hchecked. eapply returns_bind; [apply returns_safe, measure_envelope_safe|]. intros total Ht _. apply returns_guard.
  intros Hroom%Z.ltb_ge. by split.
Qed.

Lemma body_matches_trailer e s change : body_matches K e s change = Ok tt -> env_trailer e = false.
Proof. unfold body_matches. destruct (_ || _ || env_trailer e) eqn:E; [done|]. by apply orb_false_iff in E as [_ ->]. Qed.

(** Once it is admitted, the packet is written: the packet of the payload, in front of the
    untouched rest of the output. *)
Lemma encode_packet_admitted e s output change body total : snapshot_ok K N s ->
  encode_preflight K e s output change = Ok (body, total) -> admitted e s output change body total ->
  encode_packet K e s output change = Ok (total, envelope_bytes e (payload_of s change) None ++ drop (Z.to_nat total) output).
Proof.
  intros Hs Hpre [Hmatch Hb _ Hm Hroom]. unfold encode_packet. rewrite Hpre. cbn [rbind].
  pose proof (payload_of_size s change body Hb) as Hsize. pose proof (body_matches_trailer _ _ _ Hmatch) as Ht.
  pose proof (zlen_nonneg (payload_of s change)). rewrite Hsize in *.
  pose proof (measure_measured e body total ltac:(lia) Hm) as M. pose proof (m_size _ _ _ M) as Htot. rewrite Ht in Htot. cbn [b2z] in Htot.
  pose proof (zlen_nonneg (prologue_words e)).
  destruct (split_length output (Z.to_nat (total - body))) as (A & o1 & -> & HA); [unfold zlen in Hroom; lia|].
  rewrite zlen_app in Hroom. destruct (split_length o1 (Z.to_nat body)) as (P & R & -> & HP); [unfold zlen in *; lia|].
  assert (HA' : total - body = zlen A) by (unfold zlen; lia). assert (HP' : body = zlen P) by (unfold zlen; lia).
  assert (Hsub : subspan (A ++ P ++ R) (total - body) body = Ok P) by (rewrite HA', HP'; apply subspan_app).
  rewrite Hsub. cbn [rbind]. pose proof (write_payload_ok s body P change Hs Hb (eq_sym HP')) as Hwp.
  rewrite <- rbind_assoc, Hwp. cbn [rbind]. rewrite HA', memmove_app by (unfold zlen in *; lia). cbn [rbind].
  rewrite (encode_envelope_bytes _ _ _ _ total); [|done|by rewrite Hsize|rewrite !zlen_app in *; unfold zlen in *; lia]. cbn [assured].
  do 3 f_equal. unfold zlen in *. rewrite !drop_app3 by lia. done.
Qed.
End Commit.

(** ** Decoding what was written *)

Lemma pairs_of_ids attributes entries : pairs_of attributes (e_id <$> entries) = id_pair <$> pairs_of attributes entries.
Proof.
  unfold pairs_of. induction entries as [|e entries IH]; [done|]. cbn [fmap list_fmap flat_map]. rewrite fmap_app, <- IH. f_equal.
  rewrite <- list_fmap_compose. done.
Qed.

(** The plan a decoder makes of the indicator words of a snapshot. *)
Definition snapshot_plan (s : PacketSnapshot) (change : bool) : IndicatorPlan :=
  let words := l_cif (s_layout s) in
  mkPlan (first_word words change :: (word_at words <$> word_indices)) (l_attributes (s_layout s)) (s_ids s) (header_size s) change.

(** The binding that an envelope gives to its durations. *)
Definition envelope_binding (e : Envelope) : TimestampFormatBinding :=
  mkBinding (wrap8 (tsi (timestamp e))) (wrap8 (tsf (timestamp e))) true.

Definition add_views (packet : PacketView) (views : list FieldView) : PacketView :=
  mkPacketView (pv_envelope packet) (pv_fields packet ++ views) (pv_body_kind packet) (pv_opaque packet) (pv_change packet)
    (pv_requires_request_context packet).

Section Decode.
Context (K : BodyKind.t) (N : nat).

Lemma append_fields_at s bytes packet change before after group work : snapshot_ok K N s -> measured_body K s bytes -> K <> BodyKind.selectors ->
  let env := ev_envelope (pv_envelope packet) in
  ev_payload (pv_envelope packet) = before ++ body_bytes K (snapshot_pairs s) ++ after ->
  zlen (ev_payload (pv_envelope packet)) <= U32_MAX ->
  Forall (readable_pair K (envelope_binding env) (cancel env)) (snapshot_pairs s) ->
  (length (pv_fields packet) + length (snapshot_pairs s) <= VIEW_CAPACITY)%nat -> work + zlen (snapshot_pairs s) <= 4096 ->
  append_fields K packet (snapshot_plan s change) (zlen before) group limits_default work =
  Ok (add_views packet (view_of K (envelope_binding env) group <$> snapshot_pairs s),
      zlen (body_bytes K (snapshot_pairs s)), work + zlen (snapshot_pairs s)).
Proof.
  intros Hs Hb HK env Hp Hmax Hall Hcap Hwork. unfold append_fields. cbn [snapshot_plan plan_cif plan_bytes plan_attributes plan_fields lookup list_lookup deref rbind].
  fold env. fold (envelope_binding env). unfold walk_field_layout, checked_add.
  rewrite (layout_words_change (l_cif (s_layout s))). fold (cif0_of s). fold (header_size s).
  pose proof (layout_words_range (cif0_of s)) as Hw.
  rewrite (proj2 (Z.ltb_ge (SIZE_MAX - 0) (header_size s))) by (unfold header_size, SIZE_MAX, U64_MAX; lia). cbn [rbind].
  rewrite walk_fields_pairs by (apply Forall_fmap; apply (mb_supported _ _ _ Hb)).
  unfold s_ids. rewrite pairs_of_ids. fold (snapshot_pairs s).
  set (payload := ev_payload (pv_envelope packet)) in *. set (views := view_of K (envelope_binding env) group <$> snapshot_pairs s).
  destruct (walk_pairs_run K false (fun f => f) (wire_provider payload (envelope_binding env) (zlen before) (header_size s))
    (append_visitor K payload (envelope_binding env) (cancel env) group (zlen before) (header_size s)) limits_default
    (reading K payload (envelope_binding env) (cancel env) group (zlen before) (header_size s) after (pv_fields packet ++ views))
    (id_pair <$> snapshot_pairs s) (0 + header_size s) work (pv_fields packet)) as (o' & vs & Hrun & Hend).
  - done.
  - done.
  - intros p rest o vs HP. apply reading_step; try done.
    + unfold header_size. lia.
    + apply zlen_nonneg.
    + unfold views. rewrite length_app, length_fmap. done.
  - exists (snapshot_pairs s), before. split_and!; try done; lia.
  - unfold zlen in *. rewrite length_fmap. cbn [limits_default work_units]. lia.
  - rewrite Hrun. cbn [rbind fst snd]. destruct Hend as (pairs & before' & Hnil & Hp' & Ho & Hb' & Hv & _).
    destruct pairs; [|done]. cbn [fmap list_fmap] in Hv. rewrite app_nil_r in Hv. subst vs.
    assert (o' = header_size s + zlen (body_bytes K (snapshot_pairs s))) as ->.
    { pose proof (f_equal zlen Hp) as H1. pose proof (f_equal zlen Hp') as H2. rewrite !zlen_app in H1, H2. change (zlen (body_bytes K [])) with 0 in H2. lia. }
    pose proof (zlen_nonneg (body_bytes K (snapshot_pairs s))). pose proof (f_equal zlen Hp) as H1. rewrite !zlen_app in H1.
    pose proof (zlen_nonneg before). pose proof (zlen_nonneg after).
    unfold add_views. do 2 f_equal; [f_equal|]; [unfold U32_MAX in Hmax; zlia|unfold zlen; by rewrite length_fmap].
Qed.

(** The selector walk collects a view for each pair. *)
Lemma selector_walk_at s bytes change views : K = BodyKind.selectors -> snapshot_ok K N s -> measured_body K s bytes ->
  (length views + length (snapshot_pairs s) <= VIEW_CAPACITY)%nat ->
  walk_field_layout BodyKind.selectors true (fun f => f) (fun _ _ _ => Ok extent_default) selector_visitor limits_default
    (first_word (l_cif (s_layout s)) change) (l_attributes (s_layout s)) (s_ids s) 0 0 views =
  Ok (header_size s, zlen (snapshot_pairs s), views ++ (view_of K binding_default DiagnosticGroup.none <$> snapshot_pairs s)).
Proof.
  intros HK Hs Hb Hcap. unfold walk_field_layout, checked_add. rewrite (layout_words_change (l_cif (s_layout s))). fold (cif0_of s). fold (header_size s).
  pose proof (layout_words_range (cif0_of s)) as Hw.
  rewrite (proj2 (Z.ltb_ge (SIZE_MAX - 0) (header_size s))) by (unfold header_size, SIZE_MAX, U64_MAX; lia). cbn [rbind].
  rewrite walk_fields_pairs by (apply Forall_fmap; apply (mb_supported _ _ _ Hb)). unfold s_ids. rewrite pairs_of_ids. fold (snapshot_pairs s).
  set (P := fun (rest : list (FieldId * Z)) (o : Z) (vs : list FieldView) => exists pairs, rest = id_pair <$> pairs /\ o = header_size s /\
    vs ++ (view_of K binding_default DiagnosticGroup.none <$> pairs) = views ++ (view_of K binding_default DiagnosticGroup.none <$> snapshot_pairs s)).
  destruct (walk_pairs_run BodyKind.selectors true (fun f => f) (fun _ _ _ => Ok extent_default) selector_visitor limits_default P
    (id_pair <$> snapshot_pairs s) (0 + header_size s) 0 views) as (o' & vs & Hrun & Hend).
  - done.
  - done.
  - intros p rest o vs (pairs & Hrest & -> & Hv). destruct pairs as [|q pairs]; [done|]. injection Hrest as -> ->.
    exists 0, (vs ++ [view_of K binding_default DiagnosticGroup.none q]). split; [done|]. split; [done|].
    split; [unfold header_size, SIZE_MAX, U64_MAX; lia|]. split; [done|]. split.
    + cbn [negb bool_decide orb]. unfold selector_visitor, push_view. cbn [el_field el_attribute id_pair fst snd].
      assert (length vs <> VIEW_CAPACITY) as Hne.
      { apply (f_equal length) in Hv. rewrite !length_app, !length_fmap in Hv. cbn [length] in Hv. lia. }
      rewrite orb_true_r. rewrite (proj2 (Nat.eqb_neq _ _) Hne). unfold view_of, element_bytes. by rewrite HK.
    + exists pairs. split_and!; [done|lia|]. rewrite <- Hv. by rewrite <- app_assoc.
  - by exists (snapshot_pairs s).
  - unfold zlen. rewrite length_fmap. pose proof (mb_work _ _ _ Hb) as Hwork. unfold zlen in Hwork. cbn [limits_default work_units]. lia.
  - rewrite Hrun. cbn [rbind fst snd]. destruct Hend as (pairs & Hnil & -> & Hv). destruct pairs; [|done].
    cbn [fmap list_fmap] in Hv. rewrite app_nil_r in Hv. rewrite Hv. unfold zlen. rewrite length_fmap. by rewrite Z.sub_0_r.
Qed.
End Decode.

Section Roundtrip.
Context (K : BodyKind.t) (N : nat).

(** What the encoder has checked is what the decoder checks. *)
Lemma admitted_readable e s output change body total binding : K <> BodyKind.diagnostics -> snapshot_ok K N s ->
  admitted K e s output change body total -> Forall (readable_pair K binding (cancel e)) (snapshot_pairs s).
Proof.
  intros HK Hs [_ Hb Hchecked _ _]. pose proof (mb_writable _ _ _ Hb) as Hwr. rewrite list.Forall_forall in Hwr.
  apply list.Forall_forall. intros p Hp. pose proof (Hwr p Hp) as Hw. split; [done|].
  assert (Hv : K = BodyKind.values -> validate_wire_attribute (e_id p.1) p.2 (element_bytes K p) binding = Ok tt).
  { intros HKv. pose proof Hw as [Ha Hex]. destruct (Hex HKv) as (v & d & Hval & Hd & Hx & Hvalid & Hst).
    apply pairs_of_elem in Hp as [Hf _]. specialize (Hchecked HKv). rewrite list.Forall_forall in Hchecked. specialize (Hchecked _ Hf).
    rewrite list.Forall_forall in Hchecked. destruct (Hchecked _ (held_values_elem _ _ _ Ha Hval) Hst) as (d' & Hd' & Hok).
    cbn [fst snd] in Hok. rewrite Hd in Hd'. injection Hd' as <-. unfold element_bytes. rewrite HKv, Hval, Hd.
    by rewrite (validate_wire_binding _ _ _ binding binding_default Hst). }
  clear -Hv HK. unfold element_bytes in *. destruct K; [by apply Hv|done|done].
Qed.

Lemma descriptors_known s bytes : measured_body K s bytes -> Forall (fun id => is_some (descriptor id) = true) (s_ids s).
Proof.
  intros Hb. apply Forall_fmap. eapply list.Forall_impl; [apply (mb_supported _ _ _ Hb)|]. intros f (d & Hd & _). unfold compose. by rewrite Hd.
Qed.

Lemma snapshot_parse s bytes change allow after : snapshot_ok K N s -> measured_body K s bytes -> (change = true -> allow = true) ->
  (length (s_entries s) <= FIELD_CAPACITY)%nat ->
  parse_indicators FIELD_CAPACITY (words_bytes (header_words (l_cif (s_layout s)) change) ++ after) 0 allow 0 =
  Ok (snapshot_plan s change, zlen (s_ids s)).
Proof.
  intros Hs Hb Hallow Hcap. pose proof (snapshot_words _ _ _ Hs) as Hw.
  rewrite (parse_indicators_at (s_ids s) (l_attributes (s_layout s)) (l_cif (s_layout s)) Hw) with (change := change); [done|..].
  - eapply entries_selectors, Hs.
  - apply Hs.
  - apply Hs.
  - apply at_words_prefix.
  - done.
  - done.
  - by eapply descriptors_known.
  - unfold s_ids, zlen. rewrite length_fmap. lia.
Qed.

(** The packet a decoder returns for a snapshot. *)
Definition decoded_view (e : Envelope) (s : PacketSnapshot) (change : bool) : PacketView :=
  let binding := if bool_decide (K = BodyKind.selectors) then binding_default else envelope_binding e in
  mkPacketView (mkEnvelopeView (envelope_wire e) (payload_of K s change) None (4 * (1 + zlen (prologue_words e)))
                  (envelope_bytes e (payload_of K s change) None))
    (view_of K binding DiagnosticGroup.none <$> snapshot_pairs s) K false change false.

Lemma decode_values_at e s output body total change packet allow : K = BodyKind.values -> snapshot_ok K N s ->
  admitted K e s output change body total -> (change = true -> allow = true) ->
  (length (s_entries s) <= FIELD_CAPACITY)%nat -> (length (snapshot_pairs s) <= VIEW_CAPACITY)%nat ->
  packet = mkPacketView (pv_envelope (decoded_view e s change)) [] BodyKind.values false change false ->
  exists work, append_fields BodyKind.values packet (snapshot_plan s change) (header_size s) DiagnosticGroup.none limits_default 0 =
    Ok (decoded_view e s change, zlen (body_bytes K (snapshot_pairs s)), work).
Proof.
  intros HK Hs Had Hallow Hf Hp ->. pose proof (ad_body _ _ _ _ _ _ _ Had) as Hb.
  pose proof (payload_of_size K s change body Hb) as Hsize. pose proof (ad_measure _ _ _ _ _ _ _ Had) as Hm.
  assert (Hmax : zlen (payload_of K s change) <= U32_MAX).
  { pose proof (zlen_nonneg (payload_of K s change)). pose proof (measure_measured e body total ltac:(lia) Hm) as [].
    pose proof (zlen_nonneg (prologue_words e)). pose proof (b2z_range (env_trailer e)). unfold U32_MAX. Z.div_mod_to_equations. lia. }
  pose proof (append_fields_at K N s body (mkPacketView (pv_envelope (decoded_view e s change)) [] BodyKind.values false change false)
    change (words_bytes (header_words (l_cif (s_layout s)) change)) [] DiagnosticGroup.none 0 Hs Hb ltac:(by rewrite HK)) as H.
  cbn [pv_envelope decoded_view ev_payload ev_envelope pv_fields] in H. cbv zeta in H. rewrite app_nil_r in H.
  specialize (H eq_refl Hmax).
  assert (Hh : header_size s = zlen (words_bytes (header_words (l_cif (s_layout s)) change)))
    by (rewrite zlen_words_bytes; apply header_size_words).
  assert (Hbind : envelope_binding (envelope_wire e) = envelope_binding e) by done.
  rewrite <- Hh, Hbind in H. rewrite <- HK in H |- *.
  cbn [pv_envelope decoded_view].
  change (cancel (envelope_wire e)) with (cancel e) in H.
  rewrite H; [|eapply admitted_readable; [by rewrite HK|done|exact Had]|cbn [length]; lia|rewrite Z.add_0_l; apply (mb_work _ _ _ Hb)].
  eexists. unfold add_views, decoded_view. cbn [pv_envelope pv_fields pv_body_kind pv_opaque pv_change pv_requires_request_context app].
  by rewrite bool_decide_false by (by rewrite HK).
Qed.

(** The total a decoder compares with the payload. *)
Lemma decoded_total e s output body total change : admitted K e s output change body total ->
  wrap64 (header_size s + zlen (body_bytes K (snapshot_pairs s))) = zlen (payload_of K s change).
Proof.
  intros Had. pose proof (ad_body _ _ _ _ _ _ _ Had) as Hb. rewrite (payload_of_size K s change body Hb).
  pose proof (mb_bytes _ _ _ Hb). pose proof (mb_size _ _ _ Hb). unfold header_size in *. pose proof (layout_words_range (cif0_of s)).
  pose proof (zlen_nonneg (body_bytes K (snapshot_pairs s))). zlia.
Qed.

Record matched (e : Envelope) (change : bool) : Prop := mkMatched {
  mt_kind : is_data (env_type e) || is_extension (env_type e) = false;
  mt_change : change = true -> env_type e = PacketType.context \/ (ack e = false /\ cancel e = false);
  mt_context : env_type e = PacketType.context -> K = BodyKind.values;
  mt_command : env_type e <> PacketType.context -> exists c, command e = Some c /\
    (if negb (ack e) && (cancel e || (Z.land (Z.shiftr (cam c) 23) 3 =? 0)) then BodyKind.selectors else BodyKind.values) = K /\
    negb (ack e) || bit_set (cam c) 18 = true }.

Lemma body_matches_matched e s change : body_matches K e s change = Ok tt -> matched e change.
Proof.
  unfold body_matches. cbv zeta. destruct (is_data (env_type e) || is_extension (env_type e)) eqn:Ek; [done|]. cbn [orb].
  destruct (env_trailer e); [done|]. destruct (change && _ && _) eqn:Ec; [done|]. intros H. apply rbind_Ok in H as ([] & H & _).
  split.
  - done.
  - intros ->. cbn [andb] in Ec. destruct (Z.eqb_spec (env_type e) PacketType.context) as [|Hne]; [by left|]. right. cbn [negb andb] in Ec.
    apply negb_false_iff in Ec. apply andb_true_iff in Ec as [Ec H2%negb_true_iff]. apply andb_true_iff in Ec as [_ H1%negb_true_iff]. done.
  - intros Ht. rewrite Ht, Z.eqb_refl in H. destruct (bool_decide (K = BodyKind.values)) eqn:EK; [|done]. by apply bool_decide_eq_true in EK.
  - intros Hne. rewrite (proj2 (Z.eqb_neq _ _) Hne) in H. destruct (command e) as [c|]; [|done]. exists c. split; [done|].
    destruct (_ || _) eqn:Er in H; [done|]. apply orb_false_iff in Er as [Er Ea]. apply negb_false_iff, bool_decide_eq_true in Er.
    split; [done|]. destruct (ack e); [|done]. by apply negb_false_iff in Ea.
Qed.

Lemma decode_written e s output change body total : snapshot_ok K N s -> envelope_typed e -> admitted K e s output change body total ->
  (length (s_entries s) <= FIELD_CAPACITY)%nat -> (length (snapshot_pairs s) <= VIEW_CAPACITY)%nat ->
  decode_packet (envelope_bytes e (payload_of K s change) None) options_default = Ok (decoded_view e s change).
Proof.
  intros Hs T Had Hf Hp. pose proof (ad_body _ _ _ _ _ _ _ Had) as Hb. pose proof (ad_matches _ _ _ _ _ _ _ Had) as Hmatch.
  destruct (body_matches_matched _ _ _ Hmatch) as [Hk Hch Hctx Hcmd]. pose proof (payload_of_size K s change body Hb) as Hsize.
  pose proof (decoded_total _ _ _ _ _ _ Had) as Htotal. unfold decode_packet.
  rewrite (decode_envelope_bytes e (payload_of K s change) None total T I (body_matches_trailer _ _ _ _ Hmatch)) by (rewrite Hsize; apply (ad_measure _ _ _ _ _ _ _ Had)).
  cbn [rbind ev_envelope opt_expected_class options_default opt_limits]. cbv zeta. change (env_type (envelope_wire e)) with (env_type e). rewrite Hk.
  pose proof (fun allow => snapshot_parse s body change allow (body_bytes K (snapshot_pairs s)) Hs Hb) as Hparse. fold (payload_of K s change) in Hparse.
  destruct (Z.eqb_spec (env_type e) PacketType.context) as [Ht|Hne].
  - specialize (Hctx Ht). unfold decode_context. cbn [pv_envelope ev_payload]. rewrite Hparse by done. cbn [rbind].
    cbn [snapshot_plan plan_change plan_bytes]. fold (snapshot_plan s change).
    destruct (decode_values_at e s output body total change (set_body (mkPacketView (pv_envelope (decoded_view e s change)) [] BodyKind.values false false false)
      BodyKind.values change) true Hctx Hs Had ltac:(done) Hf Hp eq_refl) as [work Hap].
    cbn [pv_envelope decoded_view] in Hap. rewrite Hap. cbn [rbind fst snd]. rewrite Htotal, Z.eqb_refl. done.
  - destruct (Hcmd Hne) as (c & Hc & HK & Hack). change (command (envelope_wire e)) with (command_wire <$> command e). rewrite Hc.
    cbn [fmap option_fmap option_map deref rbind]. change (ack (envelope_wire e)) with (ack e). change (cam (command_wire c)) with (cam c). rewrite Hack.
    unfold decode_body. cbv zeta. cbn [pv_envelope ev_payload ev_envelope]. change (ack (envelope_wire e)) with (ack e).
    change (cancel (envelope_wire e)) with (cancel e).
    rewrite Hparse; [|by intros Hx; destruct (Hch Hx) as [|[-> ->]]|done]. cbn [rbind].
    destruct (negb (ack e) && _) eqn:Esel; symmetry in HK.
    + cbn [snapshot_plan plan_cif plan_attributes plan_fields plan_bytes plan_change lookup list_lookup deref rbind set_body pv_fields pv_envelope pv_body_kind pv_opaque pv_requires_request_context pv_change].
      pose proof (selector_walk_at K N s body change [] HK Hs Hb Hp) as Hwalk. rewrite Hwalk. cbn [rbind app].
      assert (Hnil : body_bytes K (snapshot_pairs s) = []).
      { unfold body_bytes, element_bytes. rewrite HK. clear. induction (snapshot_pairs s); done. }
      rewrite Hnil in Htotal. change (zlen []) with 0 in Htotal. rewrite Htotal, Z.eqb_refl. cbn [negb]. unfold decoded_view.
      by rewrite HK.
    + cbn [snapshot_plan plan_change plan_bytes]. fold (snapshot_plan s change).
      destruct (decode_values_at e s output body total change (set_body (mkPacketView (pv_envelope (decoded_view e s change)) [] BodyKind.values false false false)
        BodyKind.values change) (negb (ack e) && negb (cancel e)) HK Hs Had) as [work Hap]; [by intros Hx; destruct (Hch Hx) as [|[-> ->]]|done|done|done|].
      cbn [pv_envelope decoded_view] in Hap. cbn [pv_body_kind]. rewrite Hap. cbn [rbind fst snd]. rewrite Htotal, Z.eqb_refl. done.
Qed.
End Roundtrip.

(** A view of a written value reads as the value. *)
Lemma view_value_at N s binding group p : snapshot_ok BodyKind.values N s -> p ∈ snapshot_pairs s -> writable BodyKind.values p ->
  exists v, value_of p.1 p.2 = Some v /\ view_value (view_of BodyKind.values binding group p) = Ok (wire_reading v).
Proof.
  intros Hs Hp [Ha Hwr]. destruct (Hwr eq_refl) as (v & d & Hv & Hd & Hx & Hvalid & Hst). exists v. split; [done|].
  apply pairs_of_elem in Hp as [Hf _]. pose proof (so_entries _ _ _ Hs) as Hall. rewrite list.Forall_forall in Hall. specialize (Hall _ Hf).
  pose proof (eo_values _ _ _ Hall) as Hvals. rewrite bool_decide_true in Hvals by done. specialize (Hvals _ Ha). fold (value_of p.1 p.2) in Hvals.
  rewrite Hv in Hvals. destruct Hvals as (_ & Ht & _).
  unfold view_value, view_of. cbn [fv_kind fv_attribute fv_id fv_bytes]. rewrite bool_decide_true by done. cbn [negb orb].
  rewrite (proj2 (Z.leb_gt 13 p.2)) by lia. rewrite Hd, Hst. unfold element_bytes. rewrite Hv, Hd. by eapply read_accepted_bytes.
Qed.

(** ** Properties *)

(** A view reads as the value that the entry of its field has for its attribute, a noise figure
    of zero as an unknown one. *)
Definition reads_back (v : FieldView) (p : FieldEntry * Z) : Prop :=
  exists value, value_of p.1 p.2 = Some value /\ view_value v = Ok (wire_reading value).

(** Writing [n] bytes at the start of an output and nothing else. *)
Definition writes_prefix (output : list byte) (n : Z) (output' : list byte) : Prop :=
  n <= zlen output /\ zlen output' = zlen output /\ drop (Z.to_nat n) output' = drop (Z.to_nat n) output.

(** What the encoder wrote, read back. *)
Lemma packet_decodes K N s e output change n output' :
  builder_reachable K N s -> envelope_typed e ->
  (length (s_entries s) <= FIELD_CAPACITY)%nat -> (length (snapshot_pairs s) <= VIEW_CAPACITY)%nat ->
  encode_packet K e s output change = Ok (n, output') ->
  exists packet, decode_packet (take (Z.to_nat n) output') options_default = Ok packet /\
    ev_envelope (pv_envelope packet) = envelope_wire e /\ pv_body_kind packet = K /\ pv_change packet = change /\ pv_opaque packet = false /\
    (fun v => (fv_id v, fv_attribute v)) <$> pv_fields packet = id_pair <$> snapshot_pairs s /\
    (K = BodyKind.values -> Forall2 reads_back (pv_fields packet) (snapshot_pairs s)).
Proof.
  intros Hreach T Hf Hp Henc. pose proof (builder_reachable_ok _ _ _ Hreach) as Hs.
  pose proof (encode_preflight_ok K N e s output change Hs) as Hpre. destruct (encode_preflight K e s output change) as [[body total]|x|] eqn:Epre;
    [|unfold encode_packet in Henc; by rewrite Epre in Henc..]. cbn [returns fst snd] in Hpre.
  rewrite (encode_packet_admitted K N e s output change body total Hs Epre Hpre) in Henc.
  assert (n = total) as -> by congruence. assert (output' = envelope_bytes e (payload_of K s change) None ++ drop (Z.to_nat total) output) as -> by congruence.
  pose proof (ad_body _ _ _ _ _ _ _ Hpre) as Hb. pose proof (payload_of_size K s change body Hb) as Hsize.
  pose proof (zlen_nonneg (payload_of K s change)).
  assert (Hlen : zlen (envelope_bytes e (payload_of K s change) None) = total).
  { apply (envelope_bytes_length e _ None body); [apply measure_measured; [lia|apply (ad_measure _ _ _ _ _ _ _ Hpre)]|done|].
    by apply (body_matches_trailer K e s change), (ad_matches _ _ _ _ _ _ _ Hpre). }
  rewrite take_app_length' by (unfold zlen in Hlen; lia). exists (decoded_view K e s change).
  split; [by eapply decode_written|]. split_and!; [done|done|done|done| |].
  - cbn [decoded_view pv_fields]. rewrite <- list_fmap_compose. done.
  - intros ->. cbn [decoded_view pv_fields]. apply Forall2_fmap_l, Forall_Forall2_diag, list.Forall_forall. intros p Hin.
    eapply view_value_at; [done|done|]. pose proof (mb_writable _ _ _ Hb) as Hwr. rewrite list.Forall_forall in Hwr. by apply Hwr.
Qed.

(** C3. A packet survives the wire: for every snapshot that a builder can reach, of at most 16
    fields and with at most 64 selected attributes in all (the capacities of the default
    decoder, which refuses more), what the encoder writes decodes to the same envelope, body
    kind and change mark, with one view for each selected attribute of each field, in the
    order of the snapshot, and each view of a value reads as the value that was set, with one
    exception: a noise figure of zero, which has no code of its own, reads as an unknown
    noise figure ([wire_reading]; see [snr_zero_noise_lost]). *)
Theorem packet_roundtrip K N s e output change n output' :
  builder_reachable K N s -> envelope_typed e ->
  (length (s_entries s) <= FIELD_CAPACITY)%nat -> (length (snapshot_pairs s) <= VIEW_CAPACITY)%nat ->
  encode_packet K e s output change = Ok (n, output') ->
  exists packet, decode_packet (take (Z.to_nat n) output') options_default = Ok packet /\
    ev_envelope (pv_envelope packet) = envelope_wire e /\ pv_body_kind packet = K /\ pv_change packet = change /\ pv_opaque packet = false /\
    (fun v => (fv_id v, fv_attribute v)) <$> pv_fields packet = id_pair <$> snapshot_pairs s /\
    (K = BodyKind.values -> Forall2 reads_back (pv_fields packet) (snapshot_pairs s)).
Proof. apply packet_decodes. Qed.

(** C22. The encoder is defined and keeps to its packet: for every snapshot a builder can
    reach, any envelope and any output, it returns normally; nothing after the preflight can
    fail, so a refusal leaves the output as it was; and when it succeeds the bytes after the
    packet it reports are untouched. *)
Theorem encode_packet_defined K N s e output change :
  builder_reachable K N s ->
  safe (encode_packet K e s output change) /\
  (forall x, encode_packet K e s output change = Err x <-> encode_preflight K e s output change = Err x) /\
  (forall n output', encode_packet K e s output change = Ok (n, output') -> writes_prefix output n output').
Proof.
  intros Hreach. pose proof (builder_reachable_ok _ _ _ Hreach) as Hs.
  pose proof (encode_preflight_ok K N e s output change Hs) as Hpre. destruct (encode_preflight K e s output change) as [[body total]|x|] eqn:Epre; [| |done].
  - cbn [returns fst snd] in Hpre. rewrite (encode_packet_admitted K N e s output change body total Hs Epre Hpre).
    split_and!; [done|done|]. intros n output' Henc. assert (n = total) as -> by congruence.
    assert (output' = envelope_bytes e (payload_of K s change) None ++ drop (Z.to_nat total) output) as -> by congruence.
    pose proof (ad_room _ _ _ _ _ _ _ Hpre) as Hroom.
    pose proof (payload_of_size K s change body (ad_body _ _ _ _ _ _ _ Hpre)) as Hsize. pose proof (zlen_nonneg (payload_of K s change)).
    assert (Hlen : zlen (envelope_bytes e (payload_of K s change) None) = total).
    { apply (envelope_bytes_length e _ None body); [apply measure_measured; [lia|apply (ad_measure _ _ _ _ _ _ _ Hpre)]|done|].
      by apply (body_matches_trailer K e s change), (ad_matches _ _ _ _ _ _ _ Hpre). }
    unfold writes_prefix, zlen in *. split_and!; [lia|rewrite length_app, length_drop; lia|]. by rewrite drop_app_length' by lia.
  - unfold encode_packet. rewrite Epre. cbn [rbind]. split_and!; [done|by intros y; split; intros [= <-]|done].
Qed.

(** ** Witnesses *)

(** The context packet of [demo_builder], with a change mark. *)
Definition demo_context : Envelope :=
  mkEnvelope PacketType.context 3 (Some 7) None (mkTimestamp 0 0 0 0) false false false false false false None.

Lemma demo_context_typed : envelope_typed demo_context.
Proof. repeat split; vm_compute; congruence. Qed.

Lemma packet_roundtrip_witness : exists output' packet,
  encode_packet BodyKind.values demo_context demo_builder (replicate 30 xff) true = Ok (24, output') /\
  decode_packet (take 24 output') options_default = Ok packet /\
  pv_change packet = true /\ (view_value <$> pv_fields packet) = [Ok (v_hertz 4294967296); Ok (v_gain 64 128)].
Proof.
  destruct (encode_packet BodyKind.values demo_context demo_builder (replicate 30 xff) true) as [[n output']|x|] eqn:E; [|vm_compute in E; discriminate E..].
  pose proof E as E'. vm_compute in E'. assert (n = 24) as -> by congruence. exists output'.
  destruct (packet_roundtrip BodyKind.values 16 demo_builder demo_context (replicate 30 xff) true 24 output' demo_builder_reachable demo_context_typed)
    as (packet & Hd & _ & _ & Hc & _ & _ & Hv); [vm_compute; lia|vm_compute; lia|exact E|].
  exists packet. split; [reflexivity|]. split; [exact Hd|]. split; [exact Hc|].
  assert (Hdec : Ok packet = decode_packet (take (Z.to_nat 24) output') options_default) by (symmetry; exact Hd). injection E' as <-.
  vm_compute in Hdec. injection Hdec as ->. vm_compute. reflexivity.
Defined.

(** An output of 23 bytes is refused with the size that is needed. *)
Lemma encode_packet_defined_witness :
  encode_packet BodyKind.values demo_context demo_builder (replicate 23 xff) true = Err (error3 ErrorCode.short_output 0 24) /\
  forall n output', encode_packet BodyKind.values demo_context demo_builder (replicate 30 xff) true = Ok (n, output') ->
    drop (Z.to_nat n) output' = drop (Z.to_nat n) (replicate 30 xff).
Proof.
  split; [vm_compute; reflexivity|]. intros n output' E.
  destruct (encode_packet_defined BodyKind.values 16 demo_builder demo_context (replicate 30 xff) true demo_builder_reachable) as (_ & _ & H).
  apply (H n output' E).
Defined.
