(* ===== verification/DiagnosticRoundtrip.v ===== *)
(** * Diagnostic acknowledgements survive the wire

    The warning and error groups of an acknowledgement, written one after the other behind
    the indicator words of both, are read back by a decoder that knows the request. *)

From stdpp Require Import sorting.
From S2P Require Import Prelude Wire WireProofs Fields Scalar Structured Packet Builder BuilderProofs Encoder EncoderProofs PacketRoundtrip.

Abbreviation D := BodyKind.diagnostics.

Definition part {A} (present : bool) (l : list A) : list A := if present then l else [].

(** The parts of a group: its indicator words and its diagnostic words. *)
Definition group_header (s : PacketSnapshot) : list byte := words_bytes (header_words (l_cif (s_layout s)) false).
Definition group_body (s : PacketSnapshot) : list byte := body_bytes D (snapshot_pairs s).

Definition diagnostic_payload (w r : bool) (warnings errors : PacketSnapshot) : list byte :=
  part w (group_header warnings) ++ part r (group_header errors) ++ part w (group_body warnings) ++ part r (group_body errors).

Section Write.
Context (N : nat).

Lemma group_header_size s : zlen (group_header s) = header_size s.
Proof. unfold group_header. rewrite zlen_words_bytes. symmetry. apply header_size_words. Qed.

Lemma write_group_indicators_ok present s pre mid post : snapshot_ok D N s -> length mid = length (part present (group_header s)) ->
  write_group_indicators present s (pre ++ mid ++ post) (zlen pre) (header_size s) =
  Ok (pre ++ part present (group_header s) ++ post, zlen (pre ++ part present (group_header s))).
Proof.
  intros Hs Hm. unfold write_group_indicators. destruct present; cbn [part] in *.
  - unfold subspan_from. rewrite !zlen_app. pose proof (zlen_nonneg pre). pose proof (zlen_nonneg mid). pose proof (zlen_nonneg post).
    rewrite (proj2 (Z.ltb_ge (zlen pre) 0)), (proj2 (Z.ltb_ge _ (zlen pre))) by lia. cbn [orb rbind].
    unfold zlen at 1. rewrite Nat2Z.id, drop_app_length. pose proof (snapshot_words _ _ _ Hs) as Hw.
    rewrite (write_indicators_ok (s_ids s) (l_attributes (s_layout s)) (l_cif (s_layout s)) Hw s) by (done || (rewrite Hm; unfold group_header; by rewrite words_bytes_length)).
    cbn [rbind]. fold (group_header s). pose proof (memmove_app pre (mid ++ post) [] (group_header s ++ post)) as Hmv. rewrite !app_nil_r in Hmv.
    rewrite Hmv by (rewrite !length_app; lia). cbn [rbind]. by rewrite group_header_size.
  - destruct mid; [|done]. cbn [app]. by rewrite app_nil_r.
Qed.

Lemma write_group_values_ok present s bytes pre mid post : snapshot_ok D N s -> measured_body D s bytes ->
  length mid = length (part present (group_body s)) -> zlen (pre ++ mid ++ post) <= SIZE_MAX ->
  write_group_values present s (pre ++ mid ++ post) (zlen pre) (header_size s) bytes =
  Ok (pre ++ part present (group_body s) ++ post, zlen (pre ++ part present (group_body s))).
Proof.
  intros Hs Hb Hm Hsz. unfold write_group_values. destruct present; cbn [part] in *.
  - rewrite (write_values_ok D N s bytes pre mid post (zlen pre) (header_size s) Hs Hb) by (done || lia). cbn [assured rbind].
    fold (group_body s). rewrite zlen_app. do 2 f_equal. rewrite (mb_bytes _ _ _ Hb). fold (group_body s). lia.
  - destruct mid; [|done]. cbn [app]. by rewrite app_nil_r.
Qed.

(** What has been established when the preflight returns. *)
Record diagnostic_admitted (e : Envelope) (warnings errors : PacketSnapshot) (original : Z) (output : list byte) (p : DiagnosticPlan) : Prop := mkDiagnosticAdmitted {
  da_type : env_type e = PacketType.command;
  da_ack : ack e = true;
  da_command : exists c, command e = Some c /\ nonzero (Z.land (cam c) (Z.lor (Z.shiftl 1 20) (Z.shiftl 1 19))) = true /\
    dp_warning p = bit_set (cam c) 17 && bit_set original 17 /\ dp_error p = bit_set (cam c) 16 && bit_set original 16;
  da_absent : (dp_warning p = false -> s_entries warnings = []) /\ (dp_error p = false -> s_entries errors = []);
  da_warnings : measured_body D warnings (dp_warning_bytes p);
  da_errors : measured_body D errors (dp_error_bytes p);
  da_headers : dp_warning_header p = header_size warnings /\ dp_error_header p = header_size errors;
  da_body : dp_body p = (if dp_warning p then dp_warning_bytes p else 0) + (if dp_error p then dp_error_bytes p else 0);
  da_bits : Forall (fun f => validate_diagnostic_bits (e_diagnostic f) (cancel e) = Ok tt) (s_entries warnings ++ s_entries errors);
  da_measure : measure_envelope e (dp_body p) = Ok (dp_total p);
  da_room : dp_total p <= zlen output }.

Lemma check_diagnostics_ok entries cancelled : returns (check_diagnostics entries cancelled) (fun _ =>
  Forall (fun f => validate_diagnostic_bits (e_diagnostic f) cancelled = Ok tt) entries).
Proof.
  induction entries as [|f entries IH]; cbn [check_diagnostics]; [constructor|].
  eapply returns_bind; [apply returns_safe; unfold validate_diagnostic_bits; by repeat case_match|]. intros [] Hv _.
  eapply returns_mono; [exact IH|]. cbn beta. intros _ H. by constructor.
Qed.

Lemma indicator_size_ok s : snapshot_ok D N s -> indicator_size s = Ok (header_size s).
Proof. intros Hs. unfold indicator_size. by rewrite (cif0_lookup D N s Hs). Qed.

Lemma diagnostic_preflight_ok e warnings errors original output : snapshot_ok D N warnings -> snapshot_ok D N errors ->
  returns (diagnostic_preflight e warnings errors original output) (diagnostic_admitted e warnings errors original output).
Proof.
  intros Hw He. unfold diagnostic_preflight. cbv zeta. apply returns_guard. intros [Hta Hcam]%orb_false_iff.
  apply orb_false_iff in Hta as [Ht%negb_false_iff%Z.eqb_eq Ha%negb_false_iff]. destruct (command e) as [c|] eqn:Ec; [|done].
  apply negb_false_iff in Hcam. cbn [deref rbind]. apply returns_guard. intros [Habs1 Habs2]%orb_false_iff.
  eapply returns_bind; [apply returns_safe, (snapshot_measure_safe D N warnings Hw)|]. intros wm Hwm _.
  eapply returns_bind; [apply returns_safe, (snapshot_measure_safe D N errors He)|]. intros em Hem _.
  rewrite (indicator_size_ok _ Hw), (indicator_size_ok _ He). cbn [rbind].
  eapply returns_bind; [apply check_diagnostics_ok|]. cbn beta. intros _ _ Hd1. eapply returns_bind; [apply check_diagnostics_ok|]. cbn beta. intros _ _ Hd2.
  eapply returns_bind; [apply returns_safe, measure_envelope_safe|]. intros total Hm _. apply returns_guard. intros Hroom%Z.ltb_ge. cbn [returns].
  assert (Hnil : forall (b : bool) (l : list FieldEntry), negb b && (0 <? zlen l) = false -> b = false -> l = []).
  { intros b l Hx ->. cbn in Hx. apply Z.ltb_ge in Hx. unfold zlen in Hx. destruct l; [done|]. cbn in Hx. lia. }
  split; cbn [dp_warning dp_error dp_warning_bytes dp_error_bytes dp_warning_header dp_error_header dp_body dp_total]; try done.
  - by exists c.
  - split; intros Hx; by eapply Hnil.
  - by eapply measure_ok.
  - by eapply measure_ok.
  - by apply Forall_app.
Qed.

Lemma diagnostic_payload_size e warnings errors original output p : diagnostic_admitted e warnings errors original output p ->
  zlen (diagnostic_payload (dp_warning p) (dp_error p) warnings errors) = dp_body p.
Proof.
  intros [_ _ _ _ Hw He _ Hb _ _ _]. rewrite Hb. unfold diagnostic_payload. rewrite !zlen_app.
  pose proof (mb_bytes _ _ _ Hw). pose proof (mb_bytes _ _ _ He). pose proof (group_header_size warnings). pose proof (group_header_size errors).
  unfold group_body. destruct (dp_warning p), (dp_error p); cbn [part]; change (zlen (@nil byte)) with 0; lia.
Qed.

(** The four parts fill the payload. *)
Lemma write_groups_ok e warnings errors original output p buffer : snapshot_ok D N warnings -> snapshot_ok D N errors ->
  diagnostic_admitted e warnings errors original output p -> zlen buffer = dp_body p -> dp_body p <= SIZE_MAX ->
  (let? (payload, offset) := write_group_indicators (dp_warning p) warnings buffer 0 (dp_warning_header p) in
   let? (payload, offset) := write_group_indicators (dp_error p) errors payload offset (dp_error_header p) in
   let? (payload, offset) := write_group_values (dp_warning p) warnings payload offset (dp_warning_header p) (dp_warning_bytes p) in
   let? (payload, _) := write_group_values (dp_error p) errors payload offset (dp_error_header p) (dp_error_bytes p) in
   Ok payload) = Ok (diagnostic_payload (dp_warning p) (dp_error p) warnings errors).
Proof.
  intros Hw He Had Hl Hmax. pose proof (diagnostic_payload_size _ _ _ _ _ _ Had) as Hsize. rewrite <- Hl in Hsize, Hmax. unfold diagnostic_payload in Hsize |- *.
  destruct Had as [_ _ _ _ Hmw Hme [-> ->] _ _ _ _]. set (w := dp_warning p) in *. set (r := dp_error p) in *.
  set (A := part w (group_header warnings)) in *. set (B := part r (group_header errors)) in *.
  set (C := part w (group_body warnings)) in *. set (E := part r (group_body errors)) in *. rewrite !zlen_app in Hsize.
  destruct (split_length buffer (length A)) as (a & b1 & -> & Ha); [unfold zlen in *; lia|].
  rewrite zlen_app in Hsize, Hmax. destruct (split_length b1 (length B)) as (b & c1 & -> & Hb); [unfold zlen in *; lia|].
  rewrite zlen_app in Hsize, Hmax. destruct (split_length c1 (length C)) as (c & d & -> & Hc); [unfold zlen in *; lia|]. rewrite zlen_app in Hsize, Hmax.
  pose proof (write_group_indicators_ok w warnings [] a (b ++ c ++ d) Hw Ha) as H1. cbn [app] in H1. change (zlen []) with 0 in H1. rewrite H1. cbn [rbind]. fold A.
  rewrite (write_group_indicators_ok r errors A b (c ++ d) He Hb). cbn [rbind]. fold B. rewrite (app_assoc A B).
  rewrite (write_group_values_ok w warnings (dp_warning_bytes p) (A ++ B) c d Hw Hmw Hc) by (unfold zlen in *; rewrite !length_app; lia). cbn [rbind]. fold C.
  rewrite (app_assoc (A ++ B) C). pose proof (write_group_values_ok r errors (dp_error_bytes p) ((A ++ B) ++ C) d [] He Hme) as H4.
  rewrite !app_nil_r in H4. rewrite H4 by (fold E; unfold zlen in *; rewrite ?length_app in *; lia). cbn [rbind]. fold E. by rewrite <- !app_assoc.
Qed.

Lemma diagnostic_trailer e warnings errors original output p : diagnostic_admitted e warnings errors original output p -> env_trailer e = false.
Proof.
  intros Had. pose proof (diagnostic_payload_size _ _ _ _ _ _ Had) as Hsize.
  pose proof (zlen_nonneg (diagnostic_payload (dp_warning p) (dp_error p) warnings errors)).
  pose proof (measure_measured e (dp_body p) (dp_total p) ltac:(lia) (da_measure _ _ _ _ _ _ Had)) as M. pose proof (m_flags _ _ _ M) as Hf.
  rewrite (da_type _ _ _ _ _ _ Had) in Hf. cbn in Hf. by destruct (env_trailer e).
Qed.

Lemma encode_diagnostic_admitted e warnings errors original output p : snapshot_ok D N warnings -> snapshot_ok D N errors ->
  diagnostic_preflight e warnings errors original output = Ok p -> diagnostic_admitted e warnings errors original output p ->
  encode_diagnostic e warnings errors original output =
  Ok (dp_total p, envelope_bytes e (diagnostic_payload (dp_warning p) (dp_error p) warnings errors) None ++ drop (Z.to_nat (dp_total p)) output).
Proof.
  intros Hw He Hpre Had. unfold encode_diagnostic. rewrite Hpre. cbn [rbind]. set (payload := diagnostic_payload _ _ _ _).
  pose proof (diagnostic_payload_size _ _ _ _ _ _ Had) as Hsize. fold payload in Hsize. pose proof (zlen_nonneg payload).
  pose proof (da_measure _ _ _ _ _ _ Had) as Hm. pose proof (da_room _ _ _ _ _ _ Had) as Hroom.
  pose proof (measure_measured e (dp_body p) (dp_total p) ltac:(lia) Hm) as M. pose proof (m_size _ _ _ M) as Htot. pose proof (m_words _ _ _ M) as Hwords.
  rewrite (diagnostic_trailer _ _ _ _ _ _ Had) in Htot. cbn [b2z] in Htot. pose proof (zlen_nonneg (prologue_words e)).
  destruct (split_length output (Z.to_nat (dp_total p - dp_body p))) as (A & o1 & -> & HA); [unfold zlen in Hroom; lia|].
  rewrite zlen_app in Hroom. destruct (split_length o1 (Z.to_nat (dp_body p))) as (P & R & -> & HP); [unfold zlen in *; lia|].
  assert (HA' : dp_total p - dp_body p = zlen A) by (unfold zlen; lia). assert (HP' : dp_body p = zlen P) by (unfold zlen; lia).
  assert (Hsub : subspan (A ++ P ++ R) (dp_total p - dp_body p) (dp_body p) = Ok P) by (rewrite HA', HP'; apply subspan_app).
  rewrite Hsub. cbn [rbind].
  pose proof (write_groups_ok e warnings errors original (A ++ P ++ R) p P Hw He Had (eq_sym HP')) as Hwp. fold payload in Hwp.
  assert (Hmax : dp_body p <= SIZE_MAX) by (unfold SIZE_MAX, U64_MAX; Z.div_mod_to_equations; lia). specialize (Hwp Hmax).
  destruct (write_group_indicators (dp_warning p) warnings P 0 (dp_warning_header p)) as [[p1 o1']| |]; cbn [rbind] in Hwp |- *; [|done|done].
  destruct (write_group_indicators (dp_error p) errors p1 o1' (dp_error_header p)) as [[p2 o2]| |]; cbn [rbind] in Hwp |- *; [|done|done].
  destruct (write_group_values (dp_warning p) warnings p2 o2 (dp_warning_header p) (dp_warning_bytes p)) as [[p3 o3]| |]; cbn [rbind] in Hwp |- *; [|done|done].
  destruct (write_group_values (dp_error p) errors p3 o3 (dp_error_header p) (dp_error_bytes p)) as [[p4 o4]| |]; cbn [rbind] in Hwp |- *; [|done|done].
  assert (p4 = payload) as -> by congruence. rewrite HA', memmove_app by (unfold zlen in *; lia). cbn [rbind].
  rewrite (encode_envelope_bytes _ _ _ _ (dp_total p)); [|by rewrite (diagnostic_trailer _ _ _ _ _ _ Had)|by rewrite Hsize|rewrite !zlen_app in *; unfold zlen in *; lia].
  cbn [assured]. do 3 f_equal. unfold zlen in *. rewrite !drop_app3 by lia. done.
Qed.
End Write.

(** ** Reading the groups *)

Section Read.
Context (N : nat).

(** The views of a group. *)
Definition group_views (e : Envelope) (group : DiagnosticGroup.t) (present : bool) (s : PacketSnapshot) : list FieldView :=
  part present (view_of D (envelope_binding e) group <$> snapshot_pairs s).

(** The plan of a group, and the fields it selects. *)
Definition group_plan (present : bool) (s : PacketSnapshot) : option IndicatorPlan := if present then Some (snapshot_plan s false) else None.
Definition group_count (present : bool) (s : PacketSnapshot) : Z := if present then zlen (s_ids s) else 0.

Lemma parse_group present s bytes payload pre post aggregate : snapshot_ok D N s -> measured_body D s bytes ->
  payload = pre ++ part present (group_header s) ++ post -> zlen payload <= U32_MAX -> 0 <= aggregate -> aggregate + group_count present s <= 16 ->
  (if present then let? (v, a) := parse_indicators FIELD_CAPACITY payload (zlen pre) false aggregate in Ok (Some v, (a, wrap64 (zlen pre + plan_bytes v)))
   else Ok (None, (aggregate, zlen pre))) =
  Ok (group_plan present s, (aggregate + group_count present s, zlen (pre ++ part present (group_header s)))).
Proof.
  intros Hs Hb -> Hmax Hagg Hcap. destruct present; cbn [part group_plan group_count] in *.
  - pose proof (snapshot_words _ _ _ Hs) as Hw.
    rewrite (parse_indicators_at (s_ids s) (l_attributes (s_layout s)) (l_cif (s_layout s)) Hw) with (change := false); try done.
    + cbn [rbind plan_bytes]. fold (cif0_of s). fold (header_size s). rewrite zlen_app, group_header_size.
      rewrite !zlen_app, group_header_size in Hmax. pose proof (zlen_nonneg pre). pose proof (zlen_nonneg post).
      pose proof (layout_words_range (cif0_of s)). unfold header_size, U32_MAX in *. do 3 f_equal. zlia.
    + eapply entries_selectors, Hs.
    + apply Hs.
    + apply Hs.
    + apply at_words_skip.
    + by eapply descriptors_known.
  - by rewrite app_nil_r, Z.add_0_r.
Qed.

Lemma append_group_at present s bytes packet pre post group work : snapshot_ok D N s -> measured_body D s bytes ->
  let env := ev_envelope (pv_envelope packet) in
  ev_payload (pv_envelope packet) = pre ++ part present (group_body s) ++ post -> zlen (ev_payload (pv_envelope packet)) <= U32_MAX ->
  Forall (fun f => validate_diagnostic_bits (e_diagnostic f) (cancel env) = Ok tt) (s_entries s) ->
  (length (pv_fields packet) + length (group_views env group present s) <= VIEW_CAPACITY)%nat ->
  work + zlen (group_views env group present s) <= 4096 ->
  append_group packet (group_plan present s) (zlen pre) work group limits_default =
  Ok (add_views packet (group_views env group present s),
      (zlen (pre ++ part present (group_body s)), work + zlen (group_views env group present s))).
Proof.
  intros Hs Hb env Hp Hmax Hbits Hcap Hwork. unfold append_group. destruct present; cbn [group_plan part group_views] in *.
  - unfold zlen in Hwork. rewrite !length_fmap in Hcap, Hwork.
    rewrite (append_fields_at D N s bytes packet false pre post group work Hs Hb); [|done|done|done| |done|done].
    + cbn [rbind fst snd]. fold env. fold (group_body s). unfold zlen at 5. rewrite length_fmap. rewrite zlen_app. do 3 f_equal.
      rewrite Hp, !zlen_app in Hmax. pose proof (zlen_nonneg pre). pose proof (zlen_nonneg post). pose proof (zlen_nonneg (group_body s)). unfold U32_MAX in Hmax. zlia.
    + apply list.Forall_forall. intros q Hq. pose proof (mb_writable _ _ _ Hb) as Hwr. rewrite list.Forall_forall in Hwr. split; [by apply Hwr|].
      apply pairs_of_elem in Hq as [Hf _]. pose proof (so_entries _ _ _ Hs) as Hall. rewrite list.Forall_forall in Hall, Hbits.
      split; [by apply (Hall _ Hf)|by apply Hbits].
  - change (zlen []) with 0. rewrite app_nil_r, Z.add_0_r. unfold add_views. rewrite app_nil_r. by destruct packet.
Qed.

(** The acknowledgement bits: one of the three is set, and it is not the state bit. *)
Lemma diagnostic_cam c : 0 <= c -> popcount (Z.land (Z.shiftr c 18) 7) = 1 ->
  nonzero (Z.land c (Z.lor (Z.shiftl 1 20) (Z.shiftl 1 19))) = true -> bit_set c 18 = false.
Proof.
  intros Hc Hpop Hnz. rewrite bit_set_div by lia. change 7 with (2 ^ 3 - 1) in Hpop. rewrite land_mask, Z.shiftr_div_pow2 in Hpop by lia.
  assert (Hr : 0 <= (c / 2 ^ 18) mod 2 ^ 3 < 8) by (apply Z.mod_pos_bound; lia).
  assert (Hbits : bit_set c 19 = true \/ bit_set c 20 = true).
  { destruct (bit_set c 19) eqn:E1; [by left|]. destruct (bit_set c 20) eqn:E2; [by right|]. exfalso.
    rewrite bit_set_testbit in E1, E2 by lia. apply negb_true_iff in Hnz. apply Z.eqb_neq in Hnz. apply Hnz.
    apply Z.bits_inj'. intros b Hb. rewrite Z.land_spec, Z.bits_0, Z.lor_spec, !Z.shiftl_1_l, !Z.pow2_bits_eqb by lia.
    destruct (Z.eqb_spec 20 b) as [<-|]; [by rewrite E2|]. destruct (Z.eqb_spec 19 b) as [<-|]; [by rewrite E1|]. by rewrite andb_false_r. }
  rewrite !bit_set_div in Hbits by lia. unfold nonzero in *.
  assert (Hcase : (c / 2 ^ 18) mod 2 ^ 3 = 1 \/ (c / 2 ^ 18) mod 2 ^ 3 = 2 \/ (c / 2 ^ 18) mod 2 ^ 3 = 4).
  { revert Hpop. generalize dependent ((c / 2 ^ 18) mod 2 ^ 3). intros x Hr Hpop.
    assert (x = 0 \/ x = 1 \/ x = 2 \/ x = 3 \/ x = 4 \/ x = 5 \/ x = 6 \/ x = 7) as Hx by lia.
    destruct Hx as [->|[->|[->|[->|[->|[->|[->| ->]]]]]]]; try (cbn in Hpop; discriminate Hpop); tauto. }
  apply negb_false_iff, Z.eqb_eq. rewrite !negb_true_iff, !Z.eqb_neq in Hbits.
  change (2 ^ 18) with 262144 in *. change (2 ^ 19) with 524288 in *. change (2 ^ 20) with 1048576 in *. change (2 ^ 3) with 8 in *.
  Z.div_mod_to_equations. lia.
Qed.

Lemma ack_popcount e c n total : command e = Some c -> ack e = true -> measure_envelope e n = Ok total ->
  popcount (Z.land (Z.shiftr (cam c) 18) 7) = 1.
Proof.
  intros Hc Ha Hm. unfold measure_envelope in Hm. rewrite Hc in Hm. inv_ok.
  match goal with H : validate_cam e = Ok _ |- _ => unfold validate_cam in H; rewrite Hc, Ha in H; cbn [deref rbind] in H; rename H into Hv end.
  destruct (nonzero _) in Hv; [done|]. destruct (_ =? 3) in Hv; [done|]. destruct (_ && _) in Hv; [done|]. destruct (_ && _ && _ && _) in Hv; [done|].
  destruct (true && negb (popcount (Z.land (Z.shiftr (cam c) 18) 7) =? 1)) eqn:Epop; [done|]. cbn [andb] in Epop. by apply negb_false_iff, Z.eqb_eq in Epop.
Qed.

(** The packet a decoder returns for an acknowledgement. *)
Definition decoded_diagnostic (e : Envelope) (w r : bool) (warnings errors : PacketSnapshot) : PacketView :=
  let payload := diagnostic_payload w r warnings errors in
  mkPacketView (mkEnvelopeView (envelope_wire e) payload None (4 * (1 + zlen (prologue_words e))) (envelope_bytes e payload None))
    (group_views e DiagnosticGroup.warning w warnings ++ group_views e DiagnosticGroup.error r errors) D false false false.

Definition with_request (original : Z) : DecodeOptions := mkOptions (Some original) None limits_default.

Lemma decode_groups_at e warnings errors original output p c : snapshot_ok D N warnings -> snapshot_ok D N errors ->
  diagnostic_admitted e warnings errors original output p ->
  dp_warning p = bit_set c 17 && bit_set original 17 -> dp_error p = bit_set c 16 && bit_set original 16 ->
  (length (s_entries warnings) + length (s_entries errors) <= FIELD_CAPACITY)%nat ->
  (length (snapshot_pairs warnings) + length (snapshot_pairs errors) <= VIEW_CAPACITY)%nat ->
  decode_diagnostics (mkPacketView (pv_envelope (decoded_diagnostic e (dp_warning p) (dp_error p) warnings errors)) [] BodyKind.values false false false)
    c (with_request original) = Ok (decoded_diagnostic e (dp_warning p) (dp_error p) warnings errors).
Proof.
  intros Hw He Had Ew Er Hf Hp. rewrite decode_diagnostics_groups. cbv zeta. cbn [opt_request with_request is_none opt_limits]. rewrite andb_false_r.
  pose proof (diagnostic_payload_size _ _ _ _ _ _ Had) as Hsize. rewrite <- Ew, <- Er. set (w := dp_warning p) in *. set (r := dp_error p) in *.
  cbn [pv_envelope decoded_diagnostic ev_payload]. set (payload := diagnostic_payload w r warnings errors) in *.
  pose proof (da_warnings _ _ _ _ _ _ Had) as Hmw. pose proof (da_errors _ _ _ _ _ _ Had) as Hme.
  assert (Hmax : zlen payload <= U32_MAX).
  { pose proof (zlen_nonneg payload). pose proof (measure_measured e (dp_body p) (dp_total p) ltac:(lia) (da_measure _ _ _ _ _ _ Had)) as [].
    pose proof (zlen_nonneg (prologue_words e)). pose proof (b2z_range (env_trailer e)). unfold U32_MAX. Z.div_mod_to_equations. lia. }
  assert (Hids : zlen (s_ids warnings) + zlen (s_ids errors) <= 16) by (unfold zlen, s_ids; rewrite !length_fmap; unfold FIELD_CAPACITY in Hf; lia).
  pose proof (zlen_nonneg (s_ids warnings)). pose proof (zlen_nonneg (s_ids errors)).
  pose proof (parse_group w warnings (dp_warning_bytes p) payload [] (part r (group_header errors) ++ part w (group_body warnings) ++ part r (group_body errors)) 0 Hw Hmw eq_refl Hmax
    ltac:(lia) ltac:(unfold group_count; destruct w; lia)) as P1. cbn [app] in P1. change (zlen []) with 0 in P1.
  assert (P1' : (if w then let? (v, a) := parse_indicators FIELD_CAPACITY payload 0 false 0 in Ok (Some v, (a, plan_bytes v)) else Ok (None, (0, 0))) =
    Ok (group_plan w warnings, (0 + group_count w warnings, zlen (part w (group_header warnings))))).
  { rewrite <- P1. destruct w; [|done]. destruct (parse_indicators FIELD_CAPACITY payload 0 false 0) as [[v a]| |] eqn:Ev; cbn [rbind] in P1 |- *; [|done|done].
    assert (v = snapshot_plan warnings false) as -> by (cbn [group_plan] in P1; congruence). cbn [plan_bytes snapshot_plan].
    pose proof (layout_words_range (cif0_of warnings)). unfold header_size. do 3 f_equal. zlia. }
  rewrite P1'. cbn [rbind fst snd]. clear P1 P1'.
  rewrite (parse_group r errors (dp_error_bytes p) payload (part w (group_header warnings)) (part w (group_body warnings) ++ part r (group_body errors))
    (0 + group_count w warnings) He Hme eq_refl Hmax) by (unfold group_count; destruct w, r; lia). cbn [rbind fst snd].
  set (packet := set_body _ _ _). destruct (da_absent _ _ _ _ _ _ Had) as [_ _].
  pose proof (da_bits _ _ _ _ _ _ Had) as Hbits. apply Forall_app in Hbits as [Hb1 Hb2].
  assert (Hgv : forall g (b : bool) s, (length (group_views (envelope_wire e) g b s) <= length (snapshot_pairs s))%nat)
    by (intros g [] s; unfold group_views; cbn [part]; rewrite ?length_fmap; cbn; lia).
  pose proof (Hgv DiagnosticGroup.warning w warnings). pose proof (Hgv DiagnosticGroup.error r errors).
  rewrite (append_group_at w warnings (dp_warning_bytes p) packet (part w (group_header warnings) ++ part r (group_header errors)) (part r (group_body errors))
    DiagnosticGroup.warning 0 Hw Hmw); [|unfold packet; cbn [set_body pv_envelope ev_payload]; unfold payload, diagnostic_payload; by rewrite <- !app_assoc|done|done|
      unfold packet; cbn [set_body pv_fields length pv_envelope ev_envelope]; lia|
      unfold packet; cbn [set_body pv_envelope ev_envelope]; unfold zlen, VIEW_CAPACITY in *; lia].
  cbn [rbind fst snd]. change (ev_envelope (pv_envelope packet)) with (envelope_wire e). set (packet1 := add_views _ _).
  rewrite (append_group_at r errors (dp_error_bytes p) packet1 ((part w (group_header warnings) ++ part r (group_header errors)) ++ part w (group_body warnings)) []
    DiagnosticGroup.error _ He Hme); [|unfold packet1, packet; cbn [add_views set_body pv_envelope ev_payload]; unfold payload, diagnostic_payload; by rewrite app_nil_r, <- !app_assoc|done|done|
      unfold packet1, packet; cbn [add_views set_body pv_fields length pv_envelope ev_envelope app]; lia|
      unfold packet1, packet; cbn [add_views set_body pv_envelope ev_envelope]; unfold zlen, VIEW_CAPACITY in *; lia].
  cbn [rbind fst snd]. change (ev_envelope (pv_envelope packet1)) with (envelope_wire e).
  rewrite <- !app_assoc. fold payload. change (part w (group_header warnings) ++ part r (group_header errors) ++ part w (group_body warnings) ++ part r (group_body errors)) with payload.
  rewrite Z.eqb_refl. cbn [negb]. done.
Qed.
End Read.

(** ** Properties *)

(** A row of a decoded acknowledgement: the group, the field, the attribute and the word. *)
Definition diagnostic_row (group : DiagnosticGroup.t) (p : FieldEntry * Z) : DiagnosticGroup.t * FieldId * Z * Result Z :=
  (group, e_id p.1, p.2, Ok (e_diagnostic p.1)).

Lemma row_of_view N e group s : snapshot_ok D N s ->
  (fun v => (fv_group v, fv_id v, fv_attribute v, view_diagnostic v)) <$> (view_of D (envelope_binding e) group <$> snapshot_pairs s) =
  diagnostic_row group <$> snapshot_pairs s.
Proof.
  intros Hs. rewrite <- list_fmap_compose. apply list_fmap_ext. intros i p Hp. unfold compose, view_of, diagnostic_row. cbn [fv_group fv_id fv_attribute].
  unfold view_diagnostic. cbn [fv_kind fv_bytes element_bytes]. rewrite bool_decide_true by done. cbn [negb orb].
  assert (Hu : u32 (e_diagnostic p.1)).
  { apply list_elem_of_lookup_2 in Hp. apply pairs_of_elem in Hp as [Hf _]. pose proof (so_entries _ _ _ Hs) as Hall. rewrite list.Forall_forall in Hall. by apply (Hall _ Hf). }
  pose proof (load32_be32 _ [] Hu) as Hl. rewrite app_nil_r in Hl. rewrite Hl. done.
Qed.

(** C9. An acknowledgement's diagnostics survive the wire: for warnings and errors that
    builders can reach, together of at most 16 fields and with at most 64 selected attributes
    (the capacities of the default decoder; the encoder limits each group by itself), what
    the encoder writes decodes, by a receiver that knows the mode word of the request, to the
    same envelope with exactly the warnings and then the errors, each under its group, field
    and attribute and with its diagnostic word. *)
Theorem diagnostic_roundtrip N warnings errors e original output n output' :
  builder_reachable BodyKind.diagnostics N warnings -> builder_reachable BodyKind.diagnostics N errors -> envelope_typed e ->
  (length (s_entries warnings) + length (s_entries errors) <= FIELD_CAPACITY)%nat ->
  (length (snapshot_pairs warnings) + length (snapshot_pairs errors) <= VIEW_CAPACITY)%nat ->
  encode_diagnostic e warnings errors original output = Ok (n, output') ->
  exists packet, decode_packet (take (Z.to_nat n) output') (with_request original) = Ok packet /\
    ev_envelope (pv_envelope packet) = envelope_wire e /\ pv_body_kind packet = BodyKind.diagnostics /\ pv_opaque packet = false /\
    (fun v => (fv_group v, fv_id v, fv_attribute v, view_diagnostic v)) <$> pv_fields packet =
    (diagnostic_row DiagnosticGroup.warning <$> snapshot_pairs warnings) ++ (diagnostic_row DiagnosticGroup.error <$> snapshot_pairs errors).
Proof.
  intros Hrw Hre T Hf Hp Henc. pose proof (builder_reachable_ok _ _ _ Hrw) as Hw. pose proof (builder_reachable_ok _ _ _ Hre) as He.
  pose proof (diagnostic_preflight_ok N e warnings errors original output Hw He) as Hpre.
  destruct (diagnostic_preflight e warnings errors original output) as [p|x|] eqn:Epre; [|unfold encode_diagnostic in Henc; by rewrite Epre in Henc..].
  cbn [returns] in Hpre. rename Hpre into Had. rewrite (encode_diagnostic_admitted N e warnings errors original output p Hw He Epre Had) in Henc.
  set (payload := diagnostic_payload (dp_warning p) (dp_error p) warnings errors) in *.
  assert (n = dp_total p) as -> by congruence. assert (output' = envelope_bytes e payload None ++ drop (Z.to_nat (dp_total p)) output) as -> by congruence.
  pose proof (diagnostic_payload_size _ _ _ _ _ _ Had) as Hsize. fold payload in Hsize. pose proof (zlen_nonneg payload).
  pose proof (da_measure _ _ _ _ _ _ Had) as Hm. pose proof (diagnostic_trailer _ _ _ _ _ _ Had) as Htr.
  assert (Hlen : zlen (envelope_bytes e payload None) = dp_total p).
  { apply (envelope_bytes_length e _ None (dp_body p)); [apply measure_measured; [lia|done]|done|done]. }
  rewrite take_app_length' by (unfold zlen in Hlen; lia). exists (decoded_diagnostic e (dp_warning p) (dp_error p) warnings errors).
  split; [|split_and!; [done|done|done|]].
  - unfold decode_packet. rewrite (decode_envelope_bytes e payload None (dp_total p) T I Htr) by (by rewrite Hsize).
    cbn [rbind ev_envelope opt_expected_class with_request]. cbv zeta. change (env_type (envelope_wire e)) with (env_type e).
    rewrite (da_type _ _ _ _ _ _ Had). cbn [is_data is_extension]. destruct (da_command _ _ _ _ _ _ Had) as (c & Hc & Hcam & Ew & Er).
    change (PacketType.command =? PacketType.context) with false. change (is_data PacketType.command || is_extension PacketType.command) with false. cbv iota.
    change (command (envelope_wire e)) with (command_wire <$> command e). rewrite Hc. cbn [fmap option_fmap option_map deref rbind].
    change (ack (envelope_wire e)) with (ack e). rewrite (da_ack _ _ _ _ _ _ Had). change (cam (command_wire c)) with (cam c). cbn [negb orb].
    assert (bit_set (cam c) 18 = false) as ->.
    { apply diagnostic_cam; [|eapply ack_popcount; [done|by apply (da_ack _ _ _ _ _ _ Had)|exact Hm]|done]. destruct T as (_ & _ & _ & _ & _ & Tc). rewrite Hc in Tc. apply Tc. }
    by apply (decode_groups_at N e warnings errors original output).
  - cbn [decoded_diagnostic pv_fields]. rewrite fmap_app. destruct (da_absent _ _ _ _ _ _ Had) as [Ha1 Ha2]. f_equal.
    + destruct (dp_warning p); [by apply (row_of_view N)|]. unfold snapshot_pairs. by rewrite Ha1.
    + destruct (dp_error p); [by apply (row_of_view N)|]. unfold snapshot_pairs. by rewrite Ha2.
Qed.

(** ** Witnesses *)

(** A warning on the gain and an error on the bandwidth. *)
Definition one_diagnostic (id : FieldId) (bits : Z) : PacketSnapshot :=
  match diagnostic 16 (builder_new PacketSubtype.diagnostic_ack) id bits with Ok s => s | _ => builder_new PacketSubtype.diagnostic_ack end.

Lemma one_diagnostic_reachable id bits : 0 <= cif id -> 0 <= fbit id -> u32 bits -> valid_field_selector id = true ->
  builder_reachable BodyKind.diagnostics 16 (one_diagnostic id bits).
Proof.
  intros H1 H2 H3 Hv. unfold one_diagnostic. destruct (diagnostic 16 _ id bits) as [s|x|] eqn:E; [|by apply reach_new..].
  by apply (reach_diagnostic _ _ (builder_new PacketSubtype.diagnostic_ack) _ id bits eq_refl); [apply reach_new|..].
Qed.

Definition demo_ack : Envelope :=
  mkEnvelope PacketType.command 0 (Some 7) None (mkTimestamp 0 0 0 0) false false false false true false
    (Some (mkCommand (Z.lor (Z.lor (Z.shiftl 1 20) (Z.shiftl 1 17)) (Z.shiftl 1 16)) 99 Identifier_default Identifier_default)).

Lemma demo_ack_typed : envelope_typed demo_ack.
Proof.
  unfold envelope_typed, demo_ack. cbn [env_type packet_count stream_id class_id timestamp command from_option].
  unfold command_typed, identifier_typed, timestamp_typed, Identifier_default, id_words. cbn [cam message_id controllee controller id_kind id_w0 id_w1 id_w2 id_w3 tsi tsf ts_integer ts_fractional].
  rewrite !list.Forall_cons. repeat split; try apply List.Forall_nil; vm_compute; congruence.
Qed.

Definition demo_request : Z := Z.lor (Z.shiftl 1 17) (Z.shiftl 1 16).

Lemma diagnostic_roundtrip_witness : exists n output' packet,
  encode_diagnostic demo_ack (one_diagnostic Field.Gain 0x80000000) (one_diagnostic Field.Bandwidth 0x20000000) demo_request (replicate 40 xff) = Ok (n, output') /\
  decode_packet (take (Z.to_nat n) output') (with_request demo_request) = Ok packet /\
  (fun v => (fv_group v, fv_id v, fv_attribute v, view_diagnostic v)) <$> pv_fields packet =
    [(DiagnosticGroup.warning, Field.Gain, 0, Ok 0x80000000); (DiagnosticGroup.error, Field.Bandwidth, 0, Ok 0x20000000)].
Proof.
  destruct (encode_diagnostic demo_ack (one_diagnostic Field.Gain 0x80000000) (one_diagnostic Field.Bandwidth 0x20000000) demo_request (replicate 40 xff))
    as [[n output']|x|] eqn:E; [|vm_compute in E; discriminate E..].
  destruct (diagnostic_roundtrip 16 (one_diagnostic Field.Gain 0x80000000) (one_diagnostic Field.Bandwidth 0x20000000) demo_ack demo_request (replicate 40 xff) n output')
    as (packet & Hd & _ & _ & _ & Hrows).
  - apply one_diagnostic_reachable; vm_compute; (reflexivity || (split; discriminate) || discriminate).
  - apply one_diagnostic_reachable; vm_compute; (reflexivity || (split; discriminate) || discriminate).
  - apply demo_ack_typed.
  - vm_compute. lia.
  - vm_compute. lia.
  - exact E.
  - exists n, output', packet. split; [reflexivity|]. split; [exact Hd|]. rewrite Hrows. vm_compute. reflexivity.
Defined.
