(* ===== verification/Extensions.v ===== *)
(** * Extension packet classes: [include/vita/codec/extensions.hpp]

    A bounded registry of vendor packet classes: registration and its checks, the policy
    of a class, validation of a received packet, dispatch under authorization, and
    encoding.  The callbacks of a class (validate, measure, encode, dispatch) and the
    host's authorization are parameters: they read and change an application state of any
    type and draw on the work budget they are handed. *)

From S2P Require Import Prelude Wire WireProofs.

(** ** Computations that may fail and change a state *)

Definition Run (S A : Type) : Type := S -> Result A * S.

Definition run_ret {S A} (a : A) : Run S A := fun s => (Ok a, s).
Definition run_bind {S A B} (m : Run S A) (k : A -> Run S B) : Run S B := fun s =>
  let '(r, s) := m s in
  match r with Ok a => k a s | Err e => (Err e, s) | UB => (UB, s) end.
(** A pure step, and a step on the first part of the state. *)
Definition pure {S A} (r : Result A) : Run S A := fun s => (r, s).
Definition zoom {S T A} (m : Run S A) : Run (S * T) A := fun s =>
  let '(r, s1) := m s.1 in (r, (s1, s.2)).

Notation "'let!' x ':=' m 'in' k" := (run_bind m (fun x => k))
  (at level 10, x pattern, m at level 200, k at level 200) : vrt_scope.

(** ** Classes *)

Record ClassKey := mkClassKey { ck_family : Z; ck_oui : Z; ck_information_class : Z; ck_packet_class : Z }.
#[global] Instance ClassKey_eq_dec : EqDecision ClassKey.
Proof. solve_decision. Defined.

Module HeaderFlag.
Definition trailer_flag : Z := 1.
Definition nd0_flag : Z := 2.
Definition spectrum_flag : Z := 4.
Definition tsm_flag : Z := 8.
Definition ack_flag : Z := 16.
Definition cancel_flag : Z := 32.
End HeaderFlag.

Record HeaderRules := mkHeaderRules {
  allowed_flags : Z; required_flags : Z; tsi_mask : Z; tsf_mask : Z;
  controllee_kinds : Z; controller_kinds : Z; allowed_pad_counts : Z }.
Definition HeaderRules_default : HeaderRules := mkHeaderRules 0 0 1 1 7 7 1.

(** [WorkBudget::consume] on the remaining units. *)
Definition consume (remaining units : Z) : Result unit * Z :=
  if remaining <? units then (Err (error1 ErrorCode.resource_limit), remaining) else (Ok tt, remaining - units).

(** [1u<<n] is undefined for [n] of 32 and more. *)
Definition shl1 (n : Z) : Result Z := if (n <? 0) || (32 <=? n) then UB else Ok (Z.shiftl 1 n).
Definition lacks (mask n : Z) : Result bool := let? b := shl1 n in Ok (Z.land mask b =? 0).
(** [a || b] where evaluating [b] may be undefined. *)
Definition or_else (a b : Result bool) : Result bool := let? x := a in if x then Ok true else b.

(** [detail::flags] *)
Definition flags (e : Envelope) : Z :=
  Z.lor (Z.lor (Z.lor (Z.lor (Z.lor (if env_trailer e then HeaderFlag.trailer_flag else 0)
    (if nd0 e then HeaderFlag.nd0_flag else 0)) (if spectrum e then HeaderFlag.spectrum_flag else 0))
    (if tsm e then HeaderFlag.tsm_flag else 0)) (if ack e then HeaderFlag.ack_flag else 0))
    (if cancel e then HeaderFlag.cancel_flag else 0).

Definition key_of (e : Envelope) (c : ClassId) : ClassKey :=
  mkClassKey (env_type e) (oui c) (information_class c) (packet_class c).

Section Registry.
(** The application state behind the [context] pointers, and the values an encoder is
    given ([const void* state]). *)
Context {App Value : Type}.

Notation World := (App * Z)%type.

Record Descriptor := mkDescriptor {
  d_key : ClassKey; d_header : HeaderRules; min_payload : Z; max_payload : Z;
  control_cam_extensions : Z; ack_cam_extensions : Z;
  d_validate : option (EnvelopeView -> Run World unit);
  d_measure : option (Value -> Run World Z);
  d_encode : option (Value -> list byte -> World -> Result unit * list byte * World);
  d_dispatch : option (EnvelopeView -> Run App unit) }.

(** The policy's tests of the header, of the payload extent and of the command. *)
Definition header_refused (d : Descriptor) (e : Envelope) (c : ClassId) : Result bool :=
  let f := flags e in
  let h := d_header d in
  or_else (Ok (nonzero (Z.ldiff f (allowed_flags h)) || negb (Z.land f (required_flags h) =? required_flags h)))
  (or_else (lacks (tsi_mask h) (tsi (timestamp e)))
  (or_else (lacks (tsf_mask h) (tsf (timestamp e)))
           (lacks (allowed_pad_counts h) (pad_bits c)))).

(** [detail::class_policy] *)
Definition class_policy (d : Descriptor) (e : Envelope) (payload : Z) : Result unit :=
  let unsupported := error1 ErrorCode.unsupported_capability in
  match class_id e with
  | None => Err unsupported
  | Some c =>
      fail_if negb (bool_decide (key_of e c = d_key d)) with unsupported ;;
      let? refused := header_refused d e c in
      fail_if refused with unsupported ;;
      fail_if (payload <? min_payload d) || (max_payload d <? payload) with error1 ErrorCode.invalid_argument ;;
      match command e with
      | None => Ok tt
      | Some cmd =>
          let permitted := if ack e then ack_cam_extensions d else control_cam_extensions d in
          fail_if nonzero (Z.ldiff (Z.land (cam cmd) 0xff) permitted) with unsupported ;;
          let? refused := or_else (lacks (controllee_kinds (d_header d)) (id_kind (controllee cmd)))
                                  (lacks (controller_kinds (d_header d)) (id_kind (controller cmd))) in
          fail_if refused with unsupported ;;
          Ok tt
      end
  end.

(** ** The registry

    [r_entries] is the used part of the array [entries_], and [r_address] stands for the
    address of the registry, which a validated packet remembers. *)
Record Registry := mkRegistry { r_address : Z; r_entries : list Descriptor; r_frozen : bool }.
Context (Capacity : nat).

Definition absent : Z := SIZE_MAX.

Definition registry_new (address : Z) : Registry := mkRegistry address [] false.

Definition find (r : Registry) (e : Envelope) : Z :=
  match class_id e with
  | None => absent
  | Some c => match first_index (fun d => bool_decide (d_key d = key_of e c)) (r_entries r) with
              | Some i => Z.of_nat i | None => absent end
  end.

(** [entries_[index]] *)
Definition entry (r : Registry) (index : Z) : Result Descriptor :=
  if index <? 0 then UB else deref (r_entries r !! Z.to_nat index).

Definition invalid_descriptor (d : Descriptor) : bool :=
  let h := d_header d in
  negb (is_extension (ck_family (d_key d))) || (7 <? ck_family (d_key d)) || (0xffffff <? ck_oui (d_key d)) ||
  (max_payload d <? min_payload d) || (65535 * 4 <? max_payload d) || nonzero (min_payload d mod 4) ||
  nonzero (max_payload d mod 4) || negb (is_some (d_validate d)) ||
  negb (Bool.eqb (is_some (d_measure d)) (is_some (d_encode d))) ||
  nonzero (Z.ldiff (Z.lor (control_cam_extensions d) (ack_cam_extensions d)) 0xfe) ||
  nonzero (Z.ldiff (allowed_flags h) 63) || nonzero (Z.ldiff (required_flags h) (allowed_flags h)) ||
  negb (nonzero (tsi_mask h)) || nonzero (Z.ldiff (tsi_mask h) 15) ||
  negb (nonzero (tsf_mask h)) || nonzero (Z.ldiff (tsf_mask h) 15) ||
  negb (nonzero (controllee_kinds h)) || nonzero (Z.ldiff (controllee_kinds h) 7) ||
  negb (nonzero (controller_kinds h)) || nonzero (Z.ldiff (controller_kinds h) 7) ||
  negb (nonzero (allowed_pad_counts h)).

Definition add (r : Registry) (d : Descriptor) : Result unit * Registry :=
  let refuse c := (Err (error1 c), r) in
  if r_frozen r then refuse ErrorCode.invalid_state else
  if invalid_descriptor d then refuse ErrorCode.invalid_argument else
  if negb (ck_family (d_key d) =? PacketType.extension_command) &&
     (nonzero (control_cam_extensions d) || nonzero (ack_cam_extensions d)) then refuse ErrorCode.invalid_argument else
  if existsb (fun d' => bool_decide (d_key d' = d_key d)) (r_entries r) then refuse ErrorCode.identity_conflict else
  if (length (r_entries r) =? Capacity)%nat then refuse ErrorCode.capacity_exhausted else
  (Ok tt, mkRegistry (r_address r) (r_entries r ++ [d]) (r_frozen r)).

Definition freeze (r : Registry) : Registry := mkRegistry (r_address r) (r_entries r) true.

(** ** Receiving *)

Record ValidatedPacket := mkValidated { vp_registry : Z; vp_index : Z; vp_view : EnvelopeView }.
Definition opaque (p : ValidatedPacket) : bool := vp_index p =? absent.

(** A charge to the budget of the state. *)
Definition charge (units : Z) : Run World unit := fun s =>
  let '(r, left_over) := consume s.2 units in (r, (s.1, left_over)).

Definition validate (r : Registry) (wire : list byte) : Run World ValidatedPacket :=
  let! _ := pure (fail_if negb (r_frozen r) with error1 ErrorCode.invalid_state ;; Ok tt) in
  let! view := pure (decode_envelope wire) in
  let e := ev_envelope view in
  let! _ := pure (fail_if negb (is_extension (env_type e)) with error1 ErrorCode.invalid_argument ;; Ok tt) in
  let! _ := charge (1 + zlen (ev_payload view) / 4) in
  let! _ := pure (fail_if (match command e with Some c => nonzero (Z.land (cam c) 1) | None => false end)
                    with error1 ErrorCode.invalid_argument ;; Ok tt) in
  let index := find r e in
  let! _ := (if negb (index =? absent) then
      let! d := pure (entry r index) in
      let! _ := pure (class_policy d e (zlen (ev_payload view))) in
      let! f := pure (deref (d_validate d)) in
      f view
    else run_ret tt) in
  run_ret (mkValidated (r_address r) index view).

(** [authorize] is the host's authorization, absent when the host gave none. *)
Definition dispatch (r : Registry) (packet : ValidatedPacket)
    (authorize : option (ClassKey -> EnvelopeView -> Run App unit)) : Run App unit :=
  let unsupported := error1 ErrorCode.unsupported_capability in
  let! _ := pure (fail_if negb (r_frozen r) || negb (vp_registry packet =? r_address r) || opaque packet
                    with unsupported ;; Ok tt) in
  let! d := pure (entry r (vp_index packet)) in
  match authorize, d_dispatch d with
  | Some authorize, Some call =>
      let! _ := authorize (d_key d) (vp_view packet) in
      call (vp_view packet)
  | _, _ => pure (Err unsupported)
  end.

(** ** Sending

    The output is a part of the state: once the encoder of the class has run, a failure
    leaves what it wrote. *)
Definition write_payload (f : Value -> list byte -> World -> Result unit * list byte * World)
    (value : Value) (offset payload : Z) : Run (World * list byte) unit := fun s =>
  match subspan s.2 offset payload with
  | Ok target =>
      let '(r, target', world) := f value target s.1 in
      match memmove s.2 offset target' with
      | Ok output => (r, (world, output))
      | Err e => (Err e, s)
      | UB => (UB, s)
      end
  | Err e => (Err e, s)
  | UB => (UB, s)
  end.

(** [encode_envelope(envelope,target,trailer,output)] with the target inside the output. *)
Definition write_envelope (e : Envelope) (offset payload : Z) (trailer : option Z) : Run (World * list byte) Z := fun s =>
  match (let? target := subspan s.2 offset payload in encode_envelope e target trailer s.2) with
  | Ok (written, output) => (Ok written, (s.1, output))
  | Err e => (Err e, s)
  | UB => (UB, s)
  end.

Definition encode (r : Registry) (e : Envelope) (value : Value) (trailer : option Z) : Run (World * list byte) Z :=
  let unsupported := error1 ErrorCode.unsupported_capability in
  let! _ := pure (fail_if negb (r_frozen r) with error1 ErrorCode.invalid_state ;; Ok tt) in
  let index := find r e in
  let! _ := pure (fail_if index =? absent with unsupported ;; Ok tt) in
  let! d := pure (entry r index) in
  match d_measure d, d_encode d with
  | Some measure, Some enc =>
      let! _ := zoom (charge 1) in
      let! payload := zoom (measure value) in
      let! total := pure (measure_envelope e payload) in
      let! _ := pure (fail_if negb (Bool.eqb (env_trailer e) (is_some trailer)) with error1 ErrorCode.invalid_argument ;; Ok tt) in
      let! _ := pure (class_policy d e payload) in
      let! _ := (fun s => (fail_if zlen s.2 <? total with error3 ErrorCode.short_output 0 total ;; Ok tt, s)) in
      let! _ := zoom (charge (payload / 4)) in
      let offset := total - payload - (if is_some trailer then 4 else 0) in
      let! _ := write_payload enc value offset payload in
      let! written := write_envelope e offset payload trailer in
      let! candidate := (fun s => (let? packet := subspan s.2 0 written in decode_envelope packet, s)) in
      let! f := pure (deref (d_validate d)) in
      let! _ := zoom (f candidate) in
      run_ret written
  | _, _ => pure (Err unsupported)
  end.

End Registry.

(** ** Reasoning about runs

    [wp m s Q E]: the run of [m] from [s] is defined; [Q] holds of its value and state when
    it succeeds, and [E] of the state when it fails. *)
Definition wp {S A} (m : Run S A) (s : S) (Q : A -> S -> Prop) (E : S -> Prop) : Prop :=
  match m s with (Ok a, s') => Q a s' | (Err _, s') => E s' | (UB, _) => False end.

Lemma wp_bind {S A B} (m : Run S A) (k : A -> Run S B) s Q E :
  wp m s (fun a s' => wp (k a) s' Q E) E -> wp (run_bind m k) s Q E.
Proof. unfold wp, run_bind. by destruct (m s) as [[a|e|] s']. Qed.

Lemma wp_pure {S A} (r : Result A) (s : S) Q (E : S -> Prop) :
  safe r -> E s -> (forall a, r = Ok a -> Q a s) -> wp (pure r) s Q E.
Proof. unfold wp, pure. intros Hs HE HQ. destruct r; [by apply HQ|done|done]. Qed.

Lemma wp_zoom {S T A} (m : Run S A) (s : S * T) Q (E : S * T -> Prop) :
  wp m s.1 (fun a s' => Q a (s', s.2)) (fun s' => E (s', s.2)) -> wp (zoom m) s Q E.
Proof. unfold wp, zoom. by destruct (m s.1) as [[]]. Qed.

Lemma wp_guard {S} (c : bool) e (s : S) (Q : unit -> S -> Prop) (E : S -> Prop) :
  E s -> (c = false -> Q tt s) -> wp (pure (if c then Err e else Ok tt)) s Q E.
Proof. intros HE HQ. apply wp_pure; [by destruct c|done|]. intros []. destruct c; auto; done. Qed.

Lemma wp_mono {S A} (m : Run S A) s (Q Q' : A -> S -> Prop) (E E' : S -> Prop) :
  wp m s Q E -> (forall a s', Q a s' -> Q' a s') -> (forall s', E s' -> E' s') -> wp m s Q' E'.
Proof. unfold wp. destruct (m s) as [[]]; auto. Qed.

(** A run that succeeds satisfies its postcondition. *)
Lemma wp_Ok {S A} (m : Run S A) s Q E a s' : wp m s Q E -> m s = (Ok a, s') -> Q a s'.
Proof. unfold wp. intros H Hm. by rewrite Hm in H. Qed.
Lemma wp_safe {S A} (m : Run S A) s Q E : wp m s Q E -> safe (m s).1.
Proof. unfold wp. by destruct (m s) as [[]]. Qed.

(** ** The invariant of a registry *)

Section Laws.
Context {App Value : Type} (Capacity : nat).
Notation World := (App * Z)%type.
Notation Descriptor := (@Descriptor App Value).
Notation Registry := (@Registry App Value).

(** What is asked of the callbacks of a class: they are defined, a measured size is a
    [size_t], and an encoder leaves a buffer of the size it was given. *)
Record descriptor_laws (d : Descriptor) : Prop := mkLaws {
  l_validate : forall f view s, d_validate d = Some f -> safe (f view s).1;
  l_measure : forall f value s, d_measure d = Some f -> wp (f value) s (fun n _ => 0 <= n <= SIZE_MAX) (fun _ => True);
  l_encode : forall f value target s, d_encode d = Some f ->
    safe (f value target s).1.1 /\ length (f value target s).1.2 = length target;
  l_dispatch : forall f view s, d_dispatch d = Some f -> safe (f view s).1 }.

Record registry_ok (r : Registry) : Prop := mkRegistryOk {
  ro_keys : NoDup (d_key <$> r_entries r);
  ro_size : (length (r_entries r) <= Capacity)%nat;
  ro_entries : Forall (fun d => invalid_descriptor d = false /\ descriptor_laws d) (r_entries r) }.

(** The registries a program can build. *)
Inductive registry_reachable (address : Z) : Registry -> Prop :=
  | reach_new : registry_reachable address (registry_new address)
  | reach_add r d : registry_reachable address r -> descriptor_laws d -> registry_reachable address (add Capacity r d).2
  | reach_freeze r : registry_reachable address r -> registry_reachable address (freeze r).

Lemma add_ok r d : registry_ok r -> descriptor_laws d -> registry_ok (add Capacity r d).2.
Proof.
  intros [Hk Hs He] Hd. unfold add. test_goal E1; [done|]. test_goal E2; [done|]. test_goal E3; [done|].
  destruct (existsb _ _) eqn:Ex; [done|]. destruct (Nat.eqb_spec (length (r_entries r)) Capacity); [done|]. cbn [snd].
  split; cbn [r_entries].
  - rewrite fmap_app. apply list.NoDup_app. split_and!; [done| |apply NoDup_singleton].
    intros k Hin ->%list_elem_of_singleton. apply list_elem_of_fmap in Hin as (d' & Ek & Hin).
    assert (existsb (fun d' => bool_decide (d_key d' = d_key d)) (r_entries r) = true); [|congruence].
    apply existsb_exists. exists d'. split; [by apply list_elem_of_In|]. by apply bool_decide_eq_true.
  - rewrite length_app. simpl. lia.
  - apply Forall_app. split; [done|]. by apply Forall_singleton.
Qed.

Lemma registry_reachable_ok address r : registry_reachable address r -> registry_ok r /\ r_address r = address.
Proof.
  induction 1 as [|r d _ [IH <-] Hd|r _ [IH <-]].
  - split; [|done]. split; [constructor|simpl; lia|constructor].
  - split; [by apply add_ok|]. unfold add. by repeat case_match.
  - split; [by destruct IH|done].
Qed.

Lemma reachable_entry r index d : registry_ok r -> entry r index = Ok d ->
  invalid_descriptor d = false /\ descriptor_laws d /\ r_entries r !! Z.to_nat index = Some d.
Proof.
  intros [_ _ He]. unfold entry. test_goal E; [done|]. destruct (r_entries r !! _) as [d'|] eqn:Hi; [|done]. intros [= <-].
  destruct (Forall_lookup_1 _ _ _ _ He Hi). done.
Qed.

(** [find] gives an index of the class of the packet, or nothing. *)
Lemma find_spec r e : registry_ok r -> Z.of_nat Capacity <= SIZE_MAX -> find r e <> absent ->
  exists c d, class_id e = Some c /\ entry r (find r e) = Ok d /\ d_key d = key_of e c.
Proof.
  intros [_ Hs _] Hc. unfold find. destruct (class_id e) as [c|]; [|done].
  destruct (first_index _ _) as [i|] eqn:Ei; [|done]. intros _. exists c.
  apply first_index_Some in Ei as [(d & Hd & Hk) _]. apply bool_decide_eq_true in Hk. exists d.
  unfold entry. rewrite (proj2 (Z.ltb_ge _ _)), Nat2Z.id, Hd by lia. done.
Qed.

(** An entry is always found at an index other than [absent]. *)
Lemma find_of_key r e c i d : registry_ok r -> Z.of_nat Capacity <= SIZE_MAX ->
  class_id e = Some c -> r_entries r !! i = Some d -> d_key d = key_of e c -> find r e = Z.of_nat i.
Proof.
  intros [Hk Hs _] Hc He Hi Hd. unfold find. rewrite He.
  assert (first_index (fun d => bool_decide (d_key d = key_of e c)) (r_entries r) = Some i) as ->; [|done].
  apply first_index_Some. split; [exists d; split; [done|by apply bool_decide_eq_true]|].
  intros j d' Hlt Hj. apply bool_decide_eq_false. intros Hd'.
  assert (j = i); [|lia]. apply (NoDup_lookup _ _ _ (d_key d) Hk); rewrite list_lookup_fmap; [rewrite Hj; simpl; congruence|by rewrite Hi].
Qed.

(** ** The policy *)

Lemma or_else_safe a b : safe a -> (a = Ok false -> safe b) -> safe (or_else a b).
Proof. intros Ha Hb. destruct a as [[]|e|]; cbn; [done|by apply Hb|done|done]. Qed.

Lemma lacks_safe mask n : 0 <= n < 32 -> safe (lacks mask n).
Proof. intros Hn. unfold lacks, shl1. rewrite (proj2 (Z.ltb_ge _ _)), (proj2 (Z.leb_gt _ _)) by lia. done. Qed.

Lemma check_id_kind c i en uu : check_id c i en uu = true -> id_kind i <= 2.
Proof. unfold check_id. destruct (Z.ltb_spec 2 (id_kind i)); [done|lia]. Qed.

Lemma class_policy_safe (d : Descriptor) e n size payload : envelope_typed e -> measured e n size ->
  safe (class_policy d e payload).
Proof.
  intros (_ & _ & _ & Tc & (T1 & T2 & _) & Tm) M. unfold class_policy. destruct (class_id e) as [c|] eqn:Ec; [|done].
  destruct (m_class _ _ _ M _ Ec) as [_ Hpad]. pose proof (m_tsi _ _ _ M). pose proof (m_tsf _ _ _ M).
  destruct Tc as (_ & _ & _ & Tp). test_goal E1; [done|]. apply rbind_safe.
  { unfold header_refused. unfold_words. repeat (apply or_else_safe; [|intros _]); try done; apply lacks_safe; lia. }
  intros refused _. test_goal E2; [done|]. test_goal E3; [done|]. destruct (command e) as [cmd|] eqn:Em; [|done].
  destruct (m_ids _ _ _ M _ Em) as [I1 I2]. apply check_id_kind in I1, I2. destruct Tm as (_ & _ & [K1 _] & [K2 _]).
  test_goal E4; [done|]. apply rbind_safe; [|by intros [] _].
  apply or_else_safe; [|intros _]; apply lacks_safe; lia.
Qed.

(** The policy sees of an envelope only what is on the wire. *)
Lemma class_policy_wire (d : Descriptor) e payload : class_policy d (envelope_wire e) payload = class_policy d e payload.
Proof.
  assert (Hk : forall i, id_kind (identifier_wire i) = id_kind i).
  { intros i. unfold identifier_wire. destruct (Z.eqb_spec (id_kind i) IdentifierKind.absent) as [E|]; [done|].
    destruct (Z.eqb_spec (id_kind i) IdentifierKind.short_id) as [E|]; done. }
  unfold class_policy, envelope_wire, header_refused, flags, key_of. cbn. destruct (class_id e); [|done].
  destruct (command e); [|done]. cbn. by rewrite !Hk.
Qed.

(** A class policy that accepts has found the class of the descriptor. *)
Lemma class_policy_key (d : Descriptor) e payload : class_policy d e payload = Ok tt ->
  exists c, class_id e = Some c /\ d_key d = key_of e c /\ min_payload d <= payload <= max_payload d.
Proof.
  unfold class_policy. destruct (class_id e) as [c|]; [|done].
  destruct (bool_decide (key_of e c = d_key d)) eqn:Ek; [|done]. cbn [negb]. apply bool_decide_eq_true in Ek.
  intros ([] & _ & H)%rbind_Ok; [done|]. destruct (_ || _) eqn:El in H; [done|].
  apply orb_false_iff in El as [?%Z.ltb_ge ?%Z.ltb_ge]. eauto.
Qed.

(** ** Every operation is defined *)

Lemma wp_charge (units : Z) (s : World) (Q : unit -> World -> Prop) (E : World -> Prop) :
  E s -> (units <= s.2 -> Q tt (s.1, s.2 - units)) -> wp (charge units) s Q E.
Proof.
  unfold wp, charge, consume. destruct (Z.ltb_spec s.2 units); intros HE HQ; [by destruct s|by apply HQ].
Qed.

(** A packet the decoder accepts: its members have their types and its extents are measured. *)
Lemma decoded_measured wire view : decode_envelope wire = Ok view ->
  envelope_typed (ev_envelope view) /\ measured (ev_envelope view) (zlen (ev_payload view)) (zlen wire).
Proof.
  intros H. destruct (decode_envelope_complete _ _ H) as (_ & T & _ & _ & Hm & _).
  split; [done|]. apply measure_measured; [unfold zlen; lia|done].
Qed.

(** What a validated packet is. *)
Definition validated_ok (r : Registry) (wire : list byte) (p : ValidatedPacket) : Prop :=
  r_frozen r = true /\ vp_registry p = r_address r /\ decode_envelope wire = Ok (vp_view p) /\
  is_extension (env_type (ev_envelope (vp_view p))) = true /\
  (opaque p = false -> exists d, entry r (vp_index p) = Ok d /\
     class_policy d (ev_envelope (vp_view p)) (zlen (ev_payload (vp_view p))) = Ok tt).

Lemma validate_wp r wire s : registry_ok r -> Z.of_nat Capacity <= SIZE_MAX ->
  wp (validate r wire) s (fun p _ => validated_ok r wire p) (fun _ => True).
Proof.
  intros Hr Hc. unfold validate. apply wp_bind, wp_guard; [done|]. intros Hf%negb_false_iff.
  apply wp_bind, wp_pure; [apply decode_envelope_safe_aux|done|]. intros view Hv. cbv zeta.
  destruct (decoded_measured _ _ Hv) as [T M].
  apply wp_bind, wp_guard; [done|]. intros Hx%negb_false_iff. apply wp_bind, wp_charge; [done|]. intros _.
  apply wp_bind, wp_guard; [done|]. intros _. destruct (Z.eqb_spec (find r (ev_envelope view)) absent) as [Ea|Ea]; cbn [negb].
  - apply wp_bind. unfold wp, run_ret. unfold validated_ok, opaque. cbn [vp_registry vp_view vp_index]. rewrite Ea.
    by split_and!.
  - destruct (find_spec r (ev_envelope view) Hr Hc Ea) as (c & d & _ & Hd & _).
    destruct (reachable_entry _ _ _ Hr Hd) as (Hdesc & L & _).
    apply wp_bind, wp_bind, wp_pure; [by rewrite Hd|done|]. intros d' Hd'. rewrite Hd in Hd'. injection Hd' as <-.
    apply wp_bind, wp_pure; [by apply (class_policy_safe _ _ _ _ _ T M)|done|]. intros [] Hp.
    apply wp_bind, wp_pure; [|done|].
    { unfold invalid_descriptor in Hdesc. rewrite !orb_false_iff in Hdesc. destruct (d_validate d); [done|].
      repeat match goal with H : _ /\ _ |- _ => destruct H end. done. }
    intros f Hval. destruct (d_validate d) as [f'|] eqn:Ef; [injection Hval as <-|done].
    pose proof (l_validate _ L f' view (s.1, s.2 - (1 + zlen (ev_payload view) / 4)) Ef) as Hs.
    unfold wp at 1. destruct (f' view _) as [[[]|e|] s1]; cbn [fst] in Hs; [|done|done].
    unfold wp, run_ret. split_and!; try done. intros _. eauto.
Qed.

Lemma dispatch_wp r wire p authorize s : registry_ok r -> validated_ok r wire p ->
  (forall f k v s, authorize = Some f -> safe (f k v s).1) -> safe (dispatch r p authorize s).1.
Proof.
  intros Hr (_ & _ & _ & _ & Hp) Ha. apply (wp_safe _ _ (fun _ _ => True) (fun _ => True)). unfold dispatch.
  apply wp_bind, wp_guard; [done|]. intros [_ Ho]%orb_false_iff. destruct (Hp Ho) as (d & Hd & _).
  destruct (reachable_entry _ _ _ Hr Hd) as (_ & L & _).
  apply wp_bind, wp_pure; [by rewrite Hd|done|]. intros d' Hd'. rewrite Hd in Hd'. injection Hd' as <-.
  destruct authorize as [f|]; [|by unfold wp, pure]. destruct (d_dispatch d) as [g|] eqn:Eg; [|by unfold wp, pure].
  apply wp_bind. pose proof (Ha f (d_key d) (vp_view p) s eq_refl) as Hs. unfold wp at 1.
  destruct (f (d_key d) (vp_view p) s) as [[[]|e|] s1]; cbn [fst] in Hs; [|done|done].
  pose proof (l_dispatch _ L g (vp_view p) s1 Eg) as Hg. unfold wp. by destruct (g (vp_view p) s1) as [[]].
Qed.

(** ** Encoding *)

(** The payload has been rewritten in place. *)
Definition payload_written (output : list byte) (offset payload : Z) (target output' : list byte) : Prop :=
  zlen target = payload /\
  output' = take (Z.to_nat offset) output ++ target ++ drop (Z.to_nat (offset + payload)) output.

Lemma write_payload_wp d enc value offset payload s : descriptor_laws d -> d_encode d = Some enc ->
  0 <= offset -> 0 <= payload -> offset + payload <= zlen s.2 ->
  wp (write_payload enc value offset payload) s
    (fun _ s' => exists target, payload_written s.2 offset payload target s'.2)
    (fun s' => exists target, payload_written s.2 offset payload target s'.2).
Proof.
  intros L He Ho Hp Hb. unfold wp, write_payload, subspan.
  rewrite (proj2 (Z.ltb_ge offset 0)), (proj2 (Z.ltb_ge payload 0)), (proj2 (Z.ltb_ge _ (offset + payload))) by lia. cbn [orb].
  set (target := take _ _). assert (Ht : length target = Z.to_nat payload).
  { unfold target. rewrite length_take, length_drop. unfold zlen in Hb. lia. }
  destruct (l_encode _ L enc value target s.1 He) as [Hs Hl].
  destruct (enc value target s.1) as [[r target'] world]. cbn [fst snd] in Hs, Hl. rewrite Ht in Hl.
  unfold memmove, zlen. rewrite Hl. unfold zlen in Hb.
  rewrite (proj2 (Z.ltb_ge offset 0)), (proj2 (Z.ltb_ge _ (offset + _))) by lia. cbn [orb].
  assert (payload_written s.2 offset payload target'
    (take (Z.to_nat offset) s.2 ++ target' ++ drop (Z.to_nat offset + Z.to_nat payload) s.2)).
  { split; [unfold zlen; lia|]. by replace (Z.to_nat (offset + payload)) with (Z.to_nat offset + Z.to_nat payload)%nat by lia. }
  destruct r; cbn [snd]; eauto.
Qed.

Lemma payload_written_spec output offset payload target output' :
  payload_written output offset payload target output' -> 0 <= offset -> 0 <= payload -> offset + payload <= zlen output ->
  zlen output' = zlen output /\ subspan output' offset payload = Ok target /\
  (forall n, offset + payload <= n -> drop (Z.to_nat n) output' = drop (Z.to_nat n) output).
Proof.
  intros [Ht ->] Ho Hp Hb. unfold zlen in *.
  assert (Hpre : length (take (Z.to_nat offset) output) = Z.to_nat offset) by (rewrite length_take; lia). split_and!.
  - rewrite !length_app, length_drop. lia.
  - unfold subspan, zlen. rewrite !length_app, length_drop.
    rewrite (proj2 (Z.ltb_ge offset 0)), (proj2 (Z.ltb_ge payload 0)), (proj2 (Z.ltb_ge _ (offset + payload))) by lia. cbn [orb].
    rewrite drop_app_length' by done. rewrite take_app_length' by lia. done.
  - intros n Hn. rewrite app_assoc. replace (Z.to_nat n) with (Z.to_nat (offset + payload) + Z.to_nat (n - (offset + payload)))%nat by lia.
    rewrite <- !drop_drop. f_equal. rewrite drop_app_length'; [done|]. rewrite length_app. lia.
Qed.

(** What the encoder has committed itself to before it touches the output. *)
Definition preflight (r : Registry) (e : Envelope) (trailer : option Z) (output : list byte) (d : Descriptor) (payload total : Z) : Prop :=
  entry r (find r e) = Ok d /\ env_trailer e = is_some trailer /\ measure_envelope e payload = Ok total /\
  class_policy d e payload = Ok tt /\ total <= zlen output /\ 0 <= payload.

(** The view of a packet that has been written. *)
Definition written_view (e : Envelope) (target : list byte) (trailer : option Z) : EnvelopeView :=
  mkEnvelopeView (envelope_wire e) target trailer (4 * (1 + zlen (prologue_words e))) (envelope_bytes e target trailer).

Definition encoded (r : Registry) (e : Envelope) (trailer : option Z) (output : list byte) (n : Z) (output' : list byte) : Prop :=
  exists d target, preflight r e trailer output d (zlen target) n /\
    output' = envelope_bytes e target trailer ++ drop (Z.to_nat n) output /\
    exists f world, d_validate d = Some f /\ (f (written_view e target trailer) world).1 = Ok tt.

Definition encode_failed (r : Registry) (e : Envelope) (trailer : option Z) (output output' : list byte) : Prop :=
  output' = output \/
  exists d payload total, preflight r e trailer output d payload total /\ zlen output' = zlen output /\
    drop (Z.to_nat total) output' = drop (Z.to_nat total) output.

Lemma preflight_offset r e trailer output d payload total : preflight r e trailer output d payload total ->
  let offset := total - payload - (if is_some trailer then 4 else 0) in
  0 <= offset /\ offset + payload <= total /\ measured e payload total.
Proof.
  intros (_ & Ht & Hm & _ & _ & Hp). pose proof (measure_measured _ _ _ Hp Hm) as M. pose proof (m_size _ _ _ M) as Hs.
  rewrite Ht in Hs. pose proof (zlen_nonneg (prologue_words e)). destruct (is_some trailer); cbn [b2z] in *; split_and!; (lia || done).
Qed.

(** Once the preflight has passed: writing, reading back, and the validation of the class. *)
Lemma encode_commit_wp r e value trailer d enc (s : World * list byte) output payload total :
  registry_ok r -> envelope_typed e -> from_option u32 True trailer -> d_encode d = Some enc -> s.2 = output ->
  preflight r e trailer output d payload total ->
  let offset := total - payload - (if is_some trailer then 4 else 0) in
  wp (let! _ := write_payload enc value offset payload in
      let! written := write_envelope e offset payload trailer in
      let! candidate := (fun s => (let? packet := subspan s.2 0 written in decode_envelope packet, s)) in
      let! f := pure (deref (d_validate d)) in
      let! _ := zoom (f candidate) in
      run_ret written) s
    (fun n s' => encoded r e trailer output n s'.2) (fun s' => encode_failed r e trailer output s'.2).
Proof.
  intros Hr T Ut He Hs Hpre offset. pose proof Hpre as (Hd & Ht & Hm & Hpol & Hlen & Hp).
  destruct (preflight_offset _ _ _ _ _ _ _ Hpre) as (Ho & Hfit & M). fold offset in Ho, Hfit.
  destruct (reachable_entry _ _ _ Hr Hd) as (Hdesc & L & _).
  assert (Hfailed : forall output', zlen output' = zlen output -> drop (Z.to_nat total) output' = drop (Z.to_nat total) output ->
    encode_failed r e trailer output output').
  { intros output' E1 E2. right. by exists d, payload, total. }
  apply wp_bind. eapply wp_mono; [apply (write_payload_wp d); [done|done|done|done|rewrite Hs; lia]| |]; cbn beta.
  2:{ intros s' (target & Hw). rewrite Hs in Hw. destruct (payload_written_spec _ _ _ _ _ Hw) as (E1 & _ & E2); [lia..|].
      apply Hfailed; [done|]. apply E2. lia. }
  intros _ s1 (target & Hw). rewrite Hs in Hw. destruct (payload_written_spec _ _ _ _ _ Hw) as (E1 & Hsub & E2); [lia..|].
  destruct Hw as [Htl _]. subst payload. rename Hm into Hmeas.
  apply wp_bind. unfold wp at 1, write_envelope. rewrite Hsub. cbn [rbind].
  rewrite (encode_envelope_bytes _ _ _ _ total) by (done || lia). rewrite (E2 total) by lia.
  pose proof (envelope_bytes_length _ target trailer _ _ M eq_refl Ht) as Hbl. unfold zlen in Hbl.
  assert (Hout : encode_failed r e trailer output (envelope_bytes e target trailer ++ drop (Z.to_nat total) output)).
  { apply Hfailed; unfold zlen in *; [rewrite length_app, length_drop; lia|]. by rewrite drop_app_length' by lia. }
  apply wp_bind. unfold wp at 1. cbn [snd]. unfold subspan, zlen. rewrite length_app, length_drop.
  unfold zlen in Hlen. rewrite (proj2 (Z.ltb_ge total 0)), (proj2 (Z.ltb_ge _ (0 + total))) by lia. cbn [orb Z.ltb Z.compare rbind].
  change (Z.to_nat 0) with 0%nat. rewrite drop_0, take_app_length' by lia. rewrite (decode_envelope_bytes _ _ _ total) by done.
  fold (written_view e target trailer). apply wp_bind, wp_pure; [|done|].
  { unfold invalid_descriptor in Hdesc. rewrite !orb_false_iff in Hdesc. destruct (d_validate d); [done|].
    repeat match goal with H : _ /\ _ |- _ => destruct H end. done. }
  intros f Hval. destruct (d_validate d) as [f'|] eqn:Ef; [injection Hval as <-|done].
  apply wp_bind, wp_zoom. cbn [fst snd]. pose proof (l_validate _ L f' (written_view e target trailer) s1.1 Ef) as Hsafe.
  unfold wp at 1. destruct (f' _ s1.1) as [[[]|x|] world'] eqn:Eval; cbn [fst] in Hsafe; [|done|done].
  unfold wp, run_ret. cbn [snd]. exists d, target. split_and!; [done|done|]. exists f', s1.1. by rewrite Eval.
Qed.

Lemma encode_wp r e value trailer (s : World * list byte) :
  registry_ok r -> Z.of_nat Capacity <= SIZE_MAX -> envelope_typed e -> from_option u32 True trailer ->
  wp (encode r e value trailer) s (fun n s' => r_frozen r = true /\ encoded r e trailer s.2 n s'.2)
    (fun s' => encode_failed r e trailer s.2 s'.2).
Proof.
  intros Hr Hc T Ut. unfold encode. apply wp_bind, wp_guard; [by constructor|]. intros Hf%negb_false_iff. cbv zeta.
  apply wp_bind, wp_guard; [by constructor|]. intros Ha%Z.eqb_neq.
  destruct (find_spec r e Hr Hc Ha) as (c & d & _ & Hd & _). destruct (reachable_entry _ _ _ Hr Hd) as (_ & L & _).
  apply wp_bind, wp_pure; [by rewrite Hd|by constructor|]. intros d' Hd'. rewrite Hd in Hd'. injection Hd' as <-.
  destruct (d_measure d) as [measure|] eqn:Em; [|by constructor]. destruct (d_encode d) as [enc|] eqn:Ee; [|by constructor].
  apply wp_bind, wp_zoom, wp_charge; [by constructor|]. intros _. cbn [snd].
  apply wp_bind, wp_zoom. eapply wp_mono; [apply (l_measure _ L _ value _ Em)| |by constructor]. cbn beta.
  intros payload w1 Hp. apply wp_bind, wp_pure; [apply measure_envelope_safe|by constructor|]. intros total Hm.
  apply wp_bind, wp_guard; [by constructor|]. intros Ht%negb_false_iff%Bool.eqb_prop.
  apply wp_bind, wp_pure; [apply (class_policy_safe _ _ _ _ _ T (measure_measured _ _ _ (proj1 Hp) Hm))|by constructor|].
  intros [] Hpol. apply wp_bind. unfold wp at 1. cbn [snd]. destruct (Z.ltb_spec (zlen s.2) total) as [Hlt|Hge]; [by constructor|].
  apply wp_bind, wp_zoom, wp_charge; [by constructor|]. intros _. cbn [snd].
  assert (preflight r e trailer s.2 d payload total) as Hpre by (split_and!; try done; apply Hp).
  eapply wp_mono; [by apply (encode_commit_wp r e value trailer d enc)| |done]. by intros n s' Hn.
Qed.

(** ** Receiving what was sent *)

Lemma extension_cam e n size c : measured e n size -> is_extension (env_type e) = true -> command e = Some c ->
  measure_envelope e n = Ok size -> nonzero (Z.land (cam c) 1) = false.
Proof.
  intros M Hx Hc Hm. pose proof (measured_command _ _ _ M) as Hcmd. rewrite Hc in Hcmd. cbn in Hcmd.
  assert (Ht : env_type e =? PacketType.extension_command = true).
  { unfold is_extension, is_command, PacketType.extension_without_sid, PacketType.extension_data,
      PacketType.extension_context, PacketType.extension_command in *. apply Z.leb_le in Hcmd.
    rewrite !orb_true_iff, !Z.eqb_eq in Hx. apply Z.eqb_eq. lia. }
  unfold measure_envelope in Hm. rewrite Hc in Hm. inv_ok.
  match goal with H : validate_cam e = Ok _ |- _ => unfold validate_cam in H; rewrite Hc in H; cbn [deref rbind] in H;
    rename H into Hv end.
  destruct (nonzero (Z.land (cam c) (cam_reserved (ack e) (env_type e)))) eqn:Er; [done|]. apply nonzero_false in Er.
  unfold cam_reserved in Er. rewrite Ht in Er. rewrite Z.land_lor_distr_r in Er. apply Z.lor_eq_0_iff in Er as [_ Er].
  by rewrite Er.
Qed.

Lemma key_of_wire e c : key_of (envelope_wire e) c = key_of e c.
Proof. done. Qed.

(** Validating a packet that was written: every check of the framework passes, and the
    verdict is that of the class. *)
Lemma validate_written r e trailer output n output' : registry_ok r -> Z.of_nat Capacity <= SIZE_MAX -> r_frozen r = true ->
  envelope_typed e -> from_option u32 True trailer -> encoded r e trailer output n output' ->
  exists d f payload world, entry r (find r e) = Ok d /\ d_validate d = Some f /\
    output' = envelope_bytes e payload trailer ++ drop (Z.to_nat n) output /\ zlen (envelope_bytes e payload trailer) = n /\
    (f (written_view e payload trailer) world).1 = Ok tt /\
    forall st w, 1 + zlen payload / 4 <= w ->
      validate r (envelope_bytes e payload trailer) (st, w) =
      (let! _ := f (written_view e payload trailer) in
       run_ret (mkValidated (r_address r) (find r e) (written_view e payload trailer))) (st, w - (1 + zlen payload / 4)).
Proof.
  intros Hr Hc Hf T Ut (d & payload & (Hd & Ht & Hm & Hpol & Hlen & Hp) & -> & f & world & Ef & Hval).
  pose proof (measure_measured _ _ _ Hp Hm) as M. exists d, f, payload, world. split_and!; try done.
  { by apply (envelope_bytes_length _ payload trailer _ _ M). }
  intros st w Hw. destruct (class_policy_key _ _ _ Hpol) as (c & Hcl & Hk & _).
  destruct (reachable_entry _ _ _ Hr Hd) as (Hdesc & _ & Hlook).
  assert (Hx : is_extension (env_type e) = true).
  { unfold invalid_descriptor in Hdesc. rewrite Hk in Hdesc. cbn [key_of ck_family] in Hdesc.
    destruct (is_extension (env_type e)); [done|]. cbn in Hdesc. done. }
  assert (Hfind : find r (envelope_wire e) = find r e) by (unfold find; cbn; done).
  assert (Hna : (find r e =? absent) = false).
  { unfold entry in Hd. destruct (Z.ltb_spec (find r e) 0); [done|]. apply Z.eqb_neq. intros Ea. rewrite Ea in Hlook.
    apply lookup_lt_Some in Hlook. pose proof (ro_size _ Hr). unfold absent in Hlook. lia. }
  unfold validate, run_bind at 1, pure at 1. rewrite Hf. cbn [negb].
  unfold run_bind at 1, pure at 1. rewrite (decode_envelope_bytes _ _ _ n) by done. fold (written_view e payload trailer).
  cbv zeta. cbn [ev_envelope written_view ev_payload]. unfold run_bind at 1, pure at 1. cbn [env_type envelope_wire]. rewrite Hx.
  cbn [negb]. unfold run_bind at 1, charge, consume. cbn [fst snd]. rewrite (proj2 (Z.ltb_ge w _)) by lia.
  unfold run_bind at 1, pure at 1. replace (match command (envelope_wire e) with Some c => nonzero (Z.land (cam c) 1) | None => false end) with false.
  2:{ cbn [envelope_wire command]. destruct (command e) as [cm|] eqn:Ecm; [|done]. cbn. symmetry.
      apply (extension_cam _ _ _ _ M Hx Ecm Hm). }
  rewrite Hfind, Hna. cbn [negb]. unfold run_bind at 1. unfold run_bind at 1, pure at 1. rewrite Hd.
  unfold run_bind at 1, pure at 1. fold (envelope_wire e). rewrite class_policy_wire, Hpol.
  unfold run_bind at 1, pure at 1. rewrite Ef. cbn [deref]. done.
Qed.
End Laws.

(** ** Properties *)

Section Properties.
Context {App Value : Type} (Capacity : nat).

(** C23. What [encode] reports as written is accepted by the same registry on the way in, up to
    the verdict of the class: the bytes are the packet of the envelope around the payload
    of the class, every check of the framework passes on them whenever the receiver's
    budget covers the payload, and the class is asked about exactly the view its own
    validator accepted when the packet was encoded. *)
Theorem extension_roundtrip address (r : @Registry App Value) e value trailer s n s' :
  registry_reachable Capacity address r -> Z.of_nat Capacity <= SIZE_MAX ->
  envelope_typed e -> from_option u32 True trailer ->
  encode r e value trailer s = (Ok n, s') ->
  exists d f payload world, r_entries r !! Z.to_nat (find r e) = Some d /\ d_validate d = Some f /\
    take (Z.to_nat n) s'.2 = envelope_bytes e payload trailer /\ drop (Z.to_nat n) s'.2 = drop (Z.to_nat n) s.2 /\
    (f (written_view e payload trailer) world).1 = Ok tt /\
    forall app budget, 1 + zlen payload / 4 <= budget ->
      validate r (take (Z.to_nat n) s'.2) (app, budget) =
      (let! _ := f (written_view e payload trailer) in
       run_ret (mkValidated address (find r e) (written_view e payload trailer))) (app, budget - (1 + zlen payload / 4)).
Proof.
  intros Hreach Hc T Ut Henc. destruct (registry_reachable_ok _ _ _ Hreach) as [Hr <-].
  destruct (wp_Ok _ _ _ _ _ _ (encode_wp Capacity r e value trailer s Hr Hc T Ut) Henc) as [Hf Hn].
  destruct (validate_written Capacity r e trailer _ _ _ Hr Hc Hf T Ut Hn) as (d & f & payload & world & Hd & Ef & Hout & Hlen & Hval & Hv).
  destruct (reachable_entry _ _ _ _ Hr Hd) as (_ & _ & Hlook). unfold zlen in Hlen. exists d, f, payload, world.
  assert (Htake : take (Z.to_nat n) s'.2 = envelope_bytes e payload trailer) by (rewrite Hout; by apply take_app_length'; lia).
  rewrite Htake. split_and!; try done. rewrite Hout. by rewrite drop_app_length' by lia.
Qed.

(** A registry never acts outside the language, whatever the packet, the envelope and the
    budget, as long as the callbacks themselves are defined: validation and encoding are
    defined; a packet that validation returned dispatches without undefined behaviour
    under any authorization; and a failed encoding has left the output untouched unless
    its preflight passed, in which case only the extent of the packet can have changed. *)
Theorem extensions_never_undefined address (r : @Registry App Value) :
  registry_reachable Capacity address r -> Z.of_nat Capacity <= SIZE_MAX ->
  (forall wire s, safe (validate r wire s).1 /\
     forall p s' authorize app, validate r wire s = (Ok p, s') ->
       (forall f k v st, authorize = Some f -> safe (f k v st).1) -> safe (dispatch r p authorize app).1) /\
  (forall e value trailer s, envelope_typed e -> from_option u32 True trailer ->
     safe (encode r e value trailer s).1 /\
     forall x s', encode r e value trailer s = (Err x, s') -> encode_failed r e trailer s.2 s'.2).
Proof.
  intros Hreach Hc. destruct (registry_reachable_ok _ _ _ Hreach) as [Hr _]. split.
  - intros wire s. pose proof (validate_wp Capacity r wire s Hr Hc) as Hv. split; [by apply wp_safe in Hv|].
    intros p s' authorize app Hp Ha. apply (dispatch_wp Capacity r wire); [done| |done]. by apply (wp_Ok _ _ _ _ _ _ Hv Hp).
  - intros e value trailer s T Ut. pose proof (encode_wp Capacity r e value trailer s Hr Hc T Ut) as He.
    split; [by apply wp_safe in He|]. intros x s' Hx. unfold wp in He. by rewrite Hx in He.
Qed.
End Properties.

(** ** A registry with one class

    The class sends one word in an extension data packet, refuses the word zero, and
    counts in its application state the packets it is asked about. *)

Definition demo_descriptor : @Descriptor Z Z := mkDescriptor
  (mkClassKey PacketType.extension_data 0x123456 3 4) HeaderRules_default 4 16 0 0
  (Some (fun view s => (if bool_decide (ev_payload view = be32_bytes 0) then Err (error1 ErrorCode.invalid_argument) else Ok tt,
                        (s.1 + 1, s.2))))
  (Some (fun _ s => (Ok 4, s)))
  (Some (fun value target s => (Ok tt, take (length target) (be32_bytes value ++ target), s)))
  (Some (fun _ s => (Ok tt, s))).

Definition demo_registry : @Registry Z Z := freeze (add 2 (registry_new 77) demo_descriptor).2.

Lemma demo_laws : descriptor_laws demo_descriptor.
Proof.
  split.
  - intros f view s [= <-]. cbn [fst]. by case_bool_decide.
  - intros f value s [= <-]. unfold wp. vm_compute. split; discriminate.
  - intros f value target s [= <-]. split; [done|]. cbn [fst snd]. rewrite length_take. simpl. lia.
  - by intros f view s [= <-].
Qed.

Lemma demo_registry_reachable : registry_reachable 2 77 demo_registry.
Proof. apply reach_freeze, reach_add; [apply reach_new|apply demo_laws]. Qed.

Definition demo_envelope : Envelope :=
  mkEnvelope PacketType.extension_data 5 (Some 9) (Some (mkClassId 0x123456 3 4 0)) (mkTimestamp 0 0 0 0)
    false false false false false false None.

Lemma demo_envelope_typed : envelope_typed demo_envelope.
Proof. repeat split; vm_compute; congruence. Qed.

(** The registry encodes the word 258 into 20 bytes and receives it with a budget of two
    units, after which its class has been asked twice. *)
Lemma extension_roundtrip_witness :
  exists s', encode demo_registry demo_envelope 258 None ((0, 10), replicate 24 xff) = (Ok 20, s') /\
  s'.1.1 = 1 /\ is_ok (validate demo_registry (take 20 s'.2) (s'.1.1, 2)).1 = true /\
  (validate demo_registry (take 20 s'.2) (s'.1.1, 2)).2 = (2, 0).
Proof.
  destruct (encode demo_registry demo_envelope 258 None ((0, 10), replicate 24 xff)) as [res s'] eqn:E.
  pose proof E as E'. vm_compute in E'. injection E' as <- <-. eexists. split; [reflexivity|]. split; [reflexivity|].
  destruct (extension_roundtrip 2 77 demo_registry demo_envelope 258 None _ 20 _ demo_registry_reachable ltac:(done) demo_envelope_typed I E)
    as (d & f & payload & world & Hd & Hf & Ht & _ & _ & Hv).
  assert (payload = be32_bytes 258) as ->.
  { apply (f_equal (drop 16)) in Ht. rewrite <- (app_nil_r payload). symmetry. exact Ht. }
  change (Some demo_descriptor = Some d) in Hd. injection Hd as <-. injection Hf as <-.
  change (Z.to_nat 20) with 20%nat in Hv. rewrite Hv by done. split; reflexivity.
Defined.

(** Encoding the refused word reaches the output and fails; the rest of it is untouched. *)
Lemma extensions_never_undefined_witness :
  exists x s', encode demo_registry demo_envelope 0 None ((0, 10), replicate 24 xff) = (Err x, s') /\
  s'.2 <> replicate 24 xff /\ encode_failed demo_registry demo_envelope None (replicate 24 xff) s'.2.
Proof.
  destruct (encode demo_registry demo_envelope 0 None ((0, 10), replicate 24 xff)) as [res s'] eqn:E.
  pose proof E as E'. vm_compute in E'. injection E' as <- <-. eexists _, _. split; [reflexivity|]. split; [vm_compute; discriminate|].
  destruct (extensions_never_undefined 2 77 demo_registry demo_registry_reachable ltac:(done)) as [_ He].
  destruct (He demo_envelope 0 None (0, 10, replicate 24 xff) demo_envelope_typed I) as [_ Hx]. apply (Hx _ _ E).
Defined.
