(* ===== verification/Counters.v ===== *)
(** * Packet counters: [include/vita/runtime/stream/counters.hpp]

    One four-bit packet count per sender, stream and packet type.  The mutex makes
    every operation atomic. *)

From S2P Require Import Prelude Wire.

Record CounterKey := mkCounterKey { ck_sender : Z; ck_stream_id : option Z; ck_type : Z }.
#[global] Instance CounterKey_eq_dec : EqDecision CounterKey.
Proof. solve_decision. Defined.

Record CounterEntry := mkCounterEntry { ce_key : CounterKey; ce_next : Z }.
Record CounterRegistry := mkCounters { entries : list (option CounterEntry); frozen : bool }.

Section registry.
Context (N : nat).

Definition counters_new : CounterRegistry := mkCounters (replicate N None) false.

(** The identity check shared by [add] and [install]. *)
Definition key_invalid (k : CounterKey) : bool :=
  (7 <? ck_type k) ||
  Bool.eqb ((ck_type k =? PacketType.signal_without_sid) || (ck_type k =? PacketType.extension_without_sid))
           (is_some (ck_stream_id k)).

Definition has_key (k : CounterKey) (e : option CounterEntry) : bool :=
  match e with Some e => bool_decide (ce_key e = k) | None => false end.

Definition add (r : CounterRegistry) (k : CounterKey) : Result unit * CounterRegistry :=
  if frozen r then (Err (error1 ErrorCode.invalid_state), r) else
  if key_invalid k then (Err (error1 ErrorCode.invalid_argument), r) else
  if existsb (has_key k) (entries r) then (Err (error1 ErrorCode.invalid_argument), r) else
  match first_free (entries r) with
  | Some i => (Ok tt, mkCounters (<[i := Some (mkCounterEntry k 0)]> (entries r)) (frozen r))
  | None => (Err (error1 ErrorCode.capacity_exhausted), r)
  end.

(** The loop of [install] on the candidate entries. *)
Fixpoint install_loop (candidate : list (option CounterEntry)) (batch : list CounterKey) : Result (list (option CounterEntry)) :=
  match batch with
  | [] => Ok candidate
  | k :: batch =>
      fail_if key_invalid k with error1 ErrorCode.invalid_argument ;;
      fail_if existsb (has_key k) candidate with error1 ErrorCode.identity_conflict ;;
      match first_free candidate with
      | Some i => install_loop (<[i := Some (mkCounterEntry k 0)]> candidate) batch
      | None => Err (error1 ErrorCode.capacity_exhausted)
      end
  end.

Definition install (r : CounterRegistry) (batch : list CounterKey) : Result unit * CounterRegistry :=
  match install_loop (entries r) batch with
  | Ok candidate => (Ok tt, mkCounters candidate (frozen r))
  | Err e => (Err e, r)
  | UB => (UB, r)
  end.

Definition available (r : CounterRegistry) : nat := count_if is_none (entries r).
Definition freeze (r : CounterRegistry) : CounterRegistry := mkCounters (entries r) true.

Definition next (r : CounterRegistry) (k : CounterKey) : Result Z :=
  fail_if negb (frozen r) with error1 ErrorCode.invalid_state ;;
  match first_index (has_key k) (entries r) with
  | None => Err (error1 ErrorCode.invalid_argument)
  | Some i =>
      match entries r !! i with
      | Some (Some e) => Ok (ce_next e)
      | _ => UB
      end
  end.

Definition accept (r : CounterRegistry) (k : CounterKey) (encoded_count : Z) : Result unit * CounterRegistry :=
  if negb (frozen r) then (Err (error1 ErrorCode.invalid_state), r) else
  match first_index (has_key k) (entries r) with
  | None => (Err (error1 ErrorCode.invalid_argument), r)
  | Some i =>
      match entries r !! i with
      | Some (Some e) =>
          if negb (ce_next e =? encoded_count) then (Err (error1 ErrorCode.stale_generation), r) else
          (Ok tt, mkCounters (<[i := Some (mkCounterEntry (ce_key e) (Z.land (ce_next e + 1) 15))]> (entries r)) (frozen r))
      | _ => (UB, r)
      end
  end.

(** ** Invariant *)

Definition counter_keys (r : CounterRegistry) : list CounterKey := occupied ce_key (entries r).

Record counters_wf (r : CounterRegistry) : Prop := mk_counters_wf {
  cwf_size : length (entries r) = N;
  cwf_unique : NoDup (counter_keys r);
  cwf_range : forall i e, entries r !! i = Some (Some e) -> 0 <= ce_next e < 16
}.

Lemma has_key_spec k o : has_key k o = true <-> exists e, o = Some e /\ ce_key e = k.
Proof. destruct o as [e|]; cbn; [|split; [done|by intros (? & ? & _)]]. rewrite bool_decide_eq_true. split; [by exists e|by intros (? & [= <-] & ?)]. Qed.

Lemma existsb_has_key k l : existsb (has_key k) l = false <-> k ∉ occupied ce_key l.
Proof.
  rewrite <- not_true_iff_false. apply not_iff_compat. rewrite existsb_exists, elem_of_occupied. split.
  - intros (o & Hin & Hk). apply has_key_spec in Hk as (e & -> & Ek). apply list_elem_of_In in Hin.
    apply list_elem_of_lookup in Hin as [i Hi]. eauto.
  - intros (i & e & Hi & Ek). exists (Some e). split; [apply list_elem_of_In; by eapply list_elem_of_lookup_2|].
    apply has_key_spec. eauto.
Qed.

Lemma insert_entry_wf l i k : l !! i = Some None -> k ∉ occupied ce_key l -> NoDup (occupied ce_key l) ->
  (forall j e, l !! j = Some (Some e) -> 0 <= ce_next e < 16) ->
  NoDup (occupied ce_key (<[i := Some (mkCounterEntry k 0)]> l)) /\
  (forall j e, (<[i := Some (mkCounterEntry k 0)]> l) !! j = Some (Some e) -> 0 <= ce_next e < 16).
Proof.
  intros Hi Hk Hnd Hr. split.
  - rewrite occupied_insert_free by done. by apply list.NoDup_cons.
  - intros j e. destruct (decide (j = i)) as [->|Hne].
    + rewrite list_lookup_insert_eq by (by eapply lookup_lt_Some). intros [= <-]. done.
    + rewrite list_lookup_insert_ne by done. apply Hr.
Qed.

Lemma add_wf r k : counters_wf r -> counters_wf (add r k).2.
Proof.
  intros Hwf. unfold add. test_goal E1; [done|]. test_goal E2; [done|]. test_goal E3; [done|].
  destruct (first_free (entries r)) as [i|] eqn:Ef; [|done]. apply first_free_Some in Ef. apply existsb_has_key in E3.
  destruct Hwf as [Hs Hu Hr]. destruct (insert_entry_wf _ i k Ef E3 Hu Hr). split; cbn; [by rewrite length_insert|done|done].
Qed.

(** A successful [install] adds exactly the keys of the batch. *)
Lemma install_loop_spec batch l l' :
  NoDup (occupied ce_key l) -> (forall j e, l !! j = Some (Some e) -> 0 <= ce_next e < 16) ->
  install_loop l batch = Ok l' ->
  length l' = length l /\ NoDup (occupied ce_key l') /\ (forall j e, l' !! j = Some (Some e) -> 0 <= ce_next e < 16) /\
  (occupied ce_key l' ≡ₚ batch ++ occupied ce_key l) /\
  (forall j e, l !! j = Some (Some e) -> l' !! j = Some (Some e)).
Proof.
  revert l. induction batch as [|k batch IH]; intros l Hu Hr E; cbn [install_loop] in E; [by injection E as <-|].
  destruct (key_invalid k); [done|]. destruct (existsb (has_key k) l) eqn:E3; [done|]. apply existsb_has_key in E3.
  destruct (first_free l) as [i|] eqn:Ef; [|done]. apply first_free_Some in Ef.
  destruct (insert_entry_wf l i k Ef E3 Hu Hr) as [Hu' Hr'].
  destruct (IH _ Hu' Hr' E) as (Hl & Hnd & Hrng & Hp & Hkeep). split_and!; try done.
  - by rewrite Hl, length_insert.
  - rewrite Hp, occupied_insert_free by done. cbn. by rewrite <- Permutation_middle.
  - intros j e Hj. apply Hkeep. destruct (decide (j = i)) as [->|Hne]; [congruence|by rewrite list_lookup_insert_ne].
Qed.

Lemma install_wf r batch : counters_wf r -> counters_wf (install r batch).2.
Proof.
  intros [Hs Hu Hr]. unfold install. destruct (install_loop (entries r) batch) as [l'| |] eqn:E; [|done|done].
  destruct (install_loop_spec batch _ _ Hu Hr E) as (Hl & ? & ? & _). split; cbn; [lia|done|done].
Qed.

(** The entry of a key that is present. *)
Lemma find_key r k i e : counters_wf r -> entries r !! i = Some (Some e) -> ce_key e = k ->
  first_index (has_key k) (entries r) = Some i.
Proof.
  intros [_ Hu _] Hi Ek. apply first_index_Some. split.
  - exists (Some e). split; [done|]. apply has_key_spec. eauto.
  - intros j o Hj Ho. apply not_true_iff_false. rewrite has_key_spec. intros (e' & -> & Ek').
    assert (j = i) by (apply (occupied_unique ce_key (entries r) j i e' e); (done || congruence)). lia.
Qed.

Lemma accept_present r k i e n : counters_wf r -> frozen r = true -> entries r !! i = Some (Some e) -> ce_key e = k ->
  accept r k n = (if ce_next e =? n then Ok tt else Err (error1 ErrorCode.stale_generation),
    if ce_next e =? n then mkCounters (<[i := Some (mkCounterEntry k ((ce_next e + 1) mod 16))]> (entries r)) true else r).
Proof.
  intros Hwf Hf Hi Ek. unfold accept. rewrite Hf. cbn [negb]. rewrite (find_key r k i e Hwf Hi Ek), Hi, Ek.
  destruct (ce_next e =? n); cbn [negb]; [|done]. do 5 f_equal. change 15 with (2 ^ 4 - 1). by rewrite land_mask.
Qed.

Lemma accept_wf r k n : counters_wf r -> counters_wf (accept r k n).2 /\ frozen (accept r k n).2 = frozen r /\
  (forall i e, entries r !! i = Some (Some e) -> ce_key e <> k -> entries (accept r k n).2 !! i = Some (Some e)).
Proof.
  intros Hwf. destruct (frozen r) eqn:Hf; [|unfold accept; by rewrite Hf].
  destruct (first_index (has_key k) (entries r)) as [i|] eqn:Ei; [|unfold accept; rewrite Hf, Ei; done].
  apply first_index_Some in Ei as [(o & Hi & Hk) _]. apply has_key_spec in Hk as (e & -> & Ek).
  rewrite (accept_present r k i e n Hwf Hf Hi Ek). destruct (ce_next e =? n); [|done]. cbn [snd entries frozen]. split_and!; try done.
  - destruct Hwf as [Hs Hu Hr]. split; cbn [entries frozen]; [by rewrite length_insert| |].
    + unfold counter_keys in *. cbn [entries]. by rewrite (occupied_insert_same ce_key _ i e).
    + intros j e'. destruct (decide (j = i)) as [->|Hne].
      * rewrite list_lookup_insert_eq by (by eapply lookup_lt_Some). intros [= <-]. cbn. apply Z.mod_pos_bound. lia.
      * rewrite list_lookup_insert_ne by done. apply Hr.
  - intros j e' Hj Hne. rewrite list_lookup_insert_ne; [done|]. intros ->. congruence.
Qed.

(** ** Sequences of submissions *)

(** The registry after a sequence of [accept] calls, and how many of them succeeded for [k]. *)
Fixpoint accept_all (r : CounterRegistry) (k : CounterKey) (calls : list (CounterKey * Z)) (n : Z) : CounterRegistry * Z :=
  match calls with
  | [] => (r, n)
  | (key, count) :: calls =>
      let '(res, r) := accept r key count in
      accept_all r k calls (if is_ok res && bool_decide (key = k) then n + 1 else n)
  end.

Lemma accept_all_next r k calls n i e : counters_wf r -> frozen r = true -> entries r !! i = Some (Some e) -> ce_key e = k ->
  let '(r', n') := accept_all r k calls n in
  counters_wf r' /\ frozen r' = true /\ exists e', entries r' !! i = Some (Some e') /\ ce_key e' = k /\
    ce_next e' = (ce_next e + (n' - n)) mod 16.
Proof.
  revert r n e. induction calls as [|[key count] calls IH]; intros r n e Hwf Hf Hi Ek; cbn [accept_all].
  { split_and!; try done. exists e. split_and!; try done. rewrite Z.sub_diag, Z.add_0_r. symmetry. apply Z.mod_small.
    destruct Hwf as [_ _ Hr]. by apply (Hr i). }
  pose proof (accept_wf r key count Hwf) as (Hwf' & Hf' & Hkeep). destruct (decide (key = k)) as [->|Hne].
  - rewrite (accept_present r k i e count Hwf Hf Hi Ek) in *. cbn [snd] in *. rewrite bool_decide_true by done.
    destruct (ce_next e =? count); cbn [is_ok andb].
    + specialize (IH _ (n + 1) (mkCounterEntry k ((ce_next e + 1) mod 16)) Hwf' eq_refl).
      destruct (accept_all _ k calls (n + 1)) as [r' n'] eqn:Ea. destruct IH as (? & ? & e' & ? & ? & En).
      { cbn. apply list_lookup_insert_eq. by eapply lookup_lt_Some. }
      { done. }
      split_and!; try done. exists e'. split_and!; try done. cbn in En. rewrite En, Z.add_mod_idemp_l by done. f_equal. lia.
    + by apply IH.
  - destruct (accept r key count) as [res r1]. cbn [snd] in *. rewrite bool_decide_false, andb_false_r by done.
    apply IH; try done; [by rewrite Hf'|]. apply Hkeep; congruence.
Qed.
End registry.

(** ** Properties *)

(** Packet counts are consecutive modulo 16: after any sequence of submissions for
    any keys, the next count of a key is the one it had plus the number of submissions
    accepted for that key, modulo 16, whatever was accepted for the others; a submission
    with any other count is refused as stale and changes nothing. *)
Theorem counter_sequence N r k i e calls :
  counters_wf N r -> frozen r = true -> entries r !! i = Some (Some e) -> ce_key e = k ->
  (let '(r', accepted) := accept_all r k calls 0 in next r' k = Ok ((ce_next e + accepted) mod 16)) /\
  (forall n, accept r k n = (Ok tt, (accept r k n).2) <-> n = ce_next e) /\
  (forall n, n <> ce_next e -> accept r k n = (Err (error1 ErrorCode.stale_generation), r)).
Proof.
  intros Hwf Hf Hi Ek. split_and!.
  - pose proof (accept_all_next N r k calls 0 i e Hwf Hf Hi Ek) as H. destruct (accept_all r k calls 0) as [r' n'].
    destruct H as (Hwf' & Hf' & e' & Hi' & Ek' & En). unfold next. rewrite Hf'. cbn [negb].
    rewrite (find_key N r' k i e' Hwf' Hi' Ek'), Hi', En. do 2 f_equal. lia.
  - intros n. rewrite (accept_present N r k i e n Hwf Hf Hi Ek). destruct (Z.eqb_spec (ce_next e) n); split; (done || congruence).
  - intros n Hn. rewrite (accept_present N r k i e n Hwf Hf Hi Ek). by rewrite (proj2 (Z.eqb_neq _ _)) by congruence.
Qed.

(** Installing a batch of counters is all or nothing and keeps keys unique: on
    success the registry has exactly the old keys and those of the batch, every counter
    that was there keeps its count; on failure nothing changes. *)
Theorem install_atomic N r batch :
  counters_wf N r ->
  counters_wf N (install r batch).2 /\
  match install r batch with
  | (Ok _, r') => counter_keys r' ≡ₚ batch ++ counter_keys r /\
      (forall i e, entries r !! i = Some (Some e) -> entries r' !! i = Some (Some e))
  | (Err _, r') => r' = r
  | (UB, _) => False
  end.
Proof.
  intros Hwf. split; [by apply install_wf|]. destruct Hwf as [Hs Hu Hr]. unfold install.
  destruct (install_loop (entries r) batch) as [l'|e|] eqn:E; [|done|].
  - destruct (install_loop_spec batch _ _ Hu Hr E) as (_ & _ & _ & Hp & Hk). done.
  - exfalso. revert E. clear. generalize (entries r). induction batch as [|k batch IH]; intros l E; cbn in E; [done|].
    destruct (key_invalid k); [done|]. destruct (existsb _ _); [done|]. destruct (first_free l); [by apply IH in E|done].
Qed.

(** ** Witnesses *)

Definition sample_key : CounterKey := mkCounterKey 1 (Some 7) PacketType.signal.
Definition sample_counters : CounterRegistry := freeze (add (counters_new 2) sample_key).2.
Lemma counters_new_wf N : counters_wf N (counters_new N).
Proof.
  split; cbn [entries counters_new]; [apply length_replicate| |intros i e Hi; by apply replicate_none in Hi].
  unfold counter_keys. cbn [entries counters_new]. rewrite occupied_empty. apply base.NoDup_nil_2.
Qed.
Lemma sample_counters_wf : counters_wf 2 sample_counters.
Proof.
  pose proof (add_wf 2 _ sample_key (counters_new_wf 2)) as [? ? ?]. by split.
Qed.

Lemma counter_sequence_witness :
  next (accept_all sample_counters sample_key [(sample_key, 0); (sample_key, 5); (sample_key, 1)] 0).1 sample_key = Ok 2.
Proof.
  pose proof (counter_sequence 2 sample_counters sample_key 0 (mkCounterEntry sample_key 0)
    [(sample_key, 0); (sample_key, 5); (sample_key, 1)] sample_counters_wf eq_refl eq_refl eq_refl) as [H _].
  destruct (accept_all sample_counters sample_key [(sample_key, 0); (sample_key, 5); (sample_key, 1)] 0) as [r n] eqn:E.
  cbn [fst]. rewrite H. vm_compute in E. injection E as _ <-. vm_compute. reflexivity.
Defined.

Lemma install_atomic_witness :
  (install sample_counters [mkCounterKey 2 (Some 8) PacketType.context; sample_key]).2 = sample_counters.
Proof.
  pose proof (proj2 (install_atomic 2 sample_counters [mkCounterKey 2 (Some 8) PacketType.context; sample_key] sample_counters_wf)) as H.
  vm_compute in H |- *. exact H.
Defined.
