(* ===== verification/Routing.v ===== *)
(** * Route registry: [include/vita/runtime/stream/routing.hpp]

    A fixed table of routes from a packet's identity (peer session, stream, packet
    type, class and command identifiers) to a receiver. *)

From S2P Require Import Prelude Wire.

Record PeerSession := mkPeer { peer : Z; peer_generation : Z }.
#[global] Instance PeerSession_eq_dec : EqDecision PeerSession.
Proof. solve_decision. Defined.

(** The loop over the words the kind of [a] uses. *)
Definition same_identifier (a b : Identifier) : bool :=
  (id_kind a =? id_kind b) &&
  bool_decide (take (Z.to_nat (size_words a)) (id_words a) = take (Z.to_nat (size_words a)) (id_words b)).

Definition same_class (a b : option ClassId) : bool :=
  if negb (Bool.eqb (is_some a) (is_some b)) then false else
  match a, b with
  | Some a, Some b =>
      (oui a =? oui b) && (information_class a =? information_class b) && (packet_class a =? packet_class b)
  | _, _ => true
  end.

Record RouteKey := mkRouteKey {
  rk_source : PeerSession; rk_stream_id : option Z; rk_type : Z; rk_class : option ClassId;
  rk_controllee : Identifier; rk_controller : Identifier }.

Definition same_route (a b : RouteKey) : bool :=
  bool_decide (rk_source a = rk_source b) && bool_decide (rk_stream_id a = rk_stream_id b) &&
  (rk_type a =? rk_type b) && same_class (rk_class a) (rk_class b) &&
  same_identifier (rk_controllee a) (rk_controllee b) && same_identifier (rk_controller a) (rk_controller b).

(** Function pointers are identities (addresses) of client functions; a detached route
    has the empty receiver of [detach].  The null pointer is [None]. *)
Inductive Receiver := receiver_noop | receiver_function (address : Z).

Record Route := mkRoute {
  rt_key : RouteKey;
  rt_context : option Z;
  rt_receive : option Receiver;
  rt_request_context : option Z;
  rt_validate_extension : option Z;
  rt_minimum_payload_bytes : Z;
  rt_maximum_payload_bytes : Z;
  rt_before_decode : option Z }.

Record RouteRegistry := mkRoutes { routes : list (option Route); routes_frozen : bool }.

Definition routes_new (N : nat) : RouteRegistry := mkRoutes (replicate N None) false.

(** The checks of [add] on each of the two identifiers. *)
Definition identifier_invalid (id : Identifier) : bool :=
  (2 <? id_kind id) ||
  ((id_kind id =? IdentifierKind.uuid) &&
   negb (nonzero (Z.lor (Z.lor (Z.lor (id_w0 id) (id_w1 id)) (id_w2 id)) (id_w3 id)))).

Definition route_matches (k : RouteKey) (o : option Route) : bool :=
  match o with Some existing => same_route (rt_key existing) k | None => false end.

(** The checks of [add] on the route alone. *)
Definition check_route (route : Route) : Result unit :=
  let k := rt_key route in
  let invalid := error1 ErrorCode.invalid_argument in
  fail_if is_none (rt_receive route) || (peer_generation (rk_source k) =? 0) || (7 <? rk_type k) ||
          (rt_maximum_payload_bytes route <? rt_minimum_payload_bytes route) with invalid ;;
  fail_if (match rk_class k with Some c => 0xffffff <? oui c | None => false end) with invalid ;;
  fail_if identifier_invalid (rk_controllee k) || identifier_invalid (rk_controller k) with invalid ;;
  fail_if is_extension (rk_type k) && (is_none (rk_class k) || is_none (rt_validate_extension route))
    with error1 ErrorCode.unsupported_capability ;;
  let sidless := (rk_type k =? PacketType.signal_without_sid) || (rk_type k =? PacketType.extension_without_sid) in
  fail_if Bool.eqb sidless (is_some (rk_stream_id k)) with invalid ;;
  fail_if negb (is_command (rk_type k)) &&
          (negb (id_kind (rk_controllee k) =? IdentifierKind.absent) ||
           negb (id_kind (rk_controller k) =? IdentifierKind.absent)) with invalid ;;
  Ok tt.

Definition route_add (r : RouteRegistry) (route : Route) : Result unit * RouteRegistry :=
  if routes_frozen r then (Err (error1 ErrorCode.invalid_state), r) else
  match check_route route with
  | Err e => (Err e, r)
  | UB => (UB, r)
  | Ok _ =>
      if existsb (route_matches (rt_key route)) (routes r) then (Err (error1 ErrorCode.invalid_argument), r) else
      match first_free (routes r) with
      | Some i => (Ok tt, mkRoutes (<[i := Some route]> (routes r)) (routes_frozen r))
      | None => (Err (error1 ErrorCode.capacity_exhausted), r)
      end
  end.

Fixpoint route_add_all (candidate : RouteRegistry) (batch : list Route) : Result unit * RouteRegistry :=
  match batch with
  | [] => (Ok tt, candidate)
  | route :: batch =>
      let '(added, candidate) := route_add candidate route in
      if is_ok added then route_add_all candidate batch else (added, candidate)
  end.

Definition route_install (r : RouteRegistry) (batch : list Route) : Result unit * RouteRegistry :=
  let '(added, candidate) := route_add_all (mkRoutes (routes r) false) batch in
  if is_ok added then (Ok tt, mkRoutes (routes candidate) (routes_frozen r)) else (added, r).

Definition routes_available (r : RouteRegistry) : nat := count_if is_none (routes r).

Definition detach_route (context : option Z) (o : option Route) : option Route :=
  match o with
  | Some route =>
      if bool_decide (rt_context route = context) then
        Some (mkRoute (rt_key route) None (Some receiver_noop) None (rt_validate_extension route)
          (rt_minimum_payload_bytes route) (rt_maximum_payload_bytes route) None)
      else Some route
  | None => None
  end.

Definition detach (r : RouteRegistry) (context : option Z) : RouteRegistry :=
  mkRoutes (detach_route context <$> routes r) (routes_frozen r).

Definition routes_freeze (r : RouteRegistry) : RouteRegistry := mkRoutes (routes r) true.

Definition wanted_key (p : PeerSession) (e : Envelope) : RouteKey :=
  let ids := match command e with
             | Some c => (controllee c, controller c)
             | None => (Identifier_default, Identifier_default)
             end in
  mkRouteKey p (stream_id e) (env_type e) (class_id e) ids.1 ids.2.

(** The scan of [lookup]: the pointer to a route is the index of its slot. *)
Fixpoint lookup_loop (wanted : RouteKey) (l : list (option Route)) (i : nat) (found : option nat) : Result (option nat) :=
  match l with
  | [] => Ok found
  | o :: l =>
      if route_matches wanted o then
        match found with
        | Some _ => Err (error1 ErrorCode.invalid_state)
        | None => lookup_loop wanted l (S i) (Some i)
        end
      else lookup_loop wanted l (S i) found
  end.

Definition route_lookup (r : RouteRegistry) (p : PeerSession) (e : Envelope) : Result nat :=
  fail_if negb (routes_frozen r) with error1 ErrorCode.invalid_state ;;
  let? found := lookup_loop (wanted_key p e) (routes r) 0 None in
  match found with
  | None => Err (error1 ErrorCode.unsupported_capability)
  | Some i => Ok i
  end.

(** ** Route identity

    [same_route] compares neither the pad bits of the class identifier nor the words an
    identifier does not use: it is equality of a normal form. *)

Definition identifier_norm (i : Identifier) : Z * list Z := (id_kind i, take (Z.to_nat (size_words i)) (id_words i)).
Definition class_norm (c : ClassId) : Z * Z * Z := (oui c, information_class c, packet_class c).
Definition route_norm (k : RouteKey) : PeerSession * option Z * Z * option (Z * Z * Z) * (Z * list Z) * (Z * list Z) :=
  (rk_source k, rk_stream_id k, rk_type k, class_norm <$> rk_class k,
   identifier_norm (rk_controllee k), identifier_norm (rk_controller k)).

Lemma same_identifier_norm a b : same_identifier a b = true <-> identifier_norm a = identifier_norm b.
Proof.
  unfold same_identifier, identifier_norm. rewrite andb_true_iff, Z.eqb_eq, bool_decide_eq_true.
  split.
  - intros [Hk Hw]. assert (size_words b = size_words a) as -> by (unfold size_words; by rewrite Hk). by rewrite Hk, Hw.
  - intros [= Hk Hw]. assert (size_words b = size_words a) as Hs by (unfold size_words; by rewrite Hk). by rewrite <- Hs at 2.
Qed.

Lemma same_class_norm a b : same_class a b = true <-> class_norm <$> a = class_norm <$> b.
Proof.
  destruct a as [a|], b as [b|]; cbn; try done. unfold class_norm. rewrite !andb_true_iff, !Z.eqb_eq.
  split; [intros [[-> ->] ->]; done|intros [= -> -> ->]; done].
Qed.

Lemma same_route_norm a b : same_route a b = true <-> route_norm a = route_norm b.
Proof.
  unfold same_route, route_norm.
  rewrite !andb_true_iff, !bool_decide_eq_true, Z.eqb_eq, same_class_norm, !same_identifier_norm.
  split; [intros (((((-> & ->) & ->) & ->) & ->) & ->); done|].
  intros H. apply pair_eq in H as [H ?]. do 4 (apply pair_eq in H as [H ?]). done.
Qed.

#[global] Instance same_route_equivalence : Equivalence (fun a b => same_route a b = true).
Proof.
  split; [intros a|intros a b|intros a b c]; rewrite !same_route_norm; congruence.
Qed.

(** ** Invariant *)

Definition route_id (r : Route) := route_norm (rt_key r).
Definition route_ids (r : RouteRegistry) := occupied route_id (routes r).

Record routes_wf (N : nat) (r : RouteRegistry) : Prop := mk_routes_wf {
  rwf_size : length (routes r) = N;
  rwf_unique : NoDup (route_ids r);
  rwf_checked : forall i route, routes r !! i = Some (Some route) -> check_route route = Ok tt
}.

Lemma route_matches_spec k o : route_matches k o = true <-> exists route, o = Some route /\ route_id route = route_norm k.
Proof.
  destruct o as [route|]; cbn [route_matches].
  - rewrite same_route_norm. split; [by exists route|by intros (? & [= <-] & ?)].
  - split; [done|by intros (? & ? & _)].
Qed.

Lemma no_match_absent k l : existsb (route_matches k) l = false <-> route_norm k ∉ occupied route_id l.
Proof.
  rewrite <- not_true_iff_false, existsb_exists. apply not_iff_compat. rewrite elem_of_occupied. split.
  - intros (o & Hin & Hm). apply list_elem_of_In, list_elem_of_lookup in Hin as [i Hi].
    apply route_matches_spec in Hm as (route & -> & E). eauto.
  - intros (i & route & Hi & E). exists (Some route). split; [by apply list_elem_of_In; eapply list_elem_of_lookup_2|].
    apply route_matches_spec. eauto.
Qed.

Lemma route_add_spec N r route : routes_wf N r ->
  routes_wf N (route_add r route).2 /\ routes_frozen (route_add r route).2 = routes_frozen r /\
  match (route_add r route).1 with
  | Ok _ => route_ids (route_add r route).2 ≡ₚ route_id route :: route_ids r
  | Err _ => (route_add r route).2 = r
  | UB => False
  end /\
  (forall i x, routes r !! i = Some (Some x) -> routes (route_add r route).2 !! i = Some (Some x)).
Proof.
  intros Hwf. unfold route_add. test_goal E1; [done|].
  destruct (check_route route) as [[]|e|] eqn:E2; [|done|].
  2: { exfalso. revert E2. unfold check_route. by repeat case_match. }
  test_goal E3; [done|]. destruct (first_free (routes r)) as [i|] eqn:Ef; [|done]. apply first_free_Some in Ef.
  apply no_match_absent in E3. cbn [fst snd routes_frozen routes]. destruct Hwf as [Hs Hu Hc]. split_and!; try done.
  - split; cbn [routes]; [by rewrite length_insert| |].
    + unfold route_ids in *. cbn [routes]. rewrite occupied_insert_free by done. by apply list.NoDup_cons.
    + intros j x. destruct (decide (j = i)) as [->|Hne].
      * rewrite list_lookup_insert_eq by (by eapply lookup_lt_Some). by intros [= <-].
      * rewrite list_lookup_insert_ne by done. apply Hc.
  - unfold route_ids. cbn [routes]. by rewrite occupied_insert_free.
  - intros j x Hj. destruct (decide (j = i)) as [->|Hne]; [congruence|]. by rewrite list_lookup_insert_ne.
Qed.

Lemma route_add_all_spec N r batch : routes_wf N r ->
  routes_wf N (route_add_all r batch).2 /\
  match (route_add_all r batch).1 with
  | Ok _ => route_ids (route_add_all r batch).2 ≡ₚ (route_id <$> batch) ++ route_ids r /\
      (forall i x, routes r !! i = Some (Some x) -> routes (route_add_all r batch).2 !! i = Some (Some x))
  | Err _ => True
  | UB => False
  end.
Proof.
  revert r. induction batch as [|route batch IH]; intros r Hwf; cbn [route_add_all]; [done|].
  pose proof (route_add_spec N r route Hwf) as (Hwf' & _ & Hr & Hk).
  destruct (route_add r route) as [[[]|e|] r1]; cbn [fst snd is_ok] in *; [|done|done].
  destruct (IH r1 Hwf') as [Hwf2 H]. split; [done|].
  destruct (route_add_all r1 batch) as [[[]|e|] r2]; cbn [fst snd] in *; [|done|done].
  destruct H as [Hp Hk2]. split; [|by intros i x Hi; apply Hk2, Hk].
  rewrite Hp, Hr. cbn. by rewrite Permutation_middle.
Qed.

Lemma frozen_irrelevant N l a b : routes_wf N (mkRoutes l a) -> routes_wf N (mkRoutes l b).
Proof. by intros [? ? ?]. Qed.

Lemma route_install_wf N r batch : routes_wf N r -> routes_wf N (route_install r batch).2.
Proof.
  intros Hwf. destruct r as [l b]. unfold route_install. cbn [routes routes_frozen].
  pose proof (route_add_all_spec N (mkRoutes l false) batch (frozen_irrelevant _ _ _ _ Hwf)) as [H _].
  destruct (route_add_all _ batch) as [[[]|e|] [l' b']]; cbn [is_ok fst snd] in *; try done.
  by eapply frozen_irrelevant.
Qed.

Lemma detach_route_id c o : (route_id <$> detach_route c o) = (route_id <$> o).
Proof. destruct o as [route|]; cbn; [|done]. by case_bool_decide. Qed.

(** [detach] keeps every key. *)
Lemma detach_ids r c : route_ids (detach r c) = route_ids r.
Proof.
  unfold route_ids, detach, occupied. cbn [routes]. induction (routes r) as [|o l IH]; [done|].
  cbn. rewrite detach_route_id. destruct (route_id <$> o); by rewrite IH.
Qed.

Lemma detach_wf N r c : routes_wf N r -> routes_wf N (detach r c).
Proof.
  intros [Hs Hu Hc]. split.
  - cbn. by rewrite length_fmap.
  - by rewrite detach_ids.
  - intros i route Hi. cbn in Hi. rewrite list_lookup_fmap in Hi.
    destruct (routes r !! i) as [[old|]|] eqn:E; cbn in Hi; try done. specialize (Hc _ _ E).
    case_bool_decide; injection Hi as <-; [|done]. revert Hc. unfold check_route. cbn [rt_key rt_receive is_none
      rt_minimum_payload_bytes rt_maximum_payload_bytes rt_validate_extension orb].
    destruct (is_none (rt_receive old)); [done|]. done.
Qed.

(** ** The registry under any sequence of calls *)

Inductive route_op := op_add (route : Route) | op_install (batch : list Route) | op_detach (context : option Z) | op_freeze.

Definition run_op (r : RouteRegistry) (op : route_op) : RouteRegistry :=
  match op with
  | op_add route => (route_add r route).2
  | op_install batch => (route_install r batch).2
  | op_detach c => detach r c
  | op_freeze => routes_freeze r
  end.

Definition run_ops (N : nat) (ops : list route_op) : RouteRegistry := foldl run_op (routes_new N) ops.

Lemma run_ops_wf N ops : routes_wf N (run_ops N ops).
Proof.
  unfold run_ops. assert (routes_wf N (routes_new N)) as H.
  { split; [apply length_replicate| |intros ? ? Hi; by apply replicate_none in Hi].
    unfold route_ids. cbn [routes routes_new]. rewrite occupied_empty. apply base.NoDup_nil_2. }
  revert H. generalize (routes_new N). induction ops as [|op ops IH]; intros r H; cbn [foldl]; [done|].
  apply IH. destruct op; cbn [run_op].
  - by apply route_add_spec.
  - by apply route_install_wf.
  - by apply detach_wf.
  - destruct r. by eapply frozen_irrelevant.
Qed.

(** ** Lookup *)

Lemma lookup_loop_spec wanted l i found :
  NoDup (occupied route_id l) -> (found <> None -> route_norm wanted ∉ occupied route_id l) ->
  match lookup_loop wanted l i found with
  | Ok (Some j) => found = Some j \/ exists k route, j = (i + k)%nat /\ l !! k = Some (Some route) /\ same_route (rt_key route) wanted = true
  | Ok None => found = None /\ route_norm wanted ∉ occupied route_id l
  | _ => False
  end.
Proof.
  revert i found. induction l as [|o l IH]; intros i found Hu Hf; cbn [lookup_loop].
  { destruct found; [by left|]. split; [done|]. apply not_elem_of_nil. }
  destruct (route_matches wanted o) eqn:Em.
  - pose proof Em as Em'. apply route_matches_spec in Em' as (route & -> & E). change (occupied route_id (Some route :: l)) with (route_id route :: occupied route_id l) in *.
    apply list.NoDup_cons in Hu as [Hn Hu]. destruct found as [f|].
    { exfalso. apply Hf; [done|]. rewrite E. left. }
    specialize (IH (S i) (Some i) Hu). rewrite <- E in IH. specialize (IH (fun _ => Hn)).
    destruct (lookup_loop wanted l (S i) (Some i)) as [[j|]|e|]; [|by destruct IH|done|done]. right.
    destruct IH as [[= <-]|(k & x & -> & ? & ?)]; [exists 0%nat, route|exists (S k), x]; (split; [lia|done]).
  - assert (Hsub : route_norm wanted ∈ occupied route_id (o :: l) -> route_norm wanted ∈ occupied route_id l).
    { destruct o as [x|]; [|done]. cbn. rewrite elem_of_cons. intros [E|?]; [|done]. exfalso.
      apply not_true_iff_false in Em. apply Em, route_matches_spec. eauto. }
    assert (Hup : route_norm wanted ∈ occupied route_id l -> route_norm wanted ∈ occupied route_id (o :: l)).
    { destruct o; [|done]. cbn. by right. }
    assert (Hu' : NoDup (occupied route_id l)) by (destruct o; [by apply list.NoDup_cons in Hu as [_ ?]|done]).
    specialize (IH (S i) found Hu' (fun Hx Hin => Hf Hx (Hup Hin))).
    destruct (lookup_loop wanted l (S i) found) as [[j|]|e|]; [| |done|done].
    + destruct IH as [?|(k & x & -> & ? & ?)]; [by left|right]. exists (S k), x. split; [lia|done].
    + destruct IH as [? Hn]. split; [done|]. intros Hin. by apply Hn, Hsub.
Qed.

(** ** Properties *)

(** Routing is unambiguous: whatever sequence of registrations, batch installs,
    detaches and freezes built the table, looking a packet up in the frozen table
    returns the only route with the packet's identity when there is one and
    [unsupported_capability] when there is none; the ambiguity error of [lookup] never
    occurs, and the route found has passed the checks of [add]. *)
Theorem route_lookup_exact N ops p e :
  routes_frozen (run_ops N ops) = true ->
  let r := run_ops N ops in
  let matching i route := routes r !! i = Some (Some route) /\ same_route (rt_key route) (wanted_key p e) = true in
  match route_lookup r p e with
  | Ok i => exists route, matching i route /\ check_route route = Ok tt /\ (forall j route', matching j route' -> j = i)
  | Err er => er = error1 ErrorCode.unsupported_capability /\ (forall j route, ~ matching j route)
  | UB => False
  end.
Proof.
  cbv zeta. pose proof (run_ops_wf N ops) as [_ Hu Hc]. set (r := run_ops N ops) in *. intros Hf.
  unfold route_lookup. rewrite Hf. cbn [negb].
  pose proof (lookup_loop_spec (wanted_key p e) (routes r) 0 None Hu ltac:(done)) as H.
  destruct (lookup_loop (wanted_key p e) (routes r) 0 None) as [[i|]|er|]; cbn [rbind]; [|idtac|done|done].
  - destruct H as [?|(k & route & -> & Hk & Hs)]; [done|]. exists route. split_and!; [done|done|by eapply Hc|].
    intros j route' [Hj Hs']. apply (occupied_unique route_id (routes r) j k route' route Hu Hj Hk).
    apply same_route_norm in Hs, Hs'. unfold route_id. congruence.
  - destruct H as [_ Hn]. split; [done|]. intros j route [Hj Hs]. apply Hn, elem_of_occupied. exists j, route. split; [done|].
    by apply same_route_norm.
Qed.

(** Installing a batch of routes is all or nothing: on success the table has
    exactly the old identities and those of the batch, each old route in its slot, and
    is frozen exactly if it was; on failure nothing changes. *)
Theorem route_install_atomic N ops batch :
  let r := run_ops N ops in
  match route_install r batch with
  | (Ok _, r') => route_ids r' ≡ₚ (route_id <$> batch) ++ route_ids r /\ routes_frozen r' = routes_frozen r /\
      (forall i x, routes r !! i = Some (Some x) -> routes r' !! i = Some (Some x))
  | (Err _, r') => r' = r
  | (UB, _) => False
  end.
Proof.
  cbv zeta. pose proof (run_ops_wf N ops) as Hwf. destruct (run_ops N ops) as [l b]. unfold route_install. cbn [routes routes_frozen].
  pose proof (route_add_all_spec N (mkRoutes l false) batch (frozen_irrelevant _ _ _ _ Hwf)) as [_ H].
  destruct (route_add_all _ batch) as [[[]|e|] [l' b']]; cbn [is_ok fst snd] in *; [|done|done]. by destruct H.
Qed.

(** ** Witnesses *)

Definition sample_route_key : RouteKey := mkRouteKey (mkPeer 1 1) (Some 7) PacketType.signal None Identifier_default Identifier_default.
Definition sample_route : Route := mkRoute sample_route_key (Some 4096) (Some (receiver_function 1)) None None 0 262140 None.
Definition sample_envelope : Envelope := mkEnvelope PacketType.signal 0 (Some 7) None (mkTimestamp 0 0 0 0) false false false false false false None.

Lemma route_lookup_exact_witness :
  route_lookup (run_ops 2 [op_add sample_route; op_freeze]) (mkPeer 1 1) sample_envelope = Ok 0%nat /\
  exists route, routes (run_ops 2 [op_add sample_route; op_freeze]) !! 0%nat = Some (Some route) /\ check_route route = Ok tt.
Proof.
  assert (E : route_lookup (run_ops 2 [op_add sample_route; op_freeze]) (mkPeer 1 1) sample_envelope = Ok 0%nat)
    by (vm_compute; reflexivity).
  split; [exact E|].
  pose proof (route_lookup_exact 2 [op_add sample_route; op_freeze] (mkPeer 1 1) sample_envelope eq_refl) as H.
  cbv zeta in H. rewrite E in H. destruct H as (route & [Hr _] & Hc & _). exists route. exact (conj Hr Hc).
Defined.
