(* ===== verification/FixedVector.v ===== *)
(** * Bounded vectors: [include/vita/core/fixed_vector.hpp]

    A [FixedVector<T, N>] is an array of [N] optional slots and a size.  The relation
    [represents] ties it to the list of its live elements; every operation implements the
    list operation of that name, and an access outside the live elements is undefined. *)

From S2P Require Import Prelude.

Section fixed_vector.
Context {T : Type} (N : nat).

Record FixedVector := mkFixedVector { fvec_slots : list (option T); fvec_size : nat }.

Definition fvec_new : FixedVector := mkFixedVector (replicate N None) 0.
Definition fvec_empty (v : FixedVector) : bool := (fvec_size v =? 0)%nat.
Definition fvec_full (v : FixedVector) : bool := (fvec_size v =? N)%nat.
Definition fvec_at (v : FixedVector) (i : nat) : Result T :=
  let? slot := deref (fvec_slots v !! i) in deref slot.

Definition fvec_emplace_back (v : FixedVector) (x : T) : Result unit * FixedVector :=
  if fvec_full v
  then (Err (error3 ErrorCode.capacity_exhausted 0 (Z.of_nat (fvec_size v) + 1)), v)
  else (Ok tt, mkFixedVector (<[fvec_size v := Some x]> (fvec_slots v)) (S (fvec_size v))).

Definition fvec_pop_back (v : FixedVector) : FixedVector :=
  match fvec_size v with
  | O => v
  | S n => mkFixedVector (<[n := None]> (fvec_slots v)) n
  end.

(** [while(size_) pop_back();] *)
Fixpoint fvec_clear_loop (n : nat) (v : FixedVector) : FixedVector :=
  match n with
  | O => v
  | S n => fvec_clear_loop n (fvec_pop_back v)
  end.
Definition fvec_clear (v : FixedVector) : FixedVector := fvec_clear_loop (fvec_size v) v.

(** ** Refinement of lists *)

Record represents (v : FixedVector) (l : list T) : Prop := mk_represents {
  rep_bound : (length l <= N)%nat;
  rep_size : fvec_size v = length l;
  rep_slots : fvec_slots v = (Some <$> l) ++ replicate (N - length l) None
}.

Lemma represents_new : represents fvec_new [].
Proof. split; cbn; [lia|done|by rewrite Nat.sub_0_r]. Qed.

Lemma represents_at v l i : represents v l -> fvec_at v i = deref (l !! i).
Proof.
  intros [Hb _ Hs]. unfold fvec_at. rewrite Hs.
  destruct (decide (i < length l)%nat) as [Hi|Hi].
  - rewrite lookup_app_l by (by rewrite length_fmap). rewrite list_lookup_fmap.
    destruct (lookup_lt_is_Some_2 l i Hi) as [x ->]. done.
  - rewrite lookup_app_r by (rewrite length_fmap; lia). rewrite (lookup_ge_None_2 l i) by lia.
    destruct (replicate _ _ !! _) as [o|] eqn:E; [|done]. by apply lookup_replicate in E as [-> _].
Qed.

Lemma represents_emplace_back v l x : represents v l ->
  match fvec_emplace_back v x with
  | (Ok tt, v') => (length l < N)%nat /\ represents v' (l ++ [x])
  | (Err e, v') => length l = N /\ e = error3 ErrorCode.capacity_exhausted 0 (Z.of_nat N + 1) /\ v' = v
  | (UB, _) => False
  end.
Proof.
  intros [Hb Hz Hs]. unfold fvec_emplace_back, fvec_full. rewrite Hz. destruct (Nat.eqb_spec (length l) N) as [E|E]; [by rewrite E|].
  split; [lia|]. split; cbn [fvec_size fvec_slots].
  - rewrite length_app. cbn. lia.
  - rewrite length_app. cbn. lia.
  - rewrite Hs, insert_app_r_alt by (rewrite length_fmap; lia). rewrite length_fmap, Nat.sub_diag, fmap_app, length_app. cbn [length].
    replace (N - length l)%nat with (S (N - (length l + 1))) by lia. cbn. by rewrite <- app_assoc.
Qed.

Lemma represents_pop_back v l : represents v l -> represents (fvec_pop_back v) (take (length l - 1) l).
Proof.
  intros [Hb Hz Hs]. unfold fvec_pop_back. rewrite Hz. destruct (length l) as [|n] eqn:El.
  - apply length_zero_iff_nil in El as ->. by split.
  - replace (S n - 1)%nat with n by lia. assert (Hl : length (take n l) = n) by (rewrite length_take; lia).
    split; cbn [fvec_size fvec_slots]; rewrite Hl; [lia|done|].
    destruct (lookup_lt_is_Some_2 l n) as [x Hx]; [lia|]. rewrite Hs.
    assert (El' : l = take n l ++ [x]) by (rewrite <- take_S_r by done; rewrite take_ge by lia; done).
    rewrite El' at 1. rewrite fmap_app, <- app_assoc. rewrite insert_app_r_alt by (rewrite length_fmap; lia).
    rewrite length_fmap, Hl, Nat.sub_diag. cbn. replace (N - n)%nat with (S (N - S n)) by lia. by cbn.
Qed.

Lemma represents_clear v l : represents v l -> represents (fvec_clear v) [].
Proof.
  intros Hr. unfold fvec_clear. rewrite (rep_size _ _ Hr).
  remember (length l) as n eqn:En. revert v l Hr En. induction n as [|n IH]; intros v l Hr En; cbn [fvec_clear_loop].
  - symmetry in En. by apply length_zero_iff_nil in En as ->.
  - apply (IH _ (take (length l - 1) l)); [by apply represents_pop_back|]. rewrite length_take. lia.
Qed.

(** One call on a vector, and the list operation it implements. *)
Inductive VectorOp := vop_push (x : T) | vop_pop | vop_clear.
Definition vector_step (v : FixedVector) (op : VectorOp) : FixedVector :=
  match op with
  | vop_push x => (fvec_emplace_back v x).2
  | vop_pop => fvec_pop_back v
  | vop_clear => fvec_clear v
  end.
Definition list_step (l : list T) (op : VectorOp) : list T :=
  match op with
  | vop_push x => if (length l <? N)%nat then l ++ [x] else l
  | vop_pop => take (length l - 1) l
  | vop_clear => []
  end.

(** A bounded vector behaves as the list of its elements under any sequence of calls: its
    size is the list's length, never more than the capacity, and an access returns the
    list's element, undefined exactly outside the list. *)
Theorem fixed_vector_refines ops :
  let v := foldl vector_step fvec_new ops in
  let l := foldl list_step [] ops in
  fvec_size v = length l /\ (length l <= N)%nat /\ (forall i, fvec_at v i = deref (l !! i)).
Proof.
  cbv zeta. enough (H : represents (foldl vector_step fvec_new ops) (foldl list_step [] ops)).
  { split; [by apply rep_size|]. split; [by eapply rep_bound|]. intros i. by apply represents_at. }
  generalize represents_new. generalize fvec_new, (@nil T). induction ops as [|op ops IH]; intros v l Hr; [done|]. cbn [foldl]. apply IH.
  destruct op as [x| |]; cbn [vector_step list_step]; [|by apply represents_pop_back|by eapply represents_clear].
  pose proof (represents_emplace_back v l x Hr) as H. destruct (fvec_emplace_back v x) as [[[]|e|] v']; cbn [snd].
  - destruct H as [Hlt H]. by destruct (Nat.ltb_spec (length l) N); [|lia].
  - destruct H as (E & _ & ->). by destruct (Nat.ltb_spec (length l) N); [lia|].
  - done.
Qed.
End fixed_vector.
Arguments FixedVector : clear implicits.
