(* ===== verification/State.v ===== *)
(** * Controlled state: [include/vita/runtime/state/contracts.hpp], [include/vita/profiles/iq/profile.hpp]

    The IQ profiles with their packet classes and sample framing, the snapshot of the
    eight state fields of a controlled device and its validation.  [snapshot_valid] is the
    declarative contract of a snapshot; [validate_snapshot_exact] shows that the code
    decides it. *)

From S2P Require Import Prelude Fields Time Scheduling.

(** ** Profiles *)

Module Profile.
Definition generator_v1 : Z := 0.
Definition frequency_tunable : Z := 1.
Definition sdr_radio : Z := 2.
End Profile.

Definition profile_information_class (p : Z) : Z :=
  if p =? Profile.sdr_radio then 0 else if p =? Profile.frequency_tunable then 2 else 1.
Definition profile_context_class (p : Z) : Z :=
  if p =? Profile.sdr_radio then 0 else if p =? Profile.frequency_tunable then 0x110 else 0x10.
Definition profile_command_class (p : Z) : Z :=
  if p =? Profile.sdr_radio then 0 else if p =? Profile.frequency_tunable then 0x120 else 0x20.
Definition profile_data_class (p baseline : Z) : Z :=
  if p =? Profile.sdr_radio then 0 else if p =? Profile.frequency_tunable then wrap16 (0x100 + baseline) else baseline.

Module SampleFrame.
Definition single : Z := 0.
Definition first : Z := 1.
Definition middle : Z := 2.
Definition final : Z := 3.
End SampleFrame.

Definition sdr_burst_pairs : Z := 262144.
Definition sdr_packet_pairs (ordinal maximum burst_pairs : Z) : Z :=
  let remaining := wrap64 (burst_pairs - ordinal mod burst_pairs) in Z.min maximum remaining.
Definition sdr_sample_frame (ordinal pairs burst_pairs : Z) : Z :=
  let first := ordinal mod burst_pairs =? 0 in
  let final := wrap64 (ordinal mod burst_pairs + pairs) =? burst_pairs in
  if first then (if final then SampleFrame.single else SampleFrame.first)
  else (if final then SampleFrame.final else SampleFrame.middle).
Definition sdr_trailer (frame : Z) : Z := Z.lor 0x00c00000 (Z.shiftl frame 10).
Definition minimum_center_hz : Z := 1000000.
Definition maximum_center_hz : Z := 6000000000.

(** ** Field states and snapshots *)

Module Validity.
Definition absent : Z := 0.
Definition known : Z := 1.
Definition unknown : Z := 2.
End Validity.

Record FieldState := mkFieldState { fs_id : FieldId; fs_value : SemanticValue; fs_validity : Z }.

Definition state_field_capacity : nat := 8.
Definition state_fields : list FieldId :=
  [Field.ReferencePoint; Field.SampleRate; Field.StateEvent; Field.DataPayloadFormat;
   Field.RFReferenceFrequency; Field.Bandwidth; Field.Gain; Field.DiscreteIO32].

(** The index of a field, or the size of the table. *)
Definition field_index (id : FieldId) : nat :=
  match first_index (fun f => fid_eqb f id) state_fields with Some i => i | None => length state_fields end.

Record StateSnapshot := mkState { st_version : Z; st_fields : list FieldState; st_profile : Z }.

Definition state_default : StateSnapshot :=
  mkState 0
    [mkFieldState Field.ReferencePoint (v_uint32 0) Validity.absent;
     mkFieldState Field.SampleRate (v_hertz 0) Validity.absent;
     mkFieldState Field.StateEvent (v_uint32 0) Validity.absent;
     mkFieldState Field.DataPayloadFormat (v_payload_format 0) Validity.absent;
     mkFieldState Field.RFReferenceFrequency (v_hertz 0) Validity.absent;
     mkFieldState Field.Bandwidth (v_hertz 0) Validity.absent;
     mkFieldState Field.Gain (v_gain 0 0) Validity.absent;
     mkFieldState Field.DiscreteIO32 (v_uint32 0) Validity.absent]
    Profile.generator_v1.

Definition active_state_fields (p : Z) : nat :=
  if p =? Profile.sdr_radio then 8 else if p =? Profile.frequency_tunable then 5 else 4.

Definition profile_field (p : Z) (id : FieldId) : bool :=
  let index := field_index id in
  (index <? 4)%nat || ((index =? 4)%nat && negb (p =? Profile.generator_v1)) ||
  ((index <? 8)%nat && (p =? Profile.sdr_radio)).

(** [std::get_if] *)
Definition if_hertz (v : SemanticValue) : option Z := match v with v_hertz q => Some q | _ => None end.
Definition if_uint32 (v : SemanticValue) : option Z := match v with v_uint32 x => Some x | _ => None end.
Definition if_payload_format (v : SemanticValue) : option Z := match v with v_payload_format x => Some x | _ => None end.
Definition if_gain (v : SemanticValue) : option (Z * Z) := match v with v_gain a b => Some (a, b) | _ => None end.

(** [1ll<<20]: one hertz in the Q20 representation. *)
Definition unit_q20 : Z := 1048576.
(** The built-in [%] of C++ truncates towards zero. *)
Definition q20_fraction (q : Z) : bool := nonzero (Z.rem q unit_q20).

Definition sdr_payload_format : Z := 0x200003cf00000000.

Definition is_known (f : FieldState) : bool := fs_validity f =? Validity.known.

(** A test on the value pointed to, true for a null pointer. *)
Definition absent_or {A} (test : A -> bool) (o : option A) : bool := match o with Some a => test a | None => true end.

Definition center_invalid (p q : Z) : bool :=
  (q <? minimum_center_hz * unit_q20) || (maximum_center_hz * unit_q20 <? q) ||
  ((p =? Profile.frequency_tunable) && q20_fraction q).

(** The body of the loop of [validate_snapshot]. *)
Definition check_state_field (s : StateSnapshot) (i : nat) : Result unit :=
  let? field := deref (st_fields s !! i) in
  if (active_state_fields (st_profile s) <=? i)%nat then
    fail_if negb (fs_validity field =? Validity.absent) with error1 ErrorCode.unsupported_capability ;; Ok tt
  else
    let? expected := deref (state_fields !! i) in
    fail_if negb (fid_eqb (fs_id field) expected) || (Validity.unknown <? fs_validity field)
      with error1 ErrorCode.invalid_argument ;;
    let? _ := (if is_known field then validate_value (fs_id field) (fs_value field) true else Ok tt) in
    fail_if (i =? 4)%nat && is_known field && absent_or (center_invalid (st_profile s)) (if_hertz (fs_value field))
      with error1 ErrorCode.invalid_argument ;;
    Ok tt.

Fixpoint check_state_fields (s : StateSnapshot) (i n : nat) : Result unit :=
  match n with
  | O => Ok tt
  | S n => let? _ := check_state_field s i in check_state_fields s (S i) n
  end.

Definition rate_invalid (q : Z) : bool := (q <? 1000 * unit_q20) || (2000000 * unit_q20 <? q) || q20_fraction q.
Definition gain_invalid (g : Z * Z) : bool := nonzero g.2 || (g.1 <? -60 * 128) || (60 * 128 <? g.1).

(** The additional constraints of the SDR profile. *)
Definition check_sdr (s : StateSnapshot) : Result unit :=
  let invalid := error1 ErrorCode.invalid_argument in
  let? f0 := deref (st_fields s !! 0%nat) in
  fail_if is_known f0 && absent_or (fun sid => (sid <? 1) || (4 <? sid)) (if_uint32 (fs_value f0)) with invalid ;;
  let? f3 := deref (st_fields s !! 3%nat) in
  fail_if is_known f3 && absent_or (fun x => negb (x =? sdr_payload_format)) (if_payload_format (fs_value f3)) with invalid ;;
  let? f1 := deref (st_fields s !! 1%nat) in
  fail_if is_known f1 && absent_or rate_invalid (if_hertz (fs_value f1)) with invalid ;;
  let? f5 := deref (st_fields s !! 5%nat) in
  let? _ :=
    (if is_known f5 then
       match if_hertz (fs_value f5) with
       | None => Err invalid
       | Some bw =>
           fail_if (bw <=? 0) || (2000000 * unit_q20 <? bw) with invalid ;;
           if is_known f1 then
             let? rate := get_hertz (fs_value f1) in
             fail_if rate <? bw with invalid ;; Ok tt
           else Ok tt
       end
     else Ok tt) in
  let? f6 := deref (st_fields s !! 6%nat) in
  fail_if is_known f6 && absent_or gain_invalid (if_gain (fs_value f6)) with invalid ;;
  let? f7 := deref (st_fields s !! 7%nat) in
  fail_if is_known f7 && absent_or (fun x => negb (x =? 2) && negb (x =? 3)) (if_uint32 (fs_value f7)) with invalid ;;
  Ok tt.

Definition validate_snapshot (s : StateSnapshot) : Result unit :=
  let p := st_profile s in
  fail_if negb (p =? Profile.generator_v1) && negb (p =? Profile.frequency_tunable) && negb (p =? Profile.sdr_radio)
    with error1 ErrorCode.invalid_argument ;;
  let? _ := check_state_fields s 0 state_field_capacity in
  if p =? Profile.sdr_radio then check_sdr s else Ok tt.

(** ** Plans, outcomes and events *)

Record Diagnostics := mkDiagnostics { warnings : Z; errors : Z }.
Definition no_diagnostics : Diagnostics := mkDiagnostics 0 0.
#[global] Instance Diagnostics_eq_dec : EqDecision Diagnostics.
Proof. solve_decision. Defined.

Record PlannedField := mkPlanned {
  pl_id : FieldId; pl_requested : SemanticValue; pl_adjusted : SemanticValue;
  pl_dependency_mask : Z; pl_eligible : bool; pl_diagnostics : Diagnostics;
  pl_time_known : bool; pl_ordinal_known : bool }.

(** [fields] and [count]: the list of the entries in use. *)
Record ExecutionPlan := mkExecution {
  ep_fields : list PlannedField; ep_order : list nat;
  ep_expected_state_version : Z; ep_operation : Z; ep_association_generation : Z; ep_boundary : Boundary }.

(** A device may report any byte as a status: the engine checks its range. *)
Module FieldStatus.
Definition pending : Z := 0.
Definition executed : Z := 1.
Definition failed : Z := 2.
Definition cancelled : Z := 3.
Definition unknown_effect : Z := 4.
Definition not_executed : Z := 5.
End FieldStatus.

Record FieldOutcome := mkOutcome {
  fo_id : FieldId; fo_status : Z; fo_value : SemanticValue; fo_validity : Z;
  fo_actual_time : ProtocolTime; fo_sample_ordinal : Z; fo_uncertainty_ps : Z;
  fo_time_known : bool; fo_ordinal_known : bool; fo_simulated : bool; fo_diagnostics : Diagnostics }.

Record EffectiveEvent := mkEvent {
  ev_state : StateSnapshot; ev_actual_time : ProtocolTime; ev_sample_ordinal : Z;
  ev_source_operation : Z; ev_association_generation : Z; ev_changed_mask : Z;
  ev_time_known : bool; ev_ordinal_known : bool; ev_outcome : FieldOutcome;
  ev_sample_epoch : option ProtocolTime }.

Definition context_time (e : EffectiveEvent) : ProtocolTime :=
  match ev_sample_epoch e with Some t => t | None => ev_actual_time e end.

(** ** The contract of a snapshot *)

(** What a known value of field [i] satisfies under profile [p]. *)
Definition known_value_ok (p : Z) (i : nat) (id : FieldId) (v : SemanticValue) : Prop :=
  validate_value id v true = Ok tt /\
  match i with
  | 0%nat => p = Profile.sdr_radio -> exists sid, v = v_uint32 sid /\ 1 <= sid <= 4
  | 1%nat => p = Profile.sdr_radio ->
      exists q, v = v_hertz q /\ 1000 * unit_q20 <= q <= 2000000 * unit_q20 /\ (unit_q20 | q)
  | 3%nat => p = Profile.sdr_radio -> v = v_payload_format sdr_payload_format
  | 4%nat => exists q, v = v_hertz q /\ minimum_center_hz * unit_q20 <= q <= maximum_center_hz * unit_q20 /\
                       (p = Profile.frequency_tunable -> (unit_q20 | q))
  | 5%nat => p = Profile.sdr_radio -> exists q, v = v_hertz q /\ 0 < q <= 2000000 * unit_q20
  | 6%nat => p = Profile.sdr_radio -> exists g, v = v_gain g 0 /\ -7680 <= g <= 7680
  | 7%nat => p = Profile.sdr_radio -> v = v_uint32 2 \/ v = v_uint32 3
  | _ => True
  end.

Record state_field_ok (p : Z) (i : nat) (f : FieldState) : Prop := mk_state_field_ok {
  sfo_inactive : (active_state_fields p <= i)%nat -> fs_validity f = Validity.absent;
  sfo_id : (i < active_state_fields p)%nat -> state_fields !! i = Some (fs_id f);
  sfo_validity : (i < active_state_fields p)%nat -> fs_validity f <= Validity.unknown;
  sfo_known : (i < active_state_fields p)%nat -> fs_validity f = Validity.known ->
    known_value_ok p i (fs_id f) (fs_value f)
}.

(** In the SDR profile the bandwidth does not exceed the sample rate. *)
Definition bandwidth_within_rate (s : StateSnapshot) : Prop :=
  forall f1 f5 rate bw,
    st_fields s !! 1%nat = Some f1 -> st_fields s !! 5%nat = Some f5 ->
    fs_validity f1 = Validity.known -> fs_validity f5 = Validity.known ->
    fs_value f1 = v_hertz rate -> fs_value f5 = v_hertz bw -> bw <= rate.

Record snapshot_valid (s : StateSnapshot) : Prop := mk_snapshot_valid {
  sv_profile : st_profile s ∈ [Profile.generator_v1; Profile.frequency_tunable; Profile.sdr_radio];
  sv_fields : forall i f, st_fields s !! i = Some f -> state_field_ok (st_profile s) i f;
  sv_bandwidth : st_profile s = Profile.sdr_radio -> bandwidth_within_rate s
}.

(** The array has its eight elements. *)
Definition state_shaped (s : StateSnapshot) : Prop := length (st_fields s) = state_field_capacity.

(** ** Validation decides the contract *)

Lemma state_fields_length : length state_fields = state_field_capacity.
Proof. done. Qed.

Lemma active_bound p : (active_state_fields p <= 8)%nat.
Proof. unfold active_state_fields. repeat case_match; lia. Qed.

Lemma is_known_iff f : is_known f = true <-> fs_validity f = Validity.known.
Proof. apply Z.eqb_eq. Qed.

Lemma absent_or_false {A} (test : A -> bool) o : absent_or test o = false <-> exists a, o = Some a /\ test a = false.
Proof. destruct o; cbn; [|by split; [|intros (? & ? & ?)]]. split; [eauto|]. by intros (? & [= ->] & ?). Qed.

Lemma if_hertz_Some v q : if_hertz v = Some q <-> v = v_hertz q.
Proof. destruct v; cbn; (split; [|intros [= <-]]); congruence. Qed.
Lemma if_uint32_Some v q : if_uint32 v = Some q <-> v = v_uint32 q.
Proof. destruct v; cbn; (split; [|intros [= <-]]); congruence. Qed.
Lemma if_payload_format_Some v q : if_payload_format v = Some q <-> v = v_payload_format q.
Proof. destruct v; cbn; (split; [|intros [= <-]]); congruence. Qed.
Lemma if_gain_Some v g : if_gain v = Some g <-> v = v_gain g.1 g.2.
Proof. destruct v, g; cbn; (split; [|intros [= <- <-]]); congruence. Qed.

Lemma q20_fraction_false q : q20_fraction q = false <-> (unit_q20 | q).
Proof.
  unfold q20_fraction, nonzero. rewrite negb_false_iff, Z.eqb_eq. rewrite <- Z.rem_divide by done. done.
Qed.

(** The part of a known value that the loop checks. *)
Definition loop_value_ok (p : Z) (i : nat) (f : FieldState) : Prop :=
  validate_value (fs_id f) (fs_value f) true = Ok tt /\
  (i = 4%nat -> exists q, fs_value f = v_hertz q /\ minimum_center_hz * unit_q20 <= q <= maximum_center_hz * unit_q20 /\
     (p = Profile.frequency_tunable -> (unit_q20 | q))).

Lemma center_invalid_false p q :
  center_invalid p q = false <->
  minimum_center_hz * unit_q20 <= q <= maximum_center_hz * unit_q20 /\ (p = Profile.frequency_tunable -> (unit_q20 | q)).
Proof.
  unfold center_invalid. rewrite !orb_false_iff, !Z.ltb_ge, andb_false_iff, Z.eqb_neq, q20_fraction_false.
  destruct (Z.eq_dec p Profile.frequency_tunable); tauto.
Qed.

Definition loop_field_ok (p : Z) (i : nat) (f : FieldState) : Prop :=
  ((active_state_fields p <= i)%nat -> fs_validity f = Validity.absent) /\
  ((i < active_state_fields p)%nat ->
     state_fields !! i = Some (fs_id f) /\ fs_validity f <= Validity.unknown /\
     (fs_validity f = Validity.known -> loop_value_ok p i f)).

Lemma check_state_field_decides s i f :
  st_fields s !! i = Some f -> (i < 8)%nat -> decides (check_state_field s i) (loop_field_ok (st_profile s) i f).
Proof.
  intros Hf Hi. unfold check_state_field. eapply decides_deref; [done|]. unfold loop_field_ok.
  destruct (Nat.leb_spec (active_state_fields (st_profile s)) i) as [Ha|Ha].
  - eapply decides_iff; [|apply decides_fail; intros; apply decides_ok].
    rewrite negb_false_iff, Z.eqb_eq. split; [|intros [H _]; split; [by apply H|done]]. intros [? _]. split; [done|]. lia.
  - destruct (lookup_lt_is_Some_2 state_fields i) as [id Hid]; [by rewrite state_fields_length|].
    eapply decides_deref; [done|].
    eapply decides_iff; [|apply decides_fail; intros _; apply decides_seq;
      [apply decides_when; intros _; split; [apply validate_value_safe|reflexivity]|intros _; apply decides_fail; intros _; apply decides_ok]].
    rewrite orb_false_iff, negb_false_iff, fid_eqb_eq, Z.ltb_ge, !andb_false_iff, is_known_iff, Nat.eqb_neq, absent_or_false.
    rewrite Hid. unfold loop_value_ok.
    assert (Hk : is_known f = false <-> fs_validity f <> Validity.known) by (unfold is_known; by rewrite Z.eqb_neq).
    rewrite Hk. setoid_rewrite if_hertz_Some. setoid_rewrite center_invalid_false.
    split.
    + intros ([-> Hv] & Hval & [[Hi4|Hun]|Hc] & _); (split; [lia|]); intros _; (split; [done|]); (split; [done|]); intros Hkn;
        (split; [by apply Hval|]); [done|done|]. intros _. destruct Hc as (q & Hq & ? & ?). by exists q.
    + intros [_ H]. destruct (H Ha) as ([= ->] & Hv & Hkn). split; [done|]. split; [intros; by apply Hkn|]. split; [|done].
      destruct (Nat.eq_dec i 4%nat) as [->|]; [|tauto]. destruct (Z.eq_dec (fs_validity f) Validity.known) as [e|]; [|tauto].
      right. destruct (Hkn e) as [_ Hc]. destruct (Hc eq_refl) as (q & ? & ? & ?). by exists q.
Qed.

Lemma check_state_fields_decides s n : forall i,
  state_shaped s -> (i + n = 8)%nat ->
  decides (check_state_fields s i n) (forall j f, (i <= j)%nat -> st_fields s !! j = Some f -> loop_field_ok (st_profile s) j f).
Proof.
  induction n as [|n IH]; intros i Hs Hn; cbn [check_state_fields].
  - eapply decides_iff; [|apply decides_ok]. split; [|done]. intros _ j f Hj Hf. apply lookup_lt_Some in Hf.
    rewrite Hs in Hf. unfold state_field_capacity in Hf. lia.
  - destruct (lookup_lt_is_Some_2 (st_fields s) i) as [f Hf]; [rewrite Hs; unfold state_field_capacity; lia|].
    eapply decides_iff; [|apply decides_seq; [apply (check_state_field_decides s i f); [done|lia]|intros _; apply IH; [done|lia]]].
    split.
    + intros [H1 H2] j g Hj Hg. destruct (Nat.eq_dec i j) as [<-|]; [by simplify_eq|]. apply H2; [lia|done].
    + intros H. split; [by apply H|]. intros j g Hj. apply H. lia.
Qed.

(** The values of the SDR profile, field by field. *)
Definition sdr_value_ok (i : nat) (v : SemanticValue) : Prop :=
  match i with
  | 0%nat => exists sid, v = v_uint32 sid /\ 1 <= sid <= 4
  | 1%nat => exists q, v = v_hertz q /\ 1000 * unit_q20 <= q <= 2000000 * unit_q20 /\ (unit_q20 | q)
  | 3%nat => v = v_payload_format sdr_payload_format
  | 5%nat => exists q, v = v_hertz q /\ 0 < q <= 2000000 * unit_q20
  | 6%nat => exists g, v = v_gain g 0 /\ -7680 <= g <= 7680
  | 7%nat => v = v_uint32 2 \/ v = v_uint32 3
  | _ => True
  end.

Lemma known_decides f (bad : bool) (P : Prop) : (bad = false <-> P) ->
  (is_known f && bad = false <-> (fs_validity f = Validity.known -> P)).
Proof.
  intros H. rewrite <- is_known_iff. destruct (is_known f); cbn [andb]; [rewrite H; tauto|].
  split; [intros _ E; discriminate E|done].
Qed.

Lemma sdr_sid_iff v : absent_or (fun sid => (sid <? 1) || (4 <? sid)) (if_uint32 v) = false <-> sdr_value_ok 0 v.
Proof.
  rewrite absent_or_false. cbn. setoid_rewrite if_uint32_Some. setoid_rewrite orb_false_iff. setoid_rewrite Z.ltb_ge. done.
Qed.

Lemma sdr_format_iff v : absent_or (fun x => negb (x =? sdr_payload_format)) (if_payload_format v) = false <-> sdr_value_ok 3 v.
Proof.
  rewrite absent_or_false. cbn [sdr_value_ok]. setoid_rewrite if_payload_format_Some. setoid_rewrite negb_false_iff. setoid_rewrite Z.eqb_eq.
  naive_solver.
Qed.

Lemma sdr_rate_iff v : absent_or rate_invalid (if_hertz v) = false <-> sdr_value_ok 1 v.
Proof.
  rewrite absent_or_false. cbn. setoid_rewrite if_hertz_Some. unfold rate_invalid. setoid_rewrite orb_false_iff.
  setoid_rewrite orb_false_iff. setoid_rewrite Z.ltb_ge. setoid_rewrite q20_fraction_false. naive_solver.
Qed.

Lemma sdr_gain_iff v : absent_or gain_invalid (if_gain v) = false <-> sdr_value_ok 6 v.
Proof.
  rewrite absent_or_false. cbn. setoid_rewrite if_gain_Some. unfold gain_invalid, nonzero. setoid_rewrite orb_false_iff.
  setoid_rewrite orb_false_iff. setoid_rewrite Z.ltb_ge. setoid_rewrite negb_false_iff. setoid_rewrite Z.eqb_eq. split.
  - intros ([a b] & -> & [Hb ?] & ?). cbn in *. subst. exists a. split; [done|lia].
  - intros (g & -> & ? & ?). exists (g, 0). cbn. split_and!; (done || lia).
Qed.

Lemma sdr_io_iff v : absent_or (fun x => negb (x =? 2) && negb (x =? 3)) (if_uint32 v) = false <-> sdr_value_ok 7 v.
Proof.
  rewrite absent_or_false. cbn. setoid_rewrite if_uint32_Some. setoid_rewrite andb_false_iff. setoid_rewrite negb_false_iff.
  setoid_rewrite Z.eqb_eq. naive_solver.
Qed.

Lemma sdr_bandwidth_decides f1 f5 e :
  (fs_validity f1 = Validity.known -> sdr_value_ok 1 (fs_value f1)) ->
  decides
    (if is_known f5 then
       match if_hertz (fs_value f5) with
       | None => Err e
       | Some bw =>
           fail_if (bw <=? 0) || (2000000 * unit_q20 <? bw) with e ;;
           if is_known f1 then let? rate := get_hertz (fs_value f1) in fail_if rate <? bw with e ;; Ok tt else Ok tt
       end
     else Ok tt)
    (fs_validity f5 = Validity.known -> sdr_value_ok 5 (fs_value f5) /\
       (fs_validity f1 = Validity.known -> forall rate bw, fs_value f1 = v_hertz rate -> fs_value f5 = v_hertz bw -> bw <= rate)).
Proof.
  intros H1. rewrite <- !is_known_iff. apply decides_when. intros _. destruct (if_hertz (fs_value f5)) as [bw|] eqn:E.
  - apply if_hertz_Some in E. rewrite E.
    eapply decides_iff with (P := ((bw <=? 0) || (2000000 * unit_q20 <? bw) = false) /\
       (is_known f1 = true -> forall rate, fs_value f1 = v_hertz rate -> bw <= rate)).
    + rewrite orb_false_iff, Z.leb_gt, Z.ltb_ge. cbn [sdr_value_ok]. split.
      * intros [Hb Hr]. split; [by exists bw|]. intros Hk rate bw' Hv [= <-]. by apply Hr.
      * intros [(q & [= <-] & Hb) Hr]. split; [done|]. intros Hk rate Hv. by apply (Hr Hk rate bw).
    + apply decides_fail. intros _. apply decides_when. intros Hk. apply is_known_iff in Hk.
      destruct (H1 Hk) as (q & Hq & _). rewrite Hq. cbn [get_hertz rbind].
      eapply decides_iff; [|apply decides_fail; intros; apply decides_ok]. rewrite Z.ltb_ge. split.
      * intros [? _] rate [= <-]. done.
      * intros H. split; [by apply H|done].
  - eapply decides_iff; [|apply decides_err]. split; [done|]. intros [(q & Hq & _) _]. apply if_hertz_Some in Hq. congruence.
Qed.

Lemma check_sdr_decides s : state_shaped s ->
  decides (check_sdr s)
    ((forall i f, st_fields s !! i = Some f -> fs_validity f = Validity.known -> sdr_value_ok i (fs_value f)) /\
     bandwidth_within_rate s).
Proof.
  intros Hs. unfold state_shaped, state_field_capacity in Hs. unfold check_sdr, bandwidth_within_rate.
  destruct (st_fields s) as [|f0 [|f1 [|f2 [|f3 [|f4 [|f5 [|f6 [|f7 [|]]]]]]]]] eqn:Ef; try discriminate Hs.
  cbn [lookup list_lookup deref rbind].
  eapply decides_iff; [|do 3 (apply decides_fail; intros ?E); apply decides_seq;
    [apply sdr_bandwidth_decides|intros _; do 2 (apply decides_fail; intros _); apply decides_ok]].
  - rewrite (known_decides f0 _ _ (sdr_sid_iff _)), (known_decides f3 _ _ (sdr_format_iff _)), (known_decides f1 _ _ (sdr_rate_iff _)),
      (known_decides f6 _ _ (sdr_gain_iff _)), (known_decides f7 _ _ (sdr_io_iff _)).
    split.
    + intros (H0 & H3 & H1 & H5 & H6 & H7 & _). split.
      * intros [|[|[|[|[|[|[|[|i]]]]]]]] f Hf Hk; cbn in Hf; simplify_eq; try exact I; first [by apply H0|by apply H1|by apply H3|by apply H6|by apply H7|by apply H5].
      * intros g1 g5 rate bw [= <-] [= <-] Hk1 Hk5 Hr Hb. destruct (H5 Hk5) as [_ H]. by eapply H.
    + intros [H Hb].
      split_and!; try done; try (by apply (H 0%nat)); try (by apply (H 1%nat)); try (by apply (H 3%nat)); try (by apply (H 6%nat)); try (by apply (H 7%nat)).
      intros Hk5. split; [by apply (H 5%nat)|]. intros Hk1 rate bw Hr Hw. by apply (Hb f1 f5).
  - by apply (known_decides f1 _ _ (sdr_rate_iff _)).
Qed.

Lemma active_sdr : active_state_fields Profile.sdr_radio = 8%nat.
Proof. done. Qed.

(** The loop and the additional SDR checks together are the contract of a field. *)
Lemma state_field_ok_split p i f : (i < 8)%nat ->
  state_field_ok p i f <->
  loop_field_ok p i f /\ (p = Profile.sdr_radio -> fs_validity f = Validity.known -> sdr_value_ok i (fs_value f)).
Proof.
  intros Hi. split.
  - intros [Ha Hid Hv Hk]. split; [split; [done|]; intros Hlt; split; [by apply Hid|]; split; [by apply Hv|]; intros Hkn|].
    + destruct (Hk Hlt Hkn) as [Hval Hm]. split; [done|]. intros ->. exact Hm.
    + intros -> Hkn. rewrite active_sdr in Hk. destruct (Hk Hi Hkn) as [_ Hm].
      do 8 (destruct i as [|i]; [cbn in Hm |- *; first [exact I|by apply Hm]|]). lia.
  - intros [[Ha Hl] Hs]. split; [done|intros Hlt; apply (Hl Hlt)|intros Hlt; apply (Hl Hlt)|]. intros Hlt Hkn. destruct (Hl Hlt) as (_ & _ & Hv).
    destruct (Hv Hkn) as [Hval H4]. split; [done|].
    do 8 (destruct i as [|i]; [cbn in Hs |- *; first [exact I|by intros ->; apply Hs|by apply H4]|]). lia.
Qed.

Lemma snapshot_decided s : state_shaped s -> decides (validate_snapshot s) (snapshot_valid s).
Proof.
  intros Hs. unfold validate_snapshot.
  eapply decides_iff; [|apply decides_fail; intros _; apply decides_seq; [by apply (check_state_fields_decides s 8 0)|intros _; apply decides_when; intros _; by apply check_sdr_decides]].
  rewrite !andb_false_iff, !negb_false_iff, !Z.eqb_eq. split.
  - intros (Hp & Hl & Hsd). split.
    + rewrite !elem_of_cons. tauto.
    + intros i f Hf. apply state_field_ok_split; [apply lookup_lt_Some in Hf; by rewrite Hs in Hf|]. split; [apply Hl; [lia|done]|].
      intros E Hk. by apply (Hsd E).
    + intros E. by apply Hsd.
  - intros [Hp Hf Hb]. rewrite !elem_of_cons, elem_of_nil in Hp. split; [tauto|].
    assert (Hlt : forall i f, st_fields s !! i = Some f -> (i < 8)%nat) by (intros i f Hi; apply lookup_lt_Some in Hi; by rewrite Hs in Hi).
    split.
    + intros j f _ Hj. apply state_field_ok_split; eauto.
    + intros E. split; [|auto]. intros i f Hi Hk. specialize (Hf i f Hi). apply state_field_ok_split in Hf as [_ Hf]; eauto.
Qed.
(** [validate_snapshot] accepts exactly the snapshots that satisfy the contract of their
    profile, and never reads a value through the wrong alternative. *)
Theorem validate_snapshot_exact s : state_shaped s -> decides (validate_snapshot s) (snapshot_valid s).
Proof. apply snapshot_decided. Qed.

Definition sample_state : StateSnapshot :=
  mkState 1
    [mkFieldState Field.ReferencePoint (v_uint32 3) Validity.known;
     mkFieldState Field.SampleRate (v_hertz (1000000 * unit_q20)) Validity.known;
     mkFieldState Field.StateEvent (v_uint32 0) Validity.absent;
     mkFieldState Field.DataPayloadFormat (v_payload_format sdr_payload_format) Validity.known;
     mkFieldState Field.RFReferenceFrequency (v_hertz (100000000 * unit_q20)) Validity.known;
     mkFieldState Field.Bandwidth (v_hertz (500000 * unit_q20)) Validity.known;
     mkFieldState Field.Gain (v_gain 256 0) Validity.unknown;
     mkFieldState Field.DiscreteIO32 (v_uint32 2) Validity.known]
    Profile.sdr_radio.

Lemma validate_snapshot_exact_witness : state_shaped sample_state /\ snapshot_valid sample_state.
Proof.
  assert (H : state_shaped sample_state) by (vm_compute; reflexivity).
  split; [exact H|]. apply (validate_snapshot_exact sample_state H). vm_compute. reflexivity.
Defined.

(** A field belongs to a profile exactly when its index is among the active ones. *)
Lemma profile_field_active p id :
  p ∈ [Profile.generator_v1; Profile.frequency_tunable; Profile.sdr_radio] ->
  profile_field p id = true <-> (field_index id < active_state_fields p)%nat.
Proof.
  assert (field_index id <= 8)%nat.
  { unfold field_index. destruct (first_index _ _) eqn:E; [|done]. apply first_index_lt in E. rewrite state_fields_length in E. unfold state_field_capacity in E. lia. }
  unfold profile_field. generalize dependent (field_index id). intros n Hn. rewrite !elem_of_cons, elem_of_nil.
  intros [->|[->|[->|[]]]];
    (do 9 (destruct n as [|n]; [cbn; split; (done || lia || (intros; exfalso; lia))|])); lia.
Qed.

Lemma field_index_lookup id i : field_index id = i -> (i < 8)%nat -> state_fields !! i = Some id.
Proof.
  unfold field_index. intros <-. destruct (first_index _ state_fields) as [j|] eqn:E; [|by cbn; lia]. intros _.
  apply first_index_Some in E as [(f & Hf & ->%fid_eqb_eq) _]. done.
Qed.

(** ** Bursts

    The packets of a burst of [burst] sample pairs, as the source emits them: each carries
    at most [maximum] pairs and stops at the burst's end. *)
Fixpoint burst_frames (fuel : nat) (ordinal maximum burst : Z) : list (Z * Z) :=
  match fuel with
  | O => []
  | S fuel =>
      let pairs := sdr_packet_pairs ordinal maximum burst in
      (pairs, sdr_sample_frame ordinal pairs burst) :: burst_frames fuel (ordinal + pairs) maximum burst
  end.

Lemma packet_pairs_bounds ordinal maximum burst :
  0 <= ordinal -> 0 < maximum -> 0 < burst <= U64_MAX ->
  let pairs := sdr_packet_pairs ordinal maximum burst in
  0 < pairs <= maximum /\ ordinal mod burst + pairs <= burst.
Proof.
  intros Ho Hm Hb. cbv zeta. unfold sdr_packet_pairs. pose proof (Z.mod_pos_bound ordinal burst).
  unfold wrap64. rewrite Z.mod_small by (unfold_words; lia). lia.
Qed.

(** The number of packets of a burst. *)
Definition burst_packets (maximum burst : Z) : Z := (burst + maximum - 1) / maximum.

Lemma sample_frame_spec ordinal pairs burst :
  0 <= ordinal -> 0 < pairs -> 0 < burst <= U64_MAX -> ordinal mod burst + pairs <= burst ->
  sdr_sample_frame ordinal pairs burst =
    if ordinal mod burst =? 0 then (if pairs =? burst then SampleFrame.single else SampleFrame.first)
    else (if ordinal mod burst + pairs =? burst then SampleFrame.final else SampleFrame.middle).
Proof.
  intros Ho Hp Hb Hs. unfold sdr_sample_frame, wrap64. pose proof (Z.mod_pos_bound ordinal burst).
  rewrite (Z.mod_small (ordinal mod burst + pairs)) by (unfold_words; lia).
  destruct (Z.eqb_spec (ordinal mod burst) 0) as [->|]; [|done]. by rewrite Z.add_0_l.
Qed.

Lemma packets_left maximum left : 0 < maximum -> maximum < left -> burst_packets maximum left = burst_packets maximum (left - maximum) + 1.
Proof.
  intros. unfold burst_packets. replace (left + maximum - 1) with (left - maximum + maximum - 1 + 1 * maximum) by lia.
  by rewrite Z.div_add by lia.
Qed.

Lemma packets_last maximum left : 0 < left <= maximum -> burst_packets maximum left = 1.
Proof. intros. unfold burst_packets. symmetry. apply (Z.div_unique _ _ _ (left - 1)); lia. Qed.

Lemma packets_pos maximum left : 0 < maximum -> 0 < left -> 0 < burst_packets maximum left.
Proof. intros. unfold burst_packets. apply Z.div_str_pos. lia. Qed.

Lemma mod_offset k burst o : 0 <= o < burst -> (k * burst + o) mod burst = o.
Proof. intros. rewrite Z.add_comm, Z.mod_add by lia. by apply Z.mod_small. Qed.

Definition pairs_of (l : list (Z * Z)) : Z := foldr (fun p n => p.1 + n) 0 l.

(** The packets after the first one of a burst. *)
Lemma burst_tail n k maximum burst : forall o,
  0 <= k -> 0 < maximum -> burst <= U64_MAX -> 0 < o < burst -> Z.of_nat n = burst_packets maximum (burst - o) ->
  let l := burst_frames n (k * burst + o) maximum burst in
  pairs_of l = burst - o /\ Forall (fun p => 0 < p.1 <= maximum) l /\
  l.*2 = replicate (n - 1) SampleFrame.middle ++ [SampleFrame.final].
Proof.
  induction n as [|n IH]; intros o Hk Hm Hb Ho Hn; cbv zeta.
  { pose proof (packets_pos maximum (burst - o)). lia. }
  cbn [burst_frames]. set (p := sdr_packet_pairs (k * burst + o) maximum burst).
  destruct (packet_pairs_bounds (k * burst + o) maximum burst) as [Hp Hs]; [nia|lia|lia|]. fold p in Hp, Hs.
  rewrite sample_frame_spec by (try nia; lia). rewrite mod_offset in Hs |- * by lia.
  destruct (Z.eqb_spec o 0); [lia|].
  assert (Ep : p = Z.min maximum (burst - o)).
  { unfold p, sdr_packet_pairs, wrap64. rewrite mod_offset by lia. rewrite Z.mod_small by (unfold_words; lia). done. }
  destruct (Z.le_gt_cases (burst - o) maximum) as [Hle|Hgt].
  - rewrite packets_last in Hn by lia. assert (n = 0%nat) as -> by lia. destruct (Z.eqb_spec (o + p) burst); [|lia].
    cbn. split_and!; [lia|apply list.Forall_singleton; cbn; lia|done].
  - assert (p = maximum) by lia. destruct (Z.eqb_spec (o + p) burst); [lia|]. rewrite packets_left in Hn by lia.
    replace (k * burst + o + p) with (k * burst + (o + p)) by lia.
    destruct (IH (o + p)) as (Hsum & Hall & Hfr); [lia..|rewrite H; replace (burst - (o + maximum)) with (burst - o - maximum) by lia; lia|].
    rewrite fmap_cons. cbn [pairs_of foldr fst snd]. fold (pairs_of (burst_frames n (k * burst + (o + p)) maximum burst)).
    split_and!; [lia|by constructor|]. rewrite Hfr.
    assert (0 < burst_packets maximum (burst - o - maximum)) by (apply packets_pos; lia).
    destruct n as [|n]; [lia|]. replace (S (S n) - 1)%nat with (S (S n - 1)) by lia. done.
Qed.

(** The packets of one burst carry exactly its sample pairs, none more than [maximum], and
    their frame flags read [single], or [first], [middle]s and [final]. *)
Theorem burst_framing k maximum burst :
  0 <= k -> 0 < maximum -> 0 < burst <= U64_MAX ->
  let n := Z.to_nat (burst_packets maximum burst) in
  let l := burst_frames n (k * burst) maximum burst in
  pairs_of l = burst /\ Forall (fun p => 0 < p.1 <= maximum) l /\
  l.*2 = (if burst <=? maximum then [SampleFrame.single]
          else SampleFrame.first :: replicate (n - 2) SampleFrame.middle ++ [SampleFrame.final]).
Proof.
  intros Hk Hm Hb. cbv zeta. pose proof (packets_pos maximum burst Hm). 
  destruct (Z.to_nat (burst_packets maximum burst)) as [|n] eqn:En; [lia|]. cbn [burst_frames].
  set (p := sdr_packet_pairs (k * burst) maximum burst).
  destruct (packet_pairs_bounds (k * burst) maximum burst) as [Hp Hs]; [nia|lia|lia|]. fold p in Hp, Hs.
  rewrite sample_frame_spec by (try nia; lia).
  assert (E0 : (k * burst) mod burst = 0) by (rewrite Z.mod_mul; lia). rewrite E0 in Hs |- *. cbn [Z.eqb].
  assert (Ep : p = Z.min maximum burst).
  { unfold p, sdr_packet_pairs, wrap64. rewrite E0, Z.sub_0_r, Z.mod_small by (unfold_words; lia). done. }
  destruct (Z.leb_spec burst maximum) as [Hle|Hgt].
  - rewrite packets_last in En by lia. assert (n = 0%nat) as -> by lia. destruct (Z.eqb_spec p burst); [|lia].
    cbn. split_and!; [lia|apply list.Forall_singleton; cbn; lia|done].
  - destruct (Z.eqb_spec p burst); [lia|]. rewrite packets_left in En by lia. assert (p = maximum) by lia.
    destruct (burst_tail n k maximum burst p) as (Hsum & Hall & Hfr); [lia..|rewrite H0; lia|].
    rewrite fmap_cons. cbn [pairs_of foldr fst snd]. fold (pairs_of (burst_frames n (k * burst + p) maximum burst)).
    split_and!; [lia|by constructor|]. rewrite Hfr. by destruct n.
Qed.

Lemma burst_framing_witness : (burst_frames 3 20 4 10).*2 = [SampleFrame.first; SampleFrame.middle; SampleFrame.final].
Proof. apply (burst_framing 2 4 10); (vm_compute; split; congruence) || (vm_compute; congruence). Defined.
