(* ===== verification/Cam.v ===== *)
(** * Command modes and profile validators: [include/vita/runtime/transaction/cam.hpp]

    The decoded control/acknowledge mode of a command, the rules that decide which fields
    are eligible and which acknowledgements are emitted, and the validators of the IQ
    profiles, which adjust or refuse a requested value. *)

From S2P Require Import Prelude Wire Fields State.

(** Diagnostic bits. *)
Definition diag_not_executed : Z := Z.shiftl 1 31.
Definition diag_device_failure : Z := Z.shiftl 1 30.
Definition diag_unsupported : Z := Z.shiftl 1 29.
Definition diag_range_error : Z := Z.shiftl 1 28.
Definition diag_precision : Z := Z.shiftl 1 27.
Definition diag_invalid_value : Z := Z.shiftl 1 26.
Definition diag_timing_error : Z := Z.shiftl 1 25.
Definition diag_resource_exhausted : Z := Z.shiftl 1 1.
Definition diag_dependency_blocked : Z := Z.shiftl 1 2.
Definition diag_state_indeterminate : Z := Z.shiftl 1 3.

Module TxProfile.
Inductive t := iq_generator_v1 | generic_virtual_test | iq_frequency_tunable | sdr_radio.
#[global] Instance t_eq_dec : EqDecision t.
Proof. solve_decision. Defined.
End TxProfile.

Record Cam := mkCam {
  cm_raw : Z; cm_action : Z; cm_timing : Z;
  cm_partial : bool; cm_allow_warning : bool; cm_allow_error : bool; cm_nack : bool;
  cm_request_v : bool; cm_request_x : bool; cm_request_s : bool;
  cm_detail_warning : bool; cm_detail_error : bool }.
Definition cam_default : Cam := mkCam 0 0 0 false false false false false false false false false.
#[global] Instance Cam_eq_dec : EqDecision Cam.
Proof. solve_decision. Defined.

Definition cam_of (raw : Z) : Cam :=
  mkCam raw (Z.land (Z.shiftr raw 23) 3) (Z.land (Z.shiftr raw 12) 7)
    (bit_set raw 27) (bit_set raw 26) (bit_set raw 25) (bit_set raw 22)
    (bit_set raw 20) (bit_set raw 19) (bit_set raw 18) (bit_set raw 17) (bit_set raw 16).

Definition cam_parse (e : Envelope) (profile : TxProfile.t) : Result Cam :=
  fail_if negb (env_type e =? PacketType.command) || is_none (command e) || ack e || cancel e
    with error1 ErrorCode.invalid_argument ;;
  let? _ := validate_cam e in
  let? cmd := deref (command e) in
  let c := cam_of (cam cmd) in
  fail_if negb (bool_decide (profile = TxProfile.generic_virtual_test)) && (cm_action c =? 2) &&
          cm_request_s c && negb (cm_request_x c)
    with error1 ErrorCode.unsupported_capability ;;
  Ok c.

Definition eligible (c : Cam) (d : Diagnostics) (resolvable : bool) : bool :=
  resolvable && (negb (nonzero (warnings d)) || cm_allow_warning c) && (negb (nonzero (errors d)) || cm_allow_error c).

Module AckKind.
Inductive t := validation | execution | state.
#[global] Instance t_eq_dec : EqDecision t.
Proof. solve_decision. Defined.
End AckKind.

Definition should_emit (c : Cam) (kind : AckKind.t) (summary : Diagnostics) : bool :=
  let requested := match kind with
                   | AckKind.validation => cm_request_v c
                   | AckKind.execution => cm_request_x c
                   | AckKind.state => cm_request_s c
                   end in
  requested && (bool_decide (kind = AckKind.state) || negb (cm_nack c) || nonzero (warnings summary) || nonzero (errors summary)).

Record Validation := mkValidation { vl_adjusted : SemanticValue; vl_diagnostics : Diagnostics; vl_resolvable : bool; vl_dependencies : Z }.

(** The four shapes of a validator's answer. *)
Definition accept (v : SemanticValue) : Validation := mkValidation v no_diagnostics true 0.
Definition refuse (v : SemanticValue) (e : Z) : Validation := mkValidation v (mkDiagnostics 0 e) false 0.
Definition refuse_warning (v : SemanticValue) (w : Z) : Validation := mkValidation v (mkDiagnostics w 0) false 0.
Definition adjust (v : SemanticValue) (w : Z) : Validation := mkValidation v (mkDiagnostics w 0) true 0.

Definition iq_validate (id : FieldId) (value : SemanticValue) : Validation :=
  if negb (fid_eqb id Field.SampleRate) then refuse value diag_unsupported else
  match if_hertz value with
  | None => refuse value diag_invalid_value
  | Some q =>
      if (q <? unit_q20) || (100000000 * unit_q20 <? q) then refuse value diag_range_error else
      let integer := Z.quot q unit_q20 in
      let remainder := Z.rem q unit_q20 in
      if nonzero remainder then
        let integer := if (Z.quot unit_q20 2 <? remainder) || ((remainder =? Z.quot unit_q20 2) && nonzero (Z.land integer 1))
                       then integer + 1 else integer in
        adjust (v_hertz (integer * unit_q20)) diag_precision
      else accept value
  end.

Definition tunable_validate (id : FieldId) (value : SemanticValue) : Validation :=
  if negb (fid_eqb id Field.RFReferenceFrequency) then refuse value diag_unsupported else
  if absent_or (fun q => (q <? minimum_center_hz * unit_q20) || (maximum_center_hz * unit_q20 <? q) || q20_fraction q) (if_hertz value)
  then refuse value diag_range_error else accept value.

Definition sdr_validate_rate (value : SemanticValue) : Validation :=
  match if_hertz value with
  | None => refuse value diag_invalid_value
  | Some q => if (q <? 1000 * unit_q20) || (2000000 * unit_q20 <? q) then refuse value diag_range_error
              else if q20_fraction q then refuse_warning value diag_precision else accept value
  end.
Definition sdr_validate_frequency (value : SemanticValue) : Validation :=
  match if_hertz value with
  | None => refuse value diag_invalid_value
  | Some q => if (q <? minimum_center_hz * unit_q20) || (maximum_center_hz * unit_q20 <? q) then refuse value diag_range_error
              else accept value
  end.
Definition sdr_validate_bandwidth (value : SemanticValue) : Validation :=
  match if_hertz value with
  | None => refuse value diag_invalid_value
  | Some q => if (q <=? 0) || (2000000 * unit_q20 <? q) then refuse value diag_range_error else accept value
  end.
Definition sdr_validate_gain (value : SemanticValue) : Validation :=
  match if_gain value with
  | None => refuse value diag_invalid_value
  | Some (stage1, stage2) =>
      if nonzero stage2 then refuse value diag_invalid_value
      else if (stage1 <? -60 * 128) || (60 * 128 <? stage1) then refuse value diag_range_error else accept value
  end.
Definition sdr_validate_io (value : SemanticValue) : Validation :=
  if absent_or (fun x => negb (x =? 2) && negb (x =? 3)) (if_uint32 value) then refuse value diag_invalid_value else accept value.

Definition sdr_validate (id : FieldId) (value : SemanticValue) : Validation :=
  if fid_eqb id Field.SampleRate then sdr_validate_rate value else
  if fid_eqb id Field.RFReferenceFrequency then sdr_validate_frequency value else
  if fid_eqb id Field.Bandwidth then sdr_validate_bandwidth value else
  if fid_eqb id Field.Gain then sdr_validate_gain value else
  if fid_eqb id Field.DiscreteIO32 then sdr_validate_io value else
  refuse value diag_unsupported.

(** ** Rounding of sample rates *)

(** [r] is a nearest multiple of [u] to [q], the even one at a tie. *)
Record rounded (u q r : Z) : Prop := mk_rounded {
  rounded_multiple : (u | r);
  rounded_near : 2 * Z.abs (r - q) <= u;
  rounded_even : 2 * Z.abs (r - q) = u -> (2 * u | r)
}.

Lemma land_1_odd z : nonzero (Z.land z 1) = Z.odd z.
Proof.
  unfold nonzero. change 1 with (Z.ones 1). rewrite Z.land_ones by lia. change (2 ^ 1) with 2. rewrite Zmod_odd. by destruct (Z.odd z).
Qed.

(** The answers of [iq_validate] for a rate [n * unit_q20 + r]. *)
Definition rounded_hz (n r : Z) : Z :=
  if (unit_q20 / 2 <? r) || ((r =? unit_q20 / 2) && Z.odd n) then n + 1 else n.

Lemma iq_validate_rate n r : 0 <= n -> 0 <= r < unit_q20 ->
  iq_validate Field.SampleRate (v_hertz (n * unit_q20 + r)) =
    if (n <? 1) || (100000000 * unit_q20 <? n * unit_q20 + r) then refuse (v_hertz (n * unit_q20 + r)) diag_range_error
    else if r =? 0 then accept (v_hertz (n * unit_q20))
    else adjust (v_hertz (rounded_hz n r * unit_q20)) diag_precision.
Proof.
  intros Hn Hr. unfold iq_validate. cbn [fid_eqb if_hertz Field.SampleRate cif fbit Z.eqb Pos.eqb andb negb].
  assert (Eq : Z.quot (n * unit_q20 + r) unit_q20 = n).
  { rewrite Z.quot_div_nonneg by (unfold unit_q20 in *; lia). symmetry. apply (Z.div_unique_pos _ _ _ r); lia. }
  assert (Er : Z.rem (n * unit_q20 + r) unit_q20 = r).
  { rewrite Z.rem_mod_nonneg by (unfold unit_q20 in *; lia). symmetry. apply (Z.mod_unique_pos _ _ n); lia. }
  rewrite Eq, Er, land_1_odd.
  assert (E1 : (n * unit_q20 + r <? unit_q20) = (n <? 1)) by (unfold unit_q20 in *; destruct (Z.ltb_spec n 1), (Z.ltb_spec (n * 1048576 + r) 1048576); (done || lia)).
  rewrite E1. destruct (_ || _); [done|]. unfold nonzero. destruct (Z.eqb_spec r 0) as [->|]; [by rewrite Z.add_0_r|]. done.
Qed.

Lemma rounded_hz_spec n r : 0 <= r < unit_q20 -> rounded unit_q20 (n * unit_q20 + r) (rounded_hz n r * unit_q20).
Proof.
  intros Hr. unfold rounded_hz. change (unit_q20 / 2) with 524288. unfold unit_q20 in *.
  destruct (Z.ltb_spec 524288 r); cbn [orb].
  - split; [by exists (n + 1)|lia|lia].
  - destruct (Z.eqb_spec r 524288) as [->|]; cbn [andb]; [|split; [by exists n|lia|lia]].
    destruct (Z.odd n) eqn:En.
    + apply Z.odd_spec in En as [m ->]. split; [eexists; reflexivity|lia|]. intros _. exists (m + 1). lia.
    + assert (Z.even n = true) as [m ->]%Z.even_spec by (by rewrite <- Z.negb_odd, En).
      split; [eexists; reflexivity|lia|]. intros _. exists m. lia.
Qed.

(** [iq_validate] accepts exactly the rates between 1 Hz and 100 MHz; the value it
    proposes is the request rounded to a whole number of hertz, ties to even, stays in
    range, is reported with the precision warning exactly when it differs from the request,
    and is accepted unchanged when it is validated again. *)
Theorem iq_rate_rounding q :
  unit_q20 <= q <= 100000000 * unit_q20 ->
  let v := iq_validate Field.SampleRate (v_hertz q) in
  exists r, vl_adjusted v = v_hertz r /\ rounded unit_q20 q r /\ unit_q20 <= r <= 100000000 * unit_q20 /\
    vl_resolvable v = true /\ errors (vl_diagnostics v) = 0 /\
    warnings (vl_diagnostics v) = (if r =? q then 0 else diag_precision) /\
    iq_validate Field.SampleRate (v_hertz r) = accept (v_hertz r).
Proof.
  intros Hq. cbv zeta. pose proof (Z.div_mod q unit_q20 ltac:(done)) as Eq. pose proof (Z.mod_pos_bound q unit_q20 ltac:(done)) as Hr.
  set (n := q / unit_q20) in *. set (r := q mod unit_q20) in *. rewrite (Z.mul_comm unit_q20) in Eq.
  assert (Hn : 1 <= n) by (unfold unit_q20 in *; lia).
  assert (Hfix : forall m, 1 <= m <= 100000000 -> iq_validate Field.SampleRate (v_hertz (m * unit_q20)) = accept (v_hertz (m * unit_q20))).
  { intros m Hm. rewrite <- (Z.add_0_r (m * unit_q20)) at 1. rewrite iq_validate_rate by (unfold unit_q20; lia).
    destruct (Z.ltb_spec m 1); [lia|]. destruct (Z.ltb_spec (100000000 * unit_q20) (m * unit_q20 + 0)); [unfold unit_q20 in *; lia|]. done. }
  rewrite Eq, iq_validate_rate by lia.
  destruct (Z.ltb_spec n 1); [lia|]. destruct (Z.ltb_spec (100000000 * unit_q20) (n * unit_q20 + r)); [lia|]. cbn [orb].
  destruct (Z.eqb_spec r 0) as [E0|E0].
  - exists (n * unit_q20). rewrite E0, Z.add_0_r, Z.eqb_refl. cbn [accept vl_adjusted vl_resolvable vl_diagnostics no_diagnostics errors warnings].
    split_and!; try done; try (unfold unit_q20 in *; lia); [split; [by exists n|lia|unfold unit_q20; lia]|apply Hfix; unfold unit_q20 in *; lia].
  - exists (rounded_hz n r * unit_q20). pose proof (rounded_hz_spec n r Hr) as Hrd.
    assert (n <= rounded_hz n r <= n + 1) by (unfold rounded_hz; case_match; lia).
    cbn [adjust vl_adjusted vl_resolvable vl_diagnostics errors warnings].
    assert (rounded_hz n r <= 100000000) by (destruct Hrd; unfold unit_q20 in *; lia).
    split_and!; try done; try (unfold unit_q20 in *; lia).
    + destruct (Z.eqb_spec (rounded_hz n r * unit_q20) (n * unit_q20 + r)); [unfold unit_q20 in *; lia|done].
    + apply Hfix. lia.
Qed.

Lemma iq_rate_rounding_witness :
  vl_adjusted (iq_validate Field.SampleRate (v_hertz (5 * unit_q20 + 524288))) = v_hertz (6 * unit_q20) /\
  exists r, vl_adjusted (iq_validate Field.SampleRate (v_hertz (5 * unit_q20 + 524288))) = v_hertz r /\
    rounded unit_q20 (5 * unit_q20 + 524288) r.
Proof.
  split; [vm_compute; reflexivity|].
  destruct (iq_rate_rounding (5 * unit_q20 + 524288)) as (r & H1 & H2 & _); [vm_compute; split; discriminate|].
  exists r. exact (conj H1 H2).
Defined.

(** ** Accepted values keep the state valid *)

(** The validator of a profile's commands. *)
Definition state_validator (p : Z) (id : FieldId) (v : SemanticValue) : Validation :=
  if p =? Profile.sdr_radio then sdr_validate id v
  else if p =? Profile.frequency_tunable then tunable_validate id v else iq_validate id v.

Definition set_field (s : StateSnapshot) (i : nat) (v : SemanticValue) : StateSnapshot :=
  mkState (st_version s) (alter (fun f => mkFieldState (fs_id f) v Validity.known) i (st_fields s)) (st_profile s).

Lemma validate_rate q : validate_value Field.SampleRate (v_hertz q) true =
  if q <? 0 then Err (error1 ErrorCode.invalid_argument) else Ok tt.
Proof. unfold validate_value, check_value. cbn. by destruct (q <? 0). Qed.
Lemma validate_bandwidth q : validate_value Field.Bandwidth (v_hertz q) true =
  if q <? 0 then Err (error1 ErrorCode.invalid_argument) else Ok tt.
Proof. unfold validate_value, check_value. cbn. by destruct (q <? 0). Qed.
Lemma validate_frequency q : validate_value Field.RFReferenceFrequency (v_hertz q) true = Ok tt.
Proof. reflexivity. Qed.
Lemma validate_gain a b : validate_value Field.Gain (v_gain a b) true = Ok tt.
Proof. reflexivity. Qed.
Lemma validate_io x : validate_value Field.DiscreteIO32 (v_uint32 x) true = Ok tt.
Proof. reflexivity. Qed.

Lemma nonneg_ok {e} q : 0 <= q -> (if q <? 0 then Err e else Ok tt) = Ok tt.
Proof. intros. by destruct (Z.ltb_spec q 0); [lia|]. Qed.

(** A resolvable value satisfies what a snapshot requires of the field. *)
Lemma iq_value_ok v : vl_resolvable (iq_validate Field.SampleRate v) = true ->
  known_value_ok Profile.generator_v1 1 Field.SampleRate (vl_adjusted (iq_validate Field.SampleRate v)).
Proof.
  destruct (if_hertz v) as [q|] eqn:E; [|by unfold iq_validate; rewrite E].
  apply if_hertz_Some in E as ->. intros Hr.
  destruct (Z.lt_ge_cases q 0) as [Hneg|Hpos].
  { exfalso. revert Hr. unfold iq_validate. cbn [fid_eqb if_hertz Field.SampleRate cif fbit Z.eqb Pos.eqb andb negb].
    destruct (Z.ltb_spec q unit_q20); [done|unfold unit_q20 in *; lia]. }
  rewrite (Z.div_mod q unit_q20), (Z.mul_comm unit_q20) in Hr |- * by done.
  pose proof (Z.mod_pos_bound q unit_q20 ltac:(done)). pose proof (Z.div_pos q unit_q20 Hpos ltac:(done)).
  rewrite iq_validate_rate in Hr |- * by lia. destruct (_ || _); [done|].
  assert (Hn : forall n, 0 <= n -> known_value_ok Profile.generator_v1 1 Field.SampleRate (v_hertz (n * unit_q20))).
  { intros n Hn. split; [|done]. rewrite validate_rate. apply nonneg_ok. unfold unit_q20. lia. }
  destruct (_ =? 0); cbn [vl_adjusted accept adjust]; apply Hn; [done|]. unfold rounded_hz. case_match; lia.
Qed.

Lemma tunable_value_ok v : vl_resolvable (tunable_validate Field.RFReferenceFrequency v) = true ->
  known_value_ok Profile.frequency_tunable 4 Field.RFReferenceFrequency (vl_adjusted (tunable_validate Field.RFReferenceFrequency v)).
Proof.
  unfold tunable_validate. cbn [fid_eqb Field.RFReferenceFrequency cif fbit Z.eqb Pos.eqb andb negb].
  destruct (absent_or _ _) eqn:E; [done|]. intros _. apply absent_or_false in E as (q & ->%if_hertz_Some & H).
  rewrite !orb_false_iff, !Z.ltb_ge, q20_fraction_false in H. split; [done|]. exists q. naive_solver.
Qed.

Ltac sdr_case :=
  match goal with
  | |- context [if_hertz ?v] => destruct (if_hertz v) eqn:?E; [apply if_hertz_Some in E as ->|done]
  | |- context [if_gain ?v] => destruct (if_gain v) as [[? ?]|] eqn:?E; [apply if_gain_Some in E as ->; cbn [fst snd]|done]
  end.

(** The validator of the SDR profile checks for each field what a snapshot requires. *)
Lemma sdr_value_accepted i id v :
  state_fields !! i = Some id -> vl_resolvable (sdr_validate id v) = true ->
  vl_adjusted (sdr_validate id v) = v /\ known_value_ok Profile.sdr_radio i id v.
Proof.
  intros Hi. destruct i as [|[|[|[|[|[|[|[|i]]]]]]]]; [injection Hi as <- ..|done];
    unfold sdr_validate; cbn [fid_eqb Field.ReferencePoint Field.SampleRate Field.StateEvent Field.DataPayloadFormat
      Field.RFReferenceFrequency Field.Bandwidth Field.Gain Field.DiscreteIO32 cif fbit Z.eqb Pos.eqb andb]; try done.
  - unfold sdr_validate_rate. sdr_case. test_goal E1; [done|]. test_goal E2; [done|]. intros _. split; [done|].
    rewrite orb_false_iff, !Z.ltb_ge in E1. apply q20_fraction_false in E2. split; [rewrite validate_rate; apply nonneg_ok; unfold unit_q20 in *; lia|].
    intros _. by exists z.
  - unfold sdr_validate_frequency. sdr_case. test_goal E1; [done|]. intros _. split; [done|].
    rewrite orb_false_iff, !Z.ltb_ge in E1. split; [done|]. exists z. split_and!; [done|lia|lia|done].
  - unfold sdr_validate_bandwidth. sdr_case. test_goal E1; [done|]. intros _. split; [done|].
    rewrite orb_false_iff, Z.leb_gt, !Z.ltb_ge in E1. split; [rewrite validate_bandwidth; apply nonneg_ok; lia|]. intros _. by exists z.
  - unfold sdr_validate_gain. sdr_case. test_goal E1; [done|]. test_goal E2; [done|]. intros _. split; [done|].
    unfold nonzero in E1. rewrite negb_false_iff, Z.eqb_eq in E1. rewrite orb_false_iff, !Z.ltb_ge in E2. subst. split; [done|]. intros _. exists z. split; [done|lia].
  - unfold sdr_validate_io. test_goal E1; [done|]. intros _. split; [done|]. apply sdr_io_iff in E1. split; [by destruct E1 as [-> | ->]|]. by intros _.
Qed.

Lemma state_field_active s i f : snapshot_valid s -> st_fields s !! i = Some f -> (i < active_state_fields (st_profile s))%nat -> state_fields !! i = Some (fs_id f).
Proof. intros [_ Hf _] Hi Hlt. by apply (Hf i f Hi). Qed.

(** The fields that the validators of the first two profiles can accept. *)
Lemma accepted_index p i id v :
  p <> Profile.sdr_radio -> state_fields !! i = Some id -> vl_resolvable (state_validator p id v) = true ->
  if p =? Profile.frequency_tunable then i = 4%nat else i = 1%nat.
Proof.
  intros Hp Hi. unfold state_validator. destruct (Z.eqb_spec p Profile.sdr_radio); [done|].
  destruct (p =? Profile.frequency_tunable); unfold tunable_validate, iq_validate;
    (destruct i as [|[|[|[|[|[|[|[|i]]]]]]]]; [injection Hi as <- ..|done]); cbn -[absent_or]; (done || by repeat case_match).
Qed.

(** A value the validator of the profile declares resolvable can be written to the field
    it was validated for: the snapshot stays valid, provided that in the SDR profile the
    bandwidth still does not exceed the rate, which the validator does not see. *)
Theorem accepted_value_keeps_state s i f v :
  snapshot_valid s -> st_fields s !! i = Some f -> (i < active_state_fields (st_profile s))%nat ->
  let r := state_validator (st_profile s) (fs_id f) v in
  vl_resolvable r = true ->
  let s' := set_field s i (vl_adjusted r) in
  (st_profile s = Profile.sdr_radio -> bandwidth_within_rate s') -> snapshot_valid s'.
Proof.
  intros Hs Hf Hlt. cbv zeta. intros Hr Hb. pose proof (state_field_active s i f Hs Hf Hlt) as Hid.
  destruct Hs as [Hp Hfields _]. split; [done| |done].
  intros j g Hg. cbn [set_field st_fields st_profile] in Hg |- *. rewrite list_lookup_alter in Hg.
  destruct (decide (i = j)) as [<-|_]; [|by apply Hfields]. rewrite Hf in Hg. cbn [fmap option_fmap option_map] in Hg.
  simplify_eq. split; cbn [fs_validity fs_id fs_value]; [lia|done|done|]. intros _ _.
  destruct (Z.eq_dec (st_profile s) Profile.sdr_radio) as [E|Hne].
  - rewrite E in Hr |- *. change (state_validator Profile.sdr_radio) with sdr_validate in Hr |- *.
    destruct (sdr_value_accepted i (fs_id f) v Hid Hr) as [-> H]. done.
  - pose proof (accepted_index _ _ _ _ Hne Hid Hr) as Hi. revert Hr. unfold state_validator.
    destruct (Z.eqb_spec (st_profile s) Profile.sdr_radio); [done|].
    destruct (Z.eqb_spec (st_profile s) Profile.frequency_tunable) as [->|]; subst i; injection Hid as <-; [apply tunable_value_ok|].
    rewrite !elem_of_cons, elem_of_nil in Hp. destruct Hp as [->|[?|[?|[]]]]; [apply iq_value_ok|done|done].
Qed.

Lemma accepted_value_keeps_state_witness :
  snapshot_valid (set_field sample_state 5 (v_hertz (750000 * unit_q20))).
Proof.
  assert (Hv : snapshot_valid sample_state).
  { apply snapshot_decided; vm_compute; reflexivity. }
  apply (accepted_value_keeps_state sample_state 5%nat (mkFieldState Field.Bandwidth (v_hertz (500000 * unit_q20)) Validity.known)
           (v_hertz (750000 * unit_q20)) Hv).
  - reflexivity.
  - vm_compute. lia.
  - vm_compute. reflexivity.
  - intros _ f1 f5 rate bw H1 H5 _ _ Er Eb. vm_compute in H1, H5. injection H1 as <-. injection H5 as <-.
    cbn in Er, Eb. injection Er as <-. injection Eb as <-. vm_compute. discriminate.
Defined.
