(* ===== verification/Sdr.v ===== *)
(** * Capabilities of the SDR profile: [include/vita/profiles/iq/sdr.hpp]

    The ranges and grids a device declares for its four tunable fields, their validation
    and the tests of a requested value.  The responses that report them are built with the
    packet builders and are not modelled. *)

From S2P Require Import Prelude Fields State.

Record CapabilityRange (V : Type) := mkRange { cap_minimum : V; cap_maximum : V }.
Arguments mkRange {V}.
Arguments cap_minimum {V}.
Arguments cap_maximum {V}.

(** [choices] is the array of sixteen entries, [sup_count] of which are in use. *)
Record SupportedValues := mkSupported { sup_step : Z; sup_origin : Z; sup_choices : list Z; sup_count : nat }.
Definition supported_any : SupportedValues := mkSupported 0 0 (replicate 16 0) 0.

Definition on_grid (s : SupportedValues) (value : Z) : bool :=
  if sup_step s <=? 0 then sup_step s =? 0 else
  let remainder := Z.rem value (sup_step s) in
  let base := Z.rem (sup_origin s) (sup_step s) in
  let remainder := if remainder <? 0 then remainder + sup_step s else remainder in
  let base := if base <? 0 then base + sup_step s else base in
  remainder =? base.

(** The choices in use, each tested against the grid and the choices before it. *)
Definition used_choices (s : SupportedValues) : list Z := take (sup_count s) (sup_choices s).
Fixpoint choices_valid (s : SupportedValues) (before rest : list Z) : bool :=
  match rest with
  | [] => true
  | c :: rest => on_grid s c && negb (existsb (Z.eqb c) before) && choices_valid s (before ++ [c]) rest
  end.
Definition supported_valid (s : SupportedValues) : bool :=
  negb ((sup_step s <? 0) || (length (sup_choices s) <? sup_count s)%nat) && choices_valid s [] (used_choices s).

Definition accepts (s : SupportedValues) (value : Z) : bool :=
  if negb (supported_valid s) || negb (on_grid s value) then false else
  if (sup_count s =? 0)%nat then true else existsb (Z.eqb value) (used_choices s).

(** [q20] of the frequencies; both stages of the gains. *)
Record SdrCapabilities := mkSdrCapabilities {
  center_frequency : CapabilityRange Z; sample_rate : CapabilityRange Z; bandwidth : CapabilityRange Z;
  gain : CapabilityRange (Z * Z);
  center_values : SupportedValues; sample_rate_values : SupportedValues; bandwidth_values : SupportedValues;
  gain_values : SupportedValues;
  bandwidth_supported : option (Z -> Z -> bool) }.

Definition sdr_capabilities_default : SdrCapabilities :=
  mkSdrCapabilities (mkRange (minimum_center_hz * unit_q20) (maximum_center_hz * unit_q20))
    (mkRange (1000 * unit_q20) (2000000 * unit_q20)) (mkRange unit_q20 (2000000 * unit_q20))
    (mkRange (-60 * 128, 0) (60 * 128, 0))
    supported_any (mkSupported unit_q20 0 (replicate 16 0) 0) supported_any supported_any None.

Definition ordered (r : CapabilityRange Z) : bool := (0 <=? cap_minimum r) && (cap_minimum r <=? cap_maximum r).

Definition within_domain (s : SupportedValues) (minimum maximum : Z) : bool :=
  accepts s minimum && accepts s maximum &&
  forallb (fun c => negb ((c <? minimum) || (maximum <? c))) (used_choices s).

Definition capabilities_validate (c : SdrCapabilities) : Result unit :=
  fail_if negb (ordered (center_frequency c)) || negb (ordered (sample_rate c)) || negb (ordered (bandwidth c)) ||
          ((cap_maximum (gain c)).1 <? (cap_minimum (gain c)).1) ||
          nonzero (cap_minimum (gain c)).2 || nonzero (cap_maximum (gain c)).2 ||
          negb (supported_valid (center_values c)) || negb (supported_valid (sample_rate_values c)) ||
          negb (supported_valid (bandwidth_values c)) || negb (supported_valid (gain_values c))
    with error1 ErrorCode.invalid_argument ;;
  fail_if (cap_minimum (center_frequency c) <? minimum_center_hz * unit_q20) ||
          (maximum_center_hz * unit_q20 <? cap_maximum (center_frequency c)) ||
          (cap_minimum (sample_rate c) <? 1000 * unit_q20) || (2000000 * unit_q20 <? cap_maximum (sample_rate c)) ||
          (cap_minimum (bandwidth c) <=? 0) || (2000000 * unit_q20 <? cap_maximum (bandwidth c)) ||
          ((cap_minimum (gain c)).1 <? -60 * 128) || (60 * 128 <? (cap_maximum (gain c)).1)
    with error1 ErrorCode.invalid_argument ;;
  fail_if negb (within_domain (center_values c) (cap_minimum (center_frequency c)) (cap_maximum (center_frequency c))) ||
          negb (within_domain (sample_rate_values c) (cap_minimum (sample_rate c)) (cap_maximum (sample_rate c))) ||
          negb (within_domain (bandwidth_values c) (cap_minimum (bandwidth c)) (cap_maximum (bandwidth c))) ||
          negb (within_domain (gain_values c) (cap_minimum (gain c)).1 (cap_maximum (gain c)).1)
    with error1 ErrorCode.invalid_argument ;;
  Ok tt.

Definition supports (c : SdrCapabilities) (requested_bandwidth requested_sample_rate : Z) : bool :=
  if (requested_sample_rate <? requested_bandwidth) || negb (accepts (bandwidth_values c) requested_bandwidth) ||
     negb (accepts (sample_rate_values c) requested_sample_rate) ||
     (requested_bandwidth <? cap_minimum (bandwidth c)) || (cap_maximum (bandwidth c) <? requested_bandwidth) ||
     (requested_sample_rate <? cap_minimum (sample_rate c)) || (cap_maximum (sample_rate c) <? requested_sample_rate)
  then false
  else match bandwidth_supported c with None => true | Some f => f requested_bandwidth requested_sample_rate end.

Definition sdr_capability_field (id : FieldId) : bool :=
  fid_eqb id Field.RFReferenceFrequency || fid_eqb id Field.SampleRate || fid_eqb id Field.Bandwidth || fid_eqb id Field.Gain.

(** ** What a device accepts *)

(** A value is on the grid when it differs from the origin by a multiple of the step. *)
Lemma rem_mod a m : 0 < m -> (if Z.rem a m <? 0 then Z.rem a m + m else Z.rem a m) = a mod m.
Proof.
  intros Hm. pose proof (Z.quot_rem' a m) as E. pose proof (Z.rem_bound_abs a m ltac:(lia)) as B.
  destruct (Z.ltb_spec (Z.rem a m) 0); [apply (Z.mod_unique_pos a m (Z.quot a m - 1)) | apply (Z.mod_unique_pos a m (Z.quot a m))];
    rewrite ?Z.mul_sub_distr_l; lia.
Qed.

Lemma on_grid_iff s v : 0 <= sup_step s -> on_grid s v = true <-> (sup_step s | v - sup_origin s) \/ sup_step s = 0.
Proof.
  intros Hs. unfold on_grid. destruct (Z.leb_spec (sup_step s) 0) as [|Hp].
  - assert (sup_step s = 0) as -> by lia. split; [by right|done].
  - set (m := sup_step s) in *. assert (Hm : m <> 0) by lia. rewrite !rem_mod, Z.eqb_eq by done.
    pose proof (Z.div_mod v m Hm) as Ev. pose proof (Z.div_mod (sup_origin s) m Hm) as Eo. split.
    + intros E. left. exists (v / m - sup_origin s / m). rewrite Z.mul_sub_distr_r, !(Z.mul_comm _ m). lia.
    + intros [[k Hk]|?]; [|done]. replace v with (sup_origin s + k * m) by lia. by rewrite Z.mod_add.
Qed.

Lemma existsb_eqb v l : existsb (Z.eqb v) l = true <-> v ∈ l.
Proof.
  rewrite existsb_exists. setoid_rewrite Z.eqb_eq. split; [intros (x & Hx & ->); by apply list_elem_of_In|].
  intros H. exists v. by rewrite <- list_elem_of_In.
Qed.

Lemma choices_valid_iff s rest : forall before, NoDup before ->
  choices_valid s before rest = true <-> Forall (fun c => on_grid s c = true) rest /\ NoDup (before ++ rest).
Proof.
  induction rest as [|c rest IH]; intros before Hb; cbn.
  - rewrite app_nil_r. split; [done|]. by intros _.
  - rewrite !andb_true_iff, negb_true_iff, <- not_true_iff_false, existsb_eqb, list.Forall_cons.
    assert (Hsnoc : NoDup (before ++ [c]) <-> c ∉ before).
    { rewrite list.NoDup_app. split; [intros (_ & H & _) Hc; apply (H c Hc), list_elem_of_singleton; done|].
      intros H. split_and!; [done| |apply NoDup_singleton]. intros x Hx Hx'%list_elem_of_singleton. by subst. }
    assert (Happ : before ++ c :: rest = (before ++ [c]) ++ rest) by (by rewrite <- app_assoc).
    rewrite Happ. split.
    + intros [[Hc Hn] H]. apply IH in H as [Hf Hd]; [by split_and!|by apply Hsnoc].
    + intros [[Hc Hf] Hd]. assert (NoDup (before ++ [c])) by (by apply list.NoDup_app in Hd as (? & _)).
      split_and!; [done|by apply Hsnoc|]. by apply IH.
Qed.

(** The declarative meaning of a table of supported values. *)
Record supported_ok (s : SupportedValues) : Prop := mk_supported_ok {
  so_step : 0 <= sup_step s;
  so_count : (sup_count s <= length (sup_choices s))%nat;
  so_choices : Forall (fun c => on_grid s c = true) (used_choices s);
  so_distinct : NoDup (used_choices s)
}.

Lemma supported_valid_iff s : supported_valid s = true <-> supported_ok s.
Proof.
  unfold supported_valid. rewrite andb_true_iff, negb_true_iff, orb_false_iff, Z.ltb_ge, Nat.ltb_ge.
  rewrite choices_valid_iff by apply NoDup_nil_2. cbn [app].
  split; [intros [[? ?] [? ?]]; by split|]. intros []. done.
Qed.

(** [accepts] answers true exactly for the values of a well-formed table that lie on its
    grid and, when the table lists choices, are one of them. *)
Theorem accepts_iff s v : accepts s v = true <->
  supported_ok s /\ ((sup_step s | v - sup_origin s) \/ sup_step s = 0) /\ (sup_count s = 0%nat \/ v ∈ used_choices s).
Proof.
  unfold accepts. rewrite <- supported_valid_iff. destruct (supported_valid s) eqn:Ev; cbn [negb orb]; [|by split; [|intros (? & _)]].
  apply supported_valid_iff in Ev as Hok. rewrite <- on_grid_iff by apply Hok.
  destruct (on_grid s v) eqn:Eg; cbn [negb]; [|by split; [|intros (_ & ? & _)]].
  destruct (Nat.eqb_spec (sup_count s) 0) as [E|E].
  - split; [|done]. intros _. split_and!; [done..|by left].
  - rewrite existsb_eqb. split; [intros H; split_and!; [done..|by right]|]. by intros (_ & _ & [?|?]).
Qed.
