(* ===== verification/Observer.v ===== *)
(** * Acknowledgements and what a controller learns from them:
    [include/vita/runtime/transaction/outcomes.hpp] and [cancellation.hpp]

    [AckRecord] is the response a controllee has decided on.  [ControllerObserver] folds
    the local events and the received responses of one command into a bounded history with
    one entry per phase.  [evidence] is its abstract specification: what the events of one
    phase say together.  The encoding of a response is not modelled. *)

From S2P Require Import Prelude Wire WireProofs Fields Time Clock Admission Structured Packet State Cam.

(** ** Response records *)

Record AckRecord := mkAck {
  ak_request : Envelope; ak_cam : Cam; ak_kind : AckKind.t; ak_diagnostics : list Diagnostics;
  ak_state : StateSnapshot; ak_selected_mask : Z;
  ak_partial : bool; ak_scheduled_or_executed : bool; ak_hypothetical : bool; ak_time_known : bool;
  ak_timing : Z; ak_time : ProtocolTime; ak_epoch : Z; ak_cancellation : bool;
  ak_sdr_capabilities : option nat (* which capability table the pointer designates *) }.

Definition summary (a : AckRecord) : Diagnostics :=
  foldl (fun r d => mkDiagnostics (Z.lor (warnings r) (warnings d)) (Z.lor (errors r) (errors d))) no_diagnostics (ak_diagnostics a).

(** ** Observations *)

Module ObservationKind.
Inductive t :=
  | unconfirmed | local_send | local_failure | validation | execution | state | timeout | late_response
  | cancellation_execution | cancellation_state | cancellation_timeout.
#[global] Instance t_eq_dec : EqDecision t.
Proof. solve_decision. Defined.
End ObservationKind.

Record Observation := mkObservation {
  ob_kind : ObservationKind.t;
  ob_hypothetical : bool; ob_partial : bool; ob_success : bool; ob_unknown_remote_outcome : bool;
  ob_response_kind : ObservationKind.t;
  ob_confirms_execution : bool; ob_contradictory : bool;
  ob_cancellation : bool; ob_confirms_cancellation : bool; ob_cancellation_outcome_known : bool;
  ob_validation_outcome_known : bool; ob_validation_accepted : bool }.
#[global] Instance Observation_eq_dec : EqDecision Observation.
Proof. solve_decision. Defined.

Definition observation_default : Observation :=
  mkObservation ObservationKind.unconfirmed false false false true ObservationKind.unconfirmed
    false false false false false false false.

Record ControllerObserver := mkObserver {
  ob_message_id : Z; ob_timed_out : bool; ob_cancellation_timed_out : bool;
  ob_current : Observation; ob_history : list Observation (* the first [count_] slots *) }.

Definition history_capacity : nat := 16.

Definition observer_new (message_id : Z) : ControllerObserver := mkObserver message_id false false observation_default [].

Definition same_phase (a b : Observation) : bool :=
  bool_decide (ob_kind a = ob_kind b) && bool_decide (ob_response_kind a = ob_response_kind b).

(** A slot after a second, different event of its phase. *)
Definition contradict (o : Observation) : Observation :=
  mkObservation (ob_kind o) (ob_hypothetical o) (ob_partial o) false true (ob_response_kind o)
    false true (ob_cancellation o) false false false false.

Definition record (s : ControllerObserver) (event : Observation) : Result ControllerObserver :=
  match first_index (fun h => same_phase h event) (ob_history s) with
  | Some i =>
      let? h := deref (ob_history s !! i) in
      let h := if bool_decide (h = event) then h else contradict h in
      Ok (mkObserver (ob_message_id s) (ob_timed_out s) (ob_cancellation_timed_out s) h (<[i := h]> (ob_history s)))
  | None =>
      if (history_capacity <=? length (ob_history s))%nat then UB else
      Ok (mkObserver (ob_message_id s) (ob_timed_out s) (ob_cancellation_timed_out s) event (ob_history s ++ [event]))
  end.

Definition plain_event (k : ObservationKind.t) (cancellation : bool) : Observation :=
  mkObservation k false false false true ObservationKind.unconfirmed false false cancellation false false false false.

Definition local_send (s : ControllerObserver) (succeeded : bool) : Result ControllerObserver :=
  record s (plain_event (if succeeded then ObservationKind.local_send else ObservationKind.local_failure) false).

Definition timeout (s : ControllerObserver) : Result ControllerObserver :=
  if ob_timed_out s then Ok s else
  record (mkObserver (ob_message_id s) true (ob_cancellation_timed_out s) (ob_current s) (ob_history s))
    (plain_event ObservationKind.timeout false).

Definition cancellation_timeout (s : ControllerObserver) : Result ControllerObserver :=
  if ob_cancellation_timed_out s then Ok s else
  record (mkObserver (ob_message_id s) (ob_timed_out s) true (ob_current s) (ob_history s))
    (plain_event ObservationKind.cancellation_timeout true).

(** The loop over the diagnostics of a response: [indeterminate] and [validation_error]. *)
Fixpoint diagnostic_flags (fields : list FieldView) (indeterminate validation_error : bool) : Result (bool * bool) :=
  match fields with
  | [] => Ok (indeterminate, validation_error)
  | f :: fields =>
      if bool_decide (fv_kind f = BodyKind.diagnostics) then
        let? d := view_diagnostic f in
        diagnostic_flags fields (indeterminate || nonzero (Z.land d diag_state_indeterminate))
          (validation_error || (bool_decide (fv_group f = DiagnosticGroup.error) && nonzero d))
      else diagnostic_flags fields indeterminate validation_error
  end.

(** The phase a response belongs to. *)
Definition response_phase (cancel : bool) (cam : Z) : ObservationKind.t :=
  if cancel then (if bit_set cam 19 then ObservationKind.cancellation_execution else ObservationKind.cancellation_state)
  else if bit_set cam 20 then ObservationKind.validation
  else if bit_set cam 19 then ObservationKind.execution else ObservationKind.state.

(** The event of a response, given the diagnostics of its fields. *)
Definition response_event (cancel late : bool) (cam : Z) (indeterminate validation_error : bool) : Observation :=
  let action := Z.land (Z.shiftr cam 23) 3 in
  let simulated := action =? 1 in
  let partial := bit_set cam 11 in
  let executed_flag := bit_set cam 10 in
  let kind := response_phase cancel cam in
  let on_time := negb (Z.land (Z.shiftr cam 12) 7 =? 7) in
  let confirmed := bool_decide (kind = ObservationKind.execution) && (action =? 2) && negb partial && executed_flag &&
                   negb indeterminate && on_time in
  let cancel_known := bool_decide (kind = ObservationKind.cancellation_execution) && negb indeterminate in
  let is_validation := bool_decide (kind = ObservationKind.validation) in
  mkObservation (if late then ObservationKind.late_response else kind) simulated partial (confirmed && negb late) (negb confirmed)
    kind confirmed false cancel (cancel_known && executed_flag) cancel_known is_validation
    (is_validation && executed_flag && negb partial && negb validation_error && negb indeterminate && on_time).

(** The checks of [receive], and the event of an accepted response. *)
Definition receive_event (mid : Z) (timed_out cancellation_timed_out : bool) (response : PacketView) : Result Observation :=
  let e := ev_envelope (pv_envelope response) in
  fail_if negb (ack e) || match command e with Some c => negb (message_id c =? mid) | None => true end ||
          pv_requires_request_context response || pv_opaque response
    with error1 ErrorCode.invalid_argument ;;
  let? _ := validate_cam e in
  let? c := deref (command e) in
  fail_if cancel e && (bit_set (cam c) 20 || negb (Z.land (Z.shiftr (cam c) 23) 3 =? 2))
    with error1 ErrorCode.invalid_argument ;;
  let? (indeterminate, validation_error) := diagnostic_flags (pv_fields response) false (bit_set (cam c) 16) in
  let late := if cancel e then cancellation_timed_out else timed_out in
  Ok (response_event (cancel e) late (cam c) indeterminate validation_error).

Definition receive (s : ControllerObserver) (response : PacketView) : Result ControllerObserver :=
  let? event := receive_event (ob_message_id s) (ob_timed_out s) (ob_cancellation_timed_out s) response in
  record s event.

Definition timeout_observation (s : ControllerObserver) : option Observation :=
  i ← first_index (fun h => bool_decide (ob_kind h = ObservationKind.timeout)) (ob_history s); ob_history s !! i.

(** ** Evidence *)

(** One call on the observer; a refused response leaves it unchanged. *)
Inductive ObserverOp := op_local_send (succeeded : bool) | op_timeout | op_cancellation_timeout | op_receive (response : PacketView).

Definition observe (s : ControllerObserver) (op : ObserverOp) : Result ControllerObserver :=
  match op with
  | op_local_send b => local_send s b
  | op_timeout => timeout s
  | op_cancellation_timeout => cancellation_timeout s
  | op_receive r => match receive s r with Err _ => Ok s | o => o end
  end.

Fixpoint observe_all (s : ControllerObserver) (ops : list ObserverOp) : Result ControllerObserver :=
  match ops with [] => Ok s | op :: ops => let? s := observe s op in observe_all s ops end.

(** The events of a sequence of calls, from the two timeout flags alone. *)
Definition op_event (mid : Z) (late cancel_late : bool) (op : ObserverOp) : list Observation :=
  match op with
  | op_local_send b => [plain_event (if b then ObservationKind.local_send else ObservationKind.local_failure) false]
  | op_timeout => if late then [] else [plain_event ObservationKind.timeout false]
  | op_cancellation_timeout => if cancel_late then [] else [plain_event ObservationKind.cancellation_timeout true]
  | op_receive r => match receive_event mid late cancel_late r with Ok e => [e] | _ => [] end
  end.

Definition is_op_timeout (op : ObserverOp) : bool := match op with op_timeout => true | _ => false end.
Definition is_op_cancellation_timeout (op : ObserverOp) : bool := match op with op_cancellation_timeout => true | _ => false end.

Fixpoint trace_events (mid : Z) (late cancel_late : bool) (ops : list ObserverOp) : list Observation :=
  match ops with
  | [] => []
  | op :: ops => op_event mid late cancel_late op ++
                 trace_events mid (late || is_op_timeout op) (cancel_late || is_op_cancellation_timeout op) ops
  end.

(** What the events of one phase say together: the event itself when they agree, the
    first one marked contradictory, without any conclusion, when they do not. *)
Definition evidence (events : list Observation) : option Observation :=
  match events with
  | [] => None
  | e :: rest => Some (if forallb (fun o => bool_decide (o = e)) rest then e else contradict e)
  end.

Abbreviation Phase := (ObservationKind.t * ObservationKind.t)%type.
Definition phase (o : Observation) : Phase := (ob_kind o, ob_response_kind o).

Definition find_phase (k : Phase) (l : list Observation) : option Observation :=
  i ← first_index (fun h => bool_decide (phase h = k)) l; l !! i.
Definition phase_events (k : Phase) (l : list Observation) : list Observation :=
  List.filter (fun h => bool_decide (phase h = k)) l.

(** The phases that can occur. *)
Definition phases : list Phase :=
  let responses := [ObservationKind.validation; ObservationKind.execution; ObservationKind.state;
                    ObservationKind.cancellation_execution; ObservationKind.cancellation_state] in
  ((fun k => (k, ObservationKind.unconfirmed)) <$> [ObservationKind.local_send; ObservationKind.local_failure;
                                            ObservationKind.timeout; ObservationKind.cancellation_timeout]) ++
  ((fun k => (k, k)) <$> responses) ++ (pair ObservationKind.late_response <$> responses).

Lemma same_phase_iff a b : same_phase a b = bool_decide (phase a = phase b).
Proof. unfold same_phase, phase. repeat case_bool_decide; cbn; naive_solver congruence. Qed.

Lemma phase_contradict o : phase (contradict o) = phase o.
Proof. done. Qed.

Lemma find_phase_cons k h l : find_phase k (h :: l) = if bool_decide (phase h = k) then Some h else find_phase k l.
Proof.
  unfold find_phase. cbn [first_index]. case_bool_decide; [done|].
  destruct (first_index _ l); done.
Qed.

Lemma find_phase_app k l l' : find_phase k (l ++ l') = match find_phase k l with Some h => Some h | None => find_phase k l' end.
Proof. induction l as [|h l IH]; [done|]. cbn [app]. rewrite !find_phase_cons. by case_bool_decide. Qed.

(** Replacing the first slot of its phase. *)
Lemma find_phase_insert k l i h h' :
  first_index (fun o => bool_decide (phase o = phase h)) l = Some i -> phase h' = phase h ->
  find_phase k (<[i := h']> l) = if bool_decide (phase h = k) then Some h' else find_phase k l.
Proof.
  intros Hi E. revert i Hi. induction l as [|o l IH]; intros i Hi; [done|]. cbn [first_index] in Hi.
  case_bool_decide as Ho.
  - injection Hi as <-. cbn [insert list_insert]. rewrite !find_phase_cons. rewrite E, Ho. by case_bool_decide.
  - destruct (first_index _ l) as [j|] eqn:Ej; [|done]. injection Hi as <-. change (<[S j := h']> (o :: l)) with (o :: <[j := h']> l).
    rewrite !find_phase_cons, (IH j eq_refl). repeat case_bool_decide; congruence.
Qed.

Lemma find_phase_Some k l h : find_phase k l = Some h -> phase h = k /\
  exists i, first_index (fun o => bool_decide (phase o = k)) l = Some i /\ l !! i = Some h.
Proof.
  unfold find_phase. destruct (first_index _ l) as [i|] eqn:Ei; [|done]. cbn. intros Hh. split; [|eauto].
  apply first_index_Some in Ei as [(o & Ho & Hp) _]. rewrite Hh in Ho. injection Ho as <-. by apply bool_decide_eq_true in Hp.
Qed.

Lemma phase_events_app k l l' : phase_events k (l ++ l') = phase_events k l ++ phase_events k l'.
Proof. apply filter_app. Qed.

(** A new event of a phase that has evidence already. *)
Lemma evidence_snoc l h ev :
  evidence l = Some h -> ob_contradictory ev = false ->
  Forall (fun o => ob_contradictory o = false) l ->
  evidence (l ++ [ev]) = Some (if bool_decide (h = ev) then h else contradict h).
Proof.
  destruct l as [|e l]; [done|]. cbn [evidence app]. intros [= <-] Hev Hl. apply list.Forall_cons in Hl as [He Hl].
  rewrite forallb_app. cbn [forallb]. rewrite andb_true_r.
  destruct (forallb _ l); cbn [andb]; [by repeat case_bool_decide; congruence|].
  case_bool_decide as E; [|done]. exfalso. apply (f_equal ob_contradictory) in E. cbn in E. congruence.
Qed.

(** An event is never contradictory by itself, and claims success only when it confirms
    the execution. *)
Definition event_ok (o : Observation) : Prop :=
  ob_contradictory o = false /\ (ob_success o = true -> ob_confirms_execution o = true /\ ob_unknown_remote_outcome o = false).

(** The observer's history holds the evidence of the events seen so far. *)
Record observer_inv (mid : Z) (late cancel_late : bool) (events : list Observation) (s : ControllerObserver) : Prop := mk_observer_inv {
  oi_mid : ob_message_id s = mid;
  oi_late : ob_timed_out s = late;
  oi_cancel_late : ob_cancellation_timed_out s = cancel_late;
  oi_evidence : forall k, find_phase k (ob_history s) = evidence (phase_events k events);
  oi_unique : NoDup (phase <$> ob_history s);
  oi_phases : forall h, h ∈ ob_history s -> phase h ∈ phases;
  oi_events : Forall event_ok events
}.

Lemma find_phase_of l h : NoDup (phase <$> l) -> h ∈ l -> find_phase (phase h) l = Some h.
Proof.
  induction l as [|o l IH]; [by intros _ []%elem_of_nil|]. rewrite fmap_cons, list.NoDup_cons, elem_of_cons, find_phase_cons.
  intros [Hn Hu] [->|Hh]; [by case_bool_decide|]. case_bool_decide as E; [|auto]. exfalso. apply Hn. rewrite E. by apply list_elem_of_fmap_2.
Qed.

Lemma phases_bound (l : list Observation) : NoDup (phase <$> l) -> (forall h, h ∈ l -> phase h ∈ phases) -> (length l <= 14)%nat.
Proof.
  intros Hn Hp. rewrite <- (length_fmap phase). change 14%nat with (length phases).
  apply submseteq_length, NoDup_submseteq; [done|]. intros k Hk. apply list_elem_of_fmap in Hk as (h & -> & Hh). auto.
Qed.

Lemma phase_events_plain k events : Forall event_ok events ->
  Forall (fun o => ob_contradictory o = false) (phase_events k events).
Proof. rewrite !list.Forall_forall. intros H o Ho. apply (H o). unfold phase_events in Ho. apply list_elem_of_In, filter_In in Ho as [Ho _]. by apply list_elem_of_In. Qed.

Lemma record_inv mid l c events s ev :
  observer_inv mid l c events s -> event_ok ev -> phase ev ∈ phases ->
  exists s', record s ev = Ok s' /\ observer_inv mid l c (events ++ [ev]) s'.
Proof.
  intros [Hm Hl Hc He Hu Hp Hev] Hcv Hph. unfold record.
  assert (Eext : first_index (fun h => same_phase h ev) (ob_history s) = first_index (fun h => bool_decide (phase h = phase ev)) (ob_history s)).
  { clear. induction (ob_history s) as [|h t IH]; [done|]. cbn [first_index]. by rewrite same_phase_iff, IH. }
  rewrite Eext. clear Eext. assert (Hev' : Forall event_ok (events ++ [ev])) by (apply Forall_app; split; [done|by apply list.Forall_singleton]).
  destruct (first_index _ (ob_history s)) as [i|] eqn:Ei.
  - apply first_index_Some in Ei as Hi. destruct Hi as [(h & Hh & Hph'%bool_decide_eq_true) _]. rewrite Hh. cbn [deref rbind].
    set (h' := if bool_decide (h = ev) then h else contradict h).
    assert (Eh' : phase h' = phase h) by (unfold h'; by case_bool_decide).
    eexists. split; [reflexivity|]. split; cbn [ob_message_id ob_timed_out ob_cancellation_timed_out ob_history]; try done.
    + intros k. rewrite (find_phase_insert k _ i h h'); [|by rewrite Hph'|done]. rewrite phase_events_app. cbn [phase_events List.filter].
      rewrite Hph'. case_bool_decide as Ek; [|by rewrite app_nil_r].
      symmetry. apply evidence_snoc; [|apply Hcv|by apply phase_events_plain]. rewrite <- He, <- Ek. unfold find_phase. rewrite Ei. cbn. done.
    + rewrite list_fmap_insert, Eh', list_insert_id; [done|]. by rewrite list_lookup_fmap, Hh.
    + intros o Ho. apply list_elem_of_lookup in Ho as [j Hj]. apply list_lookup_insert_Some in Hj as [(<- & <- & _)|[_ Hj]]; [|by eapply Hp, list_elem_of_lookup_2].
      rewrite Eh'. by eapply Hp, list_elem_of_lookup_2.
  - pose proof (phases_bound _ Hu Hp). destruct (Nat.leb_spec history_capacity (length (ob_history s))) as [Hb|_]; [unfold history_capacity in Hb; lia|].
    eexists. split; [reflexivity|]. split; cbn [ob_message_id ob_timed_out ob_cancellation_timed_out ob_history]; try done.
    + intros k. rewrite find_phase_app, phase_events_app, He. cbn [phase_events List.filter]. rewrite find_phase_cons.
      case_bool_decide as Ek; [|rewrite app_nil_r; by destruct (evidence _)].
      assert (evidence (phase_events k events) = None) as E.
      { rewrite <- He. unfold find_phase. by rewrite <- Ek, Ei. }
      rewrite E. by destruct (phase_events k events).
    + rewrite fmap_app. apply list.NoDup_app. split_and!; [done| |apply NoDup_singleton]. intros k Hk Hk'. apply list_elem_of_singleton in Hk' as ->.
      apply first_index_None in Ei. rewrite list.Forall_forall in Ei. apply list_elem_of_fmap in Hk as (h & Eh & Hh). specialize (Ei h Hh).
      by apply bool_decide_eq_false in Ei.
    + intros h Hh. apply elem_of_app in Hh as [Hh|Hh%list_elem_of_singleton]; [auto|by subst].
Qed.

Lemma plain_phase k b : (k, ObservationKind.unconfirmed) ∈ phases -> phase (plain_event k b) ∈ phases.
Proof. done. Qed.

Lemma response_event_phase cancel late cam ind ve : phase (response_event cancel late cam ind ve) ∈ phases.
Proof.
  unfold phase, response_event. cbn [ob_kind ob_response_kind]. unfold response_phase.
  destruct cancel, late, (bit_set cam 19), (bit_set cam 20); apply (bool_decide_unpack _); vm_compute; exact I.
Qed.

Lemma receive_event_Ok mid l c r ev : receive_event mid l c r = Ok ev -> event_ok ev /\ phase ev ∈ phases.
Proof.
  unfold receive_event. intros H. inv_ok. destruct x. inv_ok. split; [|apply response_event_phase]. split; [done|].
  unfold response_event. cbn [ob_success ob_confirms_execution ob_unknown_remote_outcome]. intros [Hcf _]%andb_true_iff. by rewrite Hcf.
Qed.

Lemma diagnostic_flags_safe fields : forall a b, safe (diagnostic_flags fields a b).
Proof.
  induction fields as [|f fields IH]; intros a b; cbn; [done|]. case_bool_decide; [|apply IH].
  apply rbind_safe; [|intros; apply IH]. unfold view_diagnostic. test_goal E; [done|].
  apply load32_safe; [lia|]. apply orb_false_iff in E as [_ E]. rewrite negb_false_iff, Z.eqb_eq in E. lia.
Qed.

Lemma receive_event_safe mid l c r : safe (receive_event mid l c r).
Proof.
  unfold receive_event. test_goal E; [done|]. rewrite !orb_false_iff in E. destruct E as [[[_ Ec] _] _].
  destruct (command _) as [cmd|] eqn:Ecmd; [|done]. apply rbind_safe.
  - unfold validate_cam. rewrite Ecmd. cbn [deref rbind]. repeat case_match; done.
  - intros _ _. cbn [deref rbind]. test_goal E; [done|]. apply rbind_safe; [apply diagnostic_flags_safe|]. by intros [] _.
Qed.

Lemma observe_inv mid l c events s op :
  observer_inv mid l c events s ->
  exists s', observe s op = Ok s' /\
    observer_inv mid (l || is_op_timeout op) (c || is_op_cancellation_timeout op) (events ++ op_event mid l c op) s'.
Proof.
  intros Hi. pose proof Hi as [Hm Hl Hc He Hu Hp Hev].
  assert (Hflag : forall l' c' cur, observer_inv mid l' c' events (mkObserver (ob_message_id s) l' c' cur (ob_history s))) by (intros; by split).
  destruct op as [b| | |r]; cbn [observe op_event is_op_timeout is_op_cancellation_timeout]; rewrite ?orb_false_r.
  - apply record_inv; [done|by split|]. by destruct b; apply (bool_decide_unpack _).
  - unfold timeout. rewrite Hl. destruct l; [rewrite app_nil_r; by exists s|]. rewrite Hc. cbn [orb].
    apply record_inv; [apply Hflag|by split|]. by apply (bool_decide_unpack _).
  - unfold cancellation_timeout. rewrite Hc. destruct c; [rewrite app_nil_r; by exists s|]. rewrite Hl. cbn [orb].
    apply record_inv; [apply Hflag|by split|]. by apply (bool_decide_unpack _).
  - unfold receive. rewrite Hm, Hl, Hc. destruct (receive_event mid l c r) as [ev|e|] eqn:Er; cbn [rbind].
    + apply receive_event_Ok in Er as [Hco Hph]. destruct (record_inv _ _ _ _ _ ev Hi Hco Hph) as (s' & -> & H). by exists s'.
    + rewrite app_nil_r. by exists s.
    + by apply receive_event_safe in Er.
Qed.

Lemma observe_all_inv mid ops : forall l c events s,
  observer_inv mid l c events s ->
  exists s', observe_all s ops = Ok s' /\ exists l' c', observer_inv mid l' c' (events ++ trace_events mid l c ops) s'.
Proof.
  induction ops as [|op ops IH]; intros l c events s Hi; cbn [observe_all trace_events].
  - rewrite app_nil_r. exists s. split; [done|]. by exists l, c.
  - destruct (observe_inv _ _ _ _ _ op Hi) as (s1 & -> & H1). cbn [rbind]. rewrite app_assoc. by apply IH.
Qed.

(** However calls and responses interleave, the observer never writes past its history of
    sixteen slots, and the slot of each phase is the evidence of the events of that phase:
    unanimous events are kept, disagreeing ones leave no conclusion. *)
Theorem observer_evidence mid ops :
  exists s, observe_all (observer_new mid) ops = Ok s /\
    (length (ob_history s) <= 14)%nat /\
    (forall k, find_phase k (ob_history s) = evidence (phase_events k (trace_events mid false false ops))) /\
    (forall h, h ∈ ob_history s -> ob_success h = true ->
       Forall (fun e => e = h) (phase_events (phase h) (trace_events mid false false ops)) /\
       ob_confirms_execution h = true /\ ob_unknown_remote_outcome h = false).
Proof.
  destruct (observe_all_inv mid ops false false [] (observer_new mid)) as (s & -> & l & c & [Hm Hl Hc He Hu Hp Hev]);
    [split; (done || apply base.NoDup_nil_2 || (intros ? []%elem_of_nil) || apply List.Forall_nil)|].
  exists s. split; [done|]. split; [by apply phases_bound|]. split; [done|].
  intros h Hh Hs. pose proof (He (phase h)) as Ee. rewrite (find_phase_of _ _ Hu Hh) in Ee.
  destruct (phase_events (phase h) _) as [|e rest] eqn:Epe; [done|]. cbn [evidence] in Ee. injection Ee as Ee.
  destruct (forallb _ rest) eqn:Ef; [subst e|by rewrite Ee in Hs].
  assert (Hin : h ∈ trace_events mid false false ops).
  { apply list_elem_of_In. apply (filter_In (fun o => bool_decide (phase o = phase h))). unfold phase_events in Epe. cbn [app] in Epe. rewrite Epe. by left. }
  cbn [app] in Hev. rewrite list.Forall_forall in Hev. destruct (Hev h Hin) as [_ Hok]. split; [|by apply Hok].
  apply List.Forall_cons; [done|]. rewrite list.Forall_forall. intros o Ho. rewrite forallb_forall in Ef.
  apply list_elem_of_In, Ef, bool_decide_eq_true in Ho. done.
Qed.
