(* ===== verification/Cancellation.v ===== *)
(** * Cancellation requests: [include/vita/runtime/transaction/cancellation.hpp]

    The selectors of a cancellation packet, the credits its processing needs and the
    acknowledgements it produces. *)

From S2P Require Import Prelude Wire WireProofs Fields Time Clock Admission Structured Packet FixedVector State Cam Observer.

(** The selection loop. *)
Fixpoint select_fields (fields : list FieldView) (selected : list bool) : Result (list bool) :=
  match fields with
  | [] => Ok selected
  | view :: fields =>
      fail_if negb (bool_decide (fv_kind view = BodyKind.selectors)) || negb (fv_attribute view =? Attribute.current) ||
              (field_index (fv_id view) =? state_field_capacity)%nat
        with error1 ErrorCode.unsupported_capability ;;
      select_fields fields (<[field_index (fv_id view) := true]> selected)
  end.

Definition cancellation_selectors (packet : PacketView) : Result (list bool) :=
  let e := ev_envelope (pv_envelope packet) in
  match validate_cam e with
  | UB => UB
  | valid =>
      fail_if negb (is_ok valid) || negb (cancel e) || ack e || pv_opaque packet with error1 ErrorCode.invalid_argument ;;
      select_fields (pv_fields packet) (replicate state_field_capacity false)
  end.

Definition cancellation_resources (cam : Z) : AdmissionRequest :=
  need (need request_empty Resource.cancellation_queue 1) Resource.cancellation_response
    (b2z (bit_set cam 19) + b2z (bit_set cam 18)).

Record CancellationResult := mkCancellationResult {
  cr_responses : FixedVector AckRecord; cr_cancelled : list bool; cr_credits : AdmissionBundle }.

(** [count += selected[i]] *)
Definition count_true (l : list bool) : nat := count_if (fun b => b) l.

(** The mask and the number of selected fields whose value is known. *)
Definition known_mask (selected : list bool) (fields : list FieldState) : Z * nat :=
  foldl (fun r p => let '(i, (sel, f)) := p in
                    if (sel : bool) && is_known f then (Z.lor r.1 (Z.shiftl 1 (Z.of_nat i)), S r.2) else r)
    (0, 0%nat) (zip (seq 0 state_field_capacity) (zip selected fields)).

(** [push_back] with its result ignored. *)
Definition push_response (v : FixedVector AckRecord) (a : AckRecord) : FixedVector AckRecord := (fvec_emplace_back 2 v a).2.

Definition cancellation_cam (raw : Z) : Cam :=
  mkCam raw 2 0 true false false (bit_set raw 22) false (bit_set raw 19) (bit_set raw 18) (bit_set raw 17) (bit_set raw 16).

Definition ack_epoch (clock_epoch : Z) : Z :=
  if clock_epoch =? Epoch.gps then Tsi.gps else if clock_epoch =? Epoch.utc then Tsi.utc else Tsi.other.

Definition ack_execution (e : Envelope) (raw : Z) (state : StateSnapshot) (clock : ClockSnapshot)
    (selected cancelled : list bool) (diagnostics : list Diagnostics) (ack_timing : Z) : AckRecord :=
  let count := count_true selected in
  let success := count_true cancelled in
  mkAck e (cancellation_cam raw) AckKind.execution diagnostics state 0
    (negb (success =? count)%nat) (negb (success =? 0)%nat) false
    (bool_decide (snap_state clock = ClockState.locked) || bool_decide (snap_state clock = ClockState.holdover))
    ack_timing (snap_time clock) (ack_epoch (snap_epoch clock)) true None.

(** The second acknowledgement reuses the record of the first. *)
Definition ack_state_of (a : AckRecord) (selected : list bool) (state : StateSnapshot) : AckRecord :=
  let '(mask, known) := known_mask selected (st_fields state) in
  mkAck (ak_request a) (ak_cam a) AckKind.state (replicate state_field_capacity no_diagnostics) (ak_state a) (Z.lor (ak_selected_mask a) mask)
    (negb (known =? count_true selected)%nat) (negb (known =? 0)%nat) (ak_hypothetical a) (ak_time_known a)
    (ak_timing a) (ak_time a) (ak_epoch a) (ak_cancellation a) (ak_sdr_capabilities a).

Definition cancellation_response (packet : PacketView) (state : StateSnapshot) (clock : ClockSnapshot)
    (selected cancelled : list bool) (diagnostics : list Diagnostics) (credits : AdmissionBundle) (ack_timing : Z)
    : Result CancellationResult :=
  let e := ev_envelope (pv_envelope packet) in
  let? c := deref (command e) in
  let a := ack_execution e (cam c) state clock selected cancelled diagnostics ack_timing in
  let responses := fvec_new 2 in
  let responses :=
    if cm_request_x (ak_cam a) && (negb (cm_nack (ak_cam a)) || nonzero (warnings (summary a)) || nonzero (errors (summary a)))
    then push_response responses a else responses in
  let responses := if cm_request_s (ak_cam a) then push_response responses (ack_state_of a selected state) else responses in
  Ok (mkCancellationResult responses cancelled credits).

(** ** Properties *)

Definition sel_known (p : bool * FieldState) : bool := p.1 && is_known p.2.

Lemma known_mask_loop sel fields : forall k m n,
  length sel = length fields ->
  let r := foldl (fun r p => let '(i, (sel, f)) := p in
                    if (sel : bool) && is_known f then (Z.lor r.1 (Z.shiftl 1 (Z.of_nat i)), S r.2) else r)
             (m, n) (zip (seq k (length sel)) (zip sel fields)) in
  r.2 = (n + count_if sel_known (zip sel fields))%nat /\
  (forall j, Z.testbit r.1 (Z.of_nat j) =
     Z.testbit m (Z.of_nat j) || ((k <=? j)%nat && match zip sel fields !! (j - k)%nat with Some p => sel_known p | None => false end)).
Proof.
  revert fields. induction sel as [|s sel IH]; intros [|f fields] k m n Hlen; try discriminate Hlen; cbv zeta.
  - cbn. split; [lia|]. intros j. by rewrite andb_false_r, orb_false_r.
  - injection Hlen as Hlen. cbn [length seq zip zip_with foldl].
    assert (Hstep : forall m' n', (n' = n + if s && is_known f then 1 else 0)%nat ->
      (forall j, Z.testbit m' (Z.of_nat j) = Z.testbit m (Z.of_nat j) || ((k =? j)%nat && (s && is_known f))) ->
      let r := foldl (fun r p => let '(i, (sel, f)) := p in
                    if (sel : bool) && is_known f then (Z.lor r.1 (Z.shiftl 1 (Z.of_nat i)), S r.2) else r)
             (m', n') (zip (seq (S k) (length sel)) (zip sel fields)) in
      r.2 = (n + count_if sel_known ((s, f) :: zip sel fields))%nat /\
      (forall j, Z.testbit r.1 (Z.of_nat j) =
        Z.testbit m (Z.of_nat j) || ((k <=? j)%nat && match ((s, f) :: zip sel fields) !! (j - k)%nat with Some p => sel_known p | None => false end))).
    { intros m' n' Hn Hm. destruct (IH fields (S k) m' n' Hlen) as [H2 H1]. cbv zeta in *. split.
      - rewrite H2, Hn. unfold count_if. cbn [List.filter]. unfold sel_known at 2. cbn [fst snd]. destruct (s && is_known f); cbn [length]; lia.
      - intros j. rewrite H1, Hm, <- orb_assoc. f_equal. destruct (Nat.eqb_spec k j) as [<-|Hne].
        + rewrite (proj2 (Nat.leb_gt (S k) k)), Nat.sub_diag, Nat.leb_refl by lia. cbn. by rewrite orb_false_r.
        + cbn [andb orb]. destruct (Nat.leb_spec (S k) j).
          * rewrite (proj2 (Nat.leb_le k j)) by lia. cbn [andb]. by replace (j - k)%nat with (S (j - S k)) by lia.
          * rewrite (proj2 (Nat.leb_gt k j)) by lia. done. }
    destruct (s && is_known f) eqn:E; (apply Hstep; cbn [fst snd]; rewrite ?E; [lia|]); intros j; rewrite ?E.
    + rewrite Z.lor_spec, Z.shiftl_1_l, Z.pow2_bits_eqb by lia. rewrite andb_true_r. f_equal.
      destruct (Nat.eqb_spec k j), (Z.eqb_spec (Z.of_nat k) (Z.of_nat j)); (done || lia).
    + by rewrite andb_false_r, orb_false_r.
Qed.

Lemma count_true_eq cancelled selected :
  Forall2 (fun c s => c = true -> s = true) cancelled selected ->
  (count_true cancelled <= count_true selected)%nat /\ (count_true cancelled = count_true selected <-> cancelled = selected).
Proof.
  induction 1 as [|c s cs ss Hcs _ [IHle IH]]; [done|]. unfold count_true, count_if in *. cbn [List.filter].
  destruct c, s; cbn [length] in *; try (by specialize (Hcs eq_refl)).
  - split; [lia|]. split; [intros E; f_equal; apply IH; lia|intros [= E]; apply IH in E; lia].
  - split; [lia|]. split; [lia|done].
  - split; [lia|]. split; [intros E; f_equal; apply IH; lia|intros [= E]; apply IH in E; lia].
Qed.

Lemma count_true_zero l : count_true l = 0%nat <-> true ∉ l.
Proof.
  induction l as [|b l IH]; [by split; [intros _ []%elem_of_nil|]|]. unfold count_true, count_if in *. cbn [List.filter].
  rewrite elem_of_cons. destruct b; cbn [length]; [by split; [|intros []; left]|]. rewrite IH. split; [|tauto]. intros H [?|?]; [done|auto].
Qed.

Lemma resources_responses raw : adm_count (counts (cancellation_resources raw)) Resource.cancellation_response = b2z (bit_set raw 19) + b2z (bit_set raw 18).
Proof. done. Qed.

(** The number of selected fields that are known is the number of selected fields exactly
    when every selected field is known. *)
Lemma known_all sel fields : length sel = length fields ->
  (count_if sel_known (zip sel fields) = count_true sel <-> forall i f, sel !! i = Some true -> fields !! i = Some f -> is_known f = true) /\
  (count_if sel_known (zip sel fields) <= count_true sel)%nat.
Proof.
  revert fields. induction sel as [|s sel IH]; intros [|f fields] Hl; try discriminate Hl; [done|]. injection Hl as Hl.
  destruct (IH fields Hl) as [IH1 IH2]. unfold count_true, count_if in *. cbn [zip zip_with List.filter]. change (sel_known (s, f)) with (s && is_known f).
  assert (Hcons : (forall i f0, (s :: sel) !! i = Some true -> (f :: fields) !! i = Some f0 -> is_known f0 = true) <->
    (s = true -> is_known f = true) /\ (forall i f0, sel !! i = Some true -> fields !! i = Some f0 -> is_known f0 = true)).
  { split; [intros H; split; [intros ->; by apply (H 0%nat f)|intros i f0; apply (H (S i))]|].
    intros [H0 H] [|i] f0; cbn; [intros [= ->] [= <-]; auto|apply H]. }
  rewrite Hcons. destruct s; cbn [andb]; [destruct (is_known f) eqn:Ek; cbn [length]|].
  - split; [|lia]. rewrite <- IH1. split; [intros E; split; [done|lia]|intros [_ E]; lia].
  - split; [|lia]. split; [lia|intros [E _]; by specialize (E eq_refl)].
  - split; [|lia]. rewrite <- IH1. split; [by intros|by intros [_ E]].
Qed.

(** The state acknowledgement. *)
Lemma ack_state_spec a selected state :
  state_shaped state -> length selected = state_field_capacity -> ak_selected_mask a = 0 ->
  (forall i, Z.testbit (ak_selected_mask (ack_state_of a selected state)) (Z.of_nat i) = true <->
     exists f, selected !! i = Some true /\ st_fields state !! i = Some f /\ fs_validity f = Validity.known) /\
  (ak_partial (ack_state_of a selected state) = false <->
     forall i f, selected !! i = Some true -> st_fields state !! i = Some f -> fs_validity f = Validity.known).
Proof.
  intros Hst Hsel Hm. unfold ack_state_of.
  pose proof (known_mask_loop selected (st_fields state) 0 0 0) as H. rewrite Hsel, Hst in H.
  specialize (H eq_refl). cbv zeta in H. fold (known_mask selected (st_fields state)) in H.
  destruct (known_mask selected (st_fields state)) as [mask known]. destruct H as [H2 H1]. cbn [fst snd] in H1, H2.
  cbn [ak_selected_mask ak_partial]. rewrite Hm. split.
  - intros i. rewrite Z.lor_spec, Z.bits_0, H1, Z.bits_0, Nat.sub_0_r. cbn [orb Nat.leb andb].
    rewrite lookup_zip_with. unfold sel_known.
    destruct (selected !! i) as [s|], (st_fields state !! i) as [f|]; cbn; try (split; [done|intros (? & ? & ? & ?); congruence]).
    rewrite andb_true_iff, is_known_iff. split; [intros [-> ?]; eauto|]. intros (f' & [= ->] & [= <-] & ?). done.
  - destruct (known_all selected (st_fields state)) as [Hk _]; [by rewrite Hsel, Hst|].
    rewrite negb_false_iff, Nat.eqb_eq, H2. cbn [Nat.add]. rewrite Hk. by setoid_rewrite is_known_iff.
Qed.

(** What a cancellation acknowledges: there are no more responses than the credits that
    [cancellation_resources] reserves for it; the execution acknowledgement is complete
    exactly when every selected field was cancelled, and reports an effect exactly when
    one was; the state acknowledgement carries exactly the selected fields whose value is
    known, and is complete exactly when all are. *)
Theorem cancellation_acknowledged packet c state clock selected cancelled diagnostics credits timing :
  command (ev_envelope (pv_envelope packet)) = Some c ->
  state_shaped state -> length selected = state_field_capacity ->
  Forall2 (fun c s => c = true -> s = true) cancelled selected ->
  exists r acks, cancellation_response packet state clock selected cancelled diagnostics credits timing = Ok r /\
    represents 2 (cr_responses r) acks /\
    Z.of_nat (length acks) <= adm_count (counts (cancellation_resources (cam c))) Resource.cancellation_response /\
    (forall a, a ∈ acks -> ak_kind a = AckKind.execution ->
       (ak_partial a = false <-> cancelled = selected) /\ (ak_scheduled_or_executed a = true <-> true ∈ cancelled)) /\
    (forall a, a ∈ acks -> ak_kind a = AckKind.state ->
       (forall i, Z.testbit (ak_selected_mask a) (Z.of_nat i) = true <->
          exists f, selected !! i = Some true /\ st_fields state !! i = Some f /\ fs_validity f = Validity.known) /\
       (ak_partial a = false <->
          forall i f, selected !! i = Some true -> st_fields state !! i = Some f -> fs_validity f = Validity.known)).
Proof.
  intros Hc Hst Hsel Hcan. unfold cancellation_response. rewrite Hc. cbn [deref rbind].
  set (a := ack_execution _ _ _ _ _ _ _ _). set (x := cm_request_x (ak_cam a) && _).
  set (acks := (if x then [a] else []) ++ (if cm_request_s (ak_cam a) then [ack_state_of a selected state] else [])).
  eexists _, acks. split; [reflexivity|]. cbn [cr_responses].
  assert (Hx : x = true -> bit_set (cam c) 19 = true) by (unfold x; by intros [? _]%andb_true_iff).
  split; [|split; [|split]].
  - unfold acks, push_response. pose proof (represents_new (T := AckRecord) 2) as H0.
    destruct x, (cm_request_s _); cbn [app]; try exact H0.
    + pose proof (represents_emplace_back 2 _ _ a H0) as H1. destruct (fvec_emplace_back 2 (fvec_new 2) a) as [[[]|?|] v1] eqn:E1; [|by destruct H1|done].
      destruct H1 as [_ H1]. cbn [snd]. pose proof (represents_emplace_back 2 _ _ (ack_state_of a selected state) H1) as H2.
      destruct (fvec_emplace_back 2 v1 _) as [[[]|?|] v2]; [|by destruct H2|done]. apply H2.
    + pose proof (represents_emplace_back 2 _ _ a H0) as H1. destruct (fvec_emplace_back 2 _ a) as [[[]|?|] v1]; [|by destruct H1|done]. apply H1.
    + pose proof (represents_emplace_back 2 _ _ (ack_state_of a selected state) H0) as H1.
      destruct (fvec_emplace_back 2 _ _) as [[[]|?|] v1]; [|by destruct H1|done]. apply H1.
  - rewrite resources_responses. unfold acks. change (cm_request_s (ak_cam a)) with (bit_set (cam c) 18).
    destruct x; [rewrite Hx by done|]; destruct (bit_set (cam c) 18); cbn; pose proof (b2z_range (bit_set (cam c) 19)); lia.
  - intros b Hb Hk. assert (b = a) as ->.
    { unfold acks in Hb. apply elem_of_app in Hb as [Hb|Hb].
      - destruct x; [by apply list_elem_of_singleton in Hb|by apply elem_of_nil in Hb].
      - destruct (cm_request_s _); [|by apply elem_of_nil in Hb]. apply list_elem_of_singleton in Hb as ->.
        unfold ack_state_of in Hk. by destruct (known_mask _ _). }
    destruct (count_true_eq _ _ Hcan) as [_ Heq]. split.
    + cbn [a ack_execution ak_partial]. by rewrite negb_false_iff, Nat.eqb_eq.
    + cbn [a ack_execution ak_scheduled_or_executed]. rewrite negb_true_iff, Nat.eqb_neq, count_true_zero.
      destruct (decide (true ∈ cancelled)); tauto.
  - intros b Hb Hk. assert (b = ack_state_of a selected state) as ->.
    { unfold acks in Hb. apply elem_of_app in Hb as [Hb|Hb].
      - destruct x; [|by apply elem_of_nil in Hb]. by apply list_elem_of_singleton in Hb as ->.
      - destruct (cm_request_s _); [by apply list_elem_of_singleton in Hb|by apply elem_of_nil in Hb]. }
    by apply ack_state_spec.
Qed.

Definition sample_cancel : PacketView :=
  mkPacketView
    (mkEnvelopeView
       (mkEnvelope PacketType.command 0 (Some 7) None (mkTimestamp 0 0 0 0) false false false false false true
          (Some (mkCommand 0x090c0000 5 Identifier_default Identifier_default))) [] None 0 [])
    [] BodyKind.selectors false false false.
Definition sample_selected : list bool := [false; true; false; false; false; true; false; false].
Definition sample_cancelled : list bool := [false; true; false; false; false; false; false; false].

Lemma cancellation_acknowledged_witness :
  exists r acks,
    cancellation_response sample_cancel sample_state (mkSnapshot ClockState.locked (mkTime 9 0) 0 1 true true Epoch.gps)
      sample_selected sample_cancelled (replicate 8 no_diagnostics) bundle_empty 0 = Ok r /\ represents 2 (cr_responses r) acks.
Proof.
  destruct (cancellation_acknowledged sample_cancel (mkCommand 0x090c0000 5 Identifier_default Identifier_default) sample_state
    (mkSnapshot ClockState.locked (mkTime 9 0) 0 1 true true Epoch.gps) sample_selected sample_cancelled
    (replicate 8 no_diagnostics) bundle_empty 0) as (r & acks & H1 & H2 & _);
    [reflexivity|vm_compute; reflexivity|vm_compute; reflexivity|repeat constructor; intros; (discriminate || reflexivity)|].
  exists r, acks. exact (conj H1 H2).
Defined.
