(* ===== verification/Backend.v ===== *)
(** * Backends and their results: [include/vita/runtime/transaction/backend.hpp]

    A backend executes the fields of a plan.  It is handed an [AsyncResult], a copyable
    capability for one field of one transaction; completing it claims the ticket, writes the
    outcome into the result storage of the engine and publishes the ticket.  [Completions] is
    the storage that engine and backend share.

    The callbacks of a [Backend] are code of the application.  A callback that may use its
    capabilities answers with the sequence of operations it performed on them ([Call]); the
    validating, simulating and quiescence callbacks answer from the context.  Tracing is not
    modelled.  [VirtualBackend] is the backend of the framework itself. *)

From S2P Require Import Prelude Wire Fields Time Clock Scheduling Ticket State Cam.

(** ** Results *)

Record ResultGuard := mkGuard {
  gd_holders : Z; gd_cancelled : bool; gd_contradiction : bool; gd_association_generation : Z; gd_field : FieldId }.
Definition guard_default : ResultGuard := mkGuard 0 false false 0 (mkField 0 0).

Record ResultSlot := mkResultSlot { rs_outcome : FieldOutcome; rs_generation : Z; rs_busy : bool; rs_guard : ResultGuard }.
Definition outcome_default : FieldOutcome :=
  mkOutcome (mkField 0 0) FieldStatus.pending (v_uint32 0) Validity.absent (mkTime 0 0) 0 0 false false false no_diagnostics.
Definition result_slot_default : ResultSlot := mkResultSlot outcome_default 0 false guard_default.

Record Completions := mkCompletions { co_tickets : CompletionState; co_results : list ResultSlot }.

Definition set_tickets (s : Completions) (t : CompletionState) : Completions := mkCompletions t (co_results s).
Definition update_result (g : ResultSlot -> ResultSlot) (i : nat) (s : Completions) : Completions :=
  mkCompletions (co_tickets s) (alter g i (co_results s)).
Definition update_guard (g : ResultGuard -> ResultGuard) (r : ResultSlot) : ResultSlot :=
  mkResultSlot (rs_outcome r) (rs_generation r) (rs_busy r) (g (rs_guard r)).
Definition store_outcome (o : FieldOutcome) (r : ResultSlot) : ResultSlot := mkResultSlot o (rs_generation r) (rs_busy r) (rs_guard r).
Definition set_busy (b : bool) (r : ResultSlot) : ResultSlot := mkResultSlot (rs_outcome r) (rs_generation r) b (rs_guard r).

Definition guard_holders (n : Z) (g : ResultGuard) : ResultGuard :=
  mkGuard (wrap64 (gd_holders g + n)) (gd_cancelled g) (gd_contradiction g) (gd_association_generation g) (gd_field g).
Definition guard_cancelled (b : bool) (g : ResultGuard) : ResultGuard :=
  mkGuard (gd_holders g) b (gd_contradiction g) (gd_association_generation g) (gd_field g).
Definition guard_contradiction (b : bool) (g : ResultGuard) : ResultGuard :=
  mkGuard (gd_holders g) (gd_cancelled g) b (gd_association_generation g) (gd_field g).

(** ** Capabilities *)

(** The publisher of the ticket, and the index that the pointers to the outcome and to its
    guard designate. *)
Record AsyncResult := mkAsync { ar_slot : nat; ar_generation : Z; ar_index : nat }.
#[global] Instance AsyncResult_eq_dec : EqDecision AsyncResult.
Proof. solve_decision. Defined.

(** The constructors and the destructor count the holders. *)
Definition retain (s : Completions) (a : AsyncResult) : Completions := update_result (update_guard (guard_holders 1)) (ar_index a) s.
Definition release (s : Completions) (a : AsyncResult) : Completions := update_result (update_guard (guard_holders (-1))) (ar_index a) s.

Definition is_status (o : FieldOutcome) (st : Z) : bool := bool_decide (fo_status o = st).
(** The outcome says that the device was, or may have been, changed. *)
Definition effectful (o : FieldOutcome) : bool := is_status o FieldStatus.executed || is_status o FieldStatus.unknown_effect.

Definition complete (s : Completions) (a : AsyncResult) (outcome : FieldOutcome) : Result (bool * Completions) :=
  let? (claimed, tickets) := try_claim (co_tickets s) (ar_slot a) (ar_generation a) in
  let s := set_tickets s tickets in
  if negb claimed then
    Ok (false, if effectful outcome then update_result (update_guard (guard_contradiction true)) (ar_index a) s else s)
  else
    let s := if is_status outcome FieldStatus.cancelled then update_result (update_guard (guard_cancelled true)) (ar_index a) s else s in
    let s := update_result (store_outcome outcome) (ar_index a) s in
    let ready := mkCompletion CompletionStatus.succeeded (error1 ErrorCode.invalid_state) (Z.of_nat (ar_index a)) 0 in
    let? tickets := finish_payload (co_tickets s) (ar_slot a) ready in
    let? tickets := finish_tag tickets (ar_slot a) (ar_generation a) in
    Ok (true, set_tickets s tickets).

Definition same_operation (a b : AsyncResult) : bool :=
  (ar_slot a =? ar_slot b)%nat && (ar_generation a =? ar_generation b) && (ar_index a =? ar_index b)%nat.

Definition publisher_reserved (s : CompletionState) (slot : nat) (generation : Z) : bool :=
  match slots s !! slot with Some sl => tagged sl =? tag generation TicketState.reserved | None => false end.
Definition reserved (s : Completions) (a : AsyncResult) : bool := publisher_reserved (co_tickets s) (ar_slot a) (ar_generation a).

Definition synthetic_failure (s : Completions) (a : AsyncResult) : Result (bool * Completions) :=
  let failed := mkCompletion CompletionStatus.failed (error1 ErrorCode.callback_failure) 0 0 in
  let? (b, tickets) := publish (co_tickets s) (ar_slot a) (ar_generation a) failed in
  Ok (b, set_tickets s tickets).

(** What the holder of capabilities does with them. *)
Inductive Call :=
  | call_complete (a : AsyncResult) (o : FieldOutcome)
  | call_synthetic_failure (a : AsyncResult)
  | call_copy (a : AsyncResult)
  | call_drop (a : AsyncResult).

Definition apply_call (s : Completions) (c : Call) : Result Completions :=
  match c with
  | call_complete a o => rmap snd (complete s a o)
  | call_synthetic_failure a => rmap snd (synthetic_failure s a)
  | call_copy a => Ok (retain s a)
  | call_drop a => Ok (release s a)
  end.
Fixpoint apply_calls (s : Completions) (l : list Call) : Result Completions :=
  match l with
  | [] => Ok s
  | c :: l => let? s := apply_call s c in apply_calls s l
  end.

(** ** The interface *)

Module DisarmResult.
Inductive t := cancelled | not_cancelled | unknown_effect.
#[global] Instance t_eq_dec : EqDecision t.
Proof. solve_decision. Defined.
End DisarmResult.

Record BackendQuiescence := mkQuiescence { bq_known : bool; bq_quiescent : bool; bq_pending : Z }.
Definition quiescence_default : BackendQuiescence := mkQuiescence false false 0.

Record BatchOutcome := mkBatch { bo_status : Z; bo_actual_time : ProtocolTime; bo_time_known : bool; bo_uncertainty_ps : Z }.

(** [B] is the context the callbacks are called with. *)
Record Backend (B : Type) := mkBackend {
  be_validate : option (B -> FieldId -> SemanticValue -> StateSnapshot -> Validation);
  be_validate_plan : option (B -> ExecutionPlan -> StateSnapshot -> Result unit);
  be_begin : option (B -> Completions -> PlannedField -> Boundary -> AsyncResult -> Result unit * list Call * B);
  be_simulate : option (B -> PlannedField -> StateSnapshot -> Boundary -> FieldOutcome);
  be_disarm : option (B -> Completions -> AsyncResult -> DisarmResult.t * list Call * B);
  be_quiescence : option (B -> BackendQuiescence);
  be_commit : option (B -> ExecutionPlan -> Boundary -> BatchOutcome * B) }.
Arguments mkBackend {B}.
Arguments be_validate {B}.
Arguments be_validate_plan {B}.
Arguments be_begin {B}.
Arguments be_simulate {B}.
Arguments be_disarm {B}.
Arguments be_quiescence {B}.
Arguments be_commit {B}.

(** ** The virtual backend *)

Record VirtualRule := mkRule {
  ru_supported : bool; ru_resolvable : bool; ru_diagnostics : Diagnostics; ru_adjusted : option SemanticValue;
  ru_dependencies : Z; ru_completion : Z }.
Definition rule_default : VirtualRule := mkRule true true no_diagnostics None 0 FieldStatus.executed.

Record Work := mkWork { wk_field : PlannedField; wk_boundary : Boundary; wk_completion : AsyncResult }.

Record VirtualBackend := mkVirtual {
  vb_rules : list VirtualRule; vb_pending : list (option Work); vb_begins : Z; vb_writes : Z;
  vb_reversible : bool; vb_quiescence_available : bool; vb_inline_completion : bool; vb_model : StateSnapshot }.
Definition virtual_new (capacity : nat) : VirtualBackend :=
  mkVirtual (replicate state_field_capacity rule_default) (replicate capacity None) 0 0 true true false state_default.

Definition set_pending (b : VirtualBackend) (l : list (option Work)) (begins writes : Z) : VirtualBackend :=
  mkVirtual (vb_rules b) l begins writes (vb_reversible b) (vb_quiescence_available b) (vb_inline_completion b) (vb_model b).
Definition set_model (b : VirtualBackend) (s : StateSnapshot) (begins writes : Z) : VirtualBackend :=
  mkVirtual (vb_rules b) (vb_pending b) begins writes (vb_reversible b) (vb_quiescence_available b) (vb_inline_completion b) s.

(** The rule of a field of the state. *)
Definition rule_of (b : VirtualBackend) (id : FieldId) : VirtualRule := default rule_default (vb_rules b !! field_index id).

Definition virtual_validate (b : VirtualBackend) (id : FieldId) (value : SemanticValue) (_ : StateSnapshot) : Validation :=
  if (field_index id =? state_field_capacity)%nat then mkValidation value (mkDiagnostics 0 diag_unsupported) false 0 else
  let rule := rule_of b id in
  let d := ru_diagnostics rule in
  let d := if ru_supported rule then d else mkDiagnostics (warnings d) (Z.lor (errors d) diag_unsupported) in
  mkValidation (default value (ru_adjusted rule)) d (ru_supported rule && ru_resolvable rule) (ru_dependencies rule).

Definition virtual_outcome (b : VirtualBackend) (field : PlannedField) (boundary : Boundary) (simulated : bool) : FieldOutcome :=
  let status := ru_completion (rule_of b (pl_id field)) in
  let unknown := bool_decide (status = FieldStatus.unknown_effect) in
  mkOutcome (pl_id field) status (pl_adjusted field) (if unknown then Validity.unknown else Validity.known)
    (b_time boundary) (b_sample_ordinal boundary) 0 (pl_time_known field) (pl_ordinal_known field) simulated
    (if bool_decide (status = FieldStatus.failed) then mkDiagnostics 0 (Z.lor diag_device_failure diag_not_executed)
     else if unknown then mkDiagnostics 0 (Z.lor (Z.lor diag_device_failure diag_state_indeterminate) diag_not_executed)
     else no_diagnostics).

Definition record_field (o : FieldOutcome) (f : FieldState) : FieldState :=
  mkFieldState (fo_id o) (if is_status o FieldStatus.executed then fo_value o else fs_value f)
    (if is_status o FieldStatus.executed then Validity.known else Validity.unknown).
Definition record_model (b : VirtualBackend) (o : FieldOutcome) : VirtualBackend :=
  if effectful o then
    let m := vb_model b in
    set_model b (mkState (wrap64 (st_version m + 1)) (alter (record_field o) (field_index (fo_id o)) (st_fields m)) (st_profile m))
      (vb_begins b) (wrap64 (vb_writes b + 1))
  else b.

Definition virtual_begin (b : VirtualBackend) (co : Completions) (field : PlannedField) (boundary : Boundary) (result : AsyncResult)
    : Result unit * list Call * VirtualBackend :=
  if vb_inline_completion b then
    let o := virtual_outcome b field boundary false in
    if effectful o && (st_version (vb_model b) =? U64_MAX) then (Err (error1 ErrorCode.overflow), [], b) else
    let b := set_model b (vb_model b) (wrap64 (vb_begins b + 1)) (vb_writes b) in
    let b := record_model b o in
    match complete co result o with
    | Ok (true, _) => (Ok tt, [call_complete result o], b)
    | Ok (false, _) => (Err (error1 ErrorCode.invalid_state), [call_complete result o], b)
    | Err e => (Err e, [call_complete result o], b)
    | UB => (UB, [call_complete result o], b)
    end
  else
    match first_free (vb_pending b) with
    | Some i => (Ok tt, [call_copy result],
                 set_pending b (<[i := Some (mkWork field boundary result)]> (vb_pending b)) (wrap64 (vb_begins b + 1)) (vb_writes b))
    | None => (Err (error1 ErrorCode.capacity_exhausted), [], b)
    end.

Definition virtual_simulate (b : VirtualBackend) (field : PlannedField) (_ : StateSnapshot) (boundary : Boundary) : FieldOutcome :=
  virtual_outcome b field boundary true.

Definition is_work (result : AsyncResult) (w : option Work) : bool :=
  match w with Some w => same_operation (wk_completion w) result | None => false end.

Definition virtual_disarm (b : VirtualBackend) (co : Completions) (result : AsyncResult) : DisarmResult.t * list Call * VirtualBackend :=
  if negb (vb_reversible b) then (DisarmResult.not_cancelled, [], b) else
  match first_index (is_work result) (vb_pending b) with
  | None => (DisarmResult.not_cancelled, [], b)
  | Some i =>
      if negb (reserved co result) then (DisarmResult.not_cancelled, [], b)
      else (DisarmResult.cancelled, [call_drop result], set_pending b (<[i := None]> (vb_pending b)) (vb_begins b) (vb_writes b))
  end.

Definition virtual_pending (b : VirtualBackend) : nat := count_if is_some (vb_pending b).
Definition virtual_quiescence (b : VirtualBackend) : BackendQuiescence :=
  let work := virtual_pending b in
  mkQuiescence (vb_quiescence_available b) (vb_quiescence_available b && (work =? 0)%nat) (Z.of_nat work).

Definition commit_field (m : list FieldState) (f : PlannedField) : list FieldState :=
  <[field_index (pl_id f) := mkFieldState (pl_id f) (pl_adjusted f) Validity.known]> m.
Definition virtual_commit (b : VirtualBackend) (plan : ExecutionPlan) (boundary : Boundary) : BatchOutcome * VirtualBackend :=
  match List.find (fun f => negb (bool_decide (ru_completion (rule_of b (pl_id f)) = FieldStatus.executed))) (ep_fields plan) with
  | Some f => (mkBatch (ru_completion (rule_of b (pl_id f))) (b_time boundary) true 0, b)
  | None =>
      let m := vb_model b in
      (mkBatch FieldStatus.executed (b_time boundary) true 0,
       set_model b (mkState (wrap64 (st_version m + 1)) (foldl commit_field (st_fields m) (ep_fields plan)) (st_profile m))
         (wrap64 (vb_begins b + 1)) (wrap64 (vb_writes b + Z.of_nat (length (ep_fields plan)))))
  end.

Definition virtual_binding : Backend VirtualBackend :=
  mkBackend (Some virtual_validate) None (Some virtual_begin) (Some virtual_simulate) (Some virtual_disarm) (Some virtual_quiescence) (Some virtual_commit).

Definition set_inline_completion (b : VirtualBackend) (enabled : bool) : Result unit * VirtualBackend :=
  if (0 <? virtual_pending b)%nat then (Err (error1 ErrorCode.invalid_state), b) else
  (Ok tt, mkVirtual (vb_rules b) (vb_pending b) (vb_begins b) (vb_writes b) (vb_reversible b) (vb_quiescence_available b) enabled (vb_model b)).
Definition set_reversible (b : VirtualBackend) (value : bool) : VirtualBackend :=
  mkVirtual (vb_rules b) (vb_pending b) (vb_begins b) (vb_writes b) value (vb_quiescence_available b) (vb_inline_completion b) (vb_model b).
Definition set_quiescence_available (b : VirtualBackend) (value : bool) : VirtualBackend :=
  mkVirtual (vb_rules b) (vb_pending b) (vb_begins b) (vb_writes b) (vb_reversible b) value (vb_inline_completion b) (vb_model b).

Definition set_rule (b : VirtualBackend) (id : FieldId) (rule : VirtualRule) : Result unit * VirtualBackend :=
  if (field_index id =? state_field_capacity)%nat || nonzero (Z.land (warnings (ru_diagnostics rule)) (errors (ru_diagnostics rule))) ||
     nonzero (Z.land (ru_dependencies rule) 0xe0) then (Err (error1 ErrorCode.invalid_argument), b) else
  if negb (bool_decide (ru_completion rule ∈ [FieldStatus.executed; FieldStatus.failed; FieldStatus.unknown_effect]))
  then (Err (error1 ErrorCode.invalid_argument), b) else
  (Ok tt, mkVirtual (<[field_index id := rule]> (vb_rules b)) (vb_pending b) (vb_begins b) (vb_writes b) (vb_reversible b)
            (vb_quiescence_available b) (vb_inline_completion b) (vb_model b)).

(** The first pending work is completed and its capability dropped. *)
Definition complete_next (b : VirtualBackend) (co : Completions) (override : option FieldOutcome) : Result bool * list Call * VirtualBackend :=
  match first_index is_some (vb_pending b) with
  | None => (Ok false, [], b)
  | Some i =>
      match vb_pending b !! i with
      | Some (Some w) =>
          let value := default (virtual_outcome b (wk_field w) (wk_boundary w) false) override in
          let writes := if effectful value then wrap64 (vb_writes b + 1) else vb_writes b in
          (rmap fst (complete co (wk_completion w) value), [call_complete (wk_completion w) value; call_drop (wk_completion w)],
           set_pending b (<[i := None]> (vb_pending b)) (vb_begins b) writes)
      | _ => (UB, [], b)
      end
  end.

Definition discarded (w : Work) : FieldOutcome :=
  mkOutcome (pl_id (wk_field w)) FieldStatus.cancelled (v_uint32 0) Validity.absent (mkTime 0 0) 0 0 false false false (mkDiagnostics 0 diag_not_executed).
Definition reinitialize (b : VirtualBackend) : Result unit * list Call * VirtualBackend :=
  if negb (vb_quiescence_available b) then (Err (error1 ErrorCode.unsupported_capability), [], b) else
  (Ok tt, mjoin ((fun w => [call_complete (wk_completion w) (discarded w); call_drop (wk_completion w)]) <$> omap id (vb_pending b)),
   set_pending b ((fun _ => None) <$> vb_pending b) (vb_begins b) (vb_writes b)).

Definition pending_capability (b : VirtualBackend) : option AsyncResult :=
  match first_index is_some (vb_pending b) with
  | Some i => match vb_pending b !! i with Some (Some w) => Some (wk_completion w) | _ => None end
  | None => None
  end.

(** ** Runs without undefined behaviour *)

(** The run returns normally, with a result that satisfies [Q]. *)
Definition ensures {A} (m : Result A) (Q : A -> Prop) : Prop := exists a, m = Ok a /\ Q a.

Lemma ensures_Ok {A} (a : A) (Q : A -> Prop) : Q a -> ensures (Ok a) Q.
Proof. by exists a. Qed.
Lemma ensures_bind {A C} (m : Result A) (k : A -> Result C) (P : A -> Prop) Q :
  ensures m P -> (forall a, P a -> ensures (k a) Q) -> ensures (rbind m k) Q.
Proof. intros (a & -> & Ha) H. by apply H. Qed.
Lemma ensures_mono {A} (m : Result A) (P Q : A -> Prop) : ensures m P -> (forall a, P a -> Q a) -> ensures m Q.
Proof. intros (a & -> & Ha) H. exists a. auto. Qed.
Lemma ensures_deref {A} (o : option A) (Q : A -> Prop) a : o = Some a -> Q a -> ensures (deref o) Q.
Proof. intros ->. by exists a. Qed.
Lemma ensures_rmap {A C} (f : A -> C) (m : Result A) Q : ensures m (fun a => Q (f a)) -> ensures (rmap f m) Q.
Proof. intros (a & -> & H). by exists (f a). Qed.

(** ** The shared storage keeps its size *)

Definition ticket_count (s : Completions) : nat := length (slots (co_tickets s)).

(** Tickets and results change, their number does not. *)
Definition same_size (s s' : Completions) : Prop := ticket_count s' = ticket_count s /\ length (co_results s') = length (co_results s).
#[global] Instance same_size_preorder : PreOrder same_size.
Proof. split; [done|]. intros a b c [H1 H2] [H3 H4]. split; congruence. Qed.

Lemma update_result_size g i s : same_size s (update_result g i s).
Proof. split; [done|]. apply length_alter. Qed.
Lemma set_tickets_size s t : length (slots t) = ticket_count s -> same_size s (set_tickets s t).
Proof. by split. Qed.

Lemma set_slot_length s i sl : length (slots (set_slot s i sl)) = length (slots s).
Proof. apply length_insert. Qed.

Lemma try_claim_ensures s i g : (i < length (slots s))%nat -> ensures (try_claim s i g) (fun r => length (slots r.2) = length (slots s)).
Proof.
  intros [sl Hsl]%lookup_lt_is_Some_2. unfold try_claim. rewrite Hsl. cbn. case_match; eexists; (split; [done|]); cbn; [by rewrite length_insert|done].
Qed.
Lemma finish_payload_ensures s i r : (i < length (slots s))%nat -> ensures (finish_payload s i r) (fun s' => length (slots s') = length (slots s)).
Proof. intros [sl Hsl]%lookup_lt_is_Some_2. unfold finish_payload. rewrite Hsl. cbn. eexists. split; [done|]. by cbn; rewrite length_insert. Qed.
Lemma finish_tag_ensures s i g : (i < length (slots s))%nat -> ensures (finish_tag s i g) (fun s' => length (slots s') = length (slots s)).
Proof. intros [sl Hsl]%lookup_lt_is_Some_2. unfold finish_tag. rewrite Hsl. cbn. eexists. split; [done|]. by cbn; rewrite length_insert. Qed.
Lemma publish_ensures s i g r : (i < length (slots s))%nat -> ensures (publish s i g r) (fun p => length (slots p.2) = length (slots s)).
Proof.
  intros Hi. unfold publish. eapply ensures_bind; [by apply try_claim_ensures|]. intros [b s1] H1. cbn in H1. destruct b; cbn [negb]; [|by apply ensures_Ok].
  eapply ensures_bind; [apply finish_payload_ensures; lia|]. intros s2 H2; cbv beta in H2. eapply ensures_bind; [apply finish_tag_ensures; lia|].
  intros s3 H3; cbv beta in H3. apply ensures_Ok. cbn. lia.
Qed.

Lemma complete_ensures s a o : (ar_slot a < ticket_count s)%nat -> ensures (complete s a o) (fun p => same_size s p.2).
Proof.
  intros Ha. unfold complete. eapply ensures_bind; [by apply try_claim_ensures|]. intros [b t1] H1. cbn in H1.
  assert (Hs1 : same_size s (set_tickets s t1)) by (by apply set_tickets_size). destruct b; cbn [negb].
  - set (s1 := if is_status o FieldStatus.cancelled then _ else _).
    assert (Hs2 : same_size s s1) by (unfold s1; case_match; [etransitivity; [done|apply update_result_size]|done]).
    set (s2 := update_result (store_outcome o) _ s1). assert (Hs3 : same_size s s2) by (etransitivity; [exact Hs2|apply update_result_size]).
    pose proof (proj1 Hs3) as Hl. unfold ticket_count in *.
    eapply ensures_bind; [apply finish_payload_ensures; lia|]. intros t2 H2; cbv beta in H2. eapply ensures_bind; [apply finish_tag_ensures; lia|]. intros t3 H3; cbv beta in H3.
    apply ensures_Ok. cbn [snd]. transitivity s2; [exact Hs3|]. apply set_tickets_size. unfold ticket_count. lia.
  - apply ensures_Ok. cbn [snd]. case_match; [|exact Hs1]. etransitivity; [exact Hs1|apply update_result_size].
Qed.

Lemma synthetic_failure_ensures s a : (ar_slot a < ticket_count s)%nat -> ensures (synthetic_failure s a) (fun p => same_size s p.2).
Proof.
  intros Ha. unfold synthetic_failure. eapply ensures_bind; [by apply publish_ensures|]. intros [b t] H. cbn in H. by apply ensures_Ok, set_tickets_size.
Qed.

(** A capability of a store with [n] tickets. *)
Definition call_target (c : Call) : AsyncResult :=
  match c with call_complete a _ | call_synthetic_failure a | call_copy a | call_drop a => a end.
Definition call_ok (n : nat) (c : Call) : Prop := (ar_slot (call_target c) < n)%nat.

Lemma apply_call_ensures s c : call_ok (ticket_count s) c -> ensures (apply_call s c) (same_size s).
Proof.
  destruct c as [a o|a|a|a]; intros H; cbn in *; [apply ensures_rmap, complete_ensures|apply ensures_rmap, synthetic_failure_ensures|apply ensures_Ok, update_result_size..]; done.
Qed.
Lemma apply_calls_ensures l : forall s, Forall (call_ok (ticket_count s)) l -> ensures (apply_calls s l) (same_size s).
Proof.
  induction l as [|c l IH]; intros s Hl; cbn; [by apply ensures_Ok|]. apply list.Forall_cons in Hl as [Hc Hl].
  eapply ensures_bind; [by apply apply_call_ensures|]. intros s1 H1; cbv beta in H1. eapply ensures_mono; [apply IH; by rewrite (proj1 H1)|]. intros s2 H2; cbv beta in H2. by transitivity s1.
Qed.

(** ** What the engine relies on *)

(** The callbacks use only the capabilities they were given, which name tickets of the
    storage; [context_ok n] says so of those kept in the context. *)
Class BackendLaws {B} (backend : Backend B) := {
  context_ok : nat -> B -> Prop;
  begin_lawful : forall n b co f bd a begin, be_begin backend = Some begin -> context_ok n b -> ticket_count co = n -> (ar_slot a < n)%nat ->
    let '(r, calls, b') := begin b co f bd a in safe r /\ Forall (call_ok n) calls /\ context_ok n b';
  disarm_lawful : forall n b co a disarm, be_disarm backend = Some disarm -> context_ok n b -> ticket_count co = n -> (ar_slot a < n)%nat ->
    let '(_, calls, b') := disarm b co a in Forall (call_ok n) calls /\ context_ok n b';
  commit_lawful : forall n b p bd commit, be_commit backend = Some commit -> context_ok n b -> context_ok n (commit b p bd).2
}.

(** The work of the virtual backend. *)
Definition work_ok (n : nat) (w : option Work) : Prop := match w with Some w => (ar_slot (wk_completion w) < n)%nat | None => True end.

Lemma record_model_pending b o : vb_pending (record_model b o) = vb_pending b.
Proof. unfold record_model. by case_match. Qed.

#[global] Program Instance virtual_laws : BackendLaws virtual_binding :=
  {| context_ok n b := Forall (work_ok n) (vb_pending b) |}.
Next Obligation.
  intros n b co f bd a begin [= <-] Hb Hn Ha. unfold virtual_begin. destruct (vb_inline_completion b).
  - destruct (_ && _); [done|]. destruct (complete_ensures co a (virtual_outcome b f bd false)) as ([ok co'] & -> & _); [lia|].
    assert (Hc : Forall (call_ok n) [call_complete a (virtual_outcome b f bd false)]) by (by apply Forall_singleton).
    destruct ok; (split_and!; [done|done|by rewrite record_model_pending]).
  - destruct (first_free (vb_pending b)); [|done]. split_and!; [done|by apply Forall_singleton|]. cbn. by apply Forall_insert.
Qed.
Next Obligation.
  intros n b co a disarm [= <-] Hb Hn Ha. unfold virtual_disarm. destruct (vb_reversible b); cbn [negb]; [|done].
  destruct (first_index _ _); [|done]. destruct (reserved co a); cbn [negb]; [|done]. split; [by apply Forall_singleton|]. cbn. by apply Forall_insert.
Qed.
Next Obligation. intros n b p bd commit [= <-] Hb. unfold virtual_commit. by case_match. Qed.
