(* ===== verification/Plan.v ===== *)
(** * Planning of a command: [include/vita/runtime/transaction/engine.hpp]

    From a decoded command packet to the execution plan of the controllee: [request_from]
    collects the fields, [validate_plan] validates each field and the combination, resolves
    the dependencies between the fields, orders them and decides which may be executed, and
    [validate_boundary_state] checks a plan against the sample timeline.

    The parallel arrays of [Request] with their [count] are one list of entries; the same
    holds for [ExecutionPlan::fields].  The callbacks of the backend and the capability
    table are arguments. *)

From S2P Require Import Prelude Wire Fields Time Clock Timeline Scheduling Structured Packet State Cam Sdr.

(** ** Requests *)

Record RequestField := mkRequestField {
  rf_id : FieldId; rf_value : SemanticValue; rf_unsupported : bool; rf_attributes : Z }.
Record Request := mkRequest {
  rq_envelope : Envelope; rq_cam : Cam; rq_fields : list RequestField; rq_capability_query : bool }.
Definition rq_count (r : Request) : nat := length (rq_fields r).

Abbreviation is_profile p q := (bool_decide (p = q)).
Abbreviation sdr := TxProfile.sdr_radio.
Abbreviation tunable := TxProfile.iq_frequency_tunable.

Definition sdr_envelope_refused (packet : PacketView) : bool :=
  let e := ev_envelope (pv_envelope packet) in
  is_some (class_id e) || absent_or (fun sid => (sid <? 1) || (4 <? sid)) (stream_id e) ||
  negb (tsi (timestamp e) =? Tsi.utc) || negb (tsf (timestamp e) =? Tsf.picoseconds) ||
  match command e with Some c => message_id c =? 0 | None => true end || (1024 <? zlen (ev_wire (pv_envelope packet))).

(** The entry of a field: found, or appended with a placeholder value. *)
Definition find_entry (fields : list RequestField) (id : FieldId) : option nat :=
  first_index (fun f => fid_eqb (rf_id f) id) fields.

Definition entry_of (limit : nat) (fields : list RequestField) (id : FieldId) : Result (nat * list RequestField) :=
  match find_entry fields id with
  | Some i => Ok (i, fields)
  | None =>
      fail_if (length fields =? limit)%nat with error1 ErrorCode.resource_limit ;;
      let? value := placeholder id in
      Ok (length fields, fields ++ [mkRequestField id value false 0])
  end.

Definition entry_attribute (a : Z) (f : RequestField) : RequestField :=
  mkRequestField (rf_id f) (rf_value f) (rf_unsupported f) (Z.lor (rf_attributes f) (attribute_bit a)).
Definition entry_unsupported (b : bool) (f : RequestField) : RequestField :=
  mkRequestField (rf_id f) (rf_value f) (rf_unsupported f || b) (rf_attributes f).
Definition entry_value (v : SemanticValue) (f : RequestField) : RequestField :=
  mkRequestField (rf_id f) v (rf_unsupported f) (rf_attributes f).

Definition capability_attribute (a : Z) : bool := (a =? Attribute.minimum) || (a =? Attribute.maximum).

(** One view of the packet. *)
Definition request_view (profile : TxProfile.t) (action : Z) (fields : list RequestField) (query : bool) (view : FieldView)
    : Result (list RequestField * bool) :=
  let id := fv_id view in
  fail_if (field_index id =? state_field_capacity)%nat with error1 ErrorCode.unsupported_capability ;;
  let limit := if is_profile profile sdr && (action =? 0) then 5%nat else 4%nat in
  let? (index, fields) := entry_of limit fields id in
  let fields := alter (entry_attribute (fv_attribute view)) index fields in
  let fields := alter (entry_unsupported (is_profile profile sdr && negb (sdr_capability_field id) && negb (fid_eqb id Field.DiscreteIO32)))
                  index fields in
  if is_profile profile sdr && (action =? 0) && bool_decide (fv_kind view = BodyKind.selectors) && capability_attribute (fv_attribute view)
  then Ok (alter (entry_unsupported (negb (sdr_capability_field id))) index fields, true)
  else if negb (fv_attribute view =? Attribute.current) ||
          (fid_eqb id Field.RFReferenceFrequency && negb (is_profile profile tunable) && negb (is_profile profile sdr))
  then Ok (alter (entry_unsupported true) index fields, query)
  else if bool_decide (fv_kind view = BodyKind.values)
  then let? value := view_value view in Ok (alter (entry_value value) index fields, query)
  else Ok (fields, query).

Fixpoint request_views (profile : TxProfile.t) (action : Z) (fields : list RequestField) (query : bool) (views : list FieldView)
    : Result (list RequestField * bool) :=
  match views with
  | [] => Ok (fields, query)
  | view :: views =>
      let? (fields, query) := request_view profile action fields query view in
      request_views profile action fields query views
  end.

Definition query_attributes : Z := Z.lor (attribute_bit Attribute.minimum) (attribute_bit Attribute.maximum).

Definition request_from (packet : PacketView) (profile : TxProfile.t) : Result Request :=
  let e := ev_envelope (pv_envelope packet) in
  let? c := cam_parse e profile in
  fail_if is_profile profile sdr && sdr_envelope_refused packet with error1 ErrorCode.unsupported_capability ;;
  let? (fields, query) := request_views profile (cm_action c) [] false (pv_fields packet) in
  fail_if is_profile profile sdr && (length fields =? 0)%nat with error1 ErrorCode.invalid_argument ;;
  let fields := if query then (fun f => entry_unsupported (negb (rf_attributes f =? query_attributes)) f) <$> fields else fields in
  Ok (mkRequest e c fields query).

Definition mark_not_executed (d : Diagnostics) : Diagnostics :=
  if nonzero (warnings d) && negb (nonzero (errors d))
  then mkDiagnostics (Z.lor (warnings d) diag_not_executed) (errors d)
  else mkDiagnostics (warnings d) (Z.lor (errors d) diag_not_executed).

(** ** Field updates *)

Definition add_errors (e : Z) (d : Diagnostics) : Diagnostics := mkDiagnostics (warnings d) (Z.lor (errors d) e).

(** [v.resolvable=false; v.diagnostics.errors|=e] *)
Definition block (e : Z) (v : Validation) : Validation :=
  mkValidation (vl_adjusted v) (add_errors e (vl_diagnostics v)) false (vl_dependencies v).
Definition block_if (c : bool) (e : Z) (v : Validation) : Validation := if c then block e v else v.

(** [field.eligible=false; field.diagnostics.errors|=e] *)
Definition deny (e : Z) (f : PlannedField) : PlannedField :=
  mkPlanned (pl_id f) (pl_requested f) (pl_adjusted f) (pl_dependency_mask f) false (add_errors e (pl_diagnostics f))
    (pl_time_known f) (pl_ordinal_known f).
Definition set_diagnostics (d : Diagnostics) (f : PlannedField) : PlannedField :=
  mkPlanned (pl_id f) (pl_requested f) (pl_adjusted f) (pl_dependency_mask f) (pl_eligible f) d (pl_time_known f) (pl_ordinal_known f).
Definition set_ineligible (f : PlannedField) : PlannedField :=
  mkPlanned (pl_id f) (pl_requested f) (pl_adjusted f) (pl_dependency_mask f) false (pl_diagnostics f) (pl_time_known f) (pl_ordinal_known f).
Definition add_dependency (j : nat) (f : PlannedField) : PlannedField :=
  mkPlanned (pl_id f) (pl_requested f) (pl_adjusted f) (wrap8 (Z.lor (pl_dependency_mask f) (Z.shiftl 1 (Z.of_nat j)))) (pl_eligible f)
    (pl_diagnostics f) (pl_time_known f) (pl_ordinal_known f).
Definition set_plan_fields (p : ExecutionPlan) (l : list PlannedField) : ExecutionPlan :=
  mkExecution l (ep_order p) (ep_expected_state_version p) (ep_operation p) (ep_association_generation p) (ep_boundary p).
Definition map_fields (g : PlannedField -> PlannedField) (p : ExecutionPlan) : ExecutionPlan := set_plan_fields p (g <$> ep_fields p).
Definition set_plan_boundary (p : ExecutionPlan) (b : Boundary) : ExecutionPlan :=
  mkExecution (ep_fields p) (ep_order p) (ep_expected_state_version p) (ep_operation p) (ep_association_generation p) b.
Definition ep_count (p : ExecutionPlan) : nat := length (ep_fields p).

(** [fields[i].eligible], false outside the list. *)
Definition eligible_at (l : list PlannedField) (i : nat) : bool := match l !! i with Some f => pl_eligible f | None => false end.

(** ** The combination of fields *)

Definition requests (r : Request) (id : FieldId) : bool := existsb (fun f => fid_eqb (rf_id f) id) (rq_fields r).
(** The frequency of the last entry of a field, a null pointer when there is none or it
    holds another alternative. *)
Definition requested_hertz (r : Request) (id : FieldId) : option Z :=
  foldl (fun q f => if fid_eqb (rf_id f) id then if_hertz (rf_value f) else q) None (rq_fields r).

Definition sdr_configuration (r : Request) : bool :=
  (rq_count r =? 4)%nat && requests r Field.SampleRate && requests r Field.RFReferenceFrequency && requests r Field.Bandwidth && requests r Field.Gain.
Definition sdr_lifecycle (r : Request) : bool := (rq_count r =? 1)%nat && requests r Field.DiscreteIO32.

Definition state_known (s : StateSnapshot) (i : nat) : bool := match st_fields s !! i with Some f => is_known f | None => false end.
Definition configured (s : StateSnapshot) : bool := state_known s 1 && state_known s 4 && state_known s 5 && state_known s 6.

Section planning.
Context (profile : TxProfile.t) (capabilities : option SdrCapabilities).
Context (validate : option (FieldId -> SemanticValue -> StateSnapshot -> Validation)).
Context (backend_plan : option (ExecutionPlan -> StateSnapshot -> Result unit)).
Context (has_commit : bool).

Definition mixed (r : Request) : bool :=
  is_profile profile tunable && negb (cm_action (rq_cam r) =? 0) && requests r Field.SampleRate && requests r Field.RFReferenceFrequency.
Definition incomplete_sdr (r : Request) (data_running armed : bool) : bool :=
  is_profile profile sdr && negb (cm_action (rq_cam r) =? 0) &&
  (negb (sdr_configuration r || sdr_lifecycle r) || (sdr_configuration r && (data_running || armed))).
Definition incompatible_sdr (r : Request) : bool :=
  match requested_hertz r Field.SampleRate, requested_hertz r Field.Bandwidth with
  | Some rate, Some bw => rate <? bw
  | _, _ => false
  end.

(** ** Validation of one field *)

Definition profile_validate (id : FieldId) (value : SemanticValue) : Validation :=
  match profile with
  | TxProfile.iq_generator_v1 => iq_validate id value
  | TxProfile.iq_frequency_tunable => tunable_validate id value
  | TxProfile.sdr_radio => sdr_validate id value
  | TxProfile.generic_virtual_test => mkValidation value no_diagnostics true 0
  end.

Definition hertz_supported (s : SupportedValues) (r : CapabilityRange Z) (value : SemanticValue) : bool :=
  match if_hertz value with
  | Some q => accepts s q && (cap_minimum r <=? q) && (q <=? cap_maximum r)
  | None => false
  end.
Definition capability_supports (c : SdrCapabilities) (id : FieldId) (value : SemanticValue) : bool :=
  if fid_eqb id Field.RFReferenceFrequency then hertz_supported (center_values c) (center_frequency c) value
  else if fid_eqb id Field.SampleRate then hertz_supported (sample_rate_values c) (sample_rate c) value
  else if fid_eqb id Field.Bandwidth then hertz_supported (bandwidth_values c) (bandwidth c) value
  else if fid_eqb id Field.Gain then
    match if_gain value with
    | Some (s1, s2) => accepts (gain_values c) s1 && ((cap_minimum (gain c)).1 <=? s1) && (s1 <=? (cap_maximum (gain c)).1) &&
                       ((cap_minimum (gain c)).2 <=? s2) && (s2 <=? (cap_maximum (gain c)).2)
    | None => false
    end
  else true.

Definition with_capabilities (id : FieldId) (value : SemanticValue) (v : Validation) : Validation :=
  match capabilities with
  | Some c => block_if (vl_resolvable v && is_profile profile sdr && negb (capability_supports c id value)) diag_range_error v
  | None => v
  end.

Definition with_backend (id : FieldId) (state : StateSnapshot) (v : Validation) : Validation :=
  match validate with
  | Some f =>
      if negb (vl_resolvable v) then v else
      let extra := f id (vl_adjusted v) state in
      let extra := block_if (is_profile profile sdr && negb (bool_decide (vl_adjusted extra = vl_adjusted v))) diag_precision extra in
      mkValidation (vl_adjusted extra)
        (mkDiagnostics (Z.lor (warnings (vl_diagnostics v)) (warnings (vl_diagnostics extra)))
                       (Z.lor (errors (vl_diagnostics v)) (errors (vl_diagnostics extra))))
        (vl_resolvable v && vl_resolvable extra) (vl_dependencies extra)
  | None => v
  end.

(** The adjusted value is checked again, natively and against the profile. *)
Definition native_ok (id : FieldId) (v : SemanticValue) : bool :=
  is_ok (validate_value id v true) &&
  negb (is_profile profile tunable && negb (vl_resolvable (tunable_validate id v))) &&
  negb (is_profile profile sdr && negb (vl_resolvable (sdr_validate id v))).
Definition with_native (id : FieldId) (v : Validation) : Validation :=
  block_if (vl_resolvable v && negb (native_ok id (vl_adjusted v))) diag_invalid_value v.

(** Starting and stopping the SDR: a start is scheduled, only from the configured and idle
    state; a stop is immediate. *)
Definition discrete_refused (r : Request) (value : SemanticValue) (data_running armed : bool) (state : StateSnapshot) : bool :=
  match if_uint32 value with
  | None => true
  | Some d =>
      let start := d =? 3 in
      (start && (data_running || armed || negb (configured state))) ||
      (start && negb (cm_timing (rq_cam r) =? 1)) || (negb start && negb (cm_timing (rq_cam r) =? 0))
  end.

Definition pair_unsupported (r : Request) : bool :=
  match requested_hertz r Field.SampleRate, requested_hertz r Field.Bandwidth, capabilities with
  | Some rate, Some bw, Some c => negb (supports c bw rate)
  | _, _, _ => false
  end.

Definition validate_field (r : Request) (data_running armed : bool) (state : StateSnapshot) (f : RequestField) : Validation :=
  let id := rf_id f in
  let v := mkValidation (rf_value f) no_diagnostics true 0 in
  let acts := negb (cm_action (rq_cam r) =? 0) in
  let v :=
    if rf_unsupported f || (is_profile profile sdr && negb (sdr_capability_field id) && negb (fid_eqb id Field.DiscreteIO32))
    then mkValidation (rf_value f) (mkDiagnostics 0 diag_unsupported) false 0
    else if acts then with_native id (with_backend id state (with_capabilities id (rf_value f) (profile_validate id (rf_value f))))
    else v in
  let v := block_if (mixed r) diag_unsupported v in
  let v := block_if (is_profile profile sdr && acts && cm_partial (rq_cam r)) diag_unsupported v in
  let v := block_if (is_profile profile sdr && sdr_configuration r && (cm_action (rq_cam r) =? 2) && negb has_commit) diag_unsupported v in
  let v := block_if (incomplete_sdr r data_running armed) diag_unsupported v in
  let v := block_if (is_profile profile sdr && acts && fid_eqb id Field.DiscreteIO32 && discrete_refused r (rf_value f) data_running armed state)
             diag_timing_error v in
  let v := block_if (incompatible_sdr r && fid_eqb id Field.Bandwidth) diag_range_error v in
  block_if (is_profile profile sdr && sdr_configuration r && pair_unsupported r && fid_eqb id Field.Bandwidth) diag_range_error v.

(** ** Dependencies *)

(** The entries of the request that set a field. *)
Definition setters (r : Request) (id : FieldId) : list nat :=
  filter (fun j => match rq_fields r !! j with Some f => fid_eqb (rf_id f) id | None => false end = true) (seq 0 (rq_count r)).

(** One dependency: the mask of the entries of the request that set it, or the state. *)
Definition depend_on (r : Request) (state : StateSnapshot) (dependencies : Z) (f : PlannedField) (target : nat) : PlannedField :=
  if negb (bit_set dependencies (Z.of_nat target)) then f else
  match state_fields !! target with
  | None => f
  | Some id =>
      match setters r id with
      | [] => if state_known state target then f else deny diag_dependency_blocked f
      | l => foldl (fun f j => add_dependency j f) f l
      end
  end.

Definition plan_field (r : Request) (time_known data_running armed : bool) (state : StateSnapshot) (f : RequestField) : PlannedField :=
  let v := validate_field r data_running armed state f in
  let p := mkPlanned (rf_id f) (rf_value f) (vl_adjusted v) 0 (eligible (rq_cam r) (vl_diagnostics v) (vl_resolvable v))
             (vl_diagnostics v) time_known data_running in
  foldl (depend_on r state (vl_dependencies v)) p (seq 0 state_field_capacity).

(** ** The order of execution *)

(** A field is ready when it is not visited and all its dependencies are. *)
Definition ready (visited : Z) (i : nat) (f : PlannedField) : bool :=
  negb (bit_set visited (Z.of_nat i)) && (Z.land (pl_dependency_mask f) (Z.lnot visited) =? 0).

(** The first ready field from position [i] on. *)
Fixpoint first_ready (visited : Z) (i : nat) (l : list PlannedField) : option nat :=
  match l with
  | [] => None
  | f :: l => if ready visited i f then Some i else first_ready visited (S i) l
  end.

(** The positions are filled one after the other; what is written before a cycle is found
    stays in the array. *)
Fixpoint order_loop (remaining position : nat) (l : list PlannedField) (visited : Z) (order : list nat) : bool * list nat :=
  match remaining with
  | O => (true, order)
  | S remaining =>
      match first_ready visited 0 l with
      | None => (false, order)
      | Some i => order_loop remaining (S position) l (wrap8 (Z.lor visited (Z.shiftl 1 (Z.of_nat i)))) (<[position := i]> order)
      end
  end.

(** Some dependency of [f] is not eligible. *)
Definition blocked (l : list PlannedField) (f : PlannedField) : bool :=
  existsb (fun d => bit_set (pl_dependency_mask f) (Z.of_nat d) && negb (eligible_at l d)) (seq 0 (length l)).

(** [e] is what is reported of a blocked field. *)
Definition propagate_at (e : Z) (s : list PlannedField * bool) (i : nat) : list PlannedField * bool :=
  let '(l, all) := s in
  match l !! i with
  | None => s
  | Some f => let f := if blocked l f then deny e f else f in (<[i := f]> l, all && pl_eligible f)
  end.
Definition propagate (e : Z) (order : list nat) (l : list PlannedField) : list PlannedField * bool :=
  foldl (propagate_at e) (l, true) (take (length l) order).

(** Executing only a part is an option of the command that the SDR profile does not offer. *)
Definition all_or_nothing (c : Cam) : bool := negb (cm_partial c) || is_profile profile sdr.

Definition validate_plan (r : Request) (plan : ExecutionPlan) (time_known data_running armed : bool) (state : StateSnapshot)
    : Result unit * ExecutionPlan :=
  let fields := plan_field r time_known data_running armed state <$> rq_fields r in
  let '(ordered, order) := order_loop (length fields) 0 fields 0 (ep_order plan) in
  let plan := mkExecution fields order (st_version state) (ep_operation plan) (ep_association_generation plan) (ep_boundary plan) in
  if negb ordered then (Err (error1 ErrorCode.invalid_argument), plan) else
  let '(fields, all) := propagate diag_dependency_blocked order fields in
  let plan := set_plan_fields plan fields in
  let whole := match backend_plan with
               | Some f => if negb (cm_action (rq_cam r) =? 0) then f plan state else Ok tt
               | None => Ok tt
               end in
  let all := all && is_ok whole in
  let plan := if is_ok whole then plan else map_fields (deny diag_invalid_value) plan in
  let plan := if all_or_nothing (rq_cam r) && negb all then map_fields set_ineligible plan else plan in
  (Ok tt, map_fields (fun f => if pl_eligible f then f else set_diagnostics (mark_not_executed (pl_diagnostics f)) f) plan).

(** ** The sample timeline *)

(** A new rate must be reachable from the timeline: while data runs, at the boundary of the
    plan; [UB] is the [std::get] of an absent alternative. *)
Definition rate_reachable (timeline : SampleTimeline) (data_running : bool) (boundary : Boundary) (q : Z) : bool :=
  let at_boundary :=
    if data_running then
      if (b_sample_ordinal boundary <? ordinal timeline) || b_committed boundary then None
      else match advance timeline (b_sample_ordinal boundary - ordinal timeline) with
           | Ok t => if bool_decide (time t = b_time boundary) then Some t else None
           | _ => None
           end
    else Some timeline in
  match at_boundary with
  | None => false
  | Some t => (0 <? q) && (Z.rem q unit_q20 =? 0) && is_ok (change_rate t (Z.shiftr q 20))
  end.

Fixpoint check_rates (timeline : SampleTimeline) (data_running : bool) (boundary : Boundary) (l : list PlannedField)
    : Result (list PlannedField) :=
  match l with
  | [] => Ok []
  | f :: l =>
      let? f :=
        if negb (pl_eligible f) || negb (fid_eqb (pl_id f) Field.SampleRate) then Ok f else
        let? q := deref (if_hertz (pl_adjusted f)) in
        Ok (if rate_reachable timeline data_running boundary q then f else deny (Z.lor diag_resource_exhausted diag_not_executed) f) in
      let? l := check_rates timeline data_running boundary l in
      Ok (f :: l)
  end.

Definition validate_boundary_state (timeline : option SampleTimeline) (r : Request) (data_running : bool) (plan : ExecutionPlan)
    : Result ExecutionPlan :=
  match timeline with
  | None => Ok plan
  | Some timeline =>
      if cm_action (rq_cam r) =? 0 then Ok plan else
      let? fields := check_rates timeline data_running (ep_boundary plan) (ep_fields plan) in
      let '(fields, all) := propagate (Z.lor diag_dependency_blocked diag_not_executed) (ep_order plan) fields in
      let plan := set_plan_fields plan fields in
      Ok (if all_or_nothing (rq_cam r) && negb all
          then map_fields (fun f => set_diagnostics (mark_not_executed (pl_diagnostics f)) (set_ineligible f)) plan
          else plan)
  end.
End planning.
