(* ===== verification/PlanProofs.v ===== *)
(** * Plans are ordered, closed under dependencies and executable

    The order of a plan is a topological order of the dependencies of its fields, found
    exactly when there is one; a field is eligible exactly when it and everything it depends
    on passed validation; what is written was validated natively and by the profile. *)

From S2P Require Import Prelude Wire WireProofs Fields Time Clock Timeline Scheduling Structured Packet State Cam Sdr Plan.

(** ** Masks of small indices *)

Lemma bit_set_nat w k : bit_set w (Z.of_nat k) = Z.testbit w (Z.of_nat k).
Proof. apply bit_set_testbit. lia. Qed.

Lemma bit_set_add v i j : (i < 8)%nat -> 0 <= v < 256 ->
  bit_set (wrap8 (Z.lor v (Z.shiftl 1 (Z.of_nat i)))) (Z.of_nat j) = (j =? i)%nat || bit_set v (Z.of_nat j).
Proof.
  intros Hi Hv. rewrite !bit_set_nat. unfold wrap8. change 256 with (2 ^ 8). rewrite Z.testbit_mod_pow2, Z.lor_spec by lia.
  rewrite Z.shiftl_1_l, Z.pow2_bits_eqb by lia.
  destruct (Nat.eqb_spec j i) as [->|Hne].
  - rewrite Z.eqb_refl, orb_true_r, andb_true_r. cbn. apply Z.ltb_lt. lia.
  - destruct (Z.eqb_spec (Z.of_nat i) (Z.of_nat j)); [lia|]. rewrite orb_false_r. cbn.
    destruct (Z.ltb_spec (Z.of_nat j) 8); [done|]. cbn. symmetry. apply (testbit_high v 8); [done|lia].
Qed.
Lemma wrap8_range x : 0 <= wrap8 x < 256.
Proof. unfold wrap8. zlia. Qed.

Lemma land_lnot_zero m v : 0 <= m -> (Z.land m (Z.lnot v) =? 0) = true <->
  (forall d : nat, bit_set m (Z.of_nat d) = true -> bit_set v (Z.of_nat d) = true).
Proof.
  intros Hm. rewrite Z.eqb_eq. split.
  - intros E d. rewrite !bit_set_nat. intros Hd. apply (f_equal (fun z => Z.testbit z (Z.of_nat d))) in E.
    rewrite Z.land_spec, Z.lnot_spec, Z.bits_0, Hd in E by lia. by destruct (Z.testbit v _).
  - intros H. apply Z.bits_inj'. intros n Hn. rewrite Z.land_spec, Z.lnot_spec, Z.bits_0 by lia.
    specialize (H (Z.to_nat n)). rewrite !bit_set_nat, Z2Nat.id in H by lia.
    destruct (Z.testbit m n); [by rewrite H|done].
Qed.

(** ** Dependencies *)

(** Field [i] of a plan depends on field [d]. *)
Definition depends (l : list PlannedField) (i d : nat) : Prop :=
  exists f, l !! i = Some f /\ bit_set (pl_dependency_mask f) (Z.of_nat d) = true.

(** Masks are bytes that only name fields of the plan. *)
Definition masks_ok (l : list PlannedField) : Prop :=
  forall i f, l !! i = Some f -> 0 <= pl_dependency_mask f < 256 /\
    forall d, bit_set (pl_dependency_mask f) (Z.of_nat d) = true -> (d < length l)%nat.

(** The dependencies have no cycle: they decrease some rank. *)
Definition acyclic (l : list PlannedField) : Prop :=
  exists rank : nat -> nat, forall i d, depends l i d -> (rank d < rank i)%nat.

(** [order] lists the fields, each after those it depends on. *)
Record topological (l : list PlannedField) (order : list nat) : Prop := mk_topological {
  tp_all : order ≡ₚ seq 0 (length l);
  tp_after : forall k i d, order !! k = Some i -> depends l i d -> d ∈ take k order
}.

Lemma first_ready_Some visited l : forall i0 i, first_ready visited i0 l = Some i ->
  exists f, l !! (i - i0)%nat = Some f /\ (i0 <= i)%nat /\ ready visited i f = true.
Proof.
  induction l as [|f l IH]; intros i0 i; cbn; [done|]. destruct (ready visited i0 f) eqn:E.
  - intros [= <-]. exists f. by rewrite Nat.sub_diag.
  - intros (g & Hg & Hle & Hr)%IH. exists g. split_and!; [|lia|done].
    by replace (i - i0)%nat with (S (i - S i0))%nat by lia.
Qed.
Lemma first_ready_None visited l : forall i0, first_ready visited i0 l = None ->
  forall i f, l !! i = Some f -> ready visited (i0 + i) f = false.
Proof.
  induction l as [|f l IH]; intros i0; cbn; [done|]. destruct (ready visited i0 f) eqn:E; [done|].
  intros H [|i] g; cbn; [intros [= <-]; by rewrite Nat.add_0_r|]. intros Hg. rewrite Nat.add_succ_r. by apply (IH (S i0)).
Qed.

(** ** The order *)

(** What the loop has built after [n] positions. *)
Record ordering (l : list PlannedField) (n : nat) (visited : Z) (order : list nat) : Prop := mk_ordering {
  or_length : (n <= length order)%nat;
  or_range : 0 <= visited < 256;
  or_visited : forall j, bit_set visited (Z.of_nat j) = true <-> j ∈ take n order;
  or_nodup : NoDup (take n order);
  or_bound : Forall (fun i => (i < length l)%nat) (take n order);
  or_after : forall k i d, (k < n)%nat -> order !! k = Some i -> depends l i d -> d ∈ take k order
}.

Lemma ordering_nil l order : ordering l 0 0 order.
Proof.
  split; rewrite ?take_0; try done; try lia; [|apply NoDup_nil_2].
  intros j. rewrite bit_set_nat, Z.bits_0. split; [done|]. by intros ?%not_elem_of_nil.
Qed.

Lemma ready_iff visited i f : 0 <= pl_dependency_mask f ->
  ready visited i f = true <-> bit_set visited (Z.of_nat i) = false /\
    (forall d : nat, bit_set (pl_dependency_mask f) (Z.of_nat d) = true -> bit_set visited (Z.of_nat d) = true).
Proof. intros Hm. unfold ready. by rewrite andb_true_iff, negb_true_iff, land_lnot_zero. Qed.

Lemma ordering_snoc l n visited order i f :
  (length l <= 8)%nat -> masks_ok l -> ordering l n visited order -> (n < length order)%nat ->
  l !! i = Some f -> ready visited i f = true ->
  ordering l (S n) (wrap8 (Z.lor visited (Z.shiftl 1 (Z.of_nat i)))) (<[n := i]> order).
Proof.
  intros Hl Hm [Hlen Hr Hv Hnd Hb Ha] Hn Hi Hrd.
  assert (Hi8 : (i < length l)%nat) by (by eapply lookup_lt_Some).
  apply ready_iff in Hrd as [Hnew Hdeps]; [|by apply (Hm i f Hi)].
  assert (Etake : take (S n) (<[n:=i]> order) = take n order ++ [i]).
  { rewrite (take_S_r _ _ i) by (by rewrite list_lookup_insert_eq). by rewrite take_insert_ge by lia. }
  assert (Hfresh : i ∉ take n order) by (by rewrite <- Hv, Hnew).
  split; rewrite ?Etake.
  - rewrite length_insert. lia.
  - apply wrap8_range.
  - intros j. rewrite bit_set_add by (lia || done). rewrite orb_true_iff, Nat.eqb_eq, Hv, elem_of_app, list_elem_of_singleton. naive_solver.
  - apply list.NoDup_app. split_and!; [done| |apply NoDup_singleton]. intros x Hx ->%list_elem_of_singleton. done.
  - apply Forall_app. split; [done|]. by apply Forall_singleton.
  - intros k j d Hk Hj (g & Hg & Hd). destruct (decide (k = n)) as [->|].
    + rewrite list_lookup_insert_eq in Hj by done. simplify_eq. rewrite take_insert_ge by lia. apply Hv. by apply Hdeps.
    + rewrite list_lookup_insert_ne in Hj by done. rewrite take_insert_ge by lia. apply (Ha k j d); [lia|done|]. by exists g.
Qed.

Lemma order_loop_spec l : (length l <= 8)%nat -> masks_ok l -> forall remaining n visited order b order',
  ordering l n visited order -> (n + remaining <= length order)%nat ->
  order_loop remaining n l visited order = (b, order') ->
  length order' = length order /\
  if b then exists v, ordering l (n + remaining) v order'
  else exists m v, (m < n + remaining)%nat /\ ordering l m v order' /\ first_ready v 0 l = None.
Proof.
  intros Hl Hm. induction remaining as [|remaining IH]; intros n visited order b order' Hor Hlen; cbn [order_loop].
  - intros [= <- <-]. split; [done|]. exists visited. by rewrite Nat.add_0_r.
  - destruct (first_ready visited 0 l) as [i|] eqn:E.
    + apply first_ready_Some in E as (f & Hf & _ & Hr). rewrite Nat.sub_0_r in Hf. intros H.
      apply IH in H as [Hlen' H]; [|by eapply ordering_snoc; [..|lia|done|done]|rewrite length_insert; lia].
      rewrite length_insert in Hlen'. split; [done|]. by rewrite Nat.add_succ_r.
    + intros [= <- <-]. split; [done|]. exists n, visited. split_and!; [lia|done|done].
Qed.

(** Not every field is visited while positions are left. *)
Lemma unvisited (m n : nat) (V : list nat) : NoDup V -> length V = m -> (m < n)%nat -> exists i, (i < n)%nat /\ i ∉ V.
Proof.
  intros Hnd Hlen Hlt. destruct (decide (Exists (fun i => i ∉ V) (seq 0 n))) as [(i & Hi & Hn)%list.Exists_exists|Hno].
  - exists i. split; [|done]. apply elem_of_seq in Hi. lia.
  - exfalso. apply not_Exists_Forall in Hno; [|apply _]. assert (Hsub : seq 0 n ⊆+ V).
    { apply NoDup_submseteq; [apply NoDup_seq|]. intros x Hx. rewrite list.Forall_forall in Hno. specialize (Hno x Hx). by apply dec_stable. }
    apply submseteq_length in Hsub. rewrite length_seq in Hsub. lia.
Qed.

Lemma stuck_cyclic l n v order : masks_ok l -> ordering l n v order -> (n < length l)%nat -> first_ready v 0 l = None -> ~ acyclic l.
Proof.
  intros Hm Hor Hn Hnone [rank Hrank].
  assert (Hall : forall r i, (rank i <= r)%nat -> (i < length l)%nat -> i ∈ take n order).
  { induction r as [|r IH]; intros i Hr Hi.
    all: destruct (decide (i ∈ take n order)) as [|Hni]; [done|exfalso];
         destruct (lookup_lt_is_Some_2 l i Hi) as [f Hf]; pose proof (first_ready_None _ _ _ Hnone i f Hf) as Hnr;
         rewrite <- not_true_iff_false in Hnr; apply Hnr; apply ready_iff; [by apply (Hm i f Hf)|];
         (split; [rewrite <- not_true_iff_false; by rewrite (or_visited _ _ _ _ Hor)|]);
         intros d Hd; apply (or_visited _ _ _ _ Hor);
         assert (Hlt : (rank d < rank i)%nat) by (apply Hrank; by exists f); pose proof (proj2 (Hm i f Hf) d Hd).
    - lia.
    - apply IH; lia. }
  destruct (unvisited n (length l) (take n order)) as (i & Hi & Hni); [apply Hor| |done|].
  - rewrite length_take. pose proof (or_length _ _ _ _ Hor). lia.
  - apply Hni. by apply (Hall (rank i)).
Qed.

(** The loop finds an order exactly when the dependencies have no cycle. *)
Lemma order_found l order b order' : (length l <= 8)%nat -> (length l <= length order)%nat -> masks_ok l ->
  order_loop (length l) 0 l 0 order = (b, order') ->
  length order' = length order /\ (b = true <-> acyclic l) /\ (b = true -> topological l (take (length l) order')).
Proof.
  intros Hl Hlen Hm E. destruct (order_loop_spec l Hl Hm _ _ _ _ _ _ (ordering_nil l order) Hlen E) as [Elen Hb].
  assert (Htop : b = true -> topological l (take (length l) order')).
  { intros ->. destruct Hb as [v [Hn Hr Hv Hnd Hbd Ha]]. cbn [plus] in *. split.
    - apply submseteq_length_Permutation.
      + apply NoDup_submseteq; [done|]. intros x Hx. rewrite elem_of_seq. rewrite list.Forall_forall in Hbd. specialize (Hbd x Hx). lia.
      + rewrite length_seq, length_take. lia.
    - intros k i d Hk Hd. apply lookup_take_Some in Hk as [Hk Hlt]. rewrite take_take. replace (k `min` length l)%nat with k by lia.
      by apply (Ha k i d). }
  split_and!; [done| |done]. split; [|].
  - intros Eb. specialize (Htop Eb). exists (fun i => match first_index (Nat.eqb i) (take (length l) order') with Some k => k | None => 0%nat end).
    destruct b; [|done]. destruct Hb as [v Hor]. intros i d Hd. assert (Hi : i ∈ take (length l) order').
    { rewrite (tp_all _ _ Htop). destruct Hd as (f & Hf & _). apply elem_of_seq. apply lookup_lt_Some in Hf. lia. }
    destruct (first_index (Nat.eqb i) _) as [k|] eqn:Ek; [|exfalso; rewrite first_index_None, list.Forall_forall in Ek; specialize (Ek i Hi); by rewrite Nat.eqb_refl in Ek].
    apply first_index_Some in Ek as [(x & Hx & <-%Nat.eqb_eq) _].
    pose proof (tp_after _ _ Htop k i d Hx Hd) as [j Hj]%list_elem_of_lookup. apply lookup_take_Some in Hj as [Hj Hlt].
    destruct (first_index (Nat.eqb d) _) as [m|] eqn:Em; [|lia].
    apply first_index_Some in Em as [_ Hmin]. destruct (decide (m <= j)%nat); [lia|].
    specialize (Hmin j d ltac:(lia) Hj). by rewrite Nat.eqb_refl in Hmin.
  - intros Hac. destruct b; [done|]. destruct Hb as (m & v & Hlt & Hor & Hnone). exfalso. by eapply stuck_cyclic.
Qed.

(** ** Fields of a plan *)

Lemma elem_of_setters r id d : d ∈ setters r id <-> exists f, rq_fields r !! d = Some f /\ rf_id f = id.
Proof.
  unfold setters. rewrite list_elem_of_filter, elem_of_seq. split.
  - intros [H _]. destruct (rq_fields r !! d) as [f|]; [|done]. exists f. split; [done|]. by apply fid_eqb_eq.
  - intros (f & Hf & E). rewrite Hf. split; [by apply fid_eqb_eq|]. apply lookup_lt_Some in Hf. unfold rq_count. lia.
Qed.

(** The same field of the same request, whatever its mask, eligibility and diagnostics. *)
Definition same_field (f g : PlannedField) : Prop :=
  pl_id f = pl_id g /\ pl_requested f = pl_requested g /\ pl_adjusted f = pl_adjusted g.
#[global] Instance same_field_equiv : Equivalence same_field.
Proof. split; [done|by intros ?? (? & ? & ?)|intros ??? (? & ? & ?) (? & ? & ?); split_and!; congruence]. Qed.

Lemma same_field_deny e f : same_field (deny e f) f.
Proof. done. Qed.

(** What one dependency bit asks for. *)
Definition needs (r : Request) (dependencies : Z) (target d : nat) : Prop :=
  bit_set dependencies (Z.of_nat target) = true /\ exists id, state_fields !! target = Some id /\ d ∈ setters r id.
(** Nothing in the request or the state provides it. *)
Definition missing (r : Request) (state : StateSnapshot) (dependencies : Z) (target : nat) : bool :=
  bit_set dependencies (Z.of_nat target) &&
  match state_fields !! target with
  | Some id => match setters r id with [] => negb (state_known state target) | _ => false end
  | None => false
  end.

Record mask_of (P : nat -> Prop) (f : PlannedField) : Prop := mk_mask_of {
  mo_range : 0 <= pl_dependency_mask f < 256;
  mo_bits : forall d, bit_set (pl_dependency_mask f) (Z.of_nat d) = true <-> P d
}.
Lemma mask_of_ext P Q f : (forall d, P d <-> Q d) -> mask_of P f -> mask_of Q f.
Proof. intros H [Hr Hb]. split; [done|]. intros d. by rewrite Hb, H. Qed.

Lemma add_dependencies l : forall P f, Forall (fun j => (j < 8)%nat) l -> mask_of P f ->
  let f' := foldl (fun f j => add_dependency j f) f l in
  mask_of (fun d => P d \/ d ∈ l) f' /\ pl_eligible f' = pl_eligible f /\ same_field f' f.
Proof.
  induction l as [|j l IH]; intros P f Hl Hm; cbn.
  - split_and!; [|done..]. eapply mask_of_ext; [|done]. intros d. rewrite elem_of_nil. tauto.
  - apply list.Forall_cons in Hl as [Hj Hl].
    destruct (IH (fun d => P d \/ d = j) (add_dependency j f) Hl) as (H1 & H2 & H3).
    + destruct Hm as [Hr Hb]. split; [apply wrap8_range|]. intros d. cbn. rewrite bit_set_add, orb_true_iff, Nat.eqb_eq, Hb by done. tauto.
    + split_and!; [|done|done]. eapply mask_of_ext; [|done]. intros d. rewrite elem_of_cons. tauto.
Qed.

Lemma depend_on_spec r state deps P f t : (rq_count r <= 8)%nat -> mask_of P f ->
  let f' := depend_on r state deps f t in
  mask_of (fun d => P d \/ needs r deps t d) f' /\
  pl_eligible f' = pl_eligible f && negb (missing r state deps t) /\ same_field f' f.
Proof.
  intros Hc Hm. cbv zeta. unfold depend_on, missing, needs. destruct (bit_set deps (Z.of_nat t)); cbn [negb andb].
  2: { rewrite andb_true_r. split_and!; [|done..]. eapply mask_of_ext; [|done]. naive_solver. }
  destruct (state_fields !! t) as [id|] eqn:Et; cbn [negb].
  2: { rewrite andb_true_r. split_and!; [|done..]. eapply mask_of_ext; [|done]. naive_solver. }
  destruct (setters r id) as [|j l] eqn:El.
  - assert (Hno : forall d, (exists id0, Some id = Some id0 /\ d ∈ setters r id0) -> False).
    { intros d (id0 & [= <-] & Hd). rewrite El in Hd. by apply not_elem_of_nil in Hd. }
    destruct (state_known state t); cbn [negb]; [rewrite andb_true_r|rewrite andb_false_r];
      (split_and!; [|done..]); eapply (mask_of_ext P); try naive_solver. by destruct Hm.
  - rewrite andb_true_r. destruct (add_dependencies (j :: l) P f) as (H1 & H2 & H3); [|done|].
    + apply list.Forall_forall. intros x Hx. rewrite <- El in Hx. apply elem_of_setters in Hx as (g & Hg & _). apply lookup_lt_Some in Hg.
      unfold rq_count in Hc. lia.
    + split_and!; [|done|done]. eapply mask_of_ext; [|done]. intros d. rewrite <- El.
      split; [intros [?|?]; [by left|right; eauto]|]. intros [?|(_ & id0 & [= <-] & ?)]; [by left|by right].
Qed.

Lemma depend_fold r state deps ts : (rq_count r <= 8)%nat -> forall P f, mask_of P f ->
  let f' := foldl (depend_on r state deps) f ts in
  mask_of (fun d => P d \/ exists t, t ∈ ts /\ needs r deps t d) f' /\
  pl_eligible f' = pl_eligible f && negb (existsb (missing r state deps) ts) /\ same_field f' f.
Proof.
  intros Hc. induction ts as [|t ts IH]; intros P f Hm; cbn.
  - rewrite andb_true_r. split_and!; [|done..]. eapply mask_of_ext; [|done]. intros d. split; [by left|].
    intros [?|(t & ?%not_elem_of_nil & _)]; done.
  - destruct (depend_on_spec r state deps P f t Hc Hm) as (H1 & H2 & H3). destruct (IH _ _ H1) as (H4 & H5 & H6).
    split_and!; [|by rewrite H5, H2, negb_orb, andb_assoc|by rewrite H6].
    eapply mask_of_ext; [|done]. intros d. setoid_rewrite elem_of_cons. naive_solver.
Qed.

(** ** Propagation *)

(** Field [i] and everything it depends on are eligible. *)
Inductive runnable (l : list PlannedField) (i : nat) : Prop :=
  | runnable_intro f : l !! i = Some f -> pl_eligible f = true ->
      (forall d, bit_set (pl_dependency_mask f) (Z.of_nat d) = true -> runnable l d) -> runnable l i.

Definition kept (e : Z) (f f' : PlannedField) : Prop := f' = f \/ f' = deny e f.

Lemma eligible_at_lookup l i f : l !! i = Some f -> eligible_at l i = pl_eligible f.
Proof. unfold eligible_at. by intros ->. Qed.

Lemma eligible_at_insert l i f j : (i < length l)%nat -> eligible_at (<[i := f]> l) j = if decide (i = j) then pl_eligible f else eligible_at l j.
Proof.
  intros Hi. unfold eligible_at. destruct (decide (i = j)) as [<-|Hne]; [by rewrite list_lookup_insert_eq|by rewrite list_lookup_insert_ne].
Qed.

Lemma blocked_iff l f :
  blocked l f = true <-> exists d, (d < length l)%nat /\ bit_set (pl_dependency_mask f) (Z.of_nat d) = true /\ eligible_at l d = false.
Proof.
  unfold blocked. rewrite existsb_exists. setoid_rewrite andb_true_iff. setoid_rewrite negb_true_iff. split.
  - intros (d & Hd & Hb & He). apply list_elem_of_In, elem_of_seq in Hd. exists d. split_and!; [lia|done|done].
  - intros (d & Hd & Hb & He). exists d. split; [|done]. apply list_elem_of_In, elem_of_seq. lia.
Qed.

(** The fields of the prefix [pre] of the order are decided, the others untouched. *)
Record decided (e : Z) (l : list PlannedField) (pre : list nat) (s : list PlannedField * bool) : Prop := mk_decided {
  dc_kept : Forall2 (kept e) l s.1;
  dc_eligible : forall i, i ∈ pre -> eligible_at s.1 i = true <-> runnable l i;
  dc_rest : forall i, i ∉ pre -> s.1 !! i = l !! i;
  dc_all : s.2 = true <-> forall i, i ∈ pre -> eligible_at s.1 i = true
}.

Lemma propagate_step e l pre i s :
  masks_ok l -> (i < length l)%nat -> i ∉ pre -> (forall d, depends l i d -> d ∈ pre) ->
  decided e l pre s -> decided e l (pre ++ [i]) (propagate_at e s i).
Proof.
  intros Hm Hi Hni Hdeps [Hk He Hr Ha]. destruct s as [l' all]. cbn [fst snd] in *.
  pose proof (Forall2_length Hk) as Hlen. destruct (lookup_lt_is_Some_2 l i Hi) as [f Hf].
  assert (Hf' : l' !! i = Some f) by (by rewrite Hr). unfold propagate_at. rewrite Hf'.
  set (g := if blocked l' f then deny e f else f).
  assert (Hg : pl_eligible g = true <-> runnable l i).
  { unfold g. split.
    - destruct (blocked l' f) eqn:Eb; [done|]. intros Hel. econstructor; [done|done|]. intros d Hd. apply He; [apply Hdeps; by exists f|].
      destruct (eligible_at l' d) eqn:Ed; [done|]. exfalso. rewrite <- not_true_iff_false, blocked_iff in Eb. apply Eb. exists d. split_and!; [|done..].
      rewrite <- Hlen. by apply (Hm i f Hf).
    - intros [f0 Hf0 Hel Hsub]. simplify_eq. destruct (blocked l' f) eqn:Eb; [|done]. exfalso. apply blocked_iff in Eb as (d & _ & Hd & Hno).
      specialize (Hsub d Hd). apply He in Hsub; [congruence|]. apply Hdeps. by exists f. }
  assert (Hat : forall j, eligible_at (<[i := g]> l') j = if decide (i = j) then pl_eligible g else eligible_at l' j) by (intros; apply eligible_at_insert; lia).
  split; cbn [fst snd].
  - apply Forall2_same_length_lookup. split; [by rewrite length_insert|]. intros j a b Ha' Hb. destruct (decide (i = j)) as [<-|Hne].
    + rewrite list_lookup_insert_eq in Hb by lia. rewrite Hf in Ha'. injection Ha' as <-. injection Hb as <-. unfold g. case_match; [by right|by left].
    + rewrite list_lookup_insert_ne in Hb by done. by eapply Forall2_lookup_lr.
  - intros j. rewrite Hat, elem_of_app, list_elem_of_singleton. destruct (decide (i = j)) as [<-|Hne]; [done|]. intros [?|?]; [by apply He|congruence].
  - intros j Hj. rewrite elem_of_app, list_elem_of_singleton in Hj. rewrite list_lookup_insert_ne by naive_solver. apply Hr. tauto.
  - rewrite andb_true_iff, Ha. setoid_rewrite elem_of_app. setoid_rewrite list_elem_of_singleton. setoid_rewrite Hat. split.
    + intros [H1 H2] j [Hj| ->]; [|by destruct (decide (i = i))]. destruct (decide (i = j)); [by subst|by apply H1].
    + intros H. split; [|specialize (H i (or_intror eq_refl)); by destruct (decide (i = i))].
      intros j Hj. specialize (H j (or_introl Hj)). destruct (decide (i = j)); [by subst|done].
Qed.

Lemma propagate_spec e l order :
  masks_ok l -> topological l (take (length l) order) -> decided e l (seq 0 (length l)) (propagate e order l).
Proof.
  intros Hm [Hall Hafter]. set (o := take (length l) order) in *.
  assert (Hgen : forall k, (k <= length o)%nat -> decided e l (take k o) (foldl (propagate_at e) (l, true) (take k o))).
  { induction k as [|k IH]; intros Hk.
    - rewrite take_0. split; cbn; [|  |done|].
      + apply Forall2_same_length_lookup. split; [done|]. intros; simplify_eq. by left.
      + by intros i ?%not_elem_of_nil.
      + split; [|done]. by intros _ i ?%not_elem_of_nil.
    - destruct (lookup_lt_is_Some_2 o k Hk) as [i Hi]. rewrite (take_S_r _ _ _ Hi), foldl_app. cbn [foldl].
      assert (Hin : i ∈ seq 0 (length l)) by (rewrite <- Hall; by eapply list_elem_of_lookup_2). apply elem_of_seq in Hin.
      apply propagate_step; [done|lia| | |apply IH; lia].
      + assert (Hnd : NoDup o) by (rewrite Hall; apply NoDup_seq). intros (j & Hj)%list_elem_of_lookup. apply lookup_take_Some in Hj as [Hj Hlt].
        pose proof (NoDup_lookup _ _ _ _ Hnd Hi Hj). lia.
      + intros d Hd. by apply (Hafter k i d). }
  specialize (Hgen (length o) ltac:(lia)). rewrite take_ge in Hgen by lia. unfold propagate. fold o.
  destruct Hgen as [H1 H2 H3 H4]. split; [done| | |]; setoid_rewrite <- Hall; done.
Qed.

Section planning.
Context (profile : TxProfile.t) (capabilities : option SdrCapabilities).
Context (validate : option (FieldId -> SemanticValue -> StateSnapshot -> Validation)).
Context (backend_plan : option (ExecutionPlan -> StateSnapshot -> Result unit)).
Context (has_commit : bool).
Context (r : Request) (time_known data_running armed : bool) (state : StateSnapshot).

#[local] Abbreviation validated f := (validate_field profile capabilities validate has_commit r data_running armed state f).
#[local] Abbreviation planned f := (plan_field profile capabilities validate has_commit r time_known data_running armed state f).
#[local] Abbreviation initial := (plan_field profile capabilities validate has_commit r time_known data_running armed state <$> rq_fields r).

(** A field passes validation on its own: its value resolves, the command tolerates its
    diagnostics, and what it depends on is requested or known. *)
Definition passes (f : RequestField) : bool :=
  let v := validated f in
  Cam.eligible (rq_cam r) (vl_diagnostics v) (vl_resolvable v) &&
  negb (existsb (missing r state (vl_dependencies v)) (seq 0 state_field_capacity)).

(** Entry [i] of the request depends on entry [d]. *)
Definition request_depends (i d : nat) : Prop :=
  exists f t, rq_fields r !! i = Some f /\ needs r (vl_dependencies (validated f)) t d.

Lemma plan_field_spec f : (rq_count r <= 8)%nat ->
  mask_of (fun d => exists t, needs r (vl_dependencies (validated f)) t d) (planned f) /\
  pl_eligible (planned f) = passes f /\
  pl_id (planned f) = rf_id f /\ pl_requested (planned f) = rf_value f /\ pl_adjusted (planned f) = vl_adjusted (validated f).
Proof.
  intros Hc. unfold plan_field, passes. cbv zeta. set (v := validated f). set (p := mkPlanned _ _ _ _ _ _ _ _).
  destruct (depend_fold r state (vl_dependencies v) (seq 0 state_field_capacity) Hc (fun _ => False) p) as (H1 & H2 & H3 & H4 & H5).
  - split; [done|]. intros d. cbn. by rewrite bit_set_nat, Z.bits_0.
  - split_and!; [|exact H2|exact H3|exact H4|exact H5]. eapply mask_of_ext; [|exact H1]. intros d. split.
    + intros [[]|(t & _ & Ht)]. by exists t.
    + intros (t & Ht). right. exists t. split; [|done]. destruct Ht as [_ (id & Hid & _)].
      apply elem_of_seq. apply lookup_lt_Some in Hid. rewrite state_fields_length in Hid. lia.
Qed.

Lemma initial_lookup i f : initial !! i = Some f <-> exists g, rq_fields r !! i = Some g /\ f = planned g.
Proof. rewrite list_lookup_fmap_Some. naive_solver. Qed.

Lemma initial_depends i d : (rq_count r <= 8)%nat -> depends initial i d <-> request_depends i d.
Proof.
  intros Hc. unfold depends, request_depends. split.
  - intros (f & (g & Hg & ->)%initial_lookup & Hb). apply (plan_field_spec g Hc) in Hb as [t Ht]. eauto.
  - intros (g & t & Hg & Ht). exists (planned g). split; [apply initial_lookup; eauto|]. apply (plan_field_spec g Hc). eauto.
Qed.

Lemma initial_masks : (rq_count r <= 8)%nat -> masks_ok initial.
Proof.
  intros Hc i f (g & Hg & ->)%initial_lookup. destruct (plan_field_spec g Hc) as [[Hr Hb] _]. split; [done|].
  intros d (t & _ & id & _ & Hd)%Hb. apply elem_of_setters in Hd as (h & Hh & _). apply lookup_lt_Some in Hh. by rewrite length_fmap.
Qed.

(** Entry [i] can be executed: it passes validation, and so does everything it depends on. *)
Inductive executable (i : nat) : Prop :=
  | executable_intro f : rq_fields r !! i = Some f -> passes f = true -> (forall d, request_depends i d -> executable d) -> executable i.

Lemma runnable_executable i : (rq_count r <= 8)%nat -> runnable initial i <-> executable i.
Proof.
  intros Hc. split.
  - induction 1 as [i f Hf He _ IH]. apply initial_lookup in Hf as (g & Hg & ->). destruct (plan_field_spec g Hc) as ([_ Hb] & Hp & _).
    econstructor; [done|by rewrite <- Hp|]. intros d (g' & t & Hg' & Ht). simplify_eq. apply IH, Hb. eauto.
  - induction 1 as [i g Hg Hp _ IH]. destruct (plan_field_spec g Hc) as ([_ Hb] & Hp' & _).
    apply (runnable_intro _ _ (planned g)); [apply initial_lookup; eauto|by rewrite Hp'|]. intros d (t & Ht)%Hb. apply IH. by exists g, t.
Qed.

Lemma initial_acyclic : (rq_count r <= 8)%nat ->
  acyclic initial <-> exists rank : nat -> nat, forall i d, request_depends i d -> (rank d < rank i)%nat.
Proof. intros Hc. unfold acyclic. by setoid_rewrite (fun i d => initial_depends i d Hc). Qed.

#[local] Abbreviation result plan := (validate_plan profile capabilities validate backend_plan has_commit r plan time_known data_running armed state).

(** What becomes of the fields after the order is found. *)
Definition finished (approved all : bool) (f : PlannedField) : PlannedField :=
  let f := if approved then f else deny diag_invalid_value f in
  let f := if all_or_nothing profile (rq_cam r) && negb (all && approved) then set_ineligible f else f in
  if pl_eligible f then f else set_diagnostics (mark_not_executed (pl_diagnostics f)) f.

Definition approved (q : ExecutionPlan) : bool :=
  match backend_plan with Some f => (cm_action (rq_cam r) =? 0) || is_ok (f q state) | None => true end.

Lemma validate_plan_cases plan order ok fields all :
  order_loop (length initial) 0 initial 0 (ep_order plan) = (ok, order) -> propagate diag_dependency_blocked order initial = (fields, all) ->
  let q := mkExecution fields order (st_version state) (ep_operation plan) (ep_association_generation plan) (ep_boundary plan) in
  result plan = if ok then (Ok tt, map_fields (finished (approved q) all) q)
                else (Err (error1 ErrorCode.invalid_argument), set_plan_fields q initial).
Proof.
  intros Eo Ep. unfold validate_plan. rewrite Eo. destruct ok; cbn [negb]; [|done]. rewrite Ep. cbv zeta.
  unfold approved, finished, set_plan_fields. cbn [ep_order ep_expected_state_version ep_operation ep_association_generation ep_boundary].
  set (q := mkExecution _ _ _ _ _ _).
  assert (Ew : is_ok (match backend_plan with Some f => if negb (cm_action (rq_cam r) =? 0) then f q state else Ok tt | None => Ok tt end) =
               match backend_plan with Some f => (cm_action (rq_cam r) =? 0) || is_ok (f q state) | None => true end).
  { destruct backend_plan; [|done]. by destruct (_ =? 0). }
  rewrite Ew. clear Ew. destruct (match backend_plan with Some _ => _ | None => _ end), (all_or_nothing _ _), all; cbn [andb negb map_fields];
    unfold map_fields, set_plan_fields; cbn; rewrite <- ?list_fmap_compose; done.
Qed.

Lemma finished_eligible a b f : pl_eligible (finished a b f) = true <->
  pl_eligible f = true /\ a = true /\ (all_or_nothing profile (rq_cam r) = true -> b = true).
Proof.
  unfold finished. destruct a, b, (all_or_nothing _ _); cbn; destruct (pl_eligible f) eqn:E; cbn; rewrite ?E; naive_solver.
Qed.
Lemma finished_same a b f : same_field (finished a b f) f.
Proof. unfold finished. by repeat case_match. Qed.
Lemma finished_marked a b f : let g := finished a b f in pl_eligible g = false ->
  bit_set (errors (pl_diagnostics g)) 31 = true \/ bit_set (warnings (pl_diagnostics g)) 31 = true.
Proof.
  cbv zeta. unfold finished. set (h := if all_or_nothing _ _ && _ then _ else _). destruct (pl_eligible h) eqn:E; [by rewrite E|intros _].
  cbn. unfold mark_not_executed. assert (Hb : forall x, bit_set (Z.lor x diag_not_executed) 31 = true).
  { intros x. rewrite bit_set_testbit, Z.lor_spec by lia. by rewrite orb_true_r. }
  case_match; cbn; [right|left]; apply Hb.
Qed.

(** The plan is found exactly when the dependencies are acyclic; its order is then a
    topological order of all its fields. *)
Lemma plan_order_facts plan : (rq_count r <= 5)%nat -> length (ep_order plan) = 5%nat ->
  let '(res, p) := result plan in
  (res = Ok tt \/ res = Err (error1 ErrorCode.invalid_argument)) /\
  length (ep_order p) = 5%nat /\ pl_id <$> ep_fields p = rf_id <$> rq_fields r /\
  (res = Ok tt <-> exists rank : nat -> nat, forall i d, request_depends i d -> (rank d < rank i)%nat) /\
  (res = Ok tt -> let order := take (rq_count r) (ep_order p) in
     order ≡ₚ seq 0 (rq_count r) /\ forall k i d, order !! k = Some i -> request_depends i d -> d ∈ take k order).
Proof.
  intros Hc Hlen. assert (Hc8 : (rq_count r <= 8)%nat) by lia. assert (Hl : length initial = rq_count r) by apply length_fmap.
  destruct (order_loop (length initial) 0 initial 0 (ep_order plan)) as [ok order] eqn:Eo.
  destruct (order_found initial (ep_order plan) ok order) as (Elen & Hac & Htop); [lia|lia|by apply initial_masks|done|].
  destruct (propagate diag_dependency_blocked order initial) as [fields all] eqn:Ep.
  rewrite (validate_plan_cases plan order ok fields all Eo Ep). rewrite initial_acyclic in Hac by done.
  assert (Hid : pl_id <$> initial = rf_id <$> rq_fields r).
  { rewrite <- list_fmap_compose. apply list_fmap_ext. intros i f _. apply (plan_field_spec f Hc8). }
  destruct ok.
  - split_and!; [by left|by cbn; lia| |by split; [intros _; by apply Hac|done]|].
    + cbn. rewrite <- Hid, <- list_fmap_compose. specialize (Htop eq_refl). pose proof (propagate_spec diag_dependency_blocked initial order (initial_masks Hc8) Htop) as [Hk _ _ _].
      rewrite Ep in Hk. cbn in Hk. match goal with |- context [finished ?x] => generalize x end. intros a. clear -Hk. induction Hk as [|f f' l l' Hkf _ IH]; [done|]. cbn. f_equal; [|exact IH].
      etransitivity; [apply finished_same|]. by destruct Hkf as [-> | ->].
    + intros _. cbn. rewrite <- Hl. destruct (Htop eq_refl) as [Hall Hafter]. split; [done|]. intros k i d Hk Hd. apply (Hafter k i d); [done|]. by apply initial_depends.
  - split_and!; [by right|by cbn; lia|done|by split; [done|]; intros H; apply Hac in H|done].
Qed.

(** A field of the plan is eligible exactly when it can be executed, the backend approves
    the plan as a whole and, when the command is all or nothing, every field can be
    executed; the other fields are marked as not executed. *)
Lemma plan_eligibility_facts plan p : (rq_count r <= 5)%nat -> length (ep_order plan) = 5%nat -> result plan = (Ok tt, p) ->
  exists q, (forall i, eligible_at (ep_fields q) i = true <-> executable i) /\ ep_order q = ep_order p /\
    Forall2 same_field (ep_fields q) (ep_fields p) /\
    forall i f, ep_fields p !! i = Some f ->
      (pl_eligible f = true <-> executable i /\ approved q = true /\
        (all_or_nothing profile (rq_cam r) = true -> forall j, (j < rq_count r)%nat -> executable j)) /\
      (pl_eligible f = false -> bit_set (errors (pl_diagnostics f)) 31 = true \/ bit_set (warnings (pl_diagnostics f)) 31 = true).
Proof.
  intros Hc Hlen. assert (Hc8 : (rq_count r <= 8)%nat) by lia. assert (Hl : length initial = rq_count r) by apply length_fmap.
  destruct (order_loop (length initial) 0 initial 0 (ep_order plan)) as [ok order] eqn:Eo.
  destruct (order_found initial (ep_order plan) ok order) as (Elen & Hac & Htop); [lia|lia|by apply initial_masks|done|].
  destruct (propagate diag_dependency_blocked order initial) as [fields all] eqn:Ep.
  rewrite (validate_plan_cases plan order ok fields all Eo Ep). destruct ok; [|done]. set (q := mkExecution _ _ _ _ _ _). intros [= <-].
  pose proof (propagate_spec diag_dependency_blocked initial order (initial_masks Hc8) (Htop eq_refl)) as [Hk He _ Ha]. rewrite Ep in *. cbn [fst snd] in *.
  pose proof (Forall2_length Hk) as Hlf.
  assert (Hex : forall i, eligible_at fields i = true <-> executable i).
  { intros i. rewrite <- runnable_executable by done. destruct (decide (i < length initial)%nat) as [Hi|Hi].
    - apply He. apply elem_of_seq. lia.
    - unfold eligible_at. rewrite (proj2 (lookup_ge_None fields i)) by lia. split; [done|]. intros [f Hf%lookup_lt_Some _ _]. lia. }
  exists q. split_and!; [exact Hex|done| |].
  - cbn. apply Forall2_same_length_lookup. split; [by rewrite length_fmap|]. intros i x y Hx (g & -> & Hg)%list_lookup_fmap_Some.
    simplify_eq. symmetry. apply finished_same.
  - intros i f (g & -> & Hg)%list_lookup_fmap_Some. split; [|apply finished_marked].
    rewrite finished_eligible, <- Hex. cbn [q ep_fields] in Hg. rewrite (eligible_at_lookup _ _ _ Hg).
    assert (Hall : all = true <-> forall j, (j < rq_count r)%nat -> executable j).
    { rewrite Ha. setoid_rewrite elem_of_seq. setoid_rewrite Hex. rewrite Hl. split; intros H j Hj; apply H; lia. }
    rewrite <- Hall. tauto.
Qed.
End planning.

(** ** Values of a plan *)

Lemma block_if_resolvable c e v : vl_resolvable (block_if c e v) = negb c && vl_resolvable v.
Proof. by destruct c. Qed.
Lemma block_if_adjusted c e v : vl_adjusted (block_if c e v) = vl_adjusted v.
Proof. by destruct c. Qed.

Section values.
Context (profile : TxProfile.t) (capabilities : option SdrCapabilities).
Context (validate : option (FieldId -> SemanticValue -> StateSnapshot -> Validation)) (has_commit : bool).

(** What the SDR profile accepts is not adjusted. *)
Lemma sdr_validate_adjusted id v : vl_adjusted (sdr_validate id v) = v.
Proof.
  unfold sdr_validate, sdr_validate_rate, sdr_validate_frequency, sdr_validate_bandwidth, sdr_validate_gain, sdr_validate_io. by repeat case_match.
Qed.

Definition steps (id : FieldId) (value : SemanticValue) (state : StateSnapshot) : Validation :=
  with_native profile id (with_backend profile validate id state (with_capabilities profile capabilities id value (profile_validate profile id value))).

Lemma steps_resolvable id value state : vl_resolvable (steps id value state) = true ->
  native_ok profile id (vl_adjusted (steps id value state)) = true /\
  vl_resolvable (profile_validate profile id value) = true /\
  (profile = TxProfile.sdr_radio -> vl_adjusted (steps id value state) = value /\
     forall c, capabilities = Some c -> capability_supports c id value = true).
Proof.
  unfold steps, with_native. rewrite block_if_resolvable, block_if_adjusted.
  set (w := with_capabilities profile capabilities id value (profile_validate profile id value)).
  assert (Hw : vl_resolvable w = true -> vl_resolvable (profile_validate profile id value) = true /\
    (profile = TxProfile.sdr_radio -> vl_adjusted w = value /\ forall c, capabilities = Some c -> capability_supports c id value = true)).
  { unfold w, with_capabilities. destruct capabilities as [c|]; rewrite ?block_if_resolvable, ?block_if_adjusted.
    - rewrite andb_true_iff, negb_true_iff. intros [Hb Hr]. split; [done|]. intros ->. rewrite Hr in Hb. cbn in Hb. apply negb_false_iff in Hb.
      split; [apply sdr_validate_adjusted|]. by intros c0 [= <-].
    - intros Hr. split; [done|]. intros ->. split; [apply sdr_validate_adjusted|done]. }
  unfold with_backend. destruct validate as [f|].
  - destruct (vl_resolvable w) eqn:Er; cbn [negb]; [|rewrite Er; by cbn].
    specialize (Hw eq_refl) as [Hp Hs]. cbn [vl_resolvable vl_adjusted]. rewrite block_if_resolvable, block_if_adjusted.
    intros [Hn [_ [Hb Hx]%andb_true_iff]%andb_true_iff]%andb_true_iff.
    rewrite Hb, Hx in Hn. cbn in Hn. rewrite negb_involutive in Hn. apply negb_true_iff in Hb. split_and!; [done|done|].
    intros Hsdr. destruct (Hs Hsdr) as [Hw' Hc]. split; [|done]. rewrite andb_false_iff in Hb. destruct Hb as [Hb|Hb].
    + apply bool_decide_eq_false in Hb. done.
    + apply negb_false_iff, bool_decide_eq_true in Hb. by rewrite Hb.
  - rewrite andb_true_iff, negb_true_iff. intros [Hn Hr]. rewrite Hr in Hn. apply negb_false_iff in Hn. specialize (Hw Hr) as [Hp Hs]. done.
Qed.

(** A resolvable value of a command that acts was validated natively and by its profile;
    the SDR profile does not adjust it and it is within the declared capabilities. *)
Lemma validated_value r data_running armed state f :
  let v := validate_field profile capabilities validate has_commit r data_running armed state f in
  cm_action (rq_cam r) <> 0 -> vl_resolvable v = true ->
  native_ok profile (rf_id f) (vl_adjusted v) = true /\
  (profile = TxProfile.sdr_radio -> vl_adjusted v = rf_value f /\
     forall c, capabilities = Some c -> capability_supports c (rf_id f) (rf_value f) = true).
Proof.
  intros v Ha. unfold v, validate_field. apply Z.eqb_neq in Ha. rewrite !block_if_resolvable, !block_if_adjusted, !andb_true_iff. rewrite Ha. cbn [negb].
  test_goal E; [by cbn; naive_solver|]. intros (_ & _ & _ & _ & _ & _ & _ & Hr). fold (steps (rf_id f) (rf_value f) state) in Hr |- *.
  destruct (steps_resolvable _ _ _ Hr) as (H1 & _ & H2). done.
Qed.
End values.

(** An accepted sample rate is a frequency. *)
Lemma rate_value v : is_ok (validate_value Field.SampleRate v true) = true -> exists q, v = v_hertz q.
Proof. destruct v as [| q| | | | | | | | | | | | | | | | | | | | | | | | | | | | ]; try (vm_compute; discriminate). intros _. by exists q. Qed.

Lemma native_rate profile v : native_ok profile Field.SampleRate v = true -> exists q, v = v_hertz q.
Proof. unfold native_ok. rewrite !andb_true_iff. intros [[H _] _]. by apply rate_value. Qed.

(** ** Requests *)

(** The entries collected so far name distinct fields of the state. *)
Definition entries_ok (limit : nat) (l : list RequestField) : Prop :=
  (length l <= limit)%nat /\ NoDup (rf_id <$> l) /\ Forall (fun f => rf_id f ∈ state_fields) l.

Lemma entries_alter limit g i l : (forall f, rf_id (g f) = rf_id f) -> entries_ok limit l -> entries_ok limit (alter g i l).
Proof.
  intros Hg (H1 & H2 & H3). assert (E : rf_id <$> alter g i l = rf_id <$> l).
  { apply list_eq. intros j. rewrite !list_lookup_fmap, list_lookup_alter. destruct (decide (i = j)) as [<-|]; [|done]. destruct (l !! i); [|done]; cbn [fmap option_fmap option_map]; by rewrite Hg. }
  split_and!; [by rewrite length_alter|by rewrite E|]. apply list.Forall_forall. intros x Hx.
  apply (list_elem_of_fmap_2 rf_id) in Hx. rewrite E in Hx. apply list_elem_of_fmap in Hx as (y & -> & Hy). rewrite list.Forall_forall in H3. by apply H3.
Qed.

Lemma field_index_In id : (field_index id =? state_field_capacity)%nat = false -> id ∈ state_fields.
Proof.
  intros H. apply Nat.eqb_neq in H. unfold field_index in H. destruct (first_index _ _) as [i|] eqn:E; [|by rewrite state_fields_length in H].
  apply first_index_Some in E as [(x & Hx & <-%fid_eqb_eq) _]. by eapply list_elem_of_lookup_2.
Qed.

Lemma placeholder_safe id : id ∈ state_fields -> exists v, placeholder id = Ok v.
Proof. intros H. repeat (apply elem_of_cons in H as [->|H]; [vm_compute; by eexists|]). by apply not_elem_of_nil in H. Qed.

Lemma entry_of_spec limit l id i l' : entries_ok limit l -> id ∈ state_fields -> entry_of limit l id = Ok (i, l') -> entries_ok limit l'.
Proof.
  intros (H1 & H2 & H3) Hid. unfold entry_of. destruct (find_entry l id) as [k|] eqn:E; [by intros [= <- <-]|].
  destruct (Nat.eqb_spec (length l) limit); [done|]. intros H. apply rbind_Ok in H as (v & _ & [= <- <-]).
  unfold find_entry in E. rewrite first_index_None, list.Forall_forall in E. split_and!.
  - rewrite length_app. cbn. lia.
  - rewrite fmap_app. apply list.NoDup_app. split_and!; [done| |apply NoDup_singleton].
    intros x (f & -> & Hf)%list_elem_of_fmap Hx%list_elem_of_singleton. specialize (E f Hf). cbn in Hx. rewrite Hx in E.
    by rewrite (proj2 (fid_eqb_eq id id) eq_refl) in E.
  - apply Forall_app. split; [done|]. by apply Forall_singleton.
Qed.

Definition request_limit (profile : TxProfile.t) (action : Z) : nat := if is_profile profile sdr && (action =? 0) then 5 else 4.

Ltac keep_entries := repeat (apply entries_alter; [done|]).

Lemma request_view_ok profile action l q view l' q' : entries_ok (request_limit profile action) l ->
  request_view profile action l q view = Ok (l', q') -> entries_ok (request_limit profile action) l'.
Proof.
  intros Hl. unfold request_view. destruct (field_index (fv_id view) =? state_field_capacity)%nat eqn:E; [done|]. intros H.
  apply field_index_In in E. apply rbind_Ok in H as ([i l1] & He & H). fold (request_limit profile action) in He.
  pose proof (entry_of_spec _ _ _ _ _ Hl E He) as Hl1. revert H.
  test_goal E1; [intros [= <- _]; by keep_entries|]. test_goal E2; [intros [= <- _]; by keep_entries|].
  test_goal E3; [|intros [= <- _]; by keep_entries]. intros H. apply rbind_Ok in H as (v & _ & [= <- _]). by keep_entries.
Qed.

Lemma request_views_ok profile action views : forall l q l' q', entries_ok (request_limit profile action) l ->
  request_views profile action l q views = Ok (l', q') -> entries_ok (request_limit profile action) l'.
Proof.
  induction views as [|view views IH]; intros l q l' q' Hl; cbn; [by intros [= <- _]|].
  intros H. apply rbind_Ok in H as ([l1 q1] & H1 & H). apply (IH _ _ _ _ (request_view_ok _ _ _ _ _ _ _ Hl H1) H).
Qed.

(** The well-formed requests. *)
Definition request_ok (profile : TxProfile.t) (r : Request) : Prop := entries_ok (request_limit profile (cm_action (rq_cam r))) (rq_fields r).

Lemma request_from_ok packet profile r : request_from packet profile = Ok r ->
  request_ok profile r /\ cam_parse (ev_envelope (pv_envelope packet)) profile = Ok (rq_cam r) /\ rq_envelope r = ev_envelope (pv_envelope packet).
Proof.
  unfold request_from. intros H. apply rbind_Ok in H as (c & Hc & H). destruct (_ && sdr_envelope_refused _); [done|].
  apply rbind_Ok in H as ([l q] & Hl & H). destruct (_ && (length l =? 0)%nat); [done|]. injection H as <-. cbn. split_and!; [|done|done].
  apply request_views_ok in Hl; [|split_and!; [cbn; lia|apply NoDup_nil_2|done]]. unfold request_ok. cbn. destruct q; [|done].
  destruct Hl as (H1 & H2 & H3). split_and!; [by rewrite length_fmap|by rewrite <- list_fmap_compose|by rewrite Forall_fmap].
Qed.

Lemma request_ok_count profile r : request_ok profile r -> (rq_count r <= 5)%nat /\ (cm_action (rq_cam r) <> 0 -> (rq_count r <= 4)%nat).
Proof.
  intros (H & _). unfold request_limit in H. unfold rq_count. split; [destruct (_ && _); lia|].
  intros Hn%Z.eqb_neq. by rewrite Hn, andb_false_r in H.
Qed.

(** ** Plans stay well formed *)

(** The same fields, fewer of them eligible. *)
Definition weaker (f f' : PlannedField) : Prop := same_field f' f /\ (pl_eligible f' = true -> pl_eligible f = true).
#[global] Instance weaker_preorder : PreOrder weaker.
Proof.
  split; [done|]. intros f g h [H1 H2] [H3 H4]. split; [|by auto]. by rewrite H3.
Qed.
Definition shrinks : list PlannedField -> list PlannedField -> Prop := Forall2 weaker.
#[global] Instance shrinks_preorder : PreOrder shrinks.
Proof. unfold shrinks. apply _. Qed.

Lemma shrinks_map g l : (forall f, weaker f (g f)) -> shrinks l (g <$> l).
Proof. intros H. apply Forall2_fmap_r, Forall2_same_length_lookup. split; [done|]. intros; simplify_eq. apply H. Qed.
Lemma shrinks_alter g l i : (forall f, weaker f (g f)) -> shrinks l (alter g i l).
Proof.
  intros H. apply Forall2_same_length_lookup. split; [by rewrite length_alter|]. intros j x y Hx Hy. rewrite list_lookup_alter in Hy.
  destruct (decide (i = j)) as [<-|]; rewrite Hx in Hy; simplify_eq/=; [apply H|done].
Qed.
Lemma weaker_deny e f : weaker f (deny e f).
Proof. done. Qed.

Lemma propagate_at_shrinks e s i : shrinks s.1 (propagate_at e s i).1.
Proof.
  destruct s as [l a]. unfold propagate_at. destruct (l !! i) as [f|] eqn:E; [|done]. cbn.
  replace (<[i := _]> l) with (alter (fun f => if blocked l f then deny e f else f) i l).
  - apply shrinks_alter. intros g. case_match; [apply weaker_deny|done].
  - apply list_eq. intros j. rewrite list_lookup_alter. destruct (decide (i = j)) as [<-|]; [|by rewrite list_lookup_insert_ne].
    rewrite E, list_lookup_insert_eq by (by eapply lookup_lt_Some). done.
Qed.
Lemma propagate_shrinks e order l : shrinks l (propagate e order l).1.
Proof.
  unfold propagate. change l with (l, true).1 at 1. generalize (take (length l) order), (l, true). intros o.
  induction o as [|i o IH]; intros s; cbn; [done|]. by rewrite (propagate_at_shrinks e s i).
Qed.

Record plan_ok (profile : TxProfile.t) (r : Request) (p : ExecutionPlan) : Prop := mk_plan_ok {
  po_ids : pl_id <$> ep_fields p = rf_id <$> rq_fields r;
  po_length : length (ep_order p) = 5%nat;
  po_order : Forall (fun i => (i < rq_count r)%nat \/ rq_count r = 0%nat) (ep_order p);
  po_values : cm_action (rq_cam r) <> 0 -> Forall (fun f => pl_eligible f = true -> native_ok profile (pl_id f) (pl_adjusted f) = true) (ep_fields p)
}.

Lemma plan_ok_count profile r p : plan_ok profile r p -> ep_count p = rq_count r.
Proof. intros [H _ _ _]. apply (f_equal length) in H. by rewrite !length_fmap in H. Qed.

Lemma shrinks_ids l l' : shrinks l l' -> pl_id <$> l' = pl_id <$> l.
Proof. induction 1 as [|f f' l l' [[H _] _] _ IH]; cbn; [done|]. by f_equal. Qed.

Lemma shrinks_values (P : FieldId -> SemanticValue -> Prop) l l' : shrinks l l' ->
  Forall (fun f => pl_eligible f = true -> P (pl_id f) (pl_adjusted f)) l -> Forall (fun f => pl_eligible f = true -> P (pl_id f) (pl_adjusted f)) l'.
Proof.
  induction 1 as [|f f' l l' [(E1 & _ & E3) He] _ IH]; [done|]. rewrite !list.Forall_cons. intros [H1 H2]. split; [|by apply IH].
  intros H. rewrite E1, E3. auto.
Qed.

(** Any change of the plan that only weakens its fields, with another order of fields or
    another boundary. *)
Lemma plan_ok_shrinks profile r p p' : plan_ok profile r p -> shrinks (ep_fields p) (ep_fields p') -> ep_order p' = ep_order p -> plan_ok profile r p'.
Proof.
  intros [H1 H2 H3 H4] Hs Ho. split; rewrite ?Ho; [by rewrite (shrinks_ids _ _ Hs)|done|done|]. intros Ha. by apply (shrinks_values (fun i v => native_ok profile i v = true) _ _ Hs), H4.
Qed.
Lemma plan_ok_map profile r p g : plan_ok profile r p -> (forall f, weaker f (g f)) -> plan_ok profile r (map_fields g p).
Proof. intros H Hg. eapply plan_ok_shrinks; [done|by apply shrinks_map|done]. Qed.

Lemma order_loop_bound l remaining : forall n visited order b order', (n + remaining <= length order)%nat ->
  Forall (fun i => (i < length l)%nat \/ length l = 0%nat) order -> order_loop remaining n l visited order = (b, order') ->
  length order' = length order /\ Forall (fun i => (i < length l)%nat \/ length l = 0%nat) order'.
Proof.
  induction remaining as [|k IH]; intros n visited order b order' Hn Ho; cbn; [by intros [= _ <-]|].
  destruct (first_ready visited 0 l) as [i|] eqn:E; [|by intros [= _ <-]]. intros H.
  apply first_ready_Some in E as (f & Hf%lookup_lt_Some & _). rewrite Nat.sub_0_r in Hf.
  apply IH in H; [|rewrite length_insert; lia|apply Forall_insert; [done|by left]]. by rewrite length_insert in H.
Qed.

Lemma validate_plan_ok profile capabilities validate backend_plan has_commit r plan time_known data_running armed state :
  (rq_count r <= 5)%nat -> length (ep_order plan) = 5%nat -> Forall (fun i => (i < rq_count r)%nat \/ rq_count r = 0%nat) (ep_order plan) ->
  plan_ok profile r (validate_plan profile capabilities validate backend_plan has_commit r plan time_known data_running armed state).2.
Proof.
  intros Hc Hl Ho. set (l := plan_field profile capabilities validate has_commit r time_known data_running armed state <$> rq_fields r).
  assert (Hlen : length l = rq_count r) by apply length_fmap.
  destruct (order_loop (length l) 0 l 0 (ep_order plan)) as [ok order] eqn:Eo.
  destruct (propagate diag_dependency_blocked order l) as [fields all] eqn:Ep.
  destruct (order_loop_bound l (length l) 0 0 (ep_order plan) ok order) as [Hlo Hbo]; [lia|by rewrite Hlen|done|]. rewrite Hlen in Hbo.
  rewrite (validate_plan_cases _ _ _ _ _ _ _ _ _ _ plan order ok fields all Eo Ep).
  assert (Hinit : plan_ok profile r (mkExecution l order (st_version state) (ep_operation plan) (ep_association_generation plan) (ep_boundary plan))).
  { split; cbn; [|lia|done|].
    - unfold l. rewrite <- list_fmap_compose. apply list_fmap_ext. intros i f _. apply plan_field_spec. lia.
    - intros Ha. apply Forall_fmap, list.Forall_forall. intros f _. unfold compose. destruct (plan_field_spec profile capabilities validate has_commit r time_known data_running armed state f) as (_ & He & Hid & _ & Hv); [lia|].
      rewrite He, Hid, Hv. unfold passes, eligible. rewrite !andb_true_iff. intros [[[Hr _] _] _]. by apply validated_value. }
  destruct ok; cbn [snd]; [|done]. eapply plan_ok_shrinks; [exact Hinit| |done]. cbn.
  transitivity fields; [pose proof (propagate_shrinks diag_dependency_blocked order l) as Hpr; by rewrite Ep in Hpr|]. apply shrinks_map. intros f. split; [apply finished_same|].
  intros H%finished_eligible. tauto.
Qed.

Lemma check_rates_shrinks timeline running boundary l : Forall (fun f => pl_eligible f = true -> pl_id f = Field.SampleRate -> exists q, pl_adjusted f = v_hertz q) l ->
  exists l', check_rates timeline running boundary l = Ok l' /\ shrinks l l'.
Proof.
  induction l as [|f l IH]; cbn; [intros; by exists []|]. rewrite list.Forall_cons. intros [Hf (l' & El & Hs)%IH].
  destruct (negb (pl_eligible f) || negb (fid_eqb (pl_id f) Field.SampleRate)) eqn:E; cbn.
  - rewrite El. cbn. exists (f :: l'). split; [done|]. by constructor.
  - rewrite orb_false_iff, !negb_false_iff in E. destruct E as [He Hid%fid_eqb_eq]. destruct (Hf He Hid) as [q Hq]. rewrite Hq. cbn. rewrite El. cbn.
    eexists. split; [done|]. constructor; [|done]. case_match; [done|apply weaker_deny].
Qed.

Lemma validate_boundary_ok profile timeline r running p : plan_ok profile r p ->
  exists p', validate_boundary_state profile timeline r running p = Ok p' /\ plan_ok profile r p' /\
    shrinks (ep_fields p) (ep_fields p') /\ ep_boundary p' = ep_boundary p.
Proof.
  intros Hp. unfold validate_boundary_state. destruct timeline as [t|]; [|by exists p]. destruct (Z.eqb_spec (cm_action (rq_cam r)) 0) as [|Ha]; [by exists p|].
  destruct (check_rates_shrinks t running (ep_boundary p) (ep_fields p)) as (l & -> & Hl).
  { pose proof (po_values _ _ _ Hp Ha) as Hv. rewrite list.Forall_forall in Hv |- *. intros f Hf He Hid. specialize (Hv f Hf He).
    rewrite Hid in Hv. by apply native_rate in Hv. }
  cbn. pose proof (propagate_shrinks (Z.lor diag_dependency_blocked diag_not_executed) (ep_order p) l) as Hpr.
  destruct (propagate _ _ l) as [l' all]. cbn in Hpr. eexists. split; [done|].
  assert (Hs : shrinks (ep_fields p) l') by (by transitivity l).
  destruct (_ && _); cbn; (split_and!; [|  |done]).
  - eapply plan_ok_shrinks; [done| |done]. cbn. etransitivity; [done|]. by apply shrinks_map.
  - etransitivity; [done|]. by apply shrinks_map.
  - by eapply plan_ok_shrinks.
  - done.
Qed.

(** The action of a parsed command is a query, a simulation or a control. *)
Lemma cam_parse_action e profile c : cam_parse e profile = Ok c -> 0 <= cm_action c <= 2.
Proof.
  unfold cam_parse. destruct (_ || _); [done|]. intros H. apply rbind_Ok in H as ([] & Hv & H). apply rbind_Ok in H as (cmd & Hc & H).
  destruct (_ && negb (cm_request_x _)); [done|]. injection H as <-. unfold validate_cam in Hv. rewrite Hc in Hv. cbn [rbind] in Hv.
  destruct (nonzero _); [done|]. destruct (Z.eqb_spec (Z.land (Z.shiftr (cam cmd) 23) 3) 3) as [|Hne]; [done|]. cbn.
  change 3 with (2 ^ 2 - 1) in *. rewrite land_mask in * by lia. change (2 ^ 2) with 4 in *. zlia.
Qed.

Lemma cam_parse_safe e profile : safe (cam_parse e profile).
Proof.
  unfold cam_parse. destruct (command e) as [c|] eqn:Ec; cbn [is_none]; [|by rewrite orb_true_r].
  destruct (_ || _); [done|]. apply rbind_safe; [apply validate_cam_safe; by rewrite Ec|]. intros _ _. cbn [deref rbind]. by destruct (_ && _).
Qed.

Lemma request_views_safe profile action views : Forall view_ok views -> forall l q, safe (request_views profile action l q views).
Proof.
  induction views as [|view views IH]; intros Hv l q; cbn; [done|]. apply list.Forall_cons in Hv as [Hv Hvs].
  apply rbind_safe; [|intros [l1 q1] _; by apply IH]. unfold request_view. destruct (field_index (fv_id view) =? state_field_capacity)%nat eqn:E; [done|].
  apply field_index_In in E. apply rbind_safe.
  - unfold entry_of. destruct (find_entry l _); [done|]. destruct (_ =? _)%nat; [done|]. destruct (placeholder_safe _ E) as [v ->]. done.
  - intros [i l1] _. repeat (destruct (_ && _) || destruct (_ || _) || destruct (bool_decide _)); try done.
    all: apply rbind_safe; [by apply view_accessors_safe|done].
Qed.

Lemma request_from_safe packet profile : Forall view_ok (pv_fields packet) -> safe (request_from packet profile).
Proof.
  intros Hv. unfold request_from. apply rbind_safe; [apply cam_parse_safe|]. intros c _. destruct (_ && sdr_envelope_refused _); [done|].
  apply rbind_safe; [by apply request_views_safe|]. intros [l q] _. by destruct (_ && _).
Qed.

(** ** Plans of accepted packets *)

Section claims.
Context (profile : TxProfile.t) (capabilities : option SdrCapabilities).
Context (validate : option (FieldId -> SemanticValue -> StateSnapshot -> Validation)) (backend_plan : option (ExecutionPlan -> StateSnapshot -> Result unit)) (has_commit : bool).
Context (packet : PacketView) (r : Request) (plan : ExecutionPlan) (time_known data_running armed : bool) (state : StateSnapshot).
Hypothesis parsed : request_from packet profile = Ok r.
Hypothesis storage : length (ep_order plan) = 5%nat.

#[local] Abbreviation needs := (request_depends profile capabilities validate has_commit r data_running armed state).

(** C18. The command of a packet gets a plan exactly when the dependencies that the backend
    reports have no cycle; otherwise it is refused as invalid.  The plan has the fields of the
    request, and its order holds each of them once, after everything it depends on. *)
Theorem plan_order_exact :
  pl_id <$> ep_fields (validate_plan profile capabilities validate backend_plan has_commit r plan time_known data_running armed state).2 = rf_id <$> rq_fields r /\
  ((validate_plan profile capabilities validate backend_plan has_commit r plan time_known data_running armed state).1 = Ok tt <-> exists rank : nat -> nat, forall i d, needs i d -> (rank d < rank i)%nat) /\
  ((validate_plan profile capabilities validate backend_plan has_commit r plan time_known data_running armed state).1 <> Ok tt -> (validate_plan profile capabilities validate backend_plan has_commit r plan time_known data_running armed state).1 = Err (error1 ErrorCode.invalid_argument)) /\
  ((validate_plan profile capabilities validate backend_plan has_commit r plan time_known data_running armed state).1 = Ok tt -> let order := take (rq_count r) (ep_order (validate_plan profile capabilities validate backend_plan has_commit r plan time_known data_running armed state).2) in
     order ≡ₚ seq 0 (rq_count r) /\ forall k i d, order !! k = Some i -> needs i d -> d ∈ take k order).
Proof.
  apply request_from_ok in parsed as (Hr & _). apply request_ok_count in Hr as [Hc _].
  pose proof (plan_order_facts profile capabilities validate backend_plan has_commit r time_known data_running armed state plan Hc storage) as H.
  destruct (validate_plan _ _ _ _ _ _ _ _ _ _ _) as [res p]. destruct H as ([-> | ->] & _ & Hid & Hac & Htop); by split_and!.
Qed.

(** A field of the plan is eligible exactly when it and all it depends on pass validation,
    the backend approves the plan, and, where the command is all or nothing, every field of
    it can be executed.  A field that is not eligible is reported as not executed. *)
Theorem plan_eligibility_exact p : validate_plan profile capabilities validate backend_plan has_commit r plan time_known data_running armed state = (Ok tt, p) ->
  let can := executable profile capabilities validate has_commit r data_running armed state in
  exists approval : bool, (backend_plan = None -> approval = true) /\
    forall i f, ep_fields p !! i = Some f ->
      (pl_eligible f = true <-> can i /\ approval = true /\
        (all_or_nothing profile (rq_cam r) = true -> forall j, (j < rq_count r)%nat -> can j)) /\
      (pl_eligible f = false -> bit_set (errors (pl_diagnostics f)) 31 = true \/ bit_set (warnings (pl_diagnostics f)) 31 = true).
Proof.
  intros Hp. apply request_from_ok in parsed as (Hr & _). apply request_ok_count in Hr as [Hc _].
  destruct (plan_eligibility_facts profile capabilities validate backend_plan has_commit r time_known data_running armed state plan p Hc storage Hp) as (q & _ & _ & _ & H).
  eexists. split; [|exact H]. unfold approved. by intros ->.
Qed.

(** What a plan lets through to the device is valid: the adjusted value of an eligible
    field of a command that acts passes the validation of its field, and of the profile of
    the engine. *)
Theorem planned_values_valid i f : cm_action (rq_cam r) <> 0 -> Forall (fun k => (k < rq_count r)%nat \/ rq_count r = 0%nat) (ep_order plan) ->
  ep_fields (validate_plan profile capabilities validate backend_plan has_commit r plan time_known data_running armed state).2 !! i = Some f -> pl_eligible f = true ->
  validate_value (pl_id f) (pl_adjusted f) true = Ok tt /\
  (profile = TxProfile.iq_frequency_tunable -> vl_resolvable (tunable_validate (pl_id f) (pl_adjusted f)) = true) /\
  (profile = TxProfile.sdr_radio -> vl_resolvable (sdr_validate (pl_id f) (pl_adjusted f)) = true).
Proof.
  intros Ha Ho Hf He. apply request_from_ok in parsed as (Hr & _). apply request_ok_count in Hr as [Hc _].
  pose proof (validate_plan_ok profile capabilities validate backend_plan has_commit r plan time_known data_running armed state Hc storage Ho) as Hok.
  pose proof (Forall_lookup_1 _ _ _ _ (po_values _ _ _ Hok Ha) Hf He) as Hn. unfold native_ok in Hn. rewrite !andb_true_iff, !negb_true_iff in Hn. destruct Hn as [[H1 H2] H3].
  split_and!.
  - by destruct (validate_value _ _ _) as [[]| |].
  - intros ->. by apply negb_false_iff.
  - intros ->. by apply negb_false_iff.
Qed.
End claims.

(** A command that sets the reference point and the sample rate, where the backend wants the
    sample rate first. *)
Definition pair_packet : PacketView :=
  mkPacketView
    (mkEnvelopeView (mkEnvelope PacketType.command 0 (Some 7) None (mkTimestamp 0 0 0 0) false false false false false false
       (Some (mkCommand (Z.shiftl 2 23) 1 (Identifier_short_id 1) (Identifier_short_id 2)))) [] None 0 [])
    [mkView Field.ReferencePoint Attribute.current BodyKind.values DiagnosticGroup.none [Byte.x00; Byte.x00; Byte.x00; Byte.x05] (mkBinding 0 0 false);
     mkView Field.SampleRate Attribute.current BodyKind.values DiagnosticGroup.none
       [Byte.x00; Byte.x00; Byte.x01; Byte.x00; Byte.x00; Byte.x00; Byte.x00; Byte.x00] (mkBinding 0 0 false)]
    BodyKind.values false false false.
Definition pair_validate (id : FieldId) (v : SemanticValue) (_ : StateSnapshot) : Validation :=
  mkValidation v no_diagnostics true (if fid_eqb id Field.ReferencePoint then 2 else 0).
Definition pair_request : Request :=
  match request_from pair_packet TxProfile.generic_virtual_test with Ok r => r | _ => mkRequest (ev_envelope (pv_envelope pair_packet)) cam_default [] false end.
Definition pair_storage : ExecutionPlan := mkExecution [] (replicate 5 0%nat) 0 0 0 (mkBoundary (mkTime 0 0) 0 0 false false 0).
Definition pair_plan : Result unit * ExecutionPlan :=
  validate_plan TxProfile.generic_virtual_test None (Some pair_validate) None false pair_request pair_storage true false false state_default.
Definition pair_field : PlannedField :=
  default (mkPlanned Field.ReferencePoint (v_uint32 0) (v_uint32 0) 0 false no_diagnostics false false) (ep_fields pair_plan.2 !! 1%nat).

Lemma plan_order_exact_witness : take 2 (ep_order pair_plan.2) = [1%nat; 0%nat] /\ pl_id <$> ep_fields pair_plan.2 = rf_id <$> rq_fields pair_request.
Proof.
  split; [by vm_compute|]. apply (plan_order_exact TxProfile.generic_virtual_test None (Some pair_validate) None false pair_packet pair_request pair_storage true false false state_default); by vm_compute.
Defined.

Lemma plan_eligibility_exact_witness : pl_eligible pair_field = true /\
  exists approval : bool, (@None (ExecutionPlan -> StateSnapshot -> Result unit) = None -> approval = true).
Proof.
  split; [by vm_compute|].
  destruct (plan_eligibility_exact TxProfile.generic_virtual_test None (Some pair_validate) None false pair_packet pair_request pair_storage true false false state_default
    ltac:(by vm_compute) ltac:(by vm_compute) pair_plan.2 ltac:(by vm_compute)) as (a & H & _). by exists a.
Defined.

Lemma planned_values_valid_witness : validate_value (pl_id pair_field) (pl_adjusted pair_field) true = Ok tt.
Proof.
  apply (planned_values_valid TxProfile.generic_virtual_test None (Some pair_validate) None false pair_packet pair_request pair_storage true false false state_default
    ltac:(by vm_compute) ltac:(by vm_compute) 1 pair_field); [by vm_compute| |by vm_compute|by vm_compute].
  repeat constructor.
Defined.
