(* ===== verification/Engine.v ===== *)
(** * The transaction engine: [include/vita/runtime/transaction/engine.hpp]

    The engine of one stream accepts decoded commands into a fixed number of transaction
    slots, validates and schedules them, hands the fields of one transaction at a time to the
    backend, records the outcomes in the state and queues the acknowledgements.

    [Engine] is the state of the class: the slots, the storage shared with the backend, the
    admission pool, the contexts of the backend and of the effect sink, the timeline that the
    options point to, and the state of the device.  Each public function is a function of the
    engine; [UB] stands for an access outside an array, a null callback or an absent
    alternative.  The arrays of a slot have the lengths of the source, so that the reads of
    the model, which have a default outside the array, agree with those of the code. *)

From S2P Require Import Prelude Wire Fields Time Clock Timeline Scheduling Admission Ticket Structured Packet Routing FixedVector State Cam Sdr Observer Cancellation Backend Plan.

Record OperationContext := mkOperation {
  oc_operation : Z; oc_association_generation : Z; oc_monotonic : MonoTime; oc_clock : ClockSnapshot; oc_boundaries : list Boundary;
  oc_timing : TimingCapabilities; oc_data_running : bool }.
Record Handle := mkHandle { h_slot : nat; h_generation : Z }.
#[global] Instance Handle_eq_dec : EqDecision Handle.
Proof. solve_decision. Defined.

(** ** Slots *)

Record PlanningStorage := mkPlanning {
  ps_request : Request; ps_execution : ExecutionPlan;
  ps_outcomes : list FieldOutcome; ps_tokens : list CompletionToken; ps_ticket_operations : list Z;
  ps_timing : TimingCapabilities; ps_requested_time : ProtocolTime;
  ps_time_known : bool; ps_data_running : bool; ps_schedule_valid : bool; ps_cancelled : list bool;
  ps_revisions : option Z }.
Record TransactionRecord := mkTransaction {
  tr_active : bool; tr_complete : bool; tr_revalidated : bool; tr_running : bool;
  tr_generation : Z; tr_sequence : Z; tr_step : nat; tr_running_field : nat; tr_response_read : nat;
  tr_responses : list AckRecord; tr_hypothetical : StateSnapshot }.
Record TxSlot := mkTxSlot { ts_plan : PlanningStorage; ts_record : TransactionRecord; ts_credits : AdmissionBundle }.

Definition ps_set_execution (x : ExecutionPlan) (s : PlanningStorage) : PlanningStorage :=
  mkPlanning (ps_request s) x (ps_outcomes s) (ps_tokens s) (ps_ticket_operations s) (ps_timing s) (ps_requested_time s) (ps_time_known s) (ps_data_running s) (ps_schedule_valid s) (ps_cancelled s) (ps_revisions s).
Definition ps_set_outcomes (x : list FieldOutcome) (s : PlanningStorage) : PlanningStorage :=
  mkPlanning (ps_request s) (ps_execution s) x (ps_tokens s) (ps_ticket_operations s) (ps_timing s) (ps_requested_time s) (ps_time_known s) (ps_data_running s) (ps_schedule_valid s) (ps_cancelled s) (ps_revisions s).
Definition ps_set_tokens (x : list CompletionToken) (s : PlanningStorage) : PlanningStorage :=
  mkPlanning (ps_request s) (ps_execution s) (ps_outcomes s) x (ps_ticket_operations s) (ps_timing s) (ps_requested_time s) (ps_time_known s) (ps_data_running s) (ps_schedule_valid s) (ps_cancelled s) (ps_revisions s).
Definition ps_set_ticket_operations (x : list Z) (s : PlanningStorage) : PlanningStorage :=
  mkPlanning (ps_request s) (ps_execution s) (ps_outcomes s) (ps_tokens s) x (ps_timing s) (ps_requested_time s) (ps_time_known s) (ps_data_running s) (ps_schedule_valid s) (ps_cancelled s) (ps_revisions s).
Definition ps_set_data_running (x : bool) (s : PlanningStorage) : PlanningStorage :=
  mkPlanning (ps_request s) (ps_execution s) (ps_outcomes s) (ps_tokens s) (ps_ticket_operations s) (ps_timing s) (ps_requested_time s) (ps_time_known s) x (ps_schedule_valid s) (ps_cancelled s) (ps_revisions s).
Definition ps_set_schedule_valid (x : bool) (s : PlanningStorage) : PlanningStorage :=
  mkPlanning (ps_request s) (ps_execution s) (ps_outcomes s) (ps_tokens s) (ps_ticket_operations s) (ps_timing s) (ps_requested_time s) (ps_time_known s) (ps_data_running s) x (ps_cancelled s) (ps_revisions s).
Definition ps_set_cancelled (x : list bool) (s : PlanningStorage) : PlanningStorage :=
  mkPlanning (ps_request s) (ps_execution s) (ps_outcomes s) (ps_tokens s) (ps_ticket_operations s) (ps_timing s) (ps_requested_time s) (ps_time_known s) (ps_data_running s) (ps_schedule_valid s) x (ps_revisions s).
Definition ps_set_revisions (x : option Z) (s : PlanningStorage) : PlanningStorage :=
  mkPlanning (ps_request s) (ps_execution s) (ps_outcomes s) (ps_tokens s) (ps_ticket_operations s) (ps_timing s) (ps_requested_time s) (ps_time_known s) (ps_data_running s) (ps_schedule_valid s) (ps_cancelled s) x.
Definition tr_set_active (x : bool) (s : TransactionRecord) : TransactionRecord :=
  mkTransaction x (tr_complete s) (tr_revalidated s) (tr_running s) (tr_generation s) (tr_sequence s) (tr_step s) (tr_running_field s) (tr_response_read s) (tr_responses s) (tr_hypothetical s).
Definition tr_set_complete (x : bool) (s : TransactionRecord) : TransactionRecord :=
  mkTransaction (tr_active s) x (tr_revalidated s) (tr_running s) (tr_generation s) (tr_sequence s) (tr_step s) (tr_running_field s) (tr_response_read s) (tr_responses s) (tr_hypothetical s).
Definition tr_set_revalidated (x : bool) (s : TransactionRecord) : TransactionRecord :=
  mkTransaction (tr_active s) (tr_complete s) x (tr_running s) (tr_generation s) (tr_sequence s) (tr_step s) (tr_running_field s) (tr_response_read s) (tr_responses s) (tr_hypothetical s).
Definition tr_set_running (x : bool) (s : TransactionRecord) : TransactionRecord :=
  mkTransaction (tr_active s) (tr_complete s) (tr_revalidated s) x (tr_generation s) (tr_sequence s) (tr_step s) (tr_running_field s) (tr_response_read s) (tr_responses s) (tr_hypothetical s).
Definition tr_set_generation (x : Z) (s : TransactionRecord) : TransactionRecord :=
  mkTransaction (tr_active s) (tr_complete s) (tr_revalidated s) (tr_running s) x (tr_sequence s) (tr_step s) (tr_running_field s) (tr_response_read s) (tr_responses s) (tr_hypothetical s).
Definition tr_set_sequence (x : Z) (s : TransactionRecord) : TransactionRecord :=
  mkTransaction (tr_active s) (tr_complete s) (tr_revalidated s) (tr_running s) (tr_generation s) x (tr_step s) (tr_running_field s) (tr_response_read s) (tr_responses s) (tr_hypothetical s).
Definition tr_set_step (x : nat) (s : TransactionRecord) : TransactionRecord :=
  mkTransaction (tr_active s) (tr_complete s) (tr_revalidated s) (tr_running s) (tr_generation s) (tr_sequence s) x (tr_running_field s) (tr_response_read s) (tr_responses s) (tr_hypothetical s).
Definition tr_set_running_field (x : nat) (s : TransactionRecord) : TransactionRecord :=
  mkTransaction (tr_active s) (tr_complete s) (tr_revalidated s) (tr_running s) (tr_generation s) (tr_sequence s) (tr_step s) x (tr_response_read s) (tr_responses s) (tr_hypothetical s).
Definition tr_set_response_read (x : nat) (s : TransactionRecord) : TransactionRecord :=
  mkTransaction (tr_active s) (tr_complete s) (tr_revalidated s) (tr_running s) (tr_generation s) (tr_sequence s) (tr_step s) (tr_running_field s) x (tr_responses s) (tr_hypothetical s).
Definition tr_set_responses (x : list AckRecord) (s : TransactionRecord) : TransactionRecord :=
  mkTransaction (tr_active s) (tr_complete s) (tr_revalidated s) (tr_running s) (tr_generation s) (tr_sequence s) (tr_step s) (tr_running_field s) (tr_response_read s) x (tr_hypothetical s).
Definition tr_set_hypothetical (x : StateSnapshot) (s : TransactionRecord) : TransactionRecord :=
  mkTransaction (tr_active s) (tr_complete s) (tr_revalidated s) (tr_running s) (tr_generation s) (tr_sequence s) (tr_step s) (tr_running_field s) (tr_response_read s) (tr_responses s) x.

Definition on_plan (g : PlanningStorage -> PlanningStorage) (t : TxSlot) : TxSlot := mkTxSlot (g (ts_plan t)) (ts_record t) (ts_credits t).
Definition on_record (g : TransactionRecord -> TransactionRecord) (t : TxSlot) : TxSlot := mkTxSlot (ts_plan t) (g (ts_record t)) (ts_credits t).
Definition ts_set_credits (c : AdmissionBundle) (t : TxSlot) : TxSlot := mkTxSlot (ts_plan t) (ts_record t) c.
Definition on_execution (g : ExecutionPlan -> ExecutionPlan) (t : TxSlot) : TxSlot := on_plan (fun p => ps_set_execution (g (ps_execution p)) p) t.

(** Abbreviations of the paths of the source. *)
Abbreviation request_of t := (ps_request (ts_plan t)).
Abbreviation cam_of_slot t := (rq_cam (ps_request (ts_plan t))).
Abbreviation execution t := (ps_execution (ts_plan t)).
Abbreviation fields_of t := (ep_fields (ps_execution (ts_plan t))).
Abbreviation count_of t := (length (ep_fields (ps_execution (ts_plan t)))).
Definition outcome_at (t : TxSlot) (i : nat) : FieldOutcome := default outcome_default (ps_outcomes (ts_plan t) !! i).
Definition cancelled_at (t : TxSlot) (i : nat) : bool := default false (ps_cancelled (ts_plan t) !! i).

Definition boundary_default : Boundary := mkBoundary (mkTime 0 0) 0 0 false false 0.
Definition execution_default : ExecutionPlan := mkExecution [] (replicate 5 0%nat) 0 0 0 boundary_default.
Definition token_none : CompletionToken := mkToken 0 0 false.
Definition request_default : Request :=
  mkRequest (mkEnvelope PacketType.signal 0 None None (mkTimestamp 0 0 0 0) false false false false false false None) cam_default [] false.
Definition capabilities_none : TimingCapabilities := mkCapabilities 0 0 0 0 0 0 false false.
Definition plan_default : PlanningStorage :=
  mkPlanning request_default execution_default (replicate 5 outcome_default) (replicate 4 token_none) (replicate 4 0)
    capabilities_none (mkTime 0 0) false false true (replicate 5 false) None.

(** ** Options and state *)

(** The sink of effective events, which keeps the revisions.  The pool it returns credits to
    is the one of the engine; [es_release] is the callback of the reservation it hands out. *)
Record EffectSink (E : Type) := mkSink {
  es_reserve : option (E -> AdmissionState -> nat -> Result Z * E * AdmissionState);
  es_record : option (E -> AdmissionState -> EffectiveEvent -> Z -> AdmissionBundle -> E * AdmissionState);
  es_release : E -> AdmissionState -> Z -> E * AdmissionState }.
Arguments mkSink {E}.
Arguments es_reserve {E}.
Arguments es_record {E}.
Arguments es_release {E}.

Record EngineOptions (E : Type) := mkEngineOptions {
  op_profile : TxProfile.t; op_effects : EffectSink E; op_external_retention : bool;
  op_observe : option (StateSnapshot -> OperationContext -> StateSnapshot); op_trace_valid : bool;
  op_sdr_capabilities : option (nat * SdrCapabilities) }.
Arguments mkEngineOptions {E}.
Arguments op_profile {E}.
Arguments op_effects {E}.
Arguments op_external_retention {E}.
Arguments op_observe {E}.
Arguments op_trace_valid {E}.
Arguments op_sdr_capabilities {E}.

Record Engine (B E : Type) := mkEngine {
  en_slots : list TxSlot; en_shared : Completions; en_admission : AdmissionState;
  en_backend : B; en_sink : E; en_timeline : option SampleTimeline;
  en_state : StateSnapshot; en_next_ticket_operation : Z; en_next_sequence : Z; en_association_generation : Z;
  en_effect_owner : option nat; en_faulted : bool; en_quiescing : bool; en_progressing : bool }.
Arguments mkEngine {B E}.
Arguments en_slots {B E}.
Arguments en_shared {B E}.
Arguments en_admission {B E}.
Arguments en_backend {B E}.
Arguments en_sink {B E}.
Arguments en_timeline {B E}.
Arguments en_state {B E}.
Arguments en_next_ticket_operation {B E}.
Arguments en_next_sequence {B E}.
Arguments en_association_generation {B E}.
Arguments en_effect_owner {B E}.
Arguments en_faulted {B E}.
Arguments en_quiescing {B E}.
Arguments en_progressing {B E}.

Section setters.
Context {B E : Type}.
Definition en_set_slots (x : list TxSlot) (s : Engine B E) : Engine B E :=
  mkEngine x (en_shared s) (en_admission s) (en_backend s) (en_sink s) (en_timeline s) (en_state s) (en_next_ticket_operation s) (en_next_sequence s) (en_association_generation s) (en_effect_owner s) (en_faulted s) (en_quiescing s) (en_progressing s).
Definition en_set_shared (x : Completions) (s : Engine B E) : Engine B E :=
  mkEngine (en_slots s) x (en_admission s) (en_backend s) (en_sink s) (en_timeline s) (en_state s) (en_next_ticket_operation s) (en_next_sequence s) (en_association_generation s) (en_effect_owner s) (en_faulted s) (en_quiescing s) (en_progressing s).
Definition en_set_admission (x : AdmissionState) (s : Engine B E) : Engine B E :=
  mkEngine (en_slots s) (en_shared s) x (en_backend s) (en_sink s) (en_timeline s) (en_state s) (en_next_ticket_operation s) (en_next_sequence s) (en_association_generation s) (en_effect_owner s) (en_faulted s) (en_quiescing s) (en_progressing s).
Definition en_set_backend (x : B) (s : Engine B E) : Engine B E :=
  mkEngine (en_slots s) (en_shared s) (en_admission s) x (en_sink s) (en_timeline s) (en_state s) (en_next_ticket_operation s) (en_next_sequence s) (en_association_generation s) (en_effect_owner s) (en_faulted s) (en_quiescing s) (en_progressing s).
Definition en_set_sink (x : E) (s : Engine B E) : Engine B E :=
  mkEngine (en_slots s) (en_shared s) (en_admission s) (en_backend s) x (en_timeline s) (en_state s) (en_next_ticket_operation s) (en_next_sequence s) (en_association_generation s) (en_effect_owner s) (en_faulted s) (en_quiescing s) (en_progressing s).
Definition en_set_timeline (x : option SampleTimeline) (s : Engine B E) : Engine B E :=
  mkEngine (en_slots s) (en_shared s) (en_admission s) (en_backend s) (en_sink s) x (en_state s) (en_next_ticket_operation s) (en_next_sequence s) (en_association_generation s) (en_effect_owner s) (en_faulted s) (en_quiescing s) (en_progressing s).
Definition en_set_state (x : StateSnapshot) (s : Engine B E) : Engine B E :=
  mkEngine (en_slots s) (en_shared s) (en_admission s) (en_backend s) (en_sink s) (en_timeline s) x (en_next_ticket_operation s) (en_next_sequence s) (en_association_generation s) (en_effect_owner s) (en_faulted s) (en_quiescing s) (en_progressing s).
Definition en_set_next_ticket_operation (x : Z) (s : Engine B E) : Engine B E :=
  mkEngine (en_slots s) (en_shared s) (en_admission s) (en_backend s) (en_sink s) (en_timeline s) (en_state s) x (en_next_sequence s) (en_association_generation s) (en_effect_owner s) (en_faulted s) (en_quiescing s) (en_progressing s).
Definition en_set_next_sequence (x : Z) (s : Engine B E) : Engine B E :=
  mkEngine (en_slots s) (en_shared s) (en_admission s) (en_backend s) (en_sink s) (en_timeline s) (en_state s) (en_next_ticket_operation s) x (en_association_generation s) (en_effect_owner s) (en_faulted s) (en_quiescing s) (en_progressing s).
Definition en_set_association_generation (x : Z) (s : Engine B E) : Engine B E :=
  mkEngine (en_slots s) (en_shared s) (en_admission s) (en_backend s) (en_sink s) (en_timeline s) (en_state s) (en_next_ticket_operation s) (en_next_sequence s) x (en_effect_owner s) (en_faulted s) (en_quiescing s) (en_progressing s).
Definition en_set_effect_owner (x : option nat) (s : Engine B E) : Engine B E :=
  mkEngine (en_slots s) (en_shared s) (en_admission s) (en_backend s) (en_sink s) (en_timeline s) (en_state s) (en_next_ticket_operation s) (en_next_sequence s) (en_association_generation s) x (en_faulted s) (en_quiescing s) (en_progressing s).
Definition en_set_faulted (x : bool) (s : Engine B E) : Engine B E :=
  mkEngine (en_slots s) (en_shared s) (en_admission s) (en_backend s) (en_sink s) (en_timeline s) (en_state s) (en_next_ticket_operation s) (en_next_sequence s) (en_association_generation s) (en_effect_owner s) x (en_quiescing s) (en_progressing s).
Definition en_set_quiescing (x : bool) (s : Engine B E) : Engine B E :=
  mkEngine (en_slots s) (en_shared s) (en_admission s) (en_backend s) (en_sink s) (en_timeline s) (en_state s) (en_next_ticket_operation s) (en_next_sequence s) (en_association_generation s) (en_effect_owner s) (en_faulted s) x (en_progressing s).
Definition en_set_progressing (x : bool) (s : Engine B E) : Engine B E :=
  mkEngine (en_slots s) (en_shared s) (en_admission s) (en_backend s) (en_sink s) (en_timeline s) (en_state s) (en_next_ticket_operation s) (en_next_sequence s) (en_association_generation s) (en_effect_owner s) (en_faulted s) (en_quiescing s) x.
End setters.

Section engine.
Context {B E : Type} (backend : Backend B) (options : EngineOptions E) (plan_size : Z).
#[local] Abbreviation Engine := (Engine B E).
#[local] Abbreviation profile := (op_profile options).
#[local] Abbreviation capabilities := (snd <$> op_sdr_capabilities options).

Definition set_slot_at (i : nat) (t : TxSlot) (s : Engine) : Engine := en_set_slots (<[i := t]> (en_slots s)) s.

(** ** Contradicted cancellations *)

(** A late effect of a cancelled field: the field of the state is no longer known. *)
Definition observe_fault (s : Engine) (i : nat) : Engine :=
  match co_results (en_shared s) !! i with
  | None => s
  | Some r =>
      let g := rs_guard r in
      if negb (gd_cancelled g) then s else
      let s := en_set_shared (update_result (update_guard (guard_contradiction false)) i (en_shared s)) s in
      if negb (gd_contradiction g) || negb (gd_association_generation g =? en_association_generation s) then s else
      let s := en_set_faulted true s in
      let field := field_index (gd_field g) in
      match st_fields (en_state s) !! field with
      | Some f =>
          if fs_validity f =? Validity.unknown then s else
          let version := st_version (en_state s) in
          en_set_state (mkState (if version =? U64_MAX then version else version + 1)
                          (<[field := mkFieldState (fs_id f) (fs_value f) Validity.unknown]> (st_fields (en_state s)))
                          (st_profile (en_state s))) s
      | None => s
      end
  end.
Definition observe_backend_faults (s : Engine) : Engine := foldl observe_fault s (seq 0 (length (co_results (en_shared s)))).

(** ** Validation against the engine *)

Definition is_discrete (r : Request) (v : Z) : bool :=
  match rq_fields r with
  | [f] => fid_eqb (rf_id f) Field.DiscreteIO32 && bool_decide (rf_value f = v_uint32 v)
  | _ => false
  end.

(** A start waits in the slot. *)
Definition armed_start (t : TxSlot) : bool :=
  tr_active (ts_record t) && negb (tr_complete (ts_record t)) && (cm_action (cam_of_slot t) =? 2) && is_discrete (request_of t) 3 &&
  eligible_at (fields_of t) 0 && negb (cancelled_at t 0).
Definition armed_elsewhere (s : Engine) (index : nat) : bool :=
  existsb (fun p => negb (p.1 =? index)%nat && armed_start p.2) (imap pair (en_slots s)).

Definition plan_validate (s : Engine) (index : nat) (t : TxSlot) (state : StateSnapshot) : Result unit * TxSlot :=
  let p := ts_plan t in
  let '(res, plan) := validate_plan profile capabilities ((fun f => f (en_backend s)) <$> be_validate backend)
                        ((fun f => f (en_backend s)) <$> be_validate_plan backend) (is_some (be_commit backend))
                        (ps_request p) (ps_execution p) (ps_time_known p) (ps_data_running p) (armed_elsewhere s index) state in
  (res, on_execution (fun _ => plan) t).

Definition boundary_validate (s : Engine) (t : TxSlot) : Result TxSlot :=
  let p := ts_plan t in
  let? plan := validate_boundary_state profile (en_timeline s) (ps_request p) (ps_data_running p) (ps_execution p) in
  Ok (on_execution (fun _ => plan) t).

(** ** Acknowledgements *)

Record AckTally := mkTally {
  ta_diagnostics : list Diagnostics; ta_mask : Z; ta_successful : nat; ta_timing_failure : bool; ta_time : option ProtocolTime }.

Definition timing_failed (d : Diagnostics) : bool := nonzero (Z.land (errors d) diag_timing_error).
Definition later_time (t : option ProtocolTime) (o : FieldOutcome) : option ProtocolTime :=
  if fo_time_known o && match t with Some t => time_ltb t (fo_actual_time o) | None => true end then Some (fo_actual_time o) else t.

(** One field of the plan with its outcome and its request entry. *)
Definition tally (kind : AckKind.t) (query : bool) (observed : StateSnapshot) (a : AckTally) (e : PlannedField * (FieldOutcome * RequestField))
    : AckTally :=
  let '(field, (outcome, entry)) := e in
  let index := field_index (pl_id field) in
  match kind with
  | AckKind.validation =>
      mkTally (<[index := pl_diagnostics field]> (ta_diagnostics a)) (ta_mask a) (if pl_eligible field then S (ta_successful a) else ta_successful a)
        (ta_timing_failure a || timing_failed (pl_diagnostics field)) (ta_time a)
  | AckKind.execution =>
      mkTally (<[index := fo_diagnostics outcome]> (ta_diagnostics a)) (ta_mask a)
        (if is_status outcome FieldStatus.executed then S (ta_successful a) else ta_successful a)
        (ta_timing_failure a || timing_failed (fo_diagnostics outcome)) (later_time (ta_time a) outcome)
  | AckKind.state =>
      if negb (rf_unsupported entry) && (query || state_known observed index)
      then mkTally (ta_diagnostics a) (wrap8 (Z.lor (ta_mask a) (Z.shiftl 1 (Z.of_nat index)))) (S (ta_successful a)) (ta_timing_failure a) (ta_time a)
      else a
  end.

Definition clock_readable (c : ClockSnapshot) : bool :=
  bool_decide (snap_state c = ClockState.locked) || bool_decide (snap_state c = ClockState.holdover).

Definition make_ack (t : TxSlot) (kind : AckKind.t) (observed : StateSnapshot) (now : OperationContext) : AckRecord :=
  let r := request_of t in
  let query := rq_capability_query r in
  let count := count_of t in
  let a := foldl (tally kind query observed) (mkTally (replicate state_field_capacity no_diagnostics) 0 0 false None)
             (zip (fields_of t) (zip (ps_outcomes (ts_plan t)) (rq_fields r))) in
  let kind_is k := bool_decide (kind = k) in
  let all := (ta_successful a =? count)%nat && negb (ta_timing_failure a) in
  let empty := kind_is AckKind.execution && ((cm_action (rq_cam r) =? 0) || (count =? 0)%nat) in
  let scheduled := if kind_is AckKind.state then negb (ta_successful a =? 0)%nat else all in
  let time := ta_time a in
  let time := if kind_is AckKind.validation && ps_time_known (ts_plan t) && negb (ta_timing_failure a) && ps_schedule_valid (ts_plan t)
              then Some (b_time (ep_boundary (execution t))) else time in
  let time := if kind_is AckKind.state && clock_readable (oc_clock now) then Some (snap_time (oc_clock now)) else time in
  let time := if is_profile profile sdr && is_none time && clock_readable (oc_clock now) then Some (snap_time (oc_clock now)) else time in
  mkAck (rq_envelope r) (rq_cam r) kind (ta_diagnostics a)
    (match op_observe options with Some f => if kind_is AckKind.state then f observed now else observed | None => observed end)
    (ta_mask a) (negb empty && negb all) (negb empty && scheduled) (cm_action (rq_cam r) =? 1) (is_some time)
    (if ta_timing_failure a then 7 else cm_timing (rq_cam r)) (default (mkTime 0 0) time) (ack_epoch (snap_epoch (oc_clock now))) false
    (if kind_is AckKind.state && nonzero (ta_mask a) && query then fst <$> op_sdr_capabilities options else None).

(** The queue is a [FixedVector] of three records; the result of [push_back] is ignored. *)
Definition response_capacity : nat := 3.
Definition push_response (a : AckRecord) (r : TransactionRecord) : TransactionRecord :=
  if (length (tr_responses r) <? response_capacity)%nat then tr_set_responses (tr_responses r ++ [a]) r else r.

Definition queue_ack (t : TxSlot) (kind : AckKind.t) (observed : StateSnapshot) (now : OperationContext) : TxSlot :=
  let a := make_ack t kind observed now in
  if should_emit (ak_cam a) kind (summary a) then on_record (push_response a) t else t.

(** [RevisionReservation::reset] *)
Definition reset_revisions (s : Engine) (t : TxSlot) : Engine * TxSlot :=
  match ps_revisions (ts_plan t) with
  | None => (s, t)
  | Some token =>
      let '(sink, pool) := es_release (op_effects options) (en_sink s) (en_admission s) token in
      (en_set_sink sink (en_set_admission pool s), on_plan (ps_set_revisions None) t)
  end.

Definition finish (s : Engine) (index : nat) (t : TxSlot) (now : OperationContext) : Engine * TxSlot :=
  let observed := if cm_action (cam_of_slot t) =? 1 then tr_hypothetical (ts_record t) else en_state s in
  let t := queue_ack t AckKind.execution observed now in
  let t := queue_ack t AckKind.state observed now in
  let t := on_record (tr_set_complete true) t in
  let '(s, t) := reset_revisions s t in
  (if bool_decide (en_effect_owner s = Some index) then en_set_effect_owner None s else s, t).

(** ** Outcomes *)

Definition outcome_malformed (planned : PlannedField) (o : FieldOutcome) : bool :=
  negb (fid_eqb (fo_id o) (pl_id planned)) || is_status o FieldStatus.pending ||
  (FieldStatus.not_executed <? fo_status o) ||
  (is_status o FieldStatus.executed && negb (fo_validity o =? Validity.known)) ||
  (is_status o FieldStatus.unknown_effect && negb (fo_validity o =? Validity.unknown)) ||
  (fo_time_known o && negb (Time.valid (fo_actual_time o))).

Definition set_outcome_diagnostics (d : Diagnostics) (o : FieldOutcome) : FieldOutcome :=
  mkOutcome (fo_id o) (fo_status o) (fo_value o) (fo_validity o) (fo_actual_time o) (fo_sample_ordinal o) (fo_uncertainty_ps o)
    (fo_time_known o) (fo_ordinal_known o) (fo_simulated o) d.
Definition outcome_errors (e : Z) (o : FieldOutcome) : FieldOutcome := set_outcome_diagnostics (add_errors e (fo_diagnostics o)) o.
Definition uncertain_outcome (id : FieldId) (e : Z) : FieldOutcome :=
  mkOutcome id FieldStatus.unknown_effect (v_uint32 0) Validity.unknown (mkTime 0 0) 0 0 false false false (mkDiagnostics 0 e).
Definition device_uncertain : Z := Z.lor diag_device_failure diag_state_indeterminate.

(** The outcome is kept only when it is well formed and its value valid. *)
Definition admit_outcome (planned : PlannedField) (simulated : bool) (o : FieldOutcome) : FieldOutcome :=
  let o := if outcome_malformed planned o then uncertain_outcome (pl_id planned) device_uncertain else o in
  let d := mkDiagnostics (Z.lor (warnings (fo_diagnostics o)) (warnings (pl_diagnostics planned)))
                         (Z.lor (errors (fo_diagnostics o)) (errors (pl_diagnostics planned))) in
  let o := mkOutcome (fo_id o) (fo_status o) (fo_value o) (fo_validity o) (fo_actual_time o) (fo_sample_ordinal o) (fo_uncertainty_ps o)
             (fo_time_known o) (fo_ordinal_known o) simulated d in
  if is_status o FieldStatus.executed &&
     (negb (is_ok (validate_value (pl_id planned) (fo_value o) true)) ||
      (is_profile profile tunable && negb (vl_resolvable (tunable_validate (pl_id planned) (fo_value o)))))
  then mkOutcome (fo_id o) FieldStatus.unknown_effect (fo_value o) Validity.unknown (fo_actual_time o) (fo_sample_ordinal o) (fo_uncertainty_ps o)
         (fo_time_known o) (fo_ordinal_known o) simulated (add_errors device_uncertain d)
  else o.

(** The interval of the effect lies in the window of the command. *)
Definition effect_in_window (p : PlanningStorage) (o : FieldOutcome) : bool :=
  fo_time_known o &&
  match subtract (fo_actual_time o) (from_picoseconds (fo_uncertainty_ps o)), add (fo_actual_time o) (from_picoseconds (fo_uncertainty_ps o)) with
  | Ok early, Ok late =>
      match effect_interval_allowed (cm_timing (rq_cam (ps_request p))) (ps_requested_time p) early late (ps_timing p) with
      | Ok b => b
      | _ => false
      end
  | _, _ => false
  end.

(** The remaining diagnostics. *)
Definition diagnose_outcome (quiescing : bool) (p : PlanningStorage) (o : FieldOutcome) : FieldOutcome :=
  let timed := negb (cm_timing (rq_cam (ps_request p)) =? 0) in
  let executed := is_status o FieldStatus.executed in
  let o := if executed then o else set_outcome_diagnostics (mark_not_executed (fo_diagnostics o)) o in
  let o := if quiescing && timed && negb executed then outcome_errors diag_timing_error o else o in
  if timed && executed && negb (effect_in_window p o) then outcome_errors diag_timing_error o else o.

(** The state after the outcome of field [index], when it differs. *)
Definition next_field (id : FieldId) (o : FieldOutcome) (f : FieldState) : FieldState :=
  if is_status o FieldStatus.unknown_effect then mkFieldState id (fs_value f) Validity.unknown else mkFieldState id (fo_value o) Validity.known.
Definition record_state (state : StateSnapshot) (id : FieldId) (o : FieldOutcome) : option StateSnapshot :=
  if negb (effectful o) then None else
  match st_fields state !! field_index id with
  | None => None
  | Some f =>
      let next := next_field id o f in
      if negb (fs_validity next =? fs_validity f) || ((fs_validity next =? Validity.known) && negb (bool_decide (fs_value next = fs_value f)))
      then Some (mkState (wrap64 (st_version state + 1)) (<[field_index id := next]> (st_fields state)) (st_profile state))
      else None
  end.

Definition effect_event (state : StateSnapshot) (p : PlanningStorage) (id : FieldId) (o : FieldOutcome) : EffectiveEvent :=
  mkEvent state (fo_actual_time o) (fo_sample_ordinal o) (ep_operation (ps_execution p)) (ep_association_generation (ps_execution p))
    (wrap8 (Z.shiftl 1 (Z.of_nat (field_index id)))) (fo_time_known o) (fo_ordinal_known o) o
    (if (st_profile state =? Profile.sdr_radio) && fid_eqb id Field.DiscreteIO32 && is_status o FieldStatus.executed &&
        bool_decide (if_uint32 (fo_value o) = Some 3)
     then Some (ps_requested_time p) else None).

Definition event_credits : AdmissionRequest := need (need request_empty Resource.revision 1) Resource.context_publication 1.

(** [effects.record] with the credits of one revision; nothing is recorded without them. *)
Definition record_effect (s : Engine) (t : TxSlot) (event : EffectiveEvent) : Engine * TxSlot :=
  match es_record (op_effects options) with
  | None => (s, t)
  | Some f =>
      let '(credits, left_over) := transfer (ts_credits t) event_credits in
      let t := ts_set_credits left_over t in
      match credits with
      | Ok credits =>
          let '(sink, pool) := f (en_sink s) (en_admission s) event (default 0 (ps_revisions (ts_plan t))) credits in
          (en_set_sink sink (en_set_admission pool s), t)
      | _ => (s, t)
      end
  end.

(** The rest of a plan that must not be executed. *)
Definition abandon_rest (t : TxSlot) : TxSlot :=
  on_execution (fun p => set_plan_fields p
    (foldl (fun l i => alter (deny diag_not_executed) i l) (ep_fields p)
       (take (count_of t - tr_step (ts_record t)) (drop (tr_step (ts_record t)) (ep_order p))))) t.

(** [effects] is false while the effects of a batch are held back. *)
Definition apply_outcome (s : Engine) (t : TxSlot) (field : nat) (outcome : FieldOutcome) (effects : bool) : Engine * TxSlot :=
  match fields_of t !! field with
  | None => (s, t)
  | Some planned =>
      let simulated := cm_action (cam_of_slot t) =? 1 in
      let o := admit_outcome planned simulated outcome in
      let s := if is_status o FieldStatus.unknown_effect && negb simulated then en_set_faulted true s else s in
      let o := diagnose_outcome (en_quiescing s) (ts_plan t) o in
      let '(s, t) :=
        match record_state (if simulated then tr_hypothetical (ts_record t) else en_state s) (pl_id planned) o with
        | None => (s, t)
        | Some next =>
            if simulated then (s, on_record (tr_set_hypothetical next) t)
            else let s := en_set_state next s in
                 if effects then record_effect s t (effect_event next (ts_plan t) (pl_id planned) o) else (s, t)
        end in
      let t := on_plan (fun p => ps_set_outcomes (<[field := o]> (ps_outcomes p)) p) t in
      let t := on_record (fun r => tr_set_step (S (tr_step r)) (tr_set_running false r)) t in
      (s, if negb (is_status o FieldStatus.executed) && negb (cm_partial (cam_of_slot t)) then abandon_rest t else t)
  end.

(** ** Completions *)

Definition awaits (operation : Z) (t : TxSlot) : bool :=
  tr_active (ts_record t) && tr_running (ts_record t) &&
  bool_decide (ps_ticket_operations (ts_plan t) !! tr_running_field (ts_record t) = Some operation).

Definition consume_record (s : Engine) (record : CompletionRecord) : Engine :=
  match first_index (awaits (r_operation record)) (en_slots s) with
  | None => s
  | Some index =>
      match en_slots s !! index with
      | None => s
      | Some t =>
          let field := tr_running_field (ts_record t) in
          let id := match fields_of t !! field with Some f => pl_id f | None => mkField 0 0 end in
          let result_index := (index * 4 + field)%nat in
          let outcome :=
            match c_status (r_result record), co_results (en_shared s) !! result_index with
            | CompletionStatus.succeeded, Some r =>
                if c_value (r_result record) =? Z.of_nat result_index then rs_outcome r else uncertain_outcome id device_uncertain
            | _, _ => uncertain_outcome id device_uncertain
            end in
          let '(s, t) := apply_outcome s t field outcome true in
          set_slot_at index t s
      end
  end.

(** [tickets_.scan] with [consume] for each record. *)
Definition scan_tickets (s : Engine) : Result Engine :=
  let? (records, tickets) := scan (length (slots (co_tickets (en_shared s)))) 0 (co_tickets (en_shared s)) [] in
  Ok (foldl consume_record (en_set_shared (set_tickets (en_shared s) tickets) s) records).

(** The capability of a field that the engine holds during a callback. *)
Definition capability_of (index : nat) (t : TxSlot) (field : nat) : Result AsyncResult :=
  let? token := deref (ps_tokens (ts_plan t) !! field) in
  Ok (mkAsync (tk_slot token) (tk_generation token) (index * 4 + field)%nat).

Definition complete_capability (s : Engine) (a : AsyncResult) (o : FieldOutcome) : Result (bool * Engine) :=
  let? (b, co) := complete (en_shared s) a o in
  Ok (b, en_set_shared co s).

(** What the backend did during a callback. *)
Definition backend_calls (s : Engine) (l : list Call) (b : B) : Result Engine :=
  let? co := apply_calls (en_shared s) l in
  Ok (en_set_backend b (en_set_shared co s)).

Definition call_disarm (s : Engine) (a : AsyncResult) : Result (DisarmResult.t * Engine) :=
  match be_disarm backend with
  | None => Ok (DisarmResult.not_cancelled, s)
  | Some f =>
      let '(d, calls, b) := f (en_backend s) (en_shared s) a in
      let? s := backend_calls s calls b in
      Ok (d, s)
  end.

(** ** Observation *)

Record PendingEffectBoundary := mkPendingBoundary { pe_boundary : Boundary; pe_ordinal_known : bool }.

Definition has_pending_effect (t : TxSlot) : bool :=
  existsb (fun p => pl_eligible p.1 && is_status p.2 FieldStatus.pending) (zip (fields_of t) (ps_outcomes (ts_plan t))).
Definition open_action (a : Z) (t : TxSlot) : bool :=
  tr_active (ts_record t) && negb (tr_complete (ts_record t)) && (cm_action (cam_of_slot t) =? a).

Fixpoint pending_effect_loop (l : list TxSlot) (first : option PendingEffectBoundary) : option PendingEffectBoundary :=
  match l with
  | [] => first
  | t :: l =>
      if negb (open_action 2 t) || negb (has_pending_effect t) then pending_effect_loop l first else
      let candidate := mkPendingBoundary (ep_boundary (execution t)) (ps_data_running (ts_plan t)) in
      if negb (pe_ordinal_known candidate) then Some candidate else
      pending_effect_loop l
        (match first with
         | Some f => if b_sample_ordinal (pe_boundary candidate) <? b_sample_ordinal (pe_boundary f) then Some candidate else first
         | None => Some candidate
         end)
  end.
Definition pending_effect_boundary (s : Engine) : option PendingEffectBoundary := pending_effect_loop (en_slots s) None.

Definition pending_times (s : Engine) : list (ProtocolTime * Z) :=
  (fun t => (ps_requested_time (ts_plan t), cm_timing (cam_of_slot t))) <$> List.filter (open_action 2) (en_slots s).

Record EngineDrainStatus := mkDrain {
  ds_active : nat; ds_running : nat; ds_responses : nat; ds_capability_holders : Z; ds_tickets_pending : nat;
  ds_backend : BackendQuiescence; ds_uncertain : bool }.

Definition unread (t : TxSlot) : nat :=
  if tr_active (ts_record t) then (length (tr_responses (ts_record t)) - tr_response_read (ts_record t))%nat else 0%nat.
Definition ticket_pending (sl : CompletionSlot) : bool :=
  negb (tag_state (tagged sl) =? TicketState.free) && negb (tag_state (tagged sl) =? TicketState.retired).

Definition drain_status (s : Engine) : EngineDrainStatus :=
  let results := co_results (en_shared s) in
  mkDrain (count_if (fun t => tr_active (ts_record t)) (en_slots s))
    (count_if (fun t => tr_active (ts_record t) && tr_running (ts_record t)) (en_slots s))
    (sum_list_with unread (en_slots s))
    (foldr (fun r n => gd_holders (rs_guard r) + n) 0 results)
    (count_if ticket_pending (slots (co_tickets (en_shared s))))
    (match be_quiescence backend with Some f => f (en_backend s) | None => quiescence_default end)
    (en_faulted s || existsb (fun r => gd_contradiction (rs_guard r)) results).

Definition safe_to_reset (s : Engine) : bool :=
  let d := drain_status s in
  negb (en_progressing s) && (ds_active d =? 0)%nat && (ds_responses d =? 0)%nat && (ds_capability_holders d =? 0) &&
  (ds_tickets_pending d =? 0)%nat && bq_known (ds_backend d) && bq_quiescent (ds_backend d) && (bq_pending (ds_backend d) =? 0).

(** ** Reset *)

Fixpoint check_confirmed (s : StateSnapshot) (i n : nat) : Result unit :=
  match n with
  | O => Ok tt
  | S n =>
      let? f := deref (st_fields s !! i) in
      let? id := deref (state_fields !! i) in
      fail_if negb (fid_eqb (fs_id f) id) || (Validity.unknown <? fs_validity f) || (fs_validity f =? Validity.unknown)
        with error1 ErrorCode.invalid_argument ;;
      let? _ := (if is_known f then validate_value (fs_id f) (fs_value f) true else Ok tt) in
      check_confirmed s (S i) n
  end.

Definition tunable_mismatch (s : StateSnapshot) : bool :=
  negb (Bool.eqb (is_profile profile tunable) (st_profile s =? Profile.frequency_tunable)).

Definition check_reset (s : Engine) (confirmed : StateSnapshot) (generation : Z) : Result unit :=
  let? _ := validate_snapshot confirmed in
  fail_if (generation =? 0) || (generation <=? en_association_generation s) with error1 ErrorCode.stale_generation ;;
  let? _ := check_confirmed confirmed 0 (active_state_fields (st_profile confirmed)) in
  fail_if negb (is_profile profile TxProfile.generic_virtual_test) &&
          (negb (state_known confirmed 1) || negb (state_known confirmed 3) || (is_profile profile tunable && negb (state_known confirmed 4)))
    with error1 ErrorCode.invalid_state ;;
  fail_if tunable_mismatch confirmed with error1 ErrorCode.invalid_argument ;;
  fail_if negb (safe_to_reset s) with error1 ErrorCode.invalid_state ;;
  Ok tt.

Definition clear_guard (r : ResultSlot) : ResultSlot := update_guard (fun g => guard_contradiction false (guard_cancelled false g)) r.

Definition reset_state (s : Engine) (confirmed : StateSnapshot) (generation : Z) : Result unit * Engine :=
  match check_reset s confirmed generation with
  | Ok _ =>
      let s := en_set_association_generation generation (en_set_state confirmed s) in
      let s := en_set_effect_owner None (en_set_faulted false (en_set_quiescing false s)) in
      (Ok tt, en_set_shared (mkCompletions (co_tickets (en_shared s)) (clear_guard <$> co_results (en_shared s))) s)
  | r => (r, s)
  end.

(** ** Progress *)

Definition is_running (t : TxSlot) : bool := tr_active (ts_record t) && tr_running (ts_record t).

(** The transaction that may act on the device: of those that are due, the one with the
    earliest boundary, the earliest accepted among equals. *)
Definition due (now : OperationContext) (t : TxSlot) : option (ProtocolTime * Z) :=
  if negb (open_action 2 t) then None else
  let scheduled := negb (cm_timing (cam_of_slot t) =? 0) || ps_data_running (ts_plan t) in
  let boundary := if scheduled then b_time (ep_boundary (execution t)) else snap_time (oc_clock now) in
  if scheduled && ps_schedule_valid (ts_plan t) && clock_readable (oc_clock now) && time_ltb (snap_time (oc_clock now)) boundary then None
  else Some (boundary, tr_sequence (ts_record t)).

Fixpoint choose_owner (now : OperationContext) (i : nat) (l : list TxSlot) (best : option (nat * ProtocolTime * Z)) : option nat :=
  match l with
  | [] => (fun b => b.1.1) <$> best
  | t :: l =>
      let best :=
        match due now t, best with
        | None, _ => best
        | Some (boundary, sequence), None => Some (i, boundary, sequence)
        | Some (boundary, sequence), Some (_, earliest_boundary, earliest) =>
            if time_ltb boundary earliest_boundary || (bool_decide (boundary = earliest_boundary) && (sequence <? earliest))
            then Some (i, boundary, sequence) else best
        end in
      choose_owner now (S i) l best
  end.

(** Every field without an outcome is cancelled. *)
Definition cancel_pending (t : TxSlot) : TxSlot :=
  let errors := if cm_timing (cam_of_slot t) =? 0 then diag_not_executed else Z.lor diag_not_executed diag_timing_error in
  let cancel i (o : FieldOutcome) :=
    match fields_of t !! i with
    | Some f =>
        if is_status o FieldStatus.pending then
          mkOutcome (pl_id f) FieldStatus.cancelled (fo_value o) (fo_validity o) (fo_actual_time o) (fo_sample_ordinal o) (fo_uncertainty_ps o)
            (fo_time_known o) (fo_ordinal_known o) (fo_simulated o) (mkDiagnostics (warnings (fo_diagnostics o)) errors)
        else o
    | None => o
    end in
  on_plan (fun p => ps_set_outcomes (imap cancel (ps_outcomes p)) p) t.

Definition immediate_stop (r : Request) : bool := is_profile profile sdr && is_discrete r 2.
Definition deny_all (e : Z) (t : TxSlot) : TxSlot := on_execution (map_fields (deny e)) t.

(** A field that was not eligible when the command was accepted stays so. *)
Definition keep_refusals (admitted : list PlannedField) (t : TxSlot) : TxSlot :=
  on_execution (fun p => set_plan_fields p
    (imap (fun i f => match admitted !! i with
                      | Some a => if pl_eligible a then f else set_diagnostics (pl_diagnostics a) (set_ineligible f)
                      | None => f
                      end) (ep_fields p))) t.

Definition revalidate (s : Engine) (index : nat) (t : TxSlot) (now : OperationContext) : TxSlot :=
  let admitted := fields_of t in
  let t := on_plan (ps_set_data_running (oc_data_running now && negb (immediate_stop (request_of t)))) t in
  let '(validation, t) := plan_validate s index t (en_state s) in
  let t := keep_refusals admitted t in
  let t := if is_ok validation then t else deny_all (Z.lor diag_invalid_value diag_not_executed) t in
  let t := if en_faulted s && (cm_action (cam_of_slot t) =? 2) then deny_all (Z.lor diag_state_indeterminate diag_not_executed) t else t in
  on_record (fun r => tr_set_revalidated true (tr_set_hypothetical (en_state s) r)) t.

Definition sdr_start (data_running : bool) (r : Request) : bool := is_profile profile sdr && negb data_running && is_discrete r 3.
Definition requested_boundary (requested : ProtocolTime) (clock : ClockSnapshot) : Boundary :=
  mkBoundary requested 0 (snap_mapping_generation clock) false true 0.

Definition boundary_offered (b : Boundary) (now : OperationContext) : bool :=
  existsb (fun o => (b_sample_ordinal o =? b_sample_ordinal b) && bool_decide (b_time o = b_time b) &&
                    (b_mapping_generation o =? snap_mapping_generation (oc_clock now)) && negb (b_committed o) && b_backend_ready o) (oc_boundaries now).

Definition clock_in_window (p : PlanningStorage) (now : OperationContext) : bool :=
  let c := oc_clock now in
  match subtract (snap_time c) (from_picoseconds (snap_uncertainty_ps c)), add (snap_time c) (from_picoseconds (snap_uncertainty_ps c)) with
  | Ok first, Ok last =>
      match effect_interval_allowed (cm_timing (rq_cam (ps_request p))) (ps_requested_time p) first last (ps_timing p) with
      | Ok b => b
      | _ => false
      end
  | _, _ => false
  end.

(** The boundary of a scheduled transaction is checked and chosen anew; the answer says
    whether the transaction has to wait for it. *)
Definition reschedule (t : TxSlot) (now : OperationContext) : bool * TxSlot :=
  let p := ts_plan t in
  let c := rq_cam (ps_request p) in
  let clock := oc_clock now in
  if (cm_timing c =? 0) && negb (ps_data_running p) then (false, t) else
  let start := sdr_start (ps_data_running p) (ps_request p) in
  let qualified := ((cm_timing c =? 0) && negb (ps_data_running p)) ||
                   (clock_readable clock && ((cm_timing c =? 0) || caps_qualified (ps_timing p) || caps_injected (ps_timing p))) in
  let boundary := ep_boundary (ps_execution p) in
  let boundary := if start && ps_schedule_valid p && qualified
                  then mkBoundary (b_time boundary) (b_sample_ordinal boundary) (snap_mapping_generation clock) (b_committed boundary)
                         (b_backend_ready boundary) (b_quantization_uncertainty_ps boundary)
                  else boundary in
  let available := if start then bool_decide (b_time boundary = ps_requested_time p) && (b_mapping_generation boundary =? snap_mapping_generation clock)
                   else boundary_offered boundary now in
  let valid := ps_schedule_valid p && available in
  let '(valid, boundary) :=
    if negb valid || negb (b_mapping_generation boundary =? snap_mapping_generation clock) then
      match choose_boundary (cm_timing c) (ps_requested_time p) clock
              (if start then [requested_boundary (ps_requested_time p) clock] else oc_boundaries now) (ps_timing p) with
      | Ok b => (true, b)
      | _ => (false, boundary)
      end
    else (valid, boundary) in
  let valid := valid && qualified in
  let t := on_execution (fun e => set_plan_boundary e boundary) t in
  let wanted := existsb (fun q => pl_eligible q.1 && negb q.2) (zip (fields_of t) (ps_cancelled p)) in
  if valid && (cm_action c =? 2) && time_ltb (snap_time clock) (b_time boundary) && wanted
  then (true, on_plan (ps_set_schedule_valid true) t)
  else
    let valid := valid && negb ((cm_action c =? 2) && negb (cm_timing c =? 0) && negb (clock_in_window p now)) in
    let t := on_plan (ps_set_schedule_valid valid) t in
    (false, if valid then t else deny_all (Z.lor diag_timing_error diag_not_executed) t).

(** ** The batch of the SDR configuration *)

Definition mark_all (t : TxSlot) : TxSlot :=
  on_execution (map_fields (fun f => set_diagnostics (mark_not_executed (pl_diagnostics f)) (set_ineligible f))) t.

Definition batch_outcome (batch : BatchOutcome) (f : PlannedField) : FieldOutcome :=
  let st := bo_status batch in
  mkOutcome (pl_id f) st (pl_adjusted f)
    (if bool_decide (st = FieldStatus.executed) then Validity.known else if bool_decide (st = FieldStatus.unknown_effect) then Validity.unknown else Validity.absent)
    (bo_actual_time batch) 0 (bo_uncertainty_ps batch) (bo_time_known batch) false false
    (if bool_decide (st = FieldStatus.executed) then no_diagnostics
     else mkDiagnostics 0 (Z.lor diag_device_failure (if bool_decide (st = FieldStatus.unknown_effect) then diag_state_indeterminate else 0))).

Definition normal_batch (b : BatchOutcome) : BatchOutcome :=
  if bool_decide (bo_status b ∈ [FieldStatus.executed; FieldStatus.failed; FieldStatus.unknown_effect]) then b
  else mkBatch FieldStatus.unknown_effect (bo_actual_time b) (bo_time_known b) (bo_uncertainty_ps b).

(** The outcome of the batch is recorded for field after field, then published as one event. *)
Definition apply_batch (s : Engine) (t : TxSlot) (batch : BatchOutcome) (fields : list (nat * PlannedField)) : Engine * TxSlot :=
  foldl (fun st p => apply_outcome st.1 st.2 p.1 (batch_outcome batch p.2) false) (s, t) fields.

Definition commit_batch (s : Engine) (t : TxSlot) (batch : BatchOutcome) : Engine * TxSlot :=
  let previous := st_version (en_state s) in
  let '(s, t) := apply_batch s t batch (imap pair (fields_of t)) in
  if st_version (en_state s) =? previous then (s, t) else
  let state := mkState (wrap64 (previous + 1)) (st_fields (en_state s)) (st_profile (en_state s)) in
  let s := en_set_state state s in
  record_effect s t
    (mkEvent state (bo_actual_time batch) 0 (ep_operation (execution t)) (ep_association_generation (execution t)) 0x72
       (bo_time_known batch) false (outcome_at t 0) None).

Definition all_wanted (t : TxSlot) : bool := forallb (fun q => pl_eligible q.1 && negb q.2) (zip (fields_of t) (ps_cancelled (ts_plan t))).

(** The complete configuration is committed as one operation: [Some] when it was. *)
Definition try_commit (s : Engine) (index : nat) (t : TxSlot) (now : OperationContext) : Engine * TxSlot * bool :=
  match be_commit backend with
  | None => (s, mark_all t, false)
  | Some commit =>
      if negb (all_wanted t) then (s, mark_all t, false) else
      let t := on_plan (ps_set_data_running (oc_data_running now)) t in
      let '(current, t) := plan_validate s index t (en_state s) in
      if negb (is_ok current && forallb pl_eligible (fields_of t)) then (s, mark_all t, false) else
      let b := ep_boundary (execution t) in
      let boundary := mkBoundary (snap_time (oc_clock now)) (b_sample_ordinal b) (b_mapping_generation b) (b_committed b) (b_backend_ready b)
                        (b_quantization_uncertainty_ps b) in
      let '(batch, context) := commit (en_backend s) (execution t) boundary in
      let '(s, t) := commit_batch (en_set_backend context s) t (normal_batch batch) in
      (s, t, true)
  end.

(** ** The steps of a transaction *)

Definition dependencies_executed (t : TxSlot) (f : PlannedField) : bool :=
  forallb (fun d => negb (bit_set (pl_dependency_mask f) (Z.of_nat d)) || is_status (outcome_at t d) FieldStatus.executed) (seq 0 (count_of t)).

Definition next_step (t : TxSlot) : TxSlot := on_record (fun r => tr_set_step (S (tr_step r)) r) t.
Definition set_outcome (i : nat) (o : FieldOutcome) (t : TxSlot) : TxSlot := on_plan (fun p => ps_set_outcomes (<[i := o]> (ps_outcomes p)) p) t.

Definition cancelled_outcome (f : PlannedField) (o : FieldOutcome) : FieldOutcome :=
  mkOutcome (pl_id f) FieldStatus.cancelled (fo_value o) (fo_validity o) (fo_actual_time o) (fo_sample_ordinal o) (fo_uncertainty_ps o)
    (fo_time_known o) (fo_ordinal_known o) (fo_simulated o) (mkDiagnostics (warnings (fo_diagnostics o)) diag_not_executed).
Definition skipped_outcome (f : PlannedField) : FieldOutcome :=
  mkOutcome (pl_id f) FieldStatus.not_executed (v_uint32 0) Validity.absent (mkTime 0 0) 0 0 false false false (pl_diagnostics f).
Definition failed_outcome (f : PlannedField) : FieldOutcome :=
  mkOutcome (pl_id f) FieldStatus.failed (v_uint32 0) Validity.absent (mkTime 0 0) 0 0 false false false
    (mkDiagnostics 0 (Z.lor diag_device_failure diag_not_executed)).

(** A field is handed to the device. *)
Definition begin_field (s : Engine) (index : nat) (t : TxSlot) (field : nat) (f : PlannedField) (now : OperationContext) : Result (Engine * TxSlot) :=
  let? capability := capability_of index t field in
  let? begin := deref (be_begin backend) in
  let t := on_record (fun r => tr_set_running true (tr_set_running_field field r)) t in
  let b := ep_boundary (execution t) in
  let boundary := if ps_time_known (ts_plan t)
                  then mkBoundary (snap_time (oc_clock now)) (b_sample_ordinal b) (b_mapping_generation b) (b_committed b) (b_backend_ready b)
                         (b_quantization_uncertainty_ps b)
                  else b in
  let '(begun, calls, context) := begin (en_backend s) (en_shared s) f boundary capability in
  let? s := backend_calls s calls context in
  match begun with
  | Ok _ => Ok (s, t)
  | Err _ => let? (_, s) := complete_capability s capability (failed_outcome f) in Ok (s, t)
  | UB => UB
  end.

(** How the loop over the steps ends: [stepped] when all steps are done, [began] when a
    field is with the device, [exhausted] when the version cannot grow any more. *)
Inductive StepEnd := stepped | began | exhausted.

Fixpoint step_loop (fuel : nat) (s : Engine) (index : nat) (t : TxSlot) (now : OperationContext) : Result (Engine * TxSlot * StepEnd) :=
  match fuel with
  | O => UB
  | S fuel =>
      if (count_of t <=? tr_step (ts_record t))%nat then Ok (s, t, stepped) else
      let? field := deref (ep_order (execution t) !! tr_step (ts_record t)) in
      let? f := deref (fields_of t !! field) in
      if cancelled_at t field then step_loop fuel s index (next_step (set_outcome field (cancelled_outcome f (outcome_at t field)) t)) now else
      let blocked := negb (dependencies_executed t f) in
      let f := if blocked then deny (Z.lor diag_dependency_blocked diag_not_executed) f else f in
      let t := if blocked then on_execution (fun p => set_plan_fields p (<[field := f]> (ep_fields p))) t else t in
      if negb (pl_eligible f) then step_loop fuel s index (next_step (set_outcome field (skipped_outcome f) t)) now else
      if cm_action (cam_of_slot t) =? 1 then
        let? simulate := deref (be_simulate backend) in
        let outcome := simulate (en_backend s) f (tr_hypothetical (ts_record t)) (ep_boundary (execution t)) in
        let '(s, t) := apply_outcome s t field outcome true in
        step_loop fuel s index t now
      else
        if U64_MAX - 4 <? st_version (en_state s) then Ok (s, t, exhausted) else
        let? (s, t) := begin_field s index t field f now in
        Ok (s, t, began)
  end.

(** The part of the loop body that executes a transaction.  The answer says whether
    [progress] returns. *)
Definition execute_slot (s : Engine) (index : nat) (t : TxSlot) (now : OperationContext) : Result (Engine * option (Result unit)) :=
  let t := if tr_revalidated (ts_record t) then t else revalidate s index t now in
  let '(wait, t) := reschedule t now in
  if wait then Ok (en_set_effect_owner None (set_slot_at index t s), None) else
  let? t := boundary_validate s t in
  let '(s, t, committed) :=
    if is_profile profile sdr && (count_of t =? 4)%nat && (cm_action (cam_of_slot t) =? 2) then try_commit s index t now else (s, t, false) in
  if (committed : bool) then let '(s, t) := finish s index t now in Ok (set_slot_at index t s, None) else
  let? (s, t, ending) := step_loop (S (count_of t)) s index t now in
  match ending with
  | began => Ok (set_slot_at index t s, Some (Ok tt))
  | exhausted => Ok (set_slot_at index t s, Some (Err (error1 ErrorCode.overflow)))
  | stepped => let '(s, t) := finish s index t now in Ok (set_slot_at index t s, None)
  end.

Definition progress_slot (s : Engine) (index : nat) (running : bool) (now : OperationContext) : Result (Engine * option (Result unit)) :=
  let? t := deref (en_slots s !! index) in
  if negb (tr_active (ts_record t)) || tr_complete (ts_record t) then Ok (s, None) else
  let action := cm_action (cam_of_slot t) in
  if en_quiescing s && negb (tr_running (ts_record t)) then
    let t := on_record (tr_set_step (count_of t)) (cancel_pending t) in
    let '(s, t) := finish s index t now in Ok (set_slot_at index t s, None)
  else if running && negb (action =? 0) then Ok (s, None)
  else if (action =? 2) && negb (bool_decide (en_effect_owner s = Some index)) then Ok (s, None)
  else if action =? 0 then let '(s, t) := finish s index t now in Ok (set_slot_at index t s, None)
  else execute_slot s index t now.

Fixpoint progress_loop (n index : nat) (s : Engine) (running : bool) (now : OperationContext) : Result (Result unit * Engine) :=
  match n with
  | O => Ok (Ok tt, s)
  | S n =>
      let? (s, ret) := progress_slot s index running now in
      match ret with
      | Some r => Ok (r, s)
      | None => progress_loop n (S index) s running now
      end
  end.

Definition progress (s : Engine) (now : OperationContext) : Result (Result unit * Engine) :=
  if en_progressing s then Ok (Err (error1 ErrorCode.would_deadlock), s) else
  let s := observe_backend_faults (en_set_progressing true s) in
  let? s := scan_tickets s in
  let running := existsb is_running (en_slots s) in
  let s := match en_effect_owner s with
           | Some _ => s
           | None => en_set_effect_owner (choose_owner now 0 (en_slots s) None) s
           end in
  let? (r, s) := progress_loop (length (en_slots s)) 0 s running now in
  Ok (r, en_set_progressing false s).

(** ** Acceptance *)

Definition drop_credits (s : Engine) (c : AdmissionBundle) : Engine := en_set_admission (bundle_reset (en_admission s) c).2 s.

(** The checks before a slot is looked for. *)
Definition check_accept (s : Engine) (packet : PacketView) (now : OperationContext) : Result Request :=
  fail_if negb (is_ok (validate_snapshot (en_state s))) || tunable_mismatch (en_state s) with error1 ErrorCode.invalid_argument ;;
  fail_if negb (op_trace_valid options) with error1 ErrorCode.invalid_argument ;;
  fail_if en_quiescing s with error1 ErrorCode.invalid_state ;;
  fail_if (oc_association_generation now =? 0) ||
          negb (Bool.eqb (is_some (es_reserve (op_effects options))) (is_some (es_record (op_effects options))))
    with error1 ErrorCode.invalid_state ;;
  fail_if negb (en_association_generation s =? 0) && negb (en_association_generation s =? oc_association_generation now)
    with error1 ErrorCode.invalid_state ;;
  let? request := request_from packet profile in
  let c := rq_cam request in
  fail_if ((cm_action c =? 2) && is_none (be_begin backend)) || ((cm_action c =? 1) && is_none (be_simulate backend))
    with error1 ErrorCode.unsupported_capability ;;
  fail_if en_faulted s && (cm_action c =? 2) with error1 ErrorCode.invalid_state ;;
  fail_if negb (cm_timing c =? 0) &&
          (negb (tsf (timestamp (rq_envelope request)) =? Tsf.picoseconds) ||
           negb (tsi (timestamp (rq_envelope request)) =? ack_epoch (snap_epoch (oc_clock now))))
    with error1 ErrorCode.unsupported_capability ;;
  Ok request.

(** A result of the slot is still held, or its contradiction not yet observed. *)
Definition pinned (s : Engine) (i : nat) : bool :=
  existsb (fun r => negb (gd_holders (rs_guard r) =? 0) || (gd_cancelled (rs_guard r) && gd_contradiction (rs_guard r)))
    (take 4 (drop (i * 4) (co_results (en_shared s)))).
Definition usable (s : Engine) (p : nat * TxSlot) : bool :=
  negb (tr_active (ts_record p.2)) && negb (tr_generation (ts_record p.2) =? U64_MAX) && negb (pinned s p.1).
Definition find_slot (s : Engine) : option nat := first_index (usable s) (imap pair (en_slots s)).

Definition required_credits (request : Request) : AdmissionRequest :=
  let c := rq_cam request in
  let count := Z.of_nat (rq_count request) in
  let q := need (need (need (need (need request_empty Resource.transaction 1) Resource.plan_bytes plan_size) Resource.completion 4)
                  Resource.response 3) Resource.ordinary_queue 1 in
  let q := if op_external_retention options then q else need (need q Resource.duplicate_entry 1) Resource.duplicate_bytes 2048 in
  let q := if cm_action c =? 2 then need (need q Resource.revision count) Resource.context_publication count else q in
  if negb (cm_timing c =? 0) && (cm_action c =? 2) then need q Resource.schedule 1 else q.

(** [token = CompletionToken{}], and the ticket is taken back when it was still reserved. *)
Definition release_token (tickets : CompletionState) (token : CompletionToken) : Result CompletionState :=
  let own := tk_active token && publisher_reserved tickets (tk_slot token) (tk_generation token) in
  let? (tickets, _) := token_abandon tickets token in
  if own then rmap snd (Ticket.consume tickets (tk_slot token)) else Ok tickets.
Fixpoint release_tokens (tickets : CompletionState) (l : list CompletionToken) : Result CompletionState :=
  match l with
  | [] => Ok tickets
  | token :: l => let? tickets := release_token tickets token in release_tokens tickets l
  end.

Fixpoint abandon_tokens (tickets : CompletionState) (l : list CompletionToken) : Result CompletionState :=
  match l with
  | [] => Ok tickets
  | token :: l => let? (tickets, _) := token_abandon tickets token in abandon_tokens tickets l
  end.

(** [slot.plan = PlanningStorage{}] destroys the reservation and the tokens of the old plan. *)
Definition destroy_plan (s : Engine) (t : TxSlot) : Result Engine :=
  let '(s, t) := reset_revisions s t in
  let? tickets := abandon_tokens (co_tickets (en_shared s)) (ps_tokens (ts_plan t)) in
  Ok (en_set_shared (set_tickets (en_shared s) tickets) s).

Definition new_record (s : Engine) (r : TransactionRecord) : TransactionRecord :=
  mkTransaction (tr_active r) false false false (tr_generation r) (tr_sequence r) 0 (tr_running_field r) 0 [] (en_state s).

Definition new_plan (request : Request) (revisions : option Z) (now : OperationContext) : PlanningStorage :=
  let ts := timestamp (rq_envelope request) in
  mkPlanning request
    (mkExecution [] (replicate 5 0%nat) 0 (oc_operation now) (oc_association_generation now) boundary_default)
    (replicate 5 outcome_default) (replicate 4 token_none) (replicate 4 0) (oc_timing now) (mkTime (ts_integer ts) (ts_fractional ts))
    (clock_readable (oc_clock now)) (oc_data_running now && negb (immediate_stop request)) true (replicate 5 false) revisions.

(** The boundary at which the plan takes effect. *)
Definition schedule (t : TxSlot) (now : OperationContext) : TxSlot :=
  let p := ts_plan t in
  let r := ps_request p in
  let c := rq_cam r in
  let clock := oc_clock now in
  let refuse t := on_plan (ps_set_schedule_valid false) (deny_all (Z.lor diag_timing_error diag_not_executed) t) in
  let t := on_execution (fun e => set_plan_boundary e (mkBoundary (snap_time clock) 0 (snap_mapping_generation clock) false true 0)) t in
  let t :=
    if negb (cm_action c =? 0) && (ps_data_running p || negb (cm_timing c =? 0)) then
      match choose_boundary (cm_timing c) (ps_requested_time p) clock
              (if sdr_start (oc_data_running now) r then [requested_boundary (ps_requested_time p) clock] else oc_boundaries now) (oc_timing now) with
      | Ok b => on_execution (fun e => set_plan_boundary e b) t
      | _ => refuse t
      end
    else t in
  if is_profile profile sdr && negb (cm_action c =? 0) && negb (cm_timing c =? 0) then
    match add (snap_time clock) (mkDuration 0 20000000000), add (snap_time clock) (mkDuration 10 0) with
    | Ok earliest, Ok latest =>
        if time_ltb (ps_requested_time p) earliest || time_ltb latest (ps_requested_time p) then refuse t else t
    | _, _ => refuse t
    end
  else t.

(** A stop cancels the starts that wait. *)
Definition stop_start (index i : nat) (t : TxSlot) : TxSlot :=
  let r := ts_record t in
  if negb (i =? index)%nat && tr_active r && negb (tr_complete r) && negb (tr_running r) && is_discrete (request_of t) 3
  then on_plan (fun p => ps_set_cancelled (<[0%nat := true]> (ps_cancelled p)) (ps_set_schedule_valid false p)) t
  else t.
Definition stop_starts (s : Engine) (index : nat) (t : TxSlot) : Engine :=
  if is_profile profile sdr && (cm_action (cam_of_slot t) =? 2) && is_discrete (request_of t) 2 && eligible_at (fields_of t) 0
  then en_set_slots (imap (stop_start index) (en_slots s)) s else s.

Definition open_result (generation association : Z) (id : FieldId) (r : ResultSlot) : ResultSlot :=
  mkResultSlot (rs_outcome r) generation true (mkGuard (gd_holders (rs_guard r)) false false association id).

(** The four tickets of a transaction; [false] when there were not enough. *)
Fixpoint reserve_tickets (n i : nat) (s : Engine) (index : nat) (t : TxSlot) (now : OperationContext) : Result (option Error * Engine * TxSlot) :=
  match n with
  | O => Ok (None, s, t)
  | S n =>
      let operation := en_next_ticket_operation s in
      let s := en_set_next_ticket_operation (wrap64 (operation + 1)) s in
      let '(ticket, tickets) := reserve (co_tickets (en_shared s)) operation in
      let s := en_set_shared (set_tickets (en_shared s) tickets) s in
      match ticket with
      | Ok (slot, generation) =>
          let t := on_plan (fun p => ps_set_ticket_operations (<[i := operation]> (ps_ticket_operations p))
                                       (ps_set_tokens (<[i := mkToken slot generation true]> (ps_tokens p)) p)) t in
          let id := match fields_of t !! i with Some f => pl_id f | None => mkField 0 0 end in
          let s := en_set_shared (update_result (open_result (tr_generation (ts_record t)) (oc_association_generation now) id)
                                    (index * 4 + i) (en_shared s)) s in
          reserve_tickets n (S i) s index t now
      | Err e => Ok (Some e, s, t)
      | UB => UB
      end
  end.

Definition accept_plan (s : Engine) (index : nat) (t : TxSlot) (credits : AdmissionBundle) (now : OperationContext) : Result (Result Handle * Engine) :=
  let '(validated, t) := plan_validate s index t (en_state s) in
  match validated with
  | UB => UB
  | Err e => let '(s, t) := reset_revisions s t in Ok (Err e, drop_credits (set_slot_at index t s) credits)
  | Ok _ =>
      let t := schedule t now in
      let s := stop_starts s index t in
      let? t := boundary_validate s t in
      let? (failure, s, t) := reserve_tickets 4 0 s index t now in
      match failure with
      | Some e =>
          let? tickets := release_tokens (co_tickets (en_shared s)) (ps_tokens (ts_plan t)) in
          let s := en_set_shared (set_tickets (en_shared s) tickets) s in
          let t := on_plan (ps_set_tokens (replicate 4 token_none)) t in
          let '(s, t) := reset_revisions s t in
          Ok (Err e, drop_credits (set_slot_at index t s) credits)
      | None =>
          let s := en_set_association_generation (oc_association_generation now) s in
          let s := drop_credits s (ts_credits t) in
          let t := ts_set_credits credits t in
          let t := on_record (fun r => tr_set_active true (tr_set_sequence (en_next_sequence s) r)) t in
          let s := en_set_next_sequence (wrap64 (en_next_sequence s + 1)) s in
          let t := queue_ack t AckKind.validation (en_state s) now in
          Ok (Ok (mkHandle index (tr_generation (ts_record t))), set_slot_at index t s)
      end
  end.

Definition accept (s : Engine) (packet : PacketView) (now : OperationContext) : Result (Result Handle * Engine) :=
  let s := observe_backend_faults s in
  match check_accept s packet now with
  | UB => UB
  | Err e => Ok (Err e, s)
  | Ok request =>
      let index := find_slot s in
      let s := observe_backend_faults s in
      if en_faulted s && (cm_action (rq_cam request) =? 2) then Ok (Err (error1 ErrorCode.invalid_state), s) else
      match index with
      | None => Ok (Err (error1 ErrorCode.capacity_exhausted), s)
      | Some index =>
          if (U64_MAX - 4 <? st_version (en_state s)) || (U64_MAX - 4 <? en_next_ticket_operation s) || (en_next_sequence s =? U64_MAX)
          then Ok (Err (error1 ErrorCode.overflow), s) else
          let '(credits, pool) := admission_acquire (en_admission s) (required_credits request) in
          let s := en_set_admission pool s in
          match credits with
          | UB => UB
          | Err e => Ok (Err e, s)
          | Ok credits =>
              let? t := deref (en_slots s !! index) in
              let? s := destroy_plan s t in
              let t := on_record (new_record s) t in
              let '(revisions, s) :=
                match es_reserve (op_effects options) with
                | Some f =>
                    if (cm_action (rq_cam request) =? 2) && negb (rq_count request =? 0)%nat then
                      let '(token, sink, pool) := f (en_sink s) (en_admission s) (rq_count request) in
                      (rmap Some token, en_set_sink sink (en_set_admission pool s))
                    else (Ok None, s)
                | None => (Ok None, s)
                end in
              match revisions with
              | UB => UB
              | Err e => Ok (Err e, drop_credits (set_slot_at index (on_plan (fun _ => plan_default) t) s) credits)
              | Ok revisions => accept_plan s index (on_plan (fun _ => new_plan request revisions now) t) credits now
              end
          end
      end
  end.

(** ** Cancellation *)

(** The packet names the transaction. *)
Definition cancels (packet : PacketView) (t : TxSlot) (now : OperationContext) : bool :=
  let e := ev_envelope (pv_envelope packet) in
  let r := rq_envelope (request_of t) in
  match command e, command r with
  | Some c, Some o =>
      (message_id c =? message_id o) && bool_decide (stream_id e = stream_id r) && same_identifier (controller c) (controller o) &&
      same_identifier (controllee c) (controllee o) && (oc_association_generation now =? ep_association_generation (execution t))
  | _, _ => false
  end.

Fixpoint select_views (views : list FieldView) (selected : list bool) : Result (list bool) :=
  match views with
  | [] => Ok selected
  | view :: views =>
      fail_if negb (bool_decide (fv_kind view = BodyKind.selectors)) || negb (fv_attribute view =? Attribute.current)
        with error1 ErrorCode.unsupported_capability ;;
      fail_if (field_index (fv_id view) =? state_field_capacity)%nat with error1 ErrorCode.unsupported_capability ;;
      select_views views (<[field_index (fv_id view) := true]> selected)
  end.

Definition planned_index (t : TxSlot) (id : FieldId) : option nat :=
  foldl (fun r p => if fid_eqb (pl_id p.2) id then Some p.1 else r) None (imap pair (fields_of t)).

Definition check_cancel (s : Engine) (h : Handle) (packet : PacketView) (now : OperationContext) : Result (TxSlot * list bool * Z) :=
  fail_if en_progressing s with error1 ErrorCode.would_deadlock ;;
  fail_if (length (en_slots s) <=? h_slot h)%nat with error1 ErrorCode.invalid_argument ;;
  let? t := deref (en_slots s !! h_slot h) in
  fail_if negb (tr_active (ts_record t)) || negb (tr_generation (ts_record t) =? h_generation h) with error1 ErrorCode.stale_generation ;;
  let e := ev_envelope (pv_envelope packet) in
  match command e with
  | None => UB
  | Some c =>
      fail_if negb (is_ok (validate_cam e)) || negb (cancel e) || ack e || is_none (command (rq_envelope (request_of t))) || pv_opaque packet
        with error1 ErrorCode.invalid_argument ;;
      fail_if negb (cancels packet t now) with error1 ErrorCode.invalid_argument ;;
      let? selected := select_views (pv_fields packet) (replicate state_field_capacity false) in
      fail_if negb (cm_action (cam_of_slot t) =? 2) || negb (same_class (class_id e) (class_id (rq_envelope (request_of t))))
        with error1 ErrorCode.invalid_argument ;;
      fail_if existsb (fun p => p.1 && is_none (planned_index t p.2)) (zip selected state_fields) with error1 ErrorCode.invalid_argument ;;
      Ok (t, selected, cam c)
  end.

(** The credits of a cancellation: those handed in, or new ones. *)
Definition cancellation_credits (s : Engine) (raw : Z) (reserved : AdmissionBundle) : Result AdmissionBundle * Engine :=
  let responses := b2z (bit_set raw 19) + b2z (bit_set raw 18) in
  if (bundle_held reserved Resource.cancellation_queue <? 1) || (bundle_held reserved Resource.cancellation_response <? responses) then
    if negb (bundle_held reserved Resource.cancellation_queue =? 0) then (Err (error1 ErrorCode.invalid_argument), drop_credits s reserved) else
    let '(credits, pool) := admission_acquire (en_admission s) (cancellation_resources raw) in
    (credits, drop_credits (en_set_admission pool s) reserved)
  else (Ok reserved, s).

Definition cancellation_timely (e : Envelope) (mode : Z) (now : OperationContext) : bool :=
  let c := oc_clock now in
  let fit := match subtract (snap_time c) (from_picoseconds (snap_uncertainty_ps c)), add (snap_time c) (from_picoseconds (snap_uncertainty_ps c)) with
             | Ok first, Ok last =>
                 match effect_interval_allowed mode (mkTime (ts_integer (timestamp e)) (ts_fractional (timestamp e))) first last (oc_timing now) with
                 | Ok b => b
                 | _ => false
                 end
             | _, _ => false
             end in
  (tsi (timestamp e) =? ack_epoch (snap_epoch c)) && (tsf (timestamp e) =? Tsf.picoseconds) && fit && clock_readable c.

(** A field that is with the device is disarmed: the answer says whether it is cancelled and
    what is to be reported. *)
Definition disarm_running (s : Engine) (index : nat) (t : TxSlot) (field : nat) (id : FieldId) : Result (bool * Z * Engine) :=
  let? capability := capability_of index t field in
  let? (disarmed, s) := call_disarm s capability in
  match disarmed with
  | DisarmResult.cancelled =>
      let s := en_set_shared (update_result (update_guard (guard_cancelled true)) (ar_index capability) (en_shared s)) s in
      let o := mkOutcome id FieldStatus.cancelled (v_uint32 0) Validity.absent (mkTime 0 0) 0 0 false false false (mkDiagnostics 0 diag_not_executed) in
      let? (cancelled, s) := complete_capability s capability o in
      if (cancelled : bool) then Ok (true, 0, s)
      else Ok (false, diag_device_failure,
               en_set_faulted true (en_set_shared (update_result (update_guard (guard_contradiction true)) (ar_index capability) (en_shared s)) s))
  | DisarmResult.unknown_effect =>
      let? (_, s) := complete_capability s capability (uncertain_outcome id device_uncertain) in
      Ok (false, diag_device_failure, s)
  | DisarmResult.not_cancelled => Ok (false, 0, s)
  end.

(** One selected field of the state. *)
Definition cancel_field (s : Engine) (index : nat) (target : nat) (id : FieldId) : Result (bool * Z * Engine) :=
  let? t := deref (en_slots s !! index) in
  let? (cancelled, e, s) :=
    match planned_index t id with
    | Some field =>
        if negb (tr_complete (ts_record t)) && is_status (outcome_at t field) FieldStatus.pending then
          if tr_running (ts_record t) && (tr_running_field (ts_record t) =? field)%nat then disarm_running s index t field id
          else Ok (true, 0, set_slot_at index (on_plan (fun p => ps_set_cancelled (<[field := true]> (ps_cancelled p)) p) t) s)
        else Ok (false, 0, s)
    | None => Ok (false, 0, s)
    end in
  Ok (cancelled, if (cancelled : bool) then e else Z.lor e diag_not_executed, s).

Fixpoint cancel_fields (s : Engine) (index target : nat) (l : list (bool * FieldId)) : Result (list bool * list Diagnostics * Engine) :=
  match l with
  | [] => Ok ([], [], s)
  | (selected, id) :: l =>
      let? (c, e, s) := (if (selected : bool) then cancel_field s index target id else Ok (false, 0, s)) in
      let? (cs, es, s) := cancel_fields s index (S target) l in
      Ok (c :: cs, mkDiagnostics 0 e :: es, s)
  end.

Definition cancel_command (s : Engine) (h : Handle) (packet : PacketView) (now : OperationContext) (reserved : AdmissionBundle)
    : Result (Result CancellationResult * Engine) :=
  match check_cancel s h packet now with
  | UB => UB
  | Err e => Ok (Err e, drop_credits s reserved)
  | Ok (t, selected, raw) =>
      let '(credits, s) := cancellation_credits s raw reserved in
      match credits with
      | UB => UB
      | Err e => Ok (Err e, s)
      | Ok credits =>
          let mode := Z.land (Z.shiftr raw 12) 7 in
          let e := ev_envelope (pv_envelope packet) in
          if negb (mode =? 0) && negb (cancellation_timely e mode now) then
            let errors := (fun b : bool => mkDiagnostics 0 (if b then diag_not_executed else 0)) <$> selected in
            Ok (cancellation_response packet (en_state s) (oc_clock now) selected (replicate state_field_capacity false) errors credits 7, s)
          else
            let? s := scan_tickets s in
            let? (cancelled, diagnostics, s) := cancel_fields s (h_slot h) 0 (zip selected state_fields) in
            let? s := scan_tickets s in
            Ok (cancellation_response packet (en_state s) (oc_clock now) selected cancelled diagnostics credits mode, s)
      end
  end.

(** ** Shutdown *)

(** The running field is disarmed once, the waiting ones are cancelled. *)
Definition quiesce_field (s : Engine) (index field : nat) : Result Engine :=
  let? t := deref (en_slots s !! index) in
  if negb (is_status (outcome_at t field) FieldStatus.pending) then Ok s else
  let mark t := on_plan (fun p => ps_set_cancelled (<[field := true]> (ps_cancelled p)) p) t in
  if negb (tr_running (ts_record t) && (tr_running_field (ts_record t) =? field)%nat) then Ok (set_slot_at index (mark t) s) else
  if cancelled_at t field then Ok s else
  let timing := if cm_timing (cam_of_slot t) =? 0 then 0 else diag_timing_error in
  let s := set_slot_at index (mark t) s in
  let? f := deref (fields_of t !! field) in
  let? capability := capability_of index t field in
  let? (disarmed, s) := call_disarm s capability in
  match disarmed with
  | DisarmResult.cancelled =>
      let s := en_set_shared (update_result (update_guard (guard_cancelled true)) (ar_index capability) (en_shared s)) s in
      let o := mkOutcome (pl_id f) FieldStatus.cancelled (v_uint32 0) Validity.absent (mkTime 0 0) 0 0 false false false
                 (mkDiagnostics 0 (Z.lor diag_not_executed timing)) in
      let? (cancelled, s) := complete_capability s capability o in
      Ok (if (cancelled : bool) then s
          else en_set_faulted true (en_set_shared (update_result (update_guard (guard_contradiction true)) (ar_index capability) (en_shared s)) s))
  | DisarmResult.unknown_effect =>
      let? (_, s) := complete_capability s capability (uncertain_outcome (pl_id f) (Z.lor device_uncertain timing)) in Ok s
  | DisarmResult.not_cancelled => Ok s
  end.

Fixpoint quiesce_fields (n field : nat) (s : Engine) (index : nat) : Result Engine :=
  match n with
  | O => Ok s
  | S n => let? s := quiesce_field s index field in quiesce_fields n (S field) s index
  end.
Fixpoint quiesce_slots (n index : nat) (s : Engine) : Result Engine :=
  match n with
  | O => Ok s
  | S n =>
      let? t := deref (en_slots s !! index) in
      let? s := (if negb (tr_active (ts_record t)) || tr_complete (ts_record t) then Ok s else quiesce_fields (count_of t) 0 s index) in
      quiesce_slots n (S index) s
  end.

Definition request_quiesce (s : Engine) (now : OperationContext) : Result (Result unit * Engine) :=
  if en_progressing s then Ok (Err (error1 ErrorCode.would_deadlock), s) else
  if (oc_association_generation now =? 0) ||
     (negb (en_association_generation s =? 0) && negb (oc_association_generation now =? en_association_generation s))
  then Ok (Err (error1 ErrorCode.stale_generation), s) else
  let? s := scan_tickets (en_set_quiescing true s) in
  let? s := quiesce_slots (length (en_slots s)) 0 s in
  progress s now.

(** ** Responses and release *)

Definition take_response (s : Engine) (h : Handle) : Result (Result (option AckRecord) * Engine) :=
  match en_slots s !! h_slot h with
  | None => Ok (Err (error1 ErrorCode.invalid_argument), s)
  | Some t =>
      let r := ts_record t in
      if negb (tr_active r) || negb (tr_generation r =? h_generation h) then Ok (Err (error1 ErrorCode.stale_generation), s) else
      if (tr_response_read r =? length (tr_responses r))%nat then Ok (Ok None, s) else
      let? a := deref (tr_responses r !! tr_response_read r) in
      Ok (Ok (Some a), set_slot_at (h_slot h) (on_record (tr_set_response_read (S (tr_response_read r))) t) s)
  end.

Definition current_handle (s : Engine) (h : Handle) : option TxSlot :=
  match en_slots s !! h_slot h with
  | Some t => if tr_active (ts_record t) && (tr_generation (ts_record t) =? h_generation h) then Some t else None
  | None => None
  end.
Definition transaction_complete (s : Engine) (h : Handle) : Result bool :=
  match current_handle s h with Some t => Ok (tr_complete (ts_record t)) | None => Err (error1 ErrorCode.stale_generation) end.
Definition transaction_outcomes (s : Engine) (h : Handle) : Result (list FieldOutcome) :=
  match current_handle s h with Some t => Ok (take 4 (ps_outcomes (ts_plan t))) | None => Err (error1 ErrorCode.stale_generation) end.

Definition release_transaction (s : Engine) (h : Handle) : Result (Result unit * Engine) :=
  match en_slots s !! h_slot h with
  | None => Ok (Err (error1 ErrorCode.invalid_argument), s)
  | Some t =>
      let r := ts_record t in
      if negb (tr_active r) || negb (tr_generation r =? h_generation h) || negb (tr_complete r) ||
         negb (tr_response_read r =? length (tr_responses r))%nat
      then Ok (Err (error1 ErrorCode.invalid_state), s) else
      let? tickets := release_tokens (co_tickets (en_shared s)) (ps_tokens (ts_plan t)) in
      let s := en_set_shared (set_tickets (en_shared s) tickets) s in
      let t := on_plan (ps_set_tokens (replicate 4 token_none)) t in
      let s := drop_credits s (ts_credits t) in
      let t := ts_set_credits bundle_empty t in
      let s := en_set_shared (foldl (fun co i => update_result (set_busy false) (h_slot h * 4 + i) co) (en_shared s) (seq 0 4)) s in
      let t := on_record (fun r => tr_set_active false (tr_set_generation (wrap64 (tr_generation r + 1)) r)) t in
      Ok (Ok tt, set_slot_at (h_slot h) t s)
  end.

(** The constructor. *)
Definition engine_new (transactions : nat) (pool : AdmissionState) (context : B) (sink : E) (timeline : option SampleTimeline)
    (initial : StateSnapshot) : Engine :=
  mkEngine (replicate transactions (mkTxSlot plan_default (mkTransaction false false false false 1 0 0 0 0 [] state_default) bundle_empty))
    (mkCompletions (arena_create (transactions * 4) 1) (replicate (transactions * 4) result_slot_default))
    pool context sink timeline initial 1 1 0 None false false false.
End engine.
