(* ===== verification/EngineProofs.v ===== *)
(** * The transaction engine keeps its invariant

    [engine_ok] is the invariant of the engine.  Every public operation, every use of a
    capability by the backend and every change of the timeline preserves it and is free of
    undefined behaviour ([engine_steps_ok]); the theorems below are read off it. *)

From stdpp Require Import relations.
From S2P Require Import Prelude Wire WireProofs Fields Time Clock Timeline Scheduling Admission Ticket Structured Packet Routing FixedVector State Cam Sdr Observer Cancellation Backend Plan PlanProofs Engine.

Section engine.
Context {B E : Type} (backend : Backend B) (options : EngineOptions E) (plan_size : Z).
#[local] Abbreviation Engine := (Engine B E).
#[local] Abbreviation profile := (op_profile options).

(** ** Slots *)

(** The arrays have their lengths, the request and the plan are well formed, the callbacks
    that the action needs exist. *)
Record plan_part (n : nat) (p : PlanningStorage) : Prop := mk_plan_part {
  pp_outcomes : length (ps_outcomes p) = 5%nat;
  pp_tokens : length (ps_tokens p) = 4%nat;
  pp_slots : Forall (fun k => (tk_slot k < n)%nat) (ps_tokens p);
  pp_operations : length (ps_ticket_operations p) = 4%nat;
  pp_cancelled : length (ps_cancelled p) = 5%nat;
  pp_request : request_ok profile (ps_request p);
  pp_action : 0 <= cm_action (rq_cam (ps_request p)) <= 2;
  pp_plan : plan_ok profile (ps_request p) (ps_execution p);
  pp_begin : cm_action (rq_cam (ps_request p)) = 2 -> is_some (be_begin backend) = true;
  pp_simulate : cm_action (rq_cam (ps_request p)) = 1 -> is_some (be_simulate backend) = true
}.

(** Only an open command that acts on the device is running; at most the validation
    acknowledgement is queued before completion, three in all. *)
Record record_part (r : Request) (t : TransactionRecord) : Prop := mk_record_part {
  rp_running : tr_running t = true -> tr_active t = true /\ tr_complete t = false /\ cm_action (rq_cam r) = 2 /\ (tr_running_field t < rq_count r)%nat;
  rp_responses : (length (tr_responses t) <= if tr_complete t then 3 else 1)%nat;
  rp_read : (tr_response_read t <= length (tr_responses t))%nat;
  rp_generation : 1 <= tr_generation t <= U64_MAX;
  rp_active : tr_active t = true -> tr_generation t < U64_MAX;
  rp_ordinary : Forall (fun a => ak_cancellation a = false) (tr_responses t)
}.

Definition slot_ok (n : nat) (t : TxSlot) : Prop := plan_part n (ts_plan t) /\ record_part (request_of t) (ts_record t).

(** What no step of a transaction changes. *)
Record frame (t t' : TxSlot) : Prop := mk_frame {
  fr_request : request_of t' = request_of t;
  fr_tokens : ps_tokens (ts_plan t') = ps_tokens (ts_plan t);
  fr_generation : tr_generation (ts_record t') = tr_generation (ts_record t);
  fr_active : tr_active (ts_record t') = tr_active (ts_record t);
  fr_read : tr_response_read (ts_record t') = tr_response_read (ts_record t);
  fr_responses : tr_responses (ts_record t) `prefix_of` tr_responses (ts_record t')
}.
#[global] Instance frame_preorder : PreOrder frame.
Proof. split; [done|]. intros a b c [] []. split; try congruence. by etransitivity. Qed.

(** [t'] is [t] after some steps of its transaction that keep it open. *)
Record keeps (n : nat) (t t' : TxSlot) : Prop := mk_keeps {
  kp_ok : slot_ok n t';
  kp_frame : frame t t';
  kp_complete : tr_complete (ts_record t') = tr_complete (ts_record t)
}.
Lemma keeps_trans n a b c : keeps n a b -> keeps n b c -> keeps n a c.
Proof. intros [H1 H2 H3] [H4 H5 H6]. split; [done|by transitivity b|congruence]. Qed.
Lemma keeps_refl n t : slot_ok n t -> keeps n t t.
Proof. by split. Qed.

(** Changes of the plan. *)
Lemma keeps_execution n t p' : slot_ok n t -> plan_ok profile (request_of t) p' -> keeps n t (on_execution (fun _ => p') t).
Proof. intros [[] [] ] Hp'. split; [split; [split|split]|split|]; done. Qed.
Lemma keeps_map n t g : slot_ok n t -> (forall f, weaker f (g f)) -> keeps n t (on_execution (map_fields g) t).
Proof. intros Ht Hg. apply (keeps_execution n t (map_fields g (execution t)) Ht). apply plan_ok_map; [apply Ht|done]. Qed.
Lemma keeps_boundary n t b : slot_ok n t -> keeps n t (on_execution (fun e => set_plan_boundary e b) t).
Proof. intros Ht. apply (keeps_execution n t (set_plan_boundary (execution t) b) Ht). destruct Ht as [[] _]. eapply plan_ok_shrinks; [done|done|done]. Qed.
Lemma keeps_outcomes n t l : slot_ok n t -> length l = 5%nat -> keeps n t (on_plan (ps_set_outcomes l) t).
Proof. intros [[] []] Hl. split; [split; [split|split]|split|]; done. Qed.
Lemma keeps_cancelled n t l : slot_ok n t -> length l = 5%nat -> keeps n t (on_plan (ps_set_cancelled l) t).
Proof. intros [[] []] Hl. split; [split; [split|split]|split|]; done. Qed.
Lemma keeps_data_running n t b : slot_ok n t -> keeps n t (on_plan (ps_set_data_running b) t).
Proof. intros [[] []]. split; [split; [split|split]|split|]; done. Qed.
Lemma keeps_schedule_valid n t b : slot_ok n t -> keeps n t (on_plan (ps_set_schedule_valid b) t).
Proof. intros [[] []]. split; [split; [split|split]|split|]; done. Qed.
Lemma keeps_revisions n t r : slot_ok n t -> keeps n t (on_plan (ps_set_revisions r) t).
Proof. intros [[] []]. split; [split; [split|split]|split|]; done. Qed.
Lemma keeps_credits n t c : slot_ok n t -> keeps n t (ts_set_credits c t).
Proof. intros [[] []]. split; [split; [split|split]|split|]; done. Qed.

(** Changes of the record. *)
Lemma keeps_step n t k : slot_ok n t -> keeps n t (on_record (tr_set_step k) t).
Proof. intros [? []]. split; [split; [|split]|split|]; done. Qed.
Lemma keeps_hypothetical n t s : slot_ok n t -> keeps n t (on_record (tr_set_hypothetical s) t).
Proof. intros [? []]. split; [split; [|split]|split|]; done. Qed.
Lemma keeps_revalidated n t b : slot_ok n t -> keeps n t (on_record (tr_set_revalidated b) t).
Proof. intros [? []]. split; [split; [|split]|split|]; done. Qed.
Lemma keeps_idle n t : slot_ok n t -> keeps n t (on_record (tr_set_running false) t).
Proof. intros [? []]. split; [split; [|split]|split|]; done. Qed.
Lemma keeps_running n t f : slot_ok n t -> tr_active (ts_record t) = true -> tr_complete (ts_record t) = false -> cm_action (cam_of_slot t) = 2 ->
  (f < rq_count (request_of t))%nat -> keeps n t (on_record (fun r => tr_set_running true (tr_set_running_field f r)) t).
Proof. intros [? []] Ha Hc H2 Hf. split; [split; [|split]|split|]; done. Qed.

(** Chains of such changes. *)
Ltac keep H := eapply keeps_trans; [exact H|].

(** ** Acknowledgements *)

Lemma queue_ack_spec t kind observed now : let t' := queue_ack options t kind observed now in
  ts_plan t' = ts_plan t /\ ts_credits t' = ts_credits t /\
  exists l, ts_record t' = tr_set_responses (tr_responses (ts_record t) ++ l) (ts_record t) /\ (length l <= 1)%nat /\
    Forall (fun a => ak_cancellation a = false) l.
Proof.
  cbv zeta. unfold queue_ack, on_record, push_response. assert (Hnil : ts_record t = tr_set_responses (tr_responses (ts_record t) ++ []) (ts_record t)).
  { rewrite app_nil_r. by destruct (ts_record t). }
  case_match; [|split_and!; [done|done|]; exists []; split_and!; [done|cbn; lia|constructor]]. cbn. split_and!; [done|done|].
  case_match; [exists [make_ack options t kind observed now]; split_and!; [done|done|by repeat constructor]|exists []; split_and!; [done|cbn; lia|constructor]].
Qed.

Lemma queue_ack_validation n t observed now : slot_ok n t -> tr_responses (ts_record t) = [] -> keeps n t (queue_ack options t AckKind.validation observed now).
Proof.
  intros [Hp [H1 H2 H3 H4 H5 H6]] Hnil. destruct (queue_ack_spec t AckKind.validation observed now) as (Ep & _ & l & Er & Hl & Hfa).
  split; [split|split|]; rewrite ?Ep, ?Er; try done; [|by apply prefix_app_r]. rewrite Hnil in *. cbn in *. split; cbn; try done; [|lia]. destruct (tr_complete _); lia.
Qed.

(** Everything but the slots that an operation on one slot may change is the device state,
    the sink and the pool. *)
Record outside (s s' : Engine) : Prop := mk_outside {
  ou_slots : en_slots s' = en_slots s;
  ou_shared : en_shared s' = en_shared s;
  ou_backend : en_backend s' = en_backend s;
  ou_owner : en_effect_owner s' = en_effect_owner s;
  ou_quiescing : en_quiescing s' = en_quiescing s;
  ou_progressing : en_progressing s' = en_progressing s;
  ou_shape : state_shaped (en_state s) -> state_shaped (en_state s')
}.
#[local] Instance outside_preorder : PreOrder outside.
Proof. split; [done|]. intros a b c [] []. split; try congruence. auto. Qed.

Lemma reset_revisions_spec n s t : slot_ok n t ->
  let '(s', t') := reset_revisions options s t in outside s s' /\ keeps n t t' /\ en_state s' = en_state s /\ en_faulted s' = en_faulted s /\
    ts_record t' = ts_record t /\ ts_credits t' = ts_credits t.
Proof.
  intros Ht. unfold reset_revisions. destruct (ps_revisions _); [|by split_and!; [done|apply keeps_refl|..]].
  destruct (es_release _ _ _ _). split_and!; try done. by apply keeps_revisions.
Qed.

Record finished_slot (n : nat) (t t' : TxSlot) : Prop := mk_finished {
  fi_ok : slot_ok n t'; fi_frame : frame t t'; fi_complete : tr_complete (ts_record t') = true; fi_running : tr_running (ts_record t') = false
}.

Lemma finish_spec n s index t now : slot_ok n t -> tr_complete (ts_record t) = false -> tr_running (ts_record t) = false ->
  let '(s', t') := finish options s index t now in
  finished_slot n t t' /\ outside (en_set_effect_owner (if bool_decide (en_effect_owner s = Some index) then None else en_effect_owner s) s) s' /\
  en_state s' = en_state s /\ en_faulted s' = en_faulted s.
Proof.
  intros Ht Hc Hr. unfold finish. set (observed := if _ =? 1 then _ else _).
  destruct (queue_ack_spec t AckKind.execution observed now) as (Ep1 & Ec1 & l1 & Er1 & Hl1 & Hf1). set (t1 := queue_ack options t AckKind.execution observed now) in *.
  destruct (queue_ack_spec t1 AckKind.state observed now) as (Ep2 & Ec2 & l2 & Er2 & Hl2 & Hf2). set (t2 := queue_ack options t1 AckKind.state observed now) in *.
  set (t3 := on_record (tr_set_complete true) t2).
  assert (H3 : finished_slot n t t3).
  { destruct Ht as [Hp [H1 H2 H3 H4 H5 H6]]. rewrite Hc in H2.
    split; [split|split| |]; cbn; rewrite ?Ep2, ?Ep1, ?Er2, ?Er1; cbn; try done; [|by do 2 apply prefix_app_r].
    split; cbn; rewrite ?Er2, ?Er1; cbn; try done; [by rewrite Hr|rewrite !length_app; lia|rewrite !length_app; lia|by repeat apply Forall_app_2]. }
  pose proof (reset_revisions_spec n s t3 (fi_ok _ _ _ H3)) as Hres. destruct (reset_revisions options s t3) as [s' t'].
  destruct Hres as (Ho & [Hk1 Hk2 Hk3] & Hst & Hf & Er & _). split_and!.
  - split; [done|by transitivity t3; [apply H3|]|rewrite Er; apply H3|rewrite Er; apply H3].
  - destruct Ho. rewrite ou_owner0. destruct (bool_decide _) eqn:Eo; split; cbn; done || congruence.
  - by case_match.
  - by case_match.
Qed.

(** ** Outcomes *)

Lemma record_state_shape st id o st' : record_state st id o = Some st' -> state_shaped st -> state_shaped st'.
Proof.
  unfold record_state. case_match; [done|]. case_match; [|done]. case_match; [|done]. intros [= <-]. unfold state_shaped. cbn. by rewrite length_insert.
Qed.

Lemma record_effect_spec n s t ev : slot_ok n t ->
  let '(s', t') := record_effect options s t ev in outside s s' /\ keeps n t t' /\ en_state s' = en_state s /\ en_faulted s' = en_faulted s /\
    ts_plan t' = ts_plan t /\ ts_record t' = ts_record t.
Proof.
  intros Ht. unfold record_effect. destruct (es_record _) as [f|]; [|by split_and!; [done|apply keeps_refl|..]].
  destruct (transfer _ _) as [[c| |] rest]; [destruct (f _ _ _ _ _) as [sink pool]|..]; split_and!; try done; by apply keeps_credits.
Qed.

Lemma abandon_rest_spec n t : slot_ok n t -> keeps n t (abandon_rest t) /\ ts_record (abandon_rest t) = ts_record t.
Proof.
  intros Ht. split; [|done]. unfold abandon_rest. eapply keeps_execution; [done|]. destruct Ht as [[] _]. eapply plan_ok_shrinks; [done| |done]. cbn.
  generalize (take (count_of t - tr_step (ts_record t)) (drop (tr_step (ts_record t)) (ep_order (execution t)))). intros l. generalize (fields_of t).
  induction l as [|i l IH]; intros fs; cbn; [done|]. etransitivity; [|apply IH]. by apply shrinks_alter.
Qed.

(** The slot is no longer running and one step further. *)
Lemma apply_outcome_spec n s t field o effects : slot_ok n t ->
  let '(s', t') := apply_outcome options s t field o effects in
  outside s s' /\ keeps n t t' /\
  ((field < count_of t)%nat -> tr_running (ts_record t') = false /\ tr_step (ts_record t') = S (tr_step (ts_record t))) /\
  (cm_action (cam_of_slot t) = 1 -> en_state s' = en_state s /\ en_faulted s' = en_faulted s /\ en_sink s' = en_sink s /\ en_admission s' = en_admission s).
Proof.
  intros Ht. unfold apply_outcome. destruct (fields_of t !! field) as [planned|] eqn:Ef.
  2: { split_and!; [done|by apply keeps_refl| |done]. intros ?. apply lookup_ge_None in Ef. lia. }
  set (simulated := cm_action _ =? 1). set (o1 := admit_outcome _ _ _ _). set (s1 := if is_status o1 _ && _ then _ else s).
  assert (Hs1 : outside s s1) by (unfold s1; by case_match). assert (Hst1 : en_state s1 = en_state s) by (unfold s1; by case_match).
  set (o2 := diagnose_outcome _ _ _).
  assert (Hstep : forall s2 t2, outside s s2 -> keeps n t t2 -> ts_record t2 = ts_record t \/ (exists h, ts_record t2 = tr_set_hypothetical h (ts_record t)) ->
    (simulated = true -> en_state s2 = en_state s /\ en_faulted s2 = en_faulted s /\ en_sink s2 = en_sink s /\ en_admission s2 = en_admission s) ->
    let t3 := on_plan (fun p => ps_set_outcomes (<[field:=o2]> (ps_outcomes p)) p) t2 in
    let t4 := on_record (fun r => tr_set_step (S (tr_step r)) (tr_set_running false r)) t3 in
    let t5 := if negb (is_status o2 FieldStatus.executed) && negb (cm_partial (cam_of_slot t4)) then abandon_rest t4 else t4 in
    outside s s2 /\ keeps n t t5 /\ ((field < count_of t)%nat -> tr_running (ts_record t5) = false /\ tr_step (ts_record t5) = S (tr_step (ts_record t))) /\
    (cm_action (cam_of_slot t) = 1 -> en_state s2 = en_state s /\ en_faulted s2 = en_faulted s /\ en_sink s2 = en_sink s /\ en_admission s2 = en_admission s)).
  { intros s2 t2 Ho Hk Hrec Hsim t3 t4 t5. assert (Hk3 : keeps n t t3).
    { keep Hk. apply keeps_outcomes; [apply Hk|]. rewrite length_insert. apply Hk. }
    assert (Hk4 : keeps n t t4).
    { keep Hk3. eapply keeps_trans; [apply keeps_idle, Hk3|]. apply (keeps_step n (on_record (tr_set_running false) t3)). apply keeps_idle, Hk3. }
    assert (Hr4 : tr_running (ts_record t4) = false /\ tr_step (ts_record t4) = S (tr_step (ts_record t))) by (cbn; by destruct Hrec as [-> | [h ->]]).
    split_and!; [done| | |].
    - unfold t5. case_match; [|done]. keep Hk4. apply abandon_rest_spec, Hk4.
    - intros _. unfold t5. case_match; [|done]. by rewrite (proj2 (abandon_rest_spec n t4 (kp_ok _ _ _ Hk4))).
    - intros E1. apply Hsim. unfold simulated. by rewrite E1. }
  destruct (record_state _ (pl_id planned) o2) as [next|] eqn:En.
  2: { apply Hstep; [done|by apply keeps_refl|by left|]. intros Es. unfold s1. rewrite Es, andb_false_r. done. }
  destruct simulated eqn:Es.
  - apply Hstep; [done|by apply keeps_hypothetical|right; by exists next|]. intros _. unfold s1. by rewrite andb_false_r.
  - assert (Hs2 : outside s (en_set_state next s1)).
    { destruct Hs1. split; cbn; try done. intros Hsh. eapply record_state_shape; [exact En|auto]. }
    destruct effects; [|by apply Hstep; [done|by apply keeps_refl|by left|]].
    pose proof (record_effect_spec n (en_set_state next s1) t (effect_event next (ts_plan t) (pl_id planned) o2) Ht) as Hre.
    destruct (record_effect _ _ _ _) as [s2 t2]. destruct Hre as (Ho & Hk & _ & _ & _ & Er). apply Hstep; [by transitivity (en_set_state next s1)|done|by left|done].
Qed.

(** ** The engine *)

Context `{!BackendLaws backend}.
#[local] Abbreviation tickets s := (ticket_count (en_shared s)).

Record engine_ok (s : Engine) : Prop := mk_engine_ok {
  eo_slots : Forall (slot_ok (tickets s)) (en_slots s);
  eo_some : (0 < length (en_slots s))%nat;
  eo_tickets : tickets s = (4 * length (en_slots s))%nat;
  eo_results : length (co_results (en_shared s)) = (4 * length (en_slots s))%nat;
  eo_context : context_ok (tickets s) (en_backend s);
  eo_state : state_shaped (en_state s);
  eo_running : forall i t, en_slots s !! i = Some t -> tr_running (ts_record t) = true -> en_effect_owner s = Some i;
  eo_owner : forall i, en_effect_owner s = Some i -> exists t, en_slots s !! i = Some t /\ open_action 2 t = true
}.

Definition generations (s : Engine) : list Z := (fun t => tr_generation (ts_record t)) <$> en_slots s.

(** An open transaction stays open, and its queue only grows. *)
Definition grows (t t' : TxSlot) : Prop := tr_active (ts_record t) = true -> tr_active (ts_record t') = true /\
  tr_response_read (ts_record t') = tr_response_read (ts_record t) /\ tr_responses (ts_record t) `prefix_of` tr_responses (ts_record t').
#[global] Instance grows_preorder : PreOrder grows.
Proof.
  split; [by split|]. intros a b c Hab Hbc Ha. destruct (Hab Ha) as (Hb & E1 & P1). destruct (Hbc Hb) as (Hc & E2 & P2).
  split_and!; [done|congruence|by etransitivity].
Qed.
Lemma frame_grows t t' : frame t t' -> grows t t'.
Proof. intros [] Ha. by split_and!; [congruence|..]. Qed.
Lemma grows_insert (l : list TxSlot) i t t' : l !! i = Some t -> grows t t' -> Forall2 grows l (<[i := t']> l).
Proof.
  intros Hi Hg. apply Forall2_same_length_lookup. split; [by rewrite length_insert|]. intros j x y Hx Hy.
  apply list_lookup_insert_Some in Hy as [(<- & <- & _)|[_ Hy]]; simplify_eq; done.
Qed.

(** What no operation but [take_response], [release] and [reset_state] changes. *)
Record evolves (s s' : Engine) : Prop := mk_evolves {
  ev_generations : generations s' = generations s;
  ev_quiescing : en_quiescing s' = en_quiescing s;
  ev_progressing : en_progressing s' = en_progressing s;
  ev_slots : Forall2 grows (en_slots s) (en_slots s')
}.
#[local] Instance evolves_preorder : PreOrder evolves.
Proof. split; [done|]. intros a b c [] []. split; try congruence. by etransitivity. Qed.

Definition advances (s s' : Engine) : Prop := engine_ok s' /\ evolves s s'.
Lemma advances_trans a b c : advances a b -> advances b c -> advances a c.
Proof. intros [_ H1] [H2 H3]. split; [done|by transitivity b]. Qed.

Lemma engine_slot s i t : engine_ok s -> en_slots s !! i = Some t -> slot_ok (tickets s) t.
Proof. intros [H _ _ _ _ _ _ _] Hi. by apply (Forall_lookup_1 _ _ _ _ H Hi). Qed.

Lemma slots_length s s' : generations s' = generations s -> length (en_slots s') = length (en_slots s).
Proof. intros H. apply (f_equal length) in H. unfold generations in H. by rewrite !length_fmap in H. Qed.

Lemma generations_insert s s1 i t t' : en_slots s !! i = Some t -> en_slots s1 = en_slots s -> tr_generation (ts_record t') = tr_generation (ts_record t) ->
  generations (set_slot_at i t' s1) = generations s.
Proof.
  intros Hi Es Eg. unfold generations. cbn. rewrite Es, list_fmap_insert, Eg. apply list_insert_id. by rewrite list_lookup_fmap, Hi.
Qed.

Lemma open_action_keeps n t t' a : keeps n t t' -> open_action a t' = open_action a t.
Proof. intros [_ [Hr _ _ Ha] Hc]. unfold open_action. by rewrite Hr, Ha, Hc. Qed.

(** The invariant when one slot changes. *)
Lemma set_slot_ok s s1 i t t' :
  engine_ok s -> outside s s1 -> en_slots s !! i = Some t -> slot_ok (tickets s) t' -> open_action 2 t' = open_action 2 t ->
  (tr_running (ts_record t') = true -> tr_running (ts_record t) = true \/ en_effect_owner s = Some i) ->
  engine_ok (set_slot_at i t' s1).
Proof.
  intros Hs [] Hi Hk Hop' Hrun. assert (Hlen : (i < length (en_slots s))%nat) by (by eapply lookup_lt_Some).
  destruct Hs. split; cbn; rewrite ?ou_shared0, ?ou_slots0, ?ou_backend0, ?ou_owner0, ?length_insert; try done.
  - by apply Forall_insert.
  - auto.
  - intros j u Hj Hu. destruct (decide (i = j)) as [<-|Hne].
    + rewrite list_lookup_insert_eq in Hj by done. simplify_eq. destruct (Hrun Hu) as [H|H]; [by eapply eo_running0|done].
    + rewrite list_lookup_insert_ne in Hj by done. by eapply eo_running0.
  - intros j Hj. destruct (eo_owner0 j Hj) as (u & Hu & Hop). destruct (decide (i = j)) as [<-|Hne].
    + rewrite list_lookup_insert_eq by done. eexists. split; [done|]. simplify_eq. congruence.
    + rewrite list_lookup_insert_ne by done. eauto.
Qed.

(** The same within its transaction. *)
Lemma set_slot_advances s s1 i t t' :
  engine_ok s -> outside s s1 -> en_slots s !! i = Some t -> keeps (tickets s) t t' ->
  (tr_running (ts_record t') = true -> tr_running (ts_record t) = true \/ en_effect_owner s = Some i) ->
  advances s (set_slot_at i t' s1).
Proof.
  intros Hs Ho Hi Hk Hrun. split; [by eapply set_slot_ok; [..|apply Hk|eapply open_action_keeps|]|].
  destruct Ho. split; cbn; try done; [apply (generations_insert s s1 i t); [done|done|]; apply Hk|]. rewrite ou_slots0. eapply grows_insert; [done|apply frame_grows, Hk].
Qed.

(** The invariant when a transaction finishes. *)
Lemma finish_advances s s1 i t t' :
  engine_ok s -> outside (en_set_effect_owner (if bool_decide (en_effect_owner s = Some i) then None else en_effect_owner s) s) s1 ->
  en_slots s !! i = Some t -> finished_slot (tickets s) t t' -> tr_running (ts_record t) = false ->
  advances s (set_slot_at i t' s1).
Proof.
  intros Hs [] Hi Hf Hr. assert (Hlen : (i < length (en_slots s))%nat) by (by eapply lookup_lt_Some). cbn in *. split.
  - destruct Hs. split; cbn; rewrite ?ou_shared0, ?ou_slots0, ?ou_backend0, ?ou_owner0, ?length_insert; try done.
    + apply Forall_insert; [done|apply Hf].
    + auto.
    + intros j u Hj Hu. destruct (decide (i = j)) as [<-|Hne].
      * rewrite list_lookup_insert_eq in Hj by done. simplify_eq. by rewrite (fi_running _ _ _ Hf) in Hu.
      * rewrite list_lookup_insert_ne in Hj by done. rewrite (eo_running0 j u Hj Hu). rewrite bool_decide_eq_false_2; [done|congruence].
    + intros j. case_bool_decide as Ho; [done|]. intros Hj. destruct (eo_owner0 j Hj) as (u & Hu & Hop).
      destruct (decide (i = j)) as [<-|Hne]; [done|]. rewrite list_lookup_insert_ne by done. eauto.
  - split; cbn; try done; [apply (generations_insert s s1 i t); [done|done|]; apply Hf|]. rewrite ou_slots0. eapply grows_insert; [done|apply frame_grows, Hf].
Qed.

(** Changes of the shared storage and of the context of the backend. *)
Lemma shared_advances s co b : engine_ok s -> same_size (en_shared s) co -> context_ok (tickets s) b -> advances s (en_set_backend b (en_set_shared co s)).
Proof.
  intros Hs [H1 H2] Hb. split; [|done]. destruct Hs. split; cbn; rewrite ?H1, ?H2; done.
Qed.
Lemma shared_only s co : engine_ok s -> same_size (en_shared s) co -> advances s (en_set_shared co s).
Proof. intros Hs [H1 H2]. split; [|done]. destruct Hs. split; cbn; rewrite ?H1, ?H2; done. Qed.

Lemma faulted_advances s b : engine_ok s -> advances s (en_set_faulted b s).
Proof. intros []. by split. Qed.
Lemma state_advances s st : engine_ok s -> state_shaped st -> advances s (en_set_state st s).
Proof. intros [] H. by split. Qed.

(** ** Tickets *)

Lemma consume_ensures s i : ensures (Ticket.consume s i) (fun p => length (slots p.2) = length (slots s)).
Proof.
  unfold Ticket.consume, consume_begin. destruct (slots s !! i) as [sl|] eqn:Esl; [|by apply ensures_Ok].
  destruct (negb _); [by apply ensures_Ok|]. assert (Hi : (i < length (slots s))%nat) by (by eapply lookup_lt_Some).
  unfold consume_read, consume_finish. cbn. rewrite list_lookup_insert_eq by done. cbn. rewrite list_lookup_insert_eq by (by rewrite length_insert).
  apply ensures_Ok. cbn. by rewrite !length_insert.
Qed.

Lemma scan_ensures n : forall i s out, ensures (Ticket.scan n i s out) (fun p => length (slots p.2) = length (slots s)).
Proof.
  induction n as [|n IH]; intros i s out; cbn; [by apply ensures_Ok|]. eapply ensures_bind; [apply consume_ensures|]. intros [r s1] H. cbn in H.
  eapply ensures_mono; [apply IH|]. intros p Hp. cbv beta in Hp. congruence.
Qed.

Lemma consume_record_ok s r : engine_ok s -> advances s (consume_record options s r).
Proof.
  intros Hs. unfold consume_record. destruct (first_index _ _) as [i|] eqn:Ei; [|by split]. destruct (en_slots s !! i) as [t|] eqn:Et; [|by split].
  apply first_index_Some in Ei as [(u & Hu & Hw) _]. rewrite Et in Hu. injection Hu as <-. unfold awaits in Hw. rewrite !andb_true_iff in Hw. destruct Hw as [[_ Hrun] _].
  set (o := match c_status (r_result r) with CompletionStatus.succeeded => _ | _ => _ end).
  pose proof (engine_slot s i t Hs Et) as Hok.
  pose proof (apply_outcome_spec _ s t (tr_running_field (ts_record t)) o true Hok) as Ha. destruct (apply_outcome _ _ _ _ _ _) as [s1 t1].
  destruct Ha as (Ho & Hk & _). eapply set_slot_advances; [done|done|done|done|]. intros _. by left.
Qed.

Lemma consume_records_ok l : forall s, engine_ok s -> advances s (foldl (consume_record options) s l).
Proof.
  induction l as [|r l IH]; intros s Hs; cbn; [by split|]. eapply advances_trans; [by apply consume_record_ok|]. apply IH. by apply consume_record_ok.
Qed.

Lemma scan_tickets_ok s : engine_ok s -> ensures (scan_tickets options s) (advances s).
Proof.
  intros Hs. unfold scan_tickets. eapply ensures_bind; [apply scan_ensures|]. intros [l t] Ht. cbn in Ht. apply ensures_Ok.
  assert (Ha : advances s (en_set_shared (set_tickets (en_shared s) t) s)) by (apply shared_only; [done|by apply set_tickets_size]).
  eapply advances_trans; [exact Ha|]. apply consume_records_ok, Ha.
Qed.

(** ** Contradictions *)

Lemma observe_fault_ok s i : engine_ok s -> advances s (observe_fault s i).
Proof.
  intros Hs. unfold observe_fault. destruct (co_results (en_shared s) !! i) as [r|]; [|by split]. destruct (negb (gd_cancelled _)); [by split|].
  set (s1 := en_set_shared _ s). assert (H1 : advances s s1) by (apply shared_only; [done|apply update_result_size]).
  destruct (_ || _); [done|]. set (s2 := en_set_faulted true s1). assert (H2 : advances s s2) by (eapply advances_trans; [exact H1|by apply faulted_advances, H1]).
  destruct (st_fields _ !! _); [|done]. destruct (_ =? _); [done|]. eapply advances_trans; [exact H2|]. apply state_advances; [apply H2|].
  unfold state_shaped. cbn [st_fields]. rewrite length_insert. apply H2.
Qed.
Lemma observe_backend_faults_ok s : engine_ok s -> advances s (observe_backend_faults s).
Proof.
  unfold observe_backend_faults. generalize (seq 0 (length (co_results (en_shared s)))). intros l. revert s.
  induction l as [|i l IH]; intros s Hs; cbn; [by split|]. eapply advances_trans; [by apply observe_fault_ok|]. apply IH. by apply observe_fault_ok.
Qed.

(** ** Plans of a slot *)

(** The transaction is where it was, its plan revised. *)
Record still (n : nat) (t t' : TxSlot) : Prop := mk_still {
  sl_keeps : keeps n t t';
  sl_running : tr_running (ts_record t') = tr_running (ts_record t);
  sl_step : tr_step (ts_record t') = tr_step (ts_record t)
}.
Lemma still_trans n a b c : still n a b -> still n b c -> still n a c.
Proof. intros [H1 H2 H3] [H4 H5 H6]. split; [by eapply keeps_trans|congruence|congruence]. Qed.
Lemma still_refl n t : slot_ok n t -> still n t t.
Proof. split; [by apply keeps_refl|done|done]. Qed.
Lemma still_ok n t t' : still n t t' -> slot_ok n t'.
Proof. intros [[H _ _] _ _]. exact H. Qed.

Ltac still_by H := split; [apply H|done|done].

Lemma still_map n t g : slot_ok n t -> (forall f, weaker f (g f)) -> still n t (on_execution (map_fields g) t).
Proof. intros Ht Hg. still_by (keeps_map n t g Ht Hg). Qed.
Lemma deny_all_still n t e : slot_ok n t -> still n t (deny_all e t).
Proof. intros Ht. by apply still_map. Qed.
Lemma mark_all_still n t : slot_ok n t -> still n t (mark_all t).
Proof. intros Ht. by apply still_map. Qed.
Lemma data_running_still n t b : slot_ok n t -> still n t (on_plan (ps_set_data_running b) t).
Proof. intros Ht. still_by (keeps_data_running n t b Ht). Qed.
Lemma schedule_valid_still n t b : slot_ok n t -> still n t (on_plan (ps_set_schedule_valid b) t).
Proof. intros Ht. still_by (keeps_schedule_valid n t b Ht). Qed.
Lemma boundary_still n t b : slot_ok n t -> still n t (on_execution (fun e => set_plan_boundary e b) t).
Proof. intros Ht. still_by (keeps_boundary n t b Ht). Qed.

Lemma slot_count n t : slot_ok n t -> count_of t = rq_count (request_of t).
Proof. intros [[] _]. by eapply (plan_ok_count profile). Qed.
Lemma slot_order n t : slot_ok n t -> length (ep_order (execution t)) = 5%nat /\
  Forall (fun i => (i < rq_count (request_of t))%nat \/ rq_count (request_of t) = 0%nat) (ep_order (execution t)).
Proof. intros [[] _]. by destruct pp_plan0. Qed.

Lemma plan_validate_still n s index t st : slot_ok n t ->
  let '(res, t') := plan_validate backend options s index t st in safe res /\ still n t t'.
Proof.
  intros Ht. unfold plan_validate. pose proof (slot_order n t Ht) as [Hl Ho]. pose proof (pp_request _ _ (proj1 Ht)) as [Hc _]%request_ok_count.
  pose proof (validate_plan_ok profile (snd <$> op_sdr_capabilities options) ((fun f => f (en_backend s)) <$> be_validate backend)
    ((fun f => f (en_backend s)) <$> be_validate_plan backend) (is_some (be_commit backend)) (request_of t) (execution t)
    (ps_time_known (ts_plan t)) (ps_data_running (ts_plan t)) (armed_elsewhere s index) st Hc Hl Ho) as Hp.
  pose proof (plan_order_facts profile (snd <$> op_sdr_capabilities options) ((fun f => f (en_backend s)) <$> be_validate backend)
    ((fun f => f (en_backend s)) <$> be_validate_plan backend) (is_some (be_commit backend)) (request_of t)
    (ps_time_known (ts_plan t)) (ps_data_running (ts_plan t)) (armed_elsewhere s index) st (execution t) Hc Hl) as Hf.
  destruct (validate_plan _ _ _ _ _ _ _ _ _ _ _) as [res p]. cbn [snd] in Hp. destruct Hf as ([-> | ->] & _); (split; [done|]); still_by (keeps_execution n t p Ht Hp).
Qed.

Lemma boundary_validate_still n (s : Engine) t : slot_ok n t -> ensures (boundary_validate options s t) (still n t).
Proof.
  intros Ht. unfold boundary_validate. destruct (validate_boundary_ok profile (en_timeline s) (request_of t) (ps_data_running (ts_plan t)) (execution t)) as (p & -> & Hp & _ & _).
  - apply Ht.
  - cbn. apply ensures_Ok. still_by (keeps_execution n t p Ht Hp).
Qed.

Lemma keep_refusals_still n t l : slot_ok n t -> still n t (keep_refusals l t).
Proof.
  intros Ht. unfold keep_refusals. split; [|done|done]. eapply keeps_execution; [done|]. eapply plan_ok_shrinks; [apply Ht| |done]. cbn.
  apply Forall2_same_length_lookup. split; [by rewrite length_imap|]. intros i x y Hx Hy. rewrite list_lookup_imap, Hx in Hy. cbn in Hy. simplify_eq.
  repeat case_match; done.
Qed.

Lemma revalidate_still n s index t now : slot_ok n t -> still n t (revalidate backend options s index t now).
Proof.
  intros Ht. unfold revalidate. set (t1 := on_plan (ps_set_data_running _) t). assert (H1 : still n t t1) by (by apply data_running_still).
  pose proof (plan_validate_still n s index t1 (en_state s) (still_ok _ _ _ H1)) as H2. destruct (plan_validate _ _ _ _ _ _) as [res t2]. destruct H2 as [_ H2].
  pose proof (still_trans _ _ _ _ H1 H2) as H12. clear H1 H2.
  pose proof (still_trans _ _ _ _ H12 (keep_refusals_still n t2 (fields_of t) (still_ok _ _ _ H12))) as H3. set (t3 := keep_refusals _ t2) in *.
  set (t4 := if is_ok res then t3 else _).
  assert (H4 : still n t t4) by (unfold t4; case_match; [done|]; eapply still_trans; [exact H3|]; eapply deny_all_still, still_ok, H3).
  set (t5 := if en_faulted s && _ then _ else t4).
  assert (H5 : still n t t5) by (unfold t5; case_match; [|done]; eapply still_trans; [exact H4|]; eapply deny_all_still, still_ok, H4).
  eapply still_trans; [exact H5|]. split; [|done|done].
  eapply keeps_trans; [apply (keeps_hypothetical n t5 (en_state s)), (still_ok _ _ _ H5)|]. apply (keeps_revalidated n (on_record (tr_set_hypothetical (en_state s)) t5)).
  apply keeps_hypothetical, (still_ok _ _ _ H5).
Qed.

Lemma reschedule_still n t now : slot_ok n t -> still n t (reschedule options t now).2.
Proof.
  intros Ht. unfold reschedule. destruct (_ && _); [by apply still_refl|]. cbv zeta.
  match goal with |- context [let '(v, b) := ?m in _] => destruct m as [valid boundary] end.
  set (t1 := on_execution _ t). assert (H1 : still n t t1) by (by apply boundary_still).
  case_match; cbn [snd].
  - eapply still_trans; [exact H1|]. eapply schedule_valid_still, still_ok, H1.
  - set (v := (valid && _) && _). set (t2 := on_plan (ps_set_schedule_valid v) t1).
    assert (H2 : still n t t2) by (eapply still_trans; [exact H1|]; eapply schedule_valid_still, still_ok, H1).
    case_match; [done|]. eapply still_trans; [exact H2|]. eapply deny_all_still, still_ok, H2.
Qed.

Lemma refuse_still n t : slot_ok n t -> still n t (on_plan (ps_set_schedule_valid false) (deny_all (Z.lor diag_timing_error diag_not_executed) t)).
Proof. intros Ht. eapply still_trans; [by apply deny_all_still|]. eapply schedule_valid_still, still_ok. by apply deny_all_still. Qed.

Lemma schedule_still n t now : slot_ok n t -> still n t (schedule options t now).
Proof.
  intros Ht. unfold schedule. set (t1 := on_execution _ t). assert (H1 : still n t t1) by (by apply boundary_still).
  set (t2 := if negb _ && _ then _ else t1). assert (H2 : still n t t2).
  { unfold t2. case_match; [|done]. case_match; eapply still_trans; [exact H1|..|exact H1| |exact H1|]; [eapply boundary_still|eapply refuse_still..]; by eapply still_ok. }
  case_match; [|done]. assert (Href : still n t (on_plan (ps_set_schedule_valid false) (deny_all (Z.lor diag_timing_error diag_not_executed) t2))).
  { eapply still_trans; [exact H2|]. by eapply refuse_still, still_ok. }
  repeat case_match; done.
Qed.

(** ** Execution *)

(** As [outside], with calls of the backend in between. *)
Record around (s s' : Engine) : Prop := mk_around {
  ar_slots : en_slots s' = en_slots s;
  ar_size : same_size (en_shared s) (en_shared s');
  ar_context : context_ok (tickets s) (en_backend s) -> context_ok (tickets s) (en_backend s');
  ar_owner : en_effect_owner s' = en_effect_owner s;
  ar_quiescing : en_quiescing s' = en_quiescing s;
  ar_progressing : en_progressing s' = en_progressing s;
  ar_shape : state_shaped (en_state s) -> state_shaped (en_state s')
}.
Lemma outside_around s s' : outside s s' -> around s s'.
Proof. intros []. split; try done; [by rewrite ou_shared0|by rewrite ou_backend0]. Qed.
#[local] Instance around_preorder : PreOrder around.
Proof.
  split; [intros s; by apply outside_around|]. intros a b c [? [Ht Hr] ? ? ? ? ?] [? Hs2 Hc2 ? ? ? ?]. rewrite Ht in Hc2.
  split; try congruence; [by transitivity (en_shared b)|auto|auto].
Qed.

Lemma around_advances s s1 : engine_ok s -> around s s1 ->
  let s2 := en_set_backend (en_backend s1) (en_set_shared (en_shared s1) s) in advances s s2 /\ outside s2 s1 /\ tickets s2 = tickets s /\ en_slots s2 = en_slots s.
Proof. intros Hs []. split_and!; [|by split|apply ar_size0|done]. apply shared_advances; [done|done|]. apply ar_context0, Hs. Qed.

Lemma set_slot_around s s1 i t t' :
  engine_ok s -> around s s1 -> en_slots s !! i = Some t -> keeps (tickets s) t t' ->
  (tr_running (ts_record t') = true -> tr_running (ts_record t) = true \/ en_effect_owner s = Some i) ->
  advances s (set_slot_at i t' s1).
Proof.
  intros Hs Ha Hi Hk Hr. destruct (around_advances s s1 Hs Ha) as (H1 & H2 & Et & Es). eapply advances_trans; [exact H1|].
  eapply set_slot_advances; [apply H1|done|done|by rewrite Et|done].
Qed.

Lemma backend_calls_around s l b : Forall (call_ok (tickets s)) l -> context_ok (tickets s) b -> ensures (backend_calls s l b) (around s).
Proof.
  intros Hl Hb. unfold backend_calls. eapply ensures_bind; [by apply apply_calls_ensures|]. intros co Hco; cbv beta in Hco. apply ensures_Ok. by split.
Qed.

Lemma complete_capability_around s a o : (ar_slot a < tickets s)%nat -> ensures (complete_capability s a o) (fun p => around s p.2).
Proof.
  intros Ha. unfold complete_capability. eapply ensures_bind; [by apply complete_ensures|]. intros [b co] Hco. cbn in Hco. apply ensures_Ok. by split.
Qed.

Lemma capability_of_ensures n index t field : slot_ok n t -> (field < 4)%nat -> ensures (capability_of index t field) (fun a => (ar_slot a < n)%nat /\ ar_index a = (index * 4 + field)%nat).
Proof.
  intros [[] _] Hf. unfold capability_of. destruct (lookup_lt_is_Some_2 (ps_tokens (ts_plan t)) field) as [k Hk]; [lia|]. rewrite Hk. cbn. apply ensures_Ok.
  cbn. split; [|done]. by apply (Forall_lookup_1 _ _ _ _ pp_slots0 Hk).
Qed.

Lemma slot_action2 n t : slot_ok n t -> cm_action (cam_of_slot t) = 2 -> (rq_count (request_of t) <= 4)%nat /\ exists f, be_begin backend = Some f.
Proof.
  intros [[] _] Ha. split; [apply (request_ok_count profile); [done|lia]|]. specialize (pp_begin0 Ha). destruct (be_begin backend); [eauto|done].
Qed.

Lemma begin_field_spec n s index t field f now :
  tickets s = n -> context_ok n (en_backend s) -> slot_ok n t -> tr_active (ts_record t) = true -> tr_complete (ts_record t) = false ->
  cm_action (cam_of_slot t) = 2 -> (field < rq_count (request_of t))%nat ->
  ensures (begin_field backend s index t field f now) (fun p => around s p.1 /\ keeps n t p.2 /\ tr_running (ts_record p.2) = true /\ en_state p.1 = en_state s).
Proof.
  intros Hn Hc Ht Hact Hcom H2 Hf. destruct (slot_action2 n t Ht H2) as [H4 [begin Hb]]. unfold begin_field.
  eapply ensures_bind; [apply (capability_of_ensures n); [done|lia]|]. intros a [Ha _]. rewrite Hb. cbn [deref rbind]. cbv zeta.
  set (t1 := on_record _ t). assert (Hk : keeps n t t1) by (by apply keeps_running). set (bd := if ps_time_known _ then _ else _).
  pose proof (begin_lawful n (en_backend s) (en_shared s) f bd a begin Hb Hc Hn Ha) as Hlaw. destruct (begin _ _ _ _ _) as [[res calls] b]. destruct Hlaw as (Hsafe & Hcalls & Hctx).
  unfold backend_calls. rewrite rbind_assoc. eapply ensures_bind; [apply apply_calls_ensures; by rewrite Hn|]. intros co Hco; cbv beta in Hco. cbn [rbind].
  set (s1 := en_set_backend b (en_set_shared co s)). assert (Hs1 : around s s1) by (split; try done; cbn; by rewrite Hn).
  destruct res as [u|e|]; [by apply ensures_Ok| |done].
  unfold complete_capability. rewrite rbind_assoc. eapply ensures_bind; [apply complete_ensures; cbn; rewrite (proj1 Hco), Hn; done|]. intros [ok co2] Hco2. cbn in Hco2. cbn [rbind].
  apply ensures_Ok. split_and!; [|done|done|done]. cbn [fst]. transitivity s1; [done|by split].
Qed.

Lemma next_step_keeps n t o field : slot_ok n t -> let t' := next_step (set_outcome field o t) in
  keeps n t t' /\ tr_running (ts_record t') = tr_running (ts_record t) /\ tr_step (ts_record t') = S (tr_step (ts_record t)) /\ count_of t' = count_of t.
Proof.
  intros Ht. cbv zeta. assert (H1 : keeps n t (set_outcome field o t)).
  { unfold set_outcome. eapply keeps_outcomes; [done|]. rewrite length_insert. apply Ht. }
  split_and!; [|done|done|done]. keep H1. apply (keeps_step n (set_outcome field o t)). apply H1.
Qed.

Record step_result (n : nat) (s : Engine) (t : TxSlot) (p : Engine * TxSlot * StepEnd) : Prop := mk_step_result {
  sr_around : around s p.1.1;
  sr_keeps : keeps n t p.1.2;
  sr_running : tr_running (ts_record p.1.2) = match p.2 with began => true | _ => false end;
  sr_query : cm_action (cam_of_slot t) = 1 -> en_state p.1.1 = en_state s /\ en_shared p.1.1 = en_shared s /\ en_backend p.1.1 = en_backend s /\
    en_faulted p.1.1 = en_faulted s /\ en_sink p.1.1 = en_sink s /\ en_admission p.1.1 = en_admission s /\ p.2 = stepped
}.

Lemma step_result_trans n s t s1 t1 p : around s s1 -> keeps n t t1 -> step_result n s1 t1 p ->
  (cm_action (cam_of_slot t) = 1 -> en_state s1 = en_state s /\ en_shared s1 = en_shared s /\ en_backend s1 = en_backend s /\ en_faulted s1 = en_faulted s /\
     en_sink s1 = en_sink s /\ en_admission s1 = en_admission s) -> step_result n s t p.
Proof.
  intros Ha Hk [H1 H2 H3 H4] Hq. split; [by transitivity s1|by eapply keeps_trans|done|]. intros E1.
  assert (E2 : cm_action (cam_of_slot t1) = 1) by (by rewrite (fr_request _ _ (kp_frame _ _ _ Hk))).
  destruct (H4 E2) as (? & ? & ? & ? & ? & ? & ?), (Hq E1) as (? & ? & ? & ? & ? & ?). split_and!; congruence.
Qed.

Lemma step_loop_spec n now index : forall fuel s t,
  tickets s = n -> context_ok n (en_backend s) -> slot_ok n t -> tr_active (ts_record t) = true -> tr_complete (ts_record t) = false ->
  tr_running (ts_record t) = false -> cm_action (cam_of_slot t) = 1 \/ cm_action (cam_of_slot t) = 2 ->
  (count_of t - tr_step (ts_record t) < fuel)%nat ->
  ensures (step_loop backend options fuel s index t now) (step_result n s t).
Proof.
  induction fuel as [|fuel IH]; intros s t Hn Hctx Ht Hact Hcom Hrun Hall Hfuel; [lia|]. cbn [step_loop].
  destruct (Nat.leb_spec (count_of t) (tr_step (ts_record t))) as [Hle|Hlt]; [by apply ensures_Ok; split|].
  pose proof (slot_count n t Ht) as Hcount. pose proof (slot_order n t Ht) as [Hol Hob].
  pose proof (pp_request _ _ (proj1 Ht)) as [Hc5 _]%request_ok_count.
  destruct (lookup_lt_is_Some_2 (ep_order (execution t)) (tr_step (ts_record t))) as [field Hfield]; [lia|]. rewrite Hfield. cbn [deref rbind].
  assert (Hflt : (field < rq_count (request_of t))%nat) by (destruct (Forall_lookup_1 _ _ _ _ Hob Hfield); lia).
  destruct (lookup_lt_is_Some_2 (fields_of t) field) as [f Hf]; [lia|]. rewrite Hf. cbn [deref rbind].
  assert (Hskip : forall t1 o, still n t t1 -> count_of t1 = count_of t ->
    ensures (step_loop backend options fuel s index (next_step (set_outcome field o t1)) now) (step_result n s t)).
  { intros t1 o H1 Ec1. destruct (next_step_keeps n t1 o field (still_ok _ _ _ H1)) as (Hk & Hr & Hs & Hc). pose proof (keeps_trans _ _ _ _ (sl_keeps _ _ _ H1) Hk) as Hk1.
    eapply ensures_mono; [apply IH|intros p Hp; eapply step_result_trans; [done|exact Hk1|exact Hp|done]]; try done; [apply Hk1|..].
    - by rewrite (fr_active _ _ (kp_frame _ _ _ Hk1)).
    - by rewrite (kp_complete _ _ _ Hk1).
    - by rewrite Hr, (sl_running _ _ _ H1).
    - by rewrite (fr_request _ _ (kp_frame _ _ _ Hk1)).
    - rewrite Hc, Hs, Ec1, (sl_step _ _ _ H1). lia. }
  destruct (cancelled_at t field); [by apply Hskip; [apply still_refl|]|].
  set (f1 := if negb (dependencies_executed t f) then _ else f). set (t1 := if negb (dependencies_executed t f) then _ else t).
  assert (H1 : still n t t1 /\ count_of t1 = count_of t).
  { unfold t1, f1. destruct (negb _); [|by split; [apply still_refl|]]. split; [|by cbn; rewrite length_insert]. split; [|done|done].
    eapply keeps_execution; [done|]. eapply plan_ok_shrinks; [apply Ht| |done]. cbn.
    apply Forall2_same_length_lookup. split; [by rewrite length_insert|]. intros i x y Hx Hy. destruct (decide (field = i)) as [<-|].
    - rewrite list_lookup_insert_eq in Hy by (by eapply lookup_lt_Some). simplify_eq. done.
    - rewrite list_lookup_insert_ne in Hy by done. by simplify_eq. }
  destruct H1 as [H1 Ec1]. destruct (negb (pl_eligible f1)); [by apply Hskip|].
  pose proof (fr_request _ _ (kp_frame _ _ _ (sl_keeps _ _ _ H1))) as Er1.
  destruct (Z.eqb_spec (cm_action (cam_of_slot t1)) 1) as [E1|E1].
  - assert (Hsim : is_some (be_simulate backend) = true) by (apply (proj1 (still_ok _ _ _ H1)); done).
    destruct (be_simulate backend) as [simulate|]; [|done]. cbn [deref rbind].
    pose proof (apply_outcome_spec n s t1 field (simulate (en_backend s) f1 (tr_hypothetical (ts_record t1)) (ep_boundary (execution t1))) true (still_ok _ _ _ H1)) as Ha.
    destruct (apply_outcome _ _ _ _ _ _) as [s2 t2]. destruct Ha as (Ho & Hk & Hrs & Hq). destruct Hrs as [Hr2 Hs2]; [lia|].
    pose proof (keeps_trans _ _ _ _ (sl_keeps _ _ _ H1) Hk) as Hk2.
    assert (Ec2 : count_of t2 = count_of t1). { rewrite (slot_count n t2 (kp_ok _ _ _ Hk)), (slot_count n t1 (still_ok _ _ _ H1)). by rewrite (fr_request _ _ (kp_frame _ _ _ Hk)). }
    eapply ensures_mono; [apply IH|intros p Hp; eapply step_result_trans; [by apply outside_around|exact Hk2|exact Hp|]].
    + by rewrite (ou_shared _ _ Ho).
    + by rewrite (ou_backend _ _ Ho).
    + apply Hk2.
    + by rewrite (fr_active _ _ (kp_frame _ _ _ Hk2)).
    + by rewrite (kp_complete _ _ _ Hk2).
    + done.
    + by rewrite (fr_request _ _ (kp_frame _ _ _ Hk2)).
    + rewrite Hs2, (sl_step _ _ _ H1), Ec2. lia.
    + intros _. destruct (Hq E1) as (? & ? & ? & ?). split_and!; [done|apply Ho|apply Ho|done|done|done].
  - destruct Hall as [Hall|E2]; [by rewrite Er1 in E1|]. assert (Hno : cm_action (cam_of_slot t) = 1 -> False) by (rewrite E2; lia).
    destruct (_ <? _).
    + apply ensures_Ok. split; [done|apply H1|by cbn; rewrite (sl_running _ _ _ H1)|done].
    + eapply ensures_bind; [apply (begin_field_spec n); [done|done|apply (still_ok _ _ _ H1)|..]|].
      * by rewrite (fr_active _ _ (kp_frame _ _ _ (sl_keeps _ _ _ H1))).
      * by rewrite (kp_complete _ _ _ (sl_keeps _ _ _ H1)).
      * by rewrite Er1.
      * by rewrite Er1.
      * intros [s2 t2] (Ha & Hk & Hr & _). cbn [fst snd] in *. apply ensures_Ok. split; [done|by eapply keeps_trans; [apply H1|]|done|done].
Qed.

Lemma apply_batch_spec n batch l : forall s t, slot_ok n t -> tr_running (ts_record t) = false -> Forall (fun p => (p.1 < rq_count (request_of t))%nat) l ->
  let '(s', t') := apply_batch options s t batch l in outside s s' /\ keeps n t t' /\ tr_running (ts_record t') = false.
Proof.
  unfold apply_batch. induction l as [|[i f] l IH]; intros s t Ht Hr Hl; cbn [foldl fst snd].
  - split_and!; [done|by apply keeps_refl|done].
  - apply list.Forall_cons in Hl as [Hi Hl]. cbn in Hi.
    pose proof (apply_outcome_spec n s t i (batch_outcome batch f) false Ht) as Ha. destruct (apply_outcome _ _ _ _ _ _) as [s1 t1].
    destruct Ha as (Ho & Hk & Hrs & _). destruct Hrs as [Hr1 _]; [by rewrite (slot_count n t Ht)|].
    specialize (IH s1 t1 (kp_ok _ _ _ Hk) Hr1). destruct (foldl _ _ l) as [s2 t2]. destruct IH as (Ho2 & Hk2 & Hr2).
    + by rewrite (fr_request _ _ (kp_frame _ _ _ Hk)).
    + split_and!; [by transitivity s1|by eapply keeps_trans|done].
Qed.

Lemma commit_batch_spec n s t batch : slot_ok n t -> tr_running (ts_record t) = false ->
  let '(s', t') := commit_batch options s t batch in outside s s' /\ keeps n t t' /\ tr_running (ts_record t') = false.
Proof.
  intros Ht Hr. unfold commit_batch. pose proof (apply_batch_spec n batch (imap pair (fields_of t)) s t Ht Hr) as Hb.
  destruct (apply_batch _ _ _ _ _) as [s1 t1]. destruct Hb as (Ho & Hk & Hr1).
  { rewrite <- (slot_count n t Ht). apply Forall_lookup. intros i [j f] Hj. rewrite list_lookup_imap in Hj. destruct (fields_of t !! i) eqn:Ei; [|done].
    cbn in Hj. simplify_eq. cbn. by eapply lookup_lt_Some. }
  destruct (_ =? _); [done|]. set (st := mkState _ _ _). assert (Ho1 : outside s (en_set_state st s1)).
  { by destruct Ho; split. }
  match goal with |- context [record_effect _ _ _ ?ev] => pose proof (record_effect_spec n (en_set_state st s1) t1 ev (kp_ok _ _ _ Hk)) as Hre end.
  destruct (record_effect _ _ _ _) as [s2 t2]. destruct Hre as (Ho2 & Hk2 & _ & _ & _ & Er). split_and!; [by transitivity (en_set_state st s1)|by eapply keeps_trans|by rewrite Er].
Qed.

Lemma try_commit_spec n s index t now : tickets s = n -> slot_ok n t -> tr_running (ts_record t) = false ->
  let '(s', t', committed) := try_commit backend options s index t now in
  around s s' /\ keeps n t t' /\ tr_running (ts_record t') = false /\ (committed = false -> s' = s /\ still n t t').
Proof.
  intros Hn Ht Hr. unfold try_commit. destruct (be_commit backend) as [commit|] eqn:Eb.
  2: { pose proof (mark_all_still n t Ht) as Hm. by split_and!; [|apply Hm|..]. }
  destruct (all_wanted t); cbn [negb].
  2: { pose proof (mark_all_still n t Ht) as Hm. by split_and!; [|apply Hm|..]. }
  set (t1 := on_plan _ t). assert (H1 : still n t t1) by (by apply data_running_still).
  pose proof (plan_validate_still n s index t1 (en_state s) (still_ok _ _ _ H1)) as H2. destruct (plan_validate _ _ _ _ _ _) as [res t2]. destruct H2 as [_ H2].
  pose proof (still_trans _ _ _ _ H1 H2) as H12. clear H1 H2. destruct (is_ok res && _); cbn [negb].
  2: { pose proof (still_trans _ _ _ _ H12 (mark_all_still n t2 (still_ok _ _ _ H12))) as Hm. split_and!; [done|apply Hm|by rewrite (sl_running _ _ _ Hm)|done]. }
  set (bd := mkBoundary _ _ _ _ _ _). pose proof (commit_lawful n (en_backend s) (execution t2) bd commit Eb) as Hlaw.
  destruct (commit _ _ _) as [batch b]. cbn [snd] in Hlaw.
  pose proof (commit_batch_spec n (en_set_backend b s) t2 (normal_batch batch) (still_ok _ _ _ H12)) as Hc.
  destruct (commit_batch _ _ _ _) as [s3 t3]. destruct Hc as (Ho & Hk & Hr3); [by rewrite (sl_running _ _ _ H12)|].
  split_and!; [|by eapply keeps_trans; [apply H12|]|done|done].
  transitivity (en_set_backend b s); [|by apply outside_around]. split; cbn; try done. by rewrite Hn.
Qed.

(** Only slot [index] changes. *)
Definition only (index : nat) (s s' : Engine) : Prop := forall j, j <> index -> en_slots s' !! j = en_slots s !! j.
Lemma set_slot_only index t s s1 : en_slots s1 = en_slots s -> only index s (set_slot_at index t s1).
Proof. intros Es j Hj. cbn. by rewrite list_lookup_insert_ne, Es. Qed.

(** [finish], written back to the slot. *)
Lemma finish_slot_advances s s1 index t t1 now : engine_ok s -> around s s1 -> en_slots s !! index = Some t -> keeps (tickets s) t t1 ->
  tr_complete (ts_record t) = false -> tr_running (ts_record t) = false -> tr_running (ts_record t1) = false ->
  let '(s', t') := finish options s1 index t1 now in
  advances s (set_slot_at index t' s') /\ only index s (set_slot_at index t' s') /\ tr_complete (ts_record t') = true /\ tr_running (ts_record t') = false.
Proof.
  intros Hs Ha Hi Hk Hc Hr0 Hr. pose proof (finish_spec (tickets s) s1 index t1 now (kp_ok _ _ _ Hk)) as Hf. rewrite (kp_complete _ _ _ Hk) in Hf.
  specialize (Hf Hc Hr). destruct (finish _ _ _ _ _) as [s' t']. destruct Hf as (Hfi & Ho & _).
  destruct (around_advances s s1 Hs Ha) as (H1 & H2 & Et & Es). split_and!; [|by apply set_slot_only; rewrite (ou_slots _ _ Ho); cbn; apply Ha|apply Hfi|apply Hfi].
  eapply advances_trans; [exact H1|]. eapply (finish_advances _ s' index t t'); [apply H1| |by rewrite Es| |done].
  - rewrite (ou_owner _ _ H2) in Ho. cbn in Ho |- *. etransitivity; [|exact Ho]. destruct H2. by split.
  - rewrite Et. destruct Hfi. split; [done|by transitivity t1; [apply Hk|]|done|done].
Qed.

Lemma reschedule_waits t now : (reschedule options t now).1 = true -> cm_action (cam_of_slot t) = 2.
Proof.
  unfold reschedule. destruct (_ && _); [done|]. cbv zeta.
  match goal with |- context [let '(v, b) := ?m in _] => destruct m as [valid boundary] end.
  test_goal Ew; [|done]. rewrite !andb_true_iff in Ew. destruct Ew as [[[_ E2%Z.eqb_eq] _] _]. done.
Qed.

(** The effect owner is given up while nothing is with the device. *)
Lemma disown_advances s : engine_ok s -> (forall i t, en_slots s !! i = Some t -> tr_running (ts_record t) = false) -> advances s (en_set_effect_owner None s).
Proof. intros [] Hno. split; [|done]. split; cbn; try done. intros i t Hi Hr. by rewrite (Hno i t Hi) in Hr. Qed.

Lemma owner_running s i j t : engine_ok s -> en_effect_owner s = Some i -> en_slots s !! j = Some t -> j <> i -> tr_running (ts_record t) = false.
Proof. intros Hs Ho Hj Hne. destruct (tr_running (ts_record t)) eqn:Hr; [|done]. pose proof (eo_running s Hs j t Hj Hr). congruence. Qed.

(** The slot that was written back is the finished one. *)
Definition safe_return (r : option (Result unit)) : Prop := match r with Some r => safe r | None => True end.
Lemma written_back s s' index t' : (index < length (en_slots s))%nat ->
  advances s (set_slot_at index t' s') /\ only index s (set_slot_at index t' s') /\ tr_complete (ts_record t') = true /\ tr_running (ts_record t') = false ->
  advances s (set_slot_at index t' s') /\ only index s (set_slot_at index t' s') /\ safe_return None /\
  (@None (Result unit) = None -> forall u, en_slots (set_slot_at index t' s') !! index = Some u -> tr_running (ts_record u) = false).
Proof.
  intros Hlt (Ha & Ho & _ & Hr). split_and!; [done|done|done|]. intros _ u Hu. cbn in Hu. pose proof (slots_length _ _ (ev_generations _ _ (proj2 Ha))) as El.
  cbn in El. rewrite length_insert in El. rewrite list_lookup_insert_eq in Hu by lia. by simplify_eq.
Qed.

Lemma execute_slot_spec s index t now : engine_ok s -> en_slots s !! index = Some t -> tr_active (ts_record t) = true -> tr_complete (ts_record t) = false ->
  tr_running (ts_record t) = false -> cm_action (cam_of_slot t) = 1 \/ (cm_action (cam_of_slot t) = 2 /\ en_effect_owner s = Some index) ->
  ensures (execute_slot backend options s index t now) (fun p => advances s p.1 /\ only index s p.1 /\ safe_return p.2 /\
    (p.2 = None -> forall u, en_slots p.1 !! index = Some u -> tr_running (ts_record u) = false)).
Proof.
  intros Hs Hi Hact Hcom Hrun Hall. set (n := tickets s). pose proof (engine_slot s index t Hs Hi) as Ht. fold n in Ht. unfold execute_slot.
  assert (Hlt : (index < length (en_slots s))%nat) by (by eapply lookup_lt_Some).
  set (t1 := if tr_revalidated _ then t else _).
  assert (H1 : still n t t1) by (unfold t1; case_match; [by apply still_refl|by apply revalidate_still]).
  pose proof (reschedule_still n t1 now (still_ok _ _ _ H1)) as H2. pose proof (reschedule_waits t1 now) as Hw.
  destruct (reschedule options t1 now) as [wait t2]. cbn [fst snd] in *. rewrite (fr_request _ _ (kp_frame _ _ _ (sl_keeps _ _ _ H1))) in Hw.
  pose proof (still_trans _ _ _ _ H1 H2) as H12. clear H1 H2. destruct wait.
  { apply ensures_Ok. cbn [fst]. assert (Ha : advances s (set_slot_at index t2 s)).
    { eapply set_slot_advances; [done|done|done|apply H12|]. rewrite (sl_running _ _ _ H12), Hrun. done. }
    split_and!; [|by apply set_slot_only|done|].
    2: { intros _ u Hu. cbn in Hu. rewrite list_lookup_insert_eq in Hu by done. injection Hu as <-. by rewrite (sl_running _ _ _ H12). }
    eapply advances_trans; [exact Ha|]. apply disown_advances; [apply Ha|]. destruct Hall as [H|[_ Hown]]; [rewrite Hw in H by done; lia|].
    intros j u Hj. cbn in Hj. destruct (decide (index = j)) as [<-|Hne].
    - rewrite list_lookup_insert_eq in Hj by done. injection Hj as <-. by rewrite (sl_running _ _ _ H12).
    - rewrite list_lookup_insert_ne in Hj by done. by eapply owner_running. }
  eapply ensures_bind; [apply (boundary_validate_still n), (still_ok _ _ _ H12)|]. intros t3 H3. pose proof (still_trans _ _ _ _ H12 H3) as Ht3. clear H12 H3 Hw.
  set (r := if is_profile _ _ && _ && _ then _ else (s, t3, false)).
  assert (Hr : let '(s', t', committed) := r in around s s' /\ keeps n t t' /\ tr_running (ts_record t') = false /\ (committed = false -> s' = s /\ still n t t')).
  { unfold r. destruct (_ && _ && _); [|by split_and!; [done|apply Ht3|rewrite (sl_running _ _ _ Ht3)|]].
    pose proof (try_commit_spec n s index t3 now eq_refl (still_ok _ _ _ Ht3)) as Hc. destruct (try_commit _ _ _ _ _ _) as [[s4 t4] c].
    destruct Hc as (? & Hk & ? & Hst); [by rewrite (sl_running _ _ _ Ht3)|]. split_and!; [done|by eapply keeps_trans; [apply Ht3|]|done|].
    intros Hf. destruct (Hst Hf). split; [done|by eapply still_trans]. }
  destruct r as [[s4 t4] committed]. destruct Hr as (Ha & Hk & Hr4 & Hst). destruct committed.
  - pose proof (finish_slot_advances s s4 index t t4 now Hs Ha Hi Hk Hcom Hrun Hr4) as Hf. destruct (finish _ _ _ _ _) as [s5 t5]. apply ensures_Ok. by apply written_back.
  - destruct (Hst eq_refl) as [-> Ht4]. eapply ensures_bind; [apply (step_loop_spec n)|].
    + done.
    + apply Hs.
    + apply (still_ok _ _ _ Ht4).
    + by rewrite (fr_active _ _ (kp_frame _ _ _ Hk)).
    + by rewrite (kp_complete _ _ _ Hk).
    + done.
    + rewrite (fr_request _ _ (kp_frame _ _ _ Hk)). tauto.
    + lia.
    + intros [[s5 t5] e] [Ha5 Hk5 Hr5 _]. cbn [fst snd] in *. pose proof (keeps_trans _ _ _ _ Hk Hk5) as Hk45. destruct e.
      * pose proof (finish_slot_advances s s5 index t t5 now Hs Ha5 Hi Hk45 Hcom Hrun Hr5) as Hf. destruct (finish _ _ _ _ _) as [s6 t6]. apply ensures_Ok. by apply written_back.
      * apply ensures_Ok. cbn [fst]. split_and!; [|apply set_slot_only, Ha5|done|done]. eapply set_slot_around; [done|done|done|done|]. intros _. right.
        destruct Hall as [H1|[_ Hown]]; [|done]. exfalso. assert (E2 : cm_action (cam_of_slot t5) = 2).
        { pose proof (proj2 (kp_ok _ _ _ Hk45)) as []. by destruct (rp_running0 Hr5) as (_ & _ & ? & _). }
        rewrite (fr_request _ _ (kp_frame _ _ _ Hk45)) in E2. lia.
      * apply ensures_Ok. cbn [fst]. split_and!; [|apply set_slot_only, Ha5|done|done]. eapply set_slot_around; [done|done|done|done|]. by rewrite Hr5.
Qed.

(** When nothing is with the device, or the slot does not act on it. *)
Lemma engine_progress_slot_spec s index running now : engine_ok s -> (index < length (en_slots s))%nat ->
  (running = false -> forall i t, en_slots s !! i = Some t -> tr_running (ts_record t) = false) ->
  ensures (progress_slot backend options s index running now) (fun p => advances s p.1 /\ only index s p.1 /\ safe_return p.2 /\
    (p.2 = None -> running = false -> forall u, en_slots p.1 !! index = Some u -> tr_running (ts_record u) = false) /\
    (en_quiescing s = true -> (forall t, en_slots s !! index = Some t -> tr_running (ts_record t) = true -> running = true) ->
       p.2 = None /\ forall t, en_slots p.1 !! index = Some t -> tr_active (ts_record t) = true -> tr_complete (ts_record t) = true \/ tr_running (ts_record t) = true)).
Proof.
  intros Hs [t Hi]%lookup_lt_is_Some_2 Hno. unfold progress_slot. rewrite Hi. cbn [deref rbind]. pose proof (engine_slot s index t Hs Hi) as Ht.
  assert (Hlt : (index < length (en_slots s))%nat) by (by eapply lookup_lt_Some).
  assert (Hstay : forall Q : Prop, (tr_active (ts_record t) = true -> tr_complete (ts_record t) = true \/ tr_running (ts_record t) = true) ->
    ensures (Ok (s, None : option (Result unit))) (fun p => advances s p.1 /\ only index s p.1 /\ safe_return p.2 /\
       (p.2 = None -> running = false -> forall u, en_slots p.1 !! index = Some u -> tr_running (ts_record u) = false) /\ (en_quiescing s = true -> Q ->
       p.2 = None /\ forall t, en_slots p.1 !! index = Some t -> tr_active (ts_record t) = true -> tr_complete (ts_record t) = true \/ tr_running (ts_record t) = true))).
  { intros Q H. apply ensures_Ok. split_and!; [by split|done|done|intros _ Hf; by apply Hno|]. intros _ _. split; [done|]. cbn. intros u Hu. by simplify_eq. }
  destruct (tr_active (ts_record t)) eqn:Hact; cbn [negb orb]; [|by apply Hstay]. destruct (tr_complete (ts_record t)) eqn:Hcom; [by apply Hstay; auto|].
  destruct (en_quiescing s) eqn:Hq; cbn [andb].
  - destruct (tr_running (ts_record t)) eqn:Hrun; cbn [negb].
    + pose proof (proj2 Ht) as []. destruct (rp_running0 Hrun) as (_ & _ & E2 & _). rewrite E2. cbn [Z.eqb Pos.eqb negb]. rewrite andb_true_r.
      destruct running; [by apply Hstay; auto|]. by rewrite (Hno eq_refl index t Hi) in Hrun.
    + set (t1 := on_record _ _). assert (Hk : keeps (tickets s) t t1).
      { eapply keeps_trans; [|apply keeps_step]; [|]. 1,2: unfold cancel_pending; eapply keeps_outcomes; [done|]; rewrite length_imap; apply Ht. }
      pose proof (finish_slot_advances s s index t t1 now Hs (reflexivity s) Hi Hk Hcom Hrun Hrun) as Hf. destruct (finish _ _ _ _ _) as [s2 t2].
      pose proof (written_back _ _ _ _ Hlt Hf) as (_ & _ & _ & Hwb).
      destruct Hf as (Ha & Honly & Hc2 & _). apply ensures_Ok. cbn [fst snd]. split_and!; [done|done|done|by auto|]. intros _ _. split; [done|].
      intros u Hu _. cbn in Hu. pose proof (slots_length _ _ (ev_generations _ _ (proj2 Ha))) as El. cbn in El. rewrite length_insert in El.
      rewrite list_lookup_insert_eq in Hu by lia. left. by simplify_eq.
  - destruct (running && _) eqn:Er; [apply ensures_Ok; split_and!; [by split|done|done|intros _ Hf; by apply Hno|done]|].
    destruct ((_ =? 2) && _) eqn:Eo; [apply ensures_Ok; split_and!; [by split|done|done|intros _ Hf; by apply Hno|done]|].
    assert (Hrun : tr_running (ts_record t) = false).
    { destruct (tr_running (ts_record t)) eqn:Hrun; [|done]. pose proof (proj2 Ht) as []. destruct (rp_running0 Hrun) as (_ & _ & E2 & _). rewrite E2 in Er. cbn in Er.
      rewrite andb_true_r in Er. by rewrite (Hno Er index t Hi) in Hrun. }
    destruct (Z.eqb_spec (cm_action (cam_of_slot t)) 0) as [E0|E0].
    + pose proof (finish_slot_advances s s index t t now Hs (reflexivity s) Hi (keeps_refl _ _ Ht) Hcom Hrun Hrun) as Hf. destruct (finish _ _ _ _ _) as [s2 t2].
      pose proof (written_back _ _ _ _ Hlt Hf) as (_ & _ & _ & Hwb). apply ensures_Ok. split_and!; [apply Hf|apply Hf|done|by auto|done].
    + eapply ensures_mono; [apply execute_slot_spec; try done|intros p (? & ? & ? & ?); split_and!; by auto].
      pose proof (pp_action _ _ (proj1 Ht)) as Hcam.
      destruct (Z.eqb_spec (cm_action (cam_of_slot t)) 2) as [E2|E2]; [right; split; [done|]; cbn in Eo; by apply negb_false_iff, bool_decide_eq_true in Eo|left; lia].
Qed.

Lemma engine_progress_loop_spec now running : forall n index s, engine_ok s -> (index + n = length (en_slots s))%nat ->
  (running = false -> forall i t, en_slots s !! i = Some t -> tr_running (ts_record t) = false) ->
  ensures (progress_loop backend options n index s running now) (fun p => advances s p.2 /\ safe p.1 /\
    (en_quiescing s = true -> (forall i t, en_slots s !! i = Some t -> tr_running (ts_record t) = true -> running = true) ->
       p.1 = Ok tt /\ (forall j, (j < index)%nat -> en_slots p.2 !! j = en_slots s !! j) /\
       forall i t, (index <= i)%nat -> en_slots p.2 !! i = Some t -> tr_active (ts_record t) = true -> tr_complete (ts_record t) = true \/ tr_running (ts_record t) = true)).
Proof.
  induction n as [|n IH]; intros index s Hs Hlen Hno; cbn [progress_loop].
  - apply ensures_Ok. split_and!; [by split|done|]. intros _ _. split_and!; [done|done|]. cbn. intros i t Hi Ht%lookup_lt_Some. lia.
  - eapply ensures_bind; [apply engine_progress_slot_spec; [done|lia|done]|]. intros [s1 ret] (Ha & Ho & Hsr & Hno1 & Hq). cbn [fst snd] in *.
    destruct ret as [r|].
    + apply ensures_Ok. split_and!; [done|exact Hsr|]; cbn [fst snd]. intros H1 H2. destruct (Hq H1) as [? _]; [intros t0 ? ?; by eapply H2|done].
    + pose proof (slots_length _ _ (ev_generations _ _ (proj2 Ha))) as El. eapply ensures_mono; [apply IH; [apply Ha|lia|]|].
      * intros Hf i t Hi. destruct (decide (i = index)) as [->|Hne]; [by eapply Hno1|]. rewrite Ho in Hi by done. by eapply Hno.
      * intros [r s2] (Ha2 & Hsafe & Hq2). cbn [fst snd] in *. split_and!; [by eapply advances_trans|done|]. intros Hqs Hrun.
        destruct (Hq Hqs) as [_ Hdone]; [intros; by eapply Hrun|]. destruct Hq2 as (Hr & Hsame & Hrest); [by rewrite (ev_quiescing _ _ (proj2 Ha))| |].
        { intros i t Hi Ht. destruct running; [done|]. exfalso. destruct (decide (i = index)) as [->|Hne]; [by rewrite (Hno1 eq_refl eq_refl _ Hi) in Ht|].
          rewrite Ho in Hi by done. by rewrite (Hno eq_refl _ _ Hi) in Ht. }
        split_and!; [done| |].
        -- intros j Hj. rewrite Hsame by lia. apply Ho. lia.
        -- intros i t Hi Ht. destruct (decide (i = index)) as [->|Hne]; [rewrite Hsame in Ht by lia; by apply Hdone|]. apply (Hrest i t); [lia|done].
Qed.

Lemma choose_owner_spec now l : forall i best owner, choose_owner now i l best = Some owner ->
  (exists b q, best = Some (owner, b, q)) \/ exists t, l !! (owner - i)%nat = Some t /\ (i <= owner)%nat /\ open_action 2 t = true.
Proof.
  induction l as [|t l IH]; intros i best owner; cbn [choose_owner].
  - destruct best as [[[o b] q]|]; [|done]. cbn. intros [= <-]. left. eauto.
  - intros H. apply IH in H as [(b & q & Hb)|(u & Hu & Hle & Ho)].
    + unfold due in Hb. destruct (open_action 2 t) eqn:Et; cbn [negb] in Hb; [|left; eauto].
      assert (Hcase : best = Some (owner, b, q) \/ owner = i).
      { destruct (_ && time_ltb _ _); [by left|]. destruct best as [[[o b'] q']|]; [destruct (_ || _)|]; simplify_eq; auto. }
      destruct Hcase as [->| ->]; [left; eauto|right]. exists t. by rewrite Nat.sub_diag.
    + right. exists u. split_and!; [|lia|done]. by replace (owner - i)%nat with (S (owner - S i))%nat by lia.
Qed.

Lemma own_advances s now : engine_ok s -> en_effect_owner s = None -> advances s (en_set_effect_owner (choose_owner now 0 (en_slots s) None) s).
Proof.
  intros Hs Hn. split; [|done]. assert (Hno : forall i t, en_slots s !! i = Some t -> tr_running (ts_record t) = true -> False).
  { intros i t Hi Hr. pose proof (eo_running s Hs i t Hi Hr). congruence. }
  destruct Hs. split; cbn; try done.
  - intros i t Hi Hr. exfalso. eauto.
  - intros i Hi. apply choose_owner_spec in Hi as [(? & ? & [=])|(t & Ht & _ & Ho)]. rewrite Nat.sub_0_r in Ht. eauto.
Qed.

Lemma progressing_ok s b : engine_ok s -> engine_ok (en_set_progressing b s).
Proof. intros []. by split. Qed.

Lemma progress_spec s now : engine_ok s -> ensures (progress backend options s now) (fun p => advances s p.2 /\ safe p.1 /\
  (en_progressing s = false -> en_quiescing s = true -> p.1 = Ok tt /\
     forall i t, en_slots p.2 !! i = Some t -> tr_active (ts_record t) = true -> tr_complete (ts_record t) = true \/ tr_running (ts_record t) = true)).
Proof.
  intros Hs. unfold progress. destruct (en_progressing s) eqn:Hp; [by apply ensures_Ok; split_and!|].
  set (s0 := observe_backend_faults _). assert (H0 : advances (en_set_progressing true s) s0) by (apply observe_backend_faults_ok; by apply progressing_ok).
  eapply ensures_bind; [apply scan_tickets_ok, H0|]. intros s1 H1; cbv beta in H1. pose proof (advances_trans _ _ _ H0 H1) as H01.
  set (s2 := match en_effect_owner s1 with Some _ => s1 | None => _ end). assert (H2 : advances (en_set_progressing true s) s2 /\ en_slots s2 = en_slots s1).
  { unfold s2. destruct (en_effect_owner s1) eqn:Eo; [done|]. split; [|done]. eapply advances_trans; [exact H01|]. by apply own_advances; [apply H01|]. }
  destruct H2 as [H2 Es]. rewrite <- Es. eapply ensures_bind; [apply engine_progress_loop_spec; [apply H2|lia|]|].
  - intros Hf i t Hi. destruct (tr_running (ts_record t)) eqn:Hr; [|done]. rewrite <- not_true_iff_false, existsb_exists in Hf. exfalso. apply Hf. exists t.
    split; [apply list_elem_of_In; by eapply list_elem_of_lookup_2|]. unfold is_running. rewrite Hr, andb_true_r.
    pose proof (engine_slot s2 i t (proj1 H2) Hi) as [_ []]. by apply rp_running0.
  - intros [r s3] (H3 & Hsafe & Hq). cbn [fst snd] in *. pose proof (advances_trans _ _ _ H2 H3) as [H5 H6]. apply ensures_Ok. cbn [fst snd]. split_and!; [|done|].
    + split; [by apply progressing_ok|]. destruct H6. by split.
    + intros _ Hqs. destruct Hq as (Hr & _ & Hall); [rewrite (ev_quiescing _ _ (proj2 H2)); done| |split; [done|intros i t; apply Hall; lia]].
      intros i t Hi Ht. apply existsb_exists. exists t. split; [apply list_elem_of_In; by eapply list_elem_of_lookup_2|]. unfold is_running. rewrite Ht, andb_true_r.
      pose proof (engine_slot s2 i t (proj1 H2) Hi) as [_ []]. by apply rp_running0.
Qed.

(** ** Acceptance *)

Lemma token_abandon_ensures tk k : (tk_slot k < length (slots tk))%nat -> ensures (token_abandon tk k) (fun p => length (slots p.1) = length (slots tk)).
Proof.
  intros Hk. unfold token_abandon. destruct (negb _); [by apply ensures_Ok|]. eapply ensures_bind; [by apply publish_ensures|]. intros [b t] H. by apply ensures_Ok.
Qed.
Lemma abandon_tokens_ensures l : forall tk, Forall (fun k => (tk_slot k < length (slots tk))%nat) l -> ensures (abandon_tokens tk l) (fun t => length (slots t) = length (slots tk)).
Proof.
  induction l as [|k l IH]; intros tk Hl; cbn; [by apply ensures_Ok|]. apply list.Forall_cons in Hl as [Hk Hl].
  eapply ensures_bind; [by apply token_abandon_ensures|]. intros [t k'] H. cbn in H. eapply ensures_mono; [apply IH; by rewrite H|]. intros t2 H2. cbv beta in H2. congruence.
Qed.
Lemma release_tokens_ensures l : forall tk, Forall (fun k => (tk_slot k < length (slots tk))%nat) l -> ensures (release_tokens tk l) (fun t => length (slots t) = length (slots tk)).
Proof.
  induction l as [|k l IH]; intros tk Hl; cbn; [by apply ensures_Ok|]. apply list.Forall_cons in Hl as [Hk Hl].
  eapply (ensures_bind _ _ (fun t => length (slots t) = length (slots tk))).
  - unfold release_token. eapply ensures_bind; [by apply token_abandon_ensures|]. intros [t k'] H. cbn in H. case_match; [|by apply ensures_Ok].
    apply ensures_rmap. eapply ensures_mono; [apply consume_ensures|]. intros p Hp. cbv beta in Hp. congruence.
  - intros t H. cbv beta in H. eapply ensures_mono; [apply IH; by rewrite H|]. intros t2 H2. cbv beta in H2. congruence.
Qed.

Lemma around_ok s s' : engine_ok s -> around s s' -> advances s s'.
Proof.
  intros Hs [Es [Et Er] Hc Ho Hq Hp Hsh]. split; [|split; [unfold generations; by rewrite Es|done|done|by rewrite Es]].
  destruct Hs. split; rewrite ?Es, ?Et, ?Er, ?Ho; auto.
Qed.
Lemma around_tickets s co : same_size (en_shared s) co -> around s (en_set_shared co s).
Proof. intros H. by split. Qed.
Lemma drop_credits_around s c : around s (drop_credits s c).
Proof. by split. Qed.

(** A slot without transaction is replaced. *)
Lemma replace_inactive s s1 i t t' : engine_ok s -> around s s1 -> en_slots s !! i = Some t -> tr_active (ts_record t) = false ->
  slot_ok (tickets s) t' -> tr_running (ts_record t') = false -> tr_generation (ts_record t') = tr_generation (ts_record t) ->
  advances s (set_slot_at i t' s1).
Proof.
  intros Hs Ha Hi Hin Ht' Hr Hg. assert (Hlen : (i < length (en_slots s))%nat) by (by eapply lookup_lt_Some). destruct Ha as [Es [Et Er] Hc Ho Hq Hp Hsh].
  split; [|split; cbn; [by apply (generations_insert s s1 i t)|done|done|]]; [|rewrite Es; eapply grows_insert; [done|by intros ?; congruence]].
  destruct Hs. split; cbn; rewrite ?Es, ?Ho, ?length_insert, ?Er; try done.
  - rewrite Et. by apply Forall_insert.
  - by rewrite Et.
  - rewrite Et. auto.
  - auto.
  - intros j u Hj Hu. destruct (decide (i = j)) as [<-|Hne].
    + rewrite list_lookup_insert_eq in Hj by done. simplify_eq. congruence.
    + rewrite list_lookup_insert_ne in Hj by done. eauto.
  - intros j Hj. destruct (eo_owner0 j Hj) as (u & Hu & Hop). destruct (decide (i = j)) as [<-|Hne].
    + exfalso. simplify_eq. unfold open_action in Hop. by rewrite Hin in Hop.
    + rewrite list_lookup_insert_ne by done. eauto.
Qed.

Lemma map_slots_advances s g : engine_ok s ->
  (forall i t, en_slots s !! i = Some t -> keeps (tickets s) t (g i t) /\ tr_running (ts_record (g i t)) = tr_running (ts_record t)) ->
  advances s (en_set_slots (imap g (en_slots s)) s).
Proof.
  intros Hs Hg. split.
  - destruct Hs. split; cbn; rewrite ?length_imap; try done.
    + apply Forall_lookup. intros i u Hu. rewrite list_lookup_imap in Hu. destruct (en_slots s !! i) as [t|] eqn:Ei; [|done]. cbn in Hu. simplify_eq. by apply Hg.
    + intros i u Hu Hr. rewrite list_lookup_imap in Hu. destruct (en_slots s !! i) as [t|] eqn:Ei; [|done]. cbn in Hu. simplify_eq.
      rewrite (proj2 (Hg i t Ei)) in Hr. eauto.
    + intros i Hi. destruct (eo_owner0 i Hi) as (t & Ht & Ho). exists (g i t). rewrite list_lookup_imap, Ht. split; [done|].
      by rewrite (open_action_keeps _ _ _ 2 (proj1 (Hg i t Ht))).
  - split; [|done|done|].
    + unfold generations. cbn. apply list_eq. intros i. rewrite !list_lookup_fmap, list_lookup_imap.
      destruct (en_slots s !! i) as [t|] eqn:Ei; [|done]. cbn. by rewrite (fr_generation _ _ (kp_frame _ _ _ (proj1 (Hg i t Ei)))).
    + cbn. apply Forall2_same_length_lookup. split; [by rewrite length_imap|]. intros i t u Ht Hu. rewrite list_lookup_imap, Ht in Hu. cbn in Hu. simplify_eq.
      apply frame_grows, Hg, Ht.
Qed.

Lemma stop_starts_advances s index t : engine_ok s -> advances s (stop_starts options s index t) /\ en_slots (stop_starts options s index t) !! index = en_slots s !! index /\
  tickets (stop_starts options s index t) = tickets s.
Proof.
  intros Hs. unfold stop_starts. destruct (_ && _); [|by split_and!]. split_and!; [|cbn|done].
  - apply map_slots_advances; [done|]. intros i u Hu. pose proof (engine_slot s i u Hs Hu) as Hok. unfold stop_start. case_match; [|by split; [apply keeps_refl|]].
    split; [|done]. eapply keeps_trans; [apply (keeps_schedule_valid _ u false Hok)|]. apply (keeps_cancelled _ (on_plan (ps_set_schedule_valid false) u)); [apply (keeps_schedule_valid _ u false Hok)|]. cbn. rewrite length_insert. apply Hok.
  - rewrite list_lookup_imap. destruct (en_slots s !! index); [|done]. cbn. unfold stop_start. by rewrite Nat.eqb_refl.
Qed.

Lemma plan_validate_fresh n s index t st : (rq_count (request_of t) <= 5)%nat -> ep_order (execution t) = replicate 5 0%nat ->
  (forall p, plan_ok profile (request_of t) p -> slot_ok n (on_execution (fun _ => p) t)) ->
  let '(res, t') := plan_validate backend options s index t st in safe res /\ slot_ok n t' /\ frame t t' /\ ts_record t' = ts_record t.
Proof.
  intros Hc Ho Hok. unfold plan_validate. assert (Hl : length (ep_order (execution t)) = 5%nat) by (by rewrite Ho).
  assert (Hb : Forall (fun i => (i < rq_count (request_of t))%nat \/ rq_count (request_of t) = 0%nat) (ep_order (execution t))).
  { rewrite Ho. apply Forall_replicate. lia. }
  pose proof (validate_plan_ok profile (snd <$> op_sdr_capabilities options) ((fun f => f (en_backend s)) <$> be_validate backend)
    ((fun f => f (en_backend s)) <$> be_validate_plan backend) (is_some (be_commit backend)) (request_of t) (execution t)
    (ps_time_known (ts_plan t)) (ps_data_running (ts_plan t)) (armed_elsewhere s index) st Hc Hl Hb) as Hp.
  pose proof (plan_order_facts profile (snd <$> op_sdr_capabilities options) ((fun f => f (en_backend s)) <$> be_validate backend)
    ((fun f => f (en_backend s)) <$> be_validate_plan backend) (is_some (be_commit backend)) (request_of t)
    (ps_time_known (ts_plan t)) (ps_data_running (ts_plan t)) (armed_elsewhere s index) st (execution t) Hc Hl) as Hf.
  destruct (validate_plan _ _ _ _ _ _ _ _ _ _ _) as [res p]. cbn [snd] in Hp. destruct Hf as ([-> | ->] & _); split_and!; try done; by apply Hok.
Qed.

(** A new transaction: everything but the plan is in place. *)
Lemma new_slot_ok n s t request revisions now : (0 < n)%nat -> slot_ok n t -> tr_active (ts_record t) = false ->
  request_ok profile request -> 0 <= cm_action (rq_cam request) <= 2 ->
  (cm_action (rq_cam request) = 2 -> is_some (be_begin backend) = true) -> (cm_action (rq_cam request) = 1 -> is_some (be_simulate backend) = true) ->
  let t' := on_plan (fun _ => new_plan options request revisions now) (on_record (new_record (B := B) (E := E) s) t) in
  forall p, plan_ok profile (request_of t') p -> slot_ok n (on_execution (fun _ => p) t').
Proof.
  intros Hn [_ [H1 H2 H3 H4 H5]] Hin Hreq Hact Hb Hsim t' p Hp. split; [split|split]; cbn; try done; try lia. by repeat constructor.
Qed.

Lemma reserve_tickets_spec now index : forall n i s t, slot_ok (tickets s) t -> (i + n <= 4)%nat ->
  ensures (reserve_tickets n i s index t now) (fun p => around s p.1.2 /\ slot_ok (tickets s) p.2 /\ request_of p.2 = request_of t /\ ts_record p.2 = ts_record t /\
    ts_credits p.2 = ts_credits t).
Proof.
  induction n as [|n IH]; intros i s t Ht Hi; cbn [reserve_tickets]; [by apply ensures_Ok|]. cbv zeta.
  cbn [en_shared en_set_next_ticket_operation co_tickets].
  destruct (reserve_cases (co_tickets (en_shared s)) (en_next_ticket_operation s)) as [(k & g & sl & Hsl & ->)| ->].
  2: { apply ensures_Ok. cbn. by split_and!. }
  apply lookup_lt_Some in Hsl as Hk.
  set (s1 := en_set_shared (update_result _ _ _) _). set (t1 := on_plan _ t).
  assert (Hsz : same_size (en_shared s) (en_shared s1)).
  { etransitivity; [|apply update_result_size]. apply set_tickets_size. apply set_slot_length. }
  assert (Hs1 : around s s1) by (by split). assert (Hn1 : tickets s1 = tickets s) by apply Hsz.
  assert (Ht1 : slot_ok (tickets s) t1).
  { destruct Ht as [[] []]. split; [split|split]; cbn; rewrite ?length_insert; try done. by apply Forall_insert. }
  eapply ensures_mono; [apply IH; [by rewrite Hn1|lia]|]. intros [[e s2] t2] (H1 & H2 & H3 & H4 & H5). cbn [fst snd] in *. rewrite Hn1 in H2.
  split_and!; [by transitivity s1|done|done|done|done].
Qed.

(** Which slots hold a transaction. *)
Definition actives (s : Engine) : list bool := (fun t => tr_active (ts_record t)) <$> en_slots s.

Lemma actives_insert s s1 i t : actives s1 = actives s -> actives (set_slot_at i t s1) = <[i := tr_active (ts_record t)]> (actives s).
Proof. intros <-. unfold actives. cbn. by rewrite list_fmap_insert. Qed.
Lemma actives_around s s' : en_slots s' = en_slots s -> actives s' = actives s.
Proof. unfold actives. by intros ->. Qed.
Lemma stop_starts_actives s index t : actives (stop_starts options s index t) = actives s.
Proof.
  unfold stop_starts, actives. destruct (_ && _); [|done]. cbn. apply list_eq. intros i. rewrite !list_lookup_fmap, list_lookup_imap.
  destruct (en_slots s !! i); [|done]. cbn. unfold stop_start. by destruct (_ && _).
Qed.
Lemma actives_inactive s i t : en_slots s !! i = Some t -> tr_active (ts_record t) = false -> <[i := false]> (actives s) = actives s.
Proof. intros Hi Ha. apply list_insert_id. unfold actives. by rewrite list_lookup_fmap, Hi, <- Ha. Qed.

Lemma schedule_record t now : ts_record (schedule options t now) = ts_record t.
Proof. unfold schedule. cbv zeta. repeat case_match; done. Qed.
Lemma boundary_validate_record (s : Engine) t t' : boundary_validate options s t = Ok t' -> ts_record t' = ts_record t.
Proof. unfold boundary_validate. intros H. apply rbind_Ok in H as (p & _ & H). by injection H as <-. Qed.

(** What a client gets: a transaction of its own that has not started. *)
Definition opened (request : Request) (s' : Engine) (h : Handle) : Prop :=
  exists t, en_slots s' !! h_slot h = Some t /\ tr_active (ts_record t) = true /\ tr_generation (ts_record t) = h_generation h /\
    tr_complete (ts_record t) = false /\ tr_running (ts_record t) = false /\ tr_response_read (ts_record t) = 0%nat /\ request_of t = request.
Definition accept_result (request : Request) (s : Engine) (p : Result Handle * Engine) : Prop :=
  advances s p.2 /\
  match p.1 with
  | Ok h => opened request p.2 h /\ actives s !! h_slot h = Some false /\ actives p.2 = <[h_slot h := true]> (actives s)
  | Err _ => actives p.2 = actives s
  | UB => False
  end.

(** A slot on its way to a transaction. *)
Record fresh (t0 t : TxSlot) : Prop := mk_fresh {
  fs_active : tr_active (ts_record t) = false;
  fs_complete : tr_complete (ts_record t) = false;
  fs_running : tr_running (ts_record t) = false;
  fs_responses : tr_responses (ts_record t) = [];
  fs_read : tr_response_read (ts_record t) = 0%nat;
  fs_generation : tr_generation (ts_record t) = tr_generation (ts_record t0)
}.
Lemma fresh_record t0 t t' : fresh t0 t -> ts_record t' = ts_record t -> fresh t0 t'.
Proof. intros [] Hr. by split; rewrite Hr. Qed.

(** A refused command leaves its slot inactive. *)
Lemma refuse_slot s s1 index t0 t e : engine_ok s -> around s s1 -> en_slots s !! index = Some t0 -> tr_active (ts_record t0) = false ->
  slot_ok (tickets s) t -> fresh t0 t -> forall credits request, accept_result request s (Err e, drop_credits (set_slot_at index t s1) credits).
Proof.
  intros Hs Ha Hi Hin Ht Hf credits request. split; cbn [fst snd].
  - pose proof (replace_inactive s s1 index t0 t Hs Ha Hi Hin Ht (fs_running _ _ Hf) (fs_generation _ _ Hf)) as [[] []]. by split.
  - change (actives (set_slot_at index t s1) = actives s). rewrite (actives_insert s) by (by apply actives_around, Ha). rewrite (fs_active _ _ Hf). by eapply actives_inactive.
Qed.

Lemma accept_plan_spec s index t0 t credits now : engine_ok s -> en_slots s !! index = Some t0 -> tr_active (ts_record t0) = false -> tr_generation (ts_record t0) < U64_MAX ->
  fresh t0 t -> (rq_count (request_of t) <= 5)%nat -> ep_order (execution t) = replicate 5 0%nat ->
  (forall p, plan_ok profile (request_of t) p -> slot_ok (tickets s) (on_execution (fun _ => p) t)) ->
  ensures (accept_plan backend options s index t credits now) (accept_result (request_of t) s).
Proof.
  intros Hs Hi Hin Hg Hf Hc Ho Hok. unfold accept_plan.
  pose proof (plan_validate_fresh (tickets s) s index t (en_state s) Hc Ho Hok) as Hv. destruct (plan_validate _ _ _ _ _ _) as [res t1]. destruct Hv as (Hsafe & Ht1 & Hfr & Er1).
  pose proof (fresh_record _ _ _ Hf Er1) as Hf1. destruct res as [[]|e|]; [|clear Hsafe|done].
  2: { pose proof (reset_revisions_spec (tickets s) s t1 Ht1) as Hr. destruct (reset_revisions _ _ _) as [s2 t2]. destruct Hr as (Hout & Hk & _ & _ & Er & _).
       apply ensures_Ok. eapply refuse_slot; [done|by apply outside_around|done|done|apply Hk|by eapply fresh_record]. }
  set (t2 := schedule _ t1 now). assert (H2 : still (tickets s) t1 t2) by (by apply schedule_still). pose proof (fresh_record _ _ _ Hf1 (schedule_record t1 now)) as Hf2. fold t2 in Hf2.
  destruct (stop_starts_advances s index t2 Hs) as (Ha & Es & En). set (s1 := stop_starts _ _ _ _) in *. assert (Hact1 : actives s1 = actives s) by apply stop_starts_actives.
  rewrite <- Es in Hi. destruct (boundary_validate_still (tickets s) s1 t2 (still_ok _ _ _ H2)) as (t3 & E3 & H3). pose proof (boundary_validate_record s1 _ _ E3) as Er3. rewrite E3. clear E3. cbn [rbind].
  pose proof (fresh_record _ _ _ Hf2 Er3) as Hf3. pose proof (still_trans _ _ _ _ H2 H3) as H13. clear H2 H3 Er3.
  eapply ensures_bind; [apply reserve_tickets_spec; [rewrite En; apply (still_ok _ _ _ H13)|lia]|]. intros [[failure s4] t4] (Har & Ht4 & Eq4 & Er4 & _). cbn [fst snd] in *. rewrite En in Ht4.
  pose proof (fresh_record _ _ _ Hf3 Er4) as Hf4. assert (Eq : request_of t4 = request_of t).
  { rewrite Eq4, (fr_request _ _ (kp_frame _ _ _ (sl_keeps _ _ _ H13))). apply Hfr. }
  destruct failure as [e|].
  - eapply ensures_bind; [apply release_tokens_ensures; rewrite (proj1 (ar_size _ _ Har) : length _ = _), En; apply Ht4|]. intros tks Htk; cbv beta in Htk.
    set (s5 := en_set_shared _ s4). assert (H5 : around s1 s5) by (transitivity s4; [done|apply around_tickets; by apply set_tickets_size]).
    set (t5 := on_plan _ t4). assert (Ht5 : slot_ok (tickets s) t5).
    { destruct Ht4 as [[] []]. split; [split|split]; cbn; try done. repeat constructor; cbn; pose proof (eo_some s Hs); pose proof (eo_tickets s Hs); lia. }
    pose proof (reset_revisions_spec (tickets s) s5 t5 Ht5) as Hr. destruct (reset_revisions _ s5 t5) as [s6 t6]. destruct Hr as (Hout & Hk & _ & _ & Er & _).
    apply ensures_Ok. destruct (refuse_slot s1 s6 index t0 t6 e) with (credits := credits) (request := request_of t) as [H6 H7]; [apply Ha| |done|done|rewrite En; apply Hk| |].
    + transitivity s5; [done|by apply outside_around].
    + by eapply fresh_record.
    + split; [by eapply advances_trans|]. cbn [fst snd] in *. congruence.
  - apply ensures_Ok. set (s5 := en_set_next_sequence _ _). assert (H5 : around s1 s5) by (destruct Har; by split). clearbody s5.
    set (t5 := on_record _ (ts_set_credits credits t4)). assert (Ht5 : slot_ok (tickets s) t5).
    { destruct Ht4 as [[] []], Hf4. split; [split|split]; cbn; try done; [by rewrite fs_running0|]. intros _. by rewrite fs_generation0. }
    pose proof (queue_ack_validation (tickets s) t5 (en_state s5) now Ht5 (fs_responses _ _ Hf4)) as [Hk1 Hk2 Hk3].
    destruct (queue_ack_spec t5 AckKind.validation (en_state s5) now) as (_ & _ & l & Er6 & _). set (t6 := queue_ack _ t5 _ _ _) in *. rewrite <- En in Hk1.
    assert (Hrun6 : tr_running (ts_record t6) = false) by (rewrite Er6; apply Hf4). destruct Hk2 as [Hq _ Hgen Hact6]. split; cbn [fst snd].
    + eapply advances_trans; [exact Ha|]. eapply replace_inactive; [apply Ha|done|done|done|done|done|]. rewrite Hgen. apply Hf4.
    + split_and!.
      * exists t6. cbn. rewrite (ar_slots _ _ H5), list_lookup_insert_eq by (by eapply lookup_lt_Some). split_and!; try done; [rewrite Hk3; apply Hf4|rewrite Er6; apply Hf4|rewrite Hq; exact Eq].
      * rewrite <- Hact1. unfold actives. cbn. rewrite list_lookup_fmap, Hi. cbn. by rewrite Hin.
      * rewrite (actives_insert s) by (by rewrite (actives_around s1 s5), Hact1; [|apply H5]). by rewrite Hact6.
Qed.

(** The sink answers without undefined behaviour. *)
Definition sink_safe : Prop := forall f e pool n, es_reserve (op_effects options) = Some f -> safe (f e pool n).1.1.

Lemma check_accept_spec s packet now : Forall view_ok (pv_fields packet) ->
  match check_accept backend options s packet now with
  | Ok r => request_from packet profile = Ok r /\ request_ok profile r /\ 0 <= cm_action (rq_cam r) <= 2 /\
      (cm_action (rq_cam r) = 2 -> is_some (be_begin backend) = true) /\ (cm_action (rq_cam r) = 1 -> is_some (be_simulate backend) = true)
  | Err _ => True
  | UB => False
  end.
Proof.
  intros Hv. unfold check_accept. repeat (test_goal Ec; [done|]; clear Ec). pose proof (request_from_safe packet profile Hv) as Hsafe.
  destruct (request_from packet profile) as [r|e|] eqn:Er; [|done|done]. cbn [rbind]. apply request_from_ok in Er as (Hr & Hc & _). apply cam_parse_action in Hc.
  test_goal Ec; [done|]. apply orb_false_iff in Ec as [E1 E2]. repeat (test_goal Ex; [done|]; clear Ex). split_and!; try done; try lia.
  - intros H2. rewrite H2 in E1. cbn in E1. by destruct (be_begin backend).
  - intros H1. rewrite H1 in E2. cbn in E2. by destruct (be_simulate backend).
Qed.

Lemma find_slot_spec (s : Engine) i : find_slot s = Some i -> exists t, en_slots s !! i = Some t /\ tr_active (ts_record t) = false /\ tr_generation (ts_record t) <> U64_MAX.
Proof.
  unfold find_slot. intros [(p & Hp & Hu) _]%first_index_Some. rewrite list_lookup_imap in Hp. destruct (en_slots s !! i) as [t|]; [|done]. cbn in Hp. injection Hp as <-.
  unfold usable in Hu. rewrite !andb_true_iff, !negb_true_iff, Z.eqb_neq in Hu. cbn in Hu. exists t. tauto.
Qed.

Lemma plan_default_ok n : (0 < n)%nat -> plan_part n plan_default.
Proof.
  intros Hn. split; try done.
  - by repeat constructor.
  - split_and!; [cbn; lia|apply NoDup_nil_2|constructor].
  - split; try done. cbn. repeat constructor; by right.
Qed.

Lemma observe_backend_faults_slots (s : Engine) : en_slots (observe_backend_faults s) = en_slots s.
Proof.
  unfold observe_backend_faults. generalize (seq 0 (length (co_results (en_shared s)))). intros l. revert s.
  induction l as [|i l IH]; intros s; cbn; [done|]. rewrite IH. unfold observe_fault. repeat case_match; done.
Qed.

Lemma accept_result_from r s s0 p : advances s s0 -> actives s0 = actives s -> accept_result r s0 p -> accept_result r s p.
Proof.
  intros Ha He [H1 H2]. split; [by eapply advances_trans|]. destruct p.1 as [h| |]; [|congruence|done]. by rewrite <- He.
Qed.
Lemma refused r s s' e : advances s s' -> en_slots s' = en_slots s -> accept_result r s (Err e, s').
Proof. intros Ha Hs. split; [done|]. by apply actives_around. Qed.

Lemma destroy_plan_spec s t : engine_ok s -> slot_ok (tickets s) t -> ensures (destroy_plan options s t) (around s).
Proof.
  intros Hs Ht. unfold destroy_plan. pose proof (reset_revisions_spec (tickets s) s t Ht) as Hr. destruct (reset_revisions _ _ _) as [s1 t1].
  destruct Hr as (Ho & Hk & _). pose proof (outside_around _ _ Ho) as Ha. eapply ensures_bind; [apply abandon_tokens_ensures|].
  - change (Forall (fun k => (tk_slot k < tickets s1)%nat) (ps_tokens (ts_plan t1))). rewrite (proj1 (ar_size _ _ Ha)). apply Hk.
  - intros tk Htk; cbv beta in Htk. apply ensures_Ok. transitivity s1; [done|]. apply around_tickets. by apply set_tickets_size.
Qed.

Lemma acquire_safe pool q : safe (admission_acquire pool q).1.
Proof. unfold admission_acquire. repeat case_match; done. Qed.

Lemma accept_spec s packet now : sink_safe -> engine_ok s -> Forall view_ok (pv_fields packet) ->
  ensures (accept backend options plan_size s packet now) (fun p => exists r, accept_result r s p /\ (is_ok p.1 = true -> request_from packet profile = Ok r)).
Proof.
  intros Hsink Hs Hv. unfold accept. pose proof (observe_backend_faults_ok s Hs) as H0. pose proof (observe_backend_faults_slots s) as E0. set (s0 := observe_backend_faults s) in *.
  assert (Hrefuse : forall s' e, advances s s' -> en_slots s' = en_slots s -> ensures (Ok (Err e : Result Handle, s')) (fun p => exists r, accept_result r s p /\ (is_ok p.1 = true -> request_from packet profile = Ok r))).
  { intros s' e Ha He. apply ensures_Ok. exists request_default. split; [by apply refused|done]. }
  pose proof (check_accept_spec s0 packet now Hv) as Hc. destruct (check_accept _ _ _ _ _) as [request|e|]; [|by apply Hrefuse|done]. destruct Hc as (Hfrom & Hreq & Hact & Hb & Hsim).
  pose proof (observe_backend_faults_ok s0 (proj1 H0)) as H1. pose proof (observe_backend_faults_slots s0) as E1. set (s1 := observe_backend_faults s0) in *.
  pose proof (advances_trans _ _ _ H0 H1) as H01. rewrite E0 in E1. destruct (_ && _); [by apply Hrefuse|]. destruct (find_slot s0) as [index|] eqn:Efind; [|by apply Hrefuse].
  apply find_slot_spec in Efind as (t0 & Hi & Hin & Hg). rewrite E0 in Hi. destruct (_ || _); [by apply Hrefuse|].
  pose proof (acquire_safe (en_admission s1) (required_credits options plan_size request)) as Hcr. destruct (admission_acquire _ _) as [credits pool]. cbn [fst] in Hcr.
  set (s2 := en_set_admission pool s1). assert (H2 : around s1 s2) by (by split). assert (Ha2 : advances s1 s2) by (destruct H1 as [[] []]; by split).
  destruct credits as [credits|e|]; [|apply Hrefuse; [by eapply advances_trans|done]|done].
  pose proof (advances_trans _ _ _ H01 Ha2) as H02. assert (Hi2 : en_slots s2 !! index = Some t0) by (by cbn; rewrite E1). rewrite Hi2. cbn [deref rbind].
  pose proof (engine_slot s2 index t0 (proj1 Ha2) Hi2) as Ht0. eapply ensures_bind; [by apply destroy_plan_spec; [apply Ha2|]|]. intros s3 H3; cbv beta in H3.
  set (r := match es_reserve _ with Some _ => _ | None => _ end).
  assert (Hr : safe r.1 /\ around s2 r.2).
  { unfold r. destruct (es_reserve (op_effects options)) as [f|] eqn:Ef; [|done]. destruct (_ && _); [|done].
    pose proof (Hsink f (en_sink s3) (en_admission s3) (rq_count request) Ef) as Hsf. destruct (f _ _ _) as [[token sink] pool']. cbn [fst snd] in *.
    split; [by destruct token|]. transitivity s3; [done|by split]. }
  destruct r as [revisions s4]. cbn [fst snd] in Hr. destruct Hr as [Hsr H4]. pose proof (around_ok s2 s4 (proj1 Ha2) H4) as Ha4.
  set (t := on_record (new_record s3) t0). assert (Hf : fresh t0 t) by (by split).
  assert (Hn : (0 < tickets s4)%nat) by (pose proof (eo_some s4 (proj1 Ha4)); pose proof (eo_tickets s4 (proj1 Ha4)); lia).
  assert (Hi4 : en_slots s4 !! index = Some t0) by (by rewrite (ar_slots _ _ H4)). pose proof (engine_slot s4 index t0 (proj1 Ha4) Hi4) as Ht04.
  pose proof (advances_trans _ _ _ H02 Ha4) as H04. assert (He4 : actives s4 = actives s) by (apply actives_around; rewrite (ar_slots _ _ H4); exact E1).
  destruct revisions as [revisions|e|]; [| |done].
  - eapply ensures_mono.
    + apply (accept_plan_spec s4 index t0); [apply Ha4|done|done|pose proof (rp_generation _ _ (proj2 Ht04)); lia|by split| |done|].
      * by apply request_ok_count in Hreq as [? _].
      * by apply (new_slot_ok (tickets s4) s3).
    + intros p Hp. exists request. split; [by eapply accept_result_from|done].
  - apply ensures_Ok. exists request. split; [|done]. eapply accept_result_from; [done|done|].
    eapply refuse_slot; [apply Ha4|done|done|done| |by eapply fresh_record]. split; [by apply plan_default_ok|].
    destruct Ht04 as [_ []]. split; cbn; try done; lia.
Qed.

(** ** Cancellation and shutdown *)

Lemma call_disarm_around s a : context_ok (tickets s) (en_backend s) -> (ar_slot a < tickets s)%nat -> ensures (call_disarm backend s a) (fun p => around s p.2).
Proof.
  intros Hc Ha. unfold call_disarm. destruct (be_disarm backend) as [disarm|] eqn:Ed; [|by apply ensures_Ok].
  pose proof (disarm_lawful _ (en_backend s) (en_shared s) a disarm Ed Hc eq_refl Ha) as Hl. destruct (disarm _ _ _) as [[d calls] b]. destruct Hl as [Hcalls Hb].
  eapply ensures_bind; [by apply backend_calls_around|]. intros s1 H1; cbv beta in H1. by apply ensures_Ok.
Qed.

(** What is done with the answer to a disarm request. *)
Lemma update_shared_around s g i : around s (en_set_shared (update_result g i (en_shared s)) s).
Proof. apply around_tickets, update_result_size. Qed.
Lemma faulted_around s b : around s (en_set_faulted b s).
Proof. by split. Qed.

Lemma disarmed_around {A} s0 s a (g : ResultSlot -> ResultSlot) o (k : bool * Engine -> Result A) (f : A -> Engine) :
  around s0 s -> (ar_slot a < tickets s0)%nat -> (forall b s', around s0 s' -> ensures (k (b, s')) (fun p => around s0 (f p))) ->
  ensures (rbind (complete_capability (en_set_shared (update_result g (ar_index a) (en_shared s)) s) a o) k) (fun p => around s0 (f p)).
Proof.
  intros Ha Hslot Hk. set (s1 := en_set_shared _ s). assert (H1 : around s0 s1) by (transitivity s; [done|apply update_shared_around]).
  eapply ensures_bind; [apply complete_capability_around; by rewrite (proj1 (ar_size _ _ H1))|]. intros [b s2] H2. apply Hk. by transitivity s1.
Qed.

Lemma running_field_bound n t : slot_ok n t -> tr_running (ts_record t) = true -> (tr_running_field (ts_record t) < 4)%nat.
Proof. intros Ht Hr. destruct (rp_running _ _ (proj2 Ht) Hr) as (_ & _ & H2 & Hf). destruct (slot_action2 n t Ht H2). lia. Qed.

Lemma disarm_running_around s index t field id : engine_ok s -> slot_ok (tickets s) t -> (field < 4)%nat -> ensures (disarm_running backend s index t field id) (fun p => around s p.2).
Proof.
  intros Hs Ht Hf. unfold disarm_running. eapply ensures_bind; [by apply (capability_of_ensures (tickets s))|]. intros a [Ha _].
  eapply ensures_bind; [apply call_disarm_around; [apply Hs|done]|]. intros [d s1] H1. cbn [snd] in H1. destruct d.
  - cbv zeta. apply disarmed_around; [done|done|]. intros b s2 H2. destruct b; apply ensures_Ok; [done|]. cbn [snd]. transitivity s2; [done|].
    etransitivity; [apply update_shared_around|apply faulted_around].
  - by apply ensures_Ok.
  - eapply ensures_bind; [apply complete_capability_around; by rewrite (proj1 (ar_size _ _ H1))|]. intros [b s2] H2. apply ensures_Ok. by transitivity s1.
Qed.

Lemma mark_cancelled_advances s index t field : engine_ok s -> en_slots s !! index = Some t ->
  advances s (set_slot_at index (on_plan (fun p => ps_set_cancelled (<[field := true]> (ps_cancelled p)) p) t) s).
Proof.
  intros Hs Hi. pose proof (engine_slot s index t Hs Hi) as Ht. eapply set_slot_around; [done|done|done| |by left].
  apply (keeps_cancelled _ t); [done|]. rewrite length_insert. apply Ht.
Qed.

Lemma cancel_field_advances s index target id : engine_ok s -> (index < length (en_slots s))%nat -> ensures (cancel_field backend s index target id) (fun p => advances s p.2).
Proof.
  intros Hs [t Hi]%lookup_lt_is_Some_2. unfold cancel_field. rewrite Hi. cbn [deref rbind]. pose proof (engine_slot s index t Hs Hi) as Ht.
  eapply (ensures_bind _ _ (fun p => advances s p.2)); [|intros [[c e] s1] H; by apply ensures_Ok].
  destruct (planned_index t id) as [field|]; [|apply ensures_Ok; by split]. destruct (_ && is_status _ _); [|apply ensures_Ok; by split].
  destruct (tr_running (ts_record t)) eqn:Hr; cbn [andb]; [|apply ensures_Ok; by apply mark_cancelled_advances].
  destruct (Nat.eqb_spec (tr_running_field (ts_record t)) field) as [<-|]; [|apply ensures_Ok; by apply mark_cancelled_advances].
  eapply ensures_mono; [apply disarm_running_around; [done|done|by apply (running_field_bound (tickets s))]|]. intros p Hp. by apply around_ok.
Qed.

Lemma cancel_fields_advances index l : forall target s, engine_ok s -> (index < length (en_slots s))%nat -> ensures (cancel_fields backend s index target l) (fun p => advances s p.2).
Proof.
  induction l as [|[selected id] l IH]; intros target s Hs Hi; cbn [cancel_fields]; [apply ensures_Ok; by split|].
  eapply (ensures_bind _ _ (fun p => advances s p.2)); [destruct selected; [by apply cancel_field_advances|apply ensures_Ok; by split]|].
  intros [[c e] s1] H1. cbn [snd] in H1. pose proof (slots_length _ _ (ev_generations _ _ (proj2 H1))) as Hl. eapply ensures_bind; [apply IH; [apply H1|lia]|].
  intros [[cs es] s2] H2. apply ensures_Ok. by eapply advances_trans.
Qed.

Lemma drop_credits_advances s c : engine_ok s -> advances s (drop_credits s c).
Proof. intros Hs. apply around_ok; [done|apply drop_credits_around]. Qed.

Lemma cancellation_credits_spec s raw reserved : engine_ok s -> let '(r, s') := cancellation_credits s raw reserved in safe r /\ advances s s'.
Proof.
  intros Hs. unfold cancellation_credits. destruct (_ || _); [|done]. destruct (negb _); [by split; [|apply drop_credits_advances]|].
  pose proof (acquire_safe (en_admission s) (cancellation_resources raw)) as Hc. destruct (admission_acquire _ _) as [credits pool]. split; [done|].
  apply around_ok; [done|]. etransitivity; [|apply drop_credits_around]. by split.
Qed.

Lemma select_views_safe views : forall l, safe (select_views views l).
Proof. induction views as [|v views IH]; intros l; cbn [select_views]; [done|]. test_goal E1; [done|]. test_goal E2; [done|]. apply IH. Qed.

Lemma check_cancel_spec (s : Engine) h packet now : is_some (command (ev_envelope (pv_envelope packet))) = true ->
  match check_cancel s h packet now with
  | Ok (t, _, _) => en_slots s !! h_slot h = Some t /\ tr_active (ts_record t) = true /\ tr_generation (ts_record t) = h_generation h
  | Err _ => True
  | UB => False
  end.
Proof.
  intros Hc. unfold check_cancel. test_goal E1; [done|]. test_goal E2; [done|]. destruct (en_slots s !! h_slot h) as [t|] eqn:Ei; [|apply lookup_ge_None in Ei; apply Nat.leb_gt in E2; lia].
  cbn [deref rbind]. test_goal E3; [done|]. cbv zeta. destruct (command _) as [c|]; [|done]. test_goal E4; [done|]. test_goal E5; [done|].
  pose proof (select_views_safe (pv_fields packet) (replicate state_field_capacity false)) as Hs. destruct (select_views _ _); [|done|done]. cbn [rbind].
  test_goal E6; [done|]. test_goal E7; [done|]. apply orb_false_iff in E3 as [H1%negb_false_iff H2%negb_false_iff]. by apply Z.eqb_eq in H2.
Qed.

(** The answer to a cancellation can be read. *)
Definition readable (r : Result CancellationResult) : Prop :=
  safe r /\ forall result, r = Ok result -> forall i, (i < fvec_size (cr_responses result))%nat -> exists a, fvec_at (cr_responses result) i = Ok a.

Lemma fvec_readable {A} (v : FixedVector A) l i : represents 2 v l -> (i < fvec_size v)%nat -> exists a, fvec_at v i = Ok a.
Proof.
  intros Hv Hi. destruct (lookup_lt_is_Some_2 l i) as [a Ha]; [by rewrite <- (rep_size _ _ _ Hv)|]. exists a. by rewrite (represents_at 2 v l i Hv), Ha.
Qed.
Lemma push_represents v l a : represents 2 v l -> exists l', represents 2 (Cancellation.push_response v a) l'.
Proof.
  intros Hv. unfold Cancellation.push_response. pose proof (represents_emplace_back 2 v l a Hv) as H. destruct (fvec_emplace_back 2 v a) as [[[]|e|] v']; cbn [snd]; [|destruct H as (_ & _ & ->); by exists l|done].
  destruct H as [_ H]. eauto.
Qed.

Lemma cancellation_response_safe packet st clock selected cancelled diagnostics credits mode : is_some (command (ev_envelope (pv_envelope packet))) = true ->
  readable (cancellation_response packet st clock selected cancelled diagnostics credits mode).
Proof.
  intros H. unfold cancellation_response. destruct (command _) as [c|]; [|done]. cbn [deref rbind]. split; [done|]. intros result [= <-] i Hi. cbn [cr_responses] in *.
  assert (Hr : forall b v (l : list AckRecord) a, represents 2 v l -> exists l', represents 2 (if b : bool then Cancellation.push_response v a else v) l').
  { intros [] v l a Hv; [by eapply push_represents|eauto]. }
  match type of Hi with (_ < fvec_size (if ?b2 then Cancellation.push_response (if ?b1 then Cancellation.push_response _ ?a1 else _) ?a2 else _))%nat =>
    destruct (Hr b1 _ [] a1 (represents_new 2)) as [l1 H1]; destruct (Hr b2 _ l1 a2 H1) as [l2 H2] end. by eapply fvec_readable.
Qed.

Lemma cancel_command_spec s h packet now reserved : engine_ok s -> is_some (command (ev_envelope (pv_envelope packet))) = true ->
  ensures (cancel_command backend options s h packet now reserved) (fun p => advances s p.2 /\ readable p.1).
Proof.
  intros Hs Hc. unfold cancel_command. pose proof (check_cancel_spec s h packet now Hc) as Hcheck.
  destruct (check_cancel _ _ _ _) as [[[t selected] raw]|e|]; [|apply ensures_Ok; by split; [apply drop_credits_advances|]|done]. destruct Hcheck as (Hi & _).
  pose proof (cancellation_credits_spec s raw reserved Hs) as Hcr. destruct (cancellation_credits _ _ _) as [credits s1]. destruct Hcr as [Hsafe H1].
  destruct credits as [credits|e|]; [|by apply ensures_Ok|done]. cbv zeta. destruct (_ && _); [apply ensures_Ok; split; [done|by apply cancellation_response_safe]|].
  eapply ensures_bind; [apply scan_tickets_ok, H1|]. intros s2 H2; cbv beta in H2. pose proof (advances_trans _ _ _ H1 H2) as H12.
  eapply ensures_bind; [apply cancel_fields_advances; [apply H2|]|].
  { rewrite (slots_length _ _ (ev_generations _ _ (proj2 H12))). by eapply lookup_lt_Some. }
  intros [[cs es] s3] H3. cbn [snd] in H3. eapply ensures_bind; [apply scan_tickets_ok, H3|]. intros s4 H4; cbv beta in H4. apply ensures_Ok. split; [|by apply cancellation_response_safe].
  eapply advances_trans; [exact H12|]. by eapply advances_trans.
Qed.

Lemma quiesce_field_advances s index field : engine_ok s -> (index < length (en_slots s))%nat -> ensures (quiesce_field backend s index field) (advances s).
Proof.
  intros Hs [t Hi]%lookup_lt_is_Some_2. unfold quiesce_field. rewrite Hi. cbn [deref rbind]. pose proof (engine_slot s index t Hs Hi) as Ht.
  destruct (negb (is_status _ _)); [apply ensures_Ok; by split|]. cbv zeta. pose proof (mark_cancelled_advances s index t field Hs Hi) as Hm.
  destruct (tr_running (ts_record t) && _) eqn:Er; cbn [negb]; [|by apply ensures_Ok]. apply andb_true_iff in Er as [Hr Hf%Nat.eqb_eq].
  destruct (cancelled_at t field); [apply ensures_Ok; by split|]. set (s1 := set_slot_at _ _ s) in *.
  destruct (rp_running _ _ (proj2 Ht) Hr) as (_ & _ & _ & Hlt). rewrite Hf in Hlt. pose proof (running_field_bound _ t Ht Hr) as H4. rewrite Hf in H4.
  destruct (lookup_lt_is_Some_2 (fields_of t) field) as [f Ef]; [by rewrite (slot_count _ t Ht)|]. rewrite Ef. cbn [deref rbind].
  eapply (ensures_mono _ (fun s' => around s1 s')); [|intros s' Ha; eapply advances_trans; [exact Hm|by apply around_ok; [apply Hm|]]].
  eapply ensures_bind; [by apply (capability_of_ensures (tickets s))|]. intros a [Ha _].
  eapply ensures_bind; [apply call_disarm_around; [apply Hm|done]|]. intros [d s2] H2. cbn [snd] in H2. destruct d.
  - eapply (disarmed_around s1 s2 a _ _ _ (fun s' => s')); [done|done|]. intros b s3 H3. destruct b; apply ensures_Ok; [done|]. transitivity s3; [done|].
    etransitivity; [apply update_shared_around|apply faulted_around].
  - by apply ensures_Ok.
  - eapply ensures_bind; [apply complete_capability_around; by rewrite (proj1 (ar_size _ _ H2))|]. intros [b s3] H3. apply ensures_Ok. by transitivity s2.
Qed.

Lemma quiesce_fields_advances index : forall n field s, engine_ok s -> (index < length (en_slots s))%nat -> ensures (quiesce_fields backend n field s index) (advances s).
Proof.
  induction n as [|n IH]; intros field s Hs Hi; cbn [quiesce_fields]; [apply ensures_Ok; by split|].
  eapply ensures_bind; [by apply quiesce_field_advances|]. intros s1 H1; cbv beta in H1. pose proof (slots_length _ _ (ev_generations _ _ (proj2 H1))) as Hl.
  eapply ensures_mono; [apply IH; [apply H1|lia]|]. intros s2 H2. by eapply advances_trans.
Qed.

Lemma quiesce_slots_advances : forall n index s, engine_ok s -> (index + n = length (en_slots s))%nat -> ensures (quiesce_slots backend n index s) (advances s).
Proof.
  induction n as [|n IH]; intros index s Hs Hi; cbn [quiesce_slots]; [apply ensures_Ok; by split|].
  destruct (lookup_lt_is_Some_2 (en_slots s) index) as [t Ht]; [lia|]. rewrite Ht. cbn [deref rbind].
  eapply (ensures_bind _ _ (advances s)); [destruct (_ || _); [apply ensures_Ok; by split|apply quiesce_fields_advances; [done|lia]]|].
  intros s1 H1. pose proof (slots_length _ _ (ev_generations _ _ (proj2 H1))) as Hl. eapply ensures_mono; [apply IH; [apply H1|lia]|]. intros s2 H2. by eapply advances_trans.
Qed.

(** The shutdown has begun, or was refused. *)
Lemma request_quiesce_spec s now : engine_ok s -> ensures (request_quiesce backend options s now) (fun p =>
  engine_ok p.2 /\ generations p.2 = generations s /\ Forall2 grows (en_slots s) (en_slots p.2) /\ en_progressing p.2 = en_progressing s /\ safe p.1 /\
  match p.1 with
  | Ok _ => en_quiescing p.2 = true /\
      forall i t, en_slots p.2 !! i = Some t -> tr_active (ts_record t) = true -> tr_complete (ts_record t) = true \/ tr_running (ts_record t) = true
  | _ => p.2 = s
  end).
Proof.
  intros Hs. unfold request_quiesce. destruct (en_progressing s) eqn:Ep; [by apply ensures_Ok; split_and!|]. destruct (_ || _); [by apply ensures_Ok; split_and!|].
  set (s0 := en_set_quiescing true s). assert (H0 : engine_ok s0) by (by destruct Hs; split).
  assert (Eg : generations s0 = generations s) by done. assert (Es0 : en_progressing s0 = en_progressing s) by done. assert (Eq0 : en_quiescing s0 = true) by done. change (en_slots s) with (en_slots s0). clearbody s0. eapply ensures_bind; [by apply scan_tickets_ok|]. intros s1 H1; cbv beta in H1.
  eapply ensures_bind; [apply quiesce_slots_advances; [apply H1|lia]|]. intros s2 H2; cbv beta in H2. pose proof (advances_trans _ _ _ H1 H2) as H12. destruct H12 as [H3 []].
  eapply ensures_mono; [by apply progress_spec|]. intros [r s3] ([H4 []] & Hsafe & Hq). cbn [fst snd] in *.
  destruct Hq as [-> Hall]; [congruence|congruence|]. split_and!; [done|congruence|by etransitivity|congruence|done|congruence|done].
Qed.

(** ** Responses, release and reset *)

(** The next response of an open transaction, which is then read. *)
Lemma take_response_spec s h : engine_ok s -> ensures (take_response s h) (fun p =>
  engine_ok p.2 /\ generations p.2 = generations s /\ en_progressing p.2 = en_progressing s /\ safe p.1 /\
  match current_handle s h with
  | Some t => p.1 = Ok (tr_responses (ts_record t) !! tr_response_read (ts_record t)) /\
      p.2 = set_slot_at (h_slot h) (on_record (tr_set_response_read
              (if (tr_response_read (ts_record t) <? length (tr_responses (ts_record t)))%nat then S (tr_response_read (ts_record t)) else tr_response_read (ts_record t))) t) s
  | None => is_ok p.1 = false /\ p.2 = s
  end).
Proof.
  intros Hs. unfold take_response, current_handle. destruct (en_slots s !! h_slot h) as [t|] eqn:Ei; [|apply ensures_Ok; by split_and!]. pose proof (engine_slot s _ t Hs Ei) as Ht.
  destruct (tr_active (ts_record t)); cbn [negb orb andb]; [|apply ensures_Ok; by split_and!].
  destruct (tr_generation (ts_record t) =? h_generation h); cbn [negb]; [|apply ensures_Ok; by split_and!].
  pose proof (rp_read _ _ (proj2 Ht)) as Hread. destruct (Nat.eqb_spec (tr_response_read (ts_record t)) (length (tr_responses (ts_record t)))) as [Hn|Hn].
  - apply ensures_Ok. rewrite Hn, Nat.ltb_irrefl, lookup_ge_None_2, <- Hn by lia. split_and!; try done. cbn.
    assert (Et : on_record (tr_set_response_read (tr_response_read (ts_record t))) t = t) by (by destruct t as [p [] c]). rewrite Et.
    unfold set_slot_at. rewrite list_insert_id by done. by destruct s.
  - destruct (lookup_lt_is_Some_2 (tr_responses (ts_record t)) (tr_response_read (ts_record t))) as [a Ha]; [lia|].
    rewrite Ha. cbn [deref rbind]. apply ensures_Ok. cbn [fst snd]. rewrite (proj2 (Nat.ltb_lt _ _)) by lia. split_and!; try done.
    + eapply set_slot_ok; [done|done|done| |done|by left]. destruct Ht as [Hp [H1 H2 H3 H4 H5 H6]]. split; [done|split]; cbn; try done. lia.
    + by apply (generations_insert s s _ t).
Qed.

Lemma release_results_size l base : forall co, same_size co (foldl (fun co i => update_result (set_busy false) (base + i) co) co l).
Proof. induction l as [|i l IH]; intros co; cbn [foldl]; [done|]. etransitivity; [apply update_result_size|apply IH]. Qed.

(** A finished transaction gives its slot back: its handle will not fit it again. *)
Lemma release_spec s h : engine_ok s -> ensures (release_transaction s h) (fun p =>
  engine_ok p.2 /\ en_quiescing p.2 = en_quiescing s /\ en_progressing p.2 = en_progressing s /\
  match p.1 with
  | Ok _ => generations s !! h_slot h = Some (h_generation h) /\ h_generation h < U64_MAX /\
      generations p.2 = <[h_slot h := h_generation h + 1]> (generations s) /\ actives p.2 = <[h_slot h := false]> (actives s) /\
      (forall j, j <> h_slot h -> en_slots p.2 !! j = en_slots s !! j)
  | Err _ => p.2 = s /\ (forall t, current_handle s h = Some t -> tr_complete (ts_record t) = true ->
      tr_response_read (ts_record t) <> length (tr_responses (ts_record t)))
  | UB => False
  end).
Proof.
  intros Hs. unfold release_transaction, current_handle. destruct (en_slots s !! h_slot h) as [t|] eqn:Ei; [|apply ensures_Ok; by split_and!].
  destruct (_ || _) eqn:Eg.
  { apply ensures_Ok. cbn [fst snd]. split; [done|]. split; [done|]. split; [done|]. split; [done|]. intros u. destruct (tr_active (ts_record t)); [|done]. destruct (_ =? _); [|done]. intros [= <-] Hc Hrd.
    by rewrite Hc, Hrd, Nat.eqb_refl in Eg. } pose proof (engine_slot s _ t Hs Ei) as Ht.
  rewrite !orb_false_iff, !negb_false_iff, Z.eqb_eq in Eg. destruct Eg as [[[Hact Hg] Hcom] _].
  eapply ensures_bind; [apply release_tokens_ensures, Ht|]. intros tk Htk; cbv beta in Htk. cbv zeta. apply ensures_Ok.
  set (s1 := en_set_shared (foldl _ _ _) _). assert (H1 : around s s1).
  { etransitivity; [|apply around_tickets, release_results_size]. etransitivity; [|apply drop_credits_around]. apply around_tickets. by apply set_tickets_size. }
  clearbody s1. clear tk Htk. set (t1 := on_record _ _). pose proof (rp_generation _ _ (proj2 Ht)) as Hgen. pose proof (rp_active _ _ (proj2 Ht) Hact) as Hlt.
  assert (Hrun : tr_running (ts_record t) = false). { destruct (tr_running (ts_record t)) eqn:Hr; [|done]. destruct (rp_running _ _ (proj2 Ht) Hr) as (_ & ? & _). congruence. }
  assert (Hg1 : tr_generation (ts_record t1) = h_generation h + 1) by (cbn; rewrite Hg in *; unfold wrap64; rewrite Z.mod_small; [done|unfold U64_MAX in *; lia]).
  assert (Hn : (0 < tickets s)%nat) by (pose proof (eo_some s Hs); pose proof (eo_tickets s Hs); lia).
  assert (Ht1 : slot_ok (tickets s) t1).
  { destruct Ht as [[] [G1 G2 G3 G4 G5]]. split; [split|split]; cbn [ts_plan ts_record] in *; try done; [by repeat constructor|by cbn; rewrite Hrun|rewrite Hg1; lia]. }
  assert (Hlen : (h_slot h < length (en_slots s))%nat) by (by eapply lookup_lt_Some).
  assert (Hno : en_effect_owner s <> Some (h_slot h)).
  { intros Ho. destruct (eo_owner s Hs _ Ho) as (u & Hu & Hop). unfold open_action in Hop. simplify_eq. by rewrite Hcom, andb_false_r in Hop. }
  cbn [fst snd]. split_and!.
  - destruct H1 as [Es [Et Er] Hc Ho Hq Hp Hsh], Hs. split; cbn; rewrite ?Es, ?Ho, ?length_insert, ?Er, ?Et; try done; auto.
    + by apply Forall_insert.
    + intros j u Hj Hu. destruct (decide (h_slot h = j)) as [<-|Hne].
      * rewrite list_lookup_insert_eq in Hj by done. injection Hj as <-. cbn in Hu. congruence.
      * rewrite list_lookup_insert_ne in Hj by done. eauto.
    + intros j Hj. destruct (eo_owner0 j Hj) as (u & Hu & Hop). rewrite list_lookup_insert_ne by congruence. eauto.
  - apply H1.
  - apply H1.
  - unfold generations. rewrite list_lookup_fmap, Ei. cbn. by rewrite Hg.
  - lia.
  - unfold generations. cbn [set_slot_at en_set_slots en_slots]. by rewrite (ar_slots _ _ H1), list_fmap_insert, Hg1.
  - by rewrite (actives_insert s) by (by apply actives_around, H1).
  - intros j Hj. cbn. by rewrite list_lookup_insert_ne, (ar_slots _ _ H1).
Qed.

Lemma check_confirmed_safe st : state_shaped st -> forall n i, (i + n <= 8)%nat -> safe (check_confirmed st i n).
Proof.
  intros Hs. induction n as [|n IH]; intros i Hi; cbn [check_confirmed]; [done|].
  destruct (lookup_lt_is_Some_2 (st_fields st) i) as [f Hf]; [rewrite Hs; unfold state_field_capacity; lia|]. rewrite Hf.
  destruct (lookup_lt_is_Some_2 state_fields i) as [id Hid]; [cbn; lia|]. rewrite Hid. cbn [deref rbind]. test_goal Ec; [done|].
  apply rbind_safe; [destruct (is_known f); [apply validate_value_safe|done]|]. intros _ _. apply IH. lia.
Qed.

Lemma check_reset_safe s confirmed generation : state_shaped confirmed -> safe (check_reset backend options s confirmed generation).
Proof.
  intros Hs. unfold check_reset. apply rbind_safe; [apply snapshot_decided; done|]. intros _ _. test_goal E1; [done|].
  apply rbind_safe; [apply check_confirmed_safe; [done|]; pose proof (active_bound (st_profile confirmed)); lia|]. intros _ _.
  test_goal E2; [done|]. test_goal E3; [done|]. test_goal E4; done.
Qed.

Lemma count_if_none {A} (p : A -> bool) l : count_if p l = 0%nat -> Forall (fun x => p x = false) l.
Proof. unfold count_if. induction l as [|x l IH]; cbn; [by constructor|]. destruct (p x) eqn:Hp; [done|]. intros H. constructor; auto. Qed.

(** A reset is granted only when no transaction is left. *)
Lemma reset_idle s confirmed generation : check_reset backend options s confirmed generation = Ok tt -> Forall (fun t => tr_active (ts_record t) = false) (en_slots s).
Proof.
  unfold check_reset. intros H. apply rbind_Ok in H as (? & _ & H). destruct (_ || _); [done|]. apply rbind_Ok in H as (? & _ & H). destruct (_ && _); [done|].
  destruct (tunable_mismatch _ _); [done|]. destruct (safe_to_reset backend s) eqn:Er; [|done]. unfold safe_to_reset in Er. rewrite !andb_true_iff in Er.
  destruct Er as [[[[[[[_ Ha] _] _] _] _] _] _]. apply Nat.eqb_eq in Ha. by apply (count_if_none (fun t => tr_active (ts_record t))).
Qed.

Lemma reset_state_spec s confirmed generation : engine_ok s -> state_shaped confirmed ->
  let '(r, s') := reset_state backend options s confirmed generation in
  engine_ok s' /\ safe r /\ generations s' = generations s /\ actives s' = actives s /\
  match r with
  | Ok _ => en_state s' = confirmed /\ en_quiescing s' = false /\ en_faulted s' = false /\ Forall (eq false) (actives s')
  | _ => s' = s
  end.
Proof.
  intros Hs Hc. unfold reset_state. pose proof (check_reset_safe s confirmed generation Hc) as Hsafe. pose proof (reset_idle s confirmed generation) as Hidle.
  destruct (check_reset _ _ _ _ _) as [[]|e|]; [|by split_and!|done]. specialize (Hidle eq_refl). split_and!; try done.
  - destruct Hs. split; cbn; try done; [by rewrite length_fmap|]. intros i t Hi Hr. exfalso. pose proof (Forall_lookup_1 _ _ _ _ eo_slots0 Hi) as [_ []].
    destruct (rp_running0 Hr) as [Hact _]. pose proof (Forall_lookup_1 _ _ _ _ Hidle Hi) as Hf. cbv beta in Hf. congruence.
  - unfold actives. cbn. apply Forall_fmap. eapply Forall_impl; [|exact Hidle]. intros t Ht. cbn. by rewrite Ht.
Qed.

Lemma engine_new_ok transactions pool context sink timeline initial : (0 < transactions)%nat -> context_ok (transactions * 4) context -> state_shaped initial ->
  engine_ok (engine_new transactions pool context sink timeline initial).
Proof.
  intros Hn Hc Hs. set (s := engine_new _ _ _ _ _ _). assert (Et : tickets s = (transactions * 4)%nat) by (unfold ticket_count; cbn; by rewrite length_replicate).
  assert (El : length (en_slots s) = transactions) by (cbn; by rewrite length_replicate).
  split; rewrite ?Et, ?El; try done; try lia.
  - cbn. apply Forall_replicate. split; [apply plan_default_ok; lia|]. split; cbn; try done; try lia.
  - cbn. rewrite length_replicate. lia.
  - intros i t Hi Hr. cbn in Hi. apply lookup_replicate in Hi as [-> _]. done.
Qed.
End engine.
