(* ===== verification/EngineRuns.v ===== *)
(** * Runs of the transaction engine

    [engine_do] is one event at the engine: a call of a public function, a use of the
    capabilities by the device outside a callback, or a change of the timeline.  The theorems
    hold in every state that a new engine can reach by such events. *)

From stdpp Require Import relations.
From S2P Require Import Prelude Wire WireProofs Fields Time Clock Timeline Scheduling Admission Ticket Structured Packet Routing FixedVector State Cam Sdr Observer Cancellation Backend Plan PlanProofs Engine EngineProofs.

(** ** Events *)

Inductive EngineEvent (B : Type) :=
  | ev_accept (packet : PacketView) (now : OperationContext)
  | ev_cancel (h : Handle) (packet : PacketView) (now : OperationContext) (reserved : AdmissionBundle)
  | ev_progress (now : OperationContext)
  | ev_quiesce (now : OperationContext)
  | ev_take (h : Handle)
  | ev_release (h : Handle)
  | ev_reset (confirmed : StateSnapshot) (generation : Z)
  | ev_device (calls : list Call) (context : B)
  | ev_timeline (timeline : option SampleTimeline).
Arguments ev_accept {B}.
Arguments ev_cancel {B}.
Arguments ev_progress {B}.
Arguments ev_quiesce {B}.
Arguments ev_take {B}.
Arguments ev_release {B}.
Arguments ev_reset {B}.
Arguments ev_device {B}.
Arguments ev_timeline {B}.

(** The engine after a call that returned. *)
Definition settled {A S} (m : Result (Result A * S)) : Result S :=
  let? (r, s) := m in match r with UB => UB | _ => Ok s end.

Section runs.
Context {B E : Type} (backend : Backend B) (options : EngineOptions E) (plan_size : Z).
#[local] Abbreviation Engine := (Engine B E).
#[local] Abbreviation profile := (op_profile options).

Definition engine_do (s : Engine) (e : EngineEvent B) : Result Engine :=
  match e with
  | ev_accept packet now => settled (accept backend options plan_size s packet now)
  | ev_cancel h packet now reserved => settled (cancel_command backend options s h packet now reserved)
  | ev_progress now => settled (progress backend options s now)
  | ev_quiesce now => settled (request_quiesce backend options s now)
  | ev_take h => settled (take_response s h)
  | ev_release h => settled (release_transaction s h)
  | ev_reset confirmed generation => settled (Ok (reset_state backend options s confirmed generation))
  | ev_device calls context => backend_calls s calls context
  | ev_timeline timeline => Ok (en_set_timeline timeline s)
  end.

Context `{!BackendLaws backend}.

(** The arguments that the callers guarantee: decoded fields, a command in the packet of a
    cancellation ([cancel] is undefined without one), a snapshot with all its entries,
    capabilities of this engine. *)
Definition event_ok (n : nat) (e : EngineEvent B) : Prop :=
  match e with
  | ev_accept packet _ => Forall view_ok (pv_fields packet)
  | ev_cancel _ packet _ _ => is_some (command (ev_envelope (pv_envelope packet))) = true
  | ev_reset confirmed _ => state_shaped confirmed
  | ev_device calls context => Forall (call_ok n) calls /\ context_ok n context
  | _ => True
  end.

Definition engine_step (n : nat) (s s' : Engine) : Prop := exists e, event_ok n e /\ engine_do s e = Ok s'.

(** Generations only grow. *)
Definition older (s s' : Engine) : Prop := Forall2 Z.le (generations s) (generations s').
#[local] Instance older_preorder : PreOrder older.
Proof. unfold older. split; [intros s|intros a b c; intros]; [reflexivity|by etransitivity]. Qed.
Lemma older_eq s s' : generations s' = generations s -> older s s'.
Proof. unfold older. intros ->. reflexivity. Qed.
Lemma older_lookup s s' i g : older s s' -> generations s !! i = Some g -> exists g', generations s' !! i = Some g' /\ g <= g'.
Proof. intros H Hg. destruct (Forall2_lookup_l _ _ _ _ _ H Hg) as (g' & Hg' & Hle). eauto. Qed.

#[local] Abbreviation ok := (engine_ok backend options).
#[local] Abbreviation tickets s := (ticket_count (en_shared s)).

Lemma older_tickets s s' : ok s -> ok s' -> older s s' -> tickets s' = tickets s.
Proof.
  intros Hs Hs' H. rewrite (eo_tickets _ _ s Hs), (eo_tickets _ _ s' Hs'). apply Forall2_length in H. unfold generations in H. rewrite !length_fmap in H. by rewrite H.
Qed.

Lemma settled_ensures {A S} (m : Result (Result A * S)) (P : S -> Prop) : ensures m (fun p => P p.2 /\ safe p.1) -> ensures (settled m) P.
Proof. intros ([r s] & -> & HP & Hs). unfold settled. cbn. destruct r; [by apply ensures_Ok..|done]. Qed.
Lemma advances_older s s' : advances backend options s s' -> ok s' /\ older s s'.
Proof. intros [H []]. split; [done|by apply older_eq]. Qed.

Lemma timeline_ok s tl : ok s -> ok (en_set_timeline tl s).
Proof. intros []. by split. Qed.

Hypothesis sink_ok : sink_safe options.

Lemma engine_do_ok s e : ok s -> event_ok (tickets s) e -> ensures (engine_do s e) (fun s' => ok s' /\ older s s').
Proof.
  intros Hs He. destruct e as [packet now|h packet now reserved|now|now|h|h|confirmed generation|calls context|timeline]; cbn [engine_do event_ok] in *.
  - apply settled_ensures. eapply ensures_mono; [by apply accept_spec|]. intros [r s'] (req & [Ha Hr] & _). split; [by apply advances_older|]. by destruct r.
  - apply settled_ensures. eapply ensures_mono; [by apply cancel_command_spec|]. intros [r s'] [Ha Hr]. split; [by apply advances_older|apply Hr].
  - apply settled_ensures. eapply ensures_mono; [by apply progress_spec|]. intros [r s'] (Ha & Hr & _). split; [by apply advances_older|done].
  - apply settled_ensures. eapply ensures_mono; [by apply request_quiesce_spec|]. intros [r s'] (Ha & Hg & _ & _ & Hr & _). split; [by split; [|apply older_eq]|done].
  - apply settled_ensures. eapply ensures_mono; [by apply (take_response_spec backend options)|]. intros [r s'] (Ha & Hg & _ & Hr & _). split; [by split; [|apply older_eq]|done].
  - apply settled_ensures. eapply ensures_mono; [by apply (release_spec backend options)|]. intros [r s'] (Ha & _ & _ & Hr). cbn [fst snd] in *. destruct r as [[]|e|]; [|destruct Hr as [-> _]; by split; [split; [|apply older_eq]|]|done].
    split; [|done]. split; [done|]. destruct Hr as (Hg & _ & Hg' & _). unfold older. rewrite Hg'. apply Forall2_same_length_lookup. split; [by rewrite length_insert|].
    intros i x y Hx Hy. destruct (decide (h_slot h = i)) as [<-|Hne].
    + rewrite list_lookup_insert_eq in Hy by (by eapply lookup_lt_Some). simplify_eq. lia.
    + rewrite list_lookup_insert_ne in Hy by done. simplify_eq. lia.
  - apply settled_ensures, ensures_Ok. pose proof (reset_state_spec backend options s confirmed generation Hs He) as Hr. destruct (reset_state _ _ _ _ _) as [r s'].
    destruct Hr as (Ha & Hsafe & Hg & _). split; [split; [done|by apply older_eq]|done].
  - destruct He as [Hcalls Hctx]. eapply ensures_mono; [by apply backend_calls_around|]. intros s' Ha. by apply advances_older, around_ok.
  - apply ensures_Ok. split; [by apply timeline_ok|by apply older_eq].
Qed.

(** ** Reachable states *)

Definition reachable_from (s0 s : Engine) : Prop := rtc (engine_step (tickets s0)) s0 s.

(** A run is a list of events. *)
Fixpoint engine_run (s : Engine) (l : list (EngineEvent B)) : Result Engine :=
  match l with
  | [] => Ok s
  | e :: l => let? s := engine_do s e in engine_run s l
  end.
Lemma engine_run_steps n l : forall s s', Forall (event_ok n) l -> engine_run s l = Ok s' -> rtc (engine_step n) s s'.
Proof.
  induction l as [|e l IH]; intros s s' Hl H; cbn in H; [by injection H as <-|]. apply list.Forall_cons in Hl as [He Hl]. apply rbind_Ok in H as (s1 & H1 & H).
  eapply rtc_l; [by exists e|by apply IH].
Qed.

Lemma reachable_ok s0 s : ok s0 -> reachable_from s0 s -> ok s /\ older s0 s.
Proof.
  intros H0 H. unfold reachable_from in H. remember (tickets s0) as n eqn:Hn. induction H as [|s1 s2 s3 (e & He & Hd) _ IH]; [done|].
  rewrite Hn in He. destruct (engine_do_ok s1 e H0 He) as (s' & Hd' & Hs' & Ho). rewrite Hd in Hd'. injection Hd' as <-.
  destruct (IH Hs') as [? ?]; [by rewrite (older_tickets _ _ H0 Hs' Ho)|]. split; [done|by etransitivity].
Qed.

(** A new engine, and the states it reaches. *)
Definition started (s0 : Engine) : Prop :=
  exists transactions pool context sink timeline initial, (0 < transactions)%nat /\ context_ok (transactions * 4) context /\ state_shaped initial /\
    s0 = engine_new transactions pool context sink timeline initial.
Definition reachable (s : Engine) : Prop := exists s0, started s0 /\ reachable_from s0 s.

Lemma started_ok s0 : started s0 -> ok s0.
Proof. intros (n & pool & context & sink & timeline & initial & Hn & Hc & Hi & ->). by apply engine_new_ok. Qed.
Lemma reachable_invariant s : reachable s -> ok s.
Proof. intros (s0 & H0 & H). by eapply reachable_ok; [apply started_ok|]. Qed.
Lemma reachable_tickets s0 s : ok s0 -> reachable_from s0 s -> tickets s = tickets s0.
Proof. intros H0 H. destruct (reachable_ok s0 s H0 H). by apply older_tickets. Qed.
Lemma reachable_step s e s' : reachable s -> event_ok (tickets s) e -> engine_do s e = Ok s' -> reachable s'.
Proof.
  intros (s0 & H0 & H) He Hd. exists s0. split; [done|]. eapply rtc_r; [exact H|]. exists e. split; [|done]. by rewrite <- (reachable_tickets s0 s (started_ok _ H0) H).
Qed.

(** The handles that name a transaction. *)
Definition live (s : Engine) (h : Handle) : bool := is_some (current_handle s h).
Lemma live_iff s h : live s h = true <-> actives s !! h_slot h = Some true /\ generations s !! h_slot h = Some (h_generation h).
Proof.
  unfold live, current_handle, actives, generations. rewrite !list_lookup_fmap. destruct (en_slots s !! h_slot h) as [t|]; cbn; [|by split; [|intros [? _]]].
  destruct (tr_active (ts_record t)); cbn; [|by split; [|intros [? _]]]. destruct (Z.eqb_spec (tr_generation (ts_record t)) (h_generation h)); cbn.
  - split; [|done]. intros _. split; [done|congruence].
  - split; [done|]. intros [_ [= ?]]. done.
Qed.
Lemma live_same s s' : actives s' = actives s -> generations s' = generations s -> forall h, live s' h = live s h.
Proof. intros Ha Hg h. apply eq_true_iff_eq. by rewrite !live_iff, Ha, Hg. Qed.
Lemma not_live (s : Engine) h g : generations s !! h_slot h = Some g -> h_generation h < g -> current_handle s h = None.
Proof.
  intros Hg Hlt. destruct (live s h) eqn:Hl; [apply live_iff in Hl as [_ Hl]; simplify_eq; lia|]. unfold live in Hl. by destruct (current_handle s h).
Qed.

(** C6. In a state that a new engine can reach, no call of a public function, no use of the
    capabilities by the device and no change of the timeline is undefined, provided the caller
    keeps to [event_ok]: the packets given to [accept] have fields as the decoder delivers
    them, [cancel] is only called with a packet that has a command (without one it
    dereferences an empty optional, which is undefined), the snapshot given to [reset_state]
    has all its entries, and the device uses the capabilities of this engine.  There is always
    a next state. *)
Theorem engine_never_undefined s e : reachable s -> event_ok (tickets s) e -> exists s', engine_do s e = Ok s' /\ reachable s'.
Proof.
  intros H He. destruct (engine_do_ok s e (reachable_invariant s H) He) as (s' & Hd & _). exists s'. split; [done|by eapply reachable_step].
Qed.

(** C10. At most one transaction is with the device at any time.  It is the effect owner of the
    engine, an open command to execute. *)
Theorem one_effect_at_a_time s i t j u : reachable s ->
  en_slots s !! i = Some t -> tr_running (ts_record t) = true -> en_slots s !! j = Some u -> tr_running (ts_record u) = true ->
  i = j /\ en_effect_owner s = Some i /\ open_action 2 t = true.
Proof.
  intros H Hi Ht Hj Hu. pose proof (reachable_invariant s H) as Hs. pose proof (eo_running _ _ s Hs i t Hi Ht) as H1. pose proof (eo_running _ _ s Hs j u Hj Hu) as H2.
  split_and!; [congruence|done|]. destruct (eo_owner _ _ s Hs i H1) as (v & Hv & Ho). by simplify_eq.
Qed.

(** C16. A handle whose transaction was released never names a transaction again, whatever
    happens to the engine afterwards: generations are not reused. *)
Theorem released_handle_stays_stale s h s1 s2 : reachable s -> release_transaction s h = Ok (Ok tt, s1) -> reachable_from s1 s2 ->
  current_handle s h <> None /\ current_handle s2 h = None /\ take_response s2 h = Ok (Err (error1 ErrorCode.stale_generation), s2).
Proof.
  intros H Hr Hs2. pose proof (reachable_invariant s H) as Hs. destruct (release_spec backend options s h Hs) as (p & Ep & Hs1 & _ & _ & Hrel). rewrite Hr in Ep. injection Ep as <-.
  cbn [fst snd] in *. destruct Hrel as (Hg & Hlt & Hg1 & _). destruct (reachable_ok s1 s2 Hs1 Hs2) as [_ Hold].
  assert (Hlen : (h_slot h < length (generations s))%nat) by (by eapply lookup_lt_Some).
  destruct (older_lookup s1 s2 (h_slot h) (h_generation h + 1) Hold) as (g & Hg2 & Hle); [by rewrite Hg1, list_lookup_insert_eq|].
  assert (Hc : current_handle s2 h = None) by (eapply not_live; [exact Hg2|lia]). split_and!; [|done|].
  - unfold release_transaction in Hr. unfold current_handle. destruct (en_slots s !! h_slot h) as [t|]; [|done]. destruct (tr_active _); [|done]. by destruct (tr_generation _ =? _).
  - unfold take_response. unfold current_handle in Hc. unfold generations in Hg2. rewrite list_lookup_fmap in Hg2. destruct (en_slots s2 !! h_slot h) as [t|]; [|done].
    by destruct (tr_active _), (tr_generation _ =? _).
Qed.

(** What [accept] leaves. *)
Definition accept_outcome (s : Engine) (packet : PacketView) (p : Result Handle * Engine) : Prop :=
  advances backend options s p.2 /\
  match p.1 with
  | Ok h => actives s !! h_slot h = Some false /\ (forall h', live p.2 h' = live s h' || bool_decide (h' = h)) /\
      exists t, current_handle p.2 h = Some t /\ request_from packet profile = Ok (request_of t) /\ tr_complete (ts_record t) = false /\ tr_running (ts_record t) = false /\
        tr_response_read (ts_record t) = 0%nat
  | Err _ => forall h', live p.2 h' = live s h'
  | UB => False
  end.
Lemma accept_live s packet now : ok s -> Forall view_ok (pv_fields packet) -> ensures (accept backend options plan_size s packet now) (accept_outcome s packet).
Proof.
  intros Hs Hv. eapply ensures_mono; [by apply (accept_spec backend options plan_size s packet now sink_ok Hs Hv)|]. intros [r s'] (req & [Hadv Hres] & Hreq). split; [done|].
  cbn [fst snd] in *. destruct Hadv as [_ [Hg _ _]]. destruct r as [h|e|]; [|by apply live_same|done].
  destruct Hres as ((t & Ht & Hact & Hgen & Hcom & Hrun & Hread & Hq) & Hin & Hacts). specialize (Hreq eq_refl). split_and!.
  - done.
  - intros h'. apply eq_true_iff_eq. rewrite orb_true_iff, bool_decide_eq_true, !live_iff, Hacts, Hg.
    assert (Hlen : (h_slot h < length (actives s))%nat) by (by eapply lookup_lt_Some).
    assert (Hgh : generations s !! h_slot h = Some (h_generation h)) by (rewrite <- Hg; unfold generations; rewrite list_lookup_fmap, Ht; cbn; by rewrite Hgen).
    destruct (decide (h_slot h = h_slot h')) as [Es|Hne].
    + rewrite <- Es, list_lookup_insert_eq, Hin, Hgh by done. split; [|by intros [[] | ->]]. intros [_ [= Eg]]. right. destruct h, h'. cbn in *. by subst.
    + rewrite list_lookup_insert_ne by done. split; [by left|]. intros [?| ->]; done.
  - exists t. unfold current_handle. rewrite Ht, Hact, Hgen, Z.eqb_refl. cbn. split_and!; try done. by rewrite Hq.
Qed.

(** An accepted command gets a handle that named no transaction before; every other handle
    names what it named.  The slot holds the request of the packet, and nothing was executed
    yet.  A refused command opens nothing. *)
Theorem accept_opens_one s packet now r s' : reachable s -> Forall view_ok (pv_fields packet) -> accept backend options plan_size s packet now = Ok (r, s') ->
  match r with
  | Ok h => live s h = false /\ (forall h', live s' h' = live s h' || bool_decide (h' = h)) /\
      exists t, current_handle s' h = Some t /\ request_from packet profile = Ok (request_of t) /\ tr_complete (ts_record t) = false /\ tr_running (ts_record t) = false
  | Err _ => forall h', live s' h' = live s h'
  | UB => False
  end.
Proof.
  intros H Hv Ha. destruct (accept_live s packet now (reachable_invariant s H) Hv) as (p & Ep & _ & Hres). rewrite Ha in Ep. injection Ep as <-. cbn [fst snd] in *.
  destruct r as [h|e|]; [|done|done]. destruct Hres as (Hin & Hall & t & Ht & Hq & Hc & Hr & _). split_and!; [|done|eauto].
  destruct (live s h) eqn:Hl; [|done]. apply live_iff in Hl as [Hl _]. congruence.
Qed.

(** C29. A shutdown that is granted leaves no transaction waiting: each is complete or with the
    device.  New commands are refused from then on. *)
Theorem quiesce_settles s now s' : reachable s -> request_quiesce backend options s now = Ok (Ok tt, s') ->
  (forall i t, en_slots s' !! i = Some t -> tr_active (ts_record t) = true -> tr_complete (ts_record t) = true \/ tr_running (ts_record t) = true) /\
  forall packet later, exists e s2, accept backend options plan_size s' packet later = Ok (Err e, s2).
Proof.
  intros H Hq. destruct (request_quiesce_spec backend options s now (reachable_invariant s H)) as (p & Ep & Hok & _ & _ & _ & _ & Hr). rewrite Hq in Ep. injection Ep as <-.
  cbn [fst snd] in Hr. destruct Hr as [Hqs Hall]. split; [done|]. intros packet later. unfold accept. set (s1 := observe_backend_faults s').
  assert (H1 : en_quiescing s1 = true) by (unfold s1; by rewrite (ev_quiescing _ _ (proj2 (observe_backend_faults_ok _ _ s' Hok)))). unfold check_accept. destruct (_ || _); [eauto|]. destruct (negb _); [eauto|]. rewrite H1. eauto.
Qed.

(** ** Acknowledgements *)

Definition emitted (t : TxSlot) (kind : AckKind.t) (observed : StateSnapshot) (now : OperationContext) : list AckRecord :=
  let a := make_ack options t kind observed now in if should_emit (ak_cam a) kind (summary a) then [a] else [].

Lemma make_ack_plan t t' kind observed now : ts_plan t' = ts_plan t -> make_ack options t' kind observed now = make_ack options t kind observed now.
Proof. unfold make_ack. by intros ->. Qed.
Lemma emitted_plan t t' kind observed now : ts_plan t' = ts_plan t -> emitted t' kind observed now = emitted t kind observed now.
Proof. intros H. unfold emitted. by rewrite (make_ack_plan t t'). Qed.
Lemma emitted_length t kind observed now : (length (emitted t kind observed now) <= 1)%nat.
Proof. unfold emitted. cbv zeta. case_match; cbn; lia. Qed.

Lemma queue_ack_room t kind observed now : (length (tr_responses (ts_record t)) < 3)%nat ->
  tr_responses (ts_record (queue_ack options t kind observed now)) = tr_responses (ts_record t) ++ emitted t kind observed now.
Proof.
  intros Hl. unfold queue_ack, emitted. cbv zeta. destruct (should_emit _ _ _); [|by rewrite app_nil_r]. cbn. unfold push_response.
  rewrite (proj2 (Nat.ltb_lt _ response_capacity)) by done. done.
Qed.

(** No acknowledgement is lost to the fixed queue of three records: when an open
    transaction finishes, its queue is what it held, the execution acknowledgement and the
    state acknowledgement, each when the command asks for it. *)
Theorem acknowledgements_kept s i t now : reachable s -> en_slots s !! i = Some t -> tr_complete (ts_record t) = false ->
  let observed := if cm_action (cam_of_slot t) =? 1 then tr_hypothetical (ts_record t) else en_state s in
  tr_responses (ts_record (finish options s i t now).2) =
    tr_responses (ts_record t) ++ emitted t AckKind.execution observed now ++ emitted t AckKind.state observed now.
Proof.
  intros H Hi Hc observed. pose proof (engine_slot _ _ s i t (reachable_invariant s H) Hi) as [_ Hrec]. pose proof (rp_responses _ _ Hrec) as Hl. rewrite Hc in Hl.
  unfold finish. fold observed. set (t1 := queue_ack options t AckKind.execution observed now).
  assert (E1 : tr_responses (ts_record t1) = tr_responses (ts_record t) ++ emitted t AckKind.execution observed now) by (apply queue_ack_room; lia).
  destruct (queue_ack_spec options t AckKind.execution observed now) as (Ep & _). fold t1 in Ep. set (t2 := queue_ack options t1 AckKind.state observed now).
  assert (E2 : tr_responses (ts_record t2) = tr_responses (ts_record t1) ++ emitted t AckKind.state observed now).
  { unfold t2. rewrite queue_ack_room; [by rewrite (emitted_plan t t1)|]. rewrite E1, length_app. pose proof (emitted_length t AckKind.execution observed now). lia. }
  rewrite app_assoc, <- E1, <- E2. unfold reset_revisions. destruct (ps_revisions _); [destruct (es_release _ _ _ _)|]; done.
Qed.

(** ** Simulations and queries *)

(** What belongs to the device. *)
Definition device_same (s s' : Engine) : Prop :=
  en_state s' = en_state s /\ en_shared s' = en_shared s /\ en_backend s' = en_backend s /\ en_faulted s' = en_faulted s.

Lemma finish_device s i t now : slot_ok backend options (tickets s) t -> tr_complete (ts_record t) = false -> tr_running (ts_record t) = false ->
  device_same s (finish options s i t now).1.
Proof.
  intros Ht Hc Hr. pose proof (finish_spec backend options (tickets s) s i t now Ht Hc Hr) as Hf. destruct (finish _ _ _ _ _) as [s' t']. destruct Hf as (_ & [] & ? & ?). by split_and!.
Qed.

Lemma execute_query s index t now : ok s -> en_slots s !! index = Some t -> tr_active (ts_record t) = true -> tr_complete (ts_record t) = false ->
  tr_running (ts_record t) = false -> cm_action (cam_of_slot t) = 1 -> ensures (execute_slot backend options s index t now) (fun p => device_same s p.1).
Proof.
  intros Hs Hi Hact Hcom Hrun Hall. set (n := tickets s). pose proof (engine_slot _ _ s index t Hs Hi) as Ht. fold n in Ht. unfold execute_slot.
  set (t1 := if tr_revalidated _ then t else _).
  assert (H1 : still backend options n t t1) by (unfold t1; case_match; [by apply still_refl|by apply revalidate_still]).
  pose proof (reschedule_still backend options n t1 now (still_ok _ _ _ _ _ H1)) as H2. pose proof (reschedule_waits options t1 now) as Hw.
  destruct (reschedule options t1 now) as [wait t2]. cbn [fst snd] in *. rewrite (fr_request _ _ (kp_frame _ _ _ _ _ (sl_keeps _ _ _ _ _ H1))) in Hw.
  pose proof (still_trans _ _ _ _ _ _ H1 H2) as H12. clear H1 H2. destruct wait; [rewrite Hw in Hall by done; lia|].
  eapply ensures_bind; [apply (boundary_validate_still backend options n), (still_ok _ _ _ _ _ H12)|]. intros t3 H3. pose proof (still_trans _ _ _ _ _ _ H12 H3) as Ht3. clear H12 H3 Hw.
  pose proof (fr_request _ _ (kp_frame _ _ _ _ _ (sl_keeps _ _ _ _ _ Ht3))) as Er. rewrite Er, Hall. cbn [Z.eqb Pos.eqb]. rewrite andb_false_r.
  eapply ensures_bind; [apply (step_loop_spec backend options n)|].
  + done.
  + apply Hs.
  + apply (still_ok _ _ _ _ _ Ht3).
  + by rewrite (fr_active _ _ (kp_frame _ _ _ _ _ (sl_keeps _ _ _ _ _ Ht3))).
  + by rewrite (kp_complete _ _ _ _ _ (sl_keeps _ _ _ _ _ Ht3)).
  + by rewrite (sl_running _ _ _ _ _ Ht3).
  + rewrite Er. by left.
  + lia.
  + intros [[s5 t5] e] [Ha5 Hk5 Hr5 Hq]. cbn [fst snd] in *. rewrite Er in Hq. destruct (Hq Hall) as (E1 & E2 & E3 & E4 & _ & _ & ->).
    pose proof (finish_device s5 index t5 now) as Hf. destruct (finish _ _ _ _ _) as [s6 t6]. apply ensures_Ok. cbn [fst] in *.
    destruct Hf as (? & ? & ? & ?); [rewrite E2; apply Hk5|rewrite (kp_complete _ _ _ _ _ Hk5); by rewrite (kp_complete _ _ _ _ _ (sl_keeps _ _ _ _ _ Ht3))|done|].
    repeat split; cbn; congruence.
Qed.

(** A query or a simulation never touches the device: when the engine works on such a
    transaction, the device state, the fault flag, the backend and its results stay as they
    are. *)
Theorem query_leaves_device s i t running now : reachable s -> en_slots s !! i = Some t -> cm_action (cam_of_slot t) <> 2 ->
  ensures (progress_slot backend options s i running now) (fun p => device_same s p.1).
Proof.
  intros H Hi Hact. pose proof (reachable_invariant s H) as Hs. pose proof (engine_slot _ _ s i t Hs Hi) as Ht. unfold progress_slot. rewrite Hi. cbn [deref rbind].
  assert (Hrun : tr_running (ts_record t) = false).
  { destruct (tr_running (ts_record t)) eqn:Hr; [|done]. destruct (rp_running _ _ (proj2 Ht) Hr) as (_ & _ & ? & _). done. }
  destruct (tr_active (ts_record t)) eqn:Ha; [|by apply ensures_Ok]. destruct (tr_complete (ts_record t)) eqn:Hc; [by apply ensures_Ok|]. cbn [negb orb].
  assert (Hfin : forall t1, keeps backend options (tickets s) t t1 -> tr_running (ts_record t1) = false ->
    ensures (let '(s1, t2) := finish options s i t1 now in Ok (set_slot_at i t2 s1, None : option (Result unit))) (fun p => device_same s p.1)).
  { intros t1 Hk Hr1. pose proof (finish_device s i t1 now (kp_ok _ _ _ _ _ Hk)) as Hf. rewrite (kp_complete _ _ _ _ _ Hk) in Hf. specialize (Hf Hc Hr1).
    destruct (finish _ _ _ _ _) as [s1 t2]. by apply ensures_Ok. }
  rewrite Hrun, andb_true_r. destruct (en_quiescing s).
  - apply Hfin; [|done]. eapply keeps_trans; [|apply keeps_step]; [|]. 1,2: unfold cancel_pending; eapply keeps_outcomes; [done|]; rewrite length_imap; apply Ht.
  - destruct (_ && _); [by apply ensures_Ok|]. pose proof Hact as Hne. apply Z.eqb_neq in Hact as ->. cbn [andb]. destruct (Z.eqb_spec (cm_action (cam_of_slot t)) 0) as [|E0]; [by apply Hfin; [apply keeps_refl|]|].
    apply execute_query; try done. pose proof (pp_action _ _ _ _ (proj1 Ht)). lia.
Qed.

(** ** Outcomes *)

(** A report the engine can believe: it is about the planned field, its status is one a
    finished operation can have, the validity goes with the status, and a time is a time. *)
Record well_formed_report (planned : PlannedField) (o : FieldOutcome) : Prop := mk_well_formed_report {
  wr_id : fo_id o = pl_id planned;
  wr_status : fo_status o ∈ [FieldStatus.executed; FieldStatus.failed; FieldStatus.cancelled; FieldStatus.unknown_effect; FieldStatus.not_executed];
  wr_executed : fo_status o = FieldStatus.executed -> fo_validity o = Validity.known;
  wr_unknown : fo_status o = FieldStatus.unknown_effect -> fo_validity o = Validity.unknown;
  wr_time : fo_time_known o = true -> picoseconds (fo_actual_time o) < picoseconds_per_second }.

(** The value is one the profile can have in the field. *)
Definition acceptable_value (planned : PlannedField) (o : FieldOutcome) : Prop :=
  is_ok (validate_value (pl_id planned) (fo_value o) true) = true /\
  (is_profile profile TxProfile.iq_frequency_tunable = true -> vl_resolvable (tunable_validate (pl_id planned) (fo_value o)) = true).

(** What a report of the device means. *)
Inductive Verdict := took_effect | uncertain | no_effect.
Inductive verdict (planned : PlannedField) (o : FieldOutcome) : Verdict -> Prop :=
  | verdict_effect : well_formed_report planned o -> fo_status o = FieldStatus.executed -> acceptable_value planned o ->
      verdict planned o took_effect
  | verdict_value : well_formed_report planned o -> fo_status o = FieldStatus.executed -> ~ acceptable_value planned o ->
      verdict planned o uncertain
  | verdict_unknown : well_formed_report planned o -> fo_status o = FieldStatus.unknown_effect -> verdict planned o uncertain
  | verdict_malformed : ~ well_formed_report planned o -> verdict planned o uncertain
  | verdict_none : well_formed_report planned o ->
      fo_status o ∈ [FieldStatus.failed; FieldStatus.cancelled; FieldStatus.not_executed] -> verdict planned o no_effect.

Lemma status_in_range o : u8 (fo_status o) ->
  fo_status o ∈ [FieldStatus.executed; FieldStatus.failed; FieldStatus.cancelled; FieldStatus.unknown_effect; FieldStatus.not_executed] <->
  fo_status o <> FieldStatus.pending /\ ~ FieldStatus.not_executed < fo_status o.
Proof.
  intros [Hu _]. rewrite !elem_of_cons, elem_of_nil.
  unfold FieldStatus.pending, FieldStatus.executed, FieldStatus.failed, FieldStatus.cancelled, FieldStatus.unknown_effect, FieldStatus.not_executed. lia.
Qed.

Lemma malformed_report planned o : u8 (fo_status o) -> outcome_malformed planned o = false <-> well_formed_report planned o.
Proof.
  intros Hu. pose proof (status_in_range o Hu) as Hr. unfold outcome_malformed, is_status, Time.valid.
  rewrite !orb_false_iff, !andb_false_iff, !negb_false_iff, !bool_decide_eq_false, fid_eqb_eq, Z.ltb_ge, !Z.eqb_eq, Z.ltb_lt. split.
  - intros [[[[[H1 H2] H3] H4] H5] H6]. split; [done|apply Hr; split; [done|lia]|tauto|tauto|].
    intros Ek. rewrite Ek in H6. by destruct H6.
  - intros [H1 H2 H3 H4 H5]. apply Hr in H2 as [H2 H2']. split_and!; [done|done|lia| | |].
    + destruct (decide (fo_status o = FieldStatus.executed)); auto.
    + destruct (decide (fo_status o = FieldStatus.unknown_effect)); auto.
    + destruct (fo_time_known o); auto.
Qed.

Lemma diagnose_outcome_same q p o : fo_status (diagnose_outcome q p o) = fo_status o /\ fo_value (diagnose_outcome q p o) = fo_value o.
Proof. unfold diagnose_outcome. cbv zeta. repeat case_match; done. Qed.

(** The value check of [admit_outcome]. *)
Lemma acceptable_decides planned o :
  negb (is_ok (validate_value (pl_id planned) (fo_value o) true)) ||
  (is_profile profile TxProfile.iq_frequency_tunable && negb (vl_resolvable (tunable_validate (pl_id planned) (fo_value o)))) = false
  <-> acceptable_value planned o.
Proof.
  unfold acceptable_value. rewrite orb_false_iff, andb_false_iff, !negb_false_iff.
  destruct (is_profile profile TxProfile.iq_frequency_tunable); intuition congruence.
Qed.

Lemma admit_verdict planned o : u8 (fo_status o) -> let o' := admit_outcome options planned false o in
  exists v, verdict planned o v /\
  match v with
  | took_effect => fo_status o' = FieldStatus.executed /\ fo_value o' = fo_value o
  | uncertain => fo_status o' = FieldStatus.unknown_effect
  | no_effect => fo_status o' <> FieldStatus.executed /\ fo_status o' <> FieldStatus.unknown_effect
  end.
Proof.
  intros Hu. cbv zeta. pose proof (malformed_report planned o Hu) as Hw. pose proof (acceptable_decides planned o) as Ha.
  unfold admit_outcome. destruct (outcome_malformed planned o).
  { exists uncertain. split; [|done]. apply verdict_malformed. by intros ?%Hw. }
  pose proof (proj1 Hw eq_refl) as Hwf. unfold is_status. cbn [fo_status fo_value].
  destruct (negb _ || _).
  - assert (Hna : ~ acceptable_value planned o) by (by intros ?%Ha). case_bool_decide as Es; cbn [andb].
    { exists uncertain. split; [by apply verdict_value|done]. }
    cbn [fo_status]. destruct (decide (fo_status o = FieldStatus.unknown_effect)) as [Eu|Eu].
    { exists uncertain. split; [by apply verdict_unknown|done]. }
    exists no_effect. split; [|done]. apply verdict_none; [done|]. pose proof (wr_status _ _ Hwf) as Hs. clear -Hs Es Eu. set_solver.
  - pose proof (proj1 Ha eq_refl) as Hav. rewrite andb_false_r. cbn [fo_status fo_value].
    destruct (decide (fo_status o = FieldStatus.executed)) as [Es|Es]; [exists took_effect; split; [by apply verdict_effect|done]|].
    destruct (decide (fo_status o = FieldStatus.unknown_effect)) as [Eu|Eu]; [exists uncertain; split; [by apply verdict_unknown|done]|].
    exists no_effect. split; [|done]. apply verdict_none; [done|]. pose proof (wr_status _ _ Hwf) as Hs. clear -Hs Es Eu. set_solver.
Qed.

Lemma record_state_cases st id o f : st_fields st !! field_index id = Some f ->
  match record_state st id o with
  | None => effectful o = false \/ (effectful o = true /\ fs_validity (next_field id o f) = fs_validity f /\ (fs_validity f = Validity.known -> fs_value f = fs_value (next_field id o f)))
  | Some st' => effectful o = true /\ st' = mkState (wrap64 (st_version st + 1)) (<[field_index id := next_field id o f]> (st_fields st)) (st_profile st)
  end.
Proof.
  intros Hf. unfold record_state. destruct (effectful o); cbn [negb]; [|by left]. rewrite Hf. cbv zeta. destruct (_ || _) eqn:Ec; [done|]. right. split; [done|].
  apply orb_false_iff in Ec as [H1%negb_false_iff%Z.eqb_eq H2]. split; [done|]. intros Hk. rewrite H1, Hk in H2. cbn in H2. by apply negb_false_iff, bool_decide_eq_true in H2.
Qed.

(** The recorded state after an outcome. *)
Definition field_settled (v : Verdict) (o : FieldOutcome) (f f' : FieldState) : Prop :=
  match v with
  | took_effect => fs_value f' = fo_value o /\ fs_validity f' = Validity.known
  | uncertain => fs_validity f' = Validity.unknown
  | no_effect => f' = f
  end.

(** C17. The engine records what the device did.  A well-formed report of an executed change
    to an acceptable value makes the field known with that value; a report that is malformed
    (of another field, with a status that no finished operation has or outside the
    enumeration, with a validity that does not go with the status, or with an invalid time),
    names an unacceptable value or is itself uncertain makes the field unknown and the engine
    faulted; any other report leaves the state alone.  No other field changes, and the
    version grows with every change. *)
Theorem apply_outcome_exact s i t field planned o f : reachable s -> en_slots s !! i = Some t -> cm_action (cam_of_slot t) = 2 ->
  fields_of t !! field = Some planned -> st_fields (en_state s) !! field_index (pl_id planned) = Some f -> u8 (fo_status o) ->
  let s' := (apply_outcome options s t field o true).1 in
  exists v, verdict planned o v /\
  (exists f', st_fields (en_state s') !! field_index (pl_id planned) = Some f' /\ field_settled v o f f') /\
  en_faulted s' = (match v with uncertain => true | _ => en_faulted s end) /\
  (forall j, j <> field_index (pl_id planned) -> st_fields (en_state s') !! j = st_fields (en_state s) !! j) /\
  (en_state s' = en_state s \/ st_version (en_state s') = wrap64 (st_version (en_state s) + 1)).
Proof.
  intros H Hi Hact Hp Hf Hu. pose proof (engine_slot _ _ s i t (reachable_invariant s H) Hi) as Ht. cbv zeta. unfold apply_outcome. rewrite Hp, Hact. cbn [Z.eqb Pos.eqb].
  destruct (admit_verdict planned o Hu) as (v & Hverdict & Hv). set (o1 := admit_outcome options planned false o) in *. rewrite andb_true_r.
  exists v. split; [done|]. clear Hverdict.
  set (s1 := if is_status o1 FieldStatus.unknown_effect then _ else s). assert (Es1 : en_state s1 = en_state s) by (unfold s1; by destruct (is_status o1 FieldStatus.unknown_effect)).
  assert (Ef1 : en_faulted s1 = match v with uncertain => true | _ => en_faulted s end).
  { unfold s1, is_status. destruct v; [destruct Hv as [-> _]|rewrite Hv|destruct Hv as [_ Hv]; rewrite bool_decide_eq_false_2 by done]; done. }
  destruct (diagnose_outcome_same (en_quiescing s1) (ts_plan t) o1) as [Est Eval]. set (o2 := diagnose_outcome _ _ o1) in *. rewrite <- Es1 in Hf.
  pose proof (record_state_cases (en_state s1) (pl_id planned) o2 f Hf) as Hrec.
  assert (Hnext : effectful o2 = true -> field_settled v o f (next_field (pl_id planned) o2 f) /\ v <> no_effect).
  { unfold next_field, effectful, is_status. rewrite Est, Eval. destruct v; cbn; [destruct Hv as [-> ->]|rewrite Hv|destruct Hv as [Hv1 Hv2]]; [done|done|].
    by rewrite !bool_decide_eq_false_2. }
  destruct (record_state _ _ _) as [next|].
  - destruct Hrec as [He ->]. destruct (Hnext He) as [Hset _]. set (next := mkState _ _ _).
    pose proof (record_effect_spec backend options (tickets s) (en_set_state next s1) t (effect_event next (ts_plan t) (pl_id planned) o2) Ht) as Hr.
    destruct (record_effect _ _ _ _) as [s2 t2]. destruct Hr as (_ & _ & E1 & E2 & _). cbn [fst]. rewrite E1, E2. cbn [en_set_state en_state en_faulted next st_fields st_version].
    split_and!; [|done| |right; by rewrite Es1].
    + eexists. rewrite list_lookup_insert_eq by (by eapply lookup_lt_Some). done.
    + intros j Hj. by rewrite list_lookup_insert_ne, Es1.
  - cbn [fst]. rewrite Es1 in *. split_and!; [|done|done|by left]. exists f. split; [done|]. destruct Hrec as [He|(He & Hval & Heq)].
    + unfold effectful, is_status in He. rewrite Est in He. destruct v; [by destruct Hv as [Hv _]; rewrite Hv in He|by rewrite Hv in He|done].
    + destruct (Hnext He) as [Hset Hno]. destruct v; cbn in *; [|congruence|done]. destruct Hset as [Hset1 Hset2]. rewrite Hset2 in Hval. split; [|done]. rewrite <- Hset1. auto.
Qed.
End runs.

(** ** A run of the engine on the virtual backend *)

Definition demo_options : EngineOptions unit :=
  mkEngineOptions TxProfile.generic_virtual_test (mkSink None None (fun e pool _ => (e, pool))) true None true None.
Definition demo_now : OperationContext :=
  mkOperation 1 1 (mkMono 0) (mkSnapshot ClockState.locked (mkTime 1000 0) 0 1 true false Epoch.utc) [] capabilities_none false.
(** A command with [action] that asks for all three acknowledgements. *)
Definition demo_command (action : Z) : Envelope :=
  mkEnvelope PacketType.command 0 (Some 7) None (mkTimestamp 0 0 0 0) false false false false false false
    (Some (mkCommand (Z.lor (Z.shiftl action 23) (Z.shiftl 7 18)) 1 (Identifier_short_id 1) (Identifier_short_id 2))).
Definition demo_packet (action : Z) : PacketView :=
  mkPacketView (mkEnvelopeView (demo_command action) [] None 0 [])
    [mkView Field.ReferencePoint Attribute.current BodyKind.values DiagnosticGroup.none [Byte.x00; Byte.x00; Byte.x00; Byte.x05] (mkBinding 0 0 false)]
    BodyKind.values false false false.
Definition demo_start : Engine VirtualBackend unit := engine_new 2 (pool_new reference_capacities) (virtual_new 2) tt None sample_state.

#[local] Abbreviation demo_run l := (engine_run virtual_binding demo_options 64 demo_start l).
Definition run_state (r : Result (Engine VirtualBackend unit)) : Engine VirtualBackend unit := match r with Ok s => s | _ => demo_start end.

(** The device has the command. *)
Definition demo_begun : list (EngineEvent VirtualBackend) := [ev_accept (demo_packet 2) demo_now; ev_progress demo_now].
Definition demo_running : Engine VirtualBackend unit := run_state (demo_run demo_begun).
Definition demo_handle : Handle := mkHandle 0 1.
(** It completes, and the responses are read. *)
Definition demo_device : EngineEvent VirtualBackend :=
  let '(_, calls, b) := complete_next (en_backend demo_running) (en_shared demo_running) None in ev_device calls b.
Definition demo_read : list (EngineEvent VirtualBackend) :=
  demo_begun ++ [demo_device; ev_progress demo_now; ev_take demo_handle; ev_take demo_handle; ev_take demo_handle].
Definition demo_complete : Engine VirtualBackend unit := run_state (demo_run demo_read).
(** A simulation waits. *)
Definition demo_simulating : Engine VirtualBackend unit := run_state (demo_run [ev_accept (demo_packet 1) demo_now]).

#[local] Abbreviation demo_reachable := (reachable virtual_binding demo_options 64).

Lemma demo_sink : sink_safe demo_options.
Proof. by intros f e pool n. Qed.
Lemma demo_started : started (E := unit) virtual_binding demo_start.
Proof.
  exists 2%nat, (pool_new reference_capacities), (virtual_new 2), tt, None, sample_state. split_and!; [lia| |done|done]. by repeat constructor.
Qed.
Lemma demo_reached l s : Forall (event_ok virtual_binding 8) l -> demo_run l = Ok s -> demo_reachable s.
Proof. intros Hl Hr. exists demo_start. split; [apply demo_started|]. by eapply engine_run_steps. Qed.

Lemma demo_packet_ok action : Forall view_ok (pv_fields (demo_packet action)).
Proof. constructor; [|constructor]. split; [done|]. eexists. split; [reflexivity|done]. Qed.

Lemma demo_device_ok : event_ok virtual_binding 8 demo_device.
Proof. vm_compute. repeat constructor. Qed.

Ltac demo_events := repeat (constructor; [first [exact I | apply demo_packet_ok]|]); constructor.

Lemma demo_simulating_reachable : demo_reachable demo_simulating.
Proof. apply (demo_reached [ev_accept (demo_packet 1) demo_now]); [demo_events|by vm_compute]. Qed.
Lemma demo_running_reachable : demo_reachable demo_running.
Proof. apply (demo_reached demo_begun); [unfold demo_begun; demo_events|by vm_compute]. Qed.
Lemma demo_complete_reachable : demo_reachable demo_complete.
Proof.
  apply (demo_reached demo_read); [|by vm_compute]. unfold demo_read, demo_begun.
  constructor; [apply demo_packet_ok|]. constructor; [exact I|]. constructor; [apply demo_device_ok|]. demo_events.
Qed.

Lemma engine_never_undefined_witness : exists s', engine_do virtual_binding demo_options 64 demo_running (ev_quiesce demo_now) = Ok s' /\ demo_reachable s'.
Proof. apply (engine_never_undefined virtual_binding demo_options 64 demo_sink demo_running (ev_quiesce demo_now)); [apply demo_running_reachable|exact I]. Defined.

Lemma one_effect_at_a_time_witness : exists t, en_slots demo_running !! 0%nat = Some t /\ en_effect_owner demo_running = Some 0%nat.
Proof.
  destruct (en_slots demo_running !! 0%nat) as [t|] eqn:Et; [|vm_compute in Et; discriminate Et]. exists t. split; [reflexivity|].
  assert (Hr : tr_running (ts_record t) = true) by (vm_compute in Et; injection Et as <-; reflexivity).
  apply (one_effect_at_a_time virtual_binding demo_options 64 demo_sink demo_running 0 t 0 t); [apply demo_running_reachable|done..].
Defined.

Lemma released_handle_stays_stale_witness : exists s1, release_transaction demo_complete demo_handle = Ok (Ok tt, s1) /\ current_handle s1 demo_handle = None.
Proof.
  destruct (release_transaction demo_complete demo_handle) as [[r s1]|e|] eqn:Er; [|vm_compute in Er; discriminate Er..]. exists s1.
  assert (Hr : r = Ok tt) by (vm_compute in Er; injection Er as <- _; reflexivity). subst r. split; [reflexivity|].
  apply (released_handle_stays_stale virtual_binding demo_options 64 demo_sink demo_complete demo_handle s1 s1 demo_complete_reachable Er (rtc_refl _ _)).
Defined.

Lemma accept_opens_one_witness : exists h s', accept virtual_binding demo_options 64 demo_running (demo_packet 1) demo_now = Ok (Ok h, s') /\ live demo_running h = false.
Proof.
  destruct (accept virtual_binding demo_options 64 demo_running (demo_packet 1) demo_now) as [[r s1]|e|] eqn:Er; [|vm_compute in Er; discriminate Er..].
  assert (Hr : r = Ok (mkHandle 1 1)) by (vm_compute in Er; injection Er as <- _; reflexivity). subst r. exists (mkHandle 1 1), s1. split; [reflexivity|].
  exact (proj1 (accept_opens_one virtual_binding demo_options 64 demo_sink demo_running (demo_packet 1) demo_now _ _ demo_running_reachable (demo_packet_ok 1) Er)).
Defined.

Lemma quiesce_settles_witness : exists s', request_quiesce virtual_binding demo_options demo_simulating demo_now = Ok (Ok tt, s') /\
  forall packet later, exists e s2, accept virtual_binding demo_options 64 s' packet later = Ok (Err e, s2).
Proof.
  destruct (request_quiesce virtual_binding demo_options demo_simulating demo_now) as [[r s1]|e|] eqn:Er; [|vm_compute in Er; discriminate Er..].
  assert (Hr : r = Ok tt) by (vm_compute in Er; injection Er as <- _; reflexivity). subst r. exists s1. split; [reflexivity|].
  exact (proj2 (quiesce_settles virtual_binding demo_options 64 demo_sink demo_simulating demo_now s1 demo_simulating_reachable Er)).
Defined.

(** The slot of an engine. *)
Definition slot_of (s : Engine VirtualBackend unit) : TxSlot := default (mkTxSlot plan_default (mkTransaction false false false false 1 0 0 0 0 [] state_default) bundle_empty) (en_slots s !! 0%nat).

Lemma acknowledgements_kept_witness :
  tr_responses (ts_record (finish demo_options demo_simulating 0 (slot_of demo_simulating) demo_now).2) =
    tr_responses (ts_record (slot_of demo_simulating)) ++
    emitted demo_options (slot_of demo_simulating) AckKind.execution (tr_hypothetical (ts_record (slot_of demo_simulating))) demo_now ++
    emitted demo_options (slot_of demo_simulating) AckKind.state (tr_hypothetical (ts_record (slot_of demo_simulating))) demo_now.
Proof. apply (acknowledgements_kept virtual_binding demo_options 64 demo_sink demo_simulating 0 (slot_of demo_simulating) demo_now demo_simulating_reachable); by vm_compute. Defined.

Lemma query_leaves_device_witness : exists p, progress_slot virtual_binding demo_options demo_simulating 0 false demo_now = Ok p /\ device_same demo_simulating p.1.
Proof. apply (query_leaves_device virtual_binding demo_options 64 demo_sink demo_simulating 0 (slot_of demo_simulating) false demo_now demo_simulating_reachable); by vm_compute. Defined.

Definition demo_planned : PlannedField := default (mkPlanned Field.ReferencePoint (v_uint32 0) (v_uint32 0) 0 false no_diagnostics false false) (fields_of (slot_of demo_running) !! 0%nat).
Definition demo_outcome : FieldOutcome :=
  mkOutcome Field.ReferencePoint FieldStatus.executed (v_uint32 5) Validity.known (mkTime 1000 0) 0 0 true false false no_diagnostics.

Lemma demo_report_well_formed : well_formed_report demo_planned demo_outcome.
Proof. split; [done|by left|done|done|by intros _; vm_compute]. Qed.
Lemma demo_acceptable : acceptable_value demo_options demo_planned demo_outcome.
Proof. split; [vm_compute; reflexivity|intros E; discriminate E]. Qed.
(** The same report with a status outside the enumeration. *)
Definition demo_garbled : FieldOutcome :=
  mkOutcome Field.ReferencePoint 9 (v_uint32 5) Validity.known (mkTime 1000 0) 0 0 true false false no_diagnostics.
Lemma demo_garbled_malformed : ~ well_formed_report demo_planned demo_garbled.
Proof. intros [_ Hs _ _ _]. revert Hs. apply (bool_decide_eq_false (_ ∈ _)). vm_compute. reflexivity. Qed.

Lemma apply_outcome_exact_witness :
  let after o := (apply_outcome demo_options demo_running (slot_of demo_running) 0 o true).1 in
  (exists f', st_fields (en_state (after demo_outcome)) !! 0%nat = Some f' /\ fs_value f' = v_uint32 5 /\ fs_validity f' = Validity.known) /\
  (exists f', st_fields (en_state (after demo_garbled)) !! 0%nat = Some f' /\ fs_validity f' = Validity.unknown) /\
  en_faulted (after demo_garbled) = true.
Proof.
  cbv zeta. pose proof (apply_outcome_exact virtual_binding demo_options 64 demo_sink demo_running 0 (slot_of demo_running) 0 demo_planned) as H. split.
  - destruct (H demo_outcome (mkFieldState Field.ReferencePoint (v_uint32 3) Validity.known) demo_running_reachable)
      as (v & Hv & (f' & Hf & Hs) & _); [by vm_compute..|].
    exists f'. split; [exact Hf|]. destruct Hv as [| |? E|Hn|? E]; [exact Hs| | | |].
    + exfalso. match goal with Hn : ~ acceptable_value _ _ _ |- _ => exact (Hn demo_acceptable) end.
    + discriminate E.
    + exfalso. apply Hn, demo_report_well_formed.
    + exfalso. revert E. apply (bool_decide_eq_false (_ ∈ _)). vm_compute. reflexivity.
  - destruct (H demo_garbled (mkFieldState Field.ReferencePoint (v_uint32 3) Validity.known) demo_running_reachable)
      as (v & Hv & (f' & Hf & Hs) & Hfault & _); [by vm_compute..|].
    assert (v = uncertain) as ->.
    { destruct Hv as [Hw|Hw|Hw|Hn|Hw]; [|reflexivity|reflexivity|reflexivity|]; destruct (demo_garbled_malformed Hw). }
    split; [exists f'; exact (conj Hf Hs)|exact Hfault].
Defined.
