(* ===== verification/Retention.v ===== *)
(** * Retention of transactions: [include/vita/runtime/transaction/retention.hpp]

    The store that detects duplicate commands and replays their responses.  An entry holds
    the record of a command and the record of its cancellation; each record owns an extent
    of one byte array with the canonical command followed by the responses.  Extents are
    placed first-fit and found again through [occupied], the list of records in offset
    order.

    A response is copied into the array with [memcpy]: the array holds bytes or fragments
    of the object representation of an [AckRecord], so that reading back is defined exactly
    when all fragments of one record are in place.  [sizeof(AckRecord)] and the two
    capacities are parameters. *)

From S2P Require Import Engine Prelude Wire WireProofs Fields Time Clock Admission Structured Packet Routing State Cam Observer.

(** ** Keys *)

Record TransactionKey := mkTransactionKey {
  tk_binding_generation : Z; tk_peer : PeerSession; tk_stream_id : option Z;
  tk_controller : Identifier; tk_controllee : Identifier; tk_message_id : Z }.

Definition same_key (a b : TransactionKey) : bool :=
  (tk_binding_generation a =? tk_binding_generation b) && bool_decide (tk_peer a = tk_peer b) &&
  bool_decide (tk_stream_id a = tk_stream_id b) && (tk_message_id a =? tk_message_id b) &&
  same_identifier (tk_controller a) (tk_controller b) && same_identifier (tk_controllee a) (tk_controllee b).

Definition clear_message (k : TransactionKey) : TransactionKey :=
  mkTransactionKey (tk_binding_generation k) (tk_peer k) (tk_stream_id k) (tk_controller k) (tk_controllee k) 0.
Definition same_association (a b : TransactionKey) : bool := same_key (clear_message a) (clear_message b).

Definition transaction_key (packet : PacketView) (generation : Z) (peer : PeerSession) : Result TransactionKey :=
  let e := ev_envelope (pv_envelope packet) in
  match command e with
  | Some c =>
      fail_if (generation =? 0) || (peer_generation peer =? 0) || negb (is_command (env_type e))
        with error1 ErrorCode.invalid_argument ;;
      Ok (mkTransactionKey generation peer (stream_id e) (controller c) (controllee c) (message_id c))
  | None => Err (error1 ErrorCode.invalid_argument)
  end.

(** The wire byte without the packet count, and without the indicator bit of the body
    that requests may toggle. *)
Definition mask_byte (b : byte) (mask : Z) : byte := byte_of_Z (Z.land (Z_of_byte b) mask).
Definition canonical_command_byte (packet : PacketView) (offset : nat) : Result byte :=
  let? b := deref (ev_wire (pv_envelope packet) !! offset) in
  let b := if (offset =? 1)%nat then mask_byte b 0xf0 else b in
  Ok (if negb (cancel (ev_envelope (pv_envelope packet))) && (Z.of_nat offset =? ev_payload_offset (pv_envelope packet))
      then mask_byte b 0x7f else b).

(** ** Memory *)

Inductive memval := m_byte (b : byte) | m_frag (a : AckRecord) (k : nat).
#[global] Instance FieldState_eq_dec : EqDecision FieldState.
Proof. solve_decision. Defined.
#[global] Instance StateSnapshot_eq_dec : EqDecision StateSnapshot.
Proof. solve_decision. Defined.
#[global] Instance ProtocolTime_eq_dec : EqDecision ProtocolTime.
Proof. solve_decision. Defined.
#[global] Instance AckRecord_eq_dec : EqDecision AckRecord.
Proof. solve_decision. Defined.
#[global] Instance memval_eq_dec : EqDecision memval.
Proof. solve_decision. Defined.

Definition as_byte (v : memval) : Result byte := match v with m_byte b => Ok b | m_frag _ _ => UB end.

Definition mem_read (m : list memval) (offset count : Z) : Result (list memval) :=
  if (0 <=? offset) && (0 <=? count) && (offset + count <=? zlen m)
  then Ok (take (Z.to_nat count) (drop (Z.to_nat offset) m)) else UB.
Definition mem_write (m : list memval) (offset : Z) (vals : list memval) : Result (list memval) :=
  if (0 <=? offset) && (offset + zlen vals <=? zlen m)
  then Ok (take (Z.to_nat offset) m ++ vals ++ drop (Z.to_nat offset + length vals) m) else UB.

(** ** State *)

Module DuplicateKind.
Inductive t := fresh | active | replay.
#[global] Instance t_eq_dec : EqDecision t.
Proof. solve_decision. Defined.
End DuplicateKind.

Record RetentionToken := mkToken { tok_slot : nat; tok_generation : Z; tok_cancellation : bool }.
Record RetentionAdmission := mkAdmitted { adm_token : RetentionToken; adm_kind : DuplicateKind.t }.

Record RetRecord := mkRecord {
  r_used : bool; r_active : bool; r_terminal : bool;
  r_offset : Z; r_bytes : Z; r_canonical : Z; r_response_capacity : Z; r_response_count : Z;
  r_engine : option Handle; r_credits : AdmissionBundle }.
Definition record_empty : RetRecord := mkRecord false false false 0 0 0 0 0 None bundle_empty.

Record RetEntry := mkEntry {
  e_generation : Z; e_key : TransactionKey; e_rec0 : RetRecord; e_rec1 : RetRecord; e_references : Z; e_expires : MonoTime }.

Definition entry_record (e : RetEntry) (cancellation : bool) : RetRecord := if cancellation then e_rec1 e else e_rec0 e.
Definition set_record (e : RetEntry) (cancellation : bool) (r : RetRecord) : RetEntry :=
  mkEntry (e_generation e) (e_key e) (if cancellation then e_rec0 e else r) (if cancellation then r else e_rec1 e)
    (e_references e) (e_expires e).
Definition set_references (e : RetEntry) (n : Z) : RetEntry :=
  mkEntry (e_generation e) (e_key e) (e_rec0 e) (e_rec1 e) n (e_expires e).

(** The store and the admission pool it draws credits from. *)
Record RetentionStore := mkStore {
  rs_entries : list RetEntry; rs_bytes : list memval; rs_occupied : list Z (* the first [occupied_count] ids *);
  rs_probes : Z; rs_admission : AdmissionState }.

Definition set_entries (s : RetentionStore) (es : list RetEntry) : RetentionStore :=
  mkStore es (rs_bytes s) (rs_occupied s) (rs_probes s) (rs_admission s).
Definition set_probes (s : RetentionStore) (n : Z) : RetentionStore :=
  mkStore (rs_entries s) (rs_bytes s) (rs_occupied s) n (rs_admission s).

(** Continue with the value of a step that does not change the store. *)
Definition attempt {A B} (s : RetentionStore) (m : Result A) (k : A -> Result B * RetentionStore) : Result B * RetentionStore :=
  match m with Ok a => k a | Err e => (Err e, s) | UB => (UB, s) end.
Notation "'try' x ':=' m 'on' s 'in' k" := (attempt s m (fun x => k))
  (at level 10, x pattern, m at level 200, s at level 0, k at level 200) : vrt_scope.

Section store.
Context (Entries : nat) (ByteCapacity : Z) (ack_size : nat).

Definition key_default : TransactionKey := mkTransactionKey 0 (mkPeer 0 0) None Identifier_default Identifier_default 0.
Definition entry_default : RetEntry := mkEntry 1 key_default record_empty record_empty 0 (mkMono 0).
Definition store_new (admission : AdmissionState) : RetentionStore :=
  mkStore (replicate Entries entry_default) (replicate (Z.to_nat ByteCapacity) (m_byte x00)) [] 0 admission.

Definition minimum_retention_ns : Z := 30000000000.

(** The entry a token designates, or the null pointer. *)
Definition entry (s : RetentionStore) (t : RetentionToken) : option RetEntry :=
  e ← rs_entries s !! tok_slot t;
  if r_used (entry_record e (tok_cancellation t)) && (e_generation e =? tok_generation t) then Some e else None.

Definition record_id (slot : nat) (cancellation : bool) : Z := wrap32 (Z.of_nat slot * 2 + b2z cancellation).
Definition id_slot (id : Z) : nat := Z.to_nat (id / 2).
Definition id_cancellation (id : Z) : bool := nonzero (id mod 2).

Definition indexed_record (es : list RetEntry) (id : Z) : Result RetRecord :=
  let? e := deref (es !! id_slot id) in Ok (entry_record e (id_cancellation id)).

(** The scan and the shift of [remove_extent]. *)
Fixpoint remove_id (slot : nat) (cancellation : bool) (ids : list Z) : Result (list Z) :=
  match ids with
  | [] => Ok []
  | id :: ids =>
      if (Entries <=? id_slot id)%nat then UB
      else if (id_slot id =? slot)%nat && Bool.eqb (id_cancellation id) cancellation then Ok ids
      else let? ids := remove_id slot cancellation ids in Ok (id :: ids)
  end.

(** [remove_extent(r); r = Record{};] the old bundle gives its credits back. *)
Definition drop_record (s : RetentionStore) (slot : nat) (cancellation : bool) : Result RetentionStore :=
  let? e := deref (rs_entries s !! slot) in
  let r := entry_record e cancellation in
  let? occupied := (if r_used r then remove_id slot cancellation (rs_occupied s) else Ok (rs_occupied s)) in
  Ok (mkStore (<[slot := set_record e cancellation record_empty]> (rs_entries s)) (rs_bytes s) occupied (rs_probes s)
        (bundle_reset (rs_admission s) (r_credits r)).2).

Definition erase (s : RetentionStore) (slot : nat) : Result RetentionStore :=
  let? s := drop_record s slot false in
  let? s := drop_record s slot true in
  let? e := deref (rs_entries s !! slot) in
  Ok (set_entries s (<[slot := mkEntry (wrap64 (e_generation e + 1)) (e_key e) (e_rec0 e) (e_rec1 e) 0 (mkMono 0)]> (rs_entries s))).

Definition association_retained (s : RetentionStore) (relationship : TransactionKey) : bool :=
  existsb (fun e => r_used (e_rec0 e) && same_association (e_key e) relationship) (rs_entries s).

(** Whether the retained canonical bytes are those of the packet. *)
Fixpoint compare_canonical (m : list memval) (offset : Z) (packet : PacketView) (b n : nat) : Result bool :=
  match n with
  | O => Ok true
  | S n =>
      let? v := deref (m !! Z.to_nat (offset + Z.of_nat b)) in
      let? x := as_byte v in
      let? c := canonical_command_byte packet b in
      if bool_decide (x = c) then compare_canonical m offset packet (S b) n else Ok false
  end.

(** The first used entry with the key. *)
Definition find_key (s : RetentionStore) (key : TransactionKey) : option nat :=
  first_index (fun e => r_used (e_rec0 e) && same_key (e_key e) key) (rs_entries s).

(** The checks on a retained record that a duplicate must match. *)
Definition duplicate_of (s : RetentionStore) (r : RetRecord) (packet : PacketView) : Result unit :=
  fail_if negb (r_canonical r =? zlen (ev_wire (pv_envelope packet))) with error1 ErrorCode.identity_conflict ;;
  let? same := compare_canonical (rs_bytes s) (r_offset r) packet 0 (Z.to_nat (r_canonical r)) in
  fail_if negb same with error1 ErrorCode.identity_conflict ;;
  Ok tt.

(** The derived key of the packet is the caller's. *)
Definition key_agrees (key : TransactionKey) (packet : PacketView) : bool :=
  match transaction_key packet (tk_binding_generation key) (tk_peer key) with
  | Ok derived => same_key key derived
  | _ => false
  end.

Definition admit_duplicate (s : RetentionStore) (slot : nat) (e : RetEntry) (cancellation : bool) : Result RetentionAdmission * RetentionStore :=
  (Ok (mkAdmitted (mkToken slot (e_generation e) cancellation)
         (if r_terminal (entry_record e cancellation) then DuplicateKind.replay else DuplicateKind.active)),
   set_entries s (<[slot := set_references e (wrap64 (e_references e + 1))]> (rs_entries s))).

Definition replay_existing (s : RetentionStore) (key : TransactionKey) (packet : PacketView) : Result RetentionAdmission * RetentionStore :=
  let env := ev_envelope (pv_envelope packet) in
  if ack env || (zlen (ev_wire (pv_envelope packet)) <? 4) then (Err (error1 ErrorCode.invalid_argument), s) else
  if negb (key_agrees key packet) then (Err (error1 ErrorCode.invalid_argument), s) else
  match find_key s key with
  | None => (Err (error1 ErrorCode.invalid_state), s)
  | Some i =>
      try e := deref (rs_entries s !! i) on s in
      let r := entry_record e (cancel env) in
      if negb (r_used r) then (Err (error1 ErrorCode.invalid_state), s) else
      try _ := duplicate_of s r packet on s in
      if e_references e =? SIZE_MAX then (Err (error1 ErrorCode.overflow), s) else
      admit_duplicate s i e (cancel env)
  end.

(** The first-fit traversal: the gap found, its position in [occupied] and the probes. *)
Fixpoint place (es : list RetEntry) (required : Z) (occupied : list Z) (offset : Z) (insertion : nat) (probes : Z)
    : Result (Z * nat * Z) :=
  match occupied with
  | [] => Ok (offset, insertion, probes)
  | id :: occupied =>
      let probes := wrap64 (probes + 1) in
      let? prior := indexed_record es id in
      if required <=? wrap64 (r_offset prior - offset) then Ok (offset, insertion, probes)
      else place es required occupied (wrap64 (r_offset prior + r_bytes prior)) (S insertion) probes
  end.

Fixpoint store_canonical (m : list memval) (offset : Z) (packet : PacketView) (b n : nat) : Result (list memval) :=
  match n with
  | O => Ok m
  | S n =>
      let? c := canonical_command_byte packet b in
      let? m := mem_write m (offset + Z.of_nat b) [m_byte c] in
      store_canonical m offset packet (S b) n
  end.

(** [for (i = count; i > insertion; --i) occupied[i] = occupied[i-1]; occupied[insertion] = id;] *)
Definition insert_id (ids : list Z) (insertion : nat) (id : Z) : Result (list Z) :=
  if (2 * Entries <=? length ids)%nat then UB else Ok (take insertion ids ++ id :: drop insertion ids).

Definition reserve_request (cancellation : bool) (required : Z) : AdmissionRequest :=
  need (need request_empty Resource.duplicate_entry (if cancellation then 0 else 1)) Resource.duplicate_bytes required.

(** The slot of a fresh record: the entry of the original, or the first free entry. *)
Definition free_slot (s : RetentionStore) : option nat :=
  first_index (fun e => negb (r_used (e_rec0 e)) && negb (e_generation e =? U64_MAX)) (rs_entries s).

(** The second half of [reserve]: capacity, placement, credits and the new record. *)
Definition reserve_fresh (s : RetentionStore) (key : TransactionKey) (packet : PacketView) (responses : Z) (existing : option nat)
    : Result RetentionAdmission * RetentionStore :=
  let cancellation := cancel (ev_envelope (pv_envelope packet)) in
  let exhausted := error1 ErrorCode.capacity_exhausted in
  if cancellation && is_none existing then (Err (error1 ErrorCode.invalid_state), s) else
  let canonical := zlen (ev_wire (pv_envelope packet)) in
  if (ByteCapacity <? canonical) || ((ByteCapacity - canonical) / Z.of_nat ack_size <? responses) then (Err exhausted, s) else
  let required := wrap64 (canonical + responses * Z.of_nat ack_size) in
  match (match existing with Some i => Some i | None => free_slot s end) with
  | None => (Err exhausted, s)
  | Some slot =>
      try (offset, insertion, probes) := place (rs_entries s) required (rs_occupied s) 0 0 0 on (set_probes s 0) in
      let s := set_probes s probes in
      if ByteCapacity - required <? offset then (Err exhausted, s) else
      let '(credits, admission) := admission_acquire (rs_admission s) (reserve_request cancellation required) in
      try credits := credits on s in
      try e := deref (rs_entries s !! slot) on s in
      let r := mkRecord true false false offset required canonical responses 0 (r_engine (entry_record e cancellation)) credits in
      let e' := set_record (mkEntry (e_generation e) key (e_rec0 e) (e_rec1 e) (wrap64 (e_references e + 1)) (e_expires e)) cancellation r in
      try ids := insert_id (rs_occupied s) insertion (record_id slot cancellation) on s in
      try bytes := store_canonical (rs_bytes s) offset packet 0 (Z.to_nat canonical) on s in
      (Ok (mkAdmitted (mkToken slot (e_generation e) cancellation) DuplicateKind.fresh),
       mkStore (<[slot := e']> (rs_entries s)) bytes ids (rs_probes s) (bundle_reset admission (r_credits (entry_record e cancellation))).2)
  end.

Definition reserve (s : RetentionStore) (key : TransactionKey) (packet : PacketView) (responses : Z)
    : Result RetentionAdmission * RetentionStore :=
  let env := ev_envelope (pv_envelope packet) in
  let cancellation := cancel env in
  if (tk_binding_generation key =? 0) || (peer_generation (tk_peer key) =? 0) || (zlen (ev_wire (pv_envelope packet)) <? 4) ||
     ((if cancellation then 2 else 3) <? responses) || ack env
  then (Err (error1 ErrorCode.invalid_argument), s) else
  if negb (key_agrees key packet) then (Err (error1 ErrorCode.invalid_argument), s) else
  match find_key s key with
  | None => reserve_fresh s key packet responses None
  | Some i =>
      try e := deref (rs_entries s !! i) on s in
      let r := entry_record e cancellation in
      if negb (r_used r) then reserve_fresh s key packet responses (Some i) else
      try _ := duplicate_of s r packet on s in
      admit_duplicate s i e cancellation
  end.

Definition stale : Error := error1 ErrorCode.stale_generation.

(** An operation on the record of a live token. *)
Definition with_token {A} (s : RetentionStore) (t : RetentionToken) (k : RetEntry -> RetRecord -> Result A * RetentionStore)
    : Result A * RetentionStore :=
  match entry s t with
  | None => (Err stale, s)
  | Some e => k e (entry_record e (tok_cancellation t))
  end.

Definition put_record (s : RetentionStore) (t : RetentionToken) (e : RetEntry) (r : RetRecord) : RetentionStore :=
  set_entries s (<[tok_slot t := set_record e (tok_cancellation t) r]> (rs_entries s)).

Definition bind (s : RetentionStore) (t : RetentionToken) (handle : option Handle) : Result unit * RetentionStore :=
  with_token s t (fun e r =>
    if r_active r || r_terminal r then (Err (error1 ErrorCode.invalid_state), s) else
    (Ok tt, put_record s t e (mkRecord (r_used r) true (r_terminal r) (r_offset r) (r_bytes r) (r_canonical r)
                                (r_response_capacity r) (r_response_count r) handle (r_credits r)))).

Definition engine_handle (s : RetentionStore) (t : RetentionToken) : Result (option Handle) :=
  (with_token s t (fun _ r => (Ok (r_engine r), s))).1.

Definition fragments (a : AckRecord) : list memval := m_frag a <$> seq 0 ack_size.
(** The object whose representation the fragments are. *)
Definition load_ack (vals : list memval) : Result AckRecord :=
  match vals with
  | m_frag a _ :: _ => if bool_decide (vals = fragments a) then Ok a else UB
  | _ => UB
  end.

Definition response_offset (r : RetRecord) (index : Z) : Z := wrap64 (r_offset r + r_canonical r + index * Z.of_nat ack_size).

Definition append (s : RetentionStore) (t : RetentionToken) (a : AckRecord) : Result unit * RetentionStore :=
  with_token s t (fun e r =>
    if negb (r_active r) || r_terminal r || negb (Bool.eqb (ak_cancellation a) (tok_cancellation t))
    then (Err (error1 ErrorCode.invalid_state), s) else
    if r_response_count r =? r_response_capacity r then (Err (error1 ErrorCode.capacity_exhausted), s) else
    try bytes := mem_write (rs_bytes s) (response_offset r (r_response_count r)) (fragments a) on s in
    let r := mkRecord (r_used r) (r_active r) (r_terminal r) (r_offset r) (r_bytes r) (r_canonical r)
               (r_response_capacity r) (wrap64 (r_response_count r + 1)) (r_engine r) (r_credits r) in
    let s := put_record s t e r in
    (Ok tt, mkStore (rs_entries s) bytes (rs_occupied s) (rs_probes s) (rs_admission s))).

Definition response (s : RetentionStore) (t : RetentionToken) (index : Z) : Result (option AckRecord) :=
  (with_token s t (fun _ r =>
    if r_response_count r <=? index then (Ok None, s) else
    (let? vals := mem_read (rs_bytes s) (response_offset r index) (Z.of_nat ack_size) in
     let? a := load_ack vals in Ok (Some a), s))).1.

Definition complete (s : RetentionStore) (t : RetentionToken) (now : MonoTime) : Result unit * RetentionStore :=
  with_token s t (fun e r =>
    if negb (r_active r) || r_terminal r then (Err (error1 ErrorCode.invalid_state), s) else
    let expires := match deadline now minimum_retention_ns with
                   | Ok limit => if ns (e_expires e) <? ns limit then limit else e_expires e
                   | _ => mkMono U64_MAX
                   end in
    let e := mkEntry (e_generation e) (e_key e) (e_rec0 e) (e_rec1 e) (e_references e) expires in
    (Ok tt, put_record s t e (mkRecord (r_used r) false true (r_offset r) (r_bytes r) (r_canonical r)
                                (r_response_capacity r) (r_response_count r) None (r_credits r)))).

Definition canonical (s : RetentionStore) (t : RetentionToken) : Result (list memval) :=
  (with_token s t (fun _ r => (mem_read (rs_bytes s) (r_offset r) (r_canonical r), s))).1.

Definition terminal (s : RetentionStore) (t : RetentionToken) : Result bool :=
  (with_token s t (fun _ r => (Ok (r_terminal r), s))).1.

Definition retain (s : RetentionStore) (t : RetentionToken) : Result unit * RetentionStore :=
  with_token s t (fun e _ => (Ok tt, set_entries s (<[tok_slot t := set_references e (wrap64 (e_references e + 1))]> (rs_entries s)))).

Definition release (s : RetentionStore) (t : RetentionToken) : Result unit * RetentionStore :=
  with_token s t (fun e _ =>
    if e_references e =? 0 then (Err stale, s) else
    let n := wrap64 (e_references e - 1) in
    let s' := set_entries s (<[tok_slot t := set_references e n]> (rs_entries s)) in
    if (n =? 0) && negb (r_active (e_rec0 e)) && negb (r_terminal (e_rec0 e))
    then match erase s' (tok_slot t) with Ok s'' => (Ok tt, s'') | Err x => (Err x, s') | UB => (UB, s') end
    else (Ok tt, s')).

Definition rollback (s : RetentionStore) (t : RetentionToken) : Result unit * RetentionStore :=
  with_token s t (fun e r =>
    if e_references e =? 0 then (Err stale, s) else
    if r_active r || r_terminal r then (Err (error1 ErrorCode.invalid_state), s) else
    try s1 := drop_record s (tok_slot t) (tok_cancellation t) on s in
    try e1 := deref (rs_entries s1 !! tok_slot t) on s1 in
    let s2 := set_entries s1 (<[tok_slot t := set_references e1 (wrap64 (e_references e1 - 1))]> (rs_entries s1)) in
    if negb (tok_cancellation t)
    then match erase s2 (tok_slot t) with Ok s3 => (Ok tt, s3) | Err x => (Err x, s2) | UB => (UB, s2) end
    else (Ok tt, s2)).

Definition expired (e : RetEntry) (now : MonoTime) : bool :=
  r_used (e_rec0 e) && r_terminal (e_rec0 e) && (negb (r_used (e_rec1 e)) || r_terminal (e_rec1 e)) &&
  (e_references e =? 0) && (ns (e_expires e) <=? ns now).

(** The loop over the entries, from [i]. *)
Fixpoint expire_loop (s : RetentionStore) (now : MonoTime) (i n : nat) : Result RetentionStore :=
  match n with
  | O => Ok s
  | S n =>
      let? e := deref (rs_entries s !! i) in
      let? s := (if expired e now then erase s i else Ok s) in
      expire_loop s now (S i) n
  end.
Definition expire (s : RetentionStore) (now : MonoTime) : Result RetentionStore := expire_loop s now 0 Entries.

Definition size (s : RetentionStore) : nat := count_if (fun e => r_used (e_rec0 e)) (rs_entries s).
End store.
