(* ===== verification/RetentionProofs.v ===== *)
(** * Correctness of the retention store

    The invariant of [Retention] ([retention_wf]) ties the byte array to the abstract
    contents of the live records: a canonical command and the responses appended to it. *)

From S2P Require Import Engine Prelude Wire WireProofs Fields Time Clock Admission Structured Packet Routing State Cam Observer Retention.

(** ** Memory *)

#[global] Instance m_byte_inj : Inj (=) (=) m_byte.
Proof. by intros a b [= ->]. Qed.

(** The values [vals] lie at [offset]. *)
Definition holds (m : list memval) (offset : Z) (vals : list memval) : Prop :=
  forall k v, vals !! k = Some v -> m !! (Z.to_nat offset + k)%nat = Some v.

Lemma mem_write_ok m offset vals :
  0 <= offset -> offset + zlen vals <= zlen m ->
  exists m', mem_write m offset vals = Ok m' /\ length m' = length m /\ holds m' offset vals /\
    (forall i, (i < Z.to_nat offset \/ Z.to_nat offset + length vals <= i)%nat -> m' !! i = m !! i).
Proof.
  intros Ho Hl. unfold mem_write, zlen in *.
  rewrite (proj2 (Z.leb_le _ _) Ho), (proj2 (Z.leb_le _ _) Hl). cbn [andb]. eexists. split; [done|].
  assert (Ht : length (take (Z.to_nat offset) m) = Z.to_nat offset) by (rewrite length_take; lia).
  split; [|split].
  - rewrite !length_app, Ht, length_drop. lia.
  - intros k v Hv. pose proof (lookup_lt_Some _ _ _ Hv). rewrite lookup_app_r by lia. rewrite Ht, lookup_app_l by lia.
    by replace (Z.to_nat offset + k - Z.to_nat offset)%nat with k by lia.
  - intros i [Hi|Hi].
    + rewrite lookup_app_l by lia. by rewrite lookup_take_lt by lia.
    + rewrite lookup_app_r by lia. rewrite lookup_app_r by lia. rewrite lookup_drop. f_equal. lia.
Qed.

(** Disjoint writes keep what is held. *)
Lemma holds_frame m m' o vals lo len :
  holds m o vals -> (forall i, (i < Z.to_nat lo \/ Z.to_nat lo + len <= i)%nat -> m' !! i = m !! i) ->
  0 <= o -> 0 <= lo -> o + zlen vals <= lo \/ lo + Z.of_nat len <= o -> holds m' o vals.
Proof.
  intros H Hf Ho Hlo Hd k v Hv. rewrite Hf; [by apply H|]. apply lookup_lt_Some in Hv. unfold zlen in Hd. lia.
Qed.

Lemma held_app m o a b : 0 <= o -> holds m o (a ++ b) <-> holds m o a /\ holds m (o + zlen a) b.
Proof.
  intros Ho. unfold holds, zlen. split.
  - intros H. split; intros k v Hv.
    + apply H. rewrite lookup_app_l; [done|]. by eapply lookup_lt_Some.
    + replace (Z.to_nat (o + Z.of_nat (length a)) + k)%nat with (Z.to_nat o + (length a + k))%nat by lia.
      apply H. rewrite lookup_app_r by lia. by replace (length a + k - length a)%nat with k by lia.
  - intros [Ha Hb] k v Hv. destruct (decide (k < length a)%nat).
    + rewrite lookup_app_l in Hv by done. by apply Ha.
    + rewrite lookup_app_r in Hv by lia. specialize (Hb _ _ Hv). rewrite <- Hb. f_equal. lia.
Qed.

Lemma holds_nil m o : holds m o [].
Proof. by intros k v Hv. Qed.

Lemma holds_read m o n vals :
  0 <= o -> holds m o vals -> zlen vals = n -> mem_read m o n = if o + n <=? zlen m then Ok vals else UB.
Proof.
  intros Ho H Hn. unfold mem_read, zlen in *. rewrite (proj2 (Z.leb_le 0 o) Ho), (proj2 (Z.leb_le 0 n)) by lia. cbn [andb].
  destruct (Z.leb_spec (o + n) (Z.of_nat (length m))); [|done]. f_equal. apply list_eq. intros k.
  destruct (decide (k < length vals)%nat) as [Hk|Hk].
  - rewrite lookup_take_lt by lia. rewrite lookup_drop. destruct (lookup_lt_is_Some_2 _ _ Hk) as [v Hv]. rewrite Hv. by apply H.
  - rewrite lookup_take_ge by lia. symmetry. apply lookup_ge_None_2. lia.
Qed.

(** ** Records and their identifiers *)

Definition rec_at (es : list RetEntry) (slot : nat) (c : bool) : option RetRecord := (fun e => entry_record e c) <$> es !! slot.

Lemma rec_at_Some es slot c r : rec_at es slot c = Some r <-> exists e, es !! slot = Some e /\ entry_record e c = r.
Proof. unfold rec_at. rewrite fmap_Some. naive_solver. Qed.

Lemma entry_record_set e c r c' : entry_record (set_record e c r) c' = if Bool.eqb c c' then r else entry_record e c'.
Proof. by destruct c, c'. Qed.

Section proofs.
Context (Entries : nat) (ByteCapacity : Z) (ack_size : nat).
Context (Hentries : Z.of_nat Entries <= 2147483647) (Hcapacity : 0 < ByteCapacity <= SIZE_MAX) (Hack : (0 < ack_size)%nat).

Lemma record_id_eq slot c : (slot < Entries)%nat -> record_id slot c = Z.of_nat slot * 2 + b2z c.
Proof. intros. unfold record_id, wrap32. apply Z.mod_small. pose proof (b2z_range c). lia. Qed.

Lemma id_slot_record slot c : (slot < Entries)%nat -> id_slot (record_id slot c) = slot.
Proof.
  intros. unfold id_slot. rewrite record_id_eq by done. pose proof (b2z_range c).
  rewrite <- (Z.div_unique (Z.of_nat slot * 2 + b2z c) 2 (Z.of_nat slot) (b2z c)) by lia. lia.
Qed.

Lemma id_cancellation_record slot c : (slot < Entries)%nat -> id_cancellation (record_id slot c) = c.
Proof.
  intros. unfold id_cancellation. rewrite record_id_eq by done. pose proof (b2z_range c).
  rewrite <- (Z.mod_unique (Z.of_nat slot * 2 + b2z c) 2 (Z.of_nat slot) (b2z c)) by lia. by destruct c.
Qed.

Lemma record_id_inj slot c slot' c' : (slot < Entries)%nat -> (slot' < Entries)%nat ->
  record_id slot c = record_id slot' c' -> slot = slot' /\ c = c'.
Proof.
  intros Hs Hs' E. pose proof (f_equal id_slot E) as E1. pose proof (f_equal id_cancellation E) as E2.
  rewrite !id_slot_record in E1 by done. rewrite !id_cancellation_record in E2 by done. done.
Qed.

Lemma indexed_record_at es slot c : length es = Entries -> (slot < Entries)%nat -> indexed_record es (record_id slot c) = deref (rec_at es slot c).
Proof.
  intros Hl Hs. unfold indexed_record, rec_at. rewrite id_slot_record, id_cancellation_record by done.
  destruct (lookup_lt_is_Some_2 es slot) as [e ->]; [lia|]. done.
Qed.

(** ** The layout of extents *)

(** The records [ids] in order, disjoint, from [lo] to the end of the array. *)
Fixpoint layout (es : list RetEntry) (lo : Z) (ids : list Z) : Prop :=
  match ids with
  | [] => lo <= ByteCapacity
  | id :: ids => exists slot c r, id = record_id slot c /\ (slot < Entries)%nat /\ rec_at es slot c = Some r /\ r_used r = true /\
      lo <= r_offset r /\ 0 < r_bytes r /\ layout es (r_offset r + r_bytes r) ids
  end.

Lemma layout_mono es ids : forall lo lo', lo' <= lo -> layout es lo ids -> layout es lo' ids.
Proof. destruct ids; intros lo lo' Hle; cbn; [lia|]. intros (slot & c & r & ? & ? & ? & ? & ? & ? & ?). exists slot, c, r. split_and!; (done || lia). Qed.

Lemma layout_end es ids : forall lo, layout es lo ids -> lo <= ByteCapacity.
Proof. induction ids as [|id ids IH]; intros lo; cbn; [done|]. intros (slot & c & r & ? & ? & ? & ? & ? & ? & H%IH). lia. Qed.

(** The layout depends on the offsets and sizes of the records it lists only. *)
Definition extent (r : RetRecord) : bool * Z * Z := (r_used r, r_offset r, r_bytes r).
Lemma layout_ext es es' ids : forall lo,
  (forall slot c r, record_id slot c ∈ ids -> rec_at es slot c = Some r -> exists r', rec_at es' slot c = Some r' /\ extent r' = extent r) ->
  layout es lo ids -> layout es' lo ids.
Proof.
  induction ids as [|id ids IH]; intros lo Hext; cbn; [done|]. intros (slot & c & r & -> & Hs & Hr & Hu & Ho & Hb & Hl).
  destruct (Hext slot c r) as (r' & Hr' & E); [by left|done|]. injection E as Eu Eo Eb.
  exists slot, c, r'. rewrite Eu, Eo, Eb. split_and!; try done. apply IH; [|done]. intros. apply Hext; [by right|done].
Qed.

Lemma layout_member es ids slot c : forall lo,
  layout es lo ids -> record_id slot c ∈ ids -> (slot < Entries)%nat ->
  exists r, rec_at es slot c = Some r /\ r_used r = true /\ lo <= r_offset r /\ 0 < r_bytes r /\ r_offset r + r_bytes r <= ByteCapacity.
Proof.
  induction ids as [|id ids IH]; intros lo; cbn; [by intros _ []%elem_of_nil|].
  intros (slot' & c' & r & -> & Hs' & Hr & Hu & Ho & Hb & Hl) Hin Hs. apply elem_of_cons in Hin as [E|Hin].
  - apply record_id_inj in E as [-> ->]; try done. exists r. apply layout_end in Hl. split_and!; (done || lia).
  - destruct (IH _ Hl Hin Hs) as (r' & ? & ? & ? & ? & ?). exists r'. split_and!; (done || lia).
Qed.

(** Two different records do not overlap. *)
Lemma layout_disjoint es ids slot c slot' c' : forall lo r r',
  layout es lo ids -> record_id slot c ∈ ids -> record_id slot' c' ∈ ids -> (slot < Entries)%nat -> (slot' < Entries)%nat ->
  (slot, c) <> (slot', c') -> rec_at es slot c = Some r -> rec_at es slot' c' = Some r' ->
  r_offset r + r_bytes r <= r_offset r' \/ r_offset r' + r_bytes r' <= r_offset r.
Proof.
  induction ids as [|id ids IH]; intros lo r r'; cbn; [by intros _ []%elem_of_nil|].
  intros (s0 & c0 & r0 & -> & Hs0 & Hr0 & Hu & Ho & Hb & Hl) Hin Hin' Hs Hs' Hne Hr Hr'.
  apply elem_of_cons in Hin as [E|Hin], Hin' as [E'|Hin'].
  - apply record_id_inj in E as [-> ->], E' as [-> ->]; done.
  - apply record_id_inj in E as [-> ->]; [|done..]. destruct (layout_member _ _ _ _ _ Hl Hin' Hs') as (r1 & Hr1 & _ & ? & _). simplify_eq. lia.
  - apply record_id_inj in E' as [-> ->]; [|done..]. destruct (layout_member _ _ _ _ _ Hl Hin Hs) as (r1 & Hr1 & _ & ? & _). simplify_eq. lia.
  - by eapply IH.
Qed.

(** Removing a record leaves the others where they are. *)
Lemma remove_id_spec es slot c ids : forall lo,
  layout es lo ids -> record_id slot c ∈ ids -> (slot < Entries)%nat -> NoDup ids ->
  exists ids', remove_id Entries slot c ids = Ok ids' /\ layout es lo ids' /\ NoDup ids' /\
    (forall id, id ∈ ids' <-> id ∈ ids /\ id <> record_id slot c).
Proof.
  induction ids as [|id ids IH]; intros lo; cbn [layout remove_id]; [by intros _ []%elem_of_nil|].
  intros (s0 & c0 & r0 & -> & Hs0 & Hr0 & Hu & Ho & Hb & Hl) Hin Hs Hnd. rewrite id_slot_record, id_cancellation_record by done.
  destruct (Nat.leb_spec Entries s0); [lia|]. apply list.NoDup_cons in Hnd as [Hn Hnd].
  destruct (Nat.eqb_spec s0 slot) as [->|Hne]; [destruct (Bool.eqb c0 c) eqn:Ec|]; cbn [andb].
  - apply Bool.eqb_prop in Ec as ->. exists ids. split; [done|]. split; [eapply layout_mono; [|done]; lia|]. split; [done|].
    intros id. rewrite elem_of_cons. split; [intros Hid; split; [by right|congruence]|intros [[->|?] ?]; done].
  - apply Bool.eqb_false_iff in Ec. apply elem_of_cons in Hin as [E|Hin]; [by apply record_id_inj in E as [_ ->]|].
    destruct (IH _ Hl Hin Hs Hnd) as (ids' & -> & Hl' & Hnd' & Hel). cbn [rbind]. eexists. split; [done|]. split; [by exists slot, c0, r0|].
    split; [apply list.NoDup_cons; split; [by rewrite Hel; intros [? _]|done]|]. intros id. rewrite !elem_of_cons, Hel.
    split; [intros [->|[? ?]]; [|tauto]|tauto]. split; [by left|]. intros [_ ->]%record_id_inj; done.
  - apply elem_of_cons in Hin as [E|Hin]; [by apply record_id_inj in E as [-> _]|].
    destruct (IH _ Hl Hin Hs Hnd) as (ids' & -> & Hl' & Hnd' & Hel). cbn [rbind]. eexists. split; [done|]. split; [by exists s0, c0, r0|].
    split; [apply list.NoDup_cons; split; [by rewrite Hel; intros [? _]|done]|]. intros id. rewrite !elem_of_cons, Hel.
    split; [intros [->|[? ?]]; [|tauto]|tauto]. split; [by left|]. intros [-> _]%record_id_inj; done.
Qed.

(** The records keep their extents. *)
Definition same_extents (es es' : list RetEntry) (ids : list Z) : Prop :=
  forall slot c r, record_id slot c ∈ ids -> rec_at es slot c = Some r -> exists r', rec_at es' slot c = Some r' /\ extent r' = extent r.

(** An interval that no record of [ids] touches. *)
Definition gap (es : list RetEntry) (ids : list Z) (o required : Z) : Prop :=
  forall slot c r, record_id slot c ∈ ids -> rec_at es slot c = Some r -> o + required <= r_offset r \/ r_offset r + r_bytes r <= o.

Lemma rec_at_lt es slot c r : rec_at es slot c = Some r -> (slot < length es)%nat.
Proof. intros (e & He & _)%rec_at_Some. by eapply lookup_lt_Some. Qed.

(** No record of a layout lies before its first one. *)
Lemma gap_after es lo s0 c0 r0 ids bound slot c r :
  layout es lo (record_id s0 c0 :: ids) -> rec_at es s0 c0 = Some r0 -> bound <= r_offset r0 -> length es = Entries ->
  record_id slot c ∈ record_id s0 c0 :: ids -> rec_at es slot c = Some r -> bound <= r_offset r.
Proof.
  cbn [layout]. intros (s1 & c1 & r1 & E & Hs1 & Hr1 & Hu & Ho & Hb & Hl) Hr0 Hle Hlen Hin Hr.
  assert (Hs0 : (s0 < Entries)%nat) by (rewrite <- Hlen; by eapply rec_at_lt). assert (Hs : (slot < Entries)%nat) by (rewrite <- Hlen; by eapply rec_at_lt).
  apply record_id_inj in E as [-> ->]; [|done..]. simplify_eq. apply elem_of_cons in Hin as [E|Hin].
  - apply record_id_inj in E as [-> ->]; [|done..]. simplify_eq. done.
  - destruct (layout_member _ _ _ _ _ Hl Hin Hs) as (r' & Hr' & _ & ? & _). simplify_eq. lia.
Qed.

(** First fit: the traversal stops at the lowest gap, and a record of the required size can
    be listed there. *)
Lemma place_spec es required ids : 0 < required -> length es = Entries -> forall lo ins probes,
  0 <= lo -> layout es lo ids ->
  exists off pre post p, place es required ids lo ins probes = Ok (off, (ins + length pre)%nat, p) /\ ids = pre ++ post /\
    lo <= off <= ByteCapacity /\
    (forall es' slot c r, (slot < Entries)%nat -> same_extents es es' ids -> rec_at es' slot c = Some r ->
       extent r = (true, off, required) -> off + required <= ByteCapacity -> layout es' lo (pre ++ record_id slot c :: post)) /\
    (forall o, lo <= o -> gap es ids o required -> off <= o) /\ gap es ids off required.
Proof.
  intros Hreq Hlen. induction ids as [|id ids IH]; intros lo ins probes Hlo Hl.
  - exists lo, [], [], probes. cbn in Hl. cbn [place app length]. split_and!; try done; [by rewrite Nat.add_0_r| |by intros slot c r []%elem_of_nil].
    intros es' slot c r Hs _ Hr [= Hu Ho Hb] Hfit. exists slot, c, r. cbn [layout]. rewrite Ho, Hb. split_and!; (done || lia).
  - pose proof Hl as Hl0. cbn [layout] in Hl. destruct Hl as (s0 & c0 & r0 & -> & Hs0 & Hr0 & Hu & Ho & Hb & Hl).
    pose proof (layout_end _ _ _ Hl) as Hend. cbn [place]. rewrite indexed_record_at, Hr0 by done. cbn [deref rbind].
    assert (Ew : wrap64 (r_offset r0 - lo) = r_offset r0 - lo) by (apply Z.mod_small; unfold_words; lia).
    assert (Ew' : wrap64 (r_offset r0 + r_bytes r0) = r_offset r0 + r_bytes r0) by (apply Z.mod_small; unfold_words; lia).
    rewrite Ew, Ew'. destruct (Z.leb_spec required (r_offset r0 - lo)) as [Hfit|Hno].
    + exists lo, [], (record_id s0 c0 :: ids). eexists. split; [by rewrite Nat.add_0_r|]. split; [done|]. split; [lia|].
      split; [|split; [done|intros s1 c1 r1 H1 Hr1; left; eapply gap_after; [exact Hl0|exact Hr0|lia|done|exact H1|exact Hr1]]].
      intros es' slot c r Hs Hext Hr [= Hu' Ho' Hb'] _. cbn [app layout]. exists slot, c, r. rewrite Ho', Hb'. split_and!; try (done || lia).
      destruct (Hext s0 c0 r0) as (r0' & Hr0' & [= Eu Eo Eb]); [by left|done|].
      exists s0, c0, r0'. rewrite Eu, Eo, Eb. split_and!; try (done || lia).
      apply (layout_ext es); [|done]. intros. apply Hext; [by right|done].
    + destruct (IH (r_offset r0 + r_bytes r0) (S ins) (wrap64 (probes + 1))) as (off & pre & post & p & -> & -> & Hb1 & Hin & Hmin & Hgp); [lia|done|].
      exists off, (record_id s0 c0 :: pre), post, p. split; [do 3 f_equal; cbn [length]; lia|]. split; [done|]. split; [lia|]. split; [|split].
      * intros es' slot c r Hs Hext Hr He Hfit. cbn [app layout]. destruct (Hext s0 c0 r0) as (r0' & Hr0' & [= Eu Eo Eb]); [by left|done|].
        exists s0, c0, r0'. rewrite Eu, Eo, Eb. split_and!; try (done || lia). apply (Hin es' slot c r); try done.
        intros s1 c1 r1 H1. apply Hext. by right.
      * intros o Hlo' Hgap. apply Hmin; [|intros s1 c1 r1 H1; apply Hgap; by right].
        destruct (Hgap s0 c0 r0) as [?|?]; [by left|done|lia|lia].
      * intros s1 c1 r1 H1 Hr1. apply elem_of_cons in H1 as [E1|H1]; [|by apply (Hgp s1 c1 r1)].
        assert ((s1 < Entries)%nat) by (rewrite <- Hlen; by eapply rec_at_lt). apply record_id_inj in E1 as [-> ->]; [|done..]. simplify_eq. right. lia.
Qed.

(** ** Contents *)

Definition contents : Type := (list byte * list AckRecord)%type.

Definition responses_of (acks : list AckRecord) : list memval := mjoin (fragments ack_size <$> acks).

(** The record [r] holds the canonical bytes and the responses, and has room for more. *)
Record record_wf (m : list memval) (r : RetRecord) (x : contents) : Prop := mk_record_wf {
  rw_canonical : r_canonical r = zlen x.1;
  rw_count : r_response_count r = zlen x.2;
  rw_capacity : r_response_count r <= r_response_capacity r;
  rw_bytes : r_bytes r = r_canonical r + r_response_capacity r * Z.of_nat ack_size;
  rw_positive : 0 < r_canonical r;
  rw_offset : 0 <= r_offset r;
  rw_canonical_held : holds m (r_offset r) (m_byte <$> x.1);
  rw_responses_held : holds m (r_offset r + r_canonical r) (responses_of x.2)
}.

(** The abstract store: what each record holds. *)
Definition ghost : Type := nat -> bool -> contents.
Definition ghost_set (g : ghost) (slot : nat) (c : bool) (x : contents) : ghost :=
  fun s d => if (s =? slot)%nat && Bool.eqb d c then x else g s d.

Lemma ghost_set_eq g slot c x : ghost_set g slot c x slot c = x.
Proof. unfold ghost_set. by rewrite Nat.eqb_refl, Bool.eqb_reflx. Qed.
Lemma ghost_set_ne g slot c x s d : (s, d) <> (slot, c) -> ghost_set g slot c x s d = g s d.
Proof.
  unfold ghost_set. intros Hne. destruct (Nat.eqb_spec s slot) as [->|]; [|done]. destruct (Bool.eqb d c) eqn:E; [|done].
  apply Bool.eqb_prop in E as ->. done.
Qed.

(** The part of the invariant that concerns extents and memory. *)
Record memory_wf (s : RetentionStore) (g : ghost) : Prop := mk_memory_wf {
  mw_entries : length (rs_entries s) = Entries;
  mw_bytes : zlen (rs_bytes s) = ByteCapacity;
  mw_layout : layout (rs_entries s) 0 (rs_occupied s);
  mw_nodup : NoDup (rs_occupied s);
  mw_listed : forall slot c r, rec_at (rs_entries s) slot c = Some r -> r_used r = true <-> record_id slot c ∈ rs_occupied s;
  mw_records : forall slot c r, rec_at (rs_entries s) slot c = Some r -> r_used r = true -> record_wf (rs_bytes s) r (g slot c)
}.

(** The part that concerns keys and generations. *)
Record entries_wf (es : list RetEntry) : Prop := mk_entries_wf {
  ew_original : forall slot e, es !! slot = Some e -> r_used (e_rec1 e) = true -> r_used (e_rec0 e) = true;
  ew_generation : forall slot e, es !! slot = Some e -> 1 <= e_generation e <= U64_MAX /\ (r_used (e_rec0 e) = true -> e_generation e < U64_MAX);
  ew_unique : forall i j e e', es !! i = Some e -> es !! j = Some e' -> r_used (e_rec0 e) = true -> r_used (e_rec0 e') = true ->
    same_key (e_key e) (e_key e') = true -> i = j
}.

Definition retention_wf (s : RetentionStore) (g : ghost) : Prop := memory_wf s g /\ entries_wf (rs_entries s).

Lemma used_extent s g slot c r : memory_wf s g -> rec_at (rs_entries s) slot c = Some r -> r_used r = true ->
  (slot < Entries)%nat /\ 0 <= r_offset r /\ r_offset r + r_bytes r <= ByteCapacity.
Proof.
  intros [He Hb Hl Hn Hli Hr] Hrec Hu. assert (Hs : (slot < Entries)%nat) by (rewrite <- He; by eapply rec_at_lt).
  split; [done|]. apply (Hli _ _ _ Hrec) in Hu. destruct (layout_member _ _ _ _ _ Hl Hu Hs) as (r' & Hr' & _ & ? & ? & ?). simplify_eq. lia.
Qed.

(** Updates that keep every record's extent, sizes and use. *)
Definition shape (r : RetRecord) := (r_used r, r_offset r, r_bytes r, r_canonical r, r_response_capacity r, r_response_count r).

Lemma record_wf_shape m r r' x : shape r' = shape r -> record_wf m r x -> record_wf m r' x.
Proof. intros [= _ E1 E2 E3 E4 E5] [H1 H2 H3 H4 H5 H6 H7 H8]. split; rewrite ?E1, ?E2, ?E3, ?E4, ?E5; done. Qed.

Lemma memory_wf_shape s g es :
  memory_wf s g -> length es = Entries ->
  (forall slot c r, rec_at es slot c = Some r -> exists r0, rec_at (rs_entries s) slot c = Some r0 /\ shape r = shape r0) ->
  memory_wf (set_entries s es) g.
Proof.
  intros [He Hb Hl Hn Hli Hr] Hlen Hsh. split; cbn [set_entries rs_entries rs_bytes rs_occupied]; try done.
  - apply (layout_ext (rs_entries s)); [|done]. intros slot c r _ Hrec. pose proof (rec_at_lt _ _ _ _ Hrec) as Hlt.
    destruct (lookup_lt_is_Some_2 es slot) as [e Hes]; [lia|]. assert (Hrec' : rec_at es slot c = Some (entry_record e c)) by (apply rec_at_Some; eauto).
    destruct (Hsh _ _ _ Hrec') as (r0 & Hr0 & E). simplify_eq. exists (entry_record e c). split; [done|]. unfold extent. unfold shape in E. congruence.
  - intros slot c r Hrec. destruct (Hsh _ _ _ Hrec) as (r0 & Hr0 & E). rewrite <- (Hli _ _ _ Hr0). unfold shape in E. injection E as -> _ _ _ _ _. done.
  - intros slot c r Hrec Hu. destruct (Hsh _ _ _ Hrec) as (r0 & Hr0 & E). apply (record_wf_shape _ _ _ _ E). apply Hr; [done|]. unfold shape in E. congruence.
Qed.
(** ** Updating one entry *)

Lemma rec_at_insert es slot e slot' c : (slot < length es)%nat ->
  rec_at (<[slot := e]> es) slot' c = if decide (slot = slot') then Some (entry_record e c) else rec_at es slot' c.
Proof.
  intros Hlt. unfold rec_at. case_decide as E; [subst; by rewrite list_lookup_insert_eq|by rewrite list_lookup_insert_ne].
Qed.

Lemma entries_wf_insert es slot e e' :
  entries_wf es -> es !! slot = Some e ->
  (r_used (e_rec1 e') = true -> r_used (e_rec0 e') = true) ->
  1 <= e_generation e' <= U64_MAX /\ (r_used (e_rec0 e') = true -> e_generation e' < U64_MAX) ->
  (r_used (e_rec0 e') = true -> forall j f, j <> slot -> es !! j = Some f -> r_used (e_rec0 f) = true ->
     same_key (e_key e') (e_key f) = false /\ same_key (e_key f) (e_key e') = false) ->
  entries_wf (<[slot := e']> es).
Proof.
  intros [Ho Hg Hu] He Ho' Hg' Hk.
  assert (Hcases : forall i f, <[slot := e']> es !! i = Some f -> (i = slot /\ f = e') \/ (i <> slot /\ es !! i = Some f)).
  { intros i f Hi. apply list_lookup_insert_Some in Hi as [(-> & -> & _)|[? ?]]; [by left|right; split; [congruence|done]]. }
  split.
  - intros i f [[-> ->]|[_ Hi]]%Hcases; eauto.
  - intros i f [[-> ->]|[_ Hi]]%Hcases; eauto.
  - intros i j f f' [[-> ->]|[Hni Hi]]%Hcases [[-> ->]|[Hnj Hj]]%Hcases U U' Hs; [done| | |by eapply Hu].
    + destruct (Hk U j f' Hnj Hj U') as [E _]. congruence.
    + destruct (Hk U' i f Hni Hi U) as [_ E]. congruence.
Qed.

(** An entry that keeps its key, or is no longer used, conflicts with no other. *)
Lemma entries_wf_update es slot e e' :
  entries_wf es -> es !! slot = Some e ->
  (r_used (e_rec1 e') = true -> r_used (e_rec0 e') = true) ->
  1 <= e_generation e' <= U64_MAX /\ (r_used (e_rec0 e') = true -> e_generation e' < U64_MAX) ->
  (r_used (e_rec0 e') = true -> r_used (e_rec0 e) = true /\ e_key e' = e_key e) ->
  entries_wf (<[slot := e']> es).
Proof.
  intros Hwf He Ho Hg Hk. apply (entries_wf_insert es slot e); try done. intros U j f Hne Hf Uf. destruct (Hk U) as [Ue ->].
  destruct Hwf as [_ _ Hu]. split; apply not_true_iff_false; intros E; apply Hne; [symmetry|]; by eapply Hu.
Qed.

(** ** Dropping records *)

Lemma drop_record_spec s g slot c e :
  memory_wf s g -> rs_entries s !! slot = Some e ->
  exists s', drop_record Entries s slot c = Ok s' /\ memory_wf s' g /\
    rs_entries s' = <[slot := set_record e c record_empty]> (rs_entries s).
Proof.
  intros [He Hb Hl Hn Hli Hr] Hs. unfold drop_record. rewrite Hs. cbn [deref rbind].
  assert (Hlt : (slot < Entries)%nat) by (rewrite <- He; by eapply lookup_lt_Some).
  assert (Hrec : rec_at (rs_entries s) slot c = Some (entry_record e c)) by (apply rec_at_Some; eauto).
  assert (Hids : exists ids', (if r_used (entry_record e c) then remove_id Entries slot c (rs_occupied s) else Ok (rs_occupied s)) = Ok ids' /\
    layout (rs_entries s) 0 ids' /\ NoDup ids' /\ (forall id, id ∈ ids' <-> id ∈ rs_occupied s /\ id <> record_id slot c)).
  { destruct (r_used (entry_record e c)) eqn:Eu.
    - apply (remove_id_spec (rs_entries s)); try done. by apply (Hli _ _ _ Hrec).
    - exists (rs_occupied s). split_and!; try done. intros id. split; [|tauto]. intros Hid. split; [done|]. intros ->.
      apply (Hli _ _ _ Hrec) in Hid. congruence. }
  destruct Hids as (ids' & -> & Hl' & Hn' & Hel). cbn [rbind]. eexists. split; [done|]. split; [|done].
  assert (Hrec' : forall slot' c', rec_at (<[slot := set_record e c record_empty]> (rs_entries s)) slot' c' =
    if decide ((slot', c') = (slot, c)) then Some record_empty else rec_at (rs_entries s) slot' c').
  { intros slot' c'. rewrite rec_at_insert by lia. rewrite entry_record_set. case_decide as E1; case_decide as E2.
    - injection E2 as -> ->. by rewrite Bool.eqb_reflx.
    - subst slot'. destruct (Bool.eqb c c') eqn:Ec; [apply Bool.eqb_prop in Ec as ->; done|]. symmetry. apply rec_at_Some. eauto.
    - congruence.
    - done. }
  split; cbn [rs_entries rs_bytes rs_occupied]; try done.
  - by rewrite length_insert.
  - apply (layout_ext (rs_entries s)); [|done]. intros slot' c' r Hin Hr'. rewrite Hrec'. case_decide as E; [|eauto].
    injection E as -> ->. apply Hel in Hin as [_ Hin]. done.
  - intros slot' c' r Hr'. rewrite Hrec' in Hr'. case_decide as E.
    + injection E as -> ->. injection Hr' as <-. split; [done|]. intros [_ Hne]%Hel. done.
    + rewrite Hel, (Hli _ _ _ Hr'). split; [|tauto]. intros Hin. split; [done|]. intros Eid. apply E.
      apply record_id_inj in Eid as [-> ->]; [done| |done]. rewrite <- He. by eapply rec_at_lt.
  - intros slot' c' r Hr' Hu. rewrite Hrec' in Hr'. case_decide; [by injection Hr' as <-|]. by apply Hr.
Qed.

Definition erased (e : RetEntry) : RetEntry := mkEntry (e_generation e + 1) (e_key e) record_empty record_empty 0 (mkMono 0).

Lemma erase_spec s g slot e :
  memory_wf s g -> rs_entries s !! slot = Some e -> 1 <= e_generation e < U64_MAX ->
  exists s', erase Entries s slot = Ok s' /\ memory_wf s' g /\ rs_entries s' = <[slot := erased e]> (rs_entries s).
Proof.
  intros Hm Hs Hg. unfold erase. destruct (drop_record_spec s g slot false e Hm Hs) as (s1 & -> & Hm1 & E1). cbn [rbind].
  assert (Hlt : (slot < length (rs_entries s))%nat) by (by eapply lookup_lt_Some).
  assert (Hs1 : rs_entries s1 !! slot = Some (set_record e false record_empty)) by (rewrite E1; by rewrite list_lookup_insert_eq).
  destruct (drop_record_spec s1 g slot true _ Hm1 Hs1) as (s2 & -> & Hm2 & E2). cbn [rbind].
  rewrite E2, list_lookup_insert_eq by (rewrite E1, length_insert; done). cbn [deref rbind].
  eexists. split; [done|]. rewrite E1, list_insert_insert_eq, list_insert_insert_eq.
  assert (Ew : wrap64 (e_generation e + 1) = e_generation e + 1) by (apply Z.mod_small; unfold_words; lia).
  cbn [set_record e_generation e_key e_rec0 e_rec1]. rewrite Ew. split; [|done].
  rewrite E1, list_insert_insert_eq in E2.
  apply memory_wf_shape; [done|rewrite length_insert; destruct Hm; done|].
  intros slot' c' r Hr. rewrite rec_at_insert in Hr by done. rewrite E2, rec_at_insert by done.
  case_decide; [|eauto]. injection Hr as <-. eexists. split; [done|]. by destruct c'.
Qed.

Lemma erased_wf es slot e : entries_wf es -> es !! slot = Some e -> e_generation e < U64_MAX -> entries_wf (<[slot := erased e]> es).
Proof.
  intros Hwf He Hg. apply (entries_wf_update es slot e); try done. destruct Hwf as [_ Hgen _]. destruct (Hgen _ _ He). cbn. split; [lia|done].
Qed.
(** ** Canonical commands *)

(** The canonical form of the byte at [offset]. *)
Definition canonical_of (packet : PacketView) (offset : nat) (b : byte) : byte :=
  let b := if (offset =? 1)%nat then mask_byte b 0xf0 else b in
  if negb (cancel (ev_envelope (pv_envelope packet))) && (Z.of_nat offset =? ev_payload_offset (pv_envelope packet))
  then mask_byte b 0x7f else b.
Definition canonical_bytes (packet : PacketView) : list byte := imap (canonical_of packet) (ev_wire (pv_envelope packet)).

Lemma canonical_byte_at packet i : canonical_command_byte packet i = deref (canonical_bytes packet !! i).
Proof.
  unfold canonical_command_byte, canonical_bytes. rewrite list_lookup_imap. by destruct (_ !! i).
Qed.

Lemma canonical_bytes_length packet : length (canonical_bytes packet) = length (ev_wire (pv_envelope packet)).
Proof. apply length_imap. Qed.

Lemma compare_loop_spec m offset packet cb n : forall b,
  0 <= offset -> holds m offset (m_byte <$> cb) -> length cb = length (canonical_bytes packet) -> (b + n)%nat = length cb ->
  compare_canonical m offset packet b n = Ok (bool_decide (drop b cb = drop b (canonical_bytes packet))).
Proof.
  induction n as [|n IH]; intros b Ho Hh Hl Hb; cbn [compare_canonical].
  - rewrite bool_decide_eq_true_2; [done|]. rewrite !drop_ge by lia. done.
  - destruct (lookup_lt_is_Some_2 cb b) as [x Hx]; [lia|]. destruct (lookup_lt_is_Some_2 (canonical_bytes packet) b) as [y Hy]; [lia|].
    assert (Hm : m !! Z.to_nat (offset + Z.of_nat b) = Some (m_byte x)).
    { replace (Z.to_nat (offset + Z.of_nat b)) with (Z.to_nat offset + b)%nat by lia. apply Hh. by rewrite list_lookup_fmap, Hx. }
    rewrite Hm. cbn [deref rbind as_byte]. rewrite canonical_byte_at, Hy. cbn [deref rbind].
    rewrite (drop_S _ _ _ Hx), (drop_S _ _ _ Hy). case_bool_decide as Exy.
    + subst y. rewrite IH by (done || lia). f_equal. apply bool_decide_ext. split; [intros ->; done|by intros [= ->]].
    + rewrite bool_decide_eq_false_2; [done|]. congruence.
Qed.

Lemma compare_spec m offset packet cb :
  0 <= offset -> holds m offset (m_byte <$> cb) -> length cb = length (ev_wire (pv_envelope packet)) ->
  compare_canonical m offset packet 0 (length cb) = Ok (bool_decide (cb = canonical_bytes packet)).
Proof. intros Ho Hh Hl. rewrite (compare_loop_spec m offset packet cb (length cb) 0); [done|done|done|by rewrite canonical_bytes_length|done]. Qed.

Lemma store_loop_spec packet offset n : forall b m,
  0 <= offset -> (b + n)%nat = length (canonical_bytes packet) -> offset + zlen (canonical_bytes packet) <= zlen m ->
  exists m', store_canonical m offset packet b n = Ok m' /\ length m' = length m /\
    holds m' (offset + Z.of_nat b) (m_byte <$> drop b (canonical_bytes packet)) /\
    (forall i, (i < Z.to_nat offset + b \/ Z.to_nat offset + length (canonical_bytes packet) <= i)%nat -> m' !! i = m !! i).
Proof.
  induction n as [|n IH]; intros b m Ho Hb Hm; cbn [store_canonical].
  - exists m. split_and!; try done. rewrite drop_ge by lia. apply holds_nil.
  - destruct (lookup_lt_is_Some_2 (canonical_bytes packet) b) as [y Hy]; [lia|]. rewrite canonical_byte_at, Hy. cbn [deref rbind].
    destruct (mem_write_ok m (offset + Z.of_nat b) [m_byte y]) as (m1 & -> & Hl1 & Hh1 & Hf1); [lia|unfold zlen in *; cbn; lia|]. cbn [rbind].
    destruct (IH (S b) m1) as (m' & -> & Hl' & Hh' & Hf'); [done|lia|unfold zlen in *; lia|].
    exists m'. split; [done|]. split; [lia|]. rewrite (drop_S _ _ _ Hy). cbn [length] in Hf1. split.
    + intros [|k] v Hv; cbn in Hv.
      * rewrite Hf' by lia. injection Hv as <-. by apply Hh1.
      * specialize (Hh' k v Hv). rewrite <- Hh'. f_equal. lia.
    + intros i Hi. rewrite Hf' by lia. apply Hf1. lia.
Qed.

Lemma fragments_length a : length (fragments ack_size a) = ack_size.
Proof. unfold fragments. by rewrite length_fmap, length_seq. Qed.

Lemma responses_length acks : length (responses_of acks) = (length acks * ack_size)%nat.
Proof. unfold responses_of. induction acks as [|a acks IH]; [done|].
  change (length (fragments ack_size a ++ mjoin (fragments ack_size <$> acks)) = (ack_size + length acks * ack_size)%nat).
  by rewrite length_app, fragments_length, IH.
Qed.

Lemma responses_snoc acks a : responses_of (acks ++ [a]) = responses_of acks ++ fragments ack_size a.
Proof. unfold responses_of. rewrite fmap_app, join_app. cbn. by rewrite app_nil_r. Qed.

Lemma load_fragments a : load_ack ack_size (fragments ack_size a) = Ok a.
Proof.
  unfold load_ack. assert (E : exists k rest, fragments ack_size a = m_frag a k :: rest).
  { unfold fragments. destruct ack_size as [|n]; [lia|]. cbn. eauto. }
  destruct E as (k & rest & E). rewrite E. by rewrite bool_decide_eq_true_2 by (by rewrite E).
Qed.

(** Contents survive writes outside the record's extent. *)
Lemma record_wf_frame m m' r x lo len :
  record_wf m r x -> 0 <= lo -> r_offset r + r_bytes r <= lo \/ lo + Z.of_nat len <= r_offset r ->
  (forall i, (i < Z.to_nat lo \/ Z.to_nat lo + len <= i)%nat -> m' !! i = m !! i) -> record_wf m' r x.
Proof.
  intros [H1 H2 H3 H4 H5 H6 H7 H8] Hlo Hd Hf.
  assert (Hc : zlen (m_byte <$> x.1) = r_canonical r) by (unfold zlen in *; by rewrite length_fmap).
  assert (Hr : zlen (responses_of x.2) = r_response_count r * Z.of_nat ack_size) by (unfold zlen in *; rewrite responses_length; lia).
  assert (Hroom : 0 <= r_response_count r * Z.of_nat ack_size <= r_response_capacity r * Z.of_nat ack_size) by (unfold zlen in H2; nia).
  split; try done.
  - apply (holds_frame m m' _ _ lo len); try done. rewrite Hc. lia.
  - apply (holds_frame m m' _ _ lo len); try done; [lia|]. rewrite Hr. lia.
Qed.

(** The [i]-th response is in place. *)
Lemma response_held m r x i a :
  record_wf m r x -> x.2 !! i = Some a -> holds m (r_offset r + r_canonical r + Z.of_nat i * Z.of_nat ack_size) (fragments ack_size a).
Proof.
  intros [H1 H2 H3 H4 H5 H6 H7 H8] Hi. rewrite <- (take_drop_middle _ _ _ Hi) in H8.
  rewrite cons_middle, app_assoc in H8. unfold responses_of in H8. rewrite !fmap_app, !join_app in H8.
  apply held_app in H8 as [H8 _]; [|lia]. apply held_app in H8 as [_ H8]; [|lia]. cbn in H8. rewrite app_nil_r in H8.
  fold (responses_of (take i x.2)) in H8. unfold zlen in H8. rewrite responses_length, length_take in H8.
  apply lookup_lt_Some in Hi. replace (Z.of_nat (i `min` length x.2 * ack_size)) with (Z.of_nat i * Z.of_nat ack_size) in H8 by nia. done.
Qed.
(** ** Keys *)

Definition key_norm (k : TransactionKey) :=
  (tk_binding_generation k, tk_peer k, tk_stream_id k, tk_message_id k, identifier_norm (tk_controller k), identifier_norm (tk_controllee k)).

Lemma same_key_norm a b : same_key a b = true <-> key_norm a = key_norm b.
Proof.
  unfold same_key, key_norm. rewrite !andb_true_iff, !bool_decide_eq_true, !Z.eqb_eq, !same_identifier_norm.
  split; [intros (((((? & ?) & ?) & ?) & ?) & ?); congruence|intros [= ? ? ? ? ? ? ? ?]; split_and!; unfold identifier_norm; congruence].
Qed.

Lemma find_key_Some s key i : find_key s key = Some i ->
  exists e, rs_entries s !! i = Some e /\ r_used (e_rec0 e) = true /\ same_key (e_key e) key = true.
Proof. intros [(e & He & [? ?]%andb_true_iff) _]%first_index_Some. eauto. Qed.

Lemma find_key_None s key : find_key s key = None ->
  forall i e, rs_entries s !! i = Some e -> r_used (e_rec0 e) = true -> same_key (e_key e) key = false.
Proof.
  intros H%first_index_None i e He U. pose proof (Forall_lookup_1 _ _ _ _ H He) as Hn. cbn in Hn. by rewrite U in Hn.
Qed.

(** With unique keys the search finds the entry of a key. *)
Lemma find_key_unique s key i e : entries_wf (rs_entries s) -> rs_entries s !! i = Some e -> r_used (e_rec0 e) = true ->
  same_key (e_key e) key = true -> find_key s key = Some i.
Proof.
  intros [_ _ Hu] He U Hk. destruct (find_key s key) as [j|] eqn:Ej; [|by rewrite (find_key_None _ _ Ej i e) in Hk].
  apply find_key_Some in Ej as (f & Hf & Uf & Hkf). f_equal. eapply Hu; try done. rewrite same_key_norm in *. congruence.
Qed.

(** ** Reservation *)

Lemma listed_id es ids id : forall lo, layout es lo ids -> id ∈ ids -> id ∈ seqZ 0 (2 * Z.of_nat Entries).
Proof.
  induction ids as [|id' ids IH]; intros lo; cbn; [by intros _ []%elem_of_nil|].
  intros (slot & c & r & -> & Hs & _ & _ & _ & _ & Hl) Hin. apply elem_of_cons in Hin as [->|Hin]; [|by eapply IH].
  rewrite record_id_eq by done. apply elem_of_seqZ. pose proof (b2z_range c). lia.
Qed.

Lemma insert_id_ok es ids ins slot c : layout es 0 ids -> NoDup ids -> (slot < Entries)%nat -> record_id slot c ∉ ids ->
  insert_id Entries ids ins (record_id slot c) = Ok (take ins ids ++ record_id slot c :: drop ins ids).
Proof.
  intros Hl Hn Hs Hni. unfold insert_id. destruct (Nat.leb_spec (2 * Entries) (length ids)); [|done]. exfalso.
  assert (Hsub : record_id slot c :: ids ⊆+ seqZ 0 (2 * Z.of_nat Entries)).
  { apply NoDup_submseteq; [by apply list.NoDup_cons|]. intros id Hid. apply elem_of_cons in Hid as [->|Hid]; [|by eapply listed_id].
    rewrite record_id_eq by done. apply elem_of_seqZ. pose proof (b2z_range c). lia. }
  apply submseteq_length in Hsub. rewrite length_seqZ in Hsub. cbn in Hsub. lia.
Qed.

(** Adding a record at the place found. *)
Lemma memory_wf_add s g slot c e e' r off ins pre post m' adm probes x :
  memory_wf s g -> rs_entries s !! slot = Some e ->
  r_used (entry_record e c) = false -> entry_record e' c = r -> (forall d, d <> c -> entry_record e' d = entry_record e d) ->
  rs_occupied s = pre ++ post -> ins = length pre -> extent r = (true, off, r_bytes r) ->
  off + r_bytes r <= ByteCapacity -> record_wf m' r x -> length m' = length (rs_bytes s) ->
  (forall es' slot c r', (slot < Entries)%nat -> same_extents (rs_entries s) es' (rs_occupied s) -> rec_at es' slot c = Some r' ->
     extent r' = (true, off, r_bytes r) -> off + r_bytes r <= ByteCapacity -> layout es' 0 (pre ++ record_id slot c :: post)) ->
  (forall i, (i < Z.to_nat off \/ Z.to_nat (off + r_bytes r) <= i)%nat -> m' !! i = rs_bytes s !! i) ->
  memory_wf (mkStore (<[slot := e']> (rs_entries s)) m' (take ins (rs_occupied s) ++ record_id slot c :: drop ins (rs_occupied s)) probes adm)
    (ghost_set g slot c x).
Proof.
  intros Hm Hs Hun Her Hed Hocc -> Hext Hfit Hrw Hlm Hlay Hfr. pose proof Hm as [He Hb Hl Hn Hli Hr].
  assert (Hlt : (slot < Entries)%nat) by (rewrite <- He; by eapply lookup_lt_Some).
  assert (Hrec0 : rec_at (rs_entries s) slot c = Some (entry_record e c)) by (apply rec_at_Some; eauto).
  assert (Hni : record_id slot c ∉ rs_occupied s) by (rewrite <- (Hli _ _ _ Hrec0); congruence).
  assert (Hrec : forall slot' c', rec_at (<[slot := e']> (rs_entries s)) slot' c' =
    if decide ((slot', c') = (slot, c)) then Some r else rec_at (rs_entries s) slot' c').
  { intros slot' c'. rewrite rec_at_insert by lia. case_decide as E1; case_decide as E2; try congruence.
    subst slot'. rewrite Hed by congruence. symmetry. apply rec_at_Some. eauto. }
  assert (Hcat : take (length pre) (rs_occupied s) ++ record_id slot c :: drop (length pre) (rs_occupied s) = pre ++ record_id slot c :: post)
    by (rewrite Hocc, take_app_length, drop_app_length; done).
  rewrite Hcat. assert (Hel : forall id, id ∈ pre ++ record_id slot c :: post <-> id = record_id slot c \/ id ∈ rs_occupied s).
  { intros id. rewrite Hocc, !elem_of_app, elem_of_cons. tauto. }
  split; cbn [rs_entries rs_bytes rs_occupied].
  - by rewrite length_insert.
  - unfold zlen in *. lia.
  - apply (Hlay _ slot c r); try done; [|rewrite Hrec; by rewrite decide_True].
    intros slot' c' r' Hin Hr'. rewrite Hrec. case_decide as E; [injection E as -> ->; done|eauto].
  - rewrite Hocc in Hn, Hni. assert (Hp : pre ++ record_id slot c :: post ≡ₚ record_id slot c :: pre ++ post) by (by rewrite Permutation_middle).
    rewrite Hp. by apply list.NoDup_cons.
  - intros slot' c' r' Hr'. rewrite Hel. rewrite Hrec in Hr'. case_decide as E.
    + injection E as -> ->. injection Hr' as <-. unfold extent in Hext. split; [by left|intros _; congruence].
    + rewrite (Hli _ _ _ Hr'). split; [by right|]. intros [Eid|?]; [|done]. exfalso. apply E.
      apply record_id_inj in Eid as [-> ->]; [done| |done]. rewrite <- He. by eapply rec_at_lt.
  - intros slot' c' r' Hr' U. rewrite Hrec in Hr'. case_decide as E.
    + injection E as -> ->. injection Hr' as <-. by rewrite ghost_set_eq.
    + rewrite ghost_set_ne by done. assert (Hrw' := Hr _ _ _ Hr' U).
      destruct (used_extent _ _ _ _ _ Hm Hr' U) as (Hs' & Ho' & Hb').
      assert (Hin : record_id slot' c' ∈ rs_occupied s) by (by apply (Hli _ _ _ Hr')).
      assert (Hd : r_offset r' + r_bytes r' <= off \/ off + r_bytes r <= r_offset r').
      { pose proof Hext as Hext0. unfold extent in Hext0. injection Hext0 as _ Eo.
        assert (L : layout (<[slot := e']> (rs_entries s)) 0 (pre ++ record_id slot c :: post)).
        { apply (Hlay _ slot c r); try done; [|rewrite Hrec; by rewrite decide_True].
          intros s2 c2 r2 Hin2 Hr2. rewrite Hrec. case_decide as E2; [injection E2 as -> ->; done|eauto]. }
        rewrite <- Eo. apply (layout_disjoint _ _ slot' c' slot c 0 r' r L); try done; try (apply Hel; auto);
          rewrite Hrec; [by rewrite decide_False|by rewrite decide_True]. }
      assert (0 <= off) by (destruct Hrw; unfold extent in Hext; congruence).
      assert (0 <= r_bytes r) by (destruct Hrw as [W1 W2 W3 W4 W5 W6 _ _]; unfold zlen in *; nia).
      apply (record_wf_frame (rs_bytes s) m' r' _ off (Z.to_nat (r_bytes r))); [done|done|lia|].
      intros i Hi. apply Hfr. lia.
Qed.
Lemma memory_wf_probes s g n : memory_wf s g -> memory_wf (set_probes s n) g.
Proof. by intros []. Qed.

Lemma admission_never_ub a q : (admission_acquire a q).1 <> UB.
Proof. unfold admission_acquire. by repeat case_match. Qed.

(** What a failed call leaves. *)
Definition unchanged (s s' : RetentionStore) : Prop :=
  rs_entries s' = rs_entries s /\ rs_bytes s' = rs_bytes s /\ rs_occupied s' = rs_occupied s /\ rs_admission s' = rs_admission s.

Lemma unchanged_wf s s' g : unchanged s s' -> retention_wf s g -> retention_wf s' g.
Proof. intros (E1 & E2 & E3 & _) [[H1 H2 H3 H4 H5 H6] He]. split; [split|]; rewrite ?E1, ?E2, ?E3; done. Qed.

(** The condition under which [reserve] goes on to create a record. *)
Definition may_create (s : RetentionStore) (key : TransactionKey) (c : bool) (existing : option nat) : Prop :=
  match existing with
  | None => forall i e, rs_entries s !! i = Some e -> r_used (e_rec0 e) = true -> same_key (e_key e) key = false
  | Some i => exists e, rs_entries s !! i = Some e /\ r_used (e_rec0 e) = true /\ same_key (e_key e) key = true /\ r_used (entry_record e c) = false
  end.

(** The entry chosen for a new record. *)
Lemma chosen_slot s g key c existing slot :
  retention_wf s g -> may_create s key c existing -> (c = true -> existing <> None) ->
  match existing with Some i => Some i | None => free_slot s end = Some slot ->
  exists e, rs_entries s !! slot = Some e /\ r_used (entry_record e c) = false /\ 1 <= e_generation e < U64_MAX /\
    (c = true -> r_used (e_rec0 e) = true) /\ (c = false -> r_used (e_rec1 e) = false) /\
    (forall j f, j <> slot -> rs_entries s !! j = Some f -> r_used (e_rec0 f) = true ->
       same_key key (e_key f) = false /\ same_key (e_key f) key = false).
Proof.
  intros [Hm He] Hc Hcx Hs. pose proof He as [Ho Hg Hu]. destruct existing as [i|].
  - injection Hs as ->. destruct Hc as (e & Hse & U & Hk & Hun). exists e. destruct (Hg _ _ Hse) as [Hg1 Hg2].
    assert (c = true) as -> by (destruct c; [done|cbn in Hun; congruence]). split_and!; try done; [lia|auto|].
    intros j f Hne Hf Uf. assert (Hd : key_norm (e_key f) <> key_norm key).
    { intros E. apply Hne. apply same_key_norm in Hk. eapply Hu; try done. apply same_key_norm. congruence. }
    split; apply not_true_iff_false; rewrite same_key_norm; congruence.
  - unfold free_slot in Hs. apply first_index_Some in Hs as [(e & Hse & [Hun Hne]%andb_true_iff) _].
    rewrite negb_true_iff in Hun, Hne. apply Z.eqb_neq in Hne. assert (c = false) as -> by (destruct c; [|done]; by specialize (Hcx eq_refl)).
    exists e. destruct (Hg _ _ Hse) as [Hg1 _]. split_and!; try done; try lia.
    + intros _. destruct (r_used (e_rec1 e)) eqn:E1; [|done]. by rewrite (Ho _ _ Hse E1) in Hun.
    + intros j f _ Hf Uf. specialize (Hc j f Hf Uf). split; [|done]. apply not_true_iff_false. rewrite same_key_norm.
      apply not_true_iff_false in Hc. rewrite same_key_norm in Hc. congruence.
Qed.

(** A record that was just reserved. *)
Definition reserved_record (r : RetRecord) (responses : Z) : Prop :=
  r_used r = true /\ r_active r = false /\ r_terminal r = false /\ r_response_capacity r = responses.

Lemma reserve_fresh_spec s g key packet responses existing :
  let c := cancel (ev_envelope (pv_envelope packet)) in
  retention_wf s g -> 4 <= zlen (ev_wire (pv_envelope packet)) -> 0 <= responses <= 3 -> may_create s key c existing ->
  match reserve_fresh Entries ByteCapacity ack_size s key packet responses existing with
  | (Ok a, s') => exists slot e, rs_entries s !! slot = Some e /\ r_used (entry_record e c) = false /\
      a = mkAdmitted (mkToken slot (e_generation e) c) DuplicateKind.fresh /\
      (exists e', rs_entries s' = <[slot := e']> (rs_entries s) /\ e_generation e' = e_generation e /\ e_key e' = key /\
         e_expires e' = e_expires e /\
         reserved_record (entry_record e' c) responses /\ (forall d, d <> c -> entry_record e' d = entry_record e d)) /\
      retention_wf s' (ghost_set g slot c (canonical_bytes packet, []))
  | (Err _, s') => unchanged s s'
  | (UB, _) => False
  end.
Proof.
  cbv zeta. set (c := cancel _). intros Hwf Hw Hr Hmay. pose proof Hwf as [Hm He]. pose proof Hm as [Hle Hlb Hl Hn Hli Hrec].
  unfold reserve_fresh. fold c. test_goal E1; [done|]. test_goal E2; [done|].
  apply orb_false_iff in E2 as [E2 E3]. apply Z.ltb_ge in E2, E3. set (n := zlen (ev_wire _)) in *.
  assert (Hreq : responses * Z.of_nat ack_size <= ByteCapacity - n).
  { transitivity ((ByteCapacity - n) / Z.of_nat ack_size * Z.of_nat ack_size); [nia|]. pose proof (Z.mul_div_le (ByteCapacity - n) (Z.of_nat ack_size)). lia. }
  assert (Ew : wrap64 (n + responses * Z.of_nat ack_size) = n + responses * Z.of_nat ack_size) by (apply Z.mod_small; unfold_words; nia).
  rewrite Ew. set (required := n + responses * Z.of_nat ack_size) in *.
  destruct (match existing with Some i => Some i | None => free_slot s end) as [slot|] eqn:Eslot; [|done].
  destruct (chosen_slot s g key c existing slot Hwf Hmay) as (e & Hse & Hun & Hgen & Hc1 & Hc0 & Hkeys); [|done|].
  { intros Hct ->. rewrite Hct in E1. done. }
  assert (Hlt : (slot < Entries)%nat) by (rewrite <- Hle; by eapply lookup_lt_Some).
  destruct (place_spec (rs_entries s) required (rs_occupied s) ltac:(nia) Hle 0 0 0 ltac:(lia) Hl) as (off & pre & post & p & -> & Hocc & Hoff & Hlay & _ & _).
  cbn [attempt set_probes rs_admission rs_entries rs_occupied rs_bytes]. test_goal E4; [done|]. apply Z.ltb_ge in E4.
  pose proof (admission_never_ub (rs_admission s) (reserve_request c required)) as Hnub.
  destruct (admission_acquire (rs_admission s) (reserve_request c required)) as [[credits|err|] adm]; cbn [attempt]; [|done|done].
  rewrite Hse. cbn [deref attempt].
  rewrite (insert_id_ok (rs_entries s)); try done.
  2:{ intros Hin. apply (Hli slot c (entry_record e c)) in Hin; [congruence|]. apply rec_at_Some. eauto. }
  cbn [attempt]. destruct (store_loop_spec packet off (Z.to_nat n) 0 (rs_bytes s)) as (m' & -> & Hlm & Hh & Hf).
  { lia. } { rewrite canonical_bytes_length. unfold n, zlen. lia. } { unfold zlen at 1. rewrite canonical_bytes_length. fold (zlen (ev_wire (pv_envelope packet))). fold n. rewrite Hlb. lia. }
  cbn [attempt]. rewrite drop_0, Z.add_0_r in Hh. rewrite canonical_bytes_length in Hf.
  exists slot, e. split; [done|]. split; [done|]. split; [done|]. split.
  { eexists. split; [done|]. split; [by destruct c|]. split; [by destruct c|]. split; [by destruct c|]. split; [by destruct c|]. intros d Hd. by destruct c, d. }
  split; cbn [rs_entries].
  - match goal with |- context [set_record _ c ?r0] => set (r := r0) end.
    refine (memory_wf_add s g slot c e _ r off _ pre post m' _ _ _ Hm Hse Hun _ _ Hocc eq_refl eq_refl _ _ Hlm Hlay _).
    + by rewrite entry_record_set, Bool.eqb_reflx.
    + intros d Hd. rewrite entry_record_set. destruct (Bool.eqb c d) eqn:Ed; [by apply Bool.eqb_prop in Ed as ->|]. by destruct d.
    + cbn [r r_bytes]. lia.
    + split; cbn [r r_canonical r_response_count r_response_capacity r_bytes r_offset fst snd]; try done; try lia.
      unfold n, zlen. by rewrite canonical_bytes_length.
    + intros i Hi. cbn [r r_bytes] in Hi. apply Hf. unfold n, zlen in *. nia.
  - apply (entries_wf_insert _ slot e); try done.
    + intros _. destruct c; cbn; [by apply Hc1|done].
    + destruct c; cbn; (split; [lia|lia]).
Qed.
(** ** The operations on live tokens *)

Lemma entry_Some s t e : entry s t = Some e <->
  rs_entries s !! tok_slot t = Some e /\ r_used (entry_record e (tok_cancellation t)) = true /\ e_generation e = tok_generation t.
Proof.
  unfold entry. destruct (rs_entries s !! tok_slot t) as [f|]; cbn; [|naive_solver].
  destruct (r_used _ && _) eqn:E; [rewrite andb_true_iff, Z.eqb_eq in E; naive_solver|].
  split; [done|]. intros ([= <-] & U & G). rewrite U, G, Z.eqb_refl in E. done.
Qed.

(** Changing an entry without changing what its records occupy. *)
Lemma wf_update_entry s g slot e e' :
  retention_wf s g -> rs_entries s !! slot = Some e -> (forall c, shape (entry_record e' c) = shape (entry_record e c)) ->
  e_key e' = e_key e -> e_generation e' = e_generation e -> retention_wf (set_entries s (<[slot := e']> (rs_entries s))) g.
Proof.
  intros [Hm He] Hs Hsh Hk Hg. assert (Hlt : (slot < length (rs_entries s))%nat) by (by eapply lookup_lt_Some).
  assert (Hu : forall c, r_used (entry_record e' c) = r_used (entry_record e c)) by (intros c; specialize (Hsh c); unfold shape in Hsh; congruence).
  pose proof (Hu false) as U0. pose proof (Hu true) as U1. cbn in U0, U1. split.
  - apply memory_wf_shape; [done|rewrite length_insert; by destruct Hm|]. intros slot' c r Hr. rewrite rec_at_insert in Hr by done.
    case_decide; [|eauto]. subst slot'. injection Hr as <-. exists (entry_record e c). split; [apply rec_at_Some; eauto|done].
  - cbn [set_entries rs_entries]. apply (entries_wf_update _ slot e); try done; rewrite ?U0, ?U1, ?Hg; try done; destruct He as [Ho Hgen _]; eauto.
Qed.

Lemma put_record_wf s g t e r : retention_wf s g -> entry s t = Some e -> shape r = shape (entry_record e (tok_cancellation t)) ->
  retention_wf (put_record s t e r) g.
Proof.
  intros Hwf (Hs & Hu & Hg)%entry_Some Hsh. apply (wf_update_entry s g _ e); try done. intros c. rewrite entry_record_set.
  destruct (Bool.eqb _ c) eqn:E; [by apply Bool.eqb_prop in E as <-|done].
Qed.

Lemma erase_wf s g slot e : retention_wf s g -> rs_entries s !! slot = Some e -> r_used (e_rec0 e) = true ->
  exists s', erase Entries s slot = Ok s' /\ retention_wf s' g /\ rs_entries s' = <[slot := erased e]> (rs_entries s).
Proof.
  intros [Hm He] Hs Hu. pose proof He as [_ Hgen _]. destruct (Hgen _ _ Hs) as [Hg1 Hg2]. specialize (Hg2 Hu).
  destruct (erase_spec s g slot e Hm Hs ltac:(lia)) as (s' & -> & Hm' & Hes). exists s'. split; [done|]. split; [|done].
  split; [done|]. rewrite Hes. by apply erased_wf.
Qed.

Lemma token_original s g t e : retention_wf s g -> entry s t = Some e -> r_used (e_rec0 e) = true.
Proof. intros [_ [Ho _ _]] (Hs & Hu & _)%entry_Some. destruct (tok_cancellation t); [by eapply Ho|done]. Qed.

Lemma append_wf s g t a :
  retention_wf s g ->
  match append ack_size s t a with
  | (Ok _, s') => retention_wf s' (ghost_set g (tok_slot t) (tok_cancellation t)
                    ((g (tok_slot t) (tok_cancellation t)).1, (g (tok_slot t) (tok_cancellation t)).2 ++ [a])) /\
      exists e, entry s t = Some e /\ exists e', rs_entries s' = <[tok_slot t := e']> (rs_entries s) /\
        e_generation e' = e_generation e /\ e_expires e' = e_expires e /\ e_references e' = e_references e /\
        (forall c, r_used (entry_record e' c) = r_used (entry_record e c) /\ r_terminal (entry_record e' c) = r_terminal (entry_record e c))
  | (Err _, s') => s' = s
  | (UB, _) => False
  end.
Proof.
  intros Hwf. unfold append, with_token. destruct (entry s t) as [e|] eqn:Ee; [|done]. set (c := tok_cancellation t). set (slot := tok_slot t).
  pose proof Ee as (Hs & Hu & Hg)%entry_Some. fold c slot in Hs, Hu. test_goal E1; [done|]. test_goal E2; [done|]. apply Z.eqb_neq in E2.
  pose proof Hwf as [Hm He]. pose proof Hm as [Hle Hlb Hl Hn Hli Hrec].
  assert (Hra : rec_at (rs_entries s) slot c = Some (entry_record e c)) by (apply rec_at_Some; eauto).
  destruct (used_extent _ _ _ _ _ Hm Hra Hu) as (Hlt & Ho & Hb). pose proof (Hrec _ _ _ Hra Hu) as Hrw.
  pose proof Hrw as [H1 H2 H3 H4 H5 H6 H7 H8]. set (r := entry_record e c) in *. set (x := g slot c) in *.
  assert (Hc0 : 0 <= r_response_count r) by (unfold zlen in H2; lia).
  assert (Hroom : 0 <= r_response_count r * Z.of_nat ack_size /\ (r_response_count r + 1) * Z.of_nat ack_size <= r_response_capacity r * Z.of_nat ack_size) by nia.
  assert (Eo : response_offset ack_size r (r_response_count r) = r_offset r + r_canonical r + r_response_count r * Z.of_nat ack_size)
    by (apply Z.mod_small; unfold_words; lia).
  assert (Ec : wrap64 (r_response_count r + 1) = r_response_count r + 1) by (apply Z.mod_small; unfold_words; nia).
  rewrite Eo, Ec. destruct (mem_write_ok (rs_bytes s) (r_offset r + r_canonical r + r_response_count r * Z.of_nat ack_size) (fragments ack_size a))
    as (m' & -> & Hlm & Hh & Hf); [lia|unfold zlen at 1; rewrite fragments_length, Hlb; lia|].
  rewrite fragments_length in Hf. cbn [attempt put_record set_entries rs_entries rs_occupied rs_probes rs_admission].
  fold c slot. set (r' := mkRecord _ _ _ _ _ _ _ _ _ _). split.
  2:{ exists e. split; [done|]. eexists. split; [done|]. split_and!; try done. intros d. rewrite entry_record_set. destruct (Bool.eqb _ d) eqn:Ed; [|done].
      apply Bool.eqb_prop in Ed as <-. done. }
  assert (Hrec' : forall slot' c', rec_at (<[slot := set_record e c r']> (rs_entries s)) slot' c' =
    if decide ((slot', c') = (slot, c)) then Some r' else rec_at (rs_entries s) slot' c').
  { intros slot' c'. rewrite rec_at_insert by lia. rewrite entry_record_set. case_decide as D1; case_decide as D2; try congruence.
    - injection D2 as -> ->. by rewrite Bool.eqb_reflx.
    - subst slot'. destruct (Bool.eqb c c') eqn:Ecc; [apply Bool.eqb_prop in Ecc as ->; done|]. symmetry. apply rec_at_Some. eauto. }
  split; [split|]; cbn [rs_entries rs_bytes rs_occupied].
  - by rewrite length_insert.
  - unfold zlen in *. lia.
  - apply (layout_ext (rs_entries s)); [|done]. intros slot' c' r0 _ Hr0. rewrite Hrec'. case_decide as D; [|eauto]. injection D as -> ->. simplify_eq. by exists r'.
  - done.
  - intros slot' c' r0 Hr0. rewrite Hrec' in Hr0. case_decide as D; [|by apply Hli]. injection D as -> ->. injection Hr0 as <-. by rewrite <- (Hli _ _ _ Hra).
  - intros slot' c' r0 Hr0 U. rewrite Hrec' in Hr0. case_decide as D.
    + injection D as -> ->. injection Hr0 as <-. rewrite ghost_set_eq.
      assert (Hzr : zlen (responses_of x.2) = r_response_count r * Z.of_nat ack_size) by (unfold zlen in *; rewrite responses_length; lia).
      split; cbn [r' r_canonical r_response_count r_response_capacity r_bytes r_offset fst snd]; try done; try lia.
      * unfold zlen in *. rewrite length_app. cbn [length]. lia.
      * eapply holds_frame; [exact H7|exact Hf|done|lia|]. left. unfold zlen in *. rewrite length_fmap. lia.
      * rewrite responses_snoc. apply held_app; [lia|]. rewrite Hzr. split; [|done].
        eapply holds_frame; [exact H8|exact Hf|lia|lia|]. left. rewrite Hzr. lia.
    + rewrite ghost_set_ne by done. destruct (used_extent _ _ _ _ _ Hm Hr0 U) as (Hlt0 & Ho0 & Hb0).
      apply (record_wf_frame (rs_bytes s) m' r0 _ (r_offset r + r_canonical r + r_response_count r * Z.of_nat ack_size) ack_size); [by apply Hrec|lia| |exact Hf].
      destruct (layout_disjoint (rs_entries s) (rs_occupied s) slot' c' slot c 0 r0 r Hl) as [?|?]; try done; [by apply (Hli _ _ _ Hr0)|by apply (Hli _ _ _ Hra)|lia|lia].
  - apply (entries_wf_update _ slot e); try done; destruct He as [Ho' Hgen _].
    + specialize (Ho' _ _ Hs). destruct c; cbn; auto.
    + specialize (Hgen _ _ Hs). destruct c; cbn in *; tauto.
    + destruct c; cbn; by auto.
Qed.
(** ** Duplicates *)

(** The byte comparison decides equality of the canonical commands. *)
Lemma duplicate_of_spec s r x packet :
  record_wf (rs_bytes s) r x ->
  duplicate_of s r packet = if bool_decide (x.1 = canonical_bytes packet) then Ok tt else Err (error1 ErrorCode.identity_conflict).
Proof.
  intros [H1 H2 H3 H4 H5 H6 H7 H8]. unfold duplicate_of. rewrite H1. unfold zlen.
  destruct (Z.eqb_spec (Z.of_nat (length x.1)) (Z.of_nat (length (ev_wire (pv_envelope packet))))) as [E|E]; cbn [negb].
  - rewrite Nat2Z.id, compare_spec by (done || lia). cbn [rbind]. by case_bool_decide.
  - rewrite bool_decide_eq_false_2; [done|]. intros Ex. apply E. rewrite Ex, canonical_bytes_length. done.
Qed.

Lemma live_record s g slot e c : retention_wf s g -> rs_entries s !! slot = Some e -> r_used (entry_record e c) = true ->
  record_wf (rs_bytes s) (entry_record e c) (g slot c).
Proof. intros [[_ _ _ _ _ Hrec] _] He Hu. apply Hrec; [apply rec_at_Some; eauto|done]. Qed.

Lemma admit_duplicate_wf s g slot e c : retention_wf s g -> rs_entries s !! slot = Some e -> retention_wf (admit_duplicate s slot e c).2 g.
Proof. intros Hwf He. by apply (wf_update_entry s g slot e). Qed.

(** What [reserve] answers: it refuses malformed requests without effect; a key with a live
    record of the same kind is a duplicate, accepted exactly when the canonical commands
    are equal; otherwise a fresh record is created or the store is left as it was. *)
Lemma reserve_spec s g key packet responses :
  let c := cancel (ev_envelope (pv_envelope packet)) in
  retention_wf s g -> 0 <= responses ->
  match reserve Entries ByteCapacity ack_size s key packet responses with
  | (Ok a, s') =>
      match adm_kind a with
      | DuplicateKind.fresh =>
          exists slot e, rs_entries s !! slot = Some e /\ r_used (entry_record e c) = false /\ adm_token a = mkToken slot (e_generation e) c /\
            (exists e', rs_entries s' = <[slot := e']> (rs_entries s) /\ e_generation e' = e_generation e /\ e_key e' = key /\
               e_expires e' = e_expires e /\ reserved_record (entry_record e' c) responses /\ (forall d, d <> c -> entry_record e' d = entry_record e d)) /\
            retention_wf s' (ghost_set g slot c (canonical_bytes packet, [])) /\
            (forall i f, rs_entries s !! i = Some f -> r_used (entry_record f c) = true -> same_key (e_key f) key = false)
      | kind =>
          exists slot e, rs_entries s !! slot = Some e /\ same_key (e_key e) key = true /\ r_used (entry_record e c) = true /\
            adm_token a = mkToken slot (e_generation e) c /\ (g slot c).1 = canonical_bytes packet /\
            (r_terminal (entry_record e c) = true <-> kind = DuplicateKind.replay) /\
            s' = (admit_duplicate s slot e c).2
      end
  | (Err err, s') => unchanged s s' /\
      (forall i f, rs_entries s !! i = Some f -> r_used (entry_record f c) = true -> same_key (e_key f) key = true ->
         (g i c).1 = canonical_bytes packet -> err = error1 ErrorCode.invalid_argument)
  | (UB, _) => False
  end.
Proof.
  cbv zeta. set (c := cancel _). intros Hwf Hr0. pose proof Hwf as [Hm He]. pose proof He as [Ho Hg Hu]. unfold reserve. fold c. test_goal E1; [done|]. test_goal E2; [done|].
  rewrite !orb_false_iff, !Z.ltb_ge in E1. destruct E1 as [[[[_ _] Hw] Hresp] _].
  assert (Hr : 0 <= responses <= 3) by (destruct c; lia).
  assert (Horig : forall i f, rs_entries s !! i = Some f -> r_used (entry_record f c) = true -> r_used (e_rec0 f) = true).
  { intros i f Hf U. destruct c; [by eapply Ho|done]. }
  assert (Hfresh : forall existing, may_create s key c existing ->
    (forall i f, rs_entries s !! i = Some f -> r_used (entry_record f c) = true -> same_key (e_key f) key = false) ->
    match reserve_fresh Entries ByteCapacity ack_size s key packet responses existing with
    | (Ok a, s') => adm_kind a = DuplicateKind.fresh /\ exists slot e, rs_entries s !! slot = Some e /\ r_used (entry_record e c) = false /\ adm_token a = mkToken slot (e_generation e) c /\
            (exists e', rs_entries s' = <[slot := e']> (rs_entries s) /\ e_generation e' = e_generation e /\ e_key e' = key /\
               e_expires e' = e_expires e /\ reserved_record (entry_record e' c) responses /\ (forall d, d <> c -> entry_record e' d = entry_record e d)) /\
            retention_wf s' (ghost_set g slot c (canonical_bytes packet, []))
    | (Err err, s') => unchanged s s'
    | (UB, _) => False
    end).
  { intros existing Hmay _. pose proof (reserve_fresh_spec s g key packet responses existing Hwf Hw Hr Hmay) as H. fold c in H.
    destruct (reserve_fresh _ _ _ s key packet responses existing) as [[a|err|] s']; try done.
    destruct H as (slot & e & Hs & Hun & -> & He' & Hwf'). split; [done|]. by exists slot, e. }
  destruct (find_key s key) as [i|] eqn:Ek.
  - apply find_key_Some in Ek as (e & Hs & U & Hk). rewrite Hs. cbn [deref attempt].
    assert (Hother : forall j f, rs_entries s !! j = Some f -> r_used (e_rec0 f) = true -> same_key (e_key f) key = true -> j = i).
    { intros j f Hf Uf Hkf. eapply Hu; try done. rewrite same_key_norm in *. congruence. }
    destruct (r_used (entry_record e c)) eqn:Eu; cbn [negb].
    + rewrite (duplicate_of_spec s _ _ packet (live_record s g i e c Hwf Hs Eu)). case_bool_decide as Ecb; cbn [attempt].
      * unfold admit_duplicate. cbn [adm_kind adm_token].
        destruct (r_terminal (entry_record e c)) eqn:Et; exists i, e; rewrite Et; split_and!; done.
      * split; [done|]. intros j f Hf Uf Hkf Hcb. exfalso. apply Ecb. rewrite <- (Hother j f Hf (Horig _ _ Hf Uf) Hkf). done.
    + assert (Hno : forall j f, rs_entries s !! j = Some f -> r_used (entry_record f c) = true -> same_key (e_key f) key = false).
      { intros j f Hf Uf. apply not_true_iff_false. intros Hkf. rewrite (Hother j f Hf (Horig _ _ Hf Uf) Hkf) in Hf. congruence. }
      specialize (Hfresh (Some i) ltac:(by exists e) Hno). destruct (reserve_fresh _ _ _ s key packet responses (Some i)) as [[a|err|] s']; [|split; [done|]|done].
      * destruct Hfresh as (-> & slot & e0 & H0 & H1 & H2 & H3 & H4). by exists slot, e0.
      * intros j f Hf Uf Hkf. by rewrite (Hno j f Hf Uf) in Hkf.
  - assert (Hno : forall j f, rs_entries s !! j = Some f -> r_used (entry_record f c) = true -> same_key (e_key f) key = false).
    { intros j f Hf Uf. eapply find_key_None; eauto. }
    specialize (Hfresh None ltac:(cbn; intros; eapply find_key_None; eauto) Hno). destruct (reserve_fresh _ _ _ s key packet responses None) as [[a|err|] s']; [|split; [done|]|done].
    + destruct Hfresh as (-> & slot & e0 & H0 & H1 & H2 & H3 & H4). by exists slot, e0.
    + intros j f Hf Uf Hkf. by rewrite (Hno j f Hf Uf) in Hkf.
Qed.

Lemma unchanged_refl s : unchanged s s.
Proof. by split. Qed.

Lemma replay_existing_wf s g key packet : retention_wf s g ->
  match replay_existing s key packet with
  | (Ok a, s') => exists slot e, rs_entries s !! slot = Some e /\ same_key (e_key e) key = true /\
      (g slot (cancel (ev_envelope (pv_envelope packet)))).1 = canonical_bytes packet /\
      s' = (admit_duplicate s slot e (cancel (ev_envelope (pv_envelope packet)))).2
  | (Err _, s') => s' = s
  | (UB, _) => False
  end.
Proof.
  intros Hwf. unfold replay_existing. set (c := cancel _). test_goal E1; [done|]. test_goal E2; [done|].
  destruct (find_key s key) as [i|] eqn:Ek; [|done]. apply find_key_Some in Ek as (e & Hs & U & Hk). rewrite Hs. cbn [deref attempt].
  destruct (r_used (entry_record e c)) eqn:Eu; cbn [negb]; [|done].
  rewrite (duplicate_of_spec s _ _ packet (live_record s g i e c Hwf Hs Eu)). case_bool_decide as Ecb; cbn [attempt]; [|done].
  test_goal E3; [done|]. unfold admit_duplicate. by exists i, e.
Qed.
(** ** Runs of the store *)

Inductive RetentionOp :=
  | rop_reserve (key : TransactionKey) (packet : PacketView) (responses : nat)
  | rop_replay (key : TransactionKey) (packet : PacketView)
  | rop_bind (t : RetentionToken) (h : option Handle)
  | rop_append (t : RetentionToken) (a : AckRecord)
  | rop_complete (t : RetentionToken) (now : MonoTime)
  | rop_retain (t : RetentionToken)
  | rop_release (t : RetentionToken)
  | rop_rollback (t : RetentionToken)
  | rop_expire (now : MonoTime).

(** The store a call leaves, whether it succeeds or reports an error. *)
Definition after {A} (r : Result A * RetentionStore) : Result RetentionStore := match r with (UB, _) => UB | (_, s) => Ok s end.

Definition store_step (s : RetentionStore) (op : RetentionOp) : Result RetentionStore :=
  match op with
  | rop_reserve key packet n => after (reserve Entries ByteCapacity ack_size s key packet (Z.of_nat n))
  | rop_replay key packet => after (replay_existing s key packet)
  | rop_bind t h => after (bind s t h)
  | rop_append t a => after (append ack_size s t a)
  | rop_complete t now => after (complete s t now)
  | rop_retain t => after (retain s t)
  | rop_release t => after (release Entries s t)
  | rop_rollback t => after (rollback Entries s t)
  | rop_expire now => expire Entries s now
  end.

(** The abstract store: contents change only when a fresh record is reserved and when a
    response is accepted. *)
Definition ghost_step (s : RetentionStore) (g : ghost) (op : RetentionOp) : ghost :=
  match op with
  | rop_reserve key packet n =>
      match (reserve Entries ByteCapacity ack_size s key packet (Z.of_nat n)).1 with
      | Ok (mkAdmitted t DuplicateKind.fresh) => ghost_set g (tok_slot t) (tok_cancellation t) (canonical_bytes packet, [])
      | _ => g
      end
  | rop_append t a =>
      match (append ack_size s t a).1 with
      | Ok _ => let x := g (tok_slot t) (tok_cancellation t) in ghost_set g (tok_slot t) (tok_cancellation t) (x.1, x.2 ++ [a])
      | _ => g
      end
  | _ => g
  end.

Fixpoint retention_run (s : RetentionStore) (g : ghost) (ops : list RetentionOp) : Result (RetentionStore * ghost) :=
  match ops with
  | [] => Ok (s, g)
  | op :: ops => let? s' := store_step s op in retention_run s' (ghost_step s g op) ops
  end.

(** What can happen to an entry in one call: it stays, and a terminal original stays
    terminal and does not expire earlier; or it is erased, which needs a record that is
    not terminal or an expiry time that has passed. *)
Definition kept (e e' : RetEntry) : Prop :=
  e_generation e' = e_generation e /\
  (r_used (e_rec0 e) = true -> r_used (e_rec0 e') = true /\ (r_terminal (e_rec0 e) = true -> r_terminal (e_rec0 e') = true) /\
     forall limit, limit <= U64_MAX -> limit <= ns (e_expires e) -> limit <= ns (e_expires e')).

Inductive fate (op : RetentionOp) (e e' : RetEntry) : Prop :=
  | fate_kept : kept e e' -> fate op e e'
  | fate_erased : e' = erased e -> r_terminal (e_rec0 e) = false -> fate op e e'
  | fate_expired now : e' = erased e -> op = rop_expire now -> ns (e_expires e) <= ns now -> fate op e e'.

Definition fates (op : RetentionOp) (es es' : list RetEntry) : Prop :=
  forall slot e, es !! slot = Some e -> exists e', es' !! slot = Some e' /\ fate op e e'.

Lemma kept_refl e : kept e e.
Proof. split; [done|]. auto. Qed.

Lemma fates_refl op es : fates op es es.
Proof. intros slot e He. exists e. split; [done|]. apply fate_kept, kept_refl. Qed.

Lemma fates_insert op es slot e e' : es !! slot = Some e -> fate op e e' -> fates op es (<[slot := e']> es).
Proof.
  intros He Hf slot' f Hf'. destruct (decide (slot = slot')) as [<-|Hne].
  - simplify_eq. exists e'. split; [|done]. rewrite list_lookup_insert_eq; [done|]. by eapply lookup_lt_Some.
  - rewrite list_lookup_insert_ne by done. exists f. split; [done|]. apply fate_kept, kept_refl.
Qed.

(** A change that touches neither the original record nor the expiry. *)
Lemma kept_same e e' : e_generation e' = e_generation e -> e_rec0 e' = e_rec0 e -> e_expires e' = e_expires e -> kept e e'.
Proof. intros Hg Hr Hx. split; [done|]. rewrite Hr, Hx. auto. Qed.

Definition step_ok (s : RetentionStore) (g : ghost) (op : RetentionOp) : Prop :=
  exists s', store_step s op = Ok s' /\ retention_wf s' (ghost_step s g op) /\ fates op (rs_entries s) (rs_entries s').

Ltac unchanged_step s := exists s; split_and!; [done|done|apply fates_refl].

Lemma reserve_step s g key packet n : retention_wf s g -> step_ok s g (rop_reserve key packet n).
Proof.
  intros Hwf. pose proof (reserve_spec s g key packet (Z.of_nat n) Hwf ltac:(lia)) as H. unfold step_ok. cbn [store_step ghost_step].
  destruct (reserve _ _ _ s key packet (Z.of_nat n)) as [[[t kind]|err|] s']; cbn [fst after]; [|destruct H as [H _]|done].
  - exists s'. split; [done|]. cbn [adm_kind adm_token] in H. destruct kind.
    + destruct H as (slot & e & Hs & Hun & -> & (e' & -> & Hg & Hk & Hx & Hu & Hd) & Hwf' & _). split; [done|].
      apply (fates_insert _ _ _ e); [done|]. apply fate_kept. split; [done|]. intros U. rewrite Hx. split; [|split; [|auto]].
      * destruct (cancel _) eqn:Ec; [|cbn in Hun; congruence]. specialize (Hd false ltac:(done)). cbn in Hd. by rewrite Hd.
      * destruct (cancel _) eqn:Ec; [|cbn in Hun; congruence]. specialize (Hd false ltac:(done)). cbn in Hd. by rewrite Hd.
    + destruct H as (slot & e & Hs & _ & _ & _ & _ & _ & ->). split; [by apply admit_duplicate_wf|].
      apply (fates_insert _ _ _ e); [done|]. apply fate_kept, kept_same; done.
    + destruct H as (slot & e & Hs & _ & _ & _ & _ & _ & ->). split; [by apply admit_duplicate_wf|].
      apply (fates_insert _ _ _ e); [done|]. apply fate_kept, kept_same; done.
  - exists s'. split; [done|]. split; [by eapply unchanged_wf|]. destruct H as (-> & _). apply fates_refl.
Qed.

Lemma replay_step s g key packet : retention_wf s g -> step_ok s g (rop_replay key packet).
Proof.
  intros Hwf. pose proof (replay_existing_wf s g key packet Hwf) as H. unfold step_ok. cbn [store_step ghost_step].
  destruct (replay_existing s key packet) as [[a|err|] s']; cbn [after]; [|subst; unchanged_step s|done].
  destruct H as (slot & e & Hs & _ & _ & ->). eexists. split; [done|]. split; [by apply admit_duplicate_wf|].
  apply (fates_insert _ _ _ e); [done|]. apply fate_kept, kept_same; done.
Qed.

Lemma append_step s g t a : retention_wf s g -> step_ok s g (rop_append t a).
Proof.
  intros Hwf. pose proof (append_wf s g t a Hwf) as H. unfold step_ok. cbn [store_step ghost_step].
  destruct (append ack_size s t a) as [[[]|err|] s']; cbn [after fst]; [|subst; unchanged_step s|done].
  destruct H as (Hwf' & e & (Hs & _ & _)%entry_Some & e' & Hes & Hg & Hx & _ & Hd). exists s'. split; [done|]. split; [done|]. rewrite Hes.
  apply (fates_insert _ _ _ e); [done|]. apply fate_kept. destruct (Hd false) as [U T]. cbn in U, T. split; [done|]. rewrite U, T, Hx. auto.
Qed.

Lemma bind_step s g t h : retention_wf s g -> step_ok s g (rop_bind t h).
Proof.
  intros Hwf. unfold step_ok. cbn [store_step ghost_step]. unfold bind, with_token. destruct (entry s t) as [e|] eqn:Ee; cbn [after]; [|unchanged_step s].
  test_goal E1; cbn [after]; [unchanged_step s|]. apply orb_false_iff in E1 as [_ E1]. pose proof Ee as (Hs & Hu & _)%entry_Some.
  eexists. split; [done|]. split; [by apply put_record_wf|]. cbn [put_record set_entries rs_entries]. apply (fates_insert _ _ _ e); [done|].
  apply fate_kept. destruct (tok_cancellation t); [by apply kept_same|]. cbn in E1. split; [done|]. intros U. cbn. rewrite E1. split_and!; [done|done|auto].
Qed.

Lemma complete_step s g t now : retention_wf s g -> step_ok s g (rop_complete t now).
Proof.
  intros Hwf. unfold step_ok. cbn [store_step ghost_step]. unfold complete, with_token. destruct (entry s t) as [e|] eqn:Ee; cbn [after]; [|unchanged_step s].
  test_goal E1; cbn [after]; [unchanged_step s|]. apply orb_false_iff in E1 as [_ E1]. pose proof Ee as (Hs & Hu & _)%entry_Some.
  eexists. split; [done|]. cbn [put_record set_entries rs_entries]. split.
  - apply (wf_update_entry s g _ e); try done. intros c. rewrite entry_record_set.
    destruct (Bool.eqb _ c) eqn:E; [apply Bool.eqb_prop in E as <-; done|by destruct c].
  - apply (fates_insert _ _ _ e); [done|]. apply fate_kept. split; [done|]. intros U. split; [by destruct (tok_cancellation t)|]. split; [by destruct (tok_cancellation t)|].
    intros limit Hl1 Hl2. cbn [set_record e_expires]. destruct (deadline now minimum_retention_ns); cbn; try done. destruct (Z.ltb_spec (ns (e_expires e)) (ns a)); lia.
Qed.

Lemma retain_step s g t : retention_wf s g -> step_ok s g (rop_retain t).
Proof.
  intros Hwf. unfold step_ok. cbn [store_step ghost_step]. unfold retain, with_token. destruct (entry s t) as [e|] eqn:Ee; cbn [after]; [|unchanged_step s].
  pose proof Ee as (Hs & Hu & _)%entry_Some. eexists. split; [done|]. split; [by apply (wf_update_entry s g _ e)|].
  apply (fates_insert _ _ _ e); [done|]. by apply fate_kept, kept_same.
Qed.

Lemma release_step s g t : retention_wf s g -> step_ok s g (rop_release t).
Proof.
  intros Hwf. unfold step_ok. cbn [store_step ghost_step]. unfold release, with_token. destruct (entry s t) as [e|] eqn:Ee; cbn [after]; [|unchanged_step s].
  test_goal E1; cbn [after]; [unchanged_step s|]. pose proof (token_original _ _ _ _ Hwf Ee) as U0. pose proof Ee as (Hs & Hu & _)%entry_Some.
  set (e1 := set_references e _). set (s1 := set_entries s _). assert (Hwf1 : retention_wf s1 g) by (by apply (wf_update_entry s g _ e)).
  assert (Hs1 : rs_entries s1 !! tok_slot t = Some e1) by (apply list_lookup_insert_eq; by eapply lookup_lt_Some).
  test_goal E2.
  - destruct (erase_wf s1 g _ e1 Hwf1 Hs1 U0) as (s2 & -> & Hwf2 & Hes). cbn [after]. exists s2. split; [done|]. split; [done|].
    rewrite Hes. cbn [s1 set_entries rs_entries]. rewrite list_insert_insert_eq. apply (fates_insert _ _ _ e); [done|]. apply fate_erased; [done|].
    rewrite !andb_true_iff, !negb_true_iff in E2. apply E2.
  - cbn [after]. exists s1. split; [done|]. split; [done|]. apply (fates_insert _ _ _ e); [done|]. by apply fate_kept, kept_same.
Qed.

Lemma rollback_step s g t : retention_wf s g -> step_ok s g (rop_rollback t).
Proof.
  intros Hwf. unfold step_ok. cbn [store_step ghost_step]. unfold rollback, with_token. destruct (entry s t) as [e|] eqn:Ee; cbn [after]; [|unchanged_step s].
  test_goal E1; cbn [after]; [unchanged_step s|]. test_goal E2; cbn [after]; [unchanged_step s|]. apply orb_false_iff in E2 as [_ Et].
  pose proof (token_original _ _ _ _ Hwf Ee) as U0. pose proof Ee as (Hs & Hu & _)%entry_Some. pose proof Hwf as [Hm He].
  assert (Hlt : (tok_slot t < length (rs_entries s))%nat) by (by eapply lookup_lt_Some).
  destruct (drop_record_spec s g (tok_slot t) (tok_cancellation t) e Hm Hs) as (s1 & -> & Hm1 & Hes1). cbn [attempt].
  rewrite Hes1, list_lookup_insert_eq by done. cbn [deref attempt]. rewrite list_insert_insert_eq. set (e1 := set_references _ _).
  set (s2 := set_entries s1 _).
  assert (Hm2 : memory_wf s2 g).
  { apply memory_wf_shape; [done|rewrite length_insert; by destruct Hm|]. intros slot' c r Hr. rewrite rec_at_insert in Hr by done. rewrite Hes1, rec_at_insert by done.
    case_decide; [|eauto]. injection Hr as <-. eexists. split; [done|]. by destruct c. }
  assert (Hs2 : rs_entries s2 !! tok_slot t = Some e1) by (by apply list_lookup_insert_eq).
  destruct He as [Ho Hgen Huq] eqn:HeE. destruct (Hgen _ _ Hs) as [Hg1 Hg2]. specialize (Hg2 U0).
  destruct (tok_cancellation t) eqn:Ec; cbn [negb after].
  - exists s2. split; [done|]. split.
    + split; [done|]. cbn [s2 set_entries rs_entries]. apply (entries_wf_update _ _ e); done.
    + apply (fates_insert _ _ _ e); [done|]. by apply fate_kept, kept_same.
  - assert (Eg : e_generation e1 = e_generation e) by done. destruct (erase_spec s2 g _ e1 Hm2 Hs2 ltac:(lia)) as (s3 & -> & Hm3 & Hes3). cbn [after].
    exists s3. split; [done|]. rewrite Hes3. cbn [s2 set_entries rs_entries]. rewrite list_insert_insert_eq. split.
    + split; [done|]. rewrite Hes3. cbn [s2 set_entries rs_entries]. rewrite list_insert_insert_eq. change (erased e1) with (erased e). apply erased_wf; [by split|done|done].
    + apply (fates_insert _ _ _ e); [done|]. apply fate_erased; [done|]. done.
Qed.

Lemma expire_loop_spec now n : forall s g i, retention_wf s g -> (i + n)%nat = Entries ->
  exists s', expire_loop Entries s now i n = Ok s' /\ retention_wf s' g /\
    (forall j e, rs_entries s !! j = Some e -> rs_entries s' !! j = Some (if (i <=? j)%nat && expired e now then erased e else e)).
Proof.
  induction n as [|n IH]; intros s g i Hwf Hn; cbn [expire_loop].
  - exists s. split_and!; try done. intros j e Hj. pose proof (lookup_lt_Some _ _ _ Hj). destruct Hwf as [[Hle _ _ _ _ _] _].
    destruct (Nat.leb_spec i j); [lia|done].
  - pose proof Hwf as [[Hle _ _ _ _ _] _]. destruct (lookup_lt_is_Some_2 (rs_entries s) i) as [e Hs]; [lia|]. rewrite Hs. cbn [deref rbind].
    assert (H1 : exists s1, (if expired e now then erase Entries s i else Ok s) = Ok s1 /\ retention_wf s1 g /\
      rs_entries s1 = <[i := if expired e now then erased e else e]> (rs_entries s)).
    { destruct (expired e now) eqn:Ex; [|exists s; split_and!; [done|done|by rewrite list_insert_id]].
      apply erase_wf; [done|done|]. unfold expired in Ex. rewrite !andb_true_iff in Ex. apply Ex. }
    destruct H1 as (s1 & -> & Hwf1 & Hes1). cbn [rbind]. destruct (IH s1 g (S i) Hwf1 ltac:(lia)) as (s' & -> & Hwf' & Hes'). exists s'. split_and!; try done.
    intros j f Hj. destruct (decide (i = j)) as [<-|Hne].
    + simplify_eq. rewrite Nat.leb_refl. rewrite (Hes' i (if expired e now then erased e else e)).
      * by rewrite (proj2 (Nat.leb_gt (S i) i)) by lia.
      * rewrite Hes1. apply list_lookup_insert_eq. lia.
    + rewrite (Hes' j f) by (by rewrite Hes1, list_lookup_insert_ne). f_equal.
      destruct (Nat.leb_spec (S i) j), (Nat.leb_spec i j); (done || lia).
Qed.

Lemma expire_step s g now : retention_wf s g -> step_ok s g (rop_expire now).
Proof.
  intros Hwf. unfold step_ok. cbn [store_step ghost_step]. unfold expire.
  destruct (expire_loop_spec now Entries s g 0 Hwf) as (s' & -> & Hwf' & Hes); [done|]. exists s'. split_and!; try done.
  intros slot e Hs. rewrite (Hes slot e Hs). eexists. split; [done|]. cbn [Nat.leb andb]. destruct (expired e now) eqn:Ex; [|apply fate_kept, kept_refl].
  apply (fate_expired _ _ _ now); [done|done|]. unfold expired in Ex. rewrite !andb_true_iff, Z.leb_le in Ex. apply Ex.
Qed.

(** Every call keeps the invariant, with the contents of the abstract store. *)
Lemma retention_step_ok s g op : retention_wf s g -> step_ok s g op.
Proof.
  intros Hwf. destruct op; [by apply reserve_step|by apply replay_step|by apply bind_step|by apply append_step|by apply complete_step
    |by apply retain_step|by apply release_step|by apply rollback_step|by apply expire_step].
Qed.

Definition no_contents : ghost := fun _ _ => ([], []).

Lemma store_new_wf admission : retention_wf (store_new Entries ByteCapacity admission) no_contents.
Proof.
  assert (Hrec : forall slot c r, rec_at (replicate Entries entry_default) slot c = Some r -> r = record_empty).
  { intros slot c r (e & [-> _]%lookup_replicate & <-)%rec_at_Some. by destruct c. }
  split; [split|split]; cbn [store_new rs_entries rs_bytes rs_occupied].
  - apply length_replicate.
  - unfold zlen. rewrite length_replicate. lia.
  - cbn. lia.
  - apply base.NoDup_nil_2.
  - intros slot c r ->%Hrec. split; [done|by intros []%elem_of_nil].
  - intros slot c r ->%Hrec. done.
  - by intros slot e [-> _]%lookup_replicate.
  - intros slot e [-> _]%lookup_replicate. cbn. split; [unfold_words; lia|done].
  - by intros i j e e' [-> _]%lookup_replicate.
Qed.

Lemma retention_run_wf ops : forall s g, retention_wf s g -> exists s' g', retention_run s g ops = Ok (s', g') /\ retention_wf s' g'.
Proof.
  induction ops as [|op ops IH]; intros s g Hwf; cbn [retention_run]; [by exists s, g|].
  destruct (retention_step_ok s g op Hwf) as (s1 & -> & Hwf1 & _). cbn [rbind]. by apply IH.
Qed.

(** The observable contents of a live record. *)
Lemma live_contents s g t e : retention_wf s g -> entry s t = Some e ->
  canonical s t = Ok (m_byte <$> (g (tok_slot t) (tok_cancellation t)).1) /\
  (forall i : nat, response ack_size s t (Z.of_nat i) = Ok ((g (tok_slot t) (tok_cancellation t)).2 !! i)).
Proof.
  intros Hwf Ee. pose proof Ee as (Hs & Hu & _)%entry_Some. pose proof (live_record s g _ e _ Hwf Hs Hu) as Hrw. pose proof Hrw as [H1 H2 H3 H4 H5 H6 H7 H8].
  destruct Hwf as [Hm He]. destruct (used_extent s g _ _ _ Hm ltac:(apply rec_at_Some; eauto) Hu) as (_ & Ho & Hb). pose proof (mw_bytes s g Hm) as Hlb.
  unfold canonical, response, with_token. rewrite Ee. set (r := entry_record e (tok_cancellation t)) in *. set (x := g (tok_slot t) (tok_cancellation t)) in *.
  assert (Hroom : 0 <= r_response_count r * Z.of_nat ack_size <= r_response_capacity r * Z.of_nat ack_size) by (unfold zlen in H2; nia).
  cbn [fst]. split.
  - rewrite (holds_read _ _ _ (m_byte <$> x.1)); [|done|done|unfold zlen in *; by rewrite length_fmap]. destruct (Z.leb_spec (r_offset r + r_canonical r) (zlen (rs_bytes s))); [done|lia].
  - intros i. rewrite H2. unfold zlen at 1. destruct (Z.leb_spec (Z.of_nat (length x.2)) (Z.of_nat i)) as [Hle|Hlt]; cbn [fst].
    + by rewrite lookup_ge_None_2 by lia.
    + destruct (lookup_lt_is_Some_2 x.2 i) as [a Ha]; [lia|]. rewrite Ha.
      assert (Hi : Z.of_nat i * Z.of_nat ack_size + Z.of_nat ack_size <= r_response_count r * Z.of_nat ack_size) by (unfold zlen in H2; nia).
      assert (Eo : response_offset ack_size r (Z.of_nat i) = r_offset r + r_canonical r + Z.of_nat i * Z.of_nat ack_size) by (apply Z.mod_small; unfold_words; lia).
      rewrite Eo, (holds_read _ _ _ (fragments ack_size a)); [|lia|by apply (response_held _ _ x)|unfold zlen; by rewrite fragments_length].
      destruct (Z.leb_spec (r_offset r + r_canonical r + Z.of_nat i * Z.of_nat ack_size + Z.of_nat ack_size) (zlen (rs_bytes s))); [|lia].
      cbn [rbind]. by rewrite load_fragments.
Qed.

(** A completed original that does not expire before [limit]. *)
Definition retained (t : RetentionToken) (limit : Z) (s : RetentionStore) : Prop :=
  exists e, entry s t = Some e /\ r_terminal (e_rec0 e) = true /\ limit <= ns (e_expires e).

Lemma retained_step s g t limit op s' :
  retention_wf s g -> tok_cancellation t = false -> limit <= U64_MAX -> retained t limit s ->
  (forall now, op = rop_expire now -> ns now < limit) ->
  store_step s op = Ok s' -> retained t limit s'.
Proof.
  intros Hwf Hc Hl (e & (Hs & Hu & Hg)%entry_Some & Ht & Hx) Hop Hstep. rewrite Hc in Hu. cbn in Hu.
  destruct (retention_step_ok s g op Hwf) as (s1 & E1 & _ & Hf). rewrite Hstep in E1. injection E1 as <-.
  destruct (Hf _ _ Hs) as (e' & Hs' & [[Hg' Hk]|E Hnt|now E -> Hlt]).
  - destruct (Hk Hu) as (U' & T' & X'). exists e'. rewrite entry_Some, Hc. cbn. split_and!; auto. congruence.
  - congruence.
  - specialize (Hop now eq_refl). lia.
Qed.

(** The contents of a completed original do not change. *)
Lemma terminal_contents s g t op :
  retention_wf s g -> tok_cancellation t = false ->
  (exists e, entry s t = Some e /\ r_terminal (e_rec0 e) = true) ->
  ghost_step s g op (tok_slot t) false = g (tok_slot t) false.
Proof.
  intros Hwf Hc (e & (Hs & Hu & Hg)%entry_Some & Ht). rewrite Hc in Hu. cbn in Hu. destruct op; try done; cbn [ghost_step].
  - pose proof (reserve_spec s g key packet (Z.of_nat responses) Hwf ltac:(lia)) as H.
    destruct (reserve _ _ _ s key packet (Z.of_nat responses)) as [[[t0 kind]|err|] s']; cbn [fst] in *; try done. destruct kind; try done.
    destruct H as (slot & e0 & Hs0 & Hun & E & _). cbn [adm_token] in E. subst t0. cbn [tok_slot tok_cancellation].
    apply ghost_set_ne. intros [= Es Ec]. rewrite Es in Hs. rewrite <- Ec in Hun. simplify_eq. cbn in Hun. congruence.
  - unfold append, with_token. destruct (entry s t0) as [e0|] eqn:E0; [|done]. apply entry_Some in E0 as (Hs0 & Hu0 & _).
    destruct (decide ((tok_slot t, false) = (tok_slot t0, tok_cancellation t0))) as [E|Hne].
    + injection E as Es Ec. rewrite Es in Hs. rewrite Hs in Hs0. injection Hs0 as <-. rewrite <- Ec. cbn [entry_record]. rewrite Ht, orb_true_r. done.
    + repeat case_match; try done. by apply ghost_set_ne.
Qed.

Lemma retained_run ops t limit : forall s g s' g',
  retention_wf s g -> tok_cancellation t = false -> limit <= U64_MAX -> retained t limit s ->
  (forall now, rop_expire now ∈ ops -> ns now < limit) ->
  retention_run s g ops = Ok (s', g') ->
  retention_wf s' g' /\ retained t limit s' /\ g' (tok_slot t) false = g (tok_slot t) false.
Proof.
  induction ops as [|op ops IH]; intros s g s' g' Hwf Hc Hl Hr Hop; cbn [retention_run]; [by intros [= <- <-]|].
  destruct (retention_step_ok s g op Hwf) as (s1 & E1 & Hwf1 & _). rewrite E1. cbn [rbind]. intros Hrun.
  destruct (IH _ _ s' g' Hwf1 Hc Hl) as (Hwf' & Hr' & Hg'); [|by intros now Hn; apply Hop; right|done|].
  - apply (retained_step s g t limit op s1); try done. intros now ->. apply Hop. by left.
  - split_and!; try done. rewrite Hg'. apply terminal_contents; try done. destruct Hr as (e & ? & ? & _). eauto.
Qed.

Lemma complete_retains s t now s1 : tok_cancellation t = false -> ns now + minimum_retention_ns <= U64_MAX -> 0 <= ns now ->
  complete s t now = (Ok tt, s1) -> retained t (ns now + minimum_retention_ns) s1.
Proof.
  intros Hc Hov Hn0. unfold complete, with_token. destruct (entry s t) as [e|] eqn:Ee; [|done]. test_goal E1; [done|]. intros [= <-].
  apply entry_Some in Ee as (Hs & Hu & Hg). rewrite Hc in *. unfold deadline. destruct (Z.ltb_spec (U64_MAX - ns now) minimum_retention_ns); [lia|].
  eexists. rewrite entry_Some, Hc. cbn [put_record set_entries rs_entries]. rewrite Hc. split_and!.
  - apply list_lookup_insert_eq. by eapply lookup_lt_Some.
  - done.
  - done.
  - done.
  - cbn. unfold wrap64. rewrite Z.mod_small by (unfold_words; unfold minimum_retention_ns in *; lia). destruct (Z.ltb_spec (ns (e_expires e)) (ns now + minimum_retention_ns)); cbn; lia.
Qed.

(** C13. Safety and contents of the store: from an empty store any sequence of calls runs without
    undefined behaviour (no access outside the arrays, no response read where none was
    stored), and a live token always reads back the canonical command it was reserved with
    and the responses appended to it since, in order, whatever happened to other records. *)
Theorem retention_contents admission ops :
  exists s g, retention_run (store_new Entries ByteCapacity admission) no_contents ops = Ok (s, g) /\
    (forall t e, entry s t = Some e ->
       canonical s t = Ok (m_byte <$> (g (tok_slot t) (tok_cancellation t)).1) /\
       (forall i : nat, response ack_size s t (Z.of_nat i) = Ok ((g (tok_slot t) (tok_cancellation t)).2 !! i))).
Proof.
  destruct (retention_run_wf ops (store_new Entries ByteCapacity admission) no_contents) as (s & g & E & Hwf); [apply store_new_wf|].
  exists s, g. split; [done|]. intros t e Hte. by eapply live_contents.
Qed.

(** First fit: in every reachable store the traversal of [reserve] finds the lowest offset at
    which [required] bytes overlap no live record, so that a request is refused for lack of
    space only when no such offset fits in the array. *)
Theorem placement_first_fit admission ops s g required :
  retention_run (store_new Entries ByteCapacity admission) no_contents ops = Ok (s, g) -> 0 < required ->
  let free o := forall slot c r, rec_at (rs_entries s) slot c = Some r -> r_used r = true ->
                  o + required <= r_offset r \/ r_offset r + r_bytes r <= o in
  exists off k p, place (rs_entries s) required (rs_occupied s) 0 0 0 = Ok (off, k, p) /\ 0 <= off /\ free off /\
    (forall o, 0 <= o -> free o -> off <= o).
Proof.
  intros Hrun Hreq. cbv zeta. destruct (retention_run_wf ops _ _ (store_new_wf admission)) as (s0 & g0 & E & [Hm _]).
  rewrite Hrun in E. injection E as <- <-. destruct Hm as [Hle Hlb Hl Hn Hli Hrec].
  destruct (place_spec (rs_entries s) required (rs_occupied s) Hreq Hle 0 0 0 ltac:(lia) Hl) as (off & pre & post & p & -> & _ & Hoff & _ & Hmin & Hgap).
  exists off. do 2 eexists. split; [done|]. split; [lia|]. split.
  - intros slot c r Hr Hu. apply (Hgap slot c r); [|done]. by apply (Hli _ _ _ Hr).
  - intros o Ho Hfree. apply Hmin; [done|]. intros slot c r Hin Hr. apply (Hfree slot c r Hr). by apply (Hli _ _ _ Hr).
Qed.

(** C30. Duplicate detection in every reachable store: a fresh reservation is made only when no
    live record of that kind has the key; a request is answered as a duplicate exactly for
    the live record with the same key and the same canonical command, [replay] if and only
    if that record is complete; and a duplicate is never refused for another reason than an
    invalid request.  Refusals leave the store as it was. *)
Theorem duplicates_detected admission ops s g key packet n :
  retention_run (store_new Entries ByteCapacity admission) no_contents ops = Ok (s, g) ->
  let c := cancel (ev_envelope (pv_envelope packet)) in
  let same t e := entry s t = Some e /\ tok_cancellation t = c /\ same_key (e_key e) key = true in
  match reserve Entries ByteCapacity ack_size s key packet (Z.of_nat n) with
  | (Ok a, _) =>
      if bool_decide (adm_kind a = DuplicateKind.fresh) then forall t e, ~ same t e
      else exists e, same (adm_token a) e /\ canonical s (adm_token a) = Ok (m_byte <$> canonical_bytes packet) /\
             terminal s (adm_token a) = Ok (bool_decide (adm_kind a = DuplicateKind.replay))
  | (Err err, s') => unchanged s s' /\
      (forall t e, same t e -> canonical s t = Ok (m_byte <$> canonical_bytes packet) -> err = error1 ErrorCode.invalid_argument)
  | (UB, _) => False
  end.
Proof.
  intros Hrun. cbv zeta. destruct (retention_run_wf ops _ _ (store_new_wf admission)) as (s0 & g0 & E & Hwf).
  rewrite Hrun in E. injection E as <- <-. set (c := cancel _).
  pose proof (reserve_spec s g key packet (Z.of_nat n) Hwf ltac:(lia)) as H. fold c in H.
  destruct (reserve _ _ _ s key packet (Z.of_nat n)) as [[a|err|] s']; [| |done].
  - assert (Hdup : forall slot e, rs_entries s !! slot = Some e -> same_key (e_key e) key = true -> r_used (entry_record e c) = true ->
      adm_token a = mkToken slot (e_generation e) c -> (g slot c).1 = canonical_bytes packet ->
      (r_terminal (entry_record e c) = true <-> adm_kind a = DuplicateKind.replay) ->
      exists e, (entry s (adm_token a) = Some e /\ tok_cancellation (adm_token a) = c /\ same_key (e_key e) key = true) /\
        canonical s (adm_token a) = Ok (m_byte <$> canonical_bytes packet) /\ terminal s (adm_token a) = Ok (bool_decide (adm_kind a = DuplicateKind.replay))).
    { intros slot e Hs Hk Hu Et Hcb Hterm. exists e. rewrite Et.
      assert (Hen : entry s (mkToken slot (e_generation e) c) = Some e) by (by apply entry_Some). split; [done|].
      destruct (live_contents s g _ e Hwf Hen) as [Hcan _]. cbn [tok_slot tok_cancellation] in Hcan. rewrite Hcb in Hcan. split; [done|].
      unfold terminal, with_token. rewrite Hen. cbn [fst tok_cancellation]. f_equal.
      destruct (r_terminal (entry_record e c)); symmetry; [apply bool_decide_eq_true_2; tauto|apply bool_decide_eq_false_2; intros F; by apply Hterm in F]. }
    destruct (decide (adm_kind a = DuplicateKind.fresh)) as [Ek|Ek]; [rewrite (bool_decide_eq_true_2 (adm_kind a = _)) by done|rewrite (bool_decide_eq_false_2 (adm_kind a = DuplicateKind.fresh)) by done].
    + rewrite Ek in H. destruct H as (slot0 & e0 & _ & _ & _ & _ & _ & Hno). intros t e ((Hs & Hu & _)%entry_Some & Ec & Hk). rewrite Ec in Hu. by rewrite (Hno _ _ Hs Hu) in Hk.
    + destruct (adm_kind a); [done|..]; destruct H as (slot & e & Hs & Hk & Hu & Et & Hcb & Hterm & _); by apply (Hdup slot e).
  - destruct H as [Hun Hdup]. split; [done|]. intros t e (Hen & Ec & Hk) Hcan. pose proof Hen as (Hs & Hu & _)%entry_Some. rewrite Ec in Hu.
    apply (Hdup _ _ Hs Hu Hk). destruct (live_contents s g t e Hwf Hen) as [Hcan' _]. rewrite Hcan' in Hcan. injection Hcan as Hcan. rewrite Ec in Hcan.
    by apply (inj (fmap (M := list) m_byte)) in Hcan.
Qed.

(** The retention period: once an original is completed at time [now], its token stays live
    and terminal, and replays the same responses, through any further calls, as long as no
    expiry is run at or after [now] plus thirty seconds. *)
Theorem retention_period admission ops s g t now s1 ops' :
  retention_run (store_new Entries ByteCapacity admission) no_contents ops = Ok (s, g) ->
  tok_cancellation t = false -> 0 <= ns now -> ns now + minimum_retention_ns <= U64_MAX ->
  complete s t now = (Ok tt, s1) ->
  (forall now', rop_expire now' ∈ ops' -> ns now' < ns now + minimum_retention_ns) ->
  exists s2 g2, retention_run s1 g ops' = Ok (s2, g2) /\ terminal s2 t = Ok true /\ canonical s2 t = canonical s t /\
    (forall i : nat, response ack_size s2 t (Z.of_nat i) = response ack_size s t (Z.of_nat i)).
Proof.
  intros Hrun Hc Hn0 Hov Hcomp Hexp. destruct (retention_run_wf ops _ _ (store_new_wf admission)) as (s0 & g0 & E & Hwf).
  rewrite Hrun in E. injection E as <- <-. pose proof (complete_retains s t now s1 Hc Hov Hn0 Hcomp) as Hret.
  destruct (retention_step_ok s g (rop_complete t now) Hwf) as (s1' & E1 & Hwf1 & _). cbn [store_step ghost_step] in E1, Hwf1. rewrite Hcomp in E1. injection E1 as <-.
  destruct (retention_run_wf ops' s1 g Hwf1) as (s2 & g2 & E2 & Hwf2). exists s2, g2. split; [done|].
  destruct (retained_run ops' t _ _ _ _ _ Hwf1 Hc Hov Hret Hexp E2) as (_ & (e2 & He2 & Ht2 & _) & Hg2).
  assert (Hen : exists e, entry s t = Some e) by (revert Hcomp; unfold complete, with_token; destruct (entry s t); [eauto|done]). destruct Hen as [e He].
  destruct (live_contents s g t e Hwf He) as [Hc1 Hr1]. destruct (live_contents s2 g2 t e2 Hwf2 He2) as [Hc2 Hr2].
  rewrite Hc in Hc1, Hr1, Hc2, Hr2. rewrite Hg2 in Hc2, Hr2. split; [|split].
  - unfold terminal, with_token. rewrite He2, Hc. cbn. by rewrite Ht2.
  - congruence.
  - intros i. by rewrite Hr1, Hr2.
Qed.
End proofs.

(** ** Witnesses *)

Definition sample_wire : list byte := [x61; x03; x00; x05; x00; x00; x00; x07].
Definition sample_command (cancellation : bool) : PacketView :=
  mkPacketView
    (mkEnvelopeView
       (mkEnvelope PacketType.command 3 (Some 7) None (mkTimestamp 0 0 0 0) false false false false false cancellation
          (Some (mkCommand 0 5 Identifier_default Identifier_default))) [] None 4 sample_wire)
    [] BodyKind.values false false false.
Definition sample_key : TransactionKey := mkTransactionKey 1 (mkPeer 1 1) (Some 7) Identifier_default Identifier_default 5.
Definition sample_ack : AckRecord :=
  mkAck (ev_envelope (pv_envelope (sample_command false))) cam_default AckKind.execution [] state_default 0
    false true false false 0 (mkTime 0 0) 0 false None.
Definition sample_token : RetentionToken := mkToken 0 1 false.
Definition sample_ops : list RetentionOp :=
  [rop_reserve sample_key (sample_command false) 3; rop_bind sample_token None; rop_append sample_token sample_ack].
Definition sample_caps : AdmissionState := pool_new reference_capacities.

Lemma retention_contents_witness :
  exists s g, retention_run 2 200 16 (store_new 2 200 sample_caps) no_contents sample_ops = Ok (s, g) /\
    response 16 s sample_token 0 = Ok (Some sample_ack).
Proof.
  destruct (retention_contents 2 200 16 ltac:(vm_compute; discriminate) ltac:(vm_compute; split; [reflexivity|discriminate]) ltac:(lia) sample_caps sample_ops)
    as (s & g & E & H).
  exists s, g. split; [exact E|]. vm_compute in E. injection E as <- <-.
  destruct (H sample_token _ ltac:(vm_compute; reflexivity)) as [_ Hr].
  etransitivity; [exact (Hr 0%nat)|]. vm_compute. reflexivity.
Defined.

Lemma duplicates_detected_witness :
  exists s g a s', retention_run 2 200 16 (store_new 2 200 sample_caps) no_contents sample_ops = Ok (s, g) /\
    reserve 2 200 16 s sample_key (sample_command false) 3 = (Ok a, s') /\
    adm_kind a = DuplicateKind.active /\ canonical s (adm_token a) = Ok (m_byte <$> canonical_bytes (sample_command false)).
Proof.
  destruct (retention_run 2 200 16 (store_new 2 200 sample_caps) no_contents sample_ops) as [[s g]|e|] eqn:E; [|vm_compute in E; discriminate E..].
  pose proof (duplicates_detected 2 200 16 ltac:(vm_compute; discriminate) ltac:(vm_compute; split; [reflexivity|discriminate]) ltac:(lia) sample_caps
    sample_ops s g sample_key (sample_command false) 3 E) as H.
  cbv zeta in H. destruct (reserve 2 200 16 s sample_key (sample_command false) (Z.of_nat 3)) as [[a|e|] s'] eqn:Er.
  - exists s, g, a, s'. split; [reflexivity|]. split; [exact Er|].
    assert (Hk : adm_kind a = DuplicateKind.active).
    { vm_compute in E. injection E as <- <-. vm_compute in Er. injection Er as <- _. reflexivity. }
    split; [exact Hk|]. rewrite Hk in H. destruct H as (e & _ & Hc & _). exact Hc.
  - exfalso. vm_compute in E. injection E as <- <-. vm_compute in Er. discriminate Er.
  - exfalso. exact H.
Defined.

Lemma retention_period_witness :
  exists s g s1 s2 g2,
    retention_run 2 200 16 (store_new 2 200 sample_caps) no_contents sample_ops = Ok (s, g) /\
    complete s sample_token (mkMono 1000) = (Ok tt, s1) /\
    retention_run 2 200 16 s1 g [rop_release sample_token; rop_expire (mkMono 30000000999)] = Ok (s2, g2) /\ terminal s2 sample_token = Ok true.
Proof.
  destruct (retention_run 2 200 16 (store_new 2 200 sample_caps) no_contents sample_ops) as [[s g]|e|] eqn:E; [|vm_compute in E; discriminate E..].
  destruct (complete s sample_token (mkMono 1000)) as [[[]|e|] s1] eqn:Ec.
  - destruct (retention_period 2 200 16 ltac:(vm_compute; discriminate) ltac:(vm_compute; split; [reflexivity|discriminate]) ltac:(lia) sample_caps
      sample_ops s g sample_token (mkMono 1000) s1 [rop_release sample_token; rop_expire (mkMono 30000000999)] E) as (s2 & g2 & E2 & Ht & _).
    + reflexivity.
    + vm_compute. discriminate.
    + vm_compute. discriminate.
    + exact Ec.
    + intros now' Hin. apply elem_of_cons in Hin as [F|Hin]; [discriminate F|]. apply elem_of_cons in Hin as [F|Hin]; [injection F as ->; vm_compute; reflexivity|].
      by apply elem_of_nil in Hin.
    + exists s, g, s1, s2, g2. exact (conj eq_refl (conj Ec (conj E2 Ht))).
  - exfalso. vm_compute in E. injection E as <- <-. vm_compute in Ec. discriminate Ec.
  - exfalso. vm_compute in E. injection E as <- <-. vm_compute in Ec. discriminate Ec.
Defined.

Lemma placement_first_fit_witness :
  exists s g off k p, retention_run 2 200 16 (store_new 2 200 sample_caps) no_contents sample_ops = Ok (s, g) /\
    place (rs_entries s) 10 (rs_occupied s) 0 0 0 = Ok (off, k, p) /\ 0 <= off.
Proof.
  destruct (retention_run 2 200 16 (store_new 2 200 sample_caps) no_contents sample_ops) as [[s g]|e|] eqn:E; [|vm_compute in E; discriminate E..].
  destruct (placement_first_fit 2 200 16 ltac:(vm_compute; discriminate) ltac:(vm_compute; split; [reflexivity|discriminate]) ltac:(lia) sample_caps
    sample_ops s g 10 E ltac:(lia)) as (off & k & p & Hp & Ho & _).
  exists s, g, off, k, p. exact (conj eq_refl (conj Hp Ho)).
Defined.
