(* ===== verification/RetentionFrames.v ===== *)
(** * What calls of the retention store leave alone

    A record that is bound to a running transaction is not disturbed by any call that does
    not name it: it keeps its place, its handle and its contents, whatever is reserved,
    replayed, released, rolled back or expired around it. *)

From S2P Require Import Engine Prelude Wire WireProofs Fields Time Clock Admission Structured Packet Routing State Cam Observer Retention RetentionProofs.

Section frames.
Context (Entries : nat) (ByteCapacity : Z) (ack_size : nat).
Context (Hentries : Z.of_nat Entries <= 2147483647) (Hcapacity : 0 < ByteCapacity <= SIZE_MAX) (Hack : (0 < ack_size)%nat).
#[local] Abbreviation retention_wf := (retention_wf Entries ByteCapacity ack_size).
#[local] Abbreviation store_step := (store_step Entries ByteCapacity ack_size).
#[local] Abbreviation ghost_step := (ghost_step Entries ByteCapacity ack_size).
#[local] Abbreviation ghost := (RetentionProofs.ghost).

Lemma live_entry s t e : entry s t = Some e <->
  rs_entries s !! tok_slot t = Some e /\ r_used (entry_record e (tok_cancellation t)) = true /\ e_generation e = tok_generation t.
Proof. exact (entry_Some ByteCapacity Hcapacity s t e). Qed.

(** The entries after a release and after a rollback. *)
Lemma release_entries s g t s' : retention_wf s g -> store_step s (rop_release t) = Ok s' ->
  rs_entries s' = rs_entries s \/
  exists e, entry s t = Some e /\
    (rs_entries s' = <[tok_slot t := set_references e (wrap64 (e_references e - 1))]> (rs_entries s) \/
     r_active (e_rec0 e) = false /\ r_terminal (e_rec0 e) = false /\ rs_entries s' = <[tok_slot t := erased e]> (rs_entries s)).
Proof.
  intros Hwf Hst. cbn [RetentionProofs.store_step] in Hst. unfold release, with_token in Hst. destruct (entry s t) as [e|] eqn:Ee; cbn [after] in Hst; [|injection Hst as <-; by left].
  pose proof (token_original _ _ _ Hcapacity _ _ _ _ Hwf Ee) as U0. apply live_entry in Ee as Hl. destruct Hl as (Hs & _).
  destruct (e_references e =? 0); cbn [after] in Hst; [injection Hst as <-; by left|]. right. exists e. split; [done|].
  set (s1 := set_entries s _) in *. assert (H1 : retention_wf s1 g) by (by apply (wf_update_entry _ _ _ Hack s g _ e)).
  assert (Hs1 : rs_entries s1 !! tok_slot t = Some (set_references e (wrap64 (e_references e - 1)))) by (apply list_lookup_insert_eq; by eapply lookup_lt_Some).
  destruct (_ && _ && _) eqn:Eb; cbn [after] in Hst; [right|injection Hst as <-; by left].
  destruct (erase_wf _ _ _ Hentries Hcapacity Hack s1 g _ _ H1 Hs1 U0) as (s2 & E2 & _ & Es2). rewrite E2 in Hst. cbn [after] in Hst. injection Hst as <-.
  rewrite !andb_true_iff, !negb_true_iff in Eb. destruct Eb as [[_ E1] E3]. split_and!; [done|done|]. rewrite Es2. cbn [s1 set_entries rs_entries]. by rewrite list_insert_insert_eq.
Qed.

Lemma rollback_entries s g t s' : retention_wf s g -> store_step s (rop_rollback t) = Ok s' ->
  rs_entries s' = rs_entries s \/
  exists e, entry s t = Some e /\ r_active (entry_record e (tok_cancellation t)) = false /\ r_terminal (entry_record e (tok_cancellation t)) = false /\
    rs_entries s' = <[tok_slot t := if tok_cancellation t then set_references (set_record e true record_empty) (wrap64 (e_references e - 1)) else erased e]> (rs_entries s).
Proof.
  intros Hwf Hst. cbn [RetentionProofs.store_step] in Hst. unfold rollback, with_token in Hst. destruct (entry s t) as [e|] eqn:Ee; cbn [after] in Hst; [|injection Hst as <-; by left].
  pose proof (token_original _ _ _ Hcapacity _ _ _ _ Hwf Ee) as U0. apply live_entry in Ee as Hl. destruct Hl as (Hs & _).
  destruct (e_references e =? 0); cbn [after] in Hst; [injection Hst as <-; by left|]. destruct (_ || _) eqn:Eb; cbn [after] in Hst; [injection Hst as <-; by left|].
  apply orb_false_iff in Eb as [Ea Et]. right. exists e. split_and!; [done|done|done|]. pose proof Hwf as [Hm He].
  assert (Hlt : (tok_slot t < length (rs_entries s))%nat) by (by eapply lookup_lt_Some). revert Hst.
  destruct (drop_record_spec _ _ _ Hentries Hcapacity Hack s g (tok_slot t) (tok_cancellation t) e Hm Hs) as (s1 & -> & Hm1 & Es1). cbn [attempt].
  rewrite Es1, list_lookup_insert_eq by done. cbn [deref attempt]. rewrite list_insert_insert_eq. set (e1 := set_references _ _). set (s2 := set_entries s1 _).
  destruct (tok_cancellation t) eqn:Ec; cbn [negb after]; [by intros [= <-]|].
  assert (Hm2 : memory_wf Entries ByteCapacity ack_size s2 g).
  { apply (memory_wf_shape _ _ _ Hack); [done|rewrite length_insert; by destruct Hm|]. intros slot' c r Hr. rewrite rec_at_insert in Hr by done. rewrite Es1, rec_at_insert by done.
    case_decide; [|eauto]. injection Hr as <-. eexists. split; [done|]. by destruct c. }
  assert (Hs2 : rs_entries s2 !! tok_slot t = Some e1) by (by apply list_lookup_insert_eq). destruct He as [_ Hgen _]. destruct (Hgen _ _ Hs) as [Hg1 Hg2]. specialize (Hg2 U0).
  destruct (erase_spec _ _ _ Hentries Hcapacity Hack s2 g _ e1 Hm2 Hs2 ltac:(change (e_generation e1) with (e_generation e); lia)) as (s3 & -> & _ & Es3). cbn [after]. intros [= <-].
  rewrite Es3. cbn [s2 set_entries rs_entries]. by rewrite list_insert_insert_eq.
Qed.

(** The command of the entry has been bound. *)
Definition bound_entry (e : RetEntry) : bool := r_active (e_rec0 e) || r_terminal (e_rec0 e).

(** The record of the token is in use for a transaction. *)
Record holding (s : RetentionStore) (t : RetentionToken) (capacity : Z) (h : option Handle) (e : RetEntry) : Prop := mk_holding {
  ho_entry : entry s t = Some e;
  ho_active : r_active (entry_record e (tok_cancellation t)) = true;
  ho_open : r_terminal (entry_record e (tok_cancellation t)) = false;
  ho_capacity : r_response_capacity (entry_record e (tok_cancellation t)) = capacity;
  ho_handle : r_engine (entry_record e (tok_cancellation t)) = h;
  ho_bound : bound_entry e = true }.

(** One entry changes: the others keep their records; it keeps this one. *)
Lemma holding_insert s s' t cap h e k f f' : holding s t cap h e -> rs_entries s !! k = Some f -> rs_entries s' = <[k := f']> (rs_entries s) ->
  (k = tok_slot t -> e_generation f' = e_generation f /\ entry_record f' (tok_cancellation t) = entry_record f (tok_cancellation t) /\ bound_entry f' = true) ->
  exists e', holding s' t cap h e'.
Proof.
  intros [(Hs & Hu & Hg)%live_entry Ha Ho Hc Hh Hb] Hf Es Hk. destruct (decide (k = tok_slot t)) as [->|Hne].
  - rewrite Hs in Hf. injection Hf as <-. destruct (Hk eq_refl) as (Hg' & Er & Hb'). exists f'. split; rewrite ?Er; try done.
    apply live_entry. rewrite Es, list_lookup_insert_eq, Er by (by eapply lookup_lt_Some). split_and!; congruence.
  - exists e. split; try done. apply live_entry. by rewrite Es, list_lookup_insert_ne.
Qed.
Lemma holding_same s s' t cap h e : holding s t cap h e -> rs_entries s' = rs_entries s -> exists e', holding s' t cap h e'.
Proof. intros [] Es. exists e. split; try done. unfold entry. rewrite Es. exact ho_entry0. Qed.

(** The same token: the slot, the kind and, for a live one, the generation agree. *)
Lemma same_token s t t' e e' : entry s t = Some e -> entry s t' = Some e' -> tok_slot t' = tok_slot t -> tok_cancellation t' = tok_cancellation t -> t' = t.
Proof.
  intros (Hs & _ & Hg)%live_entry (Hs' & _ & Hg')%live_entry Es Ec. rewrite Es, Hs in Hs'. injection Hs' as <-. destruct t, t'; cbn in *. congruence.
Qed.

Lemma holding_admit s t cap h e k f c : holding s t cap h e -> rs_entries s !! k = Some f -> exists e', holding (admit_duplicate s k f c).2 t cap h e'.
Proof.
  intros H Hf. eapply holding_insert; [exact H|exact Hf|done|]. intros ->. destruct H as [(Hs & _)%live_entry _ _ _ _ Hb]. rewrite Hs in Hf. injection Hf as <-. done.
Qed.

(** The record of another token of the same entry. *)
Lemma holding_put s s' t t' cap h e f r x n : holding s t cap h e -> entry s t' = Some f -> t' <> t ->
  rs_entries s' = <[tok_slot t' := set_record (mkEntry (e_generation f) (e_key f) (e_rec0 f) (e_rec1 f) n x) (tok_cancellation t') r]> (rs_entries s) ->
  (tok_cancellation t' = false -> bound_entry f = true -> r_active r || r_terminal r = true) ->
  exists e', holding s' t cap h e'.
Proof.
  intros H Hf Hne Es Hr. pose proof Hf as (Hs & _)%live_entry. eapply holding_insert; [exact H|exact Hs|exact Es|]. intros Ek. split; [done|].
  assert (Hc : tok_cancellation t' <> tok_cancellation t) by (intros Ec; apply Hne; by eapply (same_token s); [apply H|..]).
  destruct H as [(Hs' & _)%live_entry _ _ _ _ Hb]. rewrite <- Ek, Hs in Hs'. injection Hs' as <-. unfold bound_entry in *.
  destruct (tok_cancellation t'), (tok_cancellation t); try done; cbn in *; auto.
Qed.

(** A call that neither appends to the record nor completes it. *)
Definition spares (t : RetentionToken) (op : RetentionOp) : Prop :=
  (forall a, op <> rop_append t a) /\ (forall now, op <> rop_complete t now).

Lemma entry_eta e : mkEntry (e_generation e) (e_key e) (e_rec0 e) (e_rec1 e) (e_references e) (e_expires e) = e.
Proof. by destruct e. Qed.

Lemma reserve_frame s g t cap h e key packet n s' : retention_wf s g -> holding s t cap h e -> store_step s (rop_reserve key packet n) = Ok s' ->
  (exists e', holding s' t cap h e') /\ ghost_step s g (rop_reserve key packet n) (tok_slot t) (tok_cancellation t) = g (tok_slot t) (tok_cancellation t).
Proof.
  intros Hwf H. pose proof (reserve_spec Entries ByteCapacity ack_size Hentries Hcapacity Hack s g key packet (Z.of_nat n) Hwf ltac:(lia)) as Hr. cbn [RetentionProofs.store_step RetentionProofs.ghost_step].
  destruct (reserve _ _ _ s key packet (Z.of_nat n)) as [[[t0 kind]|err|] s1]; cbn [after fst]; [|destruct Hr as [(Es & _) _]|done].
  2: { intros [= <-]. split; [by eapply holding_same|done]. }
  intros [= <-]. cbn [adm_kind adm_token] in Hr. destruct kind.
  2, 3: destruct Hr as (k & f & Hf & _ & _ & _ & _ & _ & ->); split; [by eapply holding_admit|done].
  destruct Hr as (k & f & Hf & Hun & -> & (f' & Es & Hg & _ & _ & _ & Hd) & _). cbn [tok_slot tok_cancellation].
  pose proof H as [(Hs & Hu & _)%live_entry _ _ _ _ Hb]. set (c := cancel (ev_envelope (pv_envelope packet))) in *.
  assert (Hne : k = tok_slot t -> tok_cancellation t <> c) by (intros Ek Ec; rewrite Ek, Hs in Hf; injection Hf as <-; congruence). split.
  - eapply holding_insert; [exact H|exact Hf|exact Es|]. intros Ek. specialize (Hne Ek). rewrite Ek, Hs in Hf. injection Hf as <-. split; [done|]. rewrite Hd by done. split; [done|].
    change (bound_entry f') with (r_active (entry_record f' false) || r_terminal (entry_record f' false)). rewrite Hd; [exact Hb|].
    intros Ec. rewrite <- Ec in Hun, Hne. destruct (tok_cancellation t); [|done]. destruct Hwf as [_ [Ho _ _]]. cbn in Hun, Hu. by rewrite (Ho _ _ Hs Hu) in Hun.
  - apply ghost_set_ne. intros [= Ek Ec]. by apply Hne.
Qed.

Lemma holding_step s g t cap h e op s' : retention_wf s g -> holding s t cap h e -> spares t op -> store_step s op = Ok s' ->
  (exists e', holding s' t cap h e') /\ ghost_step s g op (tok_slot t) (tok_cancellation t) = g (tok_slot t) (tok_cancellation t).
Proof.
  intros Hwf H [Happ Hcom] Hst. destruct op as [key packet n|key packet|t0 h0|t0 a|t0 now|t0|t0|t0|now]; [by eapply reserve_frame|..]; cbn [RetentionProofs.store_step RetentionProofs.ghost_step] in *.
  - split; [|done]. pose proof (replay_existing_wf Entries ByteCapacity ack_size Hack s g key packet Hwf) as Hr.
    destruct (replay_existing s key packet) as [[a|err|] s1]; cbn [after] in Hst; [|injection Hst as <-; subst; eauto|done]. injection Hst as <-.
    destruct Hr as (k & f & Hf & _ & _ & ->). by eapply holding_admit.
  - split; [|done]. unfold bind, with_token in Hst. destruct (entry s t0) as [f|] eqn:Ef; cbn [after] in Hst; [|injection Hst as <-; eauto].
    destruct (_ || _) eqn:Eb; cbn [after] in Hst; injection Hst as <-; [eauto|]. eapply holding_put; [exact H|exact Ef| |cbn; by rewrite entry_eta|done].
    intros ->. destruct H as [He Ha _ _ _ _]. rewrite He in Ef. injection Ef as <-. by rewrite Ha in Eb.
  - unfold append, with_token in *. destruct (entry s t0) as [f|] eqn:Ef; cbn [after fst] in *; [|injection Hst as <-; eauto].
    destruct (negb _ || _ || _) eqn:Eb; cbn [after fst] in *; [injection Hst as <-; eauto|]. destruct (_ =? _); cbn [after fst] in *; [injection Hst as <-; eauto|].
    destruct (mem_write _ _ _) as [bytes| |]; cbn [attempt after fst] in *; [|injection Hst as <-; eauto|done]. injection Hst as <-.
    assert (Hne : t0 <> t) by (intros ->; by apply (Happ a)). split.
    + eapply holding_put; [exact H|exact Ef|exact Hne|cbn; by rewrite entry_eta|].
      intros _ _. cbn [r_active r_terminal]. rewrite !orb_false_iff, negb_false_iff in Eb. destruct Eb as [[Eb _] _]. rewrite Eb. done.
    + apply ghost_set_ne. intros [= Ek Ec]. apply Hne. by eapply (same_token s); [apply H|..].
  - split; [|done]. unfold complete, with_token in Hst. destruct (entry s t0) as [f|] eqn:Ef; cbn [after] in Hst; [|injection Hst as <-; eauto].
    destruct (_ || _) eqn:Eb; cbn [after] in Hst; injection Hst as <-; [eauto|]. eapply holding_put; [exact H|exact Ef|by intros ->; apply (Hcom now)|done|done].
  - split; [|done]. unfold retain, with_token in Hst. destruct (entry s t0) as [f|] eqn:Ef; cbn [after] in Hst; injection Hst as <-; [|eauto].
    apply live_entry in Ef as (Hf & _). eapply holding_insert; [exact H|exact Hf|done|]. intros Ek. destruct H as [(Hs & _)%live_entry _ _ _ _ Hb]. rewrite Ek, Hs in Hf. by injection Hf as <-.
  - split; [|done]. destruct (release_entries s g t0 s' Hwf Hst) as [Es|(f & (Hf & _)%live_entry & [Es|(Ea & Et & Es)])]; [by eapply holding_same|..].
    + eapply holding_insert; [exact H|exact Hf|exact Es|]. intros Ek. destruct H as [(Hs & _)%live_entry _ _ _ _ Hb]. rewrite Ek, Hs in Hf. by injection Hf as <-.
    + eapply holding_insert; [exact H|exact Hf|exact Es|]. intros Ek. destruct H as [(Hs & _)%live_entry _ _ _ _ Hb]. rewrite Ek, Hs in Hf. injection Hf as <-.
      exfalso. unfold bound_entry in Hb. by rewrite Ea, Et in Hb.
  - split; [|done]. destruct (rollback_entries s g t0 s' Hwf Hst) as [Es|(f & Ef & Ea & Et & Es)]; [by eapply holding_same|]. apply live_entry in Ef as Hl. destruct Hl as (Hf & _).
    eapply holding_insert; [exact H|exact Hf|exact Es|]. intros Ek. destruct H as [He Ha _ _ _ Hb]. apply live_entry in He as Hl. destruct Hl as (Hs & _). rewrite Ek, Hs in Hf. injection Hf as <-.
    destruct (tok_cancellation t0) eqn:Ec0, (tok_cancellation t) eqn:Ec; cbn in Ea, Et, Ha; try congruence; [done|]. exfalso. unfold bound_entry in Hb. by rewrite Ea, Et in Hb.
  - split; [|done]. destruct (expire_loop_spec Entries ByteCapacity ack_size Hentries Hcapacity Hack now Entries s g 0 Hwf) as (s1 & E1 & _ & Hes); [done|]. unfold expire in Hst. rewrite E1 in Hst. injection Hst as <-.
    pose proof H as [(Hs & Hu & Hg)%live_entry Ha Ho Hc Hh Hb]. assert (Hx : expired e now = false).
    { unfold expired. destruct (tok_cancellation t); cbn in Hu, Ho; rewrite ?Hu, ?Ho; cbn; by rewrite ?andb_false_r. }
    exists e. split; try done. apply live_entry. rewrite (Hes _ _ Hs), Hx, andb_false_r. done.
Qed.

(** A command that was just reserved can be bound. *)
Lemma bind_holding s t cap h e : entry s t = Some e -> tok_cancellation t = false -> reserved_record (e_rec0 e) cap ->
  exists s' e', bind s t h = (Ok tt, s') /\ holding s' t cap h e'.
Proof.
  intros He Hc (Hu & Ha & Ht & Hcap). unfold bind, with_token. rewrite He, Hc. cbn [entry_record]. rewrite Ha, Ht. cbn [orb]. set (r := mkRecord _ _ _ _ _ _ _ _ _ _). exists (put_record s t e r), (set_record e false r). split; [done|].
  pose proof He as (Hs & _ & Hg)%live_entry. split; rewrite ?Hc; try done. apply live_entry. unfold put_record. cbn [set_entries rs_entries]. rewrite Hc.
  rewrite list_lookup_insert_eq by (by eapply lookup_lt_Some). by split_and!.
Qed.

Lemma append_holding s g t cap h e a : retention_wf s g -> holding s t cap h e -> zlen (g (tok_slot t) (tok_cancellation t)).2 < cap ->
  ak_cancellation a = tok_cancellation t -> exists s' e', append ack_size s t a = (Ok tt, s') /\ holding s' t cap h e'.
Proof.
  intros Hwf H Hlen Hak. pose proof (append_wf Entries ByteCapacity ack_size Hentries Hcapacity Hack s g t a Hwf) as Hw.
  destruct H as [He Ha Ho Hcap Hh Hb]. pose proof He as (Hs & Hu & Hg)%live_entry. pose proof (live_record _ _ _ s g _ _ _ Hwf Hs Hu) as Hr.
  unfold append, with_token in *. rewrite He, Ha, Ho, Hak, eqb_reflx in *. cbn [negb orb] in *. rewrite (rw_count _ _ _ _ Hr), Hcap in *.
  destruct (Z.eqb_spec (zlen (g (tok_slot t) (tok_cancellation t)).2) cap); [lia|]. unfold mem_write in *. destruct (_ && _); cbn [attempt] in *; [|done].
  do 2 eexists. split; [reflexivity|]. unfold put_record. cbn [set_entries rs_entries]. split; cbn [rs_entries].
  - apply live_entry. cbn [rs_entries]. rewrite list_lookup_insert_eq by (by eapply lookup_lt_Some). split_and!; [done|by rewrite entry_record_set, eqb_reflx|done].
  - by rewrite entry_record_set, eqb_reflx.
  - by rewrite entry_record_set, eqb_reflx.
  - by rewrite entry_record_set, eqb_reflx.
  - by rewrite entry_record_set, eqb_reflx.
  - unfold bound_entry in *. destruct (tok_cancellation t); cbn in *; [done|done].
Qed.

(** A record that is in use can be completed; it stays for the retention time. *)
Lemma complete_holding s t cap h e now : holding s t cap h e -> tok_cancellation t = false ->
  exists s', complete s t now = (Ok tt, s') /\ (0 <= ns now < U64_MAX -> retained t (ns now + 1) s').
Proof.
  intros [He Ha Ho _ _ _] Hc. pose proof He as (Hs & Hu & Hg)%live_entry. unfold complete, with_token. rewrite He, Ha, Ho. cbn [negb orb]. eexists. split; [reflexivity|]. intros Hn. eexists. split.
  - apply live_entry. unfold put_record. cbn [set_entries rs_entries]. rewrite list_lookup_insert_eq by (by eapply lookup_lt_Some). split_and!; [done| |done]. by rewrite entry_record_set, eqb_reflx.
  - rewrite Hc. split; [done|]. cbn [set_record e_expires]. unfold deadline. destruct (Z.ltb_spec (U64_MAX - ns now) minimum_retention_ns); cbn [rbind ns]; [lia|].
    unfold wrap64. rewrite Z.mod_small by (unfold_words; unfold minimum_retention_ns in *; lia). unfold minimum_retention_ns in *.
    destruct (Z.ltb_spec (ns (e_expires e)) (ns now + 30000000000)); cbn [ns]; lia.
Qed.
End frames.
