(* ===== verification/Controller.v ===== *)
(** * The registry of a controller: [include/vita/runtime/transaction/controller.hpp]

    A controller registers its relationships with controllees, tracks the requests it sends
    and their cancellations, and matches the responses it receives to them.  Message
    identifiers are handed out in order by the relationship; a record is found again by its
    key, or by a handle with the generation of its slot.

    [cancel_meaning] is the part in use of the array, so that its length is [cancel_size].
    The numbers of records and relationships are the lengths of the lists;
    [max_cancel_bytes] is a parameter. *)

From S2P Require Import Prelude Wire WireProofs Fields Time Clock Admission Structured Packet Routing State Cam Sdr Observer Retention.

Record RelationshipHandle := mkRelationshipHandle { rh_slot : nat }.
Record ControllerHandle := mkControllerHandle { ch_slot : nat; ch_generation : Z }.
#[global] Instance ControllerHandle_eq_dec : EqDecision ControllerHandle.
Proof. solve_decision. Defined.
Record TrackedRequest := mkTracked { tq_handle : ControllerHandle; tq_envelope : Envelope }.

(** ** Observations *)

Record StateObservation := mkStateObservation {
  so_state : StateSnapshot; so_selected_mask : Z; so_timestamp : Timestamp; so_hypothetical : bool; so_late : bool }.

(** [value<Field>()]: [get] selects the alternative of the type of the field. *)
Definition observed_value {A} (id : FieldId) (get : SemanticValue -> option A) (o : StateObservation) : Result A :=
  let index := field_index id in
  fail_if (index =? state_field_capacity)%nat || negb (bit_set (so_selected_mask o) (Z.of_nat index)) with error1 ErrorCode.invalid_state ;;
  let? f := deref (st_fields (so_state o) !! index) in
  fail_if negb (is_known f) with error1 ErrorCode.invalid_state ;;
  match get (fs_value f) with
  | Some v => Ok v
  | None => Err (error1 ErrorCode.invalid_argument)
  end.

Record CapabilityObservation := mkCapabilityObservation {
  cb_center_frequency : CapabilityRange Z; cb_sample_rate : CapabilityRange Z; cb_bandwidth : CapabilityRange Z;
  cb_gain : CapabilityRange (Z * Z); cb_selected_mask : Z; cb_timestamp : Timestamp; cb_late : bool }.

(** [range<Field>()]: the ranges of frequencies on the left, that of gains on the right. *)
Definition observed_range (id : FieldId) (o : CapabilityObservation) : Result (CapabilityRange Z + CapabilityRange (Z * Z)) :=
  let index := field_index id in
  fail_if (index =? state_field_capacity)%nat || negb (bit_set (cb_selected_mask o) (Z.of_nat index)) with error1 ErrorCode.invalid_state ;;
  if fid_eqb id Field.RFReferenceFrequency then Ok (inl (cb_center_frequency o)) else
  if fid_eqb id Field.SampleRate then Ok (inl (cb_sample_rate o)) else
  if fid_eqb id Field.Bandwidth then Ok (inl (cb_bandwidth o)) else
  if fid_eqb id Field.Gain then Ok (inr (cb_gain o)) else Err (error1 ErrorCode.unsupported_capability).

Module CancelRegistration.
Inductive t := fresh | retry.
End CancelRegistration.

(** ** State *)

Record Relationship := mkRelationship { rl_used : bool; rl_sdr_profile : bool; rl_identity : TransactionKey; rl_next_mid : Z }.

Record ControllerRecord := mkController {
  cx_used : bool; cx_ordinary_active : bool; cx_cancel_registered : bool; cx_cancel_active : bool; cx_capability_query : bool; cx_sdr_profile : bool;
  cx_generation : Z; cx_references : Z; cx_key : TransactionKey; cx_request : Envelope; cx_cancel_cam : Z;
  cx_requested_fields : Z; cx_cancel_fields : Z; cx_seen_ordinary : Z; cx_seen_cancel : Z; cx_deadline : MonoTime; cx_cancel_deadline : MonoTime; cx_expires : MonoTime;
  cx_observer : ControllerObserver; cx_cancel_meaning : list byte; cx_ordinary_state : option StateObservation; cx_cancel_state : option StateObservation; cx_ordinary_capabilities : option CapabilityObservation }.

Definition cx_set_ordinary_active (x : bool) (r : ControllerRecord) : ControllerRecord :=
  mkController (cx_used r) x (cx_cancel_registered r) (cx_cancel_active r) (cx_capability_query r) (cx_sdr_profile r) (cx_generation r) (cx_references r) (cx_key r) (cx_request r) (cx_cancel_cam r) (cx_requested_fields r) (cx_cancel_fields r) (cx_seen_ordinary r) (cx_seen_cancel r) (cx_deadline r) (cx_cancel_deadline r) (cx_expires r) (cx_observer r) (cx_cancel_meaning r) (cx_ordinary_state r) (cx_cancel_state r) (cx_ordinary_capabilities r).
Definition cx_set_cancel_active (x : bool) (r : ControllerRecord) : ControllerRecord :=
  mkController (cx_used r) (cx_ordinary_active r) (cx_cancel_registered r) x (cx_capability_query r) (cx_sdr_profile r) (cx_generation r) (cx_references r) (cx_key r) (cx_request r) (cx_cancel_cam r) (cx_requested_fields r) (cx_cancel_fields r) (cx_seen_ordinary r) (cx_seen_cancel r) (cx_deadline r) (cx_cancel_deadline r) (cx_expires r) (cx_observer r) (cx_cancel_meaning r) (cx_ordinary_state r) (cx_cancel_state r) (cx_ordinary_capabilities r).
Definition cx_set_references (x : Z) (r : ControllerRecord) : ControllerRecord :=
  mkController (cx_used r) (cx_ordinary_active r) (cx_cancel_registered r) (cx_cancel_active r) (cx_capability_query r) (cx_sdr_profile r) (cx_generation r) x (cx_key r) (cx_request r) (cx_cancel_cam r) (cx_requested_fields r) (cx_cancel_fields r) (cx_seen_ordinary r) (cx_seen_cancel r) (cx_deadline r) (cx_cancel_deadline r) (cx_expires r) (cx_observer r) (cx_cancel_meaning r) (cx_ordinary_state r) (cx_cancel_state r) (cx_ordinary_capabilities r).
Definition cx_set_seen_ordinary (x : Z) (r : ControllerRecord) : ControllerRecord :=
  mkController (cx_used r) (cx_ordinary_active r) (cx_cancel_registered r) (cx_cancel_active r) (cx_capability_query r) (cx_sdr_profile r) (cx_generation r) (cx_references r) (cx_key r) (cx_request r) (cx_cancel_cam r) (cx_requested_fields r) (cx_cancel_fields r) x (cx_seen_cancel r) (cx_deadline r) (cx_cancel_deadline r) (cx_expires r) (cx_observer r) (cx_cancel_meaning r) (cx_ordinary_state r) (cx_cancel_state r) (cx_ordinary_capabilities r).
Definition cx_set_seen_cancel (x : Z) (r : ControllerRecord) : ControllerRecord :=
  mkController (cx_used r) (cx_ordinary_active r) (cx_cancel_registered r) (cx_cancel_active r) (cx_capability_query r) (cx_sdr_profile r) (cx_generation r) (cx_references r) (cx_key r) (cx_request r) (cx_cancel_cam r) (cx_requested_fields r) (cx_cancel_fields r) (cx_seen_ordinary r) x (cx_deadline r) (cx_cancel_deadline r) (cx_expires r) (cx_observer r) (cx_cancel_meaning r) (cx_ordinary_state r) (cx_cancel_state r) (cx_ordinary_capabilities r).
Definition cx_set_expires (x : MonoTime) (r : ControllerRecord) : ControllerRecord :=
  mkController (cx_used r) (cx_ordinary_active r) (cx_cancel_registered r) (cx_cancel_active r) (cx_capability_query r) (cx_sdr_profile r) (cx_generation r) (cx_references r) (cx_key r) (cx_request r) (cx_cancel_cam r) (cx_requested_fields r) (cx_cancel_fields r) (cx_seen_ordinary r) (cx_seen_cancel r) (cx_deadline r) (cx_cancel_deadline r) x (cx_observer r) (cx_cancel_meaning r) (cx_ordinary_state r) (cx_cancel_state r) (cx_ordinary_capabilities r).
Definition cx_set_observer (x : ControllerObserver) (r : ControllerRecord) : ControllerRecord :=
  mkController (cx_used r) (cx_ordinary_active r) (cx_cancel_registered r) (cx_cancel_active r) (cx_capability_query r) (cx_sdr_profile r) (cx_generation r) (cx_references r) (cx_key r) (cx_request r) (cx_cancel_cam r) (cx_requested_fields r) (cx_cancel_fields r) (cx_seen_ordinary r) (cx_seen_cancel r) (cx_deadline r) (cx_cancel_deadline r) (cx_expires r) x (cx_cancel_meaning r) (cx_ordinary_state r) (cx_cancel_state r) (cx_ordinary_capabilities r).
Definition cx_set_ordinary_state (x : option StateObservation) (r : ControllerRecord) : ControllerRecord :=
  mkController (cx_used r) (cx_ordinary_active r) (cx_cancel_registered r) (cx_cancel_active r) (cx_capability_query r) (cx_sdr_profile r) (cx_generation r) (cx_references r) (cx_key r) (cx_request r) (cx_cancel_cam r) (cx_requested_fields r) (cx_cancel_fields r) (cx_seen_ordinary r) (cx_seen_cancel r) (cx_deadline r) (cx_cancel_deadline r) (cx_expires r) (cx_observer r) (cx_cancel_meaning r) x (cx_cancel_state r) (cx_ordinary_capabilities r).
Definition cx_set_cancel_state (x : option StateObservation) (r : ControllerRecord) : ControllerRecord :=
  mkController (cx_used r) (cx_ordinary_active r) (cx_cancel_registered r) (cx_cancel_active r) (cx_capability_query r) (cx_sdr_profile r) (cx_generation r) (cx_references r) (cx_key r) (cx_request r) (cx_cancel_cam r) (cx_requested_fields r) (cx_cancel_fields r) (cx_seen_ordinary r) (cx_seen_cancel r) (cx_deadline r) (cx_cancel_deadline r) (cx_expires r) (cx_observer r) (cx_cancel_meaning r) (cx_ordinary_state r) x (cx_ordinary_capabilities r).
Definition cx_set_ordinary_capabilities (x : option CapabilityObservation) (r : ControllerRecord) : ControllerRecord :=
  mkController (cx_used r) (cx_ordinary_active r) (cx_cancel_registered r) (cx_cancel_active r) (cx_capability_query r) (cx_sdr_profile r) (cx_generation r) (cx_references r) (cx_key r) (cx_request r) (cx_cancel_cam r) (cx_requested_fields r) (cx_cancel_fields r) (cx_seen_ordinary r) (cx_seen_cancel r) (cx_deadline r) (cx_cancel_deadline r) (cx_expires r) (cx_observer r) (cx_cancel_meaning r) (cx_ordinary_state r) (cx_cancel_state r) x.

Definition relationship_default : Relationship := mkRelationship false false key_default 1.
Definition envelope_default : Envelope :=
  mkEnvelope PacketType.signal 0 None None (mkTimestamp 0 0 0 0) false false false false false false None.
Definition record_default (generation : Z) : ControllerRecord :=
  mkController false false false false false false generation 0 key_default envelope_default 0 0 0 0 0
    (mkMono 0) (mkMono 0) (mkMono 0) (observer_new 0) [] None None None.

Record ControllerRegistry := mkRegistry { cg_relationships : list Relationship; cg_records : list ControllerRecord }.
Definition registry_new (relationships records : nat) : ControllerRegistry :=
  mkRegistry (replicate relationships relationship_default) (replicate records (record_default 1)).
Definition put_controller (s : ControllerRegistry) (i : nat) (r : ControllerRecord) : ControllerRegistry :=
  mkRegistry (cg_relationships s) (<[i := r]> (cg_records s)).

(** A step that returns its error with the state reached so far. *)
#[local] Notation "'let!' x ':=' m 'else' s 'in' k" :=
  (match m with Ok x => k | Err e => Ok (Err e, s) | UB => UB end)
  (at level 200, x pattern, m at level 100, s at level 100, k at level 200).

Definition same_wire_relationship (a b : TransactionKey) : bool :=
  (peer (tk_peer a) =? peer (tk_peer b)) && bool_decide (tk_stream_id a = tk_stream_id b) &&
  same_identifier (tk_controller a) (tk_controller b) && same_identifier (tk_controllee a) (tk_controllee b).

Definition find_record (s : ControllerRegistry) (h : ControllerHandle) : option ControllerRecord :=
  match cg_records s !! ch_slot h with
  | Some r => if cx_used r && (cx_generation r =? ch_generation h) then Some r else None
  | None => None
  end.

Definition requested_responses (cam : Z) : Z := wrap8 (Z.land (Z.shiftr cam 18) 7).

(** The wire byte without the packet count. *)
Definition cancel_byte (index : nat) (b : byte) : byte := if (index =? 1)%nat then mask_byte b 0xf0 else b.
Definition cancel_bytes (packet : PacketView) : list byte := imap cancel_byte (ev_wire (pv_envelope packet)).

Definition controller_retention_ns : Z := 30000000000.

Definition phase_active (r : ControllerRecord) (cancellation : bool) : bool := if cancellation then cx_cancel_active r else cx_ordinary_active r.
Definition phase_deadline (r : ControllerRecord) (cancellation : bool) : MonoTime := if cancellation then cx_cancel_deadline r else cx_deadline r.
Definition phase_fields (r : ControllerRecord) (cancellation : bool) : Z := if cancellation then cx_cancel_fields r else cx_requested_fields r.
Definition phase_state (r : ControllerRecord) (cancellation : bool) : option StateObservation :=
  if cancellation then cx_cancel_state r else cx_ordinary_state r.

Definition terminal (r : ControllerRecord) (cancellation : bool) (now : MonoTime) : Result ControllerRecord :=
  if negb (phase_active r cancellation) then Ok r else
  let? until := deadline now controller_retention_ns in
  let r := if cancellation then cx_set_cancel_active false r else cx_set_ordinary_active false r in
  Ok (if ns (cx_expires r) <? ns until then cx_set_expires until r else r).

(** ** What a response says *)

Fixpoint capture_fields (mask : Z) (views : list FieldView) (fields : list FieldState) (selected : Z) : Result (list FieldState * Z) :=
  match views with
  | [] => Ok (fields, selected)
  | view :: views =>
      let index := field_index (fv_id view) in
      fail_if (index =? state_field_capacity)%nat || negb (bit_set mask (Z.of_nat index)) ||
              negb (bool_decide (fv_kind view = BodyKind.values)) || negb (fv_attribute view =? Attribute.current)
        with error1 ErrorCode.unsupported_capability ;;
      let? value := view_value view in
      capture_fields mask views (<[index := mkFieldState (fv_id view) value Validity.known]> fields)
        (wrap8 (Z.lor selected (Z.shiftl 1 (Z.of_nat index))))
  end.

Definition capture_profile (r : ControllerRecord) : Z :=
  if cx_sdr_profile r then Profile.sdr_radio else
  match class_id (cx_request r) with
  | Some c => if (information_class c =? 2) && (packet_class c =? 0x120) then Profile.frequency_tunable else st_profile state_default
  | None => st_profile state_default
  end.

Definition capture_state (packet : PacketView) (r : ControllerRecord) (cancellation : bool) : Result StateObservation :=
  let e := ev_envelope (pv_envelope packet) in
  let mask := phase_fields r cancellation in
  fail_if (tsf (timestamp e) =? Tsf.picoseconds) && (picoseconds_per_second <=? ts_fractional (timestamp e))
    with error1 ErrorCode.invalid_argument ;;
  let? c := deref (command e) in
  let unknown i f := if bit_set mask (Z.of_nat i) then mkFieldState (fs_id f) (fs_value f) Validity.unknown else f in
  let? (fields, selected) := capture_fields mask (pv_fields packet) (imap unknown (st_fields state_default)) 0 in
  Ok (mkStateObservation (mkState (st_version state_default) fields (capture_profile r)) selected (timestamp e)
        (Z.land (Z.shiftr (cam c) 23) 3 =? 1)
        (if cancellation then ob_cancellation_timed_out (cx_observer r) else ob_timed_out (cx_observer r))).

Definition same_time (a b : Timestamp) : bool :=
  (tsi a =? tsi b) && (tsf a =? tsf b) && (ts_integer a =? ts_integer b) && (ts_fractional a =? ts_fractional b).
Definition same_field_state (p : FieldState * FieldState) : bool :=
  let '(a, b) := p in
  fid_eqb (fs_id a) (fs_id b) && (fs_validity a =? fs_validity b) &&
  (negb (is_known a) || bool_decide (fs_value a = fs_value b)).
Definition same_observed_state (a b : StateObservation) : bool :=
  (so_selected_mask a =? so_selected_mask b) && Bool.eqb (so_hypothetical a) (so_hypothetical b) && same_time (so_timestamp a) (so_timestamp b) &&
  forallb same_field_state (zip (st_fields (so_state a)) (st_fields (so_state b))).

Definition set_bound {V} (minimum : bool) (v : V) (r : CapabilityRange V) : CapabilityRange V :=
  if minimum then mkRange v (cap_maximum r) else mkRange (cap_minimum r) v.

(** The range of the field gets the value, unless it is of another type. *)
Definition assign_bound (id : FieldId) (minimum : bool) (v : SemanticValue) (o : CapabilityObservation) : option CapabilityObservation :=
  let put cf sr bw g := mkCapabilityObservation cf sr bw g (cb_selected_mask o) (cb_timestamp o) (cb_late o) in
  let cf := cb_center_frequency o in
  let sr := cb_sample_rate o in
  let bw := cb_bandwidth o in
  let g := cb_gain o in
  if fid_eqb id Field.RFReferenceFrequency then q ← if_hertz v; Some (put (set_bound minimum q cf) sr bw g) else
  if fid_eqb id Field.SampleRate then q ← if_hertz v; Some (put cf (set_bound minimum q sr) bw g) else
  if fid_eqb id Field.Bandwidth then q ← if_hertz v; Some (put cf sr (set_bound minimum q bw) g) else
  if fid_eqb id Field.Gain then q ← if_gain v; Some (put cf sr bw (set_bound minimum q g)) else None.

Fixpoint capture_bounds (mask : Z) (views : list FieldView) (o : CapabilityObservation) (minima maxima : Z)
    : Result (CapabilityObservation * Z * Z) :=
  match views with
  | [] => Ok (o, minima, maxima)
  | view :: views =>
      let index := field_index (fv_id view) in
      let minimum := fv_attribute view =? Attribute.minimum in
      fail_if (index =? state_field_capacity)%nat || negb (bit_set mask (Z.of_nat index)) || (negb minimum && negb (fv_attribute view =? Attribute.maximum))
        with error1 ErrorCode.unsupported_capability ;;
      let? value := view_value view in
      match assign_bound (fv_id view) minimum value o with
      | None => Err (error1 ErrorCode.invalid_argument)
      | Some o =>
          let add m := wrap8 (Z.lor m (Z.shiftl 1 (Z.of_nat index))) in
          capture_bounds mask views o (if minimum then add minima else minima) (if minimum then maxima else add maxima)
      end
  end.

Definition capture_capabilities (packet : PacketView) (r : ControllerRecord) : Result CapabilityObservation :=
  let none := mkRange 0 0 in
  let o := mkCapabilityObservation none none none (mkRange (0, 0) (0, 0)) 0 (timestamp (ev_envelope (pv_envelope packet))) (ob_timed_out (cx_observer r)) in
  let? (o, minima, maxima) := capture_bounds (cx_requested_fields r) (pv_fields packet) o 0 0 in
  let mask := Z.land minima maxima in
  fail_if negb (mask =? cx_requested_fields r) with error1 ErrorCode.invalid_argument ;;
  Ok (mkCapabilityObservation (cb_center_frequency o) (cb_sample_rate o) (cb_bandwidth o) (cb_gain o) mask (cb_timestamp o) (cb_late o)).

Definition same_range (a b : CapabilityRange Z) : bool := (cap_minimum a =? cap_minimum b) && (cap_maximum a =? cap_maximum b).
Definition same_gains (a b : CapabilityRange (Z * Z)) : bool :=
  bool_decide (cap_minimum a = cap_minimum b) && bool_decide (cap_maximum a = cap_maximum b).
Definition same_capabilities (a b : CapabilityObservation) : bool :=
  same_range (cb_center_frequency a) (cb_center_frequency b) && same_range (cb_sample_rate a) (cb_sample_rate b) &&
  same_range (cb_bandwidth a) (cb_bandwidth b) && same_gains (cb_gain a) (cb_gain b) && (cb_selected_mask a =? cb_selected_mask b) &&
  same_time (cb_timestamp a) (cb_timestamp b) && Bool.eqb (cb_late a) (cb_late b).

(** ** Relationships *)

Definition association_in_use (s : ControllerRegistry) (relationship : TransactionKey) : bool :=
  existsb (fun r => cx_used r && same_association (cx_key r) relationship) (cg_records s).

Definition identity_refused (k : TransactionKey) : bool := (tk_binding_generation k =? 0) || (peer_generation (tk_peer k) =? 0).

Fixpoint can_register_loop (l : list Relationship) (identity : TransactionKey) (free : bool) : Result unit :=
  match l with
  | [] => fail_if negb free with error1 ErrorCode.capacity_exhausted ;; Ok tt
  | existing :: l =>
      if negb (rl_used existing) then can_register_loop l identity true else
      if same_key (rl_identity existing) identity then Ok tt else
      fail_if same_wire_relationship (rl_identity existing) identity with error1 ErrorCode.identity_conflict ;;
      can_register_loop l identity free
  end.
Definition can_register_relationship (s : ControllerRegistry) (identity : TransactionKey) : Result unit :=
  fail_if identity_refused identity with error1 ErrorCode.invalid_argument ;;
  can_register_loop (cg_relationships s) (clear_message identity) false.

(** The registered relationship, or none that conflicts. *)
Fixpoint registered_loop (i : nat) (l : list Relationship) (identity : TransactionKey) (sdr_profile : bool) : Result (option nat) :=
  match l with
  | [] => Ok None
  | existing :: l =>
      if negb (rl_used existing) then registered_loop (S i) l identity sdr_profile else
      if same_key (rl_identity existing) identity then
        fail_if negb (Bool.eqb (rl_sdr_profile existing) sdr_profile) with error1 ErrorCode.identity_conflict ;; Ok (Some i)
      else
        fail_if same_wire_relationship (rl_identity existing) identity with error1 ErrorCode.identity_conflict ;;
        registered_loop (S i) l identity sdr_profile
  end.

Definition register_relationship (s : ControllerRegistry) (identity : TransactionKey) (next_mid : Z) (profile : Z)
    : Result RelationshipHandle * ControllerRegistry :=
  if identity_refused identity then (Err (error1 ErrorCode.invalid_argument), s) else
  let identity := clear_message identity in
  let sdr_profile := profile =? Profile.sdr_radio in
  match registered_loop 0 (cg_relationships s) identity sdr_profile with
  | UB => (UB, s)
  | Err e => (Err e, s)
  | Ok (Some i) => (Ok (mkRelationshipHandle i), s)
  | Ok None =>
      match first_index (fun r => negb (rl_used r)) (cg_relationships s) with
      | Some i => (Ok (mkRelationshipHandle i),
                   mkRegistry (<[i := mkRelationship true sdr_profile identity next_mid]> (cg_relationships s)) (cg_records s))
      | None => (Err (error1 ErrorCode.capacity_exhausted), s)
      end
  end.

Definition find_relationship (s : ControllerRegistry) (h : RelationshipHandle) : option Relationship :=
  match cg_relationships s !! rh_slot h with
  | Some r => if rl_used r then Some r else None
  | None => None
  end.

Definition resume_after (s : ControllerRegistry) (h : RelationshipHandle) (watermark : Z) : Result unit * ControllerRegistry :=
  match find_relationship s h with
  | None => (Err (error1 ErrorCode.invalid_argument), s)
  | Some rel =>
      if watermark =? U32_MAX then (Err (error1 ErrorCode.resource_limit), s) else
      let next := watermark + 1 in
      (Ok tt, if rl_next_mid rel <? next
              then mkRegistry (<[rh_slot h := mkRelationship (rl_used rel) (rl_sdr_profile rel) (rl_identity rel) next]> (cg_relationships s)) (cg_records s)
              else s)
  end.

(** ** Requests *)

(** The mask of the fields of a packet, and whether some field asks for a capability. *)
Fixpoint select_mask (views : list FieldView) (selected : Z) (query : bool) : Result (Z * bool) :=
  match views with
  | [] => Ok (selected, query)
  | view :: views =>
      let index := field_index (fv_id view) in
      fail_if (index =? state_field_capacity)%nat with error1 ErrorCode.unsupported_capability ;;
      select_mask views (wrap8 (Z.lor selected (Z.shiftl 1 (Z.of_nat index))))
        (query || (fv_attribute view =? Attribute.minimum) || (fv_attribute view =? Attribute.maximum))
  end.

Definition with_message_id (mid : Z) (k : TransactionKey) : TransactionKey :=
  mkTransactionKey (tk_binding_generation k) (tk_peer k) (tk_stream_id k) (tk_controller k) (tk_controllee k) mid.
Definition set_message_id (mid : Z) (e : Envelope) : Envelope :=
  mkEnvelope (env_type e) (packet_count e) (stream_id e) (class_id e) (timestamp e) (env_trailer e) (nd0 e) (spectrum e) (tsm e) (ack e) (cancel e)
    ((fun c => mkCommand (cam c) mid (controllee c) (controller c)) <$> command e).

Definition not_retainable (t : MonoTime) : bool := U64_MAX - controller_retention_ns <? ns t.

(** The checks of [track]: the deadline and the mask. *)
Definition check_track (rel : Relationship) (request : PacketView) (now : MonoTime) (timeout_ns : Z) : Result (MonoTime * Z * bool) :=
  let e := ev_envelope (pv_envelope request) in
  fail_if negb (env_type e =? PacketType.command) || is_none (command e) || ack e || cancel e || pv_opaque request || pv_requires_request_context request
    with error1 ErrorCode.invalid_argument ;;
  let? derived := transaction_key request (tk_binding_generation (rl_identity rel)) (tk_peer (rl_identity rel)) in
  fail_if negb (same_key (clear_message derived) (rl_identity rel)) with error1 ErrorCode.identity_conflict ;;
  fail_if U32_MAX <? rl_next_mid rel with error1 ErrorCode.resource_limit ;;
  let? limit := deadline now timeout_ns in
  fail_if not_retainable now || not_retainable limit with error1 ErrorCode.overflow ;;
  let? (selected, query) := select_mask (pv_fields request) 0 false in
  Ok (limit, selected, query).

Definition track (s : ControllerRegistry) (h : RelationshipHandle) (request : PacketView) (now : MonoTime) (timeout_ns : Z)
    : Result (Result TrackedRequest * ControllerRegistry) :=
  match find_relationship s h with
  | None => Ok (Err (error1 ErrorCode.invalid_argument), s)
  | Some rel =>
      let! (limit, selected, query) := check_track rel request now timeout_ns else s in
      match first_index (fun r => negb (cx_used r) && negb (cx_generation r =? U64_MAX)) (cg_records s) with
      | None => Ok (Err (error1 ErrorCode.capacity_exhausted), s)
      | Some i =>
          let? r := deref (cg_records s !! i) in
          let mid := rl_next_mid rel in
          let e := set_message_id mid (ev_envelope (pv_envelope request)) in
          let r := mkController true true false false query (rl_sdr_profile rel) (cx_generation r) 1
                     (with_message_id mid (rl_identity rel)) e 0 selected 0 0 0 limit (mkMono 0) (mkMono 0) (observer_new mid) [] None None None in
          Ok (Ok (mkTracked (mkControllerHandle i (cx_generation r)) e),
              mkRegistry (<[rh_slot h := mkRelationship (rl_used rel) (rl_sdr_profile rel) (rl_identity rel) (mid + 1)]> (cg_relationships s))
                (<[i := r]> (cg_records s)))
      end
  end.

Definition register_cancel (max_cancel_bytes : nat) (s : ControllerRegistry) (h : ControllerHandle) (packet : PacketView) (now : MonoTime) (timeout_ns : Z)
    : Result CancelRegistration.t * ControllerRegistry :=
  match find_record s h with
  | None => (Err (error1 ErrorCode.stale_generation), s)
  | Some r =>
      let e := ev_envelope (pv_envelope packet) in
      let wire := ev_wire (pv_envelope packet) in
      if negb (bool_decide (class_id e = class_id (cx_request r))) then (Err (error1 ErrorCode.identity_conflict), s) else
      match command e with
      | None => (Err (error1 ErrorCode.invalid_argument), s)
      | Some c =>
          if negb (cancel e) || ack e || pv_opaque packet || pv_requires_request_context packet || (length wire <? 4)%nat
          then (Err (error1 ErrorCode.invalid_argument), s) else
          match transaction_key packet (tk_binding_generation (cx_key r)) (tk_peer (cx_key r)) with
          | Ok key =>
              if negb (same_key key (cx_key r)) then (Err (error1 ErrorCode.identity_conflict), s) else
              if cx_cancel_registered r then
                if bool_decide (cx_cancel_meaning r = cancel_bytes packet) then (Ok CancelRegistration.retry, s)
                else (Err (error1 ErrorCode.identity_conflict), s)
              else
                match select_mask (pv_fields packet) 0 false with
                | Ok (selected, _) =>
                    if nonzero (Z.land selected (Z.lnot (cx_requested_fields r))) then (Err (error1 ErrorCode.invalid_argument), s) else
                    if (max_cancel_bytes <? length wire)%nat then (Err (error1 ErrorCode.capacity_exhausted), s) else
                    match deadline now timeout_ns with
                    | Ok limit =>
                        if not_retainable limit then (Err (error1 ErrorCode.overflow), s) else
                        (Ok CancelRegistration.fresh,
                         put_controller s (ch_slot h)
                           (mkController (cx_used r) (cx_ordinary_active r) true true (cx_capability_query r) (cx_sdr_profile r) (cx_generation r)
                              (cx_references r) (cx_key r) (cx_request r) (cam c) (cx_requested_fields r) selected (cx_seen_ordinary r) (cx_seen_cancel r)
                              (cx_deadline r) limit (cx_expires r) (cx_observer r) (cancel_bytes packet) (cx_ordinary_state r) (cx_cancel_state r)
                              (cx_ordinary_capabilities r)))
                    | _ => (Err (error1 ErrorCode.overflow), s)
                    end
                | Err e => (Err e, s)
                | UB => (UB, s)
                end
          | _ => (Err (error1 ErrorCode.identity_conflict), s)
          end
      end
  end.

Definition record_local_send (s : ControllerRegistry) (h : ControllerHandle) (succeeded : bool) : Result (Result unit * ControllerRegistry) :=
  match find_record s h with
  | None => Ok (Err (error1 ErrorCode.stale_generation), s)
  | Some r => let? o := local_send (cx_observer r) succeeded in Ok (Ok tt, put_controller s (ch_slot h) (cx_set_observer o r))
  end.

(** ** Responses *)

Definition phase_timeout (o : ControllerObserver) (cancellation : bool) : Result ControllerObserver :=
  if cancellation then cancellation_timeout o else timeout o.
Definition phase_seen (r : ControllerRecord) (cancellation : bool) : Z := if cancellation then cx_seen_cancel r else cx_seen_ordinary r.
Definition set_phase_seen (cancellation : bool) (m : Z) (r : ControllerRecord) : ControllerRecord :=
  if cancellation then cx_set_seen_cancel m r else cx_set_seen_ordinary m r.
Definition set_phase_state (cancellation : bool) (o : option StateObservation) (r : ControllerRecord) : ControllerRecord :=
  if cancellation then cx_set_cancel_state o r else cx_set_ordinary_state o r.

(** A deadline that has passed ends the phase at the deadline. *)
Definition time_out (r : ControllerRecord) (cancellation : bool) (now : MonoTime) : Result (Result unit * ControllerRecord) :=
  if phase_active r cancellation && (ns (phase_deadline r cancellation) <=? ns now) then
    let! r := terminal r cancellation (phase_deadline r cancellation) else r in
    let? o := phase_timeout (cx_observer r) cancellation in
    Ok (Ok tt, cx_set_observer o r)
  else Ok (Ok tt, r).

(** The observations of a response that reports state. *)
Definition capture (parsed : PacketView) (r : ControllerRecord) (c : Command) (cancellation : bool)
    : Result (option StateObservation * option CapabilityObservation) :=
  if bit_set (cam c) 18 && cx_capability_query r && negb cancellation then
    let? captured := capture_capabilities parsed r in
    fail_if match cx_ordinary_capabilities r with Some o => negb (same_capabilities o captured) | None => false end
      with error1 ErrorCode.identity_conflict ;;
    Ok (None, Some captured)
  else if bit_set (cam c) 18 then
    let? captured := capture_state parsed r cancellation in
    fail_if match phase_state r cancellation with Some o => negb (same_observed_state o captured) | None => false end
      with error1 ErrorCode.identity_conflict ;;
    Ok (Some captured, None)
  else Ok (None, None).

Definition keep_first {A} (old new : option A) : option A := match old with Some _ => old | None => new end.

(** The checks before the record changes. *)
Definition check_response (r : ControllerRecord) (e : Envelope) (c : Command) (wire : list byte) : Result (PacketView * Z) :=
  fail_if negb (bool_decide (class_id e = class_id (cx_request r))) with error1 ErrorCode.identity_conflict ;;
  fail_if cancel e && negb (cx_cancel_registered r) with error1 ErrorCode.invalid_state ;;
  let? original := (if cancel e then Ok (cx_cancel_cam r) else let? q := deref (command (cx_request r)) in Ok (cam q)) in
  fail_if negb (Z.land (cam c) 0xffe00000 =? Z.land original 0xffe00000) with error1 ErrorCode.identity_conflict ;;
  fail_if negb (nonzero (Z.land (Z.land (Z.shiftr (cam c) 18) 7) (requested_responses original))) with error1 ErrorCode.invalid_argument ;;
  let? parsed := decode_packet wire (mkOptions (Some original) None limits_default) in
  Ok (parsed, original).

(** A response for the record. *)
Definition receive_record (r : ControllerRecord) (e : Envelope) (c : Command) (wire : list byte) (now : MonoTime)
    : Result (Result unit * ControllerRecord) :=
  let! (parsed, original) := check_response r e c wire else r in
  let? (late, r) := time_out r (cancel e) now in
  let! _ := late else r in
  let! (state, capabilities) := capture parsed r c (cancel e) else r in
  let! o := receive (cx_observer r) parsed else r in
  let r := cx_set_observer o r in
  let r := set_phase_state (cancel e) (keep_first (phase_state r (cancel e)) state) r in
  let r := cx_set_ordinary_capabilities (keep_first (cx_ordinary_capabilities r) capabilities) r in
  let seen := Z.lor (phase_seen r (cancel e)) (wrap8 (Z.land (Z.shiftr (cam c) 18) 7)) in
  let r := set_phase_seen (cancel e) seen r in
  let expected := requested_responses original in
  if Z.land seen expected =? expected then let! r := terminal r (cancel e) now else r in Ok (Ok tt, r)
  else Ok (Ok tt, r).

Definition response_key (generation : Z) (p : PeerSession) (e : Envelope) (c : Command) : TransactionKey :=
  mkTransactionKey generation p (stream_id e) (controller c) (controllee c) (message_id c).
Definition matches (key : TransactionKey) (r : ControllerRecord) : bool := cx_used r && same_key key (cx_key r).

Definition controller_receive (s : ControllerRegistry) (generation : Z) (p : PeerSession) (wire : list byte) (now : MonoTime)
    : Result (Result ControllerHandle * ControllerRegistry) :=
  let! framing := decode_envelope wire else s in
  let e := ev_envelope framing in
  match command e with
  | None => Ok (Err (error1 ErrorCode.invalid_argument), s)
  | Some c =>
      if negb (ack e) then Ok (Err (error1 ErrorCode.invalid_argument), s) else
      match first_index (matches (response_key generation p e c)) (cg_records s) with
      | None => Ok (Err (error1 ErrorCode.stale_generation), s)
      | Some i =>
          let? r := deref (cg_records s !! i) in
          let? (done, r) := receive_record r e c wire now in
          Ok (rmap (fun _ => mkControllerHandle i (cx_generation r)) done, put_controller s i r)
      end
  end.

(** ** Time *)

(** Both phases of one record. *)
Definition advance_record (r : ControllerRecord) (now : MonoTime) : Result (Result unit * ControllerRecord) :=
  if negb (cx_used r) then Ok (Ok tt, r) else
  let? (done, r) := time_out r false now in
  let! _ := done else r in
  time_out r true now.

Fixpoint advance_loop (l : list ControllerRecord) (now : MonoTime) : Result (Result unit * list ControllerRecord) :=
  match l with
  | [] => Ok (Ok tt, [])
  | r :: l =>
      let? (done, r) := advance_record r now in
      match done with
      | Ok _ => let? (done, l) := advance_loop l now in Ok (done, r :: l)
      | Err e => Ok (Err e, r :: l)
      | UB => UB
      end
  end.
Definition controller_advance (s : ControllerRegistry) (now : MonoTime) : Result (Result unit * ControllerRegistry) :=
  let? (done, l) := advance_loop (cg_records s) now in Ok (done, mkRegistry (cg_relationships s) l).

Definition mark_terminal (s : ControllerRegistry) (h : ControllerHandle) (cancellation : bool) (now : MonoTime) : Result unit * ControllerRegistry :=
  match find_record s h with
  | None => (Err (error1 ErrorCode.stale_generation), s)
  | Some r =>
      if cancellation && negb (cx_cancel_registered r) then (Err (error1 ErrorCode.invalid_state), s) else
      match terminal r cancellation now with
      | Ok r => (Ok tt, put_controller s (ch_slot h) r)
      | Err e => (Err e, s)
      | UB => (UB, s)
      end
  end.

(** ** Queries, references and expiry *)

Definition on_record_found {A} (s : ControllerRegistry) (h : ControllerHandle) (k : ControllerRecord -> Result A) : Result A :=
  match find_record s h with Some r => k r | None => Err (error1 ErrorCode.stale_generation) end.
Definition controller_observer (s : ControllerRegistry) (h : ControllerHandle) : Result ControllerObserver := on_record_found s h (fun r => Ok (cx_observer r)).
Definition state_observation (s : ControllerRegistry) (h : ControllerHandle) (cancellation : bool) : Result (option StateObservation) :=
  on_record_found s h (fun r => Ok (phase_state r cancellation)).
Definition capability_observation (s : ControllerRegistry) (h : ControllerHandle) : Result (option CapabilityObservation) :=
  on_record_found s h (fun r => Ok (cx_ordinary_capabilities r)).
Definition deadline_for (s : ControllerRegistry) (h : ControllerHandle) (cancellation : bool) : Result MonoTime :=
  on_record_found s h (fun r =>
    fail_if cancellation && negb (cx_cancel_registered r) with error1 ErrorCode.invalid_state ;; Ok (phase_deadline r cancellation)).

Definition controller_retain (s : ControllerRegistry) (h : ControllerHandle) : Result unit * ControllerRegistry :=
  match find_record s h with
  | None => (Err (error1 ErrorCode.stale_generation), s)
  | Some r =>
      if cx_references r =? SIZE_MAX then (Err (error1 ErrorCode.overflow), s)
      else (Ok tt, put_controller s (ch_slot h) (cx_set_references (cx_references r + 1) r))
  end.
Definition controller_release (s : ControllerRegistry) (h : ControllerHandle) : Result unit * ControllerRegistry :=
  match find_record s h with
  | None => (Err (error1 ErrorCode.stale_generation), s)
  | Some r =>
      if cx_references r =? 0 then (Err (error1 ErrorCode.stale_generation), s)
      else (Ok tt, put_controller s (ch_slot h) (cx_set_references (cx_references r - 1) r))
  end.

Definition expired_record (now : MonoTime) (r : ControllerRecord) : bool :=
  cx_used r && negb (cx_ordinary_active r) && negb (cx_cancel_active r) && (cx_references r =? 0) && (ns (cx_expires r) <=? ns now).
Definition controller_expire (s : ControllerRegistry) (now : MonoTime) : ControllerRegistry :=
  mkRegistry (cg_relationships s)
    ((fun r => if expired_record now r then record_default (wrap64 (cx_generation r + 1)) else r) <$> cg_records s).
Definition controller_size (s : ControllerRegistry) : nat := count_if cx_used (cg_records s).
