(* ===== verification/ControllerProofs.v ===== *)
(** * Correctness of the controller registry

    Runs of the operations of [Controller]: the invariant of the registry, the record a
    response belongs to, the end of overdue phases, and the life of a handle. *)

From S2P Require Import Prelude Wire WireProofs Fields Time Clock Admission Structured Packet Routing State Cam Sdr Observer Backend Retention RetentionProofs Controller.

(** ** Runs *)

Inductive ControllerOp :=
  | cop_register (identity : TransactionKey) (next_mid profile : Z)
  | cop_resume (h : RelationshipHandle) (watermark : Z)
  | cop_track (h : RelationshipHandle) (request : PacketView) (now : MonoTime) (timeout_ns : Z)
  | cop_cancel (h : ControllerHandle) (packet : PacketView) (now : MonoTime) (timeout_ns : Z)
  | cop_send (h : ControllerHandle) (succeeded : bool)
  | cop_receive (generation : Z) (p : PeerSession) (wire : list byte) (now : MonoTime)
  | cop_advance (now : MonoTime)
  | cop_terminal (h : ControllerHandle) (cancellation : bool) (now : MonoTime)
  | cop_retain (h : ControllerHandle)
  | cop_release (h : ControllerHandle)
  | cop_expire (now : MonoTime).

(** The registry after a call, whatever the call returned. *)
Definition settled {A} (p : Result A * ControllerRegistry) : Result ControllerRegistry :=
  match p.1 with UB => UB | _ => Ok p.2 end.

Definition controller_do (max_cancel_bytes : nat) (s : ControllerRegistry) (op : ControllerOp) : Result ControllerRegistry :=
  match op with
  | cop_register identity mid profile => settled (register_relationship s identity mid profile)
  | cop_resume h w => settled (resume_after s h w)
  | cop_track h request now t => let? p := track s h request now t in settled p
  | cop_cancel h packet now t => settled (register_cancel max_cancel_bytes s h packet now t)
  | cop_send h b => let? p := record_local_send s h b in settled p
  | cop_receive g p wire now => let? p := controller_receive s g p wire now in settled p
  | cop_advance now => let? p := controller_advance s now in settled p
  | cop_terminal h c now => settled (mark_terminal s h c now)
  | cop_retain h => settled (controller_retain s h)
  | cop_release h => settled (controller_release s h)
  | cop_expire now => Ok (controller_expire s now)
  end.

Fixpoint controller_run (max_cancel_bytes : nat) (s : ControllerRegistry) (ops : list ControllerOp) : Result ControllerRegistry :=
  match ops with
  | [] => Ok s
  | op :: ops => let? s := controller_do max_cancel_bytes s op in controller_run max_cancel_bytes s ops
  end.

(** ** The invariant *)

Definition latest : Z := U64_MAX - controller_retention_ns.

Record record_ok (r : ControllerRecord) : Prop := mk_record_ok {
  ro_used : cx_used r = true;
  ro_generation : 1 <= cx_generation r < U64_MAX;
  ro_command : exists c, command (cx_request r) = Some c /\ message_id c = tk_message_id (cx_key r);
  ro_observer : exists l c events, observer_inv (tk_message_id (cx_key r)) l c events (cx_observer r);
  ro_deadline : forall c, phase_active r c = true -> ns (phase_deadline r c) <= latest }.

(** What never changes while the record is used. *)
Definition identity_of (r : ControllerRecord) : bool * Z * TransactionKey * Envelope :=
  (cx_used r, cx_generation r, cx_key r, cx_request r).

(** A step of a used record: what it was for stays, and so does what was observed first. *)
Record follows (r r' : ControllerRecord) : Prop := mk_follows {
  fo_identity : identity_of r' = identity_of r;
  fo_state : forall c o, phase_state r c = Some o -> phase_state r' c = Some o;
  fo_capabilities : forall o, cx_ordinary_capabilities r = Some o -> cx_ordinary_capabilities r' = Some o;
  fo_references : cx_references r' = cx_references r;
  fo_ok : record_ok r' }.

Lemma follows_refl r : record_ok r -> follows r r.
Proof. by split. Qed.
Lemma follows_trans a b c : follows a b -> follows b c -> follows a c.
Proof.
  intros [Hi Hs Hc Hr _] [Hi' Hs' Hc' Hr' Hok]. split; [by rewrite Hi'|auto..|by rewrite Hr'|done].
Qed.

(** ** Steps of one record *)

Lemma deadline_ok now d : ns now + d <= U64_MAX -> deadline now d = Ok (mkMono (wrap64 (ns now + d))).
Proof. intros H. unfold deadline. destruct (Z.ltb_spec (U64_MAX - ns now) d); [lia|done]. Qed.

(** The end of one phase, when its retention does not overflow. *)
Definition ended (r : ControllerRecord) (c : bool) (now : MonoTime) : ControllerRecord :=
  let r := if c then cx_set_cancel_active false r else cx_set_ordinary_active false r in
  let until := mkMono (wrap64 (ns now + controller_retention_ns)) in
  if ns (cx_expires r) <? ns until then cx_set_expires until r else r.

Lemma terminal_spec r c now r' : terminal r c now = Ok r' -> r' = r /\ phase_active r c = false \/ r' = ended r c now /\ phase_active r c = true.
Proof.
  unfold terminal, ended. destruct (phase_active r c); cbn [negb]; [|intros [= <-]; auto]. unfold deadline.
  destruct (_ <? _); [done|]. cbn [rbind]. intros [= <-]. auto.
Qed.
Lemma terminal_Ok r c now : ns now <= latest -> phase_active r c = true -> terminal r c now = Ok (ended r c now).
Proof. intros H Ha. unfold terminal. rewrite Ha. cbn [negb]. rewrite deadline_ok; [done|]. unfold latest in H. lia. Qed.
Lemma terminal_not_ub r c now : terminal r c now <> UB.
Proof. unfold terminal, deadline. destruct (phase_active r c); [|done]. cbn [negb]. by destruct (_ <? _). Qed.

Lemma ended_follows r c now : record_ok r -> follows r (ended r c now).
Proof.
  intros [Hu Hg Hc Ho Hd]. pose proof (Hd true) as Ht. pose proof (Hd false) as Hf. unfold ended. cbn [phase_active phase_deadline] in *.
  destruct c, (_ <? _); (split; [done|intros []; done|done|done|]; split; [done|done|done|done|intros []; cbn; done || auto]).
Qed.

Lemma terminal_follows r c now r' : record_ok r -> terminal r c now = Ok r' -> follows r r'.
Proof. intros H [[-> _]|[-> _]]%terminal_spec; [by apply follows_refl|by apply ended_follows]. Qed.

Lemma observer_follows r o : record_ok r -> (exists l c events, observer_inv (tk_message_id (cx_key r)) l c events o) -> follows r (cx_set_observer o r).
Proof. intros [Hu Hg Hc Ho Hd] Ho'. split; [done|by intros []|done|done|]. by split. Qed.

Lemma observe_follows r op : record_ok r -> exists o, observe (cx_observer r) op = Ok o /\ follows r (cx_set_observer o r).
Proof.
  intros H. destruct (ro_observer r H) as (l & c & events & Hi). destruct (observe_inv _ _ _ _ _ op Hi) as (o & E & Ho).
  exists o. split; [done|]. apply observer_follows; [done|eauto].
Qed.

(** ** Overdue phases *)

Definition overdue (r : ControllerRecord) (c : bool) (now : MonoTime) : bool :=
  phase_active r c && (ns (phase_deadline r c) <=? ns now).
Definition timeout_op (c : bool) : ObserverOp := if c then op_cancellation_timeout else op_timeout.

Lemma time_out_spec r c now : record_ok r ->
  exists r', time_out r c now = Ok (Ok tt, r') /\ follows r r' /\
    (overdue r c now = false -> r' = r) /\
    (overdue r c now = true -> exists o, observe (cx_observer r) (timeout_op c) = Ok o /\ r' = cx_set_observer o (ended r c (phase_deadline r c))).
Proof.
  intros H. unfold time_out. fold (overdue r c now). destruct (overdue r c now) eqn:E.
  2: { exists r. split_and!; [done|by apply follows_refl|done|done]. }
  apply andb_true_iff in E as [Ea _]. rewrite terminal_Ok by (by try apply (ro_deadline r H)). cbn [rbind].
  pose proof (ended_follows r c (phase_deadline r c) H) as Hf. destruct (observe_follows _ (timeout_op c) (fo_ok _ _ Hf)) as (o & Eo & Ho).
  assert (Ephase : phase_timeout (cx_observer (ended r c (phase_deadline r c))) c = Ok o) by (by destruct c).
  rewrite Ephase. cbn [rbind]. eexists. split_and!; [done|by eapply follows_trans|done|]. intros _. exists o. split; [|done].
  rewrite <- Eo. unfold ended. by destruct c, (_ <? _).
Qed.

Lemma time_out_other r c now r' d : time_out r c now = Ok (Ok tt, r') -> d <> c ->
  phase_active r' d = phase_active r d /\ phase_deadline r' d = phase_deadline r d.
Proof.
  unfold time_out. destruct (_ && _); [|by intros [= <-]]. destruct (terminal _ _ _) as [r1| |] eqn:E; [|done|done].
  intros H. apply rbind_Ok in H as (o & _ & [= <-]). intros Hd. apply terminal_spec in E as [[-> _]|[-> _]]; [done|].
  unfold ended. destruct c, d, (_ <? _); done.
Qed.

(** ** A response *)

(** The word of the request a response answers. *)
Definition phase_cam (r : ControllerRecord) (c : bool) : Z :=
  if c then cx_cancel_cam r else match command (cx_request r) with Some q => cam q | None => 0 end.
Definition response_options (r : ControllerRecord) (c : bool) : DecodeOptions := mkOptions (Some (phase_cam r c)) None limits_default.

(** What a response tells the observer: first that its phase is overdue, if it is. *)
Definition response_ops (r : ControllerRecord) (c : bool) (parsed : PacketView) (now : MonoTime) : list ObserverOp :=
  (if overdue r c now then [timeout_op c] else []) ++ [op_receive parsed].

Lemma check_response_spec r e c wire : record_ok r ->
  safe (check_response r e c wire) /\
  (forall parsed original, check_response r e c wire = Ok (parsed, original) ->
     original = phase_cam r (cancel e) /\ decode_packet wire (response_options r (cancel e)) = Ok parsed).
Proof.
  intros H. destruct (ro_command r H) as (q & Eq & _). unfold check_response, response_options, phase_cam. rewrite Eq.
  test_goal E1; [done|]. test_goal E2; [done|].
  replace (if cancel e then _ else _) with (Ok (if cancel e then cx_cancel_cam r else cam q)) by (by destruct (cancel e)). cbn [rbind].
  test_goal E3; [done|]. test_goal E4; [done|]. split.
  - apply rbind_safe; [apply decode_packet_ok|done].
  - intros parsed original (p & Hp & [= <- <-])%rbind_Ok. done.
Qed.

Lemma capture_fields_safe mask views : Forall view_ok views -> forall fields selected, safe (capture_fields mask views fields selected).
Proof.
  induction 1 as [|v views Hv _ IH]; intros fields selected; cbn; [done|]. test_goal E; [done|].
  apply rbind_safe; [by apply view_accessors_safe|auto].
Qed.

Lemma capture_bounds_safe mask views : Forall view_ok views -> forall o minima maxima, safe (capture_bounds mask views o minima maxima).
Proof.
  induction 1 as [|v views Hv _ IH]; intros o minima maxima; cbn; [done|]. test_goal E; [done|].
  apply rbind_safe; [by apply view_accessors_safe|]. intros a _. by destruct (assign_bound _ _ _ _).
Qed.

Lemma capture_safe parsed r c cancellation : packet_ok parsed -> is_some (command (ev_envelope (pv_envelope parsed))) = true -> safe (capture parsed r c cancellation).
Proof.
  intros [Hv _] Hc. unfold capture. test_goal E1; [|test_goal E2; [|done]]; (apply rbind_safe; [|intros a _; by test_goal E]).
  - unfold capture_capabilities. apply rbind_safe; [by apply capture_bounds_safe|]. intros [[o minima] maxima] _. by test_goal E.
  - unfold capture_state. test_goal E; [done|]. destruct (command _); [|done]. cbn [deref rbind].
    apply rbind_safe; [by apply capture_fields_safe|]. by intros [] _.
Qed.

Lemma put_state_follows r c o : record_ok r -> follows r (set_phase_state c (keep_first (phase_state r c) o) r).
Proof.
  intros [Hu Hg Hc Ho Hd]. destruct c; (split; [done| |done|done|by split]); intros [] x; cbn; (done || by intros ->).
Qed.
Lemma put_capabilities_follows r o : record_ok r -> follows r (cx_set_ordinary_capabilities (keep_first (cx_ordinary_capabilities r) o) r).
Proof. intros [Hu Hg Hc Ho Hd]. split; [done|by intros []|by cbn; intros ? ->|done|by split]. Qed.
Lemma put_seen_follows r c m : record_ok r -> follows r (set_phase_seen c m r).
Proof. intros [Hu Hg Hc Ho Hd]. destruct c; (split; [done|by intros []|done|done|by split]). Qed.

Lemma terminal_observer r c now r' : terminal r c now = Ok r' -> cx_observer r' = cx_observer r.
Proof. intros [[-> _]|[-> _]]%terminal_spec; [done|]. unfold ended. by destruct c, (_ <? _). Qed.

Lemma receive_cases r parsed : record_ok r ->
  match receive (cx_observer r) parsed with
  | Ok o => observe (cx_observer r) (op_receive parsed) = Ok o /\ follows r (cx_set_observer o r)
  | Err _ => True
  | UB => False
  end.
Proof.
  intros H. destruct (observe_follows r (op_receive parsed) H) as (o & E & Hf). cbn [observe] in *.
  destruct (receive _ _); [|done..]. injection E as <-. done.
Qed.

(** The record after its checks, before its observations. *)
Lemma time_out_ops r c now r1 : time_out r c now = Ok (Ok tt, r1) -> record_ok r ->
  forall parsed o, observe (cx_observer r1) (op_receive parsed) = Ok o -> observe_all (cx_observer r) (response_ops r c parsed now) = Ok o.
Proof.
  intros E H parsed o Ho. destruct (time_out_spec r c now H) as (r' & E' & _ & Hno & Hyes). rewrite E in E'. injection E' as <-.
  unfold response_ops. destruct (overdue r c now); cbn [app observe_all].
  - destruct (Hyes eq_refl) as (o1 & -> & ->). cbn [rbind]. change (cx_observer (cx_set_observer _ _)) with o1 in Ho. by rewrite Ho.
  - rewrite (Hno eq_refl) in Ho. by rewrite Ho.
Qed.

Lemma receive_record_spec r v c wire now : record_ok r -> decode_envelope wire = Ok v -> command (ev_envelope v) = Some c ->
  exists res r', receive_record r (ev_envelope v) c wire now = Ok (res, r') /\ res <> UB /\ follows r r' /\
    (res = Ok tt -> exists parsed, decode_packet wire (response_options r (cancel (ev_envelope v))) = Ok parsed /\
       observe_all (cx_observer r) (response_ops r (cancel (ev_envelope v)) parsed now) = Ok (cx_observer r')).
Proof.
  intros H Hv Hc. set (e := ev_envelope v) in *. unfold receive_record. destruct (check_response_spec r e c wire H) as [Hs Hk].
  destruct (check_response r e c wire) as [[parsed original]| |]; [|by exists (Err e0), r; split_and!; [done|done|by apply follows_refl|done]|done].
  destruct (Hk parsed original eq_refl) as [-> Hp]. clear Hk Hs.
  destruct (time_out_spec r (cancel e) now H) as (r1 & Et & Hf1 & _). rewrite Et. cbn [rbind].
  pose proof (fo_ok _ _ Hf1) as H1. pose proof (proj2 (decode_packet_ok _ _) _ Hp) as Hpv.
  assert (Hcmd : is_some (command (ev_envelope (pv_envelope parsed))) = true).
  { apply decode_packet_envelope in Hp. rewrite Hv in Hp. injection Hp as <-. by fold e; rewrite Hc. }
  pose proof (capture_safe parsed r1 c (cancel e) Hpv Hcmd) as Hs.
  destruct (capture parsed r1 c (cancel e)) as [[st cp]| |]; [|by exists (Err e0), r1|done]. clear Hs.
  pose proof (receive_cases r1 parsed H1) as Hr. destruct (receive (cx_observer r1) parsed) as [o| |]; [|by exists (Err e0), r1|done].
  destruct Hr as [Eo Hf2].
  set (r2 := cx_set_observer o r1) in *. pose proof (put_state_follows r2 (cancel e) st (fo_ok _ _ Hf2)) as Hf3.
  set (r3 := set_phase_state _ _ r2) in *. pose proof (put_capabilities_follows r3 cp (fo_ok _ _ Hf3)) as Hf4.
  set (r4 := cx_set_ordinary_capabilities _ r3) in *. set (seen := Z.lor _ _).
  pose proof (put_seen_follows r4 (cancel e) seen (fo_ok _ _ Hf4)) as Hf5. set (r5 := set_phase_seen _ _ r4) in *.
  assert (Hf : follows r r5) by (do 4 (eapply follows_trans; [eassumption|]); done).
  assert (E5 : cx_observer r5 = o) by (by unfold r5, r4, r3; destruct (cancel e)).
  assert (Hall : observe_all (cx_observer r) (response_ops r (cancel e) parsed now) = Ok o) by (by eapply time_out_ops).
  clearbody r5. destruct (_ =? _); [|exists (Ok tt), r5; split_and!; [done..|]; intros _; exists parsed; by rewrite E5].
  pose proof (terminal_not_ub r5 (cancel e) now) as Hn. destruct (terminal r5 (cancel e) now) as [r6|e6|] eqn:E6; [| |done].
  - exists (Ok tt), r6. split_and!; [done|done|eapply follows_trans; [exact Hf|]; eapply terminal_follows; [apply Hf|exact E6]|].
    intros _. exists parsed. by rewrite (terminal_observer _ _ _ _ E6), E5.
  - by exists (Err e6), r5.
Qed.

(** ** The registry *)

Definition slot_ok (r : ControllerRecord) : Prop := 1 <= cx_generation r <= U64_MAX /\ (cx_used r = true -> record_ok r).

(** The relationship a record was made under. *)
Definition owned (rels : list Relationship) (r : ControllerRecord) : Prop :=
  exists i rel, rels !! i = Some rel /\ rl_used rel = true /\
    key_norm (clear_message (cx_key r)) = key_norm (rl_identity rel) /\ tk_message_id (cx_key r) < rl_next_mid rel.

Record registry_ok (s : ControllerRegistry) : Prop := mk_registry_ok {
  go_slots : Forall slot_ok (cg_records s);
  go_identities : forall i rel, cg_relationships s !! i = Some rel -> rl_used rel = true -> tk_message_id (rl_identity rel) = 0;
  go_apart : forall i j a b, cg_relationships s !! i = Some a -> cg_relationships s !! j = Some b -> rl_used a = true -> rl_used b = true ->
    same_wire_relationship (rl_identity a) (rl_identity b) = true -> i = j;
  go_owned : forall i r, cg_records s !! i = Some r -> cx_used r = true -> owned (cg_relationships s) r;
  go_keys : forall i j a b, cg_records s !! i = Some a -> cg_records s !! j = Some b -> cx_used a = true -> cx_used b = true ->
    same_key (cx_key a) (cx_key b) = true -> i = j }.

Definition wire_norm (k : TransactionKey) :=
  (peer (tk_peer k), tk_stream_id k, identifier_norm (tk_controller k), identifier_norm (tk_controllee k)).
Lemma same_wire_norm a b : same_wire_relationship a b = true <-> wire_norm a = wire_norm b.
Proof.
  unfold same_wire_relationship, wire_norm. rewrite !andb_true_iff, !bool_decide_eq_true, !Z.eqb_eq, !same_identifier_norm.
  split; [intros (((? & ?) & ?) & ?); congruence|intros [= ? ? ? ? ? ?]; split_and!; unfold identifier_norm; congruence].
Qed.
Lemma wire_of_key a b : key_norm a = key_norm b -> wire_norm a = wire_norm b.
Proof. intros H. exact (f_equal (fun '(_, p, stream, _, a, b) => (peer p, stream, a, b)) H). Qed.
Lemma key_norm_clear a b : key_norm a = key_norm b -> key_norm (clear_message a) = key_norm (clear_message b) /\ tk_message_id a = tk_message_id b.
Proof. intros H. split; [exact (f_equal (fun '(g, p, stream, _, a, b) => (g, p, stream, 0, a, b)) H)|exact (f_equal (fun '(_, _, _, m, _, _) => m) H)]. Qed.

Lemma registry_new_ok n m : registry_ok (registry_new n m).
Proof.
  assert (Hr : forall i r, cg_records (registry_new n m) !! i = Some r -> r = record_default 1) by (intros i r [-> _]%lookup_replicate; done).
  assert (Hl : forall i r, cg_relationships (registry_new n m) !! i = Some r -> r = relationship_default) by (intros i r [-> _]%lookup_replicate; done).
  split.
  - apply Forall_lookup_2. intros i r ->%Hr. by split.
  - by intros i r ->%Hl.
  - by intros i j a b ->%Hl.
  - by intros i r ->%Hr.
  - by intros i j a b ->%Hr.
Qed.

Lemma find_record_Some s h r : find_record s h = Some r <->
  cg_records s !! ch_slot h = Some r /\ cx_used r = true /\ cx_generation r = ch_generation h.
Proof.
  unfold find_record. destruct (cg_records s !! ch_slot h) as [q|]; [|by split; [|intros []]].
  destruct (cx_used q && _) eqn:E.
  - apply andb_true_iff in E as [Eu Eg%Z.eqb_eq]. split; [intros [= <-]; done|by intros [[= ->] _]].
  - split; [done|]. intros ([= ->] & Hu & Hg). rewrite Hu, Hg, Z.eqb_refl in E. done.
Qed.

Lemma used_ok s i r : registry_ok s -> cg_records s !! i = Some r -> cx_used r = true -> record_ok r.
Proof. intros H Hi Hu. by apply (Forall_lookup_1 _ _ _ _ (go_slots s H) Hi). Qed.

(** A registry whose relationships stay, and whose used records keep their identity. *)
Lemma registry_update s l : registry_ok s -> Forall slot_ok l -> length l = length (cg_records s) ->
  (forall i r r', cg_records s !! i = Some r -> l !! i = Some r' -> cx_used r' = true -> cx_used r = true /\ cx_key r' = cx_key r) ->
  registry_ok (mkRegistry (cg_relationships s) l).
Proof.
  intros [H1 H2 H3 H4 H5] Hl Hlen Hid.
  assert (Hold : forall i r', l !! i = Some r' -> cx_used r' = true -> exists r, cg_records s !! i = Some r /\ cx_used r = true /\ cx_key r' = cx_key r).
  { intros i r' Hi Hu. destruct (cg_records s !! i) as [r|] eqn:E; [exists r; destruct (Hid i r r' E Hi Hu); done|].
    apply lookup_ge_None in E. apply lookup_lt_Some in Hi. lia. }
  split; cbn; [done|done|done| |].
  - intros i r' Hi Hu. destruct (Hold i r' Hi Hu) as (r & Hr & Hur & Hk). unfold owned. rewrite Hk. by apply (H4 i r).
  - intros i j a' b' Ha Hb Hua Hub Hk. destruct (Hold i a' Ha Hua) as (a & Ea & Ua & Ka). destruct (Hold j b' Hb Hub) as (b & Eb & Ub & Kb).
    rewrite Ka, Kb in Hk. by apply (H5 i j a b).
Qed.

Lemma put_ok s i r r' : registry_ok s -> cg_records s !! i = Some r -> cx_used r = true -> identity_of r' = identity_of r -> record_ok r' ->
  registry_ok (put_controller s i r').
Proof.
  intros H Hi Hu E Hr'. apply registry_update; [done| |by rewrite length_insert|].
  - apply Forall_insert; [apply H|]. split; [|done]. destruct Hr'. lia.
  - intros j q q' Hq Hq' Huq. apply list_lookup_insert_Some in Hq' as [(<- & <- & _)|[_ Hq']].
    + rewrite Hi in Hq. injection Hq as <-. unfold identity_of in E. by injection E as ? ? -> ?.
    + rewrite Hq in Hq'. by injection Hq' as <-.
Qed.

(** ** What an operation does to the slots *)

(** The references held through a handle: [retain] adds one, unless the count is at its
    maximum, [release] takes one back if there is one, and nothing else counts. *)
Definition hold (h : ControllerHandle) (n : Z) (op : ControllerOp) : Z :=
  match op with
  | cop_retain h' => if bool_decide (h' = h) && negb (n =? SIZE_MAX) then n + 1 else n
  | cop_release h' => if bool_decide (h' = h) && negb (n =? 0) then n - 1 else n
  | _ => n
  end.

Lemma hold_retain_other h h' n : h' <> h -> hold h n (cop_retain h') = n.
Proof. intros. cbn. by rewrite bool_decide_false. Qed.
Lemma hold_release_other h h' n : h' <> h -> hold h n (cop_release h') = n.
Proof. intros. cbn. by rewrite bool_decide_false. Qed.

Record keeps (op : ControllerOp) (i : nat) (r r' : ControllerRecord) : Prop := mk_keeps {
  ke_identity : identity_of r' = identity_of r;
  ke_state : forall c o, phase_state r c = Some o -> phase_state r' c = Some o;
  ke_capabilities : forall o, cx_ordinary_capabilities r = Some o -> cx_ordinary_capabilities r' = Some o;
  ke_references : cx_references r' = hold (mkControllerHandle i (cx_generation r)) (cx_references r) op }.

Definition slot_step (op : ControllerOp) (i : nat) (r r' : ControllerRecord) : Prop :=
  if cx_used r then keeps op i r r' \/
    (exists now, op = cop_expire now /\ expired_record now r = true /\ r' = record_default (cx_generation r + 1))
  else cx_generation r' = cx_generation r.

Definition stepped (op : ControllerOp) (s s' : ControllerRegistry) : Prop :=
  length (cg_records s') = length (cg_records s) /\
  forall i r r', cg_records s !! i = Some r -> cg_records s' !! i = Some r' -> slot_step op i r r'.

Definition step_spec (op : ControllerOp) (s s' : ControllerRegistry) : Prop := registry_ok s' /\ stepped op s s'.

Lemma slot_step_refl op i r :
  (cx_used r = true -> hold (mkControllerHandle i (cx_generation r)) (cx_references r) op = cx_references r) -> slot_step op i r r.
Proof. intros H. unfold slot_step. destruct (cx_used r); [left|done]. split; try done. by rewrite H. Qed.

(** The operation counts for no record. *)
Definition uncounted (op : ControllerOp) (s : ControllerRegistry) : Prop :=
  forall i r, cg_records s !! i = Some r -> cx_used r = true ->
  hold (mkControllerHandle i (cx_generation r)) (cx_references r) op = cx_references r.

Lemma stepped_same op s s' : uncounted op s -> cg_records s' = cg_records s -> stepped op s s'.
Proof.
  intros Hc E. split; [by rewrite E|]. intros i r r' Hr Hr'. rewrite E, Hr in Hr'. injection Hr' as <-.
  apply slot_step_refl. by apply Hc.
Qed.
Lemma step_same op s : registry_ok s -> uncounted op s -> step_spec op s s.
Proof. split; [done|by apply stepped_same]. Qed.
Lemma stepped_insert op s l i r r' : cg_records s !! i = Some r -> slot_step op i r r' ->
  (forall j g n, j <> i -> hold (mkControllerHandle j g) n op = n) -> stepped op s (mkRegistry l (<[i := r']> (cg_records s))).
Proof.
  intros Hi H Hc. split; [cbn; by rewrite length_insert|]. intros j q q' Hq Hq'.
  apply list_lookup_insert_Some in Hq' as [(<- & <- & _)|[Hne Hq']]; [by rewrite Hi in Hq; injection Hq as <-|].
  rewrite Hq in Hq'. injection Hq' as <-. apply slot_step_refl. intros _. by apply Hc.
Qed.

Lemma follows_keeps op i r r' :
  hold (mkControllerHandle i (cx_generation r)) (cx_references r) op = cx_references r -> follows r r' -> keeps op i r r'.
Proof. intros Hc [H1 H2 H3 H4 _]. split; [done|done|done|by rewrite H4]. Qed.

Lemma put_step op s i r r' : registry_ok s -> cg_records s !! i = Some r -> cx_used r = true -> keeps op i r r' -> record_ok r' ->
  (forall j g n, j <> i -> hold (mkControllerHandle j g) n op = n) -> step_spec op s (put_controller s i r').
Proof.
  intros H Hi Hu Hk Hok Hc. split; [eapply put_ok; [done|done|done|apply Hk|done]|].
  eapply stepped_insert; [done| |done]. unfold slot_step. rewrite Hu. by left.
Qed.
Lemma follows_step op s i r r' : (forall h n, hold h n op = n) -> registry_ok s -> cg_records s !! i = Some r -> cx_used r = true -> follows r r' ->
  step_spec op s (put_controller s i r').
Proof. intros Hc H Hi Hu Hf. eapply put_step; [done|done|done|by apply follows_keeps|apply Hf|done]. Qed.

(** An operation on the record of a handle. *)
Lemma found_ok s h r : registry_ok s -> find_record s h = Some r -> record_ok r /\ cg_records s !! ch_slot h = Some r /\ cx_used r = true.
Proof. intros H (Hi & Hu & _)%find_record_Some. split; [by eapply used_ok|done]. Qed.

(** ** Relationships *)

Lemma bump_ok s i rel next : registry_ok s -> cg_relationships s !! i = Some rel -> rl_used rel = true -> rl_next_mid rel <= next ->
  registry_ok (mkRegistry (<[i := mkRelationship (rl_used rel) (rl_sdr_profile rel) (rl_identity rel) next]> (cg_relationships s)) (cg_records s)).
Proof.
  intros [H1 H2 H3 H4 H5] Hi Hu Hn. set (rel' := mkRelationship _ _ _ next).
  assert (Hback : forall j q, <[i := rel']> (cg_relationships s) !! j = Some q -> exists p, cg_relationships s !! j = Some p /\ rl_used p = rl_used q /\ rl_identity p = rl_identity q).
  { intros j q Hq. apply list_lookup_insert_Some in Hq as [(<- & <- & _)|[_ Hq]]; [by exists rel|by exists q]. }
  split; cbn; [done| | | |done].
  - intros j q Hq Huq. destruct (Hback j q Hq) as (p & Hp & Eu & <-). apply (H2 j p); [done|congruence].
  - intros j k a b Ha Hb Hua Hub Hw. destruct (Hback j a Ha) as (a' & Ha' & Ea & Ei). destruct (Hback k b Hb) as (b' & Hb' & Eb & Ej).
    apply (H3 j k a' b'); [done|done|congruence|congruence|by rewrite Ei, Ej].
  - intros j r Hr Hur. destruct (H4 j r Hr Hur) as (k & q & Hq & Huq & Hkey & Hmid). unfold owned. destruct (decide (k = i)) as [->|Hne].
    + rewrite Hi in Hq. injection Hq as <-. exists i, rel'. rewrite list_lookup_insert_eq by (by eapply lookup_lt_Some). split_and!; [done|done|done|cbn; lia].
    + exists k, q. by rewrite list_lookup_insert_ne by done.
Qed.

Lemma registered_loop_none l identity sdr : forall i, registered_loop i l identity sdr = Ok None ->
  forall j rel, l !! j = Some rel -> rl_used rel = true -> same_wire_relationship (rl_identity rel) identity = false.
Proof.
  induction l as [|x l IH]; intros i H j rel Hj Hu; [done|]. cbn in H. destruct j as [|j]; cbn in Hj.
  - injection Hj as ->. rewrite Hu in H. cbn [negb] in H. destruct (same_key _ _); [by destruct (negb _)|]. by destruct (same_wire_relationship _ _).
  - destruct (rl_used x); cbn [negb] in H; [|by apply (IH (S i) H j)]. destruct (same_key _ _); [by destruct (negb _)|].
    destruct (same_wire_relationship _ _) in H; [done|]. by apply (IH (S i) H j).
Qed.
Lemma registered_loop_safe l identity sdr : forall i, registered_loop i l identity sdr <> UB.
Proof.
  induction l as [|x l IH]; intros i; cbn; [done|]. destruct (negb _); [apply IH|]. destruct (same_key _ _); [by destruct (negb _)|].
  destruct (same_wire_relationship _ _); [done|apply IH].
Qed.

Lemma relationship_added s i rel identity sdr next : registry_ok s -> cg_relationships s !! i = Some rel -> rl_used rel = false ->
  (forall j q, cg_relationships s !! j = Some q -> rl_used q = true -> same_wire_relationship (rl_identity q) identity = false) ->
  tk_message_id identity = 0 ->
  registry_ok (mkRegistry (<[i := mkRelationship true sdr identity next]> (cg_relationships s)) (cg_records s)).
Proof.
  intros [H1 H2 H3 H4 H5] Hi Hu Hw Hm. set (rel' := mkRelationship _ _ _ _). split; cbn; [done| | | |done].
  - intros j q Hq Huq. apply list_lookup_insert_Some in Hq as [(<- & <- & _)|[_ Hq]]; [done|by apply (H2 j q)].
  - intros j k a b Ha Hb Hua Hub E. apply same_wire_norm in E.
    apply list_lookup_insert_Some in Ha as [(<- & <- & _)|[Hj Ha]], Hb as [(<- & <- & _)|[Hk Hb]]; [done| | |].
    + exfalso. eapply not_true_iff_false, same_wire_norm; [apply (Hw k b Hb Hub)|done].
    + exfalso. eapply not_true_iff_false, same_wire_norm; [apply (Hw j a Ha Hua)|done].
    + apply (H3 j k a b); try done. by apply same_wire_norm.
  - intros j r Hr Hur. destruct (H4 j r Hr Hur) as (k & q & Hq & Huq & ?). exists k, q. rewrite list_lookup_insert_ne; [done|].
    intros ->. rewrite Hi in Hq. injection Hq as <-. congruence.
Qed.

(** ** Requests *)

Lemma record_placed s i r r' : registry_ok s -> cg_records s !! i = Some r -> cx_used r = false -> record_ok r' ->
  owned (cg_relationships s) r' ->
  (forall j q, cg_records s !! j = Some q -> cx_used q = true -> key_norm (cx_key r') <> key_norm (cx_key q)) ->
  registry_ok (put_controller s i r').
Proof.
  intros [H1 H2 H3 H4 H5] Hi Hu Hok Hown Hfresh. split; cbn; [|done|done| |].
  - apply Forall_insert; [done|]. split; [destruct Hok; lia|done].
  - intros j q Hq Huq. apply list_lookup_insert_Some in Hq as [(<- & <- & _)|[_ Hq]]; [done|by apply (H4 j q)].
  - intros j k a b Ha Hb Hua Hub E. apply same_key_norm in E.
    apply list_lookup_insert_Some in Ha as [(<- & <- & _)|[Hj Ha]], Hb as [(<- & <- & _)|[Hk Hb]]; [done| | |].
    + by destruct (Hfresh k b Hb Hub).
    + by destruct (Hfresh j a Ha Hua).
    + apply (H5 j k a b); try done. by apply same_key_norm.
Qed.

Lemma select_mask_safe views : forall m q, safe (select_mask views m q).
Proof. induction views as [|v views IH]; intros m q; cbn; [done|]. test_goal E; [done|apply IH]. Qed.

Lemma transaction_key_not_ub packet g p : safe (transaction_key packet g p).
Proof. unfold transaction_key. destruct (command _); [|done]. by test_goal E. Qed.

Lemma check_track_spec rel request now t : safe (check_track rel request now t) /\
  (forall limit m q, check_track rel request now t = Ok (limit, m, q) ->
     is_some (command (ev_envelope (pv_envelope request))) = true /\ ns limit <= latest /\ rl_next_mid rel <= U32_MAX).
Proof.
  unfold check_track. test_goal E1; [done|]. split.
  - apply rbind_safe; [apply transaction_key_not_ub|]. intros k _. test_goal E2; [done|]. test_goal E3; [done|].
    apply rbind_safe; [unfold deadline; by test_goal E4|]. intros limit _. test_goal E4; [done|].
    apply rbind_safe; [apply select_mask_safe|]. by intros [] _.
  - intros limit m q H. rewrite !orb_false_iff in E1. inv_ok. apply orb_false_iff in E2 as [_ E2]. unfold not_retainable in E2. apply Z.ltb_ge in E2.
    apply Z.ltb_ge in E0. unfold latest. split_and!; [destruct E1 as [[[[[_ E1] _] _] _] _]; by destruct (command _)|lia|lia].
Qed.

Lemma find_relationship_Some s h rel : find_relationship s h = Some rel -> cg_relationships s !! rh_slot h = Some rel /\ rl_used rel = true.
Proof. unfold find_relationship. destruct (cg_relationships s !! _) as [q|]; [|done]. destruct (rl_used q) eqn:E; [|done]. by intros [= <-]. Qed.

(** ** Every operation *)

Section steps.
Variable max_cancel_bytes : nat.

Definition does (s : ControllerRegistry) (op : ControllerOp) : Prop :=
  ensures (controller_do max_cancel_bytes s op) (step_spec op s).

Lemma settled_same {A} op s (x : Result A) : registry_ok s -> uncounted op s -> x <> UB -> ensures (settled (x, s)) (step_spec op s).
Proof. intros H Hc Hx. destruct x; [..|done]; apply ensures_Ok; by apply step_same. Qed.

Lemma register_step s identity mid profile : registry_ok s -> does s (cop_register identity mid profile).
Proof.
  intros H. unfold does. cbn [controller_do]. unfold register_relationship. destruct (identity_refused _); [by apply settled_same|].
  cbv zeta. pose proof (registered_loop_safe (cg_relationships s) (clear_message identity) (profile =? Profile.sdr_radio) 0) as Hs.
  pose proof (registered_loop_none (cg_relationships s) (clear_message identity) (profile =? Profile.sdr_radio) 0) as Hn.
  destruct (registered_loop _ _ _ _) as [[i|]| |]; [by apply settled_same| |by apply settled_same|done].
  destruct (first_index _ _) as [i|] eqn:Ei; [|by apply settled_same]. apply first_index_Some in Ei as [(rel & Hrel & Hu%negb_true_iff) _].
  apply ensures_Ok. split; [|by apply stepped_same]. eapply relationship_added; [done|done|done|by apply Hn|done].
Qed.

Lemma resume_step s h w : registry_ok s -> does s (cop_resume h w).
Proof.
  intros H. unfold does. cbn [controller_do]. unfold resume_after. destruct (find_relationship s h) as [rel|] eqn:Eh; [|by apply settled_same].
  apply find_relationship_Some in Eh as [Hi Hu]. destruct (w =? U32_MAX); [by apply settled_same|]. cbv zeta.
  destruct (Z.ltb_spec (rl_next_mid rel) (w + 1)); [|by apply settled_same]. apply ensures_Ok. split; [|by apply stepped_same].
  apply bump_ok; [done..|lia].
Qed.

Lemma observer_new_inv mid : observer_inv mid false false [] (observer_new mid).
Proof. split; (done || apply base.NoDup_nil_2 || (intros ? []%elem_of_nil) || apply List.Forall_nil). Qed.

Lemma track_step s h request now t : registry_ok s -> does s (cop_track h request now t).
Proof.
  intros H. unfold does. cbn [controller_do]. unfold track. destruct (find_relationship s h) as [rel|] eqn:Eh; [|by apply settled_same].
  apply find_relationship_Some in Eh as [Hh Hu]. destruct (check_track_spec rel request now t) as [Hs Hk].
  destruct (check_track rel request now t) as [[[limit m] q]| |]; [|by apply settled_same|done]. destruct (Hk _ _ _ eq_refl) as (Hc & Hl & _).
  destruct (first_index _ _) as [i|] eqn:Ei; [|by apply settled_same].
  apply first_index_Some in Ei as [(r & Hr & [Hur%negb_true_iff Hg%negb_true_iff]%andb_true_iff) _]. rewrite Hr. cbn [deref rbind]. cbv zeta.
  set (mid := rl_next_mid rel). set (r' := mkController _ _ _ _ _ _ _ _ _ _ _ _ _ _ _ _ _ _ _ _ _ _ _).
  apply ensures_Ok. cbn [settled fst snd]. split; [|eapply stepped_insert; [done|unfold slot_step; by rewrite Hur|done]].
  pose proof (bump_ok s _ rel (mid + 1) H Hh Hu ltac:(lia)) as Hb. set (s1 := mkRegistry (<[rh_slot h := _]> _) (cg_records s)) in Hb.
  assert (Hkey : key_norm (clear_message (cx_key r')) = key_norm (rl_identity rel)).
  { unfold key_norm. cbn. by rewrite (go_identities s H _ _ Hh Hu). }
  destruct (Forall_lookup_1 _ _ _ _ (go_slots s H) Hr) as [Hgen _]. apply Z.eqb_neq in Hg.
  apply (record_placed s1 i r r' Hb Hr Hur).
  - split; [done|cbn; lia| |do 3 eexists; apply observer_new_inv|by intros []].
    cbn. destruct (command _) as [c|]; [|done]. by eexists.
  - eexists _, _. unfold s1. cbn [cg_relationships]. rewrite list_lookup_insert_eq by (by eapply lookup_lt_Some). split_and!; [done|done|exact Hkey|cbn; lia].
  - intros j q' Hq Huq E. destruct (key_norm_clear _ _ E) as [Ec Em]. rewrite Hkey in Ec.
    destruct (go_owned s H j q' Hq Huq) as (k & rel' & Hrel' & Hu' & Ek & Hm). rewrite Ek in Ec.
    assert (rh_slot h = k) as <-. { eapply (go_apart s H); try done. by apply same_wire_norm, wire_of_key. }
    rewrite Hh in Hrel'. injection Hrel' as <-. cbn in Em. unfold mid in Em. lia.
Qed.

Lemma cancel_step s h packet now t : registry_ok s -> does s (cop_cancel h packet now t).
Proof.
  intros H. unfold does. cbn [controller_do]. unfold register_cancel. destruct (find_record s h) as [r|] eqn:Eh; [|by apply settled_same].
  destruct (found_ok s h r H Eh) as (Hr & Hi & Hu). cbv zeta.
  destruct (negb (bool_decide _)); [by apply settled_same|]. destruct (command _) as [c|]; [|by apply settled_same].
  destruct (_ || _ || _ || _ || _); [by apply settled_same|].
  destruct (transaction_key _ _ _) as [key| |]; [|by apply settled_same..]. destruct (negb (same_key _ _)); [by apply settled_same|].
  destruct (cx_cancel_registered r); [destruct (bool_decide _); by apply settled_same|].
  pose proof (select_mask_safe (pv_fields packet) 0 false) as Hs. destruct (select_mask _ _ _) as [[m q]| |]; [|by apply settled_same|done].
  destruct (nonzero _); [by apply settled_same|]. destruct (_ <? _)%nat; [by apply settled_same|].
  destruct (deadline now t) as [limit| |]; [|by apply settled_same..].
  destruct (not_retainable limit) eqn:El; [by apply settled_same|]. unfold not_retainable in El. apply Z.ltb_ge in El.
  apply ensures_Ok. cbn [settled fst snd]. eapply follows_step; [done|done|done|done|]. split; [done|by intros []|done|done|].
  destruct Hr as [_ Hg Hc Ho Hd]. split; [done..|]. intros [] Ha; [exact El|exact (Hd false Ha)].
Qed.

Lemma send_step s h b : registry_ok s -> does s (cop_send h b).
Proof.
  intros H. unfold does. cbn [controller_do]. unfold record_local_send. destruct (find_record s h) as [r|] eqn:Eh; [|by apply settled_same].
  destruct (found_ok s h r H Eh) as (Hr & Hi & Hu). destruct (observe_follows r (op_local_send b) Hr) as (o & Eo & Hf). cbn [observe] in Eo.
  rewrite Eo. apply ensures_Ok. by eapply follows_step.
Qed.

Lemma receive_spec s g p wire now : registry_ok s ->
  exists res s', controller_receive s g p wire now = Ok (res, s') /\ res <> UB /\
    (s' = s /\ is_ok res = false \/
     exists v c i r r' done_, decode_envelope wire = Ok v /\ command (ev_envelope v) = Some c /\
       cg_records s !! i = Some r /\ matches (response_key g p (ev_envelope v) c) r = true /\
       receive_record r (ev_envelope v) c wire now = Ok (done_, r') /\ follows r r' /\
       res = rmap (fun _ => mkControllerHandle i (cx_generation r)) done_ /\ s' = put_controller s i r').
Proof.
  intros H. unfold controller_receive. pose proof (decode_envelope_safe_aux wire) as Hs.
  destruct (decode_envelope wire) as [v|e|] eqn:Ev; [|by exists (Err e), s; eauto|done]. cbv zeta.
  destruct (command (ev_envelope v)) as [c|] eqn:Ec; [|by eexists (Err _), s; eauto].
  destruct (negb _); [by eexists (Err _), s; eauto|].
  destruct (first_index _ _) as [i|] eqn:Ei; [|by eexists (Err _), s; eauto].
  apply first_index_Some in Ei as [(r & Hr & Hm) _]. rewrite Hr. cbn [deref rbind].
  assert (Hu : cx_used r = true) by (apply andb_true_iff in Hm; tauto).
  destruct (receive_record_spec r v c wire now (used_ok s i r H Hr Hu) Ev Ec) as (d & r' & E & Hd & Hf & _). rewrite E. cbn [rbind].
  do 2 eexists. split; [done|]. split; [by destruct d|]. right. exists v, c, i, r, r', d. split_and!; try done.
  pose proof (fo_identity _ _ Hf) as Hid. unfold identity_of in Hid. by injection Hid as _ -> _ _.
Qed.

Lemma receive_step s g p wire now : registry_ok s -> does s (cop_receive g p wire now).
Proof.
  intros H. unfold does. cbn [controller_do]. destruct (receive_spec s g p wire now H) as (res & s' & -> & Hres & Hcase). cbn [rbind].
  destruct Hcase as [[-> _]|(v & c & i & r & r' & d & _ & _ & Hi & Hm & _ & Hf & _ & ->)]; [by apply settled_same|].
  exists (put_controller s i r'). split; [by destruct res|]. eapply follows_step; [done|done|done| |done]. apply andb_true_iff in Hm; tauto.
Qed.

(** *** Time *)

(** The end of the retention of a phase that is overdue. *)
Definition retained_until (r : ControllerRecord) (c : bool) (now : MonoTime) : Z :=
  if overdue r c now then wrap64 (ns (phase_deadline r c) + controller_retention_ns) else ns (cx_expires r).
Definition overdue_ops (r : ControllerRecord) (now : MonoTime) : list ObserverOp :=
  (if overdue r false now then [op_timeout] else []) ++ (if overdue r true now then [op_cancellation_timeout] else []).

(** A record after its overdue phases have ended, at their deadlines. *)
Record advanced (now : MonoTime) (r r' : ControllerRecord) : Prop := mk_advanced {
  av_active : forall c, phase_active r' c = phase_active r c && negb (overdue r c now);
  av_deadline : forall c, phase_deadline r' c = phase_deadline r c;
  av_expires : ns (cx_expires r') = Z.max (ns (cx_expires r)) (Z.max (retained_until r false now) (retained_until r true now));
  av_observer : observe_all (cx_observer r) (overdue_ops r now) = Ok (cx_observer r');
  av_follows : follows r r' }.

Lemma ended_phases r c now d : phase_active (ended r c now) d = phase_active r d && negb (Bool.eqb c d) /\ phase_deadline (ended r c now) d = phase_deadline r d.
Proof. unfold ended. destruct c, d, (_ <? _); cbn; rewrite ?andb_false_r, ?andb_true_r; done. Qed.
Lemma ended_rest r c now : ns (cx_expires (ended r c now)) = Z.max (ns (cx_expires r)) (wrap64 (ns now + controller_retention_ns)) /\
  cx_observer (ended r c now) = cx_observer r.
Proof. unfold ended. destruct c; cbn [cx_set_cancel_active cx_set_ordinary_active cx_expires ns]; (destruct (Z.ltb_spec (ns (cx_expires r)) (wrap64 (ns now + controller_retention_ns))); (split; [cbn; lia|done])). Qed.

(** The same for one phase: the other one does not change. *)
Lemma time_out_phases r c now : record_ok r ->
  exists r', time_out r c now = Ok (Ok tt, r') /\ follows r r' /\
    (forall d, phase_active r' d = phase_active r d && negb (Bool.eqb c d && overdue r c now) /\ phase_deadline r' d = phase_deadline r d) /\
    ns (cx_expires r') = Z.max (ns (cx_expires r)) (retained_until r c now) /\
    observe_all (cx_observer r) (if overdue r c now then [timeout_op c] else []) = Ok (cx_observer r').
Proof.
  intros H. destruct (time_out_spec r c now H) as (r' & E & Hf & Hno & Hyes). exists r'. split; [done|]. split; [done|].
  unfold retained_until. destruct (overdue r c now).
  - destruct (Hyes eq_refl) as (o & Eo & ->). cbn [observe_all]. rewrite Eo. split_and!; [|apply ended_rest|done].
    intros d. rewrite andb_true_r. apply (ended_phases r c (phase_deadline r c) d).
  - rewrite (Hno eq_refl). split_and!; [|lia|done]. intros d. by rewrite andb_false_r, andb_true_r.
Qed.

Lemma observe_all_app ops ops' : forall o o1, observe_all o ops = Ok o1 -> observe_all o (ops ++ ops') = observe_all o1 ops'.
Proof. induction ops as [|op ops IH]; intros o o1; cbn; [by intros [= ->]|]. intros (o2 & E & H)%rbind_Ok. rewrite E. by apply IH. Qed.

Lemma advance_record_spec r now : record_ok r ->
  exists r', advance_record r now = Ok (Ok tt, r') /\ advanced now r r'.
Proof.
  intros H. unfold advance_record. rewrite (ro_used r H). cbn [negb].
  destruct (time_out_phases r false now H) as (r1 & -> & Hf1 & Hp1 & Hx1 & Ho1). cbn [rbind].
  destruct (time_out_phases r1 true now (fo_ok _ _ Hf1)) as (r2 & -> & Hf2 & Hp2 & Hx2 & Ho2).
  assert (E : overdue r1 true now = overdue r true now).
  { unfold overdue. destruct (Hp1 true) as [-> ->]. cbn. by rewrite andb_true_r. }
  exists r2. split; [done|]. split.
  - intros c. destruct (Hp2 c) as [-> _], (Hp1 c) as [-> _]. rewrite E. destruct c; cbn; by rewrite ?andb_true_r.
  - intros c. by destruct (Hp2 c) as [_ ->], (Hp1 c) as [_ ->].
  - rewrite Hx2. unfold retained_until in *. rewrite E, Hx1. destruct (Hp1 true) as [_ ->]. destruct (overdue r true now); lia.
  - unfold overdue_ops. erewrite observe_all_app; [|exact Ho1]. by rewrite <- E.
  - by eapply follows_trans.
Qed.

(** A slot after [advance]. *)
Definition advanced_slot (now : MonoTime) (r r' : ControllerRecord) : Prop :=
  if cx_used r then advanced now r r' else r' = r.

Lemma advance_loop_spec now l : Forall slot_ok l -> exists l', advance_loop l now = Ok (Ok tt, l') /\ Forall2 (advanced_slot now) l l'.
Proof.
  induction 1 as [|r l [Hg Hr] _ (l' & E & IH)]; cbn; [by exists []; split; [|constructor]|].
  destruct (cx_used r) eqn:Eu.
  - destruct (advance_record_spec r now (Hr eq_refl)) as (r' & -> & Ha). cbn [rbind]. rewrite E. cbn [rbind].
    exists (r' :: l'). split; [done|]. constructor; [|done]. unfold advanced_slot. by rewrite Eu.
  - unfold advance_record. rewrite Eu. cbn [negb rbind]. rewrite E. cbn [rbind].
    exists (r :: l'). split; [done|]. constructor; [|done]. unfold advanced_slot. by rewrite Eu.
Qed.

Lemma controller_advance_spec s now : registry_ok s -> exists l, controller_advance s now = Ok (Ok tt, mkRegistry (cg_relationships s) l) /\
  Forall2 (advanced_slot now) (cg_records s) l.
Proof. intros H. unfold controller_advance. destruct (advance_loop_spec now _ (go_slots s H)) as (l & -> & Hl). by exists l. Qed.

(** Slots that change one by one. *)
Lemma slots_step op s l (P : ControllerRecord -> ControllerRecord -> Prop) : registry_ok s -> Forall2 P (cg_records s) l ->
  (forall r r', slot_ok r -> P r r' -> slot_ok r' /\ (cx_used r' = true -> cx_used r = true /\ cx_key r' = cx_key r) /\ forall i, slot_step op i r r') ->
  step_spec op s (mkRegistry (cg_relationships s) l).
Proof.
  intros H Hl HP. pose proof (Forall2_length Hl) as Hlen.
  assert (Hi : forall i r r', cg_records s !! i = Some r -> l !! i = Some r' -> slot_ok r' /\ (cx_used r' = true -> cx_used r = true /\ cx_key r' = cx_key r) /\ slot_step op i r r').
  { intros i r r' Hr Hr'. destruct (HP r r' (Forall_lookup_1 _ _ _ _ (go_slots s H) Hr) (Forall2_lookup_lr _ _ _ _ _ _ Hl Hr Hr')) as (? & ? & ?). done. }
  split.
  - apply registry_update; [done| |done|by intros i r r' Hr Hr'; apply (Hi i r r')].
    apply Forall_lookup_2. intros i r' Hr'. destruct (lookup_lt_is_Some_2 (cg_records s) i) as [r Hr]; [apply lookup_lt_Some in Hr'; lia|]. by apply (Hi i r r').
  - split; [done|]. intros i r r' Hr Hr'. by apply (Hi i r r').
Qed.

Lemma advance_step s now : registry_ok s -> does s (cop_advance now).
Proof.
  intros H. unfold does. cbn [controller_do]. destruct (controller_advance_spec s now H) as (l & -> & Hl). cbn [rbind]. apply ensures_Ok.
  eapply slots_step; [done|exact Hl|]. intros r r' Hr Ha. unfold advanced_slot in Ha. unfold slot_step. destruct (cx_used r) eqn:Eu.
  - pose proof (av_follows _ _ _ Ha) as Hf. destruct (fo_ok _ _ Hf) as []. split; [|split].
    + split; [lia|]. intros _. apply Hf.
    + intros _. split; [done|]. pose proof (fo_identity _ _ Hf) as E. unfold identity_of in E. by injection E as _ _ -> _.
    + intros i. left. by apply follows_keeps.
  - subst r'. split; [done|]. split; [by rewrite Eu|done].
Qed.

Lemma terminal_step s h c now : registry_ok s -> does s (cop_terminal h c now).
Proof.
  intros H. unfold does. cbn [controller_do]. unfold mark_terminal. destruct (find_record s h) as [r|] eqn:Eh; [|by apply settled_same].
  destruct (found_ok s h r H Eh) as (Hr & Hi & Hu). destruct (_ && _); [by apply settled_same|].
  pose proof (terminal_not_ub r c now) as Hn. destruct (terminal r c now) as [r'|e|] eqn:Et; [|by apply settled_same|done].
  apply ensures_Ok. eapply follows_step; [done|done|done|done|by eapply terminal_follows].
Qed.

(** Setting the count of the record of a handle. *)
Lemma references_step op s h r n : registry_ok s -> find_record s h = Some r ->
  n = hold h (cx_references r) op -> (forall h' k, h' <> h -> hold h' k op = k) ->
  step_spec op s (put_controller s (ch_slot h) (cx_set_references n r)).
Proof.
  intros H (Hi & Hu & Hg)%find_record_Some Hn Hc. eapply put_step; [done|done|done| | |].
  - assert (mkControllerHandle (ch_slot h) (cx_generation r) = h) as E by (destruct h; cbn in *; by subst).
    split; [done|by intros []|done|]. by rewrite E.
  - destruct (used_ok s _ r H Hi Hu) as [? ? ? ? Hd]. by split.
  - intros j g k Hj. apply Hc. intros <-. by apply Hj.
Qed.

(** A handle that finds nothing, or a count at its bound, changes no count. *)
Lemma found_same s h i q : cg_records s !! i = Some q -> cx_used q = true -> h = mkControllerHandle i (cx_generation q) -> find_record s h = Some q.
Proof. intros Hi Hu ->. by apply find_record_Some. Qed.

Lemma retain_controller_step s h : registry_ok s -> does s (cop_retain h).
Proof.
  intros H. unfold does. cbn [controller_do]. unfold controller_retain. destruct (find_record s h) as [r|] eqn:Eh.
  - destruct (Z.eqb_spec (cx_references r) SIZE_MAX) as [Em|Em].
    + apply settled_same; [done| |done]. intros i q Hi Hu. cbn. case_bool_decide as E; [|done].
      rewrite (found_same s h i q Hi Hu E) in Eh. injection Eh as ->. by rewrite (proj2 (Z.eqb_eq _ _) Em).
    + apply ensures_Ok. eapply references_step; [done|done| |intros h' k Hne; by apply hold_retain_other].
      cbn. by rewrite bool_decide_true, (proj2 (Z.eqb_neq _ _) Em).
  - apply settled_same; [done| |done]. intros i q Hi Hu. apply hold_retain_other. intros E. by rewrite (found_same s h i q Hi Hu E) in Eh.
Qed.

Lemma release_controller_step s h : registry_ok s -> does s (cop_release h).
Proof.
  intros H. unfold does. cbn [controller_do]. unfold controller_release. destruct (find_record s h) as [r|] eqn:Eh.
  - destruct (Z.eqb_spec (cx_references r) 0) as [Em|Em].
    + apply settled_same; [done| |done]. intros i q Hi Hu. cbn. case_bool_decide as E; [|done].
      rewrite (found_same s h i q Hi Hu E) in Eh. injection Eh as ->. by rewrite (proj2 (Z.eqb_eq _ _) Em).
    + apply ensures_Ok. eapply references_step; [done|done| |intros h' k Hne; by apply hold_release_other].
      cbn. by rewrite bool_decide_true, (proj2 (Z.eqb_neq _ _) Em).
  - apply settled_same; [done| |done]. intros i q Hi Hu. apply hold_release_other. intros E. by rewrite (found_same s h i q Hi Hu E) in Eh.
Qed.

Lemma expire_controller_step s now : registry_ok s -> does s (cop_expire now).
Proof.
  intros H. apply ensures_Ok. set (f := fun r => if expired_record now r then record_default (wrap64 (cx_generation r + 1)) else r).
  apply (slots_step _ _ (f <$> cg_records s) (fun r r' => r' = f r)); [done|by apply Forall2_fmap_r, Forall_Forall2_diag, list.Forall_true|].
  unfold f. intros r r' [Hg Hok] Heq. unfold slot_step. destruct (expired_record now r) eqn:Ee.
  - assert (Hu : cx_used r = true) by (unfold expired_record in Ee; rewrite !andb_true_iff in Ee; tauto).
    pose proof (ro_generation r (Hok Hu)). assert (Ew : wrap64 (cx_generation r + 1) = cx_generation r + 1) by zlia.
    rewrite Ew in Heq. subst r'. rewrite Hu. split; [split; [cbn; lia|done]|]. split; [done|]. intros i. right. by exists now.
  - subst r'. split; [done|]. split; [done|]. intros i. by apply slot_step_refl.
Qed.

Lemma controller_step_ok s op : registry_ok s -> does s op.
Proof.
  intros H. destruct op; [by apply register_step|by apply resume_step|by apply track_step|by apply cancel_step|by apply send_step|by apply receive_step|
    by apply advance_step|by apply terminal_step|by apply retain_controller_step|by apply release_controller_step|by apply expire_controller_step].
Qed.

Lemma controller_run_ok ops : forall s, registry_ok s -> ensures (controller_run max_cancel_bytes s ops) registry_ok.
Proof.
  induction ops as [|op ops IH]; intros s H; cbn; [by apply ensures_Ok|].
  eapply ensures_bind; [by apply controller_step_ok|]. intros s' [H' _]. by apply IH.
Qed.

(** ** The life of a handle *)

(** The record still is what the handle was given for, and says what it said first. *)
Record remembers (r r' : ControllerRecord) : Prop := mk_remembers {
  rm_key : cx_key r' = cx_key r;
  rm_request : cx_request r' = cx_request r;
  rm_state : forall c o, phase_state r c = Some o -> phase_state r' c = Some o;
  rm_capabilities : forall o, cx_ordinary_capabilities r = Some o -> cx_ordinary_capabilities r' = Some o }.

Lemma remembers_refl r : remembers r r.
Proof. by split. Qed.
Lemma remembers_trans a b c : remembers a b -> remembers b c -> remembers a c.
Proof. intros [] []. split; [congruence..|auto|auto]. Qed.
Lemma keeps_remembers op i r r' : keeps op i r r' -> remembers r r'.
Proof. intros [E ? ? _]. unfold identity_of in E. injection E as _ _ ? ?. by split. Qed.

(** The slot of the handle has moved on. *)
Definition gone (s : ControllerRegistry) (h : ControllerHandle) : Prop :=
  exists r, cg_records s !! ch_slot h = Some r /\ ch_generation h < cx_generation r.

Lemma gone_stale s h : gone s h -> find_record s h = None.
Proof. intros (r & Hr & Hg). unfold find_record. rewrite Hr. destruct (Z.eqb_spec (cx_generation r) (ch_generation h)); [lia|]. by rewrite andb_false_r. Qed.

Lemma stepped_slot op s s' i r : stepped op s s' -> cg_records s !! i = Some r -> exists r', cg_records s' !! i = Some r' /\ slot_step op i r r'.
Proof.
  intros [Hl Hs] Hr. destruct (lookup_lt_is_Some_2 (cg_records s') i) as [r' Hr']; [apply lookup_lt_Some in Hr; lia|]. eauto.
Qed.

Lemma gone_step op s s' h : stepped op s s' -> gone s h -> gone s' h.
Proof.
  intros Hs (r & Hr & Hg). destruct (stepped_slot _ _ _ _ _ Hs Hr) as (r' & Hr' & Hst). exists r'. split; [done|].
  unfold slot_step in Hst. destruct (cx_used r); [|lia]. destruct Hst as [Hk|(now & _ & _ & ->)]; [|cbn; lia].
  pose proof (ke_identity _ _ _ _ Hk) as E. unfold identity_of in E. injection E as _ -> _ _. done.
Qed.

(** Nothing holds the record: no reference, no phase that waits, and its time is over. *)
Record released (r : ControllerRecord) (now : MonoTime) : Prop := mk_released {
  rel_references : cx_references r = 0;
  rel_phases : forall c, phase_active r c = false;
  rel_expired : ns (cx_expires r) <= ns now }.

Lemma expired_released now r : cx_used r = true -> expired_record now r = true <-> released r now.
Proof.
  intros Hu. unfold expired_record. rewrite Hu, !andb_true_iff, !negb_true_iff, Z.eqb_eq, Z.leb_le. split.
  - intros [[[[_ H1] H2] H3] H4]. split; [done| |done]. by intros [].
  - intros [H1 H2 H3]. by split_and!; [..|apply (H2 false)|apply (H2 true)| |].
Qed.

Lemma handle_step op s s' h r : stepped op s s' -> find_record s h = Some r ->
  (exists r', find_record s' h = Some r' /\ remembers r r' /\ cx_references r' = hold h (cx_references r) op) \/
  gone s' h /\ exists now, op = cop_expire now /\ released r now.
Proof.
  intros Hs (Hi & Hu & Hg)%find_record_Some. destruct (stepped_slot _ _ _ _ _ Hs Hi) as (r' & Hi' & Hst).
  unfold slot_step in Hst. rewrite Hu in Hst. destruct Hst as [Hk|(now & -> & He & ->)].
  - left. exists r'. pose proof (ke_identity _ _ _ _ Hk) as E. unfold identity_of in E. injection E as Eu Eg _ _.
    split; [by apply find_record_Some; split_and!; congruence|]. split; [by eapply keeps_remembers|].
    rewrite (ke_references _ _ _ _ Hk), Hg. by destruct h.
  - right. split; [eexists; split; [exact Hi'|cbn; lia]|]. exists now. split; [done|]. by apply expired_released.
Qed.

Lemma expire_drops s h r now : registry_ok s -> find_record s h = Some r ->
  find_record (controller_expire s now) h = None <->
  cx_references r = 0 /\ cx_ordinary_active r = false /\ cx_cancel_active r = false /\ ns (cx_expires r) <= ns now.
Proof.
  intros H (Hi & Hu & Hg)%find_record_Some. pose proof (expired_released now r Hu) as He.
  assert (Hrel : released r now <-> cx_references r = 0 /\ cx_ordinary_active r = false /\ cx_cancel_active r = false /\ ns (cx_expires r) <= ns now).
  { split; [intros [? Ha ?]; split_and!; [done|apply (Ha false)|apply (Ha true)|done]|]. intros (? & ? & ? & ?). split; [done|by intros []|done]. }
  rewrite <- Hrel, <- He. unfold find_record, controller_expire. cbn [cg_records]. rewrite list_lookup_fmap, Hi. cbn [fmap option_fmap option_map].
  destruct (expired_record now r); cbn [record_default cx_used andb]; [done|]. by rewrite Hu, Hg, Z.eqb_refl.
Qed.

Lemma gone_run ops : forall s s' h, registry_ok s -> controller_run max_cancel_bytes s ops = Ok s' -> gone s h -> gone s' h.
Proof.
  induction ops as [|op ops IH]; intros s s' h H E Hg; cbn in E; [by injection E as <-|].
  destruct (controller_step_ok s op H) as (s1 & E1 & H1 & Hs). rewrite E1 in E. cbn [rbind] in E. eapply IH; [done|exact E|by eapply gone_step].
Qed.

Lemma handle_run ops : forall s s' h r, registry_ok s -> controller_run max_cancel_bytes s ops = Ok s' -> find_record s h = Some r ->
  (exists r', find_record s' h = Some r' /\ remembers r r' /\ cx_references r' = foldl (hold h) (cx_references r) ops) \/
  gone s' h /\ exists ops1 now ops2 s1 r1, ops = ops1 ++ cop_expire now :: ops2 /\
    controller_run max_cancel_bytes s ops1 = Ok s1 /\ find_record s1 h = Some r1 /\
    cx_references r1 = foldl (hold h) (cx_references r) ops1 /\ released r1 now.
Proof.
  induction ops as [|op ops IH]; intros s s' h r H E Hr; cbn in E.
  { injection E as <-. left. exists r. split; [done|]. split; [apply remembers_refl|done]. }
  destruct (controller_step_ok s op H) as (s1 & E1 & H1 & Hs). rewrite E1 in E. cbn [rbind] in E.
  destruct (handle_step op s s1 h r Hs Hr) as [(r1 & Hr1 & Hm & Href)|(Hg & now & -> & Hrel)].
  - destruct (IH s1 s' h r1 H1 E Hr1) as [(r' & Hr' & Hm' & Hh)|(Hg & ops1 & now & ops2 & s2 & r2 & -> & E2 & Hr2 & Hh & Hrel)].
    + left. exists r'. split; [done|]. split; [by eapply remembers_trans|]. by rewrite Hh, Href.
    + right. split; [done|]. exists (op :: ops1), now, ops2, s2, r2. cbn. rewrite E1. cbn [rbind]. by rewrite Hh, Href.
  - right. split; [by eapply gone_run|]. by exists [], now, ops, s, r.
Qed.
End steps.

(** ** Repeated reports *)

(** An observation that differs in its lateness only. *)
Definition later_state (o : StateObservation) : StateObservation :=
  mkStateObservation (so_state o) (so_selected_mask o) (so_timestamp o) (so_hypothetical o) true.
Definition later_capabilities (o : CapabilityObservation) : CapabilityObservation :=
  mkCapabilityObservation (cb_center_frequency o) (cb_sample_rate o) (cb_bandwidth o) (cb_gain o) (cb_selected_mask o) (cb_timestamp o) true.

(** A report repeated after the timeout is the same state, but not the same capabilities. *)
Lemma repeated_after_timeout (a : StateObservation) (b : CapabilityObservation) : cb_late b = false ->
  same_observed_state a (later_state a) = true /\ same_capabilities b (later_capabilities b) = false.
Proof.
  intros E. split.
  - unfold same_observed_state, same_time. cbn. rewrite !Z.eqb_refl, eqb_reflx. cbn. apply forallb_forall. intros [x y] Hin.
    assert (x = y) as <-. { apply list_elem_of_In, list_elem_of_lookup in Hin as [i Hi]. apply lookup_zip_Some in Hi as [Hx Hy]. congruence. }
    unfold same_field_state. rewrite Z.eqb_refl, bool_decide_eq_true_2, orb_true_r, andb_true_r by done. rewrite andb_true_r.
    apply fid_eqb_eq. done.
  - unfold same_capabilities. cbn [later_capabilities cb_late]. rewrite E. cbn. apply andb_false_r.
Qed.

(** ** Properties *)

(** C15. Whatever is registered, tracked, received or timed out, and in whatever order, the
    registry performs no undefined operation, and no two of its live requests have the
    same key. *)
Theorem controller_defined max_cancel_bytes relationships records ops :
  exists s, controller_run max_cancel_bytes (registry_new relationships records) ops = Ok s /\
    (forall i j a b, cg_records s !! i = Some a -> cg_records s !! j = Some b -> cx_used a = true -> cx_used b = true ->
       same_key (cx_key a) (cx_key b) = true -> i = j) /\
    (forall i j a b, cg_relationships s !! i = Some a -> cg_relationships s !! j = Some b -> rl_used a = true -> rl_used b = true ->
       same_wire_relationship (rl_identity a) (rl_identity b) = true -> i = j).
Proof.
  destruct (controller_run_ok max_cancel_bytes ops _ (registry_new_ok relationships records)) as (s & E & H).
  exists s. split; [done|]. split; [apply H|apply H].
Qed.

(** C14. A response is delivered to the one request it answers: the record with its key, and
    no other, hears of it, after its own timeout if that was due; a response that is
    refused changes no other record either. *)
Theorem response_delivered max_cancel_bytes relationships records ops s generation p wire now :
  controller_run max_cancel_bytes (registry_new relationships records) ops = Ok s ->
  exists res s', controller_receive s generation p wire now = Ok (res, s') /\ cg_relationships s' = cg_relationships s /\
    (forall h, res = Ok h -> exists v c r r' parsed,
       decode_envelope wire = Ok v /\ command (ev_envelope v) = Some c /\
       find_record s h = Some r /\ same_key (response_key generation p (ev_envelope v) c) (cx_key r) = true /\
       decode_packet wire (response_options r (cancel (ev_envelope v))) = Ok parsed /\
       find_record s' h = Some r' /\
       observe_all (cx_observer r) (response_ops r (cancel (ev_envelope v)) parsed now) = Ok (cx_observer r')) /\
    (forall i q, cg_records s !! i = Some q ->
       cg_records s' !! i = Some q \/
       exists v c, decode_envelope wire = Ok v /\ command (ev_envelope v) = Some c /\
         matches (response_key generation p (ev_envelope v) c) q = true /\
         forall j q', cg_records s !! j = Some q' -> matches (response_key generation p (ev_envelope v) c) q' = true -> j = i).
Proof.
  intros E0. destruct (controller_run_ok max_cancel_bytes ops _ (registry_new_ok relationships records)) as (s0 & E & H).
  rewrite E0 in E. injection E as <-.
  destruct (receive_spec s generation p wire now H) as (res & s' & E & Hres & Hcase). exists res, s'. split; [done|].
  destruct Hcase as [[-> Hno]|(v & c & i & r & r' & d & Ev & Ec & Hi & Hm & Erec & Hf & -> & ->)].
  { split; [done|]. split; [|by left]. intros h ->. done. }
  pose proof Hm as Hm'. apply andb_true_iff in Hm' as [Hu Hk]. destruct (receive_record_spec r v c wire now (used_ok s i r H Hi Hu) Ev Ec) as (d' & r1 & Erec' & _ & _ & Hobs).
  rewrite Erec in Erec'. injection Erec' as <- <-. split; [done|]. split.
  - intros h Eh. destruct d as [[]| |]; [|done..]. cbn in Eh. injection Eh as <-. destruct (Hobs eq_refl) as (parsed & Hp & Ho).
    exists v, c, r, r', parsed. pose proof (fo_identity _ _ Hf) as Hid. unfold identity_of in Hid. injection Hid as Eu Eg _ _.
    split_and!; try done; apply find_record_Some; [done|]. cbn. rewrite list_lookup_insert_eq by (by eapply lookup_lt_Some). split_and!; congruence.
  - intros j q Hq. destruct (decide (i = j)) as [<-|Hne]; [|left; cbn; by rewrite list_lookup_insert_ne].
    right. exists v, c. rewrite Hi in Hq. injection Hq as <-. split_and!; try done. intros j q' Hq' [Hu' Hk']%andb_true_iff.
    apply (go_keys s H j i q' r); try done. apply same_key_norm in Hk, Hk'. apply same_key_norm. congruence.
Qed.

(** Advancing the registry always succeeds, ends at its deadline exactly every phase whose
    deadline has passed, and keeps the record for thirty seconds after that. *)
Theorem advance_ends_overdue max_cancel_bytes relationships records ops s now :
  controller_run max_cancel_bytes (registry_new relationships records) ops = Ok s ->
  exists s', controller_advance s now = Ok (Ok tt, s') /\ cg_relationships s' = cg_relationships s /\
    Forall2 (fun r r' => if cx_used r then
        cx_key r' = cx_key r /\ cx_generation r' = cx_generation r /\ cx_used r' = true /\
        (forall c, phase_active r' c = phase_active r c && (ns now <? ns (phase_deadline r c))) /\
        (forall c, phase_deadline r' c = phase_deadline r c) /\
        ns (cx_expires r') = Z.max (ns (cx_expires r)) (Z.max (retained_until r false now) (retained_until r true now)) /\
        observe_all (cx_observer r) (overdue_ops r now) = Ok (cx_observer r')
      else r' = r) (cg_records s) (cg_records s').
Proof.
  intros E0. destruct (controller_run_ok max_cancel_bytes ops _ (registry_new_ok relationships records)) as (s0 & E & H).
  rewrite E0 in E. injection E as <-. destruct (controller_advance_spec s now H) as (l & E & Hl). eexists. split; [exact E|]. split; [done|].
  cbn [cg_records]. refine (list.Forall2_impl _ _ _ _ Hl _). intros r r' Ha. unfold advanced_slot in Ha. destruct (cx_used r) eqn:Eu; [|done].
  pose proof (fo_identity _ _ (av_follows _ _ _ Ha)) as Hid. unfold identity_of in Hid. injection Hid as Eu' Eg Ek _.
  destruct Ha as [Hact Hdl Hx Ho _]. split_and!; [done|done|congruence| |done|done|done].
  intros c. rewrite Hact. unfold overdue. rewrite (Z.ltb_antisym (ns (phase_deadline r c)) (ns now)). by destruct (phase_active r c), (_ <=? _).
Qed.

(** C28. A handle stays with the request it was given for, whose first observations never
    change, and its count of references is what [retain] and [release] calls with this handle
    made of it.  Its record is dropped by an [expire] only, exactly at a time when every
    reference has been released, neither phase is waiting for a response and the record has
    expired; from then on the handle is stale for good. *)
Theorem handle_lifetime max_cancel_bytes relationships records ops ops' ops'' s s' s'' h r :
  controller_run max_cancel_bytes (registry_new relationships records) ops = Ok s ->
  controller_run max_cancel_bytes s ops' = Ok s' -> controller_run max_cancel_bytes s' ops'' = Ok s'' ->
  find_record s h = Some r ->
  (forall now, find_record (controller_expire s now) h = None <->
     cx_references r = 0 /\ cx_ordinary_active r = false /\ cx_cancel_active r = false /\ ns (cx_expires r) <= ns now) /\
  match find_record s' h with
  | Some r' => cx_key r' = cx_key r /\ cx_request r' = cx_request r /\
      (forall c o, phase_state r c = Some o -> phase_state r' c = Some o) /\
      (forall o, cx_ordinary_capabilities r = Some o -> cx_ordinary_capabilities r' = Some o) /\
      cx_references r' = foldl (hold h) (cx_references r) ops'
  | None => find_record s'' h = None /\
      exists before now after s1 r1, ops' = before ++ cop_expire now :: after /\
        controller_run max_cancel_bytes s before = Ok s1 /\ find_record s1 h = Some r1 /\
        foldl (hold h) (cx_references r) before = 0 /\
        cx_ordinary_active r1 = false /\ cx_cancel_active r1 = false /\ ns (cx_expires r1) <= ns now
  end.
Proof.
  intros E0 E1 E2 Hr. destruct (controller_run_ok max_cancel_bytes ops _ (registry_new_ok relationships records)) as (s0 & E & H).
  rewrite E0 in E. injection E as <-. split; [intros now; by apply expire_drops|].
  destruct (controller_run_ok max_cancel_bytes ops' s H) as (s1 & E & H'). rewrite E1 in E. injection E as <-.
  destruct (handle_run max_cancel_bytes ops' s s' h r H E1 Hr)
    as [(r' & -> & [] & Hh)|(Hg & ops1 & now & ops2 & s1 & r1 & -> & Es & Hr1 & Hh & [Hz Ha Hx])]; [done|].
  rewrite (gone_stale _ _ Hg). split; [by eapply gone_stale, gone_run|]. exists ops1, now, ops2, s1, r1.
  split_and!; [done|done|done|congruence|apply (Ha false)|apply (Ha true)|done].
Qed.

(** ** An exchange *)

Definition exchange_cam : Z := Z.lor (Z.shiftl 2 23) (Z.shiftl 0xa 28).
Definition exchange_envelope (acknowledges : bool) (bits mid : Z) : Envelope :=
  mkEnvelope PacketType.command 0 (Some 7) None (mkTimestamp 0 0 0 0) false false false false acknowledges false
    (Some (mkCommand (Z.lor exchange_cam bits) mid (Identifier_short_id 1) (Identifier_short_id 2))).
(** A request for the validation and the execution of a command, and its two responses. *)
Definition exchange_request : PacketView :=
  mkPacketView (mkEnvelopeView (exchange_envelope false (Z.shiftl 6 18) 0) [] None 0 []) [] BodyKind.values false false false.
Definition exchange_response (phase : Z) : list byte :=
  match encode_envelope (exchange_envelope true (Z.lor (Z.shiftl phase 18) (Z.shiftl 1 10)) 1) [] None (replicate 24 x00) with
  | Ok (_, out) => out | _ => [] end.
Definition exchange_key : TransactionKey := mkTransactionKey 1 (mkPeer 1 1) (Some 7) (Identifier_short_id 2) (Identifier_short_id 1) 0.
Definition exchange_handle : ControllerHandle := mkControllerHandle 0 1.
Definition exchange_ops : list ControllerOp :=
  [cop_register exchange_key 1 Profile.generator_v1; cop_track (mkRelationshipHandle 0) exchange_request (mkMono 0) 100; cop_send exchange_handle true].
Definition exchange_end : list ControllerOp :=
  [cop_receive 1 (mkPeer 1 1) (exchange_response 4) (mkMono 50); cop_receive 1 (mkPeer 1 1) (exchange_response 2) (mkMono 60);
   cop_retain exchange_handle; cop_release exchange_handle; cop_expire (mkMono 30000000060);
   cop_release exchange_handle; cop_expire (mkMono 30000000059); cop_expire (mkMono 30000000060)].
#[local] Abbreviation exchange ops := (controller_run 64 (registry_new 2 2) ops).

Lemma response_delivered_witness : exists s s' r r',
  exchange exchange_ops = Ok s /\ controller_receive s 1 (mkPeer 1 1) (exchange_response 4) (mkMono 50) = Ok (Ok exchange_handle, s') /\
  find_record s exchange_handle = Some r /\ find_record s' exchange_handle = Some r' /\ length (ob_history (cx_observer r')) = 2%nat.
Proof.
  destruct (exchange exchange_ops) as [s|e|] eqn:E; [|vm_compute in E; discriminate E..].
  destruct (response_delivered 64 2 2 exchange_ops s 1 (mkPeer 1 1) (exchange_response 4) (mkMono 50) E) as (res & s' & Er & _ & Hok & _).
  assert (Eres : res = Ok exchange_handle).
  { vm_compute in E. injection E as <-. vm_compute in Er. injection Er as <- _. reflexivity. }
  subst res. destruct (Hok _ eq_refl) as (v & c & r & r' & parsed & _ & _ & Hr & _ & _ & Hr' & _).
  exists s, s', r, r'. split; [exact eq_refl|]. split; [exact Er|]. split; [exact Hr|]. split; [exact Hr'|].
  clear Hok Hr. vm_compute in E. injection E as <-. vm_compute in Er. injection Er as <-. vm_compute in Hr'. injection Hr' as <-. reflexivity.
Defined.

Lemma advance_ends_overdue_witness : exists s s' r',
  exchange exchange_ops = Ok s /\ controller_advance s (mkMono 100) = Ok (Ok tt, s') /\ cg_records s' !! 0%nat = Some r' /\
  cx_ordinary_active r' = false /\ ns (cx_expires r') = 30000000100.
Proof.
  destruct (exchange exchange_ops) as [s|e|] eqn:E; [|vm_compute in E; discriminate E..].
  destruct (advance_ends_overdue 64 2 2 exchange_ops s (mkMono 100) E) as (s' & Ea & _ & Hf).
  exists s, s'. vm_compute in E. injection E as <-. cbn [cg_records] in Hf.
  destruct s' as [rels recs]. cbn [cg_records] in *. inversion Hf as [|? r' ? l H0 _]. subst. exists r'.
  split; [exact eq_refl|]. split; [exact Ea|]. split; [exact eq_refl|].
  destruct H0 as (_ & _ & _ & Hact & _ & Hx & _). split; [exact (Hact false)|exact Hx].
Defined.

(** The first expiry comes before the second reference is released, the second one too early. *)
Lemma handle_lifetime_witness : exists s s' s'' r,
  exchange exchange_ops = Ok s /\ controller_run 64 s exchange_end = Ok s' /\ controller_run 64 s' exchange_ops = Ok s'' /\
  find_record s exchange_handle = Some r /\ find_record s' exchange_handle = None /\ find_record s'' exchange_handle = None.
Proof.
  destruct (exchange exchange_ops) as [s|e|] eqn:E; [|vm_compute in E; discriminate E..].
  destruct (controller_run 64 s exchange_end) as [s'|e|] eqn:E'; [|exfalso; vm_compute in E; injection E as <-; vm_compute in E'; discriminate E'..].
  destruct (controller_run 64 s' exchange_ops) as [s''|e|] eqn:E'';
    [|exfalso; vm_compute in E; injection E as <-; vm_compute in E'; injection E' as <-; vm_compute in E''; discriminate E''..].
  destruct (find_record s exchange_handle) as [r|] eqn:Er; [|exfalso; vm_compute in E; injection E as <-; vm_compute in Er; discriminate Er].
  pose proof (handle_lifetime 64 2 2 exchange_ops exchange_end exchange_ops s s' s'' exchange_handle r E E' E'' Er) as H.
  destruct (find_record s' exchange_handle) as [r'|] eqn:Er'.
  { exfalso. vm_compute in E. injection E as <-. vm_compute in E'. injection E' as <-. vm_compute in Er'. discriminate Er'. }
  exists s, s', s'', r. exact (conj eq_refl (conj E' (conj E'' (conj Er (conj Er' (proj1 (proj2 H))))))).
Defined.
