(* ===== verification/Manager.v ===== *)
(** * The transaction manager: [include/vita/runtime/transaction/manager.hpp]

    The manager of one controllee ties its engine to the retention store: a command that is
    not a duplicate is accepted by the engine, its responses are moved to the store as they
    appear, cancellations wait for their time, and a finished transaction is released once
    the store holds everything it said.

    The engine, the store and the manager share one admission pool: the field of the engine is
    that pool, and the store is given it for the length of a call.  [monotonic_ids] and the
    sizes of the parts are parameters.  A callback does not call the manager. *)

From S2P Require Import Prelude Wire WireProofs Fields Time Clock Timeline Scheduling Admission Ticket Structured Packet Routing FixedVector State Cam Sdr Observer Cancellation Backend Plan Engine Retention.

Record ManagerDrainStatus := mkManagerDrain { md_active : nat; md_scheduled_cancellations : nat }.
Record Active := mkActive { ac_token : RetentionToken; ac_handle : Handle }.
Record PendingCancel := mkPending {
  pc_token : RetentionToken; pc_credits : AdmissionBundle; pc_requested : ProtocolTime; pc_timing : TimingCapabilities;
  pc_association_generation : Z; pc_mapping_generation : Z; pc_timing_valid : bool }.

Record Manager (B E : Type) := mkManager {
  mg_engine : Engine B E; mg_retention : RetentionStore;
  mg_active : list (option Active); mg_cancellations : list (option PendingCancel);
  mg_progressing : bool; mg_closed : bool; mg_quiescing : bool; mg_closed_generation : Z; mg_highwater_id : Z }.
Arguments mkManager {B E}.
Arguments mg_engine {B E}.
Arguments mg_retention {B E}.
Arguments mg_active {B E}.
Arguments mg_cancellations {B E}.
Arguments mg_progressing {B E}.
Arguments mg_closed {B E}.
Arguments mg_quiescing {B E}.
Arguments mg_closed_generation {B E}.
Arguments mg_highwater_id {B E}.

Section manager.
Context {B E : Type} (backend : Backend B) (options : EngineOptions E) (plan_size : Z).
Context (Entries : nat) (ByteCapacity : Z) (ack_size : nat) (monotonic_ids : bool).
#[local] Abbreviation Manager := (Manager B E).

Definition set_engine (s : Engine B E) (m : Manager) : Manager :=
  mkManager s (mg_retention m) (mg_active m) (mg_cancellations m) (mg_progressing m) (mg_closed m) (mg_quiescing m) (mg_closed_generation m) (mg_highwater_id m).
Definition set_active (i : nat) (a : option Active) (m : Manager) : Manager :=
  mkManager (mg_engine m) (mg_retention m) (<[i := a]> (mg_active m)) (mg_cancellations m) (mg_progressing m) (mg_closed m) (mg_quiescing m) (mg_closed_generation m) (mg_highwater_id m).
Definition set_cancellation (i : nat) (c : option PendingCancel) (m : Manager) : Manager :=
  mkManager (mg_engine m) (mg_retention m) (mg_active m) (<[i := c]> (mg_cancellations m)) (mg_progressing m) (mg_closed m) (mg_quiescing m) (mg_closed_generation m) (mg_highwater_id m).
Definition set_progressing (b : bool) (m : Manager) : Manager :=
  mkManager (mg_engine m) (mg_retention m) (mg_active m) (mg_cancellations m) b (mg_closed m) (mg_quiescing m) (mg_closed_generation m) (mg_highwater_id m).
Definition set_flags (closed quiescing : bool) (generation : Z) (m : Manager) : Manager :=
  mkManager (mg_engine m) (mg_retention m) (mg_active m) (mg_cancellations m) (mg_progressing m) closed quiescing generation (mg_highwater_id m).
Definition set_highwater (mid : Z) (m : Manager) : Manager :=
  mkManager (mg_engine m) (mg_retention m) (mg_active m) (mg_cancellations m) (mg_progressing m) (mg_closed m) (mg_quiescing m) (mg_closed_generation m) mid.

(** The store with the pool of the engine, and back. *)
Definition store_of (m : Manager) : RetentionStore :=
  let s := mg_retention m in mkStore (rs_entries s) (rs_bytes s) (rs_occupied s) (rs_probes s) (en_admission (mg_engine m)).
Definition put_store (s : RetentionStore) (m : Manager) : Manager :=
  mkManager (en_set_admission (rs_admission s) (mg_engine m)) s (mg_active m) (mg_cancellations m) (mg_progressing m) (mg_closed m) (mg_quiescing m)
    (mg_closed_generation m) (mg_highwater_id m).

(** A call of the store. *)
Definition on_store {A} (m : Manager) (f : RetentionStore -> Result A * RetentionStore) : Result (Result A * Manager) :=
  match f (store_of m) with
  | (UB, _) => UB
  | (r, s) => Ok (r, put_store s m)
  end.
(** Its result is not looked at. *)
Definition on_store_ {A} (m : Manager) (f : RetentionStore -> Result A * RetentionStore) : Result Manager := rmap snd (on_store m f).

(** A step that ends the function with its error. *)
#[local] Notation "'step!' ( x , y ) ':=' m 'in' k" :=
  (match m with
   | Ok (Ok x, y) => k
   | Ok (Err e, y) => Ok (Err e, y)
   | Ok (UB, _) | UB => UB
   | Err e => Err e
   end) (at level 10, x pattern, y name, m at level 100, k at level 200).
#[local] Notation "'need!' x ':=' m 'or' y 'in' k" :=
  (match m with Ok x => k | Err e => Ok (Err e, y) | UB => UB end) (at level 10, x pattern, m at level 100, y at level 100, k at level 200).

(** The command a record holds: the bytes are read as the wire of a packet. *)
Definition as_bytes (vals : list memval) : Result (list byte) :=
  foldr (fun v r => let? l := r in let? b := as_byte v in Ok (b :: l)) (Ok []) vals.
Definition stored_packet (m : Manager) (t : RetentionToken) : Result PacketView :=
  let? vals := canonical (store_of m) t in
  let? wire := as_bytes vals in
  decode_packet wire options_default.

Definition original_of (t : RetentionToken) : RetentionToken := mkToken (tok_slot t) (tok_generation t) false.
Definition timing_mode (c : Command) : Z := Z.land (Z.shiftr (cam c) 12) 7.
Definition clock_usable (c : ClockSnapshot) : bool :=
  bool_decide (snap_state c = ClockState.locked) || bool_decide (snap_state c = ClockState.holdover).

(** The clock is within the window of the cancellation. *)
Definition timing_allowed (p : PendingCancel) (mode : Z) (now : OperationContext) : bool :=
  let c := oc_clock now in
  let fit := match subtract (snap_time c) (from_picoseconds (snap_uncertainty_ps c)), add (snap_time c) (from_picoseconds (snap_uncertainty_ps c)) with
             | Ok first, Ok last => match effect_interval_allowed mode (pc_requested p) first last (pc_timing p) with Ok b => b | _ => false end
             | _, _ => false
             end in
  pc_timing_valid p && fit && clock_usable c.

Definition cancel_context (p : PendingCancel) (now : OperationContext) : OperationContext :=
  mkOperation (oc_operation now) (pc_association_generation p) (oc_monotonic now) (oc_clock now) (oc_boundaries now) (pc_timing p) (oc_data_running now).
Definition without_credits (p : PendingCancel) : PendingCancel :=
  mkPending (pc_token p) bundle_empty (pc_requested p) (pc_timing p) (pc_association_generation p) (pc_mapping_generation p) (pc_timing_valid p).

Fixpoint append_all (m : Manager) (t : RetentionToken) (v : FixedVector AckRecord) (i n : nat) : Result (Result unit * Manager) :=
  match n with
  | O => Ok (Ok tt, m)
  | S n => let? a := fvec_at v i in step! (_, m) := on_store m (fun s => append ack_size s t a) in append_all m t v (S i) n
  end.

(** The result of the cancellation goes out of scope: its credits return to the pool. *)
Definition drop_result (m : Manager) (credits : AdmissionBundle) : Manager := set_engine (drop_credits (mg_engine m) credits) m.

(** What the cancellation does: the engine's answer, or a refusal. *)
Definition cancel_result (m : Manager) (i : nat) (p : PendingCancel) (packet : PacketView) (c : Command) (selected : list bool) (now : OperationContext)
    : Result (Result CancellationResult * Manager) :=
  let mode := timing_mode c in
  let allowed := if nonzero mode then timing_allowed p mode now else true in
  need! handle := engine_handle (store_of m) (original_of (pc_token p)) or m in
  match (if allowed then handle else None) with
  | Some handle =>
      let? (r, s) := cancel_command backend options (mg_engine m) handle packet (cancel_context p now) (pc_credits p) in
      Ok (r, set_cancellation i (Some (without_credits p)) (set_engine s m))
  | None =>
      let diagnostics := (fun b : bool => mkDiagnostics 0 (if b then diag_not_executed else 0)) <$> selected in
      Ok (cancellation_response packet (en_state (mg_engine m)) (oc_clock now) selected (replicate state_field_capacity false) diagnostics (pc_credits p)
            (if allowed then mode else 7),
          set_cancellation i (Some (without_credits p)) m)
  end.

(** The responses of the cancellation are stored, and its record completed. *)
Definition store_cancellation (m : Manager) (p : PendingCancel) (result : CancellationResult) (now : OperationContext) : Result (Result unit * Manager) :=
  step! (_, m) := append_all m (pc_token p) (cr_responses result) 0 (fvec_size (cr_responses result)) in
  step! (_, m) := on_store m (fun s => complete s (pc_token p) (oc_monotonic now)) in
  on_store m (fun s => release Entries s (pc_token p)).

Definition finish_cancel (m : Manager) (i : nat) (p : PendingCancel) (now : OperationContext) : Result (Result unit * Manager) :=
  need! packet := stored_packet m (pc_token p) or m in
  need! selected := cancellation_selectors packet or m in
  let? c := deref (command (ev_envelope (pv_envelope packet))) in
  step! (result, m) := cancel_result m i p packet c selected now in
  let? (r, m) := store_cancellation m p result now in
  Ok (r, drop_result m (cr_credits result)).

(** ** Admission *)

Definition close_admission (m : Manager) : Manager :=
  set_flags true (mg_quiescing m) (if mg_closed m then mg_closed_generation m else en_association_generation (mg_engine m)) m.
Definition manager_drain_status (m : Manager) : ManagerDrainStatus :=
  mkManagerDrain (count_if is_some (mg_active m)) (count_if is_some (mg_cancellations m)).
Definition reset_after_drain (m : Manager) : Result unit * Manager :=
  let status := manager_drain_status m in
  if mg_progressing m || negb (md_active status =? 0)%nat || negb (md_scheduled_cancellations status =? 0)%nat || en_quiescing (mg_engine m) ||
     negb (safe_to_reset backend (mg_engine m)) || (mg_closed m && (en_association_generation (mg_engine m) <=? mg_closed_generation m))
  then (Err (error1 ErrorCode.invalid_state), m)
  else (Ok tt, set_flags false false (mg_closed_generation m) m).

Definition undo {A} (m : Manager) (t : RetentionToken) (e : Error) : Result (Result A * Manager) :=
  let? m := on_store_ m (fun s => rollback Entries s t) in Ok (Err e, m).

(** A command for the engine. *)
Definition accept_command (m : Manager) (packet : PacketView) (now : OperationContext) (mid : Z) (reserved : RetentionAdmission)
    : Result (Result RetentionAdmission * Manager) :=
  let t := adm_token reserved in
  match first_free (mg_active m) with
  | None => undo m t (error1 ErrorCode.capacity_exhausted)
  | Some slot =>
      let? (admitted, s) := Engine.accept backend options plan_size (mg_engine m) packet now in
      let m := set_engine s m in
      match admitted with
      | UB => UB
      | Err e => undo m t e
      | Ok handle =>
          let? m := on_store_ m (fun s => bind s t (Some handle)) in
          let? m := on_store_ m (fun s => retain s t) in
          let m := set_active slot (Some (mkActive t handle)) m in
          Ok (Ok reserved, if monotonic_ids then set_highwater mid m else m)
      end
  end.

(** The original, a command of the same class, has every field that is to be cancelled. *)
Definition cancels_original (packet original : PacketView) (selected : list bool) : Result bool :=
  let e := ev_envelope (pv_envelope packet) in
  let o := ev_envelope (pv_envelope original) in
  if negb (same_class (class_id e) (class_id o)) then Ok false else
  let? c := deref (command o) in
  if negb (Z.land (Z.shiftr (cam c) 23) 3 =? 2) then Ok false else
  Ok (forallb (fun q => negb q.1 || existsb (fun view => fid_eqb (fv_id view) q.2) (pv_fields original)) (zip selected state_fields)).

Definition cancel_boundary (requested : ProtocolTime) (now : OperationContext) : Boundary :=
  mkBoundary requested 0 (snap_mapping_generation (oc_clock now)) false true 0.

(** A timed cancellation names a time that can be met. *)
Definition check_cancel_time (e : Envelope) (mode : Z) (now : OperationContext) : Result unit :=
  fail_if negb (tsi (timestamp e) =? ack_epoch (snap_epoch (oc_clock now))) || negb (tsf (timestamp e) =? Tsf.picoseconds) ||
          (negb (caps_injected (oc_timing now)) && negb (caps_qualified (oc_timing now)))
    with error1 ErrorCode.unsupported_capability ;;
  let requested := mkTime (ts_integer (timestamp e)) (ts_fractional (timestamp e)) in
  let? _ := choose_boundary mode requested (oc_clock now) [cancel_boundary requested now] (oc_timing now) in
  Ok tt.

(** The checks of a cancellation before a slot is looked for. *)
Definition check_cancellation (m : Manager) (packet : PacketView) (now : OperationContext) (t : RetentionToken) : Result Command :=
  let e := ev_envelope (pv_envelope packet) in
  let? selected := cancellation_selectors packet in
  let? original := stored_packet m (original_of t) in
  let? cancels := cancels_original packet original selected in
  fail_if negb cancels with error1 ErrorCode.invalid_argument ;;
  let? c := deref (command e) in
  let mode := timing_mode c in
  let? _ := (if nonzero mode then check_cancel_time e mode now else Ok tt) in
  Ok c.

Definition accept_cancellation (m : Manager) (packet : PacketView) (now : OperationContext) (reserved : RetentionAdmission)
    : Result (Result RetentionAdmission * Manager) :=
  let t := adm_token reserved in
  let e := ev_envelope (pv_envelope packet) in
  match check_cancellation m packet now t with
  | UB => UB
  | Err x => undo m t x
  | Ok c =>
      match first_free (mg_cancellations m) with
      | None => undo m t (error1 ErrorCode.capacity_exhausted)
      | Some slot =>
          let '(credits, pool) := admission_acquire (en_admission (mg_engine m)) (cancellation_resources (cam c)) in
          let m := set_engine (en_set_admission pool (mg_engine m)) m in
          match credits with
          | UB => UB
          | Err x => undo m t x
          | Ok credits =>
              let? m := on_store_ m (fun s => bind s t None) in
              let? m := on_store_ m (fun s => retain s t) in
              Ok (Ok reserved,
                  set_cancellation slot
                    (Some (mkPending t credits (mkTime (ts_integer (timestamp e)) (ts_fractional (timestamp e))) (oc_timing now)
                             (oc_association_generation now) (snap_mapping_generation (oc_clock now)) true)) m)
          end
      end
  end.

Definition manager_accept (m : Manager) (packet : PacketView) (now : OperationContext) (peer : PeerSession) : Result (Result RetentionAdmission * Manager) :=
  let e := ev_envelope (pv_envelope packet) in
  if mg_progressing m || negb (op_external_retention options) then Ok (Err (error1 ErrorCode.invalid_state), m) else
  need! key := transaction_key packet (oc_association_generation now) peer or m in
  if mg_closed m then on_store m (fun s => replay_existing s key packet) else
  let? c := deref (command e) in
  let mid := message_id c in
  if monotonic_ids && (mid =? 0) then Ok (Err (error1 ErrorCode.invalid_argument), m) else
  if monotonic_ids && negb (cancel e) && (mid <=? mg_highwater_id m) then on_store m (fun s => replay_existing s key packet) else
  step! (reserved, m) := on_store m (fun s => reserve Entries ByteCapacity ack_size s key packet (if cancel e then 2 else 3)) in
  if negb (bool_decide (adm_kind reserved = DuplicateKind.fresh)) then Ok (Ok reserved, m) else
  if negb (cancel e) then accept_command m packet now mid reserved else accept_cancellation m packet now reserved.

(** ** Progress *)

(** A pending cancellation against the current mapping of the clock. *)
Definition remap (p : PendingCancel) (mode : Z) (now : OperationContext) (quiescing : bool) : PendingCancel :=
  let clock := oc_clock now in
  let p :=
    if nonzero mode && negb (pc_mapping_generation p =? snap_mapping_generation clock) then
      mkPending (pc_token p) (pc_credits p) (pc_requested p) (pc_timing p) (pc_association_generation p) (snap_mapping_generation clock)
        (is_ok (choose_boundary mode (pc_requested p) clock [cancel_boundary (pc_requested p) now] (pc_timing p)))
    else p in
  if quiescing then mkPending (pc_token p) (pc_credits p) (pc_requested p) (pc_timing p) (pc_association_generation p) (pc_mapping_generation p) false else p.

Definition progress_cancellation (m : Manager) (i : nat) (p : PendingCancel) (now : OperationContext) : Result (Result unit * Manager) :=
  need! view := stored_packet m (pc_token p) or m in
  let? c := deref (command (ev_envelope (pv_envelope view))) in
  let mode := timing_mode c in
  let p := remap p mode now (mg_quiescing m) in
  let m := set_cancellation i (Some p) m in
  if nonzero mode && clock_usable (oc_clock now) && pc_timing_valid p && time_ltb (snap_time (oc_clock now)) (pc_requested p) then Ok (Ok tt, m) else
  step! (_, m) := finish_cancel m i p now in
  Ok (Ok tt, set_cancellation i None m).

Fixpoint cancellations_loop (n i : nat) (m : Manager) (now : OperationContext) : Result (Result unit * Manager) :=
  match n with
  | O => Ok (Ok tt, m)
  | S n =>
      step! (_, m) := match mg_cancellations m !! i with
                      | Some (Some p) => progress_cancellation m i p now
                      | Some None => Ok (Ok tt, m)
                      | None => UB
                      end in
      cancellations_loop n (S i) m now
  end.

(** The responses the engine has for the transaction; the last call returns none. *)
Fixpoint drain_responses (fuel : nat) (m : Manager) (a : Active) : Result (Result unit * Manager) :=
  match fuel with
  | O => UB
  | S fuel =>
      let? (r, s) := take_response (mg_engine m) (ac_handle a) in
      let m := set_engine s m in
      match r with
      | UB => UB
      | Err e => Ok (Err e, m)
      | Ok None => Ok (Ok tt, m)
      | Ok (Some response) =>
          step! (_, m) := on_store m (fun s => append ack_size s (ac_token a) response) in drain_responses fuel m a
      end
  end.

Definition progress_active (m : Manager) (i : nat) (a : Active) (now : OperationContext) : Result (Result unit * Manager) :=
  step! (_, m) := drain_responses (S response_capacity) m a in
  need! done := transaction_complete (mg_engine m) (ac_handle a) or m in
  if negb done then Ok (Ok tt, m) else
  step! (_, m) := on_store m (fun s => complete s (ac_token a) (oc_monotonic now)) in
  let? (r, s) := release_transaction (mg_engine m) (ac_handle a) in
  let m := set_engine s m in
  match r with
  | UB => UB
  | Err e => Ok (Err e, m)
  | Ok _ => let? m := on_store_ m (fun s => release Entries s (ac_token a)) in Ok (Ok tt, set_active i None m)
  end.

Fixpoint active_loop (n i : nat) (m : Manager) (now : OperationContext) : Result (Result unit * Manager) :=
  match n with
  | O => Ok (Ok tt, m)
  | S n =>
      step! (_, m) := match mg_active m !! i with
                      | Some (Some a) => progress_active m i a now
                      | Some None => Ok (Ok tt, m)
                      | None => UB
                      end in
      active_loop n (S i) m now
  end.

Definition progress_body (m : Manager) (now : OperationContext) : Result (Result unit * Manager) :=
  step! (_, m) := cancellations_loop (length (mg_cancellations m)) 0 m now in
  let? (r, s) := Engine.progress backend options (mg_engine m) now in
  let m := set_engine s m in
  match r with
  | UB => UB
  | Err e => Ok (Err e, m)
  | Ok _ =>
      step! (_, m) := active_loop (length (mg_active m)) 0 m now in
      let? s := expire Entries (store_of m) (oc_monotonic now) in
      Ok (Ok tt, put_store s m)
  end.

Definition manager_progress (m : Manager) (now : OperationContext) : Result (Result unit * Manager) :=
  if mg_progressing m then Ok (Err (error1 ErrorCode.would_deadlock), m) else
  let? (r, m) := progress_body (set_progressing true m) now in
  Ok (r, set_progressing false m).

Definition manager_request_quiesce (m : Manager) (now : OperationContext) : Result (Result unit * Manager) :=
  if mg_progressing m then Ok (Err (error1 ErrorCode.would_deadlock), m) else
  let current := en_association_generation (mg_engine m) in
  if (oc_association_generation now =? 0) || (negb (current =? 0) && negb (oc_association_generation now =? current))
  then Ok (Err (error1 ErrorCode.stale_generation), m) else
  let m := close_admission m in
  let m := set_flags (mg_closed m) true (mg_closed_generation m) m in
  let? (r, s) := Engine.request_quiesce backend options (mg_engine m) now in
  let m := set_engine s m in
  match r with
  | UB => UB
  | Err e => Ok (Err e, m)
  | Ok _ => manager_progress m now
  end.

(** ** Clients *)

Definition manager_response (m : Manager) (t : RetentionToken) (index : Z) : Result (option AckRecord) := response ack_size (store_of m) t index.
Definition manager_complete (m : Manager) (t : RetentionToken) : Result bool := terminal (store_of m) t.
Definition manager_release (m : Manager) (t : RetentionToken) : Result (Result unit * Manager) := on_store m (fun s => release Entries s t).
Definition admitted_message_id (m : Manager) : Z := mg_highwater_id m.

Definition manager_new (s : Engine B E) (store : RetentionStore) (transactions cancels : nat) : Manager :=
  mkManager s store (replicate transactions None) (replicate cancels None) false false false 0 0.
End manager.
