(* ===== verification/ManagerProofs.v ===== *)
(** * The transaction manager keeps its parts in step

    [manager_ok] ties the three states together: what the store holds for a running
    transaction is what was read of the engine's answers.  Every call of the manager keeps
    it, so that no call is undefined, a command opens one transaction and binds it to its
    record, and what the engine says is what the store repeats. *)

From stdpp Require Import relations.
From S2P Require Import Prelude Wire WireProofs Fields Time Clock Timeline Scheduling Admission Ticket Structured Packet Routing FixedVector State Cam Sdr Observer Cancellation Backend Plan PlanProofs Engine EngineProofs EngineRuns Retention RetentionProofs RetentionFrames Manager.

(** ** Stored commands *)

(** The bytes start like a command. *)
Definition command_wire (w : list byte) : Prop := forall h, load32 w 0 = Ok h -> is_command (Z.shiftr h 28) = true.

Lemma decode_envelope_type wire v h : decode_envelope wire = Ok v -> load32 wire 0 = Ok h -> env_type (ev_envelope v) = Z.shiftr h 28.
Proof. intros H Hh. unfold decode_envelope in H. rewrite Hh in H. cbn [rbind] in H. inv_ok. done. Qed.

Lemma decoded_command w v : command_wire w -> decode_packet w options_default = Ok v -> is_some (command (ev_envelope (pv_envelope v))) = true.
Proof.
  intros Hw Hv. pose proof (decode_packet_envelope _ _ _ Hv) as He. destruct (decode_envelope_header _ _ He) as (h & Hh & _). apply (decode_envelope_facts _ _ He).
  rewrite (decode_envelope_type _ _ _ He Hh). by apply Hw.
Qed.

(** The type of a packet is in its first byte, which its canonical form keeps. *)
Lemma type_of_first b0 b1 b2 b3 : Z.shiftr (be32 b0 b1 b2 b3) 28 = Z_of_byte b0 / 16.
Proof.
  pose proof (Z_of_byte_range b0). pose proof (Z_of_byte_range b1). pose proof (Z_of_byte_range b2). pose proof (Z_of_byte_range b3).
  rewrite Z.shiftr_div_pow2 by lia. unfold be32. change (2 ^ 28) with (16777216 * 16). rewrite <- Z.div_div by lia. f_equal.
  symmetry. apply (Z.div_unique_pos _ _ _ ((Z_of_byte b1 * 256 + Z_of_byte b2) * 256 + Z_of_byte b3)); lia.
Qed.

Lemma load32_first w h : load32 w 0 = Ok h -> exists b l, w = b :: l /\ Z.shiftr h 28 = Z_of_byte b / 16.
Proof.
  unfold load32. cbn [Z.ltb Z.compare Z.to_nat drop]. destruct w as [|b0 [|b1 [|b2 [|b3 w]]]]; try done. cbn [take]. intros [= <-]. do 2 eexists. split; [done|]. apply type_of_first.
Qed.

Definition decoded (packet : PacketView) : Prop := exists wire options, decode_packet wire options = Ok packet.

Lemma decoded_envelope packet : decoded packet -> decode_envelope (ev_wire (pv_envelope packet)) = Ok (pv_envelope packet).
Proof.
  intros (wire & options & H%decode_packet_envelope). destruct (decode_envelope_inv _ _ H) as (_ & _ & Ew & _). by rewrite Ew.
Qed.

Lemma canonical_command packet : decoded packet -> is_command (env_type (ev_envelope (pv_envelope packet))) = true -> command_wire (canonical_bytes packet).
Proof.
  intros Hd Hc h Hh. pose proof (decoded_envelope packet Hd) as He. destruct (decode_envelope_header _ _ He) as (h0 & Hh0 & _).
  rewrite (decode_envelope_type _ _ _ He Hh0) in Hc. destruct (decode_envelope_inv _ _ He) as (_ & _ & _ & Ho & _).
  apply load32_first in Hh0 as (b & l & Ew & Hb). apply load32_first in Hh as (b' & l' & Ew' & Hb'). rewrite Hb', <- Hc, Hb. f_equal. f_equal. f_equal.
  unfold canonical_bytes in Ew'. rewrite Ew in Ew'. cbn [imap] in Ew'. injection Ew' as <- _. unfold canonical_of. cbn [Nat.eqb].
  rewrite Ho. assert (Hz : (Z.of_nat 0 =? 4 * (1 + zlen (prologue_words (ev_envelope (pv_envelope packet))))) = false) by (apply Z.eqb_neq; unfold zlen; lia).
  by rewrite Hz, andb_false_r.
Qed.

Lemma add_safe t d : safe (add t d).
Proof. unfold add. by repeat case_match. Qed.
Lemma subtract_safe t d : safe (subtract t d).
Proof. unfold subtract. by repeat case_match. Qed.
Lemma difference_safe a b : safe (difference a b).
Proof. unfold difference. apply rbind_safe; [apply subtract_safe|done]. Qed.
Lemma execution_window_safe mode requested caps : safe (execution_window mode requested caps).
Proof.
  unfold execution_window. test_goal E1; [done|]. apply rbind_safe; [by repeat case_match|]. intros [early late] _.
  by repeat (apply rbind_safe; [first [apply subtract_safe|apply add_safe]|intros]).
Qed.

Lemma choose_loop_safe mode requested clock ready horizon window bs : (nonzero mode = true -> is_some window = true) ->
  forall selected d, safe (choose_loop mode requested clock ready horizon window bs selected d).
Proof.
  intros Hw. induction bs as [|b bs IH]; intros selected d; cbn [choose_loop]; [done|]. test_goal E1; [apply IH|]. destruct (nonzero mode); [|test_goal E2; apply IH].
  test_goal E2; [done|]. apply rbind_safe.
  { unfold fits_window. destruct window as [w|]; [|by specialize (Hw eq_refl)]. by repeat case_match. }
  intros fits _. test_goal E3; [apply IH|]. apply rbind_safe; [test_goal E4; apply difference_safe|]. intros d' _. test_goal E5; apply IH.
Qed.

Lemma choose_boundary_safe mode requested clock bs caps : safe (choose_boundary mode requested clock bs caps).
Proof.
  unfold choose_boundary. repeat (test_goal Ex; [done|]; clear Ex). apply rbind_safe; [apply add_safe|]. intros ready _.
  apply rbind_safe; [test_goal E1; [apply add_safe|done]|]. intros horizon _. test_goal E2; [done|]. apply rbind_safe.
  { test_goal E3; [|done]. apply rbind_safe; [apply execution_window_safe|done]. }
  intros window Hw. apply rbind_safe; [|by intros []]. apply choose_loop_safe. intros Hm. rewrite Hm in Hw. apply rbind_Ok in Hw as (w & _ & [= <-]). done.
Qed.

(** ** The invariant *)

Section manager.
Context {B E : Type} (backend : Backend B) (options : EngineOptions E) (plan_size : Z).
Context (Entries : nat) (ByteCapacity : Z) (ack_size : nat) (monotonic_ids : bool).
Context `{!BackendLaws backend}.
Hypothesis sink_ok : sink_safe options.
Hypothesis Hentries : Z.of_nat Entries <= 2147483647.
Hypothesis Hcapacity : 0 < ByteCapacity <= SIZE_MAX.
Hypothesis Hack : (0 < ack_size)%nat.
#[local] Abbreviation Engine := (Engine B E).
#[local] Abbreviation Manager := (Manager B E).
#[local] Abbreviation engine_ok := (engine_ok backend options).
#[local] Abbreviation retention_wf := (retention_wf Entries ByteCapacity ack_size).
#[local] Abbreviation store_step := (store_step Entries ByteCapacity ack_size).
#[local] Abbreviation ghost_step := (ghost_step Entries ByteCapacity ack_size).

(** The answers read of a transaction. *)
Definition answers_read (t : TxSlot) : list AckRecord := take (tr_response_read (ts_record t)) (tr_responses (ts_record t)).

(** The transaction of an active entry: its record is bound to its handle, and holds the
    answers that were read. *)
Record running (m : Manager) (g : ghost) (a : Active) : Prop := mk_running {
  ru_command : tok_cancellation (ac_token a) = false;
  ru_record : exists e, holding (store_of m) (ac_token a) 3 (Some (ac_handle a)) e;
  ru_read : exists t, current_handle (mg_engine m) (ac_handle a) = Some t /\ (g (tok_slot (ac_token a)) false).2 = answers_read t }.

Record manager_ok (m : Manager) (g : ghost) : Prop := mk_manager_ok {
  mo_engine : engine_ok (mg_engine m);
  mo_idle : en_progressing (mg_engine m) = false;
  mo_store : retention_wf (store_of m) g;
  mo_wires : forall slot c, command_wire (g slot c).1;
  mo_active : forall i a, mg_active m !! i = Some (Some a) -> running m g a;
  mo_distinct : forall i j a b, mg_active m !! i = Some (Some a) -> mg_active m !! j = Some (Some b) ->
    tok_slot (ac_token a) = tok_slot (ac_token b) \/ h_slot (ac_handle a) = h_slot (ac_handle b) -> i = j;
  mo_cancels : forall i p, mg_cancellations m !! i = Some (Some p) -> tok_cancellation (pc_token p) = true }.

Lemma current_handle_slots (s s' : Engine) h : en_slots s' = en_slots s -> current_handle s' h = current_handle s h.
Proof. intros Es. unfold current_handle. by rewrite Es. Qed.
Lemma current_handle_grows (s s' : Engine) h t : generations s' = generations s -> Forall2 grows (en_slots s) (en_slots s') -> current_handle s h = Some t ->
  exists t', current_handle s' h = Some t' /\ grows t t'.
Proof.
  intros Hg Hgr. unfold current_handle. destruct (en_slots s !! h_slot h) as [u|] eqn:Hu; [|done]. destruct (_ && _) eqn:Eb; [|done]. intros [= ->].
  apply andb_true_iff in Eb as [Ha Hgen]. destruct (Forall2_lookup_l _ _ _ _ _ Hgr Hu) as (t' & Ht' & Hgt). exists t'. rewrite Ht'.
  destruct (Hgt Ha) as (Ha' & _). rewrite Ha'. apply (f_equal (fun l => l !! h_slot h)) in Hg. unfold generations in Hg. rewrite !list_lookup_fmap, Hu, Ht' in Hg. injection Hg as ->.
  rewrite Hgen. done.
Qed.
Lemma answers_grow n t t' : slot_ok backend options n t -> tr_active (ts_record t) = true -> grows t t' -> answers_read t' = answers_read t.
Proof.
  intros [_ Hr] Ha Hg. destruct (Hg Ha) as (_ & Er & [l El]). unfold answers_read. rewrite Er, El. rewrite take_app_le; [done|apply Hr].
Qed.

(** The store part does not depend on the pool. *)
Lemma store_put s (m : Manager) : store_of (put_store s m) = s.
Proof. by destruct s. Qed.
Lemma holding_entries s s' t cap h e : rs_entries s' = rs_entries s -> holding s t cap h e -> holding s' t cap h e.
Proof. intros Es []. split; try done. unfold entry. by rewrite Es. Qed.
Lemma retention_wf_pool s s' g : rs_entries s' = rs_entries s -> rs_bytes s' = rs_bytes s -> rs_occupied s' = rs_occupied s -> retention_wf s g -> retention_wf s' g.
Proof. intros Ee Eb Eo [[] He]. split; [split|]; rewrite ?Ee, ?Eb, ?Eo; done. Qed.

(** The engine moved, keeping its transactions. *)
Definition moves (s s' : Engine) : Prop :=
  engine_ok s' /\ generations s' = generations s /\ Forall2 grows (en_slots s) (en_slots s') /\ en_progressing s' = en_progressing s.
Lemma advances_moves s s' : advances backend options s s' -> moves s s'.
Proof. by intros [H []]. Qed.
Lemma moves_slots s s' : engine_ok s' -> en_slots s' = en_slots s -> en_progressing s' = en_progressing s -> moves s s'.
Proof. intros H Es Ep. split_and!; try done; [unfold generations; by rewrite Es|by rewrite Es]. Qed.

Lemma moved_ok m g s' : manager_ok m g -> moves (mg_engine m) s' -> manager_ok (set_engine s' m) g.
Proof.
  intros [H1 H2 H3 H4 H5 H6 H7] (Hok & Hg & Hgr & Hp). split; try done; [cbn; congruence|by eapply retention_wf_pool; [..|exact H3]|].
  intros i a Ha. destruct (H5 i a Ha) as [Hc [e He] (t & Ht & Er)]. destruct (current_handle_grows _ _ _ _ Hg Hgr Ht) as (t' & Ht' & Hgt). split; [done|exists e; by apply (holding_entries (store_of m))|].
  exists t'. split; [done|]. rewrite Er. symmetry. unfold current_handle in Ht. destruct (en_slots (mg_engine m) !! _) as [u|] eqn:Hu; [|done]. destruct (_ && _) eqn:Eb; [|done]. injection Ht as ->.
  apply andb_true_iff in Eb as [Hact _]. eapply answers_grow; [exact (engine_slot backend options _ _ _ H1 Hu)|done|done].
Qed.

(** The flags do not matter. *)
Lemma same_parts_ok m m' g : mg_engine m' = mg_engine m -> mg_retention m' = mg_retention m -> mg_active m' = mg_active m -> mg_cancellations m' = mg_cancellations m ->
  manager_ok m g -> manager_ok m' g.
Proof.
  intros E1 E2 E3 E4 [H1 H2 H3 H4 H5 H6 H7]. assert (Es : store_of m' = store_of m) by (unfold store_of; by rewrite E1, E2). split; rewrite ?E1, ?E3, ?E4, ?Es; try done.
  intros i a Ha. destruct (H5 i a Ha) as [Hc He Hr]. split; rewrite ?Es, ?E1; done.
Qed.

(** ** Calls of the store *)

(** A call that leaves the records of the running transactions alone. *)
Definition op_ok (m : Manager) (op : RetentionOp) : Prop :=
  match op with
  | rop_reserve _ packet _ => command_wire (canonical_bytes packet)
  | rop_append t _ | rop_complete t _ => forall i a, mg_active m !! i = Some (Some a) -> ac_token a <> t
  | _ => True
  end.
Lemma op_spares m op i a : op_ok m op -> mg_active m !! i = Some (Some a) -> spares (ac_token a) op.
Proof. intros Ho Ha. split; intros x ->; by eapply Ho. Qed.

Lemma ghost_wires s g op : (forall slot c, command_wire (g slot c).1) -> (forall key packet n, op = rop_reserve key packet n -> command_wire (canonical_bytes packet)) ->
  forall slot c, command_wire (ghost_step s g op slot c).1.
Proof.
  intros Hg Hr slot c. assert (Hset : forall k d x, command_wire x.1 -> command_wire (ghost_set g k d x slot c).1) by (intros k d x Hx; unfold ghost_set; by case_match).
  destruct op as [key packet n|key packet|t h|t a|t now|t|t|t|now]; cbn [RetentionProofs.ghost_step]; try done.
  - destruct (reserve _ _ _ _ _ _ _).1 as [[t []]|e|]; try done. apply Hset. by eapply Hr.
  - destruct (append _ _ _ _).1; try done. apply Hset. cbn [fst]. apply Hg.
Qed.

Lemma stored_ok m g op s : manager_ok m g -> op_ok m op -> store_step (store_of m) op = Ok s -> manager_ok (put_store s m) (ghost_step (store_of m) g op).
Proof.
  intros [H1 H2 H3 H4 H5 H6 H7] Ho Hst. destruct (retention_step_ok Entries ByteCapacity ack_size Hentries Hcapacity Hack (store_of m) g op H3) as (s' & Es & Hwf & _).
  rewrite Hst in Es. injection Es as <-. split; try done.
  - by destruct H1.
  - by rewrite store_put.
  - apply ghost_wires; [done|]. intros key packet n ->. exact Ho.
  - intros i a Ha. destruct (H5 i a Ha) as [Hc [e He] (t & Ht & Er)].
    destruct (holding_step Entries ByteCapacity ack_size Hentries Hcapacity Hack _ g _ _ _ e op s H3 He (op_spares m op i a Ho Ha) Hst) as [[e' He'] Eg]. rewrite Hc in Eg.
    split; [done|exists e'; by rewrite store_put|]. exists t. split; [exact Ht|]. by rewrite Eg.
Qed.

Lemma store_call {A} op (f : RetentionStore -> Result A * RetentionStore) m g : manager_ok m g -> op_ok m op -> store_step (store_of m) op = after (f (store_of m)) ->
  exists r s, f (store_of m) = (r, s) /\ safe r /\ on_store m f = Ok (r, put_store s m) /\ manager_ok (put_store s m) (ghost_step (store_of m) g op).
Proof.
  intros Hm Ho Hst. destruct (retention_step_ok Entries ByteCapacity ack_size Hentries Hcapacity Hack (store_of m) g op (mo_store _ _ Hm)) as (s & Es & _ & _). rewrite Hst in Es. unfold on_store.
  destruct (f (store_of m)) as [r s'] eqn:Ef. assert (Hs : safe r /\ s' = s) by (destruct r; cbn [after] in Es; try done; by injection Es as <-). destruct Hs as [Hr ->].
  exists r, s. split_and!; [done|done|by destruct r|]. apply stored_ok; [done|done|]. rewrite Hst. by destruct r.
Qed.

(** What a call of the store does not touch. *)
Record aside (m m' : Manager) : Prop := mk_aside {
  as_slots : en_slots (mg_engine m') = en_slots (mg_engine m);
  as_active : mg_active m' = mg_active m;
  as_cancellations : mg_cancellations m' = mg_cancellations m }.
#[local] Instance aside_preorder : PreOrder aside.
Proof. split; [done|]. intros a b c [] []. split; congruence. Qed.
Lemma aside_put s m : aside m (put_store s m).
Proof. done. Qed.

Definition fine {A} (m : Manager) (p : Result A * Manager) : Prop := safe p.1 /\ (exists g, manager_ok p.2 g) /\ aside m p.2.

Lemma on_store_fine {A} op (f : RetentionStore -> Result A * RetentionStore) m g : manager_ok m g -> op_ok m op -> store_step (store_of m) op = after (f (store_of m)) ->
  ensures (on_store m f) (fine m).
Proof. intros Hm Ho Hst. destruct (store_call op f m g Hm Ho Hst) as (r & s & _ & Hr & -> & Hok). apply ensures_Ok. split_and!; [done|by eexists|done]. Qed.
Lemma on_store_ignored {A} op (f : RetentionStore -> Result A * RetentionStore) m g : manager_ok m g -> op_ok m op -> store_step (store_of m) op = after (f (store_of m)) ->
  ensures (on_store_ m f) (fun m' => (exists g', manager_ok m' g') /\ aside m m').
Proof.
  intros Hm Ho Hst. destruct (store_call op f m g Hm Ho Hst) as (r & s & _ & Hr & Ef & Hok). unfold on_store_. rewrite Ef. apply ensures_Ok. split; [by eexists|done].
Qed.

(** ** Cancellations *)

Lemma as_bytes_of l : as_bytes (m_byte <$> l) = Ok l.
Proof. induction l as [|b l IH]; [done|]. cbn. unfold as_bytes in IH. by rewrite IH. Qed.

Lemma stored_packet_ok m g t : manager_ok m g ->
  match stored_packet m t with Ok v => is_some (command (ev_envelope (pv_envelope v))) = true | Err _ => True | UB => False end.
Proof.
  intros Hm. unfold stored_packet. destruct (entry (store_of m) t) as [e|] eqn:Ee; [|unfold canonical, with_token; by rewrite Ee].
  destruct (live_contents Entries ByteCapacity ack_size Hentries Hcapacity Hack _ g t e (mo_store _ _ Hm) Ee) as [-> _]. cbn [rbind]. rewrite as_bytes_of. cbn [rbind].
  set (w := (g _ _).1). pose proof (decode_packet_ok w options_default) as [Hs _]. destruct (decode_packet w options_default) as [v| |] eqn:Ed; [|done|done].
  eapply decoded_command; [|exact Ed]. apply (mo_wires _ _ Hm).
Qed.

Lemma cancel_token_ok m g t : manager_ok m g -> tok_cancellation t = true -> forall i a, mg_active m !! i = Some (Some a) -> ac_token a <> t.
Proof. intros Hm Ht i a Ha <-. by rewrite (ru_command _ _ _ (mo_active _ _ Hm i a Ha)) in Ht. Qed.

(** What the calls on cancellations keep. *)
Record carries (m m' : Manager) : Prop := mk_carries {
  ca_active : mg_active m' = mg_active m;
  ca_cancellations : length (mg_cancellations m') = length (mg_cancellations m) }.
#[local] Instance carries_preorder : PreOrder carries.
Proof. split; [done|]. intros a b c [] []. split; congruence. Qed.
Definition good {A} (m : Manager) (p : Result A * Manager) : Prop := safe p.1 /\ (exists g, manager_ok p.2 g) /\ carries m p.2.
Lemma aside_carries m m' : aside m m' -> carries m m'.
Proof. intros []. split; congruence. Qed.
Lemma fine_good {A} m (p : Result A * Manager) : fine m p -> good m p.
Proof. intros (? & ? & ?). split_and!; [done|done|by apply aside_carries]. Qed.
Lemma good_after {A} m m1 (p : Result A * Manager) : carries m m1 -> good m1 p -> good m p.
Proof. intros H (? & ? & ?). split_and!; [done|done|by transitivity m1]. Qed.

(** A step that ends the function with its error. *)
Lemma step_ensures {A C} (M : Result (Result A * Manager)) (k : A -> Manager -> Result (Result C * Manager)) (P : Result A * Manager -> Prop) (Q : Result C * Manager -> Prop) :
  ensures M P -> (forall p, P p -> safe p.1) -> (forall x y, P (Ok x, y) -> ensures (k x y) Q) -> (forall e y, P (Err e, y) -> Q (Err e, y)) ->
  ensures (match M with Ok (Ok x, y) => k x y | Ok (Err e, y) => Ok (Err e, y) | Ok (UB, _) | UB => UB | Err e => Err e end) Q.
Proof. intros (p & -> & Hp) Hs Hk He. destruct p as [[x|e|] y]; [by apply Hk|apply ensures_Ok; by apply He|by apply Hs in Hp]. Qed.
Lemma good_step {A C} (M : Result (Result A * Manager)) (k : A -> Manager -> Result (Result C * Manager)) m :
  ensures M (good m) -> (forall x y g, manager_ok y g -> carries m y -> ensures (k x y) (good y)) ->
  ensures (match M with Ok (Ok x, y) => k x y | Ok (Err e, y) => Ok (Err e, y) | Ok (UB, _) | UB => UB | Err e => Err e end) (good m).
Proof.
  intros HM Hk. eapply step_ensures; [exact HM|by intros p []| |by intros e y (? & ? & ?)]. intros x y (_ & [g Hg] & Hc). cbn [snd] in *.
  eapply ensures_mono; [by eapply Hk|]. intros p. by apply good_after.
Qed.

Lemma set_cancellation_ok m g i p : manager_ok m g -> from_option (fun p => tok_cancellation (pc_token p) = true) True p -> manager_ok (set_cancellation i p m) g.
Proof.
  intros [H1 H2 H3 H4 H5 H6 H7] Hp. split; try done; [intros j a Ha; by destruct (H5 j a Ha)|]. intros j q Hq. cbn in Hq.
  apply list_lookup_insert_Some in Hq as [(_ & Hq & _)|[_ Hq]]; [subst p; exact Hp|by eapply H7].
Qed.
Lemma set_cancellation_carries m i p : carries m (set_cancellation i p m).
Proof. split; [done|]. cbn. by rewrite length_insert. Qed.
Lemma set_engine_carries (m : Manager) s : carries m (set_engine s m).
Proof. done. Qed.

Lemma append_all_good t v : tok_cancellation t = true -> (forall i, (i < fvec_size v)%nat -> exists a, fvec_at v i = Ok a) ->
  forall n i m g, manager_ok m g -> (i + n = fvec_size v)%nat -> ensures (append_all ack_size m t v i n) (good m).
Proof.
  intros Ht Hv n. induction n as [|n IH]; intros i m g Hm Hn; cbn [append_all]; [apply ensures_Ok; split_and!; [done|by eexists|done]|].
  destruct (Hv i) as [a ->]; [lia|]. cbn [rbind]. apply good_step; [|intros _ y g' Hy _; eapply IH; [exact Hy|lia]].
  eapply ensures_mono; [apply (on_store_fine (rop_append t a) _ m g); [exact Hm|exact (cancel_token_ok m g t Hm Ht)|done]|]. intros p. apply fine_good.
Qed.

Lemma store_cancellation_good m g p result now : manager_ok m g -> tok_cancellation (pc_token p) = true -> readable (Ok result) ->
  ensures (store_cancellation Entries ack_size m p result now) (good m).
Proof.
  intros Hm Ht [_ Hr]. unfold store_cancellation. apply good_step; [eapply append_all_good; [done|by apply Hr|exact Hm|done]|]. intros _ m1 g1 H1 _.
  apply good_step.
  - eapply ensures_mono; [apply (on_store_fine (rop_complete (pc_token p) (oc_monotonic now)) _ m1 g1); [exact H1|exact (cancel_token_ok m1 g1 _ H1 Ht)|done]|]. intros q. apply fine_good.
  - intros _ m2 g2 H2 _. eapply ensures_mono; [by apply (on_store_fine (rop_release (pc_token p)) _ m2 g2)|]. intros q. apply fine_good.
Qed.

Lemma selectors_safe packet : is_some (command (ev_envelope (pv_envelope packet))) = true -> safe (cancellation_selectors packet).
Proof.
  intros Hc. unfold cancellation_selectors. pose proof (validate_cam_safe (ev_envelope (pv_envelope packet)) Hc) as Hv. assert (Hsel : forall views l, safe (select_fields views l)).
  { intros views. induction views as [|v views IH]; intros l; cbn [select_fields]; [done|]. test_goal Ex; [done|apply IH]. }
  destruct (validate_cam _); [test_goal Ex; [done|apply Hsel]|done|done].
Qed.

Lemma cancel_result_good m g i p packet c selected now : manager_ok m g -> tok_cancellation (pc_token p) = true -> is_some (command (ev_envelope (pv_envelope packet))) = true ->
  ensures (cancel_result backend options m i p packet c selected now) (fun q => good m q /\ readable q.1).
Proof.
  intros Hm Ht Hc. unfold cancel_result. cbv zeta. assert (Hh : safe (engine_handle (store_of m) (original_of (pc_token p)))) by (unfold engine_handle, with_token; by destruct (entry _ _)).
  destruct (engine_handle _ _) as [handle|e|]; [|apply ensures_Ok; split; [split_and!; [done|by eexists|done]|by split]|done].
  match goal with |- ensures (match ?x with Some _ => _ | None => _ end) _ => destruct x as [h|] end.
  - eapply ensures_bind; [apply (cancel_command_spec backend options); [by apply Hm|exact Hc]|]. intros [r s] [Ha Hr]. cbn [fst snd] in *. apply ensures_Ok. split; [|done]. split_and!; [apply Hr| |].
    + exists g. apply set_cancellation_ok; [|done]. apply moved_ok; [done|by apply advances_moves].
    + etransitivity; [apply (set_engine_carries m s)|apply set_cancellation_carries].
  - apply ensures_Ok. pose proof (cancellation_response_safe packet (en_state (mg_engine m)) (oc_clock now) selected (replicate state_field_capacity false)) as Hr.
    match goal with |- good _ (cancellation_response _ _ _ _ _ ?d ?cr ?md, _) /\ _ => specialize (Hr d cr md Hc) end. split; [|done]. split_and!; [apply Hr| |apply set_cancellation_carries].
    exists g. by apply set_cancellation_ok.
Qed.

Lemma drop_result_ok m g credits : manager_ok m g -> manager_ok (drop_result m credits) g.
Proof. intros Hm. apply moved_ok; [done|]. apply advances_moves, drop_credits_advances, Hm. Qed.

Lemma finish_cancel_good m g i p now : manager_ok m g -> tok_cancellation (pc_token p) = true -> ensures (finish_cancel backend options Entries ack_size m i p now) (good m).
Proof.
  intros Hm Ht. assert (Herr : forall e, ensures (Ok (Err e : Result unit, m)) (good m)) by (intros e; apply ensures_Ok; split_and!; [done|by eexists|done]).
  unfold finish_cancel. pose proof (stored_packet_ok m g (pc_token p) Hm) as Hp. destruct (stored_packet m (pc_token p)) as [packet|e|]; [|apply Herr|done].
  pose proof (selectors_safe packet Hp) as Hs. destruct (cancellation_selectors packet) as [selected|e|]; [|apply Herr|done]. destruct (command _) as [c|] eqn:Ec; [|done]. cbn [deref rbind].
  eapply step_ensures; [eapply cancel_result_good; [exact Hm|exact Ht|by rewrite Ec]|by intros q [[]]| |by intros e y [(? & ? & ?) _]].
  intros result m1 [(_ & [g1 H1] & Hc) Hr]. cbn [fst snd] in *. eapply ensures_bind; [by eapply store_cancellation_good|]. intros [r m2] (Hsafe & [g2 H2] & Hc2). cbn [fst snd] in *.
  apply ensures_Ok. split_and!; [done|exists g2; by apply drop_result_ok|]. etransitivity; [exact Hc|]. etransitivity; [exact Hc2|]. apply set_engine_carries.
Qed.

Lemma progress_cancellation_good m g i p now : manager_ok m g -> tok_cancellation (pc_token p) = true ->
  ensures (progress_cancellation backend options Entries ack_size m i p now) (good m).
Proof.
  intros Hm Ht. unfold progress_cancellation. pose proof (stored_packet_ok m g (pc_token p) Hm) as Hp.
  destruct (stored_packet m (pc_token p)) as [packet|e|]; [|apply ensures_Ok; split_and!; [done|by eexists|done]|done]. destruct (command _) as [c|]; [|done]. cbn [deref rbind]. cbv zeta.
  set (p' := remap p _ now _). assert (Ht' : tok_cancellation (pc_token p') = true) by (unfold p', remap; by repeat case_match). clearbody p'.
  set (m1 := set_cancellation i (Some p') m). assert (H1 : manager_ok m1 g) by (by apply set_cancellation_ok). assert (Hc1 : carries m m1) by apply set_cancellation_carries.
  destruct (_ && _); [apply ensures_Ok; split_and!; [done|by eexists|done]|]. eapply ensures_mono; [|intros q; by apply (good_after m m1)].
  apply good_step; [by eapply finish_cancel_good|]. intros _ m2 g2 H2 _. apply ensures_Ok. split_and!; [done| |apply set_cancellation_carries]. exists g2. by apply set_cancellation_ok.
Qed.

Lemma cancellations_good now : forall n i m g, manager_ok m g -> (i + n = length (mg_cancellations m))%nat ->
  ensures (cancellations_loop backend options Entries ack_size n i m now) (good m).
Proof.
  intros n. induction n as [|n IH]; intros i m g Hm Hn; cbn [cancellations_loop]; [apply ensures_Ok; split_and!; [done|by eexists|done]|].
  apply good_step.
  - destruct (lookup_lt_is_Some_2 (mg_cancellations m) i) as [[p|] Hp]; [lia| |]; rewrite Hp; [|apply ensures_Ok; split_and!; [done|by eexists|done]].
    eapply progress_cancellation_good; [exact Hm|]. by eapply (mo_cancels _ _ Hm).
  - intros _ m1 g1 H1 [_ Hl]. eapply IH; [exact H1|lia].
Qed.

(** ** Admission *)

(** No transaction was opened or ended. *)
Definition unopened (m m' : Manager) : Prop := (forall h, live (mg_engine m') h = live (mg_engine m) h) /\ mg_active m' = mg_active m.
Lemma live_slots (s s' : Engine) h : en_slots s' = en_slots s -> live s' h = live s h.
Proof. intros Es. unfold live. by rewrite (current_handle_slots _ _ _ Es). Qed.
Lemma aside_unopened m m' : aside m m' -> unopened m m'.
Proof. intros []. split; [|done]. intros h. by apply live_slots. Qed.
#[local] Instance unopened_preorder : PreOrder unopened.
Proof. split; [done|]. intros a b c [H1 H2] [H3 H4]. split; [intros h; by rewrite H3|congruence]. Qed.

(** One transaction was opened for the command of the packet, and the record of the token is
    bound to it. *)
Definition opened_for (packet : PacketView) (t : RetentionToken) (m m' : Manager) : Prop :=
  exists h i, live (mg_engine m) h = false /\ (forall h', live (mg_engine m') h' = live (mg_engine m) h' || bool_decide (h' = h)) /\
    mg_active m !! i = Some None /\ mg_active m' = <[i := Some (mkActive t h)]> (mg_active m) /\
    engine_handle (store_of m') t = Ok (Some h) /\ canonical (store_of m') t = Ok (m_byte <$> canonical_bytes packet) /\
    (forall k : nat, manager_response ack_size m' t (Z.of_nat k) = Ok None) /\
    exists x, current_handle (mg_engine m') h = Some x /\ request_from packet (op_profile options) = Ok (request_of x).

Lemma undo_ensures {A} m g t e : manager_ok m g -> ensures (undo (A := A) Entries m t e) (fun p => (exists e', p.1 = Err e') /\ (exists g', manager_ok p.2 g') /\ aside m p.2).
Proof.
  intros Hm. unfold undo. eapply ensures_bind; [by apply (on_store_ignored (rop_rollback t) _ m g)|]. intros m' [Hg Ha]. apply ensures_Ok. split_and!; [by eexists|done|done].
Qed.

(** The record of a command that was just reserved. *)
Record reserved_for (m : Manager) (g : ghost) (packet : PacketView) (t : RetentionToken) : Prop := mk_reserved_for {
  rf_command : tok_cancellation t = false;
  rf_entry : exists e, entry (store_of m) t = Some e /\ reserved_record (e_rec0 e) 3;
  rf_contents : g (tok_slot t) false = (canonical_bytes packet, []);
  rf_apart : forall i a, mg_active m !! i = Some (Some a) -> tok_slot (ac_token a) <> tok_slot t }.

Lemma first_free_lookup {A} (l : list (option A)) i : first_free l = Some i -> l !! i = Some None.
Proof. intros H. apply first_index_Some in H as [([x|] & Hx & Hb) _]; [done|exact Hx]. Qed.

Lemma set_active_ok m g i a : manager_ok m g -> mg_active m !! i = Some None -> running m g a ->
  (forall j b, mg_active m !! j = Some (Some b) -> tok_slot (ac_token b) <> tok_slot (ac_token a) /\ h_slot (ac_handle b) <> h_slot (ac_handle a)) ->
  manager_ok (set_active i (Some a) m) g.
Proof.
  intros [H1 H2 H3 H4 H5 H6 H7] Hi Hr Hd. assert (Hlt : (i < length (mg_active m))%nat) by (by eapply lookup_lt_Some). split; try done.
  - intros j b Hb. cbn in Hb. apply list_lookup_insert_Some in Hb as [(_ & [= <-] & _)|[_ Hb]]; [by destruct Hr|by destruct (H5 j b Hb)].
  - intros j k b c Hb Hc Hs. cbn in Hb, Hc. apply list_lookup_insert_Some in Hb as [(<- & [= <-] & _)|[Hj Hb]], Hc as [(<- & [= <-] & _)|[Hk Hc]]; [done| | |by eapply H6].
    + destruct (Hd k c Hc). destruct Hs; congruence.
    + destruct (Hd j b Hb). destruct Hs; congruence.
Qed.

Lemma live_other (s : Engine) h h' t : actives s !! h_slot h = Some false -> current_handle s h' = Some t -> h_slot h' <> h_slot h.
Proof. intros Ha Ht Es. assert (Hl : live s h' = true) by (unfold live; by rewrite Ht). apply live_iff in Hl as [Hl _]. congruence. Qed.

Lemma bind_retain m g packet t h : manager_ok m g -> reserved_for m g packet t ->
  ensures (let? m := on_store_ m (fun s => bind s t (Some h)) in on_store_ m (fun s => retain s t)) (fun m' =>
    manager_ok m' g /\ aside m m' /\ exists e, holding (store_of m') t 3 (Some h) e).
Proof.
  intros Hm [Hc (e & He & Hr) _ _]. destruct (bind_holding ByteCapacity Hcapacity (store_of m) t 3 (Some h) e He Hc Hr) as (s1 & e1 & E1 & Hh1).
  destruct (store_call (rop_bind t (Some h)) (fun s => bind s t (Some h)) m g Hm I eq_refl) as (r & s & Er & _ & Eo & Hok). rewrite E1 in Er. injection Er as <- <-.
  unfold on_store_ at 1. rewrite Eo. cbn [rmap rbind snd]. cbn [RetentionProofs.ghost_step] in Hok.
  destruct (store_call (rop_retain t) (fun s => retain s t) (put_store s1 m) g Hok I eq_refl) as (r2 & s2 & E2 & _ & Eo2 & Hok2). cbn [RetentionProofs.ghost_step] in Hok2.
  unfold on_store_. rewrite Eo2. apply ensures_Ok. cbn [snd]. split_and!; [done|done|]. rewrite !store_put in *.
  assert (Hst : store_step s1 (rop_retain t) = Ok s2).
  { cbn [RetentionProofs.store_step]. rewrite E2. unfold on_store in Eo2. rewrite store_put, E2 in Eo2. destruct r2; [done|done|done]. }
  pose proof (mo_store _ _ Hok) as Hwf. rewrite store_put in Hwf.
  by destruct (holding_step Entries ByteCapacity ack_size Hentries Hcapacity Hack s1 g t 3 (Some h) e1 (rop_retain t) s2 Hwf Hh1 ltac:(done) Hst) as [? _].
Qed.

Lemma rbind_swap {A C D} (m : Result A) (f : A -> Result C) (k : C -> Result D) : (let? x := m in let? y := f x in k y) = (let? y := (let? x := m in f x) in k y).
Proof. by destruct m. Qed.

Lemma bound_contents m g t h e : manager_ok m g -> holding (store_of m) t 3 (Some h) e -> tok_cancellation t = false ->
  engine_handle (store_of m) t = Ok (Some h) /\ canonical (store_of m) t = Ok (m_byte <$> (g (tok_slot t) false).1) /\
  (forall k : nat, manager_response ack_size m t (Z.of_nat k) = Ok ((g (tok_slot t) false).2 !! k)).
Proof.
  intros Hm [He _ _ _ Hh _] Hc. destruct (live_contents Entries ByteCapacity ack_size Hentries Hcapacity Hack _ g t e (mo_store _ _ Hm) He) as [H1 H2]. rewrite Hc in *. split_and!; [|done|done].
  unfold engine_handle, with_token. rewrite He, Hc. cbn. f_equal. exact Hh.
Qed.

(** What [accept] gives back: a fresh command was opened, or nothing was. *)
Definition command_outcome (packet : PacketView) (m : Manager) (p : Result RetentionAdmission * Manager) : Prop :=
  safe p.1 /\ (exists g, manager_ok p.2 g) /\
  match p.1 with
  | Ok a => if bool_decide (adm_kind a = DuplicateKind.fresh) && negb (cancel (ev_envelope (pv_envelope packet))) then opened_for packet (adm_token a) m p.2 else unopened m p.2
  | _ => unopened m p.2
  end.

Lemma accept_command_spec m g packet now mid reserved : manager_ok m g -> Forall view_ok (pv_fields packet) -> reserved_for m g packet (adm_token reserved) ->
  adm_kind reserved = DuplicateKind.fresh -> cancel (ev_envelope (pv_envelope packet)) = false ->
  ensures (accept_command backend options plan_size Entries monotonic_ids m packet now mid reserved) (command_outcome packet m).
Proof.
  intros Hm Hv Hres Hk Hnc. set (t := adm_token reserved) in *. unfold accept_command. fold t.
  assert (Hundo : forall m1 g1 e, manager_ok m1 g1 -> unopened m m1 -> ensures (undo Entries m1 t e) (command_outcome packet m)).
  { intros m1 g1 e H1 Hu. eapply ensures_mono; [by eapply undo_ensures|]. intros p ([e' Ep] & Hg & Ha). split_and!; [by rewrite Ep|done|]. rewrite Ep. etransitivity; [exact Hu|by apply aside_unopened]. }
  destruct (first_free (mg_active m)) as [slot|] eqn:Ef; [|by eapply Hundo]. apply first_free_lookup in Ef.
  eapply ensures_bind; [apply (accept_live backend options plan_size sink_ok (mg_engine m)); [by apply Hm|done]|]. intros [r s] [Hadv Hout]. cbn [fst snd] in *.
  set (m1 := set_engine s m). assert (H1 : manager_ok m1 g) by (by apply moved_ok; [|apply advances_moves]).
  destruct r as [h|e|]; [|by eapply Hundo|done]. destruct Hout as (Hin & Hlive & x & Hx & Hq & _ & _ & Hread).
  rewrite rbind_swap. eapply ensures_bind; [eapply (bind_retain m1 g packet t h H1)|].
  { destruct Hres as [Hc (e & He & Hr) Hg Ha]. split; try done. by exists e. }
  intros m3 (H3 & Ha3 & e3 & He3). assert (Hc : tok_cancellation t = false) by apply Hres.
  assert (Hx3 : current_handle (mg_engine m3) h = Some x) by (rewrite (current_handle_slots _ _ h (as_slots _ _ Ha3)); exact Hx).
  set (m4 := set_active slot (Some (mkActive t h)) m3). assert (H4 : manager_ok m4 g).
  { apply set_active_ok; [done|by rewrite (as_active _ _ Ha3)| |].
    - split; [done|by exists e3|]. exists x. split; [exact Hx3|]. cbn [ac_token]. rewrite (rf_contents _ _ _ _ Hres). unfold answers_read. by rewrite Hread.
    - intros j b Hb. rewrite (as_active _ _ Ha3) in Hb. split; [by apply (rf_apart _ _ _ _ Hres j b)|]. destruct (mo_active _ _ Hm j b Hb) as [_ _ (u & Hu & _)]. by eapply live_other. }
  assert (Hdone : opened_for packet t m m4).
  { destruct (bound_contents m3 g t h e3 H3 He3 Hc) as (Eh & Ecan & Eresp). rewrite (rf_contents _ _ _ _ Hres) in *. exists h, slot. split_and!; try done.
    - destruct (live (mg_engine m) h) eqn:Hl; [|done]. apply live_iff in Hl as [Hl _]. congruence.
    - intros h'. rewrite <- Hlive. by apply live_slots, (as_slots _ _ Ha3).
    - cbn. by rewrite (as_active _ _ Ha3).
    - by exists x. }
  apply ensures_Ok. split_and!; cbn [fst snd]; [done| |].
  - exists g. by apply (same_parts_ok m4); [destruct monotonic_ids..|].
  - rewrite Hk, Hnc. cbn. by destruct monotonic_ids.
Qed.

Lemma check_cancellation_safe m g packet now t : manager_ok m g -> is_some (command (ev_envelope (pv_envelope packet))) = true -> safe (check_cancellation m packet now t).
Proof.
  intros Hm Hc. unfold check_cancellation. cbv zeta. apply rbind_safe; [by apply selectors_safe|]. intros selected _. pose proof (stored_packet_ok m g (original_of t) Hm) as Ho.
  destruct (stored_packet _ _) as [original|e|]; [|done|done]. cbn [rbind]. apply rbind_safe.
  { unfold cancels_original. destruct (negb (same_class _ _)); [done|]. destruct (command (ev_envelope (pv_envelope original))); [|done]. cbn [deref rbind]. by destruct (negb _). }
  intros cancels _. destruct (negb cancels); [done|]. destruct (command (ev_envelope (pv_envelope packet))) as [c|]; [|done]. cbn [deref rbind]. apply rbind_safe; [|done].
  destruct (nonzero _); [|done]. unfold check_cancel_time. destruct (_ || _ || _); [done|]. apply rbind_safe; [apply choose_boundary_safe|done].
Qed.

Lemma accept_cancellation_spec m g packet now reserved : manager_ok m g -> is_some (command (ev_envelope (pv_envelope packet))) = true ->
  tok_cancellation (adm_token reserved) = true -> ensures (accept_cancellation Entries m packet now reserved) (fun p => safe p.1 /\ (exists g, manager_ok p.2 g) /\ unopened m p.2).
Proof.
  intros Hm Hc Ht. unfold accept_cancellation. set (t := adm_token reserved) in *.
  assert (Hundo : forall m1 g1 e, manager_ok m1 g1 -> aside m m1 -> ensures (undo (A := RetentionAdmission) Entries m1 t e) (fun p => safe p.1 /\ (exists g, manager_ok p.2 g) /\ unopened m p.2)).
  { intros m1 g1 e H1 Hu. eapply ensures_mono; [by eapply undo_ensures|]. intros p ([e' Ep] & Hg & Ha). split_and!; [by rewrite Ep|done|]. apply aside_unopened. by transitivity m1. }
  pose proof (check_cancellation_safe m g packet now t Hm Hc) as Hs. destruct (check_cancellation m packet now t) as [c|e|]; [|by eapply Hundo|done].
  destruct (first_free (mg_cancellations m)) as [slot|]; [|by eapply Hundo].
  pose proof (acquire_safe (en_admission (mg_engine m)) (cancellation_resources (cam c))) as Hcr. destruct (admission_acquire _ _) as [credits pool]. cbn [fst] in Hcr.
  set (m1 := set_engine _ m). assert (H1 : manager_ok m1 g) by (apply moved_ok; [done|]; apply moves_slots; [|done|done]; by destruct (mo_engine _ _ Hm)).
  destruct credits as [credits|e|]; [|by eapply Hundo|done].
  eapply ensures_bind; [by apply (on_store_ignored (rop_bind t None) _ m1 g)|]. intros m2 [[g2 H2] Ha2]. eapply ensures_bind; [by apply (on_store_ignored (rop_retain t) _ m2 g2)|].
  intros m3 [[g3 H3] Ha3]. apply ensures_Ok. cbn [fst snd]. split_and!; [done|exists g3; by apply set_cancellation_ok|].
  assert (Ha : aside m m3) by (transitivity m2; [|done]; by transitivity m1). exact (aside_unopened m m3 Ha).
Qed.

Lemma refused_outcome packet m (p : Result RetentionAdmission * Manager) : safe p.1 -> (exists g, manager_ok p.2 g) -> unopened m p.2 ->
  (forall a, p.1 = Ok a -> adm_kind a = DuplicateKind.fresh -> cancel (ev_envelope (pv_envelope packet)) = true) -> command_outcome packet m p.
Proof.
  intros Hs Hg Hu Hk. split_and!; [done|done|]. destruct (p.1) as [a|e|]; [|done|done]. destruct (bool_decide_reflect (adm_kind a = DuplicateKind.fresh)) as [Ef|]; [|done].
  by rewrite (Hk a eq_refl Ef).
Qed.

Lemma replay_not_fresh s key packet a s' : replay_existing s key packet = (Ok a, s') -> adm_kind a <> DuplicateKind.fresh.
Proof.
  unfold replay_existing. destruct (_ || _); [done|]. destruct (negb _); [done|]. destruct (find_key s key) as [i|]; [|done]. destruct (rs_entries s !! i) as [e|]; [|done].
  cbn [deref attempt]. destruct (negb _); [done|]. destruct (duplicate_of _ _ _); cbn [attempt]; [|done|done]. destruct (_ =? _); [done|]. unfold admit_duplicate.
  intros [= <- _]. cbn. by destruct (r_terminal _).
Qed.
Lemma replay_outcome packet m g key : manager_ok m g -> ensures (on_store m (fun s => replay_existing s key packet)) (command_outcome packet m).
Proof.
  intros Hm. destruct (store_call (rop_replay key packet) (fun s => replay_existing s key packet) m g Hm I eq_refl) as (r & s & Er & Hr & -> & Hok). apply ensures_Ok.
  apply refused_outcome; [done|by eexists|by apply aside_unopened|]. cbn [fst]. intros a -> Hf. by apply replay_not_fresh in Er.
Qed.

(** What [reserve] leaves for a fresh command. *)
Lemma reserve_reserved m g key packet a s : manager_ok m g -> reserve Entries ByteCapacity ack_size (store_of m) key packet 3 = (Ok a, s) ->
  adm_kind a = DuplicateKind.fresh -> cancel (ev_envelope (pv_envelope packet)) = false ->
  reserved_for (put_store s m) (ghost_step (store_of m) g (rop_reserve key packet 3)) packet (adm_token a).
Proof.
  intros Hm Er Hf Hc. pose proof (reserve_spec Entries ByteCapacity ack_size Hentries Hcapacity Hack (store_of m) g key packet 3 (mo_store _ _ Hm) ltac:(lia)) as Hs.
  cbn [RetentionProofs.ghost_step]. change (Z.of_nat 3) with 3. rewrite Er in *. destruct a as [t kind]. cbn [adm_kind adm_token fst] in *. subst kind. rewrite Hc in Hs.
  destruct Hs as (slot & e & He & Hun & -> & (e' & Es & Hg & _ & _ & Hr & _) & _). cbn [tok_slot tok_cancellation] in *. split; cbn [tok_slot tok_cancellation].
  - done.
  - exists e'. split; [|exact Hr]. apply (live_entry ByteCapacity Hcapacity). rewrite store_put, Es. cbn [tok_slot tok_cancellation tok_generation].
    rewrite list_lookup_insert_eq by (by eapply lookup_lt_Some). split_and!; [done|apply Hr|done].
  - by rewrite ghost_set_eq.
  - intros i b Hb E'. destruct (mo_active _ _ Hm i b Hb) as [Hbc [f Hf] _]. pose proof (ho_entry _ _ _ _ _ Hf) as (Hs & Hu & _)%(live_entry ByteCapacity Hcapacity).
    rewrite Hbc in Hu. rewrite E', He in Hs. injection Hs as <-. congruence.
Qed.
Lemma reserve_token m g key packet n a s : manager_ok m g -> reserve Entries ByteCapacity ack_size (store_of m) key packet (Z.of_nat n) = (Ok a, s) ->
  adm_kind a = DuplicateKind.fresh -> tok_cancellation (adm_token a) = cancel (ev_envelope (pv_envelope packet)).
Proof.
  intros Hm Er Hf. pose proof (reserve_spec Entries ByteCapacity ack_size Hentries Hcapacity Hack (store_of m) g key packet (Z.of_nat n) (mo_store _ _ Hm) ltac:(lia)) as Hs.
  rewrite Er in Hs. rewrite Hf in Hs. by destruct Hs as (slot & e & _ & _ & -> & _).
Qed.

Lemma manager_accept_spec m g packet now peer : manager_ok m g -> decoded packet ->
  ensures (manager_accept backend options plan_size Entries ByteCapacity ack_size monotonic_ids m packet now peer) (command_outcome packet m).
Proof.
  intros Hm Hd. assert (Hrefuse : forall e, ensures (Ok (Err e, m)) (command_outcome packet m)).
  { intros e. apply ensures_Ok, refused_outcome; [done|by eexists|done|done]. }
  assert (Hviews : Forall view_ok (pv_fields packet)) by (destruct Hd as (wire & o & Ho); by destruct (proj2 (decode_packet_ok wire o) packet Ho)).
  unfold manager_accept. cbv zeta. destruct (_ || _); [apply Hrefuse|]. destruct (transaction_key packet _ peer) as [key|e|] eqn:Ek; [|apply Hrefuse|by unfold transaction_key in Ek; repeat case_match].
  destruct (mg_closed m); [by eapply replay_outcome|]. unfold transaction_key in Ek. destruct (command _) as [c|] eqn:Ec; [|done]. destruct (_ || negb (is_command _)) eqn:Ety; [done|].
  apply orb_false_iff in Ety as [_ Ety%negb_false_iff]. clear Ek. cbn [deref rbind]. destruct (_ && _); [apply Hrefuse|]. destruct (monotonic_ids && _ && _); [by eapply replay_outcome|].
  set (n := if cancel (ev_envelope (pv_envelope packet)) then 2%nat else 3%nat). assert (En : (if cancel (ev_envelope (pv_envelope packet)) then 2 else 3) = Z.of_nat n) by (unfold n; by destruct (cancel _)). rewrite En.
  destruct (store_call (rop_reserve key packet n) (fun s => reserve Entries ByteCapacity ack_size s key packet (Z.of_nat n)) m g Hm (canonical_command packet Hd Ety) eq_refl) as (r & s & Er & Hr & -> & Hok).
  destruct r as [a|e|]; [|apply ensures_Ok, refused_outcome; [done|by eexists|by apply aside_unopened|done]|done].
  destruct (bool_decide_reflect (adm_kind a = DuplicateKind.fresh)) as [Hf|Hf]; cbn [negb]; [|apply ensures_Ok, refused_outcome; [done|by eexists|by apply aside_unopened|by intros a' [= <-]]].
  pose proof (reserve_token m g key packet n a s Hm Er Hf) as Ht. destruct (cancel _) eqn:Ecancel; cbn [negb].
  - eapply ensures_mono; [by eapply accept_cancellation_spec; [exact Hok|rewrite Ec|]|]. intros p (Hs & Hg & Hu). apply refused_outcome; [done|done|done|done].
  - pose proof (reserve_reserved m g key packet a s Hm Er Hf Ecancel) as Hres. eapply ensures_mono; [by eapply accept_command_spec|]. intros p H. exact H.
Qed.

(** ** The answers of the engine *)

(** What a step leaves alone: the running transactions of the entries in [P], and the records
    that are finished. *)
Record others (P : nat -> Prop) (m : Manager) (g : ghost) (m' : Manager) (g' : ghost) : Prop := mk_others {
  ot_active : forall j, P j -> mg_active m' !! j = mg_active m !! j;
  ot_length : length (mg_active m') = length (mg_active m);
  ot_running : forall j b, P j -> mg_active m !! j = Some (Some b) ->
    current_handle (mg_engine m') (ac_handle b) = current_handle (mg_engine m) (ac_handle b) /\ g' (tok_slot (ac_token b)) false = g (tok_slot (ac_token b)) false;
  ot_retained : forall t limit, tok_cancellation t = false -> limit <= U64_MAX -> retained t limit (store_of m) ->
    retained t limit (store_of m') /\ g' (tok_slot t) false = g (tok_slot t) false }.
Lemma others_refl P m g : others P m g m g.
Proof. by split. Qed.
Lemma others_trans P m g m1 g1 m2 g2 : others P m g m1 g1 -> others P m1 g1 m2 g2 -> others P m g m2 g2.
Proof.
  intros [A1 L1 R1 T1] [A2 L2 R2 T2]. split.
  - intros j Hj. by rewrite A2, A1.
  - congruence.
  - intros j b Hj Hb. destruct (R1 j b Hj Hb) as [E1 E2]. destruct (R2 j b Hj) as [E3 E4]; [by rewrite A1|]. split; congruence.
  - intros t limit Hc Hl Ht. destruct (T1 t limit Hc Hl Ht) as [H1 E1]. destruct (T2 t limit Hc Hl H1) as [H2 E2]. split; [done|congruence].
Qed.
Lemma others_mono (P Q : nat -> Prop) m g m' g' : others P m g m' g' -> (forall j, Q j -> P j) -> others Q m g m' g'.
Proof. intros [A L R T] H. split; eauto. Qed.

(** A call of the store that spares their records. *)
Lemma store_others (P : nat -> Prop) m g op s : manager_ok m g -> (forall j b, P j -> mg_active m !! j = Some (Some b) -> spares (ac_token b) op) -> (forall now, op <> rop_expire now) ->
  store_step (store_of m) op = Ok s -> others P m g (put_store s m) (ghost_step (store_of m) g op).
Proof.
  intros Hm Hsp Hne Hst. split; try done.
  - intros j b Hj Hb. split; [done|]. destruct (mo_active _ _ Hm j b Hb) as [Hc [e He] _].
    destruct (holding_step Entries ByteCapacity ack_size Hentries Hcapacity Hack _ g _ _ _ e op s (mo_store _ _ Hm) He (Hsp j b Hj Hb) Hst) as [_ Eg]. by rewrite Hc in Eg.
  - intros t limit Hc Hl Ht. rewrite store_put. split.
    + eapply (retained_step Entries ByteCapacity ack_size); [done|done|done|apply (mo_store _ _ Hm)|done|done|exact Ht|intros now Ho; by destruct (Hne now Ho)|exact Hst].
    + eapply (terminal_contents Entries ByteCapacity ack_size); [done|done|done|apply (mo_store _ _ Hm)|done|]. destruct Ht as (e & He & Hr & _). eauto.
Qed.

Lemma current_slot (s : Engine) h x : current_handle s h = Some x <-> en_slots s !! h_slot h = Some x /\ tr_active (ts_record x) = true /\ tr_generation (ts_record x) = h_generation h.
Proof.
  unfold current_handle. destruct (en_slots s !! h_slot h) as [u|]; [|by split; [|intros (? & _)]]. destruct (tr_active (ts_record u)) eqn:Ha; cbn [andb].
  - destruct (Z.eqb_spec (tr_generation (ts_record u)) (h_generation h)); split; try done; [by intros [= <-]|by intros ([= <-] & _)|by intros ([= <-] & _ & ?)].
  - split; [done|]. intros ([= <-] & ? & _). congruence.
Qed.

(** The slot of a transaction, with another number of answers read. *)
Definition reread (k : nat) (x : TxSlot) : TxSlot := on_record (tr_set_response_read k) x.
Lemma reread_current k (s : Engine) h x : current_handle s h = Some x -> current_handle (set_slot_at (h_slot h) (reread k x) s) h = Some (reread k x).
Proof. intros (Hi & Ha & Hg)%current_slot. apply current_slot. cbn. rewrite list_lookup_insert_eq by (by eapply lookup_lt_Some). done. Qed.
Lemma reread_other k (s : Engine) h h' x : h_slot h' <> h_slot h -> current_handle (set_slot_at (h_slot h) (reread k x) s) h' = current_handle s h'.
Proof. intros Hne. unfold current_handle. cbn. by rewrite list_lookup_insert_ne. Qed.

Lemma running_append i a m g x r : manager_ok m g -> mg_active m !! i = Some (Some a) -> current_handle (mg_engine m) (ac_handle a) = Some x ->
  tr_responses (ts_record x) !! tr_response_read (ts_record x) = Some r ->
  exists s e, append ack_size (store_of m) (ac_token a) r = (Ok tt, s) /\ holding s (ac_token a) 3 (Some (ac_handle a)) e.
Proof.
  intros Hm Hi Hx Hr. destruct (mo_active _ _ Hm i a Hi) as [Hc [e He] (x' & Hx' & Er)]. rewrite Hx in Hx'. injection Hx' as <-.
  apply current_slot in Hx as (Hs & _). pose proof (engine_slot backend options _ _ _ (mo_engine _ _ Hm) Hs) as [_ Hp].
  apply (append_holding Entries ByteCapacity ack_size Hentries Hcapacity Hack _ g _ 3 _ e r (mo_store _ _ Hm) He).
  - rewrite Hc, Er. unfold answers_read, zlen. rewrite length_take. apply lookup_lt_Some in Hr. pose proof (rp_responses _ _ Hp) as Hl. destruct (tr_complete _); lia.
  - rewrite Hc. exact (Forall_lookup_1 _ _ _ _ (rp_ordinary _ _ Hp) Hr).
Qed.

Lemma answer_moved i a m g x r : manager_ok m g -> mg_active m !! i = Some (Some a) -> current_handle (mg_engine m) (ac_handle a) = Some x ->
  tr_responses (ts_record x) !! tr_response_read (ts_record x) = Some r ->
  let k := S (tr_response_read (ts_record x)) in
  exists s m' g', take_response (mg_engine m) (ac_handle a) = Ok (Ok (Some r), s) /\ on_store (set_engine s m) (fun s => append ack_size s (ac_token a) r) = Ok (Ok tt, m') /\
    manager_ok m' g' /\ others (fun j => j <> i) m g m' g' /\ mg_active m' = mg_active m /\ mg_cancellations m' = mg_cancellations m /\
    current_handle (mg_engine m') (ac_handle a) = Some (reread k x).
Proof.
  intros Hm Hi Hx Hr k. destruct (running_append i a m g x r Hm Hi Hx Hr) as (s2 & e2 & Ea & He2). destruct (mo_active _ _ Hm i a Hi) as [Hc [e He] (x' & Hx' & Er)].
  rewrite Hx in Hx'. injection Hx' as <-. destruct (take_response_spec backend options (mg_engine m) (ac_handle a) (mo_engine _ _ Hm)) as ([p1 s1] & Et & Hok & Hg & Hpr & _ & Hres).
  rewrite Hx in Hres. cbn [fst snd] in *. rewrite Hr in Hres. destruct Hres as [-> ->]. apply lookup_lt_Some in Hr as Hlt. rewrite (proj2 (Nat.ltb_lt _ _) Hlt) in *. fold k in Et, Hok, Hg, Hpr |- *.
  fold (reread k x) in *. set (s1 := set_slot_at _ _ _) in *. set (op := rop_append (ac_token a) r).
  assert (Hst : store_step (store_of m) op = Ok s2) by (cbn; by rewrite Ea).
  assert (Hsp : forall j b, j <> i -> mg_active m !! j = Some (Some b) -> spares (ac_token b) op).
  { intros j b Hj Hb. split; [|done]. intros a' [= Et' _]. apply Hj. eapply (mo_distinct _ _ Hm); [exact Hb|exact Hi|left; by rewrite Et']. }
  destruct (store_others (fun j => j <> i) m g op s2 Hm Hsp ltac:(done) Hst) as [O1 O2 O3 O4]. set (g2 := ghost_step (store_of m) g op) in *.
  assert (Hapart : forall j b, j <> i -> mg_active m !! j = Some (Some b) -> h_slot (ac_handle b) <> h_slot (ac_handle a)) by (intros j b Hj Hb Es; apply Hj; eapply (mo_distinct _ _ Hm); [done|done|by right]).
  assert (Eg2 : g2 (tok_slot (ac_token a)) false = ((g (tok_slot (ac_token a)) false).1, (g (tok_slot (ac_token a)) false).2 ++ [r])).
  { unfold g2. cbn. rewrite Ea. cbn. rewrite Hc. by rewrite ghost_set_eq. }
  exists s1, (put_store s2 (set_engine s1 m)), g2. split_and!; [done|unfold on_store; change (store_of (set_engine s1 m)) with (store_of m); by rewrite Ea| | |done|done|by apply reread_current].
  - destruct (retention_step_ok Entries ByteCapacity ack_size Hentries Hcapacity Hack (store_of m) g op (mo_store _ _ Hm)) as (s' & Es' & Hwf & _). rewrite Hst in Es'. injection Es' as <-.
    split; try apply Hm.
    + by destruct Hok.
    + by rewrite store_put.
    + apply ghost_wires; [apply Hm|done].
    + intros j b Hb. cbn in Hb. destruct (decide (j = i)) as [->|Hj].
      * rewrite Hi in Hb. injection Hb as <-. split; [done|exists e2; by rewrite store_put|]. exists (reread k x). split; [by apply reread_current|]. rewrite Eg2, Er. cbn [snd].
        unfold answers_read. cbn. by rewrite (take_S_r _ _ _ Hr).
      * destruct (mo_active _ _ Hm j b Hb) as [Hbc [f Hf] (y & Hy & Ey)]. destruct (O3 j b Hj Hb) as [_ Eg].
        destruct (holding_step Entries ByteCapacity ack_size Hentries Hcapacity Hack _ g _ _ _ f op s2 (mo_store _ _ Hm) Hf (Hsp j b Hj Hb) Hst) as [[f' Hf'] _].
        split; [done|exists f'; by rewrite store_put|]. exists y. split; [|by rewrite Eg]. rewrite <- Hy. apply reread_other. by eapply Hapart.
  - split; try done.
    intros j b Hj Hb. split; [|by apply (O3 j b)]. apply reread_other. by eapply Hapart.
Qed.

(** Every answer that is left is moved. *)
Record drained (i : nat) (a : Active) (x : TxSlot) (m : Manager) (g : ghost) (m' : Manager) (g' : ghost) : Prop := mk_drained {
  dr_ok : manager_ok m' g';
  dr_others : others (fun j => j <> i) m g m' g';
  dr_active : mg_active m' = mg_active m;
  dr_cancellations : mg_cancellations m' = mg_cancellations m;
  dr_read : current_handle (mg_engine m') (ac_handle a) = Some (reread (length (tr_responses (ts_record x))) x) }.

Lemma reread_reread j k x : reread j (reread k x) = reread j x.
Proof. done. Qed.

Lemma drained_none i a m g x : manager_ok m g -> mg_active m !! i = Some (Some a) -> current_handle (mg_engine m) (ac_handle a) = Some x ->
  tr_responses (ts_record x) !! tr_response_read (ts_record x) = None ->
  exists s, take_response (mg_engine m) (ac_handle a) = Ok (Ok None, s) /\ drained i a x m g (set_engine s m) g.
Proof.
  intros Hm Hi Hx Hr. destruct (take_response_spec backend options (mg_engine m) (ac_handle a) (mo_engine _ _ Hm)) as ([p1 s1] & Et & Hok & Hg & Hpr & _ & Hres).
  rewrite Hx in Hres. cbn [fst snd] in *. rewrite Hr in Hres. destruct Hres as [-> ->]. pose proof Hx as (Hs & Hact & Hgen)%current_slot.
  pose proof (engine_slot backend options _ _ _ (mo_engine _ _ Hm) Hs) as [_ Hp]. pose proof (rp_read _ _ Hp) as Hle. apply lookup_ge_None in Hr.
  rewrite (proj2 (Nat.ltb_ge _ _) Hr) in *. assert (El : tr_response_read (ts_record x) = length (tr_responses (ts_record x))) by lia. rewrite El in *. fold (reread (length (tr_responses (ts_record x))) x) in *.
  eexists. split; [exact Et|]. split; try done.
  - apply moved_ok; [done|]. split_and!; [done|done| |done]. cbn. apply (grows_insert _ _ x); [done|]. intros _. cbn. split_and!; [done|by rewrite El|done].
  - split; try done. intros j b Hj Hb. split; [|done]. apply reread_other. intros Es. apply Hj. eapply (mo_distinct _ _ Hm); [exact Hb|exact Hi|by right].
  - by apply reread_current.
Qed.

Lemma drain_spec i a : forall fuel m g x, manager_ok m g -> mg_active m !! i = Some (Some a) -> current_handle (mg_engine m) (ac_handle a) = Some x ->
  (length (tr_responses (ts_record x)) - tr_response_read (ts_record x) < fuel)%nat ->
  ensures (drain_responses ack_size fuel m a) (fun p => p.1 = Ok tt /\ exists g', drained i a x m g p.2 g').
Proof.
  induction fuel as [|fuel IH]; intros m g x Hm Hi Hx Hf; [lia|]. cbn [drain_responses]. destruct (tr_responses (ts_record x) !! tr_response_read (ts_record x)) as [r|] eqn:Hr.
  - destruct (answer_moved i a m g x r Hm Hi Hx Hr) as (s & m1 & g1 & -> & Eo & H1 & Ho & Ea & Ec & Hx1). cbn [rbind]. rewrite Eo. apply lookup_lt_Some in Hr.
    eapply ensures_mono; [eapply (IH m1 g1); [done|by rewrite Ea|exact Hx1|cbn; lia]|]. intros p (Ep & g2 & [D1 D2 D3 D4 D5]). split; [done|]. exists g2.
    split; [done|by eapply others_trans|congruence|congruence|]. rewrite reread_reread in D5. exact D5.
  - destruct (drained_none i a m g x Hm Hi Hx Hr) as (s & -> & Hd). cbn [rbind]. apply ensures_Ok. split; [done|]. by exists g.
Qed.

(** ** The end of a transaction *)

Lemma set_inactive_ok m g i : manager_ok m g -> manager_ok (set_active i None m) g.
Proof.
  intros [H1 H2 H3 H4 H5 H6 H7]. assert (Hl : forall j b, <[i := None]> (mg_active m) !! j = Some (Some b) -> mg_active m !! j = Some (Some b)).
  { intros j b Hb. apply list_lookup_insert_Some in Hb as [(_ & ? & _)|[_ Hb]]; done. }
  split; try done; [intros j b Hb; by destruct (H5 j b (Hl j b Hb))|]. intros j k b c Hb Hc. eauto.
Qed.
Lemma set_inactive_others m g i : others (fun j => j <> i) m g (set_active i None m) g.
Proof. split; try done; [intros j Hj; cbn; by apply list_lookup_insert_ne|cbn; by rewrite length_insert]. Qed.

(** The engine changed only where no running transaction is. *)
Lemma engine_changed_ok m g s : manager_ok m g -> engine_ok s -> en_progressing s = false ->
  (forall j b, mg_active m !! j = Some (Some b) -> current_handle s (ac_handle b) = current_handle (mg_engine m) (ac_handle b)) -> manager_ok (set_engine s m) g.
Proof.
  intros [H1 H2 H3 H4 H5 H6 H7] Hok Hp Hc. split; try done; [by eapply retention_wf_pool; [..|exact H3]|]. intros j b Hb. destruct (H5 j b Hb) as [Hbc [e He] (y & Hy & Ey)].
  split; [done|exists e; by apply (holding_entries (store_of m))|]. exists y. split; [|done]. cbn. by rewrite (Hc j b Hb).
Qed.

Lemma retained_pool s s' t limit : rs_entries s' = rs_entries s -> retained t limit s -> retained t limit s'.
Proof. intros Es (e & He & H). exists e. split; [|exact H]. unfold entry. by rewrite Es. Qed.

(** The last steps for a transaction whose answers were all read. *)
Definition end_active (m : Manager) (i : nat) (a : Active) (now : OperationContext) : Result (Result unit * Manager) :=
  match on_store m (fun s => complete s (ac_token a) (oc_monotonic now)) with
  | Ok (Ok _, m) =>
      let? (r, s) := release_transaction (mg_engine m) (ac_handle a) in
      let m := set_engine s m in
      match r with
      | UB => UB
      | Err e => Ok (Err e, m)
      | Ok _ => let? m := on_store_ m (fun s => release Entries s (ac_token a)) in Ok (Ok tt, set_active i None m)
      end
  | Ok (Err e, m) => Ok (Err e, m)
  | Ok (UB, _) | UB => UB
  | Err e => Err e
  end.

Record ended (i : nat) (a : Active) (now : OperationContext) (m : Manager) (g : ghost) (m' : Manager) : Prop := mk_ended {
  en_ok : manager_ok m' g;
  en_others : others (fun j => j <> i) m g m' g;
  en_active : mg_active m' = <[i := None]> (mg_active m);
  en_cancellations : mg_cancellations m' = mg_cancellations m;
  en_retained : 0 <= ns (oc_monotonic now) < U64_MAX -> retained (ac_token a) (ns (oc_monotonic now) + 1) (store_of m') }.

Lemma end_active_spec m g i a now x : manager_ok m g -> mg_active m !! i = Some (Some a) -> current_handle (mg_engine m) (ac_handle a) = Some x ->
  tr_complete (ts_record x) = true -> tr_response_read (ts_record x) = length (tr_responses (ts_record x)) ->
  ensures (end_active m i a now) (fun p => p.1 = Ok tt /\ ended i a now m g p.2).
Proof.
  intros Hm Hi Hx Hdone Hread. set (n := set_active i None m). assert (Hn : manager_ok n g) by (by apply set_inactive_ok).
  destruct (mo_active _ _ Hm i a Hi) as [Hc [e He] _]. set (t := ac_token a) in *. set (clock := oc_monotonic now).
  assert (Hapart : forall j b, mg_active n !! j = Some (Some b) -> j <> i /\ mg_active m !! j = Some (Some b)).
  { intros j b Hb. cbn in Hb. apply list_lookup_insert_Some in Hb as [(_ & ? & _)|[? Hb]]; [done|]. split; [congruence|done]. }
  assert (Htok : forall j b, mg_active n !! j = Some (Some b) -> ac_token b <> t).
  { intros j b [Hj Hb]%Hapart Et. apply Hj. eapply (mo_distinct _ _ Hm); [exact Hb|exact Hi|left; unfold t in Et; by rewrite Et]. }
  destruct (complete_holding Entries ByteCapacity ack_size Hcapacity Hack _ t 3 _ e clock He Hc) as (s2 & E2 & Hret).
  assert (Hst2 : store_step (store_of n) (rop_complete t clock) = Ok s2) by (cbn [RetentionProofs.store_step]; change (store_of n) with (store_of m); by rewrite E2).
  pose proof (stored_ok n g (rop_complete t clock) s2 Hn Htok Hst2) as H2. cbn [RetentionProofs.ghost_step] in H2. set (n2 := put_store s2 n) in *.
  assert (O2 : others (fun j => j <> i) n g n2 g).
  { apply (store_others (fun j => j <> i) n g (rop_complete t clock) s2 Hn); [|done|done]. intros j b _ Hb. by eapply op_spares. }
  assert (Hx2 : current_handle (mg_engine n2) (ac_handle a) = Some x) by exact Hx.
  destruct (release_spec backend options (mg_engine n2) (ac_handle a) (mo_engine _ _ H2)) as ([r s3] & Er & Hok3 & _ & Hp3 & Hrel). cbn [fst snd] in *.
  destruct r as [[]|err|]; [|by destruct Hrel as [_ Hrel]; destruct (Hrel x Hx2 Hdone)|done]. destruct Hrel as (_ & _ & _ & _ & Hslots).
  assert (Hcur : forall j b, mg_active n2 !! j = Some (Some b) -> current_handle s3 (ac_handle b) = current_handle (mg_engine n2) (ac_handle b)).
  { intros j b [Hj Hb]%Hapart. unfold current_handle. rewrite Hslots; [done|]. intros Es. apply Hj. eapply (mo_distinct _ _ Hm); [exact Hb|exact Hi|by right]. }
  assert (H3 : manager_ok (set_engine s3 n2) g) by (apply engine_changed_ok; [done|done|rewrite Hp3; apply H2|done]). set (n3 := set_engine s3 n2) in *.
  assert (O3 : others (fun j => j <> i) n2 g n3 g) by (split; try done; intros j b _ Hb; split; [by eapply Hcur|done]).
  destruct (store_call (rop_release t) (fun s => release Entries s t) n3 g H3 I eq_refl) as (r4 & s4 & E4 & Hr4 & Eo4 & H4). cbn [RetentionProofs.ghost_step] in H4.
  assert (Hst4 : store_step (store_of n3) (rop_release t) = Ok s4) by (cbn [RetentionProofs.store_step]; rewrite E4; by destruct r4).
  pose proof (store_others (fun j => j <> i) n3 g (rop_release t) s4 H3 ltac:(done) ltac:(done) Hst4) as O4. cbn [RetentionProofs.ghost_step] in O4.
  unfold end_active. fold t clock. assert (Eo2 : on_store m (fun s => complete s t clock) = Ok (Ok tt, put_store s2 m)) by (unfold on_store; by rewrite E2). rewrite Eo2.
  change (mg_engine (put_store s2 m)) with (mg_engine n2). rewrite Er. cbn [rbind].
  assert (Eo5 : on_store_ (set_engine s3 (put_store s2 m)) (fun s => release Entries s t) = Ok (put_store s4 (set_engine s3 (put_store s2 m)))).
  { unfold on_store_, on_store in *. change (store_of (set_engine s3 (put_store s2 m))) with (store_of n3). rewrite E4. by destruct r4. }
  rewrite Eo5. apply ensures_Ok. split; [done|]. change (set_active i None (put_store s4 (set_engine s3 (put_store s2 m)))) with (put_store s4 n3).
  split; [done| |done|done|].
  - eapply others_trans; [apply set_inactive_others|]. eapply others_trans; [exact O2|]. eapply others_trans; [exact O3|exact O4].
  - intros Hb. assert (R2 : retained t (ns clock + 1) (store_of n2)) by (unfold n2; rewrite store_put; auto).
    apply (ot_retained _ _ _ _ _ O4 t (ns clock + 1) Hc ltac:(fold clock in Hb; lia)). by apply (ot_retained _ _ _ _ _ O3 t (ns clock + 1) Hc ltac:(fold clock in Hb; lia)).
Qed.

(** What progress leaves of a transaction: everything it said is in the store; a complete one
    has ended. *)
Definition delivered (now : OperationContext) (i : nat) (a : Active) (x : TxSlot) (m : Manager) (g : ghost) : Prop :=
  if tr_complete (ts_record x)
  then mg_active m !! i = Some None /\ (0 <= ns (oc_monotonic now) < U64_MAX ->
    retained (ac_token a) (ns (oc_monotonic now) + 1) (store_of m) /\ (g (tok_slot (ac_token a)) false).2 = tr_responses (ts_record x))
  else mg_active m !! i = Some (Some a) /\ current_handle (mg_engine m) (ac_handle a) = Some (reread (length (tr_responses (ts_record x))) x).

Lemma answers_all x : answers_read (reread (length (tr_responses (ts_record x))) x) = tr_responses (ts_record x).
Proof. unfold answers_read. cbn. by rewrite take_ge. Qed.

Lemma progress_active_spec m g i a now x : manager_ok m g -> mg_active m !! i = Some (Some a) -> current_handle (mg_engine m) (ac_handle a) = Some x ->
  ensures (progress_active Entries ack_size m i a now) (fun p => p.1 = Ok tt /\ exists g', manager_ok p.2 g' /\ others (fun j => j <> i) m g p.2 g' /\
    mg_cancellations p.2 = mg_cancellations m /\ delivered now i a x p.2 g').
Proof.
  intros Hm Hi Hx. unfold progress_active. pose proof Hx as (Hs & _)%current_slot. pose proof (engine_slot backend options _ _ _ (mo_engine _ _ Hm) Hs) as [_ Hp].
  pose proof (rp_responses _ _ Hp) as Hl. set (l := length (tr_responses (ts_record x))) in *.
  destruct (drain_spec i a (S response_capacity) m g x Hm Hi Hx) as ([r m1] & Ed & Er & g1 & [D1 D2 D3 D4 D5]); [fold l; unfold response_capacity; destruct (tr_complete _); lia|].
  cbn [fst snd] in *. subst r. rewrite Ed. unfold transaction_complete. rewrite D5.
  assert (Hcom : forall k, tr_complete (ts_record (reread k x)) = tr_complete (ts_record x)) by done. rewrite Hcom.
  assert (Hi1 : mg_active m1 !! i = Some (Some a)) by (by rewrite D3). assert (Eg : (g1 (tok_slot (ac_token a)) false).2 = tr_responses (ts_record x)).
  { destruct (mo_active _ _ D1 i a Hi1) as [_ _ (y & Hy & Ey)]. rewrite D5 in Hy. injection Hy as <-. rewrite Ey. apply answers_all. }
  destruct (tr_complete (ts_record x)) eqn:Ecom; cbn [negb].
  - match goal with |- ensures ?M _ => change M with (end_active m1 i a now) end.
    eapply ensures_mono; [apply (end_active_spec m1 g1 i a now _ D1 Hi1 D5); [exact Ecom|done]|]. intros p (Ep & [N1 N2 N3 N4 N5]). split; [done|]. exists g1.
    split_and!; [done|by eapply others_trans|congruence|]. unfold delivered. rewrite Ecom, N3. split; [|auto]. apply list_lookup_insert_eq. by eapply lookup_lt_Some.
  - apply ensures_Ok. split; [done|]. exists g1. cbn [snd]. split_and!; [done|done|done|]. unfold delivered. by rewrite Ecom.
Qed.

Lemma delivered_others (P : nat -> Prop) now i a x m g m' g' : tok_cancellation (ac_token a) = false -> P i -> others P m g m' g' ->
  delivered now i a x m g -> delivered now i a x m' g'.
Proof.
  intros Hc Hi [O1 _ O3 O4]. unfold delivered. rewrite O1 by done. destruct (tr_complete _).
  - intros [Ha Hr]. split; [done|]. intros Hb. destruct (Hr Hb) as [Hr1 Hr2]. destruct (O4 _ (ns (oc_monotonic now) + 1) Hc ltac:(lia) Hr1) as [R1 R2]. split; [done|congruence].
  - intros [Ha Hr]. split; [done|]. by rewrite (proj1 (O3 i a Hi Ha)).
Qed.

Lemma active_loop_spec now : forall n i m g, manager_ok m g -> (i + n = length (mg_active m))%nat ->
  ensures (active_loop Entries ack_size n i m now) (fun p => p.1 = Ok tt /\ exists g', manager_ok p.2 g' /\ others (fun j => (j < i)%nat) m g p.2 g' /\
    mg_cancellations p.2 = mg_cancellations m /\
    forall j a x, (i <= j)%nat -> mg_active m !! j = Some (Some a) -> current_handle (mg_engine m) (ac_handle a) = Some x -> delivered now j a x p.2 g').
Proof.
  induction n as [|n IH]; intros i m g Hm Hn; cbn [active_loop].
  { apply ensures_Ok. split; [done|]. exists g. cbn [snd]. split_and!; [done|apply others_refl|done|]. intros j a x Hj Ha. apply lookup_lt_Some in Ha. lia. }
  destruct (lookup_lt_is_Some_2 (mg_active m) i) as [[a|] Hi]; [lia| |]; rewrite Hi.
  - destruct (mo_active _ _ Hm i a Hi) as [Hc _ (x & Hx & _)]. destruct (progress_active_spec m g i a now x Hm Hi Hx) as ([r m1] & -> & Er & g1 & H1 & O1 & C1 & D1). cbn [fst snd] in *. subst r.
    eapply ensures_mono; [apply (IH (S i) m1 g1 H1); rewrite (ot_length _ _ _ _ _ O1); lia|]. intros p (Ep & g2 & H2 & O2 & C2 & D2). split; [done|]. exists g2. split_and!; [done| |congruence|].
    + eapply others_trans; [eapply others_mono; [exact O1|intros j; cbn; lia]|]. eapply others_mono; [exact O2|]. intros j. cbn. lia.
    + intros j b y Hj Hb Hy. destruct (decide (j = i)) as [->|Hne].
      * rewrite Hi in Hb. injection Hb as <-. rewrite Hx in Hy. injection Hy as <-. eapply (delivered_others _ _ _ _ _ m1 g1); [done| |exact O2|exact D1]. cbn. lia.
      * apply D2; [lia|by rewrite (ot_active _ _ _ _ _ O1)|]. by rewrite (proj1 (ot_running _ _ _ _ _ O1 j b Hne Hb)).
  - eapply ensures_mono; [apply (IH (S i) m g Hm); lia|]. intros p (Ep & g2 & H2 & O2 & C2 & D2). split; [done|]. exists g2. split_and!; [done| |done|].
    + eapply others_mono; [exact O2|]. intros j. cbn. lia.
    + intros j b y Hj Hb Hy. destruct (decide (j = i)) as [->|Hne]; [congruence|]. apply D2; [lia|done|done].
Qed.

(** ** Progress *)

Lemma expire_spec m g now : manager_ok m g -> ensures (expire Entries (store_of m) now) (fun s => manager_ok (put_store s m) g /\
  forall t, tok_cancellation t = false -> ns now < U64_MAX -> retained t (ns now + 1) (store_of m) -> retained t (ns now + 1) s).
Proof.
  intros Hm. destruct (retention_step_ok Entries ByteCapacity ack_size Hentries Hcapacity Hack (store_of m) g (rop_expire now) (mo_store _ _ Hm)) as (s & Es & _ & _).
  exists s. split; [exact Es|]. split; [exact (stored_ok m g (rop_expire now) s Hm I Es)|]. intros t Hc Hb Hr.
  eapply (retained_step Entries ByteCapacity ack_size); [done|done|done|apply (mo_store _ _ Hm)|done| |exact Hr| |exact Es]; [lia|]. intros now' [= <-]. lia.
Qed.

Lemma deliver_spec m g now : manager_ok m g ->
  ensures (match active_loop Entries ack_size (length (mg_active m)) 0 m now with
           | Ok (Ok _, m) => let? s := expire Entries (store_of m) (oc_monotonic now) in Ok (Ok tt, put_store s m)
           | Ok (Err e, m) => Ok (Err e, m)
           | Ok (UB, _) | UB => UB
           | Err e => Err e
           end) (fun p => p.1 = Ok tt /\ exists g', manager_ok p.2 g' /\
    forall j a x, mg_active m !! j = Some (Some a) -> current_handle (mg_engine m) (ac_handle a) = Some x -> delivered now j a x p.2 g').
Proof.
  intros Hm. destruct (active_loop_spec now (length (mg_active m)) 0 m g Hm eq_refl) as ([r m1] & -> & Er & g1 & H1 & _ & _ & D1). cbn [fst snd] in *. subst r.
  eapply ensures_bind; [by apply (expire_spec m1 g1)|]. intros s [H2 Hret]. apply ensures_Ok. split; [done|]. exists g1. cbn [snd]. split; [done|]. intros j a x Hj Hx.
  pose proof (ru_command _ _ _ (mo_active _ _ Hm j a Hj)) as Hc. specialize (D1 j a x ltac:(lia) Hj Hx). unfold delivered in *. destruct (tr_complete _); [|done].
  destruct D1 as [Ha Hr]. split; [done|]. intros Hb. destruct (Hr Hb) as [R1 R2]. split; [|done]. rewrite store_put. apply Hret; [done|lia|done].
Qed.

Lemma progress_body_ok m g now : manager_ok m g -> ensures (progress_body backend options Entries ack_size m now) (fun p => safe p.1 /\ exists g', manager_ok p.2 g').
Proof.
  intros Hm. unfold progress_body. eapply step_ensures; [eapply cancellations_good; [exact Hm|done]|by intros p []| |by intros e y (? & ? & ?)].
  intros u m1 (_ & [g1 H1] & _). cbn [snd] in *. eapply ensures_bind; [apply (progress_spec backend options), (mo_engine _ _ H1)|]. intros [r s] (Ha & Hs & _). cbn [fst snd] in *.
  assert (H2 : manager_ok (set_engine s m1) g1) by (by apply moved_ok; [|apply advances_moves]). destruct r as [[]|e|]; [|apply ensures_Ok; by split; [|eexists]|done].
  eapply ensures_mono; [by eapply deliver_spec|]. intros p (Ep & g2 & H3 & _). split; [by rewrite Ep|by exists g2].
Qed.

Lemma manager_progress_ok m g now : manager_ok m g -> ensures (manager_progress backend options Entries ack_size m now) (fun p => safe p.1 /\ exists g', manager_ok p.2 g').
Proof.
  intros Hm. unfold manager_progress. destruct (mg_progressing m); [apply ensures_Ok; by split; [|eexists]|].
  eapply ensures_bind; [apply (progress_body_ok (set_progressing true m) g); by apply (same_parts_ok m)|]. intros [r m1] [Hs [g1 H1]]. apply ensures_Ok. split; [done|]. exists g1.
  by apply (same_parts_ok m1).
Qed.

Lemma manager_quiesce_ok m g now : manager_ok m g -> ensures (manager_request_quiesce backend options Entries ack_size m now) (fun p => safe p.1 /\ exists g', manager_ok p.2 g').
Proof.
  intros Hm. unfold manager_request_quiesce. destruct (mg_progressing m); [apply ensures_Ok; by split; [|eexists]|]. destruct (_ || _); [apply ensures_Ok; by split; [|eexists]|].
  set (m0 := set_flags _ true _ _). assert (H0 : manager_ok m0 g) by (by apply (same_parts_ok m)).
  eapply ensures_bind; [apply (request_quiesce_spec backend options), (mo_engine _ _ H0)|]. intros [r s] (Hok & Hg & Hgr & Hp & Hs & _). cbn [fst snd] in *.
  assert (H1 : manager_ok (set_engine s m0) g) by (apply moved_ok; [done|by split_and!]). destruct r as [[]|e|]; [by eapply manager_progress_ok|apply ensures_Ok; by split; [|eexists]|done].
Qed.

(** With no cancellation pending, the first loop does nothing. *)
Lemma no_cancellations now : forall n i (m : Manager), (i + n = length (mg_cancellations m))%nat -> Forall (fun c => is_none c = true) (mg_cancellations m) ->
  cancellations_loop backend options Entries ack_size n i m now = Ok (Ok tt, m).
Proof.
  induction n as [|n IH]; intros i m Hn Hc; cbn [cancellations_loop]; [done|]. destruct (lookup_lt_is_Some_2 (mg_cancellations m) i) as [c Hi]; [lia|]. rewrite Hi.
  pose proof (Forall_lookup_1 _ _ _ _ Hc Hi) as Hcn. destruct c; [done|]. apply IH; [lia|done].
Qed.
End manager.
