(* ===== verification/ManagerRuns.v ===== *)
(** * Runs of the transaction manager

    The calls of a manager and of the device it drives, as events; the states they reach; and
    what holds in them: no call is undefined, a command is opened once and bound to its
    record, and progress hands everything the engine said to the store. *)

From S2P Require Import Prelude Wire WireProofs Fields Time Clock Timeline Scheduling Admission Ticket Structured Packet Routing FixedVector State Cam Sdr Observer Cancellation Backend Plan PlanProofs Engine EngineProofs EngineRuns Retention RetentionProofs RetentionFrames Manager ManagerProofs.

(** ** Events *)

Inductive ManagerEvent (B : Type) :=
  | mv_accept (packet : PacketView) (now : OperationContext) (peer : PeerSession)
  | mv_progress (now : OperationContext)
  | mv_quiesce (now : OperationContext)
  | mv_close
  | mv_reopen
  | mv_release (t : RetentionToken)
  | mv_reset (confirmed : StateSnapshot) (generation : Z)
  | mv_device (calls : list Call) (context : B)
  | mv_timeline (timeline : option SampleTimeline).
Arguments mv_accept {B}.
Arguments mv_progress {B}.
Arguments mv_quiesce {B}.
Arguments mv_close {B}.
Arguments mv_reopen {B}.
Arguments mv_release {B}.
Arguments mv_reset {B}.
Arguments mv_device {B}.
Arguments mv_timeline {B}.

Section runs.
Context {B E : Type} (backend : Backend B) (options : EngineOptions E) (plan_size : Z).
Context (Entries : nat) (ByteCapacity : Z) (ack_size : nat) (monotonic_ids : bool).
#[local] Abbreviation Manager := (Manager B E).
#[local] Abbreviation Engine := (Engine B E).

Definition manager_do (m : Manager) (e : ManagerEvent B) : Result Manager :=
  match e with
  | mv_accept packet now peer => settled (manager_accept backend options plan_size Entries ByteCapacity ack_size monotonic_ids m packet now peer)
  | mv_progress now => settled (manager_progress backend options Entries ack_size m now)
  | mv_quiesce now => settled (manager_request_quiesce backend options Entries ack_size m now)
  | mv_close => Ok (close_admission m)
  | mv_reopen => settled (Ok (reset_after_drain backend m))
  | mv_release t => settled (manager_release Entries m t)
  | mv_reset confirmed generation => settled (Ok (let '(r, s) := reset_state backend options (mg_engine m) confirmed generation in (r, set_engine s m)))
  | mv_device calls context => let? s := backend_calls (mg_engine m) calls context in Ok (set_engine s m)
  | mv_timeline timeline => Ok (set_engine (en_set_timeline timeline (mg_engine m)) m)
  end.

Context `{!BackendLaws backend}.
Hypothesis sink_ok : sink_safe options.
Hypothesis Hentries : Z.of_nat Entries <= 2147483647.
Hypothesis Hcapacity : 0 < ByteCapacity <= SIZE_MAX.
Hypothesis Hack : (0 < ack_size)%nat.
#[local] Abbreviation tickets s := (ticket_count (en_shared s)).
#[local] Abbreviation ok := (manager_ok backend options Entries ByteCapacity ack_size).

(** The packet came from the decoder; the device uses capabilities of this engine. *)
Definition manager_event_ok (m : Manager) (e : ManagerEvent B) : Prop :=
  match e with
  | mv_accept packet _ _ => decoded packet
  | mv_reset confirmed _ => state_shaped confirmed
  | mv_device calls context => Forall (call_ok (tickets (mg_engine m))) calls /\ context_ok (tickets (mg_engine m)) context
  | _ => True
  end.

(** The states a new manager reaches. *)
Inductive manager_reachable : Manager -> Prop :=
  | mr_new s cancels : started backend s ->
      manager_reachable (manager_new s (store_new Entries ByteCapacity (en_admission s)) (length (en_slots s)) cancels)
  | mr_step m e m' : manager_reachable m -> manager_event_ok m e -> manager_do m e = Ok m' -> manager_reachable m'.

Lemma manager_new_ok s cancels : started backend s -> ok (manager_new s (store_new Entries ByteCapacity (en_admission s)) (length (en_slots s)) cancels) no_contents.
Proof.
  intros Hs. assert (Hidle : en_progressing s = false) by (by destruct Hs as (n & pool & context & sink & timeline & initial & _ & _ & _ & ->)).
  assert (Hnone : forall (A : Type) n j (a : A), replicate n (@None A) !! j = Some (Some a) -> False) by (by intros A n j a [? _]%lookup_replicate).
  split; cbn [manager_new mg_engine mg_active mg_cancellations].
  - by apply (started_ok backend options).
  - done.
  - apply (store_new_wf Entries ByteCapacity ack_size Hcapacity Hack).
  - by intros slot c h.
  - by intros i a ?%Hnone.
  - by intros i j a b ?%Hnone.
  - by intros i p ?%Hnone.
Qed.

Lemma manager_do_ok m g e : ok m g -> manager_event_ok m e -> ensures (manager_do m e) (fun m' => exists g', ok m' g').
Proof.
  intros Hm He. assert (Hsame : forall m' : Manager, mg_engine m' = mg_engine m -> mg_retention m' = mg_retention m -> mg_active m' = mg_active m -> mg_cancellations m' = mg_cancellations m -> exists g', ok m' g').
  { intros m' E1 E2 E3 E4. exists g. by apply (same_parts_ok backend options Entries ByteCapacity ack_size m). }
  destruct e as [packet now peer|now|now| | |t|confirmed generation|calls context|timeline]; cbn [manager_do manager_event_ok] in *.
  - apply settled_ensures. eapply ensures_mono; [by eapply manager_accept_spec|]. intros p (Hs & Hg & _). by split.
  - apply settled_ensures. eapply ensures_mono; [by eapply manager_progress_ok|]. intros p [Hs Hg]. by split.
  - apply settled_ensures. eapply ensures_mono; [by eapply manager_quiesce_ok|]. intros p [Hs Hg]. by split.
  - apply ensures_Ok. by apply Hsame.
  - apply settled_ensures, ensures_Ok. unfold reset_after_drain. destruct (_ || _); cbn [fst snd]; (split; [|done]); by apply Hsame.
  - apply settled_ensures. unfold manager_release. eapply ensures_mono; [by eapply on_store_fine with (op := rop_release t)|]. intros p (Hs & Hg & _). by split.
  - apply settled_ensures, ensures_Ok. pose proof (reset_state_spec backend options (mg_engine m) confirmed generation (mo_engine _ _ _ _ _ _ _ Hm) He) as Hr.
    assert (Hslots : en_slots (reset_state backend options (mg_engine m) confirmed generation).2 = en_slots (mg_engine m) /\ en_progressing (reset_state backend options (mg_engine m) confirmed generation).2 = en_progressing (mg_engine m)) by (unfold reset_state; by destruct (check_reset _ _ _ _ _)).
    destruct (reset_state _ _ _ _ _) as [r s]. destruct Hr as (Hok & Hs & _), Hslots as [E1 E2]. split; [|done]. exists g. apply moved_ok; [done|]. by apply moves_slots.
  - destruct He as [Hcalls Hctx]. eapply ensures_bind; [by apply (backend_calls_around (E := E) backend)|]. intros s Ha. apply ensures_Ok. exists g. apply moved_ok; [done|].
    apply advances_moves. by apply around_ok; [apply Hm|].
  - apply ensures_Ok. exists g. apply moved_ok; [done|]. apply moves_slots; [|done|done]. by apply timeline_ok, Hm.
Qed.

Lemma reachable_manager m : manager_reachable m -> exists g, ok m g.
Proof.
  induction 1 as [s cancels Hs|m e m' _ [g Hm] He Hd]; [by eexists; apply manager_new_ok|].
  destruct (manager_do_ok m g e Hm He) as (m1 & E1 & Hok). rewrite Hd in E1. by injection E1 as <-.
Qed.

(** ** Properties *)

(** C26. No call of the manager, no use of its capabilities by the device and no reset of the
    engine is undefined in a state that a new manager can reach: whatever was accepted,
    cancelled, released and timed out before, there is a next state. *)
Theorem manager_never_undefined m e : manager_reachable m -> manager_event_ok m e -> exists m', manager_do m e = Ok m' /\ manager_reachable m'.
Proof.
  intros Hm He. destruct (reachable_manager m Hm) as [g Hg]. destruct (manager_do_ok m g e Hg He) as (m' & Hd & _). exists m'. split; [done|by eapply mr_step].
Qed.

(** C27. A command that is not a duplicate opens exactly one transaction, whose handle named none
    before; its record holds the canonical form of the packet, no answer yet, and the handle
    of the transaction.  A duplicate, a cancellation and a refusal open and end nothing. *)
Theorem manager_accept_opens m packet now peer r m' : manager_reachable m -> decoded packet ->
  manager_accept backend options plan_size Entries ByteCapacity ack_size monotonic_ids m packet now peer = Ok (r, m') ->
  match r with
  | Ok a => if bool_decide (adm_kind a = DuplicateKind.fresh) && negb (cancel (ev_envelope (pv_envelope packet)))
            then opened_for options ack_size packet (adm_token a) m m' else unopened m m'
  | Err _ => unopened m m'
  | UB => False
  end.
Proof.
  intros Hm Hd Ha. destruct (reachable_manager m Hm) as [g Hg].
  destruct (manager_accept_spec backend options plan_size Entries ByteCapacity ack_size monotonic_ids sink_ok Hentries Hcapacity Hack m g packet now peer Hg Hd) as (p & Ep & Hs & _ & Hres).
  rewrite Ha in Ep. injection Ep as <-. by destruct r.
Qed.

(** What a client reads of a record. *)
Definition repeats (m : Manager) (t : RetentionToken) (x : TxSlot) : Prop :=
  (forall k : nat, manager_response ack_size m t (Z.of_nat k) = Ok (tr_responses (ts_record x) !! k)) /\ manager_complete m t = Ok (tr_complete (ts_record x)).

Lemma delivered_repeats now i a x m g : ok m g -> tok_cancellation (ac_token a) = false -> 0 <= ns (oc_monotonic now) < U64_MAX -> delivered now i a x m g ->
  repeats m (ac_token a) x /\ mg_active m !! i = Some (if tr_complete (ts_record x) then None else Some a).
Proof.
  intros Hm Hc Hb. unfold delivered, repeats, manager_complete, terminal, with_token. destruct (tr_complete (ts_record x)).
  - intros [Ha Hr]. destruct (Hr Hb) as [(e & He & Ht & _) Eg]. destruct (live_contents Entries ByteCapacity ack_size Hentries Hcapacity Hack _ g _ e (mo_store _ _ _ _ _ _ _ Hm) He) as [_ Hresp].
    rewrite Hc, Eg in Hresp. split; [split; [done|]|done]. rewrite He, Hc. cbn. by rewrite Ht.
  - intros [Ha Hx]. destruct (mo_active _ _ _ _ _ _ _ Hm i a Ha) as [_ [e [He _ Ho _ _ _]] (y & Hy & Ey)]. rewrite Hx in Hy. injection Hy as <-. rewrite answers_all in Ey.
    destruct (live_contents Entries ByteCapacity ack_size Hentries Hcapacity Hack _ g _ e (mo_store _ _ _ _ _ _ _ Hm) He) as [_ Hresp]. rewrite Hc, Ey in Hresp. split; [split; [done|]|done].
    rewrite He. cbn. by rewrite Ho.
Qed.

(** C5. When no cancellation is pending and the engine makes progress, so does the manager, and
    it hands over everything: for each of its transactions the store then repeats exactly
    the answers the engine has queued, in order, and reports it terminal exactly when the
    transaction is complete; complete transactions have left the table of active ones. *)
Theorem progress_delivers m now s : manager_reachable m -> mg_progressing m = false -> Forall (fun c => is_none c = true) (mg_cancellations m) ->
  0 <= ns (oc_monotonic now) < U64_MAX -> Engine.progress backend options (mg_engine m) now = Ok (Ok tt, s) ->
  exists m', manager_progress backend options Entries ack_size m now = Ok (Ok tt, m') /\
    forall i a, mg_active m !! i = Some (Some a) -> exists x, current_handle s (ac_handle a) = Some x /\
      repeats m' (ac_token a) x /\ mg_active m' !! i = Some (if tr_complete (ts_record x) then None else Some a).
Proof.
  intros Hm Hp Hn Hb Hs. destruct (reachable_manager m Hm) as [g Hg]. set (m0 := set_progressing true m). assert (H0 : ok m0 g) by (by apply (same_parts_ok _ _ _ _ _ m)).
  destruct (progress_spec backend options (mg_engine m) now (mo_engine _ _ _ _ _ _ _ Hg)) as (p & Ep & Hadv & _). rewrite Hs in Ep. injection Ep as <-. cbn [snd] in Hadv.
  assert (H1 : ok (set_engine s m0) g) by (by apply moved_ok; [|apply advances_moves]).
  destruct (deliver_spec backend options Entries ByteCapacity ack_size Hentries Hcapacity Hack (set_engine s m0) g now H1) as ([r m2] & Ed & Er & g2 & H2 & D2). cbn [fst snd] in *. subst r.
  exists (set_progressing false m2). split.
  - unfold manager_progress, progress_body. rewrite Hp. fold m0. rewrite no_cancellations by done. change (mg_engine m0) with (mg_engine m). rewrite Hs. cbn [rbind].
    match goal with |- (let? _ := ?M in _) = _ => replace M with (Ok (Ok tt, m2) : Result (Result unit * Manager)) by (symmetry; exact Ed) end. done.
  - intros i a Ha. destruct (mo_active _ _ _ _ _ _ _ H1 i a Ha) as [Hc _ (x & Hx & _)]. exists x. split; [exact Hx|].
    exact (delivered_repeats now i a x m2 g2 H2 Hc Hb (D2 i a x Ha Hx)).
Qed.
End runs.

(** ** A run on the virtual backend *)

(** A command on the wire: execute, with all acknowledgements, on the reference point. *)
Definition demo_wire : list byte :=
  [x60; x00; x00; x08; x00; x00; x00; x07; xa1; x1c; x00; x00; x00; x00; x00; x01; x00; x00; x00; x02; x00; x00; x00; x01;
   x40; x00; x00; x00; x00; x00; x00; x05].
Definition demo_view : PacketView := match decode_packet demo_wire options_default with Ok v => v | _ => demo_packet 2 end.
Definition demo_new : Manager VirtualBackend unit :=
  manager_new demo_start (store_new 2 256 (en_admission demo_start)) (length (en_slots demo_start)) 1.
#[local] Abbreviation demo_accept m := (manager_accept virtual_binding demo_options 64 2 256 8 false m demo_view demo_now (mkPeer 1 1)).
Definition demo_opened : Manager VirtualBackend unit := match demo_accept demo_new with Ok (_, m) => m | _ => demo_new end.
#[local] Abbreviation demo_reached_manager := (manager_reachable virtual_binding demo_options 64 2 256 8 false).

Lemma demo_view_decoded : decoded demo_view.
Proof. exists demo_wire, options_default. by vm_compute. Qed.
Lemma demo_new_reachable : demo_reached_manager demo_new.
Proof. apply (mr_new (E := unit) virtual_binding demo_options 64 2 256 8 false demo_start 1), demo_started. Qed.
Lemma demo_opened_reachable : demo_reached_manager demo_opened.
Proof. eapply (mr_step _ _ _ _ _ _ _ demo_new (mv_accept demo_view demo_now (mkPeer 1 1))); [apply demo_new_reachable|apply demo_view_decoded|by vm_compute]. Qed.

Lemma manager_never_undefined_witness : exists m', manager_do virtual_binding demo_options 64 2 256 8 false demo_opened (mv_quiesce demo_now) = Ok m' /\ demo_reached_manager m'.
Proof.
  apply (manager_never_undefined virtual_binding demo_options 64 2 256 8 false demo_sink ltac:(lia) ltac:(vm_compute; split; [reflexivity|discriminate]) ltac:(lia) demo_opened (mv_quiesce demo_now));
    [apply demo_opened_reachable|exact I].
Defined.

Lemma manager_accept_opens_witness : opened_for demo_options 8 demo_view (mkToken 0 1 false) demo_new demo_opened.
Proof.
  assert (Ha : demo_accept demo_new = Ok (Ok (mkAdmitted (mkToken 0 1 false) DuplicateKind.fresh), demo_opened)) by (vm_compute; reflexivity).
  exact (manager_accept_opens virtual_binding demo_options 64 2 256 8 false demo_sink ltac:(lia) ltac:(vm_compute; split; [reflexivity|discriminate]) ltac:(lia) demo_new demo_view demo_now (mkPeer 1 1) _ _
           demo_new_reachable demo_view_decoded Ha).
Defined.

Definition demo_engine : Engine VirtualBackend unit := match Engine.progress virtual_binding demo_options (mg_engine demo_opened) demo_now with Ok (_, s) => s | _ => demo_start end.

Lemma progress_delivers_witness : exists m', manager_progress virtual_binding demo_options 2 8 demo_opened demo_now = Ok (Ok tt, m') /\
  exists x, current_handle demo_engine (mkHandle 0 1) = Some x /\ repeats 8 m' (mkToken 0 1 false) x.
Proof.
  assert (Hs : Engine.progress virtual_binding demo_options (mg_engine demo_opened) demo_now = Ok (Ok tt, demo_engine)) by (vm_compute; reflexivity).
  destruct (progress_delivers virtual_binding demo_options 64 2 256 8 false demo_sink ltac:(lia) ltac:(vm_compute; split; [reflexivity|discriminate]) ltac:(lia) demo_opened demo_now demo_engine
              demo_opened_reachable ltac:(vm_compute; reflexivity) ltac:(vm_compute; repeat constructor) ltac:(vm_compute; split; [discriminate|reflexivity]) Hs) as (m' & Hm' & Hall).
  exists m'. split; [exact Hm'|]. destruct (Hall 0%nat (mkActive (mkToken 0 1 false) (mkHandle 0 1)) ltac:(vm_compute; reflexivity)) as (x & Hx & Hr & _). exists x. split; [exact Hx|exact Hr].
Defined.
