(* ===== verification/History.v ===== *)
(** * Received context: [ReceiverHistory] of [include/vita/runtime/context/receiver.hpp]

    A receiver keeps the states that context packets reported, ordered by the time they
    take effect, and resolves the state that applied to a sample.  The first [count_]
    elements of the array of entries are a list: shifting elements to make room is
    inserting into it.

    [history_ok] is the invariant (strictly increasing times, bounded, valid states);
    [resolve_latest_report] gives the resolved state field by field, [resolve_confidence]
    says exactly when it is trusted. *)

From stdpp Require Import relations sorting.
From S2P Require Import Prelude Wire Fields Time Scheduling State Structured Packet.

(** ** Fields of a snapshot *)

(** [fields[i]] for an index inside the array of eight. *)
Definition field_absent : FieldState := mkFieldState Field.ReferencePoint (v_uint32 0) Validity.absent.
Definition field_at (s : StateSnapshot) (i : nat) : FieldState := nth i (st_fields s) field_absent.
Definition set_field (s : StateSnapshot) (i : nat) (f : FieldState) : StateSnapshot :=
  mkState (st_version s) (<[i:=f]> (st_fields s)) (st_profile s).

#[global] Instance FieldState_eq_dec : EqDecision FieldState.
Proof. solve_decision. Defined.

(** The comparison of [same_state] and [same_snapshot], two copies of one function. *)
Definition same_field (a b : FieldState) : bool :=
  fid_eqb (fs_id a) (fs_id b) && (fs_validity a =? fs_validity b) &&
  (negb (is_known a) || bool_decide (fs_value a = fs_value b)).
Definition same_snapshot (a b : StateSnapshot) : bool :=
  (st_profile a =? st_profile b) &&
  forallb (fun i => same_field (field_at a i) (field_at b i)) (seq 0 (active_state_fields (st_profile a))).

Definition required_known (s : StateSnapshot) : bool :=
  is_known (field_at s 1) && is_known (field_at s 3) &&
  ((st_profile s =? Profile.generator_v1) || is_known (field_at s 4)) &&
  (negb (st_profile s =? Profile.sdr_radio) || (is_known (field_at s 5) && is_known (field_at s 6))).

(** [1u<<30], [1u<<18], [1u<<24], [1u<<12] *)
Definition valid_data_enable : Z := 0x40000000.
Definition valid_data_indicator : Z := 0x40000.
Definition sample_loss_enable : Z := 0x1000000.
Definition sample_loss_indicator : Z := 0x1000.
Definition sample_loss_bits : Z := Z.lor sample_loss_enable sample_loss_indicator.
(** [value & ~mask] *)
Definition clear_bits (value mask : Z) : Z := Z.land value (Z.lxor U32_MAX mask).

(** ** The history *)

Module Confidence.
Inductive t := known | missing | stale | ambiguous | incomplete_delta.
#[global] Instance t_eq_dec : EqDecision t.
Proof. solve_decision. Defined.
End Confidence.

Record MetadataSnapshot := mkMetadata {
  md_state : StateSnapshot; md_effective : ProtocolTime; md_confidence : Confidence.t;
  md_events : Z; md_valid_data : bool }.
Definition metadata_default : MetadataSnapshot :=
  mkMetadata state_default (mkTime 0 0) Confidence.missing 0 false.

Record Entry := mkEntry {
  he_state : StateSnapshot; he_effective : ProtocolTime; he_arrival : MonoTime;
  he_events : Z; he_full : bool; he_conflict : bool }.

Record ReceiverHistory := mkHistory {
  rh_capacity : nat; rh_entries : list Entry; rh_profile : Z;
  rh_generation : Z; rh_epoch : Z; rh_reference : option Z }.

Definition history_new (capacity : nat) (generation epoch : Z) (reference : option Z) (profile : Z) : ReceiverHistory :=
  mkHistory capacity [] profile generation epoch reference.
Definition history_size (h : ReceiverHistory) : nat := length (rh_entries h).
Definition set_entries (h : ReceiverHistory) (es : list Entry) : ReceiverHistory :=
  mkHistory (rh_capacity h) es (rh_profile h) (rh_generation h) (rh_epoch h) (rh_reference h).

(** The loop that repeats the checks of the active fields, shared with [RevisionStore::initial]. *)
Definition check_active_field (s : StateSnapshot) (i : nat) : Result unit :=
  let? field := deref (st_fields s !! i) in
  let? expected := deref (state_fields !! i) in
  fail_if negb (fid_eqb (fs_id field) expected) with error1 ErrorCode.invalid_argument ;;
  if is_known field then validate_value (fs_id field) (fs_value field) true else Ok tt.
Fixpoint check_active_fields (s : StateSnapshot) (i n : nat) : Result unit :=
  match n with
  | O => Ok tt
  | S n => let? _ := check_active_field s i in check_active_fields s (S i) n
  end.

(** The sample-loss indicators are an event of one time, not a part of the state. *)
Definition split_events (s : StateSnapshot) (events : Z) : Result (StateSnapshot * Z) :=
  let? f := deref (st_fields s !! 2%nat) in
  if is_known f then
    match if_uint32 (fs_value f) with
    | None => Err (error1 ErrorCode.invalid_argument)
    | Some indicators =>
        Ok (set_field s 2 (mkFieldState (fs_id f) (v_uint32 (clear_bits indicators sample_loss_bits)) (fs_validity f)),
            Z.lor events (Z.land indicators sample_loss_bits))
    end
  else Ok (s, events).

(** [while(index<count_&&entries_[index].effective<effective)++index] *)
Fixpoint insert_index (es : list Entry) (t : ProtocolTime) : nat :=
  match es with
  | e :: es => if time_ltb (he_effective e) t then S (insert_index es t) else 0%nat
  | [] => 0%nat
  end.

Definition mark_conflict (e : Entry) (state : StateSnapshot) (full : bool) (events : Z) : Entry :=
  if negb (eqb (he_full e) full) || negb (same_snapshot (he_state e) state) || negb (he_events e =? events)
  then mkEntry (he_state e) (he_effective e) (he_arrival e) (he_events e) (he_full e) true else e.

(** The entry at the insertion point, if it has the same time. *)
Definition entry_at (es : list Entry) (t : ProtocolTime) : option Entry :=
  match es !! insert_index es t with
  | Some e => if bool_decide (he_effective e = t) then Some e else None
  | None => None
  end.

(** The part of [insert] after the checks: a full history gives up its oldest entry. *)
Definition place_entry (h : ReceiverHistory) (n : Entry) : Result unit * ReceiverHistory :=
  let es := rh_entries h in
  let index := insert_index es (he_effective n) in
  match entry_at es (he_effective n) with
  | Some e => (Ok tt, set_entries h (<[index := mark_conflict e (he_state n) (he_full n) (he_events n)]> es))
  | None =>
      if (length es =? rh_capacity h)%nat then
        if (index =? 0)%nat then (Err (error1 ErrorCode.capacity_exhausted), h) else
        let es := drop 1 es in
        (Ok tt, set_entries h (take (index - 1) es ++ n :: drop (index - 1) es))
      else (Ok tt, set_entries h (take index es ++ n :: drop index es))
  end.

Definition admit_state (h : ReceiverHistory) (state : StateSnapshot) (effective : ProtocolTime) (events : Z) : Result (StateSnapshot * Z) :=
  let? _ := validate_snapshot state in
  fail_if negb (st_profile state =? rh_profile h) with error1 ErrorCode.identity_conflict ;;
  fail_if negb (valid effective) with error1 ErrorCode.invalid_argument ;;
  let? _ := check_active_fields state 0 (active_state_fields (st_profile state)) in
  split_events state events.

Definition history_insert (h : ReceiverHistory) (state : StateSnapshot) (effective : ProtocolTime) (arrival : MonoTime)
    (full : bool) (events : Z) : Result unit * ReceiverHistory :=
  match admit_state h state effective events with
  | Ok (state, events) => place_entry h (mkEntry state effective arrival events full false)
  | Err e => (Err e, h)
  | UB => (UB, h)
  end.

(** The loop of [receive] over the fields of the packet. *)
Fixpoint collect_fields (profile : Z) (views : list FieldView) (s : StateSnapshot) : Result StateSnapshot :=
  match views with
  | [] => Ok s
  | field :: views =>
      let index := field_index (fv_id field) in
      fail_if negb (profile_field profile (fv_id field)) || (index =? state_field_capacity)%nat ||
          negb (bool_decide (fv_kind field = BodyKind.values)) || negb (fv_attribute field =? Attribute.current)
        with error1 ErrorCode.unsupported_capability ;;
      let? value := view_value field in
      collect_fields profile views (set_field s index (mkFieldState (fv_id field) value Validity.known))
  end.

(** What an SDR packet leaves implicit. *)
Definition complete_sdr (h : ReceiverHistory) (packet : PacketView) (s : StateSnapshot) : Result StateSnapshot :=
  let envelope := ev_envelope (pv_envelope packet) in
  let invalid := error1 ErrorCode.invalid_argument in
  fail_if is_some (class_id envelope) || negb (tsi (timestamp envelope) =? Tsi.utc) || negb (length (pv_fields packet) =? 4)%nat
    with invalid ;;
  fail_if negb (forallb (fun i => is_known (field_at s i)) [1; 4; 5; 6]%nat) with invalid ;;
  let? sid := deref (stream_id envelope) in
  let sid := default sid (rh_reference h) in
  Ok (set_field
       (set_field
         (set_field s 0 (mkFieldState Field.ReferencePoint (v_uint32 sid) Validity.known))
         2 (mkFieldState Field.StateEvent (v_uint32 (Z.lor valid_data_enable valid_data_indicator)) Validity.known))
       3 (mkFieldState Field.DataPayloadFormat (v_payload_format sdr_payload_format) Validity.known)).

Definition set_profile (s : StateSnapshot) (p : Z) : StateSnapshot := mkState (st_version s) (st_fields s) p.

Definition packet_state (h : ReceiverHistory) (packet : PacketView) (generation : Z) : Result StateSnapshot :=
  let envelope := ev_envelope (pv_envelope packet) in
  fail_if negb (generation =? rh_generation h) with error1 ErrorCode.stale_generation ;;
  fail_if negb (env_type envelope =? PacketType.context) || pv_opaque packet || tsm envelope ||
      (tsi (timestamp envelope) =? Tsi.none) || negb (tsf (timestamp envelope) =? Tsf.picoseconds) ||
      (negb (rh_epoch h =? Tsi.none) && negb (tsi (timestamp envelope) =? rh_epoch h))
    with error1 ErrorCode.unsupported_capability ;;
  let? s := collect_fields (rh_profile h) (pv_fields packet) (set_profile state_default (rh_profile h)) in
  let? s := (if rh_profile h =? Profile.sdr_radio then complete_sdr h packet s else Ok s) in
  match rh_reference h with
  | None => Ok s
  | Some reference =>
      fail_if negb (is_known (field_at s 0)) || absent_or (fun r => negb (r =? reference)) (if_uint32 (fs_value (field_at s 0)))
        with error1 ErrorCode.identity_conflict ;;
      Ok s
  end.

Definition history_receive (h : ReceiverHistory) (packet : PacketView) (generation : Z) (arrival : MonoTime) (full : bool)
    : Result unit * ReceiverHistory :=
  match packet_state h packet generation with
  | Ok s =>
      let ts := timestamp (ev_envelope (pv_envelope packet)) in
      history_insert h s (mkTime (ts_integer ts) (ts_fractional ts)) arrival full 0
  | Err e => (Err e, h)
  | UB => (UB, h)
  end.

(** The state of the loop of [resolve]: the state so far, the last entry, and the flags. *)
Record Resolution := mkResolution {
  rs_state : StateSnapshot; rs_last : option Entry; rs_anchored : bool; rs_ambiguous : bool; rs_delta : bool }.

(** A delta replaces the fields it has. *)
Definition overlay_field (base f : FieldState) : FieldState :=
  if fs_validity f =? Validity.absent then base else f.
Definition overlay (base delta : StateSnapshot) : StateSnapshot :=
  mkState (st_version base) (zip_with overlay_field (st_fields base) (st_fields delta)) (st_profile base).

Definition resolve_step (r : Resolution) (e : Entry) : Resolution :=
  if he_full e then mkResolution (he_state e) (Some e) true (he_conflict e) false
  else mkResolution (overlay (rs_state r) (he_state e)) (Some e) (rs_anchored r) (rs_ambiguous r || he_conflict e) true.

Fixpoint resolve_loop (es : list Entry) (sample : ProtocolTime) (r : Resolution) : Resolution :=
  match es with
  | e :: es => if time_ltb sample (he_effective e) then r else resolve_loop es sample (resolve_step r e)
  | [] => r
  end.

Definition stale_after : Z := 2000000000.

Definition valid_data_of (s : StateSnapshot) : bool :=
  is_known (field_at s 2) &&
  match if_uint32 (fs_value (field_at s 2)) with
  | Some v => nonzero (Z.land v valid_data_enable) && nonzero (Z.land v valid_data_indicator)
  | None => false
  end.

(** [end&&sample>=*end] for [end=add(last->effective,{2,0})] *)
Definition outlived (last sample : ProtocolTime) : bool :=
  match add last (mkDuration 2 0) with Ok e => time_geb sample e | _ => false end.

Definition history_resolve (h : ReceiverHistory) (sample : ProtocolTime) (now : MonoTime) : MetadataSnapshot :=
  let r := resolve_loop (rh_entries h) sample (mkResolution state_default None false false false) in
  match rs_last r with
  | None => mkMetadata (rs_state r) (mkTime 0 0) Confidence.missing 0 false
  | Some last =>
      let events := if bool_decide (sample = he_effective last) then he_events last else 0 in
      let result := mkMetadata (rs_state r) (he_effective last) in
      if rs_ambiguous r then result Confidence.ambiguous events false else
      if (ns now <? ns (he_arrival last)) || (stale_after <=? wrap64 (ns now - ns (he_arrival last)))
      then result Confidence.stale events false else
      if outlived (he_effective last) sample then result Confidence.stale events false else
      if negb (rs_anchored r) || negb (required_known (rs_state r)) then result Confidence.missing events false else
      result (if rs_delta r then Confidence.incomplete_delta else Confidence.known) events (valid_data_of (rs_state r))
  end.

Definition fresh (now : MonoTime) (e : Entry) : bool :=
  (ns now <? ns (he_arrival e)) || (wrap64 (ns now - ns (he_arrival e)) <? stale_after).
Definition history_expire (h : ReceiverHistory) (now : MonoTime) : ReceiverHistory :=
  set_entries h (List.filter (fresh now) (rh_entries h)).

Definition history_detach (h : ReceiverHistory) (generation epoch : Z) (reference : option Z) : Result unit * ReceiverHistory :=
  if generation <=? rh_generation h then (Err (error1 ErrorCode.stale_generation), h) else
  (Ok tt, mkHistory (rh_capacity h) [] (rh_profile h) generation epoch reference).

(** ** Order of the entries *)

Definition before (a b : Entry) : Prop := time_ltb (he_effective a) (he_effective b) = true.
Definition not_after (a b : Entry) : Prop := time_ltb (he_effective b) (he_effective a) = false.
#[global] Instance not_after_dec : RelDecision not_after.
Proof. intros a b. unfold not_after. apply _. Defined.

(** The members compared in order are a strict total order. *)
Lemma time_ltb_lt a b :
  time_ltb a b = true <-> seconds a < seconds b \/ (seconds a = seconds b /\ picoseconds a < picoseconds b).
Proof. unfold time_ltb. rewrite orb_true_iff, andb_true_iff, !Z.ltb_lt, Z.eqb_eq. done. Qed.
Lemma time_ltb_ge a b :
  time_ltb a b = false <-> seconds b < seconds a \/ (seconds a = seconds b /\ picoseconds b <= picoseconds a).
Proof. rewrite <- not_true_iff_false, time_ltb_lt. lia. Qed.

Lemma time_eq a b : a = b <-> seconds a = seconds b /\ picoseconds a = picoseconds b.
Proof. destruct a, b; cbn. split; [by intros [= -> ->]|by intros [-> ->]]. Qed.

(** [torder]: goals about the order of times. *)
Ltac torder :=
  unfold before, not_after, time_geb in *;
  repeat match goal with
  | H : time_ltb _ _ = true |- _ => apply time_ltb_lt in H
  | H : time_ltb _ _ = false |- _ => apply time_ltb_ge in H
  | H : negb _ = true |- _ => apply negb_true_iff in H
  | H : negb _ = false |- _ => apply negb_false_iff in H
  | H : _ = _ :> ProtocolTime |- _ => apply time_eq in H
  | H : _ <> _ :> ProtocolTime |- _ => rewrite time_eq in H
  | |- negb _ = true => apply negb_true_iff
  | |- negb _ = false => apply negb_false_iff
  | |- time_ltb _ _ = true => apply time_ltb_lt
  | |- time_ltb _ _ = false => apply time_ltb_ge
  | |- _ = _ :> ProtocolTime => apply time_eq
  | |- _ <> _ :> ProtocolTime => rewrite time_eq
  end; lia.

#[global] Instance before_trans : Transitive before.
Proof. intros a b c ??. torder. Qed.
#[global] Instance not_after_trans : Transitive not_after.
Proof. intros a b c ??. torder. Qed.
#[global] Instance not_after_total : Total not_after.
Proof. intros a b. unfold not_after. destruct (time_ltb _ _) eqn:E; [right|by left]. torder. Qed.
Lemma before_not_after a b : before a b -> not_after a b.
Proof. intros. torder. Qed.

Abbreviation increasing := (StronglySorted before).

Lemma increasing_app l1 l2 :
  increasing (l1 ++ l2) <-> increasing l1 /\ increasing l2 /\ (forall a b, a ∈ l1 -> b ∈ l2 -> before a b).
Proof. rewrite StronglySorted_app. tauto. Qed.

Lemma increasing_cons a l : increasing (a :: l) <-> increasing l /\ forall b, b ∈ l -> before a b.
Proof. rewrite StronglySorted_cons, list.Forall_forall. tauto. Qed.

Lemma increasing_nodup l : increasing l -> NoDup (he_effective <$> l).
Proof.
  induction l as [|a l IH]; [intros; apply base.NoDup_nil_2|]. rewrite increasing_cons. intros [Hs Ha].
  rewrite fmap_cons. apply list.NoDup_cons. split; [|by apply IH]. intros (b & E & Hb)%list_elem_of_fmap.
  specialize (Ha b Hb). torder.
Qed.

(** Increasing lists are determined by their elements. *)
Lemma increasing_sort l l' : increasing l -> l ≡ₚ l' -> l = merge_sort not_after l'.
Proof.
  intros Hl Hp. assert (Hnd := increasing_nodup _ Hl). apply (StronglySorted_unique_strong not_after).
  - intros a b Ha Hb Hab Hba. rewrite merge_sort_Permutation, <- Hp in Hb.
    apply list_elem_of_lookup in Ha as [i Hi], Hb as [j Hj].
    assert (he_effective a = he_effective b) by torder.
    assert (i = j); [|by simplify_eq]. eapply (NoDup_lookup _ _ _ (he_effective a) Hnd); rewrite list_lookup_fmap, ?Hi, ?Hj; cbn; congruence.
  - clear -Hl. induction Hl as [|a l _ IH Ha]; constructor; [done|]. eapply list.Forall_impl; [done|apply before_not_after].
  - apply StronglySorted_merge_sort; apply _.
  - by rewrite merge_sort_Permutation.
Qed.

(** ** Insertion *)

(** The insertion point separates the entries before a time from the others. *)
Lemma insert_index_split es t :
  increasing es ->
  (forall e, e ∈ take (insert_index es t) es -> time_ltb (he_effective e) t = true) /\
  (forall e, e ∈ drop (insert_index es t) es -> time_ltb (he_effective e) t = false) /\
  (insert_index es t <= length es)%nat.
Proof.
  induction es as [|a es IH]; intros Hs; cbn [insert_index].
  - split_and!; [..|done]; intros e He; by apply elem_of_nil in He.
  - apply increasing_cons in Hs as [Hs Ha]. destruct (time_ltb (he_effective a) t) eqn:E; cbn [take drop length].
    + destruct (IH Hs) as (H1 & H2 & H3). split_and!; [|done|lia].
      intros e [->|He]%elem_of_cons; [done|by apply H1].
    + split_and!; [intros e He; by apply elem_of_nil in He| |lia].
      intros e [->|He]%elem_of_cons; [done|]. specialize (Ha e He). torder.
Qed.

Lemma entry_at_Some es t e : entry_at es t = Some e -> es !! insert_index es t = Some e /\ he_effective e = t.
Proof. unfold entry_at. destruct (es !! _) as [x|]; [|done]. case_bool_decide; [|done]. by intros [= <-]. Qed.

(** Without an entry of the same time every entry is before or after it. *)
Lemma entry_at_None es t :
  increasing es -> entry_at es t = None <-> t ∉ he_effective <$> es.
Proof.
  intros Hs. destruct (insert_index_split es t Hs) as (H1 & H2 & H3). unfold entry_at.
  assert (Hin : forall e, e ∈ es -> he_effective e = t -> es !! insert_index es t = Some e).
  { intros e He <-. rewrite <- (take_drop (insert_index es (he_effective e)) es) in He.
    apply elem_of_app in He as [He|He]; [specialize (H1 e He); torder|].
    destruct (drop (insert_index es (he_effective e)) es) as [|x rest] eqn:Ed; [by apply elem_of_nil in He|].
    assert (Hx : es !! insert_index es (he_effective e) = Some x) by (rewrite <- (Nat.add_0_r (insert_index _ _)), <- lookup_drop, Ed; done).
    rewrite Hx. apply elem_of_cons in He as [->|He]; [done|]. exfalso.
    assert (Hx2 : increasing (x :: rest)).
    { rewrite <- Ed. rewrite <- (take_drop (insert_index es (he_effective e)) es) in Hs. by apply increasing_app in Hs as (_ & ? & _). }
    apply increasing_cons in Hx2 as [_ Hlt]. specialize (Hlt e He). specialize (H2 x ltac:(by left)). torder. }
  destruct (es !! insert_index es t) as [x|] eqn:Ex.
  - case_bool_decide as E; split; try done.
    + intros Hn. exfalso. apply Hn. apply list_elem_of_fmap. exists x. split; [done|]. by eapply list_elem_of_lookup_2.
    + intros _ (e & -> & He)%list_elem_of_fmap. specialize (Hin e He eq_refl). by simplify_eq.
  - split; [|done]. intros _ (e & -> & He)%list_elem_of_fmap. by specialize (Hin e He eq_refl).
Qed.

(** A new time: the entry goes between the earlier and the later ones. *)
Lemma increasing_place es n :
  increasing es -> he_effective n ∉ he_effective <$> es ->
  let i := insert_index es (he_effective n) in increasing (take i es ++ n :: drop i es).
Proof.
  intros Hs Hn. cbv zeta. destruct (insert_index_split es (he_effective n) Hs) as (H1 & H2 & _).
  assert (Hd : forall b, b ∈ drop (insert_index es (he_effective n)) es -> before n b).
  { intros b Hb. assert (he_effective b <> he_effective n).
    { intros E. apply Hn. rewrite <- E. apply list_elem_of_fmap_2. rewrite <- (take_drop (insert_index es (he_effective n)) es), elem_of_app. by right. }
    specialize (H2 b Hb). torder. }
  pose proof Hs as Hs'. rewrite <- (take_drop (insert_index es (he_effective n)) es) in Hs'. apply increasing_app in Hs' as (Ht & Hdr & Hx).
  apply increasing_app. split_and!; [done|by apply increasing_cons|].
  intros a b Ha [->|Hb]%elem_of_cons; [by apply H1|by apply Hx].
Qed.

Lemma insert_index_tail es t : (0 < insert_index es t)%nat -> insert_index (drop 1 es) t = (insert_index es t - 1)%nat.
Proof. destruct es as [|a es]; cbn; [lia|]. destruct (time_ltb _ _); cbn; [|lia]. intros _. by rewrite drop_0, Nat.sub_0_r. Qed.

(** ** The latest reports

    [latest capacity all es]: of the entries [all], [es] holds the latest ones in order, all
    of them if they fit. *)
Inductive latest (capacity : nat) (all es : list Entry) : Prop :=
  | mk_latest (old : list Entry) :
      all ≡ₚ old ++ es ->
      increasing es ->
      (length es <= capacity)%nat ->
      (forall o e, o ∈ old -> e ∈ es -> before o e) ->
      old = [] \/ length es = capacity ->
      latest capacity all es.

#[global] Instance latest_proper capacity : Proper (Permutation ==> eq ==> iff) (latest capacity).
Proof. intros a b Hab es ? <-. split; intros [old Hs ????]; exists old; try done; by rewrite <- Hs. Qed.

Lemma latest_unique capacity all es :
  NoDup (he_effective <$> all) -> latest capacity all es ->
  es = drop (length all - capacity) (merge_sort not_after all).
Proof.
  intros Hnd [old Hs Hi Hb Ho Hf].
  assert (Hold : increasing (merge_sort not_after old)).
  { assert (Hnd' : NoDup (he_effective <$> old)).
    { rewrite Hs, fmap_app in Hnd. by apply list.NoDup_app in Hnd as (? & _). }
    rewrite <- (merge_sort_Permutation not_after old) in Hnd'.
    pose proof (StronglySorted_merge_sort not_after old) as Hm. induction Hm as [|a l _ IH Ha]; [constructor|].
    rewrite fmap_cons in Hnd'. apply list.NoDup_cons in Hnd' as [Hn Hnd']. constructor; [by apply IH|].
    rewrite list.Forall_forall in Ha |- *. intros b Hb'. assert (he_effective a <> he_effective b).
    { intros E. apply Hn. rewrite E. by apply list_elem_of_fmap_2. }
    specialize (Ha b Hb'). torder. }
  assert (E : merge_sort not_after old ++ es = merge_sort not_after all).
  { apply increasing_sort.
    - apply increasing_app. split_and!; [done|done|]. intros a b Ha. rewrite merge_sort_Permutation in Ha. by apply Ho.
    - by rewrite merge_sort_Permutation. }
  rewrite <- E. assert (Hl : (length all - capacity)%nat = length (merge_sort not_after old)).
  { rewrite Hs, length_app, merge_sort_Permutation. destruct Hf as [-> | Hf]; cbn; lia. }
  by rewrite Hl, drop_app_length.
Qed.

Lemma latest_nil capacity : latest capacity [] [].
Proof. exists []; [done|constructor|cbn; lia|by intros o e Ho%elem_of_nil|by left]. Qed.

Lemma elem_of_place (n : Entry) es i b : b ∈ take i es ++ n :: drop i es -> b = n \/ b ∈ es.
Proof.
  rewrite elem_of_app, elem_of_cons. intros [H|[->|H]]; [|by left|]; right; rewrite <- (take_drop i es), elem_of_app; tauto.
Qed.

Lemma place_perm (n : Entry) es i : take i es ++ n :: drop i es ≡ₚ n :: es.
Proof. by rewrite <- Permutation_middle, take_drop. Qed.

(** Placing an entry of a new time keeps the latest ones. *)
Lemma place_latest h all n :
  latest (rh_capacity h) all (rh_entries h) -> he_effective n ∉ he_effective <$> all ->
  let h' := (place_entry h n).2 in
  h' = set_entries h (rh_entries h') /\ latest (rh_capacity h) (n :: all) (rh_entries h').
Proof.
  intros [old Hs Hi Hb Ho Hf] Hn. cbv zeta. unfold place_entry.
  assert (Hne : he_effective n ∉ he_effective <$> rh_entries h).
  { rewrite Hs, fmap_app, not_elem_of_app in Hn. tauto. }
  rewrite (proj2 (entry_at_None _ _ Hi) Hne).
  destruct (insert_index_split (rh_entries h) (he_effective n) Hi) as (H1 & H2 & H3).
  assert (Hold : forall o, o ∈ old -> he_effective o <> he_effective n).
  { intros o Hoo E. apply Hn. rewrite <- E. apply list_elem_of_fmap_2. rewrite Hs, elem_of_app. by left. }
  destruct (Nat.eqb_spec (length (rh_entries h)) (rh_capacity h)) as [Hfull|Hfull].
  - destruct (Nat.eqb_spec (insert_index (rh_entries h) (he_effective n)) 0) as [Hz|Hz]; cbn [snd].
    + split; [by destruct h|]. exists (n :: old); [by rewrite Hs| | | |by right]; [done|done|].
      intros o e [->|Ho']%elem_of_cons He; [|by apply Ho]. rewrite Hz, drop_0 in H2. specialize (H2 e He).
      assert (he_effective e <> he_effective n) by (intros E; apply Hne; rewrite <- E; by apply list_elem_of_fmap_2). torder.
    + split; [done|]. cbn [rh_entries set_entries]. rewrite <- insert_index_tail by lia.
      destruct (rh_entries h) as [|a es] eqn:Ees; [by cbn in Hz|]. cbn [drop]. rewrite drop_0.
      pose proof Hi as Hi'. apply increasing_cons in Hi' as [Hi' Ha].
      assert (Han : before a n) by (apply H1; destruct (insert_index (a :: es) (he_effective n)); [done|by left]).
      rewrite fmap_cons, not_elem_of_cons in Hne. destruct Hne as [_ Hne].
      exists (a :: old); [rewrite Hs, place_perm; solve_Permutation|by apply increasing_place| | |right].
      * rewrite place_perm. cbn in Hfull |- *. lia.
      * intros o e Ho' [->|He]%elem_of_place.
        -- apply elem_of_cons in Ho' as [->|Ho']; [done|]. transitivity a; [apply Ho; [done|by left]|done].
        -- apply elem_of_cons in Ho' as [->|Ho']; [by apply Ha|]. apply Ho; [done|by right].
      * rewrite place_perm. cbn in Hfull |- *. lia.
  - cbn [snd]. split; [done|]. cbn [rh_entries set_entries]. destruct Hf as [->|]; [|lia].
    exists []; [by rewrite place_perm, Hs|by apply increasing_place| |by intros o e Hx%elem_of_nil|by left].
    rewrite place_perm. cbn. lia.
Qed.

(** What [insert] is called with. *)
Record Report := mkReport {
  rp_state : StateSnapshot; rp_effective : ProtocolTime; rp_arrival : MonoTime; rp_full : bool; rp_events : Z }.
Definition insert_report (h : ReceiverHistory) (r : Report) : ReceiverHistory :=
  (history_insert h (rp_state r) (rp_effective r) (rp_arrival r) (rp_full r) (rp_events r)).2.
Definition insert_all (h : ReceiverHistory) (rs : list Report) : ReceiverHistory := foldl insert_report h rs.

(** The entry of a report that passes the checks. *)
Definition admitted (h : ReceiverHistory) (r : Report) : option Entry :=
  match admit_state h (rp_state r) (rp_effective r) (rp_events r) with
  | Ok (state, events) => Some (mkEntry state (rp_effective r) (rp_arrival r) events (rp_full r) false)
  | _ => None
  end.

Lemma insert_report_step h r :
  insert_report h r = match admitted h r with Some n => (place_entry h n).2 | None => h end.
Proof. unfold insert_report, history_insert, admitted. by destruct (admit_state _ _ _ _) as [[]| |]. Qed.

Lemma admitted_set h es r : admitted (set_entries h es) r = admitted h r.
Proof. done. Qed.

(** What an unbounded receiver would remember: the first report of each time, marked as in
    conflict when a later one of the same time disagrees with it. *)
Definition agrees (e n : Entry) : bool :=
  eqb (he_full e) (he_full n) && same_snapshot (he_state e) (he_state n) && (he_events e =? he_events n).
Definition flag_conflict (e : Entry) (c : bool) : Entry :=
  mkEntry (he_state e) (he_effective e) (he_arrival e) (he_events e) (he_full e) (he_conflict e || c).
Definition mark_same (n e : Entry) : Entry :=
  if bool_decide (he_effective e = he_effective n) then flag_conflict e (negb (agrees e n)) else e.
Definition record_report (all : list Entry) (n : Entry) : list Entry :=
  if bool_decide (he_effective n ∈ he_effective <$> all) then mark_same n <$> all else n :: all.
Definition recorded (ns : list Entry) : list Entry := foldl record_report [] ns.

Lemma mark_conflict_flag e n :
  mark_conflict e (he_state n) (he_full n) (he_events n) = flag_conflict e (negb (agrees e n)).
Proof.
  unfold mark_conflict, flag_conflict, agrees. destruct e as [s eff arr ev full c]. cbn.
  destruct (eqb full (he_full n)), (same_snapshot s (he_state n)), (ev =? he_events n); cbn; by rewrite ?orb_true_r, ?orb_false_r.
Qed.
Lemma mark_same_effective n e : he_effective (mark_same n e) = he_effective e.
Proof. unfold mark_same. by case_bool_decide. Qed.
Lemma mark_same_times n (es : list Entry) : he_effective <$> (mark_same n <$> es) = he_effective <$> es.
Proof. rewrite <- list_fmap_compose. apply list_fmap_ext. intros ? e _. apply mark_same_effective. Qed.

Lemma record_distinct all n :
  NoDup (he_effective <$> all) -> NoDup (he_effective <$> record_report all n).
Proof.
  intros Hnd. unfold record_report. case_bool_decide as Hin; [by rewrite mark_same_times|].
  rewrite fmap_cons. by apply list.NoDup_cons.
Qed.

Lemma mark_same_other n (es : list Entry) : he_effective n ∉ he_effective <$> es -> mark_same n <$> es = es.
Proof.
  intros Hn. rewrite <- (list_fmap_id es) at 2. apply list_fmap_ext. intros i e He. unfold mark_same.
  case_bool_decide as E; [|done]. destruct Hn. rewrite <- E. by eapply list_elem_of_fmap_2, list_elem_of_lookup_2.
Qed.

(** Only the entry of the time changes. *)
Lemma mark_same_insert n (es : list Entry) i e :
  NoDup (he_effective <$> es) -> es !! i = Some e -> he_effective e = he_effective n ->
  mark_same n <$> es = <[i := mark_conflict e (he_state n) (he_full n) (he_events n)]> es.
Proof.
  intros Hnd Hi He. rewrite mark_conflict_flag. apply list_eq. intros j. rewrite list_lookup_fmap. destruct (decide (i = j)) as [<-|Hne].
  - rewrite list_lookup_insert_eq by (by eapply lookup_lt_Some). rewrite Hi. cbn. unfold mark_same.
    by rewrite bool_decide_true.
  - rewrite list_lookup_insert_ne by done. destruct (es !! j) as [x|] eqn:Hj; [|done]. cbn. unfold mark_same.
    rewrite bool_decide_false; [done|]. intros E. apply Hne.
    eapply (NoDup_lookup _ _ _ (he_effective n) Hnd); rewrite list_lookup_fmap, ?Hi, ?Hj; cbn; congruence.
Qed.

Lemma mark_same_increasing n (es : list Entry) : increasing es -> increasing (mark_same n <$> es).
Proof.
  intros Hs. induction Hs as [|a l _ IH Ha]; [constructor|]. rewrite fmap_cons. constructor; [done|].
  apply list.Forall_forall. intros b (c & -> & Hc)%list_elem_of_fmap. rewrite list.Forall_forall in Ha.
  specialize (Ha c Hc). unfold before in *. by rewrite !mark_same_effective.
Qed.

(** Placing an entry keeps the latest of what was recorded. *)
Lemma record_latest h all n :
  latest (rh_capacity h) all (rh_entries h) -> NoDup (he_effective <$> all) ->
  let h' := (place_entry h n).2 in
  h' = set_entries h (rh_entries h') /\ latest (rh_capacity h) (record_report all n) (rh_entries h').
Proof.
  intros Hl Hnd. cbv zeta. unfold record_report. case_bool_decide as Hin; [|by apply place_latest].
  destruct Hl as [old Hs Hi Hb Ho Hf]. unfold place_entry.
  destruct (entry_at (rh_entries h) (he_effective n)) as [e|] eqn:Ee.
  - apply entry_at_Some in Ee as [Ei Et]. split; [done|]. cbn [snd rh_entries set_entries].
    rewrite <- mark_same_insert by (try done; by apply increasing_nodup).
    exists (mark_same n <$> old).
    + by rewrite Hs, fmap_app.
    + by apply mark_same_increasing.
    + by rewrite length_fmap.
    + intros o x (o' & -> & Ho')%list_elem_of_fmap (x' & -> & Hx')%list_elem_of_fmap.
      specialize (Ho _ _ Ho' Hx'). unfold before in *. by rewrite !mark_same_effective.
    + rewrite length_fmap. destruct Hf as [->|]; [by left|by right].
  - pose proof (proj1 (entry_at_None _ _ Hi) Ee) as Hne.
    rewrite Hs, fmap_app, elem_of_app in Hin. destruct Hin as [(o & Eo & Hoo)%list_elem_of_fmap|]; [|done].
    destruct Hf as [->|Hf]; [by apply elem_of_nil in Hoo|].
    assert (insert_index (rh_entries h) (he_effective n) = 0%nat) as ->.
    { destruct (rh_entries h) as [|a es]; [done|]. cbn. specialize (Ho o a Hoo ltac:(by left)).
      rewrite Eo. by assert (time_ltb (he_effective a) (he_effective o) = false) as -> by torder. }
    rewrite Hf, Nat.eqb_refl. cbn [snd Nat.eqb]. split; [by destruct h|].
    exists (mark_same n <$> old); [by rewrite Hs, fmap_app, (mark_same_other n (rh_entries h))|done|done| |by right].
    intros o' x (o'' & -> & Ho'')%list_elem_of_fmap Hx. specialize (Ho _ _ Ho'' Hx). unfold before in *.
    by rewrite mark_same_effective.
Qed.

Lemma insert_all_latest rs : forall h all,
  latest (rh_capacity h) all (rh_entries h) -> NoDup (he_effective <$> all) ->
  NoDup (he_effective <$> foldl record_report all (omap (admitted h) rs)) /\
  latest (rh_capacity h) (foldl record_report all (omap (admitted h) rs)) (rh_entries (insert_all h rs)).
Proof.
  induction rs as [|r rs IH]; intros h all Hl Hnd; [done|]. cbn [insert_all foldl]. fold (insert_all (insert_report h r) rs).
  rewrite insert_report_step. cbn [omap list_omap]. destruct (admitted h r) as [n|] eqn:En; [|by apply IH].
  destruct (record_latest h all n Hl Hnd) as [E Hl']. rewrite E.
  apply (IH (set_entries h (rh_entries (place_entry h n).2)) (record_report all n)); [done|by apply record_distinct].
Qed.

(** Reports of distinct times are remembered as they are. *)
Lemma recorded_distinct ns : NoDup (he_effective <$> ns) -> recorded ns = reverse ns.
Proof.
  assert (H : forall all, NoDup (he_effective <$> (reverse ns ++ all)) -> foldl record_report all ns = reverse ns ++ all).
  { induction ns as [|n ns IH]; intros all Hnd; [done|]. rewrite reverse_cons, <- app_assoc in Hnd |- *. cbn in Hnd |- *.
    assert (Hn : he_effective n ∉ he_effective <$> all).
    { rewrite fmap_app in Hnd. apply list.NoDup_app in Hnd as (_ & _ & Hnd). by apply list.NoDup_cons in Hnd as [? _]. }
    unfold record_report at 2. rewrite bool_decide_false by done. by apply IH. }
  intros Hnd. unfold recorded. rewrite H, app_nil_r; [done|].
  by rewrite app_nil_r, reverse_Permutation.
Qed.

(** C35. The history holds the latest reports, as many as fit, in the order of their effective
    times, whatever the order in which they arrive: it is the end of the sorted list of what
    an unbounded receiver remembers of the reports that pass the checks, which is the first
    report of each effective time, marked as in conflict when a later report of the same time
    disagrees with it.  When the effective times are pairwise distinct these are the reports
    themselves. *)
Theorem history_holds_latest capacity generation epoch reference profile rs :
  let h := history_new capacity generation epoch reference profile in
  let es := omap (admitted h) rs in
  rh_entries (insert_all h rs) =
    drop (length (recorded es) - capacity) (merge_sort not_after (recorded es)) /\
  (NoDup (he_effective <$> es) ->
   rh_entries (insert_all h rs) = drop (length es - capacity) (merge_sort not_after es)).
Proof.
  cbv zeta. set (h := history_new capacity generation epoch reference profile).
  destruct (insert_all_latest rs h [] (latest_nil _) (base.NoDup_nil_2)) as [Hd Hl].
  split; [by apply latest_unique|]. intros Hnd. fold (recorded (omap (admitted h) rs)) in Hl.
  rewrite recorded_distinct, reverse_Permutation in Hl by done. by apply latest_unique.
Qed.

(** An admissible generator state with sample rate [hz]. *)
Definition generator_state (hz : Z) : StateSnapshot :=
  set_field (set_field state_default 1 (mkFieldState Field.SampleRate (v_hertz (hz * unit_q20)) Validity.known))
    3 (mkFieldState Field.DataPayloadFormat (v_payload_format sdr_payload_format) Validity.known).
Definition sample_report (hz second : Z) : Report :=
  mkReport (generator_state hz) (mkTime second 0) (mkMono 5) true 0.

(** The second report of time 30 says something else than the first. *)
Lemma history_holds_latest_witness :
  let h := history_new 2 1 Tsi.none None Profile.generator_v1 in
  (fun e => (seconds (he_effective e), he_conflict e)) <$>
    rh_entries (insert_all h [sample_report 4 40; sample_report 1 10; sample_report 3 30; sample_report 5 30;
                              sample_report 2 20; sample_report 4 40])
    = [(30, true); (40, false)].
Proof.
  cbv zeta. rewrite (proj1 (history_holds_latest 2 1 Tsi.none None Profile.generator_v1 _)).
  vm_compute. reflexivity.
Defined.

(** ** The invariant *)

(** The sample-loss indicators never stay in a stored state. *)
Definition no_loss_bits (s : StateSnapshot) : Prop :=
  fs_validity (field_at s 2) = Validity.known ->
  exists v, fs_value (field_at s 2) = v_uint32 v /\ Z.land v sample_loss_bits = 0.

Record entry_ok (profile : Z) (e : Entry) : Prop := mk_entry_ok {
  eo_shaped : state_shaped (he_state e);
  eo_valid : snapshot_valid (he_state e);
  eo_profile : st_profile (he_state e) = profile;
  eo_time : time_ok (he_effective e);
  eo_arrival : u64 (ns (he_arrival e));
  eo_events : no_loss_bits (he_state e)
}.

Record history_ok (h : ReceiverHistory) : Prop := mk_history_ok {
  ho_increasing : increasing (rh_entries h);
  ho_bound : (length (rh_entries h) <= rh_capacity h)%nat;
  ho_entries : Forall (entry_ok (rh_profile h)) (rh_entries h)
}.

Lemma field_at_lookup s i f : st_fields s !! i = Some f -> field_at s i = f.
Proof. intros H. unfold field_at. by apply nth_lookup_Some. Qed.

Lemma field_at_shaped s i : state_shaped s -> (i < 8)%nat -> st_fields s !! i = Some (field_at s i).
Proof.
  intros Hs Hi. destruct (lookup_lt_is_Some_2 (st_fields s) i) as [f Hf]; [rewrite Hs; unfold state_field_capacity; lia|].
  by rewrite (field_at_lookup s i f Hf).
Qed.

Lemma set_field_shaped s i f : state_shaped s -> state_shaped (set_field s i f).
Proof. unfold state_shaped. cbn. by rewrite length_insert. Qed.

Lemma field_at_set s i j f : state_shaped s -> (i < 8)%nat -> field_at (set_field s i f) j = if (i =? j)%nat then f else field_at s j.
Proof.
  intros Hs Hi. unfold field_at at 1. cbn. destruct (Nat.eqb_spec i j) as [->|Hij].
  - apply nth_lookup_Some. apply list_lookup_insert_eq. rewrite Hs. unfold state_field_capacity. lia.
  - unfold field_at. rewrite !nth_lookup, list_lookup_insert_ne by done. done.
Qed.

(** A value of the state-event field of any bits is valid. *)
Lemma state_event_value v : validate_value Field.StateEvent (v_uint32 v) true = Ok tt.
Proof. reflexivity. Qed.

Lemma set_event_valid s v validity :
  state_shaped s -> snapshot_valid s -> validity = fs_validity (field_at s 2) ->
  snapshot_valid (set_field s 2 (mkFieldState (fs_id (field_at s 2)) (v_uint32 v) validity)).
Proof.
  intros Hs [Hp Hf Hb] ->. assert (H2 := field_at_shaped s 2 Hs ltac:(lia)). split; cbn [st_profile set_field]; [done| |].
  - intros i f Hi. cbn in Hi. apply list_lookup_insert_Some in Hi as [(<- & <- & _)|[_ Hi]]; [|by apply Hf].
    destruct (Hf 2%nat _ H2) as [Ha Hid Hv Hk]. split; cbn; [done|done|done|]. intros Hlt Hkn. split; [|done].
    specialize (Hid Hlt). cbn in Hid. injection Hid as <-. apply state_event_value.
  - intros E. unfold bandwidth_within_rate in *. cbn. intros f1 f5 rate bw Hf1 Hf5.
    rewrite list_lookup_insert_ne in Hf1, Hf5 by done. by apply (Hb E).
Qed.

Lemma clear_bits_clears v mask : 0 <= mask <= U32_MAX -> Z.land (clear_bits v mask) mask = 0.
Proof.
  intros Hm. apply Z.bits_inj'. intros i Hi. unfold clear_bits. rewrite !Z.land_spec, Z.lxor_spec, Z.bits_0.
  destruct (Z.testbit mask i) eqn:E; [|by rewrite andb_false_r].
  destruct (Z.lt_ge_cases i 32) as [H|H].
  - change U32_MAX with (Z.ones 32). rewrite Z.ones_spec_low by lia. cbn. by rewrite !andb_false_r.
  - rewrite (testbit_high mask 32 i) in E; [done| |done]. unfold_words. lia.
Qed.

Lemma split_events_ok s events s' events' :
  state_shaped s -> snapshot_valid s -> split_events s events = Ok (s', events') ->
  state_shaped s' /\ snapshot_valid s' /\ st_profile s' = st_profile s /\ no_loss_bits s'.
Proof.
  intros Hs Hv H. unfold split_events in H. rewrite (field_at_shaped s 2 Hs ltac:(lia)) in H. cbn [deref rbind] in H.
  destruct (is_known (field_at s 2)) eqn:Ek.
  - destruct (if_uint32 _) as [v|] eqn:Ev; [|done]. injection H as <- <-.
    split_and!; [by apply set_field_shaped|by apply set_event_valid|done|]. unfold no_loss_bits. rewrite field_at_set by (done || lia).
    cbn. intros _. eexists. split; [done|]. apply clear_bits_clears. done.
  - injection H as <- <-. split_and!; try done. intros Hk. apply is_known_iff in Hk. congruence.
Qed.

Lemma admit_state_ok h s t events s' events' :
  state_shaped s -> time_typed t -> admit_state h s t events = Ok (s', events') ->
  state_shaped s' /\ snapshot_valid s' /\ st_profile s' = rh_profile h /\ no_loss_bits s' /\ time_ok t.
Proof.
  intros Hs Ht H. unfold admit_state in H. apply rbind_Ok in H as ([] & Hval & H).
  apply (snapshot_decided s Hs) in Hval. inv_ok. apply negb_false_iff in E, E0. apply Z.eqb_eq in E.
  destruct (split_events_ok _ _ _ _ Hs Hval H) as (? & ? & Ep & ?). split_and!; [done..|congruence|done|]. by apply valid_time_ok.
Qed.

Lemma mark_conflict_fields e s full events :
  he_effective (mark_conflict e s full events) = he_effective e /\
  (forall p, entry_ok p e -> entry_ok p (mark_conflict e s full events)).
Proof. unfold mark_conflict. test_goal E; [|done]. split; [done|]. by intros p []. Qed.

Lemma increasing_same_times l l' : he_effective <$> l = he_effective <$> l' -> increasing l -> increasing l'.
Proof.
  revert l'. induction l as [|a l IH]; intros [|b l'] E Hs; try done. rewrite !fmap_cons in E. injection E as Eab E.
  apply increasing_cons in Hs as [Hs Ha]. apply increasing_cons. split; [by apply (IH l' E Hs)|].
  intros c Hc. assert (He : he_effective c ∈ he_effective <$> l) by (rewrite E; by apply list_elem_of_fmap_2).
  apply list_elem_of_fmap in He as (d & Ed & Hd). specialize (Ha d Hd). unfold before in *. congruence.
Qed.

(** Placing a good entry keeps the invariant, on every branch. *)
Lemma place_entry_ok h n :
  history_ok h -> entry_ok (rh_profile h) n ->
  let h' := (place_entry h n).2 in history_ok h' /\ rh_profile h' = rh_profile h /\ rh_capacity h' = rh_capacity h.
Proof.
  intros [Hi Hb He] Hn. cbv zeta. destruct (entry_at (rh_entries h) (he_effective n)) as [e|] eqn:Ee.
  - unfold place_entry. rewrite Ee. split; [|done]. apply entry_at_Some in Ee as [Hx _]. cbn [snd].
    destruct (mark_conflict_fields e (he_state n) (he_full n) (he_events n)) as [Ht Hok].
    split; cbn.
    + eapply increasing_same_times; [|exact Hi]. rewrite list_fmap_insert, Ht. symmetry. apply list_insert_id.
      by rewrite list_lookup_fmap, Hx.
    + by rewrite length_insert.
    + apply Forall_insert; [done|]. apply Hok. by eapply Forall_lookup_1.
  - apply entry_at_None in Ee; [|done].
    assert (Hl : latest (rh_capacity h) (rh_entries h) (rh_entries h)).
    { exists []; [done..|by intros ?? ?%elem_of_nil|by left]. }
    destruct (place_latest h (rh_entries h) n Hl Ee) as [E [old Hs ????]].
    rewrite E. split; [|done]. split; cbn; [done|done|].
    rewrite list.Forall_forall in He |- *. intros x Hx. assert (Hin : x ∈ n :: rh_entries h) by (rewrite Hs, elem_of_app; by right).
    apply elem_of_cons in Hin as [->|]; [done|by apply He].
Qed.

Lemma history_insert_ok h s t arrival full events :
  history_ok h -> state_shaped s -> time_typed t -> u64 (ns arrival) ->
  history_ok (history_insert h s t arrival full events).2.
Proof.
  intros Hh Hs Ht Ha. unfold history_insert. destruct (admit_state h s t events) as [[s' events']| |] eqn:E; [|done..].
  destruct (admit_state_ok _ _ _ _ _ _ Hs Ht E) as (? & ? & ? & ? & ?). by apply place_entry_ok.
Qed.

Lemma collect_fields_shaped profile views : forall s s',
  state_shaped s -> collect_fields profile views s = Ok s' -> state_shaped s'.
Proof.
  induction views as [|v views IH]; intros s s' Hs H; cbn [collect_fields] in H; [by inv_ok|].
  inv_ok. eapply IH; [|done]. by apply set_field_shaped.
Qed.

Lemma packet_state_shaped h packet generation s : packet_state h packet generation = Ok s -> state_shaped s.
Proof.
  unfold packet_state. intros H.
  repeat match type of H with (if ?c then Err _ else _) = _ => destruct c; [done|] end.
  apply rbind_Ok in H as (s1 & H1 & H). apply collect_fields_shaped in H1; [|done].
  apply rbind_Ok in H as (s2 & H2 & H).
  assert (Hs2 : state_shaped s2).
  { destruct (rh_profile h =? Profile.sdr_radio); [|by injection H2 as <-]. unfold complete_sdr in H2. inv_ok. by do 3 apply set_field_shaped. }
  destruct (rh_reference h); inv_ok; done.
Qed.

(** The operations of a history, with arguments in the range of their types. *)
Inductive history_step (h : ReceiverHistory) : ReceiverHistory -> Prop :=
  | step_insert s t arrival full events :
      state_shaped s -> time_typed t -> u64 (ns arrival) -> history_step h (history_insert h s t arrival full events).2
  | step_receive packet generation arrival full :
      let ts := timestamp (ev_envelope (pv_envelope packet)) in
      time_typed (mkTime (ts_integer ts) (ts_fractional ts)) -> u64 (ns arrival) ->
      history_step h (history_receive h packet generation arrival full).2
  | step_expire now : history_step h (history_expire h now)
  | step_detach generation epoch reference : history_step h (history_detach h generation epoch reference).2.

Lemma increasing_filter p l : increasing l -> increasing (List.filter p l).
Proof.
  induction l as [|a l IH]; [done|]. rewrite increasing_cons. intros [Hs Ha]. cbn. destruct (p a); [|by apply IH].
  apply increasing_cons. split; [by apply IH|]. intros b Hb. apply Ha. apply list_elem_of_In in Hb. apply List.filter_In in Hb as [Hb _].
  by apply list_elem_of_In.
Qed.

Lemma history_step_ok h h' : history_step h h' -> history_ok h -> history_ok h'.
Proof.
  intros [s t arrival full events ??? |packet generation arrival full ts ??|now|generation epoch reference] Hh.
  - by apply history_insert_ok.
  - unfold history_receive. destruct (packet_state h packet generation) as [s| |] eqn:E; [|done..].
    apply history_insert_ok; try done. by eapply packet_state_shaped.
  - destruct Hh as [Hi Hb He]. split; cbn; [by apply increasing_filter| |].
    + pose proof (List.filter_length_le (fresh now) (rh_entries h)). lia.
    + rewrite list.Forall_forall in He |- *. intros x Hx. apply list_elem_of_In, List.filter_In in Hx as [Hx _].
      apply He. by apply list_elem_of_In.
  - unfold history_detach. destruct (generation <=? rh_generation h); [done|]. destruct Hh. split; cbn; [constructor|lia|done].
Qed.

Lemma history_new_ok capacity generation epoch reference profile :
  history_ok (history_new capacity generation epoch reference profile).
Proof. split; cbn; [constructor|lia|done]. Qed.

(** ** Resolution *)

(** The entries that have taken effect by [sample], the latest first. *)
Definition in_effect (es : list Entry) (sample : ProtocolTime) : list Entry :=
  reverse (List.filter (fun e => negb (time_ltb sample (he_effective e))) es).

(** The latest report of field [i]: deltas are passed over until one has the field, a full
    report always counts. *)
Fixpoint latest_report (i : nat) (es : list Entry) : FieldState :=
  match es with
  | [] => field_at state_default i
  | e :: es =>
      if he_full e || negb (fs_validity (field_at (he_state e) i) =? Validity.absent)
      then field_at (he_state e) i else latest_report i es
  end.

Lemma resolve_loop_filter es sample : forall r, increasing es ->
  resolve_loop es sample r = foldl resolve_step r (List.filter (fun e => negb (time_ltb sample (he_effective e))) es).
Proof.
  induction es as [|a es IH]; intros r Hs; [done|]. apply increasing_cons in Hs as [Hs Ha]. cbn [resolve_loop List.filter].
  destruct (time_ltb sample (he_effective a)) eqn:E; cbn [negb foldl]; [|by apply IH].
  assert (Hn : List.filter (fun e => negb (time_ltb sample (he_effective e))) es = []); [|by rewrite Hn].
  clear IH Hs. induction es as [|b es IH]; [done|]. cbn. rewrite IH by (intros; apply Ha; by right).
  assert (time_ltb sample (he_effective b) = true) as ->; [|done]. specialize (Ha b ltac:(by left)). torder.
Qed.

(** The loop as a function of the entries in effect. *)
Definition resolution (h : ReceiverHistory) (sample : ProtocolTime) : Resolution :=
  foldr (fun e r => resolve_step r e) (mkResolution state_default None false false false) (in_effect (rh_entries h) sample).

Lemma foldl_foldr_reverse {A B} (f : A -> B -> A) l : forall a, foldl f a l = foldr (fun b a => f a b) a (reverse l).
Proof. induction l as [|b l IH]; intros a; [done|]. cbn [foldl]. by rewrite IH, reverse_cons, foldr_app. Qed.

Lemma resolve_loop_resolution h sample : history_ok h ->
  resolve_loop (rh_entries h) sample (mkResolution state_default None false false false) = resolution h sample.
Proof.
  intros [Hi _ _]. rewrite resolve_loop_filter by done. unfold resolution, in_effect.
  apply foldl_foldr_reverse.
Qed.

Lemma field_at_overlay a b i : state_shaped a -> state_shaped b ->
  field_at (overlay a b) i = overlay_field (field_at a i) (field_at b i).
Proof.
  unfold state_shaped, field_at, overlay. cbn [st_fields]. intros Ha Hb. rewrite <- Hb in Ha. clear Hb.
  revert i Ha. generalize (st_fields a) (st_fields b). intros l1. induction l1 as [|x l1 IH]; intros [|y l2] i E; try discriminate E.
  - by destruct i.
  - destruct i; [done|]. cbn. apply IH. by injection E.
Qed.

Lemma overlay_shaped a b : state_shaped a -> state_shaped b -> state_shaped (overlay a b).
Proof. unfold state_shaped. cbn. intros Ha Hb. rewrite length_zip_with, Ha, Hb. done. Qed.

Lemma in_effect_elem h sample e : e ∈ in_effect (rh_entries h) sample -> e ∈ rh_entries h /\ time_ltb sample (he_effective e) = false.
Proof.
  unfold in_effect. rewrite elem_of_reverse. intros [H Hp]%list_elem_of_In%List.filter_In.
  split; [by apply list_elem_of_In|by apply negb_true_iff].
Qed.

Lemma fold_report l i : Forall (fun e => state_shaped (he_state e)) l ->
  let r := foldr (fun e r => resolve_step r e) (mkResolution state_default None false false false) l in
  state_shaped (rs_state r) /\ field_at (rs_state r) i = latest_report i l /\ rs_last r = head l /\
  (match l with e :: _ => rs_delta r = negb (he_full e) | [] => rs_delta r = false end) /\
  (match l with e :: _ => he_full e = true -> rs_state r = he_state e /\ rs_anchored r = true /\ rs_ambiguous r = he_conflict e | [] => True end).
Proof.
  cbv zeta. induction l as [|e l IH]; intros Hl; [done|]. apply list.Forall_cons in Hl as [He Hl].
  destruct (IH Hl) as (Hs & Hf & _). cbn [foldr latest_report head]. unfold resolve_step at 1 3 5 7 9 11 13.
  destruct (he_full e) eqn:E; cbn [rs_state rs_last rs_delta rs_anchored rs_ambiguous orb negb]; [done|].
  split_and!; [by apply overlay_shaped| |done|done|done].
  rewrite field_at_overlay, Hf by done. unfold overlay_field. by destruct (_ =? Validity.absent).
Qed.

Lemma entries_shaped h sample : history_ok h -> Forall (fun e => state_shaped (he_state e)) (in_effect (rh_entries h) sample).
Proof.
  intros [_ _ He]. rewrite list.Forall_forall in He |- *. intros e [Hin _]%in_effect_elem. by apply (He e Hin).
Qed.

Lemma resolve_state h sample now : history_ok h -> md_state (history_resolve h sample now) = rs_state (resolution h sample).
Proof. intros Hh. unfold history_resolve. rewrite resolve_loop_resolution by done. repeat case_match; done. Qed.

(** Every field of the resolved state is the one of the latest report in effect that has it. *)
Theorem resolve_latest_report h sample now i :
  history_ok h ->
  field_at (md_state (history_resolve h sample now)) i = latest_report i (in_effect (rh_entries h) sample).
Proof. intros Hh. rewrite resolve_state by done. by apply fold_report, entries_shaped. Qed.

Lemma outlived_spec last sample : time_ok last -> time_ok sample ->
  outlived last sample = (ps_of last + 2 * picoseconds_per_second <=? ps_of sample).
Proof.
  intros Hl Hs. unfold outlived.
  assert (Hd : duration_ok (mkDuration 2 0)) by (split; cbn; [unfold_words|unfold picoseconds_per_second]; lia).
  change (2 * picoseconds_per_second) with (ps_of_duration (mkDuration 2 0)).
  pose proof (add_spec last _ Hl Hd) as H. pose proof (time_ok_range sample Hs).
  destruct (Z.ltb_spec (ps_of last + ps_of_duration (mkDuration 2 0)) TIME_END).
  - destruct H as (t & -> & Ht & E). unfold time_geb. rewrite time_ltb_spec, E by done. by rewrite Z.leb_antisym.
  - rewrite H. symmetry. apply Z.leb_gt. lia.
Qed.

(** When a resolved state can be trusted: the latest report in effect is full and was never
    contradicted, arrived within the last two seconds, took effect less than two seconds
    before the sample, and has the required fields. *)
Record trusted (sample : ProtocolTime) (now : MonoTime) (e : Entry) : Prop := mk_trusted {
  tr_full : he_full e = true;
  tr_conflict : he_conflict e = false;
  tr_arrival : ns (he_arrival e) <= ns now < ns (he_arrival e) + stale_after;
  tr_effective : ps_of sample < ps_of (he_effective e) + 2 * picoseconds_per_second;
  tr_required : required_known (he_state e) = true
}.

Lemma stale_false now e : u64 (ns now) -> u64 (ns (he_arrival e)) ->
  (ns now <? ns (he_arrival e)) || (stale_after <=? wrap64 (ns now - ns (he_arrival e))) = false <->
  ns (he_arrival e) <= ns now < ns (he_arrival e) + stale_after.
Proof.
  intros Hn Ha. rewrite orb_false_iff, Z.ltb_ge, Z.leb_gt. destruct (Z.le_gt_cases (ns (he_arrival e)) (ns now)).
  - rewrite wrap64_small by (unfold_words; lia). lia.
  - lia.
Qed.

Lemma resolve_known_iff h sample now :
  history_ok h -> time_ok sample -> u64 (ns now) ->
  md_confidence (history_resolve h sample now) = Confidence.known <->
  exists e, head (in_effect (rh_entries h) sample) = Some e /\ trusted sample now e.
Proof.
  intros Hh Hs Hn. unfold history_resolve. rewrite resolve_loop_resolution by done.
  pose proof (fold_report _ 0 (entries_shaped h sample Hh)) as (_ & _ & Hlast & Hdelta & Hfull). fold (resolution h sample) in Hlast, Hdelta, Hfull.
  rewrite Hlast. destruct (in_effect (rh_entries h) sample) as [|e l] eqn:Ee; cbn [head] in *.
  { split; [done|]. by intros (e & ? & _). }
  assert (Hin : e ∈ rh_entries h) by (apply (in_effect_elem h sample e); rewrite Ee; by left).
  assert (He : entry_ok (rh_profile h) e) by (destruct Hh as [_ _ H]; rewrite list.Forall_forall in H; by apply H).
  pose proof (stale_false now e Hn (eo_arrival _ _ He)) as Hst. rewrite (outlived_spec _ _ (eo_time _ _ He) Hs).
  destruct (he_full e) eqn:Ef.
  - destruct (Hfull eq_refl) as (-> & -> & ->). rewrite Hdelta. cbn [negb orb].
    transitivity (trusted sample now e); [|split; [eauto|by intros (? & [= <-] & ?)]].
    destruct (he_conflict e) eqn:Ec; [split; [done|by intros []; congruence]|].
    destruct (_ || _) eqn:Es; [split; [done|intros []; discriminate (proj2 Hst ltac:(done))]|]. pose proof (proj1 Hst eq_refl).
    destruct (Z.leb_spec (ps_of (he_effective e) + 2 * picoseconds_per_second) (ps_of sample)); [split; [done|intros []; lia]|].
    destruct (required_known (he_state e)) eqn:Er; [|split; [done|intros []; congruence]]. split; [|done]. intros _. by split.
  - rewrite Hdelta. cbn [negb]. split; [|intros (? & [= <-] & []); congruence]. repeat case_match; done.
Qed.

(** [resolve] reports a state as known exactly when the latest report in effect can be
    trusted, and then the state is that report. *)
Theorem resolve_trusted h sample now :
  history_ok h -> time_ok sample -> u64 (ns now) ->
  md_confidence (history_resolve h sample now) = Confidence.known <->
  exists e, head (in_effect (rh_entries h) sample) = Some e /\ trusted sample now e /\
            md_state (history_resolve h sample now) = he_state e.
Proof.
  intros Hh Hs Hn. rewrite resolve_known_iff by done. split; [|intros (e & ? & ? & _); eauto].
  intros (e & He & Ht). exists e. split_and!; [done|done|]. rewrite resolve_state by done.
  pose proof (fold_report _ 0 (entries_shaped h sample Hh)) as (_ & _ & _ & _ & Hfull). fold (resolution h sample) in Hfull.
  destruct (in_effect _ _) as [|e' l]; [done|]. injection He as ->. destruct Ht. by destruct Hfull.
Qed.

(** ** Reachable histories *)

(** Whatever sequence of operations led to it, a history is strictly ordered by effective
    time, within its capacity, and holds valid states of its profile without the
    momentary sample-loss indicators. *)
Theorem history_invariant capacity generation epoch reference profile h :
  rtc history_step (history_new capacity generation epoch reference profile) h -> history_ok h.
Proof.
  intros H. apply (rtc_ind_r (fun h => history_ok h) _ (history_new_ok capacity generation epoch reference profile)) in H; [done|].
  intros y z _ Hs Hy. by eapply history_step_ok.
Qed.

Definition witness_history : ReceiverHistory :=
  insert_all (history_new 4 1 Tsi.none None Profile.generator_v1) [sample_report 2000 30; sample_report 1000 10].

Lemma witness_history_steps : rtc history_step (history_new 4 1 Tsi.none None Profile.generator_v1) witness_history.
Proof.
  eapply rtc_l; [eapply (step_insert _ (generator_state 2000) (mkTime 30 0) (mkMono 5) true 0); (done || (vm_compute; split; congruence) || (split; vm_compute; split; congruence))|].
  eapply rtc_l; [eapply (step_insert _ (generator_state 1000) (mkTime 10 0) (mkMono 5) true 0); (done || (vm_compute; split; congruence) || (split; vm_compute; split; congruence))|].
  apply rtc_refl.
Qed.

Lemma history_invariant_witness : history_ok witness_history /\ length (rh_entries witness_history) = 2%nat.
Proof.
  split; [exact (history_invariant _ _ _ _ _ _ witness_history_steps)|vm_compute; reflexivity].
Defined.

Lemma witness_history_ok : history_ok witness_history.
Proof.
  unfold witness_history, insert_all. cbn [foldl]. unfold insert_report.
  repeat apply history_insert_ok; try apply history_new_ok; try (vm_compute; reflexivity); try (split; vm_compute; split; congruence);
    vm_compute; split; congruence.
Qed.

Lemma resolve_latest_report_witness :
  field_at (md_state (history_resolve witness_history (mkTime 31 0) (mkMono 6))) 1 =
    mkFieldState Field.SampleRate (v_hertz (2000 * unit_q20)) Validity.known.
Proof. rewrite (resolve_latest_report _ _ _ 1 witness_history_ok). vm_compute. reflexivity. Defined.

Lemma resolve_trusted_witness :
  exists e, head (in_effect (rh_entries witness_history) (mkTime 11 0)) = Some e /\ trusted (mkTime 11 0) (mkMono 6) e /\
            md_state (history_resolve witness_history (mkTime 11 0) (mkMono 6)) = he_state e.
Proof.
  apply (resolve_trusted witness_history (mkTime 11 0) (mkMono 6) witness_history_ok).
  - split; vm_compute; split; congruence.
  - vm_compute; split; congruence.
  - vm_compute. reflexivity.
Defined.
