(* ===== verification/Receiver.v ===== *)
(** * Delivery of signal data with its context: [ContextReceiver] of [include/vita/runtime/context/receiver.hpp]

    A data packet is delivered with the state that applied to its samples.  If the state is
    not known yet the packet is retained for at most ten milliseconds, in the hope that the
    context packet arrives; then it is dropped.  The retained payloads live in the memory
    [World] of [MemEnvelope]; the client's callbacks are parameters that may change it, for
    example by retaining what they are given.  [receiver_step] records every call of a
    callback as an event. *)

From stdpp Require Import relations.
From S2P Require Import Prelude Wire WireProofs Fields Time Scheduling State Structured Packet Pool MemEnvelope History.

(** [BorrowedSignalRx]: a view of a received or of a retained packet. *)
Inductive SignalSource := borrowed_envelope (e : RxEnvelope) | borrowed_retained (r : RetainedRx).

Definition signal_fragment_count (s : SignalSource) : nat :=
  match s with borrowed_envelope e => length (rx_payload e) | borrowed_retained r => length (rt_fragments r) end.
Definition signal_fragment (w : World) (s : SignalSource) (i : nat) : Result Span :=
  match s with borrowed_envelope e => rx_fragment w e i | borrowed_retained r => retained_fragment w r i end.
Definition signal_retain (w : World) (s : SignalSource) (consumer global : nat) : Result (Result RetainedRx * World) :=
  match s with borrowed_envelope e => rx_retain w e consumer global | borrowed_retained r => retained_retain w r consumer global end.

(** The calls of the binding. *)
Inductive Event :=
  | Delivered (s : SignalSource) (m : MetadataSnapshot) (sample : ProtocolTime)
  | Dropped (c : Confidence.t).

Record Pending := mkPending { pd_payload : RetainedRx; pd_sample : ProtocolTime; pd_arrival : MonoTime }.

(** [cr_can_deliver], [cr_can_drop]: the function pointers of the binding are not null. *)
Record ContextReceiver := mkReceiver {
  cr_history : ReceiverHistory;
  cr_can_deliver : bool; cr_can_drop : bool;   
  cr_waiting : list (option Pending); cr_waiting_count : Z;
  cr_local_quota : nat; cr_global_quota : nat;
  cr_allow_unknown : bool; cr_fixed_format : option Z }.

Definition set_waiting (c : ContextReceiver) (ws : list (option Pending)) (n : Z) : ContextReceiver :=
  mkReceiver (cr_history c) (cr_can_deliver c) (cr_can_drop c) ws n (cr_local_quota c) (cr_global_quota c)
    (cr_allow_unknown c) (cr_fixed_format c).
Definition set_history (c : ContextReceiver) (h : ReceiverHistory) : ContextReceiver :=
  mkReceiver h (cr_can_deliver c) (cr_can_drop c) (cr_waiting c) (cr_waiting_count c) (cr_local_quota c) (cr_global_quota c)
    (cr_allow_unknown c) (cr_fixed_format c).

Definition deliverable (m : MetadataSnapshot) : bool :=
  bool_decide (md_confidence m = Confidence.known) && md_valid_data m.

(** Unknown metadata is delivered with the configured format and nothing else known. *)
Definition forget_field (f : FieldState) : FieldState :=
  if is_known f then mkFieldState (fs_id f) (fs_value f) Validity.unknown else f.
Definition forget_known (m : MetadataSnapshot) (format : Z) : MetadataSnapshot :=
  let s := md_state m in
  let s := mkState (st_version s) (forget_field <$> st_fields s) (st_profile s) in
  mkMetadata (set_field s 3 (mkFieldState Field.DataPayloadFormat (v_payload_format format) Validity.known))
    (md_effective m) (md_confidence m) (md_events m) (md_valid_data m).

Definition wait_limit : Z := 10000000.
(** [now.ns>=slot->arrival.ns&&now.ns-slot->arrival.ns>=10000000ULL] *)
Definition overdue (now : MonoTime) (p : Pending) : bool :=
  (ns (pd_arrival p) <=? ns now) && (wait_limit <=? wrap64 (ns now - ns (pd_arrival p))).

Section receiver.
(** The effect of the client's [deliver] and [drop] on the memory world. *)
Context (on_deliver : World -> SignalSource -> MetadataSnapshot -> ProtocolTime -> World) (on_drop : World -> Confidence.t -> World).

Record Machine := mkMachine { mc_receiver : ContextReceiver; mc_world : World; mc_events : list Event }.

Definition emit_deliver (s : SignalSource) (m : MetadataSnapshot) (t : ProtocolTime) (k : Machine) : Machine :=
  mkMachine (mc_receiver k) (on_deliver (mc_world k) s m t) (mc_events k ++ [Delivered s m t]).
(** [if(binding_.drop)binding_.drop(...)] *)
Definition emit_drop (c : Confidence.t) (k : Machine) : Machine :=
  if cr_can_drop (mc_receiver k)
  then mkMachine (mc_receiver k) (on_drop (mc_world k) c) (mc_events k ++ [Dropped c]) else k.

Definition receive_data (k : Machine) (envelope : RxEnvelope) (sample : ProtocolTime) (generation : Z) (now : MonoTime)
    : Result (Result unit * Machine) :=
  let c := mc_receiver k in
  if negb (generation =? rh_generation (cr_history c)) then Ok (Err (error1 ErrorCode.stale_generation), k) else
  if negb (cr_can_deliver c) || negb (valid sample) || (cr_allow_unknown c && is_none (cr_fixed_format c))
  then Ok (Err (error1 ErrorCode.invalid_argument), k) else
  let metadata := history_resolve (cr_history c) sample now in
  if deliverable metadata then Ok (Ok tt, emit_deliver (borrowed_envelope envelope) metadata sample k) else
  if cr_allow_unknown c && negb (bool_decide (md_confidence metadata = Confidence.known)) then
    let? format := deref (cr_fixed_format c) in
    Ok (Ok tt, emit_deliver (borrowed_envelope envelope) (forget_known metadata format) sample k)
  else
  let? (retained, w) := rx_retain (mc_world k) envelope (cr_local_quota c) (cr_global_quota c) in
  match retained with
  | UB => UB
  | Err e => Ok (Err e, mkMachine c w (mc_events k))
  | Ok payload =>
      match first_free (cr_waiting c) with
      | Some i =>
          Ok (Ok tt, mkMachine (set_waiting c (<[i := Some (mkPending payload sample now)]> (cr_waiting c))
                                 (wrap64 (cr_waiting_count c + 1))) w (mc_events k))
      | None =>
          let k := emit_drop (md_confidence metadata) (mkMachine c w (mc_events k)) in
          let? w := retained_reset (mc_world k) payload in
          Ok (Err (error1 ErrorCode.capacity_exhausted), mkMachine c w (mc_events k))
      end
  end.

(** One slot of the loop of [progress]; [None] for a slot that stays as it is. *)
Definition progress_slot (k : Machine) (now : MonoTime) (p : Pending) : option (Result Machine) :=
  let metadata := history_resolve (cr_history (mc_receiver k)) (pd_sample p) now in
  let release k := let? w := retained_reset (mc_world k) (pd_payload p) in Ok (mkMachine (mc_receiver k) w (mc_events k)) in
  if overdue now p then Some (release (emit_drop (md_confidence metadata) k)) else
  if deliverable metadata then Some (release (emit_deliver (borrowed_retained (pd_payload p)) metadata (pd_sample p) k)) else
  None.

Definition update_slot (k : Machine) (i : nat) : Machine :=
  let c := mc_receiver k in
  mkMachine (set_waiting c (<[i := None]> (cr_waiting c)) (wrap64 (cr_waiting_count c - 1))) (mc_world k) (mc_events k).

Fixpoint progress_loop (k : Machine) (now : MonoTime) (i n : nat) : Result Machine :=
  match n with
  | O => Ok k
  | S n =>
      let? slot := deref (cr_waiting (mc_receiver k) !! i) in
      match slot with
      | Some p =>
          match progress_slot k now p with
          | Some k => let? k := k in progress_loop (update_slot k i) now (S i) n
          | None => progress_loop k now (S i) n
          end
      | None => progress_loop k now (S i) n
      end
  end.

Definition receiver_progress (k : Machine) (now : MonoTime) : Result Machine :=
  let? k := progress_loop k now 0 (length (cr_waiting (mc_receiver k))) in
  Ok (mkMachine (set_history (mc_receiver k) (history_expire (cr_history (mc_receiver k)) now)) (mc_world k) (mc_events k)).

Definition receive_context (k : Machine) (packet : PacketView) (generation : Z) (now : MonoTime) (full : bool)
    : Result (Result unit * Machine) :=
  let '(inserted, h) := history_receive (cr_history (mc_receiver k)) packet generation now full in
  let k := mkMachine (set_history (mc_receiver k) h) (mc_world k) (mc_events k) in
  match inserted with
  | UB => UB
  | Err e => Ok (Err e, k)
  | Ok _ => let? k := receiver_progress k now in Ok (Ok tt, k)
  end.

Fixpoint reset_slots (w : World) (ws : list (option Pending)) : Result World :=
  match ws with
  | [] => Ok w
  | None :: ws => reset_slots w ws
  | Some p :: ws => let? w := retained_reset w (pd_payload p) in reset_slots w ws
  end.

Definition receiver_detach (k : Machine) (generation epoch : Z) (reference : option Z) : Result (Result unit * Machine) :=
  let c := mc_receiver k in
  let '(changed, h) := history_detach (cr_history c) generation epoch reference in
  match changed with
  | UB => UB
  | Err e => Ok (Err e, k)
  | Ok _ =>
      let? w := reset_slots (mc_world k) (cr_waiting c) in
      Ok (Ok tt, mkMachine (set_waiting (set_history c h) (replicate (length (cr_waiting c)) None) 0) w (mc_events k))
  end.

(** ** Ownership of the retained payloads *)

(** Whether a retained packet holds a unit of quota [q]. *)
Definition uses (q : nat) (rt : RetainedRx) : bool :=
  bool_decide (rt_consumer rt = Some q) || bool_decide (rt_global rt = Some q).
Definition units (q : nat) (rts : list RetainedRx) : Z := foldr (fun rt n => b2z (uses q rt) + n) 0 rts.

(** [backs w rts]: the world holds the references and the quota units of [rts]. *)
Record backs (w : World) (rts : list RetainedRx) : Prop := mk_backs {
  bk_leases : forall l, l ∈ concat (rt_leases <$> rts) -> exists s b, l_state l = Some s /\ block_of w (s, l_index l) = Some b /\
    holds (s, l_index l) (concat (rt_leases <$> rts)) <= references b < SIZE_MAX;
  bk_owned : forall rt, rt ∈ rts -> exists c g, rt_consumer rt = Some c /\ rt_global rt = Some g /\
    (c < length (quotas w))%nat /\ (g < length (quotas w))%nat;
  bk_units : forall q st, quotas w !! q = Some st -> quota_ok st /\ units q rts <= q_active st
}.

Lemma holds_Permutation k a b : a ≡ₚ b -> holds k a = holds k b.
Proof. induction 1; rewrite ?holds_cons; lia. Qed.
Lemma units_Permutation q a b : a ≡ₚ b -> units q a = units q b.
Proof. unfold units. induction 1; cbn [foldr]; lia. Qed.
Lemma units_nonneg q rts : 0 <= units q rts.
Proof. unfold units. induction rts as [|rt rts IH]; cbn [foldr]; [done|]. pose proof (b2z_range (uses q rt)). lia. Qed.

Lemma backs_permuted w a b : a ≡ₚ b -> backs w a -> backs w b.
Proof.
  intros Hab [Hl Ho Hu]. assert (Hc : concat (rt_leases <$> a) ≡ₚ concat (rt_leases <$> b)) by (by rewrite Hab). split.
  - intros l Hin. rewrite <- Hc in Hin. destruct (Hl l Hin) as (s & bl & ? & ? & ?). exists s, bl. by rewrite <- (holds_Permutation _ _ _ Hc).
  - intros rt Hin. apply Ho. by rewrite Hab.
  - intros q st Hq. rewrite <- (units_Permutation q _ _ Hab). by apply Hu.
Qed.
#[global] Instance backs_proper : Proper (eq ==> Permutation ==> iff) backs.
Proof. intros w ? <- a b Hab. split; apply backs_permuted; [done|by symmetry]. Qed.

(** Both quotas of a packet change by [n], once if they are the same. *)
Definition quotas_changed (w w' : World) (c g : nat) (n : Z) : Prop :=
  pools w' = pools w /\
  forall q, quotas w' !! q = add_active (n * b2z (bool_decide (c = q) || bool_decide (g = q))) <$> quotas w !! q.

Lemma add_active_0 (o : option QuotaState) : add_active 0 <$> o = o.
Proof. destruct o as [[]|]; [|done]. cbn. unfold add_active. cbn. by rewrite Z.add_0_r. Qed.

Lemma quotas_changed_length w w' c g n : quotas_changed w w' c g n -> length (quotas w') = length (quotas w).
Proof.
  intros [_ H]. pose proof (H (length (quotas w))) as H1. pose proof (H (length (quotas w'))) as H2.
  rewrite (lookup_ge_None_2 (quotas w)) in H1 by lia. rewrite (lookup_ge_None_2 (quotas w')) in H2 by lia.
  symmetry in H2. apply fmap_None in H2. cbn in H1. apply lookup_ge_None in H1, H2. lia.
Qed.

Lemma set_quota_changed w q st n : quotas w !! q = Some st -> quotas_changed w (set_quota w q (add_active n st)) q q n.
Proof.
  intros Hq. split; [done|]. intros q'. cbn. destruct (decide (q = q')) as [<-|Hne].
  - rewrite list_lookup_insert_eq, Hq by (by eapply lookup_lt_Some). rewrite bool_decide_true by done. cbn. by rewrite Z.mul_1_r.
  - rewrite list_lookup_insert_ne, !bool_decide_false by done. cbn. by rewrite Z.mul_0_r, add_active_0.
Qed.

Lemma quotas_changed_pair w w1 w2 c g n : c <> g ->
  quotas_changed w w1 c c n -> quotas_changed w1 w2 g g n -> quotas_changed w w2 c g n.
Proof.
  intros Hne [Hp1 H1] [Hp2 H2]. split; [congruence|]. intros q. rewrite H2, H1.
  destruct (decide (c = q)) as [<-|Hc].
  - rewrite !(bool_decide_true (c = c)), !(bool_decide_false (g = c)) by (done || congruence). cbn. by rewrite Z.mul_0_r, add_active_0.
  - rewrite !(bool_decide_false (c = q)) by done. cbn. rewrite Z.mul_0_r, add_active_0. by rewrite orb_diag.
Qed.

Lemma give_quota_changed w q st : quotas w !! q = Some st -> quota_ok st -> 1 <= q_active st ->
  exists w', give_quota w q = Ok w' /\ quotas_changed w w' q q (-1).
Proof.
  intros Hq [Ha Hl] H1. eexists. split; [|by apply (set_quota_changed w q st)]. unfold give_quota. rewrite Hq. cbn [deref rbind].
  unfold add_active. rewrite wrap64_small by lia. do 3 f_equal.
Qed.

Lemma release_quotas_changed w c g sc sg :
  quotas w !! c = Some sc -> quotas w !! g = Some sg -> quota_ok sc -> quota_ok sg -> 1 <= q_active sc -> 1 <= q_active sg ->
  exists w', release_quotas w (Some c) (Some g) = Ok w' /\ quotas_changed w w' c g (-1).
Proof.
  intros Hc Hg Hoc Hog H1 H2. unfold release_quotas. destruct (give_quota_changed w c sc Hc Hoc H1) as (w1 & -> & Hw1). cbn [rbind].
  case_bool_decide as E; [injection E as ->; by exists w1|].
  assert (Hg1 : quotas w1 !! g = Some sg).
  { destruct Hw1 as [_ Hw1]. rewrite Hw1, bool_decide_false by congruence. cbn [orb b2z]. by rewrite Z.mul_0_r, add_active_0. }
  destruct (give_quota_changed w1 g sg Hg1 Hog H2) as (w2 & -> & Hw2). exists w2. split; [done|].
  apply (quotas_changed_pair w w1); [congruence|done..].
Qed.

Lemma take_quotas_changed w c g :
  (c < length (quotas w))%nat -> (g < length (quotas w))%nat -> Forall quota_ok (quotas w) ->
  exists w' (ok : bool), take_quotas w c g = Ok (w', ok) /\ quotas_changed w w' c g (b2z ok) /\ Forall quota_ok (quotas w').
Proof.
  intros Hc Hg HQ. destruct (take_quotas_spec w c g Hc Hg HQ) as (w' & ok & E & Hp & HQ' & Hok). exists w', ok. split_and!; [done| |done].
  destruct ok; [|split; [done|]; intros q; by rewrite Hok, Z.mul_0_l, add_active_0].
  destruct (lookup_lt_is_Some_2 _ _ Hc) as [sc Ec], (lookup_lt_is_Some_2 _ _ Hg) as [sg Eg].
  pose proof (Forall_lookup_1 _ _ _ _ HQ Ec) as Hoc. pose proof (Forall_lookup_1 _ _ _ _ HQ Eg) as Hog.
  unfold take_quotas in E. destruct (take_quota_spec w c sc Ec Hoc) as (ok & E1 & _). rewrite E1 in E. cbn [rbind] in E.
  destruct ok; [|done]. cbn [negb] in E. destruct (Nat.eqb_spec c g) as [->|Hne].
  - injection E as <-. by apply set_quota_changed.
  - assert (Eg' : quotas (set_quota w c (add_active 1 sc)) !! g = Some sg) by (cbn; by rewrite list_lookup_insert_ne).
    destruct (take_quota_spec _ g sg Eg' Hog) as (ok2 & E2 & _). rewrite E2 in E. cbn [rbind] in E. destruct ok2; [|by inv_ok].
    injection E as <-. eapply quotas_changed_pair; [done|by apply set_quota_changed|by apply set_quota_changed].
Qed.

Lemma uses_pair rt c g q : rt_consumer rt = Some c -> rt_global rt = Some g -> uses q rt = bool_decide (c = q) || bool_decide (g = q).
Proof. intros Hc Hg. unfold uses. rewrite Hc, Hg. f_equal; apply bool_decide_ext; naive_solver. Qed.

(** Dropping one retained packet succeeds and leaves the others backed. *)
Lemma backs_release w rt rts : backs w (rt :: rts) -> exists w', retained_reset w rt = Ok w' /\ backs w' rts.
Proof.
  intros [Hl Ho Hu]. cbn [fmap list_fmap concat] in Hl. unfold retained_reset.
  set (rest := concat (rt_leases <$> rts)) in *.
  destruct (reset_all_spec (rt_leases rt) w) as (w1 & -> & Hq1 & Hb1).
  { intros l Hin. destruct (Hl l) as (s & b & ? & ? & Hr); [apply elem_of_app; by left|]. exists s, b. split_and!; [done..| |lia].
    rewrite holds_app in Hr. pose proof (holds_nonneg (s, l_index l) rest). lia. }
  cbn [rbind]. destruct (Ho rt ltac:(by left)) as (c & g & Ec & Eg & Hc & Hg). rewrite Ec, Eg.
  destruct (lookup_lt_is_Some_2 _ _ Hc) as [sc Hsc], (lookup_lt_is_Some_2 _ _ Hg) as [sg Hsg].
  destruct (Hu c sc Hsc) as [Hoc Hac], (Hu g sg Hsg) as [Hog Hag]. unfold units in Hac, Hag. cbn [foldr] in Hac, Hag. fold (units c rts) in Hac. fold (units g rts) in Hag.
  rewrite (uses_pair rt c g) in Hac, Hag by done. rewrite bool_decide_true in Hac by done.
  rewrite (bool_decide_true (g = g)), orb_true_r in Hag by done. cbn [orb b2z] in Hac, Hag.
  pose proof (units_nonneg c rts). pose proof (units_nonneg g rts).
  rewrite <- Hq1 in Hsc, Hsg. destruct (release_quotas_changed w1 c g sc sg) as (w2 & -> & Hw2); [done..|lia|lia|].
  exists w2. split; [done|]. pose proof (quotas_changed_length _ _ _ _ _ Hw2) as Hlen. destruct Hw2 as [Hp2 Hq2]. split.
  - intros l Hin. destruct (Hl l) as (s & b & Hs & Hb & Hr); [apply elem_of_app; by right|].
    specialize (Hb1 (s, l_index l)). rewrite Hb in Hb1. cbn in Hb1. eexists s, _. split_and!; [done| | |].
    + unfold block_of. rewrite Hp2. exact Hb1.
    + cbn. rewrite holds_app in Hr. fold rest. lia.
    + cbn. pose proof (holds_nonneg (s, l_index l) (rt_leases rt)). lia.
  - intros rt' Hin. destruct (Ho rt' ltac:(by right)) as (c' & g' & ? & ? & ? & ?). exists c', g'. rewrite Hlen, Hq1. done.
  - intros q st Hq. rewrite Hq2, Hq1 in Hq. apply fmap_Some in Hq as (st0 & Hq & ->). destruct (Hu q st0 Hq) as [[Ha Hlim] Hun].
    unfold units in Hun. cbn [foldr] in Hun. fold (units q rts) in Hun. rewrite (uses_pair rt c g) in Hun by done.
    pose proof (units_nonneg q rts). pose proof (b2z_range (bool_decide (c = q) || bool_decide (g = q))).
    split; [split|]; cbn; lia.
Qed.

Lemma holds_pos k ls : 0 < holds k ls -> exists l, l ∈ ls /\ lease_key l = Some k.
Proof.
  induction ls as [|l ls IH]; [by intros H; vm_compute in H|]. rewrite holds_cons. case_bool_decide as E; cbn [b2z].
  - intros _. exists l. split; [by left|done].
  - intros H. destruct IH as (l' & ? & ?); [lia|]. exists l'. split; [by right|done].
Qed.

Lemma lease_key_Some l s i : lease_key l = Some (s, i) -> l_state l = Some s /\ l_index l = i.
Proof. unfold lease_key. destruct (l_state l); [|done]. by intros [= <- <-]. Qed.

Lemma backs_held w rts k b : backs w rts -> block_of w k = Some b -> 0 <= references b ->
  holds k (concat (rt_leases <$> rts)) <= references b.
Proof.
  intros [Hl _ _] Hb Hr. destruct (Z.le_gt_cases (holds k (concat (rt_leases <$> rts))) 0); [lia|].
  destruct (holds_pos k (concat (rt_leases <$> rts))) as (l & Hin & Hk); [lia|]. destruct k as [s i].
  apply lease_key_Some in Hk as [Hs <-]. destruct (Hl l Hin) as (s' & b' & Hs' & Hb' & Hr'). simplify_eq. lia.
Qed.

(** New references: the payload shared from a live envelope is backed besides the others. *)
Lemma backs_share w w2 out rts l :
  backs w rts -> live w (out : list BufferLease) 17 -> zlen out <= 16 ->
  (forall k, block_of w2 k = (fun b => set_references b (references b + holds k out)) <$> block_of w k) ->
  l ∈ out ++ concat (rt_leases <$> rts) ->
  exists s b, l_state l = Some s /\ block_of w2 (s, l_index l) = Some b /\
    holds (s, l_index l) (out ++ concat (rt_leases <$> rts)) <= references b < SIZE_MAX.
Proof.
  intros Hback Hlive Hout Hb2 Hx. pose proof Hback as [Hl _ _].
  assert (Hbound : forall k b, block_of w k = Some b -> 0 <= references b < SIZE_MAX -> references b + holds k out < SIZE_MAX).
  { intros [s i] b Hb Hr. destruct (Z.le_gt_cases (holds (s, i) out) 0); [lia|].
    destruct (holds_pos (s, i) out) as (l' & Hl' & Hk'); [lia|]. apply lease_key_Some in Hk' as [Hs' <-].
    destruct (Hlive l' Hl') as (s'' & b' & Hs'' & Hb' & ? & ?). simplify_eq. pose proof (holds_le (s, l_index l') out). lia. }
  assert (exists s b, l_state l = Some s /\ block_of w (s, l_index l) = Some b /\ 0 <= references b < SIZE_MAX) as (s & b & Hs & Hb & Hr).
  { apply elem_of_app in Hx as [Hx|Hx].
    - destruct (Hlive l Hx) as (s & b & ? & ? & ? & ?). exists s, b. split_and!; (done || lia).
    - destruct (Hl l Hx) as (s & b & ? & ? & ?). exists s, b. pose proof (holds_nonneg (s, l_index l) (concat (rt_leases <$> rts))). split_and!; (done || lia). }
  eexists s, _. rewrite Hb2, Hb. split_and!; [done|done| |]; cbn; rewrite ?holds_app; [|by apply Hbound].
  pose proof (backs_held w rts _ b Hback Hb). lia.
Qed.

(** Retaining an envelope gives a payload that the new world backs besides the others. *)
Lemma backs_retain w rx c g rts :
  rx_wf rx -> live w (rx_leases rx) 17 -> (c < length (quotas w))%nat -> (g < length (quotas w))%nat -> backs w rts ->
  exists r w', rx_retain w rx c g = Ok (r, w') /\ length (quotas w') = length (quotas w) /\
    match r with Ok rt => backs w' (rt :: rts) | Err _ => backs w' rts | UB => False end.
Proof.
  intros Hwf Hlive Hc Hg Hback. pose proof Hback as [Hl Ho Hu]. unfold rx_retain.
  assert (HQ : Forall quota_ok (quotas w)).
  { apply Forall_lookup_2. intros q st Hq. by apply (Hu q). }
  destruct (rx_payload rx) as [|f fs] eqn:Epay; [by exists (Err (error1 ErrorCode.invalid_state)), w|].
  destruct (take_quotas_changed w c g Hc Hg HQ) as (w1 & ok & -> & Hq1 & HQ1). cbn [rbind].
  pose proof (quotas_changed_length _ _ _ _ _ Hq1) as Hlen1. destruct Hq1 as [Hp1 Hq1].
  assert (Hb1 : forall k, block_of w1 k = block_of w k) by (intros k; unfold block_of; by rewrite Hp1).
  destruct ok; cbn [negb].
  - assert (Hlive1 : live w1 (rx_leases rx) 17).
    { intros l Hin. destruct (Hlive l Hin) as (s & b & ? & ? & ?). exists s, b. by rewrite Hb1. }
    destruct Hwf as [Hln Hused Hcnt Hpay _ _]. rewrite Epay in *.
    destruct (retain_loop_spec (rx_leases rx) w1 (f :: fs) w1 (replicate MAX_LEASES MAX_LEASES) [] [])
      as (w2 & out & new & E & [Hq2 Hb2] & _ & Hin & Hlo); try done.
    + eapply refs_changed_trans; [apply refs_changed_refl..|done].
    + intros j m Hj. apply lookup_replicate in Hj as [-> _]. by left.
    + eapply List.Forall_impl; [|exact Hpay]. intros s (l & Hx & _). by eapply lookup_lt_Some.
    + cbn [app] in *. rewrite E. cbn [rbind]. eexists (Ok _), w2. split; [done|]. split; [congruence|].
      split; cbn [fmap list_fmap concat rt_leases].
      * intros l Hx. apply (backs_share w); try done.
        -- intros l' Hl'. by apply Hlive, Hin.
        -- unfold zlen, MAX_FRAGMENTS in *. lia.
        -- intros k. by rewrite Hb2, Hb1.
      * intros rt [->|Hrt]%elem_of_cons; [cbn; exists c, g; rewrite Hq2, Hlen1; done|].
        destruct (Ho rt Hrt) as (c' & g' & ? & ? & ? & ?). exists c', g'. rewrite Hq2, Hlen1. done.
      * intros q st Hq. rewrite Hq2 in Hq. split; [by eapply Forall_lookup_1|]. rewrite Hq1 in Hq. apply fmap_Some in Hq as (st0 & Hq & ->).
        destruct (Hu q st0 Hq) as [_ Hun]. unfold units. cbn [foldr]. fold (units q rts). rewrite (uses_pair _ c g) by done. cbn [q_active add_active b2z]. lia.
  - exists (Err (error1 ErrorCode.capacity_exhausted)), w1. split; [done|]. split; [done|]. split.
    + intros l Hin. destruct (Hl l Hin) as (s & b & ? & ? & ?). exists s, b. by rewrite Hb1.
    + intros rt Hin. rewrite Hlen1. by apply Ho.
    + intros q st. rewrite Hq1. cbn [b2z]. rewrite Z.mul_0_l, add_active_0. apply Hu.
Qed.

(** ** The invariant of a receiver *)

(** Delivered metadata is known and marks the data valid; or the receiver allows unknown
    metadata, and then at most the payload format is known. *)
Definition event_ok (c : ContextReceiver) (e : Event) : Prop :=
  match e with
  | Delivered _ m _ =>
      deliverable m = true \/
      (cr_allow_unknown c = true /\ md_confidence m <> Confidence.known /\
       forall i, i <> 3%nat -> is_known (field_at (md_state m) i) = false)
  | Dropped _ => cr_can_drop c = true
  end.

Abbreviation payloads c := (occupied pd_payload (cr_waiting c)).

Record machine_ok (k : Machine) : Prop := mk_machine_ok {
  mo_history : history_ok (cr_history (mc_receiver k));
  mo_world : backs (mc_world k) (payloads (mc_receiver k));
  mo_count : cr_waiting_count (mc_receiver k) = Z.of_nat (count_if is_some (cr_waiting (mc_receiver k)));
  mo_bound : zlen (cr_waiting (mc_receiver k)) <= U64_MAX;
  mo_arrivals : forall i p, cr_waiting (mc_receiver k) !! i = Some (Some p) -> u64 (ns (pd_arrival p));
  mo_quotas : (cr_local_quota (mc_receiver k) < length (quotas (mc_world k)))%nat /\
              (cr_global_quota (mc_receiver k) < length (quotas (mc_world k)))%nat;
  mo_events : Forall (event_ok (mc_receiver k)) (mc_events k)
}.

(** A callback may take and drop references and quota units of its own, and must leave
    those of the receiver. *)
Definition world_kept (w w' : World) : Prop :=
  length (quotas w') = length (quotas w) /\ forall rts, backs w rts -> backs w' rts.

Hypothesis deliver_keeps : forall w s m t, world_kept w (on_deliver w s m t).
Hypothesis drop_keeps : forall w c, world_kept w (on_drop w c).

(** What [progress] does with a slot, and the calls it makes. *)
Definition settle (h : ReceiverHistory) (now : MonoTime) (slot : option Pending) : option Pending :=
  match slot with
  | Some p => if overdue now p || deliverable (history_resolve h (pd_sample p) now) then None else Some p
  | None => None
  end.
Definition settle_events (c : ContextReceiver) (now : MonoTime) (slot : option Pending) : list Event :=
  match slot with
  | Some p =>
      let m := history_resolve (cr_history c) (pd_sample p) now in
      if overdue now p then (if cr_can_drop c then [Dropped (md_confidence m)] else []) else
      if deliverable m then [Delivered (borrowed_retained (pd_payload p)) m (pd_sample p)] else []
  | None => []
  end.

Lemma retained_reset_quotas w rt w' : retained_reset w rt = Ok w' -> length (quotas w') = length (quotas w).
Proof.
  intros H. unfold retained_reset in H. apply rbind_Ok in H as (w1 & H1 & H2).
  assert (Hgive : forall v v' q, give_quota v q = Ok v' -> length (quotas v') = length (quotas v)).
  { intros v v' q E. unfold give_quota in E. inv_ok. cbn. by rewrite length_insert. }
  assert (Hq1 : quotas w1 = quotas w).
  { clear H2. revert w H1. induction (rt_leases rt) as [|l ls IH]; intros w H1; [by injection H1 as ->|]. cbn [reset_all] in H1.
    apply rbind_Ok in H1 as (w2 & H1 & H2). rewrite (IH _ H2). unfold lease_reset in H1. destruct (l_state l); inv_ok; done. }
  unfold release_quotas in H2. apply rbind_Ok in H2 as (w2 & H2 & H3).
  assert (length (quotas w2) = length (quotas w1)) by (destruct (rt_consumer rt); [by eapply Hgive|by inv_ok]).
  rewrite <- Hq1. destruct (rt_global rt); [|by inv_ok]. case_bool_decide; [by inv_ok|]. apply Hgive in H3. lia.
Qed.

(** Removing the packet of slot [i], after a call of the client that changed the world. *)
Lemma remove_slot k w es i p :
  machine_ok k -> cr_waiting (mc_receiver k) !! i = Some (Some p) -> world_kept (mc_world k) w -> Forall (event_ok (mc_receiver k)) es ->
  exists w', retained_reset w (pd_payload p) = Ok w' /\
    machine_ok (update_slot (mkMachine (mc_receiver k) w' (mc_events k ++ es)) i).
Proof.
  intros [Hh Hw Hc Hb Ha [Hq1 Hq2] He] Hi [Hlen Hkeep] Hes. set (ws := cr_waiting (mc_receiver k)) in *.
  assert (Hlt : (i < length ws)%nat) by (by eapply lookup_lt_Some).
  assert (Hperm : occupied pd_payload ws ≡ₚ pd_payload p :: occupied pd_payload (<[i:=None]> ws)).
  { rewrite <- (occupied_insert_free pd_payload (<[i:=None]> ws) i p) by (by apply list_lookup_insert_eq).
    by rewrite list_insert_insert_eq, list_insert_id. }
  apply Hkeep in Hw. rewrite Hperm in Hw. destruct (backs_release _ _ _ Hw) as (w' & E & Hw').
  exists w'. split; [done|].
  assert (Hlen' : length (quotas w') = length (quotas (mc_world k))).
  { rewrite <- Hlen. by apply (retained_reset_quotas w (pd_payload p)). }
  split; cbn; fold ws; [done|done| | | |by rewrite Hlen'|].
  - rewrite Hc. pose proof (count_if_insert is_some ws i (Some p) None Hi) as Hcount. cbn [is_some] in Hcount.
    assert (count_if is_some ws <= length ws)%nat by (apply List.filter_length_le).
    unfold zlen in Hb. fold (count_if is_some (<[i:=None]> ws)). rewrite wrap64_small; lia.
  - unfold zlen in *. by rewrite length_insert.
  - intros j q Hj. apply list_lookup_insert_Some in Hj as [(_ & ? & _)|[_ Hj]]; [done|by eapply Ha].
  - apply Forall_app. split; [|done]. done.
Qed.

Lemma progress_slot_spec k now i p :
  machine_ok k -> cr_waiting (mc_receiver k) !! i = Some (Some p) ->
  match progress_slot k now p with
  | Some r => settle (cr_history (mc_receiver k)) now (Some p) = None /\
      exists w', r = Ok (mkMachine (mc_receiver k) w' (mc_events k ++ settle_events (mc_receiver k) now (Some p))) /\
        machine_ok (update_slot (mkMachine (mc_receiver k) w' (mc_events k ++ settle_events (mc_receiver k) now (Some p))) i)
  | None => settle (cr_history (mc_receiver k)) now (Some p) = Some p /\ settle_events (mc_receiver k) now (Some p) = []
  end.
Proof.
  intros Hk Hi. unfold progress_slot, settle, settle_events. destruct (overdue now p); cbn [orb].
  - split; [done|]. unfold emit_drop. destruct (cr_can_drop (mc_receiver k)) eqn:Ed; cbn [mc_world mc_receiver mc_events].
    + destruct (remove_slot k (on_drop (mc_world k) (md_confidence (history_resolve (cr_history (mc_receiver k)) (pd_sample p) now)))
        [Dropped (md_confidence (history_resolve (cr_history (mc_receiver k)) (pd_sample p) now))] i p Hk Hi) as (w' & -> & Hok);
        [apply drop_keeps|by apply list.Forall_singleton|]. exists w'. done.
    + destruct (remove_slot k (mc_world k) [] i p Hk Hi) as (w' & -> & Hok); [by split|done|]. exists w'. rewrite app_nil_r in Hok |- *. done.
  - destruct (deliverable _) eqn:Ed; [|done]. split; [done|]. cbn [emit_deliver mc_world mc_receiver mc_events].
    edestruct (remove_slot k) as (w' & -> & Hok); [done|done|apply deliver_keeps| |exists w'; done].
    apply list.Forall_singleton. by left.
Qed.

Lemma progress_loop_spec now ws : forall pre k,
  cr_waiting (mc_receiver k) = pre ++ ws -> machine_ok k ->
  exists k', progress_loop k now (length pre) (length ws) = Ok k' /\ machine_ok k' /\
    (exists n, mc_receiver k' = set_waiting (mc_receiver k) (pre ++ (settle (cr_history (mc_receiver k)) now <$> ws)) n) /\
    mc_events k' = mc_events k ++ concat (settle_events (mc_receiver k) now <$> ws).
Proof.
  induction ws as [|slot ws IH]; intros pre k Hws Hk; cbn [length progress_loop].
  - exists k. split_and!; [done|done| |by rewrite app_nil_r]. exists (cr_waiting_count (mc_receiver k)).
    rewrite app_nil_r in Hws |- *. rewrite <- Hws. by destruct (mc_receiver k).
  - assert (Hi : cr_waiting (mc_receiver k) !! length pre = Some slot) by (rewrite Hws; by apply list_lookup_middle).
    rewrite Hi. cbn [deref rbind].
    assert (Hskip : settle (cr_history (mc_receiver k)) now slot = slot -> settle_events (mc_receiver k) now slot = [] ->
      exists k', progress_loop k now (S (length pre)) (length ws) = Ok k' /\ machine_ok k' /\
        (exists n, mc_receiver k' = set_waiting (mc_receiver k) (pre ++ (settle (cr_history (mc_receiver k)) now <$> slot :: ws)) n) /\
        mc_events k' = mc_events k ++ concat (settle_events (mc_receiver k) now <$> slot :: ws)).
    { intros E1 E2. destruct (IH (pre ++ [slot]) k) as (k' & E & Hok & [n Hn] & He); [by rewrite <- app_assoc|done|].
      rewrite length_app, Nat.add_comm in E. exists k'. rewrite !fmap_cons. cbn [concat]. rewrite E1, E2. split_and!; [done|done| |done].
      exists n. by rewrite <- app_assoc in Hn. }
    destruct slot as [p|]; [|by apply Hskip].
    pose proof (progress_slot_spec k now _ p Hk Hi) as Hp. destruct (progress_slot k now p) as [r|]; [|destruct Hp; by apply Hskip].
    destruct Hp as (Es & w' & -> & Hok). cbn [rbind].
    set (k1 := update_slot _ (length pre)) in *.
    assert (Hws1 : cr_waiting (mc_receiver k1) = (pre ++ [None]) ++ ws).
    { cbn. rewrite Hws, insert_app_r_alt, Nat.sub_diag by lia. by rewrite <- app_assoc. }
    destruct (IH (pre ++ [None]) k1 Hws1 Hok) as (k' & E & Hok' & [n Hn] & He).
    rewrite length_app, Nat.add_comm in E. exists k'. rewrite !fmap_cons. cbn [concat]. rewrite Es. split_and!; [done|done| |].
    + exists n. rewrite Hn. cbn. by rewrite <- app_assoc.
    + rewrite He. cbn. by rewrite <- app_assoc.
Qed.

(** ** Decoded packets *)

(** What the receiver needs of a packet that claims to be context. *)
Record receivable (packet : PacketView) : Prop := mk_receivable {
  rv_views : Forall view_ok (pv_fields packet);
  rv_time : let ts := timestamp (ev_envelope (pv_envelope packet)) in time_typed (mkTime (ts_integer ts) (ts_fractional ts));
  rv_stream : env_type (ev_envelope (pv_envelope packet)) = PacketType.context ->
              is_some (stream_id (ev_envelope (pv_envelope packet))) = true
}.

(** Every packet the decoder accepts is receivable. *)
Lemma decoded_receivable wire options pv : decode_packet wire options = Ok pv -> receivable pv.
Proof.
  intros H. destruct (proj2 (decode_packet_ok wire options) pv H) as [Hv _]. apply decode_packet_envelope in H.
  destruct (decode_envelope_inv _ _ H) as (_ & T & _ & _ & _ & _ & (m & Hm) & _). split; [done| |].
  - destruct T as (_ & _ & _ & _ & (_ & _ & Ti & Tf) & _). cbv zeta. split; cbn; [unfold_words; lia|done].
  - intros E. apply measure_measured in Hm as []; [|unfold zlen; lia]. rewrite <- m_sid. by rewrite E.
Qed.

Lemma check_active_fields_safe s n : forall i, state_shaped s -> (i + n <= 8)%nat -> safe (check_active_fields s i n).
Proof.
  induction n as [|n IH]; intros i Hs Hn; [done|]. cbn [check_active_fields]. apply rbind_safe; [|intros _ _; apply IH; [done|lia]].
  unfold check_active_field. rewrite (field_at_shaped s i Hs) by lia. cbn [deref rbind].
  destruct (lookup_lt_is_Some_2 state_fields i) as [id ->]; [rewrite state_fields_length; unfold state_field_capacity; lia|]. cbn [deref rbind].
  test_goal E; [done|]. case_match; [apply validate_value_safe|done].
Qed.

Lemma history_insert_safe h s t arrival full events : state_shaped s -> safe (history_insert h s t arrival full events).1.
Proof.
  intros Hs. unfold history_insert. assert (Ha : safe (admit_state h s t events)).
  { unfold admit_state. apply rbind_safe; [apply (snapshot_decided s Hs)|intros _ _]. test_goal E1; [done|]. test_goal E2; [done|].
    apply rbind_safe; [apply check_active_fields_safe; [done|apply active_bound]|intros _ _].
    unfold split_events. rewrite (field_at_shaped s 2 Hs) by lia. cbn [deref rbind]. repeat case_match; done. }
  destruct (admit_state h s t events) as [[s' events']| |]; [|done..]. unfold place_entry. repeat case_match; done.
Qed.

Lemma collect_fields_safe profile views : forall s, Forall view_ok views -> safe (collect_fields profile views s).
Proof.
  induction views as [|v views IH]; intros s Hv; [done|]. apply list.Forall_cons in Hv as [H Hv]. cbn [collect_fields].
  test_goal E; [done|]. apply rbind_safe; [by apply view_accessors_safe|]. intros value _. by apply IH.
Qed.

Lemma history_receive_safe h packet generation arrival full :
  receivable packet -> safe (history_receive h packet generation arrival full).1.
Proof.
  intros [Hv _ Hsid]. unfold history_receive. assert (Hp : safe (packet_state h packet generation)).
  { unfold packet_state. test_goal E1; [done|]. test_goal E2; [done|]. rewrite !orb_false_iff in E2.
    destruct E2 as [[[[[E2%negb_false_iff%Z.eqb_eq _] _] _] _] _].
    apply rbind_safe; [by apply collect_fields_safe|]. intros s _. apply rbind_safe.
    - case_match; [|done]. unfold complete_sdr. test_goal E3; [done|]. test_goal E4; [done|].
      specialize (Hsid E2). by destruct (stream_id _).
    - intros s' _. repeat case_match; done. }
  destruct (packet_state h packet generation) as [s| |] eqn:E; [|done..]. apply history_insert_safe. by eapply packet_state_shaped.
Qed.

(** ** Every operation keeps the invariant *)

(** The operations, and what the caller owes. *)
Inductive ReceiverOp :=
  | op_data (envelope : RxEnvelope) (sample : ProtocolTime) (generation : Z) (now : MonoTime)
  | op_context (packet : PacketView) (generation : Z) (now : MonoTime) (full : bool)
  | op_progress (now : MonoTime)
  | op_detach (generation epoch : Z) (reference : option Z).

Definition run_receiver (k : Machine) (op : ReceiverOp) : Result (Result unit * Machine) :=
  match op with
  | op_data envelope sample generation now => receive_data k envelope sample generation now
  | op_context packet generation now full => receive_context k packet generation now full
  | op_progress now => let? k := receiver_progress k now in Ok (Ok tt, k)
  | op_detach generation epoch reference => receiver_detach k generation epoch reference
  end.

Definition op_ok (k : Machine) (op : ReceiverOp) : Prop :=
  match op with
  | op_data envelope _ _ now => rx_wf envelope /\ live (mc_world k) (rx_leases envelope) 17 /\ u64 (ns now)
  | op_context packet _ now _ => receivable packet /\ u64 (ns now)
  | op_progress now => u64 (ns now)
  | op_detach _ _ _ => True
  end.

Lemma machine_set_history k h : machine_ok k -> history_ok h ->
  machine_ok (mkMachine (set_history (mc_receiver k) h) (mc_world k) (mc_events k)).
Proof. intros [] Hh. split; try done. Qed.

Lemma machine_emit k w e : machine_ok k -> world_kept (mc_world k) w -> event_ok (mc_receiver k) e ->
  machine_ok (mkMachine (mc_receiver k) w (mc_events k ++ [e])).
Proof.
  intros [] [Hl Hk] He. split; cbn; try done; [by apply Hk|by rewrite Hl|]. apply Forall_app. split; [done|by apply list.Forall_singleton].
Qed.

Lemma receiver_progress_spec k now : machine_ok k ->
  exists k', receiver_progress k now = Ok k' /\ machine_ok k' /\
    cr_waiting (mc_receiver k') = settle (cr_history (mc_receiver k)) now <$> cr_waiting (mc_receiver k) /\
    mc_events k' = mc_events k ++ concat (settle_events (mc_receiver k) now <$> cr_waiting (mc_receiver k)).
Proof.
  intros Hk. destruct (progress_loop_spec now (cr_waiting (mc_receiver k)) [] k eq_refl Hk) as (k1 & E & Hk1 & [n Hn] & He).
  unfold receiver_progress. cbn [length] in E. rewrite E. cbn [rbind]. eexists. split; [done|]. split_and!; [|by cbn; rewrite Hn|done].
  apply machine_set_history; [done|]. eapply history_step_ok; [apply step_expire|apply Hk1].
Qed.

Lemma forget_known_ok m format i : i <> 3%nat -> is_known (field_at (md_state (forget_known m format)) i) = false.
Proof.
  intros Hi. unfold field_at. cbn. rewrite nth_lookup, list_lookup_insert_ne, list_lookup_fmap by done.
  destruct (st_fields (md_state m) !! i) as [f|]; [|done]. cbn. unfold forget_field. destruct (is_known f) eqn:E; done.
Qed.

Lemma receive_data_ok k envelope sample generation now :
  machine_ok k -> rx_wf envelope -> live (mc_world k) (rx_leases envelope) 17 -> u64 (ns now) ->
  exists r k', receive_data k envelope sample generation now = Ok (r, k') /\ safe r /\ machine_ok k'.
Proof.
  intros Hk Hwf Hlive Hnow. unfold receive_data. pose proof Hk as [Hh Hw Hc Hb Ha [Hq1 Hq2] He].
  test_goal E1; [by eexists _, k|]. test_goal E2; [by eexists _, k|].
  set (m := history_resolve _ _ _). destruct (deliverable m) eqn:Ed.
  { eexists _, _. split; [done|]. split; [done|]. apply machine_emit; [done|apply deliver_keeps|by left]. }
  test_goal E3.
  { apply andb_true_iff in E3 as [Eu Ek]. apply negb_true_iff, bool_decide_eq_false in Ek. rewrite Eu in E2. cbn [andb] in E2.
    rewrite !orb_false_iff in E2. destruct E2 as [_ E2]. destruct (cr_fixed_format (mc_receiver k)) as [format|]; [|done]. cbn [deref rbind].
    eexists _, _. split; [done|]. split; [done|]. apply machine_emit; [done|apply deliver_keeps|]. right. split_and!; [done|done|].
    intros i Hi. by apply forget_known_ok. }
  destruct (backs_retain (mc_world k) envelope (cr_local_quota (mc_receiver k)) (cr_global_quota (mc_receiver k)) (payloads (mc_receiver k)) Hwf Hlive Hq1 Hq2 Hw)
    as (r & w' & -> & Hlen & Hr). cbn [rbind]. destruct r as [rt|e|]; [|eexists _, _; split; [done|]; split; [done|]; split; cbn; try done; by rewrite Hlen|done].
  destruct (first_free (cr_waiting (mc_receiver k))) as [i|] eqn:Ef.
  - pose proof (first_free_Some _ _ Ef) as Hi. eexists _, _. split; [done|]. split; [done|].
    pose proof (count_if_insert is_some (cr_waiting (mc_receiver k)) i None (Some (mkPending rt sample now)) Hi) as Hcount. cbn [is_some] in Hcount.
    assert (count_if is_some (<[i:=Some (mkPending rt sample now)]> (cr_waiting (mc_receiver k))) <= length (cr_waiting (mc_receiver k)))%nat
      by (etransitivity; [apply List.filter_length_le|by rewrite length_insert]).
    split; cbn [mc_receiver mc_world mc_events set_waiting cr_history cr_waiting cr_waiting_count cr_local_quota cr_global_quota]; [done| | | | |by rewrite Hlen|done].
    + rewrite (occupied_insert_free pd_payload) by done. exact Hr.
    + unfold zlen in Hb. rewrite Hc, wrap64_small; lia.
    + unfold zlen in *. by rewrite length_insert.
    + intros j p Hj. apply list_lookup_insert_Some in Hj as [(_ & [= <-] & _)|[_ Hj]]; [done|by eapply Ha].
  - set (k1 := emit_drop _ _).
    assert (Hk1 : world_kept w' (mc_world k1) /\ Forall (event_ok (mc_receiver k)) (mc_events k1)).
    { unfold k1, emit_drop. cbn. destruct (cr_can_drop (mc_receiver k)) eqn:Ecd; cbn; [|done]. split; [apply drop_keeps|].
      apply Forall_app. split; [done|]. by apply list.Forall_singleton. }
    destruct Hk1 as [[Hlen1 Hkeep] Hev]. destruct (backs_release _ _ _ (Hkeep _ Hr)) as (w2 & E & Hw2). rewrite E. cbn [rbind].
    eexists _, _. split; [done|]. split; [done|]. apply retained_reset_quotas in E. split; cbn; try done. by rewrite E, Hlen1, Hlen.
Qed.

Lemma reset_slots_total ws : forall w, backs w (occupied pd_payload ws) ->
  exists w', reset_slots w ws = Ok w' /\ backs w' [] /\ length (quotas w') = length (quotas w).
Proof.
  induction ws as [|[p|] ws IH]; intros w Hw; [by exists w| |by apply IH]. cbn [reset_slots].
  destruct (backs_release w (pd_payload p) (occupied pd_payload ws) Hw) as (w1 & E & Hw1). rewrite E. cbn [rbind].
  destruct (IH w1 Hw1) as (w' & ? & ? & Hl). exists w'. apply retained_reset_quotas in E. split_and!; [done|done|lia].
Qed.

Lemma history_receive_ok h packet generation arrival full : history_ok h -> receivable packet -> u64 (ns arrival) ->
  history_ok (history_receive h packet generation arrival full).2.
Proof. intros Hh [_ Ht _] Ha. eapply history_step_ok; [by apply step_receive|done]. Qed.

(** Every operation of the receiver returns, keeps the ordered history, its accounting and
    the references and quota units of the packets that wait, and delivers data only with
    known and valid metadata, or with nothing known but the format where that is allowed. *)
Theorem receiver_preserved k op :
  machine_ok k -> op_ok k op -> exists r k', run_receiver k op = Ok (r, k') /\ safe r /\ machine_ok k'.
Proof.
  intros Hk Hop. destruct op as [envelope sample generation now|packet generation now full|now|generation epoch reference]; cbn in Hop |- *.
  - destruct Hop as (? & ? & ?). by apply receive_data_ok.
  - destruct Hop as [Hp Hn]. unfold receive_context.
    pose proof (history_receive_safe (cr_history (mc_receiver k)) packet generation now full Hp) as Hsafe.
    pose proof (history_receive_ok (cr_history (mc_receiver k)) packet generation now full (mo_history k Hk) Hp Hn) as Hh.
    destruct (history_receive _ _ _ _ _) as [r h]. cbn [fst snd] in *. pose proof (machine_set_history k h Hk Hh) as Hk1.
    destruct r as [[]|e|]; [|by eexists _, _|done].
    destruct (receiver_progress_spec _ now Hk1) as (k' & -> & Hk' & _). by eexists _, k'.
  - destruct (receiver_progress_spec k now Hk) as (k' & -> & Hk' & _). by eexists _, k'.
  - unfold receiver_detach, history_detach. destruct (generation <=? rh_generation _); [by eexists _, k|].
    pose proof Hk as [Hh Hw Hc Hb Ha [Hq1 Hq2] He]. destruct (reset_slots_total _ _ Hw) as (w & -> & Hw0 & Hl). cbn [rbind].
    eexists _, _. split; [done|]. split; [done|].
    split; cbn [mc_receiver mc_world mc_events set_waiting set_history cr_history cr_waiting cr_waiting_count cr_local_quota cr_global_quota].
    + apply (history_step_ok (cr_history (mc_receiver k)) _ ltac:(apply (step_detach _ generation epoch reference))) in Hh.
      destruct Hh as [? Hbd ?]. split; cbn; [constructor|lia|done].
    + by rewrite occupied_empty.
    + by rewrite count_if_replicate_none.
    + unfold zlen in *. by rewrite length_replicate.
    + intros i p Hi. by apply replicate_none in Hi.
    + by rewrite Hl.
    + done.
Qed.

Lemma overdue_false now p : u64 (ns now) -> u64 (ns (pd_arrival p)) ->
  overdue now p = false -> ns now < ns (pd_arrival p) + wait_limit.
Proof.
  intros Hn Ha. unfold overdue. rewrite andb_false_iff, Z.leb_gt, Z.leb_gt. unfold wait_limit. intros [H|H]; [lia|].
  destruct (Z.le_gt_cases (ns (pd_arrival p)) (ns now)); [|lia]. rewrite wrap64_small in H by (unfold_words; lia). lia.
Qed.

(** C36. [progress] always ends, and settles every waiting packet on its own: one that is due is
    dropped, one whose metadata has become known is delivered, each with exactly one call;
    the others stay.  So no packet waits ten milliseconds across a call of [progress]. *)
Theorem progress_bounded_wait k now :
  machine_ok k -> u64 (ns now) ->
  exists k', receiver_progress k now = Ok k' /\
    cr_waiting (mc_receiver k') = settle (cr_history (mc_receiver k)) now <$> cr_waiting (mc_receiver k) /\
    mc_events k' = mc_events k ++ concat (settle_events (mc_receiver k) now <$> cr_waiting (mc_receiver k)) /\
    (forall i p, cr_waiting (mc_receiver k') !! i = Some (Some p) -> ns now < ns (pd_arrival p) + wait_limit).
Proof.
  intros Hk Hn. destruct (receiver_progress_spec k now Hk) as (k' & E & _ & Hw & He). exists k'. split_and!; [done..|].
  intros i p Hi. rewrite Hw, list_lookup_fmap in Hi. apply fmap_Some in Hi as ([q|] & Hi & Es); [|done]. cbn in Es.
  destruct (overdue now q) eqn:Eo; [done|]. cbn [orb] in Es. case_match; [done|]. injection Es as ->.
  apply overdue_false; [done| |done]. by eapply (mo_arrivals k Hk).
Qed.
End receiver.

(** ** Witnesses *)

Definition keep_world (w : World) (_ : SignalSource) (_ : MetadataSnapshot) (_ : ProtocolTime) : World := w.
Definition keep_world_drop (w : World) (_ : Confidence.t) : World := w.
Lemma keep_world_kept w s m t : world_kept w (keep_world w s m t).
Proof. by split. Qed.
Lemma keep_world_drop_kept w c : world_kept w (keep_world_drop w c).
Proof. by split. Qed.

(** A receiver of two waiting slots without any context yet. *)
Definition idle_machine : Machine :=
  mkMachine (mkReceiver (history_new 4 1 Tsi.none None Profile.generator_v1) true true [None; None] 0 0 1 false None)
    sample_world [].

Lemma idle_machine_ok : machine_ok idle_machine.
Proof.
  split; cbn; [apply history_new_ok| |done|unfold zlen; cbn; unfold_words; lia| |lia|done].
  - split; cbn.
    + intros l Hl. by apply elem_of_nil in Hl.
    + intros rt Hl. by apply elem_of_nil in Hl.
    + intros [|[|q]] st Hq; cbn in Hq; simplify_eq; (split; [split; cbn; unfold_words; lia|cbn; lia]) || done.
  - intros [|[|i]] p Hi; done.
Qed.

Lemma receiver_preserved_witness :
  exists r k', run_receiver keep_world keep_world_drop idle_machine (op_data sample_rx (mkTime 7 0) 1 (mkMono 100)) = Ok (r, k') /\
    safe r /\ machine_ok k'.
Proof.
  apply (receiver_preserved keep_world keep_world_drop keep_world_kept keep_world_drop_kept idle_machine _ idle_machine_ok).
  cbn. split; [apply sample_rx_wf|]. split; [apply sample_rx_live|vm_compute; split; congruence].
Defined.

(** The same receiver with one packet waiting since instant 100. *)
Definition waiting_machine : Machine :=
  match receive_data keep_world keep_world_drop idle_machine sample_rx (mkTime 7 0) 1 (mkMono 100) with
  | Ok (_, k) => k
  | _ => idle_machine
  end.
Lemma waiting_machine_ok : machine_ok waiting_machine.
Proof.
  unfold waiting_machine.
  destruct (receive_data_ok keep_world keep_world_drop keep_world_kept keep_world_drop_kept idle_machine sample_rx (mkTime 7 0) 1 (mkMono 100))
    as (r & k & -> & _ & Hk); [apply idle_machine_ok|apply sample_rx_wf|apply sample_rx_live|vm_compute; split; congruence|done].
Qed.

Lemma progress_bounded_wait_witness :
  exists k', receiver_progress keep_world keep_world_drop waiting_machine (mkMono 10000100) = Ok k' /\
    is_some <$> cr_waiting (mc_receiver k') = [false; false] /\ mc_events k' = [Dropped Confidence.missing].
Proof.
  destruct (progress_bounded_wait keep_world keep_world_drop keep_world_kept keep_world_drop_kept waiting_machine (mkMono 10000100))
    as (k' & E & Hw & He & _); [apply waiting_machine_ok|vm_compute; split; congruence|].
  exists k'. split; [exact E|]. rewrite Hw, He. split; vm_compute; reflexivity.
Defined.
