(* ===== verification/Revisions.v ===== *)
(** * Revisions of the controlled state: [include/vita/runtime/context/revisions.hpp]

    A [RevisionStore] keeps the states a device has gone through until they are published
    as context and no data packet refers to them any more.  A slot is reserved when a
    command is admitted and committed when its effect is recorded, so that recording cannot
    fail for lack of room.

    A [Revision*] is the index of its slot; a [RevisionHandle] is the store it belongs to
    with that index, and counts as a reference of the slot from [retain_handle] to
    [release_handle].  A handle that an operation creates and destroys before it returns
    leaves the count as it was, and the operations below return the bare index for it.  The
    admission pool from which the credits of the slots come is part of the state. *)

From stdpp Require Import relations.
From S2P Require Import Prelude Wire Fields Time Scheduling State Admission History.

Module Publication.
Inductive t := pending | accepted | failed.
#[global] Instance t_eq_dec : EqDecision t.
Proof. solve_decision. Defined.
End Publication.

Definition outcome_default : FieldOutcome :=
  mkOutcome (mkField 0 0) FieldStatus.pending (v_uint32 0) Validity.absent (mkTime 0 0) 0 0 false false false no_diagnostics.
Definition event_default : EffectiveEvent := mkEvent state_default (mkTime 0 0) 0 0 0 0 false false outcome_default None.

Record Revision := mkRevision {
  rv_event : EffectiveEvent; rv_credits : AdmissionBundle; rv_id : Z; rv_reservation : Z; rv_references : Z;
  rv_publication : Publication.t; rv_occupied : bool; rv_committed : bool; rv_detached : bool; rv_data_dependency : bool }.
Definition revision_default : Revision :=
  mkRevision event_default bundle_empty 0 0 0 Publication.pending false false false false.

Record RevisionStore := mkStore {
  ss_owner : nat; ss_slots : list Revision; ss_generation : Z; ss_next_id : Z; ss_next_reservation : Z;
  ss_current : option nat; ss_faulted : bool; ss_pool : AdmissionState }.

Definition store_new (owner capacity : nat) (generation : Z) (pool : AdmissionState) : RevisionStore :=
  mkStore owner (replicate capacity revision_default) generation 1 1 None false pool.

Definition set_slots (s : RevisionStore) (l : list Revision) : RevisionStore :=
  mkStore (ss_owner s) l (ss_generation s) (ss_next_id s) (ss_next_reservation s) (ss_current s) (ss_faulted s) (ss_pool s).
Definition set_pool_state (s : RevisionStore) (p : AdmissionState) : RevisionStore :=
  mkStore (ss_owner s) (ss_slots s) (ss_generation s) (ss_next_id s) (ss_next_reservation s) (ss_current s) (ss_faulted s) p.
Definition store_fault (s : RevisionStore) : RevisionStore :=
  mkStore (ss_owner s) (ss_slots s) (ss_generation s) (ss_next_id s) (ss_next_reservation s) (ss_current s) true (ss_pool s).
Definition store_occupied (s : RevisionStore) : nat := count_if rv_occupied (ss_slots s).

Definition set_occupied (r : Revision) (b : bool) : Revision :=
  mkRevision (rv_event r) (rv_credits r) (rv_id r) (rv_reservation r) (rv_references r) (rv_publication r)
    b (rv_committed r) (rv_detached r) (rv_data_dependency r).
Definition set_publication (r : Revision) (p : Publication.t) : Revision :=
  mkRevision (rv_event r) (rv_credits r) (rv_id r) (rv_reservation r) (rv_references r) p
    (rv_occupied r) (rv_committed r) (rv_detached r) (rv_data_dependency r).
Definition set_detached (r : Revision) : Revision :=
  mkRevision (rv_event r) (rv_credits r) (rv_id r) (rv_reservation r) (rv_references r) (rv_publication r)
    (rv_occupied r) (rv_committed r) true (rv_data_dependency r).
Definition set_dependency (r : Revision) : Revision :=
  mkRevision (rv_event r) (rv_credits r) (rv_id r) (rv_reservation r) (rv_references r) (rv_publication r)
    (rv_occupied r) (rv_committed r) (rv_detached r) true.
Definition add_references (r : Revision) (n : Z) : Revision :=
  mkRevision (rv_event r) (rv_credits r) (rv_id r) (rv_reservation r) (wrap64 (rv_references r + n)) (rv_publication r)
    (rv_occupied r) (rv_committed r) (rv_detached r) (rv_data_dependency r).

(** ** Collection *)

Definition is_pending (r : Revision) : bool := bool_decide (rv_publication r = Publication.pending).

Definition collectable (current : option nat) (i : nat) (r : Revision) : bool :=
  rv_occupied r && rv_committed r && negb (bool_decide (current = Some i)) &&
  (rv_detached r || negb (is_pending r)) && (rv_references r =? 0).

Fixpoint collect_loop (current : option nat) (i : nat) (l : list Revision) (pool : AdmissionState) : list Revision * AdmissionState :=
  match l with
  | [] => ([], pool)
  | r :: l =>
      if collectable current i r then
        let '(b, pool) := bundle_reset pool (rv_credits r) in
        let '(l, pool) := collect_loop current (S i) l pool in
        (mkRevision (rv_event r) b (rv_id r) (rv_reservation r) (rv_references r) (rv_publication r)
           false false (rv_detached r) (rv_data_dependency r) :: l, pool)
      else let '(l, pool) := collect_loop current (S i) l pool in (r :: l, pool)
  end.

Definition store_collect (s : RevisionStore) : RevisionStore :=
  let '(l, pool) := collect_loop (ss_current s) 0 (ss_slots s) (ss_pool s) in
  set_pool_state (set_slots s l) pool.

(** ** Reservations *)

Definition is_reserved (r : Revision) : bool := rv_occupied r && negb (rv_committed r).
Definition reserved_for (token : Z) (r : Revision) : bool := is_reserved r && (rv_reservation r =? token).

(** [unused]: the release of a reservation frees the slots it did not use. *)
Definition release_reservation (s : RevisionStore) (token : Z) : RevisionStore :=
  set_slots s ((fun r => if reserved_for token r then set_occupied r false else r) <$> ss_slots s).

(** Takes the first [count] free slots. *)
Fixpoint reserve_slots (token : Z) (count : nat) (l : list Revision) : list Revision :=
  match l with
  | [] => []
  | r :: l =>
      match count with
      | S n =>
          if rv_occupied r then r :: reserve_slots token count l
          else mkRevision (rv_event r) (rv_credits r) (rv_id r) token (rv_references r) Publication.pending true false false false ::
               reserve_slots token n l
      | O => r :: l
      end
  end.

Definition store_reserve (s : RevisionStore) (count : nat) : Result Z * RevisionStore :=
  if (count =? 0)%nat || (length (ss_slots s) <? count)%nat then (Err (error1 ErrorCode.invalid_argument), s) else
  let s := store_collect s in
  let free := count_if (fun r => negb (rv_occupied r)) (ss_slots s) in
  let reserved := count_if is_reserved (ss_slots s) in
  if (free <? count)%nat then (Err (error1 ErrorCode.capacity_exhausted), s) else
  if (ss_next_reservation s =? U64_MAX) || (wrap64 (U64_MAX - Z.of_nat count - Z.of_nat reserved) <? ss_next_id s)
  then (Err (error1 ErrorCode.overflow), s) else
  let token := ss_next_reservation s in
  (Ok token,
   mkStore (ss_owner s) (reserve_slots token count (ss_slots s)) (ss_generation s) (ss_next_id s) (wrap64 (token + 1))
     (ss_current s) (ss_faulted s) (ss_pool s)).

(** The credits are destroyed. *)
Definition drop_credits (s : RevisionStore) (credits : AdmissionBundle) : RevisionStore :=
  set_pool_state s (bundle_reset (ss_pool s) credits).2.

Definition store_record (s : RevisionStore) (event : EffectiveEvent) (token : Z) (credits : AdmissionBundle) : RevisionStore :=
  if negb (ev_association_generation event =? ss_generation s) then drop_credits s credits else
  match first_index (reserved_for token) (ss_slots s) with
  | Some i =>
      match ss_slots s !! i with
      | Some r =>
          let s := drop_credits s (rv_credits r) in
          mkStore (ss_owner s)
            (<[i := mkRevision event credits (ss_next_id s) (rv_reservation r) (rv_references r) Publication.pending
                      (rv_occupied r) true (rv_detached r) (rv_data_dependency r)]> (ss_slots s))
            (ss_generation s) (wrap64 (ss_next_id s + 1)) (ss_next_reservation s) (Some i)
            (ss_faulted s || negb (required_known (ev_state event))) (ss_pool s)
      | None => s
      end
  | None => store_fault (drop_credits s credits)
  end.

(** ** Handles *)

Record RevisionHandle := mkHandle { rh_owner : nat; rh_slot : nat }.

Definition retain_handle (s : RevisionStore) (i : nat) : RevisionStore :=
  set_slots s (alter (fun r => add_references r 1) i (ss_slots s)).
Definition release_handle (s : RevisionStore) (i : nat) : RevisionStore :=
  set_slots s (alter (fun r => add_references r (-1)) i (ss_slots s)).

Definition store_owns (s : RevisionStore) (h : RevisionHandle) : bool := (rh_owner h =? ss_owner s)%nat.

Definition store_current (s : RevisionStore) : Result nat :=
  match ss_current s with Some i => Ok i | None => Err (error1 ErrorCode.invalid_state) end.

(** The checks of [initial]. *)
Definition check_initial (s : RevisionStore) (event : EffectiveEvent) : Result unit :=
  let? _ := validate_snapshot (ev_state event) in
  let? _ := check_active_fields (ev_state event) 0 (active_state_fields (st_profile (ev_state event))) in
  fail_if is_some (ss_current s) || negb (ev_association_generation event =? ss_generation s) || negb (required_known (ev_state event))
    with error1 ErrorCode.invalid_state ;;
  Ok tt.

Definition store_initial (s : RevisionStore) (event : EffectiveEvent) (credits : AdmissionBundle) : Result nat * RevisionStore :=
  match check_initial s event with
  | Ok _ =>
      match store_reserve s 1 with
      | (Ok token, s) =>
          let s := store_record s event token credits in
          (store_current s, release_reservation s token)
      | (Err e, s) => (Err e, drop_credits s credits)
      | (UB, s) => (UB, s)
      end
  | Err e => (Err e, drop_credits s credits)
  | UB => (UB, s)
  end.

(** ** Publication *)

Definition publishable (r : Revision) : bool := rv_committed r && negb (rv_detached r) && is_pending r.

(** Whether [r] goes out before [next]: known times in order, then unknown ones latest first. *)
Definition publishes_before (r next : Revision) : bool :=
  if negb (eqb (ev_time_known (rv_event r)) (ev_time_known (rv_event next))) then ev_time_known (rv_event r) else
  if ev_time_known (rv_event r) then time_ltb (context_time (rv_event r)) (context_time (rv_event next))
  else rv_id next <? rv_id r.

Fixpoint next_loop (l : list Revision) (i : nat) (next : option (nat * Revision)) : option (nat * Revision) :=
  match l with
  | [] => next
  | r :: l =>
      next_loop l (S i)
        (if publishable r && match next with None => true | Some (_, n) => publishes_before r n end then Some (i, r) else next)
  end.

Definition next_publication (s : RevisionStore) : Result (nat * Revision) :=
  match next_loop (ss_slots s) 0 None with
  | Some n => Ok n
  | None => Err (error1 ErrorCode.invalid_state)
  end.

(** Data depends on the revision, or it reports lost samples ([1u<<12]). *)
Definition depended_on (r : Revision) : bool :=
  rv_data_dependency r ||
  match if_uint32 (fs_value (field_at (ev_state (rv_event r)) 2)) with
  | Some indicators => bit_set indicators 12
  | None => false
  end.

Definition same_instant (a b : Revision) : bool :=
  ev_time_known (rv_event a) && ev_time_known (rv_event b) &&
  bool_decide (context_time (rv_event a) = context_time (rv_event b)).

(** The last revision of the instant of [final]. *)
Fixpoint final_loop (l : list Revision) (i : nat) (final : nat * Revision) : Result (nat * Revision) :=
  match l with
  | [] => Ok final
  | r :: l =>
      if publishable r && same_instant r final.2 then
        fail_if negb (ev_sample_ordinal (rv_event r) =? ev_sample_ordinal (rv_event final.2)) ||
            negb (eqb (ev_ordinal_known (rv_event r)) (ev_ordinal_known (rv_event final.2)))
          with error1 ErrorCode.identity_conflict ;;
        final_loop l (S i) (if rv_id final.2 <? rv_id r then (i, r) else final)
      else final_loop l (S i) final
  end.

Definition publication_group (s : RevisionStore) : Result (nat * Revision) :=
  let? first := next_publication s in
  if negb (ev_time_known (rv_event first.2)) then
    fail_if existsb (fun r => publishable r && negb (ev_time_known (rv_event r)) && depended_on r) (ss_slots s)
      with error1 ErrorCode.identity_conflict ;;
    Ok first
  else
    let? final := final_loop (ss_slots s) 0 first in
    fail_if existsb (fun r => publishable r && negb (rv_id r =? rv_id final.2) && same_instant r final.2 &&
                              depended_on r && negb (same_snapshot (ev_state (rv_event r)) (ev_state (rv_event final.2)))) (ss_slots s)
      with error1 ErrorCode.identity_conflict ;;
    Ok final.

(** The revisions that a publication of [g] covers. *)
Definition covered (g r : Revision) : bool :=
  publishable r &&
  ((rv_id r =? rv_id g) ||
   (negb (ev_time_known (rv_event r)) && negb (ev_time_known (rv_event g))) ||
   (same_instant r g && (ev_sample_ordinal (rv_event r) =? ev_sample_ordinal (rv_event g)))).

Definition accept_group (s : RevisionStore) (h : RevisionHandle) : Result unit * RevisionStore :=
  if negb (store_owns s h) then (Err (error1 ErrorCode.invalid_argument), s) else
  match ss_slots s !! rh_slot h with
  | None => (UB, s)
  | Some g =>
      if negb (ev_association_generation (rv_event g) =? ss_generation s) then (Err (error1 ErrorCode.stale_generation), s) else
      match publication_group s with
      | Ok (_, selected) =>
          if negb (rv_id selected =? rv_id g) then (Err (error1 ErrorCode.invalid_state), s) else
          (Ok tt, set_slots s ((fun r => if covered g r then set_publication r Publication.accepted else r) <$> ss_slots s))
      | Err e => (Err e, s)
      | UB => (UB, s)
      end
  end.

Definition note_data_dependency (s : RevisionStore) (h : RevisionHandle) : Result unit * RevisionStore :=
  if negb (store_owns s h) then (Err (error1 ErrorCode.invalid_argument), s) else
  match ss_slots s !! rh_slot h with
  | Some r =>
      if rv_committed r && negb (rv_detached r)
      then (Ok tt, set_slots s (<[rh_slot h := set_dependency r]> (ss_slots s)))
      else (Err (error1 ErrorCode.stale_generation), s)
  | None => (Err (error1 ErrorCode.stale_generation), s)
  end.

Definition mark_publication (s : RevisionStore) (h : RevisionHandle) (status : Publication.t) : Result unit * RevisionStore :=
  if negb (store_owns s h) then (Err (error1 ErrorCode.invalid_argument), s) else
  match ss_slots s !! rh_slot h with
  | None => (UB, s)
  | Some g =>
      let marked r := rv_committed r && negb (rv_detached r) && (rv_id r =? rv_id g) &&
                      (ev_association_generation (rv_event r) =? ss_generation s) in
      match first_index marked (ss_slots s) with
      | Some i => (Ok tt, set_slots s (alter (fun r => set_publication r status) i (ss_slots s)))
      | None => (Err (error1 ErrorCode.stale_generation), s)
      end
  end.

Definition store_detach (s : RevisionStore) (generation : Z) : Result unit * RevisionStore :=
  if generation <=? ss_generation s then (Err (error1 ErrorCode.stale_generation), s) else
  let leave r := if rv_occupied r then (if rv_committed r then set_detached r else set_occupied r false) else r in
  (Ok tt,
   store_collect (mkStore (ss_owner s) (leave <$> ss_slots s) generation (ss_next_id s) (ss_next_reservation s) None false (ss_pool s))).

(** ** The invariant of a store *)

#[local] Arguments count_if : simpl never.

Record store_ok (s : RevisionStore) : Prop := mk_store_ok {
  so_occupied : forall i r, ss_slots s !! i = Some r -> rv_committed r = true -> rv_occupied r = true;
  so_ids : forall i r, ss_slots s !! i = Some r -> rv_committed r = true -> 1 <= rv_id r < ss_next_id s;
  so_unique : forall i j r r', ss_slots s !! i = Some r -> ss_slots s !! j = Some r' ->
    rv_committed r = true -> rv_committed r' = true -> rv_id r = rv_id r' -> i = j;
  so_generation : forall i r, ss_slots s !! i = Some r -> rv_committed r = true -> rv_detached r = false ->
    ev_association_generation (rv_event r) = ss_generation s;
  so_current : forall c, ss_current s = Some c -> exists r, ss_slots s !! c = Some r /\ rv_committed r = true /\ rv_detached r = false /\
    forall i r', ss_slots s !! i = Some r' -> rv_committed r' = true -> rv_id r' <= rv_id r;
  so_room : 1 <= ss_next_id s /\ ss_next_id s + Z.of_nat (count_if is_reserved (ss_slots s)) <= U64_MAX;
  so_tokens : 1 <= ss_next_reservation s <= U64_MAX;
  so_reserved : forall i r, ss_slots s !! i = Some r -> is_reserved r = true -> rv_reservation r < ss_next_reservation s /\ rv_detached r = false;
  so_capacity : zlen (ss_slots s) <= U64_MAX
}.

(** [shrunk r r']: a slot that was kept as it is, marked or freed. *)
Record shrunk (r r' : Revision) : Prop := mk_shrunk {
  sh_committed : rv_committed r' = true ->
    rv_committed r = true /\ rv_id r' = rv_id r /\ rv_event r' = rv_event r /\ (rv_detached r' = false -> rv_detached r = false) /\
    rv_occupied r' = rv_occupied r;
  sh_reserved : is_reserved r' = true -> is_reserved r = true /\ rv_reservation r' = rv_reservation r /\ rv_detached r' = rv_detached r
}.

Lemma shrunk_refl r : shrunk r r.
Proof. by split. Qed.

Lemma count_if_le {A B} (p : A -> bool) (q : B -> bool) l l' :
  Forall2 (fun a b => q b = true -> p a = true) l l' -> (count_if q l' <= count_if p l)%nat.
Proof.
  unfold count_if. induction 1 as [|a b l l' H _ IH]; [done|]. cbn. destruct (q b) eqn:Eb; [rewrite (H eq_refl); cbn; lia|].
  destruct (p a); cbn; lia.
Qed.

(** Freeing or marking slots keeps the invariant, as long as the current one stays. *)
Lemma store_ok_shrink s s' :
  store_ok s -> Forall2 shrunk (ss_slots s) (ss_slots s') ->
  ss_next_id s' = ss_next_id s -> ss_next_reservation s' = ss_next_reservation s ->
  (forall i r', ss_slots s' !! i = Some r' -> rv_committed r' = true -> rv_detached r' = false -> ss_generation s' = ss_generation s) ->
  (forall c, ss_current s' = Some c -> ss_current s = Some c /\ exists r, ss_slots s' !! c = Some r /\ rv_committed r = true /\ rv_detached r = false) ->
  store_ok s'.
Proof.
  intros [Ho Hi Hu Hg Hc [Hr1 Hr2] Ht Hres Hcap] HF En Er Hgen Hcur.
  assert (Hback : forall i r', ss_slots s' !! i = Some r' -> exists r, ss_slots s !! i = Some r /\ shrunk r r').
  { intros i r' H. destruct (Forall2_lookup_r _ _ _ _ _ HF H) as (r & ? & ?). eauto. }
  assert (Hcount : (count_if is_reserved (ss_slots s') <= count_if is_reserved (ss_slots s))%nat).
  { apply count_if_le. eapply list.Forall2_impl; [exact HF|]. intros r r' [_ H] E. by apply H. }
  split; rewrite ?En, ?Er.
  - intros i r' (r & Hr & [Hs _])%Hback E. destruct (Hs E) as (Ec & _ & _ & _ & ->). by eapply Ho.
  - intros i r' (r & Hr & [Hs _])%Hback E. destruct (Hs E) as (Ec & -> & _). by eapply Hi.
  - intros i j r r' (r1 & Hr1' & [Hs1 _])%Hback (r2 & Hr2' & [Hs2 _])%Hback E1 E2.
    destruct (Hs1 E1) as (? & -> & _), (Hs2 E2) as (? & -> & _). by eapply Hu.
  - intros i r' H E Ed. rewrite (Hgen i r' H E Ed). apply Hback in H as (r & Hr & [Hs _]). destruct (Hs E) as (? & _ & -> & Hd & _).
    eapply Hg; [done|done|by apply Hd].
  - intros c E. destruct (Hcur c E) as (Ec & r' & Hr' & Ecm & Ed). exists r'. split_and!; [done..|].
    destruct (Hc c Ec) as (r & Hr & _ & _ & Hmax). pose proof Hr' as (r0 & Hr0 & [Hs _])%Hback. simplify_eq.
    destruct (Hs Ecm) as (_ & -> & _). intros i r1 (r2 & Hr2' & [Hs2 _])%Hback E1. destruct (Hs2 E1) as (? & -> & _). by eapply Hmax.
  - lia.
  - done.
  - intros i r' (r & Hr & [_ Hs])%Hback E. destruct (Hs E) as (? & -> & ->). by eapply Hres.
  - unfold zlen in *. by rewrite <- (Forall2_length HF).
Qed.

(** The common case: every slot is mapped. *)
Lemma store_ok_map s f :
  store_ok s -> (forall r, shrunk r (f r)) -> (forall r, rv_committed (f r) = rv_committed r /\ rv_detached (f r) = rv_detached r) ->
  store_ok (set_slots s (f <$> ss_slots s)).
Proof.
  intros Hs Hf Hk. apply (store_ok_shrink s); try done; cbn.
  - apply Forall2_fmap_r. apply Forall_Forall2_diag. apply list.Forall_forall. intros r _. apply Hf.
  - intros c E. split; [done|]. destruct (so_current s Hs c E) as (r & Hr & ? & ? & _). exists (f r). rewrite list_lookup_fmap, Hr.
    destruct (Hk r) as [-> ->]. done.
Qed.

Lemma alter_map_insert {A} (f : A -> A) i (l : list A) x : l !! i = Some x -> alter f i l = <[i := f x]> l.
Proof.
  revert i. induction l as [|y l IH]; intros [|i] H; try done; cbn in *; [by simplify_eq|]. unfold alter in *. cbn. f_equal. by apply IH.
Qed.

(** One slot is replaced. *)
Lemma store_ok_update s i r r' :
  store_ok s -> ss_slots s !! i = Some r -> shrunk r r' -> rv_committed r' = rv_committed r -> rv_detached r' = rv_detached r ->
  store_ok (set_slots s (<[i:=r']> (ss_slots s))).
Proof.
  intros Hs Hi Hsh Ec Ed. apply (store_ok_shrink s); try done; cbn.
  - apply Forall2_lookup. intros j. destruct (decide (i = j)) as [<-|Hne].
    + rewrite Hi, list_lookup_insert_eq by (by eapply lookup_lt_Some). by constructor.
    + rewrite list_lookup_insert_ne by done. destruct (ss_slots s !! j); constructor. apply shrunk_refl.
  - intros c E. split; [done|]. destruct (so_current s Hs c E) as (r0 & Hr & ? & ? & _). destruct (decide (i = c)) as [->|Hne].
    + exists r'. rewrite list_lookup_insert_eq by (by eapply lookup_lt_Some). simplify_eq. split_and!; [done|congruence|congruence].
    + exists r0. by rewrite list_lookup_insert_ne.
Qed.

(** ** Collection *)

Lemma collect_loop_spec current l : forall i pool,
  Forall2 (fun r r' => shrunk r r') l (collect_loop current i l pool).1 /\
  (forall j r, l !! j = Some r -> collectable current (i + j) r = false -> (collect_loop current i l pool).1 !! j = Some r).
Proof.
  induction l as [|r l IH]; intros i pool; cbn [collect_loop]; [by split|].
  destruct (collectable current i r) eqn:E.
  - destruct (bundle_reset pool (rv_credits r)) as [b pool']. destruct (IH (S i) pool') as [H1 H2].
    destruct (collect_loop current (S i) l pool') as [l' pool'']. cbn in *. split.
    + constructor; [|done]. split; cbn; done.
    + intros [|j] x Hx Hc; cbn in *; [simplify_eq; by rewrite Nat.add_0_r, E in Hc|]. apply H2; [done|]. by rewrite Nat.add_succ_r in Hc.
  - destruct (IH (S i) pool) as [H1 H2]. destruct (collect_loop current (S i) l pool) as [l' pool']. cbn in *. split.
    + constructor; [apply shrunk_refl|done].
    + intros [|j] x Hx Hc; cbn in *; [done|]. apply H2; [done|]. by rewrite Nat.add_succ_r in Hc.
Qed.

(** Collection keeps the current revision, those not yet published and those with references. *)
Lemma store_collect_keeps s i r :
  ss_slots s !! i = Some r -> collectable (ss_current s) i r = false -> ss_slots (store_collect s) !! i = Some r.
Proof.
  intros Hr Hc. pose proof (proj2 (collect_loop_spec (ss_current s) (ss_slots s) 0 (ss_pool s)) i r Hr Hc) as H.
  unfold store_collect. by destruct (collect_loop _ _ _ _).
Qed.

Lemma store_collect_fields s :
  ss_next_id (store_collect s) = ss_next_id s /\ ss_next_reservation (store_collect s) = ss_next_reservation s /\
  ss_current (store_collect s) = ss_current s /\ ss_generation (store_collect s) = ss_generation s /\
  ss_faulted (store_collect s) = ss_faulted s /\ length (ss_slots (store_collect s)) = length (ss_slots s) /\
  Forall2 shrunk (ss_slots s) (ss_slots (store_collect s)).
Proof.
  pose proof (proj1 (collect_loop_spec (ss_current s) (ss_slots s) 0 (ss_pool s))) as H. unfold store_collect.
  destruct (collect_loop _ _ _ _) as [l pool]. cbn in *. split_and!; try done. symmetry. by eapply Forall2_length.
Qed.

Lemma store_collect_ok s : store_ok s -> store_ok (store_collect s).
Proof.
  intros Hs. destruct (store_collect_fields s) as (E1 & E2 & E3 & E4 & _ & _ & HF). apply (store_ok_shrink s); try done.
  rewrite E3. intros c Ec. split; [done|]. destruct (so_current s Hs c Ec) as (r & Hr & ? & ? & _). exists r. split_and!; try done.
  apply store_collect_keeps; [done|]. unfold collectable. rewrite Ec, bool_decide_true by done. cbn. by rewrite !andb_false_r.
Qed.

(** ** Reservation and recording *)

Lemma reserve_slots_spec token n : forall l, (n <= count_if (fun r => negb (rv_occupied r)) l)%nat ->
  (forall r, r ∈ l -> reserved_for token r = false) -> (forall r, r ∈ l -> rv_committed r = true -> rv_occupied r = true) ->
  let l' := reserve_slots token n l in
  length l' = length l /\ count_if (reserved_for token) l' = n /\ count_if is_reserved l' = (count_if is_reserved l + n)%nat /\
  (forall i r', l' !! i = Some r' -> l !! i = Some r' \/ (reserved_for token r' = true /\ rv_detached r' = false)) /\
  (forall i r, l !! i = Some r -> rv_committed r = true -> l' !! i = Some r).
Proof.
  revert n. intros n l. revert n. unfold count_if. induction l as [|r l IH]; intros n Hn Hfresh Hocc; cbv zeta; cbn [reserve_slots].
  { cbn in *. assert (n = 0%nat) as -> by lia. by split_and!. }
  assert (Hr := Hfresh r ltac:(by left)). assert (Hor := Hocc r ltac:(by left)).
  assert (Hfl : forall x, x ∈ l -> reserved_for token x = false) by (intros; apply Hfresh; by right).
  assert (Hol : forall x, x ∈ l -> rv_committed x = true -> rv_occupied x = true) by (intros x Hx; apply Hocc; by right).
  destruct n as [|n].
  { split_and!; try done; try lia; try (by intros; left).
    assert (H0 : List.filter (reserved_for token) (r :: l) = []); [|by rewrite H0].
    clear -Hfresh. induction (r :: l) as [|x l' IH]; [done|]. cbn. rewrite (Hfresh x) by (by left). apply IH. intros. apply Hfresh. by right. }
  cbn [List.filter negb] in Hn. destruct (rv_occupied r) eqn:Eo; cbn [negb] in Hn.
  - destruct (IH (S n) Hn Hfl Hol) as (H1 & H2 & H3 & H4 & H5). cbn [List.filter length]. rewrite Hr. split_and!.
    + by rewrite H1.
    + exact H2.
    + destruct (is_reserved r); cbn; lia.
    + intros [|i] r' H; cbn in *; [by left|by apply H4].
    + intros [|i] x H; cbn in *; [done|by apply H5].
  - cbn in Hn. destruct (IH n ltac:(lia) Hfl Hol) as (H1 & H2 & H3 & H4 & H5). cbn [List.filter length].
    assert (Ei : is_reserved r = false) by (unfold is_reserved; by rewrite Eo). rewrite Ei.
    unfold reserved_for at 1, is_reserved at 1 2. cbn [rv_occupied rv_committed rv_reservation negb andb length].
    rewrite Z.eqb_refl. cbn [length]. split_and!; [by rewrite H1|by rewrite H2|lia| |].
    + intros [|i] r' H; cbn in *; [|by apply H4]. injection H as <-. right. split; [|done]. unfold reserved_for, is_reserved. cbn. apply Z.eqb_refl.
    + intros [|i] x H Hc; cbn in *; [|by apply H5]. injection H as <-. by specialize (Hor Hc).
Qed.

Lemma reserved_for_inv token r : reserved_for token r = true -> is_reserved r = true /\ rv_reservation r = token /\ rv_committed r = false /\ rv_occupied r = true.
Proof. unfold reserved_for, is_reserved. rewrite !andb_true_iff, negb_true_iff, Z.eqb_eq. tauto. Qed.

Lemma count_disjoint l : (count_if is_reserved l + count_if (fun r => negb (rv_occupied r)) l <= length l)%nat.
Proof. unfold count_if, is_reserved. induction l as [|r l IH]; [done|]. cbn. destruct (rv_occupied r), (rv_committed r); cbn in *; lia. Qed.

Lemma store_reserve_ok s n :
  store_ok s ->
  let '(r, s') := store_reserve s n in
  store_ok s' /\ ss_generation s' = ss_generation s /\ ss_faulted s' = ss_faulted s /\
  match r with Ok token => count_if (reserved_for token) (ss_slots s') = n | Err _ => True | UB => False end.
Proof.
  intros Hs0. unfold store_reserve. destruct (_ || _); [by split_and!|]. destruct (store_collect_fields s) as (_ & _ & _ & Eg & Ef & _ & _).
  pose proof (store_collect_ok s Hs0) as Hs. rewrite <- Eg, <- Ef. clear Eg Ef Hs0. generalize dependent (store_collect s). clear s. intros s Hs. cbv zeta.
  destruct (Nat.ltb_spec (count_if (fun r => negb (rv_occupied r)) (ss_slots s)) n) as [|Hfree]; [done|].
  destruct (Z.eqb_spec (ss_next_reservation s) U64_MAX) as [|Hmax]; cbn [orb]; [done|].
  destruct (Z.ltb_spec (wrap64 (U64_MAX - Z.of_nat n - Z.of_nat (count_if is_reserved (ss_slots s)))) (ss_next_id s)) as [|Hroom]; [done|].
  destruct Hs as [Ho Hi Hu Hg Hc [Hr1 Hr2] Ht Hres Hcap]. set (token := ss_next_reservation s) in *.
  destruct (reserve_slots_spec token n (ss_slots s) Hfree) as (H1 & H2 & H3 & H4 & H5).
  { intros r [i Hr]%list_elem_of_lookup. destruct (reserved_for token r) eqn:E; [|done]. apply reserved_for_inv in E as (E & Et & _).
    destruct (Hres i r Hr E). lia. }
  { intros r [i Hr]%list_elem_of_lookup. by eapply Ho. }
  pose proof (count_disjoint (ss_slots s)). unfold zlen in Hcap. rewrite wrap64_small in Hroom by lia.
  assert (Hold : forall i r', reserve_slots token n (ss_slots s) !! i = Some r' -> rv_committed r' = true -> ss_slots s !! i = Some r').
  { intros i r' Hr' E. destruct (H4 i r' Hr') as [|[Hx _]]; [done|]. apply reserved_for_inv in Hx as (_ & _ & ? & _). congruence. }
  split; [|done]. split; cbn.
  - intros i r' Hr' E. by eapply Ho, E; apply Hold.
  - intros i r' Hr' E. by eapply Hi, E; apply Hold.
  - intros i j r r' Hr Hr' E E'. apply Hu; [by apply Hold|by apply Hold|done|done].
  - intros i r' Hr' E. by eapply Hg, E; apply Hold.
  - intros c Ec. destruct (Hc c Ec) as (r & Hr & E1 & E2 & Hm). exists r. split_and!; [by apply H5|done|done|].
    intros i r' Hr' E. by eapply Hm, E; apply Hold.
  - rewrite H3. lia.
  - rewrite wrap64_small; lia.
  - rewrite wrap64_small by lia. intros i r' Hr' E. destruct (H4 i r' Hr') as [Hr|[Hx ?]].
    + destruct (Hres i r' Hr E). split; [lia|done].
    + apply reserved_for_inv in Hx as (_ & -> & _). split; [lia|done].
  - unfold zlen. lia.
Qed.

(** ** Recording *)

Lemma count_if_first {A} (p : A -> bool) l : (0 < count_if p l)%nat -> exists i x, first_index p l = Some i /\ l !! i = Some x /\ p x = true.
Proof.
  intros H. destruct (first_index p l) as [i|] eqn:E.
  - pose proof E as [(x & Hx & Hp) _]%first_index_Some. by exists i, x.
  - apply first_index_None in E. exfalso. unfold count_if in H. induction E as [|x l Hx _ IH]; cbn in H; [lia|]. rewrite Hx in H. by apply IH.
Qed.

(** An event of the current association goes to a reserved slot. *)
Lemma store_record_commits s event token credits :
  store_ok s -> ev_association_generation event = ss_generation s -> (0 < count_if (reserved_for token) (ss_slots s))%nat ->
  let s' := store_record s event token credits in
  store_ok s' /\ ss_generation s' = ss_generation s /\ ss_faulted s' = ss_faulted s || negb (required_known (ev_state event)) /\
  S (count_if (reserved_for token) (ss_slots s')) = count_if (reserved_for token) (ss_slots s) /\
  exists i r, ss_current s' = Some i /\ ss_slots s' !! i = Some r /\ rv_event r = event /\ rv_id r = ss_next_id s /\
    rv_publication r = Publication.pending.
Proof.
  intros [Ho Hi Hu Hg Hc [Hr1 Hr2] Ht Hres Hcap] Eg Hn. cbv zeta. unfold store_record. rewrite (proj2 (Z.eqb_eq _ _) Eg). cbn [negb].
  destruct (count_if_first _ _ Hn) as (i & r & -> & Hr & Hp). rewrite Hr.
  destruct (reserved_for_inv _ _ Hp) as (Er & Et & Ec & Eo). destruct (Hres i r Hr Er) as [_ Ed].
  set (r' := mkRevision event credits (ss_next_id s) (rv_reservation r) (rv_references r) Publication.pending (rv_occupied r) true (rv_detached r) (rv_data_dependency r)).
  change (ss_next_id (drop_credits s (rv_credits r))) with (ss_next_id s). fold r'. cbn [ss_slots ss_generation ss_next_id drop_credits set_pool_state].
  assert (Hlt : (i < length (ss_slots s))%nat) by (by eapply lookup_lt_Some).
  pose proof (count_if_insert is_reserved _ _ _ r' Hr) as Hcnt. rewrite Er in Hcnt. replace (is_reserved r') with false in Hcnt by (unfold is_reserved; cbn; by rewrite andb_false_r).
  assert (Hnew : forall j x, <[i:=r']> (ss_slots s) !! j = Some x -> (j = i /\ x = r') \/ (j <> i /\ ss_slots s !! j = Some x)).
  { intros j x Hx. apply list_lookup_insert_Some in Hx as [(<- & <- & _)|[? ?]]; [by left|by right]. }
  rewrite wrap64_small by lia. split; [split; cbn|].
  - intros j x [[-> ->]|[_ Hx]]%Hnew; [done|by eapply Ho].
  - intros j x [[-> ->]|[_ Hx]]%Hnew E; [cbn; lia|]. specialize (Hi j x Hx E). lia.
  - intros j k x y [[-> ->]|[? Hx]]%Hnew [[-> ->]|[? Hy]]%Hnew Ex Ey Eid; [done| | |by eapply Hu].
    + specialize (Hi k y Hy Ey). cbn in Eid. lia.
    + specialize (Hi j x Hx Ex). cbn in Eid. lia.
  - intros j x [[-> ->]|[_ Hx]]%Hnew; [done|by eapply Hg].
  - intros c [= <-]. exists r'. split_and!; [by apply list_lookup_insert_eq|done|done|].
    intros j x [[-> ->]|[_ Hx]]%Hnew E; [lia|]. specialize (Hi j x Hx E). cbn. lia.
  - lia.
  - done.
  - intros j x [[-> ->]|[_ Hx]]%Hnew E; [unfold is_reserved in E; cbn in E; by rewrite andb_false_r in E|by apply Hres with j].
  - unfold zlen. by rewrite length_insert.
  - split_and!; [done|done| |].
    + pose proof (count_if_insert (reserved_for token) _ _ _ r' Hr) as Hcnt'. rewrite Hp in Hcnt'.
      replace (reserved_for token r') with false in Hcnt' by (unfold reserved_for, is_reserved; cbn; by rewrite andb_false_r). cbn [ss_slots]. lia.
    + exists i, r'. split_and!; try done. by apply list_lookup_insert_eq.
Qed.

Lemma drop_credits_ok s credits : store_ok s -> store_ok (drop_credits s credits).
Proof. by intros []. Qed.
Lemma store_fault_ok s : store_ok s -> store_ok (store_fault s).
Proof. by intros []. Qed.

Lemma store_record_ok s event token credits : store_ok s -> store_ok (store_record s event token credits).
Proof.
  intros Hs. destruct (Z.eqb_spec (ev_association_generation event) (ss_generation s)) as [E|E].
  - destruct (Nat.eq_dec (count_if (reserved_for token) (ss_slots s)) 0%nat) as [E0|]; [|apply store_record_commits; (done || lia)].
    unfold store_record. rewrite (proj2 (Z.eqb_eq _ _) E). cbn [negb].
    destruct (first_index (reserved_for token) (ss_slots s)) as [i|] eqn:Ei; [|by apply store_fault_ok, drop_credits_ok].
    apply first_index_Some in Ei as [(x & Hx & Hp) _]. pose proof (count_if_insert (reserved_for token) _ _ _ x Hx) as Hcnt.
    exfalso. clear Hcnt. unfold count_if in E0. apply length_zero_iff_nil in E0. apply list_elem_of_lookup_2, list_elem_of_In in Hx.
    assert (Hin : List.In x (List.filter (reserved_for token) (ss_slots s))) by (by apply List.filter_In). by rewrite E0 in Hin.
  - unfold store_record. rewrite (proj2 (Z.eqb_neq _ _) E). by apply drop_credits_ok.
Qed.

(** ** The other operations *)

Lemma release_reservation_ok s token : store_ok s -> store_ok (release_reservation s token).
Proof.
  intros Hs. apply store_ok_map; [done| |]; intros r; destruct (reserved_for token r) eqn:E; try done.
  apply reserved_for_inv in E as (_ & _ & Ec & _). split; cbn; [rewrite Ec; done|done].
Qed.

Lemma shrunk_marked r r' :
  rv_committed r' = rv_committed r -> rv_id r' = rv_id r -> rv_event r' = rv_event r -> rv_detached r' = rv_detached r ->
  rv_occupied r' = rv_occupied r -> rv_reservation r' = rv_reservation r -> shrunk r r'.
Proof. intros E1 E2 E3 E4 E5 E6. split; unfold is_reserved; rewrite ?E1, ?E2, ?E3, ?E4, ?E5, ?E6; tauto. Qed.

Lemma alter_none {A} (f : A -> A) i (l : list A) : l !! i = None -> alter f i l = l.
Proof. revert i. induction l as [|x l IH]; intros [|i] H; try done. unfold alter in *. cbn in *. f_equal. by apply IH. Qed.

Lemma store_ok_alter s f i :
  store_ok s -> (forall r, shrunk r (f r) /\ rv_committed (f r) = rv_committed r /\ rv_detached (f r) = rv_detached r) ->
  store_ok (set_slots s (alter f i (ss_slots s))).
Proof.
  intros Hs Hf. destruct (ss_slots s !! i) as [r|] eqn:E.
  - rewrite (alter_map_insert f i _ r E). destruct (Hf r) as (? & ? & ?). by apply (store_ok_update s i r).
  - rewrite (alter_none f i _ E). by destruct s.
Qed.

Lemma accept_group_ok s h : store_ok s -> store_ok (accept_group s h).2.
Proof.
  intros Hs. unfold accept_group. repeat (case_match; try done). cbn [snd]. apply store_ok_map; [done| |]; intros x; by case_match.
Qed.

Lemma note_data_dependency_ok s h : store_ok s -> store_ok (note_data_dependency s h).2.
Proof.
  intros Hs. unfold note_data_dependency. test_goal E; [done|]. destruct (ss_slots s !! rh_slot h) as [r|] eqn:Er; [|done].
  test_goal E1; [|done]. by eapply store_ok_update; [|exact Er|apply shrunk_marked|..].
Qed.

Lemma mark_publication_ok s h status : store_ok s -> store_ok (mark_publication s h status).2.
Proof.
  intros Hs. unfold mark_publication. repeat (case_match; try done). cbn [snd]. apply store_ok_alter; [done|].
  intros x. split_and!; [by apply shrunk_marked|done|done].
Qed.

Lemma store_detach_ok s generation : store_ok s -> store_ok (store_detach s generation).2.
Proof.
  intros Hs. unfold store_detach. destruct (generation <=? ss_generation s); [done|]. cbn [snd]. apply store_collect_ok.
  set (leave := fun r => if rv_occupied r then (if rv_committed r then set_detached r else set_occupied r false) else r).
  assert (Hl : forall r, shrunk r (leave r)).
  { intros r. unfold leave. destruct (rv_occupied r) eqn:Eo; [|apply shrunk_refl]. destruct (rv_committed r) eqn:Ec; split; cbn; rewrite ?Ec; try done.
    unfold is_reserved. cbn. by rewrite Ec, andb_false_r. }
  apply (store_ok_shrink s); try done; cbn.
  - apply Forall2_fmap_r, Forall_Forall2_diag, list.Forall_forall. intros r _. apply Hl.
  - intros i r' Hr'. rewrite list_lookup_fmap in Hr'. apply fmap_Some in Hr' as (r & Hr & ->). intros Ec Ed. exfalso.
    destruct (sh_committed _ _ (Hl r) Ec) as (Ecr & _). pose proof (so_occupied s Hs i r Hr Ecr) as Eo. unfold leave in Ed. by rewrite Eo, Ecr in Ed.
Qed.

Lemma store_initial_ok s event credits : store_ok s -> store_ok (store_initial s event credits).2.
Proof.
  intros Hs. unfold store_initial. destruct (check_initial s event); [|by apply drop_credits_ok|done].
  pose proof (store_reserve_ok s 1 Hs) as H. destruct (store_reserve s 1) as [[token|e|] s']; destruct H as (Hs' & _); cbn [snd].
  - by apply release_reservation_ok, store_record_ok.
  - by apply drop_credits_ok.
  - done.
Qed.

(** The operations of a store. *)
Inductive store_step (s : RevisionStore) : RevisionStore -> Prop :=
  | step_reserve n : store_step s (store_reserve s n).2
  | step_release token : store_step s (release_reservation s token)
  | step_record event token credits : store_step s (store_record s event token credits)
  | step_initial event credits : store_step s (store_initial s event credits).2
  | step_retain i : store_step s (retain_handle s i)
  | step_drop i : store_step s (release_handle s i)
  | step_dependency h : store_step s (note_data_dependency s h).2
  | step_accept h : store_step s (accept_group s h).2
  | step_mark h status : store_step s (mark_publication s h status).2
  | step_store_fault : store_step s (store_fault s)
  | step_collect : store_step s (store_collect s)
  | step_store_detach generation : store_step s (store_detach s generation).2.

Lemma store_step_ok s s' : store_step s s' -> store_ok s -> store_ok s'.
Proof.
  intros [n|token|event token credits|event credits|i|i|h|h|h status| | |generation] Hs.
  - pose proof (store_reserve_ok s n Hs) as H. destruct (store_reserve s n). by destruct H.
  - by apply release_reservation_ok.
  - by apply store_record_ok.
  - by apply store_initial_ok.
  - apply store_ok_alter; [done|]. intros r. split_and!; [by apply shrunk_marked|done|done].
  - apply store_ok_alter; [done|]. intros r. split_and!; [by apply shrunk_marked|done|done].
  - by apply note_data_dependency_ok.
  - by apply accept_group_ok.
  - by apply mark_publication_ok.
  - by apply store_fault_ok.
  - by apply store_collect_ok.
  - by apply store_detach_ok.
Qed.

Lemma store_new_ok owner capacity generation pool : Z.of_nat capacity < U64_MAX -> store_ok (store_new owner capacity generation pool).
Proof.
  intros Hc. assert (Hl : forall i r, ss_slots (store_new owner capacity generation pool) !! i = Some r -> r = revision_default).
  { intros i r Hr. by apply lookup_replicate in Hr as [-> _]. }
  split.
  - intros i r ->%Hl. done.
  - intros i r ->%Hl. done.
  - intros i j r r' ->%Hl. done.
  - intros i r ->%Hl. done.
  - done.
  - cbn. assert (count_if is_reserved (replicate capacity revision_default) = 0%nat) as -> by (clear; by induction capacity).
    unfold_words. lia.
  - cbn. unfold_words. lia.
  - intros i r ->%Hl. done.
  - unfold zlen. cbn. rewrite length_replicate. lia.
Qed.

(** Whatever the operations, the identifiers of the revisions held are distinct and below
    the next one, the current revision is committed, of the current association and the
    latest of all, and there is an identifier for every slot still reserved. *)
Theorem revisions_invariant owner capacity generation pool s :
  Z.of_nat capacity < U64_MAX -> rtc store_step (store_new owner capacity generation pool) s -> store_ok s.
Proof.
  intros Hc H. apply (rtc_ind_r (fun s => store_ok s) _ (store_new_ok owner capacity generation pool Hc)) in H; [done|].
  intros y z _ Hs Hy. by eapply store_step_ok.
Qed.

(** ** A reservation is honoured *)

Fixpoint record_all (s : RevisionStore) (token : Z) (events : list (EffectiveEvent * AdmissionBundle)) : RevisionStore :=
  match events with
  | [] => s
  | (event, credits) :: events => record_all (store_record s event token credits) token events
  end.

Lemma record_all_commits events : forall s token,
  store_ok s -> (length events <= count_if (reserved_for token) (ss_slots s))%nat ->
  Forall (fun e => ev_association_generation e.1 = ss_generation s /\ required_known (ev_state e.1) = true) events ->
  let s' := record_all s token events in
  store_ok s' /\ ss_faulted s' = ss_faulted s /\
  (forall event credits rest, events = rest ++ [(event, credits)] ->
     exists i r, ss_current s' = Some i /\ ss_slots s' !! i = Some r /\ rv_event r = event).
Proof.
  induction events as [|[event credits] events IH]; intros s token Hs Hn HF; cbv zeta; cbn [record_all].
  { split_and!; [done|done|]. intros event credits rest E. by apply app_cons_not_nil in E. }
  apply list.Forall_cons in HF as [[Eg Hk] HF]. cbn in Hn, Eg, Hk.
  destruct (store_record_commits s event token credits Hs Eg ltac:(lia)) as (Hs1 & Eg1 & Ef & Hc & i & r & Hcur & Hr & Hev & _).
  rewrite Hk, orb_false_r in Ef. destruct (IH (store_record s event token credits) token Hs1) as (H1 & H2 & H3).
  - lia.
  - by rewrite Eg1.
  - split_and!; [done|congruence|]. intros ev c rest E. destruct rest as [|x rest].
    + injection E as -> -> ->. cbn [record_all]. by exists i, r.
    + injection E as _ E. by eapply H3.
Qed.

(** Admission reserves slots so that recording cannot fail: after [reserve] of [n] slots any
    [n] events of the association are recorded, the store does not become faulted, and the
    last of them is the current revision. *)
Theorem reservation_honoured s n token s' events :
  store_ok s -> store_reserve s n = (Ok token, s') -> (length events <= n)%nat ->
  Forall (fun e => ev_association_generation e.1 = ss_generation s /\ required_known (ev_state e.1) = true) events ->
  store_ok (record_all s' token events) /\ ss_faulted (record_all s' token events) = ss_faulted s /\
  (forall event credits rest, events = rest ++ [(event, credits)] ->
     exists i r, ss_current (record_all s' token events) = Some i /\ ss_slots (record_all s' token events) !! i = Some r /\ rv_event r = event).
Proof.
  intros Hs E Hn HF. pose proof (store_reserve_ok s n Hs) as H. rewrite E in H. destruct H as (Hs' & Eg & Ef & Hc).
  rewrite <- Ef. apply record_all_commits; [done|lia|by rewrite Eg].
Qed.

(** ** What is published next *)

Lemma publishes_before_trans a b c : publishes_before a b = true -> publishes_before b c = true -> publishes_before a c = true.
Proof.
  unfold publishes_before. destruct (ev_time_known (rv_event a)), (ev_time_known (rv_event b)), (ev_time_known (rv_event c)); cbn; try done.
  - rewrite !time_ltb_lt. lia.
  - rewrite !Z.ltb_lt. lia.
Qed.

Lemma publishes_before_irrefl a : publishes_before a a = false.
Proof. unfold publishes_before. rewrite eqb_reflx. cbn. case_match; [apply time_ltb_ge; lia|apply Z.ltb_irrefl]. Qed.

(** The candidate so far is never preceded by a slot already seen. *)
Lemma next_loop_spec l : forall i0 next j g,
  next_loop l i0 next = Some (j, g) ->
  (next = Some (j, g) \/ exists k, j = (i0 + k)%nat /\ l !! k = Some g /\ publishable g = true) /\
  (forall k r, l !! k = Some r -> publishable r = true -> publishes_before r g = false) /\
  (forall j' n, next = Some (j', n) -> publishes_before n g = false).
Proof.
  induction l as [|r l IH]; intros i0 next j g H; cbn [next_loop] in H.
  { split_and!; [by left|done|]. intros j' n E. rewrite E in H. injection H as _ ->. apply publishes_before_irrefl. }
  destruct (publishable r) eqn:Ep; cbn [andb] in H.
  2:{ destruct (IH (S i0) next j g H) as (H1 & H2 & H3). split_and!; [|intros [|k] x Hx; cbn in Hx; [by simplify_eq; rewrite Ep|by eapply H2]|done].
      destruct H1 as [|(k & -> & ? & ?)]; [by left|right]. exists (S k). split_and!; [lia|done|done]. }
  set (better := match next with None => true | Some (_, n) => publishes_before r n end) in *.
  destruct better eqn:Eb.
  - destruct (IH (S i0) (Some (i0, r)) j g H) as (H1 & H2 & H3). specialize (H3 i0 r eq_refl). split_and!.
    + right. destruct H1 as [[= -> ->]|(k & -> & ? & ?)]; [exists 0%nat; split_and!; [lia|done|done]|exists (S k); split_and!; [lia|done|done]].
    + intros [|k] x Hx Hp; cbn in Hx; [by simplify_eq|by eapply H2].
    + intros j' n ->. cbn in Eb. destruct (publishes_before n g) eqn:E; [|done]. by rewrite (publishes_before_trans r n g Eb E) in H3.
  - destruct (IH (S i0) next j g H) as (H1 & H2 & H3). split_and!.
    + destruct H1 as [|(k & -> & ? & ?)]; [by left|right]. exists (S k). split_and!; [lia|done|done].
    + intros [|k] x Hx Hp; cbn in Hx; [|by eapply H2]. injection Hx as <-. destruct next as [[j' n]|]; [|done]. specialize (H3 j' n eq_refl).
      destruct (publishes_before r g) eqn:E; [|done]. exfalso.

      unfold better in Eb. revert E Eb H3. unfold publishes_before.
      destruct (ev_time_known (rv_event r)), (ev_time_known (rv_event n)), (ev_time_known (rv_event g)); cbn; try done.
      * rewrite time_ltb_lt, !time_ltb_ge. lia.
      * rewrite Z.ltb_lt, !Z.ltb_ge. lia.
    + done.
Qed.

Lemma same_instant_spec a b : same_instant a b = true <->
  ev_time_known (rv_event a) = true /\ ev_time_known (rv_event b) = true /\ context_time (rv_event a) = context_time (rv_event b).
Proof. unfold same_instant. rewrite !andb_true_iff, bool_decide_eq_true. tauto. Qed.

Lemma final_loop_spec l : forall i0 f j g,
  final_loop l i0 f = Ok (j, g) -> ev_time_known (rv_event f.2) = true ->
  ((j, g) = f \/ exists k, j = (i0 + k)%nat /\ l !! k = Some g /\ publishable g = true) /\
  same_instant g f.2 = true /\ rv_id f.2 <= rv_id g /\
  (forall k r, l !! k = Some r -> publishable r = true -> same_instant r g = true ->
     rv_id r <= rv_id g /\ ev_sample_ordinal (rv_event r) = ev_sample_ordinal (rv_event g)).
Proof.
  assert (Hord : forall l i0 f j g, final_loop l i0 f = Ok (j, g) -> ev_sample_ordinal (rv_event g) = ev_sample_ordinal (rv_event f.2)).
  { clear l. induction l as [|r l IH]; intros i0 f j g H; cbn [final_loop] in H; [by injection H as ->|]. case_match; [|by eapply IH].
    inv_ok. apply IH in H. rewrite H. apply orb_false_iff in E as [E%negb_false_iff%Z.eqb_eq _]. by case_match. }
  induction l as [|r l IH]; intros i0 f j g H Ht; cbn [final_loop] in H.
  { injection H as ->. cbn. split_and!; [by left|by apply same_instant_spec|lia|done]. }
  destruct (publishable r && same_instant r f.2) eqn:Ep.
  - apply andb_true_iff in Ep as [Ep Es]. inv_ok. apply orb_false_iff in E as [E%negb_false_iff%Z.eqb_eq _].
    pose proof Es as (Htr & _ & Ect)%same_instant_spec. pose proof (Hord _ _ _ _ _ H) as Eo.
    destruct (Z.ltb_spec (rv_id f.2) (rv_id r)) as [Hid|Hid].
    + destruct (IH _ _ _ _ H Htr) as (H1 & H2 & H3 & H4). cbn [snd] in *. pose proof H2 as (? & _ & Eg)%same_instant_spec.
      assert (Hgf : same_instant g f.2 = true) by (apply same_instant_spec; split_and!; [done|done|congruence]).
      split_and!; [|done|lia|].
      * right. destruct H1 as [[= -> ->]|(k & -> & ? & ?)]; [exists 0%nat; split_and!; [lia|done|done]|exists (S k); split_and!; [lia|done|done]].
      * intros [|k] x Hx Hp Hs; cbn in Hx; [|by eapply H4]. simplify_eq. split; [lia|congruence].
    + destruct (IH _ _ _ _ H Ht) as (H1 & H2 & H3 & H4). split_and!; [|done|lia|].
      * destruct H1 as [|(k & -> & ? & ?)]; [by left|right]. exists (S k). split_and!; [lia|done|done].
      * intros [|k] x Hx Hp Hs; cbn in Hx; [|by eapply H4]. simplify_eq. split; [lia|congruence].
  - destruct (IH _ _ _ _ H Ht) as (H1 & H2 & H3 & H4). split_and!; [|done|lia|].
    + destruct H1 as [|(k & -> & ? & ?)]; [by left|right]. exists (S k). split_and!; [lia|done|done].
    + intros [|k] x Hx Hp Hs; cbn in Hx; [|by eapply H4]. simplify_eq. rewrite Hp in Ep. cbn in Ep. exfalso.
      apply same_instant_spec in Hs as (? & _ & Ex), H2 as (_ & ? & Eg).
      assert (same_instant x f.2 = true) by (apply same_instant_spec; split_and!; [done|done|congruence]). congruence.
Qed.

Lemma existsb_false {A} (p : A -> bool) l k x : existsb p l = false -> l !! k = Some x -> p x = false.
Proof.
  intros H Hx. destruct (p x) eqn:E; [|done]. assert (existsb p l = true); [|congruence]. apply existsb_exists. exists x.
  split; [|done]. by apply list_elem_of_In, list_elem_of_lookup_2 with k.
Qed.

Lemma publication_group_facts s i g :
  publication_group s = Ok (i, g) ->
  ss_slots s !! i = Some g /\ publishable g = true /\
  forall j r, ss_slots s !! j = Some r -> publishable r = true ->
    if ev_time_known (rv_event g) then
      (ev_time_known (rv_event r) = true -> time_ltb (context_time (rv_event r)) (context_time (rv_event g)) = false) /\
      (same_instant r g = true ->
         rv_id r <= rv_id g /\ ev_sample_ordinal (rv_event r) = ev_sample_ordinal (rv_event g) /\
         (depended_on r = true -> rv_id r = rv_id g \/ same_snapshot (ev_state (rv_event r)) (ev_state (rv_event g)) = true))
    else ev_time_known (rv_event r) = false /\ rv_id r <= rv_id g /\ depended_on r = false.
Proof.
  unfold publication_group, next_publication. destruct (next_loop (ss_slots s) 0 None) as [[i0 f]|] eqn:En; cbn [rbind]; [|done].
  destruct (next_loop_spec _ _ _ _ _ En) as (H1 & H2 & _). destruct H1 as [|(k & Hk & Hf & Hpf)]; [done|]. cbn in Hk. subst i0. cbn [snd].
  destruct (ev_time_known (rv_event f)) eqn:Et; cbn [negb].
  - intros H. apply rbind_Ok in H as ([i' g'] & Hfin & H). destruct (existsb _ _) eqn:E in H; [done|]. injection H as -> ->. cbn [snd] in E.
    destruct (final_loop_spec _ _ _ _ _ Hfin Et) as (H3 & H4 & H5 & H6). cbn [snd] in *.
    assert (Hg : ss_slots s !! i = Some g /\ publishable g = true).
    { destruct H3 as [[= -> ->]|(k' & -> & ? & ?)]; [done|]. done. }
    destruct Hg as [Hg Hpg]. split_and!; [done|done|]. intros j r Hr Hp. pose proof H4 as (-> & _ & Ect)%same_instant_spec. split.
    + intros Ekr. specialize (H2 j r Hr Hp). unfold publishes_before in H2. rewrite Ekr, Et in H2. cbn in H2. congruence.
    + intros Hs. destruct (H6 j r Hr Hp Hs) as [Hid Hso]. split_and!; [done|done|]. intros Hd.
      pose proof (existsb_false _ _ _ _ E Hr) as Hx. cbn beta in Hx. rewrite Hp, Hs, Hd in Hx. cbn in Hx.
      destruct (Z.eqb_spec (rv_id r) (rv_id g)); [by left|]. cbn in Hx. right. by apply negb_false_iff.
  - intros H. destruct (existsb _ _) eqn:E in H; [done|]. injection H as -> ->. split_and!; [done|done|]. intros j r Hr Hp. rewrite Et.
    specialize (H2 j r Hr Hp). unfold publishes_before in H2. rewrite Et in H2.
    destruct (ev_time_known (rv_event r)) eqn:Ekr; cbn in H2; [done|]. apply Z.ltb_ge in H2. split_and!; [done|done|].
    pose proof (existsb_false _ _ _ _ E Hr) as Hx. cbn beta in Hx. rewrite Hp, Ekr in Hx. done.
Qed.

(** The revision published next is the latest one of the earliest instant that is not
    published yet, and every revision of that instant that data depends on has the same
    state; revisions without a time are published only when no timed one is left, the
    latest for all of them, and only if no data depends on any. *)
Theorem publication_order s i g :
  publication_group s = Ok (i, g) ->
  ss_slots s !! i = Some g /\ publishable g = true /\
  forall j r, ss_slots s !! j = Some r -> publishable r = true ->
    if ev_time_known (rv_event g) then
      (ev_time_known (rv_event r) = true -> time_ltb (context_time (rv_event r)) (context_time (rv_event g)) = false) /\
      (same_instant r g = true ->
         rv_id r <= rv_id g /\ ev_sample_ordinal (rv_event r) = ev_sample_ordinal (rv_event g) /\
         (depended_on r = true -> rv_id r = rv_id g \/ same_snapshot (ev_state (rv_event r)) (ev_state (rv_event g)) = true))
    else ev_time_known (rv_event r) = false /\ rv_id r <= rv_id g /\ depended_on r = false.
Proof. apply publication_group_facts. Qed.

(** ** Witnesses *)

Definition empty_store : RevisionStore := store_new 0 4 1 (pool_new request_empty).
Lemma empty_store_ok : store_ok empty_store.
Proof. apply store_new_ok. vm_compute. reflexivity. Qed.

Definition event_at (hz second : Z) : EffectiveEvent :=
  mkEvent (generator_state hz) (mkTime second 0) 0 0 1 0 true true outcome_default None.

(** Two revisions: the initial state and one that takes effect earlier. *)
Definition first_store : RevisionStore := (store_initial empty_store (event_at 2000 20) bundle_empty).2.
Definition reserved_store : RevisionStore := (store_reserve first_store 2).2.
Definition two_revisions : RevisionStore := store_record reserved_store (event_at 1000 10) 2 bundle_empty.

Lemma first_store_ok : store_ok first_store.
Proof. apply store_initial_ok, empty_store_ok. Qed.

Lemma revisions_invariant_witness : store_ok two_revisions /\ rv_id <$> take 2 (ss_slots two_revisions) = [1; 2].
Proof.
  split; [|vm_compute; reflexivity]. apply (revisions_invariant 0 4 1 (pool_new request_empty)); [vm_compute; reflexivity|].
  eapply rtc_l; [apply (step_initial _ (event_at 2000 20) bundle_empty)|].
  eapply rtc_l; [apply (step_reserve _ 2)|].
  eapply rtc_l; [apply (step_record _ (event_at 1000 10) 2 bundle_empty)|]. apply rtc_refl.
Defined.

Lemma reservation_honoured_witness :
  ss_faulted (record_all reserved_store 2 [(event_at 1000 30, bundle_empty); (event_at 1500 40, bundle_empty)]) = false.
Proof.
  destruct (reservation_honoured first_store 2 2 reserved_store [(event_at 1000 30, bundle_empty); (event_at 1500 40, bundle_empty)])
    as (_ & E & _); [apply first_store_ok|vm_compute; reflexivity|cbn; lia| |rewrite E; vm_compute; reflexivity].
  repeat (apply list.Forall_cons; split); [split; vm_compute; reflexivity..|]. apply list.Forall_nil. exact I.
Defined.

Lemma publication_order_witness :
  exists g, publication_group two_revisions = Ok (1%nat, g) /\ ss_slots two_revisions !! 1%nat = Some g /\
    seconds (context_time (rv_event g)) = 10.
Proof.
  destruct (publication_group two_revisions) as [[i g]| |] eqn:E; [|vm_compute in E; discriminate E..].
  destruct (publication_order two_revisions i g E) as (Hi & _). assert (i = 1%nat) as -> by (vm_compute in E; congruence).
  exists g. split; [reflexivity|]. split; [exact Hi|]. vm_compute in Hi. injection Hi as <-. reflexivity.
Defined.
