(* ===== verification/Publisher.v ===== *)
(** * Publication of context: [include/vita/runtime/context/publisher.hpp]

    A [ContextPublisher] announces the revisions of a store as context packets and lets a
    data packet go only after the revision it depends on was announced.  The transport is
    the pair of functions [context_send] and [data_send] of the binding: its answers are
    parameters, functions of everything that happened before.  Every call, every storage
    that [submit] takes and every one that is dropped is an event of a trace.  The outgoing
    storage is a parameter type.  [encode_context] is in [ContextWire]. *)

From stdpp Require Import relations.
From S2P Require Import Prelude Wire Fields Time Clock Scheduling State Admission History Revisions.

Record ContextFrame := mkFrame {
  cf_state : StateSnapshot; cf_time : ProtocolTime; cf_epoch : Z; cf_time_known : bool; cf_change : bool; cf_refresh : bool;
  cf_valid : bool; cf_revision_id : Z; cf_generation : Z; cf_observation : bool }.

Inductive StreamStatus := idle | active | context_unavailable | metadata_unknown | backend_fault | temporal_association.
#[global] Instance StreamStatus_eq_dec : EqDecision StreamStatus.
Proof. solve_decision. Defined.

(** [1u<<31] and [1u<<19] *)
Definition calibrated_enable : Z := 0x80000000.
Definition calibrated_indicator : Z := 0x80000.

(** The indicator word of a state, 0 if it has none. *)
Definition indicators_of (s : StateSnapshot) : Z :=
  if is_known (field_at s 2) then default 0 (if_uint32 (fs_value (field_at s 2))) else 0.
Definition set_indicators (s : StateSnapshot) (v : Z) : StateSnapshot :=
  set_field s 2 (mkFieldState Field.StateEvent (v_uint32 v) Validity.known).
Definition set_bit (b : bool) (value mask : Z) : Z := if b then Z.lor value mask else clear_bits value mask.

Definition frame (calibrated : bool) (r : Revision) (epoch : Z) (refresh : bool) (now : ProtocolTime) : ContextFrame :=
  let event := rv_event r in
  let valid := required_known (ev_state event) in
  let v := Z.lor (indicators_of (ev_state event)) (Z.lor calibrated_enable valid_data_enable) in
  let v := set_bit calibrated v calibrated_indicator in
  let v := set_bit valid v valid_data_indicator in
  let v := if refresh then clear_bits v sample_loss_bits else v in
  mkFrame (set_indicators (ev_state event) v) (if refresh then now else context_time event) epoch
    (refresh || ev_time_known event) (negb refresh) refresh valid (rv_id r) (ev_association_generation event) false.

Definition as_observation (f : ContextFrame) : ContextFrame :=
  mkFrame (cf_state f) (cf_time f) (cf_epoch f) (cf_time_known f) true (cf_refresh f) (cf_valid f) (cf_revision_id f) (cf_generation f) true.

(** The frame that announces a fault. *)
Definition invalid_frame (calibrated : bool) (fault : option StateSnapshot) (r : Revision) (epoch : Z) (now : ProtocolTime) : ContextFrame :=
  let f := frame calibrated r epoch false (mkTime 0 0) in
  let s := default (cf_state f) fault in
  let v := clear_bits (indicators_of s)
             (Z.lor (Z.lor (Z.lor valid_data_indicator sample_loss_enable) sample_loss_indicator) calibrated_indicator) in
  let v := Z.lor (Z.lor v valid_data_enable) calibrated_enable in
  let v := if calibrated then Z.lor v calibrated_indicator else v in
  mkFrame (set_indicators s v) now (cf_epoch f) true (cf_change f) true false (cf_revision_id f) (cf_generation f) true.

Section publisher.
Context {Storage : Type}.

Inductive PubEvent :=
  | ContextSent (f : ContextFrame) (ok : bool)
  | DataSent (storage : Storage) (r : Revision) (ok : bool)
  | StorageTaken (storage : Storage)
  | StorageDropped (storage : Storage)
  | Detached.

Record ContextPublisher := mkPublisher {
  pb_store : RevisionStore; pb_bound : bool;
  pb_held : list (option (Storage * nat)); pb_held_count : Z;
  pb_status : StreamStatus; pb_blocked : option MonoTime; pb_refresh_at : MonoTime;
  pb_refresh_started : bool; pb_invalid_sent : bool; pb_start_gate : bool; pb_starting_run : bool; pb_calibrated : bool;
  pb_highwater : option ProtocolTime; pb_fault_snapshot : option StateSnapshot; pb_highwater_state : option StateSnapshot;
  pb_trace : list PubEvent }.

(** The answers of the transport to [context_send] and [data_send]. *)
Context (context_answer : list PubEvent -> ContextFrame -> Result unit) (data_answer : list PubEvent -> Storage -> Revision -> Result unit).

Definition publisher_new (store : RevisionStore) (bound : bool) (capacity : nat) : ContextPublisher :=
  mkPublisher store bound (replicate capacity None) 0 idle None (mkMono 0) false false true true false None None None [].

Definition with_store (p : ContextPublisher) (s : RevisionStore) : ContextPublisher :=
  mkPublisher s (pb_bound p) (pb_held p) (pb_held_count p) (pb_status p) (pb_blocked p) (pb_refresh_at p) (pb_refresh_started p)
    (pb_invalid_sent p) (pb_start_gate p) (pb_starting_run p) (pb_calibrated p) (pb_highwater p) (pb_fault_snapshot p) (pb_highwater_state p) (pb_trace p).
Definition with_trace (p : ContextPublisher) (e : list PubEvent) : ContextPublisher :=
  mkPublisher (pb_store p) (pb_bound p) (pb_held p) (pb_held_count p) (pb_status p) (pb_blocked p) (pb_refresh_at p) (pb_refresh_started p)
    (pb_invalid_sent p) (pb_start_gate p) (pb_starting_run p) (pb_calibrated p) (pb_highwater p) (pb_fault_snapshot p) (pb_highwater_state p) (pb_trace p ++ e).
Definition with_held (p : ContextPublisher) (h : list (option (Storage * nat))) (n : Z) : ContextPublisher :=
  mkPublisher (pb_store p) (pb_bound p) h n (pb_status p) (pb_blocked p) (pb_refresh_at p) (pb_refresh_started p)
    (pb_invalid_sent p) (pb_start_gate p) (pb_starting_run p) (pb_calibrated p) (pb_highwater p) (pb_fault_snapshot p) (pb_highwater_state p) (pb_trace p).
Definition with_status (p : ContextPublisher) (st : StreamStatus) : ContextPublisher :=
  mkPublisher (pb_store p) (pb_bound p) (pb_held p) (pb_held_count p) st (pb_blocked p) (pb_refresh_at p) (pb_refresh_started p)
    (pb_invalid_sent p) (pb_start_gate p) (pb_starting_run p) (pb_calibrated p) (pb_highwater p) (pb_fault_snapshot p) (pb_highwater_state p) (pb_trace p).
Definition with_blocked (p : ContextPublisher) (b : option MonoTime) : ContextPublisher :=
  mkPublisher (pb_store p) (pb_bound p) (pb_held p) (pb_held_count p) (pb_status p) b (pb_refresh_at p) (pb_refresh_started p)
    (pb_invalid_sent p) (pb_start_gate p) (pb_starting_run p) (pb_calibrated p) (pb_highwater p) (pb_fault_snapshot p) (pb_highwater_state p) (pb_trace p).
Definition with_refresh (p : ContextPublisher) (t : MonoTime) (started : bool) : ContextPublisher :=
  mkPublisher (pb_store p) (pb_bound p) (pb_held p) (pb_held_count p) (pb_status p) (pb_blocked p) t started
    (pb_invalid_sent p) (pb_start_gate p) (pb_starting_run p) (pb_calibrated p) (pb_highwater p) (pb_fault_snapshot p) (pb_highwater_state p) (pb_trace p).
Definition with_invalid_sent (p : ContextPublisher) (b : bool) : ContextPublisher :=
  mkPublisher (pb_store p) (pb_bound p) (pb_held p) (pb_held_count p) (pb_status p) (pb_blocked p) (pb_refresh_at p) (pb_refresh_started p)
    b (pb_start_gate p) (pb_starting_run p) (pb_calibrated p) (pb_highwater p) (pb_fault_snapshot p) (pb_highwater_state p) (pb_trace p).
Definition with_gate (p : ContextPublisher) (gate run : bool) : ContextPublisher :=
  mkPublisher (pb_store p) (pb_bound p) (pb_held p) (pb_held_count p) (pb_status p) (pb_blocked p) (pb_refresh_at p) (pb_refresh_started p)
    (pb_invalid_sent p) gate run (pb_calibrated p) (pb_highwater p) (pb_fault_snapshot p) (pb_highwater_state p) (pb_trace p).
Definition with_calibrated (p : ContextPublisher) (b : bool) : ContextPublisher :=
  mkPublisher (pb_store p) (pb_bound p) (pb_held p) (pb_held_count p) (pb_status p) (pb_blocked p) (pb_refresh_at p) (pb_refresh_started p)
    (pb_invalid_sent p) (pb_start_gate p) (pb_starting_run p) b (pb_highwater p) (pb_fault_snapshot p) (pb_highwater_state p) (pb_trace p).
Definition with_highwater (p : ContextPublisher) (t : option ProtocolTime) (s : option StateSnapshot) : ContextPublisher :=
  mkPublisher (pb_store p) (pb_bound p) (pb_held p) (pb_held_count p) (pb_status p) (pb_blocked p) (pb_refresh_at p) (pb_refresh_started p)
    (pb_invalid_sent p) (pb_start_gate p) (pb_starting_run p) (pb_calibrated p) t (pb_fault_snapshot p) s (pb_trace p).
Definition with_fault_snapshot (p : ContextPublisher) (s : option StateSnapshot) : ContextPublisher :=
  mkPublisher (pb_store p) (pb_bound p) (pb_held p) (pb_held_count p) (pb_status p) (pb_blocked p) (pb_refresh_at p) (pb_refresh_started p)
    (pb_invalid_sent p) (pb_start_gate p) (pb_starting_run p) (pb_calibrated p) (pb_highwater p) s (pb_highwater_state p) (pb_trace p).

(** ** Calls of the transport *)

Definition send_context (p : ContextPublisher) (f : ContextFrame) : Result unit * ContextPublisher :=
  let r := context_answer (pb_trace p) f in (r, with_trace p [ContextSent f (is_ok r)]).
Definition send_data (p : ContextPublisher) (storage : Storage) (r : Revision) : Result unit * ContextPublisher :=
  let a := data_answer (pb_trace p) storage r in (a, with_trace p [DataSent storage r (is_ok a)]).

(** [stop]: the held packets are dropped and their handles released. *)
Fixpoint drop_held (s : RevisionStore) (h : list (option (Storage * nat))) : RevisionStore * list PubEvent :=
  match h with
  | [] => (s, [])
  | None :: h => drop_held s h
  | Some (storage, i) :: h =>
      let '(s, es) := drop_held (release_handle s i) h in (s, StorageDropped storage :: es)
  end.
Definition stop (p : ContextPublisher) (st : StreamStatus) : ContextPublisher :=
  let '(s, es) := drop_held (pb_store p) (pb_held p) in
  with_trace (with_held (with_store (with_status p st) s) (replicate (length (pb_held p)) None) 0) es.
Definition temporal_fault (p : ContextPublisher) : ContextPublisher := stop p temporal_association.
Definition publisher_backend_fault (p : ContextPublisher) (observed : StateSnapshot) : ContextPublisher :=
  let p := with_fault_snapshot p (Some observed) in
  stop (with_store p (store_fault (pb_store p))) backend_fault.

(** The revision at a slot, which the code reads through a pointer. *)
Definition revision_at (p : ContextPublisher) (i : nat) : option Revision := ss_slots (pb_store p) !! i.
Definition current_revision (p : ContextPublisher) : Result Revision :=
  let? i := store_current (pb_store p) in deref (revision_at p i).

(** [!context_highwater_||t>*context_highwater_] *)
Definition above_highwater (p : ContextPublisher) (t : ProtocolTime) : bool :=
  match pb_highwater p with None => true | Some h => time_ltb h t end.
Definition raise_highwater (p : ContextPublisher) (f : ContextFrame) : ContextPublisher :=
  if above_highwater p (cf_time f) then with_highwater p (Some (cf_time f)) (Some (cf_state f)) else p.

Definition publisher_start (p : ContextPublisher) (now : MonoTime) : Result unit * ContextPublisher :=
  let refuse := (Err (error1 ErrorCode.invalid_state), p) in
  match current_revision p with
  | UB => (UB, p)
  | Err _ => refuse
  | Ok r =>
      if ss_faulted (pb_store p) || negb (required_known (ev_state (rv_event r))) then refuse else
      if negb (pb_bound p) || negb (bool_decide (pb_status p = idle)) then refuse else
      (Ok tt, with_blocked (with_gate (with_refresh (with_status p active) now false) true true) (Some now))
  end.

Definition submit (p : ContextPublisher) (storage : Storage) (h : RevisionHandle) (now : MonoTime) : Result unit * ContextPublisher :=
  let drop p := if store_owns (pb_store p) h then with_store p (release_handle (pb_store p) (rh_slot h)) else p in
  let refuse := (Err (error1 ErrorCode.invalid_state), drop p) in
  if negb (bool_decide (pb_status p = active)) || negb (store_owns (pb_store p) h) then refuse else
  match revision_at p (rh_slot h) with
  | None => (UB, p)
  | Some r =>
      if negb (ev_association_generation (rv_event r) =? ss_generation (pb_store p)) || ss_faulted (pb_store p) ||
         negb (required_known (ev_state (rv_event r))) then refuse else
      match note_data_dependency (pb_store p) h with
      | (UB, _) => (UB, p)
      | (Err e, s) => (Err e, drop (with_store p s))
      | (Ok _, s) =>
          let p := with_store p s in
          if negb (pb_start_gate p) && bool_decide (rv_publication r = Publication.accepted) then
            let '(a, p) := send_data p storage (set_dependency r) in
            (a, drop (if is_ok a then with_trace p [StorageTaken storage] else p))
          else
          let p := match pb_blocked p with None => with_blocked p (Some now) | Some _ => p end in
          if pb_held_count p =? zlen (pb_held p) then (Err (error1 ErrorCode.capacity_exhausted), drop (stop p context_unavailable)) else
          match first_free (pb_held p) with
          | Some i => (Ok tt, with_trace (with_held p (<[i := Some (storage, rh_slot h)]> (pb_held p)) (wrap64 (pb_held_count p + 1))) [StorageTaken storage])
          | None => (Err (error1 ErrorCode.capacity_exhausted), drop p)
          end
      end
  end.

(** ** Progress

    A phase ends the call ([Some] result) or passes the publisher on. *)
Abbreviation Phase := (option (Result unit) * ContextPublisher)%type.
Definition go_on (x : Phase) (k : ContextPublisher -> Phase) : Phase :=
  match x with (Some r, p) => (Some r, p) | (None, p) => k p end.
Definition fail_with (e : ErrorCode.t) (p : ContextPublisher) : Phase := (Some (Err (error1 e)), p).

(** A stream in a fault state announces once that its data is not valid. *)
Definition announce_fault (p : ContextPublisher) (protocol_now : ProtocolTime) (epoch : Z) (clock_usable : bool) : Phase :=
  if negb (pb_invalid_sent p) && clock_usable then
    if negb (above_highwater p protocol_now) then fail_with ErrorCode.identity_conflict p else
    match current_revision p with
    | UB => (Some UB, p)
    | Err _ => fail_with ErrorCode.invalid_state p
    | Ok r =>
        let f := invalid_frame (pb_calibrated p) (pb_fault_snapshot p) r epoch protocol_now in
        let '(sent, p) := send_context p f in
        let p := with_invalid_sent p (is_ok sent) in
        fail_with ErrorCode.invalid_state
          (if is_ok sent then with_highwater p (Some protocol_now) (Some (cf_state f)) else p)
    end
  else fail_with ErrorCode.invalid_state p.

(** The frame for the next group, or the snapshot that stands for revisions without a time. *)
Definition outgoing_frame (p : ContextPublisher) (g : Revision) (protocol_now : ProtocolTime) (epoch : Z)
    : (Result unit + ContextFrame) * ContextPublisher :=
  if negb (ev_time_known (rv_event g)) then
    if negb (pb_starting_run p) then (inl (Err (error1 ErrorCode.invalid_state)), temporal_fault p) else
    match current_revision p with
    | UB => (inl UB, p)
    | Err e => (inl (Err e), p)
    | Ok r => (inr (as_observation (frame (pb_calibrated p) r epoch true protocol_now)), p)
    end
  else (inr (frame (pb_calibrated p) g epoch false (mkTime 0 0)), p).

(** A frame at or before the high water must repeat its time and state. *)
Definition out_of_order (p : ContextPublisher) (f : ContextFrame) : bool :=
  cf_time_known f &&
  match pb_highwater p with
  | None => false
  | Some h => negb (time_ltb h (cf_time f)) &&
      (time_ltb (cf_time f) h ||
       match pb_highwater_state p with None => true | Some s => negb (same_snapshot (cf_state f) s) end)
  end.

(** One iteration of the publication loop; [false] ends the loop. *)
Definition publish_one (p : ContextPublisher) (now : MonoTime) (protocol_now : ProtocolTime) (epoch : Z) : Phase * bool :=
  match publication_group (pb_store p) with
  | UB => ((Some UB, p), false)
  | Err e => ((if bool_decide (err_code e = ErrorCode.identity_conflict) then (Some (Err e), temporal_fault p) else (None, p)), false)
  | Ok (i, g) =>
      let p := match pb_blocked p with None => with_blocked p (Some now) | Some _ => p end in
      match outgoing_frame p g protocol_now epoch with
      | (inl r, p) => ((Some r, p), false)
      | (inr f, p) =>
          if out_of_order p f then (fail_with ErrorCode.identity_conflict (temporal_fault p), false) else
          let '(sent, p) := send_context p f in
          match sent with
          | UB => ((Some UB, p), false)
          | Err e => ((Some (Err e), p), false)
          | Ok _ =>
              let p := if cf_time_known f then raise_highwater p f else p in
              match accept_group (pb_store p) (mkHandle (ss_owner (pb_store p)) i) with
              | (UB, _) => ((Some UB, p), false)
              | (Err e, s) => ((Some (Err e), with_store p s), false)
              | (Ok _, s) =>
                  let p := with_refresh (with_store p s) now true in
                  let p :=
                    if pb_start_gate p then
                      match current_revision p with
                      | Ok c => if cf_time_known f && bool_decide (cf_time f = protocol_now) && (cf_revision_id f =? rv_id c)
                                then with_gate p false (pb_starting_run p) else p
                      | _ => p
                      end
                    else p in
                  ((None, p), true)
              end
          end
      end
  end.

Fixpoint publish_loop (n : nat) (p : ContextPublisher) (now : MonoTime) (protocol_now : ProtocolTime) (epoch : Z) : Phase :=
  match n with
  | O => (None, p)
  | S n =>
      match publish_one p now protocol_now epoch with
      | ((Some r, p), _) => (Some r, p)
      | ((None, p), false) => (None, p)
      | ((None, p), true) => publish_loop n p now protocol_now epoch
      end
  end.

(** The first frame of a run is a snapshot of the current state. *)
Definition open_gate (p : ContextPublisher) (now : MonoTime) (protocol_now : ProtocolTime) (epoch : Z) : Phase :=
  if pb_start_gate p then
    match current_revision p with
    | UB => (Some UB, p)
    | Err e => (Some (Err e), p)
    | Ok r =>
        if negb (above_highwater p protocol_now) then fail_with ErrorCode.identity_conflict (temporal_fault p) else
        let f := as_observation (frame (pb_calibrated p) r epoch true protocol_now) in
        let '(sent, p) := send_context p f in
        match sent with
        | UB => (Some UB, p)
        | Err e => (Some (Err e), p)
        | Ok _ => (None, with_refresh (with_gate (with_highwater p (Some protocol_now) (Some (cf_state f))) false (pb_starting_run p)) now true)
        end
    end
  else (None, p).

(** The held packets whose revision was announced. *)
Fixpoint send_held (n i : nat) (p : ContextPublisher) : Phase :=
  match n with
  | O => (None, p)
  | S n =>
      match pb_held p !! i with
      | None => (Some UB, p)
      | Some None => send_held n (S i) p
      | Some (Some (storage, slot)) =>
          match revision_at p slot with
          | None => (Some UB, p)
          | Some r =>
              if bool_decide (rv_publication r = Publication.accepted) then
                let '(sent, p) := send_data p storage r in
                match sent with
                | UB => (Some UB, p)
                | Err e => (Some (Err e), p)
                | Ok _ =>
                    let p := with_store p (release_handle (pb_store p) slot) in
                    send_held n (S i) (with_held p (<[i := None]> (pb_held p)) (wrap64 (pb_held_count p - 1)))
                end
              else send_held n (S i) p
          end
      end
  end.

Definition refresh_period : Z := 1000000000.
Definition block_limit : Z := 10000000.
Definition elapsed (since now : MonoTime) (limit : Z) : bool := (ns since <=? ns now) && (limit <=? wrap64 (ns now - ns since)).

Definition refresh_context (p : ContextPublisher) (now : MonoTime) (protocol_now : ProtocolTime) (epoch : Z) : Phase :=
  if pb_refresh_started p && elapsed (pb_refresh_at p) now refresh_period then
    if negb (above_highwater p protocol_now) then fail_with ErrorCode.identity_conflict (temporal_fault p) else
    match current_revision p with
    | UB => (Some UB, p)
    | Err e => (Some (Err e), p)
    | Ok r =>
        let f := frame (pb_calibrated p) r epoch true protocol_now in
        let '(sent, p) := send_context p f in
        match sent with
        | UB => (Some UB, p)
        | Err e => (Some (Err e), match pb_blocked p with None => with_blocked p (Some now) | Some _ => p end)
        | Ok _ => (None, raise_highwater (with_refresh p now (pb_refresh_started p)) f)
        end
    end
  else (None, p).

(** The part of [progress] for an active stream. *)
Definition progress_active (p : ContextPublisher) (now : MonoTime) (protocol_now : ProtocolTime) (epoch : Z) : Phase :=
  if (match pb_blocked p with Some t => elapsed t now block_limit | None => false end)
  then fail_with ErrorCode.capacity_exhausted (stop p context_unavailable) else
  go_on (publish_loop (length (ss_slots (pb_store p))) p now protocol_now epoch) (fun p =>
  go_on (open_gate p now protocol_now epoch) (fun p =>
  go_on (send_held (length (pb_held p)) 0 p) (fun p =>
  go_on (refresh_context p now protocol_now epoch) (fun p =>
  let p := with_gate (with_blocked p None) (pb_start_gate p) false in
  (Some (Ok tt), with_store p (store_collect (pb_store p))))))).

Definition progress (p : ContextPublisher) (now : MonoTime) (protocol_now : ProtocolTime) (epoch : Z) (clock_usable calibrated : bool)
    : Result unit * ContextPublisher :=
  let p := with_calibrated p (calibrated && clock_usable) in
  let finish x := match x with (Some r, p) => (r, p) | (None, p) => (Ok tt, p) end in
  if negb (valid protocol_now) || (epoch =? Tsi.none) || (3 <? epoch) then (Err (error1 ErrorCode.invalid_argument), p) else
  if negb (pb_bound p) then (Err (error1 ErrorCode.invalid_state), p) else
  let p := if ss_faulted (pb_store p) && bool_decide (pb_status p = active) then stop p metadata_unknown else p in
  if bool_decide (pb_status p = metadata_unknown) || bool_decide (pb_status p = backend_fault) then
    finish (announce_fault p protocol_now epoch clock_usable)
  else if negb clock_usable || negb (bool_decide (pb_status p = active)) then (Err (error1 ErrorCode.invalid_state), p)
  else finish (progress_active p now protocol_now epoch).

(** [progress] from a snapshot of the protocol clock. *)
Definition progress_clock (p : ContextPublisher) (now : MonoTime) (clock : ClockSnapshot) : Result unit * ContextPublisher :=
  let locked := bool_decide (snap_state clock = ClockState.locked) in
  let usable := locked || bool_decide (snap_state clock = ClockState.holdover) in
  progress p now (snap_time clock) (snap_epoch clock + 1) usable (snap_calibrated clock && locked).

(** ** Pausing and detaching *)

Definition pause (p : ContextPublisher) : ContextPublisher :=
  if bool_decide (pb_status p = active) || bool_decide (pb_status p = context_unavailable) then
    match current_revision p with
    | Ok r => if negb (ss_faulted (pb_store p)) && required_known (ev_state (rv_event r)) then with_blocked (stop p idle) None else p
    | _ => p
    end
  else p.

Definition publisher_detach (p : ContextPublisher) (generation : Z) : Result unit * ContextPublisher :=
  match store_detach (pb_store p) generation with
  | (UB, s) => (UB, p)
  | (Err e, s) => (Err e, with_store p s)
  | (Ok _, s) =>
      let p := stop (with_store p s) idle in
      let p := with_refresh (with_blocked p None) (pb_refresh_at p) false in
      let p := with_fault_snapshot (with_highwater (with_invalid_sent p false) None None) None in
      (Ok tt, with_trace p [Detached])
  end.
End publisher.
