(* ===== verification/PublisherProofs.v ===== *)
(** * Context before data, and in order: proofs about [Publisher]

    [publisher_inv] is the invariant of a publisher with its trace: the accepted frames of an
    association are ordered in time and never contradict each other, a revision counts as
    accepted only after a frame that announces it, data follows the announcement of its
    revision, and every storage taken is held, sent or dropped once. *)

From stdpp Require Import relations sorting.
From S2P Require Import Prelude Wire Fields Time Clock Scheduling State Admission History Revisions Publisher.

#[local] Arguments count_if : simpl never.

(** ** Snapshots with the same state *)

Lemma same_field_spec a b : same_field a b = true <->
  fs_id a = fs_id b /\ fs_validity a = fs_validity b /\ (is_known a = true -> fs_value a = fs_value b).
Proof.
  unfold same_field. rewrite !andb_true_iff, fid_eqb_eq, Z.eqb_eq, orb_true_iff, negb_true_iff, bool_decide_eq_true.
  destruct (is_known a); split; [intros [[? ?] [?|?]]|intros (? & ? & ?)|intros [[? ?] [?|?]]|intros (? & ? & ?)]; (split_and! || split); try done; (try by right; auto); (try by left); auto; done.
Qed.

Definition same_state (a b : StateSnapshot) : Prop := same_snapshot a b = true.

Lemma same_state_spec a b : same_state a b <->
  st_profile a = st_profile b /\ forall i, (i < active_state_fields (st_profile a))%nat -> same_field (field_at a i) (field_at b i) = true.
Proof.
  unfold same_state, same_snapshot. rewrite andb_true_iff, Z.eqb_eq, forallb_forall. setoid_rewrite in_seq. naive_solver lia.
Qed.

#[global] Instance same_state_equivalence : Equivalence same_state.
Proof.
  split.
  - intros a. apply same_state_spec. split; [done|]. intros i _. by apply same_field_spec.
  - intros a b [Ep Hf]%same_state_spec. apply same_state_spec. split; [done|]. rewrite <- Ep. intros i Hi.
    apply same_field_spec. destruct (proj1 (same_field_spec _ _) (Hf i Hi)) as (E1 & E2 & E3). split_and!; [done|done|].
    unfold is_known in *. rewrite <- E2. intros Hk. by rewrite E3.
  - intros a b c [Ep Hf]%same_state_spec [Ep' Hf']%same_state_spec. apply same_state_spec. split; [congruence|]. intros i Hi.
    apply same_field_spec. destruct (proj1 (same_field_spec _ _) (Hf i Hi)) as (E1 & E2 & E3). rewrite Ep in Hi.
    destruct (proj1 (same_field_spec _ _) (Hf' i Hi)) as (E1' & E2' & E3'). split_and!; [congruence|congruence|].
    intros Hk. rewrite E3 by done. apply E3'. unfold is_known in *. by rewrite <- E2.
Qed.

(** ** The order of the frames *)

(** [follows a b]: frame [b] may come after frame [a]. *)
Definition follows (a b : ContextFrame) : Prop :=
  time_ltb (cf_time a) (cf_time b) = true \/ (cf_time a = cf_time b /\ same_state (cf_state a) (cf_state b)).

Section proofs.
Context {Storage : Type}.
Context (context_answer : list (PubEvent (Storage := Storage)) -> ContextFrame -> Result unit).
Context (data_answer : list (PubEvent (Storage := Storage)) -> Storage -> Revision -> Result unit).
Abbreviation Trace := (list (PubEvent (Storage := Storage))).
Abbreviation Publisher := (ContextPublisher (Storage := Storage)).

(** The accepted frames of the current association. *)
Definition frame_step (fs : list ContextFrame) (e : PubEvent (Storage := Storage)) : list ContextFrame :=
  match e with
  | ContextSent f true => fs ++ [f]
  | Detached => []
  | _ => fs
  end.
Definition accepted_frames (tr : Trace) : list ContextFrame := foldl frame_step [] tr.

Lemma accepted_frames_snoc tr e : accepted_frames (tr ++ [e]) = frame_step (accepted_frames tr) e.
Proof. apply foldl_snoc. Qed.

(** What is true of the high water. *)
Definition highwater_ok (hw : option ProtocolTime) (hs : option StateSnapshot) (fs : list ContextFrame) : Prop :=
  StronglySorted follows fs /\
  match hw with
  | None => fs = []
  | Some h => exists s, hs = Some s /\
      forall f, f ∈ fs -> time_ltb (cf_time f) h = true \/ (cf_time f = h /\ same_state (cf_state f) s)
  end.

(** A frame announces a revision of its association: it is the frame of that revision or of
    its instant, or, for a revision without a time, a snapshot. *)
Definition announces (f : ContextFrame) (r : Revision) : Prop :=
  cf_generation f = ev_association_generation (rv_event r) /\
  (cf_revision_id f = rv_id r \/
   (ev_time_known (rv_event r) = true /\ cf_time f = context_time (rv_event r)) \/
   (ev_time_known (rv_event r) = false /\ cf_observation f = true)).

Definition announced (tr : Trace) (r : Revision) : Prop := exists f, ContextSent f true ∈ tr /\ announces f r.

(** Every data packet sent comes after a frame that announces its revision. *)
Definition data_announced (tr : Trace) : Prop :=
  forall before storage r after, tr = before ++ DataSent storage r true :: after -> announced before r.

Definition storages (p : list (option (Storage * nat))) : list Storage := occupied fst p.
Definition taken (tr : Trace) : list Storage := omap (fun e => match e with StorageTaken s => Some s | _ => None end) tr.
Definition settled (tr : Trace) : list Storage :=
  omap (fun e => match e with DataSent s _ true => Some s | StorageDropped s => Some s | _ => None end) tr.

Record publisher_inv (p : Publisher) : Prop := mk_publisher_inv {
  pi_store : store_ok (pb_store p);
  pi_slots : forall i s k, pb_held p !! i = Some (Some (s, k)) -> (k < length (ss_slots (pb_store p)))%nat;
  pi_count : pb_held_count p = Z.of_nat (count_if is_some (pb_held p)) /\ zlen (pb_held p) <= U64_MAX;
  pi_water : highwater_ok (pb_highwater p) (pb_highwater_state p) (accepted_frames (pb_trace p));
  pi_accepted : forall i r, ss_slots (pb_store p) !! i = Some r -> rv_publication r = Publication.accepted -> announced (pb_trace p) r;
  pi_data : data_announced (pb_trace p);
  pi_storage : taken (pb_trace p) ≡ₚ storages (pb_held p) ++ settled (pb_trace p)
}.

(** Only the store, the held packets, the high water and the trace matter. *)
Lemma publisher_inv_ext p q :
  pb_store q = pb_store p -> pb_held q = pb_held p -> pb_held_count q = pb_held_count p -> pb_highwater q = pb_highwater p ->
  pb_highwater_state q = pb_highwater_state p -> pb_trace q = pb_trace p -> publisher_inv p -> publisher_inv q.
Proof. intros E1 E2 E3 E4 E5 E6 []. split; rewrite ?E1, ?E2, ?E3, ?E4, ?E5, ?E6; done. Qed.

Ltac inv_ext := (eapply publisher_inv_ext; [..|eassumption]; reflexivity).

(** ** Changes of the store *)

(** An accepted revision stays as it was; nothing else becomes accepted. *)
Definition acceptance_kept (s s' : RevisionStore) : Prop :=
  (length (ss_slots s) <= length (ss_slots s'))%nat /\
  forall i r', ss_slots s' !! i = Some r' -> rv_publication r' = Publication.accepted ->
    exists r, ss_slots s !! i = Some r /\ rv_publication r = Publication.accepted /\ rv_id r = rv_id r' /\ rv_event r = rv_event r'.

Lemma acceptance_kept_refl s : acceptance_kept s s.
Proof. split; [done|]. intros i r Hr Ha. by exists r. Qed.

Lemma acceptance_kept_trans s s1 s2 : acceptance_kept s s1 -> acceptance_kept s1 s2 -> acceptance_kept s s2.
Proof.
  intros [L1 H1] [L2 H2]. split; [lia|]. intros i r Hr Ha. destruct (H2 i r Hr Ha) as (r1 & Hr1 & Ha1 & E1 & E2).
  destruct (H1 i r1 Hr1 Ha1) as (r0 & Hr0 & Ha0 & E3 & E4). exists r0. split_and!; [done|done|congruence|congruence].
Qed.

Lemma announced_ext tr r r' : rv_id r = rv_id r' -> rv_event r = rv_event r' -> announced tr r -> announced tr r'.
Proof. intros E1 E2 (f & Hf & Ha). exists f. unfold announces in *. by rewrite <- E1, <- E2. Qed.

Lemma announced_mono tr tr' r : announced tr r -> announced (tr ++ tr') r.
Proof. intros (f & Hf & Ha). exists f. split; [apply elem_of_app; by left|done]. Qed.

Lemma inv_with_store p s : publisher_inv p -> store_ok s -> acceptance_kept (pb_store p) s -> publisher_inv (with_store p s).
Proof.
  intros [] Hs [Hl Hk]. split; cbn; try done.
  - intros i st k Hi. specialize (pi_slots0 i st k Hi). lia.
  - intros i r Hr Ha. destruct (Hk i r Hr Ha) as (r0 & Hr0 & Ha0 & E1 & E2). eapply announced_ext; [exact E1|exact E2|by eapply pi_accepted0].
Qed.

Lemma acceptance_map s f : (forall r, rv_publication (f r) = Publication.accepted -> rv_publication r = Publication.accepted /\ rv_id (f r) = rv_id r /\ rv_event (f r) = rv_event r) ->
  acceptance_kept s (set_slots s (f <$> ss_slots s)).
Proof.
  intros Hf. split; [cbn; by rewrite length_fmap|]. cbn. intros i r' Hr' Ha. rewrite list_lookup_fmap in Hr'. apply fmap_Some in Hr' as (r & Hr & ->).
  destruct (Hf r Ha) as (? & -> & ->). by exists r.
Qed.

Lemma acceptance_alter s f i : (forall r, rv_publication (f r) = rv_publication r /\ rv_id (f r) = rv_id r /\ rv_event (f r) = rv_event r) ->
  acceptance_kept s (set_slots s (alter f i (ss_slots s))).
Proof.
  intros Hf. split; [cbn; by rewrite length_alter|]. cbn. intros j r' Hr' Ha. destruct (decide (i = j)) as [<-|Hne].
  - rewrite list_lookup_alter in Hr'. rewrite decide_True in Hr' by done. apply fmap_Some in Hr' as (r & Hr & ->). destruct (Hf r) as (E1 & E2 & E3). exists r. split_and!; [done|congruence|done|done].
  - rewrite list_lookup_alter in Hr'. rewrite decide_False in Hr' by congruence. by exists r'.
Qed.

Lemma acceptance_release s i : acceptance_kept s (release_handle s i).
Proof. by apply acceptance_alter. Qed.
Lemma acceptance_retain s i : acceptance_kept s (retain_handle s i).
Proof. by apply acceptance_alter. Qed.

Lemma acceptance_collect s : acceptance_kept s (store_collect s).
Proof.
  split; [destruct (store_collect_fields s) as (_ & _ & _ & _ & _ & -> & _); done|].
  unfold store_collect. intros i r'. assert (H : forall l i0 pool j x, (collect_loop (ss_current s) i0 l pool).1 !! j = Some x ->
    exists r, l !! j = Some r /\ rv_publication r = rv_publication x /\ rv_id r = rv_id x /\ rv_event r = rv_event x).
  { clear. induction l as [|r l IH]; intros i0 pool j x H; cbn [collect_loop] in H; [done|]. destruct (collectable _ _ _).
    - destruct (bundle_reset pool (rv_credits r)) as [b pool']. specialize (IH (S i0) pool'). destruct (collect_loop _ _ _ _) as [l' pool'']. cbn in *.
      destruct j as [|j]; cbn in *; [simplify_eq; by exists r|by apply IH].
    - specialize (IH (S i0) pool). destruct (collect_loop _ _ _ _) as [l' pool'']. cbn in *. destruct j as [|j]; cbn in *; [simplify_eq; by exists x|by apply IH]. }
  specialize (H (ss_slots s) 0%nat (ss_pool s) i r'). destruct (collect_loop _ _ _ _) as [l pool]. cbn in *. intros Hr' Ha.
  destruct (H Hr') as (r & ? & E & ? & ?). exists r. split_and!; [done|congruence|done|done].
Qed.

Lemma acceptance_dependency s h : acceptance_kept s (note_data_dependency s h).2.
Proof.
  unfold note_data_dependency. test_goal E; [apply acceptance_kept_refl|]. destruct (ss_slots s !! rh_slot h) as [r|] eqn:Er; [|apply acceptance_kept_refl].
  test_goal E1; [|apply acceptance_kept_refl]. cbn [snd]. rewrite <- (alter_map_insert set_dependency _ _ _ Er). by apply acceptance_alter.
Qed.

Lemma acceptance_reserve s n : acceptance_kept s (store_reserve s n).2.
Proof.
  unfold store_reserve. test_goal E; [apply acceptance_kept_refl|]. cbv zeta. eapply acceptance_kept_trans; [apply acceptance_collect|].
  generalize (store_collect s). clear s E. intros s. test_goal E1; [apply acceptance_kept_refl|]. test_goal E2; [apply acceptance_kept_refl|]. cbn [snd].
  generalize (ss_next_reservation s). intros token. generalize (ss_owner s) (ss_generation s) (ss_next_id s) (wrap64 (token + 1)) (ss_current s) (ss_faulted s) (ss_pool s).
  intros. unfold acceptance_kept. cbn [ss_slots]. clear -token. revert n. induction (ss_slots s) as [|r l IH]; intros n; cbn [reserve_slots]; [by split|].
  destruct n as [|n]; [split; [done|]; intros i x Hx Ha; by exists x|]. destruct (rv_occupied r).
  - destruct (IH (S n)) as [H1 H2]. split; [cbn; lia|]. intros [|i] x Hx Ha; cbn in *; [simplify_eq; by exists x|by apply H2].
  - destruct (IH n) as [H1 H2]. split; [cbn; lia|]. intros [|i] x Hx Ha; cbn in *; [by simplify_eq|by apply H2].
Qed.

Lemma acceptance_same_slots s s' : ss_slots s' = ss_slots s -> acceptance_kept s s'.
Proof. intros E. unfold acceptance_kept. rewrite E. apply acceptance_kept_refl. Qed.

Lemma acceptance_record s event token credits : acceptance_kept s (store_record s event token credits).
Proof.
  unfold store_record. test_goal E; [by apply acceptance_same_slots|]. destruct (first_index _ _) as [i|]; [|by apply acceptance_same_slots].
  destruct (ss_slots s !! i) as [r|] eqn:Er; [|by apply acceptance_same_slots]. split; cbn; [by rewrite length_insert|].
  intros j x Hx Ha. apply list_lookup_insert_Some in Hx as [(_ & <- & _)|[_ Hx]]; [done|by exists x].
Qed.

Lemma acceptance_release_reservation s token : acceptance_kept s (release_reservation s token).
Proof. apply acceptance_map. intros r. by case_match. Qed.

Lemma acceptance_initial s event credits : acceptance_kept s (store_initial s event credits).2.
Proof.
  unfold store_initial. destruct (check_initial s event); [|by apply acceptance_same_slots|apply acceptance_kept_refl].
  pose proof (acceptance_reserve s 1) as H. destruct (store_reserve s 1) as [[token|e|] s']; cbn [snd] in *; [|done|done].
  eapply acceptance_kept_trans; [exact H|]. eapply acceptance_kept_trans; [apply acceptance_record|apply acceptance_release_reservation].
Qed.

Lemma acceptance_detach s generation : acceptance_kept s (store_detach s generation).2.
Proof.
  unfold store_detach. destruct (generation <=? ss_generation s); [apply acceptance_kept_refl|]. cbn [snd].
  eapply acceptance_kept_trans; [|apply acceptance_collect]. 
  set (leave := fun r => if rv_occupied r then (if rv_committed r then set_detached r else set_occupied r false) else r).
  eapply acceptance_kept_trans; [apply (acceptance_map s leave)|by apply acceptance_same_slots]. intros r. unfold leave. by repeat case_match.
Qed.

(** ** Changes of the trace *)

Lemma water_above hw hs fs f :
  highwater_ok hw hs fs -> match hw with None => true | Some h => time_ltb h (cf_time f) end = true ->
  highwater_ok (Some (cf_time f)) (Some (cf_state f)) (fs ++ [f]).
Proof.
  intros [Hs Hw] Ha.
  assert (Hb : forall x, x ∈ fs -> time_ltb (cf_time x) (cf_time f) = true).
  { intros x Hx. destruct hw as [h|]; [|subst fs; by apply elem_of_nil in Hx]. destruct Hw as (s & _ & Hall).
    destruct (Hall x Hx) as [H|[-> _]]; [|done]. rewrite time_ltb_lt in *. lia. }
  split.
  - apply StronglySorted_app. split_and!; [|done|repeat constructor]. intros x y Hx ->%list_elem_of_singleton. left. by apply Hb.
  - exists (cf_state f). split; [done|]. intros x [Hx| ->%list_elem_of_singleton]%elem_of_app; [left; by apply Hb|by right].
Qed.

Lemma water_equal h s fs f :
  highwater_ok (Some h) (Some s) fs -> cf_time f = h -> same_state (cf_state f) s -> highwater_ok (Some h) (Some s) (fs ++ [f]).
Proof.
  intros [Hs (s' & [= <-] & Hall)] Et Ef. split.
  - apply StronglySorted_app. split_and!; [|done|repeat constructor]. intros x y Hx ->%list_elem_of_singleton.
    destruct (Hall x Hx) as [H|[E H]]; [left; by rewrite Et|right]. split; [congruence|]. by rewrite H, Ef.
  - exists s. split; [done|]. intros x [Hx| ->%list_elem_of_singleton]%elem_of_app; [by apply Hall|by right].
Qed.

Lemma data_announced_snoc tr e :
  data_announced tr -> (forall s r, e = DataSent s r true -> announced tr r) -> data_announced (tr ++ [e]).
Proof.
  intros Hd He before storage r after E. induction after as [|x after _] using rev_ind.
  - apply app_inj_tail in E as [<- ->]. by apply (He storage).
  - rewrite app_comm_cons, app_assoc in E. apply app_inj_tail in E as [-> _]. by eapply Hd.
Qed.

(** One event that neither takes nor settles a storage. *)
Lemma inv_push p e hw hs :
  publisher_inv p -> highwater_ok hw hs (frame_step (accepted_frames (pb_trace p)) e) ->
  (forall s r, e = DataSent s r true -> announced (pb_trace p) r) -> taken [e] = [] -> settled [e] = [] ->
  publisher_inv (with_highwater (with_trace p [e]) hw hs).
Proof.
  intros [] Hw Hd Ht Hs. split; cbn; try done.
  - by rewrite accepted_frames_snoc.
  - intros i r Hr Ha. apply announced_mono. by eapply pi_accepted0.
  - by apply data_announced_snoc.
  - unfold taken, settled in *. rewrite !omap_app, Ht, Hs, !app_nil_r. done.
Qed.

Lemma inv_sent_failed p f : publisher_inv p -> publisher_inv (with_trace p [ContextSent f false]).
Proof.
  intros Hp. eapply publisher_inv_ext; [..|apply (inv_push p (ContextSent f false) (pb_highwater p) (pb_highwater_state p) Hp)]; try done.
  cbn. apply Hp.
Qed.

Lemma inv_sent_above p f : publisher_inv p -> above_highwater p (cf_time f) = true ->
  publisher_inv (with_highwater (with_trace p [ContextSent f true]) (Some (cf_time f)) (Some (cf_state f))).
Proof. intros Hp Ha. apply inv_push; try done. cbn. eapply water_above; [apply Hp|done]. Qed.

(** A frame that is not out of order, with the high water raised. *)
Lemma inv_sent_ordered p f : publisher_inv p -> cf_time_known f = true -> out_of_order p f = false ->
  publisher_inv (raise_highwater (with_trace p [ContextSent f true]) f).
Proof.
  intros Hp Ek Ho. unfold raise_highwater. destruct (above_highwater (with_trace p [ContextSent f true]) (cf_time f)) eqn:Ea; [by apply inv_sent_above|].
  unfold above_highwater in Ea. cbn in Ea. unfold out_of_order in Ho. rewrite Ek in Ho. cbn [andb] in Ho.
  pose proof (pi_water p Hp) as Hw. destruct (pb_highwater p) as [h|] eqn:Eh; [|done]. rewrite Ea in Ho. cbn [negb andb] in Ho.
  apply orb_false_iff in Ho as [Hlt Hst]. destruct (pb_highwater_state p) as [s|] eqn:Es; [|done]. apply negb_false_iff in Hst.
  assert (Et : cf_time f = h) by (apply time_eq; rewrite time_ltb_ge in Ea, Hlt; lia).
  eapply publisher_inv_ext; [..|apply (inv_push p (ContextSent f true) (Some h) (Some s) Hp)]; try done.
  cbn. by apply water_equal.
Qed.

(** ** Held packets *)

Lemma storages_replicate n : storages (replicate n None) = [].
Proof. apply occupied_empty. Qed.

Lemma drop_held_spec h : forall s, store_ok s ->
  let '(s', es) := drop_held s h in
  store_ok s' /\ acceptance_kept s s' /\ es = StorageDropped (Storage := Storage) <$> storages h.
Proof.
  induction h as [|[[storage i]|] h IH]; intros s Hs; cbn [drop_held].
  - split_and!; [done|apply acceptance_kept_refl|done].
  - specialize (IH (release_handle s i)). destruct (drop_held (release_handle s i) h) as [s' es]. destruct IH as (H1 & H2 & ->).
    { eapply store_step_ok; [apply step_drop|done]. }
    split_and!; [done|eapply acceptance_kept_trans; [apply acceptance_release|done]|done].
  - by apply IH.
Qed.

Lemma dropped_events l :
  let es := StorageDropped (Storage := Storage) <$> l in
  taken es = [] /\ settled es = l /\ (forall fs, foldl frame_step fs es = fs) /\ (forall s r, DataSent s r true ∉ es) /\ (forall f, ContextSent f true ∉ es).
Proof.
  cbv zeta. induction l as [|x l (H1 & H2 & H3 & H4 & H5)]; [split_and!; try done; intros; apply not_elem_of_nil|].
  rewrite !fmap_cons. split_and!; [done|cbn; f_equal; exact H2|intros; cbn; apply H3|..];
    intros; apply not_elem_of_cons; (split; [done|auto]).
Qed.

Lemma data_announced_app tr es : data_announced tr -> (forall s r, DataSent s r true ∉ es) -> data_announced (tr ++ es).
Proof.
  revert tr. induction es as [|e es IH]; intros tr Hd He; [by rewrite app_nil_r|].
  rewrite cons_middle, app_assoc. apply IH.
  - apply data_announced_snoc; [done|]. intros s r ->. exfalso. apply (He s r). by left.
  - intros s r Hin. apply (He s r). by right.
Qed.

Lemma inv_stop p st : publisher_inv p -> publisher_inv (stop p st).
Proof.
  intros Hp. unfold stop. pose proof (drop_held_spec (pb_held p) (pb_store p) (pi_store p Hp)) as H.
  destruct (drop_held (pb_store p) (pb_held p)) as [s es]. destruct H as (Hs & [Hl Hk] & ->). destruct Hp as [? ? [Hc Hb] ? ? ? Hst].
  destruct (dropped_events (storages (pb_held p))) as (E1 & E2 & E3 & E4 & E5). split; cbn; try done.
  - intros i x k Hi. by apply replicate_none in Hi.
  - rewrite count_if_replicate_none. unfold zlen in *. by rewrite length_replicate.
  - unfold accepted_frames. rewrite foldl_app, E3. done.
  - intros i r Hr Ha. apply announced_mono. destruct (Hk i r Hr Ha) as (r0 & Hr0 & Ha0 & Ei & Ee).
    eapply announced_ext; [exact Ei|exact Ee|by eapply pi_accepted0].
  - by apply data_announced_app.
  - rewrite storages_replicate. cbn [app]. unfold taken, settled in *. rewrite !omap_app, E1, app_nil_r, E2, Hst. by rewrite Permutation_app_comm.
Qed.

(** ** The phases of [progress] *)

Hypothesis context_safe : forall tr f, safe (context_answer tr f).
Hypothesis data_safe : forall tr s r, safe (data_answer tr s r).

(** A phase keeps the invariant and has no undefined behaviour. *)
Definition phase_ok (x : option (Result unit) * Publisher) : Prop := publisher_inv x.2 /\ x.1 <> Some UB.

Lemma go_on_ok x k : phase_ok x -> (forall p, publisher_inv p -> phase_ok (k p)) -> phase_ok (go_on x k).
Proof. destruct x as [[r|] p]; intros [H1 H2] Hk; [done|by apply Hk]. Qed.

Lemma current_revision_ok p : publisher_inv p ->
  safe (current_revision p) /\
  forall r, current_revision p = Ok r -> ev_association_generation (rv_event r) = ss_generation (pb_store p).
Proof.
  intros Hp. unfold current_revision, store_current. destruct (ss_current (pb_store p)) as [c|] eqn:E; cbn [rbind]; [|done].
  pose proof (pi_store p Hp) as Hs. destruct (so_current _ Hs c E) as (r & Hr & E1 & E2 & _). unfold revision_at. rewrite Hr. cbn [deref]. split; [done|].
  intros r' [= <-]. by apply (so_generation _ Hs c r).
Qed.

Lemma final_loop_safe l : forall i f, safe (final_loop l i f).
Proof. induction l as [|r l IH]; intros i f; cbn [final_loop]; [done|]. repeat case_match; done || apply IH. Qed.

Lemma publication_group_safe s : safe (publication_group s).
Proof.
  unfold publication_group, next_publication. destruct (next_loop _ _ _) as [[i f]|]; cbn [rbind]; [|done].
  case_match; [by case_match|]. apply rbind_safe; [apply final_loop_safe|]. intros. by case_match.
Qed.

(** Accepting the group that was just announced. *)
Lemma accept_announced p i g f :
  publisher_inv p -> publication_group (pb_store p) = Ok (i, g) -> ContextSent f true ∈ pb_trace p ->
  cf_generation f = ss_generation (pb_store p) ->
  (if ev_time_known (rv_event g) then cf_revision_id f = rv_id g /\ cf_time f = context_time (rv_event g) else cf_observation f = true) ->
  exists s, accept_group (pb_store p) (mkHandle (ss_owner (pb_store p)) i) = (Ok tt, s) /\ publisher_inv (with_store p s).
Proof.
  intros Hp Hg Hf Egen Hann. pose proof (pi_store p Hp) as Hs. destruct (publication_group_facts _ _ _ Hg) as (Hi & Hpg & _).
  unfold publishable in Hpg. rewrite !andb_true_iff, negb_true_iff in Hpg. destruct Hpg as [[Hc Hd] _].
  pose proof (so_generation _ Hs i g Hi Hc Hd) as Hgen.
  assert (E : accept_group (pb_store p) (mkHandle (ss_owner (pb_store p)) i) =
    (Ok tt, set_slots (pb_store p) ((fun r => if covered g r then set_publication r Publication.accepted else r) <$> ss_slots (pb_store p)))).
  { unfold accept_group, store_owns. cbn [rh_owner rh_slot]. rewrite Nat.eqb_refl. cbn [negb]. rewrite Hi, Hgen, Z.eqb_refl, Hg, Z.eqb_refl. done. }
  eexists. split; [exact E|].
  assert (Hok : store_ok (accept_group (pb_store p) (mkHandle (ss_owner (pb_store p)) i)).2) by (by apply accept_group_ok).
  rewrite E in Hok. cbn [snd] in Hok. destruct Hp. split; cbn; try done.
  - intros j s k Hj. rewrite length_fmap. by eapply pi_slots0.
  - intros j r Hr Ha. rewrite list_lookup_fmap in Hr. apply fmap_Some in Hr as (r0 & Hr0 & ->).
    destruct (covered g r0) eqn:Ecov; [|by eapply pi_accepted0]. apply (announced_ext _ r0); [done|done|].
    unfold covered, publishable in Ecov. rewrite !andb_true_iff, !orb_true_iff, !andb_true_iff, !negb_true_iff, !Z.eqb_eq in Ecov.
    destruct Ecov as [[[Hc0 Hd0] _] Hcov]. exists f. split; [done|]. split.
    { rewrite Egen. symmetry. by apply (so_generation _ Hs j r0). }
    destruct Hcov as [[Eid|[Et Etg]]|[Hsi _]].
    + assert (j = i) as -> by (by eapply (so_unique _ Hs)). assert (r0 = g) as -> by congruence. destruct (ev_time_known (rv_event g)); [by left; destruct Hann|by right; right].
    + rewrite Etg in Hann. by right; right.
    + apply same_instant_spec in Hsi as (Et & Etg & Ect). rewrite Etg in Hann. destruct Hann as [_ Ht]. right. left. split; [done|congruence].
Qed.

Lemma frame_fields c r epoch refresh now :
  let f := frame c r epoch refresh now in
  cf_generation f = ev_association_generation (rv_event r) /\ cf_revision_id f = rv_id r /\
  cf_time f = (if refresh then now else context_time (rv_event r)) /\ cf_time_known f = refresh || ev_time_known (rv_event r).
Proof. done. Qed.

Lemma publish_one_ok p now protocol_now epoch : publisher_inv p -> phase_ok (publish_one context_answer p now protocol_now epoch).1.
Proof.
  intros Hp. unfold publish_one. pose proof (publication_group_safe (pb_store p)) as Hsafe.
  destruct (publication_group (pb_store p)) as [[i g]|e|] eqn:Eg; [|case_bool_decide; split; cbn; [by apply inv_stop|done|done|done]|done].
  set (p1 := match pb_blocked p with None => with_blocked p (Some now) | Some _ => p end).
  assert (Hp1 : publisher_inv p1) by (unfold p1; case_match; [done|inv_ext]).
  assert (Es1 : pb_store p1 = pb_store p) by (unfold p1; by case_match). clearbody p1. rewrite <- Es1 in Eg. clear Hp Es1 Hsafe p.
  assert (Hframe : match outgoing_frame p1 g protocol_now epoch with
    | (inl r, p2) => publisher_inv p2 /\ r <> UB
    | (inr f, p2) => p2 = p1 /\ cf_time_known f = true /\ cf_generation f = ss_generation (pb_store p1) /\
        (if ev_time_known (rv_event g) then cf_revision_id f = rv_id g /\ cf_time f = context_time (rv_event g) else cf_observation f = true)
    end).
  { unfold outgoing_frame. destruct (publication_group_facts _ _ _ Eg) as (Hi & Hpg & _). unfold publishable in Hpg.
    rewrite !andb_true_iff, negb_true_iff in Hpg. destruct Hpg as [[Hc Hd] _]. destruct (ev_time_known (rv_event g)) eqn:Et; cbn [negb].
    - split_and!; [done|cbn; exact Et| |done|done]. by apply (so_generation _ (pi_store p1 Hp1) i).
    - destruct (pb_starting_run p1); cbn [negb]; [|split; [by apply inv_stop|done]].
      destruct (current_revision_ok p1 Hp1) as [Hsafe Hgen]. destruct (current_revision p1) as [r|e|]; [|done|done].
      split_and!; [done|done|by apply Hgen|done]. }
  destruct (outgoing_frame p1 g protocol_now epoch) as [[r|f] p2]; [destruct Hframe; by split; cbn; [|congruence]|].
  destruct Hframe as (-> & Ek & Egen & Hann). destruct (out_of_order p1 f) eqn:Eo; [split; cbn; [by apply inv_stop|done]|].
  unfold send_context. pose proof (context_safe (pb_trace p1) f) as Hca.
  destruct (context_answer (pb_trace p1) f) as [[]|e|]; cbn [is_ok]; [|split; cbn; [by apply inv_sent_failed|done]|done].
  rewrite Ek. pose proof (inv_sent_ordered p1 f Hp1 Ek Eo) as Hp2.
  assert (Es2 : pb_store (raise_highwater (with_trace p1 [ContextSent f true]) f) = pb_store p1) by (unfold raise_highwater; by destruct (above_highwater _ _)).
  assert (Hin : ContextSent f true ∈ pb_trace (raise_highwater (with_trace p1 [ContextSent f true]) f)).
  { unfold raise_highwater. destruct (above_highwater _ _); cbn; apply elem_of_app; right; by apply list_elem_of_singleton. }
  set (p2 := raise_highwater (with_trace p1 [ContextSent f true]) f) in *. clearbody p2.
  destruct (accept_announced p2 i g f Hp2) as (s & -> & Hp3); [by rewrite Es2|done|by rewrite Es2|done|].
  split; cbn [fst snd]; [|done].
  set (p3 := with_refresh (with_store p2 s) now true). assert (Hp4 : publisher_inv p3) by inv_ext.
  repeat case_match; first [done|inv_ext].
Qed.

Lemma publish_loop_ok n : forall p now protocol_now epoch, publisher_inv p -> phase_ok (publish_loop context_answer n p now protocol_now epoch).
Proof.
  induction n as [|n IH]; intros p now protocol_now epoch Hp; cbn [publish_loop]; [by split|].
  pose proof (publish_one_ok p now protocol_now epoch Hp) as H. destruct (publish_one context_answer p now protocol_now epoch) as [[[r|] p'] b]; [done|].
  destruct b; [apply IH; apply H|done].
Qed.

Lemma open_gate_ok p now protocol_now epoch : publisher_inv p -> phase_ok (open_gate context_answer p now protocol_now epoch).
Proof.
  intros Hp. unfold open_gate. destruct (pb_start_gate p); [|by split]. destruct (current_revision_ok p Hp) as [Hsafe _].
  destruct (current_revision p) as [r|e|]; [|by split|done].
  set (f := as_observation _). destruct (above_highwater p protocol_now) eqn:Ea; cbn [negb]; [|split; cbn; [by apply inv_stop|done]].
  unfold send_context. pose proof (context_safe (pb_trace p) f) as Hca.
  destruct (context_answer (pb_trace p) f) as [[]|e|]; cbn [is_ok]; [|split; cbn; [by apply inv_sent_failed|done]|done].
  pose proof (inv_sent_above p f Hp Ea). split; cbn [fst snd]; [inv_ext|done].
Qed.

Lemma refresh_context_ok p now protocol_now epoch : publisher_inv p -> phase_ok (refresh_context context_answer p now protocol_now epoch).
Proof.
  intros Hp. unfold refresh_context. test_goal E; [|by split].
  destruct (above_highwater p protocol_now) eqn:Ea; cbn [negb]; [|split; cbn; [by apply inv_stop|done]].
  destruct (current_revision_ok p Hp) as [Hsafe _]. destruct (current_revision p) as [r|e|]; [|by split|done].
  set (f := frame _ _ _ _ _). unfold send_context. pose proof (context_safe (pb_trace p) f) as Hca.
  destruct (context_answer (pb_trace p) f) as [[]|e|]; cbn [is_ok]; [| |done].
  - pose proof (inv_sent_above p f Hp Ea) as Hp2. split; cbn [fst snd]; [|done]. unfold raise_highwater.
    change (above_highwater (with_refresh (with_trace p [ContextSent f true]) now (pb_refresh_started (with_trace p [ContextSent f true]))) (cf_time f))
      with (above_highwater p protocol_now). rewrite Ea. inv_ext.
  - pose proof (inv_sent_failed p f Hp). split; cbn [fst snd]; [|done]. case_match; [done|inv_ext].
Qed.

Lemma announce_fault_ok p protocol_now epoch usable : publisher_inv p -> phase_ok (announce_fault context_answer p protocol_now epoch usable).
Proof.
  intros Hp. unfold announce_fault, fail_with. test_goal E; [|by split].
  destruct (above_highwater p protocol_now) eqn:Ea; cbn [negb]; [|by split].
  destruct (current_revision_ok p Hp) as [Hsafe _]. destruct (current_revision p) as [r|e|]; [|by split|done].
  set (f := invalid_frame _ _ _ _ _). unfold send_context. split; [|done]. cbn [snd].
  destruct (context_answer (pb_trace p) f) as [[]|e|]; cbn [is_ok].
  - pose proof (inv_sent_above p f Hp Ea). inv_ext.
  - pose proof (inv_sent_failed p f Hp). inv_ext.
  - pose proof (inv_sent_failed p f Hp). inv_ext.
Qed.

(** A data packet whose revision was announced. *)
Lemma inv_data_failed p storage r : publisher_inv p -> publisher_inv (with_trace p [DataSent storage r false]).
Proof.
  intros Hp. eapply publisher_inv_ext; [..|apply (inv_push p (DataSent storage r false) (pb_highwater p) (pb_highwater_state p) Hp)]; try done.
  cbn. apply Hp.
Qed.

Lemma inv_held_sent p i storage k r :
  publisher_inv p -> pb_held p !! i = Some (Some (storage, k)) -> ss_slots (pb_store p) !! k = Some r -> rv_publication r = Publication.accepted ->
  publisher_inv (with_held (with_store (with_trace p [DataSent storage r true]) (release_handle (pb_store p) k))
                   (<[i := None]> (pb_held p)) (wrap64 (pb_held_count p - 1))).
Proof.
  intros Hp Hi Hk Ha. assert (Hlt : (i < length (pb_held p))%nat) by (by eapply lookup_lt_Some).
  pose proof Hp as [Hs Hsl [Hc Hb] Hw Hac Hd Hst].
  pose proof (count_if_insert is_some (pb_held p) i (Some (storage, k)) None Hi) as Hcount. cbn [is_some] in Hcount.
  assert (count_if is_some (pb_held p) <= length (pb_held p))%nat by (apply List.filter_length_le).
  split; cbn.
  - eapply store_step_ok; [apply step_drop|done].
  - intros j s k' Hj. rewrite length_alter. apply list_lookup_insert_Some in Hj as [(_ & ? & _)|[_ Hj]]; [done|by eapply Hsl].
  - unfold zlen in *. rewrite length_insert, Hc. split; [|done]. rewrite wrap64_small; lia.
  - rewrite accepted_frames_snoc. done.
  - intros j r' Hr' Ha'. apply announced_mono. destruct (acceptance_release (pb_store p) k) as [_ Hkept].
    destruct (Hkept j r' Hr' Ha') as (r0 & Hr0 & Ha0 & E1 & E2). eapply announced_ext; [exact E1|exact E2|by eapply Hac].
  - apply data_announced_snoc; [done|]. intros s r' [= <- <-]. by eapply Hac.
  - unfold taken, settled in *. rewrite !omap_app. cbn [omap list_omap]. rewrite app_nil_r, Hst.
    assert (E : storages (pb_held p) ≡ₚ storage :: storages (<[i:=None]> (pb_held p))).
    { unfold storages. rewrite <- (occupied_insert_free fst (<[i:=None]> (pb_held p)) i (storage, k)) by (by apply list_lookup_insert_eq).
      by rewrite list_insert_insert_eq, list_insert_id. }
    rewrite E. rewrite (app_assoc (storages _)). rewrite <- Permutation_cons_append. done.
Qed.

Lemma send_held_ok n : forall i p, publisher_inv p -> (i + n = length (pb_held p))%nat -> phase_ok (send_held data_answer n i p).
Proof.
  induction n as [|n IH]; intros i p Hp Hn; cbn [send_held]; [by split|].
  destruct (lookup_lt_is_Some_2 (pb_held p) i) as [slot Hi]; [lia|]. rewrite Hi. destruct slot as [[storage k]|]; [|apply IH; [done|lia]].
  pose proof (pi_slots p Hp i storage k Hi) as Hk. destruct (lookup_lt_is_Some_2 _ _ Hk) as [r Hr]. unfold revision_at. rewrite Hr.
  case_bool_decide as Ha; [|apply IH; [done|lia]]. unfold send_data. pose proof (data_safe (pb_trace p) storage r) as Hda.
  destruct (data_answer (pb_trace p) storage r) as [[]|e|]; cbn [is_ok]; [|split; cbn; [by apply inv_data_failed|done]|done].
  apply IH; [exact (inv_held_sent p i storage k r Hp Hi Hr Ha)|]. cbn. rewrite length_insert. lia.
Qed.

Lemma progress_active_ok p now protocol_now epoch : publisher_inv p -> phase_ok (progress_active context_answer data_answer p now protocol_now epoch).
Proof.
  intros Hp. unfold progress_active. destruct (match pb_blocked p with Some t => elapsed t now block_limit | None => false end); [split; cbn; [by apply inv_stop|done]|].
  apply go_on_ok; [by apply publish_loop_ok|]. intros p1 Hp1. apply go_on_ok; [by apply open_gate_ok|]. intros p2 Hp2.
  apply go_on_ok; [by apply send_held_ok|]. intros p3 Hp3. apply go_on_ok; [by apply refresh_context_ok|]. intros p4 Hp4.
  split; cbn [fst snd]; [|done]. apply (inv_with_store (with_gate (with_blocked p4 None) (pb_start_gate p4) false)); [inv_ext| |apply acceptance_collect].
  apply store_collect_ok. apply Hp4.
Qed.

Lemma progress_ok p now protocol_now epoch usable calibrated : publisher_inv p ->
  let '(r, p') := progress context_answer data_answer p now protocol_now epoch usable calibrated in publisher_inv p' /\ safe r.
Proof.
  intros Hp. unfold progress. set (p1 := with_calibrated p _). assert (Hp1 : publisher_inv p1) by inv_ext. clearbody p1. clear p Hp.
  test_goal E1; [done|]. test_goal E2; [done|]. 
  match goal with |- context [if ?c then stop p1 metadata_unknown else p1] => set (p2 := if c then stop p1 metadata_unknown else p1) end.
  assert (Hp2 : publisher_inv p2) by (unfold p2; case_match; [by apply inv_stop|done]).
  clearbody p2. test_goal E3.
  - pose proof (announce_fault_ok p2 protocol_now epoch usable Hp2) as [H1 H2]. destruct (announce_fault _ _ _ _ _) as [[r|] p3]; [|done].
    split; [done|]. cbn in H2. congruence.
  - test_goal E4; [done|]. pose proof (progress_active_ok p2 now protocol_now epoch Hp2) as [H1 H2].
    destruct (progress_active _ _ _ _ _ _) as [[r|] p3]; [|done]. split; [done|]. cbn in H2. congruence.
Qed.

(** ** The other operations *)

Lemma inv_release p i : publisher_inv p -> publisher_inv (with_store p (release_handle (pb_store p) i)).
Proof.
  intros Hp. apply inv_with_store; [done| |apply acceptance_release]. eapply store_step_ok; [apply step_drop|apply Hp].
Qed.

(** A storage that is sent at once. *)
Lemma inv_direct_sent p storage r :
  publisher_inv p -> announced (pb_trace p) r ->
  publisher_inv (with_trace (with_trace p [DataSent storage r true]) [StorageTaken storage]).
Proof.
  intros [] Ha. split; cbn; try done.
  - rewrite !accepted_frames_snoc. done.
  - intros i r' Hr' Ha'. do 2 apply announced_mono. by eapply pi_accepted0.
  - apply data_announced_snoc; [|done]. apply data_announced_snoc; [done|]. by intros s r' [= <- <-].
  - unfold taken, settled in *. rewrite !omap_app. cbn [omap list_omap]. rewrite !app_nil_r, pi_storage0.
    by rewrite app_assoc.
Qed.

(** A storage that has to wait. *)
Lemma inv_hold p i storage k :
  publisher_inv p -> first_free (pb_held p) = Some i -> (k < length (ss_slots (pb_store p)))%nat ->
  publisher_inv (with_trace (with_held p (<[i := Some (storage, k)]> (pb_held p)) (wrap64 (pb_held_count p + 1))) [StorageTaken storage]).
Proof.
  intros [Hs Hsl [Hc Hb] Hw Hac Hd Hst] Hf Hk. pose proof (first_free_Some _ _ Hf) as Hi.
  pose proof (count_if_insert is_some (pb_held p) i None (Some (storage, k)) Hi) as Hcount. cbn [is_some] in Hcount.
  assert (count_if is_some (<[i:=Some (storage, k)]> (pb_held p)) <= length (pb_held p))%nat
    by (etransitivity; [apply List.filter_length_le|by rewrite length_insert]).
  split; cbn; try done.
  - intros j s k' Hj. apply list_lookup_insert_Some in Hj as [(_ & [= <- <-] & _)|[_ Hj]]; [done|by eapply Hsl].
  - unfold zlen in *. rewrite length_insert, Hc. split; [|done]. rewrite wrap64_small; lia.
  - by rewrite accepted_frames_snoc.
  - intros j r Hr Ha. apply announced_mono. by eapply Hac.
  - by apply data_announced_snoc.
  - unfold taken, settled in *. rewrite !omap_app. cbn [omap list_omap]. rewrite app_nil_r, Hst.
    etransitivity; [|apply Permutation_app_tail; symmetry; exact (occupied_insert_free fst (pb_held p) i (storage, k) Hi)].
    cbn [app]. by rewrite <- Permutation_cons_append.
Qed.

(** A handle of the store refers to one of its slots. *)
Definition handle_ok (s : RevisionStore) (h : RevisionHandle) : Prop :=
  store_owns s h = true -> (rh_slot h < length (ss_slots s))%nat.

Lemma submit_ok p storage h now : publisher_inv p -> handle_ok (pb_store p) h ->
  let '(r, p') := submit data_answer p storage h now in publisher_inv p' /\ safe r.
Proof.
  intros Hp Hh. unfold submit.
  assert (Hdrop : forall q, publisher_inv q -> publisher_inv (if store_owns (pb_store q) h then with_store q (release_handle (pb_store q) (rh_slot h)) else q)).
  { intros q Hq. case_match; [by apply inv_release|done]. }
  test_goal E1; [split; [by apply Hdrop|done]|]. apply orb_false_iff in E1 as [_ E1%negb_false_iff]. specialize (Hh E1).
  destruct (lookup_lt_is_Some_2 _ _ Hh) as [r Hr]. unfold revision_at. rewrite Hr. test_goal E2; [split; [by apply Hdrop|done]|].
  pose proof (note_data_dependency_ok (pb_store p) h (pi_store p Hp)) as Hs. pose proof (acceptance_dependency (pb_store p) h) as Hk.
  assert (Hsafe : safe (note_data_dependency (pb_store p) h).1) by (unfold note_data_dependency; by repeat case_match).
  assert (Hl : length (ss_slots (note_data_dependency (pb_store p) h).2) = length (ss_slots (pb_store p))).
  { unfold note_data_dependency. repeat case_match; try done. cbn. by rewrite length_insert. }
  destruct (note_data_dependency (pb_store p) h) as [[[]|e|] s]; cbn [fst snd] in *; [|split; [by apply Hdrop, inv_with_store|done]|done].
  set (p1 := with_store p s). assert (Hp1 : publisher_inv p1) by (by apply inv_with_store).
  test_goal E3.
  - apply andb_true_iff in E3 as [_ Ea%bool_decide_eq_true]. unfold send_data. pose proof (data_safe (pb_trace p1) storage (set_dependency r)) as Hda.
    destruct (data_answer (pb_trace p1) storage (set_dependency r)) as [[]|e|]; cbn [is_ok]; [| |done].
    + split; [|done]. apply Hdrop. apply inv_direct_sent; [done|]. apply (announced_ext _ r); [done|done|]. by eapply (pi_accepted p Hp).
    + split; [|done]. apply Hdrop. by apply inv_data_failed.
  - set (p2 := match pb_blocked p1 with None => with_blocked p1 (Some now) | Some _ => p1 end).
    assert (Hp2 : publisher_inv p2) by (unfold p2; case_match; [done|inv_ext]).
    assert (Es : ss_slots (pb_store p2) = ss_slots s) by (unfold p2; by case_match). clearbody p2.
    test_goal E4; [split; [by apply Hdrop, inv_stop|done]|].
    destruct (first_free (pb_held p2)) as [i|] eqn:Ef; [|split; [by apply Hdrop|done]].
    split; [|done]. apply inv_hold; [done|done|]. rewrite Es, Hl. done.
Qed.

Lemma start_ok p now : publisher_inv p -> let '(r, p') := publisher_start p now in publisher_inv p' /\ safe r.
Proof.
  intros Hp. unfold publisher_start. destruct (current_revision_ok p Hp) as [Hsafe _]. destruct (current_revision p) as [r|e|]; [|done|done].
  test_goal E1; [done|]. test_goal E2; [done|]. split; [inv_ext|done].
Qed.

Lemma pause_ok p : publisher_inv p -> publisher_inv (pause p).
Proof.
  intros Hp. unfold pause. repeat case_match; try done. assert (publisher_inv (stop p idle)) by (by apply inv_stop). inv_ext.
Qed.

Lemma backend_fault_ok p observed : publisher_inv p -> publisher_inv (publisher_backend_fault p observed).
Proof.
  intros Hp. unfold publisher_backend_fault. apply inv_stop. apply inv_with_store; [inv_ext| |by apply acceptance_same_slots].
  apply store_fault_ok. apply Hp.
Qed.

Lemma detach_ok p generation : publisher_inv p -> let '(r, p') := publisher_detach p generation in publisher_inv p' /\ safe r.
Proof.
  intros Hp. unfold publisher_detach. pose proof (store_detach_ok (pb_store p) generation (pi_store p Hp)) as Hs.
  pose proof (acceptance_detach (pb_store p) generation) as Hk. unfold store_detach in *.
  destruct (generation <=? ss_generation (pb_store p)); cbn [snd] in *; [split; [by apply inv_with_store|done]|].
  split; [|done]. set (p1 := stop _ idle). assert (Hp1 : publisher_inv p1) by (apply inv_stop; by apply inv_with_store). clearbody p1.
  eapply publisher_inv_ext; [..|apply (inv_push p1 Detached None None Hp1)]; try done. cbn. split; [constructor|done].
Qed.

(** ** Reachable publishers *)

(** The operations of the publisher, and those that others perform on its store. *)
Inductive publisher_step (p : Publisher) : Publisher -> Prop :=
  | step_start now : publisher_step p (publisher_start p now).2
  | step_submit storage h now : handle_ok (pb_store p) h -> publisher_step p (submit data_answer p storage h now).2
  | step_progress now protocol_now epoch usable calibrated :
      publisher_step p (progress context_answer data_answer p now protocol_now epoch usable calibrated).2
  | step_pause : publisher_step p (pause p)
  | step_backend_fault observed : publisher_step p (publisher_backend_fault p observed)
  | step_temporal_fault : publisher_step p (temporal_fault p)
  | step_publisher_detach generation : publisher_step p (publisher_detach p generation).2
  | step_control_reserve n : publisher_step p (with_store p (store_reserve (pb_store p) n).2)
  | step_control_release token : publisher_step p (with_store p (release_reservation (pb_store p) token))
  | step_control_record event token credits : publisher_step p (with_store p (store_record (pb_store p) event token credits))
  | step_control_initial event credits : publisher_step p (with_store p (store_initial (pb_store p) event credits).2)
  | step_handle_retain i : publisher_step p (with_store p (retain_handle (pb_store p) i))
  | step_handle_release i : publisher_step p (with_store p (release_handle (pb_store p) i)).

Lemma publisher_step_ok p p' : publisher_step p p' -> publisher_inv p -> publisher_inv p'.
Proof.
  intros Hstep Hp. pose proof (pi_store p Hp) as Hs.
  destruct Hstep as [now|storage h now Hh|now protocol_now epoch usable calibrated| |observed| |generation|n|token|event token credits|event credits|i|i].
  - pose proof (start_ok p now Hp) as H. destruct (publisher_start p now). apply H.
  - pose proof (submit_ok p storage h now Hp Hh) as H. destruct (submit data_answer p storage h now). apply H.
  - pose proof (progress_ok p now protocol_now epoch usable calibrated Hp) as H. destruct (progress _ _ _ _ _ _ _ _). apply H.
  - by apply pause_ok.
  - by apply backend_fault_ok.
  - by apply inv_stop.
  - pose proof (detach_ok p generation Hp) as H. destruct (publisher_detach p generation). apply H.
  - apply inv_with_store; [done|eapply store_step_ok; [apply step_reserve|done]|apply acceptance_reserve].
  - apply inv_with_store; [done|by apply release_reservation_ok|apply acceptance_release_reservation].
  - apply inv_with_store; [done|by apply store_record_ok|apply acceptance_record].
  - apply inv_with_store; [done|by apply store_initial_ok|apply acceptance_initial].
  - apply inv_with_store; [done|eapply store_step_ok; [apply step_retain|done]|apply acceptance_retain].
  - by apply inv_release.
Qed.

(** A publisher of a fresh store. *)
Definition publisher_initial (owner slots held : nat) (generation : Z) (pool : AdmissionState) (bound : bool) : Publisher :=
  publisher_new (store_new owner slots generation pool) bound held.

Lemma publisher_initial_ok owner slots held generation pool bound :
  Z.of_nat slots < U64_MAX -> Z.of_nat held <= U64_MAX -> publisher_inv (publisher_initial owner slots held generation pool bound).
Proof.
  intros Hs Hh. split; cbn.
  - by apply store_new_ok.
  - intros i s k Hi. by apply replicate_none in Hi.
  - rewrite count_if_replicate_none. unfold zlen. by rewrite length_replicate.
  - split; [constructor|done].
  - intros i r Hr. by apply lookup_replicate in Hr as [-> _].
  - intros before s r after E. by apply app_cons_not_nil in E.
  - by rewrite storages_replicate.
Qed.

Lemma reachable_inv owner slots held generation pool bound p :
  Z.of_nat slots < U64_MAX -> Z.of_nat held <= U64_MAX ->
  rtc publisher_step (publisher_initial owner slots held generation pool bound) p -> publisher_inv p.
Proof.
  intros Hs Hh H. apply (rtc_ind_r (fun p => publisher_inv p) _ (publisher_initial_ok owner slots held generation pool bound Hs Hh)) in H; [done|].
  intros y z _ Hstep Hy. by eapply publisher_step_ok.
Qed.

(** The context packets of an association go out in the order of their times, and two
    packets of the same time carry the same state, whatever the device, the control side
    and the transport do. *)
Theorem context_in_order owner slots held generation pool bound p :
  Z.of_nat slots < U64_MAX -> Z.of_nat held <= U64_MAX ->
  rtc publisher_step (publisher_initial owner slots held generation pool bound) p ->
  StronglySorted follows (accepted_frames (pb_trace p)).
Proof. intros Hs Hh H. by apply (pi_water p (reachable_inv _ _ _ _ _ _ _ Hs Hh H)). Qed.

(** C11. No data packet is sent before the transport has accepted a context packet of the same
    association that announces the revision the data depends on. *)
Theorem data_after_context owner slots held generation pool bound p before storage r after :
  Z.of_nat slots < U64_MAX -> Z.of_nat held <= U64_MAX ->
  rtc publisher_step (publisher_initial owner slots held generation pool bound) p ->
  pb_trace p = before ++ DataSent storage r true :: after ->
  exists f, ContextSent f true ∈ before /\ announces f r.
Proof. intros Hs Hh H E. exact (pi_data p (reachable_inv _ _ _ _ _ _ _ Hs Hh H) before storage r after E). Qed.

(** Every storage the publisher has taken is waiting, was sent or was dropped, and only one
    of these; and the counter of the waiting ones is right. *)
Theorem storage_accounted owner slots held generation pool bound p :
  Z.of_nat slots < U64_MAX -> Z.of_nat held <= U64_MAX ->
  rtc publisher_step (publisher_initial owner slots held generation pool bound) p ->
  taken (pb_trace p) ≡ₚ storages (pb_held p) ++ settled (pb_trace p) /\ pb_held_count p = zlen (storages (pb_held p)).
Proof.
  intros Hs Hh H. pose proof (reachable_inv _ _ _ _ _ _ _ Hs Hh H) as Hp. split; [apply Hp|].
  destruct (pi_count p Hp) as [-> _]. unfold zlen, storages. clear. f_equal. induction (pb_held p) as [|[x|] l IH]; [done| |exact IH].
  unfold count_if in *. cbn. f_equal. exact IH.
Qed.
End proofs.

(** ** Witnesses

    A transport that accepts everything, one revision, and one data packet that waits for
    its announcement. *)
Definition accept_context (_ : list (PubEvent (Storage := nat))) (_ : ContextFrame) : Result unit := Ok tt.
Definition accept_data (_ : list (PubEvent (Storage := nat))) (_ : nat) (_ : Revision) : Result unit := Ok tt.
Lemma accept_context_safe tr f : safe (accept_context tr f).
Proof. done. Qed.
Lemma accept_data_safe tr s r : safe (accept_data tr s r).
Proof. done. Qed.

Definition demo_start : ContextPublisher (Storage := nat) := publisher_initial 0 4 2 1 (pool_new request_empty) true.
Definition demo_revision := with_store demo_start (store_initial (pb_store demo_start) (event_at 2000 20) bundle_empty).2.
Definition demo_active := (publisher_start demo_revision (mkMono 100)).2.
Definition demo_retained := with_store demo_active (retain_handle (pb_store demo_active) 0).
Definition demo_held := (submit accept_data demo_retained 7%nat (mkHandle 0 0) (mkMono 100)).2.
Definition demo := (progress accept_context accept_data demo_held (mkMono 200) (mkTime 25 0) 1 true true).2.

Lemma demo_reachable : rtc (publisher_step accept_context accept_data) demo_start demo.
Proof.
  apply (rtc_l _ _ demo_revision); [apply (step_control_initial accept_context accept_data _ (event_at 2000 20) bundle_empty)|].
  apply (rtc_l _ _ demo_active); [apply (step_start accept_context accept_data _ (mkMono 100))|].
  apply (rtc_l _ _ demo_retained); [apply (step_handle_retain accept_context accept_data _ 0)|].
  apply (rtc_l _ _ demo_held); [apply (step_submit accept_context accept_data _ 7%nat (mkHandle 0 0) (mkMono 100)); intros _; apply Nat.ltb_lt; vm_compute; reflexivity|].
  apply (rtc_l _ _ demo); [apply (step_progress accept_context accept_data _ (mkMono 200) (mkTime 25 0) 1 true true)|]. apply rtc_refl.
Qed.

Lemma context_in_order_witness :
  StronglySorted follows (accepted_frames (pb_trace demo)) /\ seconds ∘ cf_time <$> accepted_frames (pb_trace demo) = [20; 25].
Proof.
  split; [|vm_compute; reflexivity].
  apply (context_in_order accept_context accept_data accept_context_safe accept_data_safe 0 4 2 1 (pool_new request_empty) true demo);
    [vm_compute; congruence..|exact demo_reachable].
Defined.

Lemma data_after_context_witness :
  exists before storage r after f, pb_trace demo = before ++ DataSent storage r true :: after /\ storage = 7%nat /\
    ContextSent f true ∈ before /\ announces f r.
Proof.
  assert (exists before storage r after, pb_trace demo = before ++ DataSent storage r true :: after /\ storage = 7%nat)
    as (before & storage & r & after & E & Es).
  { exists (take 3 (pb_trace demo)). vm_compute. do 3 eexists. split; reflexivity. }
  destruct (data_after_context accept_context accept_data accept_context_safe accept_data_safe 0 4 2 1 (pool_new request_empty) true demo
    before storage r after) as (f & Hf & Ha); [vm_compute; congruence..|exact demo_reachable|exact E|].
  exists before, storage, r, after, f. split_and!; assumption.
Defined.

Lemma storage_accounted_witness : taken (pb_trace demo) ≡ₚ [7%nat] /\ pb_held_count demo = 0.
Proof.
  destruct (storage_accounted accept_context accept_data accept_context_safe accept_data_safe 0 4 2 1 (pool_new request_empty) true demo)
    as [Ht Hc]; [vm_compute; congruence..|exact demo_reachable|].
  split; [rewrite Ht; vm_compute; reflexivity|rewrite Hc; vm_compute; reflexivity].
Defined.
