(* ===== verification/ContextWire.v ===== *)
(** * Context packets from end to end: [encode_context] of
      [include/vita/runtime/context/publisher.hpp]

    A frame of the publisher becomes a packet through the builder and the encoder; the
    receiver decodes it and reads the state back into its history.  [context_roundtrip]
    composes the five components: receiving the packet of a frame is inserting the state
    of the frame at its time. *)

From S2P Require Import Prelude Wire WireProofs Fields Scalar Structured Packet Builder BuilderProofs Encoder EncoderProofs PacketRoundtrip.
From S2P Require Import Time State History Publisher.

Definition with_timestamp (e : Envelope) (t : Timestamp) : Envelope :=
  mkEnvelope (env_type e) (packet_count e) (stream_id e) (class_id e) t (env_trailer e) (nd0 e) (spectrum e) (tsm e) (ack e) (cancel e) (command e).

Definition context_timestamp (f : ContextFrame) : Result Timestamp :=
  if cf_time_known f then
    fail_if negb (valid (cf_time f)) || (U32_MAX <? seconds (cf_time f)) || (cf_epoch f =? Tsi.none) with error1 ErrorCode.invalid_argument ;;
    Ok (mkTimestamp (cf_epoch f) Tsf.picoseconds (wrap32 (seconds (cf_time f))) (picoseconds (cf_time f)))
  else Ok (mkTimestamp Tsi.none Tsf.none 0 0).

(** The loop over the fields of the SDR profile. *)
Fixpoint set_sdr_fields (s : StateSnapshot) (indices : list nat) (packet : PacketSnapshot) : Result PacketSnapshot :=
  match indices with
  | [] => Ok packet
  | i :: indices =>
      let field := field_at s i in
      fail_if negb (is_known field) with error1 ErrorCode.invalid_state ;;
      let? packet := set_value 16 packet (fs_id field) (fs_value field) false in
      set_sdr_fields s indices packet
  end.

(** The loop over the active fields of the other profiles. *)
Fixpoint set_active_fields (s : StateSnapshot) (indices : list nat) (packet : PacketSnapshot) : Result PacketSnapshot :=
  match indices with
  | [] => Ok packet
  | i :: indices =>
      let field := field_at s i in
      let? packet := (if negb (i =? 2)%nat && is_known field then set_value 16 packet (fs_id field) (fs_value field) false else Ok packet) in
      set_active_fields s indices packet
  end.

(** The state and event word of a frame. *)
Definition context_indicators (f : ContextFrame) : Result Z :=
  let field := field_at (cf_state f) 2 in
  let? v := (if is_known field then
               match if_uint32 (fs_value field) with Some v => Ok v | None => Err (error1 ErrorCode.invalid_argument) end
             else Ok 0) in
  let v := if cf_refresh f then clear_bits v sample_loss_bits else v in
  let v := Z.lor v valid_data_enable in
  Ok (set_bit (cf_valid f) v valid_data_indicator).

Definition encode_context (f : ContextFrame) (envelope : Envelope) (output : list byte) : Result (Z * list byte) :=
  let invalid := error1 ErrorCode.invalid_argument in
  let? _ := validate_snapshot (cf_state f) in
  fail_if negb (env_type envelope =? PacketType.context) || is_none (stream_id envelope) || env_trailer envelope with invalid ;;
  let? t := context_timestamp f in
  let envelope := with_timestamp envelope t in
  let packet := builder_new PacketSubtype.context in
  if st_profile (cf_state f) =? Profile.sdr_radio then
    fail_if is_some (class_id envelope) || negb (cf_epoch f =? Tsi.utc) || negb (cf_time_known f) || negb (cf_valid f) with invalid ;;
    let? packet := set_sdr_fields (cf_state f) [5; 4; 6; 1]%nat packet in
    encode_packet BodyKind.values envelope packet output (cf_change f)
  else
    let? packet := set_active_fields (cf_state f) (seq 0 (active_state_fields (st_profile (cf_state f)))) packet in
    let? indicators := context_indicators f in
    let? packet := set_value 16 packet Field.StateEvent (v_uint32 indicators) false in
    encode_packet BodyKind.values envelope packet output (cf_change f).

(** ** What the builder holds *)

Definition holds_value (s : PacketSnapshot) (id : FieldId) (v : SemanticValue) : Prop :=
  exists e, e ∈ s_entries s /\ e_id e = id /\ value_of e 0 = Some v.

(** A packet built by setting the current values of a list of fields. *)
Record built (s : PacketSnapshot) (l : list (FieldId * SemanticValue)) : Prop := mkBuilt {
  bu_reach : builder_reachable BodyKind.values 16 s;
  bu_attributes : l_attributes (s_layout s) = 0;
  bu_ids : forall id, id ∈ s_ids s <-> id ∈ l.*1;
  bu_values : forall id v, (id, v) ∈ l -> holds_value s id v;
  bu_valid : Forall (fun p => validate_value p.1 p.2 true = Ok tt) l
}.

Lemma set_value_attributes s id v r s' : set_value 16 s id v r = Ok s' -> l_attributes (s_layout s') = l_attributes (s_layout s).
Proof. unfold set_value, insert_entry, bump, indicators. intros H. inv_ok. done. Qed.

Lemma set_value_validated s id v r s' : set_value 16 s id v r = Ok s' -> validate_value id v true = Ok tt.
Proof. unfold set_value. intros H. inv_ok. by match goal with u : unit |- _ => destruct u end. Qed.

Lemma new_built : built (builder_new PacketSubtype.context) [].
Proof. split; [by constructor|done|done|by intros ? ? ?%elem_of_nil|done]. Qed.

Lemma set_value_built s l id v s' : built s l -> id ∉ l.*1 -> value_typed v -> set_value 16 s id v false = Ok s' -> built s' (l ++ [(id, v)]).
Proof.
  intros [Hr Ha Hi Hv Hl] Hid Ht H. pose proof (builder_reachable_ok _ _ _ Hr) as Hok.
  destruct (returns_Ok _ _ _ (set_value_ok BodyKind.values 16 s id v false eq_refl Hok Ht) H) as (_ & e & He & Hei & Hev & Hother).
  split.
  - by eapply reach_set.
  - by rewrite (set_value_attributes _ _ _ _ _ H).
  - intros id'. rewrite fmap_app, elem_of_app, <- Hi. cbn. rewrite list_elem_of_singleton. unfold s_ids. rewrite !list_elem_of_fmap. split.
    + intros (e' & -> & He'). destruct (decide (e_id e' = id)) as [->|Hne]; [by right|left]. exists e'. split; [done|]. by apply Hother.
    + intros [(e' & -> & He')| ->]; [|by exists e]. exists e'. split; [done|]. apply Hother; [|done]. intros E. apply Hid. rewrite <- Hi, <- E.
      apply list_elem_of_fmap. by exists e'.
  - intros id' v' [Hin|Hin]%elem_of_app.
    + destruct (Hv _ _ Hin) as (e' & He' & <- & Hv'). exists e'. split_and!; [|done|done]. apply Hother; [|done]. intros E. apply Hid. rewrite <- E.
      apply list_elem_of_fmap. by exists (e_id e', v').
    + apply list_elem_of_singleton in Hin as [= -> ->]. by exists e.
  - apply Forall_app. split; [done|]. constructor; [|done]. by eapply set_value_validated.
Qed.

(** The values the two loops set. *)
Definition known_values (s : StateSnapshot) (indices : list nat) : list (FieldId * SemanticValue) :=
  (fun i => (fs_id (field_at s i), fs_value (field_at s i))) <$> indices.
Definition set_indices (s : StateSnapshot) (indices : list nat) : list nat :=
  filter (fun i => negb (i =? 2)%nat && is_known (field_at s i) = true) indices.

Section loops.
Context (s : StateSnapshot) (Ht : Forall (fun f => value_typed (fs_value f)) (st_fields s)).

Lemma field_typed i : value_typed (fs_value (field_at s i)).
Proof.
  unfold field_at. destruct (nth_in_or_default i (st_fields s) field_absent) as [Hin| ->]; [|by cbn].
  rewrite list.Forall_forall in Ht. apply Ht. by apply list_elem_of_In.
Qed.

Lemma set_sdr_built indices l p p' : built p l -> NoDup (l.*1 ++ (known_values s indices).*1) -> set_sdr_fields s indices p = Ok p' ->
  built p' (l ++ known_values s indices) /\ Forall (fun i => is_known (field_at s i) = true) indices.
Proof.
  revert l p. induction indices as [|i indices IH]; intros l p Hb Hnd H; cbn [set_sdr_fields] in H.
  { inv_ok. cbn. by rewrite app_nil_r. }
  inv_ok. cbn [known_values fmap list_fmap] in *. apply negb_false_iff in E.
  assert (Hid : fs_id (field_at s i) ∉ l.*1).
  { intros Hin. apply list.NoDup_app in Hnd as (_ & Hd & _). apply (Hd _ Hin). by left. }
  eapply set_value_built in Hb; [|exact Hid|apply field_typed|eassumption].
  destruct (IH _ _ Hb) as [H1 H2]; [|done|].
  - rewrite fmap_app, <- app_assoc. exact Hnd.
  - split; [|by constructor]. by rewrite <- app_assoc in H1.
Qed.

Lemma set_active_built indices l p p' : built p l -> NoDup (l.*1 ++ (known_values s (set_indices s indices)).*1) -> set_active_fields s indices p = Ok p' ->
  built p' (l ++ known_values s (set_indices s indices)).
Proof.
  revert l p. induction indices as [|i indices IH]; intros l p Hb Hnd H; cbn [set_active_fields] in H.
  { inv_ok. cbn. by rewrite app_nil_r. }
  unfold set_indices in *. rewrite filter_cons in *. destruct (negb (i =? 2)%nat && is_known (field_at s i)) eqn:E.
  - rewrite decide_True in * by done. inv_ok. cbn [known_values fmap list_fmap] in *.
    assert (Hid : fs_id (field_at s i) ∉ l.*1).
    { intros Hin. apply list.NoDup_app in Hnd as (_ & Hd & _). apply (Hd _ Hin). by left. }
    eapply set_value_built in Hb; [|exact Hid|apply field_typed|eassumption].
    rewrite cons_middle, app_assoc. apply (IH _ _ Hb); [|done]. rewrite fmap_app, <- app_assoc. exact Hnd.
  - rewrite decide_False in * by done. cbn [rbind] in H. by eapply IH.
Qed.
End loops.

(** ** Reading the packet back *)

(** A view with the current value of a field of the profile. *)
Record reads (profile : Z) (view : FieldView) (id : FieldId) (v : SemanticValue) : Prop := mkReads {
  rd_id : fv_id view = id;
  rd_profile : profile_field profile id = true;
  rd_index : (field_index id < 8)%nat;
  rd_kind : fv_kind view = BodyKind.values;
  rd_attribute : fv_attribute view = Attribute.current;
  rd_value : view_value view = Ok v
}.

Lemma field_at_insert s i j f : state_shaped s -> (i < 8)%nat -> field_at (set_field s i f) j = if decide (i = j) then f else field_at s j.
Proof.
  intros Hs Hi. unfold state_shaped, state_field_capacity in Hs. unfold field_at, set_field. cbn [st_fields]. rewrite !nth_lookup.
  destruct (decide (i = j)) as [<-|Hne]; [by rewrite list_lookup_insert_eq by lia|by rewrite list_lookup_insert_ne].
Qed.

Lemma reads_index profile views l : Forall2 (fun view p => reads profile view p.1 p.2) views l -> Forall (fun p => (field_index p.1 < 8)%nat) l.
Proof. induction 1 as [|view p views l H _ IH]; constructor; [apply H|done]. Qed.

(** Fields of the table with the same index are the same. *)
Lemma field_index_inj id id' : (field_index id < 8)%nat -> field_index id' = field_index id -> id' = id.
Proof.
  intros Hi E. pose proof (field_index_lookup id _ eq_refl Hi) as L1. pose proof (field_index_lookup id' _ eq_refl ltac:(lia)) as L2.
  rewrite E in L2. congruence.
Qed.

Lemma collect_fields_spec profile views l s : state_shaped s -> Forall2 (fun view p => reads profile view p.1 p.2) views l -> NoDup l.*1 ->
  exists s', collect_fields profile views s = Ok s' /\ state_shaped s' /\ st_version s' = st_version s /\ st_profile s' = st_profile s /\
    (forall id v, (id, v) ∈ l -> field_at s' (field_index id) = mkFieldState id v Validity.known) /\
    (forall i, (forall id, id ∈ l.*1 -> field_index id <> i) -> field_at s' i = field_at s i).
Proof.
  intros Hs Hf. revert s Hs. induction Hf as [|view [id v] views l [Hid Hp Hi Hk Ha Hv] Hf IH]; intros s Hs Hnd; cbn [fst snd] in *.
  - exists s. cbn [collect_fields]. split_and!; try done. by intros ? ? ?%elem_of_nil.
  - cbn [collect_fields fmap list_fmap fst] in *. apply list.NoDup_cons in Hnd as [Hnew Hnd]. rewrite Hid, Hp, Hk, Ha, Hv.
    rewrite (proj2 (Nat.eqb_neq (field_index id) state_field_capacity)) by (unfold state_field_capacity; lia).
    rewrite bool_decide_true by done. cbn [negb orb rbind]. change (Attribute.current =? Attribute.current) with true. cbn [negb].
    set (s1 := set_field s (field_index id) (mkFieldState id v Validity.known)).
    assert (Hs1 : state_shaped s1) by (unfold state_shaped, s1, set_field in *; cbn [st_fields]; by rewrite length_insert).
    destruct (IH s1 Hs1 Hnd) as (s' & Hc & Hs' & Hver & Hpr & Hin & Hout). exists s'. split_and!; [done|done|done|done| |].
    + intros id' v' [[= -> ->]|Hl]%elem_of_cons; [|by apply Hin]. rewrite Hout.
      * unfold s1. by rewrite field_at_insert, decide_True by done.
      * intros id1 H1 E. apply Hnew. by rewrite <- (field_index_inj id id1 Hi E).
    + intros i Hni. rewrite Hout by (intros id' H'; apply Hni; by right). unfold s1. rewrite field_at_insert, decide_False; [done| |done|done].
      apply Hni. by left.
Qed.

Lemma fmap_nodup_inj {A B} (f : A -> B) l a b : NoDup (f <$> l) -> a ∈ l -> b ∈ l -> f a = f b -> a = b.
Proof.
  intros Hnd [i Hi]%list_elem_of_lookup [j Hj]%list_elem_of_lookup E.
  assert (i = j) as -> by (eapply NoDup_lookup; [exact Hnd|by rewrite list_lookup_fmap, Hi|by rewrite list_lookup_fmap, Hj, E]). congruence.
Qed.

(** Without a mask a packet has one pair for each field. *)
Lemma current_pairs p : l_attributes (s_layout p) = 0 -> snapshot_pairs p = (fun e => (e, 0)) <$> s_entries p.
Proof.
  intros Ha. unfold snapshot_pairs, pairs_of. rewrite Ha. change (attribute_list (selection 0)) with [0]. induction (s_entries p); cbn; [done|]. by f_equal.
Qed.

(** The views of a packet that was built, in terms of the values that were set. *)
Lemma built_views p l views : built p l -> NoDup l.*1 ->
  (fun v => (fv_id v, fv_attribute v)) <$> views = id_pair <$> snapshot_pairs p -> Forall2 reads_back views (snapshot_pairs p) ->
  (forall id v, (id, v) ∈ l -> forall snr, v <> v_snr_noise snr (Some 0)) ->
  exists l', l' ≡ₚ l /\ Forall2 (fun view q => fv_id view = q.1 /\ fv_attribute view = Attribute.current /\ view_value view = Ok q.2) views l'.
Proof.
  intros [Hr Ha Hi Hv _] Hnd Hids Hback Hsnr.
  pose proof (current_pairs p Ha) as Hpairs.
  rewrite Hpairs in *. pose proof (in_order_nodup _ (so_order _ _ _ (builder_reachable_ok _ _ _ Hr))) as Hnd'.
  set (value e := default (v_uint32 0) (value_of e 0)). exists ((fun e => (e_id e, value e)) <$> s_entries p). split.
  - apply NoDup_Permutation.
    + apply (NoDup_fmap_1 fst). by rewrite <- list_fmap_compose.
    + by apply (NoDup_fmap_1 fst).
    + intros [id v]. rewrite list_elem_of_fmap. split.
      * intros (e & [= -> ->] & He). assert (Hid : e_id e ∈ l.*1) by (apply Hi, list_elem_of_fmap; by exists e).
        apply list_elem_of_fmap in Hid as ([id' v'] & E & Hl). cbn in E. subst id'. destruct (Hv _ _ Hl) as (e' & He' & Hid' & Hv').
        assert (e' = e) as -> by (by eapply (fmap_nodup_inj e_id)). unfold value. by rewrite Hv'.
      * intros Hl. destruct (Hv _ _ Hl) as (e & He & <- & Hve). exists e. split; [|done]. unfold value. by rewrite Hve.
  - clear Hpairs. assert (Hex : forall e, e ∈ s_entries p -> forall snr, value_of e 0 <> Some (v_snr_noise snr (Some 0))).
    { intros e He snr E. assert (Hid : e_id e ∈ l.*1) by (apply Hi, list_elem_of_fmap; by exists e).
      apply list_elem_of_fmap in Hid as ([id' v'] & E' & Hl). cbn in E'. subst id'. destruct (Hv _ _ Hl) as (e' & He' & Hid' & Hv').
      assert (e' = e) as -> by by eapply (fmap_nodup_inj e_id). apply (Hsnr _ _ Hl snr). congruence. }
    clear Hr Ha Hi Hv Hnd Hnd' Hsnr. revert views Hids Hback. induction (s_entries p) as [|e es IH]; intros views Hids Hback; cbn [fmap list_fmap] in *.
    + apply Forall2_nil_inv_r in Hback as ->. constructor.
    + destruct views as [|view views]; [done|]. injection Hids as Hid Hat Hids. apply list.Forall2_cons in Hback as [(v & Hv & Hread) Hback]. cbn [fst snd] in *.
      constructor; [|apply IH; [intros e' He'; apply Hex; by right|done|done]]. split_and!; [done|done|]. cbn [snd]. unfold value. rewrite Hv.
      rewrite Hread. f_equal. apply wire_reading_other. intros snr E. apply (Hex e (list_elem_of_here _ _) snr). rewrite Hv. cbn in E. by rewrite E.
Qed.

(** ** The state that a frame reports *)

(** The event word that is sent. *)
Definition event_word (f : ContextFrame) : Z :=
  let v := indicators_of (cf_state f) in
  let v := if cf_refresh f then clear_bits v sample_loss_bits else v in
  set_bit (cf_valid f) (Z.lor v valid_data_enable) valid_data_indicator.

(** A field as the receiver sees it: the fields that the frame knows, with the event word of
    the packet; in the SDR profile those of the radio. *)
Definition received_field (f : ContextFrame) (reference : Z) (i : nat) : FieldState :=
  let field := field_at (cf_state f) i in
  let blank := field_at state_default i in
  if st_profile (cf_state f) =? Profile.sdr_radio then
    match i with
    | 0%nat => mkFieldState Field.ReferencePoint (v_uint32 reference) Validity.known
    | 2%nat => mkFieldState Field.StateEvent (v_uint32 (Z.lor valid_data_enable valid_data_indicator)) Validity.known
    | 3%nat => mkFieldState Field.DataPayloadFormat (v_payload_format sdr_payload_format) Validity.known
    | 1%nat | 4%nat | 5%nat | 6%nat => field
    | _ => blank
    end
  else if (i =? 2)%nat then mkFieldState Field.StateEvent (v_uint32 (event_word f)) Validity.known
  else if (i <? active_state_fields (st_profile (cf_state f)))%nat && is_known field then field else blank.
Definition received_state (f : ContextFrame) (reference : Z) : StateSnapshot :=
  mkState 0 (received_field f reference <$> seq 0 8) (st_profile (cf_state f)).

(** The values of the packet of a frame. *)
Definition context_values (f : ContextFrame) : list (FieldId * SemanticValue) :=
  let s := cf_state f in
  if st_profile s =? Profile.sdr_radio then known_values s [5; 4; 6; 1]%nat
  else known_values s (set_indices s (seq 0 (active_state_fields (st_profile s)))) ++ [(Field.StateEvent, v_uint32 (event_word f))].

Lemma context_indicators_word f v : context_indicators f = Ok v -> v = event_word f.
Proof.
  unfold context_indicators, event_word, indicators_of. intros H. destruct (is_known _); [|by inv_ok].
  destruct (if_uint32 _) as [w|]; cbn [rbind default] in H; [|done]. by inv_ok.
Qed.

Lemma u32_bits w : u32 w <-> 0 <= w /\ forall k, 32 <= k -> Z.testbit w k = false.
Proof.
  split.
  - intros Hw. split; [unfold_words; lia|]. intros k Hk. apply Z.bits_above_log2; [unfold_words; lia|]. destruct (decide (w = 0)) as [->|]; [cbn; lia|].
    apply Z.log2_lt_pow2; [unfold_words; lia|]. apply (Z.lt_le_trans _ (2 ^ 32)); [unfold_words; lia|]. apply Z.pow_le_mono_r; lia.
  - intros [Hw Hk]. assert (w = w mod 2 ^ 32) as ->; [|pose proof (Z.mod_pos_bound w (2 ^ 32)); unfold_words; lia].
    apply Z.bits_inj'. intros k Hk0. destruct (Z.lt_ge_cases k 32); [by rewrite Z.mod_pow2_bits_low|rewrite Z.mod_pow2_bits_high by lia; by apply Hk].
Qed.
Lemma u32_lor a b : u32 a -> u32 b -> u32 (Z.lor a b).
Proof. rewrite !u32_bits. intros [? Ha] [? Hb]. split; [by apply Z.lor_nonneg|]. intros k Hk. by rewrite Z.lor_spec, Ha, Hb. Qed.
Lemma u32_clear a m : u32 a -> u32 (clear_bits a m).
Proof. unfold clear_bits. rewrite !u32_bits. intros [? Ha]. split; [apply Z.land_nonneg; by left|]. intros k Hk. by rewrite Z.land_spec, Ha. Qed.

(** The event word of a well-typed state is a word. *)
Lemma context_indicators_u32 f v : Forall (fun f => value_typed (fs_value f)) (st_fields (cf_state f)) -> context_indicators f = Ok v -> u32 v.
Proof.
  intros Ht ->%context_indicators_word. unfold event_word, set_bit, indicators_of.
  assert (Hi : u32 (if is_known (field_at (cf_state f) 2) then default 0 (if_uint32 (fs_value (field_at (cf_state f) 2))) else 0)).
  { pose proof (field_typed _ Ht 2) as Hv. destruct (is_known _); [|done]. destruct (if_uint32 _) as [w|] eqn:E; [|done]. apply if_uint32_Some in E. by rewrite E in Hv. }
  destruct (cf_refresh f), (cf_valid f); auto using u32_lor, u32_clear; repeat first [apply u32_lor|apply u32_clear]; done.
Qed.

Definition table_field (i : nat) : FieldId := nth i state_fields Field.ReferencePoint.
Lemma table_index i : (i < 8)%nat -> field_index (table_field i) = i.
Proof. intros Hi. do 8 (destruct i as [|i]; [reflexivity|]). lia. Qed.

Lemma table_nodup indices : NoDup indices -> Forall (fun i => (i < 8)%nat) indices -> NoDup (table_field <$> indices).
Proof.
  intros Hnd Hf. apply (NoDup_fmap_1 field_index). rewrite <- list_fmap_compose.
  assert (compose field_index table_field <$> indices = indices) as ->; [|done]. induction Hf as [|i l Hi Hf IH]; [done|].
  apply list.NoDup_cons in Hnd as [_ Hnd]. cbn [fmap list_fmap]. rewrite IH by done. f_equal. by apply table_index.
Qed.

Lemma scalar_table i v snr : (i < 8)%nat -> validate_value (table_field i) v true = Ok tt -> v <> v_snr_noise snr (Some 0).
Proof. intros Hi H ->. do 8 (destruct i as [|i]; [vm_compute in H; discriminate H|]). lia. Qed.

Section frame.
Context (f : ContextFrame) (Hshape : state_shaped (cf_state f)) (Hvalid : snapshot_valid (cf_state f)).
Let s := cf_state f.
Let active := active_state_fields (st_profile s).

Lemma active_field i : (i < active)%nat -> fs_id (field_at s i) = table_field i.
Proof.
  intros Hi. pose proof (active_bound (st_profile s)). destruct (lookup_lt_is_Some_2 (st_fields s) i) as [fi Hfi].
  { unfold state_shaped, state_field_capacity in Hshape. fold s in Hshape. unfold active in Hi. lia. }
  pose proof (sfo_id _ _ _ (sv_fields _ Hvalid i fi Hfi) Hi) as Hid.
  unfold field_at, table_field. rewrite (nth_lookup_Some _ _ _ _ Hfi). by rewrite (nth_lookup_Some _ _ _ _ Hid).
Qed.

Lemma known_ids indices : Forall (fun i => (i < active)%nat) indices -> (known_values s indices).*1 = table_field <$> indices.
Proof.
  intros Hf. unfold known_values. induction Hf as [|i l Hi Hf IH]; [done|]. cbn [fmap list_fmap fst]. rewrite active_field by done. f_equal. exact IH.
Qed.

Lemma set_indices_ok : NoDup (set_indices s (seq 0 active)) /\ (forall i, i ∈ set_indices s (seq 0 active) <-> (i < active)%nat /\ i <> 2%nat /\ is_known (field_at s i) = true).
Proof.
  unfold set_indices. split; [apply list.NoDup_filter, NoDup_seq|]. intros i. rewrite list_elem_of_filter, elem_of_seq, andb_true_iff, negb_true_iff, Nat.eqb_neq. 
  split; [intros [[? ?] ?]|intros (? & ? & ?)]; split_and!; (done || lia).
Qed.

(** The fields of the packet, as indices of the table. *)
Definition context_indices : list nat :=
  if st_profile s =? Profile.sdr_radio then [5; 4; 6; 1]%nat else set_indices s (seq 0 active) ++ [2%nat].

Lemma context_indices_ok : NoDup context_indices /\ Forall (fun i => (i < active)%nat) context_indices /\ (context_values f).*1 = table_field <$> context_indices.
Proof.
  unfold context_indices, context_values. fold s active. destruct set_indices_ok as [Hnd Hin]. destruct (Z.eqb_spec (st_profile s) Profile.sdr_radio) as [E|E].
  - assert (active = 8%nat) by (unfold active; by rewrite E). assert (Forall (fun i => (i < active)%nat) [5; 4; 6; 1]%nat) by (repeat constructor; lia).
    split_and!; [apply NoDup_ListNoDup; repeat constructor; cbn; lia|done|by apply known_ids].
  - assert (Hf : Forall (fun i => (i < active)%nat) (set_indices s (seq 0 active))) by (apply list.Forall_forall; intros i Hi; by apply Hin).
    assert (4 <= active)%nat by (unfold active, active_state_fields; repeat case_match; lia).
    split_and!.
    + apply list.NoDup_app. split_and!; [done| |by apply NoDup_singleton]. intros i (_ & Hi & _)%Hin Hs%list_elem_of_singleton. done.
    + apply Forall_app. split; [done|]. by repeat constructor; lia.
    + by rewrite !fmap_app, known_ids by done.
Qed.

(** What a successful encoding has gone through. *)
Lemma encode_context_inv envelope output r : Forall (fun f => value_typed (fs_value f)) (st_fields s) ->
  encode_context f envelope output = Ok r -> exists p t sid, context_timestamp f = Ok t /\ env_type envelope = PacketType.context /\
    stream_id envelope = Some sid /\ built p (context_values f) /\ encode_packet BodyKind.values (with_timestamp envelope t) p output (cf_change f) = Ok r /\
    (st_profile s = Profile.sdr_radio -> class_id envelope = None /\ cf_epoch f = Tsi.utc /\ forallb (fun i => is_known (field_at s i)) [1; 4; 5; 6]%nat = true).
Proof.
  intros Ht H. unfold encode_context in H. fold s in H. cbv zeta in H. destruct (validate_snapshot s) as [u| |]; [|done|done]. cbn [rbind] in H.
  destruct (_ || _ || _) eqn:E1; [done|]. rewrite !orb_false_iff, negb_false_iff, Z.eqb_eq in E1. destruct E1 as [[Etype Esid] _].
  destruct (stream_id envelope) as [sid|] eqn:Es; [|done]. destruct (context_timestamp f) as [t| |]; [|done|done]. cbn [rbind] in H.
  destruct context_indices_ok as (Hnd & Hact & Hids). apply (table_nodup context_indices) in Hnd; [|eapply Forall_impl; [|exact Hact]; intros i Hi; pose proof (active_bound (st_profile s)); cbn in *; unfold active in Hi; lia].
  rewrite <- Hids in Hnd. unfold context_values in *. fold s active in Hnd, H |- *. destruct (Z.eqb_spec (st_profile s) Profile.sdr_radio) as [E|E].
  - destruct (_ || _ || _ || _) eqn:E2; [done|]. rewrite !orb_false_iff, !negb_false_iff, Z.eqb_eq in E2. destruct E2 as [[[Ec Ee] _] _].
    apply rbind_Ok in H as (p & Hp & H). destruct (set_sdr_built s Ht _ _ _ _ new_built Hnd Hp) as [Hb Hk]. exists p, t, sid. split_and!; try done.
    intros _. split_and!; [|done|].
    + revert Ec. cbn. by destruct (class_id envelope).
    + rewrite !list.Forall_cons in Hk. destruct Hk as (H5 & H4 & H6 & H1 & _). cbn. by rewrite H5, H4, H6, H1.
  - apply rbind_Ok in H as (p & Hp & H). apply rbind_Ok in H as (v & Hv & H). apply rbind_Ok in H as (p' & Hp' & H).
    pose proof (context_indicators_u32 _ _ Ht Hv) as Htv.
    apply context_indicators_word in Hv as ->. rewrite fmap_app in Hnd. apply list.NoDup_app in Hnd as (Hnd & Hdis & _).
    pose proof (set_active_built s Ht _ _ _ _ new_built Hnd Hp) as Hb. exists p', t, sid. split_and!; try done.
    eapply set_value_built in Hp'; [exact Hp'|exact Hb| |exact Htv]. cbn [app]. intros Hin. apply (Hdis _ Hin). by apply list_elem_of_singleton.
Qed.
End frame.

(** ** The receiver's state *)

Lemma state_ext s s' : state_shaped s -> state_shaped s' -> st_version s = st_version s' -> st_profile s = st_profile s' ->
  (forall i, (i < 8)%nat -> field_at s i = field_at s' i) -> s = s'.
Proof.
  destruct s as [ver fs p], s' as [ver' fs' p']. unfold state_shaped, state_field_capacity, field_at. cbn. intros H1 H2 -> -> Hf. f_equal.
  apply (nth_ext _ _ field_absent field_absent); [lia|]. intros i Hi. apply Hf. lia.
Qed.

Lemma received_at f reference i : (i < 8)%nat -> field_at (received_state f reference) i = received_field f reference i.
Proof. intros Hi. unfold field_at, received_state. cbn [st_fields]. do 8 (destruct i as [|i]; [reflexivity|]). lia. Qed.

Lemma known_eta fld : is_known fld = true -> mkFieldState (fs_id fld) (fs_value fld) Validity.known = fld.
Proof. intros H%is_known_iff. destruct fld as [id v val]. cbn in *. by subst. Qed.

Section receive.
Context (f : ContextFrame) (Hshape : state_shaped (cf_state f)) (Hvalid : snapshot_valid (cf_state f)).
Let s := cf_state f.
Let active := active_state_fields (st_profile s).

(** The state after the loop of [receive] over the views. *)
Definition collected (c : StateSnapshot) : Prop :=
  state_shaped c /\ st_version c = 0 /\ st_profile c = st_profile s /\
  (forall id v, (id, v) ∈ context_values f -> field_at c (field_index id) = mkFieldState id v Validity.known) /\
  (forall i, (i < 8)%nat -> i ∉ context_indices f -> field_at c i = field_at state_default i).

Lemma index_bound i : i ∈ context_indices f -> (i < active)%nat /\ (i < 8)%nat.
Proof.
  intros Hi. destruct (context_indices_ok f Hshape Hvalid) as (_ & Hact & _). rewrite list.Forall_forall in Hact. specialize (Hact _ Hi). cbn in Hact.
  pose proof (active_bound (st_profile s)). fold s in Hact. fold active in Hact. unfold active in *. lia.
Qed.

Lemma value_index id v : (id, v) ∈ context_values f -> exists i, i ∈ context_indices f /\ id = table_field i.
Proof.
  intros Hl. destruct (context_indices_ok f Hshape Hvalid) as (_ & _ & Hids).
  assert (Hid : id ∈ (context_values f).*1) by (apply list_elem_of_fmap; by exists (id, v)). rewrite Hids in Hid. apply list_elem_of_fmap in Hid as (i & -> & Hi). eauto.
Qed.

Lemma views_collected views l' : l' ≡ₚ context_values f ->
  Forall2 (fun view q => fv_id view = q.1 /\ fv_attribute view = Attribute.current /\ view_value view = Ok q.2) views l' ->
  exists c, collect_fields (st_profile s) views (set_profile state_default (st_profile s)) = Ok c /\ collected c.
Proof.
  intros Hperm Hviews. destruct (context_indices_ok f Hshape Hvalid) as (Hnd & Hact & Hids).
  assert (Hlt : Forall (fun i => (i < 8)%nat) (context_indices f)) by (apply list.Forall_forall; intros i Hi; by apply index_bound).
  assert (Hnd' : NoDup l'.*1) by (rewrite Hperm, Hids; by apply table_nodup).
  assert (Hreads : Forall2 (fun view p => reads (st_profile s) view p.1 p.2) views l').
  { assert (Hall : Forall (fun q => exists i, i ∈ context_indices f /\ q.1 = table_field i) l').
    { rewrite Hperm. apply list.Forall_forall. intros [id v] Hl. by eapply value_index. }
    clear Hperm Hnd'. induction Hviews as [|view q views l' (H1 & H2 & H3) Hv IH]; constructor; apply list.Forall_cons in Hall as [(i & Hi & Hq) Hall]; [|by apply IH].
    destruct (index_bound i Hi) as [Hia Hi8]. split; try done.
    - rewrite Hq. apply profile_field_active; [apply Hvalid|]. by rewrite table_index.
    - rewrite Hq, table_index by done. done.
    - revert H3. unfold view_value. destruct (bool_decide _) eqn:Ek; [by apply bool_decide_eq_true in Ek|done]. }
  destruct (collect_fields_spec (st_profile s) views l' (set_profile state_default (st_profile s)) eq_refl Hreads Hnd')
    as (c & Hc & Hs & Hver & Hp & Hin & Hout). exists c. split; [done|]. split_and!; [done|done|done| |].
  - intros id v Hl. apply Hin. by rewrite Hperm.
  - intros i Hi Hni. rewrite Hout; [done|]. intros id Hid E. rewrite Hperm, Hids in Hid. apply list_elem_of_fmap in Hid as (j & -> & Hj).
    rewrite table_index in E by (by apply index_bound). by subst.
Qed.

(** A field of the frame that the packet carries. *)
Lemma collected_known c i : collected c -> (table_field i, fs_value (field_at s i)) ∈ context_values f -> (i < active)%nat -> is_known (field_at s i) = true ->
  field_at c i = field_at s i.
Proof.
  intros (_ & _ & _ & Hin & _) Hl Hi Hk. specialize (Hin _ _ Hl). pose proof (active_bound (st_profile s)). rewrite table_index in Hin by (unfold active in Hi; lia).
  rewrite Hin, <- (active_field f Hshape Hvalid i Hi). by apply known_eta.
Qed.

Lemma received_generic c reference : st_profile s <> Profile.sdr_radio -> collected c -> c = received_state f reference.
Proof.
  intros E Hc. pose proof Hc as (H1 & H2 & H3 & Hin & Hout). destruct (set_indices_ok f) as [_ Hset].
  apply state_ext; [done|done|done|done|]. intros i Hi. rewrite received_at by done. unfold received_field. fold s active.
  rewrite (proj2 (Z.eqb_neq _ _) E). assert (Hcv : context_values f = known_values s (set_indices s (seq 0 active)) ++ [(Field.StateEvent, v_uint32 (event_word f))])
    by (unfold context_values; fold s active; by rewrite (proj2 (Z.eqb_neq _ _) E)).
  assert (Hci : context_indices f = set_indices s (seq 0 active) ++ [2%nat]) by (unfold context_indices; fold s active; by rewrite (proj2 (Z.eqb_neq _ _) E)).
  destruct (Nat.eqb_spec i 2) as [->|Hi2].
  - rewrite <- (Hin Field.StateEvent (v_uint32 (event_word f))); [done|]. rewrite Hcv. apply elem_of_app. right. by apply list_elem_of_singleton.
  - destruct ((i <? active)%nat && is_known (field_at s i)) eqn:Ek.
    + apply andb_true_iff in Ek as [Hlt%Nat.ltb_lt Hk]. apply collected_known; try done. rewrite Hcv. apply elem_of_app. left.
      rewrite <- (active_field f Hshape Hvalid i Hlt). apply list_elem_of_fmap. exists i. split; [done|]. by apply Hset.
    + apply Hout; [done|]. rewrite Hci. intros [(Hlt & _ & Hk)%Hset|Hs%list_elem_of_singleton]%elem_of_app; [|done].
      fold s in Hk. rewrite Hk, andb_true_r in Ek. apply Nat.ltb_ge in Ek. unfold active in *. unfold s in *. lia.
Qed.

Lemma received_sdr c h packet sid : st_profile s = Profile.sdr_radio -> collected c -> forallb (fun i => is_known (field_at s i)) [1; 4; 5; 6]%nat = true ->
  class_id (ev_envelope (pv_envelope packet)) = None -> tsi (timestamp (ev_envelope (pv_envelope packet))) = Tsi.utc ->
  stream_id (ev_envelope (pv_envelope packet)) = Some sid -> length (pv_fields packet) = 4%nat ->
  complete_sdr h packet c = Ok (received_state f (default sid (rh_reference h))).
Proof.
  intros E Hc Hk Hclass Htsi Hsid Hlen. assert (Hact : active = 8%nat) by (unfold active; by rewrite E).
  assert (Hcv : context_values f = known_values s [5; 4; 6; 1]%nat) by (unfold context_values; fold s; by rewrite E).
  assert (Hci : context_indices f = [5; 4; 6; 1]%nat) by (unfold context_indices; fold s; by rewrite E).
  cbn [forallb] in Hk. rewrite !andb_true_iff in Hk. destruct Hk as (K1 & K4 & K5 & K6 & _).
  unfold complete_sdr. rewrite Hclass, Htsi, Hsid, Hlen. cbn [is_some orb negb deref rbind].
  assert (Hknown : forall i, In i [5; 4; 6; 1]%nat -> is_known (field_at s i) = true -> field_at c i = field_at s i).
  { intros i Hi Hki. assert (i < 8)%nat by (cbn in Hi; lia).
    apply collected_known; [done| |lia|done]. rewrite Hcv, <- (active_field f Hshape Hvalid i) by (unfold active in *; unfold s in *; lia).
    apply list_elem_of_fmap. exists i. split; [done|]. by apply list_elem_of_In. }
  assert (Hblank : field_at c 7 = field_at state_default 7) by (apply Hc; [lia|rewrite Hci, list_elem_of_In; cbn; lia]).
  pose proof (Hknown 1%nat ltac:(cbn; lia) K1) as H1'. pose proof (Hknown 4%nat ltac:(cbn; lia) K4) as H4'.
  pose proof (Hknown 5%nat ltac:(cbn; lia) K5) as H5'. pose proof (Hknown 6%nat ltac:(cbn; lia) K6) as H6'. cbn [forallb]. rewrite H1', H4', H5', H6'. rewrite K1, K4, K5, K6. change (Tsi.utc =? Tsi.utc) with true. cbn [andb negb orb Nat.eqb].
  f_equal. destruct Hc as (H1 & H2 & H3 & _ & Hout). apply state_ext.
  - unfold state_shaped, set_field in *. cbn [st_fields]. by rewrite !length_insert.
  - done.
  - done.
  - cbn. by rewrite H3, E.
  - intros i Hi. rewrite received_at by done. rewrite !field_at_insert by (lia || (unfold state_shaped, set_field in *; cbn [st_fields]; by rewrite ?length_insert)).
    unfold received_field. fold s. rewrite E. change (Profile.sdr_radio =? Profile.sdr_radio) with true. cbn iota.
    do 8 (destruct i as [|i]; [cbn; done|]). lia.
Qed.
End receive.

(** A frame whose members have the range of their types. *)
Record frame_typed (f : ContextFrame) : Prop := mkFrameTyped {
  ft_shape : state_shaped (cf_state f);
  ft_values : Forall (fun fld => value_typed (fs_value fld)) (st_fields (cf_state f));
  ft_epoch : u8 (cf_epoch f);
  ft_time : 0 <= seconds (cf_time f) /\ 0 <= picoseconds (cf_time f)
}.

Lemma valid_picoseconds t : valid t = true -> picoseconds t < 1000000000000.
Proof. unfold valid, picoseconds_per_second. intros H. apply Z.ltb_lt in H. exact H. Qed.
Lemma wrap32_small x : 0 <= x -> x <= U32_MAX -> wrap32 x = x.
Proof. intros. unfold wrap32. apply Z.mod_small. unfold_words. lia. Qed.

Lemma context_timestamp_typed f t : frame_typed f -> context_timestamp f = Ok t -> timestamp_typed t /\
  (cf_time_known f = true -> tsi t = cf_epoch f /\ cf_epoch f <> Tsi.none /\ tsf t = Tsf.picoseconds /\ ts_integer t = seconds (cf_time f) /\
     ts_fractional t = picoseconds (cf_time f)).
Proof.
  intros [_ _ He [Hs Hp]]. unfold context_timestamp. destruct (cf_time_known f).
  - intros H. inv_ok. rewrite !orb_false_iff, negb_false_iff in E. destruct E as [[Ev%valid_picoseconds Eu%Z.ltb_ge] Ee%Z.eqb_neq].
    rewrite (wrap32_small _ Hs Eu). split; [|intros _; by split_and!]. split_and!; [exact He|by vm_compute|split; [exact Hs|exact Eu]|]. cbn. unfold_words. lia.
  - intros H. injection H as <-. split; [by repeat split|done].
Qed.

(** The state that a receiver reads from the packet of a frame. *)
Lemma packet_state_received f h packet sid c :
  snapshot_valid (cf_state f) -> state_shaped (cf_state f) -> collected f c ->
  collect_fields (st_profile (cf_state f)) (pv_fields packet) (set_profile state_default (st_profile (cf_state f))) = Ok c ->
  env_type (ev_envelope (pv_envelope packet)) = PacketType.context -> pv_opaque packet = false -> tsm (ev_envelope (pv_envelope packet)) = false ->
  tsi (timestamp (ev_envelope (pv_envelope packet))) = cf_epoch f -> cf_epoch f <> Tsi.none -> tsf (timestamp (ev_envelope (pv_envelope packet))) = Tsf.picoseconds ->
  stream_id (ev_envelope (pv_envelope packet)) = Some sid ->
  (st_profile (cf_state f) = Profile.sdr_radio -> class_id (ev_envelope (pv_envelope packet)) = None /\ cf_epoch f = Tsi.utc /\
     forallb (fun i => is_known (field_at (cf_state f) i)) [1; 4; 5; 6]%nat = true /\ length (pv_fields packet) = 4%nat) ->
  rh_profile h = st_profile (cf_state f) -> (rh_epoch h = Tsi.none \/ rh_epoch h = cf_epoch f) ->
  (st_profile (cf_state f) <> Profile.sdr_radio -> forall r, rh_reference h = Some r ->
     is_known (field_at (cf_state f) 0) = true /\ fs_value (field_at (cf_state f) 0) = v_uint32 r) ->
  packet_state h packet (rh_generation h) = Ok (received_state f (default sid (rh_reference h))).
Proof.
  intros Hvalid Hshape Hcoll Hc Hty Hop Htsm Htsi Hne Htsf Hsid Hsdr Hprof Hep Href. unfold packet_state. cbv zeta.
  rewrite Z.eqb_refl, Hty, Hop, Htsm, Htsi, Htsf, Hprof, Hc, (proj2 (Z.eqb_neq _ _) Hne). rewrite !Z.eqb_refl. cbn [negb orb rbind].
  assert (negb (rh_epoch h =? Tsi.none) && negb (cf_epoch f =? rh_epoch h) = false) as ->
    by (destruct Hep as [->| ->]; rewrite Z.eqb_refl; cbn; by rewrite ?andb_false_r).
  destruct (Z.eqb_spec (st_profile (cf_state f)) Profile.sdr_radio) as [E|E].
  - destruct (Hsdr E) as (Hclass & Hutc & Hk & Hlen). rewrite (received_sdr f Hshape Hvalid c h packet sid E Hcoll Hk Hclass) by congruence. cbn [rbind].
    destruct (rh_reference h) as [r|]; [|done]. rewrite received_at by lia. unfold received_field. rewrite E. cbn. by rewrite Z.eqb_refl.
  - rewrite (received_generic f Hshape Hvalid c (default sid (rh_reference h)) E Hcoll). cbn [rbind]. destruct (rh_reference h) as [r|] eqn:Er; [|done].
    destruct (Href E r eq_refl) as [Hk Hv]. rewrite received_at by lia. unfold received_field. rewrite (proj2 (Z.eqb_neq _ _) E). cbn [Nat.eqb default].
    assert ((0 <? active_state_fields (st_profile (cf_state f)))%nat = true) as -> by (unfold active_state_fields; repeat case_match; done).
    rewrite Hk. cbn [andb]. rewrite Hk, Hv. cbn. by rewrite Z.eqb_refl.
Qed.

(** C7. Context survives the way from the publisher to the receiver's history: the packet
    that [encode_context] writes for a frame decodes, and receiving it, at a receiver of the
    same profile, epoch and reference, is inserting at the time of the frame the state of the
    frame: every field that the frame knows with its value, the event word that was sent, and
    in the SDR profile what that profile leaves implicit. *)
Theorem context_roundtrip f envelope output n output' :
  frame_typed f -> envelope_typed envelope -> encode_context f envelope output = Ok (n, output') ->
  exists packet sid, decode_packet (take (Z.to_nat n) output') options_default = Ok packet /\ pv_change packet = cf_change f /\
    stream_id envelope = Some sid /\
    forall h arrival full, cf_time_known f = true -> tsm envelope = false -> rh_profile h = st_profile (cf_state f) ->
      (rh_epoch h = Tsi.none \/ rh_epoch h = cf_epoch f) ->
      (st_profile (cf_state f) <> Profile.sdr_radio -> forall r, rh_reference h = Some r ->
         is_known (field_at (cf_state f) 0) = true /\ fs_value (field_at (cf_state f) 0) = v_uint32 r) ->
      history_receive h packet (rh_generation h) arrival full =
      history_insert h (received_state f (default sid (rh_reference h))) (cf_time f) arrival full 0.
Proof.
  intros Hf He Henc. pose proof (ft_shape _ Hf) as Hshape.
  assert (Hvalid : snapshot_valid (cf_state f)).
  { apply (snapshot_decided _ Hshape). unfold encode_context in Henc. by destruct (validate_snapshot (cf_state f)) as [[]| |]. }
  destruct (encode_context_inv f Hshape Hvalid envelope output _ (ft_values _ Hf) Henc) as (p & t & sid & Ht & Hty & Hsid & Hb & Hp & Hsdr).
  destruct (context_timestamp_typed f t Hf Ht) as [Htt Htime]. pose proof (builder_reachable_ok _ _ _ (bu_reach _ _ Hb)) as Hok.
  destruct (context_indices_ok f Hshape Hvalid) as (Hnd & _ & Hids).
  set (e := with_timestamp envelope t) in *.
  assert (Hte : envelope_typed e) by (destruct He as (H1 & H2 & H3 & H4 & _ & H6); exact (conj H1 (conj H2 (conj H3 (conj H4 (conj Htt H6)))))).
  assert (Hlen : length (snapshot_pairs p) = length (s_entries p)) by (by rewrite (current_pairs p (bu_attributes _ _ Hb)), length_fmap).
  pose proof (so_size _ _ _ Hok) as Hsize.
  destruct (packet_decodes BodyKind.values 16 p e output (cf_change f) n output' (bu_reach _ _ Hb) Hte Hsize) as (packet & Hd & Hev & _ & Hch & Hop & Hidp & Hback);
    [unfold VIEW_CAPACITY; lia|done|]. assert (Hlt : Forall (fun i => (i < 8)%nat) (context_indices f)) by (apply list.Forall_forall; intros i Hi; by apply (index_bound f)).
  destruct (built_views p (context_values f) (pv_fields packet) Hb) as (l' & Hperm & Hviews); [rewrite Hids; by apply table_nodup|done|by apply Hback| |].
  { intros id v Hl snr. destruct (value_index f Hshape Hvalid _ _ Hl) as (i & Hi & ->). pose proof (bu_valid _ _ Hb) as Hval. rewrite list.Forall_forall in Hval.
    apply (scalar_table i); [by apply (index_bound f)|apply (Hval _ Hl)]. }
  destruct (views_collected f Hshape Hvalid _ _ Hperm Hviews) as (c & Hc & Hcoll). exists packet, sid. split_and!; [done|done|done|].
  intros h arrival full Hk Htsm Hprof Hep Href. destruct (Htime Hk) as (T1 & T2 & T3 & T4 & T5). unfold history_receive.
  assert (Hts : timestamp (ev_envelope (pv_envelope packet)) = t).
  { rewrite Hev. cbn. unfold timestamp_wire. rewrite T1, T3, (proj2 (Z.eqb_neq _ _) T2). cbn. rewrite <- T1, <- T3. by destruct t. }
  rewrite (packet_state_received f h packet sid c); rewrite ?Hts; rewrite ?Hev; try done.
  - rewrite T4, T5. by destruct (cf_time f).
  - intros E. destruct (Hsdr E) as (H1 & H2 & H3). split_and!; [done|done|done|]. rewrite (list.Forall2_length _ _ _ Hviews), Hperm.
    unfold context_values. by rewrite E.
Qed.

(** ** Witness *)

(** A generator that knows its reference point, rate and format, with an event word. *)
Definition demo_state : StateSnapshot :=
  mkState 4
    [mkFieldState Field.ReferencePoint (v_uint32 7) Validity.known;
     mkFieldState Field.SampleRate (v_hertz (1000000 * unit_q20)) Validity.known;
     mkFieldState Field.StateEvent (v_uint32 0x81081000) Validity.known;
     mkFieldState Field.DataPayloadFormat (v_payload_format sdr_payload_format) Validity.known;
     mkFieldState Field.RFReferenceFrequency (v_hertz 0) Validity.absent;
     mkFieldState Field.Bandwidth (v_hertz 0) Validity.absent;
     mkFieldState Field.Gain (v_gain 0 0) Validity.absent;
     mkFieldState Field.DiscreteIO32 (v_uint32 0) Validity.absent] Profile.generator_v1.
Definition demo_frame : ContextFrame := mkFrame demo_state (mkTime 12 500) Tsi.utc true true true true 3 1 false.
Definition demo_history : ReceiverHistory := history_new 8 1 Tsi.utc (Some 7) Profile.generator_v1.

Lemma demo_frame_typed : frame_typed demo_frame.
Proof. split; [done|repeat constructor; cbn; unfold unit_q20, sdr_payload_format; unfold_words; try lia|done|done]. Qed.

Lemma context_roundtrip_witness : exists n output' packet,
  encode_context demo_frame demo_context (replicate 80 x00) = Ok (n, output') /\
  decode_packet (take (Z.to_nat n) output') options_default = Ok packet /\
  history_receive demo_history packet 1 (mkMono 9) true = history_insert demo_history (received_state demo_frame 7) (mkTime 12 500) (mkMono 9) true 0 /\
  fs_value (field_at (received_state demo_frame 7) 2) = v_uint32 0xc00c0000.
Proof.
  destruct (encode_context demo_frame demo_context (replicate 80 x00)) as [[n output']|x|] eqn:E; [|vm_compute in E; discriminate E..].
  destruct (context_roundtrip demo_frame demo_context _ n output' demo_frame_typed demo_context_typed E) as (packet & sid & Hd & _ & _ & Hr).
  exists n, output', packet. split; [reflexivity|]. split; [exact Hd|]. split; [|vm_compute; reflexivity].
  apply (Hr demo_history (mkMono 9) true); [reflexivity|reflexivity|reflexivity|by right|].
  intros _ r [= <-]. split; reflexivity.
Defined.
