(* ===== verification/NumericSamples.v ===== *)
(** * Numeric sample formats: [include/vita/codec/numeric_samples.hpp]

    Exact decoding of the fixed-point, non-normalised and VRT floating-point payload
    formats, and their encoding under an explicit rounding and overflow policy.

    A [BinaryValue] stands for the number [(+/-) magnitude * 2^exponent].  The theorems
    speak of it as an integer number of units of [2^-40000] ([units]); every exponent of
    type [int16_t] and every quantum of a format is a multiple of that unit, so that no
    comparison loses precision. *)

From S2P Require Import Prelude Fields.

(** [static_cast<std::int16_t>] *)
Definition int16 (x : Z) : Z := to_signed 16 (wrap16 x).
Definition INT16_MAX : Z := 32767.

Record BinaryValue := mkBinary { magnitude : Z; exponent : Z; negative : bool }.
#[global] Instance BinaryValue_eq_dec : EqDecision BinaryValue.
Proof. solve_decision. Defined.

Module Kind.
Definition unsigned_fixed : Z := 0.
Definition signed_fixed : Z := 1.
Definition unsigned_non_normalized : Z := 2.
Definition signed_non_normalized : Z := 3.
Definition unsigned_vrt : Z := 4.
Definition signed_vrt : Z := 5.
End Kind.

Record NumericSpec := mkSpec {
  nkind : Z; bits : Z; fractional_bits : Z; exponent_bits : Z
}.

Module Precision.
Definition exact_only : Z := 0.
Definition allow_rounding : Z := 1.
End Precision.

Module Rounding.
Definition nearest_ties_even : Z := 0.
Definition toward_zero : Z := 1.
Definition toward_negative : Z := 2.
Definition toward_positive : Z := 3.
End Rounding.

Module NOverflow.
Definition error : Z := 0.
Definition saturate : Z := 1.
End NOverflow.

Module VrtEncoding.
Definition lowest_exponent : Z := 0.
End VrtEncoding.

Record ConversionPolicy := mkPolicy {
  precision : Z; rounding : Z; noverflow : Z; vrt_encoding : Z
}.

Record EncodedValue := mkEncoded { ebits : Z; rounded : bool; saturated : bool }.
#[global] Instance EncodedValue_eq_dec : EqDecision EncodedValue.
Proof. solve_decision. Defined.

Definition mask (n : Z) : Z := if n =? 64 then U64_MAX else wrap64 (Z.shiftl 1 n) - 1.

Definition signed_kind (k : Z) : bool :=
  (k =? Kind.signed_fixed) || (k =? Kind.signed_non_normalized) || (k =? Kind.signed_vrt).
Definition vrt (k : Z) : bool := (k =? Kind.signed_vrt) || (k =? Kind.unsigned_vrt).
Definition non_normalized (k : Z) : bool :=
  (k =? Kind.signed_non_normalized) || (k =? Kind.unsigned_non_normalized).

Definition nvalidate (s : NumericSpec) : Result unit :=
  fail_if (nkind s <? Kind.unsigned_fixed) || (Kind.signed_vrt <? nkind s) || (bits s <? 1) || (64 <? bits s)
    with error1 ErrorCode.invalid_argument ;;
  if vrt (nkind s) then
    fail_if (exponent_bits s <? 1) || (6 <? exponent_bits s) || (bits s <=? exponent_bits s)
            || nonzero (fractional_bits s)
      with error1 ErrorCode.invalid_argument ;;
    Ok tt
  else
    fail_if nonzero (exponent_bits s) ||
            (if non_normalized (nkind s)
             then (bits s <=? fractional_bits s) || (15 <? fractional_bits s)
             else negb (fractional_bits s =? 0))
      with error1 ErrorCode.invalid_argument ;;
    Ok tt.

Definition policy_valid (p : ConversionPolicy) : bool :=
  ((precision p =? Precision.exact_only) || (precision p =? Precision.allow_rounding))
  && (Rounding.nearest_ties_even <=? rounding p) && (rounding p <=? Rounding.toward_positive)
  && ((noverflow p =? NOverflow.error) || (noverflow p =? NOverflow.saturate))
  && (vrt_encoding p =? VrtEncoding.lowest_exponent).

Definition mantissa_bits (s : NumericSpec) : Z :=
  bits s - (if vrt (nkind s) then exponent_bits s else 0).

Definition quantum (s : NumericSpec) (e : Z) : Z :=
  if non_normalized (nkind s) then - fractional_bits s else
  let width := mantissa_bits s - (if signed_kind (nkind s) then 1 else 0) in
  - width + (if vrt (nkind s) then e - mask (exponent_bits s) else 0).

(** [std::bit_width] and [std::countr_zero] (of a nonzero word) *)
Definition bit_width (x : Z) : Z := if x =? 0 then 0 else Z.log2 x + 1.
Fixpoint countr_zero_pos (p : positive) : Z :=
  match p with xO p => 1 + countr_zero_pos p | _ => 0 end.
Definition countr_zero (x : Z) : Z :=
  match x with Zpos p => countr_zero_pos p | _ => 64 end.

Definition compare (a b : BinaryValue) : Z :=
  if negb (nonzero (magnitude a)) || negb (nonzero (magnitude b)) then
    if nonzero (magnitude a) then 1 else if nonzero (magnitude b) then -1 else 0
  else
  let aw := bit_width (magnitude a) in
  let bw := bit_width (magnitude b) in
  let atop := exponent a + aw in
  let btop := exponent b + bw in
  if negb (atop =? btop) then (if atop <? btop then -1 else 1) else
  let am := wrap64 (Z.shiftl (magnitude a) (64 - aw)) in
  let bm := wrap64 (Z.shiftl (magnitude b) (64 - bw)) in
  if am <? bm then -1 else if bm <? am then 1 else 0.

Record Quantized := mkQuantized { qmagnitude : Z; residue : bool; qoverflow : bool }.

(** Whether the discarded part of a magnitude rounds it up; [quantize] and the [round] of
    the IEEE formats make the same choice, with [right] the number of bits discarded. *)
Definition increments (mode : Z) (neg : bool) (right quotient remainder : Z) : bool :=
  if nonzero remainder then
    let increment := false in
    let increment := if mode =? Rounding.toward_negative then neg else increment in
    let increment := if mode =? Rounding.toward_positive then negb neg else increment in
    if (mode =? Rounding.nearest_ties_even) && (right <=? 64) then
      let half := Z.shiftl 1 (right - 1) in
      (half <? remainder) || ((remainder =? half) && nonzero (Z.land quotient 1))
    else increment
  else false.

Definition quantize (value : BinaryValue) (q : Z) (mode : Z) : Quantized :=
  let shift := exponent value - q in
  if negb (nonzero (magnitude value)) then mkQuantized 0 false false else
  if 0 <=? shift then
    if (64 <=? shift) || (64 <? bit_width (magnitude value) + shift) then mkQuantized 0 false true
    else mkQuantized (wrap64 (Z.shiftl (magnitude value) shift)) false false
  else
  let right := - shift in
  let quotient := if 64 <=? right then 0 else Z.shiftr (magnitude value) right in
  let remainder := if 64 <=? right then magnitude value else Z.land (magnitude value) (mask right) in
  let increment := increments mode (negative value) right quotient remainder in
  if increment && (quotient =? U64_MAX) then mkQuantized 0 (nonzero remainder) true
  else mkQuantized (wrap64 (quotient + b2z increment)) (nonzero remainder) false.

Definition canonicalize (value : BinaryValue) : Result BinaryValue :=
  if negb (nonzero (magnitude value)) then Ok (mkBinary 0 0 false) else
  let trailing := countr_zero (magnitude value) in
  let e := exponent value + trailing in
  fail_if INT16_MAX <? e with error1 ErrorCode.overflow ;;
  Ok (mkBinary (Z.shiftr (magnitude value) trailing) (int16 e) (negative value)).

Definition decode_exact (spec : NumericSpec) (w : Z) : Result BinaryValue :=
  let? _ := nvalidate spec in
  fail_if nonzero (Z.land w (wrap64 (Z.lnot (mask (bits spec)))))
    with error1 ErrorCode.invalid_argument ;;
  let m := mantissa_bits spec in
  let e := if vrt (nkind spec) then wrap32 (Z.land w (mask (exponent_bits spec))) else 0 in
  let mantissa := if vrt (nkind spec) then Z.shiftr w (exponent_bits spec) else w in
  let neg := signed_kind (nkind spec) && nonzero (Z.land mantissa (wrap64 (Z.shiftl 1 (m - 1)))) in
  let mag := if neg then Z.land (wrap64 (wrap64 (Z.lnot mantissa) + 1)) (mask m) else mantissa in
  canonicalize (mkBinary mag (int16 (quantum spec e)) neg).

(** The loop that moves a magnitude to the lowest exponent; [e] counts down to zero. *)
Fixpoint lowest_exponent (max_mag mag : Z) (e : nat) : Z * nat :=
  match e with
  | O => (mag, O)
  | S e' =>
      if nonzero mag && (mag <=? max_mag / 2)
      then lowest_exponent max_mag (wrap64 (mag * 2)) e'
      else (mag, e)
  end.

(** The body of the loop of [encode_numeric] on the exponents: [None] is [continue]. *)
Definition encode_at (spec : NumericSpec) (value : BinaryValue) (p : ConversionPolicy)
    (max_mag m : Z) (sat : bool) (e : nat) : option EncodedValue :=
  let result := quantize value (quantum spec (Z.of_nat e)) (rounding p) in
  if qoverflow result || (max_mag <? qmagnitude result) then None else
  if residue result && (precision p =? Precision.exact_only) then None else
  let '(mag, encoded_e) := lowest_exponent max_mag (qmagnitude result) e in
  let mantissa :=
    if negative value then Z.land (wrap64 (wrap64 (Z.lnot mag) + 1)) (mask m) else mag in
  let w := if negb (nonzero (qmagnitude result)) then 0
           else if vrt (nkind spec)
                then Z.lor (wrap64 (Z.shiftl mantissa (exponent_bits spec))) (Z.of_nat encoded_e)
                else mantissa in
  Some (mkEncoded w (residue result) sat).

(** [for (unsigned e = 0; e <= max_e; ++e)]: [n] iterations are left. *)
Fixpoint encode_loop (spec : NumericSpec) (value : BinaryValue) (p : ConversionPolicy)
    (max_mag m : Z) (sat : bool) (e n : nat) : Result EncodedValue :=
  match n with
  | O => Err (error1 ErrorCode.invalid_argument)
  | S n =>
      match encode_at spec value p max_mag m sat e with
      | Some r => Ok r
      | None => encode_loop spec value p max_mag m sat (S e) n
      end
  end.

Definition maximum_exponent (spec : NumericSpec) : Z :=
  if vrt (nkind spec) then wrap32 (mask (exponent_bits spec)) else 0.

Definition maximum_magnitude (spec : NumericSpec) (neg : bool) : Z :=
  let m := mantissa_bits spec in
  if signed_kind (nkind spec)
  then (if neg then wrap64 (Z.shiftl 1 (m - 1)) else mask (m - 1))
  else mask m.

Definition encode_numeric (spec : NumericSpec) (value : BinaryValue) (p : ConversionPolicy)
    : Result EncodedValue :=
  let? _ := nvalidate spec in
  fail_if negb (policy_valid p) with error1 ErrorCode.invalid_argument ;;
  if negb (nonzero (magnitude value)) then Ok (mkEncoded 0 false false) else
  let signed_format := signed_kind (nkind spec) in
  let m := mantissa_bits spec in
  let max_e := maximum_exponent spec in
  let max_mag := maximum_magnitude spec (negative value) in
  let bound := mkBinary max_mag (int16 (quantum spec max_e)) (negative value) in
  if (negb signed_format && negative value) || (0 <? compare value bound) then
    fail_if (noverflow p =? NOverflow.error) || (precision p =? Precision.exact_only)
      with error1 ErrorCode.overflow ;;
    if negb signed_format && negative value then Ok (mkEncoded 0 false true) else
    encode_loop spec bound p max_mag m true 0 (Z.to_nat (max_e + 1))
  else encode_loop spec value p max_mag m false 0 (Z.to_nat (max_e + 1)).

Definition convert_numeric (source : NumericSpec) (w : Z) (destination : NumericSpec)
    (p : ConversionPolicy) : Result EncodedValue :=
  let? value := decode_exact source w in
  encode_numeric destination value p.
