(* ===== verification/NumericProofs.v ===== *)
(** * Numeric sample formats: decoding is exact, encoding rounds correctly

    The reference for rounding is [rnd], which divides integers; [quantize] is proved equal to
    it.  [representable] is the set of values that the words of a format decode to; the
    theorems relate the result of [encode_numeric] to that set. *)

From S2P Require Import Prelude Fields NumericSamples.

(** ** Values as integers *)

Definition UNIT : Z := 40000.
Definition sgn (neg : bool) : Z := if neg then -1 else 1.

(** The absolute value and the value in units of [2^-40000]. *)
Definition size (v : BinaryValue) : Z := magnitude v * 2 ^ (exponent v + UNIT).
Definition units (v : BinaryValue) : Z := sgn (negative v) * size v.

(** The values of the C++ type. *)
Definition binary_typed (v : BinaryValue) : Prop :=
  u64 (magnitude v) /\ -32768 <= exponent v <= INT16_MAX.

Definition spec_typed (s : NumericSpec) : Prop :=
  u32 (bits s) /\ u32 (fractional_bits s) /\ u32 (exponent_bits s).

(** The values some word of the format stands for. *)
Definition representable (spec : NumericSpec) (x : Z) : Prop :=
  exists w v, u64 w /\ decode_exact spec w = Ok v /\ units v = x.

(** ** Words *)

Lemma pow2_pos n : 0 <= n -> 0 < 2 ^ n.
Proof. intros. apply Z.pow_pos_nonneg; lia. Qed.

Lemma pow2_split a b : 0 <= a <= b -> 2 ^ b = 2 ^ (b - a) * 2 ^ a.
Proof. intros. rewrite <- Z.pow_add_r by lia. f_equal; lia. Qed.

Lemma pow2_succ a : 0 <= a -> 2 ^ (a + 1) = 2 * 2 ^ a.
Proof. intros. rewrite Z.pow_add_r by lia. change (2 ^ 1) with 2. lia. Qed.

Lemma pow2_lt64 n : 0 <= n < 64 -> 2 ^ n < 2 ^ 64.
Proof. intros. apply Z.pow_lt_mono_r; lia. Qed.

Lemma pow2_le64 n : 0 <= n <= 64 -> 2 ^ n <= 2 ^ 64.
Proof. intros. apply Z.pow_le_mono_r; lia. Qed.

Lemma wrap64_pow x : wrap64 x = x mod 2 ^ 64.
Proof. done. Qed.

Lemma wrap64_id x : 0 <= x < 2 ^ 64 -> wrap64 x = x.
Proof. intros. rewrite wrap64_pow. by apply Z.mod_small. Qed.

Lemma shl1_small n : 0 <= n < 64 -> wrap64 (Z.shiftl 1 n) = 2 ^ n.
Proof.
  intros. rewrite Z.shiftl_1_l. apply wrap64_id.
  pose proof (pow2_pos n). pose proof (pow2_lt64 n). lia.
Qed.

Lemma mask_pow n : 0 <= n <= 64 -> mask n = 2 ^ n - 1.
Proof. intros. unfold mask. case_match eqn:E; [by apply Z.eqb_eq in E as ->|]. rewrite shl1_small; lia. Qed.

Lemma land_maskn w n : 0 <= n <= 64 -> Z.land w (mask n) = w mod 2 ^ n.
Proof. intros. rewrite mask_pow by done. apply land_mask. lia. Qed.

(** The two's complement of a word, kept to [m] bits. *)
Lemma twos_complement x m :
  0 <= m <= 64 -> Z.land (wrap64 (wrap64 (Z.lnot x) + 1)) (mask m) = (- x) mod 2 ^ m.
Proof.
  intros. rewrite land_maskn, !wrap64_pow, Zplus_mod_idemp_l by done.
  replace (Z.lnot x + 1) with (- x) by (unfold Z.lnot; lia).
  apply Z.mod_mod_divide.
  exists (2 ^ (64 - m)). apply pow2_split. lia.
Qed.

(** A word fits in [n] bits exactly when no bit above them is set. *)
Lemma high_bits_clear w n :
  0 <= n <= 64 -> u64 w ->
  nonzero (Z.land w (wrap64 (Z.lnot (mask n)))) = negb (w <? 2 ^ n).
Proof.
  intros Hn Hw. pose proof (pow2_pos n). pose proof (pow2_le64 n).
  assert (Hd : Z.land w (wrap64 (Z.lnot (mask n))) = w - w mod 2 ^ n).
  { rewrite wrap64_pow, <- Z.land_ones, Z.land_assoc, (Z.land_comm w), <- Z.land_assoc by lia.
    rewrite (Z.land_ones w 64), (Z.mod_small w), Z.land_comm by (unfold_words; lia).
    rewrite <- (land_maskn w n) by lia. rewrite <- Z.ldiff_land.
    pose proof (Z.sub_nocarry_ldiff w (Z.land w (mask n))) as Hs. rewrite Hs.
    - apply Z.bits_inj'. intros i Hi. rewrite !Z.ldiff_spec, Z.land_spec.
      by destruct (Z.testbit w i), (Z.testbit (mask n) i).
    - apply Z.bits_inj'. intros i Hi. rewrite !Z.ldiff_spec, Z.land_spec, Z.bits_0.
      by destruct (Z.testbit w i), (Z.testbit (mask n) i). }
  rewrite Hd. unfold nonzero. f_equal.
  destruct (Z.ltb_spec w (2 ^ n)).
  - rewrite Z.mod_small by (unfold_words; lia). apply Z.eqb_eq. lia.
  - apply Z.eqb_neq. pose proof (Z.mod_pos_bound w (2 ^ n)). lia.
Qed.

Lemma land_pow2 x n : 0 <= n < 64 -> nonzero (Z.land x (wrap64 (Z.shiftl 1 n))) = Z.testbit x n.
Proof.
  intros. rewrite <- bit_set_testbit by lia. unfold bit_set, nonzero.
  by rewrite shl1_small, Z.shiftl_1_l by done.
Qed.

(** The top bit of an [m]-bit word says whether it is in the upper half. *)
Lemma top_bit x m : 1 <= m -> 0 <= x < 2 ^ m -> Z.testbit x (m - 1) = (2 ^ (m - 1) <=? x).
Proof.
  intros Hm Hx. rewrite Z.testbit_eqb by lia.
  pose proof (pow2_pos (m - 1)). pose proof (pow2_succ (m - 1)).
  replace (m - 1 + 1) with m in * by lia.
  destruct (Z.leb_spec (2 ^ (m - 1)) x).
  - assert (x / 2 ^ (m - 1) = 1) as -> by (symmetry; apply (Z.div_unique x _ 1 (x - 2 ^ (m-1))); lia).
    done.
  - by rewrite Z.div_small by lia.
Qed.

Lemma int16_small x : -32768 <= x <= INT16_MAX -> int16 x = x.
Proof.
  unfold int16, INT16_MAX, to_signed, wrap16. change (2 ^ (16 - 1)) with 32768. change (2 ^ 16) with 65536.
  intros. bdestruct_step; zlia.
Qed.

(** ** Canonical values *)

Lemma countr_zero_pos_spec p :
  0 <= countr_zero_pos p /\
  exists q, Z.pos p = q * 2 ^ countr_zero_pos p /\ Z.odd q = true /\ 0 < q.
Proof.
  induction p as [p IH|p IH|]; cbn [countr_zero_pos].
  - split; [lia|]. exists (Z.pos p~1). change (2 ^ 0) with 1. split_and!; [lia|done|lia].
  - destruct IH as (H & q & Hq & Ho & Hp). split; [lia|]. exists q.
    rewrite Z.add_comm, pow2_succ by done. split_and!; [lia|done|done].
  - split; [lia|]. by exists 1.
Qed.

Lemma countr_zero_spec x :
  0 < x -> 0 <= countr_zero x <= Z.log2 x /\
  Z.odd (Z.shiftr x (countr_zero x)) = true /\ 0 < Z.shiftr x (countr_zero x) /\
  Z.shiftr x (countr_zero x) * 2 ^ countr_zero x = x.
Proof.
  destruct x as [|p|p]; try lia. intros _. unfold countr_zero.
  destruct (countr_zero_pos_spec p) as (H & q & Hq & Ho & Hp).
  pose proof (pow2_pos (countr_zero_pos p) H).
  rewrite Z.shiftr_div_pow2, Hq, Z.div_mul by lia. split_and!; [lia| |done|done|done].
  apply Z.log2_le_pow2; nia.
Qed.

Definition canonical (v : BinaryValue) : Prop :=
  magnitude v = 0 /\ exponent v = 0 /\ negative v = false \/ Z.odd (magnitude v) = true.

Lemma log2_lt64 x : 0 < x -> u64 x -> 0 <= Z.log2 x < 64.
Proof. intros ? Hx. split; [apply Z.log2_nonneg|]. apply Z.log2_lt_pow2; [done|]. unfold_words. lia. Qed.

Lemma canonicalize_ok v :
  binary_typed v -> exponent v <= 32000 ->
  exists c, canonicalize v = Ok c /\ units c = units v /\ canonical c /\ binary_typed c /\
    size c = size v.
Proof.
  intros [Hm He] Hmax. unfold canonicalize, INT16_MAX in *.
  destruct (Z.eqb_spec (magnitude v) 0) as [E|E]; unfold nonzero; simpl.
  - rewrite (proj2 (Z.eqb_eq _ _) E). simpl. eexists. split; [done|].
    unfold units, size, canonical, binary_typed, INT16_MAX. simpl. rewrite E. split_and!; try done; lia.
  - rewrite (proj2 (Z.eqb_neq _ _) E). simpl.
    assert (0 < magnitude v) as Hpos by (unfold_words; lia).
    destruct (countr_zero_spec _ Hpos) as (Ht & Ho & Hs & Hx). pose proof (log2_lt64 _ Hpos Hm).
    destruct (Z.ltb_spec 32767 (exponent v + countr_zero (magnitude v))); [lia|].
    rewrite int16_small by (unfold INT16_MAX; lia). eexists. split; [done|].
    assert (Hsz : size (mkBinary (Z.shiftr (magnitude v) (countr_zero (magnitude v)))
        (exponent v + countr_zero (magnitude v)) (negative v)) = size v).
    { unfold size, UNIT. cbn [magnitude exponent].
      replace (exponent v + countr_zero (magnitude v) + 40000)
        with (countr_zero (magnitude v) + (exponent v + 40000)) by lia.
      by rewrite Z.pow_add_r, Z.mul_assoc, Hx by lia. }
    unfold units. rewrite Hsz. split; [done|]. split; [by right|]. split; [|done].
    split; simpl; unfold INT16_MAX; [|lia].
    pose proof (pow2_pos (countr_zero (magnitude v))). unfold_words. nia.
Qed.

(** ** Validated formats *)

(** The exponent field of a word: empty in the formats that are not VRT. *)
Definition expo (s : NumericSpec) : Z := if vrt (nkind s) then exponent_bits s else 0.
(** The step of the values with exponent field [e], in units. *)
Definition grid (s : NumericSpec) (e : Z) : Z := 2 ^ (quantum s e + UNIT).
(** The number an [m]-bit mantissa stands for. *)
Definition signed_value (s : NumericSpec) (x : Z) : Z :=
  if signed_kind (nkind s) && (2 ^ (mantissa_bits s - 1) <=? x) then x - 2 ^ mantissa_bits s else x.

(** Everything the checks on a format promise. *)
Record valid_spec (s : NumericSpec) : Prop := {
  vs_bits : 1 <= bits s <= 64;
  vs_mantissa : 1 <= mantissa_bits s;
  vs_sum : mantissa_bits s + expo s = bits s;
  vs_expo : 0 <= expo s <= 6;
  vs_max : maximum_exponent s = 2 ^ expo s - 1;
  vs_quantum : forall e, 0 <= e <= maximum_exponent s -> -200 <= quantum s e <= 0;
  vs_step : forall e, 0 <= e < maximum_exponent s -> quantum s (e + 1) = quantum s e + 1
}.

Lemma mask_small n : 0 <= n <= 6 -> mask n = 2 ^ n - 1 /\ wrap32 (mask n) = 2 ^ n - 1 /\ 2 ^ n <= 64.
Proof.
  intros. rewrite mask_pow by lia.
  assert (2 ^ n <= 2 ^ 6) by (apply Z.pow_le_mono_r; lia). pose proof (pow2_pos n).
  change (2 ^ 6) with 64 in *. split_and!; zlia.
Qed.

Lemma nvalidate_Ok s : spec_typed s -> nvalidate s = Ok tt -> valid_spec s.
Proof.
  intros (Hb & Hf & He) H. unfold nvalidate in H.
  destruct (_ || (64 <? bits s)) eqn:E; [done|].
  rewrite !orb_false_iff, !Z.ltb_ge in E.
  destruct (vrt (nkind s)) eqn:Hv.
  - destruct (_ || nonzero (fractional_bits s)) eqn:E2; [done|].
    rewrite !orb_false_iff, !Z.ltb_ge, Z.leb_gt in E2.
    assert (non_normalized (nkind s) = false) as Hn.
    { unfold vrt, non_normalized, Kind.signed_vrt, Kind.unsigned_vrt, Kind.signed_non_normalized,
        Kind.unsigned_non_normalized in *. lia. }
    destruct (mask_small (exponent_bits s)) as (Hm & Hw & Hl); [lia|].
    pose proof (pow2_pos (exponent_bits s)).
    split; unfold quantum, mantissa_bits, expo, maximum_exponent; rewrite ?Hv, ?Hn, ?Hw, ?Hm; intros;
      destruct (signed_kind (nkind s)); lia.
  - destruct (_ || (if non_normalized _ then _ else _)) eqn:E2; [done|].
    rewrite orb_false_iff in E2. destruct E2 as [_ E2].
    split; unfold quantum, mantissa_bits, expo, maximum_exponent; rewrite ?Hv; intros; try lia.
    destruct (non_normalized _); [|destruct (signed_kind (nkind s)); lia].
    rewrite orb_false_iff, Z.ltb_ge, Z.leb_gt in E2. unfold_words. lia.
Qed.

Section Format.
Context (s : NumericSpec) (Hs : valid_spec s) (Hval : nvalidate s = Ok tt).

#[local] Abbreviation m := (mantissa_bits s).
#[local] Abbreviation max_e := (maximum_exponent s).

Lemma mantissa_range : 1 <= m <= 64.
Proof. destruct Hs. lia. Qed.

Lemma grid_pos e : 0 <= e <= max_e -> 0 < grid s e.
Proof. intros He. unfold grid, UNIT. apply pow2_pos. pose proof (vs_quantum s Hs e He). lia. Qed.

Lemma grid_step e : 0 <= e < max_e -> grid s (e + 1) = 2 * grid s e.
Proof.
  intros He. unfold grid, UNIT. rewrite (vs_step s Hs) by done. pose proof (vs_quantum s Hs e).
  rewrite <- pow2_succ by lia. f_equal. lia.
Qed.

Lemma grid_multiple e d : 0 <= d -> 0 <= e -> e + d <= max_e -> grid s (e + d) = 2 ^ d * grid s e.
Proof.
  intros Hd He. revert d Hd. apply (natlike_ind (fun d => e + d <= max_e -> grid s (e + d) = 2 ^ d * grid s e)).
  - intros. rewrite Z.add_0_r, Z.pow_0_r. lia.
  - intros d Hd IH Hle. replace (e + Z.succ d) with (e + d + 1) by lia.
    rewrite grid_step, IH, Z.pow_succ_r by lia. lia.
Qed.

Lemma magnitude_bounds neg :
  0 <= maximum_magnitude s neg < 2 ^ 64 /\
  maximum_magnitude s false = (if signed_kind (nkind s) then 2 ^ (m - 1) else 2 ^ m) - 1 /\
  maximum_magnitude s true = (if signed_kind (nkind s) then 2 ^ (m - 1) else 2 ^ m - 1).
Proof.
  pose proof mantissa_range. pose proof (pow2_pos (m - 1)). pose proof (pow2_lt64 (m - 1)).
  pose proof (pow2_le64 m). pose proof (pow2_pos m).
  unfold maximum_magnitude. rewrite shl1_small, !mask_pow by lia.
  destruct (signed_kind _), neg; split_and!; lia.
Qed.

Lemma mantissa_split w : 0 <= w < 2 ^ bits s ->
  0 <= w / 2 ^ expo s < 2 ^ m /\ 0 <= w mod 2 ^ expo s <= max_e /\
  w = w / 2 ^ expo s * 2 ^ expo s + w mod 2 ^ expo s.
Proof.
  intros Hw. destruct Hs. pose proof (pow2_pos (expo s)).
  pose proof (Z.mod_pos_bound w (2 ^ expo s)).
  assert (2 ^ bits s = 2 ^ m * 2 ^ expo s) by (rewrite <- Z.pow_add_r by lia; f_equal; lia).
  split_and!; [apply Z.div_pos; lia|apply Z.div_lt_upper_bound; lia|lia|lia|].
  rewrite (Z.mul_comm (w / _)). apply Z.div_mod. lia.
Qed.

(** Decoding gives the exact value of the word. *)
Lemma decode_word w :
  0 <= w < 2 ^ bits s ->
  exists v, decode_exact s w = Ok v /\ canonical v /\ binary_typed v /\
    units v = signed_value s (w / 2 ^ expo s) * grid s (w mod 2 ^ expo s).
Proof.
  intros Hw. destruct (mantissa_split w Hw) as (HM & He & Hsplit). pose proof mantissa_range as Hm.
  pose proof (vs_bits s Hs). pose proof (pow2_le64 (bits s)). pose proof (pow2_le64 m).
  pose proof (vs_expo s Hs) as Hx. pose proof (vs_quantum s Hs _ He) as Hq.
  unfold decode_exact. rewrite Hval. simpl.
  rewrite high_bits_clear by (unfold_words; lia). rewrite (proj2 (Z.ltb_lt _ _)) by lia. simpl.
  assert ((if vrt (nkind s) then wrap32 (Z.land w (mask (exponent_bits s))) else 0) = w mod 2 ^ expo s) as ->.
  { unfold expo in *. destruct (vrt _); [|by rewrite Z.pow_0_r, Z.mod_1_r].
    rewrite land_maskn by lia. destruct (mask_small (exponent_bits s)) as (_ & _ & Hl); [lia|].
    pose proof (vs_max s Hs). unfold expo in *. zlia. }
  assert ((if vrt (nkind s) then Z.shiftr w (exponent_bits s) else w) = w / 2 ^ expo s) as ->.
  { unfold expo in *. destruct (vrt _); [by rewrite Z.shiftr_div_pow2 by lia|by rewrite Z.pow_0_r, Z.div_1_r]. }
  set (M := w / 2 ^ expo s) in *. rewrite land_pow2, top_bit, twos_complement by lia.
  unfold signed_value, units. pose proof (pow2_pos (m - 1)). pose proof (pow2_succ (m - 1)).
  replace (m - 1 + 1) with m in * by lia.
  assert ((- M) mod 2 ^ m = if 2 ^ (m - 1) <=? M then 2 ^ m - M else (- M) mod 2 ^ m) as ->.
  { case_match eqn:E; [|done]. apply Z.leb_le in E. symmetry. apply (Z.mod_unique_pos _ _ (-1)); lia. }
  edestruct canonicalize_ok as (c & Hc & Hu & Hcan & Htc & _); cycle 2.
  - exists c. split; [exact Hc|]. split; [done|]. split; [done|].
    change (sgn (negative c) * size c) with (units c). rewrite Hu. unfold units, size. simpl.
    rewrite int16_small by (unfold INT16_MAX; lia). unfold grid.
    destruct (signed_kind _), (2 ^ (m - 1) <=? M); simpl; nia.
  - unfold binary_typed. simpl. rewrite int16_small by (unfold INT16_MAX; lia).
    split; [|unfold INT16_MAX; lia].
    destruct (signed_kind _), (Z.leb_spec (2 ^ (m - 1)) M); simpl; unfold_words; lia.
  - simpl. rewrite int16_small; unfold INT16_MAX; lia.
Qed.

Lemma decode_range w v : u64 w -> decode_exact s w = Ok v -> 0 <= w < 2 ^ bits s.
Proof.
  intros Hw H. unfold decode_exact in H. rewrite Hval in H. simpl in H.
  pose proof (vs_bits s Hs). rewrite high_bits_clear in H by (done || lia).
  destruct (Z.ltb_spec w (2 ^ bits s)); [unfold_words; lia|done].
Qed.

(** The representable values, by mantissa and exponent. *)
Lemma representable_iff x :
  representable s x <->
  exists M e, 0 <= e <= max_e /\
    (if signed_kind (nkind s) then - maximum_magnitude s true else 0) <= M <= maximum_magnitude s false /\
    x = M * grid s e.
Proof.
  destruct (magnitude_bounds false) as (_ & Hf & Ht). rewrite Hf, Ht. pose proof mantissa_range.
  pose proof (pow2_pos (m - 1)). pose proof (pow2_succ (m - 1)). replace (m - 1 + 1) with m in * by lia.
  split.
  - intros (w & v & Hw & Hd & <-). pose proof (decode_range _ _ Hw Hd) as Hr.
    destruct (mantissa_split _ Hr) as (HM & He & _).
    destruct (decode_word _ Hr) as (v' & Hd' & _ & _ & Hu). rewrite Hd in Hd'. injection Hd' as <-.
    exists (signed_value s (w / 2 ^ expo s)), (w mod 2 ^ expo s). split_and!; try done; try lia;
      unfold signed_value in *; destruct (signed_kind _), (Z.leb_spec (2 ^ (m - 1)) (w / 2 ^ expo s)); simpl; lia.
  - intros (M & e & He & HM & ->).
    set (W := M mod 2 ^ m). assert (0 <= W < 2 ^ m) by (apply Z.mod_pos_bound; lia).
    assert (signed_value s W = M) as HW.
    { unfold signed_value, W. destruct (Z.ltb_spec M 0).
      - destruct (signed_kind _); [|lia]. assert (M mod 2 ^ m = M + 2 ^ m) as ->
          by (symmetry; apply (Z.mod_unique_pos _ _ (-1)); lia).
        rewrite (proj2 (Z.leb_le _ _)) by lia. simpl. lia.
      - destruct (signed_kind _); rewrite Z.mod_small by lia; [|done].
        rewrite (proj2 (Z.leb_gt _ _)) by lia. done. }
    pose proof (vs_max s Hs). pose proof (pow2_pos (expo s)). pose proof (vs_expo s Hs).
    pose proof (vs_bits s Hs). pose proof (pow2_le64 (bits s)). pose proof (vs_sum s Hs).
    assert (2 ^ bits s = 2 ^ m * 2 ^ expo s) by (rewrite <- Z.pow_add_r by lia; f_equal; lia).
    assert (Hr : 0 <= W * 2 ^ expo s + e < 2 ^ bits s) by nia.
    destruct (decode_word _ Hr) as (v & Hd & _ & _ & Hu).
    exists (W * 2 ^ expo s + e), v. split; [unfold_words; lia|]. split; [done|].
    rewrite Hu, Z.div_add_l, (Z.div_small e), Z.add_0_r, HW by lia.
    by rewrite Z.add_comm, Z.mod_add, Z.mod_small by lia.
Qed.
End Format.

(** ** Rounding *)

(** Rounding the magnitude [X] of a number of sign [neg] to a multiple of [Q]. *)
Definition rnd (mode : Z) (neg : bool) (X Q : Z) : Z :=
  let k := X / Q in
  let r := X mod Q in
  if r =? 0 then k
  else if (mode =? Rounding.toward_negative) && neg || (mode =? Rounding.toward_positive) && negb neg
          || (mode =? Rounding.nearest_ties_even) && ((Q <? 2 * r) || (2 * r =? Q) && Z.odd k)
       then k + 1 else k.

Definition mode_valid (mode : Z) : Prop := 0 <= mode <= 3.

(** The three ways of rounding a magnitude. *)
Inductive direction := down | up | nearest.
Definition direction_of (mode : Z) (neg : bool) : direction :=
  if mode =? Rounding.nearest_ties_even then nearest
  else if (mode =? Rounding.toward_negative) && neg || (mode =? Rounding.toward_positive) && negb neg
  then up else down.

Lemma rnd_cases mode neg X Q :
  0 < Q -> 0 <= X ->
  exists r, 0 <= r < Q /\ X = X / Q * Q + r /\ (X mod Q =? 0) = (r =? 0) /\ 0 <= X / Q /\
    (rnd mode neg X Q = X / Q \/ rnd mode neg X Q = X / Q + 1) /\
    match direction_of mode neg with
    | down => rnd mode neg X Q = X / Q
    | up => rnd mode neg X Q = if r =? 0 then X / Q else X / Q + 1
    | nearest => (rnd mode neg X Q = X / Q -> 2 * r < Q \/ 2 * r = Q /\ Z.odd (X / Q) = false) /\
                 (rnd mode neg X Q = X / Q + 1 -> Q < 2 * r \/ 2 * r = Q /\ Z.odd (X / Q) = true)
    end.
Proof.
  intros HQ HX. exists (X mod Q). pose proof (Z.mod_pos_bound X Q HQ). pose proof (Z.div_mod X Q).
  pose proof (Z.div_pos X Q).
  split_and!; try lia; unfold rnd, direction_of; [by repeat case_match; auto|].
  destruct (Z.eqb_spec (X mod Q) 0) as [E|E].
  - destruct (mode =? Rounding.nearest_ties_even); [lia|]. by destruct (_ || _).
  - unfold Rounding.nearest_ties_even, Rounding.toward_negative, Rounding.toward_positive.
    destruct (Z.eqb_spec mode 0) as [->|]; simpl; [|by rewrite orb_false_r; destruct (_ || _)].
    destruct (Z.ltb_spec Q (2 * (X mod Q))); simpl; [lia|].
    destruct (Z.eqb_spec (2 * (X mod Q)) Q); simpl; [|lia]. destruct (Z.odd (X / Q)); lia.
Qed.

(** The code's decision on the discarded bits, against the reference. *)
Lemma increments_rnd mode neg mag right U :
  0 <= mag < 2 ^ 64 -> 0 < right -> 0 < U ->
  mag / 2 ^ right + b2z (increments mode neg right (mag / 2 ^ right) (mag mod 2 ^ right))
    = rnd mode neg (mag * U) (2 ^ right * U) /\
  nonzero (mag mod 2 ^ right) = negb ((mag * U) mod (2 ^ right * U) =? 0).
Proof.
  intros Hm Hr HU. pose proof (pow2_pos right). unfold rnd.
  rewrite Z.div_mul_cancel_r, Z.mul_mod_distr_r by lia.
  set (k := mag / 2 ^ right). set (r := mag mod 2 ^ right).
  assert (0 <= r < 2 ^ right) by (apply Z.mod_pos_bound; lia).
  assert ((r * U =? 0) = (r =? 0)) as -> by (destruct (Z.eqb_spec r 0), (Z.eqb_spec (r * U) 0); nia).
  split; [|done]. unfold increments, nonzero.
  destruct (Z.eqb_spec r 0); simpl; [lia|].
  unfold Rounding.nearest_ties_even, Rounding.toward_negative, Rounding.toward_positive.
  destruct (Z.eqb_spec mode 0) as [->|Hmode]; simpl.
  - pose proof (pow2_succ (right - 1)) as Hp. replace (right - 1 + 1) with right in Hp by lia.
    change (negb (Z.land k 1 =? 0)) with (nonzero (Z.land k 1)).
    rewrite Z.shiftl_1_l, odd_land1. destruct (Z.leb_spec right 64).
    + assert ((2 ^ right * U <? 2 * (r * U)) = (2 ^ (right - 1) <? r)) as ->.
      { destruct (Z.ltb_spec (2 ^ right * U) (2 * (r * U))), (Z.ltb_spec (2 ^ (right - 1)) r); nia. }
      assert ((2 * (r * U) =? 2 ^ right * U) = (r =? 2 ^ (right - 1))) as ->.
      { destruct (Z.eqb_spec (2 * (r * U)) (2 ^ right * U)), (Z.eqb_spec r (2 ^ (right - 1))); nia. }
      destruct (_ || _); simpl; lia.
    + assert (2 ^ 64 <= 2 ^ (right - 1)) by (apply Z.pow_le_mono_r; lia).
      assert (r <= mag) by (apply Z.mod_le; lia).
      rewrite (proj2 (Z.ltb_ge _ _)), (proj2 (Z.eqb_neq _ _)) by nia. simpl. lia.
  - rewrite orb_false_r. destruct (Z.eqb_spec mode 2) , (Z.eqb_spec mode 3) ; simpl;
      destruct neg; simpl; lia.
Qed.

Lemma bit_width_spec x : 0 < x -> 2 ^ (bit_width x - 1) <= x < 2 ^ bit_width x /\ 1 <= bit_width x.
Proof.
  intros Hx. unfold bit_width. rewrite (proj2 (Z.eqb_neq _ _)) by lia.
  pose proof (Z.log2_spec x Hx). pose proof (Z.log2_nonneg x).
  replace (Z.log2 x + 1 - 1) with (Z.log2 x) by lia. unfold Z.succ in *. lia.
Qed.

Lemma bit_width_le x n : 0 < x -> 0 <= n -> bit_width x <= n <-> x < 2 ^ n.
Proof.
  intros Hx Hn. unfold bit_width. rewrite (proj2 (Z.eqb_neq _ _)) by lia.
  pose proof (Z.log2_lt_pow2 x n Hx). lia.
Qed.

(** [quantize] rounds to the quantum, and reports exactly when the result does not fit in a
    word and when something was discarded. *)
Lemma quantize_rnd v q mode :
  binary_typed v -> 0 < magnitude v -> -33000 <= q <= 33000 ->
  let Q := 2 ^ (q + UNIT) in
  let r := quantize v q mode in
  residue r = negb (size v mod Q =? 0) /\
  if qoverflow r then 2 ^ 64 <= rnd mode (negative v) (size v) Q
  else qmagnitude r = rnd mode (negative v) (size v) Q.
Proof.
  intros [Hm He] Hpos Hq Q r. unfold INT16_MAX in *. subst r. unfold quantize.
  assert (nonzero (magnitude v) = true) as -> by (unfold nonzero; rewrite (proj2 (Z.eqb_neq _ _)); lia).
  cbn [negb]. assert (HQ : 0 < Q) by (apply pow2_pos; unfold UNIT; lia).
  assert (Hm64 : magnitude v < 2 ^ 64) by (unfold_words; lia).
  destruct (Z.leb_spec 0 (exponent v - q)) as [Hsh|Hsh].
  - assert (HX : size v = magnitude v * 2 ^ (exponent v - q) * Q).
    { unfold size, Q, UNIT. rewrite <- Z.mul_assoc, <- Z.pow_add_r by lia. do 2 f_equal. lia. }
    assert (Hr : rnd mode (negative v) (size v) Q = magnitude v * 2 ^ (exponent v - q)).
    { unfold rnd. rewrite HX, Z.mod_mul, Z.div_mul by lia. done. }
    assert (Hz : size v mod Q = 0) by (rewrite HX; apply Z.mod_mul; lia).
    pose proof (pow2_pos (exponent v - q) Hsh). rewrite Hr, Hz.
    destruct (64 <=? exponent v - q) eqn:E1; simpl.
    + split; [done|]. apply Z.leb_le in E1.
      assert (2 ^ 64 <= 2 ^ (exponent v - q)) by (apply Z.pow_le_mono_r; lia).
      pose proof (Z.mul_le_mono_nonneg_r 1 (magnitude v) (2 ^ (exponent v - q))). lia.
    + apply Z.leb_gt in E1. pose proof (pow2_split (exponent v - q) 64 ltac:(lia)).
      pose proof (bit_width_le (magnitude v) (64 - (exponent v - q)) Hpos ltac:(lia)).
      destruct (Z.ltb_spec 64 (bit_width (magnitude v) + (exponent v - q))); simpl; split; try done; [nia|].
      rewrite Z.shiftl_mul_pow2, wrap64_id by nia. done.
  - set (right := - (exponent v - q)). set (U := 2 ^ (exponent v + UNIT)).
    assert (HQR : Q = 2 ^ right * U).
    { unfold Q, U, right, UNIT. rewrite <- Z.pow_add_r by lia. f_equal. lia. }
    assert (0 < U) by (apply pow2_pos; unfold UNIT; lia).
    destruct (increments_rnd mode (negative v) (magnitude v) right U) as [Hi Hres]; [lia|lia|done|].
    assert ((if 64 <=? right then 0 else Z.shiftr (magnitude v) right) = magnitude v / 2 ^ right) as ->.
    { destruct (Z.leb_spec 64 right); [|apply Z.shiftr_div_pow2; lia].
      assert (2 ^ 64 <= 2 ^ right) by (apply Z.pow_le_mono_r; lia). rewrite Z.div_small; lia. }
    assert ((if 64 <=? right then magnitude v else Z.land (magnitude v) (mask right))
            = magnitude v mod 2 ^ right) as ->.
    { destruct (Z.leb_spec 64 right); [|apply land_maskn; lia].
      assert (2 ^ 64 <= 2 ^ right) by (apply Z.pow_le_mono_r; lia). rewrite Z.mod_small; lia. }
    change (size v) with (magnitude v * U). rewrite HQR, <- Hi, <- Hres.
    assert (Hk : 0 <= magnitude v / 2 ^ right < 2 ^ 64).
    { pose proof (pow2_pos right). split; [apply Z.div_pos; lia|]. apply Z.div_lt_upper_bound; nia. }
    destruct (increments _ _ _ _ _) eqn:Ei; simpl.
    + destruct (Z.eqb_spec (magnitude v / 2 ^ right) U64_MAX); simpl; split; try done; unfold_words; [lia|].
      change 18446744073709551616 with (2 ^ 64) in *. rewrite Z.mod_small by lia. done.
    + split; [done|]. rewrite wrap64_id by lia. lia.
Qed.

(** ** Comparison *)

Lemma size_bounds v :
  binary_typed v -> 0 < magnitude v ->
  let top := exponent v + bit_width (magnitude v) in
  -32768 < top /\ 2 ^ (top + UNIT - 1) <= size v < 2 ^ (top + UNIT) /\
  size v = wrap64 (Z.shiftl (magnitude v) (64 - bit_width (magnitude v))) * 2 ^ (top + UNIT - 64).
Proof.
  intros [Hm He] Hpos top. unfold INT16_MAX, UNIT in *.
  destruct (bit_width_spec _ Hpos) as [Hw Hw1].
  assert (bit_width (magnitude v) <= 64) by (apply bit_width_le; unfold_words; lia).
  assert (H2 : forall k, 0 <= exponent v + 40000 + k -> 0 <= k ->
    2 ^ (exponent v + 40000 + k) = 2 ^ k * 2 ^ (exponent v + 40000)).
  { intros. rewrite <- Z.pow_add_r by lia. f_equal. lia. }
  unfold size, UNIT, top in *. pose proof (pow2_pos (exponent v + 40000)).
  split; [lia|]. split.
  - replace (exponent v + bit_width (magnitude v) + 40000 - 1)
      with (exponent v + 40000 + (bit_width (magnitude v) - 1)) by lia.
    replace (exponent v + bit_width (magnitude v) + 40000)
      with (exponent v + 40000 + bit_width (magnitude v)) by lia.
    rewrite !H2 by lia. nia.
  - pose proof (pow2_pos (64 - bit_width (magnitude v))).
    pose proof (pow2_split (64 - bit_width (magnitude v)) 64 ltac:(lia)) as H64.
    replace (64 - (64 - bit_width (magnitude v))) with (bit_width (magnitude v)) in H64 by lia.
    rewrite Z.shiftl_mul_pow2, wrap64_id by nia.
    rewrite <- Z.mul_assoc, <- Z.pow_add_r by lia. do 2 f_equal. lia.
Qed.

Lemma size_nonneg v : binary_typed v -> 0 <= size v.
Proof.
  intros [Hm He]. unfold size, UNIT, INT16_MAX in *. pose proof (pow2_pos (exponent v + 40000)).
  unfold_words. nia.
Qed.

Lemma size_pos v : binary_typed v -> 0 < magnitude v -> 0 < size v.
Proof.
  intros [Hm He] H. unfold size, UNIT, INT16_MAX in *. pose proof (pow2_pos (exponent v + 40000)). nia.
Qed.

(** [compare] orders the magnitudes exactly, whatever the exponents. *)
Lemma compare_size a b :
  binary_typed a -> binary_typed b ->
  compare a b = match size a ?= size b with Lt => -1 | Eq => 0 | Gt => 1 end.
Proof.
  intros Ha Hb. unfold compare, nonzero.
  assert (0 <= magnitude a /\ 0 <= magnitude b) as [Ha0 Hb0] by (destruct Ha, Hb; unfold_words; lia).
  destruct (Z.eqb_spec (magnitude a) 0) as [Ea|Ea], (Z.eqb_spec (magnitude b) 0) as [Eb|Eb]; cbn [negb orb].
  1-3: unfold size at 1 2; rewrite ?Ea, ?Eb, ?Z.mul_0_l; try done.
  1: change (magnitude b * _) with (size b); pose proof (size_pos b Hb ltac:(lia)).
  2: change (magnitude a * _) with (size a); pose proof (size_pos a Ha ltac:(lia)).
  1-2: destruct (Z.compare_spec 0 (size b)), (Z.compare_spec (size a) 0); try done; lia.
  destruct (size_bounds a Ha ltac:(lia)) as (Ta & Ba & Sa), (size_bounds b Hb ltac:(lia)) as (Tb & Bb & Sb).
  set (ta := exponent a + bit_width (magnitude a)) in *.
  set (tb := exponent b + bit_width (magnitude b)) in *. unfold UNIT in *.
  assert (Hlt : forall x y, -32768 < x -> x < y -> 2 ^ (x + 40000) <= 2 ^ (y + 40000 - 1))
    by (intros; apply Z.pow_le_mono_r; lia).
  destruct (Z.eqb_spec ta tb) as [Et|Et]; cbn [negb].
  - rewrite Sa, Sb, <- Et. set (p := 2 ^ (ta + 40000 - 64)).
    assert (0 < p) by (apply pow2_pos; lia).
    repeat bdestruct_step; destruct (Z.compare_spec
      (wrap64 (Z.shiftl (magnitude a) (64 - bit_width (magnitude a))) * p)
      (wrap64 (Z.shiftl (magnitude b) (64 - bit_width (magnitude b))) * p)); try done; nia.
  - destruct (Z.ltb_spec ta tb); destruct (Z.compare_spec (size a) (size b)); try done.
    1-2: pose proof (Hlt ta tb); lia.
    1-2: pose proof (Hlt tb ta); lia.
Qed.

(** ** Encoding *)

Section Encoding.
Context (s : NumericSpec) (Hs : valid_spec s) (Hval : nvalidate s = Ok tt).

#[local] Abbreviation m := (mantissa_bits s).
#[local] Abbreviation max_e := (maximum_exponent s).
#[local] Abbreviation top := (maximum_magnitude s).

(** The formats without sign hold no negative numbers. *)
Definition sign_ok (neg : bool) : Prop := signed_kind (nkind s) = true \/ neg = false.

Lemma lowest_exponent_spec max_mag k e :
  0 <= k <= max_mag -> max_mag < 2 ^ 64 -> Z.of_nat e <= max_e ->
  let '(k', e') := lowest_exponent max_mag k e in
  0 <= k' <= max_mag /\ (e' <= e)%nat /\
  k' * grid s (Z.of_nat e') = k * grid s (Z.of_nat e) /\
  (k = 0 -> k' = 0) /\ (0 < k -> 0 < k' /\ (e' = 0%nat \/ max_mag < 2 * k')).
Proof.
  revert k. induction e as [|e IH]; intros k Hk Hmax He; simpl; [split_and!; lia || auto|].
  unfold nonzero. destruct (Z.eqb_spec k 0); simpl; [split_and!; lia|].
  destruct (Z.leb_spec k (max_mag / 2)) as [Hle|Hle]; [|split_and!; zlia].
  assert (0 <= k * 2 <= max_mag) by zlia. rewrite wrap64_id by lia.
  specialize (IH (k * 2) ltac:(done) Hmax ltac:(lia)).
  destruct (lowest_exponent max_mag (k * 2) e) as [k' e'].
  destruct IH as (? & ? & Hg & ? & ?). split_and!; try lia.
  rewrite Hg. replace (Z.of_nat (S e)) with (Z.of_nat e + 1) by lia.
  rewrite (grid_step s Hs) by lia. lia.
Qed.

(** The word written for a mantissa and an exponent decodes to their value. *)
Lemma encode_word neg k e :
  sign_ok neg -> 0 < k <= top neg -> 0 <= e <= max_e ->
  let mantissa := if neg then Z.land (wrap64 (wrap64 (Z.lnot k) + 1)) (mask m) else k in
  let w := if vrt (nkind s) then Z.lor (wrap64 (Z.shiftl mantissa (exponent_bits s))) e else mantissa in
  0 <= w < 2 ^ bits s /\
  exists v, decode_exact s w = Ok v /\ units v = sgn neg * k * grid s e.
Proof.
  intros Hsgn Hk He mantissa w. pose proof (mantissa_range s Hs). destruct (magnitude_bounds s Hs neg) as (_ & Hf & Ht).
  pose proof (pow2_pos (m - 1)). pose proof (pow2_succ (m - 1)). replace (m - 1 + 1) with m in * by lia.
  assert (HM : 0 <= mantissa < 2 ^ m /\ signed_value s mantissa = sgn neg * k).
  { unfold mantissa, signed_value, sgn. destruct neg.
    - destruct Hsgn as [Hsgn|]; [|done]. rewrite Hsgn in *. simpl.
      rewrite twos_complement by lia. replace ((- k) mod 2 ^ m) with (2 ^ m - k)
        by (apply (Z.mod_unique_pos _ _ (-1)); lia).
      rewrite (proj2 (Z.leb_le _ _)) by lia. lia.
    - destruct (signed_kind _); simpl; [rewrite (proj2 (Z.leb_gt _ _)) by lia|]; lia. }
  destruct HM as [HM HV]. pose proof (vs_expo s Hs). pose proof (vs_max s Hs). pose proof (vs_sum s Hs).
  pose proof (vs_bits s Hs). pose proof (pow2_pos (expo s)). pose proof (pow2_le64 (bits s)).
  assert (2 ^ bits s = 2 ^ m * 2 ^ expo s) by (rewrite <- Z.pow_add_r by lia; f_equal; lia).
  assert (Hw : w = mantissa * 2 ^ expo s + e).
  { unfold w, expo in *. destruct (vrt _); [|rewrite Z.pow_0_r in *; lia].
    rewrite Z.shiftl_mul_pow2, wrap64_id by nia. apply lor_low; lia. }
  assert (Hr : 0 <= w < 2 ^ bits s) by nia. split; [done|].
  destruct (decode_word s Hs Hval w Hr) as (v & Hd & _ & _ & Hu). exists v. split; [done|].
  rewrite Hu, Hw, Z.div_add_l, (Z.div_small e), Z.add_0_r, HV by lia.
  by rewrite Z.add_comm, Z.mod_add, Z.mod_small by lia.
Qed.

Lemma decode_zero : exists v, decode_exact s 0 = Ok v /\ units v = 0.
Proof.
  pose proof (vs_bits s Hs). pose proof (pow2_pos (bits s)). pose proof (vs_expo s Hs).
  pose proof (pow2_pos (expo s)). pose proof (mantissa_range s Hs). pose proof (pow2_pos (m - 1)).
  destruct (decode_word s Hs Hval 0) as (v & Hd & _ & _ & Hu); [lia|]. exists v. split; [done|].
  rewrite Hu, Z.div_0_l by lia. unfold signed_value.
  rewrite (proj2 (Z.leb_gt _ _)), andb_false_r by lia. done.
Qed.

(** One iteration of the search: what it accepts, and the value of what it returns. *)
Lemma encode_at_spec v p sat e :
  binary_typed v -> 0 < magnitude v -> sign_ok (negative v) -> Z.of_nat e <= max_e ->
  let K := rnd (rounding p) (negative v) (size v) (grid s (Z.of_nat e)) in
  let exact := size v mod grid s (Z.of_nat e) =? 0 in
  match encode_at s v p (top (negative v)) m sat e with
  | None => top (negative v) < K \/ precision p = Precision.exact_only /\ exact = false
  | Some r =>
      K <= top (negative v) /\ (precision p = Precision.exact_only -> exact = true) /\
      saturated r = sat /\ rounded r = negb exact /\ u64 (ebits r) /\
      exists w, decode_exact s (ebits r) = Ok w /\
        units w = sgn (negative v) * K * grid s (Z.of_nat e)
  end.
Proof.
  intros Hv Hpos Hsgn He K exact. unfold encode_at.
  pose proof (vs_quantum s Hs (Z.of_nat e) ltac:(lia)) as Hq.
  destruct (quantize_rnd v (quantum s (Z.of_nat e)) (rounding p) Hv Hpos ltac:(lia)) as [Hres Hof].
  fold (grid s (Z.of_nat e)) in Hres, Hof. fold K in Hof. fold exact in Hres.
  destruct (magnitude_bounds s Hs (negative v)) as (Htop & _).
  destruct (rnd_cases (rounding p) (negative v) (size v) (grid s (Z.of_nat e)))
    as (r & _ & _ & _ & Hk0 & HK & _); [apply (grid_pos s Hs); lia|by apply size_nonneg|]. fold K in HK.
  destruct (qoverflow _); simpl; [left; lia|]. rewrite Hof, Hres.
  destruct (Z.ltb_spec (top (negative v)) K); [by left|].
  destruct (negb exact && (precision p =? Precision.exact_only)) eqn:Ex.
  { right. rewrite andb_true_iff, negb_true_iff, Z.eqb_eq in Ex. tauto. }
  pose proof (lowest_exponent_spec (top (negative v)) K e ltac:(lia) ltac:(lia) He) as Hlow.
  destruct (lowest_exponent _ _ _) as [k' e']. destruct Hlow as (Hk & He' & Hg & Hz & Hp). simpl.
  split; [done|]. split; [rewrite andb_false_iff, negb_false_iff, Z.eqb_neq in Ex; tauto|].
  split; [done|]. split; [done|]. unfold nonzero. destruct (Z.eqb_spec K 0) as [EK|EK]; simpl.
  - split; [unfold_words; lia|]. destruct decode_zero as (w & Hw & Hu). exists w. split; [done|].
    rewrite Hu, EK. lia.
  - destruct (encode_word (negative v) k' (Z.of_nat e') Hsgn ltac:(lia) ltac:(lia)) as [Hr (w & Hd & Hu)].
    pose proof (vs_bits s Hs). pose proof (pow2_le64 (bits s)). split; [unfold_words; lia|].
    exists w. split; [done|]. by rewrite Hu, <- !Z.mul_assoc, Hg.
Qed.

(** The search returns the first exponent that is accepted. *)
Lemma encode_loop_spec v p sat e n :
  match encode_loop s v p (top (negative v)) m sat e n with
  | Ok r => exists f, (e <= f < e + n)%nat /\
      encode_at s v p (top (negative v)) m sat f = Some r /\
      forall g, (e <= g < f)%nat -> encode_at s v p (top (negative v)) m sat g = None
  | Err x => x = error1 ErrorCode.invalid_argument /\
      forall g, (e <= g < e + n)%nat -> encode_at s v p (top (negative v)) m sat g = None
  | UB => False
  end.
Proof.
  revert e. induction n as [|n IH]; intros e; simpl; [split; [done|]; lia|].
  destruct (encode_at _ _ _ _ _ _ e) eqn:E; [exists e; split_and!; try lia; auto; lia|].
  specialize (IH (S e)). destruct (encode_loop _ _ _ _ _ _ (S e) n) as [r|x|]; [| |done].
  - destruct IH as (f & Hf & Hr & Hg). exists f. split_and!; [lia..|done|].
    intros g Hge. destruct (decide (g = e)) as [->|]; [done|]. apply Hg. lia.
  - destruct IH as [-> Hg]. split; [done|]. intros g Hge.
    destruct (decide (g = e)) as [->|]; [done|]. apply Hg. lia.
Qed.
End Encoding.

(** ** The rounded value is the best one the format has *)

(** When [z] is as near to [x] as [y] is, [y] is the even one of the two: an even multiple of
    the step between them. *)
Definition even_tie (x y z : Z) : Prop :=
  z <> y -> Z.abs (y - x) = Z.abs (z - x) -> exists k, y = 2 * k * (z - y).

(** [y] is the best approximation of the magnitude [x] as far as [z] is concerned. *)
Definition better (d : direction) (x y z : Z) : Prop :=
  match d with
  | down => y <= x /\ (z <= x -> z <= y)
  | up => x <= y /\ (x <= z -> y <= z)
  | nearest => Z.abs (y - x) <= Z.abs (z - x) /\ even_tie x y z
  end.

Lemma even_half k : Z.odd k = false -> exists h, k = 2 * h.
Proof. rewrite <- Z.negb_even, negb_false_iff. intros [h ->]%Z.even_spec. eauto. Qed.

Lemma odd_half k : Z.odd k = true -> exists h, k + 1 = 2 * h.
Proof. intros [h ->]%Z.odd_spec. exists (h + 1). lia. Qed.

(** Distinct multiples of a step are at least a step apart. *)
Lemma multiple_step j k G :
  0 < G -> j * G <> k * G -> j * G <= k * G - G /\ j < k \/ k * G + G <= j * G /\ k < j.
Proof. intros HG Hne. assert (j < k \/ k < j) as [|] by nia; [left|right]; nia. Qed.

Lemma rnd_best_multiple mode neg x G j :
  0 < G -> 0 <= x -> better (direction_of mode neg) x (rnd mode neg x G * G) (j * G).
Proof.
  intros HG Hx. destruct (rnd_cases mode neg x G HG Hx) as (r & Hr & Hd & _ & Hk & HK & Hdir).
  set (k := x / G) in *. set (K := rnd mode neg x G) in *.
  unfold better. destruct (direction_of mode neg).
  - rewrite Hdir. split; [lia|]. intros. assert (j < k + 1) by nia. nia.
  - destruct (Z.eqb_spec r 0); rewrite Hdir; (split; [lia|]); intros; [nia|]. assert (k < j) by nia. nia.
  - destruct Hdir as [H1 H2]. split.
    { destruct HK as [HK|HK]; rewrite HK in *;
        (assert (j <= k \/ k + 1 <= j) as [|] by lia;
         [assert (j * G <= k * G) by nia; lia|assert ((k + 1) * G <= j * G) by nia; lia]). }
    intros Hne Htie. destruct HK as [HK|HK]; rewrite HK in *.
    + destruct (multiple_step j k G HG) as [[Hj Hs]|[Hj Hs]]; [congruence|lia|].
      assert (Z.odd k = false) as Hev by (destruct H1; [done|lia|tauto]).
      destruct (even_half k Hev) as [h ->]. exists h. nia.
    + destruct (multiple_step j (k + 1) G HG) as [[Hj Hs]|[Hj Hs]]; [congruence| |lia].
      assert (Z.odd k = true) as Hev by (destruct H2; [done|lia|tauto]).
      destruct (odd_half k Hev) as [h Hh]. exists (- h). rewrite Hh in *. nia.
Qed.

(** What lies below a candidate that lies below [x] is no better than the candidate. *)
Lemma better_trans d x y P z : better d x y P -> z <= P -> P <= x -> better d x y z.
Proof.
  unfold better. destruct d; [lia..|]. intros [H1 H2] Hz HP. split; [lia|]. intros Hne Ht.
  assert (z = P) as -> by lia. by apply H2.
Qed.

(** A value too large for the finer step [G] is above everything that step offers; rounding
    it with the coarser step loses nothing to the finer one. *)
Lemma rnd_best_finer mode neg x G T y :
  0 < G -> 0 <= x -> 0 <= T -> T < rnd mode neg x G -> y <= T * G ->
  better (direction_of mode neg) x (rnd mode neg x (2 * G) * (2 * G)) y.
Proof.
  intros HG Hx HT HF Hy.
  destruct (rnd_cases mode neg x G HG Hx) as (r & Hr & Hd & _ & Hk & HK & Hdir).
  assert (Hp : exists p, p * (2 * G) = T * G \/ p * (2 * G) = (T + 1) * G).
  { exists ((T + 1) / 2). assert (2 * ((T + 1) / 2) = T \/ 2 * ((T + 1) / 2) = T + 1) as E by zlia.
    generalize dependent ((T + 1) / 2). intros q [<-|<-]; [left|right]; lia. }
  destruct Hp as (p & Hp).
  pose proof (rnd_best_multiple mode neg x (2 * G) p ltac:(lia) Hx) as HB.
  set (k := x / G) in *. set (K := rnd mode neg x G) in *. set (Y := rnd mode neg x (2 * G) * (2 * G)) in *.
  set (P := p * (2 * G)) in *. set (TG := T * G) in *.
  assert (HT1 : (T + 1) * G = TG + G) by nia. unfold better in *. destruct (direction_of mode neg).
  - assert ((T + 1) * G <= k * G) by nia. lia.
  - destruct (Z.eqb_spec r 0).
    + assert (TG + G <= k * G) by nia. lia.
    + assert (TG <= k * G) by nia. lia.
  - destruct (Z.le_gt_cases P x) as [HP|HP].
    { assert (TG <= P) by lia. apply (better_trans nearest _ _ P); [done|lia|done]. }
    assert (T = k /\ K = k + 1) as [-> HK1] by (destruct HK; nia).
    destruct Hdir as [_ H2]. specialize (H2 HK1). destruct HB as [HB _]. split; [lia|]. intros Hne Ht.
    assert (Z.odd k = true) as [h Hh]%odd_half by (destruct H2; [lia|tauto]).
    assert (Y = (k + 1) * G) as -> by lia. assert (y = TG) as -> by lia.
    exists (- h). rewrite Hh in *. lia.
Qed.

(** [y] is the correct rounding of [x] to the set [R]. *)
Definition rounds_to (mode : Z) (R : Z -> Prop) (x y : Z) : Prop :=
  R y /\
  match mode with
  | 0 => forall z, R z -> Z.abs (y - x) <= Z.abs (z - x) /\ even_tie x y z
  | 1 => 0 <= y * x /\ Z.abs y <= Z.abs x /\
      forall z, R z -> 0 <= z * x -> Z.abs z <= Z.abs x -> Z.abs z <= Z.abs y
  | 2 => y <= x /\ forall z, R z -> z <= x -> z <= y
  | 3 => x <= y /\ forall z, R z -> x <= z -> y <= z
  | _ => False
  end.

(** From magnitudes to signed values. *)
Lemma better_rounds (R : Z -> Prop) mode neg X Y :
  R 0 -> mode_valid mode -> 0 < X -> 0 <= Y -> R (sgn neg * Y) ->
  (forall z, R z -> 0 <= sgn neg * z -> better (direction_of mode neg) X Y (sgn neg * z)) ->
  rounds_to mode R (sgn neg * X) (sgn neg * Y).
Proof.
  intros Hz0 Hmode HX HY HR HB. split; [done|]. pose proof (HB 0 Hz0 ltac:(lia)) as H0.
  assert (mode = 0 \/ mode = 1 \/ mode = 2 \/ mode = 3) as [-> | Hm] by (unfold mode_valid in Hmode; lia).
  - intros z Hz. cbn in H0, HB. destruct (Z.le_gt_cases 0 (sgn neg * z)) as [Hs|Hs].
    + specialize (HB z Hz Hs). destruct HB as [HB Ht]. split; [by destruct neg; unfold sgn in *; lia|].
      intros Hne He. destruct Ht as [k Hk]; [destruct neg; unfold sgn in *; lia..|].
      exists k. destruct neg; unfold sgn in *; lia.
    + split; [|intros ??]; destruct neg; unfold sgn in *; lia.
  - destruct Hm as [-> | [-> | ->]]; cbn in H0, HB |- *; destruct neg; cbn in H0, HB |- *; unfold sgn in *;
      split_and?; try nia; intros z Hz; intros; pose proof (HB z Hz); try lia;
      (destruct (Z.leb_spec 0 z), (Z.leb_spec z 0); try lia; nia).
Qed.

Section Theorems.
Context (s : NumericSpec) (Hs : valid_spec s) (Hval : nvalidate s = Ok tt).

#[local] Abbreviation m := (mantissa_bits s).
#[local] Abbreviation max_e := (maximum_exponent s).
#[local] Abbreviation top := (maximum_magnitude s).

(** A number the format can approximate without clipping it. *)
Definition in_domain (v : BinaryValue) : Prop :=
  sign_ok s (negative v) /\ size v <= top (negative v) * grid s max_e.

Lemma in_domain_cases v : in_domain v \/ ~ in_domain v.
Proof.
  unfold in_domain, sign_ok. destruct (Z.le_gt_cases (size v) (top (negative v) * grid s max_e)); [|right; lia].
  destruct (signed_kind _), (negative v); auto. right. by intros [[] _].
Qed.

Lemma max_e_nonneg : 0 <= max_e.
Proof. rewrite (vs_max s Hs). pose proof (pow2_pos (expo s)). pose proof (vs_expo s Hs). lia. Qed.

Lemma grid_mono f e : 0 <= f <= e -> e <= max_e -> grid s f <= grid s e /\ exists d, grid s e = d * grid s f.
Proof.
  intros Hf He. replace e with (f + (e - f)) by lia. rewrite (grid_multiple s Hs) by lia.
  pose proof (pow2_pos (e - f)). pose proof (grid_pos s Hs f). split; [nia|eauto].
Qed.

Lemma representable_sign z neg :
  representable s z -> sign_ok s neg -> 0 <= sgn neg * z ->
  exists j f, 0 <= f <= max_e /\ 0 <= j <= top neg /\ sgn neg * z = j * grid s f.
Proof.
  intros (M & f & Hf & HM & ->)%(representable_iff s Hs Hval) Hsg Hz. pose proof (grid_pos s Hs f Hf).
  destruct neg; unfold sgn in *.
  - destruct Hsg as [Hsg|]; [|done]. rewrite Hsg in HM. exists (- M), f. split; [done|]. split; nia.
  - exists M, f. split; [done|]. split; [|lia].
    assert (0 <= M) by nia. lia.
Qed.

Lemma found_best v mode e :
  binary_typed v -> 0 <= Z.of_nat e <= max_e -> sign_ok s (negative v) ->
  (forall g, (g < e)%nat -> top (negative v) < rnd mode (negative v) (size v) (grid s (Z.of_nat g))) ->
  forall z, representable s z -> 0 <= sgn (negative v) * z ->
  better (direction_of mode (negative v)) (size v)
    (rnd mode (negative v) (size v) (grid s (Z.of_nat e)) * grid s (Z.of_nat e)) (sgn (negative v) * z).
Proof.
  intros Hv He Hsg Hfail z Hz Hpos. pose proof (size_nonneg v Hv) as Hx.
  destruct (representable_sign z _ Hz Hsg Hpos) as (j & f & Hf & Hj & ->).
  destruct (Z.leb_spec (Z.of_nat e) f) as [Hle|Hlt].
  - destruct (grid_mono (Z.of_nat e) f) as [_ [d ->]]; [lia|lia|]. rewrite Z.mul_assoc.
    apply rnd_best_multiple; [apply (grid_pos s Hs); lia|done].
  - destruct e as [|e]; [lia|]. replace (Z.of_nat (S e)) with (Z.of_nat e + 1) in * by lia.
    rewrite (grid_step s Hs) by lia. pose proof (grid_pos s Hs (Z.of_nat e) ltac:(lia)).
    eapply (rnd_best_finer _ _ _ _ (top (negative v))); try done; [lia|apply Hfail; lia|].
    destruct (grid_mono f (Z.of_nat e)) as [Hg _]; [lia|lia|]. pose proof (grid_pos s Hs f Hf). nia.
Qed.

Lemma representable_zero : representable s 0.
Proof. destruct (decode_zero s Hs Hval) as (v & Hd & Hu). exists 0, v. unfold_words. split; [lia|done]. Qed.

(** The body of [encode_numeric] for a nonzero value. *)
Lemma encode_unfold v p :
  policy_valid p = true -> binary_typed v -> 0 < magnitude v ->
  (in_domain v -> encode_numeric s v p =
     encode_loop s v p (top (negative v)) m false 0 (Z.to_nat (max_e + 1))) /\
  (~ in_domain v -> noverflow p = NOverflow.error \/ precision p = Precision.exact_only ->
     encode_numeric s v p = Err (error1 ErrorCode.overflow)) /\
  (~ in_domain v -> noverflow p <> NOverflow.error -> precision p <> Precision.exact_only ->
     encode_numeric s v p =
       if negb (signed_kind (nkind s)) && negative v then Ok (mkEncoded 0 false true)
       else encode_loop s (mkBinary (top (negative v)) (quantum s max_e) (negative v)) p
              (top (negative v)) m true 0 (Z.to_nat (max_e + 1))).
Proof.
  intros Hp Hv Hpos. unfold encode_numeric, in_domain, sign_ok. rewrite Hval, Hp. simpl.
  unfold nonzero. rewrite (proj2 (Z.eqb_neq (magnitude v) 0)) by lia. simpl.
  destruct (magnitude_bounds s Hs (negative v)) as (Hb & _).
  pose proof (vs_quantum s Hs max_e ltac:(pose proof max_e_nonneg; lia)) as Hq.
  rewrite int16_small, compare_size by
    (done || (unfold binary_typed, INT16_MAX; simpl; unfold_words; lia)).
  change (size (mkBinary _ _ _)) with (top (negative v) * grid s max_e).
  assert (Ht : (0 <? match size v ?= top (negative v) * grid s max_e with Lt => -1 | Eq => 0 | Gt => 1 end)
    = negb (size v <=? top (negative v) * grid s max_e)).
  { destruct (Z.compare_spec (size v) (top (negative v) * grid s max_e)),
      (Z.leb_spec (size v) (top (negative v) * grid s max_e)); done || lia. }
  rewrite Ht. assert (Hout : ~ ((signed_kind (nkind s) = true \/ negative v = false) /\
      size v <= top (negative v) * grid s max_e) ->
    (negb (signed_kind (nkind s)) && negative v) || negb (size v <=? top (negative v) * grid s max_e) = true).
  { intros Hn. destruct (Z.leb_spec (size v) (top (negative v) * grid s max_e)); [|apply orb_true_r].
    destruct (signed_kind _); [by destruct Hn; auto|]. destruct (negative v); [done|]. destruct Hn. auto. }
  split; [|split].
  - intros [Hsg Hle]. rewrite (proj2 (Z.leb_le _ _) Hle). simpl.
    assert (negb (signed_kind (nkind s)) && negative v = false) as ->; [|done].
    destruct Hsg as [-> | ->]; [done|apply andb_false_r].
  - intros Hn Ho. rewrite Hout by done.
    assert ((noverflow p =? NOverflow.error) || (precision p =? Precision.exact_only) = true) as ->; [|done].
    destruct Ho as [-> | ->]; [done|apply orb_true_r].
  - intros Hn Ho Hx. rewrite Hout by done.
    by rewrite (proj2 (Z.eqb_neq (noverflow p) _) Ho), (proj2 (Z.eqb_neq (precision p) _) Hx).
Qed.

Lemma rnd_exact mode neg X Q :
  0 < Q -> 0 <= X ->
  (X mod Q =? 0) = (rnd mode neg X Q * Q =? X).
Proof.
  intros HQ HX. destruct (rnd_cases mode neg X Q HQ HX) as (r & Hr & Hd & -> & Hk & HK & _).
  assert (r = 0 -> rnd mode neg X Q = X / Q).
  { intros ->. unfold rnd. replace (X mod Q) with 0; [done|]. symmetry. apply Z.mod_divide; [lia|].
    exists (X / Q). lia. }
  destruct (Z.eqb_spec r 0), (Z.eqb_spec (rnd mode neg X Q * Q) X); try done; destruct HK as [HK|HK];
    rewrite HK in *; nia.
Qed.

(** At the largest exponent a value of the domain fits. *)
Lemma rnd_fits mode v :
  binary_typed v -> in_domain v ->
  rnd mode (negative v) (size v) (grid s max_e) <= top (negative v).
Proof.
  intros Hv [_ Hle]. pose proof max_e_nonneg. pose proof (grid_pos s Hs max_e ltac:(lia)) as HG.
  destruct (rnd_cases mode (negative v) (size v) (grid s max_e) HG (size_nonneg v Hv))
    as (r & Hr & Hd & Hz & Hk & HK & _).
  pose proof (rnd_exact mode (negative v) _ _ HG (size_nonneg v Hv)) as Hx. rewrite Hz in Hx.
  set (K := rnd _ _ _ _) in *. destruct (Z.eqb_spec r 0); [symmetry in Hx; apply Z.eqb_eq in Hx|]; nia.
Qed.

(** What the search finds for a value of the domain when rounding is allowed. *)
Lemma encode_loop_rounds v p sat :
  binary_typed v -> 0 < magnitude v -> in_domain v ->
  precision p <> Precision.exact_only -> mode_valid (rounding p) ->
  exists r w, encode_loop s v p (top (negative v)) m sat 0 (Z.to_nat (max_e + 1)) = Ok r /\
    saturated r = sat /\ u64 (ebits r) /\ decode_exact s (ebits r) = Ok w /\
    rounded r = negb (units w =? units v) /\
    rounds_to (rounding p) (representable s) (units v) (units w).
Proof.
  intros Hv Hpos Hdom Hp Hmode. pose proof max_e_nonneg. destruct Hdom as [Hsg Hle] eqn:Ed. clear Ed.
  pose proof (encode_loop_spec s v p sat 0 (Z.to_nat (max_e + 1))) as HL.
  destruct (encode_loop _ _ _ _ _ _ _ _) as [r|x|]; [| |done].
  - destruct HL as (e & He & Hr & Hg). pose proof (encode_at_spec s Hs Hval v p sat e Hv Hpos Hsg ltac:(lia)) as HE.
    rewrite Hr in HE. destruct HE as (HK & _ & Hsat & Hrd & Hw & w & Hd & Hu).
    exists r, w. split; [done|]. split; [done|]. split; [done|]. split; [done|].
    pose proof (grid_pos s Hs (Z.of_nat e) ltac:(lia)) as HG. pose proof (size_nonneg v Hv) as Hx.
    destruct (rnd_cases (rounding p) (negative v) _ _ HG Hx) as (r' & _ & _ & _ & Hk & HK' & _).
    assert (HKG : 0 <= rnd (rounding p) (negative v) (size v) (grid s (Z.of_nat e)) * grid s (Z.of_nat e)) by nia.
    rewrite <- Z.mul_assoc in Hu. split.
    + rewrite Hrd, Hu, (rnd_exact (rounding p) (negative v)) by done. unfold units. f_equal.
      unfold sgn. destruct (negative v); repeat bdestruct_step; done || lia.
    + assert (HRw : representable s (units w)) by (exists (ebits r), w; done).
      rewrite Hu in HRw |- *. apply better_rounds; [apply representable_zero|done|by apply size_pos|done|done|].
      apply found_best; [done|lia|done|]. intros g Hlt.
      pose proof (encode_at_spec s Hs Hval v p sat g Hv Hpos Hsg ltac:(lia)) as HE.
      rewrite Hg in HE by lia. destruct HE as [|[? _]]; done.
  - destruct HL as [_ HL]. pose proof (rnd_fits (rounding p) v Hv (conj Hsg Hle)).
    specialize (HL (Z.to_nat max_e) ltac:(lia)).
    pose proof (encode_at_spec s Hs Hval v p sat (Z.to_nat max_e) Hv Hpos Hsg ltac:(lia)) as HE.
    rewrite HL, Z2Nat.id in HE by lia. destruct HE as [|[? _]]; [lia|done].
Qed.

Lemma bound_representable neg : sign_ok s neg -> representable s (sgn neg * (top neg * grid s max_e)).
Proof.
  intros Hsg. apply (representable_iff s Hs Hval). exists (sgn neg * top neg), max_e. pose proof max_e_nonneg.
  split; [lia|]. split; [|lia]. destruct (magnitude_bounds s Hs true) as (? & _), (magnitude_bounds s Hs false) as (? & _).
  unfold sgn. destruct neg, Hsg as [Hsg|Hsg]; rewrite ?Hsg; try done; destruct (signed_kind _); lia.
Qed.

(** The domain is what lies between representable values. *)
Lemma domain_bounds v :
  binary_typed v -> 0 < magnitude v ->
  in_domain v <-> exists lo hi, representable s lo /\ representable s hi /\ lo <= units v <= hi.
Proof.
  intros Hv Hpos. pose proof (size_pos v Hv Hpos). split.
  - intros [Hsg Hle]. pose proof (bound_representable _ Hsg) as HR. unfold units.
    destruct (negative v) eqn:En; unfold sgn in *;
      [exists (-1 * (top true * grid s max_e)), 0|exists 0, (1 * (top false * grid s max_e))];
      pose proof representable_zero; split_and!; done || lia.
  - intros (lo & hi & Hlo & Hhi & Hr). unfold units, in_domain, sign_ok in *.
    apply (representable_iff s Hs Hval) in Hlo as (M & f & Hf & HM & ->), Hhi as (N & g & Hg & HN & ->).
    pose proof (grid_pos s Hs f Hf). pose proof (grid_pos s Hs g Hg).
    destruct (grid_mono f max_e) as [Hfm _]; [lia..|]. destruct (grid_mono g max_e) as [Hgm _]; [lia..|].
    destruct (magnitude_bounds s Hs true) as (Ht & _), (magnitude_bounds s Hs false) as (Hf0 & _).
    pose proof (Z.mul_le_mono_nonneg_l _ _ (top true) (proj1 Ht) Hfm).
    pose proof (Z.mul_le_mono_nonneg_l _ _ (top false) (proj1 Hf0) Hgm).
    destruct (negative v); unfold sgn in Hr.
    + destruct (signed_kind _); [|nia]. split; [by left|].
      assert (- M * grid s f <= top true * grid s f) by nia. lia.
    + split; [by right|]. assert (N * grid s g <= top false * grid s g) by nia. lia.
Qed.
End Theorems.

(** ** The theorems *)

Lemma rounds_self mode R x : mode_valid mode -> R x -> rounds_to mode R x x.
Proof.
  intros Hm Hx. split; [done|]. assert (mode = 0 \/ mode = 1 \/ mode = 2 \/ mode = 3) as [-> | [-> | [-> | ->]]]
    by (unfold mode_valid in Hm; lia); split_and?; try nia; intros; try done; try nia.
  split; [lia|]. intros ??. lia.
Qed.

(** The specification determines the rounded value, ties included. *)
Lemma rounds_unique mode R x y y' : rounds_to mode R x y -> rounds_to mode R x y' -> y = y'.
Proof.
  unfold rounds_to. intros [HR H] [HR' H']. destruct mode as [|[[]|[]|]|]; try done.
  - destruct (H y' HR') as [H1 H2], (H' y HR) as [H3 H4].
    destruct (decide (y = y')) as [|Hne]; [done|].
    destruct H2 as [k Hk]; [done|lia|]. destruct H4 as [k' Hk']; [done|lia|].
    assert ((1 + 2 * (k + k')) * (y' - y) = 0) as [|]%Z.mul_eq_0 by lia; lia.
  - destruct H as [H1 H2], H' as [H3 H4]. specialize (H2 y' HR' H3). specialize (H4 y HR H1). lia.
  - destruct H as [H1 H2], H' as [H3 H4]. specialize (H2 y' HR' H3). specialize (H4 y HR H1). lia.
  - destruct H as (H0 & H1 & H2), H' as (H0' & H3 & H4). specialize (H2 y' HR' H0' H3).
    specialize (H4 y HR H0 H1). assert (Z.abs y = Z.abs y') as E by lia.
    destruct (Z.abs_eq_or_opp y), (Z.abs_eq_or_opp y'); nia.
Qed.

Lemma rounds_exact mode R x y : mode_valid mode -> rounds_to mode R x y -> R x -> y = x.
Proof. intros Hm H Hx. by eapply rounds_unique, rounds_self. Qed.

Lemma policy_mode p : policy_valid p = true -> mode_valid (rounding p) /\
  (precision p = Precision.exact_only \/ precision p = Precision.allow_rounding) /\
  (noverflow p = NOverflow.error \/ noverflow p = NOverflow.saturate).
Proof.
  unfold policy_valid, mode_valid, Rounding.nearest_ties_even, Rounding.toward_positive.
  rewrite !andb_true_iff, !orb_true_iff, !Z.leb_le, !Z.eqb_eq. lia.
Qed.

Lemma magnitude_cases v : binary_typed v -> magnitude v = 0 \/ 0 < magnitude v.
Proof. intros [H _]. unfold_words. lia. Qed.

Lemma units_zero v : magnitude v = 0 -> units v = 0.
Proof. intros H. unfold units, size. rewrite H. lia. Qed.

Lemma encode_zero s v p :
  nvalidate s = Ok tt -> policy_valid p = true -> magnitude v = 0 ->
  encode_numeric s v p = Ok (mkEncoded 0 false false).
Proof. intros H Hp Hz. unfold encode_numeric. by rewrite H, Hp, Hz. Qed.

(** C12. Under a policy that allows rounding, a value between two representable ones is
    encoded, without clipping, as its correct rounding among all the values of the format,
    whatever the exponent they use: for [nearest_ties_even] the nearest value, and of two
    equally near ones the even one; for the directed modes the closest value on the side the
    mode asks for. The rounded flag says exactly whether the value changed. *)
Theorem encode_rounds_correctly s v p lo hi :
  spec_typed s -> nvalidate s = Ok tt -> binary_typed v -> policy_valid p = true ->
  precision p = Precision.allow_rounding ->
  representable s lo -> representable s hi -> lo <= units v <= hi ->
  exists r w, encode_numeric s v p = Ok r /\ saturated r = false /\
    decode_exact s (ebits r) = Ok w /\ rounded r = negb (units w =? units v) /\
    rounds_to (rounding p) (representable s) (units v) (units w).
Proof.
  intros Ht Hval Hv Hp Hprec Hlo Hhi Hb. pose proof (nvalidate_Ok s Ht Hval) as Hs.
  destruct (policy_mode p Hp) as (Hmode & _). destruct (magnitude_cases v Hv) as [Hz|Hpos].
  - destruct (decode_zero s Hs Hval) as (w & Hd & Hu). rewrite (units_zero v Hz), encode_zero by done.
    eexists _, w. split; [done|]. rewrite Hu. split_and!; try done.
    by apply rounds_self, representable_zero.
  - assert (Hdom : in_domain s v) by (apply domain_bounds; eauto).
    destruct (encode_unfold s Hs Hval v p Hp Hv Hpos) as (-> & _); [|done].
    destruct (encode_loop_rounds s Hs Hval v p false Hv Hpos Hdom) as (r & w & ? & ? & ? & ?);
      [rewrite Hprec; done|done|]. exists r, w. tauto.
Qed.

Lemma encode_exact_ok s v p :
  valid_spec s -> nvalidate s = Ok tt -> binary_typed v -> policy_valid p = true ->
  precision p = Precision.exact_only -> representable s (units v) ->
  exists r w, encode_numeric s v p = Ok r /\ rounded r = false /\ saturated r = false /\
    u64 (ebits r) /\ decode_exact s (ebits r) = Ok w /\ units w = units v.
Proof.
  intros Hs Hval Hv Hp Hprec HR. destruct (magnitude_cases v Hv) as [Hz|Hpos].
  { destruct (decode_zero s Hs Hval) as (w & Hd & Hu). rewrite (units_zero v Hz), encode_zero by done.
    eexists _, w. split; [done|]. rewrite Hu. split_and!; done. }
  assert (Hdom : in_domain s v) by (apply domain_bounds; eauto with lia).
  destruct (encode_unfold s Hs Hval v p Hp Hv Hpos) as (-> & _); [|done]. destruct Hdom as [Hsg _].
  pose proof (size_pos v Hv Hpos) as Hx.
  pose proof (encode_loop_spec s v p false 0 (Z.to_nat (maximum_exponent s + 1))) as HL.
  destruct (encode_loop _ _ _ _ _ _ _ _) as [r|x|]; [| |done].
  - destruct HL as (e & He & Hr & _).
    pose proof (encode_at_spec s Hs Hval v p false e Hv Hpos Hsg ltac:(lia)) as HE.
    rewrite Hr in HE. destruct HE as (_ & Hex & Hsat & Hrd & Hw & w & Hd & Hu). specialize (Hex Hprec).
    rewrite Hex in Hrd. exists r, w. split_and!; try done. rewrite Hu.
    rewrite (rnd_exact (rounding p) (negative v)), Z.eqb_eq in Hex
      by (apply (grid_pos s Hs) || apply size_nonneg; done || lia).
    by rewrite <- Z.mul_assoc, Hex.
  - destruct HL as [_ HL]. exfalso.
    destruct (representable_sign s Hs Hval (units v) (negative v) HR Hsg) as (j & f & Hf & Hj & E).
    { unfold units, sgn. destruct (negative v); lia. }
    assert (Hsz : size v = j * grid s f) by (rewrite <- E; unfold units, sgn; destruct (negative v); lia).
    pose proof (grid_pos s Hs f Hf).
    pose proof (encode_at_spec s Hs Hval v p false (Z.to_nat f) Hv Hpos Hsg ltac:(lia)) as HE.
    rewrite HL, Z2Nat.id in HE by lia. unfold rnd in HE.
    rewrite Hsz, Z.mod_mul, Z.div_mul in HE by lia. simpl in HE. destruct HE as [|[_ ?]]; [lia|done].
Qed.

Lemma encode_exact_only s v p r :
  valid_spec s -> nvalidate s = Ok tt -> binary_typed v -> policy_valid p = true ->
  precision p = Precision.exact_only -> encode_numeric s v p = Ok r -> representable s (units v).
Proof.
  intros Hs Hval Hv Hp Hprec Hr. destruct (magnitude_cases v Hv) as [Hz|Hpos].
  { rewrite units_zero by done. by apply representable_zero. }
  destruct (encode_unfold s Hs Hval v p Hp Hv Hpos) as (Hin & Hout & _).
  destruct (in_domain_cases s v) as [Hdom|Hdom]; [|rewrite Hout in Hr; auto; done].
  rewrite Hin in Hr by done. destruct Hdom as [Hsg _].
  pose proof (encode_loop_spec s v p false 0 (Z.to_nat (maximum_exponent s + 1))) as HL.
  rewrite Hr in HL. destruct HL as (e & He & Ha & _).
  pose proof (encode_at_spec s Hs Hval v p false e Hv Hpos Hsg ltac:(lia)) as HE.
  rewrite Ha in HE. destruct HE as (_ & Hex & _ & _ & Hw & w & Hd & Hu). specialize (Hex Hprec).
  rewrite (rnd_exact (rounding p) (negative v)), Z.eqb_eq in Hex
    by (apply (grid_pos s Hs) || apply size_nonneg; done || lia).
  exists (ebits r), w. split; [done|]. split; [done|]. by rewrite Hu, <- Z.mul_assoc, Hex.
Qed.

(** With rounding forbidden, encoding succeeds exactly for the values that some word of the
    format stands for, and returns a word for precisely that value. *)
Theorem encode_exact_complete s v p :
  spec_typed s -> nvalidate s = Ok tt -> binary_typed v -> policy_valid p = true ->
  precision p = Precision.exact_only ->
  (is_ok (encode_numeric s v p) = true <-> representable s (units v)) /\
  (forall r, encode_numeric s v p = Ok r -> rounded r = false /\ saturated r = false /\
    exists w, decode_exact s (ebits r) = Ok w /\ units w = units v).
Proof.
  intros Ht Hval Hv Hp Hprec. pose proof (nvalidate_Ok s Ht Hval) as Hs.
  assert (Hof : forall r, encode_numeric s v p = Ok r -> representable s (units v))
    by (intros; by eapply encode_exact_only).
  split; [split|].
  - destruct (encode_numeric s v p); [eauto|done..].
  - intros HR. destruct (encode_exact_ok s v p) as (r & w & -> & _); done.
  - intros r Hr. destruct (encode_exact_ok s v p) as (r' & w & Hr' & ? & ? & ? & ? & ?); eauto.
    rewrite Hr in Hr'. injection Hr' as <-. eauto.
Qed.

Lemma clip_closest s (Hs : valid_spec s) (Hval : nvalidate s = Ok tt) v z :
  sign_ok s (negative v) -> 0 < size v -> representable s z ->
  (if negative v then forall z, representable s z -> units v < z
   else forall z, representable s z -> z < units v) ->
  let b := sgn (negative v) * (maximum_magnitude s (negative v) * grid s (maximum_exponent s)) in
  Z.abs (b - units v) <= Z.abs (z - units v).
Proof.
  intros Hsg Hx Hz Hside b. pose proof (bound_representable s Hs Hval _ Hsg) as HB. fold b in HB.
  pose proof (max_e_nonneg s Hs). pose proof (grid_pos s Hs (maximum_exponent s) ltac:(lia)) as HG.
  destruct (magnitude_bounds s Hs (negative v)) as (Ht & _).
  assert (Hle : sgn (negative v) * z <= sgn (negative v) * b).
  { replace (sgn (negative v) * b) with (maximum_magnitude s (negative v) * grid s (maximum_exponent s))
      by (unfold b, sgn; destruct (negative v); lia).
    destruct (Z.leb_spec 0 (sgn (negative v) * z)) as [Hp|]; [|nia].
    destruct (representable_sign s Hs Hval z _ Hz Hsg Hp) as (j & f & Hf & Hj & ->).
    destruct (grid_mono s Hs f (maximum_exponent s)) as [Hm _]; [lia..|]. pose proof (grid_pos s Hs f Hf). nia. }
  unfold sgn in Hle. destruct (negative v); pose proof (Hside z Hz); pose proof (Hside b HB); lia.
Qed.

(** The value that clipping writes. *)
Lemma encode_bound s p neg :
  valid_spec s -> nvalidate s = Ok tt -> sign_ok s neg -> policy_valid p = true ->
  precision p <> Precision.exact_only ->
  exists r w, encode_loop s (mkBinary (maximum_magnitude s neg) (quantum s (maximum_exponent s)) neg) p
      (maximum_magnitude s neg) (mantissa_bits s) true 0 (Z.to_nat (maximum_exponent s + 1)) = Ok r /\
    saturated r = true /\ decode_exact s (ebits r) = Ok w /\
    units w = sgn neg * (maximum_magnitude s neg * grid s (maximum_exponent s)).
Proof.
  intros Hs Hval Hsg Hp Hx. destruct (magnitude_bounds s Hs neg) as (Hb & _).
  pose proof (max_e_nonneg s Hs). pose proof (vs_quantum s Hs (maximum_exponent s) ltac:(lia)).
  destruct (Z.eq_dec (maximum_magnitude s neg) 0) as [E|E].
  - rewrite E. replace (Z.to_nat (maximum_exponent s + 1)) with (S (Z.to_nat (maximum_exponent s))) by lia.
    destruct (decode_zero s Hs Hval) as (w & Hd & Hu). exists (mkEncoded 0 false true), w.
    split_and!; try done. rewrite Hu. lia.
  - set (b := mkBinary _ _ _). assert (Hb' : binary_typed b) by (split; simpl; unfold_words; unfold INT16_MAX; lia).
    destruct (encode_loop_rounds s Hs Hval b p true Hb') as (r & w & Hr & Hsat & _ & Hd & _ & Hrt);
      [simpl; lia|by split|done|by apply policy_mode|].
    exists r, w. split_and!; try done. apply (rounds_exact _ _ _ _ (proj1 (policy_mode p Hp)) Hrt).
    by apply bound_representable.
Qed.

(** C37. A value above or below everything the format holds is refused as an overflow, unless
    both rounding and saturation are allowed; then the closest value of the format is
    written and the result is marked as saturated. *)
Theorem encode_out_of_range s v p :
  spec_typed s -> nvalidate s = Ok tt -> binary_typed v -> policy_valid p = true ->
  (forall z, representable s z -> z < units v) \/ (forall z, representable s z -> units v < z) ->
  if (noverflow p =? NOverflow.error) || (precision p =? Precision.exact_only)
  then encode_numeric s v p = Err (error1 ErrorCode.overflow)
  else exists r w, encode_numeric s v p = Ok r /\ saturated r = true /\
    decode_exact s (ebits r) = Ok w /\
    forall z, representable s z -> Z.abs (units w - units v) <= Z.abs (z - units v).
Proof.
  intros Ht Hval Hv Hp Hside. pose proof (nvalidate_Ok s Ht Hval) as Hs.
  pose proof (representable_zero s Hs Hval) as H0.
  assert (Hpos : 0 < magnitude v).
  { destruct (magnitude_cases v Hv) as [Hz|]; [|done]. rewrite units_zero in Hside by done.
    destruct Hside as [H|H]; specialize (H 0 H0); lia. }
  assert (Hdom : ~ in_domain s v).
  { rewrite (domain_bounds s Hs Hval) by done. intros (lo & hi & Hlo & Hhi & Hr).
    destruct Hside as [H|H]; [specialize (H hi Hhi)|specialize (H lo Hlo)]; lia. }
  destruct (encode_unfold s Hs Hval v p Hp Hv Hpos) as (_ & Herr & Hsat).
  destruct (Z.eqb_spec (noverflow p) NOverflow.error); simpl; [auto|].
  destruct (Z.eqb_spec (precision p) Precision.exact_only); [auto|].
  rewrite Hsat by done. pose proof (size_pos v Hv Hpos) as Hx.
  assert (Hside0 : if negative v then forall z, representable s z -> units v < z
                   else forall z, representable s z -> z < units v).
  { unfold units, sgn in *. destruct (negative v), Hside as [H|H]; try done; specialize (H 0 H0); lia. }
  destruct (negb (signed_kind (nkind s)) && negative v) eqn:E.
  - apply andb_true_iff in E as [E1%negb_true_iff E2]. rewrite E2 in Hside0.
    destruct (decode_zero s Hs Hval) as (w & Hd & Hu). eexists _, w. split_and!; try done.
    intros z (M & f & Hf & HM & ->)%(representable_iff s Hs Hval). rewrite Hu, E1 in *.
    pose proof (grid_pos s Hs f Hf). specialize (Hside0 0 H0). nia.
  - assert (Hsg : sign_ok s (negative v)).
    { unfold sign_ok. destruct (signed_kind _), (negative v); auto; done. }
    destruct (encode_bound s p (negative v) Hs Hval Hsg Hp) as (r & w & -> & ? & ? & Hu); [done|].
    exists r, w. split_and!; try done. intros z Hz. rewrite Hu.
    pose proof (bound_representable s Hs Hval _ Hsg) as HB.
    apply (clip_closest s Hs Hval); done.
Qed.

Lemma odd_shift_unique a b x y :
  0 <= a <= b -> Z.odd x = true -> x * 2 ^ a = y * 2 ^ b -> a = b /\ x = y.
Proof.
  intros Hab Ho E. pose proof (pow2_pos a). rewrite (pow2_split a b) in E by lia.
  assert (x = y * 2 ^ (b - a)) as -> by nia. destruct (Z.eq_dec a b) as [->|Hne].
  - rewrite Z.sub_diag, Z.mul_1_r. auto.
  - exfalso. replace (b - a) with (b - a - 1 + 1) in Ho by lia.
    rewrite pow2_succ, Z.odd_mul, Z.odd_mul in Ho by lia. by rewrite andb_false_r in Ho.
Qed.

(** A number has one canonical form. *)
Lemma canonical_unique v w :
  binary_typed v -> binary_typed w -> canonical v -> canonical w -> units v = units w -> v = w.
Proof.
  intros Hv Hw Cv Cw E.
  assert (Hz : forall x y, binary_typed x -> binary_typed y -> units x = units y ->
    magnitude x = 0 -> 0 < magnitude y -> False).
  { intros x y Hx Hy Exy Zx Py. rewrite units_zero in Exy by done. pose proof (size_pos y Hy Py).
    unfold units, sgn in Exy. destruct (negative y); lia. }
  destruct (magnitude_cases v Hv) as [Zv|Pv], (magnitude_cases w Hw) as [Zw|Pw];
    [|by destruct (Hz v w)|by destruct (Hz w v)|].
  - destruct Cv as [(?&?&?)|Cv], Cw as [(?&?&?)|Cw]; rewrite ?Zv, ?Zw in *; try done.
    destruct v, w; simpl in *; congruence.
  - destruct Cv as [(?&_)|Cv]; [lia|]. destruct Cw as [(?&_)|Cw]; [lia|].
    pose proof (size_pos v Hv Pv). pose proof (size_pos w Hw Pw).
    assert (negative v = negative w /\ size v = size w) as [En Es].
    { unfold units, sgn in E. destruct (negative v), (negative w); split; lia. }
    unfold size, UNIT in Es. destruct Hv as [_ Ev], Hw as [_ Ew]. unfold INT16_MAX in *.
    assert (exponent v = exponent w /\ magnitude v = magnitude w) as [? ?].
    { destruct (Z.le_ge_cases (exponent v) (exponent w)).
      - apply odd_shift_unique in Es; [lia|lia|done].
      - symmetry in Es. apply odd_shift_unique in Es; [lia|lia|done]. }
    destruct v, w; simpl in *; congruence.
Qed.

Lemma decode_valid s w v : decode_exact s w = Ok v -> nvalidate s = Ok tt.
Proof. unfold decode_exact. destruct (nvalidate s) as [[]| |]; done. Qed.

(** Words of a format without exponents are told apart by their values. *)
Lemma decode_injective s (Hs : valid_spec s) (Hval : nvalidate s = Ok tt) w w' v v' :
  vrt (nkind s) = false -> u64 w -> u64 w' ->
  decode_exact s w = Ok v -> decode_exact s w' = Ok v' -> units v = units v' -> w = w'.
Proof.
  intros Hnv Hw Hw' Hd Hd' E.
  assert (Hx : expo s = 0) by (unfold expo; by rewrite Hnv).
  pose proof (decode_range s Hs Hval _ _ Hw Hd) as Hr. pose proof (decode_range s Hs Hval _ _ Hw' Hd') as Hr'.
  destruct (mantissa_split s Hs w Hr) as (HM & _), (mantissa_split s Hs w' Hr') as (HM' & _).
  destruct (decode_word s Hs Hval w Hr) as (u & Hu & _ & _ & Uu), (decode_word s Hs Hval w' Hr') as (u' & Hu' & _ & _ & Uu').
  rewrite Hd in Hu. rewrite Hd' in Hu'. injection Hu as <-. injection Hu' as <-.
  rewrite Uu, Uu', Hx, Z.pow_0_r, !Z.div_1_r, !Z.mod_1_r in E. rewrite Hx, Z.pow_0_r, Z.div_1_r in HM, HM'.
  pose proof (grid_pos s Hs 0 ltac:(pose proof (max_e_nonneg s Hs); lia)).
  apply Z.mul_cancel_r in E; [|lia]. pose proof (mantissa_range s Hs).
  pose proof (pow2_succ (mantissa_bits s - 1) ltac:(lia)) as Hp.
  replace (mantissa_bits s - 1 + 1) with (mantissa_bits s) in Hp by lia.
  unfold signed_value in E. destruct (signed_kind _); simpl in E; [|done].
  destruct (Z.leb_spec (2 ^ (mantissa_bits s - 1)) w), (Z.leb_spec (2 ^ (mantissa_bits s - 1)) w'); lia.
Qed.

(** Decoding a word and encoding the value again gives it back under every policy, exactly
    and without clipping; only a VRT word can come back as another word for that value. *)
Theorem numeric_roundtrip s w v p :
  spec_typed s -> u64 w -> policy_valid p = true -> decode_exact s w = Ok v ->
  exists r, encode_numeric s v p = Ok r /\ rounded r = false /\ saturated r = false /\
    decode_exact s (ebits r) = Ok v /\ (vrt (nkind s) = false -> ebits r = w).
Proof.
  intros Ht Hw Hp Hd. pose proof (decode_valid _ _ _ Hd) as Hval. pose proof (nvalidate_Ok s Ht Hval) as Hs.
  pose proof (decode_range s Hs Hval _ _ Hw Hd) as Hr.
  destruct (decode_word s Hs Hval w Hr) as (v' & Hd' & Hc & Hty & _). rewrite Hd in Hd'. injection Hd' as <-.
  assert (HR : representable s (units v)) by (exists w, v; done).
  assert (exists r u, encode_numeric s v p = Ok r /\ rounded r = false /\ saturated r = false /\
    u64 (ebits r) /\ decode_exact s (ebits r) = Ok u /\ units u = units v) as (r & u & Hr' & ? & ? & Hb & Hu & E).
  { destruct (policy_mode p Hp) as (Hmode & [Hx|Hx] & _); [by apply encode_exact_ok|].
    destruct (magnitude_cases v Hty) as [Hz|Hpos].
    - destruct (decode_zero s Hs Hval) as (u & Hu & Eu). rewrite encode_zero, (units_zero v) by done.
      exists (mkEncoded 0 false false), u. split_and!; done.
    - assert (Hdom : in_domain s v) by (apply domain_bounds; eauto with lia).
      destruct (encode_loop_rounds s Hs Hval v p false Hty Hpos Hdom) as (r & u & Hr' & ? & ? & ? & Hrd & Hrt);
        [rewrite Hx; done|done|].
      pose proof (rounds_exact _ _ _ _ Hmode Hrt HR) as E. rewrite E, Z.eqb_refl in Hrd.
      exists r, u. destruct (encode_unfold s Hs Hval v p Hp Hty Hpos) as (-> & _); [|done].
      split_and!; done. }
  exists r. split_and!; try done.
  - pose proof (decode_range s Hs Hval _ _ Hb Hu) as Hrr.
    destruct (decode_word s Hs Hval _ Hrr) as (u' & Hu' & Hcu & Htu & _). rewrite Hu in Hu'. injection Hu' as <-.
    rewrite Hu. f_equal. by apply canonical_unique.
  - intros Hnv. by eapply (decode_injective s Hs Hval).
Qed.

(** ** Witnesses: an 8-bit signed VRT format with a 3-bit exponent, and a 6-bit fixed-point one *)

Definition ex_vrt : NumericSpec := mkSpec Kind.signed_vrt 8 0 3.
Definition ex_fixed : NumericSpec := mkSpec Kind.signed_fixed 6 0 0.
Definition ex_nearest : ConversionPolicy :=
  mkPolicy Precision.allow_rounding Rounding.nearest_ties_even NOverflow.saturate 0.
Definition ex_exact : ConversionPolicy :=
  mkPolicy Precision.exact_only Rounding.toward_zero NOverflow.error 0.

Lemma ex_vrt_one_half : representable ex_vrt (units (mkBinary 1 (-1) false)).
Proof.
  exists 71, (mkBinary 1 (-1) false). split; [unfold_words; lia|]. split; [reflexivity|]. reflexivity.
Qed.

Lemma ex_vrt_zero : representable ex_vrt 0.
Proof. exists 0, (mkBinary 0 0 false). split; [unfold_words; lia|]. split; reflexivity. Qed.

Ltac concrete := vm_compute; repeat split; congruence.

(** The value lies half-way between nine and ten steps of 2^-7. *)
Lemma encode_rounds_correctly_witness :
  exists r w, encode_numeric ex_vrt (mkBinary 19 (-8) false) ex_nearest = Ok r /\ saturated r = false /\
    decode_exact ex_vrt (ebits r) = Ok w /\
    rounded r = negb (units w =? units (mkBinary 19 (-8) false)) /\
    rounds_to 0 (representable ex_vrt) (units (mkBinary 19 (-8) false)) (units w).
Proof.
  apply (encode_rounds_correctly ex_vrt (mkBinary 19 (-8) false) ex_nearest 0
           (units (mkBinary 1 (-1) false)));
    [concrete|reflexivity|concrete|reflexivity|reflexivity|apply ex_vrt_zero|apply ex_vrt_one_half|].
  vm_compute. split; congruence.
Defined.

Lemma encode_exact_complete_witness :
  (is_ok (encode_numeric ex_vrt (mkBinary 37 (-9) false) ex_exact) = true <->
   representable ex_vrt (units (mkBinary 37 (-9) false))) /\
  encode_numeric ex_vrt (mkBinary 37 (-9) false) ex_exact = Err (error1 ErrorCode.invalid_argument).
Proof.
  split; [|reflexivity].
  apply (encode_exact_complete ex_vrt (mkBinary 37 (-9) false) ex_exact);
    [concrete|reflexivity|concrete|reflexivity|reflexivity].
Defined.

Lemma ex_fixed_bound z : representable ex_fixed z -> z < units (mkBinary 1 0 false).
Proof.
  assert (Ht : spec_typed ex_fixed) by concrete.
  intros (M & e & He & HM & ->)%(representable_iff ex_fixed (nvalidate_Ok ex_fixed Ht eq_refl) eq_refl).
  change (maximum_exponent ex_fixed) with 0 in He. change (maximum_magnitude ex_fixed false) with 31 in HM.
  assert (e = 0) as -> by lia.
  assert (E : units (mkBinary 1 0 false) = 32 * grid ex_fixed 0).
  { unfold units, size, grid. cbn [sgn negative magnitude exponent].
    replace (0 + UNIT) with (5 + (quantum ex_fixed 0 + UNIT)) by reflexivity.
    rewrite Z.pow_add_r by (vm_compute; congruence).
    generalize (2 ^ (quantum ex_fixed 0 + UNIT)). intros g. change (2 ^ 5) with 32. lia. }
  pose proof (grid_pos ex_fixed (nvalidate_Ok ex_fixed Ht eq_refl) 0) as HP.
  change (maximum_exponent ex_fixed) with 0 in HP.
  rewrite E. revert HP. generalize (grid ex_fixed 0). intros g HP. nia.
Qed.

Lemma encode_out_of_range_witness :
  exists r w, encode_numeric ex_fixed (mkBinary 1 0 false) ex_nearest = Ok r /\ saturated r = true /\
    decode_exact ex_fixed (ebits r) = Ok w /\
    forall z, representable ex_fixed z ->
      Z.abs (units w - units (mkBinary 1 0 false)) <= Z.abs (z - units (mkBinary 1 0 false)).
Proof.
  apply (encode_out_of_range ex_fixed (mkBinary 1 0 false) ex_nearest);
    [concrete|reflexivity|concrete|reflexivity|left; apply ex_fixed_bound].
Defined.

Lemma numeric_roundtrip_witness :
  exists r, encode_numeric ex_fixed (mkBinary 3 (-5) true) ex_nearest = Ok r /\ rounded r = false /\
    saturated r = false /\ decode_exact ex_fixed (ebits r) = Ok (mkBinary 3 (-5) true) /\
    (vrt (nkind ex_fixed) = false -> ebits r = 61).
Proof.
  apply (numeric_roundtrip ex_fixed 61 (mkBinary 3 (-5) true) ex_nearest);
    [concrete|concrete|reflexivity|reflexivity].
Defined.
