(* ===== verification/PackedSamples.v ===== *)
(** * Packed sample items: [include/vita/codec/general_samples.hpp]

    Items of any width with channel and event tags, packed into 32-bit words in the
    link-efficient or the processing-efficient arrangement; the order of the items of a
    sample vector by time, channel and component. *)

From S2P Require Import Prelude.

Module PackingMode.
Definition link : Z := 0.
Definition processing : Z := 1.
End PackingMode.
Module SampleKind.
Definition real : Z := 0.
Definition cartesian : Z := 1.
Definition polar : Z := 2.
End SampleKind.
Module RepeatMode.
Definition none : Z := 0.
Definition component : Z := 1.
Definition channel : Z := 2.
End RepeatMode.

Record PackingSpec := mkPacking {
  item_bits : Z; packing_bits : Z; channel_tag_bits : Z; event_tag_bits : Z;
  packing : Z; skind : Z; repeating : Z;
  vector_size : Z; repeat_count : Z
}.
#[global] Instance PackingSpec_eq_dec : EqDecision PackingSpec.
Proof. solve_decision. Defined.

Record Limits := mkLimits { max_items : Z; max_bytes : Z }.
Definition default_limits : Limits := mkLimits 4096 (65535 * 4).

Record Shape := mkShape { structures : Z; items_per_structure : Z; items : Z; sbytes : Z }.
#[global] Instance Shape_eq_dec : EqDecision Shape.
Proof. solve_decision. Defined.

Record Item := mkItem { data_bits : Z; channel_tag : Z; event_tag : Z }.
#[global] Instance Item_eq_dec : EqDecision Item.
Proof. solve_decision. Defined.

Record Coordinates := mkCoordinates { structure : Z; time : Z; channel : Z; component : Z }.
#[global] Instance Coordinates_eq_dec : EqDecision Coordinates.
Proof. solve_decision. Defined.

Definition components (k : Z) : Z := if k =? SampleKind.real then 1 else 2.

Definition multiply (a b : Z) : Result Z :=
  fail_if nonzero a && (SIZE_MAX / a <? b) with error1 ErrorCode.overflow ;;
  Ok (wrap64 (a * b)).

Definition fits (v n : Z) : bool := (n =? 64) || (Z.shiftr v n =? 0).

Definition pvalidate (s : PackingSpec) : Result unit :=
  fail_if negb (packing s =? PackingMode.link) && negb (packing s =? PackingMode.processing)
    with error1 ErrorCode.invalid_argument ;;
  fail_if negb (skind s =? SampleKind.real) && negb (skind s =? SampleKind.cartesian)
          && negb (skind s =? SampleKind.polar)
    with error1 ErrorCode.invalid_argument ;;
  fail_if negb (repeating s =? RepeatMode.none) && negb (repeating s =? RepeatMode.component)
          && negb (repeating s =? RepeatMode.channel)
    with error1 ErrorCode.invalid_argument ;;
  fail_if negb (nonzero (item_bits s)) || (64 <? item_bits s) || negb (nonzero (packing_bits s))
          || (64 <? packing_bits s) || (15 <? channel_tag_bits s) || (7 <? event_tag_bits s)
          || (packing_bits s <? wrap32 (wrap32 (item_bits s + channel_tag_bits s) + event_tag_bits s))
          || negb (nonzero (vector_size s)) || (65535 <? vector_size s)
          || negb (nonzero (repeat_count s)) || (65536 <? repeat_count s)
    with error1 ErrorCode.invalid_argument ;;
  fail_if ((repeating s =? RepeatMode.none) && negb (repeat_count s =? 1))
          || ((repeating s =? RepeatMode.component) && (skind s =? SampleKind.real))
    with error1 ErrorCode.invalid_argument ;;
  fail_if (packing s =? PackingMode.processing) && (32 <? packing_bits s)
    with error1 ErrorCode.unsupported_layout ;;
  Ok tt.

Definition bit_offset (s : PackingSpec) (index : Z) : Z :=
  if packing s =? PackingMode.link then wrap64 (index * packing_bits s) else
  let per := 32 / packing_bits s in
  wrap64 ((index / per) * 32 + (index mod per) * packing_bits s).

(** One bit of a byte string, the first bit being the most significant of the first byte;
    reading outside the span is undefined. *)
Definition read_bit (data : list byte) (bit : Z) : Result Z :=
  let? b := deref (data !! Z.to_nat (bit / 8)) in
  Ok (Z.land (Z.shiftr (Z_of_byte b) (7 - bit mod 8)) 1).

(** [for (unsigned b=0; b<width; ++b)], [n] iterations left. *)
Fixpoint read_loop (data : list byte) (offset b value : Z) (n : nat) : Result Z :=
  match n with
  | O => Ok value
  | S n =>
      let bit := wrap64 (offset + b) in
      let? x := read_bit data bit in
      read_loop data offset (b + 1) (Z.lor (wrap64 (Z.shiftl value 1)) x) n
  end.
Definition read_bits (data : list byte) (offset width : Z) : Result Z :=
  read_loop data offset 0 0 (Z.to_nat width).

Definition set_bit (data : list byte) (bit : Z) : Result (list byte) :=
  let? b := deref (data !! Z.to_nat (bit / 8)) in
  Ok (<[Z.to_nat (bit / 8) := byte_of_Z (Z.lor (Z_of_byte b) (Z.shiftl 1 (7 - bit mod 8)))]> data).

Fixpoint write_loop (data : list byte) (offset width value b : Z) (n : nat) : Result (list byte) :=
  match n with
  | O => Ok data
  | S n =>
      let bit := wrap64 (offset + b) in
      let? data := (if nonzero (Z.land (Z.shiftr value (width - 1 - b)) 1) then set_bit data bit else Ok data) in
      write_loop data offset width value (b + 1) n
  end.
Definition write_bits (data : list byte) (offset width value : Z) : Result (list byte) :=
  write_loop data offset width value 0 (Z.to_nat width).

(** Two memory ranges, by address and length. *)
Definition overlap (x an y bn : Z) : bool :=
  if negb (nonzero an) || negb (nonzero bn) then false
  else if x <=? y then y - x <? an else x - y <? bn.

Definition measure (s : PackingSpec) (n : Z) (limits : Limits) : Result Shape :=
  let? _ := pvalidate s in
  let? samples := multiply (vector_size s) (repeat_count s) in
  let? group := multiply samples (components (skind s)) in
  let? count := multiply n group in
  fail_if max_items limits <? count with error3 ErrorCode.resource_limit 0 count ;;
  let? words :=
    (if packing s =? PackingMode.link then
       let? bits := multiply count (packing_bits s) in
       Ok (bits / 32 + b2z (negb (bits mod 32 =? 0)))
     else
       let per := 32 / packing_bits s in
       Ok (count / per + b2z (negb (count mod per =? 0)))) in
  let? bytes := multiply words 4 in
  let? _ := multiply bytes 8 in
  fail_if max_bytes limits <? bytes with error3 ErrorCode.resource_limit 0 bytes ;;
  Ok (mkShape n group count bytes).

Record PackedSamples := mkPacked { ps_bytes : list byte; ps_spec : PackingSpec; ps_shape : Shape }.

Definition create (bytes : list byte) (spec : PackingSpec) (n : Z) (limits : Limits) : Result PackedSamples :=
  let? shape := measure spec n limits in
  fail_if zlen bytes <? sbytes shape with error3 ErrorCode.short_input 0 (sbytes shape) ;;
  fail_if negb (zlen bytes =? sbytes shape) with error1 ErrorCode.invalid_argument ;;
  Ok (mkPacked bytes spec shape).

(** The three fields of the item at a bit offset. *)
Definition read_item (data : list byte) (spec : PackingSpec) (bit : Z) : Result Item :=
  let? d := read_bits data bit (item_bits spec) in
  let? c := read_bits data (wrap64 (bit + packing_bits spec - channel_tag_bits spec)) (channel_tag_bits spec) in
  let? e := read_bits data (wrap64 (bit + packing_bits spec - channel_tag_bits spec - event_tag_bits spec))
              (event_tag_bits spec) in
  Ok (mkItem d c e).

Definition at_ (p : PackedSamples) (index : Z) : Result Item :=
  fail_if items (ps_shape p) <=? index with error2 ErrorCode.invalid_argument index ;;
  let bit := bit_offset (ps_spec p) index in
  read_item (ps_bytes p) (ps_spec p) bit.

Definition coordinates (p : PackedSamples) (index : Z) : Result Coordinates :=
  fail_if items (ps_shape p) <=? index with error2 ErrorCode.invalid_argument index ;;
  let st := index / items_per_structure (ps_shape p) in
  let local := index mod items_per_structure (ps_shape p) in
  let c := components (skind (ps_spec p)) in
  let r := repeat_count (ps_spec p) in
  let v := vector_size (ps_spec p) in
  let '(t, ch, co) :=
    (if repeating (ps_spec p) =? RepeatMode.component then
       let linear := wrap64 ((local / wrap32 (c * r)) * r + local mod r) in
       (linear / v, linear mod v, (local / r) mod c)
     else if repeating (ps_spec p) =? RepeatMode.channel then
       ((local / c) mod r, local / wrap32 (c * r), local mod c)
     else (0, local / c, local mod c)) in
  Ok (mkCoordinates st (wrap32 t) (wrap32 ch) (wrap32 co)).

Definition index_of (p : PackedSamples) (x : Coordinates) : Result Z :=
  fail_if (structures (ps_shape p) <=? structure x) || (repeat_count (ps_spec p) <=? time x)
          || (vector_size (ps_spec p) <=? channel x) || (components (skind (ps_spec p)) <=? component x)
    with error1 ErrorCode.invalid_argument ;;
  let c := components (skind (ps_spec p)) in
  let r := repeat_count (ps_spec p) in
  let local :=
    if repeating (ps_spec p) =? RepeatMode.component then
      let linear := wrap64 (time x * vector_size (ps_spec p) + channel x) in
      wrap64 (((linear / r) * c + component x) * r + linear mod r)
    else if repeating (ps_spec p) =? RepeatMode.channel then
      wrap64 ((channel x * r + time x) * c + component x)
    else wrap64 (channel x * c + component x) in
  Ok (wrap64 (structure x * items_per_structure (ps_shape p) + local)).

Definition write_item (data : list byte) (spec : PackingSpec) (bit : Z) (item : Item) : Result (list byte) :=
  let? data := write_bits data bit (item_bits spec) (data_bits item) in
  let? data := write_bits data (wrap64 (bit + packing_bits spec - channel_tag_bits spec))
                 (channel_tag_bits spec) (channel_tag item) in
  write_bits data (wrap64 (bit + packing_bits spec - channel_tag_bits spec - event_tag_bits spec))
    (event_tag_bits spec) (event_tag item).

Fixpoint pack_loop (wire : list byte) (spec : PackingSpec) (i : Z) (l : list Item) : Result (list byte) :=
  match l with
  | [] => Ok wire
  | item :: l =>
      let? wire := write_item wire spec (bit_offset spec i) item in
      pack_loop wire spec (i + 1) l
  end.

Definition item_fits (spec : PackingSpec) (item : Item) : bool :=
  fits (data_bits item) (item_bits spec) && fits (channel_tag item) (channel_tag_bits spec)
  && fits (event_tag item) (event_tag_bits spec).

(** [sizeof(Item)] *)
Definition sizeof_Item : Z := 24.

(** [items_at] and [output_at] are the addresses of the two spans.  The result is the number
    of bytes written and the output buffer. *)
Definition pack (spec : PackingSpec) (n : Z) (items_at : Z) (l : list Item) (output_at : Z)
    (output : list byte) (limits : Limits) : Result (Z * list byte) :=
  let? shape := measure spec n limits in
  fail_if negb (zlen l =? items shape) with error1 ErrorCode.invalid_argument ;;
  fail_if zlen output <? sbytes shape with error3 ErrorCode.short_output 0 (sbytes shape) ;;
  let? input_bytes := multiply (zlen l) sizeof_Item in
  fail_if overlap items_at input_bytes output_at (sbytes shape) with error1 ErrorCode.invalid_argument ;;
  fail_if negb (forallb (item_fits spec) l) with error1 ErrorCode.invalid_argument ;;
  let n := Z.to_nat (sbytes shape) in
  let? wire := pack_loop (replicate n x00) spec 0 l in
  Ok (sbytes shape, wire ++ drop n output).
