(* ===== verification/PackedProofs.v ===== *)
(** * Packed sample items: packing is lossless

    A byte string is viewed as a sequence of bits ([bitv]); reading and writing bit fields
    are characterised on that view, and every item has a region of bits of its own. *)

From S2P Require Import Prelude PackedSamples.

(** ** Bits of a byte string *)

Definition bitv (data : list byte) (p : Z) : bool :=
  match data !! Z.to_nat (p / 8) with
  | Some b => Z.testbit (Z_of_byte b) (7 - p mod 8)
  | None => false
  end.

(** The number that [n] bits from [off] make, most significant first. *)
Fixpoint bval (data : list byte) (off : Z) (n : nat) : Z :=
  match n with
  | O => 0
  | S n => 2 * bval data off n + b2z (bitv data (off + Z.of_nat n))
  end.

Lemma bval_range data off n : 0 <= bval data off n < 2 ^ Z.of_nat n.
Proof.
  induction n as [|n IH]; cbn [bval]; [change (2 ^ Z.of_nat 0) with 1; lia|].
  replace (Z.of_nat (S n)) with (Z.succ (Z.of_nat n)) by lia. rewrite Z.pow_succ_r by lia.
  pose proof (b2z_range (bitv data (off + Z.of_nat n))). lia.
Qed.

Lemma bval_unique data off n v :
  0 <= v < 2 ^ Z.of_nat n ->
  (forall j, 0 <= j < Z.of_nat n -> bitv data (off + j) = Z.testbit v (Z.of_nat n - 1 - j)) ->
  bval data off n = v.
Proof.
  revert v. induction n as [|n IH]; intros v Hv Hb; cbn [bval]; [change (2 ^ Z.of_nat 0) with 1 in Hv; lia|].
  replace (Z.of_nat (S n)) with (Z.succ (Z.of_nat n)) in * by lia. rewrite Z.pow_succ_r in Hv by lia.
  rewrite (IH (v / 2)).
  - rewrite Hb by lia. replace (Z.succ (Z.of_nat n) - 1 - Z.of_nat n) with 0 by lia.
    rewrite Z.bit0_odd. pose proof (Z.div_mod v 2). rewrite Zmod_odd in *. destruct (Z.odd v); simpl; lia.
  - zlia.
  - intros j Hj. rewrite Hb, <- Z.div2_div, Z.div2_spec, Z.shiftr_spec by lia. f_equal. lia.
Qed.

Lemma byte_lookup (data : list byte) p :
  0 <= p < 8 * zlen data -> exists b, data !! Z.to_nat (p / 8) = Some b.
Proof. intros Hp. apply lookup_lt_is_Some. unfold zlen in *. zlia. Qed.

Lemma read_bit_spec data p : 0 <= p < 8 * zlen data -> read_bit data p = Ok (b2z (bitv data p)).
Proof.
  intros Hp. unfold read_bit, bitv. destruct (byte_lookup data p Hp) as (b & ->). simpl. f_equal.
  by rewrite land1, <- Z.testbit_odd.
Qed.

Lemma testbit_or_pow x k j : 0 <= k -> 0 <= j -> Z.testbit (Z.lor x (Z.shiftl 1 k)) j = Z.testbit x j || (j =? k).
Proof.
  intros. rewrite Z.lor_spec, Z.shiftl_1_l, Z.pow2_bits_eqb by lia. by rewrite (Z.eqb_sym k j).
Qed.

Lemma set_bit_spec data p :
  0 <= p < 8 * zlen data ->
  exists d, set_bit data p = Ok d /\ length d = length data /\
    forall q, 0 <= q -> bitv d q = bitv data q || (q =? p).
Proof.
  intros Hp. unfold set_bit. destruct (byte_lookup data p Hp) as (b & Hb). rewrite Hb. simpl.
  eexists. split; [done|]. split; [apply length_insert|]. intros q Hq. unfold bitv.
  assert (Z.to_nat (p / 8) < length data)%nat by (by eapply lookup_lt_Some).
  destruct (Z.eq_dec (p / 8) (q / 8)) as [E|E].
  - rewrite <- E, list_lookup_insert_eq, Hb by done. rewrite Z_of_byte_of_Z, Z.mod_small.
    + rewrite testbit_or_pow by zlia. f_equal.
      destruct (Z.eqb_spec (7 - q mod 8) (7 - p mod 8)), (Z.eqb_spec q p); try done; zlia.
    + pose proof (Z_of_byte_range b). split; [apply Z.lor_nonneg; split; [lia|apply Z.shiftl_nonneg; lia]|].
      apply (Z.lt_le_trans _ (2 ^ 8)); [|done]. apply Z.log2_lt_cancel. rewrite Z.log2_pow2 by lia.
      rewrite Z.log2_lor by (try apply Z.shiftl_nonneg; lia). rewrite Z.shiftl_1_l, Z.log2_pow2 by zlia.
      assert (Z.log2 (Z_of_byte b) < 8); [|zlia].
      destruct (Z.eq_dec (Z_of_byte b) 0) as [->|]; [done|]. apply Z.log2_lt_pow2; [lia|]. change (2^8) with 256. lia.
  - rewrite list_lookup_insert_ne by zlia.
    destruct (Z.eqb_spec q p) as [->|]; [done|]. by rewrite orb_false_r.
Qed.

(** ** Bit fields *)

Lemma read_loop_spec data off (b : nat) (n : nat) :
  0 <= off -> off + Z.of_nat b + Z.of_nat n <= 8 * zlen data -> 8 * zlen data <= SIZE_MAX ->
  (b + n <= 64)%nat ->
  read_loop data off (Z.of_nat b) (bval data off b) n = Ok (bval data off (b + n)).
Proof.
  revert b. induction n as [|n IH]; intros b Hoff Hlen Hmax Hw; simpl; [by rewrite Nat.add_0_r|].
  unfold wrap64.
  rewrite (Z.mod_small (off + Z.of_nat b)) by (unfold_words; lia).
  rewrite read_bit_spec by lia. simpl. pose proof (bval_range data off b) as Hr.
  assert (Hp : 2 ^ Z.of_nat b <= 2 ^ 63) by (apply Z.pow_le_mono_r; lia).
  rewrite Z.shiftl_mul_pow2, Z.mod_small by lia. rewrite lor_low by (pose proof (b2z_range (bitv data (off + Z.of_nat b))); lia).
  replace (bval data off b * 2 ^ 1 + b2z (bitv data (off + Z.of_nat b))) with (bval data off (S b)) by (cbn [bval]; lia).
  replace (Z.of_nat b + 1) with (Z.of_nat (S b)) by lia. rewrite IH by lia. do 2 f_equal. lia.
Qed.

Lemma read_bits_spec data off w :
  0 <= off -> 0 <= w <= 64 -> off + w <= 8 * zlen data -> 8 * zlen data <= SIZE_MAX ->
  read_bits data off w = Ok (bval data off (Z.to_nat w)).
Proof. intros. unfold read_bits. apply (read_loop_spec data off 0 (Z.to_nat w)); lia. Qed.

(** The bits that a field of [w] bits at [off] sets. *)
Definition field_bit (off w v q : Z) : bool :=
  (off <=? q) && (q <? off + w) && Z.testbit v (w - 1 - (q - off)).

Lemma write_loop_spec off w v n b data :
  0 <= off -> 0 <= b -> b + Z.of_nat n = w -> off + w <= 8 * zlen data -> 8 * zlen data <= SIZE_MAX ->
  exists d, write_loop data off w v b n = Ok d /\ length d = length data /\
    forall q, 0 <= q -> bitv d q = bitv data q || ((off + b <=? q) && field_bit off w v q).
Proof.
  revert b data. induction n as [|n IH]; intros b data Hoff Hb Hw Hlen Hmax; simpl.
  - exists data. split; [done|]. split; [done|]. intros q Hq. unfold field_bit.
    destruct (Z.leb_spec (off + b) q), (Z.ltb_spec q (off + w)); simpl; rewrite ?andb_false_r, ?orb_false_r; try done; lia.
  - unfold wrap64. rewrite Z.mod_small by (unfold_words; lia).
    rewrite odd_land1, <- Z.testbit_odd.
    assert (exists d0, (if Z.testbit v (w - 1 - b) then set_bit data (off + b) else Ok data) = Ok d0 /\
      length d0 = length data /\
      forall q, 0 <= q -> bitv d0 q = bitv data q || ((q =? off + b) && Z.testbit v (w - 1 - b)))
      as (d0 & -> & Hl0 & Hb0).
    { destruct (Z.testbit v (w - 1 - b)).
      - destruct (set_bit_spec data (off + b)) as (d & ? & ? & Hd); [lia|]. exists d. split_and!; try done.
        intros q Hq. by rewrite Hd, andb_true_r.
      - exists data. split_and!; try done. intros. by rewrite andb_false_r, orb_false_r. }
    simpl. destruct (IH (b + 1) d0) as (d & Hd & Hl & Hq); [lia|lia|lia|unfold zlen in *; lia|unfold zlen in *; lia|].
    exists d. split; [done|]. split; [congruence|]. intros q Hq0. rewrite Hq, Hb0, <- orb_assoc by done. f_equal.
    unfold field_bit. destruct (Z.eqb_spec q (off + b)) as [->|Hne].
    + rewrite (proj2 (Z.leb_gt (off + (b + 1)) _)), (proj2 (Z.leb_le (off + b) (off + b))), (proj2 (Z.leb_le off _)),
        (proj2 (Z.ltb_lt _ _)) by lia. simpl. rewrite orb_false_r. f_equal. lia.
    + simpl. destruct (Z.leb_spec (off + (b + 1)) q), (Z.leb_spec (off + b) q); simpl; try done; lia.
Qed.

Lemma write_bits_spec data off w v :
  0 <= off -> 0 <= w -> off + w <= 8 * zlen data -> 8 * zlen data <= SIZE_MAX ->
  exists d, write_bits data off w v = Ok d /\ length d = length data /\
    forall q, 0 <= q -> bitv d q = bitv data q || field_bit off w v q.
Proof.
  intros. unfold write_bits. destruct (write_loop_spec off w v (Z.to_nat w) 0 data) as (d & ? & ? & Hd); try lia.
  exists d. split_and!; try done. intros q Hq. rewrite Hd by done. f_equal. unfold field_bit.
  rewrite Z.add_0_r. by destruct (off <=? q).
Qed.

(** ** Layout *)

Record packing_valid (s : PackingSpec) : Prop := {
  pv_mode : packing s = PackingMode.link \/ packing s = PackingMode.processing /\ packing_bits s <= 32;
  pv_item : 1 <= item_bits s <= 64;
  pv_bits : 1 <= packing_bits s <= 64;
  pv_tags : 0 <= channel_tag_bits s <= 15 /\ 0 <= event_tag_bits s <= 7;
  pv_sum : item_bits s + channel_tag_bits s + event_tag_bits s <= packing_bits s;
  pv_vector : 1 <= vector_size s <= 65535;
  pv_repeat : 1 <= repeat_count s <= 65536;
  pv_repeating : repeating s = RepeatMode.none /\ repeat_count s = 1 \/
    repeating s = RepeatMode.component /\ skind s <> SampleKind.real \/ repeating s = RepeatMode.channel
}.

(** The members of the struct are unsigned. *)
Definition packing_typed (s : PackingSpec) : Prop :=
  u32 (item_bits s) /\ u32 (packing_bits s) /\ u32 (channel_tag_bits s) /\ u32 (event_tag_bits s) /\
  u32 (vector_size s) /\ u32 (repeat_count s).

Lemma nonzero_neq x : negb (nonzero x) = false <-> x <> 0.
Proof. unfold nonzero. rewrite negb_involutive, Z.eqb_neq. done. Qed.

Lemma pvalidate_Ok s : packing_typed s -> pvalidate s = Ok tt -> packing_valid s.
Proof.
  intros (T1 & T2 & T3 & T4 & T5 & T6) H. unfold pvalidate in H. inv_ok.
  rewrite !orb_false_iff, !nonzero_neq, !Z.ltb_ge in E2.
  assert (Hsum : wrap32 (wrap32 (item_bits s + channel_tag_bits s) + event_tag_bits s)
    = item_bits s + channel_tag_bits s + event_tag_bits s) by zlia.
  rewrite Hsum in E2. unfold PackingMode.link, PackingMode.processing, RepeatMode.none, RepeatMode.component,
    RepeatMode.channel, SampleKind.real in *.
  split; unfold PackingMode.link, PackingMode.processing, RepeatMode.none, RepeatMode.component,
    RepeatMode.channel, SampleKind.real; unfold_words; lia.
Qed.

Lemma multiply_Ok a b c : 0 <= a -> 0 <= b -> multiply a b = Ok c -> c = a * b /\ 0 <= c <= SIZE_MAX.
Proof.
  intros Ha Hb H. unfold multiply, nonzero in H. inv_ok.
  assert (a * b <= SIZE_MAX).
  { destruct (Z.eqb_spec a 0) as [->|]; [unfold_words; lia|]. simpl in E. apply Z.ltb_ge in E.
    pose proof (Z.mul_div_le SIZE_MAX a). nia. }
  assert (0 <= a * b) by nia. unfold_words. rewrite Z.mod_small by lia. lia.
Qed.

(** The position of an item, before reduction to a machine word. *)
Definition position (s : PackingSpec) (i : Z) : Z :=
  if packing s =? PackingMode.link then i * packing_bits s
  else i / (32 / packing_bits s) * 32 + i mod (32 / packing_bits s) * packing_bits s.

Lemma per_word s : packing_valid s -> packing_bits s <= 32 ->
  1 <= 32 / packing_bits s /\ 32 / packing_bits s * packing_bits s <= 32.
Proof.
  intros Hs Hle. pose proof (pv_bits s Hs). split; [apply Z.div_le_lower_bound; lia|].
  rewrite Z.mul_comm. apply Z.mul_div_le. lia.
Qed.

(** Items occupy disjoint regions, in order. *)
Lemma position_order s i j :
  packing_valid s -> 0 <= i < j -> 0 <= position s i /\ position s i + packing_bits s <= position s j.
Proof.
  intros Hs Hij. pose proof (pv_bits s Hs). unfold position.
  destruct (pv_mode s Hs) as [-> | [-> Hle]]; simpl; [nia|].
  destruct (per_word s Hs Hle) as [Hp Hq]. set (per := 32 / packing_bits s) in *.
  pose proof (Z.mod_pos_bound i per ltac:(lia)). pose proof (Z.mod_pos_bound j per ltac:(lia)).
  pose proof (Z.div_mod i per ltac:(lia)) as Hi. pose proof (Z.div_mod j per ltac:(lia)) as Hj.
  pose proof (Z.div_pos i per ltac:(lia) ltac:(lia)). split; [nia|].
  assert (i / per <= j / per) by (apply Z.div_le_mono; lia).
  destruct (Z.eq_dec (i / per) (j / per)) as [E|E].
  - rewrite E in *. assert (i mod per + 1 <= j mod per) by lia. nia.
  - assert ((i mod per + 1) * packing_bits s <= per * packing_bits s) by nia.
    assert (0 <= j mod per * packing_bits s) by nia. lia.
Qed.

Lemma components_pos k : 1 <= components k <= 2.
Proof. unfold components. destruct (_ =? _); lia. Qed.

(** What [measure] promises about the items and the bytes of a payload. *)
Lemma measure_Ok s n lim sh :
  packing_typed s -> 0 <= n -> measure s n lim = Ok sh ->
  packing_valid s /\ structures sh = n /\
  items_per_structure sh = vector_size s * repeat_count s * components (skind s) /\
  items sh = n * items_per_structure sh /\ 0 <= items sh /\ items sh <= max_items lim /\
  0 <= sbytes sh /\ sbytes sh * 8 <= SIZE_MAX /\ sbytes sh <= max_bytes lim /\
  forall i, 0 <= i < items sh ->
    bit_offset s i = position s i /\ 0 <= position s i /\ position s i + packing_bits s <= sbytes sh * 8.
Proof.
  intros Ht Hn H. unfold measure in H. inv_ok. destruct x. rename H0 into Hval.
  pose proof (pvalidate_Ok s Ht Hval) as Hs. pose proof (pv_vector s Hs). pose proof (pv_repeat s Hs).
  pose proof (pv_bits s Hs). pose proof (components_pos (skind s)).
  apply multiply_Ok in H1 as [-> ?]; [|lia..]. apply multiply_Ok in H2 as [-> ?]; [|lia..].
  apply multiply_Ok in H3 as [-> ?]; [|lia..]. apply Z.ltb_ge in E. set (count := n * _) in *.
  assert (Hw : 0 <= x3 /\ (x3 * 32 <= SIZE_MAX -> forall i, 0 <= i < count ->
    bit_offset s i = position s i /\ 0 <= position s i /\ position s i + packing_bits s <= x3 * 32)).
  { destruct (pv_mode s Hs) as [Em|[Em Hle]]; rewrite Em in H4; simpl in H4; inv_ok.
    - match goal with M : multiply count _ = Ok _ |- _ => apply multiply_Ok in M as [-> ?]; [|lia..] end.
      split; [pose proof (b2z_range (negb (count * packing_bits s mod 32 =? 0))); zlia|].
      intros Hmax i Hi. unfold bit_offset, position. rewrite Em. simpl.
      assert (0 <= i * packing_bits s) by nia.
      assert (i * packing_bits s + packing_bits s <= count * packing_bits s) by nia.
      assert (0 <= count * packing_bits s <= (count * packing_bits s / 32 + b2z (negb (count * packing_bits s mod 32 =? 0))) * 32).
      { split; [lia|]. destruct (Z.eqb_spec (count * packing_bits s mod 32) 0); simpl; zlia. }
      split; [|lia]. unfold wrap64. apply Z.mod_small. unfold_words. lia.
    - destruct (per_word s Hs Hle) as [Hp Hq]. set (per := 32 / packing_bits s) in *.
      pose proof (Z.div_mod count per ltac:(lia)) as Hc. pose proof (Z.mod_pos_bound count per ltac:(lia)).
      pose proof (Z.div_pos count per ltac:(lia) ltac:(lia)). pose proof (b2z_range (negb (count mod per =? 0))).
      split; [lia|]. intros Hmax i Hi. unfold bit_offset, position. rewrite Em. simpl. fold per.
      pose proof (Z.div_mod i per ltac:(lia)) as Hi'. pose proof (Z.mod_pos_bound i per ltac:(lia)).
      pose proof (Z.div_pos i per ltac:(lia) ltac:(lia)).
      assert (i mod per * packing_bits s + packing_bits s <= 32) by nia.
      assert (0 <= i mod per * packing_bits s) by nia.
      assert (i / per < count / per + b2z (negb (count mod per =? 0))).
      { destruct (Z.eqb_spec (count mod per) 0); simpl; nia. }
      split; [|lia]. unfold wrap64. apply Z.mod_small. unfold_words. lia. }
  destruct Hw as [Hw0 Hw]. apply multiply_Ok in H5 as [-> ?]; [|lia..]. apply multiply_Ok in H6 as [-> ?]; [|lia..].
  apply Z.ltb_ge in E0. cbn [structures items_per_structure items sbytes]. split_and!; try done; try lia.
  intros i Hi. destruct (Hw ltac:(lia) i Hi) as (? & ? & ?). split_and!; done || lia.
Qed.

(** ** Items *)

(** The bits that an item at [off] sets. *)
Definition item_bit (s : PackingSpec) (off : Z) (x : Item) (q : Z) : bool :=
  field_bit off (item_bits s) (data_bits x) q
  || field_bit (off + packing_bits s - channel_tag_bits s) (channel_tag_bits s) (channel_tag x) q
  || field_bit (off + packing_bits s - channel_tag_bits s - event_tag_bits s) (event_tag_bits s) (event_tag x) q.

Definition in_region (s : PackingSpec) (off q : Z) : Prop := off <= q < off + packing_bits s.

Lemma field_bit_outside off w v q : ~ (off <= q < off + w) -> field_bit off w v q = false.
Proof. intros H. unfold field_bit. destruct (Z.leb_spec off q), (Z.ltb_spec q (off + w)); simpl; try done; lia. Qed.

Lemma field_bit_inside off w v q :
  off <= q < off + w -> field_bit off w v q = Z.testbit v (w - 1 - (q - off)).
Proof.
  intros H. unfold field_bit. by rewrite (proj2 (Z.leb_le off q)), (proj2 (Z.ltb_lt q _)) by lia.
Qed.

Section Items.
Context (s : PackingSpec) (Hs : packing_valid s).

Lemma item_bit_outside off x q : ~ in_region s off q -> item_bit s off x q = false.
Proof.
  intros H. unfold in_region, item_bit in *. pose proof (pv_sum s Hs). pose proof (pv_tags s Hs).
  pose proof (pv_item s Hs). rewrite !field_bit_outside by lia. done.
Qed.

Lemma write_item_spec data off x :
  0 <= off -> off + packing_bits s <= 8 * zlen data -> 8 * zlen data <= SIZE_MAX ->
  exists d, write_item data s off x = Ok d /\ length d = length data /\
    forall q, 0 <= q -> bitv d q = bitv data q || item_bit s off x q.
Proof.
  intros Hoff Hlen Hmax. pose proof (pv_sum s Hs). pose proof (pv_tags s Hs). pose proof (pv_item s Hs).
  unfold write_item. unfold wrap64. rewrite !Z.mod_small by (unfold_words; lia).
  destruct (write_bits_spec data off (item_bits s) (data_bits x)) as (d1 & -> & L1 & B1); try lia. simpl.
  destruct (write_bits_spec d1 (off + packing_bits s - channel_tag_bits s) (channel_tag_bits s) (channel_tag x))
    as (d2 & -> & L2 & B2); unfold zlen in *; try lia. simpl.
  destruct (write_bits_spec d2 (off + packing_bits s - channel_tag_bits s - event_tag_bits s)
    (event_tag_bits s) (event_tag x)) as (d3 & -> & L3 & B3); unfold zlen in *; try lia.
  exists d3. split; [done|]. split; [congruence|]. intros q Hq. unfold item_bit.
  by rewrite B3, B2, B1, !orb_assoc by done.
Qed.

(** Reading a field whose bits are those of [v]. *)
Lemma read_field data off w v :
  0 <= off -> 0 <= w <= 64 -> off + w <= 8 * zlen data -> 8 * zlen data <= SIZE_MAX ->
  0 <= v < 2 ^ w -> (forall q, off <= q < off + w -> bitv data q = field_bit off w v q) ->
  read_bits data off w = Ok v.
Proof.
  intros Hoff Hw Hlen Hmax Hv Hb. rewrite read_bits_spec by lia. f_equal.
  apply bval_unique; rewrite Z2Nat.id by lia; [done|]. intros j Hj.
  rewrite Hb, field_bit_inside by lia. f_equal. lia.
Qed.

Lemma fits_spec v w : 0 <= v -> v < 2 ^ 64 -> 0 <= w <= 64 -> fits v w = true -> v < 2 ^ w.
Proof.
  intros Hv H64 Hw H. unfold fits in H. apply orb_true_iff in H as [->%Z.eqb_eq|H%Z.eqb_eq]; [done|].
  rewrite Z.shiftr_div_pow2 in H by lia. pose proof (Z.pow_pos_nonneg 2 w ltac:(lia) ltac:(lia)).
  pose proof (Z.div_mod v (2 ^ w) ltac:(lia)). pose proof (Z.mod_pos_bound v (2 ^ w)). nia.
Qed.

Definition item_typed (x : Item) : Prop := u64 (data_bits x) /\ u64 (channel_tag x) /\ u64 (event_tag x).

(** A region that holds exactly the bits of an item reads back as that item. *)
Lemma read_item_spec data off x :
  0 <= off -> off + packing_bits s <= 8 * zlen data -> 8 * zlen data <= SIZE_MAX ->
  item_typed x -> item_fits s x = true ->
  (forall q, in_region s off q -> bitv data q = item_bit s off x q) ->
  read_item data s off = Ok x.
Proof.
  intros Hoff Hlen Hmax (T1 & T2 & T3) Hfit Hb. pose proof (pv_sum s Hs). pose proof (pv_tags s Hs).
  pose proof (pv_item s Hs). pose proof (pv_bits s Hs). unfold item_fits in Hfit.
  rewrite !andb_true_iff in Hfit. destruct Hfit as [[F1 F2] F3]. unfold_words.
  apply fits_spec in F1, F2, F3; [|lia..]. unfold in_region, item_bit in Hb.
  unfold read_item, wrap64. rewrite !Z.mod_small by lia.
  set (ch := off + packing_bits s - channel_tag_bits s) in *. set (ev := ch - event_tag_bits s) in *.
  rewrite (read_field data off (item_bits s) (data_bits x)); [|unfold_words; try lia..].
  2: { intros q Hq. rewrite Hb, (field_bit_outside ch), (field_bit_outside ev) by lia. by rewrite !orb_false_r. }
  simpl. rewrite (read_field data ch (channel_tag_bits s) (channel_tag x)); [|unfold_words; try lia..].
  2: { intros q Hq. rewrite Hb, (field_bit_outside off), (field_bit_outside ev) by lia. by rewrite orb_false_r. }
  simpl. rewrite (read_field data ev (event_tag_bits s) (event_tag x)); [|unfold_words; try lia..].
  2: { intros q Hq. by rewrite Hb, (field_bit_outside off), (field_bit_outside ch) by lia. }
  by destruct x.
Qed.

(** The loop over the items: each region gains the bits of its item and nothing else changes. *)
Lemma pack_loop_spec l i wire :
  0 <= i -> 8 * zlen wire <= SIZE_MAX ->
  (forall k, i <= k < i + zlen l -> bit_offset s k = position s k /\
     position s k + packing_bits s <= 8 * zlen wire) ->
  exists w, pack_loop wire s i l = Ok w /\ length w = length wire /\
    (forall q, 0 <= q -> (forall k, i <= k < i + zlen l -> ~ in_region s (position s k) q) ->
       bitv w q = bitv wire q) /\
    (forall k x q, l !! k = Some x -> in_region s (position s (i + Z.of_nat k)) q ->
       bitv w q = bitv wire q || item_bit s (position s (i + Z.of_nat k)) x q).
Proof.
  revert i wire. induction l as [|x l IH]; intros i wire Hi Hmax Hpos.
  { exists wire. split_and!; try done. }
  assert (Hl : zlen (x :: l) = zlen l + 1) by (unfold zlen; simpl; lia).
  assert (0 <= zlen l) by (unfold zlen; lia).
  destruct (Hpos i ltac:(lia)) as [Ho Hle]. destruct (position_order s i (i + 1) Hs ltac:(lia)) as [Hp0 _].
  cbn [pack_loop]. rewrite Ho. destruct (write_item_spec wire (position s i) x) as (d & -> & Ld & Bd); try lia. simpl.
  assert (Hzd : zlen d = zlen wire) by (unfold zlen; congruence).
  destruct (IH (i + 1) d) as (w & Hw & Lw & Bout & Bin); [lia|lia|intros; rewrite Hzd; apply Hpos; lia|].
  exists w. split; [done|]. split; [congruence|]. split.
  - intros q Hq Hnot. rewrite Bout, Bd, item_bit_outside by (try done; try (apply Hnot; lia); intros; apply Hnot; lia).
    by rewrite orb_false_r.
  - intros [|k] y q Hy Hr; simpl in Hy.
    + injection Hy as <-. rewrite Z.add_0_r in *. unfold in_region in Hr. rewrite Bout; [by rewrite Bd by lia|lia|].
      intros k Hk Hr'. unfold in_region in Hr'. pose proof (position_order s i k Hs ltac:(lia)). lia.
    + replace (i + Z.of_nat (S k)) with (i + 1 + Z.of_nat k) in * by lia. rewrite (Bin k y q Hy Hr).
      pose proof (position_order s i (i + 1 + Z.of_nat k) Hs ltac:(lia)). unfold in_region in Hr.
      rewrite Bd, item_bit_outside by (unfold in_region; lia). by rewrite orb_false_r.
Qed.
End Items.

Lemma bitv_zeros n q : bitv (replicate n x00) q = false.
Proof.
  unfold bitv. destruct (replicate n x00 !! _) eqn:E; [|done].
  apply lookup_replicate in E as [-> _]. apply Z.bits_0.
Qed.

(** The whole of [pack], on success. *)
Lemma pack_Ok spec n ia l oa out lim sz out' :
  packing_typed spec -> 0 <= n -> Forall item_typed l -> pack spec n ia l oa out lim = Ok (sz, out') ->
  exists sh wire, measure spec n lim = Ok sh /\ sz = sbytes sh /\ zlen l = items sh /\
    zlen wire = sbytes sh /\ out' = wire ++ drop (Z.to_nat (sbytes sh)) out /\
    (sbytes sh <= zlen out) /\
    forall i x, l !! i = Some x -> read_item wire spec (bit_offset spec (Z.of_nat i)) = Ok x.
Proof.
  intros Ht Hn Hty H. unfold pack in H. inv_ok. rename x into sh.
  match goal with M : measure _ _ _ = Ok _ |- _ => rename M into Hm end.
  match goal with M : pack_loop _ _ _ _ = Ok _ |- _ => rename M into Hp end.
  destruct (measure_Ok _ _ _ _ Ht Hn Hm) as (Hs & _ & _ & _ & Hi0 & _ & Hb0 & Hb8 & _ & Hoff).
  rewrite !negb_false_iff in *. apply Z.ltb_ge in E0. apply Z.eqb_eq in E.
  set (z := replicate (Z.to_nat (sbytes sh)) x00) in *.
  assert (Hz : zlen z = sbytes sh) by (unfold z, zlen; rewrite length_replicate; lia).
  destruct (pack_loop_spec spec Hs l 0 z) as (w & Hw & Lw & _ & Bin); [lia|lia| |].
  { intros k Hk. destruct (Hoff k ltac:(lia)) as (? & ? & ?). split; [done|]. lia. }
  rewrite Hp in Hw. injection Hw as ->. exists sh, w.
  assert (Hzw : zlen w = sbytes sh) by (unfold zlen in *; congruence).
  split_and!; try done. intros i x Hx.
  assert (Hi : 0 <= Z.of_nat i < items sh) by (apply lookup_lt_Some in Hx; unfold zlen in E; lia).
  destruct (Hoff _ Hi) as (-> & Hp0 & Hp1).
  apply read_item_spec; try done; try lia.
  - rewrite Forall_lookup in Hty. by eapply Hty.
  - match goal with F : forallb _ _ = true |- _ => rewrite forallb_forall in F; apply F end.
    apply list_elem_of_In. by eapply list_elem_of_lookup_2.
  - intros q Hq. rewrite (Bin i x q Hx Hq). unfold z. by rewrite bitv_zeros.
Qed.

(** ** Coordinates *)

Lemma divmod_add a b m : 0 <= b < m -> (a * m + b) / m = a /\ (a * m + b) mod m = b.
Proof.
  intros H. rewrite Z.div_add_l, Z.div_small, (Z.add_comm (a * m)), Z.mod_add, Z.mod_small by lia. lia.
Qed.

Lemma divmod_split a m : 0 < m -> a = a / m * m + a mod m /\ 0 <= a mod m < m.
Proof. intros. pose proof (Z.div_mod a m). pose proof (Z.mod_pos_bound a m). lia. Qed.

Lemma div_range a m k : 0 <= a < k * m -> 0 < m -> 0 <= a / m < k.
Proof. intros. split; [apply Z.div_pos; lia|apply Z.div_lt_upper_bound; lia]. Qed.

(** The place of an item in its structure, without machine words. *)
Definition place_of (s : PackingSpec) (local : Z) : Z * Z * Z :=
  let c := components (skind s) in
  let r := repeat_count s in
  let v := vector_size s in
  if repeating s =? RepeatMode.component then
    let linear := local / (c * r) * r + local mod r in
    (linear / v, linear mod v, (local / r) mod c)
  else if repeating s =? RepeatMode.channel then ((local / c) mod r, local / (c * r), local mod c)
  else (0, local / c, local mod c).

Definition local_of (s : PackingSpec) (t ch co : Z) : Z :=
  let c := components (skind s) in
  let r := repeat_count s in
  if repeating s =? RepeatMode.component then
    let linear := t * vector_size s + ch in (linear / r * c + co) * r + linear mod r
  else if repeating s =? RepeatMode.channel then (ch * r + t) * c + co
  else ch * c + co.

Definition place_ok (s : PackingSpec) (t ch co : Z) : Prop :=
  0 <= t < repeat_count s /\ 0 <= ch < vector_size s /\ 0 <= co < components (skind s).

Section Places.
Context (s : PackingSpec) (Hs : packing_valid s).
#[local] Abbreviation c := (components (skind s)).
#[local] Abbreviation r := (repeat_count s).
#[local] Abbreviation v := (vector_size s).

Lemma place_sizes : 1 <= c <= 2 /\ 1 <= r <= 65536 /\ 1 <= v <= 65535.
Proof. pose proof (components_pos (skind s)). pose proof (pv_repeat s Hs). pose proof (pv_vector s Hs). lia. Qed.

Lemma place_local t ch co :
  place_ok s t ch co -> 0 <= local_of s t ch co < v * r * c /\ place_of s (local_of s t ch co) = (t, ch, co).
Proof.
  intros (Ht & Hch & Hco). destruct place_sizes as (Hc & Hr & Hv). unfold local_of, place_of.
  destruct (pv_repeating s Hs) as [[-> Hr1]|[[-> _]| ->]]; cbn -[Z.mul Z.div Z.modulo Z.add].
  - rewrite Hr1 in *. destruct (divmod_add ch co c Hco) as [-> ->]. split; [nia|]. f_equal. f_equal. lia.
  - destruct (divmod_add t ch v Hch) as [Ht' Hch']. set (linear := t * v + ch) in *.
    assert (0 <= linear < r * v) by nia. destruct (divmod_split linear r ltac:(lia)) as [Hl Hm].
    assert (0 <= linear / r < v) by (apply div_range; lia).
    destruct (divmod_add (linear / r * c + co) (linear mod r) r Hm) as [Hd1 Hm1].
    destruct (divmod_add (linear / r) co c Hco) as [Hd2 Hm2]. split; [nia|].
    rewrite Z.mul_comm with (n := c), <- Z.div_div, Hd1, Hd2, Hm1, Hm2, <- Hl, Ht', Hch' by lia. done.
  - destruct (divmod_add (ch * r + t) co c Hco) as [Hd1 Hm1]. destruct (divmod_add ch t r Ht) as [Hd2 Hm2].
    assert (0 <= ch * r + t < v * r) by nia.
    split; [nia|]. rewrite <- Z.div_div, Hd1, Hm1, Hd2, Hm2 by lia. done.
Qed.

Lemma local_place local :
  0 <= local < v * r * c ->
  let '(t, ch, co) := place_of s local in place_ok s t ch co /\ local_of s t ch co = local.
Proof.
  intros Hl. destruct place_sizes as (Hc & Hr & Hv). unfold place_of, place_ok, local_of.
  destruct (pv_repeating s Hs) as [[-> Hr1]|[[-> _]| ->]]; cbn -[Z.mul Z.div Z.modulo Z.add].
  - rewrite Hr1 in *. destruct (divmod_split local c ltac:(lia)) as [Hd Hm].
    pose proof (div_range local c v ltac:(lia) ltac:(lia)). split_and!; lia.
  - rewrite Z.mul_comm with (n := c), <- Z.div_div by lia.
    destruct (divmod_split local r ltac:(lia)) as [Hd Hm]. destruct (divmod_split (local / r) c ltac:(lia)) as [Hd2 Hm2].
    pose proof (div_range local r (v * c) ltac:(lia) ltac:(lia)).
    pose proof (div_range (local / r) c v ltac:(lia) ltac:(lia)).
    set (linear := local / r / c * r + local mod r). assert (0 <= linear < r * v) by (unfold linear; nia).
    destruct (divmod_split linear v ltac:(lia)) as [Hd3 Hm3]. pose proof (div_range linear v r ltac:(lia) ltac:(lia)).
    destruct (divmod_add (local / r / c) (local mod r) r Hm) as [E1 E2].
    split; [split_and!; lia|]. rewrite <- Hd3. unfold linear. rewrite E1, E2, <- Hd2. lia.
  - rewrite <- Z.div_div by lia. destruct (divmod_split local c ltac:(lia)) as [Hd Hm].
    destruct (divmod_split (local / c) r ltac:(lia)) as [Hd2 Hm2].
    pose proof (div_range local c (v * r) ltac:(lia) ltac:(lia)).
    pose proof (div_range (local / c) r v ltac:(lia) ltac:(lia)).
    split; [split_and!; lia|]. rewrite <- Hd2. lia.
Qed.
End Places.

(** The machine arithmetic of [coordinates] and [index] is exact on a valid view. *)
Section View.
Context (p : PackedSamples) (Hs : packing_valid (ps_spec p)).
Context (Hgroup : items_per_structure (ps_shape p)
  = vector_size (ps_spec p) * repeat_count (ps_spec p) * components (skind (ps_spec p))).
Context (Hitems : items (ps_shape p) = structures (ps_shape p) * items_per_structure (ps_shape p)).
Context (Hmax : items (ps_shape p) <= SIZE_MAX).
#[local] Abbreviation S := (items_per_structure (ps_shape p)).

Lemma group_pos : 1 <= S.
Proof. destruct (place_sizes _ Hs) as (? & ? & ?). rewrite Hgroup. nia. Qed.

Lemma coordinates_place i :
  0 <= i < items (ps_shape p) ->
  coordinates p i =
    let '(t, ch, co) := place_of (ps_spec p) (i mod S) in Ok (mkCoordinates (i / S) t ch co).
Proof.
  intros Hi. destruct (place_sizes _ Hs) as (Hc & Hr & Hv). pose proof group_pos.
  pose proof (Z.mod_pos_bound i S ltac:(lia)) as Hl.
  pose proof (local_place _ Hs (i mod S) ltac:(lia)) as HP. unfold coordinates. rewrite (proj2 (Z.leb_gt _ _)) by lia.
  set (local := i mod S) in *. unfold place_of in *.
  assert (Hcr : wrap32 (components (skind (ps_spec p)) * repeat_count (ps_spec p))
    = components (skind (ps_spec p)) * repeat_count (ps_spec p)) by (unfold wrap32; apply Z.mod_small; nia).
  rewrite Hcr.
  assert (Hlin : 0 <= local / (components (skind (ps_spec p)) * repeat_count (ps_spec p)) * repeat_count (ps_spec p)
    + local mod repeat_count (ps_spec p) < 2 ^ 64).
  { pose proof (Z.mod_pos_bound local (repeat_count (ps_spec p)) ltac:(lia)).
    assert (0 <= local / (components (skind (ps_spec p)) * repeat_count (ps_spec p)) < vector_size (ps_spec p))
      by (apply div_range; lia || nia).
    generalize dependent (local / (components (skind (ps_spec p)) * repeat_count (ps_spec p))).
    intros k _ Hk. pose proof (Z.mul_le_mono_nonneg k 65535 (repeat_count (ps_spec p)) 65536).
    assert (0 <= k * repeat_count (ps_spec p)) by (apply Z.mul_nonneg_nonneg; lia). lia. }
  assert (Hw64 : forall x, 0 <= x < 2 ^ 64 -> wrap64 x = x) by (intros; by apply Z.mod_small).
  assert (Hw32 : forall x, 0 <= x <= 65536 -> wrap32 x = x) by (intros; apply Z.mod_small; lia).
  rewrite Hw64 by done.
  destruct (_ =? RepeatMode.component); [|destruct (_ =? RepeatMode.channel)];
    destruct HP as [(H1 & H2 & H3) _]; rewrite !Hw32 by lia; done.
Qed.

Lemma index_place x :
  0 <= structure x < structures (ps_shape p) -> place_ok (ps_spec p) (time x) (channel x) (component x) ->
  index_of p x = Ok (structure x * S + local_of (ps_spec p) (time x) (channel x) (component x)).
Proof.
  intros Hst Hpl. destruct (place_sizes _ Hs) as (Hc & Hr & Hv). pose proof group_pos.
  destruct (place_local _ Hs _ _ _ Hpl) as [Hl _]. rewrite <- Hgroup in Hl.
  unfold index_of. destruct Hpl as (Ht & Hch & Hco).
  rewrite (proj2 (Z.leb_gt _ _)), (proj2 (Z.leb_gt (repeat_count _) _)), (proj2 (Z.leb_gt (vector_size _) _)),
    (proj2 (Z.leb_gt (components _) _)) by lia. simpl.
  assert (Hbound : structure x * S + S <= SIZE_MAX) by nia. unfold SIZE_MAX, U64_MAX in *.
  assert (Hw64 : forall x, 0 <= x < 2 ^ 64 -> wrap64 x = x) by (intros; by apply Z.mod_small).
  assert (Hlin : 0 <= time x * vector_size (ps_spec p) + channel x < 2 ^ 64).
  { pose proof (Z.mul_le_mono_nonneg (time x) 65536 (vector_size (ps_spec p)) 65535). nia. }
  f_equal. unfold local_of in *. rewrite (Hw64 _ Hlin).
  assert (0 <= structure x * S) by nia.
  destruct (_ =? RepeatMode.component); [|destruct (_ =? RepeatMode.channel)]; unfold wrap64;
    rewrite Zplus_mod_idemp_r; apply Z.mod_small; lia.
Qed.
End View.

(** ** The theorems *)

Lemma create_Ok b spec n lim p :
  create b spec n lim = Ok p ->
  exists sh, measure spec n lim = Ok sh /\ p = mkPacked b spec sh /\ zlen b = sbytes sh.
Proof.
  intros H. unfold create in H. inv_ok. rewrite negb_false_iff in E0. apply Z.eqb_eq in E0. eauto.
Qed.

(** C21. Items that were packed are read back by the view of the bytes written, one by one and
    with their tags; the rest of the output buffer is untouched. *)
Theorem pack_roundtrip spec n ia l oa out lim sz out' :
  packing_typed spec -> 0 <= n -> Forall item_typed l ->
  pack spec n ia l oa out lim = Ok (sz, out') ->
  exists p, create (take (Z.to_nat sz) out') spec n lim = Ok p /\ items (ps_shape p) = zlen l /\
    (forall i x, l !! i = Some x -> at_ p (Z.of_nat i) = Ok x) /\
    length out' = length out /\ drop (Z.to_nat sz) out' = drop (Z.to_nat sz) out.
Proof.
  intros Ht Hn Hty H. destruct (pack_Ok _ _ _ _ _ _ _ _ _ Ht Hn Hty H) as (sh & wire & Hm & -> & Hl & Hw & -> & Hle & Hr).
  assert (Hlw : length wire = Z.to_nat (sbytes sh)) by (unfold zlen in Hw; lia).
  rewrite take_app_length', drop_app_length' by done.
  exists (mkPacked wire spec sh). unfold create. rewrite Hm. simpl.
  rewrite Hw, Z.ltb_irrefl, Z.eqb_refl. simpl. split_and!; try done.
  - intros i x Hx. unfold at_. simpl. pose proof (lookup_lt_Some _ _ _ Hx). unfold zlen in *.
    rewrite (proj2 (Z.leb_gt _ _)) by lia. auto.
  - rewrite length_app, length_drop. unfold zlen in *. lia.
Qed.

(** Every item of an accepted payload can be read: its fields lie inside the bytes. *)
Theorem at_total spec n b lim p i :
  packing_typed spec -> 0 <= n -> create b spec n lim = Ok p -> 0 <= i ->
  (i < items (ps_shape p) -> exists x, at_ p i = Ok x /\ item_fits spec x = true) /\
  (items (ps_shape p) <= i -> at_ p i = Err (error2 ErrorCode.invalid_argument i)).
Proof.
  intros Ht Hn H Hi. apply create_Ok in H as (sh & Hm & -> & Hb).
  destruct (measure_Ok _ _ _ _ Ht Hn Hm) as (Hs & _ & _ & _ & _ & _ & _ & Hb8 & _ & Hoff). simpl.
  split; intros Hlt; unfold at_; simpl; [|by rewrite (proj2 (Z.leb_le _ _))].
  rewrite (proj2 (Z.leb_gt _ _)) by lia. destruct (Hoff i ltac:(lia)) as (-> & Hp0 & Hp1).
  pose proof (pv_sum _ Hs). pose proof (pv_tags _ Hs). pose proof (pv_item _ Hs). pose proof (pv_bits _ Hs).
  assert (zlen b * 8 <= SIZE_MAX) by lia. unfold read_item, wrap64. rewrite !Z.mod_small by (unfold_words; lia).
  rewrite !read_bits_spec by lia. simpl. eexists. split; [done|].
  assert (Hfit : forall off w, 0 <= w -> fits (bval b off (Z.to_nat w)) w = true).
  { intros off w Hw. unfold fits. pose proof (bval_range b off (Z.to_nat w)) as Hr. rewrite Z2Nat.id in Hr by lia.
    rewrite Z.shiftr_div_pow2, Z.div_small, orb_true_r by lia. done. }
  unfold item_fits. simpl. rewrite !Hfit by lia. done.
Qed.

(** The positions of a payload and the places by structure, time, channel and component
    correspond one to one, in all three arrangements. *)
Theorem coordinates_bijective spec n b lim p :
  packing_typed spec -> 0 <= n -> create b spec n lim = Ok p -> max_items lim <= SIZE_MAX ->
  (forall i, 0 <= i < items (ps_shape p) ->
     exists x, coordinates p i = Ok x /\ index_of p x = Ok i) /\
  (forall x i, 0 <= structure x -> 0 <= time x -> 0 <= channel x -> 0 <= component x ->
     index_of p x = Ok i -> 0 <= i < items (ps_shape p) /\ coordinates p i = Ok x).
Proof.
  intros Ht Hn H Hlim. apply create_Ok in H as (sh & Hm & -> & _).
  destruct (measure_Ok _ _ _ _ Ht Hn Hm) as (Hs & Hst & Hg & Hit & _ & Hmx & _). rewrite <- Hst in Hit.
  set (p := mkPacked b spec sh). assert (Hmax : items (ps_shape p) <= SIZE_MAX) by (simpl; lia).
  pose proof (group_pos p Hs Hg) as HS. simpl in HS. split.
  - intros i Hi. rewrite (coordinates_place p Hs Hg) by done. simpl in *.
    destruct (divmod_split i (items_per_structure sh) ltac:(lia)) as [Hd Hmod].
    pose proof (local_place spec Hs (i mod items_per_structure sh) ltac:(lia)) as HP.
    destruct (place_of spec _) as [[t ch] co]. destruct HP as [Hok Hloc]. eexists. split; [done|].
    rewrite (index_place p Hs Hg Hit Hmax) by (simpl; try done; apply div_range; lia). simpl.
    f_equal. rewrite Hloc. lia.
  - intros x i H0 H1 H2 H3 Hx.
    destruct ((structures sh <=? structure x) || (repeat_count spec <=? time x) || (vector_size spec <=? channel x)
      || (components (skind spec) <=? component x)) eqn:E; [unfold index_of in Hx; simpl in Hx; by rewrite E in Hx|].
    rewrite !orb_false_iff, !Z.leb_gt in E. simpl in E.
    assert (Hok : place_ok spec (time x) (channel x) (component x)) by (unfold place_ok; lia).
    rewrite (index_place p Hs Hg Hit Hmax) in Hx by (simpl; done || lia). simpl in Hx. injection Hx as <-.
    destruct (place_local spec Hs _ _ _ Hok) as [Hl HP]. rewrite <- Hg in Hl.
    destruct (divmod_add (structure x) _ _ Hl) as [Ed Em].
    assert (Hi : 0 <= structure x * items_per_structure sh + local_of spec (time x) (channel x) (component x) < items sh)
      by nia.
    split; [done|]. rewrite (coordinates_place p Hs Hg) by done. simpl. rewrite Em, Ed, HP. by destruct x.
Qed.

(** ** Witnesses: 12-bit complex items with tags, three to a repetition of two *)

Definition ex_packing : PackingSpec :=
  mkPacking 12 16 3 1 PackingMode.link SampleKind.cartesian RepeatMode.component 2 3.
Definition ex_items : list Item :=
  map (fun k => mkItem (k * 341) (k mod 8) (k mod 2)) [0; 1; 2; 3; 4; 5; 6; 7; 8; 9; 10; 11].
Definition ex_output : list byte := replicate 26 x2a.
Definition ex_packed : Result (Z * list byte) := pack ex_packing 1 0 ex_items 4096 ex_output default_limits.
Definition ex_written : list byte := match ex_packed with Ok (_, b) => b | _ => [] end.

Ltac concrete_words := vm_compute; repeat split; congruence.

Lemma pack_roundtrip_witness :
  exists p, create (take 24 ex_written) ex_packing 1 default_limits = Ok p /\ items (ps_shape p) = 12 /\
    (forall i x, ex_items !! i = Some x -> at_ p (Z.of_nat i) = Ok x) /\
    length ex_written = length ex_output /\ drop 24 ex_written = drop 24 ex_output.
Proof.
  apply (pack_roundtrip ex_packing 1 0 ex_items 4096 ex_output default_limits 24 ex_written);
    [concrete_words|lia| |vm_compute; reflexivity].
  repeat constructor; vm_compute; congruence.
Defined.

Definition ex_view : PackedSamples := mkPacked (take 24 ex_written) ex_packing (mkShape 1 12 12 24).

Lemma at_total_witness :
  (7 < items (ps_shape ex_view) -> exists x, at_ ex_view 7 = Ok x /\ item_fits ex_packing x = true) /\
  (items (ps_shape ex_view) <= 7 -> at_ ex_view 7 = Err (error2 ErrorCode.invalid_argument 7)).
Proof.
  apply (at_total ex_packing 1 (take 24 ex_written) default_limits ex_view 7);
    [concrete_words|lia|vm_compute; reflexivity|lia].
Defined.

Lemma coordinates_bijective_witness :
  exists x, coordinates ex_view 7 = Ok x /\ index_of ex_view x = Ok 7.
Proof.
  apply (coordinates_bijective ex_packing 1 (take 24 ex_written) default_limits ex_view);
    [concrete_words|lia|vm_compute; reflexivity|vm_compute; congruence|].
  split; [lia|vm_compute; reflexivity].
Defined.
