(* ===== verification/IeeeSamples.v ===== *)
(** * IEEE sample formats: [include/vita/codec/ieee_samples.hpp]

    Decoding of binary16, binary32 and binary64 words, encoding of finite values with the
    IEEE rounding, overflow and underflow rules, and conversion between the formats with
    the treatment of infinities and NaN payloads. *)

From S2P Require Import Prelude Fields NumericSamples.

Module Format.
Definition binary16 : Z := 0.
Definition binary32 : Z := 1.
Definition binary64 : Z := 2.
End Format.

Module Category.
Inductive t := zero | finite | infinity | quiet_nan | signaling_nan.
#[global] Instance t_eq_dec : EqDecision t.
Proof. solve_decision. Defined.
End Category.

Module IOverflow.
Definition error : Z := 0.
Definition ieee_result : Z := 1.
Definition saturate_finite : Z := 2.
End IOverflow.

Module NonFinite.
Definition reject : Z := 0.
Definition propagate : Z := 1.
End NonFinite.

Module NaNPayload.
Definition exact : Z := 0.
Definition preserve_high : Z := 1.
Definition canonical : Z := 2.
End NaNPayload.

Record Policy := mkIPolicy {
  iprecision : Z; irounding : Z; ioverflow : Z; nonfinite : Z; payload_policy : Z
}.

Record Flags := mkFlags {
  invalid : bool; inexact : bool; foverflow : bool; underflow : bool; payload_loss : bool
}.
Definition no_flags : Flags := mkFlags false false false false false.

Record Converted := mkConverted { cbits : Z; cflags : Flags }.

Record Decoded := mkDecoded {
  category : Category.t; dnegative : bool; finite : BinaryValue; payload : Z; payload_bits : Z
}.

Record IShape := mkIShape { width : Z; fraction : Z; iexponent : Z; bias : Z }.

Definition shape (f : Z) : Result IShape :=
  if f =? Format.binary16 then Ok (mkIShape 16 10 5 15)
  else if f =? Format.binary32 then Ok (mkIShape 32 23 8 127)
  else if f =? Format.binary64 then Ok (mkIShape 64 52 11 1023)
  else Err (error1 ErrorCode.invalid_argument).

Definition ipolicy_valid (p : Policy) : bool :=
  ((iprecision p =? Precision.exact_only) || (iprecision p =? Precision.allow_rounding))
  && (Rounding.nearest_ties_even <=? irounding p) && (irounding p <=? Rounding.toward_positive)
  && (IOverflow.error <=? ioverflow p) && (ioverflow p <=? IOverflow.saturate_finite)
  && (NonFinite.reject <=? nonfinite p) && (nonfinite p <=? NonFinite.propagate)
  && (NaNPayload.exact <=? payload_policy p) && (payload_policy p <=? NaNPayload.canonical).

Record Rounded := mkRounded { integer : Z; rinexact : bool }.

(** Shifting a 64-bit word by 64 or more is undefined. *)
Definition round (v : BinaryValue) (q : Z) (mode : Z) : Result Rounded :=
  let shift := exponent v - q in
  if 0 <=? shift then
    if 64 <=? shift then UB else Ok (mkRounded (wrap64 (Z.shiftl (magnitude v) shift)) false)
  else
  let right := - shift in
  let int := if 64 <=? right then 0 else Z.shiftr (magnitude v) right in
  let res := if 64 <=? right then magnitude v else Z.land (magnitude v) (mask right) in
  let increment := increments mode (negative v) right int res in
  Ok (mkRounded (wrap64 (int + b2z increment)) (nonzero res)).

Definition overflow (s : IShape) (neg : bool) (p : Policy) : Result Converted :=
  fail_if (iprecision p =? Precision.exact_only) || (ioverflow p =? IOverflow.error)
    with error1 ErrorCode.overflow ;;
  let sign := wrap64 (Z.shiftl (b2z neg) (width s - 1)) in
  let inf := wrap64 (Z.shiftl (mask (iexponent s)) (fraction s)) in
  let infinity := (ioverflow p =? IOverflow.ieee_result)
    && ((irounding p =? Rounding.nearest_ties_even)
        || ((irounding p =? Rounding.toward_negative) && neg)
        || ((irounding p =? Rounding.toward_positive) && negb neg)) in
  Ok (mkConverted (Z.lor sign (if infinity then inf else inf - 1)) (mkFlags false true true false false)).

(** [*canonicalize(...)]: dereferencing an error is undefined. *)
Definition canonical_value (v : BinaryValue) : Result BinaryValue :=
  match canonicalize v with Ok c => Ok c | _ => UB end.

Definition idecode (format w : Z) : Result Decoded :=
  let? s := shape format in
  fail_if nonzero (Z.land w (wrap64 (Z.lnot (mask (width s))))) with error1 ErrorCode.invalid_argument ;;
  let neg := nonzero (Z.shiftr w (width s - 1)) in
  let fr := Z.land w (mask (fraction s)) in
  let ex := Z.land (Z.shiftr w (fraction s)) (mask (iexponent s)) in
  if ex =? mask (iexponent s) then
    if negb (nonzero fr) then Ok (mkDecoded Category.infinity neg (mkBinary 0 0 false) 0 0)
    else Ok (mkDecoded
      (if nonzero (Z.land fr (Z.shiftl 1 (fraction s - 1))) then Category.quiet_nan else Category.signaling_nan)
      neg (mkBinary 0 0 false) (Z.land fr (mask (fraction s - 1))) (fraction s - 1))
  else if nonzero ex || nonzero fr then
    let mag := Z.lor fr (if nonzero ex then Z.shiftl 1 (fraction s) else 0) in
    let q := (if nonzero ex then ex else 1) - bias s - fraction s in
    let? v := canonical_value (mkBinary mag (int16 q) neg) in
    Ok (mkDecoded Category.finite neg v 0 0)
  else Ok (mkDecoded Category.zero neg (mkBinary 0 0 false) 0 0).

Definition finite_value (v : Decoded) : Result BinaryValue :=
  fail_if nonzero (payload v) || nonzero (payload_bits v) with error1 ErrorCode.invalid_argument ;;
  if bool_decide (category v = Category.zero) && bool_decide (finite v = mkBinary 0 0 false) then Ok (finite v) else
  if bool_decide (category v = Category.finite) && nonzero (magnitude (finite v))
     && Bool.eqb (negative (finite v)) (dnegative v) then
    match canonicalize (finite v) with
    | Ok c => if decide (c = finite v) then Ok (finite v) else Err (error1 ErrorCode.invalid_argument)
    | Err _ => Err (error1 ErrorCode.invalid_argument)
    | UB => UB
    end
  else Err (error1 ErrorCode.invalid_argument).

Definition encode_finite (format : Z) (value : BinaryValue) (p : Policy) : Result Converted :=
  let? s := shape format in
  fail_if negb (ipolicy_valid p) with error1 ErrorCode.invalid_argument ;;
  let sign := wrap64 (Z.shiftl (b2z (negative value)) (width s - 1)) in
  if negb (nonzero (magnitude value)) then Ok (mkConverted sign no_flags) else
  let top := exponent value + bit_width (magnitude value) - 1 in
  if bias s <? top then overflow s (negative value) p else
  let minimum := 1 - bias s in
  let tiny := top <? minimum in
  let? tiny :=
    (if tiny then
       let? precision_rounded := round value (top - fraction s) (irounding p) in
       let carry := integer precision_rounded =? Z.shiftl 1 (fraction s + 1) in
       Ok (top + b2z carry <? minimum)
     else Ok tiny) in
  let q := (if top <? minimum then minimum else top) - fraction s in
  let? r := round value q (irounding p) in
  let '(significand, top) :=
    if integer r =? Z.shiftl 1 (fraction s + 1) then (Z.shiftr (integer r) 1, top + 1)
    else (integer r, top) in
  if bias s <? top then overflow s (negative value) p else
  fail_if rinexact r && (iprecision p =? Precision.exact_only) with error1 ErrorCode.invalid_argument ;;
  let normal := Z.shiftl 1 (fraction s) <=? significand in
  let ex := if normal then (if top <? minimum then minimum else top) + bias s else 0 in
  Ok (mkConverted
    (Z.lor (Z.lor sign (wrap64 (Z.shiftl ex (fraction s)))) (Z.land significand (mask (fraction s))))
    (mkFlags false (rinexact r) false (rinexact r && tiny) false)).

(** The NaN part of [convert]. *)
Definition convert_nan (src : Decoded) (dst : IShape) (p : Policy) : Result Converted :=
  let sign := wrap64 (Z.shiftl (b2z (dnegative src)) (width dst - 1)) in
  let inf := wrap64 (Z.shiftl (mask (iexponent dst)) (fraction dst)) in
  let quiet := Z.shiftl 1 (fraction dst - 1) in
  let inv := bool_decide (category src = Category.signaling_nan) in
  if payload_policy p =? NaNPayload.canonical then
    Ok (mkConverted (Z.lor inf quiet)
          (mkFlags inv false false false (dnegative src || nonzero (payload src))))
  else
  let target := fraction dst - 1 in
  let '(pl, loss) :=
    if target <? payload_bits src then
      let shift := payload_bits src - target in
      (Z.shiftr (payload src) shift, nonzero (Z.land (payload src) (mask shift)))
    else (wrap64 (Z.shiftl (payload src) (target - payload_bits src)), false) in
  fail_if loss && (payload_policy p =? NaNPayload.exact) with error1 ErrorCode.invalid_argument ;;
  Ok (mkConverted (Z.lor (Z.lor (Z.lor sign inf) quiet) pl) (mkFlags inv false false false loss)).

Definition convert (source w destination : Z) (p : Policy) : Result Converted :=
  fail_if negb (ipolicy_valid p) with error1 ErrorCode.invalid_argument ;;
  let? src := idecode source w in
  let? dst := shape destination in
  match category src with
  | Category.finite => encode_finite destination (finite src) p
  | Category.zero => encode_finite destination (mkBinary 0 0 (dnegative src)) p
  | c =>
      fail_if nonfinite p =? NonFinite.reject with error1 ErrorCode.invalid_argument ;;
      let sign := wrap64 (Z.shiftl (b2z (dnegative src)) (width dst - 1)) in
      let inf := wrap64 (Z.shiftl (mask (iexponent dst)) (fraction dst)) in
      if decide (c = Category.infinity) then Ok (mkConverted (Z.lor sign inf) no_flags)
      else convert_nan src dst p
  end.
