(* ===== verification/IeeeProofs.v ===== *)
(** * IEEE sample formats: decoding is exact, encoding rounds correctly, conversion preserves values *)

From S2P Require Import Prelude Fields NumericSamples NumericProofs IeeeSamples.

(** ** Formats *)

Record shape_ok (s : IShape) : Prop := {
  sh_fraction : 10 <= fraction s <= 52;
  sh_exponent : 5 <= iexponent s <= 11;
  sh_width : width s = 1 + iexponent s + fraction s /\ width s <= 64;
  sh_bias : bias s = 2 ^ (iexponent s - 1) - 1 /\ 15 <= bias s <= 1023
}.

Lemma shape_Ok f s : shape f = Ok s -> shape_ok s.
Proof.
  unfold shape. intros H. repeat case_match; try done; injection H as <-; split; simpl; lia.
Qed.

(** The magnitude that the exponent field [ex] and the fraction field [fr] stand for. *)
Definition ival (s : IShape) (ex fr : Z) : Z :=
  (fr + (if ex =? 0 then 0 else 2 ^ fraction s)) * 2 ^ (Z.max ex 1 - bias s - fraction s + UNIT).

(** The word with a sign, an exponent field and a fraction field. *)
Definition iword (s : IShape) (neg : bool) (ex fr : Z) : Z :=
  (b2z neg * 2 ^ iexponent s + ex) * 2 ^ fraction s + fr.

Definition fields_ok (s : IShape) (ex fr : Z) : Prop :=
  0 <= ex < 2 ^ iexponent s /\ 0 <= fr < 2 ^ fraction s.

(** The finite values of a format, in units. *)
Definition irepresentable (f : Z) (x : Z) : Prop :=
  exists w d, u64 w /\ idecode f w = Ok d /\
    (category d = Category.zero \/ category d = Category.finite) /\ units (finite d) = x.

Section Shape.
Context (s : IShape) (Hs : shape_ok s).
#[local] Abbreviation F := (fraction s).
#[local] Abbreviation E := (iexponent s).
#[local] Abbreviation B := (bias s).

Lemma pow_fields : 0 < 2 ^ F /\ 32 <= 2 ^ E /\ 2 ^ (E + F) = 2 ^ E * 2 ^ F /\
  2 ^ width s = 2 * 2 ^ E * 2 ^ F /\ 2 ^ width s <= 2 ^ 64 /\ 2 ^ E = 2 * (B + 1).
Proof.
  destruct Hs as [HF HE [HW HW64] [HB _]]. split; [apply pow2_pos; lia|].
  split; [change 32 with (2 ^ 5); apply Z.pow_le_mono_r; lia|].
  split; [apply Z.pow_add_r; lia|]. split; [rewrite HW, !Z.pow_add_r by lia; lia|].
  split; [apply pow2_le64; lia|]. rewrite HB. replace E with (E - 1 + 1) at 1 by lia. rewrite pow2_succ by lia. lia.
Qed.

Lemma iword_range neg ex fr : fields_ok s ex fr -> 0 <= iword s neg ex fr < 2 ^ width s.
Proof.
  intros [He Hf]. destruct pow_fields as (H1 & H2 & H3 & -> & _). pose proof (b2z_range neg).
  unfold iword. assert (0 <= b2z neg * 2 ^ E + ex <= 2 * 2 ^ E - 1) by nia. nia.
Qed.

(** Every word of the width is made of its three fields. *)
Lemma iword_split w :
  0 <= w < 2 ^ width s -> exists neg ex fr, fields_ok s ex fr /\ w = iword s neg ex fr.
Proof.
  intros Hw. destruct pow_fields as (H1 & H2 & H3 & H4 & _). rewrite H4 in Hw.
  pose proof (Z.div_mod w (2 ^ F) ltac:(lia)) as Hd. pose proof (Z.mod_pos_bound w (2 ^ F) ltac:(lia)).
  set (h := w / 2 ^ F) in *. assert (0 <= h < 2 * 2 ^ E) by (split; [apply Z.div_pos|apply Z.div_lt_upper_bound]; lia).
  exists (2 ^ E <=? h), (if 2 ^ E <=? h then h - 2 ^ E else h), (w mod 2 ^ F).
  unfold fields_ok, iword. destruct (Z.leb_spec (2 ^ E) h); simpl; split; lia.
Qed.

(** The fields as the code extracts them. *)
Lemma iword_fields neg ex fr :
  fields_ok s ex fr ->
  let w := iword s neg ex fr in
  nonzero (Z.shiftr w (width s - 1)) = neg /\ Z.land w (mask F) = fr /\
  Z.land (Z.shiftr w F) (mask E) = ex /\ nonzero (Z.land w (wrap64 (Z.lnot (mask (width s))))) = false.
Proof.
  intros [He Hf] w. pose proof (iword_range neg ex fr (conj He Hf)) as Hw. fold w in Hw.
  destruct pow_fields as (H1 & H2 & H3 & H4 & H5 & _). pose proof (sh_fraction s Hs). pose proof (sh_exponent s Hs).
  destruct (sh_width s Hs) as [HW HW64]. rewrite !land_maskn, !Z.shiftr_div_pow2 by lia.
  assert (Hd : w / 2 ^ F = b2z neg * 2 ^ E + ex).
  { unfold w, iword. rewrite Z.div_add_l, Z.div_small by lia. lia. }
  replace (width s - 1) with (E + F) by lia. rewrite H3, (Z.mul_comm (2 ^ E)), <- Z.div_div, Hd by lia.
  rewrite Z.div_add_l, Z.div_small, Z.add_0_r by lia. split; [apply nonzero_b2z|]. split; [|split].
  - unfold w, iword. rewrite Z.add_comm, Z.mod_add, Z.mod_small by lia. done.
  - rewrite Z.add_comm, Z.mod_add, Z.mod_small by lia. done.
  - rewrite high_bits_clear by (unfold_words; lia). rewrite (proj2 (Z.ltb_lt _ _)) by lia. done.
Qed.

Lemma ival_nonneg ex fr : fields_ok s ex fr -> 0 <= ival s ex fr.
Proof.
  intros [He Hf]. unfold ival. pose proof (pow2_pos (Z.max ex 1 - B - F + UNIT)). destruct (sh_bias s Hs).
  pose proof (sh_fraction s Hs). unfold UNIT in *. destruct (ex =? 0); nia.
Qed.

(** Larger fields stand for larger values. *)
Lemma ival_lt ex fr ex' fr' :
  fields_ok s ex fr -> fields_ok s ex' fr' -> ex < ex' \/ ex = ex' /\ fr < fr' ->
  ival s ex fr < ival s ex' fr'.
Proof.
  intros [He Hf] [He' Hf'] Hlt. destruct pow_fields as (H1 & _). destruct (sh_bias s Hs) as [_ HB].
  pose proof (sh_fraction s Hs). unfold ival, UNIT.
  set (p := Z.max ex 1 - B - F + 40000). set (p' := Z.max ex' 1 - B - F + 40000).
  assert (0 < 2 ^ p) by (apply pow2_pos; lia).
  destruct Hlt as [Hlt|[<- Hlt]]; [|apply Z.mul_lt_mono_pos_r; [done|]; destruct (ex =? 0); lia].
  rewrite (proj2 (Z.eqb_neq ex' 0)) by lia. destruct (Z.eqb_spec ex 0) as [->|Hne].
  - assert (2 ^ p <= 2 ^ p') by (apply Z.pow_le_mono_r; lia). nia.
  - assert (2 ^ (p + 1) <= 2 ^ p') as Hp by (apply Z.pow_le_mono_r; lia). rewrite pow2_succ in Hp by lia. nia.
Qed.

Lemma ival_inj ex fr ex' fr' :
  fields_ok s ex fr -> fields_ok s ex' fr' -> ival s ex fr = ival s ex' fr' -> ex = ex' /\ fr = fr'.
Proof.
  intros H H' E. destruct (Z.lt_trichotomy ex ex') as [Hlt|[->|Hlt]].
  - pose proof (ival_lt _ _ _ _ H H' (or_introl Hlt)). lia.
  - split; [done|]. destruct (Z.lt_trichotomy fr fr') as [Hlt|[Heq|Hlt]]; [|done|].
    + pose proof (ival_lt _ _ _ _ H H' (or_intror (conj eq_refl Hlt))). lia.
    + pose proof (ival_lt _ _ _ _ H' H (or_intror (conj eq_refl Hlt))). lia.
  - pose proof (ival_lt _ _ _ _ H' H (or_introl Hlt)). lia.
Qed.

(** A finite value is a multiple of a power of two with at most [F + 1] bits. *)
Lemma ival_form ex fr :
  fields_ok s ex fr -> ex < 2 ^ E - 1 ->
  exists j p, 0 <= j < 2 ^ (F + 1) /\ 1 - B - F <= p <= B - F /\ ival s ex fr = j * 2 ^ (p + UNIT).
Proof.
  intros [He Hf] Hmax. destruct pow_fields as (H1 & _ & _ & _ & _ & HE). pose proof (sh_fraction s Hs).
  exists (fr + (if ex =? 0 then 0 else 2 ^ F)), (Z.max ex 1 - B - F).
  rewrite pow2_succ by lia. split; [destruct (ex =? 0); lia|]. destruct (sh_bias s Hs). split; [lia|done].
Qed.

(** ** Decoding *)

Lemma canonical_value_ok v :
  binary_typed v -> exponent v <= 32000 -> 0 < magnitude v ->
  exists c, canonical_value v = Ok c /\ units c = units v /\ canonical c /\ binary_typed c /\
    negative c = negative v /\ 0 < magnitude c.
Proof.
  intros Hv He Hpos. destruct (canonicalize_ok v Hv He) as (c & Hc & Hu & Hcan & Ht & Hsz).
  unfold canonical_value. rewrite Hc. exists c. split_and!; try done.
  - unfold canonicalize in Hc. unfold nonzero in Hc. rewrite (proj2 (Z.eqb_neq (magnitude v) 0)) in Hc by lia.
    simpl in Hc. by inv_ok.
  - destruct (magnitude_cases c Ht) as [Hz|]; [|done]. pose proof (size_pos v Hv Hpos).
    unfold size in Hsz at 1. rewrite Hz in Hsz. lia.
Qed.

Lemma lor_hidden fr : 0 <= fr < 2 ^ F -> Z.lor fr (Z.shiftl 1 F) = fr + 2 ^ F.
Proof.
  intros Hf. pose proof (sh_fraction s Hs). rewrite Z.shiftl_1_l, Z.lor_comm.
  rewrite <- (Z.mul_1_l (2 ^ F)) at 1. rewrite lor_low by lia. lia.
Qed.

(** Words with an exponent field below the largest are zeros and finite numbers. *)
Lemma idecode_finite f neg ex fr :
  shape f = Ok s -> fields_ok s ex fr -> ex < 2 ^ E - 1 ->
  exists v, canonical v /\ binary_typed v /\
    (ex = 0 /\ fr = 0 /\ v = mkBinary 0 0 false \/ negative v = neg /\ 0 < magnitude v) /\
    units v = sgn neg * ival s ex fr /\
    idecode f (iword s neg ex fr) =
      Ok (mkDecoded (if (ex =? 0) && (fr =? 0) then Category.zero else Category.finite) neg v 0 0).
Proof.
  intros Hsh Hok Hmax. destruct (iword_fields neg ex fr Hok) as (Hn & Hfr & Hex & Hhi). destruct Hok as [He Hf].
  pose proof (sh_fraction s Hs). pose proof (sh_exponent s Hs). destruct (sh_bias s Hs) as [_ HB].
  destruct pow_fields as (H1 & _ & _ & _ & _ & HE).
  unfold idecode. rewrite Hsh. simpl. rewrite Hhi, Hn, Hfr, Hex. rewrite (mask_pow E) by lia.
  rewrite (proj2 (Z.eqb_neq ex _)) by lia. fold (nonzero ex) (nonzero fr).
  destruct ((ex =? 0) && (fr =? 0)) eqn:Ez.
  - apply andb_true_iff in Ez as [->%Z.eqb_eq ->%Z.eqb_eq]. exists (mkBinary 0 0 false). simpl.
    split; [by left|]. split; [split; simpl; unfold_words; unfold INT16_MAX; lia|].
    split; [by left|]. split; [|done]. unfold units, size, ival. simpl. lia.
  - assert (nonzero ex || nonzero fr = true) as -> by (unfold nonzero; by rewrite <- negb_andb, Ez).
    set (raw := mkBinary (fr + (if ex =? 0 then 0 else 2 ^ F)) (Z.max ex 1 - B - F) neg).
    assert (mkBinary (Z.lor fr (if nonzero ex then Z.shiftl 1 F else 0))
      (int16 ((if nonzero ex then ex else 1) - B - F)) neg = raw) as ->.
    { unfold raw, nonzero. destruct (Z.eqb_spec ex 0); cbn [negb]; rewrite int16_small by (unfold INT16_MAX; lia);
        rewrite ?lor_hidden, ?Z.lor_0_r by lia; f_equal; lia. }
    assert (Hmag : 0 < magnitude raw < 2 ^ 64).
    { unfold raw. simpl. assert (2 ^ F <= 2 ^ 52) by (apply Z.pow_le_mono_r; lia).
      destruct (Z.eqb_spec ex 0), (Z.eqb_spec fr 0); simpl in Ez; try done; lia. }
    destruct (canonical_value_ok raw) as (c & -> & Hu & Hcan & Ht & Hng & Hp);
      [split; unfold INT16_MAX; [unfold_words; lia|simpl; lia]|simpl; lia|lia|].
    exists c. split; [done|]. split; [done|]. split; [by right|]. split; [|done]. done.
Qed.

(** Words with the largest exponent field are infinities and NaNs. *)
Lemma idecode_nonfinite f neg fr :
  shape f = Ok s -> 0 <= fr < 2 ^ F ->
  idecode f (iword s neg (2 ^ E - 1) fr) =
    Ok (if fr =? 0 then mkDecoded Category.infinity neg (mkBinary 0 0 false) 0 0
        else mkDecoded (if 2 ^ (F - 1) <=? fr then Category.quiet_nan else Category.signaling_nan) neg
               (mkBinary 0 0 false) (fr mod 2 ^ (F - 1)) (F - 1)).
Proof.
  intros Hsh Hf. destruct pow_fields as (H1 & H2 & _). pose proof (sh_fraction s Hs). pose proof (sh_exponent s Hs).
  destruct (iword_fields neg (2 ^ E - 1) fr) as (Hn & Hfr & Hex & Hhi); [split; lia|].
  unfold idecode. rewrite Hsh. simpl. rewrite Hhi, Hn, Hfr, Hex, (mask_pow E), Z.eqb_refl by lia.
  unfold nonzero at 1. destruct (fr =? 0); simpl; [done|].
  rewrite land_maskn by lia.
  change (nonzero (Z.land fr (Z.shiftl 1 (F - 1)))) with (bit_set fr (F - 1)).
  rewrite bit_set_testbit, top_bit by lia. done.
Qed.

Lemma irepresentable_form f x :
  shape f = Ok s -> irepresentable f x ->
  exists neg ex fr, fields_ok s ex fr /\ ex < 2 ^ E - 1 /\ x = sgn neg * ival s ex fr.
Proof.
  intros Hsh (w & d & Hw & Hd & Hcat & <-). destruct pow_fields as (H1 & H2 & _ & _ & H5 & _).
  assert (Hr : 0 <= w < 2 ^ width s).
  { pose proof Hd as Hd'. unfold idecode in Hd'. rewrite Hsh in Hd'. simpl in Hd'.
    destruct (sh_width s Hs) as [HW HW64]. pose proof (sh_fraction s Hs). pose proof (sh_exponent s Hs).
    rewrite high_bits_clear in Hd' by (done || lia).
    destruct (Z.ltb_spec w (2 ^ width s)); [unfold_words; lia|done]. }
  destruct (iword_split w Hr) as (neg & ex & fr & Hok & ->). exists neg, ex, fr. split; [done|].
  destruct (Z.eq_dec ex (2 ^ E - 1)) as [->|Hne].
  - exfalso. destruct Hok as [_ Hf]. rewrite (idecode_nonfinite f) in Hd by done. injection Hd as <-.
    destruct (fr =? 0); [by destruct Hcat|]. simpl in Hcat. destruct (_ <=? fr), Hcat; done.
  - assert (Hmax : ex < 2 ^ E - 1) by (destruct Hok; lia). split; [done|].
    destruct (idecode_finite f neg ex fr Hsh Hok Hmax) as (v & _ & _ & _ & Hu & Hdec).
    rewrite Hdec in Hd. injection Hd as <-. done.
Qed.

Lemma irepresentable_of f neg ex fr :
  shape f = Ok s -> fields_ok s ex fr -> ex < 2 ^ E - 1 -> irepresentable f (sgn neg * ival s ex fr).
Proof.
  intros Hsh Hok Hmax. destruct (idecode_finite f neg ex fr Hsh Hok Hmax) as (v & _ & _ & _ & Hu & Hdec).
  destruct pow_fields as (_ & _ & _ & _ & H5 & _). pose proof (iword_range neg ex fr Hok).
  eexists _, _. split; [|split; [exact Hdec|]]; [unfold_words; lia|]. simpl. split; [|done].
  destruct (_ && _); auto.
Qed.
End Shape.

(** ** Rounding *)

Lemma round_quantize v q mode :
  0 < magnitude v -> qoverflow (quantize v q mode) = false ->
  round v q mode = Ok (mkRounded (qmagnitude (quantize v q mode)) (residue (quantize v q mode))).
Proof.
  intros Hpos. unfold quantize, round.
  assert (nonzero (magnitude v) = true) as -> by (unfold nonzero; rewrite (proj2 (Z.eqb_neq _ _)); lia).
  cbn [negb]. destruct (0 <=? exponent v - q); cbn [qoverflow].
  - destruct (64 <=? exponent v - q); cbn [orb]; [done|]. by destruct (64 <? _).
  - set (inc := increments _ _ _ _ _). by destruct (inc && _).
Qed.

Lemma rnd_le mode neg X Q n : 0 < Q -> 0 <= X -> X <= n * Q -> rnd mode neg X Q <= n.
Proof.
  intros HQ HX Hn. destruct (rnd_cases mode neg X Q HQ HX) as (r & Hr & Hd & Hz & Hk & HK & _).
  pose proof (rnd_exact mode neg X Q HQ HX) as Hx. rewrite Hz in Hx.
  destruct (Z.eqb_spec r 0); [symmetry in Hx; apply Z.eqb_eq in Hx|]; nia.
Qed.

Lemma rnd_ge mode neg X Q n : 0 < Q -> 0 <= X -> n * Q <= X -> n <= rnd mode neg X Q.
Proof.
  intros HQ HX Hn. destruct (rnd_cases mode neg X Q HQ HX) as (r & Hr & Hd & _ & Hk & HK & _).
  assert (n < X / Q + 1) by nia. lia.
Qed.

Lemma round_rnd v q mode :
  binary_typed v -> 0 < magnitude v -> -33000 <= q <= 33000 -> size v <= 2 ^ 54 * 2 ^ (q + UNIT) ->
  let Q := 2 ^ (q + UNIT) in
  round v q mode = Ok (mkRounded (rnd mode (negative v) (size v) Q) (negb (size v mod Q =? 0))).
Proof.
  intros Hv Hpos Hq Hle Q. destruct (quantize_rnd v q mode Hv Hpos Hq) as [Hres Hof]. fold Q in Hres, Hof, Hle.
  assert (HQ : 0 < Q) by (apply pow2_pos; unfold UNIT; lia).
  pose proof (rnd_le mode (negative v) (size v) Q (2 ^ 54) HQ (size_nonneg v Hv) Hle).
  destruct (qoverflow _) eqn:Eo; [lia|]. rewrite round_quantize by done. by rewrite Hres, Hof.
Qed.

(** ** Encoding *)

Lemma ipolicy_mode p : ipolicy_valid p = true -> mode_valid (irounding p).
Proof.
  unfold ipolicy_valid, mode_valid, Rounding.nearest_ties_even, Rounding.toward_positive.
  rewrite !andb_true_iff, !Z.leb_le. lia.
Qed.

Section Encode.
Context (f : Z) (s : IShape) (Hsh : shape f = Ok s) (Hs : shape_ok s).
Context (p : Policy) (Hp : ipolicy_valid p = true).
Context (v : BinaryValue) (Hv : binary_typed v) (Hpos : 0 < magnitude v).
#[local] Abbreviation F := (fraction s).
#[local] Abbreviation E := (iexponent s).
#[local] Abbreviation B := (bias s).
#[local] Abbreviation X := (size v).

(** The position of the leading bit. *)
Definition leading : Z := exponent v + bit_width (magnitude v) - 1.

Lemma leading_bounds :
  -32768 <= leading /\ 2 ^ (leading + UNIT) <= X < 2 ^ (leading + 1 + UNIT) /\ 0 <= leading + UNIT.
Proof.
  destruct (size_bounds v Hv Hpos) as (H1 & H2 & _). unfold leading, UNIT in *.
  replace (exponent v + bit_width (magnitude v) - 1 + 40000)
    with (exponent v + bit_width (magnitude v) + 40000 - 1) by lia.
  replace (exponent v + bit_width (magnitude v) - 1 + 1 + 40000)
    with (exponent v + bit_width (magnitude v) + 40000) by lia. lia.
Qed.

(** The quantum of the result, its step in units, and the significand. *)
Definition scale : Z := Z.max leading (1 - B) - F.
Definition step : Z := 2 ^ (scale + UNIT).
Definition significand : Z := rnd (irounding p) (negative v) X step.
Definition is_exact : bool := X mod step =? 0.

(** Whether the value rounded to the precision of the format, with an unbounded exponent,
    is below the smallest normal number. *)
Definition precise : Z := 2 ^ (leading - F + UNIT).
Definition is_tiny : bool :=
  rnd (irounding p) (negative v) X precise * precise <? 2 ^ (1 - B + UNIT).

Context (Htop : leading <= B).

Lemma scale_bounds : -33000 <= scale <= 33000 /\ 0 < step /\ 1 - B - F <= scale <= B - F.
Proof.
  destruct leading_bounds as (H1 & _). pose proof (sh_fraction s Hs). destruct (sh_bias s Hs) as [_ HB].
  unfold step, scale. split; [lia|]. split; [apply pow2_pos; unfold UNIT; lia|lia].
Qed.

Lemma step_pow n : 0 <= n -> 2 ^ (scale + n + UNIT) = 2 ^ n * step.
Proof.
  intros Hn. destruct scale_bounds as (H1 & _). unfold step, UNIT. rewrite <- Z.pow_add_r by lia. f_equal. lia.
Qed.

Lemma significand_bounds :
  0 <= significand <= 2 ^ (F + 1) /\ X <= 2 ^ (F + 1) * step /\
  (1 - B <= leading -> 2 ^ F <= significand /\ 2 ^ F * step <= X) /\
  (leading < 1 - B -> significand <= 2 ^ F).
Proof.
  destruct leading_bounds as (Hl0 & [Hl1 Hl2] & Hl3), scale_bounds as (_ & Hst & _). pose proof (sh_fraction s Hs).
  pose proof (size_nonneg v Hv). assert (HX : X <= 2 ^ (F + 1) * step).
  { rewrite <- step_pow by lia. apply Z.lt_le_incl, (Z.lt_le_trans _ _ _ Hl2). apply Z.pow_le_mono_r; unfold scale; lia. }
  unfold significand. split; [split; [apply rnd_ge; lia|by apply rnd_le]|]. split; [done|]. split.
  - intros Hn. assert (2 ^ F * step <= X).
    { rewrite <- step_pow by lia. etrans; [|exact Hl1]. apply Z.pow_le_mono_r; unfold scale; lia. }
    split; [by apply rnd_ge|done].
  - intros Hn. apply rnd_le; try done. rewrite <- step_pow by lia.
    apply Z.lt_le_incl, (Z.lt_le_trans _ _ _ Hl2). apply Z.pow_le_mono_r; unfold scale; lia.
Qed.

Lemma round_scale :
  round v scale (irounding p) = Ok (mkRounded significand (negb is_exact)).
Proof.
  destruct scale_bounds as (Hb & Hst & _). pose proof (sh_fraction s Hs).
  destruct significand_bounds as (_ & HX & _). apply round_rnd; try done. fold step.
  etrans; [exact HX|]. apply Z.mul_le_mono_nonneg_r; [lia|]. apply Z.pow_le_mono_r; lia.
Qed.

Lemma round_precise :
  leading < 1 - B ->
  exists r, round v (leading - F) (irounding p) = Ok r /\
    (leading + b2z (integer r =? 2 ^ (F + 1)) <? 1 - B) = is_tiny.
Proof.
  intros Hlt. destruct leading_bounds as (Hl0 & [Hl1 Hl2] & Hl3). pose proof (sh_fraction s Hs).
  destruct (sh_bias s Hs) as [_ HB]. pose proof (size_nonneg v Hv).
  assert (HP : 0 < precise) by (apply pow2_pos; unfold UNIT in *; lia).
  assert (Hpp : forall n, 0 <= n -> 2 ^ (leading - F + n + UNIT) = 2 ^ n * precise).
  { intros n Hn. unfold precise, UNIT in *. rewrite <- Z.pow_add_r by lia. f_equal. lia. }
  assert (HXle : X < 2 ^ (F + 1) * precise).
  { rewrite <- Hpp by lia. replace (leading - F + (F + 1)) with (leading + 1) by lia. done. }
  assert (HXge : 2 ^ F * precise <= X).
  { rewrite <- Hpp by lia. replace (leading - F + F) with leading by lia. done. }
  eexists. split.
  { apply round_rnd; [done|done|lia|]. fold precise. apply Z.lt_le_incl, (Z.lt_le_trans _ _ _ HXle).
    apply Z.mul_le_mono_nonneg_r; [lia|]. apply Z.pow_le_mono_r; lia. }
  cbn [integer]. fold precise. unfold is_tiny. set (K := rnd _ _ _ precise).
  assert (2 ^ F <= K <= 2 ^ (F + 1)) by (split; [apply rnd_ge; lia|apply rnd_le; lia]).
  destruct (Z.eqb_spec K (2 ^ (F + 1))) as [->|Hne]; simpl.
  - rewrite <- Hpp by lia. replace (leading - F + (F + 1)) with (leading + 1) by lia.
    unfold UNIT in *.
    destruct (Z.ltb_spec (leading + 1) (1 - B)), (Z.ltb_spec (2 ^ (leading + 1 + 40000)) (2 ^ (1 - B + 40000))); try done.
    + assert (2 ^ (leading + 1 + 40000) < 2 ^ (1 - B + 40000)) by (apply Z.pow_lt_mono_r; lia). lia.
    + assert (2 ^ (1 - B + 40000) <= 2 ^ (leading + 1 + 40000)) by (apply Z.pow_le_mono_r; lia). lia.
  - rewrite Z.add_0_r, (proj2 (Z.ltb_lt _ _)) by lia. symmetry. apply Z.ltb_lt.
    assert (K * precise < 2 ^ (F + 1) * precise) by nia. rewrite <- Hpp in H2 by lia.
    replace (leading - F + (F + 1)) with (leading + 1) in H2 by lia.
    apply (Z.lt_le_trans _ _ _ H2). apply Z.pow_le_mono_r; unfold UNIT; lia.
Qed.

(** The word that is assembled for the significand stands for exactly its value. *)
Lemma encode_fields :
  significand <> 2 ^ (F + 1) \/ leading < B ->
  let '(sg, top) := if significand =? 2 ^ (F + 1) then (Z.shiftr significand 1, leading + 1)
                    else (significand, leading) in
  top <= B /\
  let ex := if 2 ^ F <=? sg then Z.max top (1 - B) + B else 0 in
  fields_ok s ex (sg mod 2 ^ F) /\ ex < 2 ^ E - 1 /\
  ival s ex (sg mod 2 ^ F) = significand * step.
Proof.
  intros Hno. destruct significand_bounds as (Hk & _ & Hn & Ht), (pow_fields s Hs) as (H1 & H2 & _ & _ & _ & HE).
  pose proof (sh_fraction s Hs) as HF. destruct (sh_bias s Hs) as [_ HB]. destruct scale_bounds as (_ & Hst & _).
  pose proof (pow2_succ F ltac:(lia)) as HF1. unfold fields_ok.
  destruct (Z.eqb_spec significand (2 ^ (F + 1))) as [EK|EK].
  - assert (1 - B <= leading) by (destruct (Z.le_gt_cases (1 - B) leading); [done|specialize (Ht ltac:(lia)); lia]).
    assert (Z.shiftr significand 1 = 2 ^ F) as ->.
    { rewrite Z.shiftr_div_pow2, EK, HF1 by lia. change (2 ^ 1) with 2. rewrite Z.mul_comm. apply Z.div_mul. lia. }
    rewrite Z.leb_refl, Z.mod_same by lia. split; [lia|]. split; [lia|]. split; [lia|].
    unfold ival. rewrite (proj2 (Z.eqb_neq _ _)) by lia. rewrite EK, HF1.
    replace (Z.max (Z.max (leading + 1) (1 - B) + B) 1 - B - F) with (scale + 1) by (unfold scale; lia).
    rewrite step_pow by lia. lia.
  - split; [lia|]. destruct (Z.leb_spec (2 ^ F) significand).
    + assert (significand mod 2 ^ F = significand - 2 ^ F) as ->
        by (symmetry; apply (Z.mod_unique_pos _ _ 1); lia).
      split; [lia|]. split; [lia|]. unfold ival. rewrite (proj2 (Z.eqb_neq _ _)) by lia.
      replace (Z.max (Z.max leading (1 - B) + B) 1 - B - F) with scale by (unfold scale; lia). fold step. lia.
    + assert (leading < 1 - B) by (destruct (Z.le_gt_cases (1 - B) leading); [specialize (Hn ltac:(lia))|]; lia).
      rewrite Z.mod_small by lia. split; [lia|]. split; [lia|]. unfold ival. simpl.
      replace (Z.max 0 1 - B - F) with scale by (unfold scale; lia). fold step. lia.
Qed.

Lemma sign_word neg : wrap64 (Z.shiftl (b2z neg) (width s - 1)) = b2z neg * 2 ^ E * 2 ^ F.
Proof.
  destruct (pow_fields s Hs) as (H1 & H2 & H3 & H4 & H5 & _). destruct (sh_width s Hs) as [HW _].
  pose proof (sh_fraction s Hs). pose proof (sh_exponent s Hs). pose proof (b2z_range neg).
  rewrite Z.shiftl_mul_pow2 by lia. replace (width s - 1) with (E + F) by lia. rewrite H3.
  rewrite wrap64_id by nia. lia.
Qed.

Lemma assemble neg ex fr :
  fields_ok s ex fr ->
  Z.lor (Z.lor (b2z neg * 2 ^ E * 2 ^ F) (wrap64 (Z.shiftl ex F))) fr = iword s neg ex fr.
Proof.
  intros [He Hf]. destruct (pow_fields s Hs) as (H1 & H2 & H3 & H4 & H5 & _).
  pose proof (sh_fraction s Hs). pose proof (sh_exponent s Hs). pose proof (b2z_range neg).
  rewrite Z.shiftl_mul_pow2, wrap64_id by (lia || nia).
  rewrite <- (Z.mul_assoc (b2z neg)), <- H3.
  replace (b2z neg * 2 ^ (E + F)) with (b2z neg * 2 ^ (E + F) + 0) by lia.
  rewrite lor_mid by (try apply pow2_pos; nia || lia). rewrite Z.add_0_r, H3.
  replace (b2z neg * (2 ^ E * 2 ^ F) + ex * 2 ^ F) with ((b2z neg * 2 ^ E + ex) * 2 ^ F) by lia.
  rewrite lor_low by lia. done.
Qed.

Lemma one_shl n : 0 <= n < 64 -> Z.shiftl 1 n = 2 ^ n.
Proof. intros. apply Z.shiftl_1_l. Qed.

(** What [encode_finite] does with a value whose leading bit is in range. *)
Lemma encode_finite_cases :
  if (significand =? 2 ^ (F + 1)) && (leading =? B) then encode_finite f v p = overflow s (negative v) p
  else if negb is_exact && (iprecision p =? Precision.exact_only)
  then encode_finite f v p = Err (error1 ErrorCode.invalid_argument)
  else exists ex fr, fields_ok s ex fr /\ ex < 2 ^ E - 1 /\ ival s ex fr = significand * step /\
    encode_finite f v p = Ok (mkConverted (iword s (negative v) ex fr)
      (mkFlags false (negb is_exact) false (negb is_exact && (leading <? 1 - B) && is_tiny) false)).
Proof.
  pose proof (sh_fraction s Hs) as HF. destruct (sh_bias s Hs) as [_ HB].
  assert (Henc : encode_finite f v p =
    let '(sg, top) := if significand =? 2 ^ (F + 1) then (Z.shiftr significand 1, leading + 1)
                      else (significand, leading) in
    if B <? top then overflow s (negative v) p else
    fail_if negb is_exact && (iprecision p =? Precision.exact_only) with error1 ErrorCode.invalid_argument ;;
    Ok (mkConverted
      (Z.lor (Z.lor (b2z (negative v) * 2 ^ E * 2 ^ F)
         (wrap64 (Z.shiftl (if 2 ^ F <=? sg then Z.max top (1 - B) + B else 0) F))) (sg mod 2 ^ F))
      (mkFlags false (negb is_exact) false (negb is_exact && ((leading <? 1 - B) && is_tiny)) false))).
  { unfold encode_finite. rewrite Hsh, Hp. cbn [rbind negb].
    assert (nonzero (magnitude v) = true) as -> by (unfold nonzero; rewrite (proj2 (Z.eqb_neq _ _)); lia).
    cbn [negb]. fold leading. rewrite (proj2 (Z.ltb_ge B leading)) by done.
    assert (Hmax : forall t, (if t <? 1 - B then 1 - B else t) = Z.max t (1 - B))
      by (intros t; destruct (Z.ltb_spec t (1 - B)); lia).
    rewrite sign_word, !one_shl, !Hmax by lia. fold scale. rewrite round_scale.
    assert ((if leading <? 1 - B then
       let? pr := round v (leading - F) (irounding p) in
       Ok (leading + b2z (integer pr =? 2 ^ (F + 1)) <? 1 - B)
       else Ok (leading <? 1 - B)) = Ok ((leading <? 1 - B) && is_tiny)) as ->.
    { destruct (Z.ltb_spec leading (1 - B)) as [Hlt|]; [|done].
      destruct (round_precise Hlt) as (r & -> & <-). done. }
    cbn [rbind integer rinexact]. destruct (significand =? 2 ^ (F + 1)); rewrite Hmax, land_maskn by lia; done. }
  rewrite Henc. destruct (significand =? 2 ^ (F + 1)) eqn:EK; cbn [andb].
  - destruct (Z.eqb_spec leading B) as [EB|EB]; [by rewrite (proj2 (Z.ltb_lt _ _)) by lia|].
    pose proof (encode_fields ltac:(right; lia)) as HE. rewrite EK in HE. destruct HE as (Hle & Hok & Hmx & Hival).
    rewrite (proj2 (Z.ltb_ge B _)) by lia. destruct (negb is_exact && _); [done|].
    eexists _, _. split; [exact Hok|]. split; [done|]. split; [done|]. by rewrite assemble, andb_assoc.
  - apply Z.eqb_neq in EK as EK'. pose proof (encode_fields ltac:(by left)) as HE. rewrite EK in HE.
    destruct HE as (Hle & Hok & Hmx & Hival).
    rewrite (proj2 (Z.ltb_ge B _)) by lia. destruct (negb is_exact && _); [done|].
    eexists _, _. split; [exact Hok|]. split; [done|]. split; [done|]. by rewrite assemble, andb_assoc.
Qed.
End Encode.

Section Best.
Context (f : Z) (s : IShape) (Hsh : shape f = Ok s).
Let Hs : shape_ok s := shape_Ok f s Hsh.
#[local] Abbreviation F := (fraction s).
#[local] Abbreviation E := (iexponent s).
#[local] Abbreviation B := (bias s).

Lemma irepresentable_zero : irepresentable f 0.
Proof.
  destruct (pow_fields s Hs) as (H1 & H2 & _).
  replace 0 with (sgn false * ival s 0 0) by (unfold ival; simpl; lia).
  apply (irepresentable_of s Hs); [done|split; lia|lia].
Qed.

Lemma irepresentable_sign z neg :
  irepresentable f z -> 0 <= sgn neg * z ->
  exists ex fr, fields_ok s ex fr /\ ex < 2 ^ E - 1 /\ sgn neg * z = ival s ex fr.
Proof.
  intros (n & ex & fr & Hok & Hmx & ->)%(irepresentable_form s Hs f z Hsh) Hz.
  pose proof (ival_nonneg s Hs ex fr Hok) as H0. destruct (Bool.bool_dec n neg) as [->|Hne].
  - exists ex, fr. split_and!; try done. unfold sgn. destruct neg; lia.
  - assert (ival s ex fr = 0) as E0 by (unfold sgn in Hz; destruct n, neg; done || lia).
    destruct (pow_fields s Hs) as (H1 & H2 & _). exists 0, 0. split; [split; lia|]. split; [lia|].
    rewrite E0. unfold ival. simpl. lia.
Qed.

(** The largest finite value. *)
Lemma ival_max ex fr : fields_ok s ex fr -> ex < 2 ^ E - 1 -> ival s ex fr <= (2 ^ (F + 1) - 1) * 2 ^ (B - F + UNIT).
Proof.
  intros Hok Hmx. destruct (ival_form s Hs ex fr Hok Hmx) as (j & p & Hj & Hp & ->).
  pose proof (sh_fraction s Hs). destruct (sh_bias s Hs) as [_ HB]. unfold UNIT.
  pose proof (pow2_pos (p + 40000)). apply Z.mul_le_mono_nonneg; [lia|lia|lia|]. apply Z.pow_le_mono_r; lia.
Qed.

Context (p : Policy) (Hp : ipolicy_valid p = true).
Context (v : BinaryValue) (Hv : binary_typed v) (Hpos : 0 < magnitude v).

Lemma ieee_best z :
  leading v <= B -> irepresentable f z -> 0 <= sgn (negative v) * z ->
  better (direction_of (irounding p) (negative v)) (size v)
    (significand s p v * step s v) (sgn (negative v) * z).
Proof.
  intros Htop Hz Hsg. destruct (scale_bounds s Hs v Hv Hpos Htop) as (_ & Hst & Hsc).
  pose proof (sh_fraction s Hs) as HF. pose proof (size_nonneg v Hv).
  destruct (irepresentable_sign z _ Hz Hsg) as (ex & fr & Hok & Hmx & ->).
  destruct (ival_form s Hs ex fr Hok Hmx) as (j & q & Hj & Hq & ->).
  destruct (Z.le_gt_cases (scale s v) q) as [Hle|Hlt].
  - replace (j * 2 ^ (q + UNIT)) with (j * 2 ^ (q - scale s v) * step s v).
    + by apply rnd_best_multiple.
    + replace q with (scale s v + (q - scale s v)) at 2 by lia. rewrite (step_pow s Hs v Hv Hpos Htop) by lia. lia.
  - assert (Hnorm : 1 - B <= leading v) by (unfold scale in Hlt; lia).
    destruct (significand_bounds s Hs p v Hv Hpos Htop) as (_ & _ & Hn & _). destruct (Hn Hnorm) as [_ HX].
    apply (better_trans _ _ _ (2 ^ F * step s v)); [by apply rnd_best_multiple| |done].
    assert (2 ^ (q + 1 + UNIT) <= step s v) as Hpw by (apply Z.pow_le_mono_r; lia).
    replace (q + 1 + UNIT) with (q + UNIT + 1) in Hpw by lia. unfold UNIT in *.
    pose proof (sh_bias s Hs) as [_ HB]. rewrite pow2_succ in Hpw, Hj by lia.
    pose proof (pow2_pos (q + 40000) ltac:(lia)). pose proof (pow2_pos F ltac:(lia)). nia.
Qed.

(** Between finite values of the format nothing overflows. *)
Lemma ieee_in_range lo hi :
  irepresentable f lo -> irepresentable f hi -> lo <= units v <= hi ->
  leading v <= B /\ (significand s p v =? 2 ^ (F + 1)) && (leading v =? B) = false.
Proof.
  intros Hlo Hhi Hb. pose proof (sh_fraction s Hs) as HF. destruct (sh_bias s Hs) as [_ HB].
  assert (HX : size v <= (2 ^ (F + 1) - 1) * 2 ^ (B - F + UNIT)).
  { unfold units in Hb. destruct (negative v); unfold sgn in Hb.
    - destruct (irepresentable_sign lo true Hlo) as (ex & fr & Hok & Hmx & Heq).
      { unfold sgn. pose proof (size_nonneg v Hv). lia. }
      pose proof (ival_max ex fr Hok Hmx). unfold sgn in Heq. lia.
    - destruct (irepresentable_sign hi false Hhi) as (ex & fr & Hok & Hmx & Heq).
      { unfold sgn. pose proof (size_nonneg v Hv). lia. }
      pose proof (ival_max ex fr Hok Hmx). unfold sgn in Heq. lia. }
  destruct (leading_bounds v Hv Hpos) as (Hl0 & [Hl1 Hl2] & Hl3).
  assert (Hle : leading v <= B).
  { destruct (Z.le_gt_cases (leading v) B) as [|Hgt]; [done|]. exfalso.
    assert (2 ^ (B + 1 + UNIT) <= 2 ^ (leading v + UNIT)) by (apply Z.pow_le_mono_r; lia).
    assert (2 ^ (B + 1 + UNIT) = 2 ^ (F + 1) * 2 ^ (B - F + UNIT))
      by (unfold UNIT; rewrite <- Z.pow_add_r by lia; f_equal; lia).
    pose proof (pow2_pos (B - F + UNIT) ltac:(unfold UNIT; lia)). lia. }
  split; [done|]. apply andb_false_iff. destruct (Z.eqb_spec (leading v) B) as [EB|]; [left|by right].
  apply Z.eqb_neq. unfold significand, step, scale. rewrite EB, Z.max_l by lia.
  pose proof (rnd_le (irounding p) (negative v) (size v) _ _ (pow2_pos (B - F + UNIT) ltac:(unfold UNIT; lia))
    (size_nonneg v Hv) HX). lia.
Qed.
End Best.

(** ** The theorems *)

Lemma encode_signed_zero f s v p :
  shape f = Ok s -> shape_ok s -> ipolicy_valid p = true -> magnitude v = 0 ->
  encode_finite f v p = Ok (mkConverted (iword s (negative v) 0 0) no_flags).
Proof.
  intros Hsh Hs Hp Hz. unfold encode_finite. rewrite Hsh, Hp, Hz. simpl.
  rewrite (sign_word s Hs). unfold iword. do 2 f_equal. lia.
Qed.

(** C20. Under a policy that allows rounding, a value between two finite values of a format is
    encoded as its correct rounding, to the even one of two equally near values in the mode
    [nearest_ties_even], with its sign even when it becomes zero; the inexact flag says
    whether it changed. *)
Theorem ieee_rounds_correctly f v p lo hi :
  binary_typed v -> ipolicy_valid p = true -> iprecision p = Precision.allow_rounding ->
  irepresentable f lo -> irepresentable f hi -> lo <= units v <= hi ->
  exists c d, encode_finite f v p = Ok c /\ idecode f (cbits c) = Ok d /\
    dnegative d = negative v /\ (category d = Category.zero \/ category d = Category.finite) /\
    inexact (cflags c) = negb (units (finite d) =? units v) /\ foverflow (cflags c) = false /\
    rounds_to (irounding p) (irepresentable f) (units v) (units (finite d)).
Proof.
  intros Hv Hp Hprec Hlo Hhi Hb.
  assert (exists s, shape f = Ok s) as [s Hsh].
  { destruct Hlo as (w & d & _ & Hd & _). unfold idecode in Hd. destruct (shape f); [eauto|done..]. }
  pose proof (shape_Ok f s Hsh) as Hs. destruct (pow_fields s Hs) as (H1 & H2 & _).
  pose proof (ipolicy_mode p Hp) as Hmode.
  destruct (magnitude_cases v Hv) as [Hz|Hpos].
  - destruct (idecode_finite s Hs f (negative v) 0 0 Hsh) as (u & _ & _ & _ & Hu & Hd); [split; lia|lia|].
    assert (Hu0 : units u = 0) by (rewrite Hu; unfold ival; simpl; lia).
    eexists _, _. split; [by apply encode_signed_zero|]. split; [exact Hd|]. simpl.
    rewrite Hu0, (units_zero v Hz). split_and!; try done; [by left|].
    apply rounds_self; [done|]. by eapply irepresentable_zero.
  - destruct (ieee_in_range f s Hsh p v Hv Hpos lo hi Hlo Hhi Hb) as [Htop Hno].
    pose proof (encode_finite_cases f s Hsh Hs p Hp v Hv Hpos Htop) as HE. rewrite Hno in HE.
    rewrite Hprec, andb_false_r in HE. destruct HE as (ex & fr & Hok & Hmx & Hival & Henc).
    destruct (idecode_finite s Hs f (negative v) ex fr Hsh Hok Hmx) as (u & _ & _ & _ & Hu & Hd).
    eexists _, _. split; [exact Henc|]. split; [exact Hd|]. cbn [dnegative category finite cflags inexact foverflow].
    destruct (scale_bounds s Hs v Hv Hpos Htop) as (_ & Hst & _). pose proof (size_nonneg v Hv) as HX.
    assert (Hu' : units u = sgn (negative v) * (significand s p v * step s v)) by (by rewrite Hu, Hival).
    destruct (significand_bounds s Hs p v Hv Hpos Htop) as (Hk & _).
    split; [done|]. split; [destruct ((ex =? 0) && (fr =? 0)); [by left|by right]|]. split; [|split; [done|]].
    + rewrite Hu'. unfold is_exact. rewrite (rnd_exact (irounding p) (negative v)) by done.
      fold (significand s p v). unfold units. f_equal. unfold sgn.
      destruct (negative v); repeat bdestruct_step; done || lia.
    + rewrite Hu'. apply better_rounds; [by eapply irepresentable_zero|done|by apply size_pos|nia| |].
      * rewrite <- Hival. by apply (irepresentable_of s Hs).
      * intros z Hz Hzs. by apply (ieee_best f s Hsh).
Qed.

(** Encoding a value that the format has is exact under every policy. *)
Lemma encode_finite_exact f s p v ex fr :
  shape f = Ok s -> ipolicy_valid p = true -> binary_typed v -> 0 < magnitude v ->
  fields_ok s ex fr -> ex < 2 ^ iexponent s - 1 -> size v = ival s ex fr ->
  encode_finite f v p = Ok (mkConverted (iword s (negative v) ex fr) no_flags).
Proof.
  intros Hsh Hp Hv Hpos Hok Hmx Hsz. pose proof (shape_Ok f s Hsh) as Hs.
  assert (HR : irepresentable f (units v)).
  { unfold units. rewrite Hsz. by apply (irepresentable_of s Hs). }
  destruct (ieee_in_range f s Hsh p v Hv Hpos _ _ HR HR ltac:(lia)) as [Htop Hno].
  pose proof (encode_finite_cases f s Hsh Hs p Hp v Hv Hpos Htop) as HE. rewrite Hno in HE.
  destruct (scale_bounds s Hs v Hv Hpos Htop) as (_ & Hst & _). pose proof (size_nonneg v Hv) as HX.
  assert (Hex : significand s p v * step s v = size v).
  { pose proof (ieee_best f s Hsh p v Hv Hpos (units v) Htop HR) as HB. unfold units in HB.
    assert (sgn (negative v) * (sgn (negative v) * size v) = size v) as Heq by (unfold sgn; destruct (negative v); lia).
    rewrite Heq in HB. specialize (HB HX). unfold better in HB. destruct (direction_of _ _); lia. }
  assert (is_exact s v = true) as Hie.
  { unfold is_exact. rewrite (rnd_exact (irounding p) (negative v)) by done. apply Z.eqb_eq. exact Hex. }
  rewrite Hie in HE. cbn [negb andb] in HE. destruct HE as (ex' & fr' & Hok' & Hmx' & Hiv & ->).
  rewrite Hex, Hsz in Hiv. destruct (ival_inj s Hs _ _ _ _ Hok' Hok Hiv) as [-> ->]. done.
Qed.

(** A value with few enough bits, above the smallest quantum, is encoded exactly. *)
Lemma encode_form f s p v j q :
  shape f = Ok s -> ipolicy_valid p = true -> binary_typed v -> 0 < magnitude v ->
  0 <= j < 2 ^ (fraction s + 1) -> 1 - bias s - fraction s <= q <= bias s - fraction s ->
  size v = j * 2 ^ (q + UNIT) ->
  exists ex fr, fields_ok s ex fr /\ ex < 2 ^ iexponent s - 1 /\ ival s ex fr = size v /\
    encode_finite f v p = Ok (mkConverted (iword s (negative v) ex fr) no_flags).
Proof.
  intros Hsh Hp Hv Hpos Hj Hq Hsz. pose proof (shape_Ok f s Hsh) as Hs. pose proof (sh_fraction s Hs) as HF.
  destruct (sh_bias s Hs) as [_ HB]. destruct (leading_bounds v Hv Hpos) as (Hl0 & [Hl1 Hl2] & Hl3).
  assert (Hlead : leading v <= q + fraction s).
  { destruct (Z.le_gt_cases (leading v) (q + fraction s)) as [|Hgt]; [done|]. exfalso.
    assert (2 ^ (fraction s + 1) * 2 ^ (q + UNIT) <= 2 ^ (leading v + UNIT)) as Hle.
    { unfold UNIT in *. rewrite <- Z.pow_add_r by lia. apply Z.pow_le_mono_r; lia. }
    pose proof (pow2_pos (q + UNIT) ltac:(unfold UNIT; lia)). nia. }
  assert (Htop : leading v <= bias s) by lia.
  destruct (scale_bounds s Hs v Hv Hpos Htop) as (_ & Hst & _). pose proof (size_nonneg v Hv) as HX.
  assert (Hscale : scale s v <= q) by (unfold scale; lia).
  assert (Hmul : size v = j * 2 ^ (q - scale s v) * step s v).
  { rewrite Hsz, <- Z.mul_assoc, <- (step_pow s Hs v Hv Hpos Htop) by lia. f_equal. f_equal. lia. }
  assert (Hie : is_exact s v = true) by (unfold is_exact; rewrite Hmul, Z.mod_mul by lia; done).
  assert (Hex : significand s p v * step s v = size v).
  { apply Z.eqb_eq. unfold significand. rewrite <- (rnd_exact (irounding p)) by done. exact Hie. }
  pose proof (encode_finite_cases f s Hsh Hs p Hp v Hv Hpos Htop) as HE.
  assert ((significand s p v =? 2 ^ (fraction s + 1)) && (leading v =? bias s) = false) as Hno.
  { destruct (Z.eqb_spec (leading v) (bias s)) as [EB|]; [|apply andb_false_r]. rewrite andb_true_r. apply Z.eqb_neq.
    intros EK. rewrite EK, <- (step_pow s Hs v Hv Hpos Htop) in Hex by lia. unfold scale in Hex.
    rewrite EB, Z.max_l in Hex by lia. replace (bias s - fraction s + (fraction s + 1)) with (leading v + 1) in Hex by lia.
    lia. }
  rewrite Hno, Hie in HE. cbn [negb andb] in HE. destruct HE as (ex & fr & Hok & Hmx & Hiv & HE).
  exists ex, fr. rewrite Hiv, Hex. split_and!; done.
Qed.

(** Every word that decodes has its three fields. *)
Lemma idecode_fields f s w d :
  shape f = Ok s -> u64 w -> idecode f w = Ok d ->
  exists neg ex fr, fields_ok s ex fr /\ w = iword s neg ex fr.
Proof.
  intros Hsh Hw Hd. pose proof (shape_Ok f s Hsh) as Hs. apply (iword_split s Hs).
  unfold idecode in Hd. rewrite Hsh in Hd. simpl in Hd. destruct (sh_width s Hs) as [HW HW64].
  pose proof (sh_fraction s Hs). pose proof (sh_exponent s Hs). rewrite high_bits_clear in Hd by (done || lia).
  destruct (Z.ltb_spec w (2 ^ width s)); [unfold_words; lia|done].
Qed.

Lemma inf_word s : shape_ok s ->
  wrap64 (Z.shiftl (mask (iexponent s)) (fraction s)) = (2 ^ iexponent s - 1) * 2 ^ fraction s.
Proof.
  intros Hs. destruct (pow_fields s Hs) as (H1 & H2 & H3 & H4 & H5 & _).
  pose proof (sh_fraction s Hs). pose proof (sh_exponent s Hs).
  rewrite mask_pow, Z.shiftl_mul_pow2 by lia. apply wrap64_id. nia.
Qed.

Lemma sign_inf s neg : shape_ok s ->
  Z.lor (b2z neg * 2 ^ iexponent s * 2 ^ fraction s) ((2 ^ iexponent s - 1) * 2 ^ fraction s)
    = iword s neg (2 ^ iexponent s - 1) 0.
Proof.
  intros Hs. destruct (pow_fields s Hs) as (H1 & H2 & H3 & H4 & H5 & _).
  rewrite <- (assemble s Hs) by (split; lia). rewrite Z.lor_0_r. f_equal.
  rewrite Z.shiftl_mul_pow2 by (pose proof (sh_fraction s Hs); lia). symmetry. apply wrap64_id. nia.
Qed.

(** A wider format holds all the values of a narrower one. *)
Lemma wider f g s s' : shape f = Ok s -> shape g = Ok s' -> 0 <= f <= g ->
  fraction s <= fraction s' /\ bias s <= bias s' /\ fraction s' - fraction s <= bias s' - bias s.
Proof.
  unfold shape, Format.binary16, Format.binary32, Format.binary64. intros H H' Hle.
  destruct (Z.eqb_spec f 0), (Z.eqb_spec g 0), (Z.eqb_spec f 1), (Z.eqb_spec g 1), (Z.eqb_spec f 2), (Z.eqb_spec g 2);
    try done; try lia; injection H as <-; injection H' as <-; simpl; lia.
Qed.

(** The two cases of a zero or finite word. *)
Lemma finite_cases s neg ex fr v :
  shape_ok s -> fields_ok s ex fr -> binary_typed v ->
  (ex = 0 /\ fr = 0 /\ v = mkBinary 0 0 false \/ negative v = neg /\ 0 < magnitude v) ->
  units v = sgn neg * ival s ex fr ->
  ex = 0 /\ fr = 0 /\ v = mkBinary 0 0 false \/
  negative v = neg /\ 0 < magnitude v /\ size v = ival s ex fr /\ (ex =? 0) && (fr =? 0) = false.
Proof.
  intros Hs Hok Hty [?|[Hng Hpos]] Hu; [by left|right].
  pose proof (size_pos v Hty Hpos) as HX. unfold units in Hu. rewrite Hng in Hu.
  assert (Hsz : size v = ival s ex fr) by (destruct neg; unfold sgn in Hu; lia).
  split_and!; try done. apply not_true_iff_false. intros [->%Z.eqb_eq ->%Z.eqb_eq]%andb_true_iff.
  unfold ival in Hsz. simpl in Hsz. lia.
Qed.

Lemma idecode_of_value g s v ex fr :
  shape g = Ok s -> fields_ok s ex fr -> ex < 2 ^ iexponent s - 1 -> binary_typed v -> canonical v ->
  0 < magnitude v -> ival s ex fr = size v ->
  idecode g (iword s (negative v) ex fr) = Ok (mkDecoded Category.finite (negative v) v 0 0).
Proof.
  intros Hsh Hok Hmx Hty Hcan Hpos Hiv. pose proof (shape_Ok g s Hsh) as Hs. pose proof (size_pos v Hty Hpos).
  destruct (idecode_finite s Hs g (negative v) ex fr Hsh Hok Hmx) as (u & Hcu & Htu & Hc & Hu & ->).
  assert (Hvu : units u = units v) by (rewrite Hu, Hiv; done).
  pose proof (canonical_unique u v Htu Hty Hcu Hcan Hvu) as ->.
  destruct (finite_cases s (negative v) ex fr v Hs Hok Hty Hc Hu) as [(_ & _ & E)|(_ & _ & _ & ->)]; [|done].
  rewrite E in Hpos. simpl in Hpos. lia.
Qed.

(** Converting a zero, a finite number or an infinity to the same or a wider format keeps
    it exactly, under every policy and without raising a flag: the result decodes to the same
    description, sign included. *)
Theorem ieee_widening_exact f g w d p :
  0 <= f <= g -> g <= 2 -> u64 w -> ipolicy_valid p = true -> idecode f w = Ok d ->
  (category d = Category.zero \/ category d = Category.finite \/
   category d = Category.infinity /\ nonfinite p = NonFinite.propagate) ->
  exists c, convert f w g p = Ok c /\ cflags c = no_flags /\ idecode g (cbits c) = Ok d.
Proof.
  intros Hfg Hg Hw Hp Hd Hcat.
  assert (exists s, shape f = Ok s) as [s Hsh] by (unfold idecode in Hd; destruct (shape f); [eauto|done..]).
  assert (exists s', shape g = Ok s') as [s' Hsh'].
  { unfold shape, Format.binary16, Format.binary32, Format.binary64.
    destruct (Z.eqb_spec g 0), (Z.eqb_spec g 1), (Z.eqb_spec g 2); eauto; lia. }
  pose proof (shape_Ok f s Hsh) as Hs. pose proof (shape_Ok g s' Hsh') as Hs'.
  destruct (pow_fields s Hs) as (P1 & P2 & _), (pow_fields s' Hs') as (P1' & P2' & _).
  unfold convert. rewrite Hp, Hd, Hsh'. cbn [negb rbind].
  destruct (idecode_fields f s w d Hsh Hw Hd) as (neg & ex & fr & Hok & ->).
  destruct (Z.eq_dec ex (2 ^ iexponent s - 1)) as [->|Hne].
  - destruct Hok as [_ Hf]. rewrite (idecode_nonfinite s Hs) in Hd by done. injection Hd as <-.
    destruct (fr =? 0); simpl in Hcat |- *;
      [|exfalso; destruct (_ <=? fr); destruct Hcat as [|[|[]]]; done].
    destruct Hcat as [|[|[_ Hprop]]]; try done. rewrite Hprop. simpl.
    rewrite (sign_word s' Hs'), (inf_word s' Hs'), (sign_inf s' neg Hs').
    eexists. split; [done|]. split; [done|]. simpl. by rewrite (idecode_nonfinite s' Hs') by (done || lia).
  - assert (Hmx : ex < 2 ^ iexponent s - 1) by (destruct Hok; lia).
    destruct (idecode_finite s Hs f neg ex fr Hsh Hok Hmx) as (v & Hcan & Hty & Hcase & Hu & Hdec).
    rewrite Hdec in Hd. injection Hd as <-. cbn [category dnegative finite].
    destruct (finite_cases s neg ex fr v Hs Hok Hty Hcase Hu) as [(-> & -> & ->)|(Hng & Hpos & Hsz & ->)].
    + simpl. rewrite (encode_signed_zero g s') by done. eexists. split; [done|]. split; [done|]. simpl.
      destruct (idecode_finite s' Hs' g neg 0 0 Hsh') as (u & Hcu & Htu & Hc & Hu' & ->); [split; lia|lia|].
      destruct (finite_cases s' neg 0 0 u Hs' ltac:(split; lia) Htu Hc Hu') as [(_ & _ & ->)|(_ & _ & _ & ?)]; done.
    + destruct (ival_form s Hs ex fr Hok Hmx) as (j & q & Hj & Hq & Hform).
      destruct (wider f g s s' Hsh Hsh' Hfg) as (W1 & W2 & W3). pose proof (sh_fraction s Hs).
      assert (2 ^ (fraction s + 1) <= 2 ^ (fraction s' + 1)) by (apply Z.pow_le_mono_r; lia).
      destruct (encode_form g s' p v j q Hsh' Hp Hty Hpos) as (ex' & fr' & Hok' & Hmx' & Hiv' & ->);
        [lia|lia|congruence|]. eexists. split; [done|]. split; [done|]. subst neg.
      by apply idecode_of_value.
Qed.

Lemma quieted s neg fr :
  shape_ok s -> 0 <= fr < 2 ^ fraction s ->
  Z.lor (Z.lor (iword s neg (2 ^ iexponent s - 1) 0) (Z.shiftl 1 (fraction s - 1))) (fr mod 2 ^ (fraction s - 1))
    = Z.lor (iword s neg (2 ^ iexponent s - 1) fr) (Z.shiftl 1 (fraction s - 1)).
Proof.
  intros Hs Hf. pose proof (sh_fraction s Hs) as HF. set (h := fraction s - 1).
  pose proof (pow2_succ h ltac:(lia)) as Hp. replace (h + 1) with (fraction s) in Hp by (unfold h; lia).
  pose proof (pow2_pos h ltac:(lia)) as Hh. unfold iword. set (W := b2z neg * 2 ^ iexponent s + _).
  rewrite Z.shiftl_1_l, Z.add_0_r. rewrite <- (lor_low W fr (fraction s)) by lia.
  rewrite <- !Z.lor_assoc. f_equal.
  assert (Hm : fr = Z.lor (b2z (2 ^ h <=? fr) * 2 ^ h) (fr mod 2 ^ h)).
  { pose proof (Z.mod_pos_bound fr (2 ^ h) Hh). rewrite lor_low by lia.
    destruct (Z.leb_spec (2 ^ h) fr); simpl; [|rewrite Z.mod_small; lia].
    pose proof (Z.mod_unique_pos fr (2 ^ h) 1 (fr - 2 ^ h)). lia. }
  destruct (2 ^ h <=? fr); cbn [b2z] in Hm; rewrite ?Z.mul_1_l, ?Z.mul_0_l, ?Z.lor_0_l in Hm; rewrite Hm at 2;
    [|apply Z.lor_comm].
  by rewrite <- Z.lor_assoc, (Z.lor_comm (fr mod 2 ^ h)), Z.lor_assoc, Z.lor_diag.
Qed.

(** A NaN converted to its own format keeps its sign and payload and becomes quiet. *)
Lemma convert_nan_same s neg fr c p :
  shape_ok s -> 0 <= fr < 2 ^ fraction s -> payload_policy p <> NaNPayload.canonical ->
  convert_nan (mkDecoded c neg (mkBinary 0 0 false) (fr mod 2 ^ (fraction s - 1)) (fraction s - 1)) s p
    = Ok (mkConverted (Z.lor (iword s neg (2 ^ iexponent s - 1) fr) (Z.shiftl 1 (fraction s - 1)))
        (mkFlags (bool_decide (c = Category.signaling_nan)) false false false false)).
Proof.
  intros Hs Hf Hpl. pose proof (sh_fraction s Hs) as HF.
  unfold convert_nan. cbn [payload payload_bits dnegative category].
  rewrite (proj2 (Z.eqb_neq (payload_policy p) _)), Z.ltb_irrefl, Z.sub_diag by done. cbn [andb].
  rewrite (sign_word s Hs), (inf_word s Hs), (sign_inf s neg Hs). do 2 f_equal.
  rewrite <- (quieted s neg fr Hs Hf). f_equal. rewrite Z.shiftl_0_r. apply wrap64_id.
  pose proof (pow2_pos (fraction s - 1) ltac:(lia)). pose proof (pow2_lt64 (fraction s - 1) ltac:(lia)).
  pose proof (Z.mod_pos_bound fr (2 ^ (fraction s - 1)) ltac:(lia)). lia.
Qed.

(** A fraction with the quiet bit is not changed by setting it. *)
Lemma quiet_already s neg fr :
  shape_ok s -> 2 ^ (fraction s - 1) <= fr < 2 ^ fraction s ->
  Z.lor (iword s neg (2 ^ iexponent s - 1) fr) (Z.shiftl 1 (fraction s - 1)) = iword s neg (2 ^ iexponent s - 1) fr.
Proof.
  intros Hs Hf. pose proof (sh_fraction s Hs) as HF. pose proof (pow2_pos (fraction s - 1) ltac:(lia)).
  rewrite <- (quieted s neg fr Hs ltac:(lia)).
  pose proof (pow2_succ (fraction s - 1) ltac:(lia)) as Hpw. replace (fraction s - 1 + 1) with (fraction s) in Hpw by lia.
  assert (Hm : fr mod 2 ^ (fraction s - 1) = fr - 2 ^ (fraction s - 1))
    by (symmetry; apply (Z.mod_unique_pos _ _ 1); lia).
  rewrite Hm, <- Z.lor_assoc, Z.shiftl_1_l. rewrite <- (Z.mul_1_l (2 ^ (fraction s - 1))) at 1.
  rewrite (lor_low 1) by lia. unfold iword. rewrite Z.add_0_r, lor_low by lia. lia.
Qed.

(** Converting a word to its own format gives it back; only a signaling NaN is changed,
    to the quiet one with the same payload, and reported as invalid. *)
Theorem ieee_convert_identity f s w d p :
  shape f = Ok s -> u64 w -> ipolicy_valid p = true -> nonfinite p = NonFinite.propagate ->
  payload_policy p <> NaNPayload.canonical -> idecode f w = Ok d ->
  convert f w f p = Ok (if decide (category d = Category.signaling_nan)
    then mkConverted (Z.lor w (Z.shiftl 1 (fraction s - 1))) (mkFlags true false false false false)
    else mkConverted w no_flags).
Proof.
  intros Hsh Hw Hp Hprop Hpl Hd. pose proof (shape_Ok f s Hsh) as Hs.
  destruct (pow_fields s Hs) as (P1 & P2 & _). pose proof (sh_fraction s Hs) as HF.
  unfold convert. rewrite Hp, Hd, Hsh, Hprop. cbn [negb rbind].
  destruct (idecode_fields f s w d Hsh Hw Hd) as (neg & ex & fr & Hok & ->).
  destruct (Z.eq_dec ex (2 ^ iexponent s - 1)) as [->|Hne].
  - destruct Hok as [_ Hf]. rewrite (idecode_nonfinite s Hs) in Hd by done. injection Hd as <-.
    destruct (Z.eqb_spec fr 0) as [->|Hfr]; cbn [category dnegative].
    { simpl. by rewrite (sign_word s Hs), (inf_word s Hs), (sign_inf s neg Hs). }
    pose proof (convert_nan_same s neg fr) as Hnan.
    destruct (Z.leb_spec (2 ^ (fraction s - 1)) fr) as [Hge|Hlt]; cbn -[Z.lor Z.shiftl Z.pow convert_nan iword];
      rewrite Hnan by done; [by rewrite (quiet_already s neg fr Hs (conj Hge (proj2 Hf)))|done].
  - assert (Hmx : ex < 2 ^ iexponent s - 1) by (destruct Hok; lia).
    destruct (idecode_finite s Hs f neg ex fr Hsh Hok Hmx) as (v & Hcan & Hty & Hcase & Hu & Hdec).
    rewrite Hdec in Hd. injection Hd as <-. cbn [category dnegative finite].
    destruct (finite_cases s neg ex fr v Hs Hok Hty Hcase Hu) as [(-> & -> & ->)|(Hng & Hpos & Hsz & ->)].
    + simpl. by rewrite (encode_signed_zero f s).
    + simpl. subst neg. by apply encode_finite_exact.
Qed.

(** ** Witnesses *)

Definition ex_ieee : Policy :=
  mkIPolicy Precision.allow_rounding Rounding.nearest_ties_even IOverflow.ieee_result
    NonFinite.propagate NaNPayload.preserve_high.

(** One tenth, as binary32 rounds it, in binary16. *)
Definition ex_tenth : BinaryValue := mkBinary 13421773 (-27) false.

Lemma ex_half_one : irepresentable Format.binary16 (units (mkBinary 1 0 false)).
Proof.
  exists 15360, (mkDecoded Category.finite false (mkBinary 1 0 false) 0 0).
  split; [unfold_words; lia|]. split; [reflexivity|]. split; [by right|reflexivity].
Qed.

Lemma ieee_rounds_correctly_witness :
  exists c d, encode_finite Format.binary16 ex_tenth ex_ieee = Ok c /\ idecode Format.binary16 (cbits c) = Ok d /\
    dnegative d = negative ex_tenth /\ (category d = Category.zero \/ category d = Category.finite) /\
    inexact (cflags c) = negb (units (finite d) =? units ex_tenth) /\ foverflow (cflags c) = false /\
    rounds_to 0 (irepresentable Format.binary16) (units ex_tenth) (units (finite d)).
Proof.
  apply (ieee_rounds_correctly Format.binary16 ex_tenth ex_ieee 0 (units (mkBinary 1 0 false)));
    [concrete|reflexivity|reflexivity|apply (irepresentable_zero Format.binary16 (mkIShape 16 10 5 15) eq_refl)|apply ex_half_one|].
  vm_compute. split; congruence.
Defined.

Lemma ieee_widening_exact_witness :
  exists c, convert Format.binary16 1 Format.binary32 ex_ieee = Ok c /\ cflags c = no_flags /\
    idecode Format.binary32 (cbits c) = Ok (mkDecoded Category.finite false (mkBinary 1 (-24) false) 0 0).
Proof.
  apply (ieee_widening_exact Format.binary16 Format.binary32 1);
    [vm_compute; split; congruence|vm_compute; congruence|concrete|reflexivity|reflexivity|right; left; reflexivity].
Defined.

Lemma ieee_convert_identity_witness :
  convert Format.binary16 0x7d01 Format.binary16 ex_ieee
    = Ok (mkConverted 0x7f01 (mkFlags true false false false false)).
Proof.
  apply (ieee_convert_identity Format.binary16 (mkIShape 16 10 5 15) 0x7d01
           (mkDecoded Category.signaling_nan false (mkBinary 0 0 false) 257 9) ex_ieee);
    [reflexivity|concrete|reflexivity|reflexivity|vm_compute; congruence|reflexivity].
Defined.
