(* ===== verification/IqSamples.v ===== *)
(** * IQ sample pairs: [include/vita/codec/samples.hpp]

    Packing of pairs of 16-bit, 32-bit or [float] samples in network order and the view that
    reads them back.  A [float] is represented by its bit pattern. *)

From S2P Require Import Prelude Wire WireProofs Fields.

(** [SampleScalar]: the element types the templates admit. *)
Inductive SampleScalar := s_int16 | s_int32 | s_float.

Definition scalar_size (T : SampleScalar) : Z := match T with s_int16 => 2 | _ => 4 end.

(** [std::bit_cast] to and from the unsigned integer of the same size. *)
Definition to_bits (T : SampleScalar) (x : Z) : Z :=
  match T with s_int16 => to_unsigned 16 x | s_int32 => to_unsigned 32 x | s_float => x end.
Definition of_bits (T : SampleScalar) (x : Z) : Z :=
  match T with s_int16 => to_signed 16 x | s_int32 => to_signed 32 x | s_float => x end.

(** The values of the element type. *)
Definition scalar_typed (T : SampleScalar) (x : Z) : Prop :=
  match T with
  | s_int16 => -32768 <= x <= 32767
  | s_int32 => -2147483648 <= x <= 2147483647
  | s_float => u32 x
  end.

Record Iq := mkIq { iq_i : Z; iq_q : Z }.
#[global] Instance Iq_eq_dec : EqDecision Iq.
Proof. solve_decision. Defined.

Fixpoint pack_iq_loop (T : SampleScalar) (samples : list Iq) (output : list byte) (offset : Z)
    : Result (list byte) :=
  match samples with
  | [] => Ok output
  | sample :: samples =>
      if scalar_size T =? 2 then
        let? output := store32 output offset (Z.lor (Z.shiftl (to_bits T (iq_i sample)) 16) (to_bits T (iq_q sample))) in
        pack_iq_loop T samples output (offset + 4)
      else
        let? output := store32 output offset (to_bits T (iq_i sample)) in
        let? output := store32 output (offset + 4) (to_bits T (iq_q sample)) in
        pack_iq_loop T samples output (offset + 8)
  end.

(** [source] and [destination] are the addresses of the two spans. *)
Definition pack_iq (T : SampleScalar) (source : Z) (samples : list Iq) (destination : Z)
    (output : list byte) : Result (Z * list byte) :=
  let? size := checked_multiply (zlen samples) (scalar_size T * 2) in
  fail_if zlen output <? size with error3 ErrorCode.short_output 0 size ;;
  fail_if nonzero size &&
          (if source <=? destination then destination - source <? size else source - destination <? size)
    with error1 ErrorCode.invalid_argument ;;
  let? output := pack_iq_loop T samples output 0 in
  Ok (size, output).

(** [SampleView] holds the bytes it was created from. *)
Definition SampleView := list byte.

Definition view_create (T : SampleScalar) (data : list byte) : Result SampleView :=
  fail_if nonzero (zlen data mod (scalar_size T * 2)) with error1 ErrorCode.invalid_argument ;;
  Ok data.

Definition view_size (T : SampleScalar) (data : SampleView) : Z := zlen data / (scalar_size T * 2).

Definition view_at (T : SampleScalar) (data : SampleView) (index : Z) : Result Iq :=
  fail_if view_size T data <=? index with error2 ErrorCode.invalid_argument index ;;
  let offset := index * scalar_size T * 2 in
  if scalar_size T =? 2 then
    let? bits := load32 data offset in
    Ok (mkIq (of_bits T (wrap16 (Z.shiftr bits 16))) (of_bits T (wrap16 bits)))
  else
    let? i := load32 data offset in
    let? q := load32 data (offset + 4) in
    Ok (mkIq (of_bits T i) (of_bits T q)).

(** ** Round trip *)

Definition iq_typed (T : SampleScalar) (x : Iq) : Prop := scalar_typed T (iq_i x) /\ scalar_typed T (iq_q x).

(** The words of a pair on the wire. *)
Definition iq_words (T : SampleScalar) (x : Iq) : list Z :=
  if scalar_size T =? 2 then [Z.lor (Z.shiftl (to_bits T (iq_i x)) 16) (to_bits T (iq_q x))]
  else [to_bits T (iq_i x); to_bits T (iq_q x)].

Lemma bits_roundtrip T x : scalar_typed T x -> of_bits T (to_bits T x) = x /\ u32 (to_bits T x) /\
  (scalar_size T = 2 -> u16 (to_bits T x)).
Proof.
  destruct T; cbn -[Z.pow]; unfold to_signed, to_unsigned; intros H; [| |by split_and!].
  - change (2 ^ (16 - 1)) with 32768. change (2 ^ 16) with 65536. bdestruct_step; zlia.
  - change (2 ^ (32 - 1)) with 2147483648. change (2 ^ 32) with 4294967296. bdestruct_step; zlia.
Qed.

Lemma iq_words_length T x : 4 * zlen (iq_words T x) = scalar_size T * 2.
Proof. by destruct T. Qed.

Lemma pack_iq_loop_app T samples pre mid post :
  zlen mid = scalar_size T * 2 * zlen samples ->
  pack_iq_loop T samples (pre ++ mid ++ post) (zlen pre)
    = Ok (pre ++ words_bytes (mjoin (iq_words T <$> samples)) ++ post).
Proof.
  revert pre mid. induction samples as [|x samples IH]; intros pre mid Hm.
  { destruct mid; [done|]. unfold zlen in Hm. simpl in Hm. lia. }
  assert (Hlen : zlen (x :: samples) = zlen samples + 1) by (unfold zlen; simpl; lia). rewrite Hlen in Hm.
  pose proof (zlen_nonneg samples). cbn [pack_iq_loop fmap list_fmap mjoin list_join]. rewrite words_bytes_app.
  assert (Hstep : forall w pre mid, 4 <= zlen mid ->
    exists mid', zlen mid' = zlen mid - 4 /\
      store32 (pre ++ mid ++ post) (zlen pre) w = Ok ((pre ++ be32_bytes w) ++ mid' ++ post) /\
      zlen (pre ++ be32_bytes w) = zlen pre + 4).
  { clear. intros w pre mid H4. destruct (split_length mid 4) as (a & b & -> & Ha); [unfold zlen in H4; lia|].
    exists b. rewrite zlen_app. split; [unfold zlen; lia|].
    rewrite <- !app_assoc, store32_app by done. split; [done|]. rewrite zlen_app. done. }
  unfold iq_words at 1. destruct (Z.eqb_spec (scalar_size T) 2) as [ES|ES].
  - rewrite ES in Hm. destruct (Hstep (Z.lor (Z.shiftl (to_bits T (iq_i x)) 16) (to_bits T (iq_q x))) pre mid)
      as (m1 & H1 & -> & H2); [lia|]. cbn [rbind].
    rewrite <- H2, IH by lia. cbn [words_bytes]. by rewrite app_nil_r, <- !app_assoc.
  - assert (scalar_size T = 4) as E4 by (by destruct T). rewrite E4 in Hm.
    destruct (Hstep (to_bits T (iq_i x)) pre mid) as (m1 & H1 & -> & H2); [lia|]. cbn [rbind]. rewrite <- H2.
    destruct (Hstep (to_bits T (iq_q x)) (pre ++ be32_bytes (to_bits T (iq_i x))) m1) as (m2 & H3 & -> & H4); [lia|].
    cbn [rbind]. replace (zlen pre + 8) with (zlen ((pre ++ be32_bytes (to_bits T (iq_i x))) ++ be32_bytes (to_bits T (iq_q x)))) by lia.
    rewrite IH by lia. cbn [words_bytes]. by rewrite app_nil_r, <- !app_assoc.
Qed.

Lemma iq_words_total T samples :
  zlen (words_bytes (mjoin (iq_words T <$> samples))) = zlen samples * (scalar_size T * 2).
Proof.
  rewrite zlen_words_bytes. induction samples as [|y l IH]; [done|].
  change (mjoin (iq_words T <$> y :: l)) with (iq_words T y ++ mjoin (iq_words T <$> l)).
  change (zlen (y :: l)) with (Z.of_nat (S (length l))). rewrite zlen_app. pose proof (iq_words_length T y).
  unfold zlen in IH at 2. lia.
Qed.

(** The words of the pair at an index. *)
Lemma iq_words_at T samples k x post :
  samples !! k = Some x ->
  at_words (words_bytes (mjoin (iq_words T <$> samples)) ++ post) (Z.of_nat k * (scalar_size T * 2)) (iq_words T x).
Proof.
  intros Hx. rewrite <- (take_drop_middle samples k x Hx), fmap_app, join_app.
  cbn [fmap list_fmap]. change (mjoin (iq_words T x :: ?l)) with (iq_words T x ++ mjoin l).
  assert (Hpre : zlen (words_bytes (mjoin (iq_words T <$> take k samples))) = Z.of_nat k * (scalar_size T * 2)).
  { rewrite iq_words_total. f_equal. unfold zlen. rewrite length_take. apply lookup_lt_Some in Hx. lia. }
  rewrite <- Hpre. split; [apply zlen_nonneg|]. rewrite !words_bytes_app, <- !app_assoc.
  unfold zlen. rewrite Nat2Z.id, drop_app_length. rewrite <- words_bytes_length. apply take_app_length.
Qed.

(** Words that stand for a pair read as that pair. *)
Lemma view_words T wire off x :
  scalar_typed T (iq_i x) -> scalar_typed T (iq_q x) -> at_words wire off (iq_words T x) ->
  (if scalar_size T =? 2 then
     let? bits := load32 wire off in Ok (mkIq (of_bits T (wrap16 (Z.shiftr bits 16))) (of_bits T (wrap16 bits)))
   else let? i := load32 wire off in let? q := load32 wire (off + 4) in Ok (mkIq (of_bits T i) (of_bits T q)))
  = Ok x.
Proof.
  intros Hi Hq Hat. destruct (bits_roundtrip T _ Hi) as (Ei & Ui & Si), (bits_roundtrip T _ Hq) as (Eq & Uq & Sq).
  unfold iq_words in Hat. destruct (Z.eqb_spec (scalar_size T) 2) as [ES|ES].
  - specialize (Si ES). specialize (Sq ES). unfold u16, U16_MAX in *.
    rewrite Z.shiftl_mul_pow2, lor_low in Hat by lia. change (2 ^ 16) with 65536 in Hat.
    rewrite (at_words_one_inv wire off _ Hat) by (unfold_words; lia). cbn [rbind].
    rewrite Z.shiftr_div_pow2 by lia. change (2 ^ 16) with 65536. unfold wrap16.
    rewrite Z.div_add_l, (Z.div_small (to_bits T (iq_q x))), Z.add_0_r, (Z.mod_small (to_bits T (iq_i x))) by lia.
    rewrite Z.add_comm, Z.mod_add, Z.mod_small, Ei, Eq by lia. by destruct x.
  - change [to_bits T (iq_i x); to_bits T (iq_q x)] with ([to_bits T (iq_i x)] ++ [to_bits T (iq_q x)]) in Hat.
    apply at_words_app in Hat as [H1 H2]. rewrite (at_words_one_inv _ _ _ H1 Ui). cbn [rbind].
    change (4 * zlen [to_bits T (iq_i x)]) with 4 in H2. rewrite (at_words_one_inv _ _ _ H2 Uq). cbn [rbind]. rewrite Ei, Eq. by destruct x.
Qed.

(** Pairs that were packed are read back by the view of the bytes written; the rest of the
    output is untouched. *)
Theorem iq_roundtrip T source samples destination output size output' :
  Forall (iq_typed T) samples -> pack_iq T source samples destination output = Ok (size, output') ->
  exists v, view_create T (take (Z.to_nat size) output') = Ok v /\ view_size T v = zlen samples /\
    (forall k x, samples !! k = Some x -> view_at T v (Z.of_nat k) = Ok x) /\
    length output' = length output /\ drop (Z.to_nat size) output' = drop (Z.to_nat size) output.
Proof.
  intros Hty H. unfold pack_iq in H. inv_ok. rename H0 into Hm. unfold checked_multiply in Hm. inv_ok.
  set (n := zlen samples * (scalar_size T * 2)) in *. apply Z.ltb_ge in E.
  assert (Hsz : 4 <= scalar_size T * 2) by (by destruct T). pose proof (zlen_nonneg samples).
  destruct (split_length output (Z.to_nat n)) as (mid & post & -> & Hmid); [unfold zlen in *; lia|].
  assert (Hmz : zlen mid = n) by (unfold zlen; lia).
  pose proof (pack_iq_loop_app T samples [] mid post ltac:(lia)) as HL. simpl in HL.
  change (zlen []) with 0 in HL. rewrite HL in *. inv_ok.
  set (wire := words_bytes (mjoin (iq_words T <$> samples))).
  assert (Hwl : length wire = Z.to_nat n).
  { pose proof (iq_words_total T samples). unfold wire, n, zlen in *. lia. }
  assert (Hwz : zlen wire = n) by (unfold zlen; lia).
  rewrite take_app_length', drop_app_length', <- Hmid, drop_app_length by done.
  exists wire. unfold view_create. rewrite Hwz. unfold n at 1. rewrite Z.mod_mul by lia.
  assert (Hvs : view_size T wire = zlen samples) by (unfold view_size; rewrite Hwz; apply Z.div_mul; lia).
  split; [done|]. split; [done|]. split; [|split; [rewrite !length_app; lia|done]].
  intros k x Hx. unfold view_at. rewrite Hvs. pose proof (lookup_lt_Some _ _ _ Hx).
  rewrite (proj2 (Z.leb_gt _ _)) by (unfold zlen; lia).
  pose proof (iq_words_at T samples k x [] Hx) as Hat. rewrite app_nil_r in Hat. fold wire in Hat.
  rewrite Forall_lookup in Hty. destruct (Hty k x Hx) as [Hi Hq].
  rewrite <- Z.mul_assoc. by apply view_words.
Qed.

Definition ex_pairs : list Iq := [mkIq (-1) 2; mkIq 32767 (-32768); mkIq 258 772].

Lemma iq_roundtrip_witness :
  exists v, view_create s_int16 (take 12 (match pack_iq s_int16 0 ex_pairs 64 (replicate 14 x55) with
                                           | Ok (_, b) => b | _ => [] end)) = Ok v /\
    view_size s_int16 v = 3 /\ (forall k x, ex_pairs !! k = Some x -> view_at s_int16 v (Z.of_nat k) = Ok x).
Proof.
  edestruct (iq_roundtrip s_int16 0 ex_pairs 64 (replicate 14 x55) 12) as (v & H1 & H2 & H3 & _).
  - repeat constructor; vm_compute; congruence.
  - vm_compute. reflexivity.
  - exists v. split; [exact H1|]. split; [exact H2|exact H3].
Defined.
