(* ===== verification/SampleDescriptors.v ===== *)
(** * Sample descriptors and segmented payloads:
      [include/vita/codec/sample_descriptors.hpp], [include/vita/codec/segmented_samples.hpp]

    The payload-format word of a packet describes how its items are packed and what numbers
    they hold.  A payload is read from one contiguous span or from several segments. *)

From S2P Require Import Prelude NumericSamples PackedSamples IeeeSamples.

Module SignalDomain.
Definition time : Z := 0.
Definition spectral : Z := 1.
Definition spectral_log_power : Z := 2.
End SignalDomain.

Module ComponentUnit.
Inductive t := dimensionless | decibels | pi_multiple | two_pi_multiple | radians | unspecified.
#[global] Instance t_eq_dec : EqDecision t.
Proof. solve_decision. Defined.
End ComponentUnit.

(** [std::variant<numeric::NumericSpec, ieee::Format>] *)
Inductive NumberFormat := numeric_format (n : NumericSpec) | ieee_format (f : Z).

Record Descriptor := mkDescriptor {
  d_wire : Z; d_packing : PackingSpec; d_number : NumberFormat; d_domain : Z
}.

Definition high_word (w : Z) : Z := wrap32 (Z.shiftr w 32).
Definition low_word (w : Z) : Z := wrap32 w.

(** The members of [p], in the order the code assigns them. *)
Definition wire_packing (w : Z) : PackingSpec :=
  let high := high_word w in
  let low := low_word w in
  let kind := Z.land (Z.shiftr high 29) 3 in
  let repeat_count := Z.shiftr low 16 + 1 in
  let component := nonzero (Z.land high (Z.shiftl 1 23)) in
  mkPacking (Z.land high 63 + 1) (Z.land (Z.shiftr high 6) 63 + 1)
    (Z.land (Z.shiftr high 16) 15) (Z.land (Z.shiftr high 20) 7)
    (if nonzero (Z.shiftr high 31) then PackingMode.link else PackingMode.processing)
    (if kind =? 0 then SampleKind.real else if kind =? 1 then SampleKind.cartesian else SampleKind.polar)
    (if component then RepeatMode.component
     else if 1 <? repeat_count then RepeatMode.channel else RepeatMode.none)
    (Z.land low 65535 + 1) repeat_count.

(** The number format that a code selects for items of [bits] bits. *)
Definition wire_number (code frac item_bits domain : Z) : Result NumberFormat :=
  if (code =? 13) || (code =? 14) || (code =? 15) then
    let b := if code =? 13 then 16 else if code =? 14 then 32 else 64 in
    fail_if negb (item_bits =? b) || nonzero frac with error1 ErrorCode.invalid_argument ;;
    Ok (ieee_format (if code =? 13 then Format.binary16
                     else if code =? 14 then Format.binary32 else Format.binary64))
  else
    let? n :=
      (if (code =? 0) || (code =? 16) then
         Ok (mkSpec (if code =? 0 then Kind.signed_fixed else Kind.unsigned_fixed) item_bits 0 0)
       else if ((1 <=? code) && (code <=? 6)) || ((17 <=? code) && (code <=? 22)) then
         Ok (mkSpec (if code <? 16 then Kind.signed_vrt else Kind.unsigned_vrt) item_bits 0 (Z.land code 15))
       else if (code =? 7) || (code =? 23) then
         fail_if domain =? SignalDomain.time with error1 ErrorCode.invalid_argument ;;
         Ok (mkSpec (if code =? 7 then Kind.signed_non_normalized else Kind.unsigned_non_normalized)
               item_bits frac 0)
       else Err (error1 ErrorCode.unsupported_layout)) in
    fail_if negb (code =? 7) && negb (code =? 23) && nonzero frac with error1 ErrorCode.invalid_argument ;;
    let? _ := decode_exact n 0 in
    Ok (numeric_format n).

Definition descriptor (wire domain : Z) : Result Descriptor :=
  fail_if negb (domain =? SignalDomain.time) && negb (domain =? SignalDomain.spectral)
          && negb (domain =? SignalDomain.spectral_log_power)
    with error1 ErrorCode.invalid_argument ;;
  let high := high_word wire in
  let kind := Z.land (Z.shiftr high 29) 3 in
  let code := Z.land (Z.shiftr high 24) 31 in
  let frac := Z.land (Z.shiftr high 12) 15 in
  fail_if kind =? 3 with error1 ErrorCode.invalid_argument ;;
  let p := wire_packing wire in
  fail_if nonzero (Z.land high (Z.shiftl 1 23)) && (repeat_count p =? 1) with error1 ErrorCode.invalid_argument ;;
  let? _ := measure p 0 default_limits in
  let? number := wire_number code frac (item_bits p) domain in
  fail_if (domain =? SignalDomain.spectral_log_power) &&
          (negb (skind p =? SampleKind.real) || (16 <? item_bits p)
           || (negb (code =? 0) && negb (code =? 7) && negb (code =? 23)))
    with error1 ErrorCode.invalid_argument ;;
  Ok (mkDescriptor wire p number domain).

Definition component_unit (d : Descriptor) (component : Z) : Result ComponentUnit.t :=
  let p := d_packing d in
  fail_if (if skind p =? SampleKind.real then 1 else 2) <=? component with error1 ErrorCode.invalid_argument ;;
  if d_domain d =? SignalDomain.spectral_log_power then Ok ComponentUnit.decibels else
  if negb (skind p =? SampleKind.polar) || negb (component =? 1) then Ok ComponentUnit.dimensionless else
  match d_number d with
  | ieee_format _ => Ok ComponentUnit.radians
  | numeric_format n =>
      let kind := nkind n in
      if (kind =? Kind.signed_non_normalized) || (kind =? Kind.unsigned_non_normalized)
      then Ok ComponentUnit.unspecified
      else Ok (if (kind =? Kind.signed_fixed) || (kind =? Kind.signed_vrt)
               then ComponentUnit.pi_multiple else ComponentUnit.two_pi_multiple)
  end.

Module PadReporting.
Definition omitted_by_class : Z := 0.
Definition exact : Z := 1.
Definition allow_zero_when_implied : Z := 2.
End PadReporting.

Record PaddingEvidence := mkEvidence { pad_policy : Z; class_id_pad_bits : option Z }.
Record PayloadBinding := mkBinding { b_structures : Z; b_padding : PaddingEvidence }.

(** The bits of a payload after its last item. *)
Definition padding_of (p : PackingSpec) (sh : Shape) : Z :=
  let last := if nonzero (items sh) then bit_offset p (items sh - 1) + packing_bits p else 0 in
  wrap64 (wrap64 (sbytes sh * 8) - last).

Definition measure_payload (d : Descriptor) (binding : PayloadBinding) (limits : Limits) : Result Shape :=
  let? sh := measure (d_packing d) (b_structures binding) limits in
  let p := d_packing d in
  let padding := padding_of p sh in
  let evidence := b_padding binding in
  if pad_policy evidence =? PadReporting.omitted_by_class then
    fail_if is_some (class_id_pad_bits evidence) with error1 ErrorCode.invalid_argument ;;
    Ok sh
  else if (pad_policy evidence =? PadReporting.exact)
          || (pad_policy evidence =? PadReporting.allow_zero_when_implied) then
    match class_id_pad_bits evidence with
    | None => Err (error1 ErrorCode.invalid_argument)
    | Some b =>
        fail_if 31 <? b with error1 ErrorCode.invalid_argument ;;
        fail_if negb (b =? padding) &&
                negb ((pad_policy evidence =? PadReporting.allow_zero_when_implied) && (b =? 0)
                      && (padding <? item_bits p))
          with error1 ErrorCode.invalid_argument ;;
        Ok sh
    end
  else Err (error1 ErrorCode.invalid_argument).

Definition contiguous (bytes : list byte) (d : Descriptor) (binding : PayloadBinding) (limits : Limits)
    : Result PackedSamples :=
  let? _ := measure_payload d binding limits in
  create bytes (d_packing d) (b_structures binding) limits.

(** ** Segments *)

(** A span of bytes: its address and contents. *)
Record Piece := mkPiece { piece_data : Z; piece_bytes : list byte }.
Record Segment := mkSegment { seg_bytes : list byte; seg_end : Z }.

Record SegmentedSamples := mkSegmented {
  ss_segments : list Segment;
  ss_descriptor : Descriptor;
  ss_shape : Shape
}.

(** [byte]: the segment that covers an offset; [begin_] is the end of the one before it. *)
Fixpoint segment_byte (segs : list Segment) (begin_ offset : Z) : Result byte :=
  match segs with
  | [] => Ok x00
  | g :: segs =>
      if offset <? seg_end g then deref (seg_bytes g !! Z.to_nat (offset - begin_))
      else segment_byte segs (seg_end g) offset
  end.

Fixpoint segment_read (segs : list Segment) (offset b value : Z) (n : nat) : Result Z :=
  match n with
  | O => Ok value
  | S n =>
      let bit := wrap64 (offset + b) in
      let? x := segment_byte segs 0 (bit / 8) in
      segment_read segs offset (b + 1)
        (Z.lor (wrap64 (Z.shiftl value 1)) (Z.land (Z.shiftr (Z_of_byte x) (7 - bit mod 8)) 1)) n
  end.

Definition segments_read (segs : list Segment) (offset width : Z) : Result Z :=
  segment_read segs offset 0 0 (Z.to_nat width).

(** The loop over the pieces; the array of [max] segments is written at its used length. *)
Fixpoint add_pieces (max : nat) (pieces : list Piece) (segs : list Segment) (extent : Z)
    : Result (list Segment * Z) :=
  match pieces with
  | [] => Ok (segs, extent)
  | p :: pieces =>
      match piece_bytes p with
      | [] => add_pieces max pieces segs extent
      | _ =>
          fail_if piece_data p =? 0 with error1 ErrorCode.invalid_argument ;;
          fail_if SIZE_MAX - extent <? zlen (piece_bytes p) with error1 ErrorCode.overflow ;;
          let extent := extent + zlen (piece_bytes p) in
          if (max <=? length segs)%nat then UB
          else add_pieces max pieces (segs ++ [mkSegment (piece_bytes p) extent]) extent
      end
  end.

Definition segmented_create (max : nat) (pieces : list Piece) (d : Descriptor) (binding : PayloadBinding)
    (limits : Limits) : Result SegmentedSamples :=
  fail_if Z.of_nat max <? zlen pieces with error3 ErrorCode.resource_limit 0 (zlen pieces) ;;
  let? sh := measure_payload d binding limits in
  let? (segs, extent) := add_pieces max pieces [] 0 in
  fail_if extent <? sbytes sh with error3 ErrorCode.short_input 0 (sbytes sh) ;;
  fail_if negb (extent =? sbytes sh) with error1 ErrorCode.invalid_argument ;;
  Ok (mkSegmented segs d sh).

Definition segmented_at (s : SegmentedSamples) (index : Z) : Result Item :=
  fail_if items (ss_shape s) <=? index with error2 ErrorCode.invalid_argument index ;;
  let p := d_packing (ss_descriptor s) in
  let offset := bit_offset p index in
  let? d := segments_read (ss_segments s) offset (item_bits p) in
  let? c := segments_read (ss_segments s) (wrap64 (offset + packing_bits p - channel_tag_bits p)) (channel_tag_bits p) in
  let? e := segments_read (ss_segments s)
              (wrap64 (offset + packing_bits p - channel_tag_bits p - event_tag_bits p)) (event_tag_bits p) in
  Ok (mkItem d c e).
