(* ===== verification/DescriptorProofs.v ===== *)
(** * Sample descriptors and segmented payloads: what they promise

    A descriptor that is accepted is consistent and determines the word it came from; a payload
    cut into segments reads as the contiguous payload. *)

From S2P Require Import Prelude Wire WireProofs NumericSamples NumericProofs PackedSamples PackedProofs.
From S2P Require Import IeeeSamples IeeeProofs SampleDescriptors.

(** ** Segments *)















(** ** Descriptors *)

(** The fields of the payload-format word, by position. *)
Definition w_link (h : Z) : Z := h / 2 ^ 31.
Definition w_kind (h : Z) : Z := (h / 2 ^ 29) mod 4.
Definition w_code (h : Z) : Z := (h / 2 ^ 24) mod 32.
Definition w_component (h : Z) : Z := (h / 2 ^ 23) mod 2.
Definition w_event (h : Z) : Z := (h / 2 ^ 20) mod 8.
Definition w_channel (h : Z) : Z := (h / 2 ^ 16) mod 16.
Definition w_frac (h : Z) : Z := (h / 2 ^ 12) mod 16.
Definition w_packing (h : Z) : Z := (h / 2 ^ 6) mod 64.
Definition w_item (h : Z) : Z := h mod 64.

Lemma high_fields_sum h : 0 <= h < 2 ^ 32 ->
  h = w_link h * 2 ^ 31 + w_kind h * 2 ^ 29 + w_code h * 2 ^ 24 + w_component h * 2 ^ 23 + w_event h * 2 ^ 20
      + w_channel h * 2 ^ 16 + w_frac h * 2 ^ 12 + w_packing h * 2 ^ 6 + w_item h.
Proof.
  intros Hh. unfold w_link, w_kind, w_code, w_component, w_event, w_channel, w_frac, w_packing, w_item.
  change (2 ^ 31) with 2147483648. change (2 ^ 29) with 536870912. change (2 ^ 24) with 16777216.
  change (2 ^ 23) with 8388608. change (2 ^ 20) with 1048576. change (2 ^ 16) with 65536. change (2 ^ 12) with 4096.
  change (2 ^ 6) with 64. change (2 ^ 32) with 4294967296 in Hh. zlia.
Qed.

Lemma land_field h k n : 0 <= k -> 0 <= n -> Z.land (Z.shiftr h k) (2 ^ n - 1) = (h / 2 ^ k) mod 2 ^ n.
Proof. intros. by rewrite land_mask, Z.shiftr_div_pow2. Qed.

Lemma component_flag h : nonzero (Z.land h (Z.shiftl 1 23)) = nonzero (w_component h).
Proof. change (nonzero (Z.land h (Z.shiftl 1 23))) with (bit_set h 23). by rewrite bit_set_div by lia. Qed.

Lemma wire_packing_fields w :
  let h := high_word w in
  let l := low_word w in
  wire_packing w = mkPacking (w_item h + 1) (w_packing h + 1) (w_channel h) (w_event h)
    (if nonzero (w_link h) then PackingMode.link else PackingMode.processing)
    (if w_kind h =? 0 then SampleKind.real else if w_kind h =? 1 then SampleKind.cartesian else SampleKind.polar)
    (if nonzero (w_component h) then RepeatMode.component
     else if 1 <? l / 2 ^ 16 + 1 then RepeatMode.channel else RepeatMode.none)
    (l mod 2 ^ 16 + 1) (l / 2 ^ 16 + 1).
Proof.
  intros h l. unfold wire_packing. fold h l. rewrite component_flag.
  change 63 with (2 ^ 6 - 1). change 15 with (2 ^ 4 - 1). change 7 with (2 ^ 3 - 1). change 3 with (2 ^ 2 - 1).
  change 65535 with (2 ^ 16 - 1). rewrite !land_field, !land_mask, !Z.shiftr_div_pow2 by lia. done.
Qed.

Lemma words_range w : u64 w -> w = high_word w * 2 ^ 32 + low_word w /\
  0 <= high_word w < 2 ^ 32 /\ 0 <= low_word w < 2 ^ 32.
Proof.
  intros Hw. unfold high_word, low_word, wrap32. rewrite Z.shiftr_div_pow2 by lia.
  change (2 ^ 32) with 4294967296. zlia.
Qed.

Lemma wire_packing_typed w : u64 w -> packing_typed (wire_packing w).
Proof.
  intros Hw. destruct (words_range w Hw) as (_ & Hh & Hl). rewrite wire_packing_fields. unfold packing_typed. simpl.
  unfold w_item, w_packing, w_channel, w_event. change (2 ^ 32) with 4294967296 in *. unfold u32, U32_MAX.
  split_and!; zlia.
Qed.

Lemma nvalidate_of_decode n x v : decode_exact n x = Ok v -> nvalidate n = Ok tt.
Proof. unfold decode_exact. destruct (nvalidate n) as [[]| |]; done. Qed.

(** The number format agrees with the width of the items. *)
Definition number_ok (n : NumberFormat) (item_bits : Z) : Prop :=
  match n with
  | numeric_format n => nvalidate n = Ok tt /\ bits n = item_bits
  | ieee_format f => exists s, shape f = Ok s /\ width s = item_bits
  end.

Lemma wire_number_ok code frac ib domain n :
  wire_number code frac ib domain = Ok n -> number_ok n ib.
Proof.
  unfold wire_number. intros H. destruct (_ || (code =? 15)) eqn:E.
  - inv_ok. rewrite orb_false_iff, negb_false_iff, Z.eqb_eq in E0. destruct E0 as [-> _]. simpl.
    destruct (code =? 13), (code =? 14); eauto.
  - inv_ok. match goal with D : decode_exact _ _ = Ok _ |- _ => apply nvalidate_of_decode in D end. simpl.
    split; [done|]. match goal with D : (if _ then _ else _) = Ok _ |- _ => revert D end.
    repeat case_match; intros D; try done; by injection D as <-.
Qed.

(** C38. An accepted payload format packs its items consistently, in a payload the code can
    measure, and its number format is a valid one for the width of the items. *)
Theorem descriptor_sound w domain d :
  u64 w -> descriptor w domain = Ok d ->
  d_wire d = w /\ d_domain d = domain /\ packing_valid (d_packing d) /\
  number_ok (d_number d) (item_bits (d_packing d)) /\
  (d_domain d = SignalDomain.spectral_log_power ->
     skind (d_packing d) = SampleKind.real /\ item_bits (d_packing d) <= 16) /\
  forall c, 0 <= c < components (skind (d_packing d)) -> exists u, component_unit d c = Ok u.
Proof.
  intros Hw H. unfold descriptor in H. inv_ok. cbn [d_wire d_domain d_packing d_number].
  split; [done|]. split; [done|].
  match goal with M : measure _ _ _ = Ok _ |- _ =>
    destruct (measure_Ok _ _ _ _ (wire_packing_typed w Hw) (Z.le_refl 0) M) as (Hv & _) end.
  match goal with N : wire_number _ _ _ _ = Ok _ |- _ => pose proof (wire_number_ok _ _ _ _ _ N) as Hn end.
  split; [done|]. split; [done|]. split.
  - intros Hd. match goal with C : (_ =? SignalDomain.spectral_log_power) && _ = false |- _ => rewrite Hd, Z.eqb_refl in C;
      cbn [andb] in C; rewrite !orb_false_iff, negb_false_iff, Z.eqb_eq, Z.ltb_ge in C end. lia.
  - intros c Hc. unfold component_unit. cbn [d_packing d_domain d_number]. unfold components in Hc.
    rewrite (proj2 (Z.leb_gt _ _)) by lia. repeat case_match; eauto.
Qed.

(** The code that a number format came from. *)
Definition code_of (n : NumberFormat) : Z :=
  match n with
  | ieee_format f => 13 + f
  | numeric_format n =>
      if nkind n =? Kind.signed_fixed then 0 else if nkind n =? Kind.unsigned_fixed then 16
      else if nkind n =? Kind.signed_vrt then exponent_bits n else if nkind n =? Kind.unsigned_vrt then 16 + exponent_bits n
      else if nkind n =? Kind.signed_non_normalized then 7 else 23
  end.
Definition frac_of (n : NumberFormat) : Z :=
  match n with ieee_format _ => 0 | numeric_format n => fractional_bits n end.

Lemma wire_number_code code frac ib domain n :
  0 <= code < 32 -> wire_number code frac ib domain = Ok n -> code = code_of n /\ frac = frac_of n.
Proof.
  unfold wire_number. intros Hc H.
  assert (Hl : Z.land code 15 = code mod 16) by (change 15 with (2 ^ 4 - 1); by rewrite land_mask).
  destruct (_ || (code =? 15)) eqn:E.
  - inv_ok. rewrite orb_false_iff in E0. destruct E0 as [_ E0]. unfold nonzero in E0. simpl.
    unfold Format.binary16, Format.binary32, Format.binary64.
    destruct (Z.eqb_spec code 13), (Z.eqb_spec code 14), (Z.eqb_spec code 15); simpl in E; try done; lia.
  - inv_ok. rewrite Hl in *. unfold nonzero in *. match goal with D : (if _ then _ else _) = Ok _ |- _ => revert D end.
    destruct (Z.eqb_spec code 0), (Z.eqb_spec code 16); cbn [orb]; try lia;
      [intros [= <-]; simpl; lia..|].
    destruct (((1 <=? code) && (code <=? 6)) || ((17 <=? code) && (code <=? 22))) eqn:Ev.
    + intros [= <-]. simpl in *. destruct (Z.ltb_spec code 16); simpl; split; zlia.
    + destruct (Z.eqb_spec code 7), (Z.eqb_spec code 23); cbn [orb]; try done; try lia;
        (destruct (domain =? SignalDomain.time); [done|]); intros [= <-]; simpl; lia.
Qed.

(** Where the parts of an accepted description come from. *)
Lemma descriptor_fields w domain d :
  descriptor w domain = Ok d ->
  d_packing d = wire_packing w /\ w_kind (high_word w) < 3 /\
  w_code (high_word w) = code_of (d_number d) /\ w_frac (high_word w) = frac_of (d_number d).
Proof.
  intros H. unfold descriptor in H. inv_ok. cbn [d_packing d_number]. split; [done|].
  match goal with N : wire_number _ _ _ _ = Ok _ |- _ => revert N end.
  change 31 with (2 ^ 5 - 1). change 15 with (2 ^ 4 - 1). rewrite !land_field by lia. intros N.
  match goal with K : (_ =? 3) = false |- _ => revert K end.
  change (Z.land (Z.shiftr (high_word w) 29) 3) with (Z.land (Z.shiftr (high_word w) 29) (2 ^ 2 - 1)).
  rewrite land_field by lia. intros K%Z.eqb_neq. fold (w_kind (high_word w)) in K.
  apply wire_number_code in N; [|apply Z.mod_pos_bound; lia]. split; [|done]. unfold w_kind in *. zlia.
Qed.

Lemma nonzero_bit_inj a b : 0 <= a <= 1 -> 0 <= b <= 1 -> nonzero a = nonzero b -> a = b.
Proof. unfold nonzero. intros. destruct (Z.eqb_spec a 0), (Z.eqb_spec b 0); done || lia. Qed.

(** The description determines the payload-format word: no two words mean the same. *)
Theorem descriptor_injective w w' domain d d' :
  u64 w -> u64 w' -> descriptor w domain = Ok d -> descriptor w' domain = Ok d' ->
  d_packing d = d_packing d' -> d_number d = d_number d' -> w = w'.
Proof.
  intros Hw Hw' H H' Hp Hn.
  destruct (descriptor_fields w domain d H) as (E & K & C & Fr), (descriptor_fields w' domain d' H') as (E' & K' & C' & Fr').
  rewrite E, E', !wire_packing_fields in Hp.
  pose proof (f_equal item_bits Hp) as P1. cbn [item_bits] in P1.
  pose proof (f_equal packing_bits Hp) as P2. cbn [packing_bits] in P2.
  pose proof (f_equal channel_tag_bits Hp) as P3. cbn [channel_tag_bits] in P3.
  pose proof (f_equal event_tag_bits Hp) as P4. cbn [event_tag_bits] in P4.
  pose proof (f_equal packing Hp) as P5. cbn [packing] in P5.
  pose proof (f_equal skind Hp) as P6. cbn [skind] in P6.
  pose proof (f_equal repeating Hp) as P7. cbn [repeating] in P7.
  pose proof (f_equal vector_size Hp) as P8. cbn [vector_size] in P8.
  pose proof (f_equal repeat_count Hp) as P9. cbn [repeat_count] in P9.
  destruct (words_range w Hw) as (Ew & Hh & Hl), (words_range w' Hw') as (Ew' & Hh' & Hl').
  assert (El : low_word w = low_word w').
  { rewrite (Z.div_mod (low_word w) (2 ^ 16)), (Z.div_mod (low_word w') (2 ^ 16)) by lia. lia. }
  assert (Eh : high_word w = high_word w'); [|lia].
  rewrite (high_fields_sum _ Hh), (high_fields_sum _ Hh'), C, C', Fr, Fr', Hn.
  assert (w_item (high_word w) = w_item (high_word w')) as -> by lia.
  assert (w_packing (high_word w) = w_packing (high_word w')) as -> by lia.
  rewrite P3, P4. f_equal. f_equal. f_equal. f_equal. f_equal.
  assert (w_link (high_word w) = w_link (high_word w')) as ->.
  { apply nonzero_bit_inj; [unfold w_link; zlia..|]. unfold PackingMode.link, PackingMode.processing in P5.
    by destruct (nonzero (w_link (high_word w))), (nonzero (w_link (high_word w'))). }
  assert (w_kind (high_word w) = w_kind (high_word w')) as ->.
  { clear - P6 K K'. unfold SampleKind.real, SampleKind.cartesian, SampleKind.polar in P6.
    assert (0 <= w_kind (high_word w) /\ 0 <= w_kind (high_word w')) by (unfold w_kind; zlia).
    repeat bdestruct_step; lia. }
  assert (w_component (high_word w) = w_component (high_word w')) as ->; [|done].
  apply nonzero_bit_inj; [unfold w_component; zlia..|].
  clear - P7. unfold RepeatMode.component, RepeatMode.channel, RepeatMode.none in P7.
  by destruct (nonzero (w_component (high_word w))), (nonzero (w_component (high_word w'))),
    (1 <? low_word w / 2 ^ 16 + 1), (1 <? low_word w' / 2 ^ 16 + 1).
Qed.

(** ** Witnesses: complex 16-bit fixed-point samples *)

Definition ex_format : Z := 0xA00003CF00000000.
Definition ex_descriptor : Descriptor :=
  mkDescriptor ex_format (wire_packing ex_format) (numeric_format (mkSpec Kind.signed_fixed 16 0 0)) 0.

Lemma descriptor_sound_witness :
  packing_valid (wire_packing ex_format) /\ exists u, component_unit ex_descriptor 1 = Ok u.
Proof.
  destruct (descriptor_sound ex_format 0 ex_descriptor) as (_ & _ & H1 & _ & _ & H2);
    [vm_compute; split; congruence|vm_compute; reflexivity|].
  split; [exact H1|]. apply H2. split; [lia|vm_compute; reflexivity].
Defined.

Lemma descriptor_injective_witness : ex_format = 0xA00003CF00000000.
Proof.
  apply (descriptor_injective ex_format 0xA00003CF00000000 0 ex_descriptor ex_descriptor);
    first [reflexivity | vm_compute; split; congruence].
Defined.

